(* ===== verification/_CoqProject ===== *)
-Q . S2P
Prelude.v
WireError.v
NameList.v
Primitives.v
Messages.v
KexInit.v
ExtInfo.v
WireIdent.v
Opening.v
OpeningProofs.v
OpeningSpec.v
OpeningProps.v
TcpIdent.v
Packet.v
Initial.v
Probe.v
Observer.v
KeyAlgorithm.v
HostKey.v
HostKeyProps.v
Spki.v
SpkiProps.v
Negotiate.v
Gcm.v
Transcript.v
Trust.v
PrivateKey.v
PrivateKeyProps.v
KnownHosts.v
KnownHostsProps.v
Text.v
TextProps.v
FacadeTrust.v
Handshake.v
HandshakeProofs.v
HandshakeProps.v
Seam.v
ConnectRun.v
Drivers.v
DriversProofs.v
ProbeRun.v
HandshakeRun.v
ObserverRun.v
Listener.v
ListenerProofs.v
ListenerProps.v
Calendar.v
Utf8.v
Display.v
Named.v
ProbeReport.v
ProbeReportProps.v
Records.v
RecordsProps.v
ObserverLog.v
RecordEvidence.v
HandshakeReport.v
NamedHandshake.v
HandshakeReportProps.v
Durations.v
QuicTls.v
QuicClient.v
QuicClientProps.v
QuicReport.v
QuicReportProps.v
HostSignature.v
Cli.v
ClientCli.v
ClientCliProps.v
QuicIdentity.v
QuicServer.v
QuicServerProps.v
QuicRun.v
QuicRunProps.v
QuicRecords.v
QuicRecordsProps.v
QuicLog.v
ServerCli.v
ServerCliProps.v
QuicPair.v
