(* ===== verification/Prelude.v ===== *)
(** * Verification of tatami-ssh

    tatami-ssh is a sans-I/O implementation of parts of the SSH transport and
    connection protocols in Rust: byte-level codecs (crates/tatami_ssh_wire),
    state machines for the TCP transport (crates/tatami_ssh_tcp), the channel
    opening engine (crates/tatami_ssh_connection), host-key handling
    (crates/tatami_ssh_keys) and QUIC handshake diagnostics
    (crates/tatami_ssh_quic), driven by adapters that own sockets and clocks,
    with two programs on top (tatami-client and tatami-server of
    crates/tatami_ssh). This library models the codecs, the state machines, the
    adapters and both programs as executable functions and proves what makes
    them correct.

    ** How the code is represented

    A byte slice is a list of bytes; lengths, offsets and integers are [Z] with
    their Rust width stated where it matters ([usize] is 64 bits wide). A method
    with [&mut self] that returns a [Result] is a function of the state that
    returns the state after the call with the [Result], on both branches (the
    monad [M] below with the [let!] notation where many calls are threaded; an
    explicit pair elsewhere). An encoder that writes into the caller's buffer
    returns the buffer after the call. Where a call can panic ([unreachable!],
    an out-of-range index, [expect], an underflowing subtraction), the function
    returns an [option] whose [None] is the panic, and a theorem shows it is
    never reached. [Display] text is modelled (Display.v); [Debug] text is not.

    ** The parts

    - Prelude.v: integers, slices, big-endian bytes, results, notations, tactics.
    - WireError.v (wire/error.rs): error enumerations.
    - NameList.v (wire/namelist.rs): name-list validator and iterator.
    - Primitives.v (wire/primitives.rs): [Reader], [Writer], [Mpint]; the
      interfaces [Reads] and [Writes] every message codec is proved against.
    - Messages.v (wire/transport.rs, kex.rs, channel.rs, message.rs, msg.rs): the
      messages; the interface [Codec] and its laws.
    - KexInit.v (wire/kexinit.rs, algorithms.rs), ExtInfo.v (wire/ext_info.rs),
      WireIdent.v (wire/ident.rs): KEXINIT and its markers, EXT_INFO, the
      identification string.
    - Opening.v (connection/opening.rs): the channel opening engine as it is
      written, over slots with generations, tombstones and queues;
      OpeningProofs.v its representation invariant; OpeningSpec.v an abstract
      engine (a finite map from handles to channels) and the simulation;
      OpeningProps.v the resulting theorems.
    - TcpIdent.v (tcp/ident.rs): the incremental identification reader.
    - Packet.v (tcp/packet.rs): unprotected packet framing.
    - Initial.v (tcp/initial.rs): bounded input buffer, budgets, classification of
      what may precede KEXINIT.
    - Probe.v (tcp/probe.rs) and Observer.v (tcp/observer.rs): the client-side and
      server-side observation state machines built on the previous three.
    - KeyAlgorithm.v (keys/algorithm.rs): key types and signature schemes.
    - Negotiate.v (tcp/negotiate.rs): the client's proposal and the selection rule.
    - Gcm.v (tcp/gcm.rs): protected packets. The cipher and the padding generator
      are the classes [Aead] and [Rng]; [AeadLaws] and [RngLaws] state what the
      code relies on (decryption inverts encryption, lengths are preserved, a
      plaintext of up to [AEAD_P_MAX] bytes encrypts).
    - Transcript.v (tcp/transcript.rs): key agreement, exchange hash, key expansion.
      SHA-256 and X25519 are the classes [Hash] and [Dh] with [HashLaws] (32-byte
      digests) and [DhLaws] (32-byte values, commutativity).
    - HostKey.v (keys/blob.rs, host_key.rs, ed25519.rs, rsa.rs, ecdsa.rs,
      provider.rs, error.rs): public-key and signature blobs, key policies and
      signature dispatch; HostKeyProps.v their theorems. ed25519-dalek is the
      class [Dalek] with [DalekLaws] (a parsed key re-encodes to its bytes); the
      host's signature provider is a record of functions.
    - Spki.v (keys/spki.rs): the strict DER reader and the conversion between
      SubjectPublicKeyInfo and host keys; SpkiProps.v its exactness.
    - PrivateKey.v (keys/openssh_key.rs): checks on OpenSSH host private keys and
      their PKCS#8, PKCS#1 and SEC1 forms; PrivateKeyProps.v the theorems, with
      reference readers of the three formats. The container parser, the Ed25519
      derivation and 8192-bit arithmetic are the classes [SshKey],
      [DalekSigning] and [U8192] with their laws.
    - Trust.v (keys/fingerprint.rs, trust.rs, sshfp.rs): fingerprints, trust
      policies, SSHFP records. Base64 is the class [Base64].
    - KnownHosts.v (keys/known_hosts.rs, openssh_compat/lib.rs): the file parser,
      host patterns, hashed names and the trust decision; KnownHostsProps.v the
      reference matcher and the theorems. Padded base64 and HMAC-SHA1 are the
      classes [Base64Padded] and [HmacSha1].
    - Text.v (tatami_ssh/text.rs, json.rs): terminal escaping and the JSON
      serializer; TextProps.v reference readers and the round trips.
    - FacadeTrust.v (tatami_ssh/trust.rs, host/files.rs): bounded file reads and
      the trust policy prepared before connecting. The file system is the class
      [Fs].
    - Handshake.v (tcp/handshake.rs): the client handshake over all of the above;
      HandshakeProofs.v its invariant, handler by handler, up to reachability;
      HandshakeProps.v the theorems and an example run. The entropy source is
      the class [TryRng] with [TryRngLaws] (it fills what it is asked for).
    - Seam.v (tcp/io/seam.rs, connect of tcp/io.rs): sockets and clocks as the
      class [Seam] over an arbitrary world, with [SeamLaws] (a call never reports
      more than its buffer holds), [write_all_by], resolver and connect as the
      class [Net], and the scripted connection of the repository's own tests as
      an instance; ConnectRun.v what [connect] does.
    - Drivers.v (tcp/io.rs, io/handshake.rs, per-connection part of
      io/listener.rs): the blocking loops around probe, handshake and observer;
      DriversProofs.v a seam that records every call, the deadline discipline on
      that record and the lemmas all drivers share; ProbeRun.v, HandshakeRun.v
      and ObserverRun.v the theorems on each.
    - Listener.v (tcp/io/listener.rs): the accept loop, its workers, the bounded
      record channel and the sink thread as interleaved steps; ListenerProofs.v
      its invariants, ListenerProps.v the theorems and example runs.
    - Calendar.v (date arithmetic of tatami_ssh/server.rs): RFC 3339 time stamps,
      against a day-by-day reference calendar.
    - Utf8.v: [String::from_utf8_lossy] and UTF-8 encoding as the reports use them.
    - Display.v: the [Display] implementations of the wire, tcp, keys and facade
      crates. What the standard library prints (addresses, I/O errors, floating
      point) is the classes [Shows], [ShowAddr] and [FsShows].
    - Named.v and NamedHandshake.v: the names that errors carry are the literals
      of the source, in every reachable state; reports rely on it.
    - ProbeReport.v and HandshakeReport.v (tatami_ssh/client.rs): the commands
      [probe] and [handshake], their reports, text and JSON records;
      ProbeReportProps.v and HandshakeReportProps.v the theorems.
    - Records.v (tatami_ssh/server.rs): the command [observe], its JSONL records,
      encoder and sink; RecordsProps.v the framing of a log, RecordEvidence.v what
      a record says of the bytes received, ObserverLog.v the listener of
      Listener.v composed with the sink. The log's writer is the class [LogOut]
      with [LogOutLaws], standard base64 the class [Base64Plain].
    - Durations.v ([parse_duration] of both programs): durations in IEEE 754
      binary64 arithmetic. Cli.v what the two programs share: parsing that can
      end in a usage error or a panic, the console (class [Console]), and standard
      base64 as an instance of the class [Base64].
    - HostSignature.v (tatami_ssh/host/signature.rs): the signature provider over
      ring (class [Ring]).
    - QuicTls.v (quic/diag/mod.rs, tls.rs): TLS configuration, the SSH host-key
      verifier and the certificate verifiers; rustls is the class [Rustls].
      QuicClient.v (quic/diag/client.rs, udp.rs): the client core and its UDP
      driver over quinn-proto (classes [Quinn] and [Udp]); QuicClientProps.v what
      a completed handshake means. QuicReport.v (tatami_ssh/quic_diag/client.rs,
      mod.rs, time.rs): the command, its text and JSON record; QuicReportProps.v
      its theorem.
    - QuicIdentity.v (quic/diag/identity.rs): host keys and test certificates a
      server presents (classes [Signing], [Rcgen], [Pem], [IdentityDir]).
      QuicServer.v (quic/diag/server.rs): the server core, with the order of a
      hash map as the class [HashOrder]; QuicServerProps.v its invariant. QuicRun.v
      (same file): [DiagServer], its loop, shared flags and channel (class
      [ServerEnv]); QuicRunProps.v what a run adds up to.
    - QuicRecords.v (tatami_ssh/quic_diag/server.rs): options, host-key loading,
      records and sink; QuicRecordsProps.v the identity presented; QuicLog.v the
      run composed with its sink thread, under any schedule, and its log.
      QuicPair.v (quic/diag/inmem.rs): the two cores paired in memory, as tests
      drive them, and that the theorems on both hold for such a pair.
    - ClientCli.v (bin/tatami-client.rs) and ServerCli.v (bin/tatami-server.rs):
      the two programs from their arguments to their exit status;
      ClientCliProps.v and ServerCliProps.v the theorems.

    ** What the theorems show

    - Codecs: every decoder accepts exactly the images of well-formed values,
      every encoder writes them and nothing else, a failed read or write leaves
      its cursor alone, counts and lengths are bounded (claims on [Reader],
      [Writer], the messages, KEXINIT, EXT_INFO, identification).
    - Channel opening: the engine refines the abstract one; its invariant holds
      in every reachable state; errors have no effect; local numbers are never
      reused; a channel is established only by agreement of both sides; a reply
      to a cancelled open is recognised. Slot generations wrap, and one theorem
      shows that an old handle denotes a new channel exactly after a multiple of
      2^32 reuses.
    - Receiving: identification, framing and the probe do not depend on how
      reads split the stream; budgets and buffer bounds hold; no reachable state
      panics; a waiting machine always has room to read; outcomes are final.
    - Key exchange: negotiation selects the first common entry and reports
      failures truthfully; our own proposal stays within the implemented
      profile; the hash input is unambiguous; the secret is checked and the keys
      of each direction are those of RFC 4253.
    - Host keys: blobs parse exactly to the keys they encode, key policies are
      exact, a signature is accepted only under the scheme of its key type and a
      provider only sees well-formed requests; pins compare the digest of the
      whole blob.
    - known_hosts: the iterative matcher computes the meaning of patterns; on
      names with a literal star, which lookup names never have, it accepts no more
      than the meaning, and one theorem shows where it accepts less; a file parses as a whole or not at all; the
      decision is the documented one, with revocation first and independent of
      line order; lookup names determine host and port.
    - Keys at rest: a host key has one SPKI and the conversions are inverse; an
      OpenSSH private key is accepted exactly when its halves belong together as
      far as the crate checks ([p q = n], [d < n], CRT exponents, derived
      Ed25519 key), and the DER handed to a TLS stack reads back to its secrets.
    - Facade: prepared trust is bound to the file read and to the lookup name,
      and errors name their cause; escaped text is printable and recoverable;
      JSON lines have no control characters and parse to the value written.
    - Handshake: for any server and any order of the caller's calls no state
      panics and [step] returns; NEWKEYS is sent only after the signature over
      this very exchange verified and the caller trusted the host; both
      directions use the keys derived from it; strict KEX is enforced; a
      completed outcome means the requested service was accepted; outcomes are
      final, secrets are dropped and budgets hold.
    - Drivers: over any network, clock and policy, what a run reports is what its
      state machine says of the bytes that were exchanged, every socket call is
      bounded by the time then left to one deadline, timeouts are only reported
      when time ran out (for the observer, never because a read poll expired),
      and the run ends; a handshake run completes only if the
      caller's policy trusted the identity verified; connecting tries addresses
      in order within one deadline and reports every attempt.
    - Listener: in every interleaving, capacity is never exceeded, counters add
      up, each observed connection has at most one record and that record is what
      its worker observed, the sink gets a prefix of what was queued in order,
      the summary is true, and a stopping run returns without help from workers,
      sink or clients. One theorem exhibits a race that loses the sink's error.
    - Reports: a handshake report says completed only for a host whose signature
      verified and which the policy trusted; report text is printable and keeps
      its lines whatever the peer sent; the JSON record parses to a value that
      says the same; time stamps are calendar dates. The observer's log is the
      records delivered, whole lines in order, whatever its writer does; a record
      holds the bytes received exactly or says they are truncated, and lists the
      messages unless it says that it was cut.
    - Protected packets: a sealed stream opens to the payloads sent; every packet
      sealed or opened went through the cipher under its own nonce; a payload is released only after verification.
    - QUIC client: a handshake is reported completed only if the verifier judged
      the very key that signed the handshake and the configured policy trusts it.
    - QUIC server: each accepted attempt has at most one record, the summary's
      counts are the numbers of records that say so, a required address
      validation shows in every record, drops are counted exactly; the log reads
      back to the events handed over and a run that lost nothing leaves a
      complete log; a host key file is served as the key it holds, proved by a
      signature, and judged by clients as over TCP.
    - Programs: exit status 0 of a client handshake means that a server proved
      possession of a key that the options on the command line name; no arguments
      crash the server's parser and what it accepts is valid for the observers.
      Two theorems exhibit durations that are handled badly: one of 2^64 seconds
      or more panics the client, and a tiny one is rounded to zero after it was
      checked.

    ** Fuel and bounds

    Iterators are drained with fuel one more than the remaining length; the
    lemmas on [drain], [items] and [derive_loop] show that this is enough;
    [ClientHandshake.step] runs with two rounds more than the buffered bytes
    ([step_total] shows every continuing round consumes input or ends); the
    matcher of known_hosts with one step more than the measure of
    [glob_loop_total]; the reference JSON parser with the length of its input
    ([size_length]); and [drains] in Probe.v is a relation with a separate proof
    that it terminates. The drivers' loops take their fuel as an argument: on a
    seam whose socket calls take time and whose clock never goes back (the class
    [Ticking]), more fuel than time left to the deadline is enough
    ([probe_run_ends], [handshake_run_ends], [observation_ends]); their inner
    drain runs with one call more than the buffered bytes ([drain_drains],
    [drain_hears]). The QUIC loops run for as long as peers and options say, so
    their fuel is an argument and their theorems speak of runs that return; the
    example runs show that they do. Instants and durations are unbounded integers:
    adding a configured timeout to the clock is assumed not to overflow (the
    standard library panics when it does, for timeouts near 2^63 seconds).
    Hypotheses of the form [zlen p <= USIZE_MAX - c] exclude slices longer than
    the address space.

    ** Not modelled

    The in-memory issuing certificate of quic/diag/identity.rs and the handshake
    of two bare quinn-proto endpoints of quic/diag/inmem.rs ([raw_handshake]),
    both test support; tests, fuzz targets and benches; crate roots, which only declare modules,
    and empty ones (the authentication crate, host/process.rs, host/pty.rs,
    host/environment.rs). Libraries the code calls are parameters: ring, rustls,
    quinn-proto, rcgen, ed25519-dalek, ssh-key, crypto-bigint, base64, and the
    operating system. Theorems on reports assume that integers have their Rust
    widths ([typed], [typed_report], [typed_event]).
    Of the drivers, the labels made only for display are left out; of the
    listener and the QUIC server, the widths of their counters. *)

From Stdlib Require Export Strings.Byte.
From Stdlib Require Export ZArith Lia.
From stdpp Require Export base strings numbers option.
From stdpp Require Export list.

#[export] Set Default Goal Selector "!".
#[export] Set Warnings "-clear-no-such-hyp".
#[global] Open Scope Z_scope.

(** ** Machine integers and bytes

    A [u8] held in a buffer is a [byte]; every integer value the code computes
    with ([u8], [u32], [u64], [usize]) is a [Z] whose range is stated where it
    matters. [usize] is 64 bits wide. *)

Abbreviation bytes := (list byte).

Definition U8_MAX : Z := 255.

Definition U32_MAX : Z := 4294967295.

Definition U64_MAX : Z := 18446744073709551615.

Definition USIZE_MAX : Z := 18446744073709551615.

Definition u8 (b : byte) : Z := Z.of_N (Byte.to_N b).

(** The low eight bits of an integer, as a stored byte ([as u8]). *)
Definition byte_of_Z (z : Z) : byte :=
  match Byte.of_N (Z.to_N (z mod 256)) with
  | Some b => b
  | None => x00
  end.

Definition is_u32 (z : Z) : Prop := 0 <= z <= U32_MAX.

Definition is_u64 (z : Z) : Prop := 0 <= z <= U64_MAX.

Definition is_usize (z : Z) : Prop := 0 <= z <= USIZE_MAX.

(** Rust's [checked_add] on [usize] and its saturating variant. *)
Definition checked_add_usize (a b : Z) : option Z :=
  if a + b <=? USIZE_MAX then Some (a + b) else None.

Definition saturating_add_usize (a b : Z) : Z := Z.min (a + b) USIZE_MAX.

Definition checked_add_u32 (a b : Z) : option Z :=
  if a + b <=? U32_MAX then Some (a + b) else None.

Definition checked_sub (a b : Z) : option Z :=
  if b <=? a then Some (a - b) else None.

(** [u32::try_from] on a [usize] value. *)
Definition u32_try_from (n : Z) : option Z :=
  if n <=? U32_MAX then Some n else None.

#[export] Instance byte_eq_decision : EqDecision byte := Byte.byte_eq_dec.

(** Byte-string literals: [b"..."] of the source. *)
Definition bstr (s : string) : bytes := String.list_byte_of_string s.

Definition byte_eqb (a b : byte) : bool := Byte.eqb a b.

Fixpoint bytes_eqb (a b : bytes) : bool :=
  match a, b with
  | [], [] => true
  | x :: a', y :: b' => byte_eqb x y && bytes_eqb a' b'
  | _, _ => false
  end.

(** ** Slices

    Lengths and offsets are [Z]; [zslice a b l] is [&l[a..b]]. *)

Definition zlen {A} (l : list A) : Z := Z.of_nat (length l).

Definition ztake {A} (n : Z) (l : list A) : list A := take (Z.to_nat n) l.

Definition zdrop {A} (n : Z) (l : list A) : list A := drop (Z.to_nat n) l.

Definition zslice {A} (a b : Z) (l : list A) : list A := zdrop a (ztake b l).

(** [l.get(i)]. *)
Definition znth {A} (i : Z) (l : list A) : option A :=
  if i <? 0 then None else l !! Z.to_nat i.

(** [l.iter().position(p)]. *)
Fixpoint position {A} (p : A -> bool) (l : list A) : option Z :=
  match l with
  | [] => None
  | x :: l' => if p x then Some 0 else (fun i => i + 1) <$> position p l'
  end.

(** [copy_from_slice] of [src] into [dst] at offset [at_]. *)
Definition write_at (at_ : Z) (src dst : bytes) : bytes :=
  ztake at_ dst ++ src ++ zdrop (at_ + zlen src) dst.

(** [l.strip_prefix(p)]. *)
Fixpoint strip_prefix (p l : bytes) : option bytes :=
  match p, l with
  | [], _ => Some l
  | x :: p', y :: l' => if byte_eqb x y then strip_prefix p' l' else None
  | _, [] => None
  end.

(** ** Network byte order: [to_be_bytes] and [from_be_bytes] *)

Fixpoint be_bytes (n : nat) (v : Z) : bytes :=
  match n with
  | O => []
  | S n' => byte_of_Z (v / 256 ^ Z.of_nat n') :: be_bytes n' v
  end.

Fixpoint be_val (l : bytes) : Z :=
  match l with
  | [] => 0
  | b :: l' => u8 b * 256 ^ zlen l' + be_val l'
  end.

(** ** Results and stateful fallible computations *)

Inductive result (A E : Type) : Type :=
| Ok (a : A)
| Err (e : E).

Arguments Ok {A E} a.
Arguments Err {A E} e.

Lemma Ok_inj {A E} (a b : A) : @Ok A E a = Ok b -> a = b.
Proof. congruence. Qed.

Definition is_ok {A E} (r : result A E) : bool :=
  match r with Ok _ => true | Err _ => false end.

Definition map_err {A E F} (f : E -> F) (r : result A E) : result A F :=
  match r with Ok a => Ok a | Err e => Err (f e) end.

Definition map_ok {A B E} (f : A -> B) (r : result A E) : result B E :=
  match r with Ok a => Ok (f a) | Err e => Err e end.

(** [Option::ok_or]. *)
Definition ok_or {A E} (o : option A) (e : E) : result A E :=
  match o with Some a => Ok a | None => Err e end.

Definition rbind {A B E} (r : result A E) (k : A -> result B E) : result B E :=
  match r with Ok a => k a | Err e => Err e end.

(** A method taking [&mut self] and returning a [Result]: the state after the
    call is part of the result on both branches. *)
Definition M (S E A : Type) : Type := S -> S * result A E.

Definition ret {S E A} (a : A) : M S E A := fun s => (s, Ok a).

Definition fail {S E A} (e : E) : M S E A := fun s => (s, Err e).

Definition bind {S E A B} (m : M S E A) (k : A -> M S E B) : M S E B :=
  fun s => match m s with
           | (s', Ok a) => k a s'
           | (s', Err e) => (s', Err e)
           end.

(** [map_err] under [?]. *)
Definition with_err {S E F A} (f : E -> F) (m : M S E A) : M S F A :=
  fun s => let '(s', r) := m s in (s', map_err f r).

Declare Scope tatami_scope.
Delimit Scope tatami_scope with tatami.
#[global] Open Scope tatami_scope.

Notation "'let!' x := m 'in' k" := (bind m (fun x => k))
  (at level 10, x pattern, m at level 100, k at level 200,
   format "'[v' 'let!'  x  :=  m  'in' '/' k ']'") : tatami_scope.
Notation "'let?' x := m 'in' k" := (rbind m (fun x => k))
  (at level 10, x pattern, m at level 100, k at level 200,
   format "'[v' 'let?'  x  :=  m  'in' '/' k ']'") : tatami_scope.
(** [Option] computations; [None] is also how a Rust panic is represented in
    the components that can panic. *)
Notation "'let*' x := m 'in' k" := (mbind (M:=option) (fun x => k) m)
  (at level 10, x pattern, m at level 100, k at level 200,
   format "'[v' 'let*'  x  :=  m  'in' '/' k ']'") : tatami_scope.

(** ** Shared lemmas *)

Create HintDb tatami discriminated.

Lemma u8_range (b : byte) : 0 <= u8 b < 256.
Proof. destruct b; vm_compute; split; congruence. Qed.

Lemma u8_byte_of_Z (z : Z) : u8 (byte_of_Z z) = z mod 256.
Proof.
  unfold u8, byte_of_Z.
  pose proof (Z.mod_pos_bound z 256 ltac:(lia)) as Hm.
  destruct (Byte.of_N (Z.to_N (z mod 256))) as [b|] eqn:Hb.
  - apply Byte.to_of_N in Hb. rewrite Hb. lia.
  - apply Byte.of_N_None_iff in Hb. lia.
Qed.

Lemma u8_inj (a b : byte) : u8 a = u8 b -> a = b.
Proof.
  unfold u8. intros H%N2Z.inj.
  assert (Some a = Some b) as [= ->]; [|done].
  by rewrite <- !Byte.of_to_N, H.
Qed.

Lemma byte_of_Z_u8 (b : byte) : byte_of_Z (u8 b) = b.
Proof.
  apply u8_inj. rewrite u8_byte_of_Z. apply Z.mod_small, u8_range.
Qed.

Lemma byte_eqb_spec (a b : byte) : byte_eqb a b = bool_decide (a = b).
Proof.
  unfold byte_eqb. case_bool_decide as H.
  - subst. by apply Byte.byte_dec_lb.
  - destruct (Byte.eqb a b) eqn:E; [|done]. by apply Byte.byte_dec_bl in E.
Qed.

Lemma bytes_eqb_spec (a b : bytes) : bytes_eqb a b = bool_decide (a = b).
Proof.
  revert b; induction a as [|x a IH]; intros [|y b]; simpl; try done.
  rewrite byte_eqb_spec, IH.
  repeat case_bool_decide; naive_solver.
Qed.

Lemma bytes_eqb_eq (a b : bytes) : bytes_eqb a b = true <-> a = b.
Proof. rewrite bytes_eqb_spec. apply bool_decide_eq_true. Qed.

Lemma bytes_eqb_refl (a : bytes) : bytes_eqb a a = true.
Proof. by apply bytes_eqb_eq. Qed.

Lemma bytes_eqb_neq (a b : bytes) : bytes_eqb a b = false <-> a <> b.
Proof. rewrite bytes_eqb_spec. apply bool_decide_eq_false. Qed.

(** *** Lengths and slices *)

Section slices.
Context {A : Type}.
Implicit Types l k : list A.

Lemma zlen_nonneg l : 0 <= zlen l.
Proof. unfold zlen. lia. Qed.

Lemma zlen_nil : zlen (@nil A) = 0.
Proof. done. Qed.

Lemma zlen_cons x l : zlen (x :: l) = 1 + zlen l.
Proof. unfold zlen. simpl length. lia. Qed.

Lemma zlen_app l k : zlen (l ++ k) = zlen l + zlen k.
Proof. unfold zlen. rewrite length_app. lia. Qed.

Lemma zlen_0 l : zlen l = 0 -> l = [].
Proof. destruct l; [done|]. rewrite zlen_cons. pose proof (zlen_nonneg l). lia. Qed.

Lemma zlen_ztake n l : 0 <= n <= zlen l -> zlen (ztake n l) = n.
Proof. unfold zlen, ztake. rewrite length_take. lia. Qed.

Lemma zlen_ztake_le n l : zlen (ztake n l) <= zlen l.
Proof. unfold zlen, ztake. rewrite length_take. lia. Qed.

Lemma zlen_ztake_min n l : 0 <= n -> zlen (ztake n l) = Z.min n (zlen l).
Proof. unfold zlen, ztake. rewrite length_take. lia. Qed.

Lemma zlen_zdrop n l : 0 <= n <= zlen l -> zlen (zdrop n l) = zlen l - n.
Proof. unfold zlen, zdrop. rewrite length_drop. lia. Qed.

Lemma ztake_zdrop n l : ztake n l ++ zdrop n l = l.
Proof. apply take_drop. Qed.

Lemma ztake_app_exact l k n : n = zlen l -> ztake n (l ++ k) = l.
Proof. intros ->. unfold ztake, zlen. rewrite Nat2Z.id. apply take_app_length. Qed.

Lemma zdrop_app_exact l k n : n = zlen l -> zdrop n (l ++ k) = k.
Proof. intros ->. unfold zdrop, zlen. rewrite Nat2Z.id. apply drop_app_length. Qed.

Lemma ztake_all l n : zlen l <= n -> ztake n l = l.
Proof. unfold ztake, zlen. intros. apply take_ge. lia. Qed.

Lemma zdrop_all l n : zlen l <= n -> zdrop n l = [].
Proof. unfold zdrop, zlen. intros. apply drop_ge. lia. Qed.

Lemma zdrop_0 l : zdrop 0 l = l.
Proof. done. Qed.

Lemma ztake_0 l : ztake 0 l = [].
Proof. done. Qed.

Lemma zdrop_zdrop n m l : 0 <= n -> 0 <= m -> zdrop n (zdrop m l) = zdrop (m + n) l.
Proof. unfold zdrop. intros. rewrite drop_drop. f_equal. lia. Qed.

Lemma ztake_app_le n l k : n <= zlen l -> ztake n (l ++ k) = ztake n l.
Proof. unfold ztake, zlen. intros. apply take_app_le. lia. Qed.

Lemma zdrop_app_le n l k : n <= zlen l -> zdrop n (l ++ k) = zdrop n l ++ k.
Proof. unfold zdrop, zlen. intros. apply drop_app_le. lia. Qed.

Lemma zdrop_app_ge n l k : zlen l <= n -> zdrop n (l ++ k) = zdrop (n - zlen l) k.
Proof.
  unfold zdrop, zlen. intros. rewrite drop_app_ge by lia. f_equal. lia.
Qed.

Lemma ztake_app_ge n l k : zlen l <= n -> ztake n (l ++ k) = l ++ ztake (n - zlen l) k.
Proof.
  unfold ztake, zlen. intros. rewrite take_app_ge by lia. do 2 f_equal. lia.
Qed.

(** A prefix of length [n] can be split off a list at least that long. *)
Lemma zsplit n l : 0 <= n <= zlen l -> exists a b, l = a ++ b /\ zlen a = n.
Proof.
  intros. exists (ztake n l), (zdrop n l).
  by rewrite ztake_zdrop, zlen_ztake.
Qed.

Lemma app_inj_zlen l1 l2 k1 k2 :
  l1 ++ k1 = l2 ++ k2 -> zlen l1 = zlen l2 -> l1 = l2 /\ k1 = k2.
Proof. unfold zlen. intros H Hl. apply app_inj_1 in H; [done|lia]. Qed.

Lemma zslice_app_exact l m k a b :
  a = zlen l -> b = zlen l + zlen m -> zslice a b (l ++ m ++ k) = m.
Proof.
  intros -> ->. unfold zslice.
  rewrite app_assoc, ztake_app_exact by (by rewrite zlen_app).
  by apply zdrop_app_exact.
Qed.
End slices.

Create Rewrite HintDb zlen.
#[export] Hint Rewrite @zlen_nil @zlen_cons @zlen_app : zlen.

(** Normalises lengths everywhere and calls [lia] with the facts that every
    length is non-negative. *)
Ltac zlen_facts :=
  repeat match goal with
  | |- context [zlen ?l] =>
      lazymatch goal with
      | _ : 0 <= zlen l |- _ => fail
      | _ => pose proof (zlen_nonneg l)
      end
  | H : context [zlen ?l] |- _ =>
      lazymatch goal with
      | _ : 0 <= zlen l |- _ => fail
      | _ => pose proof (zlen_nonneg l)
      end
  end.

Ltac zlia := autorewrite with zlen in *; zlen_facts; lia.

Lemma znth_Some {A} i (l : list A) x : znth i l = Some x <-> 0 <= i /\ l !! Z.to_nat i = Some x.
Proof. unfold znth. destruct (Z.ltb_spec i 0); naive_solver lia. Qed.

Lemma znth_nonneg {A} i (l : list A) : 0 <= i -> znth i l = l !! Z.to_nat i.
Proof. intros. unfold znth. by destruct (Z.ltb_spec i 0); [lia|]. Qed.

Lemma write_at_app n d src old room :
  n = zlen d -> zlen old = zlen src -> write_at n src (d ++ old ++ room) = d ++ src ++ room.
Proof.
  intros -> Ho. unfold write_at. rewrite ztake_app_exact by done.
  rewrite (app_assoc d old room), zdrop_app_exact by zlia. done.
Qed.

Lemma zlen_write_at n src dst :
  0 <= n -> n + zlen src <= zlen dst -> zlen (write_at n src dst) = zlen dst.
Proof.
  intros Hn Hl. pose proof (zlen_nonneg src). unfold write_at.
  rewrite !zlen_app, zlen_ztake, zlen_zdrop by lia. lia.
Qed.

Lemma position_Some {A} (p : A -> bool) l i :
  position p l = Some i ->
  exists a x b, l = a ++ x :: b /\ zlen a = i /\ p x = true /\ Forall (fun y => p y = false) a.
Proof.
  revert i; induction l as [|y l IH]; intros i; simpl; [done|].
  destruct (p y) eqn:E.
  - intros [= <-]. exists [], y, l. auto.
  - destruct (position p l) as [j|] eqn:Ep; [|done].
    intros [= <-]. destruct (IH j eq_refl) as (a & x & b & -> & Ha & Hx & Hf).
    exists (y :: a), x, b. repeat split; [zlia|done|by constructor].
Qed.

Lemma position_None {A} (p : A -> bool) l :
  position p l = None <-> Forall (fun y => p y = false) l.
Proof.
  induction l as [|y l IH]; simpl; [by split|].
  destruct (p y) eqn:E.
  - split; [done|]. inversion 1; congruence.
  - rewrite Forall_cons, <- IH. clear IH.
    destruct (position p l); simpl; naive_solver.
Qed.

Lemma position_app_Some {A} (p : A -> bool) a x b :
  Forall (fun y => p y = false) a -> p x = true -> position p (a ++ x :: b) = Some (zlen a).
Proof.
  induction 1 as [|y a Hy Ha IH]; intros Hx; simpl.
  - by rewrite Hx.
  - rewrite Hy, IH by done. simpl. f_equal. zlia.
Qed.

Lemma strip_prefix_Some p l r : strip_prefix p l = Some r <-> l = p ++ r.
Proof.
  revert l; induction p as [|x p IH]; intros l; simpl; [naive_solver|].
  destruct l as [|y l]; [done|].
  rewrite byte_eqb_spec. case_bool_decide as E; [subst; rewrite IH|]; clear IH; naive_solver.
Qed.

(** *** Big-endian integers *)

Lemma zlen_be_bytes n v : zlen (be_bytes n v) = Z.of_nat n.
Proof. induction n as [|n IH]; simpl; [done|]. rewrite zlen_cons, IH. lia. Qed.

Lemma be_val_range l : 0 <= be_val l < 256 ^ zlen l.
Proof.
  induction l as [|b l IH]; simpl; [done|].
  rewrite zlen_cons, Z.pow_add_r by zlia.
  pose proof (u8_range b). nia.
Qed.

Lemma be_val_be_bytes n v : be_val (be_bytes n v) = v mod 256 ^ Z.of_nat n.
Proof.
  induction n as [|n IH]; simpl be_val.
  - by rewrite Z.mod_1_r.
  - rewrite u8_byte_of_Z, zlen_be_bytes, IH.
    rewrite Nat2Z.inj_succ, <- Z.add_1_r, Z.pow_add_r, Z.pow_1_r by lia.
    rewrite (Z.rem_mul_r v (256 ^ Z.of_nat n) 256) by lia. lia.
Qed.

Lemma be_bytes_be_val l : be_bytes (length l) (be_val l) = l.
Proof.
  cut (forall h, 0 <= h -> be_bytes (length l) (h * 256 ^ zlen l + be_val l) = l).
  { intros H. specialize (H 0 ltac:(lia)). by rewrite Z.mul_0_l, Z.add_0_l in H. }
  induction l as [|b l IH]; intros h Hh; simpl; [done|].
  pose proof (be_val_range l) as Hr. pose proof (u8_range b) as Hb.
  assert (0 < 256 ^ zlen l) by (apply Z.pow_pos_nonneg; zlia).
  f_equal.
  - apply u8_inj. rewrite u8_byte_of_Z.
    rewrite zlen_cons, Z.pow_add_r, Z.pow_1_r by zlia.
    change (256 ^ Z.of_nat (length l)) with (256 ^ zlen l).
    replace (h * (256 * 256 ^ zlen l) + (u8 b * 256 ^ zlen l + be_val l))
      with (be_val l + (h * 256 + u8 b) * 256 ^ zlen l) by ring.
    rewrite Z.div_add, Z.div_small by lia.
    rewrite Z.add_0_l, Z.add_comm, Z.mod_add, Z.mod_small; lia.
  - rewrite zlen_cons, Z.pow_add_r, Z.pow_1_r by zlia.
    etransitivity; [|apply (IH (h * 256 + u8 b)); lia]. f_equal. ring.
Qed.

Lemma be_bytes_small n v : 0 <= v < 256 ^ Z.of_nat n -> be_val (be_bytes n v) = v.
Proof. intros. rewrite be_val_be_bytes. by apply Z.mod_small. Qed.

Lemma be_bytes_4 v : is_u32 v -> be_val (be_bytes 4 v) = v.
Proof. intros [? ?]. apply be_bytes_small. unfold U32_MAX in *. lia. Qed.

Lemma be_bytes_8 v : is_u64 v -> be_val (be_bytes 8 v) = v.
Proof. intros [? ?]. apply be_bytes_small. unfold U64_MAX in *. lia. Qed.

Lemma be_val_4_range l : zlen l = 4 -> is_u32 (be_val l).
Proof. intros Hl. pose proof (be_val_range l) as H. rewrite Hl in H. unfold is_u32, U32_MAX. lia. Qed.

Lemma be_bytes_of_val n l : zlen l = Z.of_nat n -> be_bytes n (be_val l) = l.
Proof. intros H%Nat2Z.inj. subst n. apply be_bytes_be_val. Qed.

(** *** Results and the state-and-error monad *)

Lemma rbind_Ok {A B E} (r : result A E) (k : A -> result B E) b :
  rbind r k = Ok b -> exists a, r = Ok a /\ k a = Ok b.
Proof. destruct r; naive_solver. Qed.

Lemma bind_Ok_inv {S E A B} (m : M S E A) (k : A -> M S E B) s s' b :
  bind m k s = (s', Ok b) -> exists s1 a, m s = (s1, Ok a) /\ k a s1 = (s', Ok b).
Proof. unfold bind. destruct (m s) as [s1 [a|e]]; naive_solver. Qed.

Lemma bind_step {S E A B} (m : M S E A) (k : A -> M S E B) s s1 a :
  m s = (s1, Ok a) -> bind m k s = k a s1.
Proof. unfold bind. by intros ->. Qed.

Lemma bind_err {S E A B} (m : M S E A) (k : A -> M S E B) s s1 e :
  m s = (s1, Err e) -> bind m k s = (s1, Err e).
Proof. unfold bind. by intros ->. Qed.

Lemma with_err_Ok_inv {S E F A} (f : E -> F) (m : M S E A) s s' a :
  with_err f m s = (s', Ok a) -> m s = (s', Ok a).
Proof. unfold with_err. destruct (m s) as [s1 [x|e]]; simpl; naive_solver. Qed.

(** *** Sub-multisets *)

Lemma submseteq_NoDup {A} (l k : list A) : l ⊆+ k -> NoDup k -> NoDup l.
Proof. intros [r Hp]%submseteq_Permutation Hk. rewrite Hp in Hk. by apply NoDup_app in Hk as [? _]. Qed.

Lemma submseteq_Forall {A} (P : A -> Prop) (l k : list A) : l ⊆+ k -> Forall P k -> Forall P l.
Proof. intros [r Hp]%submseteq_Permutation Hk. rewrite Hp in Hk. by apply Forall_app in Hk as [? _]. Qed.
