(* ===== verification/WireError.v ===== *)
(** * Error types of the wire crate

    The error enumerations shared by the primitive codecs and the message
    decoders (crates/tatami_ssh_wire/src/error.rs), with the source's
    constructors and payloads. Their [Display] text is in Display.v. *)

From S2P Require Import Prelude.

(* wire/error.rs:35-48 InvalidEncoding *)
Inductive InvalidEncoding : Type :=
| NameListNonAscii (offset : Z)
| NameListEmptyName (offset : Z).

(* wire/error.rs:12-31 DecodeError *)
Inductive DecodeError : Type :=
| Truncated (needed available : Z)
| DecodeLengthOverflow (claimed available : Z)
| DecodeInvalidEncoding (e : InvalidEncoding).

(* wire/error.rs:90-109 EncodeError *)
Inductive EncodeError : Type :=
| InsufficientCapacity (needed available : Z)
| EncodeLengthOverflow (len : Z)
| InvalidName (index : Z).

(* wire/error.rs:136-160 MessageError *)
Inductive MessageError : Type :=
| MessageEmpty
| UnexpectedMessage (expected found : Z)
| MessageField (field : string) (offset : Z) (error : DecodeError)
| MessageTrailingBytes (count : Z).

#[export] Instance InvalidEncoding_eq_decision : EqDecision InvalidEncoding.
Proof. solve_decision. Defined.

#[export] Instance DecodeError_eq_decision : EqDecision DecodeError.
Proof. solve_decision. Defined.

#[export] Instance EncodeError_eq_decision : EqDecision EncodeError.
Proof. solve_decision. Defined.

#[export] Instance MessageError_eq_decision : EqDecision MessageError.
Proof. solve_decision. Defined.
