(* ===== verification/NameList.v ===== *)
(** * Name lists (RFC 4251 section 5)

    Models crates/tatami_ssh_wire/src/namelist.rs: the validator
    [NameList::parse], the lazy iterator [Names] and the operations built on
    it. The specification is the pair [split_commas] / [join_commas]: a body is
    accepted exactly when each of its comma-separated pieces is a valid name,
    and the iterator yields exactly these pieces. *)

From S2P Require Import Prelude WireError.

Definition comma : byte := ","%byte.

(* wire/namelist.rs:137-139 is_name_byte *)
Definition is_name_byte (b : byte) : bool :=
  (0x20 <? u8 b) && (u8 b <? 0x7f) && negb (byte_eqb b comma).

(* wire/namelist.rs:144-146 is_valid_name *)
Definition is_valid_name (name : bytes) : bool :=
  negb (bool_decide (name = [])) && forallb is_name_byte name.

Module NameList.

(* wire/namelist.rs:12-14 NameList *)
Record t : Type := mk { body : bytes }.

#[global] Instance t_eq_decision : EqDecision t.
Proof. solve_decision. Defined.

(* wire/namelist.rs:18-18 NameList::EMPTY *)
Definition EMPTY : t := mk [].

(* wire/namelist.rs:29-39 NameList::parse (the loop) *)
Fixpoint parse_loop (offset name_start : Z) (l : bytes) : result Z InvalidEncoding :=
  match l with
  | [] => Ok name_start
  | b :: l' =>
      if byte_eqb b comma then
        if offset =? name_start then Err (NameListEmptyName offset)
        else parse_loop (offset + 1) (offset + 1) l'
      else if negb (is_name_byte b) then Err (NameListNonAscii offset)
      else parse_loop (offset + 1) name_start l'
  end.

(* wire/namelist.rs:25-45 NameList::parse *)
Definition parse (body : bytes) : result t InvalidEncoding :=
  if bool_decide (body = []) then Ok (mk body)
  else
    let? name_start := parse_loop 0 0 body in
    if name_start =? zlen body then Err (NameListEmptyName name_start)
    else Ok (mk body).

(* wire/namelist.rs:49-51 NameList::as_bytes *)
Definition as_bytes (l : t) : bytes := body l.

(* wire/namelist.rs:63-65 NameList::is_empty *)
Definition is_empty (l : t) : bool := bool_decide (body l = []).

(* wire/namelist.rs:112-114 Names *)
Record Names : Type := mkNames { rest : option bytes }.

(* wire/namelist.rs:69-77 NameList::iter *)
Definition iter (l : t) : Names :=
  mkNames (if bool_decide (body l = []) then None else Some (body l)).

(* wire/namelist.rs:119-131 Names::next *)
Definition next (it : Names) : Names * option bytes :=
  match rest it with
  | None => (it, None)
  | Some r =>
      match position (fun b => byte_eqb b comma) r with
      | Some i => (mkNames (Some (zdrop (i + 1) r)), Some (ztake i r))
      | None => (mkNames None, Some r)
      end
  end.

(** Draining the iterator with a [for] loop: at most [fuel] calls of [next]. *)
Fixpoint drain (fuel : nat) (it : Names) : list bytes :=
  match fuel with
  | O => []
  | S fuel' => match next it with
               | (it', Some n) => n :: drain fuel' it'
               | (_, None) => []
               end
  end.

(** The names a [for] loop over the list visits; each name but the last is
    followed by a comma, so [length + 1] calls exhaust the iterator
    ([drain_enough]). *)
(* wire/namelist.rs:96-98 NameList::into_iter *)
Definition names (l : t) : list bytes := drain (S (length (body l))) (iter l).

(* wire/namelist.rs:81-83 NameList::len *)
Definition len (l : t) : Z := zlen (names l).

(* wire/namelist.rs:87-89 NameList::contains *)
Definition contains (l : t) (name : bytes) : bool :=
  existsb (fun n => bytes_eqb n name) (names l).

End NameList.

(** ** Specification: splitting and joining at commas *)

Fixpoint split_commas (l : bytes) : list bytes :=
  match l with
  | [] => [[]]
  | b :: l' =>
      if byte_eqb b comma then [] :: split_commas l'
      else match split_commas l' with
           | n :: ns => (b :: n) :: ns
           | [] => [[b]]
           end
  end.

Fixpoint join_commas (ns : list bytes) : bytes :=
  match ns with
  | [] => []
  | [n] => n
  | n :: ns' => n ++ comma :: join_commas ns'
  end.

(** The names of a body: none when it is empty, its pieces otherwise. *)
Definition names_of (body : bytes) : list bytes :=
  match body with [] => [] | _ => split_commas body end.

Definition no_comma (n : bytes) : Prop := Forall (fun b => byte_eqb b comma = false) n.

Lemma byte_eqb_comma b : byte_eqb b comma = true -> b = comma.
Proof. rewrite byte_eqb_spec. apply bool_decide_eq_true. Qed.

Lemma is_name_byte_no_comma b : is_name_byte b = true -> byte_eqb b comma = false.
Proof. unfold is_name_byte. destruct (byte_eqb b comma); [|done]. by rewrite andb_false_r. Qed.

Lemma is_valid_name_spec n :
  is_valid_name n = true <-> n <> [] /\ Forall (fun b => is_name_byte b = true) n.
Proof.
  unfold is_valid_name. rewrite andb_true_iff, negb_true_iff, bool_decide_eq_false, forallb_forall.
  by rewrite List.Forall_forall.
Qed.

Lemma is_valid_name_no_comma n : is_valid_name n = true -> no_comma n.
Proof.
  intros [_ H]%is_valid_name_spec. eapply Forall_impl; [exact H|].
  intros b; apply is_name_byte_no_comma.
Qed.

Lemma split_commas_plain n : no_comma n -> split_commas n = [n].
Proof. induction 1 as [|b n Hb Hn IH]; simpl; [done|]. by rewrite Hb, IH. Qed.

Lemma split_commas_comma n r :
  no_comma n -> split_commas (n ++ comma :: r) = n :: split_commas r.
Proof. induction 1 as [|b n Hb Hn IH]; simpl; [done|]. by rewrite Hb, IH. Qed.

Lemma split_commas_cons_ex l : exists n ns, split_commas l = n :: ns.
Proof.
  destruct l as [|b l]; simpl; [eauto|].
  destruct (byte_eqb b comma); [eauto|]. destruct (split_commas l); eauto.
Qed.

Lemma split_commas_head p b l :
  no_comma p -> byte_eqb b comma = false ->
  exists n ns, split_commas (p ++ b :: l) = (p ++ b :: n) :: ns.
Proof.
  induction 1 as [|c p Hc Hp IH]; intros Hb; simpl.
  - rewrite Hb. destruct (split_commas_cons_ex l) as (n & ns & ->). eauto.
  - destruct (IH Hb) as (n & ns & ->). rewrite Hc. eauto.
Qed.

Lemma join_split_commas l : join_commas (split_commas l) = l.
Proof.
  induction l as [|b l IH]; simpl; [done|].
  destruct (split_commas_cons_ex l) as (n & ns & Hs). rewrite Hs in *.
  destruct (byte_eqb b comma) eqn:E.
  - apply byte_eqb_comma in E as ->. simpl in *. by rewrite IH.
  - destruct ns; simpl in *; by rewrite IH.
Qed.

Lemma split_join_commas ns :
  ns <> [] -> Forall no_comma ns -> split_commas (join_commas ns) = ns.
Proof.
  intros Hne H. induction H as [|n ns Hn Hns IH]; [done|].
  destruct ns as [|m ns]; [by apply split_commas_plain|].
  change (join_commas (n :: m :: ns)) with (n ++ comma :: join_commas (m :: ns)).
  rewrite split_commas_comma, IH; done.
Qed.

Lemma join_commas_nil_inv ns :
  Forall (fun n => is_valid_name n = true) ns -> join_commas ns = [] -> ns = [].
Proof.
  intros H. destruct H as [|n ns Hn Hns]; [done|].
  apply is_valid_name_spec in Hn as [Hne _].
  destruct ns; simpl; [done|]. by intros [? [=]]%app_eq_nil.
Qed.

Lemma names_of_join ns :
  Forall (fun n => is_valid_name n = true) ns -> names_of (join_commas ns) = ns.
Proof.
  intros H. destruct (join_commas ns) eqn:E.
  - symmetry. by apply join_commas_nil_inv.
  - unfold names_of. rewrite <- E. apply split_join_commas.
    + by intros ->.
    + eapply Forall_impl; [exact H|]. intros n; apply is_valid_name_no_comma.
Qed.

Lemma join_names_of body : join_commas (names_of body) = body.
Proof. destruct body; [done|]. apply (join_split_commas (_ :: _)). Qed.

(** ** The validator *)

Lemma parse_loop_spec l : forall off st p,
  Forall (fun b => is_name_byte b = true) p -> off = st + zlen p ->
  (exists st', NameList.parse_loop off st l = Ok st' /\ st' <> off + zlen l) <->
  Forall (fun n => is_valid_name n = true) (split_commas (p ++ l)).
Proof.
  induction l as [|b l IH]; intros off st p Hp Hoff; cbn [NameList.parse_loop].
  - assert (no_comma p) as Hc
      by (eapply Forall_impl; [exact Hp|]; intros ?; apply is_name_byte_no_comma).
    rewrite app_nil_r, split_commas_plain, Forall_singleton, is_valid_name_spec by done.
    rewrite zlen_nil. split.
    + intros (st' & [= <-] & Hne). split; [|done]. intros ->. apply Hne. zlia.
    + intros [Hne _]. exists st. split; [done|]. destruct p; [done|]. zlia.
  - assert (no_comma p) as Hc
      by (eapply Forall_impl; [exact Hp|]; intros ?; apply is_name_byte_no_comma).
    destruct (byte_eqb b comma) eqn:Eb.
    + apply byte_eqb_comma in Eb as ->.
      rewrite split_commas_comma, Forall_cons, is_valid_name_spec by done.
      destruct (Z.eqb_spec off st) as [->|Hne].
      * assert (p = []) as -> by (apply zlen_0; lia). naive_solver.
      * specialize (IH (off + 1) (off + 1) [] ltac:(constructor)) as <-; [|zlia].
        rewrite zlen_cons, Z.add_assoc.
        assert (p <> []) by (intros ->; zlia). naive_solver.
    + destruct (is_name_byte b) eqn:En; simpl negb; cbv iota.
      * replace (p ++ b :: l) with ((p ++ [b]) ++ l) by (by rewrite <- app_assoc).
        rewrite zlen_cons, Z.add_assoc. apply IH; [|zlia].
        apply Forall_app. auto.
      * destruct (split_commas_head p b l) as (n & ns & ->); [done..|].
        rewrite Forall_cons, is_valid_name_spec, Forall_app, Forall_cons.
        naive_solver congruence.
Qed.

Lemma parse_ok_eq body l : NameList.parse body = Ok l -> l = NameList.mk body.
Proof.
  unfold NameList.parse. case_bool_decide; [naive_solver|].
  intros (st & _ & Hst)%rbind_Ok. destruct (st =? zlen body); naive_solver.
Qed.

Lemma parse_ok_iff body :
  NameList.parse body = Ok (NameList.mk body) <->
  Forall (fun n => is_valid_name n = true) (names_of body).
Proof.
  unfold NameList.parse. case_bool_decide as Hb; [by subst|].
  replace (names_of body) with (split_commas ([] ++ body)) by (by destruct body).
  rewrite <- (parse_loop_spec body 0 0 []); [|constructor|done].
  destruct (NameList.parse_loop 0 0 body) as [st|e]; simpl.
  - destruct (Z.eqb_spec st (zlen body)); naive_solver lia.
  - naive_solver.
Qed.

Lemma parse_loop_err l : forall off st e,
  st <= off ->
  NameList.parse_loop off st l = Err e ->
  exists a c,
    l = a ++ c /\ Forall (fun b => b = comma \/ is_name_byte b = true) a /\
    match e with
    | NameListNonAscii o =>
        o = off + zlen a /\
        exists b c', c = b :: c' /\ b <> comma /\ is_name_byte b = false
    | NameListEmptyName o =>
        o = off + zlen a /\ (exists c', c = comma :: c') /\
        (if bool_decide (a = []) then off = st else last a = Some comma)
    end.
Proof.
  assert (forall x (a : bytes), a <> [] -> last a = Some comma -> last (x :: a) = Some comma)
    as Hlast by (intros ? [|]; done).
  induction l as [|b l IH]; intros off st e Hst; cbn [NameList.parse_loop]; [done|].
  destruct (byte_eqb b comma) eqn:Eb.
  - apply byte_eqb_comma in Eb as ->. destruct (Z.eqb_spec off st) as [->|Hne].
    + intros [= <-]. exists [], (comma :: l). split_and!; [done|constructor|zlia|eauto|done].
    + intros (a & c & -> & Ha & He)%IH; [|lia]. exists (comma :: a), c.
      split_and!; [done|constructor; auto|].
      destruct e; rewrite zlen_cons; [naive_solver lia|].
      destruct He as (-> & Hc & Hl). split_and!; [lia|done|].
      case_bool_decide; [by subst|]. simpl. auto.
  - destruct (is_name_byte b) eqn:En; simpl.
    + intros (a & c & -> & Ha & He)%IH; [|lia]. exists (b :: a), c.
      split_and!; [done|constructor; auto|].
      destruct e; rewrite zlen_cons; [naive_solver lia|].
      destruct He as (-> & Hc & Hl). split_and!; [lia|done|].
      case_bool_decide; [lia|]. simpl. auto.
    + intros [= <-]. exists [], (b :: l). split_and!; [done|constructor|zlia|].
      exists b, l. split_and!; [done| |done]. by intros ->.
Qed.

(** ** The iterator *)

Lemma drain_spec fuel r :
  (length r < fuel)%nat -> NameList.drain fuel (NameList.mkNames (Some r)) = split_commas r.
Proof.
  revert r; induction fuel as [|fuel IH]; intros r Hf; [lia|].
  cbn. destruct (position _ r) as [i|] eqn:Ep; cbn.
  - apply position_Some in Ep as (a & x & b & -> & <- & Hx & Ha).
    apply byte_eqb_comma in Hx as ->.
    rewrite ztake_app_exact, split_commas_comma by done. f_equal.
    replace (a ++ comma :: b) with ((a ++ [comma]) ++ b) by (by rewrite <- app_assoc).
    rewrite zdrop_app_exact by zlia. apply IH.
    rewrite length_app in Hf. simpl in Hf. lia.
  - apply position_None in Ep. rewrite split_commas_plain by done.
    by destruct fuel.
Qed.

Lemma names_spec l : NameList.names l = names_of (NameList.body l).
Proof.
  unfold NameList.names, NameList.iter. case_bool_decide as Hb; [by rewrite Hb|].
  rewrite drain_spec by lia. by destruct (NameList.body l).
Qed.

(** A list is well formed when it came out of [NameList::parse]. *)
Definition name_list_wf (l : NameList.t) : Prop :=
  Forall (fun n => is_valid_name n = true) (NameList.names l).

Lemma parse_wf body l : NameList.parse body = Ok l -> name_list_wf l.
Proof.
  intros H. pose proof (parse_ok_eq _ _ H) as ->. apply parse_ok_iff in H.
  unfold name_list_wf. by rewrite names_spec.
Qed.

Lemma wf_parse l : name_list_wf l -> NameList.parse (NameList.body l) = Ok l.
Proof.
  unfold name_list_wf. rewrite names_spec. intros H. destruct l as [body].
  by apply parse_ok_iff.
Qed.

Lemma names_join ns :
  Forall (fun n => is_valid_name n = true) ns ->
  NameList.names (NameList.mk (join_commas ns)) = ns.
Proof. intros. rewrite names_spec. by apply names_of_join. Qed.

Lemma join_wf ns :
  Forall (fun n => is_valid_name n = true) ns ->
  name_list_wf (NameList.mk (join_commas ns)).
Proof. intros. unfold name_list_wf. by rewrite names_join. Qed.

Lemma contains_spec l n : NameList.contains l n = true <-> n ∈ NameList.names l.
Proof.
  unfold NameList.contains. rewrite existsb_exists. setoid_rewrite bytes_eqb_eq.
  rewrite list_elem_of_In. naive_solver.
Qed.

Lemma parse_loop_bytes l : forall off st st',
  NameList.parse_loop off st l = Ok st' ->
  Forall (fun b => b = comma \/ is_name_byte b = true) l.
Proof.
  induction l as [|b l IH]; intros off st st'; cbn [NameList.parse_loop]; [constructor|].
  destruct (byte_eqb b comma) eqn:Eb.
  - apply byte_eqb_comma in Eb as ->. destruct (off =? st); [done|]. constructor; eauto.
  - destruct (is_name_byte b) eqn:En; simpl; [|done]. constructor; eauto.
Qed.

Lemma parse_loop_trailing l : forall off st,
  st <= off -> NameList.parse_loop off st l = Ok (off + zlen l) ->
  if bool_decide (l = []) then st = off else last l = Some comma.
Proof.
  assert (forall x l, (if bool_decide (l = []) then x = comma else last l = Some comma) ->
                      last (x :: l) = Some comma) as Hlast
    by (intros x [|]; simpl; naive_solver).
  induction l as [|b l IH]; intros off st Hst; cbn [NameList.parse_loop].
  - intros [= ->]. rewrite bool_decide_true by done. zlia.
  - rewrite zlen_cons, Z.add_assoc. intros H. simpl. apply Hlast.
    destruct (byte_eqb b comma) eqn:Eb.
    + apply byte_eqb_comma in Eb as ->. destruct (off =? st); [done|].
      apply IH in H; [|lia]. case_bool_decide; [done|exact H].
    + destruct (is_name_byte b); simpl in H; [|done].
      apply IH in H; [|lia]. case_bool_decide; [lia|exact H].
Qed.

(** An offset where [NameList::parse] reports an empty name: the name that
    starts there is empty. *)
Definition empty_name_at (body : bytes) (o : Z) : Prop :=
  exists a c, body = a ++ c /\ zlen a = o /\
    (a = [] \/ last a = Some comma) /\ (c = [] \/ exists c', c = comma :: c') /\
    Forall (fun b => b = comma \/ is_name_byte b = true) a.

(** An offset where [NameList::parse] reports a forbidden byte: the first byte
    of the body that may occur neither in a name nor as a separator. *)
Definition forbidden_byte_at (body : bytes) (o : Z) : Prop :=
  exists a b c, body = a ++ b :: c /\ zlen a = o /\ b <> comma /\ is_name_byte b = false /\
    Forall (fun b => b = comma \/ is_name_byte b = true) a.

Lemma parse_err body e :
  NameList.parse body = Err e ->
  match e with
  | NameListNonAscii o => forbidden_byte_at body o
  | NameListEmptyName o => empty_name_at body o
  end.
Proof.
  unfold NameList.parse. case_bool_decide as Hb; [done|].
  destruct (NameList.parse_loop 0 0 body) as [st|e'] eqn:El; simpl.
  - destruct (Z.eqb_spec st (zlen body)) as [->|]; [|done]. intros [= <-].
    pose proof (parse_loop_bytes _ _ _ _ El) as Hf.
    apply (parse_loop_trailing _ 0) in El; [|lia].
    rewrite bool_decide_false in El by done.
    exists body, []. rewrite app_nil_r. naive_solver.
  - intros [= <-]. apply parse_loop_err in El as (a & c & -> & Ha & He); [|lia].
    destruct e' as [o|o].
    + destruct He as (-> & b & c' & -> & Hb1 & Hb2). by exists a, b, c'.
    + destruct He as (-> & Hc & Hl). exists a, c. split_and!; [done..| |eauto|done].
      case_bool_decide; auto.
Qed.

(** ** Properties *)

(** [NameList::parse] is exact: it accepts a body iff every comma-separated
    piece is a valid name, the accepted list iterates over exactly these
    pieces, and a rejection points at the first forbidden byte or at the start
    of an empty name. *)
Theorem name_list_parse_exact (body : bytes) :
  match NameList.parse body with
  | Ok l =>
      NameList.body l = body /\ Forall (fun n => is_valid_name n = true) (names_of body) /\
      NameList.names l = names_of body /\ join_commas (NameList.names l) = body
  | Err e =>
      ~ Forall (fun n => is_valid_name n = true) (names_of body) /\
      match e with
      | NameListNonAscii o => forbidden_byte_at body o
      | NameListEmptyName o => empty_name_at body o
      end
  end.
Proof.
  destruct (NameList.parse body) as [l|e] eqn:E.
  - pose proof (parse_ok_eq _ _ E) as ->. rewrite names_spec, join_names_of.
    by apply parse_ok_iff in E.
  - split; [|by apply parse_err]. rewrite <- parse_ok_iff. congruence.
Qed.

(** Printing then parsing: joining valid names with commas always parses,
    and iterating the parsed list gives back the same names in order. *)
Theorem name_list_roundtrip (ns : list bytes) :
  Forall (fun n => is_valid_name n = true) ns ->
  exists l, NameList.parse (join_commas ns) = Ok l /\ NameList.names l = ns /\
            NameList.len l = zlen ns.
Proof.
  intros H. exists (NameList.mk (join_commas ns)).
  pose proof (names_join ns H) as Hn. split_and!; [|done|by unfold NameList.len; rewrite Hn].
  apply (wf_parse (NameList.mk (join_commas ns))). by apply join_wf.
Qed.

Lemma name_list_roundtrip_witness :
  exists l, NameList.parse (bstr "curve25519-sha256,ext-info-c") = Ok l /\
            NameList.names l = [bstr "curve25519-sha256"; bstr "ext-info-c"] /\
            NameList.len l = 2.
Proof.
  apply (name_list_roundtrip [bstr "curve25519-sha256"; bstr "ext-info-c"]).
  repeat constructor.
Defined.
