(* ===== verification/Primitives.v ===== *)
(** * SSH primitive types: checked reader and writer

    Models crates/tatami_ssh_wire/src/primitives.rs. A reader is the borrowed
    input with its cursor, a writer the caller's buffer with its cursor; each
    method is a function from the state before the call to the state after it
    and a result, with the explicit cursor resets of the source. The cursor
    contract of the source (a failing call leaves the cursor where it was) is
    therefore a theorem and not a consequence of the representation. *)

From S2P Require Import Prelude WireError NameList.

Module Reader.

(* wire/primitives.rs:19-22 Reader *)
Record t : Type := mk { input : bytes; pos : Z }.

(* wire/primitives.rs:27-29 Reader::new *)
Definition new (input : bytes) : t := mk input 0.

(* wire/primitives.rs:33-35 Reader::position *)
Definition position (r : t) : Z := pos r.

(* wire/primitives.rs:39-41 Reader::remaining *)
Definition remaining (r : t) : bytes := zdrop (pos r) (input r).

(* wire/primitives.rs:45-47 Reader::remaining_len *)
Definition remaining_len (r : t) : Z := zlen (input r) - pos r.

(* wire/primitives.rs:51-53 Reader::is_empty *)
Definition is_empty (r : t) : bool := pos r =? zlen (input r).

(* wire/primitives.rs:56-67 Reader::read_bytes *)
Definition read_bytes (n : Z) : M t DecodeError bytes := fun r =>
  let available := remaining_len r in
  if available <? n then (r, Err (Truncated n available))
  else
    let out := zslice (pos r) (pos r + n) (input r) in
    (mk (input r) (pos r + n), Ok out).

(* wire/primitives.rs:70-72 Reader::read_u8 *)
Definition read_u8 : M t DecodeError Z :=
  let! b := read_bytes 1 in ret (u8 (hd x00 b)).

(* wire/primitives.rs:75-77 Reader::read_bool *)
Definition read_bool : M t DecodeError bool :=
  let! v := read_u8 in ret (negb (v =? 0)).

(* wire/primitives.rs:80-83 Reader::read_u32 *)
Definition read_u32 : M t DecodeError Z :=
  let! b := read_bytes 4 in ret (be_val b).

(* wire/primitives.rs:86-91 Reader::read_u64 *)
Definition read_u64 : M t DecodeError Z :=
  let! b := read_bytes 8 in ret (be_val b).

(** The failing conversion of the length to [usize] of the source cannot
    happen with a 64-bit [usize]; both of its branches report the same error. *)
(* wire/primitives.rs:95-117 Reader::read_string *)
Definition read_string : M t DecodeError bytes := fun r =>
  let start := pos r in
  match read_u32 r with
  | (r1, Err e) => (r1, Err e)
  | (r1, Ok len) =>
      let available := remaining_len r1 in
      if available <? len then
        (mk (input r1) start, Err (DecodeLengthOverflow len available))
      else
        let out := zslice (pos r1) (pos r1 + len) (input r1) in
        (mk (input r1) (pos r1 + len), Ok out)
  end.

(* wire/primitives.rs:133-143 Reader::read_name_list *)
Definition read_name_list : M t DecodeError NameList.t := fun r =>
  let start := pos r in
  match read_string r with
  | (r1, Err e) => (r1, Err e)
  | (r1, Ok body) =>
      match NameList.parse body with
      | Ok list => (r1, Ok list)
      | Err e => (mk (input r1) start, Err (DecodeInvalidEncoding e))
      end
  end.

(** [TrailingBytes { count }] is represented by its count. *)
(* wire/primitives.rs:149-157 Reader::finish *)
Definition finish (r : t) : result unit Z :=
  if is_empty r then Ok tt else Err (remaining_len r).

(** A reader whose consumed part is [pre] and whose remaining part is [rest]. *)
Definition rd (pre rest : bytes) : t := mk (pre ++ rest) (zlen pre).

(** The type invariant: the cursor is inside the input. *)
Definition wf (r : t) : Prop := 0 <= pos r <= zlen (input r).

End Reader.

Module Mpint.

(* wire/primitives.rs:168-170 Mpint *)
Record t : Type := mk { raw : bytes }.

#[global] Instance t_eq_decision : EqDecision t.
Proof. solve_decision. Defined.

(* wire/primitives.rs:175-177 Mpint::as_bytes *)
Definition as_bytes (m : t) : bytes := raw m.

(* wire/primitives.rs:184-186 Mpint::is_zero *)
Definition is_zero (m : t) : bool := bool_decide (raw m = []).

(** [b & 0x80 != 0]. *)
Definition high_bit (b : byte) : bool := negb (Z.land (u8 b) 0x80 =? 0).

(* wire/primitives.rs:191-196 Mpint::is_negative *)
Definition is_negative (m : t) : bool :=
  match raw m with
  | b :: _ => high_bit b
  | [] => false
  end.

(* wire/primitives.rs:206-216 Mpint::is_canonical *)
Definition is_canonical (m : t) : bool :=
  match raw m with
  | [] => true
  | [x00] => false
  | x00 :: next :: _ => high_bit next
  | xff :: next :: _ => negb (high_bit next)
  | _ => true
  end.

(* wire/primitives.rs:234-237 strip_leading_zeros *)
Definition strip_leading_zeros (b : bytes) : bytes :=
  let first_nonzero :=
    match position (fun x => negb (u8 x =? 0)) b with
    | Some i => i
    | None => zlen b
    end in
  zdrop first_nonzero b.

(* wire/primitives.rs:225-231 Mpint::positive_magnitude *)
Definition positive_magnitude (m : t) : option bytes :=
  if is_negative m then None else Some (strip_leading_zeros (raw m)).

(* wire/primitives.rs:242-248 mpint_positive_len *)
Definition mpint_positive_len (magnitude : bytes) : Z :=
  let m := strip_leading_zeros magnitude in
  match m with
  | [] => 4
  | b :: _ => 4 + zlen m + (if high_bit b then 1 else 0)
  end.

End Mpint.

(* wire/primitives.rs:125-127 Reader::read_mpint *)
Definition read_mpint : M Reader.t DecodeError Mpint.t := fun r =>
  let '(r1, res) := Reader.read_string r in (r1, map_ok Mpint.mk res).

Module Writer.

(* wire/primitives.rs:267-270 Writer *)
Record t : Type := mk { out : bytes; pos : Z }.

(* wire/primitives.rs:274-276 Writer::new *)
Definition new (out : bytes) : t := mk out 0.

(* wire/primitives.rs:280-282 Writer::position *)
Definition position (w : t) : Z := pos w.

(* wire/primitives.rs:286-288 Writer::capacity_remaining *)
Definition capacity_remaining (w : t) : Z := zlen (out w) - pos w.

(* wire/primitives.rs:292-294 Writer::written *)
Definition written (w : t) : bytes := ztake (pos w) (out w).

(* wire/primitives.rs:302-309 Writer::reserve *)
Definition reserve (needed : Z) : M t EncodeError unit := fun w =>
  let available := capacity_remaining w in
  if available <? needed then (w, Err (InsufficientCapacity needed available))
  else (w, Ok tt).

(* wire/primitives.rs:312-317 Writer::write_bytes *)
Definition write_bytes (b : bytes) : M t EncodeError unit :=
  let! _ := reserve (zlen b) in
  fun w => (mk (write_at (pos w) b (out w)) (pos w + zlen b), Ok tt).

(* wire/primitives.rs:320-322 Writer::write_u8 *)
Definition write_u8 (v : Z) : M t EncodeError unit := write_bytes [byte_of_Z v].

(* wire/primitives.rs:325-327 Writer::write_bool *)
Definition write_bool (v : bool) : M t EncodeError unit := write_u8 (if v then 1 else 0).

(* wire/primitives.rs:330-332 Writer::write_u32 *)
Definition write_u32 (v : Z) : M t EncodeError unit := write_bytes (be_bytes 4 v).

(* wire/primitives.rs:335-337 Writer::write_u64 *)
Definition write_u64 (v : Z) : M t EncodeError unit := write_bytes (be_bytes 8 v).

(** [let _ = m]: the result is dropped, the effect stays. *)
Definition ignore {A} (m : M t EncodeError A) : M t EncodeError unit := fun w =>
  (fst (m w), Ok tt).

(* wire/primitives.rs:340-348 Writer::write_string *)
Definition write_string (b : bytes) : M t EncodeError unit :=
  match u32_try_from (zlen b) with
  | None => fail (EncodeLengthOverflow (zlen b))
  | Some len =>
      let! _ := reserve (4 + zlen b) in
      let! _ := ignore (write_u32 len) in
      let! _ := ignore (write_bytes b) in
      ret tt
  end.

(* wire/primitives.rs:357-371 Writer::write_mpint_positive *)
Definition write_mpint_positive (magnitude : bytes) : M t EncodeError unit :=
  let m := Mpint.strip_leading_zeros magnitude in
  let pad := match m with b :: _ => Mpint.high_bit b | [] => false end in
  let body_len := zlen m + (if pad then 1 else 0) in
  match u32_try_from body_len with
  | None => fail (EncodeLengthOverflow body_len)
  | Some len =>
      let! _ := reserve (4 + body_len) in
      let! _ := ignore (write_u32 len) in
      let! _ := (if pad then ignore (write_u8 0) else ret tt) in
      let! _ := ignore (write_bytes m) in
      ret tt
  end.

(* wire/primitives.rs:381-391 Writer::write_name_list (length pass) *)
Fixpoint name_list_body_len (index body_len : Z) (names : list bytes) : result Z EncodeError :=
  match names with
  | [] => Ok body_len
  | name :: names' =>
      if negb (is_valid_name name) then Err (InvalidName index)
      else
        let body_len := if 0 <? index then body_len + 1 else body_len in
        name_list_body_len (index + 1) (body_len + zlen name) names'
  end.

(* wire/primitives.rs:397-402 Writer::write_name_list (writing pass) *)
Fixpoint write_names (index : Z) (names : list bytes) : M t EncodeError unit :=
  match names with
  | [] => ret tt
  | name :: names' =>
      let! _ := (if 0 <? index then ignore (write_u8 (u8 comma)) else ret tt) in
      let! _ := ignore (write_bytes name) in
      write_names (index + 1) names'
  end.

(* wire/primitives.rs:376-404 Writer::write_name_list *)
Definition write_name_list (names : list bytes) : M t EncodeError unit :=
  match name_list_body_len 0 0 names with
  | Err e => fail e
  | Ok body_len =>
      match u32_try_from body_len with
      | None => fail (EncodeLengthOverflow body_len)
      | Some len =>
          let! _ := reserve (4 + body_len) in
          let! _ := ignore (write_u32 len) in
          write_names 0 names
      end
  end.

(** A writer that has produced [done] and has [room] left to overwrite. *)
Definition wr (done room : bytes) : t := mk (done ++ room) (zlen done).

(** The type invariant: the cursor is inside the buffer. *)
Definition wf (w : t) : Prop := 0 <= pos w <= zlen (out w).

End Writer.

(** ** What a reader operation promises

    [Reads m img] is the contract of a decoding step: from any input that
    starts with an encoding of [a] it consumes exactly that encoding and
    returns [a]; whatever it returns, it consumed an encoding of. Contracts
    compose along [bind], so a message decoder inherits its contract from
    those of its fields. *)

Import Reader.

Class Reads {E A} (m : M Reader.t E A) (img : A -> bytes -> Prop) : Prop := {
  reads_complete : forall a bs pre rest,
    img a bs -> m (rd pre (bs ++ rest)) = (rd (pre ++ bs) rest, Ok a);
  reads_sound : forall pre rest r' a,
    m (rd pre rest) = (r', Ok a) ->
    exists bs rest', rest = bs ++ rest' /\ r' = rd (pre ++ bs) rest' /\ img a bs
}.

(** On an error the reader is what it was before the call. *)
Definition read_atomic {E A} (m : M Reader.t E A) : Prop :=
  forall r r' e, wf r -> m r = (r', Err e) -> r' = r.

(** Encodings of the primitive types. *)
Definition u8_img (v : Z) (bs : bytes) : Prop := 0 <= v <= U8_MAX /\ bs = [byte_of_Z v].
Definition bool_img (v : bool) (bs : bytes) : Prop :=
  exists b, bs = [b] /\ v = negb (u8 b =? 0).
Definition u32_img (v : Z) (bs : bytes) : Prop := is_u32 v /\ bs = be_bytes 4 v.
Definition u64_img (v : Z) (bs : bytes) : Prop := is_u64 v /\ bs = be_bytes 8 v.
Definition sshstr (s : bytes) : bytes := be_bytes 4 (zlen s) ++ s.
Definition string_img (s bs : bytes) : Prop := zlen s <= U32_MAX /\ bs = sshstr s.
Definition mpint_img (m : Mpint.t) (bs : bytes) : Prop := string_img (Mpint.raw m) bs.
Definition name_list_img (l : NameList.t) (bs : bytes) : Prop :=
  name_list_wf l /\ string_img (NameList.body l) bs.

Lemma wf_rd r : wf r <-> exists pre rest, r = rd pre rest.
Proof.
  split.
  - destruct r as [i p]. unfold wf; simpl. intros H.
    destruct (zsplit p i H) as (a & b & -> & <-). by exists a, b.
  - intros (pre & rest & ->). unfold wf; simpl. zlia.
Qed.

Lemma rd_inj pre rest pre' rest' :
  rd pre rest = rd pre' rest' -> pre = pre' /\ rest = rest'.
Proof. unfold rd. intros [= H1 H2]. by apply app_inj_zlen. Qed.

Lemma rd_remaining_len pre rest : remaining_len (rd pre rest) = zlen rest.
Proof. unfold remaining_len, rd. simpl. zlia. Qed.

Lemma rd_new input : Reader.new input = rd [] input.
Proof. done. Qed.

Lemma rd_snoc_assoc pre a b rest : rd (pre ++ a ++ b) rest = rd ((pre ++ a) ++ b) rest.
Proof. by rewrite app_assoc. Qed.

Lemma read_bytes_ok n a pre rest :
  n = zlen a -> read_bytes n (rd pre (a ++ rest)) = (rd (pre ++ a) rest, Ok a).
Proof.
  intros ->. unfold read_bytes. rewrite rd_remaining_len.
  destruct (Z.ltb_spec (zlen (a ++ rest)) (zlen a)); [zlia|].
  unfold rd; simpl. rewrite zslice_app_exact by done.
  by rewrite zlen_app, app_assoc.
Qed.

Lemma read_bytes_short n pre rest :
  zlen rest < n -> read_bytes n (rd pre rest) = (rd pre rest, Err (Truncated n (zlen rest))).
Proof.
  intros H. unfold read_bytes. rewrite rd_remaining_len.
  by destruct (Z.ltb_spec (zlen rest) n); [|lia].
Qed.

(** Both branches of [read_bytes] at once. *)
Lemma read_bytes_cases n pre rest :
  0 <= n ->
  (exists a rest', rest = a ++ rest' /\ zlen a = n /\
     read_bytes n (rd pre rest) = (rd (pre ++ a) rest', Ok a)) \/
  (zlen rest < n /\ read_bytes n (rd pre rest) = (rd pre rest, Err (Truncated n (zlen rest)))).
Proof.
  intros Hn. destruct (Z.lt_ge_cases (zlen rest) n) as [Hs|Hs].
  - right. split; [done|]. by apply read_bytes_short.
  - left. destruct (zsplit n rest ltac:(lia)) as (a & b & -> & Ha).
    exists a, b. split_and!; [done..|]. by apply read_bytes_ok.
Qed.

Lemma reads_read_bytes n : 0 <= n -> Reads (read_bytes n) (fun a bs => a = bs /\ zlen bs = n).
Proof.
  intros Hn. split.
  - intros a bs pre rest [-> <-]. by apply read_bytes_ok.
  - intros pre rest r' a.
    destruct (read_bytes_cases n pre rest Hn) as [(b & rest' & -> & Hl & ->)|[? ->]]; [|done].
    intros [= <- <-]. eauto 10.
Qed.

Lemma read_bytes_atomic n : 0 <= n -> read_atomic (read_bytes n).
Proof.
  intros Hn r r' e (pre & rest & ->)%wf_rd.
  destruct (read_bytes_cases n pre rest Hn) as [(b & rest' & -> & Hl & ->)|[? ->]]; congruence.
Qed.

(** *** Composition *)

Lemma reads_ret {E A} (a : A) : Reads (E:=E) (ret a) (fun x bs => x = a /\ bs = []).
Proof.
  split.
  - intros x bs pre rest [-> ->]. by rewrite app_nil_r.
  - intros pre rest r' x [= <- <-]. exists [], rest. by rewrite app_nil_r.
Qed.

Lemma reads_bind {E A B} (m : M Reader.t E A) (k : A -> M Reader.t E B) img img2 :
  Reads m img -> (forall a, Reads (k a) (img2 a)) ->
  Reads (bind m k) (fun b bs => exists a b1 b2, bs = b1 ++ b2 /\ img a b1 /\ img2 a b b2).
Proof.
  intros Hm Hk. split.
  - intros b bs pre rest (a & b1 & b2 & -> & H1 & H2).
    rewrite <- (app_assoc b1 b2 rest).
    erewrite bind_step by (apply reads_complete; exact H1).
    rewrite (reads_complete (Reads:=Hk a) b b2) by done. by rewrite app_assoc.
  - intros pre rest r' b (r1 & a & H1 & H2)%bind_Ok_inv.
    apply reads_sound in H1 as (b1 & rest1 & -> & -> & Hi1).
    apply (reads_sound (Reads:=Hk a)) in H2 as (b2 & rest2 & -> & -> & Hi2).
    exists (b1 ++ b2), rest2. rewrite !app_assoc. naive_solver.
Qed.

Lemma reads_weaken {E A} (m : M Reader.t E A) img img' :
  Reads m img -> (forall a bs, img a bs <-> img' a bs) -> Reads m img'.
Proof.
  intros Hm Hi. split.
  - intros a bs pre rest H. by apply reads_complete, Hi.
  - intros pre rest r' a (bs & rest' & -> & -> & H)%reads_sound. apply Hi in H. eauto.
Qed.

Lemma reads_with_err {E F A} (f : E -> F) (m : M Reader.t E A) img :
  Reads m img -> Reads (with_err f m) img.
Proof.
  intros Hm. split.
  - intros a bs pre rest H. unfold with_err. by rewrite reads_complete with (a:=a).
  - intros pre rest r' a H%with_err_Ok_inv. by apply reads_sound in H.
Qed.

(** Reading a value and mapping it through a function. *)
Lemma reads_map {E A B} (m : M Reader.t E A) (f : A -> B) img :
  Reads m img ->
  Reads (bind m (fun a => ret (f a))) (fun b bs => exists a, b = f a /\ img a bs).
Proof.
  intros Hm. eapply reads_weaken.
  - apply reads_bind; [exact Hm|intros a; apply reads_ret].
  - intros b bs. split.
    + intros (a & b1 & b2 & -> & H & -> & ->). rewrite app_nil_r. eauto.
    + intros (a & -> & H). exists a, bs, []. by rewrite app_nil_r.
Qed.

Lemma bind_ret_atomic {E A B} (m : M Reader.t E A) (f : A -> B) :
  read_atomic m -> read_atomic (bind m (fun a => ret (f a))).
Proof.
  intros Hm r r' e Hwf. unfold bind. destruct (m r) as [s [a|e']] eqn:E1; [done|].
  intros [= <- <-]. by eapply Hm.
Qed.

(** *** The primitive types *)

#[export] Instance reads_read_u8 : Reads read_u8 u8_img.
Proof.
  eapply reads_weaken; [apply reads_map, reads_read_bytes; lia|].
  intros v bs. unfold u8_img, U8_MAX. split.
  - intros (a & -> & <- & Hl). destruct a as [|b [|]]; [zlia| |zlia].
    simpl. rewrite byte_of_Z_u8. pose proof (u8_range b). split; [lia|done].
  - intros [Hv ->]. exists [byte_of_Z v]. simpl. rewrite u8_byte_of_Z, Z.mod_small by lia. done.
Qed.

#[export] Instance reads_read_bool : Reads read_bool bool_img.
Proof.
  eapply reads_weaken; [apply reads_map, reads_read_u8|].
  intros v bs. unfold bool_img, u8_img, U8_MAX. split.
  - intros (a & -> & Ha & ->). exists (byte_of_Z a).
    by rewrite u8_byte_of_Z, Z.mod_small by lia.
  - intros (b & -> & ->). exists (u8 b). rewrite byte_of_Z_u8.
    pose proof (u8_range b). split_and!; [done|lia..|done].
Qed.

Lemma reads_read_be (n : nat) hi :
  hi = 256 ^ Z.of_nat n - 1 ->
  Reads (E:=DecodeError) (let! b := read_bytes (Z.of_nat n) in ret (be_val b))
        (fun v bs => 0 <= v <= hi /\ bs = be_bytes n v).
Proof.
  intros ->. eapply reads_weaken; [apply reads_map, reads_read_bytes; lia|].
  intros v bs. split.
  - intros (a & -> & <- & Hl). pose proof (be_val_range a) as Hr. rewrite Hl in Hr.
    split; [lia|]. symmetry. by apply be_bytes_of_val.
  - intros [Hv ->]. exists (be_bytes n v). rewrite zlen_be_bytes, be_bytes_small by lia. done.
Qed.

#[export] Instance reads_read_u32 : Reads read_u32 u32_img.
Proof. by apply (reads_read_be 4). Qed.

#[export] Instance reads_read_u64 : Reads read_u64 u64_img.
Proof. by apply (reads_read_be 8). Qed.

Lemma read_u32_atomic : read_atomic read_u32.
Proof. apply bind_ret_atomic, read_bytes_atomic. lia. Qed.

Lemma read_u8_atomic : read_atomic read_u8.
Proof. apply bind_ret_atomic, read_bytes_atomic. lia. Qed.

(** Every branch of [read_string] on a reader with [rest] left. *)
Lemma read_string_cases pre rest :
  (exists s rest', rest = sshstr s ++ rest' /\ zlen s <= U32_MAX /\
     read_string (rd pre rest) = (rd (pre ++ sshstr s) rest', Ok s)) \/
  (zlen rest < 4 /\
     read_string (rd pre rest) = (rd pre rest, Err (Truncated 4 (zlen rest)))) \/
  (exists len rest', rest = be_bytes 4 len ++ rest' /\ is_u32 len /\ zlen rest' < len /\
     read_string (rd pre rest) = (rd pre rest, Err (DecodeLengthOverflow len (zlen rest')))).
Proof.
  destruct (Z.lt_ge_cases (zlen rest) 4) as [Hs|Hs].
  - right; left. split; [done|]. unfold read_string, read_u32.
    by erewrite bind_err by (by apply read_bytes_short).
  - destruct (zsplit 4 rest ltac:(lia)) as (h & rest1 & -> & Hh).
    pose proof (be_val_4_range h Hh) as Hr.
    assert (h = be_bytes 4 (be_val h)) as Hb by (symmetry; by apply be_bytes_of_val).
    unfold read_string.
    rewrite (reads_complete (Reads:=reads_read_u32) (be_val h) h) by done.
    rewrite rd_remaining_len. destruct (Z.ltb_spec (zlen rest1) (be_val h)) as [Hl|Hl].
    + right; right. exists (be_val h), rest1. rewrite <- Hb. split_and!; [done..|].
      unfold rd; simpl. by rewrite app_assoc.
    + left. destruct (zsplit (be_val h) rest1) as (s & rest2 & -> & Hs2).
      { unfold is_u32 in *. lia. }
      exists s, rest2. unfold sshstr. rewrite Hs2, <- Hb. split_and!.
      * by rewrite app_assoc.
      * unfold is_u32 in *. lia.
      * unfold rd; simpl. rewrite zslice_app_exact by lia.
        do 2 f_equal; [by rewrite !app_assoc|zlia].
Qed.

Lemma sshstr_inj s1 s2 r1 r2 :
  zlen s1 <= U32_MAX -> zlen s2 <= U32_MAX -> sshstr s1 ++ r1 = sshstr s2 ++ r2 ->
  s1 = s2 /\ r1 = r2.
Proof.
  intros H1 H2. unfold sshstr. rewrite <- !app_assoc.
  intros [Hb H]%app_inj_zlen; [|by rewrite !zlen_be_bytes].
  apply (f_equal be_val) in Hb.
  rewrite !be_bytes_4 in Hb by (split; [zlia|done]).
  by apply app_inj_zlen in H.
Qed.

#[export] Instance reads_read_string : Reads read_string string_img.
Proof.
  split.
  - intros s bs pre rest [Hs ->].
    destruct (read_string_cases pre (sshstr s ++ rest))
      as [(s' & rest' & He & Hs' & ->)|[[Hl _]|(len & rest' & He & Hr & Hl & _)]].
    + by apply sshstr_inj in He as [<- <-].
    + unfold sshstr in Hl. rewrite !zlen_app, zlen_be_bytes in Hl. zlia.
    + unfold sshstr in He. rewrite <- app_assoc in He.
      apply app_inj_zlen in He as [Hb <-]; [|by rewrite !zlen_be_bytes].
      apply (f_equal be_val) in Hb. rewrite !be_bytes_4 in Hb; [|done|split; [zlia|done]].
      zlia.
  - intros pre rest r' s.
    destruct (read_string_cases pre rest)
      as [(s' & rest' & -> & Hs' & ->)|[[_ ->]|(len & rest' & _ & _ & _ & ->)]]; try done.
    intros [= <- <-]. exists (sshstr s'), rest'. done.
Qed.

Lemma read_string_atomic : read_atomic read_string.
Proof.
  intros r r' e (pre & rest & ->)%wf_rd.
  destruct (read_string_cases pre rest)
    as [(s & rest' & _ & _ & ->)|[[_ ->]|(len & rest' & _ & _ & _ & ->)]]; congruence.
Qed.

#[export] Instance reads_read_mpint : Reads read_mpint mpint_img.
Proof.
  split.
  - intros [s] bs pre rest H. unfold read_mpint. by erewrite reads_complete by exact H.
  - intros pre rest r' a. unfold read_mpint.
    destruct (read_string (rd pre rest)) as [r1 [s|e]] eqn:E; intros [= <- <-].
    by apply reads_sound in E.
Qed.

#[export] Instance reads_read_name_list : Reads read_name_list name_list_img.
Proof.
  split.
  - intros l bs pre rest [Hw H]. unfold read_name_list.
    erewrite reads_complete by exact H. by rewrite wf_parse.
  - intros pre rest r' a. unfold read_name_list.
    destruct (read_string (rd pre rest)) as [r1 [s|e]] eqn:E; [|done].
    destruct (NameList.parse s) as [l|e] eqn:Ep; intros [= <- <-].
    apply reads_sound in E as (bs & rest' & -> & -> & H).
    exists bs, rest'. split_and!; [done..|]. split; [by eapply parse_wf|].
    by apply parse_ok_eq in Ep as ->.
Qed.

Lemma read_name_list_atomic : read_atomic read_name_list.
Proof.
  intros r r' e Hwf. unfold read_name_list.
  destruct (read_string r) as [r1 [s|e']] eqn:E.
  - destruct (NameList.parse s) as [l|ie]; [done|]. intros [= <- <-].
    apply wf_rd in Hwf as (pre & rest & ->).
    apply reads_sound in E as (bs & rest' & -> & -> & _). unfold rd; simpl. by rewrite <- app_assoc.
  - intros [= <- <-]. by eapply read_string_atomic.
Qed.

Lemma read_mpint_atomic : read_atomic read_mpint.
Proof.
  intros r r' e Hwf. unfold read_mpint. destruct (read_string r) as [r1 [s|e']] eqn:E; [done|].
  intros [= <- <-]. by eapply read_string_atomic.
Qed.

Lemma finish_spec pre rest :
  finish (rd pre rest) = if bool_decide (rest = []) then Ok tt else Err (zlen rest).
Proof.
  unfold finish, is_empty. rewrite rd_remaining_len. unfold rd; simpl.
  case_bool_decide as H.
  - subst. by rewrite app_nil_r, Z.eqb_refl.
  - destruct (Z.eqb_spec (zlen pre) (zlen (pre ++ rest))) as [He|]; [|done].
    destruct H. apply zlen_0. zlia.
Qed.

(** ** What a writer operation promises

    [Writes m bs]: given room for [bs] the operation overwrites exactly that
    room and succeeds; without it, it reports [InsufficientCapacity] and the
    buffer keeps its size. *)

Import Writer.

Class Writes (m : M Writer.t EncodeError unit) (bs : bytes) : Prop := {
  writes_ok : forall d old room,
    zlen old = zlen bs -> m (wr d (old ++ room)) = (wr (d ++ bs) room, Ok tt);
  writes_short : forall d room,
    zlen room < zlen bs ->
    exists d' room' n a,
      m (wr d room) = (wr d' room', Err (InsufficientCapacity n a)) /\
      zlen (d' ++ room') = zlen (d ++ room)
}.

(** On an error the writer (buffer and cursor) is what it was before. *)
Definition write_atomic (m : M Writer.t EncodeError unit) : Prop :=
  forall w w' e, m w = (w', Err e) -> w' = w.

Lemma wr_new out : Writer.new out = wr [] out.
Proof. done. Qed.

Lemma written_wr d room : written (wr d room) = d.
Proof. by apply ztake_app_exact. Qed.

Lemma wr_capacity d room : capacity_remaining (wr d room) = zlen room.
Proof. unfold capacity_remaining, wr. simpl. zlia. Qed.

Lemma reserve_cases n d room :
  reserve n (wr d room) =
    (wr d room, if zlen room <? n then Err (InsufficientCapacity n (zlen room)) else Ok tt).
Proof. unfold reserve. rewrite wr_capacity. by destruct (_ <? _). Qed.

Lemma reserve_ok n d old room :
  n = zlen old -> reserve n (wr d (old ++ room)) = (wr d (old ++ room), Ok tt).
Proof.
  intros ->. rewrite reserve_cases. destruct (Z.ltb_spec (zlen (old ++ room)) (zlen old)); [zlia|done].
Qed.

Lemma reserve_short n d room :
  zlen room < n -> reserve n (wr d room) = (wr d room, Err (InsufficientCapacity n (zlen room))).
Proof. intros. rewrite reserve_cases. by destruct (Z.ltb_spec (zlen room) n); [|lia]. Qed.

#[export] Instance writes_write_bytes b : Writes (write_bytes b) b.
Proof.
  split.
  - intros d old room Ho. unfold write_bytes.
    erewrite bind_step by (by apply reserve_ok).
    unfold wr, write_at; simpl. rewrite ztake_app_exact by done.
    rewrite (app_assoc d old room), zdrop_app_exact by zlia. by rewrite app_assoc, zlen_app.
  - intros d room Hr. unfold write_bytes.
    erewrite bind_err by (by apply reserve_short). eauto 10.
Qed.

#[export] Instance writes_write_u8 v : Writes (write_u8 v) [byte_of_Z v].
Proof. apply writes_write_bytes. Qed.

#[export] Instance writes_write_bool v : Writes (write_bool v) [byte_of_Z (if v then 1 else 0)].
Proof. apply writes_write_bytes. Qed.

#[export] Instance writes_write_u32 v : Writes (write_u32 v) (be_bytes 4 v).
Proof. apply writes_write_bytes. Qed.

#[export] Instance writes_write_u64 v : Writes (write_u64 v) (be_bytes 8 v).
Proof. apply writes_write_bytes. Qed.

Lemma writes_ret : Writes (ret tt) [].
Proof.
  split.
  - intros d old room ->%zlen_0. by rewrite app_nil_r.
  - intros d room. zlia.
Qed.

Lemma writes_bind m1 m2 b1 b2 :
  Writes m1 b1 -> Writes m2 b2 -> Writes (let! _ := m1 in m2) (b1 ++ b2).
Proof.
  intros H1 H2. split.
  - intros d old room Ho. destruct (zsplit (zlen b1) old) as (o1 & o2 & -> & Ho1); [zlia|].
    rewrite <- app_assoc. erewrite bind_step by (by apply writes_ok).
    rewrite (writes_ok (Writes:=H2)) by zlia. by rewrite app_assoc.
  - intros d room Hr. destruct (Z.lt_ge_cases (zlen room) (zlen b1)) as [Hs|Hs].
    + destruct (writes_short (Writes:=H1) d room Hs) as (d' & room' & n & a & E & El).
      erewrite bind_err by exact E. eauto 10.
    + destruct (zsplit (zlen b1) room) as (o1 & o2 & -> & Ho1); [zlia|].
      erewrite bind_step by (by apply writes_ok).
      destruct (writes_short (Writes:=H2) (d ++ b1) o2) as (d' & room' & n & a & E & El); [zlia|].
      exists d', room', n, a. split; [done|]. zlia.
Qed.

Lemma writes_bind_ret m bs : Writes m bs -> Writes (let! _ := m in ret tt) bs.
Proof. intros Hm. rewrite <- (app_nil_r bs). by apply writes_bind; [|apply writes_ret]. Qed.

Lemma ignore_ok m bs d old room :
  Writes m bs -> zlen old = zlen bs ->
  ignore m (wr d (old ++ room)) = (wr (d ++ bs) room, Ok tt).
Proof. intros Hm Ho. unfold ignore. by rewrite (writes_ok (Writes:=Hm)). Qed.

(** The idiom of the source: reserve the total, then perform infallible writes. *)
Lemma writes_reserved n m bs :
  n = zlen bs ->
  (forall d old room, zlen old = zlen bs -> m (wr d (old ++ room)) = (wr (d ++ bs) room, Ok tt)) ->
  Writes (let! _ := reserve n in m) bs.
Proof.
  intros -> Hm. split.
  - intros d old room Ho. erewrite bind_step by (by apply reserve_ok). by apply Hm.
  - intros d room Hr. erewrite bind_err by (by apply reserve_short). eauto 10.
Qed.

Lemma ignored_ok m1 m2 b1 b2 :
  Writes m1 b1 ->
  (forall d old room, zlen old = zlen b2 -> m2 (wr d (old ++ room)) = (wr (d ++ b2) room, Ok tt)) ->
  forall d old room, zlen old = zlen (b1 ++ b2) ->
  (let! _ := ignore m1 in m2) (wr d (old ++ room)) = (wr (d ++ b1 ++ b2) room, Ok tt).
Proof.
  intros H1 H2 d old room Ho. destruct (zsplit (zlen b1) old) as (o1 & o2 & -> & Ho1); [zlia|].
  rewrite <- app_assoc. erewrite bind_step by (by eapply ignore_ok).
  rewrite H2 by zlia. by rewrite app_assoc.
Qed.

Lemma ret_ok d old room :
  zlen old = zlen (@nil byte) ->
  ret (E:=EncodeError) tt (wr d (old ++ room)) = (wr (d ++ []) room, Ok tt).
Proof. intros ->%zlen_0. by rewrite app_nil_r. Qed.

Lemma zlen_sshstr s : zlen (sshstr s) = 4 + zlen s.
Proof. unfold sshstr. rewrite zlen_app, zlen_be_bytes. lia. Qed.
#[export] Hint Rewrite zlen_sshstr zlen_be_bytes : zlen.

Lemma u32_try_from_ok n : n <= U32_MAX -> u32_try_from n = Some n.
Proof. intros. unfold u32_try_from. by destruct (Z.leb_spec n U32_MAX); [|lia]. Qed.

Lemma u32_try_from_big n : U32_MAX < n -> u32_try_from n = None.
Proof. intros. unfold u32_try_from. by destruct (Z.leb_spec n U32_MAX); [lia|]. Qed.

Lemma writes_write_string s : zlen s <= U32_MAX -> Writes (write_string s) (sshstr s).
Proof.
  intros Hs. unfold write_string. rewrite u32_try_from_ok by done.
  apply writes_reserved; [zlia|]. unfold sshstr.
  apply ignored_ok; [apply _|]. rewrite <- (app_nil_r s).
  apply ignored_ok; [|apply ret_ok]. rewrite app_nil_r. apply _.
Qed.

Lemma write_string_overflow s w :
  U32_MAX < zlen s -> write_string s w = (w, Err (EncodeLengthOverflow (zlen s))).
Proof. intros. unfold write_string. by rewrite u32_try_from_big. Qed.

(** *** Positive mpints *)

(** The body of a positive mpint: the magnitude without leading zeros, with a
    zero byte in front when the sign bit would otherwise be set. *)
Definition mpint_body (magnitude : bytes) : bytes :=
  let m := Mpint.strip_leading_zeros magnitude in
  match m with
  | b :: _ => if Mpint.high_bit b then x00 :: m else m
  | [] => []
  end.

Lemma high_bit_spec b : Mpint.high_bit b = (128 <=? u8 b).
Proof. by destruct b. Qed.

Lemma mpint_body_len magnitude :
  zlen (sshstr (mpint_body magnitude)) = Mpint.mpint_positive_len magnitude.
Proof.
  rewrite zlen_sshstr. unfold mpint_body, Mpint.mpint_positive_len.
  destruct (Mpint.strip_leading_zeros magnitude) as [|b m]; [done|].
  destruct (Mpint.high_bit b); zlia.
Qed.

Lemma writes_write_mpint_positive magnitude :
  zlen (mpint_body magnitude) <= U32_MAX ->
  Writes (write_mpint_positive magnitude) (sshstr (mpint_body magnitude)).
Proof.
  unfold write_mpint_positive, mpint_body.
  set (m := Mpint.strip_leading_zeros magnitude). intros Hs.
  assert (forall (p : bool) (pre : bytes), pre = (if p then [x00] else []) ->
    zlen (pre ++ m) <= U32_MAX ->
    Writes match u32_try_from (zlen m + (if p then 1 else 0)) with
           | None => fail (EncodeLengthOverflow (zlen m + (if p then 1 else 0)))
           | Some len =>
               let! _ := reserve (4 + (zlen m + (if p then 1 else 0))) in
               let! _ := ignore (write_u32 len) in
               let! _ := (if p then ignore (write_u8 0) else ret tt) in
               let! _ := ignore (write_bytes m) in
               ret tt
           end (sshstr (pre ++ m))) as Hmain.
  { intros p pre Hpre Hl.
    assert (zlen m + (if p then 1 else 0) = zlen (pre ++ m)) as ->
      by (subst pre; destruct p; zlia).
    rewrite u32_try_from_ok by done. apply writes_reserved; [zlia|]. unfold sshstr.
    apply ignored_ok; [apply _|]. rewrite <- (app_nil_r m).
    assert (forall d old room, zlen old = zlen (m ++ []) ->
      (let! _ := ignore (write_bytes m) in ret tt) (wr d (old ++ room)) =
      (wr (d ++ m ++ []) room, Ok tt)) as Hm.
    { apply ignored_ok; [apply _|apply ret_ok]. }
    destruct p; subst pre; simpl app.
    - apply (ignored_ok _ _ [x00] (m ++ [])); [apply (writes_write_u8 0)|].
      rewrite app_nil_r in *. exact Hm.
    - rewrite app_nil_r in *. exact Hm. }
  destruct m as [|b m'] eqn:Em.
  - by apply (Hmain false []).
  - destruct (Mpint.high_bit b); [by apply (Hmain true [x00])|by apply (Hmain false [])].
Qed.

(** *** Name lists *)

Definition sep_tail (ns : list bytes) : bytes := concat (map (cons comma) ns).

Lemma join_commas_sep n ns : join_commas (n :: ns) = n ++ sep_tail ns.
Proof.
  revert n; induction ns as [|m ns IH]; intros n.
  - unfold sep_tail. simpl. by rewrite app_nil_r.
  - change (join_commas (n :: m :: ns)) with (n ++ comma :: join_commas (m :: ns)).
    by rewrite IH.
Qed.

Lemma name_list_body_len_tail ns : forall i acc,
  0 < i -> Forall (fun n => is_valid_name n = true) ns ->
  name_list_body_len i acc ns = Ok (acc + zlen (sep_tail ns)).
Proof.
  induction ns as [|n ns IH]; intros i acc Hi Hf; simpl.
  - f_equal. unfold sep_tail. simpl. zlia.
  - inversion Hf as [|? ? Hn Hns]; subst. rewrite Hn. simpl.
    destruct (Z.ltb_spec 0 i); [|lia]. rewrite IH by (done || lia).
    f_equal. unfold sep_tail. simpl. zlia.
Qed.

Lemma name_list_body_len_ok ns :
  Forall (fun n => is_valid_name n = true) ns ->
  name_list_body_len 0 0 ns = Ok (zlen (join_commas ns)).
Proof.
  destruct 1 as [|n ns Hn Hns]; [done|].
  rewrite join_commas_sep. simpl. rewrite Hn. simpl.
  rewrite name_list_body_len_tail by (done || lia). f_equal. zlia.
Qed.

Lemma write_names_tail ns : forall i d old room,
  0 < i -> zlen old = zlen (sep_tail ns) ->
  write_names i ns (wr d (old ++ room)) = (wr (d ++ sep_tail ns) room, Ok tt).
Proof.
  induction ns as [|n ns IH]; intros i d old room Hi; simpl write_names.
  - apply ret_ok.
  - destruct (Z.ltb_spec 0 i); [|lia].
    change (sep_tail (n :: ns)) with ([comma] ++ (n ++ sep_tail ns)).
    apply (ignored_ok _ _ [comma]); [apply (writes_write_u8 (u8 comma))|].
    apply ignored_ok; [apply _|]. intros. apply IH; [lia|done].
Qed.

Lemma writes_write_name_list ns :
  Forall (fun n => is_valid_name n = true) ns -> zlen (join_commas ns) <= U32_MAX ->
  Writes (write_name_list ns) (sshstr (join_commas ns)).
Proof.
  intros Hv Hl. unfold write_name_list.
  rewrite name_list_body_len_ok, u32_try_from_ok by done.
  apply writes_reserved; [zlia|]. unfold sshstr. apply ignored_ok; [apply _|].
  destruct ns as [|n ns]; [apply ret_ok|].
  intros d old room Ho. simpl write_names. rewrite join_commas_sep in *.
  unfold bind at 1. cbn [ret]. apply ignored_ok; [apply _| |done].
  intros. apply write_names_tail; [lia|done].
Qed.

(** The first invalid name is reported by its index. *)
Lemma name_list_body_len_err ns : forall i acc e,
  0 <= i -> name_list_body_len i acc ns = Err e ->
  exists a n c, ns = a ++ n :: c /\ e = InvalidName (i + zlen a) /\
    is_valid_name n = false /\ Forall (fun n => is_valid_name n = true) a.
Proof.
  induction ns as [|n ns IH]; intros i acc e Hi; simpl; [done|].
  destruct (is_valid_name n) eqn:En; simpl.
  - intros (a & m & c & -> & -> & Hm & Ha)%IH; [|lia].
    exists (n :: a), m, c. split_and!; [done|f_equal; zlia|done|by constructor].
  - intros [= <-]. exists [], n, ns. split_and!; [done|f_equal; zlia|done|constructor].
Qed.

(** *** Atomicity of the writer *)

Definition infallible (m : M Writer.t EncodeError unit) : Prop :=
  forall w, exists w', m w = (w', Ok tt).

Lemma infallible_ignore {A} (m : M Writer.t EncodeError A) : infallible (ignore m).
Proof. intros w. unfold ignore. eauto. Qed.

Lemma infallible_ret : infallible (ret tt).
Proof. intros w. unfold ret. eauto. Qed.

Lemma infallible_bind m1 m2 : infallible m1 -> infallible m2 -> infallible (let! _ := m1 in m2).
Proof.
  intros H1 H2 w. destruct (H1 w) as [w1 E1]. erewrite bind_step by exact E1. apply H2.
Qed.

Lemma infallible_if (b : bool) m1 m2 :
  infallible m1 -> infallible m2 -> infallible (if b then m1 else m2).
Proof. by destruct b. Qed.

#[export] Hint Resolve infallible_ignore infallible_ret infallible_bind infallible_if : tatami.

Lemma infallible_write_names ns : forall i, infallible (write_names i ns).
Proof. induction ns as [|n ns IH]; intros i; simpl; auto with tatami. Qed.
#[export] Hint Resolve infallible_write_names : tatami.

Lemma reserved_atomic n m : infallible m -> write_atomic (let! _ := reserve n in m).
Proof.
  intros Hm w w' e. unfold bind, reserve. destruct (_ <? _); [congruence|].
  destruct (Hm w) as [w1 ->]. done.
Qed.

Lemma fail_atomic e : write_atomic (fail e).
Proof. intros w w' e'. unfold fail. congruence. Qed.

#[export] Hint Resolve reserved_atomic fail_atomic : tatami.

Lemma write_bytes_atomic b : write_atomic (write_bytes b).
Proof. apply reserved_atomic. intros w. eauto. Qed.

Lemma write_string_atomic b : write_atomic (write_string b).
Proof. unfold write_string. destruct (u32_try_from _); auto 7 with tatami. Qed.

Lemma write_mpint_positive_atomic b : write_atomic (write_mpint_positive b).
Proof. unfold write_mpint_positive. destruct (u32_try_from _); auto 10 with tatami. Qed.

Lemma write_name_list_atomic ns : write_atomic (write_name_list ns).
Proof.
  unfold write_name_list. destruct (name_list_body_len 0 0 ns); [|auto with tatami].
  destruct (u32_try_from _); auto 7 with tatami.
Qed.

(** ** The value of an mpint *)

(** The two's-complement value RFC 4251 gives to the bytes of an mpint. *)
Definition mpint_val (m : Mpint.t) : Z :=
  be_val (Mpint.raw m) - (if Mpint.is_negative m then 256 ^ zlen (Mpint.raw m) else 0).

Lemma is_canonical_cons b t :
  Mpint.is_canonical (Mpint.mk (b :: t)) =
  match t with
  | [] => negb (u8 b =? 0)
  | c :: _ => if u8 b =? 0 then 128 <=? u8 c
              else if u8 b =? 255 then u8 c <? 128 else true
  end.
Proof.
  destruct t as [|c t]; [by destruct b|].
  unfold Mpint.is_canonical; simpl. rewrite high_bit_spec, Z.leb_antisym.
  destruct b; cbn -[u8]; by rewrite ?negb_involutive.
Qed.

Lemma mpint_val_cons b t :
  mpint_val (Mpint.mk (b :: t)) =
  (if 128 <=? u8 b then u8 b - 256 else u8 b) * 256 ^ zlen t + be_val t.
Proof.
  unfold mpint_val, Mpint.is_negative; simpl. rewrite high_bit_spec.
  rewrite zlen_cons, Z.pow_add_r by zlia. destruct (128 <=? u8 b); ring.
Qed.

Lemma mpint_val_range m :
  - 256 ^ zlen (Mpint.raw m) <= 2 * mpint_val m < 256 ^ zlen (Mpint.raw m).
Proof.
  destruct m as [[|b t]]; [done|]. rewrite mpint_val_cons. simpl.
  pose proof (be_val_range t). pose proof (u8_range b).
  rewrite zlen_cons, Z.pow_add_r by zlia.
  destruct (Z.leb_spec 128 (u8 b)); nia.
Qed.

(** A redundant leading byte can be dropped without changing the value. *)
Lemma mpint_redundant b t :
  Mpint.is_canonical (Mpint.mk (b :: t)) = false ->
  mpint_val (Mpint.mk t) = mpint_val (Mpint.mk (b :: t)).
Proof.
  rewrite is_canonical_cons, mpint_val_cons. destruct t as [|c t].
  - destruct (Z.eqb_spec (u8 b) 0) as [->|]; done.
  - rewrite mpint_val_cons. pose proof (u8_range c). simpl be_val.
    rewrite zlen_cons, Z.pow_add_r by zlia.
    destruct (Z.eqb_spec (u8 b) 0) as [->|].
    + intros H1. rewrite H1. simpl. ring.
    + destruct (Z.eqb_spec (u8 b) 255) as [->|]; [|done].
      intros H1%Z.ltb_ge. destruct (Z.leb_spec 128 (u8 c)); [|lia]. simpl. ring.
Qed.

(** Without redundant byte the value does not fit in fewer bytes. *)
Lemma mpint_canonical_large b t :
  Mpint.is_canonical (Mpint.mk (b :: t)) = true ->
  let v := mpint_val (Mpint.mk (b :: t)) in
  v <> 0 /\ ~ (- 256 ^ zlen t <= 2 * v < 256 ^ zlen t).
Proof.
  rewrite is_canonical_cons, mpint_val_cons. pose proof (u8_range b). destruct t as [|c t].
  - rewrite negb_true_iff, Z.eqb_neq. cbv zeta. change (256 ^ zlen []) with 1.
    change (be_val []) with 0. destruct (Z.leb_spec 128 (u8 b)); lia.
  - pose proof (u8_range c). pose proof (be_val_range t). simpl be_val.
    rewrite zlen_cons, Z.pow_add_r by zlia.
    destruct (Z.eqb_spec (u8 b) 0) as [->|].
    + rewrite Z.leb_le. simpl. intros. cbv zeta. nia.
    + destruct (Z.eqb_spec (u8 b) 255) as [->|].
      * rewrite Z.ltb_lt. simpl. cbv zeta. nia.
      * intros _. cbv zeta. destruct (Z.leb_spec 128 (u8 b)); nia.
Qed.

Lemma be_val_mod_inj a b k1 k2 :
  zlen a = zlen b -> be_val a - k1 * 256 ^ zlen a = be_val b - k2 * 256 ^ zlen b -> a = b.
Proof.
  intros Hl Hv. pose proof (be_val_range a) as Ha. pose proof (be_val_range b) as Hb.
  rewrite Hl in Ha, Hv. set (P := 256 ^ zlen b) in *.
  assert (k1 - k2 < 1) by nia. assert (-1 < k1 - k2) by nia.
  assert (be_val a = be_val b) as He by (replace k1 with k2 in Hv by lia; lia).
  rewrite <- (be_bytes_be_val a), <- (be_bytes_be_val b), He.
  f_equal. unfold zlen in Hl. lia.
Qed.

Lemma mpint_val_inj m m' :
  zlen (Mpint.raw m) = zlen (Mpint.raw m') -> mpint_val m = mpint_val m' -> m = m'.
Proof.
  destruct m as [a], m' as [b]; unfold mpint_val; cbn [Mpint.raw]. intros Hl Hv. f_equal.
  apply (be_val_mod_inj a b (if Mpint.is_negative (Mpint.mk a) then 1 else 0)
           (if Mpint.is_negative (Mpint.mk b) then 1 else 0)); [done|].
  destruct (Mpint.is_negative (Mpint.mk a)), (Mpint.is_negative (Mpint.mk b)); lia.
Qed.

Lemma mpint_canonical_shortest m m' :
  Mpint.is_canonical m = true -> mpint_val m' = mpint_val m ->
  zlen (Mpint.raw m) <= zlen (Mpint.raw m').
Proof.
  intros Hc Hv. destruct m as [[|b t]]; [zlia|].
  destruct (mpint_canonical_large b t Hc) as [Hne Hlarge]. rewrite <- Hv in *.
  pose proof (mpint_val_range m') as Hr. simpl.
  destruct (Z.lt_ge_cases (zlen (Mpint.raw m')) (zlen (b :: t))) as [Hlt|]; [|done].
  destruct Hlarge.
  assert (256 ^ zlen (Mpint.raw m') <= 256 ^ zlen t); [|lia].
  apply Z.pow_le_mono_r; zlia.
Qed.

Lemma strip_leading_zeros_spec b :
  be_val (Mpint.strip_leading_zeros b) = be_val b /\
  match Mpint.strip_leading_zeros b with [] => True | x :: _ => u8 x <> 0 end.
Proof.
  unfold Mpint.strip_leading_zeros.
  assert (forall z, Forall (fun y => negb (u8 y =? 0) = false) z ->
          forall t, be_val (z ++ t) = be_val t) as Hz.
  { induction 1 as [|y z Hy _ IH]; intros t; simpl; [done|].
    apply negb_false_iff, Z.eqb_eq in Hy. rewrite Hy, IH. lia. }
  destruct (Prelude.position _ b) as [i|] eqn:E.
  - apply position_Some in E as (a & x & c & -> & <- & Hx & Ha).
    rewrite zdrop_app_exact by done. rewrite Hz by done. split; [done|].
    by apply negb_true_iff, Z.eqb_neq in Hx.
  - apply position_None in E. rewrite zdrop_all by lia. split; [|done].
    rewrite <- (app_nil_r b). by rewrite Hz.
Qed.

Lemma mpint_body_spec magnitude :
  let m := Mpint.mk (mpint_body magnitude) in
  Mpint.is_canonical m = true /\ mpint_val m = be_val magnitude /\
  Mpint.positive_magnitude m = Some (Mpint.strip_leading_zeros magnitude).
Proof.
  destruct (strip_leading_zeros_spec magnitude) as [Hv Hh].
  unfold mpint_body. destruct (Mpint.strip_leading_zeros magnitude) as [|b m] eqn:E; simpl in *.
  - by rewrite <- Hv.
  - pose proof (u8_range b). pose proof (high_bit_spec b) as Hb.
    assert (Mpint.strip_leading_zeros (b :: m) = b :: m) as Hs.
    { unfold Mpint.strip_leading_zeros. simpl. by destruct (Z.eqb_spec (u8 b) 0). }
    destruct (Mpint.high_bit b) eqn:Eb; symmetry in Hb.
    + rewrite is_canonical_cons, mpint_val_cons. simpl. rewrite Hb.
      split_and!; [done|done|]. unfold Mpint.positive_magnitude. simpl. f_equal.
      rewrite <- Hs at 2. unfold Mpint.strip_leading_zeros. simpl.
      destruct (Z.eqb_spec (u8 b) 0); done.
    + rewrite is_canonical_cons, mpint_val_cons, Hb.
      unfold Mpint.positive_magnitude, Mpint.is_negative; cbn [Mpint.raw]. rewrite Eb, Hs.
      split_and!; [|done|done]. apply Z.leb_gt in Hb.
      destruct (Z.eqb_spec (u8 b) 0), (Z.eqb_spec (u8 b) 255); try lia. by destruct m.
Qed.

(** ** Sequences of typed values

    The primitive types as one sum, with the reader and writer method of each,
    so that statements can range over whole sequences of calls. *)

Inductive Value : Type :=
| VU8 (v : Z)
| VBool (v : bool)
| VU32 (v : Z)
| VU64 (v : Z)
| VString (s : bytes)
| VMpint (magnitude : bytes)
| VNames (ns : list bytes).

Inductive Kind : Type := KU8 | KBool | KU32 | KU64 | KString | KMpint | KNames.

Definition kind_of (v : Value) : Kind :=
  match v with
  | VU8 _ => KU8 | VBool _ => KBool | VU32 _ => KU32 | VU64 _ => KU64
  | VString _ => KString | VMpint _ => KMpint | VNames _ => KNames
  end.

Definition write_value (v : Value) : M Writer.t EncodeError unit :=
  match v with
  | VU8 v => write_u8 v
  | VBool v => write_bool v
  | VU32 v => write_u32 v
  | VU64 v => write_u64 v
  | VString s => write_string s
  | VMpint m => write_mpint_positive m
  | VNames ns => write_name_list ns
  end.

(** A negative mpint has no magnitude; it reads back as the empty one. *)
Definition read_value (k : Kind) : M Reader.t DecodeError Value :=
  match k with
  | KU8 => let! v := read_u8 in ret (VU8 v)
  | KBool => let! v := read_bool in ret (VBool v)
  | KU32 => let! v := read_u32 in ret (VU32 v)
  | KU64 => let! v := read_u64 in ret (VU64 v)
  | KString => let! v := read_string in ret (VString v)
  | KMpint => let! v := read_mpint in
              ret (VMpint (match Mpint.positive_magnitude v with Some m => m | None => [] end))
  | KNames => let! v := read_name_list in ret (VNames (NameList.names v))
  end.

Fixpoint write_values (vs : list Value) : M Writer.t EncodeError unit :=
  match vs with
  | [] => ret tt
  | v :: vs' => let! _ := write_value v in write_values vs'
  end.

Fixpoint read_values (ks : list Kind) : M Reader.t DecodeError (list Value) :=
  match ks with
  | [] => ret []
  | k :: ks' => let! v := read_value k in let! vs := read_values ks' in ret (v :: vs)
  end.

(** Values the wire format can carry: in the range of their type, and for an
    mpint the magnitude in its normal form (no leading zero byte). *)
Definition value_wf (v : Value) : Prop :=
  match v with
  | VU8 v => 0 <= v <= U8_MAX
  | VBool _ => True
  | VU32 v => is_u32 v
  | VU64 v => is_u64 v
  | VString s => zlen s <= U32_MAX
  | VMpint m => Mpint.strip_leading_zeros m = m /\ zlen (mpint_body m) <= U32_MAX
  | VNames ns => Forall (fun n => is_valid_name n = true) ns /\ zlen (join_commas ns) <= U32_MAX
  end.

Definition value_bytes (v : Value) : bytes :=
  match v with
  | VU8 v => [byte_of_Z v]
  | VBool v => [byte_of_Z (if v then 1 else 0)]
  | VU32 v => be_bytes 4 v
  | VU64 v => be_bytes 8 v
  | VString s => sshstr s
  | VMpint m => sshstr (mpint_body m)
  | VNames ns => sshstr (join_commas ns)
  end.

Lemma writes_write_value v : value_wf v -> Writes (write_value v) (value_bytes v).
Proof.
  destruct v; simpl; intros Hv; try apply _.
  - by apply writes_write_string.
  - destruct Hv. by apply writes_write_mpint_positive.
  - destruct Hv. by apply writes_write_name_list.
Qed.

Lemma writes_write_values vs :
  Forall value_wf vs -> Writes (write_values vs) (concat (map value_bytes vs)).
Proof.
  induction 1 as [|v vs Hv Hvs IH]; simpl; [apply writes_ret|].
  apply writes_bind; [by apply writes_write_value|done].
Qed.

Lemma bind_complete {E A B} (m : M Reader.t E A) (f : A -> B) img a bs pre rest :
  Reads m img -> img a bs ->
  (let! x := m in ret (f x)) (rd pre (bs ++ rest)) = (rd (pre ++ bs) rest, Ok (f a)).
Proof. intros Hm Hi. by erewrite bind_step by (by apply reads_complete). Qed.

Lemma bool_img_write v : bool_img v [byte_of_Z (if v then 1 else 0)].
Proof. exists (byte_of_Z (if v then 1 else 0)). by destruct v. Qed.

Lemma read_value_ok v pre rest :
  value_wf v ->
  read_value (kind_of v) (rd pre (value_bytes v ++ rest)) = (rd (pre ++ value_bytes v) rest, Ok v).
Proof.
  destruct v as [v|v|v|v|s|m|ns]; cbn [read_value value_wf kind_of value_bytes]; intros Hv.
  - by apply (bind_complete read_u8 VU8 u8_img v [byte_of_Z v]); [apply _|].
  - apply (bind_complete read_bool VBool bool_img v [byte_of_Z (if v then 1 else 0)]);
      [apply _|apply bool_img_write].
  - by eapply bind_complete; [apply reads_read_u32|].
  - by eapply bind_complete; [apply reads_read_u64|].
  - by eapply bind_complete; [apply reads_read_string|].
  - destruct Hv as [Hs Hl]. destruct (mpint_body_spec m) as (_ & _ & Hp).
    erewrite (bind_complete _ _ _ (Mpint.mk (mpint_body m))); [|apply reads_read_mpint|by split].
    by rewrite Hp, Hs.
  - destruct Hv as [Hv Hl].
    erewrite (bind_complete _ _ _ (NameList.mk (join_commas ns))); [|apply reads_read_name_list|].
    + by rewrite names_join.
    + split; [by apply join_wf|done].
Qed.

Lemma read_values_ok vs pre rest :
  Forall value_wf vs ->
  read_values (map kind_of vs) (rd pre (concat (map value_bytes vs) ++ rest)) =
  (rd (pre ++ concat (map value_bytes vs)) rest, Ok vs).
Proof.
  intros H. revert pre; induction H as [|v vs Hv Hvs IH]; intros pre; simpl.
  - by rewrite app_nil_r.
  - rewrite <- app_assoc. erewrite bind_step by (by apply read_value_ok).
    erewrite bind_step by apply IH. by rewrite app_assoc.
Qed.

Lemma read_bool_atomic : read_atomic read_bool.
Proof. apply bind_ret_atomic, read_u8_atomic. Qed.

Lemma read_u64_atomic : read_atomic read_u64.
Proof. apply bind_ret_atomic, read_bytes_atomic. lia. Qed.

Lemma read_value_atomic k : read_atomic (read_value k).
Proof.
  destruct k; apply bind_ret_atomic; auto using read_u8_atomic, read_bool_atomic, read_u32_atomic,
    read_u64_atomic, read_string_atomic, read_mpint_atomic, read_name_list_atomic.
Qed.

Lemma reads_read_value k : exists img, Reads (read_value k) img.
Proof. destruct k; eexists; apply reads_map; apply _. Qed.

(** ** Properties *)

(** The cursor contract of [Reader]: every [read_*] call on a well-formed
    reader either succeeds, keeps the input and moves the cursor forward
    within it, or fails and leaves the reader exactly as it was. *)
Theorem reader_contract (k : Kind) (r r' : Reader.t) (res : result Value DecodeError) :
  Reader.wf r -> read_value k r = (r', res) ->
  Reader.input r' = Reader.input r /\ Reader.wf r' /\
  match res with
  | Ok _ => Reader.pos r <= Reader.pos r'
  | Err _ => r' = r
  end.
Proof.
  intros Hwf Hk. destruct res as [v|e].
  - apply wf_rd in Hwf as (pre & rest & ->). destruct (reads_read_value k) as [img Himg].
    destruct (reads_sound (Reads:=Himg) _ _ _ _ Hk) as (bs & rest' & -> & -> & Hi). split_and!.
    + simpl. by rewrite <- app_assoc.
    + apply wf_rd. eauto.
    + simpl. zlia.
  - by apply (read_value_atomic k r r' e Hwf) in Hk as ->.
Qed.

Lemma reader_contract_witness :
  let r := Reader.mk [x00; x00; x00; x09; "a"%byte] 0 in
  Reader.wf r /\ fst (read_value KString r) = r.
Proof.
  split; [unfold Reader.wf; vm_compute; split; discriminate|].
  refine (proj2 (proj2 (reader_contract KString _ _
    (Err (DecodeLengthOverflow 9 1)) _ _))); [unfold Reader.wf; vm_compute; split; discriminate|].
  reflexivity.
Defined.

(** Encoding a sequence of primitive values into a buffer with room for
    them succeeds, touches only the bytes it produces, and reading the written
    bytes back with the same types gives the same values and consumes
    everything. *)
Theorem values_roundtrip (vs : list Value) (out : bytes) :
  Forall value_wf vs -> zlen (concat (map value_bytes vs)) <= zlen out ->
  exists w r,
    write_values vs (Writer.new out) = (w, Ok tt) /\
    Writer.out w = Writer.written w ++ zdrop (Writer.pos w) out /\
    read_values (map kind_of vs) (Reader.new (Writer.written w)) = (r, Ok vs) /\
    Reader.finish r = Ok tt.
Proof.
  intros Hv Hl. pose proof (writes_write_values vs Hv) as Hw.
  set (bs := concat (map value_bytes vs)) in *.
  destruct (zsplit (zlen bs) out) as (old & room & -> & Ho); [zlia|].
  exists (wr bs room), (rd bs []). split_and!.
  - rewrite wr_new. by rewrite (writes_ok (Writes:=Hw)).
  - rewrite written_wr. unfold wr; simpl. by rewrite zdrop_app_exact.
  - rewrite written_wr, rd_new, <- (app_nil_r bs) at 1. rewrite <- (app_nil_l bs) at 2.
    by apply read_values_ok.
  - by rewrite finish_spec.
Qed.

Lemma values_roundtrip_witness :
  exists w r,
    write_values [VU8 20; VString (bstr "ssh"); VMpint [x80]; VNames [bstr "none"]]
      (Writer.new (replicate 64 x00)) = (w, Ok tt) /\
    Writer.out w = Writer.written w ++ zdrop (Writer.pos w) (replicate 64 x00) /\
    read_values [KU8; KString; KMpint; KNames] (Reader.new (Writer.written w)) =
      (r, Ok [VU8 20; VString (bstr "ssh"); VMpint [x80]; VNames [bstr "none"]]) /\
    Reader.finish r = Ok tt.
Proof.
  apply (values_roundtrip [VU8 20; VString (bstr "ssh"); VMpint [x80]; VNames [bstr "none"]]).
  - repeat constructor; vm_compute; discriminate.
  - vm_compute. discriminate.
Defined.

(** Every [write_*] call is atomic: when it fails, buffer and cursor are
    untouched, whatever the cause (missing room, a length over 32 bits, an
    invalid name). *)
Theorem writer_atomic (v : Value) (w w' : Writer.t) (e : EncodeError) :
  write_value v w = (w', Err e) -> w' = w.
Proof.
  destruct v; simpl;
    first [apply write_string_atomic | apply write_mpint_positive_atomic
          | apply write_name_list_atomic | apply write_bytes_atomic].
Qed.

Lemma writer_atomic_witness :
  let w := Writer.mk [x01; x02; x03] 1 in fst (write_value (VU32 7) w) = w.
Proof.
  apply (writer_atomic (VU32 7) _ _ (InsufficientCapacity 4 2)). reflexivity.
Defined.

(** [Mpint::is_canonical] decides canonicity: it holds exactly for the
    encodings such that every other encoding of the same two's-complement
    value is strictly longer. *)
Theorem mpint_is_canonical_exact (m : Mpint.t) :
  Mpint.is_canonical m = true <->
  forall m', mpint_val m' = mpint_val m -> m' = m \/ zlen (Mpint.raw m) < zlen (Mpint.raw m').
Proof.
  split.
  - intros Hc m' Hv. pose proof (mpint_canonical_shortest m m' Hc Hv).
    destruct (Z.eq_dec (zlen (Mpint.raw m)) (zlen (Mpint.raw m'))); [|lia].
    left. by apply mpint_val_inj.
  - intros H. destruct m as [[|b t]]; [done|].
    destruct (Mpint.is_canonical (Mpint.mk (b :: t))) eqn:E; [done|].
    apply mpint_redundant in E. apply H in E as [[= E]|E].
    + apply (f_equal length) in E. simpl in E. lia.
    + simpl in E. zlia.
Qed.

(** [write_mpint_positive] writes the canonical encoding of the unsigned
    magnitude it is given, of the length [mpint_positive_len] announces. *)
Theorem write_mpint_positive_correct (magnitude out : bytes) :
  Mpint.mpint_positive_len magnitude <= zlen out -> Mpint.mpint_positive_len magnitude <= U32_MAX ->
  exists w m r,
    write_mpint_positive magnitude (Writer.new out) = (w, Ok tt) /\
    Writer.pos w = Mpint.mpint_positive_len magnitude /\
    read_mpint (Reader.new (Writer.written w)) = (r, Ok m) /\ Reader.finish r = Ok tt /\
    Mpint.is_canonical m = true /\ mpint_val m = be_val magnitude /\
    Mpint.positive_magnitude m = Some (Mpint.strip_leading_zeros magnitude).
Proof.
  rewrite <- mpint_body_len. intros Hl Hu. rewrite zlen_sshstr in Hu.
  set (bs := sshstr (mpint_body magnitude)) in *.
  destruct (zsplit (zlen bs) out) as (old & room & -> & Ho); [zlia|].
  assert (Writes (write_mpint_positive magnitude) bs) as Hw
    by (apply writes_write_mpint_positive; lia).
  exists (wr bs room), (Mpint.mk (mpint_body magnitude)), (rd bs []).
  destruct (mpint_body_spec magnitude) as (Hc & Hv & Hp).
  rewrite written_wr. split_and!; try done.
  - rewrite wr_new. by rewrite (writes_ok (Writes:=Hw)).
  - rewrite rd_new, <- (app_nil_r bs) at 1. rewrite <- (app_nil_l bs) at 2.
    apply reads_complete. split; [simpl; lia|done].
  - by rewrite finish_spec.
Qed.

Lemma write_mpint_positive_correct_witness :
  exists w m r,
    write_mpint_positive [x00; x80; x01] (Writer.new (replicate 8 xff)) = (w, Ok tt) /\
    Writer.pos w = 7 /\
    read_mpint (Reader.new (Writer.written w)) = (r, Ok m) /\ Reader.finish r = Ok tt /\
    Mpint.is_canonical m = true /\ mpint_val m = 32769 /\
    Mpint.positive_magnitude m = Some [x80; x01].
Proof. apply (write_mpint_positive_correct [x00; x80; x01]); vm_compute; discriminate. Defined.
