(* ===== verification/Messages.v ===== *)
(** * Message payload codecs

    Models the message numbers (wire/msg.rs), the shared decoding helpers
    (wire/message.rs) and the payload codecs of wire/transport.rs,
    wire/kex.rs and wire/channel.rs, one Module per message. A decoder is a
    sequence of named fields over [Reader]; an encoder a sequence of writes.
    The interface [Codec] states what every codec promises; it has an instance
    per message and the round-trip theorems are proved once against it. *)

From S2P Require Import Prelude WireError NameList Primitives.

Module Msg.

(* wire/msg.rs:16-16 msg::DISCONNECT *)
Definition DISCONNECT : Z := 1.

(* wire/msg.rs:18-18 msg::IGNORE *)
Definition IGNORE : Z := 2.

(* wire/msg.rs:20-20 msg::UNIMPLEMENTED *)
Definition UNIMPLEMENTED : Z := 3.

(* wire/msg.rs:22-22 msg::DEBUG *)
Definition DEBUG : Z := 4.

(* wire/msg.rs:24-24 msg::SERVICE_REQUEST *)
Definition SERVICE_REQUEST : Z := 5.

(* wire/msg.rs:26-26 msg::SERVICE_ACCEPT *)
Definition SERVICE_ACCEPT : Z := 6.

(* wire/msg.rs:28-28 msg::EXT_INFO *)
Definition EXT_INFO : Z := 7.

(* wire/msg.rs:30-30 msg::KEXINIT *)
Definition KEXINIT : Z := 20.

(* wire/msg.rs:32-32 msg::NEWKEYS *)
Definition NEWKEYS : Z := 21.

(* wire/msg.rs:35-35 msg::KEX_ECDH_INIT *)
Definition KEX_ECDH_INIT : Z := 30.

(* wire/msg.rs:38-38 msg::KEX_ECDH_REPLY *)
Definition KEX_ECDH_REPLY : Z := 31.

(* wire/msg.rs:40-40 msg::CHANNEL_OPEN *)
Definition CHANNEL_OPEN : Z := 90.

(* wire/msg.rs:42-42 msg::CHANNEL_OPEN_CONFIRMATION *)
Definition CHANNEL_OPEN_CONFIRMATION : Z := 91.

(* wire/msg.rs:44-44 msg::CHANNEL_OPEN_FAILURE *)
Definition CHANNEL_OPEN_FAILURE : Z := 92.

(* wire/msg.rs:49-51 is_kex_method_specific *)
Definition is_kex_method_specific (number : Z) : bool := (30 <=? number) && (number <=? 49).

(* wire/msg.rs:56-74 msg::name *)
Definition name (number : Z) : option string :=
  if number =? DISCONNECT then Some "SSH_MSG_DISCONNECT"%string else
  if number =? IGNORE then Some "SSH_MSG_IGNORE"%string else
  if number =? UNIMPLEMENTED then Some "SSH_MSG_UNIMPLEMENTED"%string else
  if number =? DEBUG then Some "SSH_MSG_DEBUG"%string else
  if number =? SERVICE_REQUEST then Some "SSH_MSG_SERVICE_REQUEST"%string else
  if number =? SERVICE_ACCEPT then Some "SSH_MSG_SERVICE_ACCEPT"%string else
  if number =? EXT_INFO then Some "SSH_MSG_EXT_INFO"%string else
  if number =? KEXINIT then Some "SSH_MSG_KEXINIT"%string else
  if number =? NEWKEYS then Some "SSH_MSG_NEWKEYS"%string else
  if number =? KEX_ECDH_INIT then Some "SSH_MSG_KEX_ECDH_INIT"%string else
  if number =? KEX_ECDH_REPLY then Some "SSH_MSG_KEX_ECDH_REPLY"%string else
  if number =? CHANNEL_OPEN then Some "SSH_MSG_CHANNEL_OPEN"%string else
  if number =? CHANNEL_OPEN_CONFIRMATION then Some "SSH_MSG_CHANNEL_OPEN_CONFIRMATION"%string else
  if number =? CHANNEL_OPEN_FAILURE then Some "SSH_MSG_CHANNEL_OPEN_FAILURE"%string else
  None.

End Msg.

Module disconnect_reason.

(* wire/transport.rs:23-23 disconnect_reason::HOST_NOT_ALLOWED_TO_CONNECT *)
Definition HOST_NOT_ALLOWED_TO_CONNECT : Z := 1.

(* wire/transport.rs:25-25 disconnect_reason::PROTOCOL_ERROR *)
Definition PROTOCOL_ERROR : Z := 2.

(* wire/transport.rs:27-27 disconnect_reason::KEY_EXCHANGE_FAILED *)
Definition KEY_EXCHANGE_FAILED : Z := 3.

(* wire/transport.rs:29-29 disconnect_reason::RESERVED *)
Definition RESERVED : Z := 4.

(* wire/transport.rs:31-31 disconnect_reason::MAC_ERROR *)
Definition MAC_ERROR : Z := 5.

(* wire/transport.rs:33-33 disconnect_reason::COMPRESSION_ERROR *)
Definition COMPRESSION_ERROR : Z := 6.

(* wire/transport.rs:35-35 disconnect_reason::SERVICE_NOT_AVAILABLE *)
Definition SERVICE_NOT_AVAILABLE : Z := 7.

(* wire/transport.rs:37-37 disconnect_reason::PROTOCOL_VERSION_NOT_SUPPORTED *)
Definition PROTOCOL_VERSION_NOT_SUPPORTED : Z := 8.

(* wire/transport.rs:39-39 disconnect_reason::HOST_KEY_NOT_VERIFIABLE *)
Definition HOST_KEY_NOT_VERIFIABLE : Z := 9.

(* wire/transport.rs:41-41 disconnect_reason::CONNECTION_LOST *)
Definition CONNECTION_LOST : Z := 10.

(* wire/transport.rs:43-43 disconnect_reason::BY_APPLICATION *)
Definition BY_APPLICATION : Z := 11.

(* wire/transport.rs:45-45 disconnect_reason::TOO_MANY_CONNECTIONS *)
Definition TOO_MANY_CONNECTIONS : Z := 12.

(* wire/transport.rs:47-47 disconnect_reason::AUTH_CANCELLED_BY_USER *)
Definition AUTH_CANCELLED_BY_USER : Z := 13.

(* wire/transport.rs:49-49 disconnect_reason::NO_MORE_AUTH_METHODS_AVAILABLE *)
Definition NO_MORE_AUTH_METHODS_AVAILABLE : Z := 14.

(* wire/transport.rs:51-51 disconnect_reason::ILLEGAL_USER_NAME *)
Definition ILLEGAL_USER_NAME : Z := 15.

(* wire/transport.rs:55-74 disconnect_reason::name *)
Definition name (code : Z) : option string :=
  if code =? HOST_NOT_ALLOWED_TO_CONNECT then Some "SSH_DISCONNECT_HOST_NOT_ALLOWED_TO_CONNECT"%string else
  if code =? PROTOCOL_ERROR then Some "SSH_DISCONNECT_PROTOCOL_ERROR"%string else
  if code =? KEY_EXCHANGE_FAILED then Some "SSH_DISCONNECT_KEY_EXCHANGE_FAILED"%string else
  if code =? RESERVED then Some "SSH_DISCONNECT_RESERVED"%string else
  if code =? MAC_ERROR then Some "SSH_DISCONNECT_MAC_ERROR"%string else
  if code =? COMPRESSION_ERROR then Some "SSH_DISCONNECT_COMPRESSION_ERROR"%string else
  if code =? SERVICE_NOT_AVAILABLE then Some "SSH_DISCONNECT_SERVICE_NOT_AVAILABLE"%string else
  if code =? PROTOCOL_VERSION_NOT_SUPPORTED then Some "SSH_DISCONNECT_PROTOCOL_VERSION_NOT_SUPPORTED"%string else
  if code =? HOST_KEY_NOT_VERIFIABLE then Some "SSH_DISCONNECT_HOST_KEY_NOT_VERIFIABLE"%string else
  if code =? CONNECTION_LOST then Some "SSH_DISCONNECT_CONNECTION_LOST"%string else
  if code =? BY_APPLICATION then Some "SSH_DISCONNECT_BY_APPLICATION"%string else
  if code =? TOO_MANY_CONNECTIONS then Some "SSH_DISCONNECT_TOO_MANY_CONNECTIONS"%string else
  if code =? AUTH_CANCELLED_BY_USER then Some "SSH_DISCONNECT_AUTH_CANCELLED_BY_USER"%string else
  if code =? NO_MORE_AUTH_METHODS_AVAILABLE then Some "SSH_DISCONNECT_NO_MORE_AUTH_METHODS_AVAILABLE"%string else
  if code =? ILLEGAL_USER_NAME then Some "SSH_DISCONNECT_ILLEGAL_USER_NAME"%string else
  None.

End disconnect_reason.

Module open_failure_reason.

(* wire/channel.rs:26-26 open_failure_reason::ADMINISTRATIVELY_PROHIBITED *)
Definition ADMINISTRATIVELY_PROHIBITED : Z := 1.

(* wire/channel.rs:28-28 open_failure_reason::CONNECT_FAILED *)
Definition CONNECT_FAILED : Z := 2.

(* wire/channel.rs:30-30 open_failure_reason::UNKNOWN_CHANNEL_TYPE *)
Definition UNKNOWN_CHANNEL_TYPE : Z := 3.

(* wire/channel.rs:32-32 open_failure_reason::RESOURCE_SHORTAGE *)
Definition RESOURCE_SHORTAGE : Z := 4.

(* wire/channel.rs:36-44 open_failure_reason::name *)
Definition name (code : Z) : option string :=
  if code =? ADMINISTRATIVELY_PROHIBITED then Some "SSH_OPEN_ADMINISTRATIVELY_PROHIBITED"%string else
  if code =? CONNECT_FAILED then Some "SSH_OPEN_CONNECT_FAILED"%string else
  if code =? UNKNOWN_CHANNEL_TYPE then Some "SSH_OPEN_UNKNOWN_CHANNEL_TYPE"%string else
  if code =? RESOURCE_SHORTAGE then Some "SSH_OPEN_RESOURCE_SHORTAGE"%string else
  None.

End open_failure_reason.

(** ** Helpers of whole-message decoders *)

(* wire/message.rs:7-14 expect_message *)
Definition expect_message (expected : Z) : M Reader.t MessageError unit :=
  let! found := with_err (fun _ => MessageEmpty) Reader.read_u8 in
  if found =? expected then ret tt else fail (UnexpectedMessage expected found).

(* wire/message.rs:17-28 field *)
Definition field {A} (name : string) (read : M Reader.t DecodeError A) : M Reader.t MessageError A :=
  fun r =>
    let offset := Reader.position r in
    with_err (fun error => MessageField name offset error) read r.

(* wire/message.rs:31-34 finish *)
Definition finish : M Reader.t MessageError unit := fun r =>
  (r, map_err (fun count => MessageTrailingBytes count) (Reader.finish r)).

(** [r.remaining()] inside a decoder. *)
Definition remaining : M Reader.t MessageError bytes := fun r => (r, Ok (Reader.remaining r)).

(** A decoder applied to a delimited payload. *)
Definition run_decode {A} (m : M Reader.t MessageError A) (payload : bytes) : result A MessageError :=
  snd (m (Reader.new payload)).

(** An encoder applied to the caller's buffer: the buffer after the call (also
    on failure) and the number of bytes written. *)
Definition run_encode (m : M Writer.t EncodeError unit) (out : bytes) :
    bytes * result Z EncodeError :=
  match m (Writer.new out) with
  | (w, Ok _) => (Writer.out w, Ok (Writer.position w))
  | (w, Err e) => (Writer.out w, Err e)
  end.

(** ** Transport messages (wire/transport.rs) *)

Module Disconnect.

(* wire/transport.rs:79-86 Disconnect *)
Record t : Type := mk {
  reason_code : Z;
  description : bytes;
  language_tag : bytes
}.

#[global] Instance t_eq_decision : EqDecision t.
Proof. solve_decision. Defined.

(* wire/transport.rs:90-102 Disconnect::decode *)
Definition decode (payload : bytes) : result t MessageError :=
  run_decode (
    let! _ := expect_message Msg.DISCONNECT in
    let! reason_code := field "reason_code" Reader.read_u32 in
    let! description := field "description" Reader.read_string in
    let! language_tag := field "language_tag" Reader.read_string in
    let! _ := finish in
    ret (mk reason_code description language_tag)) payload.

(* wire/transport.rs:105-112 Disconnect::encode *)
Definition encode (self : t) (out : bytes) : bytes * result Z EncodeError :=
  run_encode (
    let! _ := Writer.write_u8 Msg.DISCONNECT in
    let! _ := Writer.write_u32 self.(reason_code) in
    let! _ := Writer.write_string self.(description) in
    let! _ := Writer.write_string self.(language_tag) in
    ret tt) out.

(** The values the wire format can carry, and their encoding. *)
Definition wf (self : t) : Prop :=
  is_u32 self.(reason_code) /\ zlen self.(description) <= U32_MAX /\ zlen self.(language_tag) <= U32_MAX.

Definition image (self : t) : bytes :=
  [byte_of_Z Msg.DISCONNECT] ++ be_bytes 4 self.(reason_code) ++ sshstr self.(description) ++ sshstr self.(language_tag).

End Disconnect.

Module Ignore.

(* wire/transport.rs:117-120 Ignore *)
Record t : Type := mk {
  data : bytes
}.

#[global] Instance t_eq_decision : EqDecision t.
Proof. solve_decision. Defined.

(* wire/transport.rs:124-130 Ignore::decode *)
Definition decode (payload : bytes) : result t MessageError :=
  run_decode (
    let! _ := expect_message Msg.IGNORE in
    let! data := field "data" Reader.read_string in
    let! _ := finish in
    ret (mk data)) payload.

(* wire/transport.rs:133-138 Ignore::encode *)
Definition encode (self : t) (out : bytes) : bytes * result Z EncodeError :=
  run_encode (
    let! _ := Writer.write_u8 Msg.IGNORE in
    let! _ := Writer.write_string self.(data) in
    ret tt) out.

(** The values the wire format can carry, and their encoding. *)
Definition wf (self : t) : Prop :=
  zlen self.(data) <= U32_MAX.

Definition image (self : t) : bytes :=
  [byte_of_Z Msg.IGNORE] ++ sshstr self.(data).

End Ignore.

Module Unimplemented.

(* wire/transport.rs:143-146 Unimplemented *)
Record t : Type := mk {
  sequence_number : Z
}.

#[global] Instance t_eq_decision : EqDecision t.
Proof. solve_decision. Defined.

(* wire/transport.rs:150-156 Unimplemented::decode *)
Definition decode (payload : bytes) : result t MessageError :=
  run_decode (
    let! _ := expect_message Msg.UNIMPLEMENTED in
    let! sequence_number := field "sequence_number" Reader.read_u32 in
    let! _ := finish in
    ret (mk sequence_number)) payload.

(* wire/transport.rs:159-164 Unimplemented::encode *)
Definition encode (self : t) (out : bytes) : bytes * result Z EncodeError :=
  run_encode (
    let! _ := Writer.write_u8 Msg.UNIMPLEMENTED in
    let! _ := Writer.write_u32 self.(sequence_number) in
    ret tt) out.

(** The values the wire format can carry, and their encoding. *)
Definition wf (self : t) : Prop :=
  is_u32 self.(sequence_number).

Definition image (self : t) : bytes :=
  [byte_of_Z Msg.UNIMPLEMENTED] ++ be_bytes 4 self.(sequence_number).

End Unimplemented.

Module DebugMsg.

(* wire/transport.rs:169-176 DebugMsg *)
Record t : Type := mk {
  always_display : bool;
  message : bytes;
  language_tag : bytes
}.

#[global] Instance t_eq_decision : EqDecision t.
Proof. solve_decision. Defined.

(* wire/transport.rs:180-192 DebugMsg::decode *)
Definition decode (payload : bytes) : result t MessageError :=
  run_decode (
    let! _ := expect_message Msg.DEBUG in
    let! always_display := field "always_display" Reader.read_bool in
    let! message := field "message" Reader.read_string in
    let! language_tag := field "language_tag" Reader.read_string in
    let! _ := finish in
    ret (mk always_display message language_tag)) payload.

(* wire/transport.rs:195-202 DebugMsg::encode *)
Definition encode (self : t) (out : bytes) : bytes * result Z EncodeError :=
  run_encode (
    let! _ := Writer.write_u8 Msg.DEBUG in
    let! _ := Writer.write_bool self.(always_display) in
    let! _ := Writer.write_string self.(message) in
    let! _ := Writer.write_string self.(language_tag) in
    ret tt) out.

(** The values the wire format can carry, and their encoding. *)
Definition wf (self : t) : Prop :=
  zlen self.(message) <= U32_MAX /\ zlen self.(language_tag) <= U32_MAX.

Definition image (self : t) : bytes :=
  [byte_of_Z Msg.DEBUG] ++ [byte_of_Z (if self.(always_display) then 1 else 0)] ++ sshstr self.(message) ++ sshstr self.(language_tag).

End DebugMsg.

Module ServiceRequest.

(* wire/transport.rs:212-215 ServiceRequest *)
Record t : Type := mk {
  service_name : bytes
}.

#[global] Instance t_eq_decision : EqDecision t.
Proof. solve_decision. Defined.

(* wire/transport.rs:219-225 ServiceRequest::decode *)
Definition decode (payload : bytes) : result t MessageError :=
  run_decode (
    let! _ := expect_message Msg.SERVICE_REQUEST in
    let! service_name := field "service_name" Reader.read_string in
    let! _ := finish in
    ret (mk service_name)) payload.

(* wire/transport.rs:228-233 ServiceRequest::encode *)
Definition encode (self : t) (out : bytes) : bytes * result Z EncodeError :=
  run_encode (
    let! _ := Writer.write_u8 Msg.SERVICE_REQUEST in
    let! _ := Writer.write_string self.(service_name) in
    ret tt) out.

(** The values the wire format can carry, and their encoding. *)
Definition wf (self : t) : Prop :=
  zlen self.(service_name) <= U32_MAX.

Definition image (self : t) : bytes :=
  [byte_of_Z Msg.SERVICE_REQUEST] ++ sshstr self.(service_name).

End ServiceRequest.

Module ServiceAccept.

(* wire/transport.rs:243-246 ServiceAccept *)
Record t : Type := mk {
  service_name : bytes
}.

#[global] Instance t_eq_decision : EqDecision t.
Proof. solve_decision. Defined.

(* wire/transport.rs:250-256 ServiceAccept::decode *)
Definition decode (payload : bytes) : result t MessageError :=
  run_decode (
    let! _ := expect_message Msg.SERVICE_ACCEPT in
    let! service_name := field "service_name" Reader.read_string in
    let! _ := finish in
    ret (mk service_name)) payload.

(* wire/transport.rs:259-264 ServiceAccept::encode *)
Definition encode (self : t) (out : bytes) : bytes * result Z EncodeError :=
  run_encode (
    let! _ := Writer.write_u8 Msg.SERVICE_ACCEPT in
    let! _ := Writer.write_string self.(service_name) in
    ret tt) out.

(** The values the wire format can carry, and their encoding. *)
Definition wf (self : t) : Prop :=
  zlen self.(service_name) <= U32_MAX.

Definition image (self : t) : bytes :=
  [byte_of_Z Msg.SERVICE_ACCEPT] ++ sshstr self.(service_name).

End ServiceAccept.

(** ** Key-exchange messages (wire/kex.rs) *)

Module KexEcdhInit.

(* wire/kex.rs:30-33 KexEcdhInit *)
Record t : Type := mk {
  client_ephemeral : bytes
}.

#[global] Instance t_eq_decision : EqDecision t.
Proof. solve_decision. Defined.

(* wire/kex.rs:38-44 KexEcdhInit::decode *)
Definition decode (payload : bytes) : result t MessageError :=
  run_decode (
    let! _ := expect_message Msg.KEX_ECDH_INIT in
    let! client_ephemeral := field "Q_C" Reader.read_string in
    let! _ := finish in
    ret (mk client_ephemeral)) payload.

(* wire/kex.rs:47-52 KexEcdhInit::encode *)
Definition encode (self : t) (out : bytes) : bytes * result Z EncodeError :=
  run_encode (
    let! _ := Writer.write_u8 Msg.KEX_ECDH_INIT in
    let! _ := Writer.write_string self.(client_ephemeral) in
    ret tt) out.

(** The values the wire format can carry, and their encoding. *)
Definition wf (self : t) : Prop :=
  zlen self.(client_ephemeral) <= U32_MAX.

Definition image (self : t) : bytes :=
  [byte_of_Z Msg.KEX_ECDH_INIT] ++ sshstr self.(client_ephemeral).

End KexEcdhInit.

Module KexEcdhReply.

(* wire/kex.rs:64-74 KexEcdhReply *)
Record t : Type := mk {
  host_key_blob : bytes;
  server_ephemeral : bytes;
  signature_blob : bytes
}.

#[global] Instance t_eq_decision : EqDecision t.
Proof. solve_decision. Defined.

(* wire/kex.rs:79-91 KexEcdhReply::decode *)
Definition decode (payload : bytes) : result t MessageError :=
  run_decode (
    let! _ := expect_message Msg.KEX_ECDH_REPLY in
    let! host_key_blob := field "K_S" Reader.read_string in
    let! server_ephemeral := field "Q_S" Reader.read_string in
    let! signature_blob := field "signature" Reader.read_string in
    let! _ := finish in
    ret (mk host_key_blob server_ephemeral signature_blob)) payload.

(* wire/kex.rs:94-101 KexEcdhReply::encode *)
Definition encode (self : t) (out : bytes) : bytes * result Z EncodeError :=
  run_encode (
    let! _ := Writer.write_u8 Msg.KEX_ECDH_REPLY in
    let! _ := Writer.write_string self.(host_key_blob) in
    let! _ := Writer.write_string self.(server_ephemeral) in
    let! _ := Writer.write_string self.(signature_blob) in
    ret tt) out.

(** The values the wire format can carry, and their encoding. *)
Definition wf (self : t) : Prop :=
  zlen self.(host_key_blob) <= U32_MAX /\ zlen self.(server_ephemeral) <= U32_MAX /\ zlen self.(signature_blob) <= U32_MAX.

Definition image (self : t) : bytes :=
  [byte_of_Z Msg.KEX_ECDH_REPLY] ++ sshstr self.(host_key_blob) ++ sshstr self.(server_ephemeral) ++ sshstr self.(signature_blob).

End KexEcdhReply.

Module NewKeys.

(* wire/kex.rs:107-107 NewKeys *)
Inductive t : Type := mk.

#[global] Instance t_eq_decision : EqDecision t.
Proof. solve_decision. Defined.

(* wire/kex.rs:115-120 NewKeys::decode *)
Definition decode (payload : bytes) : result t MessageError :=
  run_decode (
    let! _ := expect_message Msg.NEWKEYS in
    let! _ := finish in
    ret (mk)) payload.

(* wire/kex.rs:123-127 NewKeys::encode *)
Definition encode (self : t) (out : bytes) : bytes * result Z EncodeError :=
  run_encode (
    let! _ := Writer.write_u8 Msg.NEWKEYS in
    ret tt) out.

(** The values the wire format can carry, and their encoding. *)
Definition wf (self : t) : Prop :=
  True.

Definition image (self : t) : bytes :=
  [byte_of_Z Msg.NEWKEYS].

End NewKeys.

(** ** Channel-opening messages (wire/channel.rs) *)

Module ChannelOpen.

(* wire/channel.rs:49-61 ChannelOpen *)
Record t : Type := mk {
  channel_type : bytes;
  sender_channel : Z;
  initial_window_size : Z;
  maximum_packet_size : Z;
  type_specific : bytes
}.

#[global] Instance t_eq_decision : EqDecision t.
Proof. solve_decision. Defined.

(* wire/channel.rs:65-80 ChannelOpen::decode *)
Definition decode (payload : bytes) : result t MessageError :=
  run_decode (
    let! _ := expect_message Msg.CHANNEL_OPEN in
    let! channel_type := field "channel_type" Reader.read_string in
    let! sender_channel := field "sender_channel" Reader.read_u32 in
    let! initial_window_size := field "initial_window_size" Reader.read_u32 in
    let! maximum_packet_size := field "maximum_packet_size" Reader.read_u32 in
    let! type_specific := remaining in
    ret (mk channel_type sender_channel initial_window_size maximum_packet_size type_specific)) payload.

(* wire/channel.rs:83-92 ChannelOpen::encode *)
Definition encode (self : t) (out : bytes) : bytes * result Z EncodeError :=
  run_encode (
    let! _ := Writer.write_u8 Msg.CHANNEL_OPEN in
    let! _ := Writer.write_string self.(channel_type) in
    let! _ := Writer.write_u32 self.(sender_channel) in
    let! _ := Writer.write_u32 self.(initial_window_size) in
    let! _ := Writer.write_u32 self.(maximum_packet_size) in
    let! _ := Writer.write_bytes self.(type_specific) in
    ret tt) out.

(** The values the wire format can carry, and their encoding. *)
Definition wf (self : t) : Prop :=
  zlen self.(channel_type) <= U32_MAX /\ is_u32 self.(sender_channel) /\ is_u32 self.(initial_window_size) /\ is_u32 self.(maximum_packet_size).

Definition image (self : t) : bytes :=
  [byte_of_Z Msg.CHANNEL_OPEN] ++ sshstr self.(channel_type) ++ be_bytes 4 self.(sender_channel) ++ be_bytes 4 self.(initial_window_size) ++ be_bytes 4 self.(maximum_packet_size) ++ self.(type_specific).

End ChannelOpen.

Module ChannelOpenConfirmation.

(* wire/channel.rs:97-109 ChannelOpenConfirmation *)
Record t : Type := mk {
  recipient_channel : Z;
  sender_channel : Z;
  initial_window_size : Z;
  maximum_packet_size : Z;
  type_specific : bytes
}.

#[global] Instance t_eq_decision : EqDecision t.
Proof. solve_decision. Defined.

(* wire/channel.rs:113-128 ChannelOpenConfirmation::decode *)
Definition decode (payload : bytes) : result t MessageError :=
  run_decode (
    let! _ := expect_message Msg.CHANNEL_OPEN_CONFIRMATION in
    let! recipient_channel := field "recipient_channel" Reader.read_u32 in
    let! sender_channel := field "sender_channel" Reader.read_u32 in
    let! initial_window_size := field "initial_window_size" Reader.read_u32 in
    let! maximum_packet_size := field "maximum_packet_size" Reader.read_u32 in
    let! type_specific := remaining in
    ret (mk recipient_channel sender_channel initial_window_size maximum_packet_size type_specific)) payload.

(* wire/channel.rs:131-140 ChannelOpenConfirmation::encode *)
Definition encode (self : t) (out : bytes) : bytes * result Z EncodeError :=
  run_encode (
    let! _ := Writer.write_u8 Msg.CHANNEL_OPEN_CONFIRMATION in
    let! _ := Writer.write_u32 self.(recipient_channel) in
    let! _ := Writer.write_u32 self.(sender_channel) in
    let! _ := Writer.write_u32 self.(initial_window_size) in
    let! _ := Writer.write_u32 self.(maximum_packet_size) in
    let! _ := Writer.write_bytes self.(type_specific) in
    ret tt) out.

(** The values the wire format can carry, and their encoding. *)
Definition wf (self : t) : Prop :=
  is_u32 self.(recipient_channel) /\ is_u32 self.(sender_channel) /\ is_u32 self.(initial_window_size) /\ is_u32 self.(maximum_packet_size).

Definition image (self : t) : bytes :=
  [byte_of_Z Msg.CHANNEL_OPEN_CONFIRMATION] ++ be_bytes 4 self.(recipient_channel) ++ be_bytes 4 self.(sender_channel) ++ be_bytes 4 self.(initial_window_size) ++ be_bytes 4 self.(maximum_packet_size) ++ self.(type_specific).

End ChannelOpenConfirmation.

Module ChannelOpenFailure.

(* wire/channel.rs:147-156 ChannelOpenFailure *)
Record t : Type := mk {
  recipient_channel : Z;
  reason_code : Z;
  description : bytes;
  language_tag : bytes
}.

#[global] Instance t_eq_decision : EqDecision t.
Proof. solve_decision. Defined.

(* wire/channel.rs:160-174 ChannelOpenFailure::decode *)
Definition decode (payload : bytes) : result t MessageError :=
  run_decode (
    let! _ := expect_message Msg.CHANNEL_OPEN_FAILURE in
    let! recipient_channel := field "recipient_channel" Reader.read_u32 in
    let! reason_code := field "reason_code" Reader.read_u32 in
    let! description := field "description" Reader.read_string in
    let! language_tag := field "language_tag" Reader.read_string in
    let! _ := finish in
    ret (mk recipient_channel reason_code description language_tag)) payload.

(* wire/channel.rs:177-185 ChannelOpenFailure::encode *)
Definition encode (self : t) (out : bytes) : bytes * result Z EncodeError :=
  run_encode (
    let! _ := Writer.write_u8 Msg.CHANNEL_OPEN_FAILURE in
    let! _ := Writer.write_u32 self.(recipient_channel) in
    let! _ := Writer.write_u32 self.(reason_code) in
    let! _ := Writer.write_string self.(description) in
    let! _ := Writer.write_string self.(language_tag) in
    ret tt) out.

(** The values the wire format can carry, and their encoding. *)
Definition wf (self : t) : Prop :=
  is_u32 self.(recipient_channel) /\ is_u32 self.(reason_code) /\ zlen self.(description) <= U32_MAX /\ zlen self.(language_tag) <= U32_MAX.

Definition image (self : t) : bytes :=
  [byte_of_Z Msg.CHANNEL_OPEN_FAILURE] ++ be_bytes 4 self.(recipient_channel) ++ be_bytes 4 self.(reason_code) ++ sshstr self.(description) ++ sshstr self.(language_tag).

End ChannelOpenFailure.

(** ** Contracts of whole-message decoders and encoders *)

Import Reader(rd).
Import Writer(wr).

(** [Decodes m img]: [m] accepts the remaining input exactly when all of it is
    an encoding of the value it returns. *)
Class Decodes {E A} (m : M Reader.t E A) (img : A -> bytes -> Prop) : Prop :=
  decodes_iff : forall pre rest a, snd (m (rd pre rest)) = Ok a <-> img a rest.

Lemma decodes_bind {E A B} (m : M Reader.t E A) (k : A -> M Reader.t E B) img img2 :
  Reads m img -> (forall a, Decodes (k a) (img2 a)) ->
  Decodes (bind m k) (fun b bs => exists a b1 b2, bs = b1 ++ b2 /\ img a b1 /\ img2 a b b2).
Proof.
  intros Hm Hk pre rest b. split.
  - unfold bind. destruct (m (rd pre rest)) as [r [a|e]] eqn:Em; [|done].
    apply (reads_sound (Reads:=Hm)) in Em as (bs & rest' & -> & -> & Hi).
    intros H. apply (Hk a) in H. naive_solver.
  - intros (a & b1 & b2 & -> & H1 & H2).
    erewrite bind_step by (by apply reads_complete). by apply (Hk a).
Qed.

Lemma decodes_finish {A} (a : A) :
  Decodes (let! _ := finish in ret a) (fun x bs => x = a /\ bs = []).
Proof.
  intros pre rest x. unfold bind, finish. rewrite finish_spec.
  case_bool_decide; simpl; naive_solver.
Qed.

Lemma rd_remaining pre rest : Reader.remaining (rd pre rest) = rest.
Proof. by apply zdrop_app_exact. Qed.

Lemma decodes_remaining {A} (f : bytes -> A) :
  Decodes (let! t := remaining in ret (f t)) (fun x bs => x = f bs).
Proof. intros pre rest x. unfold bind, remaining. simpl. rewrite rd_remaining. naive_solver. Qed.

Lemma reads_expect_message n :
  0 <= n <= U8_MAX -> Reads (expect_message n) (fun _ bs => bs = [byte_of_Z n]).
Proof.
  intros Hn. eapply (reads_weaken _ (fun (u : unit) bs => exists v b1 b2, bs = b1 ++ b2 /\
    u8_img v b1 /\ v = n /\ b2 = [])).
  - apply reads_bind; [apply reads_with_err, _|]. intros v.
    destruct (Z.eqb_spec v n) as [->|Hne].
    + eapply reads_weaken; [apply reads_ret|]. intros []; naive_solver.
    + split; [naive_solver|]. by intros pre rest r' a [= ].
  - intros [] bs. unfold u8_img. split.
    + intros (v & b1 & b2 & -> & [_ ->] & -> & ->). done.
    + intros ->. exists n, [byte_of_Z n], []. done.
Qed.

Lemma reads_field {A} name (m : M Reader.t DecodeError A) img : Reads m img -> Reads (field name m) img.
Proof.
  intros Hm. split.
  - intros a bs pre rest H. unfold field.
    by rewrite (reads_complete (Reads:=reads_with_err _ m img Hm) a).
  - intros pre rest r' a. unfold field. intros H%with_err_Ok_inv. by apply reads_sound in H.
Qed.

Lemma run_decode_iff {A} (m : M Reader.t MessageError A) img img' p a :
  Decodes m img -> (img a p <-> img' a p) -> run_decode m p = Ok a <-> img' a p.
Proof. intros Hm <-. apply (Hm [] p a). Qed.

Lemma run_encode_ok m bs out :
  Writes m bs -> zlen bs <= zlen out ->
  run_encode m out = (bs ++ zdrop (zlen bs) out, Ok (zlen bs)).
Proof.
  intros Hm Hl. destruct (zsplit (zlen bs) out) as (old & room & -> & Ho); [zlia|].
  unfold run_encode. rewrite wr_new, (writes_ok (Writes:=Hm)) by done.
  by rewrite zdrop_app_exact.
Qed.

Lemma run_encode_short m bs out :
  Writes m bs -> zlen out < zlen bs ->
  exists out' n a, run_encode m out = (out', Err (InsufficientCapacity n a)) /\ zlen out' = zlen out.
Proof.
  intros Hm Hl. unfold run_encode. rewrite wr_new.
  destruct (writes_short (Writes:=Hm) [] out Hl) as (d & room & n & a & -> & E).
  simpl. eauto.
Qed.

(** ** The codec interface *)

(** What a message codec promises its clients. [codec_image] is the encoding
    [codec_encode] produces; [codec_accepts] relates a value to every payload
    that decodes to it (a boolean field has 255 encodings of [true]). *)
Class Codec (A : Type) := {
  codec_decode : bytes -> result A MessageError;
  codec_encode : A -> bytes -> bytes * result Z EncodeError;
  codec_wf : A -> Prop;
  codec_image : A -> bytes;
  codec_accepts : A -> bytes -> Prop;
  codec_decode_iff : forall p a, codec_decode p = Ok a <-> codec_accepts a p;
  codec_accepts_wf : forall p a, codec_accepts a p -> codec_wf a;
  codec_accepts_image : forall a, codec_wf a -> codec_accepts a (codec_image a);
  codec_accepts_len : forall p a, codec_accepts a p -> zlen p = zlen (codec_image a);
  codec_writes : forall a, codec_wf a ->
    exists m, codec_encode a = run_encode m /\ Writes m (codec_image a)
}.

(** Codecs with a single encoding per value. *)
Class Canonical (A : Type) `{Codec A} : Prop :=
  codec_canonical : forall p a, codec_accepts a p -> p = codec_image a.

Section codec_laws.
Context {A : Type} `{Codec A}.

Lemma codec_encode_ok a out :
  codec_wf a -> zlen (codec_image a) <= zlen out ->
  codec_encode a out =
    (codec_image a ++ zdrop (zlen (codec_image a)) out, Ok (zlen (codec_image a))).
Proof. intros (m & -> & Hm)%codec_writes Hl. by apply run_encode_ok. Qed.

Lemma codec_encode_short a out :
  codec_wf a -> zlen out < zlen (codec_image a) ->
  exists out' n av, codec_encode a out = (out', Err (InsufficientCapacity n av)) /\
                    zlen out' = zlen out.
Proof. intros (m & -> & Hm)%codec_writes Hl. by eapply run_encode_short. Qed.

Lemma codec_decode_image a : codec_wf a -> codec_decode (codec_image a) = Ok a.
Proof. intros Hw. apply codec_decode_iff. by apply codec_accepts_image. Qed.

(** A successful encoding has written the image. *)
Lemma codec_encode_inv a out out' n :
  codec_wf a -> codec_encode a out = (out', Ok n) ->
  n = zlen (codec_image a) /\ ztake n out' = codec_image a.
Proof.
  intros Hw He. destruct (Z.le_gt_cases (zlen (codec_image a)) (zlen out)) as [Hl|Hl].
  - rewrite codec_encode_ok in He by done. apply pair_equal_spec in He as [<- <-%Ok_inj].
    split; [done|]. by apply ztake_app_exact.
  - destruct (codec_encode_short a out Hw Hl) as (o' & x & av & Hs & _). congruence.
Qed.

(** Encode then decode. *)
Lemma codec_roundtrip a out :
  codec_wf a -> zlen (codec_image a) <= zlen out ->
  exists out' n, codec_encode a out = (out', Ok n) /\ codec_decode (ztake n out') = Ok a.
Proof.
  intros Hw Hl. exists (codec_image a ++ zdrop (zlen (codec_image a)) out), (zlen (codec_image a)).
  split; [by apply codec_encode_ok|]. rewrite ztake_app_exact by done.
  by apply codec_decode_image.
Qed.

(** Decode then encode: the value fits in the space of the payload it came
    from; for a canonical codec the payload is reproduced. *)
Lemma codec_reencode p a out :
  codec_decode p = Ok a -> zlen p <= zlen out ->
  exists out', codec_encode a out = (out', Ok (zlen p)) /\ codec_decode (ztake (zlen p) out') = Ok a.
Proof.
  intros Hd%codec_decode_iff Hl. pose proof (codec_accepts_len _ _ Hd) as El.
  pose proof (codec_accepts_wf _ _ Hd) as Hw.
  exists (codec_image a ++ zdrop (zlen (codec_image a)) out). rewrite El.
  split; [apply codec_encode_ok; [done|lia]|].
  rewrite ztake_app_exact by done. by apply codec_decode_image.
Qed.

Lemma codec_reencode_canonical `{!Canonical A} p a out :
  codec_decode p = Ok a -> zlen p <= zlen out ->
  codec_encode a out = (p ++ zdrop (zlen p) out, Ok (zlen p)).
Proof.
  intros Hd%codec_decode_iff Hl. pose proof (codec_canonical _ _ Hd) as ->.
  apply codec_encode_ok; [by eapply codec_accepts_wf|done].
Qed.
End codec_laws.

(** ** Instances *)

(** Opens the existentials and conjunctions a composed contract consists of. *)
Ltac open_img :=
  repeat match goal with
  | H : exists _, _ |- _ => destruct H
  | H : _ /\ _ |- _ => destruct H
  end; subst.

Ltac solve_field := apply reads_field; apply _.

Ltac solve_expect := apply reads_expect_message; vm_compute; split; discriminate.

(** Derives the contract of a decoder from those of its fields. *)
Ltac decodes :=
  lazymatch goal with
  | |- Decodes (bind finish _) _ => apply decodes_finish
  | |- Decodes (bind remaining _) _ => apply decodes_remaining
  | |- Decodes (bind _ _) _ =>
      eapply decodes_bind; [first [solve_expect | solve_field] | intros ?; decodes]
  end.

(** Splits [bs = b1 ++ b2] along the fields of an image. *)
Ltac img_step :=
  lazymatch goal with
  | |- exists (_ : unit) _ _, _ => exists tt; eexists; eexists; split; [reflexivity|]
  | |- exists _ _ _, _ => eexists; eexists; eexists; split; [reflexivity|]
  end; split; [first [reflexivity | split; [|reflexivity]; assumption]|].

Ltac nil_tail :=
  match goal with
  | |- context [?x ++ ?y] =>
      lazymatch y with _ ++ _ => fail | [] => fail | _ => rewrite <- (app_nil_r y) end
  end.

Definition canonical_accepts {A} (wf : A -> Prop) (image : A -> bytes) (a : A) (p : bytes) : Prop :=
  wf a /\ p = image a.

Ltac img_forward :=
  intros; unfold string_img, u32_img in *; open_img;
  split; [first [assumption | done | hnf; cbn -[is_u32]; tauto] | cbn -[app be_bytes sshstr byte_of_Z];
  rewrite ?app_nil_r; reflexivity].

Ltac writes :=
  eexists; split; [reflexivity|];
  repeat (first [apply writes_ret | apply writes_write_u8 | apply writes_write_u32
    | apply writes_write_bool | apply writes_write_bytes
    | apply writes_write_string; tauto | apply writes_bind_ret | apply writes_bind]).

(** Proves [decode p = Ok a <-> canonical_accepts wf image a p]. *)
Ltac solve_decode_iff a wf image :=
  eapply run_decode_iff; [decodes|]; split;
  [ img_forward
  | intros [Hw ->]; destruct a; unfold wf in Hw; unfold image; cbn -[app be_bytes sshstr byte_of_Z is_u32] in *;
    open_img; try nil_tail; repeat img_step; rewrite ?app_nil_r; done ].

#[export, refine] Instance disconnect_codec : Codec Disconnect.t := {
  codec_decode := Disconnect.decode;
  codec_encode := Disconnect.encode;
  codec_wf := Disconnect.wf;
  codec_image := Disconnect.image;
  codec_accepts := canonical_accepts Disconnect.wf Disconnect.image
}.
Proof.
  - intros p a. solve_decode_iff a Disconnect.wf Disconnect.image.
  - by intros p a [? _].
  - done.
  - by intros p a [_ ->].
  - intros a Hw. unfold Disconnect.wf in Hw. writes.
Defined.

#[export] Instance disconnect_canonical : Canonical Disconnect.t.
Proof. by intros p a [_ ->]. Qed.

#[export, refine] Instance ignore_codec : Codec Ignore.t := {
  codec_decode := Ignore.decode;
  codec_encode := Ignore.encode;
  codec_wf := Ignore.wf;
  codec_image := Ignore.image;
  codec_accepts := canonical_accepts Ignore.wf Ignore.image
}.
Proof.
  - intros p a. solve_decode_iff a Ignore.wf Ignore.image.
  - by intros p a [? _].
  - done.
  - by intros p a [_ ->].
  - intros a Hw. unfold Ignore.wf in Hw. writes.
Defined.

#[export] Instance ignore_canonical : Canonical Ignore.t.
Proof. by intros p a [_ ->]. Qed.

#[export, refine] Instance unimplemented_codec : Codec Unimplemented.t := {
  codec_decode := Unimplemented.decode;
  codec_encode := Unimplemented.encode;
  codec_wf := Unimplemented.wf;
  codec_image := Unimplemented.image;
  codec_accepts := canonical_accepts Unimplemented.wf Unimplemented.image
}.
Proof.
  - intros p a. solve_decode_iff a Unimplemented.wf Unimplemented.image.
  - by intros p a [? _].
  - done.
  - by intros p a [_ ->].
  - intros a Hw. unfold Unimplemented.wf in Hw. writes.
Defined.

#[export] Instance unimplemented_canonical : Canonical Unimplemented.t.
Proof. by intros p a [_ ->]. Qed.

(** [NewKeys] has no fields. *)
#[export, refine] Instance new_keys_codec : Codec NewKeys.t := {
  codec_decode := NewKeys.decode;
  codec_encode := NewKeys.encode;
  codec_wf := NewKeys.wf;
  codec_image := NewKeys.image;
  codec_accepts := canonical_accepts NewKeys.wf NewKeys.image
}.
Proof.
  - intros p a. eapply run_decode_iff; [decodes|]. split.
    + img_forward.
    + intros [_ ->]. exists tt, [byte_of_Z Msg.NEWKEYS], []. by destruct a.
  - by intros p a [? _].
  - done.
  - by intros p a [_ ->].
  - intros a Hw. writes.
Defined.

#[export] Instance new_keys_canonical : Canonical NewKeys.t.
Proof. by intros p a [_ ->]. Qed.

(** [Debug] carries a boolean, which RFC 4251 lets a sender encode as any
    nonzero byte: the codec is not canonical. *)
Definition debug_accepts (a : DebugMsg.t) (p : bytes) : Prop :=
  DebugMsg.wf a /\ exists b, DebugMsg.always_display a = negb (u8 b =? 0) /\
    p = [byte_of_Z Msg.DEBUG] ++ [b] ++ sshstr (DebugMsg.message a) ++
        sshstr (DebugMsg.language_tag a).

#[export, refine] Instance debug_codec : Codec DebugMsg.t := {
  codec_decode := DebugMsg.decode;
  codec_encode := DebugMsg.encode;
  codec_wf := DebugMsg.wf;
  codec_image := DebugMsg.image;
  codec_accepts := debug_accepts
}.
Proof.
  - intros p a. eapply run_decode_iff; [decodes|]. split.
    + intros; unfold string_img, bool_img in *; open_img. split; [by split|].
      eexists; split; [reflexivity|]. by rewrite !app_nil_r.
    + destruct a. intros [[H1 H2] (b & Hb & ->)].
      cbn -[app be_bytes sshstr byte_of_Z] in *. subst.
      exists tt, [byte_of_Z Msg.DEBUG]. eexists. split; [reflexivity|]. split; [done|].
      exists (negb (u8 b =? 0)), [b]. eexists. split; [reflexivity|]. split; [by exists b|].
      nil_tail. do 2 img_step. done.
  - by intros p a [? _].
  - intros a Hw. split; [done|]. exists (byte_of_Z (if DebugMsg.always_display a then 1 else 0)).
    split; [by destruct (DebugMsg.always_display a)|done].
  - intros p a (_ & b & _ & ->). unfold DebugMsg.image. zlia.
  - intros a Hw. unfold DebugMsg.wf in Hw. writes.
Defined.

#[export, refine] Instance service_request_codec : Codec ServiceRequest.t := {
  codec_decode := ServiceRequest.decode;
  codec_encode := ServiceRequest.encode;
  codec_wf := ServiceRequest.wf;
  codec_image := ServiceRequest.image;
  codec_accepts := canonical_accepts ServiceRequest.wf ServiceRequest.image
}.
Proof.
  - intros p a. solve_decode_iff a ServiceRequest.wf ServiceRequest.image.
  - by intros p a [? _].
  - done.
  - by intros p a [_ ->].
  - intros a Hw. unfold ServiceRequest.wf in Hw. writes.
Defined.

#[export] Instance service_request_canonical : Canonical ServiceRequest.t.
Proof. by intros p a [_ ->]. Qed.

#[export, refine] Instance service_accept_codec : Codec ServiceAccept.t := {
  codec_decode := ServiceAccept.decode;
  codec_encode := ServiceAccept.encode;
  codec_wf := ServiceAccept.wf;
  codec_image := ServiceAccept.image;
  codec_accepts := canonical_accepts ServiceAccept.wf ServiceAccept.image
}.
Proof.
  - intros p a. solve_decode_iff a ServiceAccept.wf ServiceAccept.image.
  - by intros p a [? _].
  - done.
  - by intros p a [_ ->].
  - intros a Hw. unfold ServiceAccept.wf in Hw. writes.
Defined.

#[export] Instance service_accept_canonical : Canonical ServiceAccept.t.
Proof. by intros p a [_ ->]. Qed.

#[export, refine] Instance kex_ecdh_init_codec : Codec KexEcdhInit.t := {
  codec_decode := KexEcdhInit.decode;
  codec_encode := KexEcdhInit.encode;
  codec_wf := KexEcdhInit.wf;
  codec_image := KexEcdhInit.image;
  codec_accepts := canonical_accepts KexEcdhInit.wf KexEcdhInit.image
}.
Proof.
  - intros p a. solve_decode_iff a KexEcdhInit.wf KexEcdhInit.image.
  - by intros p a [? _].
  - done.
  - by intros p a [_ ->].
  - intros a Hw. unfold KexEcdhInit.wf in Hw. writes.
Defined.

#[export] Instance kex_ecdh_init_canonical : Canonical KexEcdhInit.t.
Proof. by intros p a [_ ->]. Qed.

#[export, refine] Instance kex_ecdh_reply_codec : Codec KexEcdhReply.t := {
  codec_decode := KexEcdhReply.decode;
  codec_encode := KexEcdhReply.encode;
  codec_wf := KexEcdhReply.wf;
  codec_image := KexEcdhReply.image;
  codec_accepts := canonical_accepts KexEcdhReply.wf KexEcdhReply.image
}.
Proof.
  - intros p a. solve_decode_iff a KexEcdhReply.wf KexEcdhReply.image.
  - by intros p a [? _].
  - done.
  - by intros p a [_ ->].
  - intros a Hw. unfold KexEcdhReply.wf in Hw. writes.
Defined.

#[export] Instance kex_ecdh_reply_canonical : Canonical KexEcdhReply.t.
Proof. by intros p a [_ ->]. Qed.

#[export, refine] Instance channel_open_codec : Codec ChannelOpen.t := {
  codec_decode := ChannelOpen.decode;
  codec_encode := ChannelOpen.encode;
  codec_wf := ChannelOpen.wf;
  codec_image := ChannelOpen.image;
  codec_accepts := canonical_accepts ChannelOpen.wf ChannelOpen.image
}.
Proof.
  - intros p a. solve_decode_iff a ChannelOpen.wf ChannelOpen.image.
  - by intros p a [? _].
  - done.
  - by intros p a [_ ->].
  - intros a Hw. unfold ChannelOpen.wf in Hw. writes.
Defined.

#[export] Instance channel_open_canonical : Canonical ChannelOpen.t.
Proof. by intros p a [_ ->]. Qed.

#[export, refine] Instance channel_open_confirmation_codec : Codec ChannelOpenConfirmation.t := {
  codec_decode := ChannelOpenConfirmation.decode;
  codec_encode := ChannelOpenConfirmation.encode;
  codec_wf := ChannelOpenConfirmation.wf;
  codec_image := ChannelOpenConfirmation.image;
  codec_accepts := canonical_accepts ChannelOpenConfirmation.wf ChannelOpenConfirmation.image
}.
Proof.
  - intros p a. solve_decode_iff a ChannelOpenConfirmation.wf ChannelOpenConfirmation.image.
  - by intros p a [? _].
  - done.
  - by intros p a [_ ->].
  - intros a Hw. unfold ChannelOpenConfirmation.wf in Hw. writes.
Defined.

#[export] Instance channel_open_confirmation_canonical : Canonical ChannelOpenConfirmation.t.
Proof. by intros p a [_ ->]. Qed.

#[export, refine] Instance channel_open_failure_codec : Codec ChannelOpenFailure.t := {
  codec_decode := ChannelOpenFailure.decode;
  codec_encode := ChannelOpenFailure.encode;
  codec_wf := ChannelOpenFailure.wf;
  codec_image := ChannelOpenFailure.image;
  codec_accepts := canonical_accepts ChannelOpenFailure.wf ChannelOpenFailure.image
}.
Proof.
  - intros p a. solve_decode_iff a ChannelOpenFailure.wf ChannelOpenFailure.image.
  - by intros p a [? _].
  - done.
  - by intros p a [_ ->].
  - intros a Hw. unfold ChannelOpenFailure.wf in Hw. writes.
Defined.

#[export] Instance channel_open_failure_canonical : Canonical ChannelOpenFailure.t.
Proof. by intros p a [_ ->]. Qed.

(** ** All messages together *)

(** The twelve message payloads of these modules as one sum, so that
    statements range over every codec. *)
Inductive WireMessage : Type :=
| WDisconnect (m : Disconnect.t)
| WIgnore (m : Ignore.t)
| WUnimplemented (m : Unimplemented.t)
| WDebugMsg (m : DebugMsg.t)
| WServiceRequest (m : ServiceRequest.t)
| WServiceAccept (m : ServiceAccept.t)
| WKexEcdhInit (m : KexEcdhInit.t)
| WKexEcdhReply (m : KexEcdhReply.t)
| WNewKeys (m : NewKeys.t)
| WChannelOpen (m : ChannelOpen.t)
| WChannelOpenConfirmation (m : ChannelOpenConfirmation.t)
| WChannelOpenFailure (m : ChannelOpenFailure.t).

(** The message number a decoder expects. *)
Inductive WireKind : Type :=
| KDisconnect | KIgnore | KUnimplemented | KDebugMsg | KServiceRequest | KServiceAccept | KKexEcdhInit | KKexEcdhReply | KNewKeys | KChannelOpen | KChannelOpenConfirmation | KChannelOpenFailure.

Definition wm_kind (m : WireMessage) : WireKind :=
  match m with
  | WDisconnect _ => KDisconnect
  | WIgnore _ => KIgnore
  | WUnimplemented _ => KUnimplemented
  | WDebugMsg _ => KDebugMsg
  | WServiceRequest _ => KServiceRequest
  | WServiceAccept _ => KServiceAccept
  | WKexEcdhInit _ => KKexEcdhInit
  | WKexEcdhReply _ => KKexEcdhReply
  | WNewKeys _ => KNewKeys
  | WChannelOpen _ => KChannelOpen
  | WChannelOpenConfirmation _ => KChannelOpenConfirmation
  | WChannelOpenFailure _ => KChannelOpenFailure
  end.

Definition wm_number (k : WireKind) : Z :=
  match k with
  | KDisconnect => Msg.DISCONNECT
  | KIgnore => Msg.IGNORE
  | KUnimplemented => Msg.UNIMPLEMENTED
  | KDebugMsg => Msg.DEBUG
  | KServiceRequest => Msg.SERVICE_REQUEST
  | KServiceAccept => Msg.SERVICE_ACCEPT
  | KKexEcdhInit => Msg.KEX_ECDH_INIT
  | KKexEcdhReply => Msg.KEX_ECDH_REPLY
  | KNewKeys => Msg.NEWKEYS
  | KChannelOpen => Msg.CHANNEL_OPEN
  | KChannelOpenConfirmation => Msg.CHANNEL_OPEN_CONFIRMATION
  | KChannelOpenFailure => Msg.CHANNEL_OPEN_FAILURE
  end.

Definition wm_decode (k : WireKind) (p : bytes) : result WireMessage MessageError :=
  match k with
  | KDisconnect => map_ok WDisconnect (Disconnect.decode p)
  | KIgnore => map_ok WIgnore (Ignore.decode p)
  | KUnimplemented => map_ok WUnimplemented (Unimplemented.decode p)
  | KDebugMsg => map_ok WDebugMsg (DebugMsg.decode p)
  | KServiceRequest => map_ok WServiceRequest (ServiceRequest.decode p)
  | KServiceAccept => map_ok WServiceAccept (ServiceAccept.decode p)
  | KKexEcdhInit => map_ok WKexEcdhInit (KexEcdhInit.decode p)
  | KKexEcdhReply => map_ok WKexEcdhReply (KexEcdhReply.decode p)
  | KNewKeys => map_ok WNewKeys (NewKeys.decode p)
  | KChannelOpen => map_ok WChannelOpen (ChannelOpen.decode p)
  | KChannelOpenConfirmation => map_ok WChannelOpenConfirmation (ChannelOpenConfirmation.decode p)
  | KChannelOpenFailure => map_ok WChannelOpenFailure (ChannelOpenFailure.decode p)
  end.

Definition wm_encode (m : WireMessage) (out : bytes) : bytes * result Z EncodeError :=
  match m with
  | WDisconnect m => Disconnect.encode m out
  | WIgnore m => Ignore.encode m out
  | WUnimplemented m => Unimplemented.encode m out
  | WDebugMsg m => DebugMsg.encode m out
  | WServiceRequest m => ServiceRequest.encode m out
  | WServiceAccept m => ServiceAccept.encode m out
  | WKexEcdhInit m => KexEcdhInit.encode m out
  | WKexEcdhReply m => KexEcdhReply.encode m out
  | WNewKeys m => NewKeys.encode m out
  | WChannelOpen m => ChannelOpen.encode m out
  | WChannelOpenConfirmation m => ChannelOpenConfirmation.encode m out
  | WChannelOpenFailure m => ChannelOpenFailure.encode m out
  end.

Definition wm_wf (m : WireMessage) : Prop :=
  match m with
  | WDisconnect m => Disconnect.wf m
  | WIgnore m => Ignore.wf m
  | WUnimplemented m => Unimplemented.wf m
  | WDebugMsg m => DebugMsg.wf m
  | WServiceRequest m => ServiceRequest.wf m
  | WServiceAccept m => ServiceAccept.wf m
  | WKexEcdhInit m => KexEcdhInit.wf m
  | WKexEcdhReply m => KexEcdhReply.wf m
  | WNewKeys m => NewKeys.wf m
  | WChannelOpen m => ChannelOpen.wf m
  | WChannelOpenConfirmation m => ChannelOpenConfirmation.wf m
  | WChannelOpenFailure m => ChannelOpenFailure.wf m
  end.

Definition wm_image (m : WireMessage) : bytes :=
  match m with
  | WDisconnect m => Disconnect.image m
  | WIgnore m => Ignore.image m
  | WUnimplemented m => Unimplemented.image m
  | WDebugMsg m => DebugMsg.image m
  | WServiceRequest m => ServiceRequest.image m
  | WServiceAccept m => ServiceAccept.image m
  | WKexEcdhInit m => KexEcdhInit.image m
  | WKexEcdhReply m => KexEcdhReply.image m
  | WNewKeys m => NewKeys.image m
  | WChannelOpen m => ChannelOpen.image m
  | WChannelOpenConfirmation m => ChannelOpenConfirmation.image m
  | WChannelOpenFailure m => ChannelOpenFailure.image m
  end.

(** A codec restricted to one constructor of the sum. *)
Lemma map_ok_inv {A B E} (f : A -> B) (r : result A E) b :
  map_ok f r = Ok b -> exists a, r = Ok a /\ b = f a.
Proof. destruct r; simpl; naive_solver. Qed.

Lemma codec_image_number m : exists tail, wm_image m = byte_of_Z (wm_number (wm_kind m)) :: tail.
Proof. destruct m; eexists; reflexivity. Qed.

Lemma run_decode_number {A} n (k : unit -> M Reader.t MessageError A) p :
  0 <= n <= U8_MAX ->
  run_decode (bind (expect_message n) k) p =
  match p with
  | [] => Err MessageEmpty
  | b :: rest => if u8 b =? n then snd (k tt (rd [b] rest)) else Err (UnexpectedMessage n (u8 b))
  end.
Proof.
  intros Hn. unfold run_decode, expect_message. destruct p as [|b rest]; [done|].
  assert (Reader.read_u8 (Reader.new (b :: rest)) = (rd [b] rest, Ok (u8 b))) as Hr.
  { apply (reads_complete (Reads:=reads_read_u8) (u8 b) [b] [] rest).
    split; [pose proof (u8_range b); unfold U8_MAX; lia|by rewrite byte_of_Z_u8]. }
  unfold bind at 1 2, with_err. rewrite Hr. simpl. by destruct (u8 b =? n).
Qed.

Lemma map_ok_number {A B} (f : A -> B) n (k : unit -> M Reader.t MessageError A) p :
  0 <= n <= U8_MAX ->
  match map_ok f (run_decode (bind (expect_message n) k) p), p with
  | Ok _, b :: _ => u8 b = n
  | Ok _, [] => False
  | Err e, [] => e = MessageEmpty
  | Err e, b :: _ => u8 b <> n -> e = UnexpectedMessage n (u8 b)
  end.
Proof.
  intros Hn. rewrite run_decode_number by done. destruct p as [|b rest]; simpl; [done|].
  destruct (Z.eqb_spec (u8 b) n) as [He|He]; [|done].
  destruct (snd _); [done|]. by intros [].
Qed.

(** ** Properties *)

(** For every message: encoding a representable value into a buffer with
    room for it succeeds, writes exactly the announced number of bytes, leaves
    the rest of the buffer alone, and decoding these bytes gives the value
    back; with less room the encoder reports the missing capacity. *)
Theorem wire_message_roundtrip (m : WireMessage) (out : bytes) :
  wm_wf m ->
  if zlen (wm_image m) <=? zlen out then
    exists out' n,
      wm_encode m out = (out', Ok n) /\ n = zlen (wm_image m) /\
      wm_decode (wm_kind m) (ztake n out') = Ok m /\ zdrop n out' = zdrop n out
  else
    exists out' needed available,
      wm_encode m out = (out', Err (InsufficientCapacity needed available)) /\
      zlen out' = zlen out.
Proof.
  assert (forall A (C : Codec A) (w : A -> WireMessage) (a : A),
    codec_wf a -> wm_encode (w a) out = codec_encode a out -> wm_image (w a) = codec_image a ->
    (forall p, wm_decode (wm_kind (w a)) p = map_ok w (codec_decode p)) ->
    if zlen (wm_image (w a)) <=? zlen out then
      exists out' n,
        wm_encode (w a) out = (out', Ok n) /\ n = zlen (wm_image (w a)) /\
        wm_decode (wm_kind (w a)) (ztake n out') = Ok (w a) /\ zdrop n out' = zdrop n out
    else
      exists out' needed available,
        wm_encode (w a) out = (out', Err (InsufficientCapacity needed available)) /\
        zlen out' = zlen out) as Hgen.
  { intros A C w a Hw -> -> Hd. destruct (Z.leb_spec (zlen (codec_image a)) (zlen out)).
    - exists (codec_image a ++ zdrop (zlen (codec_image a)) out), (zlen (codec_image a)).
      rewrite Hd, ztake_app_exact, codec_decode_image, zdrop_app_exact by done.
      split_and!; [by apply codec_encode_ok|done..].
    - by apply codec_encode_short. }
  destruct m; intros Hw;
    (lazymatch goal with
     | |- context [wm_encode (?w ?a) out] => refine (Hgen _ _ w a Hw _ _ _)
     end); done.
Qed.

Lemma wire_message_roundtrip_witness :
  exists out' n,
    wm_encode (WDisconnect (Disconnect.mk 11 (bstr "bye") [])) (replicate 32 xff) = (out', Ok n) /\
    n = 16 /\ wm_decode KDisconnect (ztake n out') =
                 Ok (WDisconnect (Disconnect.mk 11 (bstr "bye") [])) /\
    zdrop n out' = zdrop n (replicate 32 xff).
Proof.
  apply (wire_message_roundtrip (WDisconnect (Disconnect.mk 11 (bstr "bye") [])) (replicate 32 xff)).
  repeat split; vm_compute; discriminate.
Defined.

(** Decoding is injective on payloads up to the encoding of booleans: a
    decoded value is representable, re-encodes in exactly the space of the
    payload it came from, and except for [Debug] reproduces the payload byte
    for byte. *)
Theorem wire_message_decode_canonical (k : WireKind) (p : bytes) (m : WireMessage) :
  wm_decode k p = Ok m ->
  wm_kind m = k /\ wm_wf m /\ zlen p = zlen (wm_image m) /\
  (k <> KDebugMsg -> wm_encode m p = (p, Ok (zlen p))).
Proof.
  assert (forall A (C : Codec A) (w : A -> WireMessage),
    map_ok w (codec_decode p) = Ok m ->
    exists a, m = w a /\ codec_wf a /\ zlen p = zlen (codec_image a) /\
              (Canonical A -> codec_encode a p = (p, Ok (zlen p)))) as Hgen.
  { intros A C w (a & Hd & ->)%map_ok_inv. exists a.
    pose proof (proj1 (codec_decode_iff p a) Hd) as Hacc. split_and!; [done| | |].
    - by eapply codec_accepts_wf.
    - by apply codec_accepts_len.
    - intros HC. rewrite (codec_reencode_canonical p) by done.
      by rewrite zdrop_all, app_nil_r by lia. }
  intros H. destruct k; cbn [wm_decode] in H;
    (lazymatch type of H with
     | map_ok ?w _ = _ =>
         pose proof (Hgen _ _ w) as Hg; destruct (Hg H) as (a & -> & Hw & Hl & He)
     end);
    (split_and!; [done..|]); intros Hk; first [done | apply He; apply _].
Qed.

Lemma wire_message_decode_canonical_witness :
  let p := [x5c; x00; x00; x00; x07; x00; x00; x00; x04; x00; x00; x00; x00; x00; x00; x00; x00] in
  let m := ChannelOpenFailure.mk 7 4 [] [] in
  wm_decode KChannelOpenFailure p = Ok (WChannelOpenFailure m) /\
  wm_encode (WChannelOpenFailure m) p = (p, Ok 17).
Proof.
  intros p m. split; [reflexivity|].
  refine (proj2 (proj2 (proj2 (wire_message_decode_canonical KChannelOpenFailure p
    (WChannelOpenFailure m) _))) _); [reflexivity|discriminate].
Defined.

(** Dispatch on the message number is sound: the decoders have distinct
    numbers, an empty payload and a payload with another number are rejected
    as such by each of them, so at most one decoder accepts a payload. *)
Theorem wire_message_number_exact (k : WireKind) (p : bytes) :
  match wm_decode k p, p with
  | Ok _, b :: _ => forall k', wm_number k' = u8 b <-> k' = k
  | Ok _, [] => False
  | Err e, [] => e = MessageEmpty
  | Err e, b :: _ => u8 b <> wm_number k -> e = UnexpectedMessage (wm_number k) (u8 b)
  end.
Proof.
  assert (match wm_decode k p, p with
    | Ok _, b :: _ => u8 b = wm_number k
    | Ok _, [] => False
    | Err e, [] => e = MessageEmpty
    | Err e, b :: _ => u8 b <> wm_number k -> e = UnexpectedMessage (wm_number k) (u8 b)
    end) as H by (destruct k; apply map_ok_number; vm_compute; split; discriminate).
  destruct (wm_decode k p) as [m|e]; [|done]. destruct p as [|b rest]; [done|].
  rewrite H. intros k'. split; [|by intros ->]. by destruct k, k'.
Qed.
