(* ===== verification/KexInit.v ===== *)
(** * KEXINIT payloads and kex_algorithms markers

    Models crates/tatami_ssh_wire/src/kexinit.rs and the name constants of
    algorithms.rs: the syntactic codec of [SSH_MSG_KEXINIT], the report of
    empty algorithm lists, and the recognition of extension markers that are
    not key-exchange methods. *)

From S2P Require Import Prelude WireError NameList Primitives Messages.

Module algorithms.

(* wire/algorithms.rs:11-11 CURVE25519_SHA256 *)
Definition CURVE25519_SHA256 : bytes := bstr "curve25519-sha256".

(* wire/algorithms.rs:14-14 SSH_ED25519 *)
Definition SSH_ED25519 : bytes := bstr "ssh-ed25519".

(* wire/algorithms.rs:19-19 SSH_RSA *)
Definition SSH_RSA : bytes := bstr "ssh-rsa".

(* wire/algorithms.rs:23-23 RSA_SHA2_256 *)
Definition RSA_SHA2_256 : bytes := bstr "rsa-sha2-256".

(* wire/algorithms.rs:27-27 RSA_SHA2_512 *)
Definition RSA_SHA2_512 : bytes := bstr "rsa-sha2-512".

(* wire/algorithms.rs:31-31 ECDSA_SHA2_NISTP256 *)
Definition ECDSA_SHA2_NISTP256 : bytes := bstr "ecdsa-sha2-nistp256".

(* wire/algorithms.rs:35-35 NISTP256 *)
Definition NISTP256 : bytes := bstr "nistp256".

(* wire/algorithms.rs:40-40 AES128_GCM_OPENSSH *)
Definition AES128_GCM_OPENSSH : bytes := bstr "aes128-gcm@openssh.com".

(* wire/algorithms.rs:44-44 HMAC_SHA2_256 *)
Definition HMAC_SHA2_256 : bytes := bstr "hmac-sha2-256".

(* wire/algorithms.rs:47-47 NONE *)
Definition NONE : bytes := bstr "none".

(* wire/algorithms.rs:50-50 EXT_INFO_C *)
Definition EXT_INFO_C : bytes := bstr "ext-info-c".

(* wire/algorithms.rs:53-53 EXT_INFO_S *)
Definition EXT_INFO_S : bytes := bstr "ext-info-s".

(* wire/algorithms.rs:57-57 KEX_STRICT_C_OPENSSH *)
Definition KEX_STRICT_C_OPENSSH : bytes := bstr "kex-strict-c-v00@openssh.com".

(* wire/algorithms.rs:61-61 KEX_STRICT_S_OPENSSH *)
Definition KEX_STRICT_S_OPENSSH : bytes := bstr "kex-strict-s-v00@openssh.com".

(* wire/algorithms.rs:65-65 KEX_STRICT_C *)
Definition KEX_STRICT_C : bytes := bstr "kex-strict-c".

(* wire/algorithms.rs:69-69 KEX_STRICT_S *)
Definition KEX_STRICT_S : bytes := bstr "kex-strict-s".

(* wire/algorithms.rs:72-72 SSH_USERAUTH *)
Definition SSH_USERAUTH : bytes := bstr "ssh-userauth".

(* wire/algorithms.rs:75-75 SSH_CONNECTION *)
Definition SSH_CONNECTION : bytes := bstr "ssh-connection".

End algorithms.

Module KexInit.

(* wire/kexinit.rs:32-32 COOKIE_LEN *)
Definition COOKIE_LEN : Z := 16.

(* wire/kexinit.rs:36-64 KexInit *)
Record t : Type := mk {
  cookie : bytes;
  kex_algorithms : NameList.t;
  server_host_key_algorithms : NameList.t;
  encryption_client_to_server : NameList.t;
  encryption_server_to_client : NameList.t;
  mac_client_to_server : NameList.t;
  mac_server_to_client : NameList.t;
  compression_client_to_server : NameList.t;
  compression_server_to_client : NameList.t;
  languages_client_to_server : NameList.t;
  languages_server_to_client : NameList.t;
  first_kex_packet_follows : bool;
  reserved : Z
}.

#[global] Instance t_eq_decision : EqDecision t.
Proof. solve_decision. Defined.

(* wire/kexinit.rs:68-77 ALGORITHM_LIST_NAMES *)
Definition ALGORITHM_LIST_NAMES : list string := [
  "kex_algorithms";
  "server_host_key_algorithms";
  "encryption_algorithms_client_to_server";
  "encryption_algorithms_server_to_client";
  "mac_algorithms_client_to_server";
  "mac_algorithms_server_to_client";
  "compression_algorithms_client_to_server";
  "compression_algorithms_server_to_client"
]%string.

(** The conversion of the cookie slice to an array cannot fail:
    [read_bytes COOKIE_LEN] returns exactly that many bytes. *)
(* wire/kexinit.rs:82-145 KexInit::decode *)
Definition decode (payload : bytes) : result t MessageError :=
  run_decode (
    let! _ := expect_message Msg.KEXINIT in
    let! cookie := field "cookie" (Reader.read_bytes COOKIE_LEN) in
    let! kex_algorithms := field "kex_algorithms" Reader.read_name_list in
    let! server_host_key_algorithms := field "server_host_key_algorithms" Reader.read_name_list in
    let! encryption_client_to_server := field "encryption_algorithms_client_to_server" Reader.read_name_list in
    let! encryption_server_to_client := field "encryption_algorithms_server_to_client" Reader.read_name_list in
    let! mac_client_to_server := field "mac_algorithms_client_to_server" Reader.read_name_list in
    let! mac_server_to_client := field "mac_algorithms_server_to_client" Reader.read_name_list in
    let! compression_client_to_server := field "compression_algorithms_client_to_server" Reader.read_name_list in
    let! compression_server_to_client := field "compression_algorithms_server_to_client" Reader.read_name_list in
    let! languages_client_to_server := field "languages_client_to_server" Reader.read_name_list in
    let! languages_server_to_client := field "languages_server_to_client" Reader.read_name_list in
    let! first_kex_packet_follows := field "first_kex_packet_follows" Reader.read_bool in
    let! reserved := field "reserved" Reader.read_u32 in
    let! _ := finish in
    ret (mk cookie kex_algorithms
      server_host_key_algorithms
      encryption_client_to_server
      encryption_server_to_client
      mac_client_to_server
      mac_server_to_client
      compression_client_to_server
      compression_server_to_client
      languages_client_to_server
      languages_server_to_client
      first_kex_packet_follows reserved)) payload.

(* wire/kexinit.rs:165-178 KexInit::name_lists *)
Definition name_lists (self : t) : list NameList.t := [
  self.(kex_algorithms);
  self.(server_host_key_algorithms);
  self.(encryption_client_to_server);
  self.(encryption_server_to_client);
  self.(mac_client_to_server);
  self.(mac_server_to_client);
  self.(compression_client_to_server);
  self.(compression_server_to_client);
  self.(languages_client_to_server);
  self.(languages_server_to_client)
].

(** The [for] loop of [encode] over the name lists. *)
Fixpoint write_lists (ls : list NameList.t) : M Writer.t EncodeError unit :=
  match ls with
  | [] => ret tt
  | l :: ls' => let! _ := Writer.write_name_list (NameList.names l) in write_lists ls'
  end.

(* wire/kexinit.rs:151-161 KexInit::encode *)
Definition encode (self : t) (out : bytes) : bytes * result Z EncodeError :=
  run_encode (
    let! _ := Writer.write_u8 Msg.KEXINIT in
    let! _ := Writer.write_bytes self.(cookie) in
    let! _ := write_lists (name_lists self) in
    let! _ := Writer.write_bool self.(first_kex_packet_follows) in
    let! _ := Writer.write_u32 self.(reserved) in
    ret tt) out.

(* wire/kexinit.rs:182-189 KexInit::empty_algorithm_lists *)
Definition empty_algorithm_lists (self : t) : list string :=
  map snd (filter (fun p => NameList.is_empty (fst p) = true)
    (zip (name_lists self) ALGORITHM_LIST_NAMES)).

Definition list_wf (l : NameList.t) : Prop :=
  name_list_wf l /\ zlen (NameList.body l) <= U32_MAX.

Definition wf (self : t) : Prop :=
  zlen self.(cookie) = COOKIE_LEN /\ Forall list_wf (name_lists self) /\ is_u32 self.(reserved).

Definition lists_image (ls : list NameList.t) : bytes :=
  concat (map (fun l => sshstr (NameList.body l)) ls).

Definition image (self : t) : bytes :=
  [byte_of_Z Msg.KEXINIT] ++ self.(cookie) ++ lists_image (name_lists self) ++
  [byte_of_Z (if self.(first_kex_packet_follows) then 1 else 0)] ++ be_bytes 4 self.(reserved).

Definition accepts (self : t) (p : bytes) : Prop :=
  wf self /\ exists b, self.(first_kex_packet_follows) = negb (u8 b =? 0) /\
    p = [byte_of_Z Msg.KEXINIT] ++ self.(cookie) ++ lists_image (name_lists self) ++
        [b] ++ be_bytes 4 self.(reserved).

End KexInit.

(** ** Markers in kex_algorithms *)

(* wire/kexinit.rs:254-259 StrictKexRole *)
Inductive StrictKexRole : Type := RoleClient | RoleServer.

(* wire/kexinit.rs:264-270 StrictKexSpelling *)
Inductive StrictKexSpelling : Type := Standard | OpenSshV00.

(* wire/kexinit.rs:278-283 StrictKexMarker *)
Record StrictKexMarker : Type := mkMarker { role : StrictKexRole; spelling : StrictKexSpelling }.

(* wire/kexinit.rs:203-221 KexName *)
Inductive KexName : Type :=
| Method | ExtInfoClient | ExtInfoServer | StrictKexClient | StrictKexServer.

#[export] Instance StrictKexRole_eq_decision : EqDecision StrictKexRole.
Proof. solve_decision. Defined.

#[export] Instance StrictKexSpelling_eq_decision : EqDecision StrictKexSpelling.
Proof. solve_decision. Defined.

#[export] Instance KexName_eq_decision : EqDecision KexName.
Proof. solve_decision. Defined.

(* wire/kexinit.rs:227-229 KexName::is_marker *)
Definition is_marker (n : KexName) : bool :=
  match n with Method => false | _ => true end.

(* wire/kexinit.rs:323-332 classify_strict_kex_name *)
Definition classify_strict_kex_name (name : bytes) : option StrictKexMarker :=
  if bytes_eqb name (bstr "kex-strict-c") then Some (mkMarker RoleClient Standard)
  else if bytes_eqb name (bstr "kex-strict-s") then Some (mkMarker RoleServer Standard)
  else if bytes_eqb name (bstr "kex-strict-c-v00@openssh.com") then
    Some (mkMarker RoleClient OpenSshV00)
  else if bytes_eqb name (bstr "kex-strict-s-v00@openssh.com") then
    Some (mkMarker RoleServer OpenSshV00)
  else None.

(* wire/kexinit.rs:234-250 classify_kex_name *)
Definition classify_kex_name (name : bytes) : KexName :=
  if bytes_eqb name (bstr "ext-info-c") then ExtInfoClient
  else if bytes_eqb name (bstr "ext-info-s") then ExtInfoServer
  else match classify_strict_kex_name name with
       | Some (mkMarker RoleClient _) => StrictKexClient
       | Some (mkMarker RoleServer _) => StrictKexServer
       | None => Method
       end.

(* wire/kexinit.rs:288-299 StrictKexMarker::name *)
Definition marker_name (m : StrictKexMarker) : bytes :=
  match role m, spelling m with
  | RoleClient, Standard => bstr "kex-strict-c"
  | RoleServer, Standard => bstr "kex-strict-s"
  | RoleClient, OpenSshV00 => bstr "kex-strict-c-v00@openssh.com"
  | RoleServer, OpenSshV00 => bstr "kex-strict-s-v00@openssh.com"
  end.

(* wire/kexinit.rs:305-317 StrictKexMarker::pairs_with *)
Definition pairs_with (self peer : StrictKexMarker) : bool :=
  let opposite :=
    match role self, role peer with
    | RoleClient, RoleServer | RoleServer, RoleClient => true
    | _, _ => false
    end in
  let same_spelling :=
    match spelling self, spelling peer with
    | Standard, Standard | OpenSshV00, OpenSshV00 => true
    | _, _ => false
    end in
  opposite && same_spelling.

(** ** The owned copy *)

Module OwnedKexInit.

(** Names are US-ASCII, so a [String] is the name's bytes. *)
(* wire/kexinit.rs:349-376 OwnedKexInit *)
Record t : Type := mk {
  cookie : bytes;
  kex_algorithms : list bytes;
  server_host_key_algorithms : list bytes;
  encryption_client_to_server : list bytes;
  encryption_server_to_client : list bytes;
  mac_client_to_server : list bytes;
  mac_server_to_client : list bytes;
  compression_client_to_server : list bytes;
  compression_server_to_client : list bytes;
  languages_client_to_server : list bytes;
  languages_server_to_client : list bytes;
  first_kex_packet_follows : bool;
  reserved : Z
}.

#[global] Instance t_eq_decision : EqDecision t.
Proof. solve_decision. Defined.

End OwnedKexInit.

(* wire/kexinit.rs:378-382 own *)
Definition own (l : NameList.t) : list bytes := NameList.names l.

(* wire/kexinit.rs:387-403 KexInit::to_owned *)
Definition kexinit_to_owned (self : KexInit.t) : OwnedKexInit.t :=
  OwnedKexInit.mk (KexInit.cookie self)
    (own (KexInit.kex_algorithms self))
    (own (KexInit.server_host_key_algorithms self))
    (own (KexInit.encryption_client_to_server self))
    (own (KexInit.encryption_server_to_client self))
    (own (KexInit.mac_client_to_server self))
    (own (KexInit.mac_server_to_client self))
    (own (KexInit.compression_client_to_server self))
    (own (KexInit.compression_server_to_client self))
    (own (KexInit.languages_client_to_server self))
    (own (KexInit.languages_server_to_client self))
    (KexInit.first_kex_packet_follows self) (KexInit.reserved self).

(** ** The codec contract *)

Lemma lists_image_cons l ls rest :
  KexInit.lists_image (l :: ls) ++ rest =
  sshstr (NameList.body l) ++ KexInit.lists_image ls ++ rest.
Proof. unfold KexInit.lists_image. simpl. by rewrite <- app_assoc. Qed.

Lemma writes_write_lists ls :
  Forall KexInit.list_wf ls -> Writes (KexInit.write_lists ls) (KexInit.lists_image ls).
Proof.
  induction 1 as [|l ls [Hw Hl] _ IH]; [apply writes_ret|].
  apply writes_bind; [|exact IH].
  pose proof (join_names_of (NameList.body l)) as Hj.
  rewrite <- Hj, <- names_spec. apply writes_write_name_list; [exact Hw|].
  by rewrite names_spec, Hj.
Qed.

Ltac solve_cookie := apply reads_field, reads_read_bytes; done.

Lemma kexinit_decodes_list {B} name (k : NameList.t -> M Reader.t MessageError B) img2 :
  (forall l, Decodes (k l) (img2 l)) ->
  Decodes (bind (field name Reader.read_name_list) k)
    (fun b bs => exists l b2, bs = sshstr (NameList.body l) ++ b2 /\ KexInit.list_wf l /\ img2 l b b2).
Proof.
  intros Hk pre rest b.
  assert (Decodes (bind (field name Reader.read_name_list) k)
    (fun b bs => exists a b1 b2, bs = b1 ++ b2 /\ name_list_img a b1 /\ img2 a b b2)) as H
    by (apply decodes_bind; [apply reads_field, _|done]).
  rewrite (H pre rest b). unfold name_list_img, string_img, KexInit.list_wf. split.
  - intros (l & b1 & b2 & -> & (Hw & Hl & ->) & Hi). by exists l, b2.
  - intros (l & b2 & -> & (Hw & Hl) & Hi). by exists l, (sshstr (NameList.body l)), b2.
Qed.

Lemma kexinit_decode_iff p a : KexInit.decode p = Ok a <-> KexInit.accepts a p.
Proof.
  eapply run_decode_iff.
  { eapply decodes_bind; [solve_expect|intros ?].
    eapply decodes_bind; [solve_cookie|intros ?].
    do 10 (eapply kexinit_decodes_list; intros ?).
    decodes. }
  unfold KexInit.accepts, KexInit.wf, KexInit.image, bool_img, u32_img. split.
  - intros H. open_img. split; [split_and!; [done| |done]|].
    + unfold KexInit.name_lists. simpl. repeat (constructor; [assumption|]). constructor.
    + eexists. split; [reflexivity|]. unfold KexInit.name_lists.
      cbn -[app be_bytes sshstr byte_of_Z KexInit.lists_image].
      rewrite !lists_image_cons, ?app_nil_r. reflexivity.
  - intros [(Hc & Hl & Hr) (b & Hb & ->)]. destruct a; unfold KexInit.name_lists in *.
    cbn -[app be_bytes sshstr byte_of_Z KexInit.lists_image is_u32] in *.
    rewrite !lists_image_cons. rewrite !Forall_cons in Hl. open_img.
    exists tt; eexists; eexists; split; [reflexivity|]; split; [reflexivity|].
    eexists; eexists; eexists; split; [reflexivity|]; split; [by split|].
    do 10 (eexists; eexists; split; [reflexivity|]; split; [done|]).
    eexists; exists [b]; eexists. split; [reflexivity|]. split; [by exists b|].
    eexists; eexists; exists []. split; [by rewrite app_nil_r|]. split; [by split|]. done.
Qed.

#[export, refine] Instance kexinit_codec : Codec KexInit.t := {
  codec_decode := KexInit.decode;
  codec_encode := KexInit.encode;
  codec_wf := KexInit.wf;
  codec_image := KexInit.image;
  codec_accepts := KexInit.accepts
}.
Proof.
  - apply kexinit_decode_iff.
  - by intros p a [? _].
  - intros a Hw. split; [done|].
    exists (byte_of_Z (if KexInit.first_kex_packet_follows a then 1 else 0)).
    split; [by destruct (KexInit.first_kex_packet_follows a)|done].
  - intros p a (_ & b & _ & ->). unfold KexInit.image. zlia.
  - intros a (Hc & Hl & Hr). eexists. split; [reflexivity|]. unfold KexInit.image.
    repeat (first [apply writes_write_u8 | apply writes_write_u32 | apply writes_write_bool
      | apply writes_write_bytes | by apply writes_write_lists | apply writes_bind_ret
      | apply writes_bind]).
Defined.

(** ** Markers *)

Lemma classify_strict_name name m :
  classify_strict_kex_name name = Some m <-> name = marker_name m.
Proof.
  unfold classify_strict_kex_name. split.
  - repeat (destruct (bytes_eqb _ _) eqn:E;
      [apply bytes_eqb_eq in E as ->; by intros [= <-]|clear E]). done.
  - intros ->. destruct m as [[] []]; reflexivity.
Qed.

Lemma classify_method name :
  classify_kex_name name = Method <->
  name <> bstr "ext-info-c" /\ name <> bstr "ext-info-s" /\ forall m, name <> marker_name m.
Proof.
  unfold classify_kex_name.
  destruct (bytes_eqb name (bstr "ext-info-c")) eqn:E1.
  { apply bytes_eqb_eq in E1. naive_solver. }
  destruct (bytes_eqb name (bstr "ext-info-s")) eqn:E2.
  { apply bytes_eqb_eq in E2. naive_solver. }
  apply bytes_eqb_neq in E1, E2.
  destruct (classify_strict_kex_name name) as [[[] s]|] eqn:E3.
  - apply classify_strict_name in E3. naive_solver.
  - apply classify_strict_name in E3. naive_solver.
  - split; [|done]. intros _. split_and!; [done..|]. intros m Hm.
    apply classify_strict_name in Hm. congruence.
Qed.

(** ** Properties *)

(** KEXINIT round trip: encoding a representable KEXINIT into a large
    enough buffer and decoding the written bytes gives the same value, and its
    owned copy holds the names in their original order. *)
Theorem kexinit_roundtrip (k : KexInit.t) (out : bytes) :
  KexInit.wf k -> zlen (KexInit.image k) <= zlen out ->
  exists out' n,
    KexInit.encode k out = (out', Ok n) /\ n = zlen (KexInit.image k) /\
    KexInit.decode (ztake n out') = Ok k /\ zdrop n out' = zdrop n out /\
    OwnedKexInit.kex_algorithms (kexinit_to_owned k) =
      names_of (NameList.body (KexInit.kex_algorithms k)).
Proof.
  intros Hw Hl. exists (KexInit.image k ++ zdrop (zlen (KexInit.image k)) out), (zlen (KexInit.image k)).
  split_and!; [exact (codec_encode_ok k out Hw Hl)|done| | |].
  - rewrite ztake_app_exact by done. exact (codec_decode_image k Hw).
  - by rewrite zdrop_app_exact.
  - apply names_spec.
Qed.

Definition kexinit_example : KexInit.t :=
  let l s := NameList.mk (bstr s) in
  KexInit.mk (replicate 16 x07) (l "curve25519-sha256,kex-strict-c") (l "ssh-ed25519")
    (l "aes128-gcm@openssh.com") (l "aes128-gcm@openssh.com") (l "hmac-sha2-256")
    (l "hmac-sha2-256") (l "none") (l "none") (l "") (l "") false 0.

Lemma kexinit_example_wf : KexInit.wf kexinit_example.
Proof.
  unfold KexInit.wf, KexInit.list_wf, name_list_wf. split_and!; [done| |vm_compute; split; discriminate].
  repeat constructor; vm_compute; discriminate.
Qed.

Lemma kexinit_roundtrip_witness :
  exists out' n,
    KexInit.encode kexinit_example (replicate 300 x00) = (out', Ok n) /\
    n = zlen (KexInit.image kexinit_example) /\
    KexInit.decode (ztake n out') = Ok kexinit_example /\
    zdrop n out' = zdrop n (replicate 300 x00) /\
    OwnedKexInit.kex_algorithms (kexinit_to_owned kexinit_example) =
      [bstr "curve25519-sha256"; bstr "kex-strict-c"].
Proof.
  apply (kexinit_roundtrip kexinit_example).
  - apply kexinit_example_wf.
  - vm_compute. discriminate.
Defined.

(** Marker recognition is exact: [classify_strict_kex_name] is the inverse
    of [StrictKexMarker::name]; a name is taken for a key-exchange method iff
    it is none of the six markers; two markers pair iff they have opposite
    roles and the same spelling. *)
Theorem kex_markers_exact :
  (forall name m, classify_strict_kex_name name = Some m <-> name = marker_name m) /\
  (forall name, is_marker (classify_kex_name name) = false <->
     ~ In name [algorithms.EXT_INFO_C; algorithms.EXT_INFO_S; algorithms.KEX_STRICT_C;
                algorithms.KEX_STRICT_S; algorithms.KEX_STRICT_C_OPENSSH;
                algorithms.KEX_STRICT_S_OPENSSH]) /\
  (forall a b, pairs_with a b = true <-> role a <> role b /\ spelling a = spelling b).
Proof.
  split_and!.
  - apply classify_strict_name.
  - intros name.
    assert (is_marker (classify_kex_name name) = false <-> classify_kex_name name = Method) as ->
      by (by destruct (classify_kex_name name)).
    rewrite classify_method. simpl. split.
    + intros (H1 & H2 & H3).
      pose proof (H3 (mkMarker RoleClient Standard)). pose proof (H3 (mkMarker RoleServer Standard)).
      pose proof (H3 (mkMarker RoleClient OpenSshV00)).
      pose proof (H3 (mkMarker RoleServer OpenSshV00)). naive_solver.
    + intros H. split_and!; [naive_solver..|]. intros [[] []] ->; simpl in *; tauto.
  - intros [[] []] [[] []]; simpl; split; try done; by intros [? ?].
Qed.
