(* ===== verification/ExtInfo.v ===== *)
(** * EXT_INFO payloads

    Models crates/tatami_ssh_wire/src/ext_info.rs (RFC 8308): the header
    decoder that bounds the peer's count, the lazy pair iterator, the
    whole-message validator, the lookup of [server-sig-algs], the encoder and
    the owned copy. *)

From S2P Require Import Prelude WireError NameList Primitives Messages.
Import Reader(rd).
Import Writer(wr).

(* wire/ext_info.rs:50-50 MIN_PAIR_LEN *)
Definition MIN_PAIR_LEN : Z := 8.

(* wire/ext_info.rs:55-65 KnownExtension *)
Inductive KnownExtension : Type :=
| ServerSigAlgs | DelayCompression | NoFlowControl | Elevation.

(* wire/ext_info.rs:70-77 KnownExtension::name *)
Definition extension_name (e : KnownExtension) : bytes :=
  match e with
  | ServerSigAlgs => bstr "server-sig-algs"
  | DelayCompression => bstr "delay-compression"
  | NoFlowControl => bstr "no-flow-control"
  | Elevation => bstr "elevation"
  end.

(* wire/ext_info.rs:84-92 classify_extension *)
Definition classify_extension (name : bytes) : option KnownExtension :=
  if bytes_eqb name (bstr "server-sig-algs") then Some ServerSigAlgs
  else if bytes_eqb name (bstr "delay-compression") then Some DelayCompression
  else if bytes_eqb name (bstr "no-flow-control") then Some NoFlowControl
  else if bytes_eqb name (bstr "elevation") then Some Elevation
  else None.

(* wire/ext_info.rs:96-116 ExtInfoError *)
Inductive ExtInfoError : Type :=
| ExtInfoMessage (e : MessageError)
| TooManyExtensions (claimed max : Z)
| CountMismatch (claimed found : Z)
| InvalidServerSigAlgs (e : InvalidEncoding).

(* wire/ext_info.rs:263-267 read_pair *)
Definition read_pair : M Reader.t MessageError (bytes * bytes) :=
  let! name := field "extension-name" Reader.read_string in
  let! value := field "extension-value" Reader.read_string in
  ret (name, value).

Module Extensions.

(* wire/ext_info.rs:272-276 Extensions *)
Record t : Type := mk { r : Reader.t; remaining : Z; failed : bool }.

(* wire/ext_info.rs:281-295 Extensions::next *)
Definition next (self : t) : t * option (result (bytes * bytes) MessageError) :=
  if failed self || (remaining self =? 0) then (self, None)
  else match read_pair (r self) with
       | (r', Ok p) => (mk r' (remaining self - 1) (failed self), Some (Ok p))
       | (r', Err e) => (mk r' (remaining self) true, Some (Err e))
       end.

(** A [for] loop over the iterator, at most [fuel] calls of [next]. *)
Fixpoint drain (fuel : nat) (self : t) : list (result (bytes * bytes) MessageError) :=
  match fuel with
  | O => []
  | S fuel' => match next self with
               | (self', Some item) => item :: drain fuel' self'
               | (_, None) => []
               end
  end.

(** Each call decrements [remaining] or sets [failed], so [remaining + 1] calls
    exhaust the iterator. *)
Definition items (self : t) : list (result (bytes * bytes) MessageError) :=
  drain (S (Z.to_nat (remaining self))) self.

End Extensions.

Module ExtInfo.

(* wire/ext_info.rs:153-159 ExtInfo *)
Record t : Type := mk { claimed : Z; count : Z; body : Reader.t }.

(* wire/ext_info.rs:169-190 ExtInfo::decode *)
Definition decode (payload : bytes) : result t MessageError :=
  run_decode (
    let! _ := expect_message Msg.EXT_INFO in
    let! count_offset := (fun r => (r, Ok (Reader.position r))) in
    let! claimed := field "nr-extensions" Reader.read_u32 in
    fun r =>
      let available := Reader.remaining_len r in
      if claimed <=? available / MIN_PAIR_LEN then (r, Ok (mk claimed claimed r))
      else (r, Err (MessageField "nr-extensions" count_offset
                     (DecodeLengthOverflow claimed available)))) payload.

(* wire/ext_info.rs:194-196 ExtInfo::claimed_count *)
Definition claimed_count (self : t) : Z := claimed self.

(* wire/ext_info.rs:203-209 ExtInfo::extensions *)
Definition extensions (self : t) : Extensions.t :=
  Extensions.mk (body self) (count self) false.

(* wire/ext_info.rs:225-233 ExtInfo::validate (the loop) *)
Fixpoint validate_loop (claimed : Z) (n : nat) (found : Z) : M Reader.t ExtInfoError unit :=
  match n with
  | O => ret tt
  | S n' => fun r =>
      if Reader.is_empty r then (r, Err (CountMismatch claimed found))
      else (let! _ := with_err ExtInfoMessage read_pair in
            validate_loop claimed n' (found + 1)) r
  end.

(* wire/ext_info.rs:217-236 ExtInfo::validate *)
Definition validate (self : t) (max_extensions : Z) : result Z ExtInfoError :=
  if max_extensions <? count self then Err (TooManyExtensions (claimed self) max_extensions)
  else snd ((let! _ := validate_loop (claimed self) (Z.to_nat (count self)) 0 in
             let! _ := with_err ExtInfoMessage finish in
             ret (count self)) (body self)).

(* wire/ext_info.rs:247-257 ExtInfo::server_sig_algs (the loop) *)
Fixpoint find_server_sig_algs (l : list (result (bytes * bytes) MessageError)) :
    option (result NameList.t ExtInfoError) :=
  match l with
  | [] => None
  | Err e :: _ => Some (Err (ExtInfoMessage e))
  | Ok (name, value) :: l' =>
      if bytes_eqb name (extension_name ServerSigAlgs)
      then Some (map_err InvalidServerSigAlgs (NameList.parse value))
      else find_server_sig_algs l'
  end.

(* wire/ext_info.rs:246-259 ExtInfo::server_sig_algs *)
Definition server_sig_algs (self : t) : option (result NameList.t ExtInfoError) :=
  find_server_sig_algs (Extensions.items (extensions self)).

(** [for pair in ... { pair? }]: stops at the first error. *)
Fixpoint collect_pairs (l : list (result (bytes * bytes) MessageError)) :
    result (list (bytes * bytes)) ExtInfoError :=
  match l with
  | [] => Ok []
  | Err e :: _ => Err (ExtInfoMessage e)
  | Ok p :: l' => let? ps := collect_pairs l' in Ok (p :: ps)
  end.

(** [OwnedExtInfo] is represented by its list of pairs. *)
(* wire/ext_info.rs:357-366 ExtInfo::to_owned *)
Definition to_owned (self : t) (max_extensions : Z) : result (list (bytes * bytes)) ExtInfoError :=
  let? _ := validate self max_extensions in
  collect_pairs (Extensions.items (extensions self)).

End ExtInfo.

(** The writing loop of [encode_ext_info]. *)
Fixpoint write_pairs (pairs : list (bytes * bytes)) : M Writer.t EncodeError unit :=
  match pairs with
  | [] => ret tt
  | (name, value) :: pairs' =>
      let! _ := Writer.write_string name in
      let! _ := Writer.write_string value in
      write_pairs pairs'
  end.

(* wire/ext_info.rs:311-322 encode_ext_info *)
Definition encode_ext_info (pairs : list (bytes * bytes)) (out : bytes) :
    bytes * result Z EncodeError :=
  match u32_try_from (zlen pairs) with
  | None => (out, Err (EncodeLengthOverflow (zlen pairs)))
  | Some count =>
      run_encode (
        let! _ := Writer.write_u8 Msg.EXT_INFO in
        let! _ := Writer.write_u32 count in
        let! _ := write_pairs pairs in
        ret tt) out
  end.

(** ** Specification *)

Definition pair_image (p : bytes * bytes) : bytes := sshstr (fst p) ++ sshstr (snd p).

Definition pairs_image (ps : list (bytes * bytes)) : bytes := concat (map pair_image ps).

Definition pair_wf (p : bytes * bytes) : Prop :=
  zlen (fst p) <= U32_MAX /\ zlen (snd p) <= U32_MAX.

(** The EXT_INFO payload of RFC 8308 for a list of pairs. *)
Definition ext_info_image (ps : list (bytes * bytes)) : bytes :=
  [byte_of_Z Msg.EXT_INFO] ++ be_bytes 4 (zlen ps) ++ pairs_image ps.

Lemma pairs_image_cons p ps : pairs_image (p :: ps) = pair_image p ++ pairs_image ps.
Proof. done. Qed.

Lemma zlen_pair_image p : MIN_PAIR_LEN <= zlen (pair_image p).
Proof. unfold pair_image, MIN_PAIR_LEN. zlia. Qed.

Lemma zlen_pairs_image ps : MIN_PAIR_LEN * zlen ps <= zlen (pairs_image ps).
Proof.
  induction ps as [|p ps IH]; [done|].
  rewrite pairs_image_cons, zlen_app, zlen_cons. pose proof (zlen_pair_image p).
  unfold MIN_PAIR_LEN in *. lia.
Qed.

#[export] Instance reads_read_pair :
  Reads read_pair (fun p bs => pair_wf p /\ bs = pair_image p).
Proof.
  eapply reads_weaken.
  - apply reads_bind; [apply reads_field, _|intros n].
    apply (reads_map _ (fun v => (n, v))). apply reads_field, _.
  - intros [n v] bs. unfold string_img, pair_wf, pair_image; simpl. split.
    + intros (a & b1 & b2 & -> & (Ha & ->) & v' & [= -> ->] & Hv & ->). done.
    + intros ((Hn & Hv) & ->). exists n, (sshstr n), (sshstr v). naive_solver.
Qed.

(** ** The validator *)

Lemma validate_loop_ok c ps : forall found pre rest,
  Forall pair_wf ps ->
  ExtInfo.validate_loop c (length ps) found (rd pre (pairs_image ps ++ rest)) =
  (rd (pre ++ pairs_image ps) rest, Ok tt).
Proof.
  induction ps as [|p ps IH]; intros found pre rest Hf; cbn [ExtInfo.validate_loop length].
  - by rewrite app_nil_r.
  - inversion Hf as [|? ? Hp Hps]; subst. rewrite pairs_image_cons, <- app_assoc.
    assert (Reader.is_empty (rd pre (pair_image p ++ pairs_image ps ++ rest)) = false) as ->.
    { pose proof (zlen_pair_image p). unfold Reader.is_empty, rd; simpl. apply Z.eqb_neq.
      unfold MIN_PAIR_LEN in *. zlia. }
    erewrite bind_step
      by (apply (reads_complete (Reads:=reads_with_err ExtInfoMessage read_pair _ _)); by split).
    rewrite IH by done. by rewrite app_assoc.
Qed.

Lemma validate_loop_sound c n : forall found pre rest r',
  ExtInfo.validate_loop c n found (rd pre rest) = (r', Ok tt) ->
  exists ps rest', length ps = n /\ Forall pair_wf ps /\ rest = pairs_image ps ++ rest' /\
    r' = rd (pre ++ pairs_image ps) rest'.
Proof.
  induction n as [|n IH]; intros found pre rest r'; simpl.
  - intros [= <-]. exists [], rest. by rewrite app_nil_r.
  - destruct (Reader.is_empty _); [done|].
    intros (r1 & p & H1 & H2)%bind_Ok_inv. apply with_err_Ok_inv in H1.
    apply reads_sound in H1 as (bs & rest1 & -> & -> & Hp & ->).
    apply IH in H2 as (ps & rest' & <- & Hps & -> & ->).
    exists (p :: ps), rest'. rewrite pairs_image_cons, <- !app_assoc.
    split_and!; [done|by constructor|done|done].
Qed.

(** ** The iterator *)

Lemma drain_ok ps : forall fuel pre rest,
  (length ps < fuel)%nat -> Forall pair_wf ps ->
  Extensions.drain fuel (Extensions.mk (rd pre (pairs_image ps ++ rest)) (zlen ps) false) = map Ok ps.
Proof.
  induction ps as [|p ps IH]; intros fuel pre rest Hf Hw.
  - destruct fuel; [simpl in Hf; lia|]. done.
  - destruct fuel as [|fuel]; [simpl in Hf; lia|]. inversion Hw as [|? ? Hp Hps]; subst.
    cbn [Extensions.drain map]. unfold Extensions.next.
    cbn [Extensions.failed Extensions.remaining Extensions.r orb].
    destruct (Z.eqb_spec (zlen (p :: ps)) 0); [zlia|].
    rewrite pairs_image_cons, <- app_assoc.
    rewrite (reads_complete (Reads:=reads_read_pair) p) by done. f_equal.
    replace (zlen (p :: ps) - 1) with (zlen ps) by zlia.
    apply IH; [simpl in Hf; lia|done].
Qed.

Lemma collect_pairs_ok ps : ExtInfo.collect_pairs (map Ok ps) = Ok ps.
Proof. induction ps as [|p ps IH]; simpl; [done|]. by rewrite IH. Qed.

Lemma items_ok ps pre rest :
  Forall pair_wf ps ->
  Extensions.items (Extensions.mk (rd pre (pairs_image ps ++ rest)) (zlen ps) false) = map Ok ps.
Proof. intros Hw. apply drain_ok; [simpl; unfold zlen; lia|done]. Qed.

(** ** The header *)

Lemma ext_info_decode_iff p e :
  ExtInfo.decode p = Ok e <->
  exists body, p = [byte_of_Z Msg.EXT_INFO] ++ be_bytes 4 (ExtInfo.claimed e) ++ body /\
    is_u32 (ExtInfo.claimed e) /\ ExtInfo.count e = ExtInfo.claimed e /\
    ExtInfo.body e = rd ([byte_of_Z Msg.EXT_INFO] ++ be_bytes 4 (ExtInfo.claimed e)) body /\
    ExtInfo.claimed e <= zlen body / MIN_PAIR_LEN.
Proof.
  unfold ExtInfo.decode. rewrite run_decode_number by (vm_compute; split; discriminate).
  split.
  - destruct p as [|b rest]; [done|].
    destruct (Z.eqb_spec (u8 b) Msg.EXT_INFO) as [Hb|]; [|done].
    assert (b = byte_of_Z Msg.EXT_INFO) as -> by (by rewrite <- Hb, byte_of_Z_u8).
    unfold bind at 1. unfold bind.
    destruct (field _ _ _) as [r1 [c|er]] eqn:E; [|done].
    apply (reads_sound (Reads:=reads_field _ _ _ reads_read_u32)) in E
      as (bs & rest' & -> & -> & Hc & ->).
    rewrite rd_remaining_len. destruct (Z.leb_spec c (zlen rest' / MIN_PAIR_LEN)); [|done].
    simpl. intros [= <-]. exists rest'. done.
  - intros (body & -> & Hc & Hcnt & Hbody & Hle). destruct e as [c cnt bd]; simpl in *. subst cnt bd.
    assert (forall x, snd (bind (fun r => (r, Ok (E:=MessageError) (Reader.position r)))
      (fun off => let! claimed := field "nr-extensions" Reader.read_u32 in
        fun r => if claimed <=? Reader.remaining_len r / MIN_PAIR_LEN
                 then (r, Ok (ExtInfo.mk claimed claimed r))
                 else (r, Err (MessageField "nr-extensions" off
                       (DecodeLengthOverflow claimed (Reader.remaining_len r)))))
      (rd [x] (be_bytes 4 c ++ body))) = Ok (ExtInfo.mk c c (rd ([x] ++ be_bytes 4 c) body))) as H.
    { intros x. unfold bind at 1.
      erewrite bind_step
        by (apply (reads_complete (Reads:=reads_field _ _ _ reads_read_u32)); by split).
      rewrite rd_remaining_len. by destruct (Z.leb_spec c (zlen body / MIN_PAIR_LEN)); [|lia]. }
    apply H.
Qed.

(** What [validate] establishes about an accepted header. *)
Lemma validate_iff p e max n :
  ExtInfo.decode p = Ok e ->
  ExtInfo.validate e max = Ok n <->
  exists ps, Forall pair_wf ps /\ p = ext_info_image ps /\ n = zlen ps /\ n <= max /\
             n = ExtInfo.count e.
Proof.
  intros (body & -> & Hc & Hcnt & Hbody & Hle)%ext_info_decode_iff.
  destruct e as [c cnt bd]; simpl in *. subst cnt bd.
  set (hd := [byte_of_Z Msg.EXT_INFO] ++ be_bytes 4 c) in *.
  unfold ExtInfo.validate, ext_info_image; cbn [ExtInfo.count ExtInfo.claimed ExtInfo.body].
  split.
  - destruct (Z.ltb_spec max c); [done|]. unfold bind.
    destruct (ExtInfo.validate_loop _ _ _ _) as [r1 [[]|er]] eqn:E; [|done].
    apply validate_loop_sound in E as (ps & rest & Hlen & Hw & -> & ->).
    unfold with_err, finish. rewrite finish_spec. case_bool_decide; [|done]. subst rest.
    simpl. intros [= <-]. exists ps. rewrite app_nil_r.
    assert (zlen ps = c) as Hzl by (unfold zlen, is_u32 in *; lia).
    rewrite Hzl. subst hd. split_and!; try done; lia.
  - intros (ps & Hw & Hp & -> & Hm & Hn). destruct (Z.ltb_spec max c); [lia|].
    subst hd. rewrite <- Hn in Hp.
    assert (body = pairs_image ps ++ []) as ->
      by (rewrite app_nil_r; apply (inj (app ([byte_of_Z Msg.EXT_INFO] ++ be_bytes 4 (zlen ps))));
          by rewrite <- !app_assoc).
    rewrite <- Hn. replace (Z.to_nat (zlen ps)) with (length ps) by (unfold zlen; lia).
    erewrite bind_step by (by apply validate_loop_ok).
    unfold bind, with_err, finish. by rewrite finish_spec.
Qed.

Lemma to_owned_iff p e max ps :
  ExtInfo.decode p = Ok e ->
  ExtInfo.to_owned e max = Ok ps <->
  Forall pair_wf ps /\ p = ext_info_image ps /\ zlen ps <= max /\ zlen ps = ExtInfo.count e.
Proof.
  intros He.
  assert (forall ps', Forall pair_wf ps' -> p = ext_info_image ps' ->
    zlen ps' = ExtInfo.count e ->
    ExtInfo.collect_pairs (Extensions.items (ExtInfo.extensions e)) = Ok ps') as Hcol.
  { intros ps' Hw -> Hn. apply ext_info_decode_iff in He as (body & Hp & Hc & Hcnt & Hbody & _).
    unfold ExtInfo.extensions. rewrite Hbody, <- Hn.
    unfold ext_info_image in Hp. rewrite Hn, Hcnt in Hp.
    assert (body = pairs_image ps' ++ []) as ->.
    { rewrite app_nil_r.
      by apply (inj (app ([byte_of_Z Msg.EXT_INFO] ++ be_bytes 4 (ExtInfo.claimed e)))). }
    by rewrite items_ok, collect_pairs_ok. }
  unfold ExtInfo.to_owned. split.
  - intros (n & Hv & Hcoll)%rbind_Ok.
    apply (validate_iff p e max n He) in Hv as (ps' & Hw & Hp & -> & Hm & Hn).
    rewrite (Hcol ps') in Hcoll by done. by injection Hcoll as <-.
  - intros (Hw & Hp & Hm & Hn). rewrite (proj2 (validate_iff p e max (zlen ps) He)) by (exists ps; by split_and!).
    simpl. by apply Hcol.
Qed.

Lemma ext_info_image_decode ps :
  zlen ps <= U32_MAX -> exists e, ExtInfo.decode (ext_info_image ps) = Ok e /\
    ExtInfo.count e = zlen ps.
Proof.
  intros Hl. exists (ExtInfo.mk (zlen ps) (zlen ps)
    (rd ([byte_of_Z Msg.EXT_INFO] ++ be_bytes 4 (zlen ps)) (pairs_image ps))).
  split; [|done]. apply ext_info_decode_iff. exists (pairs_image ps).
  cbn [ExtInfo.claimed ExtInfo.count ExtInfo.body]. split_and!; try done.
  - split; [zlia|done].
  - apply Z.div_le_lower_bound; [done|]. apply zlen_pairs_image.
Qed.

Lemma writes_write_pairs ps : Forall pair_wf ps -> Writes (write_pairs ps) (pairs_image ps).
Proof.
  induction 1 as [|[n v] ps [Hn Hv] _ IH]; [apply writes_ret|].
  rewrite pairs_image_cons. unfold pair_image. rewrite <- app_assoc.
  apply writes_bind; [by apply writes_write_string|].
  apply writes_bind; [by apply writes_write_string|done].
Qed.

(** ** Properties *)

(** The EXT_INFO decoder is exact: a payload is accepted and copied as the
    pairs [ps] iff it is the RFC 8308 encoding of [ps] and their number is
    within the caller's limit, so in particular the copy never fails after a
    successful [validate]. *)
Theorem ext_info_to_owned_exact (p : bytes) (max : Z) (ps : list (bytes * bytes)) :
  (exists e, ExtInfo.decode p = Ok e /\ ExtInfo.to_owned e max = Ok ps) <->
  Forall pair_wf ps /\ zlen ps <= U32_MAX /\ p = ext_info_image ps /\ zlen ps <= max.
Proof.
  split.
  - intros (e & He & Ho). apply (to_owned_iff p e max ps He) in Ho as (Hw & Hp & Hm & Hn).
    apply ext_info_decode_iff in He as (_ & _ & Hc & Hcnt & _).
    split_and!; try done. unfold is_u32 in Hc. lia.
  - intros (Hw & Hu & -> & Hm). destruct (ext_info_image_decode ps Hu) as (e & He & Hn).
    exists e. split; [done|]. by apply (to_owned_iff _ e max ps He).
Qed.

(** A peer's count is bounded by the payload before anything is iterated:
    an accepted header announces at most one pair per eight remaining bytes,
    the iterator makes at most that many successful steps, and a validated
    message is copied without error with the announced number of pairs. *)
Theorem ext_info_count_bounded (p : bytes) (e : ExtInfo.t) :
  ExtInfo.decode p = Ok e ->
  0 <= ExtInfo.count e /\ MIN_PAIR_LEN * ExtInfo.count e <= zlen p /\
  zlen (Extensions.items (ExtInfo.extensions e)) <= ExtInfo.count e + 1 /\
  forall max n, ExtInfo.validate e max = Ok n ->
    n = ExtInfo.count e /\ exists ps, ExtInfo.to_owned e max = Ok ps /\ zlen ps = n.
Proof.
  intros He. pose proof He as (body & Hp & [Hc0 _] & Hcnt & Hbody & Hle)%ext_info_decode_iff.
  split_and!; [lia| | |].
  - rewrite Hcnt, Hp. assert (MIN_PAIR_LEN * (zlen body / MIN_PAIR_LEN) <= zlen body)
      by (apply Z.mul_div_le; done). unfold MIN_PAIR_LEN in *. zlia.
  - unfold Extensions.items. cbn [ExtInfo.extensions Extensions.remaining].
    assert (forall fuel x, zlen (Extensions.drain fuel x) <= Z.of_nat fuel) as Hd.
    { induction fuel as [|fuel IH]; intros x; [done|]. cbn [Extensions.drain].
      destruct (Extensions.next x) as [x' [it|]]; [|zlia].
      rewrite zlen_cons. specialize (IH x'). lia. }
    specialize (Hd (S (Z.to_nat (ExtInfo.count e))) (ExtInfo.extensions e)). lia.
  - intros max n Hv. pose proof Hv as (ps & Hw & -> & -> & Hm & Hn)%(validate_iff _ e max n He).
    split; [done|]. exists ps. split; [|done]. by apply (to_owned_iff _ e max ps He).
Qed.

Lemma ext_info_count_bounded_witness :
  let p := [x07; x00; x00; x00; x01; x00; x00; x00; x01; "e"%byte; x00; x00; x00; x00] in
  let e := ExtInfo.mk 1 1 (Reader.mk p 5) in
  0 <= ExtInfo.count e /\ MIN_PAIR_LEN * ExtInfo.count e <= zlen p /\
  zlen (Extensions.items (ExtInfo.extensions e)) <= ExtInfo.count e + 1 /\
  forall max n, ExtInfo.validate e max = Ok n ->
    n = ExtInfo.count e /\ exists ps, ExtInfo.to_owned e max = Ok ps /\ zlen ps = n.
Proof. intros p e. apply (ext_info_count_bounded p e). reflexivity. Defined.

(** What [encode_ext_info] writes for representable pairs is accepted back
    with the same pairs, names and values untouched and in order. *)
Theorem ext_info_roundtrip (ps : list (bytes * bytes)) (out : bytes) :
  Forall pair_wf ps -> zlen ps <= U32_MAX -> zlen (ext_info_image ps) <= zlen out ->
  exists out' n e,
    encode_ext_info ps out = (out', Ok n) /\ n = zlen (ext_info_image ps) /\
    ExtInfo.decode (ztake n out') = Ok e /\
    ExtInfo.to_owned e (zlen ps) = Ok ps /\ zdrop n out' = zdrop n out.
Proof.
  intros Hw Hu Hl. destruct (ext_info_image_decode ps Hu) as (e & He & Hn).
  exists (ext_info_image ps ++ zdrop (zlen (ext_info_image ps)) out), (zlen (ext_info_image ps)), e.
  rewrite ztake_app_exact, zdrop_app_exact by done. split_and!; try done.
  - unfold encode_ext_info. rewrite u32_try_from_ok by done. apply run_encode_ok; [|done].
    unfold ext_info_image. apply writes_bind; [apply _|]. apply writes_bind; [apply _|].
    apply writes_bind_ret. by apply writes_write_pairs.
  - by apply (to_owned_iff _ e (zlen ps) ps He).
Qed.

Lemma ext_info_roundtrip_witness :
  exists out' n e,
    encode_ext_info [(bstr "server-sig-algs", bstr "ssh-ed25519")] (replicate 64 x00) = (out', Ok n) /\
    n = 39 /\ ExtInfo.decode (ztake n out') = Ok e /\
    ExtInfo.to_owned e 1 = Ok [(bstr "server-sig-algs", bstr "ssh-ed25519")] /\
    zdrop n out' = zdrop n (replicate 64 x00).
Proof.
  apply (ext_info_roundtrip [(bstr "server-sig-algs", bstr "ssh-ed25519")]).
  - repeat constructor; vm_compute; discriminate.
  - vm_compute; discriminate.
  - vm_compute; discriminate.
Defined.
