(* ===== verification/WireIdent.v ===== *)
(** * Identification content (RFC 4253 section 4.2)

    Models crates/tatami_ssh_wire/src/ident.rs: the parser and encoder of
    [SSH-protoversion-softwareversion [SP comments]] without its terminator,
    and the owned copy that stores the bytes once with two offsets. *)

From S2P Require Import Prelude WireError.

Definition dash : byte := "-"%byte.
Definition space : byte := " "%byte.

(* wire/ident.rs:36-36 PREFIX *)
Definition PREFIX : bytes := bstr "SSH-".

(* wire/ident.rs:49-60 IdentSyntaxError *)
Inductive IdentSyntaxError : Type :=
| MissingPrefix | MissingSeparator | BadProtocolVersion | BadSoftwareVersion | ControlCharacter.

#[export] Instance IdentSyntaxError_eq_decision : EqDecision IdentSyntaxError.
Proof. solve_decision. Defined.

(* wire/ident.rs:167-169 is_forbidden_byte *)
Definition is_forbidden_byte (b : byte) : bool :=
  match b with x0d | x0a | x00 => true | _ => false end.

(* wire/ident.rs:181-183 is_token_byte *)
Definition is_token_byte (b : byte) : bool :=
  (0x20 <? u8 b) && (u8 b <? 0x7f) && negb (byte_eqb b dash).

(* wire/ident.rs:175-177 is_version_token *)
Definition is_version_token (token : bytes) : bool :=
  negb (bool_decide (token = [])) && forallb is_token_byte token.

(* wire/ident.rs:145-153 ProtocolVersionClass *)
Inductive ProtocolVersionClass : Type := Ssh2 | Ssh2Compatibility | OtherVersion.

#[export] Instance ProtocolVersionClass_eq_decision : EqDecision ProtocolVersionClass.
Proof. solve_decision. Defined.

(* wire/ident.rs:157-163 classify_protocol_version *)
Definition classify_protocol_version (token : bytes) : ProtocolVersionClass :=
  if bytes_eqb token (bstr "2.0") then Ssh2
  else if bytes_eqb token (bstr "1.99") then Ssh2Compatibility
  else OtherVersion.

Module Identification.

(* wire/ident.rs:40-45 Identification *)
Record t : Type := mk {
  input : bytes;
  protocol_version : bytes;
  software_version : bytes;
  comments : option bytes
}.

#[global] Instance t_eq_decision : EqDecision t.
Proof. solve_decision. Defined.

(* wire/ident.rs:78-107 Identification::parse *)
Definition parse (input : bytes) : result t IdentSyntaxError :=
  if existsb is_forbidden_byte input then Err ControlCharacter
  else
    let? rest := ok_or (strip_prefix PREFIX input) MissingPrefix in
    let? dash := ok_or (position (fun b => byte_eqb b dash) rest) MissingSeparator in
    let protocol_version := ztake dash rest in
    if negb (is_version_token protocol_version) then Err BadProtocolVersion
    else
      let after := zdrop (dash + 1) rest in
      let '(software_version, comments) :=
        match position (fun b => byte_eqb b space) after with
        | Some sp => (ztake sp after, Some (zdrop (sp + 1) after))
        | None => (after, None)
        end in
      if negb (is_version_token software_version) then Err BadSoftwareVersion
      else Ok (mk input protocol_version software_version comments).

(* wire/ident.rs:112-114 Identification::as_bytes *)
Definition as_bytes (self : t) : bytes := input self.

(* wire/ident.rs:138-140 Identification::protocol_version_class *)
Definition protocol_version_class (self : t) : ProtocolVersionClass :=
  classify_protocol_version (protocol_version self).

End Identification.

(* wire/ident.rs:188-208 encoded_len *)
Definition encoded_len (protocol_version software_version : bytes) (comments : option bytes) :
    option Z :=
  if negb (is_version_token protocol_version) || negb (is_version_token software_version) then None
  else if match comments with Some c => existsb is_forbidden_byte c | None => false end then None
  else
    let n := zlen PREFIX in
    let* n := checked_add_usize n (zlen protocol_version) in
    let* n := checked_add_usize n 1 in
    let* n := checked_add_usize n (zlen software_version) in
    match comments with
    | Some c =>
        let* n := checked_add_usize n 1 in
        checked_add_usize n (zlen c)
    | None => Some n
    end.

(* wire/ident.rs:212-228 IdentEncodeError *)
Inductive IdentEncodeError : Type :=
| EncBadProtocolVersion
| EncBadSoftwareVersion
| EncBadComments
| EncInsufficientCapacity (needed available : Z)
| EncLengthOverflow.

(* wire/ident.rs:248-258 EncodeError::from *)
Definition encode_error_from (e : IdentEncodeError) : EncodeError :=
  match e with
  | EncInsufficientCapacity needed available => InsufficientCapacity needed available
  | EncLengthOverflow => EncodeLengthOverflow USIZE_MAX
  | EncBadProtocolVersion => InvalidName 0
  | EncBadSoftwareVersion => InvalidName 1
  | EncBadComments => InvalidName 2
  end.

(** Copies [parts] into the buffer one after the other from [pos]. *)
(* wire/ident.rs:291-294 encode (the copy loop) *)
Fixpoint copy_parts (parts : list bytes) (pos : Z) (out : bytes) : Z * bytes :=
  match parts with
  | [] => (pos, out)
  | part :: parts' => copy_parts parts' (pos + zlen part) (write_at pos part out)
  end.

(* wire/ident.rs:267-303 encode *)
Definition encode (protocol_version software_version : bytes) (comments : option bytes)
    (out : bytes) : bytes * result Z IdentEncodeError :=
  if negb (is_version_token protocol_version) then (out, Err EncBadProtocolVersion)
  else if negb (is_version_token software_version) then (out, Err EncBadSoftwareVersion)
  else if match comments with Some c => existsb is_forbidden_byte c | None => false end then
    (out, Err EncBadComments)
  else match encoded_len protocol_version software_version comments with
  | None => (out, Err EncLengthOverflow)
  | Some needed =>
      if zlen out <? needed then (out, Err (EncInsufficientCapacity needed (zlen out)))
      else
        let '(pos, out) := copy_parts [PREFIX; protocol_version; [dash]; software_version] 0 out in
        match comments with
        | Some c =>
            let out := write_at pos [space] out in
            let pos := pos + 1 in
            let out := write_at pos c out in
            (out, Ok (pos + zlen c))
        | None => (out, Ok pos)
        end
  end.

Module OwnedIdentification.

(* wire/ident.rs:318-323 OwnedIdentification *)
Record t : Type := mk {
  stored : bytes;
  protocol_end : Z;
  software_end : Z;
  has_comments : bool
}.

#[global] Instance t_eq_decision : EqDecision t.
Proof. solve_decision. Defined.

(* wire/ident.rs:328-337 OwnedIdentification::from_borrowed *)
Definition from_borrowed (id : Identification.t) : t :=
  let protocol_end := zlen PREFIX + zlen (Identification.protocol_version id) in
  let software_end := protocol_end + 1 + zlen (Identification.software_version id) in
  mk (Identification.input id) protocol_end software_end
     (bool_decide (is_Some (Identification.comments id))).

(* wire/ident.rs:340-342 OwnedIdentification::parse *)
Definition parse (input : bytes) : result t IdentSyntaxError :=
  map_ok from_borrowed (Identification.parse input).

(* wire/ident.rs:346-358 OwnedIdentification::as_borrowed *)
Definition as_borrowed (self : t) : Identification.t :=
  let comments :=
    if has_comments self then Some (zdrop (software_end self + 1) (stored self)) else None in
  Identification.mk (stored self)
    (zslice (zlen PREFIX) (protocol_end self) (stored self))
    (zslice (protocol_end self + 1) (software_end self) (stored self))
    comments.

(* wire/ident.rs:362-364 OwnedIdentification::as_bytes *)
Definition as_bytes (self : t) : bytes := stored self.

(* wire/ident.rs:386-388 OwnedIdentification::protocol_version_class *)
Definition protocol_version_class (self : t) : ProtocolVersionClass :=
  Identification.protocol_version_class (as_borrowed self).

End OwnedIdentification.

(** ** Specification *)

(** The identification content of three fields. *)
Definition ident_content (pv sv : bytes) (c : option bytes) : bytes :=
  PREFIX ++ pv ++ [dash] ++ sv ++ match c with Some c => [space] ++ c | None => [] end.

Definition no_forbidden (l : bytes) : Prop := existsb is_forbidden_byte l = false.

Definition ident_fields_ok (pv sv : bytes) (c : option bytes) : Prop :=
  is_version_token pv = true /\ is_version_token sv = true /\
  match c with Some c => no_forbidden c | None => True end.

Lemma existsb_app_false {A} (f : A -> bool) l k :
  existsb f (l ++ k) = false <-> existsb f l = false /\ existsb f k = false.
Proof. rewrite existsb_app. apply orb_false_iff. Qed.

Lemma version_token_spec l :
  is_version_token l = true <-> l <> [] /\ Forall (fun b => is_token_byte b = true) l.
Proof.
  unfold is_version_token. rewrite andb_true_iff, negb_true_iff, bool_decide_eq_false, forallb_forall.
  by rewrite List.Forall_forall.
Qed.

Lemma token_byte_no_dash b : is_token_byte b = true -> byte_eqb b dash = false.
Proof. unfold is_token_byte. destruct (byte_eqb b dash); [|done]. by rewrite andb_false_r. Qed.

Lemma token_byte_no_space b : is_token_byte b = true -> byte_eqb b space = false.
Proof. by destruct b. Qed.

Lemma token_byte_not_forbidden b : is_token_byte b = true -> is_forbidden_byte b = false.
Proof. by destruct b. Qed.

Lemma token_no_forbidden l : is_version_token l = true -> no_forbidden l.
Proof.
  intros [_ H]%version_token_spec. unfold no_forbidden.
  induction H as [|b l Hb _ IH]; simpl; [done|]. by rewrite token_byte_not_forbidden.
Qed.

Lemma token_not f l :
  (forall b, is_token_byte b = true -> f b = false) -> is_version_token l = true ->
  Forall (fun b => f b = false) l.
Proof. intros Hf [_ H]%version_token_spec. by eapply Forall_impl. Qed.

Lemma content_no_forbidden pv sv c :
  ident_fields_ok pv sv c -> no_forbidden (ident_content pv sv c).
Proof.
  intros (Hp & Hs & Hc). unfold no_forbidden, ident_content.
  rewrite !existsb_app_false. split_and!; try done; [by apply token_no_forbidden..|].
  destruct c; [|done]. by apply existsb_app_false.
Qed.

Lemma zdrop_snoc_exact {A} (a : list A) x b : zdrop (zlen a + 1) (a ++ x :: b) = b.
Proof.
  replace (a ++ x :: b) with ((a ++ [x]) ++ b) by (by rewrite <- app_assoc).
  apply zdrop_app_exact. zlia.
Qed.

Lemma byte_eqb_true a b : byte_eqb a b = true -> a = b.
Proof. rewrite byte_eqb_spec. apply bool_decide_eq_true. Qed.

Lemma ident_parse_iff input id :
  Identification.parse input = Ok id <->
  let '(Identification.mk i pv sv c) := id in
  i = input /\ ident_fields_ok pv sv c /\ input = ident_content pv sv c.
Proof.
  unfold Identification.parse. split.
  - destruct (existsb is_forbidden_byte input) eqn:Ef; [done|].
    destruct (strip_prefix PREFIX input) as [rest|] eqn:Er; [|done].
    apply strip_prefix_Some in Er. cbn [ok_or rbind].
    destruct (position _ rest) as [d|] eqn:Ed; [|done].
    apply position_Some in Ed as (pv & x & after & -> & <- & Hx & Hpv).
    apply byte_eqb_true in Hx as ->. cbn [ok_or rbind].
    rewrite ztake_app_exact, zdrop_snoc_exact by done.
    destruct (is_version_token pv) eqn:Etp; cbn [negb]; [|done].
    destruct (position (fun b => byte_eqb b space) after) as [s|] eqn:Es.
    + apply position_Some in Es as (sv & y & c & -> & <- & Hy & Hsv).
      apply byte_eqb_true in Hy as ->. rewrite ztake_app_exact, zdrop_snoc_exact by done.
      destruct (is_version_token sv) eqn:Ets; cbn [negb]; [|done].
      intros [= <-]. split_and!; [done| |done]. split_and!; [done..|].
      subst input. rewrite !existsb_app_false in Ef. simpl in Ef.
      rewrite existsb_app_false in Ef. naive_solver.
    + destruct (is_version_token after) eqn:Ets; cbn [negb]; [|done].
      intros [= <-]. split_and!; [done|done|]. unfold ident_content. by rewrite app_nil_r.
  - destruct id as [i pv sv c]. intros (-> & Hok & Hin).
    pose proof (content_no_forbidden pv sv c Hok) as Hf. rewrite <- Hin in Hf.
    unfold no_forbidden in Hf. rewrite Hf. destruct Hok as (Hp & Hs & Hc).
    assert (strip_prefix PREFIX input = Some (pv ++ dash :: sv ++
      match c with Some c => [space] ++ c | None => [] end)) as ->
      by (by apply strip_prefix_Some).
    cbn [ok_or rbind].
    rewrite position_app_Some by (done || by apply token_not; [apply token_byte_no_dash|]).
    cbn [ok_or rbind]. rewrite ztake_app_exact, zdrop_snoc_exact, Hp by done. cbn [negb].
    assert (Forall (fun b => byte_eqb b space = false) sv) as Hsp
      by (by apply token_not; [apply token_byte_no_space|]).
    destruct c as [c|].
    + cbn [app]. rewrite position_app_Some by done.
      rewrite ztake_app_exact, zdrop_snoc_exact, Hs by done. done.
    + rewrite app_nil_r. rewrite (proj2 (position_None _ sv)) by done. by rewrite Hs.
Qed.

(** ** The encoder *)

Lemma checked_add_ok a b : a + b <= USIZE_MAX -> checked_add_usize a b = Some (a + b).
Proof. intros. unfold checked_add_usize. by destruct (Z.leb_spec (a + b) USIZE_MAX); [|lia]. Qed.

Lemma zlen_content pv sv c :
  zlen (ident_content pv sv c) =
  4 + zlen pv + 1 + zlen sv + match c with Some c => 1 + zlen c | None => 0 end.
Proof.
  unfold ident_content. rewrite zlen_app. change (zlen PREFIX) with 4. destruct c; zlia.
Qed.

Lemma encoded_len_ok pv sv c :
  ident_fields_ok pv sv c -> zlen (ident_content pv sv c) <= USIZE_MAX ->
  encoded_len pv sv c = Some (zlen (ident_content pv sv c)).
Proof.
  intros (Hp & Hs & Hc). rewrite zlen_content. intros Hl. unfold encoded_len.
  rewrite Hp, Hs. cbn [negb orb]. change (zlen PREFIX) with 4.
  pose proof (zlen_nonneg pv). pose proof (zlen_nonneg sv).
  destruct c as [c|].
  - pose proof (zlen_nonneg c). rewrite Hc.
    rewrite checked_add_ok by lia. cbn [mbind option_bind]. rewrite checked_add_ok by lia.
    cbn [mbind option_bind]. rewrite checked_add_ok by lia. cbn [mbind option_bind].
    rewrite checked_add_ok by lia. cbn [mbind option_bind]. rewrite checked_add_ok by lia.
    f_equal. lia.
  - rewrite checked_add_ok by lia. cbn [mbind option_bind]. rewrite checked_add_ok by lia.
    cbn [mbind option_bind]. rewrite checked_add_ok by lia. cbn [mbind option_bind]. f_equal. lia.
Qed.

Lemma copy_parts_spec parts : forall d old room,
  zlen old = zlen (concat parts) ->
  copy_parts parts (zlen d) (d ++ old ++ room) =
  (zlen (d ++ concat parts), (d ++ concat parts) ++ room).
Proof.
  induction parts as [|p parts IH]; intros d old room Ho; simpl.
  - simpl in Ho. apply zlen_0 in Ho as ->. by rewrite !app_nil_r.
  - destruct (zsplit (zlen p) old) as (o1 & o2 & -> & Ho1).
    { simpl in Ho. zlia. }
    rewrite <- (app_assoc o1 o2 room), write_at_app by done.
    replace (zlen d + zlen p) with (zlen (d ++ p)) by zlia.
    rewrite (app_assoc d p). rewrite IH.
    + by rewrite (app_assoc d p).
    + simpl in Ho. zlia.
Qed.

Lemma ident_encode_ok pv sv c out :
  ident_fields_ok pv sv c -> zlen (ident_content pv sv c) <= zlen out -> zlen out <= USIZE_MAX ->
  encode pv sv c out =
  (ident_content pv sv c ++ zdrop (zlen (ident_content pv sv c)) out,
   Ok (zlen (ident_content pv sv c))).
Proof.
  intros Hok Hl Hu. unfold encode. rewrite encoded_len_ok by (done || lia).
  destruct Hok as (Hp & Hs & Hc). rewrite Hp, Hs. cbn [negb].
  assert (match c with Some c => existsb is_forbidden_byte c | None => false end = false) as ->
    by (by destruct c).
  destruct (Z.ltb_spec (zlen out) (zlen (ident_content pv sv c))); [lia|].
  set (parts := [PREFIX; pv; [dash]; sv]).
  set (tail := match c with Some c => [space] ++ c | None => [] end).
  assert (ident_content pv sv c = concat parts ++ tail) as Hcont.
  { unfold ident_content, parts. simpl. by rewrite app_nil_r, <- app_assoc. }
  rewrite Hcont in *. rewrite zlen_app in Hl. pose proof (zlen_nonneg tail).
  destruct (zsplit (zlen (concat parts)) out) as (o1 & o2 & -> & Ho1); [zlia|].
  destruct (zsplit (zlen tail) o2) as (o3 & room & -> & Ho2); [zlia|].
  pose proof (copy_parts_spec parts [] o1 (o3 ++ room) Ho1) as Hcp.
  cbn [app] in Hcp. change (zlen (@nil byte)) with 0 in Hcp. rewrite Hcp.
  rewrite (app_assoc o1 o3 room), zdrop_app_exact by zlia.
  destruct c as [c|]; unfold tail in *.
  - destruct (zsplit 1 o3) as (o4 & o5 & -> & Ho4); [zlia|].
    rewrite <- (app_assoc o4 o5 room), write_at_app by done.
    rewrite (app_assoc (concat parts) [space]), write_at_app by zlia.
    f_equal; [by rewrite <- !app_assoc|f_equal; zlia].
  - apply zlen_0 in Ho2 as ->. cbn [app]. by rewrite app_nil_r.
Qed.

Lemma checked_add_Some a b n : checked_add_usize a b = Some n -> n = a + b.
Proof. unfold checked_add_usize. destruct (_ <=? _); naive_solver. Qed.

Lemma encoded_len_Some pv sv c n :
  encoded_len pv sv c = Some n -> n = zlen (ident_content pv sv c).
Proof.
  rewrite zlen_content. unfold encoded_len. change (zlen PREFIX) with 4.
  destruct (_ || _); [done|]. destruct (match c with Some _ => _ | None => _ end); [done|].
  intros (n1 & ->%checked_add_Some & (n2 & ->%checked_add_Some &
    (n3 & ->%checked_add_Some & H)%bind_Some)%bind_Some)%bind_Some.
  destruct c as [c|].
  - apply bind_Some in H as (n4 & ->%checked_add_Some & ->%checked_add_Some). lia.
  - injection H as <-. lia.
Qed.

Lemma ident_encode_inv pv sv c out out' n :
  encode pv sv c out = (out', Ok n) ->
  ident_fields_ok pv sv c /\ zlen (ident_content pv sv c) <= zlen out.
Proof.
  unfold encode, ident_fields_ok, no_forbidden.
  destruct (is_version_token pv); [|done]. destruct (is_version_token sv); [|done]. cbn [negb].
  destruct (match c with Some _ => _ | None => _ end) eqn:Ec; [done|].
  destruct (encoded_len pv sv c) as [m|] eqn:El; [|done]. apply encoded_len_Some in El as ->.
  destruct (Z.ltb_spec (zlen out) (zlen (ident_content pv sv c))); [done|].
  intros _. split_and!; [done..|by destruct c|done].
Qed.

Lemma ident_encode_err pv sv c out out' e :
  encode pv sv c out = (out', Err e) -> out' = out.
Proof.
  unfold encode. do 3 (case_match; [congruence|]).
  destruct (encoded_len pv sv c) as [n|]; [|congruence]. destruct (zlen out <? n); [congruence|].
  destruct (copy_parts _ _ _). destruct c; congruence.
Qed.

Lemma owned_ident_roundtrip pv sv c :
  let id := Identification.mk (ident_content pv sv c) pv sv c in
  OwnedIdentification.as_borrowed (OwnedIdentification.from_borrowed id) = id.
Proof.
  simpl. unfold OwnedIdentification.as_borrowed, OwnedIdentification.from_borrowed. simpl.
  f_equal.
  - unfold ident_content. by apply zslice_app_exact.
  - unfold ident_content. rewrite !app_assoc, <- (app_assoc _ sv). apply zslice_app_exact; zlia.
  - destruct c as [c|]; simpl; [|done]. f_equal. unfold ident_content. rewrite !app_assoc.
    apply zdrop_app_exact. zlia.
Qed.

(** ** Properties *)

(** Identification parsing is exact: content parses iff it is
    [SSH-protoversion-softwareversion] with an optional comment, tokens being
    printable ASCII without space and dash and no CR, LF or NUL anywhere; the
    fields returned are the unique such decomposition. *)
Theorem ident_parse_exact (input pv sv : bytes) (c : option bytes) :
  Identification.parse input = Ok (Identification.mk input pv sv c) <->
  ident_fields_ok pv sv c /\ input = ident_content pv sv c.
Proof. rewrite ident_parse_iff. naive_solver. Qed.

(** What [ident::encode] writes parses back to the same fields, also after
    a copy to the owned form and back; on failure the output is untouched, and
    failure happens exactly for invalid fields or missing room. *)
Theorem ident_encode_roundtrip (pv sv : bytes) (c : option bytes) (out : bytes) :
  zlen out <= USIZE_MAX ->
  match encode pv sv c out with
  | (out', Ok n) =>
      exists id, Identification.parse (ztake n out') = Ok id /\
        id = Identification.mk (ident_content pv sv c) pv sv c /\
        OwnedIdentification.as_borrowed (OwnedIdentification.from_borrowed id) = id /\
        zdrop n out' = zdrop n out
  | (out', Err e) =>
      out' = out /\ (~ ident_fields_ok pv sv c \/ zlen out < zlen (ident_content pv sv c))
  end.
Proof.
  intros Hu. destruct (encode pv sv c out) as [out' [n|e]] eqn:E.
  - destruct (ident_encode_inv _ _ _ _ _ _ E) as [Hok Hl].
    rewrite ident_encode_ok in E by (done || lia). apply pair_equal_spec in E as [<- [= <-]].
    rewrite ztake_app_exact, zdrop_app_exact by done.
    eexists. split_and!; [|reflexivity|apply owned_ident_roundtrip|done].
    by apply ident_parse_iff.
  - split; [by eapply ident_encode_err|].
    destruct (Z.lt_ge_cases (zlen out) (zlen (ident_content pv sv c))) as [|Hl]; [by right|].
    left. intros Hok. rewrite ident_encode_ok in E by (done || lia). done.
Qed.

Lemma ident_encode_roundtrip_witness :
  exists id,
    Identification.parse (bstr "SSH-2.0-tatami_0.1 x") = Ok id /\
    id = Identification.mk (bstr "SSH-2.0-tatami_0.1 x") (bstr "2.0") (bstr "tatami_0.1")
           (Some (bstr "x")) /\
    OwnedIdentification.as_borrowed (OwnedIdentification.from_borrowed id) = id /\
    zdrop 20 (bstr "SSH-2.0-tatami_0.1 x" ++ replicate 4 x00) = zdrop 20 (replicate 24 x00).
Proof.
  refine (ident_encode_roundtrip (bstr "2.0") (bstr "tatami_0.1") (Some (bstr "x"))
    (replicate 24 x00) _). vm_compute. discriminate.
Defined.
