(* ===== verification/Opening.v ===== *)
(** * Channel-opening engine (RFC 4254 section 5.1)

    Models crates/tatami_ssh_connection/src/opening.rs: the engine that owns
    channels between "someone wants a channel" and "both sides agree it
    exists". A method taking [&mut self] is a function from the engine to the
    engine after the call and its result, in [option]: [None] is a Rust panic
    (an index out of bounds, a counter underflow, [unreachable!]). That no
    sequence of commands and peer messages reaches a panic is a theorem of
    OpeningProofs.v. *)

From S2P Require Import Prelude WireError NameList Primitives Messages.

(** ** Identities and data *)

(* conn/opening.rs:84-84 LocalNumber *)
Inductive LocalNumber : Type := Local (n : Z).

(* conn/opening.rs:88-88 PeerNumber *)
Inductive PeerNumber : Type := Peer (n : Z).

(* conn/opening.rs:92-95 ChannelHandle *)
Record ChannelHandle : Type := mkHandle { index : Z; generation : Z }.

(* conn/opening.rs:99-104 Credit *)
Record Credit : Type := mkCredit { initial_window_size : Z; maximum_packet_size : Z }.

(* conn/opening.rs:108-118 OpeningLimits *)
Record OpeningLimits : Type := mkLimits {
  max_pending_outgoing : Z;
  max_pending_incoming : Z;
  max_channels : Z;
  max_tombstones : Z
}.

(* conn/opening.rs:121-128 OpeningLimits::default *)
Definition OpeningLimits_default : OpeningLimits := mkLimits 16 16 256 64.

(* conn/opening.rs:133-140 OpenParams *)
Record OpenParams : Type := mkOpenParams {
  op_channel_type : bytes;
  op_local : Credit;
  op_type_specific : bytes
}.

(* conn/opening.rs:144-149 AcceptParams *)
Record AcceptParams : Type := mkAcceptParams {
  ap_local : Credit;
  ap_type_specific : bytes
}.

(* conn/opening.rs:153-160 Phase *)
Inductive Phase : Type := PhPendingOutgoing | PhPendingIncoming | PhEstablished.

(* conn/opening.rs:235-249 LateReply *)
Inductive LateReply : Type :=
| LateConfirmed (peer_number : PeerNumber) (peer : Credit)
| LateRefused (reason_code : Z).

(* conn/opening.rs:164-231 Event *)
Inductive Event : Type :=
| EvIncomingOpen (handle : ChannelHandle) (channel_type : bytes) (peer_number : PeerNumber)
    (peer : Credit) (type_specific : bytes)
| EvEstablished (handle : ChannelHandle) (channel_type : bytes) (local_number : LocalNumber)
    (peer_number : PeerNumber) (local peer : Credit) (peer_type_specific : bytes)
| EvRefused (handle : ChannelHandle) (reason_code : Z) (description language_tag : bytes)
| EvIncomingRefusedByLimit (peer_number : PeerNumber) (channel_type : bytes)
| EvLateReply (local_number : LocalNumber) (reply : LateReply)
| EvTransportLost (handle : ChannelHandle) (phase : Phase).

(* conn/opening.rs:253-287 Outgoing *)
Inductive Outgoing : Type :=
| OutOpen (channel_type : bytes) (sender_channel : LocalNumber) (local : Credit)
    (type_specific : bytes)
| OutOpenConfirmation (recipient_channel : PeerNumber) (sender_channel : LocalNumber)
    (local : Credit) (type_specific : bytes)
| OutOpenFailure (recipient_channel : PeerNumber) (reason_code : Z)
    (description language_tag : bytes).

(* conn/opening.rs:338-363 Violation *)
Inductive Violation : Type :=
| UnknownRecipient (recipient : Z)
| DuplicateReply (local_number : LocalNumber)
| ReplyToIncoming (recipient : Z)
| DuplicatePeerNumber (peer_number : PeerNumber).

(* conn/opening.rs:392-399 OpenError *)
Inductive OpenError : Type := TooManyPendingOutgoing | TooManyChannels | NumbersExhausted.

(* conn/opening.rs:415-424 HandleError *)
Inductive HandleError : Type := Stale | WrongPhase (actual : Phase).

(* conn/opening.rs:438-453 State *)
Inductive State : Type :=
| StPendingOutgoing (channel_type : bytes) (local_number : LocalNumber) (local : Credit)
| StPendingIncoming (channel_type : bytes) (peer_number : PeerNumber) (peer : Credit)
| StEstablished (local_number : LocalNumber) (peer_number : PeerNumber).

(* conn/opening.rs:928-931 ReplyTarget *)
Inductive ReplyTarget : Type :=
| TgPending (handle : ChannelHandle)
| TgTombstone (n : LocalNumber).

#[export] Instance LocalNumber_eq_decision : EqDecision LocalNumber.
Proof. solve_decision. Defined.

#[export] Instance PeerNumber_eq_decision : EqDecision PeerNumber.
Proof. solve_decision. Defined.

#[export] Instance ChannelHandle_eq_decision : EqDecision ChannelHandle.
Proof. solve_decision. Defined.

#[export] Instance Credit_eq_decision : EqDecision Credit.
Proof. solve_decision. Defined.

#[export] Instance State_eq_decision : EqDecision State.
Proof. solve_decision. Defined.

(* conn/opening.rs:456-462 State::phase *)
Definition state_phase (s : State) : Phase :=
  match s with
  | StPendingOutgoing _ _ _ => PhPendingOutgoing
  | StPendingIncoming _ _ _ => PhPendingIncoming
  | StEstablished _ _ => PhEstablished
  end.

(* conn/opening.rs:291-332 Outgoing::encode *)
Definition outgoing_encode (self : Outgoing) (out : bytes) : bytes * result Z EncodeError :=
  match self with
  | OutOpen channel_type (Local sender_channel) local type_specific =>
      ChannelOpen.encode (ChannelOpen.mk channel_type sender_channel
        (initial_window_size local) (maximum_packet_size local) type_specific) out
  | OutOpenConfirmation (Peer recipient_channel) (Local sender_channel) local type_specific =>
      ChannelOpenConfirmation.encode (ChannelOpenConfirmation.mk recipient_channel sender_channel
        (initial_window_size local) (maximum_packet_size local) type_specific) out
  | OutOpenFailure (Peer recipient_channel) reason_code description language_tag =>
      ChannelOpenFailure.encode (ChannelOpenFailure.mk recipient_channel reason_code
        description language_tag) out
  end.

(** ** The engine *)

(** [index as u32] and [wrapping_add] on [u32]. *)
Definition as_u32 (n : Z) : Z := n mod 2 ^ 32.
Definition wrapping_add_u32 (a b : Z) : Z := (a + b) mod 2 ^ 32.

(* conn/opening.rs:466-469 Slot *)
Record Slot : Type := mkSlot { slot_generation : Z; slot_state : option State }.

(* conn/opening.rs:473-484 OpeningEngine *)
Record OpeningEngine : Type := mkEngine {
  limits : OpeningLimits;
  slots : list Slot;
  free : list Z;
  next_local : Z;
  numbers_exhausted : bool;
  tombstones : list LocalNumber;
  outgoing : list Outgoing;
  pending_outgoing : Z;
  pending_incoming : Z;
  live : Z
}.

Definition set_slots (x : list Slot) (e : OpeningEngine) : OpeningEngine :=
  mkEngine (limits e) x (free e) (next_local e) (numbers_exhausted e) (tombstones e)
    (outgoing e) (pending_outgoing e) (pending_incoming e) (live e).
Definition set_free (x : list Z) (e : OpeningEngine) : OpeningEngine :=
  mkEngine (limits e) (slots e) x (next_local e) (numbers_exhausted e) (tombstones e)
    (outgoing e) (pending_outgoing e) (pending_incoming e) (live e).
Definition set_next_local (x : Z) (e : OpeningEngine) : OpeningEngine :=
  mkEngine (limits e) (slots e) (free e) x (numbers_exhausted e) (tombstones e)
    (outgoing e) (pending_outgoing e) (pending_incoming e) (live e).
Definition set_numbers_exhausted (x : bool) (e : OpeningEngine) : OpeningEngine :=
  mkEngine (limits e) (slots e) (free e) (next_local e) x (tombstones e)
    (outgoing e) (pending_outgoing e) (pending_incoming e) (live e).
Definition set_tombstones (x : list LocalNumber) (e : OpeningEngine) : OpeningEngine :=
  mkEngine (limits e) (slots e) (free e) (next_local e) (numbers_exhausted e) x
    (outgoing e) (pending_outgoing e) (pending_incoming e) (live e).
Definition set_outgoing (x : list Outgoing) (e : OpeningEngine) : OpeningEngine :=
  mkEngine (limits e) (slots e) (free e) (next_local e) (numbers_exhausted e) (tombstones e)
    x (pending_outgoing e) (pending_incoming e) (live e).
Definition set_pending_outgoing (x : Z) (e : OpeningEngine) : OpeningEngine :=
  mkEngine (limits e) (slots e) (free e) (next_local e) (numbers_exhausted e) (tombstones e)
    (outgoing e) x (pending_incoming e) (live e).
Definition set_pending_incoming (x : Z) (e : OpeningEngine) : OpeningEngine :=
  mkEngine (limits e) (slots e) (free e) (next_local e) (numbers_exhausted e) (tombstones e)
    (outgoing e) (pending_outgoing e) x (live e).
Definition set_live (x : Z) (e : OpeningEngine) : OpeningEngine :=
  mkEngine (limits e) (slots e) (free e) (next_local e) (numbers_exhausted e) (tombstones e)
    (outgoing e) (pending_outgoing e) (pending_incoming e) x.

(** [self.outgoing.push_back(m)]. *)
Definition push_outgoing (m : Outgoing) (e : OpeningEngine) : OpeningEngine :=
  set_outgoing (outgoing e ++ [m]) e.

(** [x -= 1] on an unsigned counter; underflow panics. *)
Definition decr (x : Z) : option Z := checked_sub x 1.

(** [Vec::pop]. *)
Definition vec_pop {A} (l : list A) : option (list A * A) :=
  match last l with
  | Some x => Some (take (length l - 1) l, x)
  | None => None
  end.

(* conn/opening.rs:489-502 OpeningEngine::new *)
Definition new (l : OpeningLimits) : OpeningEngine := mkEngine l [] [] 0 false [] [] 0 0 0.

(* conn/opening.rs:505-507 OpeningEngine::next_outgoing *)
Definition next_outgoing (self : OpeningEngine) : OpeningEngine * option Outgoing :=
  match outgoing self with
  | m :: ms => (set_outgoing ms self, Some m)
  | [] => (self, None)
  end.

(* conn/opening.rs:907-913 OpeningEngine::get *)
Definition get (self : OpeningEngine) (handle : ChannelHandle) : option State :=
  let* slot := znth (index handle) (slots self) in
  if slot_generation slot =? generation handle then slot_state slot else None.

(* conn/opening.rs:529-531 OpeningEngine::phase *)
Definition phase (self : OpeningEngine) (handle : ChannelHandle) : option Phase :=
  state_phase <$> get self handle.

(* conn/opening.rs:915-917 OpeningEngine::set *)
Definition set (handle : ChannelHandle) (state : State) (self : OpeningEngine) :
    option OpeningEngine :=
  let* slot := znth (index handle) (slots self) in
  Some (set_slots (<[Z.to_nat (index handle) := mkSlot (slot_generation slot) (Some state)]>
          (slots self)) self).

(* conn/opening.rs:919-925 OpeningEngine::remove *)
Definition remove (handle : ChannelHandle) (self : OpeningEngine) : option OpeningEngine :=
  let* slot := znth (index handle) (slots self) in
  let self := set_slots (<[Z.to_nat (index handle) :=
      mkSlot (wrapping_add_u32 (slot_generation slot) 1) None]> (slots self)) self in
  let self := set_free (free self ++ [index handle]) self in
  let* l := decr (live self) in
  Some (set_live l self).

(* conn/opening.rs:886-905 OpeningEngine::insert *)
Definition insert (state : State) (self : OpeningEngine) : option (OpeningEngine * ChannelHandle) :=
  let self := set_live (live self + 1) self in
  match vec_pop (free self) with
  | Some (free', index) =>
      let self := set_free free' self in
      let* slot := znth index (slots self) in
      Some (set_slots (<[Z.to_nat index := mkSlot (slot_generation slot) (Some state)]>
              (slots self)) self,
            mkHandle index (slot_generation slot))
  | None =>
      let index := as_u32 (zlen (slots self)) in
      Some (set_slots (slots self ++ [mkSlot 0 (Some state)]) self, mkHandle index 0)
  end.

(* conn/opening.rs:874-884 OpeningEngine::allocate_number *)
Definition allocate_number (self : OpeningEngine) : OpeningEngine * result LocalNumber OpenError :=
  if numbers_exhausted self then (self, Err NumbersExhausted)
  else
    let n := next_local self in
    (match checked_add_u32 n 1 with
     | Some next => set_next_local next self
     | None => set_numbers_exhausted true self
     end, Ok (Local n)).

(* conn/opening.rs:866-872 OpeningEngine::peer_number_in_use *)
Definition peer_number_in_use (self : OpeningEngine) (peer_number : PeerNumber) : bool :=
  existsb (fun s => match slot_state s with
                    | Some (StPendingIncoming _ p _) | Some (StEstablished _ p) =>
                        bool_decide (p = peer_number)
                    | _ => false
                    end) (slots self).

(* conn/opening.rs:826-841 OpeningEngine::locate_reply (slot scan) *)
Fixpoint locate_in_slots (wanted : LocalNumber) (i : Z) (l : list Slot) :
    option (result ReplyTarget Violation) :=
  match l with
  | [] => None
  | slot :: l' =>
      match slot_state slot with
      | Some (StPendingOutgoing _ local_number _) =>
          if bool_decide (local_number = wanted)
          then Some (Ok (TgPending (mkHandle (as_u32 i) (slot_generation slot))))
          else locate_in_slots wanted (i + 1) l'
      | Some (StEstablished local_number _) =>
          if bool_decide (local_number = wanted) then Some (Err (DuplicateReply wanted))
          else locate_in_slots wanted (i + 1) l'
      | _ => locate_in_slots wanted (i + 1) l'
      end
  end.

(* conn/opening.rs:824-854 OpeningEngine::locate_reply *)
Definition locate_reply (self : OpeningEngine) (recipient : Z) : result ReplyTarget Violation :=
  let wanted := Local recipient in
  match locate_in_slots wanted 0 (slots self) with
  | Some r => r
  | None =>
      if bool_decide (wanted ∈ tombstones self) then Ok (TgTombstone wanted)
      else if existsb (fun s => match slot_state s with
                                | Some (StPendingIncoming _ (Peer p) _) => p =? recipient
                                | _ => false
                                end) (slots self)
              && (next_local self <=? recipient)
      then Err (ReplyToIncoming recipient)
      else Err (UnknownRecipient recipient)
  end.

(* conn/opening.rs:857-864 OpeningEngine::consume_reply *)
Definition consume_reply (target : ReplyTarget) (self : OpeningEngine) : OpeningEngine :=
  match target with
  | TgTombstone n =>
      match position (fun t => bool_decide (t = n)) (tombstones self) with
      | Some pos =>
          set_tombstones (ztake pos (tombstones self) ++ zdrop (pos + 1) (tombstones self)) self
      | None => self
      end
  | TgPending _ => self
  end.

(** ** Application commands *)

(* conn/opening.rs:537-558 OpeningEngine::open *)
Definition open (params : OpenParams) (self : OpeningEngine) :
    option (OpeningEngine * result ChannelHandle OpenError) :=
  if max_pending_outgoing (limits self) <=? pending_outgoing self then
    Some (self, Err TooManyPendingOutgoing)
  else if max_channels (limits self) <=? live self then Some (self, Err TooManyChannels)
  else match allocate_number self with
  | (self, Err e) => Some (self, Err e)
  | (self, Ok local_number) =>
      let* (self, handle) :=
        insert (StPendingOutgoing (op_channel_type params) local_number (op_local params)) self in
      let self := set_pending_outgoing (pending_outgoing self + 1) self in
      let self := push_outgoing (OutOpen (op_channel_type params) local_number (op_local params)
                                   (op_type_specific params)) self in
      Some (self, Ok handle)
  end.

(* conn/opening.rs:575-577 OpeningEngine::cancel (the trimming loop) *)
Fixpoint trim_tombstones (max : Z) (l : list LocalNumber) : list LocalNumber :=
  match l with
  | [] => []
  | _ :: l' => if max <? zlen l then trim_tombstones max l' else l
  end.

(* conn/opening.rs:563-579 OpeningEngine::cancel *)
Definition cancel (handle : ChannelHandle) (self : OpeningEngine) :
    option (OpeningEngine * result unit HandleError) :=
  match get self handle with
  | None => Some (self, Err Stale)
  | Some (StPendingOutgoing _ local_number _) =>
      let* self := remove handle self in
      let* po := decr (pending_outgoing self) in
      let self := set_pending_outgoing po self in
      let self := set_tombstones (tombstones self ++ [local_number]) self in
      let self := set_tombstones (trim_tombstones (max_tombstones (limits self)) (tombstones self))
                    self in
      Some (self, Ok tt)
  | Some state => Some (self, Err (WrongPhase (state_phase state)))
  end.

(* conn/opening.rs:659-674 OpeningEngine::refuse_with *)
Definition refuse_with (handle : ChannelHandle) (peer_number : PeerNumber) (reason_code : Z)
    (description : bytes) (self : OpeningEngine) : option OpeningEngine :=
  let* self := remove handle self in
  let* pi := decr (pending_incoming self) in
  let self := set_pending_incoming pi self in
  Some (push_outgoing (OutOpenFailure peer_number reason_code description []) self).

(* conn/opening.rs:583-639 OpeningEngine::accept *)
Definition accept (handle : ChannelHandle) (params : AcceptParams) (self : OpeningEngine) :
    option (OpeningEngine * result Event HandleError) :=
  match get self handle with
  | None => Some (self, Err Stale)
  | Some (StPendingIncoming channel_type peer_number peer) =>
      match allocate_number self with
      | (self, Err _) =>
          let* self := refuse_with handle peer_number open_failure_reason.RESOURCE_SHORTAGE
                         (bstr "channel numbers exhausted") self in
          Some (self, Err Stale)
      | (self, Ok local_number) =>
          let* self := set handle (StEstablished local_number peer_number) self in
          let* pi := decr (pending_incoming self) in
          let self := set_pending_incoming pi self in
          let self := push_outgoing (OutOpenConfirmation peer_number local_number (ap_local params)
                                       (ap_type_specific params)) self in
          Some (self, Ok (EvEstablished handle channel_type local_number peer_number
                            (ap_local params) peer []))
      end
  | Some state => Some (self, Err (WrongPhase (state_phase state)))
  end.

(* conn/opening.rs:642-657 OpeningEngine::refuse *)
Definition refuse (handle : ChannelHandle) (reason_code : Z) (description : bytes)
    (self : OpeningEngine) : option (OpeningEngine * result unit HandleError) :=
  match get self handle with
  | None => Some (self, Err Stale)
  | Some (StPendingIncoming _ peer_number _) =>
      let* self := refuse_with handle peer_number reason_code description self in
      Some (self, Ok tt)
  | Some state => Some (self, Err (WrongPhase (state_phase state)))
  end.

(** The loop of [transport_lost] over the slots from index [i]: the slots after
    it, the events and the freed indices. *)
(* conn/opening.rs:680-693 OpeningEngine::transport_lost (the loop) *)
Fixpoint lose_slots (i : Z) (l : list Slot) : list Slot * list Event * list Z :=
  match l with
  | [] => ([], [], [])
  | slot :: l' =>
      let '(l', evs, fr) := lose_slots (i + 1) l' in
      match slot_state slot with
      | Some state =>
          (mkSlot (wrapping_add_u32 (slot_generation slot) 1) None :: l',
           EvTransportLost (mkHandle (as_u32 i) (slot_generation slot)) (state_phase state) :: evs,
           as_u32 i :: fr)
      | None => (slot :: l', evs, fr)
      end
  end.

(* conn/opening.rs:679-699 OpeningEngine::transport_lost *)
Definition transport_lost (self : OpeningEngine) : OpeningEngine * list Event :=
  let '(slots', events, freed) := lose_slots 0 (slots self) in
  let self := set_slots slots' self in
  let self := set_free (free self ++ freed) self in
  let self := set_pending_outgoing 0 self in
  let self := set_pending_incoming 0 self in
  let self := set_live 0 self in
  (set_outgoing [] self, events).

(** ** Peer messages *)

(* conn/opening.rs:704-740 OpeningEngine::handle_open *)
Definition handle_open (msg : ChannelOpen.t) (self : OpeningEngine) :
    option (OpeningEngine * result Event Violation) :=
  let peer_number := Peer (ChannelOpen.sender_channel msg) in
  if peer_number_in_use self peer_number then Some (self, Err (DuplicatePeerNumber peer_number))
  else
    let peer := mkCredit (ChannelOpen.initial_window_size msg)
                         (ChannelOpen.maximum_packet_size msg) in
    if (max_pending_incoming (limits self) <=? pending_incoming self)
       || (max_channels (limits self) <=? live self) then
      let self := push_outgoing (OutOpenFailure peer_number open_failure_reason.RESOURCE_SHORTAGE
                                   (bstr "too many pending channels") []) self in
      Some (self, Ok (EvIncomingRefusedByLimit peer_number (ChannelOpen.channel_type msg)))
    else
      let* (self, handle) :=
        insert (StPendingIncoming (ChannelOpen.channel_type msg) peer_number peer) self in
      let self := set_pending_incoming (pending_incoming self + 1) self in
      Some (self, Ok (EvIncomingOpen handle (ChannelOpen.channel_type msg) peer_number peer
                        (ChannelOpen.type_specific msg))).

(* conn/opening.rs:743-793 OpeningEngine::handle_open_confirmation *)
Definition handle_open_confirmation (msg : ChannelOpenConfirmation.t) (self : OpeningEngine) :
    option (OpeningEngine * result Event Violation) :=
  let peer_number := Peer (ChannelOpenConfirmation.sender_channel msg) in
  let peer := mkCredit (ChannelOpenConfirmation.initial_window_size msg)
                       (ChannelOpenConfirmation.maximum_packet_size msg) in
  match locate_reply self (ChannelOpenConfirmation.recipient_channel msg) with
  | Err v => Some (self, Err v)
  | Ok target =>
      if peer_number_in_use self peer_number then Some (self, Err (DuplicatePeerNumber peer_number))
      else
        let self := consume_reply target self in
        match target with
        | TgPending handle =>
            match get self handle with
            | Some (StPendingOutgoing channel_type local_number local) =>
                let* self := set handle (StEstablished local_number peer_number) self in
                let* po := decr (pending_outgoing self) in
                let self := set_pending_outgoing po self in
                Some (self, Ok (EvEstablished handle channel_type local_number peer_number local peer
                                  (ChannelOpenConfirmation.type_specific msg)))
            | _ => None
            end
        | TgTombstone local_number =>
            Some (self, Ok (EvLateReply local_number (LateConfirmed peer_number peer)))
        end
  end.

(* conn/opening.rs:796-819 OpeningEngine::handle_open_failure *)
Definition handle_open_failure (msg : ChannelOpenFailure.t) (self : OpeningEngine) :
    option (OpeningEngine * result Event Violation) :=
  match locate_reply self (ChannelOpenFailure.recipient_channel msg) with
  | Err v => Some (self, Err v)
  | Ok target =>
      let self := consume_reply target self in
      match target with
      | TgPending handle =>
          let* self := remove handle self in
          let* po := decr (pending_outgoing self) in
          let self := set_pending_outgoing po self in
          Some (self, Ok (EvRefused handle (ChannelOpenFailure.reason_code msg)
                            (ChannelOpenFailure.description msg)
                            (ChannelOpenFailure.language_tag msg)))
      | TgTombstone local_number =>
          Some (self, Ok (EvLateReply local_number
                            (LateRefused (ChannelOpenFailure.reason_code msg))))
      end
  end.

(** ** Sequences of operations *)

(** The engine's interface as one sum: what the application and the binding
    can call, with what each call returns. *)
Inductive Command : Type :=
| CmdNextOutgoing
| CmdOpen (params : OpenParams)
| CmdCancel (handle : ChannelHandle)
| CmdAccept (handle : ChannelHandle) (params : AcceptParams)
| CmdRefuse (handle : ChannelHandle) (reason_code : Z) (description : bytes)
| CmdTransportLost
| CmdHandleOpen (msg : ChannelOpen.t)
| CmdHandleConfirmation (msg : ChannelOpenConfirmation.t)
| CmdHandleFailure (msg : ChannelOpenFailure.t).

Inductive Outcome : Type :=
| OutNext (m : option Outgoing)
| OutHandle (r : result ChannelHandle OpenError)
| OutUnit (r : result unit HandleError)
| OutAccept (r : result Event HandleError)
| OutEvents (evs : list Event)
| OutPeer (r : result Event Violation).

Definition exec (c : Command) (e : OpeningEngine) : option (OpeningEngine * Outcome) :=
  match c with
  | CmdNextOutgoing => let '(e', m) := next_outgoing e in Some (e', OutNext m)
  | CmdOpen p => let* (e', r) := open p e in Some (e', OutHandle r)
  | CmdCancel h => let* (e', r) := cancel h e in Some (e', OutUnit r)
  | CmdAccept h p => let* (e', r) := accept h p e in Some (e', OutAccept r)
  | CmdRefuse h c d => let* (e', r) := refuse h c d e in Some (e', OutUnit r)
  | CmdTransportLost => let '(e', evs) := transport_lost e in Some (e', OutEvents evs)
  | CmdHandleOpen m => let* (e', r) := handle_open m e in Some (e', OutPeer r)
  | CmdHandleConfirmation m => let* (e', r) := handle_open_confirmation m e in Some (e', OutPeer r)
  | CmdHandleFailure m => let* (e', r) := handle_open_failure m e in Some (e', OutPeer r)
  end.

Fixpoint run (cs : list Command) (e : OpeningEngine) : option (OpeningEngine * list Outcome) :=
  match cs with
  | [] => Some (e, [])
  | c :: cs' =>
      let* (e1, o) := exec c e in
      let* (e2, os) := run cs' e1 in
      Some (e2, o :: os)
  end.
