(* ===== verification/OpeningProofs.v ===== *)
(** * The channel-opening engine: invariant, absence of panics, refinement

    The invariant [Inv] of the engine of Opening.v, its preservation by every
    operation, the abstract specification [astep] (a table of channels indexed
    by handles) the engine refines, and the properties that follow. *)

From S2P Require Import Prelude WireError NameList Primitives Messages Opening.

(** ** Projections of the slot table *)

(** What [f] says about each live slot, in slot order. *)
Definition proj {X} (f : State -> option X) (l : list Slot) : list X :=
  omap (fun s => slot_state s ≫= f) l.

Definition state_local (s : State) : option LocalNumber :=
  match s with
  | StPendingOutgoing _ n _ | StEstablished n _ => Some n
  | StPendingIncoming _ _ _ => None
  end.

Definition state_peer (s : State) : option PeerNumber :=
  match s with
  | StPendingIncoming _ p _ | StEstablished _ p => Some p
  | StPendingOutgoing _ _ _ => None
  end.

Definition is_po (s : State) : option unit :=
  match s with StPendingOutgoing _ _ _ => Some tt | _ => None end.

Definition is_pi (s : State) : option unit :=
  match s with StPendingIncoming _ _ _ => Some tt | _ => None end.

(** The local numbers that must never be handed out again: those of live
    channels and the remembered cancelled ones. *)
Definition keys (e : OpeningEngine) : list LocalNumber :=
  proj state_local (slots e) ++ tombstones e.

(** The numbers [allocate_number] has handed out so far. *)
Definition n_issued (e : OpeningEngine) : Z :=
  next_local e + (if numbers_exhausted e then 1 else 0).

Definition issued (n : Z) (l : LocalNumber) : Prop := let '(Local i) := l in 0 <= i < n.

(** Limits the engine can honour: handles carry 32-bit slot indices. *)
Definition limits_ok (l : OpeningLimits) : Prop :=
  0 <= max_pending_outgoing l /\ 0 <= max_pending_incoming l /\
  0 <= max_channels l <= 2 ^ 32 /\ 0 <= max_tombstones l.

Record Inv (e : OpeningEngine) : Prop := mkInv {
  inv_limits : limits_ok (limits e);
  inv_len : zlen (slots e) <= max_channels (limits e);
  inv_gen : Forall (fun s => is_u32 (slot_generation s)) (slots e);
  inv_free_nodup : NoDup (free e);
  inv_free : forall i, i ∈ free e <->
    0 <= i /\ exists s, slots e !! Z.to_nat i = Some s /\ slot_state s = None;
  inv_live : live e = zlen (proj Some (slots e));
  inv_po : pending_outgoing e = zlen (proj is_po (slots e));
  inv_pi : pending_incoming e = zlen (proj is_pi (slots e));
  inv_po_max : pending_outgoing e <= max_pending_outgoing (limits e);
  inv_pi_max : pending_incoming e <= max_pending_incoming (limits e);
  inv_next : 0 <= next_local e <= U32_MAX /\ (numbers_exhausted e = true -> next_local e = U32_MAX);
  inv_keys : NoDup (keys e) /\ Forall (issued (n_issued e)) (keys e);
  inv_peers : NoDup (proj state_peer (slots e));
  inv_tombs : zlen (tombstones e) <= max_tombstones (limits e)
}.

Section proj.
Context {X : Type} (f : State -> option X).

Lemma proj_app l k : proj f (l ++ k) = proj f l ++ proj f k.
Proof. apply omap_app. Qed.

Lemma proj_cons s l :
  proj f (s :: l) = option_list (slot_state s ≫= f) ++ proj f l.
Proof. unfold proj. simpl. by destruct (slot_state s ≫= f). Qed.

Lemma proj_mid a s b :
  proj f (a ++ s :: b) = proj f a ++ option_list (slot_state s ≫= f) ++ proj f b.
Proof. by rewrite proj_app, proj_cons. Qed.

Lemma elem_of_proj x l :
  x ∈ proj f l <-> exists s st, s ∈ l /\ slot_state s = Some st /\ f st = Some x.
Proof.
  unfold proj. rewrite list_elem_of_omap. setoid_rewrite bind_Some. naive_solver.
Qed.
End proj.

Create Rewrite HintDb proj.
#[export] Hint Rewrite @proj_app @proj_cons @proj_mid : proj.

Lemma proj_Some_len l : zlen (proj Some l) <= zlen l.
Proof.
  induction l as [|s l IH]; [done|]. rewrite proj_cons.
  destruct (slot_state s); simpl; zlia.
Qed.

Lemma proj_Some_full l :
  (forall s, s ∈ l -> slot_state s <> None) -> zlen (proj Some l) = zlen l.
Proof.
  induction l as [|s l IH]; intros H; [done|]. rewrite proj_cons.
  destruct (slot_state s) as [st|] eqn:E.
  - simpl. rewrite !zlen_cons, IH; [done|]. intros s' Hs'. apply H. by constructor.
  - exfalso. apply (H s); [by constructor|done].
Qed.

Lemma slots_split (l : list Slot) i s :
  l !! i = Some s ->
  exists a b, l = a ++ s :: b /\ length a = i /\ forall s', <[i := s']> l = a ++ s' :: b.
Proof.
  intros H. exists (take i l), (drop (S i) l).
  pose proof (lookup_lt_Some _ _ _ H). split_and!.
  - symmetry. by apply take_drop_middle.
  - rewrite length_take. lia.
  - intros s'. by apply insert_take_drop.
Qed.

Lemma get_split e h st :
  get e h = Some st ->
  exists a b, slots e = a ++ mkSlot (generation h) (Some st) :: b /\
    length a = Z.to_nat (index h) /\ 0 <= index h /\
    slots e !! Z.to_nat (index h) = Some (mkSlot (generation h) (Some st)) /\
    forall s', <[Z.to_nat (index h) := s']> (slots e) = a ++ s' :: b.
Proof.
  unfold get. intros (s & [Hi Hs]%znth_Some & H)%bind_Some.
  destruct (Z.eqb_spec (slot_generation s) (generation h)) as [Hg|]; [|done].
  assert (s = mkSlot (generation h) (Some st)) as -> by (destruct s; simpl in *; congruence).
  destruct (slots_split _ _ _ Hs) as (a & b & Hab & Hl & Hins). by exists a, b.
Qed.

Lemma vec_pop_None {A} (l : list A) : vec_pop l = None <-> l = [].
Proof.
  unfold vec_pop. destruct (last l) eqn:E; [|by rewrite last_None in E].
  split; [done|]. by intros ->.
Qed.

Lemma vec_pop_Some {A} (l l' : list A) x : vec_pop l = Some (l', x) -> l = l' ++ [x].
Proof.
  unfold vec_pop. destruct (last l) as [y|] eqn:E; [|done].
  apply last_Some in E as [k ->]. intros [= <- <-]. f_equal.
  rewrite length_app. simpl. replace (length k + 1 - 1)%nat with (length k) by lia.
  by rewrite take_app_length.
Qed.

Lemma checked_sub_1 x : 0 < x -> decr x = Some (x - 1).
Proof. intros. unfold decr, checked_sub. by destruct (Z.leb_spec 1 x); [|lia]. Qed.

(** ** The free list *)

Definition free_ok (fr : list Z) (l : list Slot) : Prop :=
  NoDup fr /\
  forall i, i ∈ fr <-> 0 <= i /\ exists s, l !! Z.to_nat i = Some s /\ slot_state s = None.

Lemma free_ok_keep fr l n s s' :
  free_ok fr l -> l !! n = Some s -> slot_state s <> None -> slot_state s' <> None ->
  free_ok fr (<[n := s']> l).
Proof.
  intros [Hn Hf] Hs H1 H2. split; [done|]. intros i. rewrite Hf.
  destruct (decide (Z.to_nat i = n)) as [<-|Hne].
  - rewrite list_lookup_insert_eq by (by eapply lookup_lt_Some). naive_solver.
  - by rewrite list_lookup_insert_ne.
Qed.

Lemma free_ok_release fr l i s s' :
  free_ok fr l -> 0 <= i -> l !! Z.to_nat i = Some s -> slot_state s <> None ->
  slot_state s' = None -> free_ok (fr ++ [i]) (<[Z.to_nat i := s']> l).
Proof.
  intros [Hn Hf] Hi Hs H1 H2. pose proof (lookup_lt_Some _ _ _ Hs). split.
  - apply NoDup_app. split_and!; [done| |apply NoDup_singleton].
    intros x Hx ->%list_elem_of_singleton. apply Hf in Hx. naive_solver.
  - intros j. rewrite elem_of_app, list_elem_of_singleton, Hf.
    destruct (decide (j = i)) as [->|Hne].
    + rewrite list_lookup_insert_eq by done. naive_solver.
    + split.
      * intros [(Hj & x & Hx & Hx2)|?]; [|done]. split; [done|]. exists x.
        rewrite list_lookup_insert_ne by lia. done.
      * intros (Hj & x & Hx & Hx2). left. split; [done|]. exists x.
        rewrite list_lookup_insert_ne in Hx by lia. done.
Qed.

Lemma free_ok_take fr l i s s' :
  free_ok (fr ++ [i]) l -> l !! Z.to_nat i = Some s -> slot_state s' <> None ->
  free_ok fr (<[Z.to_nat i := s']> l).
Proof.
  intros [Hn Hf] Hs H1. pose proof (lookup_lt_Some _ _ _ Hs).
  apply NoDup_app in Hn as (Hn & Hni & _). split; [done|].
  assert (0 <= i) as Hi by (apply (Hf i); apply elem_of_app; right; by apply list_elem_of_singleton).
  intros j. destruct (decide (j = i)) as [->|Hne].
  - rewrite list_lookup_insert_eq by done. split; [|naive_solver].
    intros Hj. exfalso. apply (Hni i); [done|]. by apply list_elem_of_singleton.
  - specialize (Hf j). rewrite elem_of_app, list_elem_of_singleton in Hf. split.
    + intros Hj. destruct Hf as [Hf _]. destruct Hf as (Hj0 & x & Hx & Hx2); [by left|].
      split; [done|]. exists x. rewrite list_lookup_insert_ne by lia. done.
    + intros (Hj & x & Hx & Hx2). rewrite list_lookup_insert_ne in Hx by lia.
      destruct Hf as [_ Hf]. destruct Hf as [?|?]; [|done|done]. eauto.
Qed.

Lemma free_ok_push l s :
  free_ok [] l -> slot_state s <> None -> free_ok [] (l ++ [s]).
Proof.
  intros [Hn Hf] H1. split; [done|]. intros i. split; [by intros ?%elem_of_nil|].
  intros (Hi & x & Hx & Hx2). apply lookup_app_Some in Hx as [Hx|[Hge Hx]].
  - apply Hf. eauto.
  - destruct (Z.to_nat i - length l)%nat; simpl in Hx; [naive_solver|done].
Qed.

Lemma free_ok_empty_full l s : free_ok [] l -> s ∈ l -> slot_state s <> None.
Proof.
  intros [_ Hf] [n Hn]%list_elem_of_lookup Hnone.
  apply (not_elem_of_nil (A:=Z) (Z.of_nat n)). apply Hf. split; [lia|].
  exists s. by rewrite Nat2Z.id.
Qed.

Lemma inv_free_ok e : Inv e -> free_ok (free e) (slots e).
Proof. intros H. split; [apply (inv_free_nodup e H)|apply (inv_free e H)]. Qed.

(** ** The elementary operations on an engine satisfying the invariant *)

Lemma wrapping_add_u32_range a b : is_u32 (wrapping_add_u32 a b).
Proof. unfold wrapping_add_u32, is_u32, U32_MAX. pose proof (Z.mod_pos_bound (a + b) (2 ^ 32)). lia. Qed.

Lemma live_pos e h st : Inv e -> get e h = Some st -> 0 < live e.
Proof.
  intros HI (a & b & Hs & _)%get_split. rewrite (inv_live e HI), Hs, proj_mid. simpl. zlia.
Qed.

Definition freed_slot (h : ChannelHandle) : Slot :=
  mkSlot (wrapping_add_u32 (generation h) 1) None.

Definition removed (h : ChannelHandle) (e : OpeningEngine) : OpeningEngine :=
  set_live (live e - 1)
    (set_free (free e ++ [index h])
       (set_slots (<[Z.to_nat (index h) := freed_slot h]> (slots e)) e)).

Lemma remove_ok e h st : Inv e -> get e h = Some st -> remove h e = Some (removed h e).
Proof.
  intros HI Hg. pose proof (live_pos e h st HI Hg).
  destruct (get_split e h st Hg) as (a & b & Hs & Hl & Hi & Hlk & Hins).
  unfold remove. rewrite znth_nonneg, Hlk by done. simpl. rewrite checked_sub_1 by (simpl; lia). done.
Qed.

Definition updated (h : ChannelHandle) (st : State) (e : OpeningEngine) : OpeningEngine :=
  set_slots (<[Z.to_nat (index h) := mkSlot (generation h) (Some st)]> (slots e)) e.

Lemma set_ok e h st st' : get e h = Some st -> set h st' e = Some (updated h st' e).
Proof.
  intros Hg. destruct (get_split e h st Hg) as (a & b & Hs & Hl & Hi & Hlk & Hins).
  unfold set. rewrite znth_nonneg, Hlk by done. done.
Qed.

(** [insert] reuses a free slot or appends one; either way the new handle was
    unused. *)
Lemma insert_ok e st :
  Inv e -> live e < max_channels (limits e) ->
  exists l' fr' h,
    insert st e = Some (set_slots l' (set_free fr' (set_live (live e + 1) e)), h) /\
    free_ok fr' l' /\ is_u32 (index h) /\ is_u32 (generation h) /\
    get e h = None /\ zlen l' <= max_channels (limits e) /\
    Forall (fun s => is_u32 (slot_generation s)) l' /\
    l' !! Z.to_nat (index h) = Some (mkSlot (generation h) (Some st)) /\
    (forall n, n <> Z.to_nat (index h) -> l' !! n = slots e !! n) /\
    (exists s, slots e !! Z.to_nat (index h) = s /\
       (s = None \/ s = Some (mkSlot (generation h) None))) /\
    exists a b mid, slots e = a ++ mid ++ b /\ (mid = [] \/ exists g, mid = [mkSlot g None]) /\
      l' = a ++ mkSlot (generation h) (Some st) :: b.
Proof.
  intros HI Hlt. pose proof (inv_free_ok e HI) as Hfo.
  destruct (inv_limits e HI) as (_ & _ & Hmax & _). pose proof (inv_len e HI) as Hlen.
  unfold insert. cbn [free set_live].
  destruct (vec_pop (free e)) as [[fr' i]|] eqn:Ep.
  - apply vec_pop_Some in Ep. rewrite Ep in Hfo.
    assert (i ∈ free e) as Hi by (rewrite Ep; apply elem_of_app; right; by apply list_elem_of_singleton).
    apply (inv_free e HI) in Hi as (Hi0 & [g st0] & Hs & Hnone). simpl in Hnone. subst st0.
    destruct (slots_split _ _ _ Hs) as (a & b & Hab & Hla & Hins).
    pose proof (lookup_lt_Some _ _ _ Hs) as Hilt.
    cbn [slots set_free set_live]. rewrite znth_nonneg, Hs by done. cbn [mbind option_bind slot_generation].
    exists (<[Z.to_nat i := mkSlot g (Some st)]> (slots e)), fr', (mkHandle i g).
    cbn [index generation]. split_and!; [done|by eapply free_ok_take|..].
    + unfold is_u32, U32_MAX, zlen in *. lia.
    + pose proof (inv_gen e HI) as Hg. rewrite Hab in Hg.
      apply Forall_app in Hg as [_ Hg]. by apply Forall_cons in Hg as [Hg _].
    + unfold get. cbn [index generation]. rewrite znth_nonneg, Hs by done. simpl. by destruct (g =? g).
    + unfold zlen in *. by rewrite length_insert.
    + rewrite Hins. pose proof (inv_gen e HI) as Hg. rewrite Hab in Hg.
      rewrite Forall_app, Forall_cons in *. done.
    + by rewrite list_lookup_insert_eq.
    + intros n Hn. by rewrite list_lookup_insert_ne by done.
    + exists (Some (mkSlot g None)). auto.
    + exists a, b, [mkSlot g None]. split_and!; [done|eauto|apply Hins].
  - apply vec_pop_None in Ep. rewrite Ep in Hfo.
    assert (live e = zlen (slots e)) as Hl.
    { rewrite (inv_live e HI). apply proj_Some_full. intros s. by apply free_ok_empty_full. }
    assert (as_u32 (zlen (slots e)) = zlen (slots e)) as Hu.
    { apply Z.mod_small. pose proof (zlen_nonneg (slots e)). lia. }
    cbn [slots set_live]. rewrite Hu.
    exists (slots e ++ [mkSlot 0 (Some st)]), [], (mkHandle (zlen (slots e)) 0).
    cbn [index generation].
    assert (Z.to_nat (zlen (slots e)) = length (slots e)) as -> by (unfold zlen; lia).
    split_and!.
    + rewrite <- Ep. by destruct e.
    + by apply free_ok_push.
    + unfold is_u32, U32_MAX. pose proof (zlen_nonneg (slots e)). lia.
    + done.
    + unfold get. cbn [index]. rewrite znth_nonneg by apply zlen_nonneg.
      assert (Z.to_nat (zlen (slots e)) = length (slots e)) as -> by (unfold zlen; lia).
      by rewrite (lookup_ge_None_2 (slots e)).
    + zlia.
    + apply Forall_app. split; [apply (inv_gen e HI)|]. by repeat constructor.
    + by rewrite lookup_app_r, Nat.sub_diag by lia.
    + intros n Hn. destruct (decide (n < length (slots e))%nat).
      * by rewrite lookup_app_l.
      * rewrite (lookup_ge_None_2 (slots e)) by lia.
        apply lookup_ge_None_2. rewrite length_app. simpl. lia.
    + exists None. split; [|by left]. by apply lookup_ge_None_2.
    + exists (slots e), [], []. rewrite app_nil_r. auto.
Qed.

(** ** Local numbers *)

Definition keys_ok (n : Z) (ks : list LocalNumber) : Prop := NoDup ks /\ Forall (issued n) ks.

Lemma keys_ok_sub n ks ks' : keys_ok n ks -> ks' ⊆+ ks -> keys_ok n ks'.
Proof. intros [H1 H2] Hs. split; [by eapply submseteq_NoDup|by eapply submseteq_Forall]. Qed.

Lemma issued_fresh n ks : Forall (issued n) ks -> Local n ∉ ks.
Proof. rewrite Forall_forall. intros H Hin%H. simpl in Hin. lia. Qed.

Lemma keys_ok_fresh n ks ks' :
  0 <= n -> keys_ok n ks -> ks' ⊆+ Local n :: ks -> keys_ok (n + 1) ks'.
Proof.
  intros Hn [H1 H2] Hs. apply (keys_ok_sub _ (Local n :: ks)); [|done]. split.
  - constructor; [by apply issued_fresh|done].
  - constructor; [simpl; lia|]. eapply Forall_impl; [exact H2|]. intros [i]; simpl; lia.
Qed.

Lemma n_issued_range e : Inv e -> 0 <= n_issued e <= 2 ^ 32.
Proof.
  intros HI. destruct (inv_next e HI) as [H1 H2]. unfold n_issued, U32_MAX in *.
  destruct (numbers_exhausted e); lia.
Qed.

(** Allocation hands out the next number, or reports exhaustion unchanged. *)
Lemma allocate_ok e :
  Inv e ->
  (numbers_exhausted e = true /\ allocate_number e = (e, Err NumbersExhausted)) \/
  exists e1,
    allocate_number e = (e1, Ok (Local (n_issued e))) /\ Inv e1 /\
    n_issued e <= U32_MAX /\ n_issued e1 = n_issued e + 1 /\
    limits e1 = limits e /\ slots e1 = slots e /\ free e1 = free e /\
    tombstones e1 = tombstones e /\ outgoing e1 = outgoing e /\
    pending_outgoing e1 = pending_outgoing e /\ pending_incoming e1 = pending_incoming e /\
    live e1 = live e.
Proof.
  intros HI. destruct (inv_next e HI) as [Hn Hx]. pose proof (inv_keys e HI) as Hk.
  unfold allocate_number. destruct (numbers_exhausted e) eqn:Ex; [by left|right].
  assert (n_issued e = next_local e) as Hni by (unfold n_issued; rewrite Ex; lia).
  rewrite Hni in *.
  assert (forall e1, limits e1 = limits e -> slots e1 = slots e -> free e1 = free e ->
    tombstones e1 = tombstones e -> pending_outgoing e1 = pending_outgoing e ->
    pending_incoming e1 = pending_incoming e -> live e1 = live e ->
    0 <= next_local e1 <= U32_MAX ->
    (numbers_exhausted e1 = true -> next_local e1 = U32_MAX) ->
    n_issued e1 = next_local e + 1 -> Inv e1) as HInv.
  { intros e1 E1 E2 E3 E4 E5 E6 E7 E8 E9 E10.
    constructor; unfold keys; rewrite ?E1, ?E2, ?E3, ?E4, ?E5, ?E6, ?E7, ?E10; try apply HI.
    - done.
    - apply (keys_ok_fresh _ (keys e)); [lia|done|]. by apply submseteq_cons. }
  unfold checked_add_u32. destruct (Z.leb_spec (next_local e + 1) U32_MAX).
  - exists (set_next_local (next_local e + 1) e).
    assert (n_issued (set_next_local (next_local e + 1) e) = next_local e + 1) as Hi1
      by (unfold n_issued; simpl; rewrite Ex; lia).
    split_and!; try done; [|lia].
    apply HInv; simpl; try done; [lia|congruence].
  - exists (set_numbers_exhausted true e).
    assert (n_issued (set_numbers_exhausted true e) = next_local e + 1) as Hi1
      by (unfold n_issued; simpl; lia).
    split_and!; try done; [|lia].
    apply HInv; simpl; try done; lia.
Qed.

(** ** Preservation of the invariant *)

(** Counting live slots of a kind before and after a slot changes. *)
Ltac count_slots := autorewrite with proj in *; simpl in *; zlia.

Lemma peer_in_use_spec e p : peer_number_in_use e p = true <-> p ∈ proj state_peer (slots e).
Proof.
  unfold peer_number_in_use. rewrite existsb_exists, elem_of_proj. split.
  - intros (s & Hs & H). destruct (slot_state s) as [[| |]|] eqn:E; try done;
      apply bool_decide_eq_true in H as <-; apply list_elem_of_In in Hs; eauto 6.
  - intros (s & st & Hs & E & Hst). exists s. split; [by apply list_elem_of_In|].
    rewrite E. destruct st; simpl in *; simplify_eq; by apply bool_decide_eq_true.
Qed.

Lemma mid_empty {X} (f : State -> option X) mid :
  mid = [] \/ (exists g, mid = [mkSlot g None]) -> proj f mid = [].
Proof. by intros [->|[g ->]]. Qed.

(** The engine after [insert] of a state, with the counters the caller then
    adjusts. *)
Lemma insert_inv e st e1 h :
  Inv e -> live e < max_channels (limits e) -> insert st e = Some (e1, h) ->
  forall e2,
    limits e2 = limits e -> slots e2 = slots e1 -> free e2 = free e1 -> live e2 = live e1 ->
    next_local e2 = next_local e -> numbers_exhausted e2 = numbers_exhausted e ->
    tombstones e2 = tombstones e ->
    pending_outgoing e2 = pending_outgoing e + zlen (option_list (is_po st)) ->
    pending_incoming e2 = pending_incoming e + zlen (option_list (is_pi st)) ->
    pending_outgoing e2 <= max_pending_outgoing (limits e) ->
    pending_incoming e2 <= max_pending_incoming (limits e) ->
    keys_ok (n_issued e) (option_list (state_local st) ++ keys e) ->
    NoDup (option_list (state_peer st) ++ proj state_peer (slots e)) ->
    Inv e2.
Proof.
  intros HI Hlt Hins e2 E1 E2 E3 E4 E5 E6 E7 E8 E9 E10 E11 Hk Hp.
  destruct (insert_ok e st HI Hlt) as (l' & fr' & h' & Hi & Hfo & _ & _ & _ & Hlen & Hgen & _ & _ &
    _ & a & b & mid & Hsl & Hmid & Hl').
  rewrite Hins in Hi. injection Hi as -> <-. simpl in *.
  destruct Hfo as [Hfn Hff]. pose proof (mid_empty (X:=State) Some mid Hmid) as M1.
  pose proof (mid_empty is_po mid Hmid) as M2. pose proof (mid_empty is_pi mid Hmid) as M3.
  pose proof (mid_empty state_local mid Hmid) as M4.
  pose proof (mid_empty state_peer mid Hmid) as M5.
  constructor; unfold keys, n_issued in *; rewrite ?E1, ?E2, ?E3, ?E4, ?E5, ?E6, ?E7; try done;
    try apply HI.
  - rewrite (inv_live e HI), Hsl, Hl', !proj_app, proj_cons, M1. simpl. zlia.
  - rewrite E8, (inv_po e HI), Hsl, Hl', !proj_app, proj_cons, M2. simpl. zlia.
  - rewrite E9, (inv_pi e HI), Hsl, Hl', !proj_app, proj_cons, M3. simpl. zlia.
  - eapply keys_ok_sub; [exact Hk|].
    rewrite Hsl, Hl', !proj_app, proj_cons, M4. simpl. solve_submseteq.
  - eapply submseteq_NoDup; [|exact Hp].
    rewrite Hsl, Hl', !proj_app, proj_cons, M5. simpl. solve_submseteq.
Qed.

(** A live slot whose state is replaced or removed. *)
Lemma slot_change_inv e h st so fr' :
  Inv e -> get e h = Some st -> is_u32 (slot_generation so) ->
  free_ok fr' (<[Z.to_nat (index h) := so]> (slots e)) ->
  forall e2 n,
    limits e2 = limits e -> slots e2 = <[Z.to_nat (index h) := so]> (slots e) -> free e2 = fr' ->
    live e2 = live e - 1 + zlen (option_list (slot_state so)) ->
    pending_outgoing e2 = pending_outgoing e - zlen (option_list (is_po st)) +
                          zlen (option_list (slot_state so ≫= is_po)) ->
    pending_incoming e2 = pending_incoming e - zlen (option_list (is_pi st)) +
                          zlen (option_list (slot_state so ≫= is_pi)) ->
    pending_outgoing e2 <= max_pending_outgoing (limits e) ->
    pending_incoming e2 <= max_pending_incoming (limits e) ->
    0 <= next_local e2 <= U32_MAX /\ (numbers_exhausted e2 = true -> next_local e2 = U32_MAX) ->
    n_issued e2 = n ->
    (forall a b, proj state_local (slots e) = a ++ option_list (state_local st) ++ b ->
       keys_ok n ((a ++ option_list (slot_state so ≫= state_local) ++ b) ++ tombstones e2)) ->
    (forall a b, proj state_peer (slots e) = a ++ option_list (state_peer st) ++ b ->
       NoDup (a ++ option_list (slot_state so ≫= state_peer) ++ b)) ->
    zlen (tombstones e2) <= max_tombstones (limits e) ->
    Inv e2.
Proof.
  intros HI Hg Hgen Hfo e2 n E1 E2 E3 E4 E5 E6 E7 E8 E9 E10 Hk Hp Ht.
  destruct (get_split e h st Hg) as (a & b & Hs & Hl & Hi & Hlk & Hins).
  pose proof (Hins so) as Hso. rewrite <- E3 in Hfo. destruct Hfo as [Hfn Hff].
  constructor; unfold keys; rewrite ?E1, ?E2, ?E10; try done; try apply HI.
  - unfold zlen. rewrite length_insert. apply HI.
  - rewrite Hso. pose proof (inv_gen e HI) as Hge. rewrite Hs in Hge.
    rewrite Forall_app, Forall_cons in *. naive_solver.
  - rewrite E4, (inv_live e HI), Hso, Hs, !proj_mid. simpl.
    destruct (slot_state so); simpl; zlia.
  - rewrite E5, (inv_po e HI), Hso, Hs, !proj_mid. simpl. zlia.
  - rewrite E6, (inv_pi e HI), Hso, Hs, !proj_mid. simpl. zlia.
  - rewrite Hso, proj_mid. apply Hk. by rewrite Hs, proj_mid.
  - rewrite Hso, proj_mid. apply Hp. by rewrite Hs, proj_mid.
Qed.

(** ** Correlating replies *)

Lemma locate_in_slots_spec w l : forall i,
  match locate_in_slots w i l with
  | Some (Ok (TgPending h)) =>
      exists a s b ct lc, l = a ++ s :: b /\ index h = as_u32 (i + zlen a) /\
        generation h = slot_generation s /\ slot_state s = Some (StPendingOutgoing ct w lc)
  | Some (Ok (TgTombstone _)) => False
  | Some (Err v) =>
      v = DuplicateReply w /\
      exists a s b p, l = a ++ s :: b /\ slot_state s = Some (StEstablished w p)
  | None => w ∉ proj state_local l
  end.
Proof.
  induction l as [|s l IH]; intros i; cbn [locate_in_slots].
  - by apply not_elem_of_nil.
  - assert (slot_state s ≫= state_local <> Some w ->
      match locate_in_slots w (i + 1) l with
      | Some (Ok (TgPending h)) =>
          exists a s' b ct lc, s :: l = a ++ s' :: b /\ index h = as_u32 (i + zlen a) /\
            generation h = slot_generation s' /\ slot_state s' = Some (StPendingOutgoing ct w lc)
      | Some (Ok (TgTombstone _)) => False
      | Some (Err v) =>
          v = DuplicateReply w /\
          exists a s' b p, s :: l = a ++ s' :: b /\ slot_state s' = Some (StEstablished w p)
      | None => w ∉ proj state_local (s :: l)
      end) as Hrec.
    { intros Hne. specialize (IH (i + 1)).
      destruct (locate_in_slots w (i + 1) l) as [[[h|n]|v]|].
      - destruct IH as (a & s' & b & ct & lc & -> & Hi & Hg & Hs).
        exists (s :: a), s', b, ct, lc. split_and!; [done| |done|done].
        rewrite Hi. f_equal. zlia.
      - done.
      - destruct IH as (-> & a & s' & b & p & -> & Hs). split; [done|].
        by exists (s :: a), s', b, p.
      - rewrite proj_cons, elem_of_app. intros [H|H]; [|done].
        destruct (slot_state s ≫= state_local) as [x|]; simpl in H; [|by apply elem_of_nil in H].
        apply list_elem_of_singleton in H. congruence. }
    destruct (slot_state s) as [[ct n lc|ct p pc|n p]|] eqn:Es; simpl in Hrec; try by apply Hrec.
    + case_bool_decide as Hn; [|apply Hrec; congruence]. subst n.
      exists [], s, l, ct, lc. split_and!; [done| |done|done]. simpl. f_equal. zlia.
    + case_bool_decide as Hn; [|apply Hrec; congruence]. subst n.
      split; [done|]. by exists [], s, l, p.
Qed.

Lemma slot_get e a s b st :
  Inv e -> slots e = a ++ s :: b -> slot_state s = Some st ->
  let h := mkHandle (as_u32 (zlen a)) (slot_generation s) in
  is_u32 (index h) /\ index h = zlen a /\ get e h = Some st.
Proof.
  intros HI Hs Hst. pose proof (inv_len e HI) as Hlen. destruct (inv_limits e HI) as (_&_&Hm&_).
  rewrite Hs in Hlen.
  assert (as_u32 (zlen a) = zlen a) as Hu by (apply Z.mod_small; zlia).
  cbn [index]. rewrite Hu. split_and!; [unfold is_u32, U32_MAX; zlia|done|].
  unfold get; cbn [index generation]. rewrite znth_nonneg, Hs by apply zlen_nonneg.
  replace (Z.to_nat (zlen a)) with (length a) by (unfold zlen; lia).
  rewrite list_lookup_middle by done. simpl. by rewrite Z.eqb_refl.
Qed.

Lemma locate_cases e n :
  Inv e ->
  (exists h ct lc, locate_reply e n = Ok (TgPending h) /\ is_u32 (index h) /\
     get e h = Some (StPendingOutgoing ct (Local n) lc)) \/
  (exists h p, locate_reply e n = Err (DuplicateReply (Local n)) /\
     get e h = Some (StEstablished (Local n) p)) \/
  (locate_reply e n = Ok (TgTombstone (Local n)) /\ Local n ∈ tombstones e /\
     Local n ∉ proj state_local (slots e)) \/
  ((Local n ∉ keys e) /\
     (locate_reply e n = Err (ReplyToIncoming n) \/ locate_reply e n = Err (UnknownRecipient n))).
Proof.
  intros HI. unfold locate_reply. pose proof (locate_in_slots_spec (Local n) (slots e) 0) as H.
  destruct (locate_in_slots (Local n) 0 (slots e)) as [[[h|m]|v]|].
  - left. destruct H as (a & s & b & ct & lc & Hs & Hi & Hg & Hst). rewrite Z.add_0_l in Hi.
    destruct (slot_get e a s b _ HI Hs Hst) as (H1 & _ & H2).
    assert (h = mkHandle (as_u32 (zlen a)) (slot_generation s)) as ->
      by (destruct h; simpl in *; congruence).
    by exists (mkHandle (as_u32 (zlen a)) (slot_generation s)), ct, lc.
  - done.
  - right; left. destruct H as (-> & a & s & b & p & Hs & Hst).
    destruct (slot_get e a s b _ HI Hs Hst) as (_ & _ & H2). eauto.
  - right; right. case_bool_decide as Ht; [by left|right]. split.
    + unfold keys. rewrite elem_of_app. tauto.
    + destruct (_ && _); auto.
Qed.

Lemma consume_tombstone e n :
  Local n ∈ tombstones e ->
  exists a b, tombstones e = a ++ Local n :: b /\ (Local n ∉ a) /\
    consume_reply (TgTombstone (Local n)) e = set_tombstones (a ++ b) e.
Proof.
  intros Hin. unfold consume_reply.
  destruct (position _ (tombstones e)) as [i|] eqn:Ep.
  - apply position_Some in Ep as (a & x & b & Ht & Hi & Hx & Ha).
    apply bool_decide_eq_true in Hx as ->. exists a, b. rewrite Ht. split_and!; [done| |].
    + rewrite Forall_forall in Ha. intros Hin'%Ha. by apply bool_decide_eq_false in Hin'.
    + rewrite ztake_app_exact by done. do 2 f_equal. rewrite <- Hi.
      replace (a ++ Local n :: b) with ((a ++ [Local n]) ++ b) by (by rewrite <- app_assoc).
      apply zdrop_app_exact. zlia.
  - exfalso. apply position_None in Ep. rewrite Forall_forall in Ep.
    apply Ep in Hin. by apply bool_decide_eq_false in Hin.
Qed.

Lemma trim_spec max l :
  0 <= max ->
  exists pre, l = pre ++ trim_tombstones max l /\
    zlen (trim_tombstones max l) = Z.min max (zlen l).
Proof.
  intros Hm. induction l as [|x l (pre & Hl & Hlen)]; cbn [trim_tombstones].
  - exists []. split; [done|]. rewrite zlen_nil. lia.
  - destruct (Z.ltb_spec max (zlen (x :: l))).
    + exists (x :: pre). split; [by rewrite Hl at 1|]. rewrite Hlen. zlia.
    + exists []. split; [done|]. lia.
Qed.

(** ** Loss of the transport *)

Lemma lose_slots_spec l : forall i,
  0 <= i -> i + zlen l <= 2 ^ 32 ->
  let '(l', evs, fr) := lose_slots i l in
  length l' = length l /\ Forall (fun s => slot_state s = None) l' /\
  (Forall (fun s => is_u32 (slot_generation s)) l -> Forall (fun s => is_u32 (slot_generation s)) l') /\
  NoDup fr /\
  (forall j, j ∈ fr <-> i <= j /\ exists s, l !! Z.to_nat (j - i) = Some s /\ slot_state s <> None) /\
  forall ev, ev ∈ evs <-> exists j s st, 0 <= j /\ l !! Z.to_nat j = Some s /\ slot_state s = Some st /\
    ev = EvTransportLost (mkHandle (i + j) (slot_generation s)) (state_phase st).
Proof.
  induction l as [|s l IH]; intros i Hi Hl; cbn [lose_slots].
  - split_and!; [done|done|done|constructor| |]; intros ?; rewrite elem_of_nil; naive_solver.
  - specialize (IH (i + 1) ltac:(lia)). rewrite zlen_cons in Hl.
    destruct (lose_slots (i + 1) l) as [[l' evs] fr]. pose proof (zlen_nonneg l).
    destruct IH as (H1 & H2 & H3 & H4 & H5 & H6); [lia|].
    assert (as_u32 i = i) as Hu by (apply Z.mod_small; lia).
    assert (forall j, i + 1 <= j -> (s :: l) !! Z.to_nat (j - i) = l !! Z.to_nat (j - (i + 1))) as Hsh.
    { intros j Hj. replace (Z.to_nat (j - i)) with (S (Z.to_nat (j - (i + 1)))) by lia. done. }
    assert (forall j, 0 < j -> (s :: l) !! Z.to_nat j = l !! Z.to_nat (j - 1)) as Hsh0.
    { intros j Hj. replace (Z.to_nat j) with (S (Z.to_nat (j - 1))) by lia. done. }
    assert (forall ev, ev ∈ evs <-> exists j s0 st, 0 < j /\ (s :: l) !! Z.to_nat j = Some s0 /\
      slot_state s0 = Some st /\
      ev = EvTransportLost (mkHandle (i + j) (slot_generation s0)) (state_phase st)) as H6'.
    { intros ev. rewrite H6. split.
      - intros (j & s0 & st & Hj & Hs0 & Hst & ->). exists (j + 1), s0, st.
        rewrite Hsh0 by lia. replace (j + 1 - 1) with j by lia.
        split_and!; [lia|done|done|]. do 2 f_equal. lia.
      - intros (j & s0 & st & Hj & Hs0 & Hst & ->). exists (j - 1), s0, st.
        rewrite Hsh0 in Hs0 by lia. split_and!; [lia|done|done|]. do 2 f_equal. lia. }
    destruct (slot_state s) as [st|] eqn:Es.
    + split_and!.
      * simpl. lia.
      * by constructor.
      * intros [_ Hf]%Forall_cons. constructor; [apply wrapping_add_u32_range|auto].
      * constructor; [|done]. rewrite Hu, H5. lia.
      * intros j. rewrite Hu, elem_of_cons, H5. split.
        -- intros [->|[Hj Hs]]; [|split; [lia|]; by rewrite Hsh].
           split; [lia|]. replace (i - i) with 0 by lia. exists s. rewrite Es. done.
        -- intros [Hj Hs]. destruct (decide (j = i)) as [->|]; [by left|right].
           split; [lia|]. rewrite Hsh in Hs by lia. done.
      * intros ev. rewrite Hu, elem_of_cons, H6'. split.
        -- intros [->|(j & s0 & st0 & Hj & Hr)]; [|exists j, s0, st0; split; [lia|done]].
           exists 0, s, st. rewrite Z.add_0_r. done.
        -- intros (j & s0 & st0 & Hj & Hs0 & Hst0 & ->).
           destruct (decide (j = 0)) as [->|]; [left|right; exists j, s0, st0; split_and!; [lia|done..]].
           simpl in Hs0. injection Hs0 as <-. rewrite Z.add_0_r. congruence.
    + split_and!.
      * simpl. lia.
      * by constructor.
      * intros [Hs Hf]%Forall_cons. constructor; auto.
      * done.
      * intros j. rewrite H5. split.
        -- intros [Hj Hs]. split; [lia|]. by rewrite Hsh.
        -- intros [Hj Hs]. destruct (decide (j = i)) as [->|].
           ++ replace (i - i) with 0 in Hs by lia. naive_solver.
           ++ split; [lia|]. rewrite Hsh in Hs by lia. done.
      * intros ev. rewrite H6'. split.
        -- intros (j & s0 & st0 & Hj & Hr). exists j, s0, st0. split; [lia|done].
        -- intros (j & s0 & st0 & Hj & Hs0 & Hst0 & ->).
           destruct (decide (j = 0)) as [->|]; [|exists j, s0, st0; split_and!; [lia|done..]].
           simpl in Hs0. injection Hs0 as <-. congruence.
Qed.
