(* ===== verification/OpeningSpec.v ===== *)
(** * The channel-opening engine: abstract specification and refinement

    The abstract state of the engine is a finite map from handles to channel
    states, the remembered cancelled numbers, the queue of messages to send
    and the count of local numbers handed out. [astep] says, for every call,
    which abstract states and results are allowed; the engine of Opening.v,
    with its slot table, free list, generations and counters, refines it. *)

From stdpp Require Import gmap.
From S2P Require Import Prelude WireError NameList Primitives Messages Opening OpeningProofs.

#[export] Instance ChannelHandle_countable : Countable ChannelHandle.
Proof.
  apply (inj_countable' (fun h => (index h, generation h)) (fun p => mkHandle (fst p) (snd p))).
  by intros [].
Qed.

Record AState : Type := mkA {
  chans : gmap ChannelHandle State;
  tombs : list LocalNumber;
  queue : list Outgoing;
  n_numbers : Z
}.

(** Number of channels for which [f] is defined. *)
Definition a_count {X} (f : State -> option X) (m : gmap ChannelHandle State) : Z :=
  zlen (omap (fun kv => f (snd kv)) (map_to_list m)).

Definition peer_used (s : AState) (p : PeerNumber) : Prop :=
  exists h st, chans s !! h = Some st /\ state_peer st = Some p.

Definition local_used (s : AState) (n : LocalNumber) : Prop :=
  exists h st, chans s !! h = Some st /\ state_local st = Some n.

(** The violations a reply naming [n] can be answered with. *)
Inductive reply_violation (s : AState) (n : Z) : Violation -> Prop :=
| rv_duplicate h p :
    chans s !! h = Some (StEstablished (Local n) p) ->
    reply_violation s n (DuplicateReply (Local n))
| rv_incoming :
    ~ local_used s (Local n) -> Local n ∉ tombs s -> reply_violation s n (ReplyToIncoming n)
| rv_unknown :
    ~ local_used s (Local n) -> Local n ∉ tombs s -> reply_violation s n (UnknownRecipient n).

(** Why a command naming a handle is refused without effect. *)
Definition handle_refused (s : AState) (h : ChannelHandle) (wanted : Phase) (e : HandleError) : Prop :=
  match chans s !! h with
  | None => e = Stale
  | Some st => state_phase st <> wanted /\ e = WrongPhase (state_phase st)
  end.

Definition open_refused (lim : OpeningLimits) (s : AState) (e : OpenError) : Prop :=
  match e with
  | TooManyPendingOutgoing => max_pending_outgoing lim <= a_count is_po (chans s)
  | TooManyChannels =>
      a_count is_po (chans s) < max_pending_outgoing lim /\
      max_channels lim <= a_count Some (chans s)
  | NumbersExhausted =>
      a_count is_po (chans s) < max_pending_outgoing lim /\
      a_count Some (chans s) < max_channels lim /\ n_numbers s = 2 ^ 32
  end.

Definition incoming_full (lim : OpeningLimits) (s : AState) : Prop :=
  max_pending_incoming lim <= a_count is_pi (chans s) \/
  max_channels lim <= a_count Some (chans s).

Definition conf_credit (m : ChannelOpenConfirmation.t) : Credit :=
  mkCredit (ChannelOpenConfirmation.initial_window_size m)
           (ChannelOpenConfirmation.maximum_packet_size m).

Definition open_credit (m : ChannelOpen.t) : Credit :=
  mkCredit (ChannelOpen.initial_window_size m) (ChannelOpen.maximum_packet_size m).

Inductive astep (lim : OpeningLimits) (s : AState) : Command -> AState -> Outcome -> Prop :=
| as_next m q :
    queue s = m :: q ->
    astep lim s CmdNextOutgoing (mkA (chans s) (tombs s) q (n_numbers s)) (OutNext (Some m))
| as_next_none :
    queue s = [] -> astep lim s CmdNextOutgoing s (OutNext None)
| as_open p h :
    a_count is_po (chans s) < max_pending_outgoing lim ->
    a_count Some (chans s) < max_channels lim ->
    n_numbers s < 2 ^ 32 -> chans s !! h = None ->
    astep lim s (CmdOpen p)
      (mkA (<[h := StPendingOutgoing (op_channel_type p) (Local (n_numbers s)) (op_local p)]> (chans s))
         (tombs s)
         (queue s ++ [OutOpen (op_channel_type p) (Local (n_numbers s)) (op_local p)
                        (op_type_specific p)])
         (n_numbers s + 1))
      (OutHandle (Ok h))
| as_open_refused p e :
    open_refused lim s e -> astep lim s (CmdOpen p) s (OutHandle (Err e))
| as_cancel h ct n lc :
    chans s !! h = Some (StPendingOutgoing ct n lc) ->
    astep lim s (CmdCancel h)
      (mkA (delete h (chans s)) (trim_tombstones (max_tombstones lim) (tombs s ++ [n]))
         (queue s) (n_numbers s))
      (OutUnit (Ok tt))
| as_cancel_refused h e :
    handle_refused s h PhPendingOutgoing e -> astep lim s (CmdCancel h) s (OutUnit (Err e))
| as_accept h p ct pn pc :
    chans s !! h = Some (StPendingIncoming ct pn pc) -> n_numbers s < 2 ^ 32 ->
    astep lim s (CmdAccept h p)
      (mkA (<[h := StEstablished (Local (n_numbers s)) pn]> (chans s)) (tombs s)
         (queue s ++ [OutOpenConfirmation pn (Local (n_numbers s)) (ap_local p) (ap_type_specific p)])
         (n_numbers s + 1))
      (OutAccept (Ok (EvEstablished h ct (Local (n_numbers s)) pn (ap_local p) pc [])))
| as_accept_exhausted h p ct pn pc :
    chans s !! h = Some (StPendingIncoming ct pn pc) -> n_numbers s = 2 ^ 32 ->
    astep lim s (CmdAccept h p)
      (mkA (delete h (chans s)) (tombs s)
         (queue s ++ [OutOpenFailure pn open_failure_reason.RESOURCE_SHORTAGE
                        (bstr "channel numbers exhausted") []]) (n_numbers s))
      (OutAccept (Err Stale))
| as_accept_refused h p e :
    handle_refused s h PhPendingIncoming e -> astep lim s (CmdAccept h p) s (OutAccept (Err e))
| as_refuse h rc d ct pn pc :
    chans s !! h = Some (StPendingIncoming ct pn pc) ->
    astep lim s (CmdRefuse h rc d)
      (mkA (delete h (chans s)) (tombs s) (queue s ++ [OutOpenFailure pn rc d []]) (n_numbers s))
      (OutUnit (Ok tt))
| as_refuse_refused h rc d e :
    handle_refused s h PhPendingIncoming e -> astep lim s (CmdRefuse h rc d) s (OutUnit (Err e))
| as_lost evs :
    (forall ev, ev ∈ evs <->
       exists h st, chans s !! h = Some st /\ ev = EvTransportLost h (state_phase st)) ->
    astep lim s CmdTransportLost (mkA ∅ (tombs s) [] (n_numbers s)) (OutEvents evs)
| as_peer_open m h :
    ~ peer_used s (Peer (ChannelOpen.sender_channel m)) -> ~ incoming_full lim s ->
    chans s !! h = None ->
    astep lim s (CmdHandleOpen m)
      (mkA (<[h := StPendingIncoming (ChannelOpen.channel_type m)
                     (Peer (ChannelOpen.sender_channel m)) (open_credit m)]> (chans s))
         (tombs s) (queue s) (n_numbers s))
      (OutPeer (Ok (EvIncomingOpen h (ChannelOpen.channel_type m)
         (Peer (ChannelOpen.sender_channel m)) (open_credit m) (ChannelOpen.type_specific m))))
| as_peer_open_limit m :
    ~ peer_used s (Peer (ChannelOpen.sender_channel m)) -> incoming_full lim s ->
    astep lim s (CmdHandleOpen m)
      (mkA (chans s) (tombs s)
         (queue s ++ [OutOpenFailure (Peer (ChannelOpen.sender_channel m))
                        open_failure_reason.RESOURCE_SHORTAGE (bstr "too many pending channels") []])
         (n_numbers s))
      (OutPeer (Ok (EvIncomingRefusedByLimit (Peer (ChannelOpen.sender_channel m))
                      (ChannelOpen.channel_type m))))
| as_peer_open_dup m :
    peer_used s (Peer (ChannelOpen.sender_channel m)) ->
    astep lim s (CmdHandleOpen m) s
      (OutPeer (Err (DuplicatePeerNumber (Peer (ChannelOpen.sender_channel m)))))
| as_conf m h ct lc :
    chans s !! h = Some (StPendingOutgoing ct (Local (ChannelOpenConfirmation.recipient_channel m)) lc) ->
    ~ peer_used s (Peer (ChannelOpenConfirmation.sender_channel m)) ->
    astep lim s (CmdHandleConfirmation m)
      (mkA (<[h := StEstablished (Local (ChannelOpenConfirmation.recipient_channel m))
                     (Peer (ChannelOpenConfirmation.sender_channel m))]> (chans s))
         (tombs s) (queue s) (n_numbers s))
      (OutPeer (Ok (EvEstablished h ct (Local (ChannelOpenConfirmation.recipient_channel m))
         (Peer (ChannelOpenConfirmation.sender_channel m)) lc (conf_credit m)
         (ChannelOpenConfirmation.type_specific m))))
| as_conf_late m a b :
    tombs s = a ++ Local (ChannelOpenConfirmation.recipient_channel m) :: b ->
    ~ peer_used s (Peer (ChannelOpenConfirmation.sender_channel m)) ->
    astep lim s (CmdHandleConfirmation m) (mkA (chans s) (a ++ b) (queue s) (n_numbers s))
      (OutPeer (Ok (EvLateReply (Local (ChannelOpenConfirmation.recipient_channel m))
         (LateConfirmed (Peer (ChannelOpenConfirmation.sender_channel m)) (conf_credit m)))))
| as_conf_dup m :
    peer_used s (Peer (ChannelOpenConfirmation.sender_channel m)) ->
    astep lim s (CmdHandleConfirmation m) s
      (OutPeer (Err (DuplicatePeerNumber (Peer (ChannelOpenConfirmation.sender_channel m)))))
| as_conf_violation m v :
    reply_violation s (ChannelOpenConfirmation.recipient_channel m) v ->
    astep lim s (CmdHandleConfirmation m) s (OutPeer (Err v))
| as_fail m h ct lc :
    chans s !! h = Some (StPendingOutgoing ct (Local (ChannelOpenFailure.recipient_channel m)) lc) ->
    astep lim s (CmdHandleFailure m) (mkA (delete h (chans s)) (tombs s) (queue s) (n_numbers s))
      (OutPeer (Ok (EvRefused h (ChannelOpenFailure.reason_code m)
         (ChannelOpenFailure.description m) (ChannelOpenFailure.language_tag m))))
| as_fail_late m a b :
    tombs s = a ++ Local (ChannelOpenFailure.recipient_channel m) :: b ->
    astep lim s (CmdHandleFailure m) (mkA (chans s) (a ++ b) (queue s) (n_numbers s))
      (OutPeer (Ok (EvLateReply (Local (ChannelOpenFailure.recipient_channel m))
         (LateRefused (ChannelOpenFailure.reason_code m)))))
| as_fail_violation m v :
    reply_violation s (ChannelOpenFailure.recipient_channel m) v ->
    astep lim s (CmdHandleFailure m) s (OutPeer (Err v)).

(** ** The abstraction function *)

Definition slot_entry (i : nat) (s : Slot) : list (ChannelHandle * State) :=
  match slot_state s with
  | Some st => [(mkHandle (Z.of_nat i) (slot_generation s), st)]
  | None => []
  end.

Fixpoint entries_from (i : nat) (l : list Slot) : list (ChannelHandle * State) :=
  match l with
  | [] => []
  | s :: l' => slot_entry i s ++ entries_from (S i) l'
  end.

Definition abs (e : OpeningEngine) : AState :=
  mkA (list_to_map (entries_from 0 (slots e))) (tombstones e) (outgoing e) (n_issued e).

Lemma elem_of_entries h st l : forall i,
  (h, st) ∈ entries_from i l <->
  Z.of_nat i <= index h /\
  l !! (Z.to_nat (index h) - i)%nat = Some (mkSlot (generation h) (Some st)).
Proof.
  induction l as [|s l IH]; intros i; cbn [entries_from].
  - rewrite elem_of_nil. naive_solver.
  - rewrite elem_of_app, IH.
    assert ((h, st) ∈ slot_entry i s <->
      index h = Z.of_nat i /\ s = mkSlot (generation h) (Some st)) as ->.
    { unfold slot_entry. destruct h as [ix g], s as [g' [st'|]]; simpl.
      - rewrite list_elem_of_singleton. naive_solver.
      - rewrite elem_of_nil. naive_solver. }
    split.
    + intros [[Hi ->]|[Hi Hl]].
      * split; [lia|]. replace (Z.to_nat (index h) - i)%nat with 0%nat by lia. done.
      * split; [lia|].
        replace (Z.to_nat (index h) - i)%nat with (S (Z.to_nat (index h) - S i)) by lia. done.
    + intros [Hi Hl]. destruct (decide (index h = Z.of_nat i)) as [He|He].
      * left. replace (Z.to_nat (index h) - i)%nat with 0%nat in Hl by lia.
        simpl in Hl. by injection Hl as ->.
      * right. split; [lia|].
        replace (Z.to_nat (index h) - i)%nat with (S (Z.to_nat (index h) - S i)) in Hl by lia. done.
Qed.

Lemma entries_nodup l : forall i, NoDup (entries_from i l).*1.
Proof.
  induction l as [|s l IH]; intros i; cbn [entries_from]; [constructor|].
  rewrite fmap_app. apply NoDup_app. split_and!.
  - unfold slot_entry. destruct (slot_state s); simpl; [apply NoDup_singleton|constructor].
  - intros h Hh [[h' st] [Heq Hin]]%list_elem_of_fmap. simpl in Heq. subst h'.
    apply elem_of_entries in Hin as [Hin _].
    unfold slot_entry in Hh. destruct (slot_state s); simpl in Hh; [|by apply elem_of_nil in Hh].
    apply list_elem_of_singleton in Hh as ->. simpl in Hin. lia.
  - apply IH.
Qed.

(** The abstract table is exactly what [get] can see. *)
Lemma lookup_abs e h : chans (abs e) !! h = get e h.
Proof.
  apply option_eq. intros st. cbn [abs chans].
  rewrite <- elem_of_list_to_map by apply entries_nodup.
  rewrite elem_of_entries, Nat.sub_0_r. unfold get. rewrite bind_Some. split.
  - intros [Hi Hl]. exists (mkSlot (generation h) (Some st)).
    rewrite znth_Some. simpl. rewrite Z.eqb_refl. naive_solver lia.
  - intros (s & [Hi Hl]%znth_Some & H).
    destruct (Z.eqb_spec (slot_generation s) (generation h)) as [<-|]; [|done].
    split; [lia|]. rewrite Hl. destruct s; simpl in *. by subst.
Qed.

Lemma a_count_abs {X} (f : State -> option X) e : a_count f (chans (abs e)) = zlen (proj f (slots e)).
Proof.
  unfold a_count, zlen. f_equal. cbn [abs chans].
  rewrite (map_to_list_to_map (M:=gmap ChannelHandle)) by apply entries_nodup.
  assert (forall l i, omap (fun kv => f (snd kv)) (entries_from i l) = proj f l) as ->; [|done].
  induction l as [|s l IH]; intros i; cbn [entries_from]; [done|].
  rewrite omap_app, proj_cons, IH. f_equal. unfold slot_entry.
  destruct (slot_state s) as [st|]; simpl; [|done]. by destruct (f st).
Qed.

(** ** How the elementary operations act on the abstract table *)

Lemma get_slots e e' : slots e' = slots e -> forall h, get e' h = get e h.
Proof. intros Hs h. unfold get. by rewrite Hs. Qed.

Lemma chans_eq e e' : slots e' = slots e -> chans (abs e') = chans (abs e).
Proof. intros Hs. apply map_eq. intros h. rewrite !lookup_abs. by apply get_slots. Qed.

(** Looking a handle up after the slot of the live handle [h] changed. *)
Lemma get_slot_changed e e' h st so h' :
  get e h = Some st -> slots e' = <[Z.to_nat (index h) := so]> (slots e) ->
  get e' h' = if decide (index h' = index h)
              then (if slot_generation so =? generation h' then slot_state so else None)
              else get e h'.
Proof.
  intros Hg Hs. destruct (get_split e h st Hg) as (a & b & Hab & Hl & Hi & Hlk & Hins).
  pose proof (lookup_lt_Some _ _ _ Hlk). unfold get at 1. rewrite Hs.
  destruct (decide (index h' = index h)) as [He|He].
  - rewrite He, znth_nonneg by done. by rewrite list_lookup_insert_eq.
  - unfold get. unfold znth. destruct (Z.ltb_spec (index h') 0); [done|].
    by rewrite list_lookup_insert_ne by lia.
Qed.

Lemma same_index_other_generation e h st h' :
  get e h = Some st -> index h' = index h -> h' <> h -> get e h' = None.
Proof.
  intros Hg He Hne. destruct (get_split e h st Hg) as (a & b & Hab & Hl & Hi & Hlk & Hins).
  unfold get. rewrite He, znth_nonneg, Hlk by done. simpl.
  destruct (Z.eqb_spec (generation h) (generation h')); [|done].
  destruct Hne. destruct h, h'; simpl in *; congruence.
Qed.

Lemma chans_deleted e e' h st :
  Inv e -> get e h = Some st -> slots e' = <[Z.to_nat (index h) := freed_slot h]> (slots e) ->
  chans (abs e') = delete h (chans (abs e)).
Proof.
  intros HI Hg Hs. apply map_eq. intros h'. rewrite lookup_abs, (get_slot_changed e e' h st _ h' Hg Hs).
  destruct (decide (h' = h)) as [->|Hne].
  - rewrite lookup_delete_eq. destruct (decide _); [|done]. simpl.
    by destruct (_ =? _).
  - rewrite lookup_delete_ne, lookup_abs by done. destruct (decide _) as [He|]; [|done].
    rewrite (same_index_other_generation e h st h' Hg He Hne). simpl. by destruct (_ =? _).
Qed.

Lemma chans_updated e e' h st st' :
  get e h = Some st ->
  slots e' = <[Z.to_nat (index h) := mkSlot (generation h) (Some st')]> (slots e) ->
  chans (abs e') = <[h := st']> (chans (abs e)).
Proof.
  intros Hg Hs. apply map_eq. intros h'. rewrite lookup_abs, (get_slot_changed e e' h st _ h' Hg Hs).
  destruct (decide (h' = h)) as [->|Hne].
  - rewrite lookup_insert_eq. destruct (decide _); [|done]. simpl. by rewrite Z.eqb_refl.
  - rewrite lookup_insert_ne, lookup_abs by done. destruct (decide _) as [He|]; [|done].
    rewrite (same_index_other_generation e h st h' Hg He Hne). simpl.
    destruct (Z.eqb_spec (generation h) (generation h')); [|done].
    destruct Hne. destruct h, h'; simpl in *; congruence.
Qed.

Lemma chans_inserted e e1 e' st h :
  Inv e -> live e < max_channels (limits e) -> insert st e = Some (e1, h) -> slots e' = slots e1 ->
  chans (abs e) !! h = None /\ chans (abs e') = <[h := st]> (chans (abs e)).
Proof.
  intros HI Hlt Hins Hs.
  destruct (insert_ok e st HI Hlt) as (l' & fr' & h0 & Hi & _ & Hu & _ & Hnone & _ & _ & Hlk & Hne &
    (s & Hs0 & Hs1) & _).
  rewrite Hins in Hi. injection Hi as -> <-. simpl in Hs. split; [by rewrite lookup_abs|].
  assert (0 <= index h) as Hi0 by apply Hu.
  apply map_eq. intros h'. rewrite lookup_abs. unfold get. rewrite Hs.
  destruct (decide (h' = h)) as [->|Hh].
  - rewrite lookup_insert_eq, znth_nonneg, Hlk by done. simpl. by rewrite Z.eqb_refl.
  - rewrite lookup_insert_ne, lookup_abs by done. unfold get, znth.
    destruct (Z.ltb_spec (index h') 0); [done|].
    destruct (decide (index h' = index h)) as [He|He].
    + rewrite He, Hlk, Hs0. simpl.
      destruct (Z.eqb_spec (generation h) (generation h')) as [Hg|].
      * destruct Hh. destruct h, h'; simpl in *; congruence.
      * destruct Hs1 as [->| ->]; simpl; [done|]. by destruct (_ =? _).
    + by rewrite Hne by lia.
Qed.

Lemma proj_used {X} (f : State -> option X) e x :
  x ∈ proj f (slots e) <-> exists h st, chans (abs e) !! h = Some st /\ f st = Some x.
Proof.
  setoid_rewrite lookup_abs. rewrite elem_of_proj. split.
  - intros (s & st & [i Hi]%list_elem_of_lookup & Hst & Hf).
    exists (mkHandle (Z.of_nat i) (slot_generation s)), st. split; [|done].
    unfold get; simpl. rewrite znth_nonneg, Nat2Z.id, Hi by lia. simpl. by rewrite Z.eqb_refl.
  - intros (h & st & (a & b & Hs & _)%get_split & Hf).
    exists (mkSlot (generation h) (Some st)), st. split_and!; [|done|done].
    rewrite Hs. apply elem_of_app. right. by constructor.
Qed.

Lemma peer_in_use_abs e p : peer_number_in_use e p = true <-> peer_used (abs e) p.
Proof. rewrite peer_in_use_spec. apply proj_used. Qed.

Lemma peer_free_abs e p : peer_number_in_use e p = false <-> ~ peer_used (abs e) p.
Proof. rewrite <- peer_in_use_abs. by destruct (peer_number_in_use e p). Qed.

Lemma keys_abs e n :
  Local n ∉ keys e -> ~ local_used (abs e) (Local n) /\ Local n ∉ tombs (abs e).
Proof.
  unfold keys. rewrite elem_of_app, proj_used. intros H. split; [|naive_solver].
  intros (h & st & Hh & Hs). apply H. left. eauto.
Qed.

(** ** Refinement, command by command *)

(** From a state satisfying the invariant the call returns (no panic), the
    invariant holds again and the call is a step of the specification. *)
Definition refines (c : Command) : Prop :=
  forall e, Inv e -> exists e' o,
    exec c e = Some (e', o) /\ Inv e' /\ limits e' = limits e /\
    astep (limits e) (abs e) c (abs e') o.

Lemma refines_noop (r : option (OpeningEngine * Outcome)) c e o :
  r = Some (e, o) -> Inv e -> astep (limits e) (abs e) c (abs e) o ->
  exists e' o, r = Some (e', o) /\ Inv e' /\ limits e' = limits e /\
    astep (limits e) (abs e) c (abs e') o.
Proof. intros. exists e, o. auto. Qed.

(** The invariant does not constrain the queue of outgoing messages. *)
Lemma inv_set_outgoing e q : Inv e -> Inv (set_outgoing q e).
Proof. intros HI. destruct HI. by constructor. Qed.

Lemma abs_ext e cs ts q n :
  chans (abs e) = cs -> tombstones e = ts -> outgoing e = q -> n_issued e = n ->
  abs e = mkA cs ts q n.
Proof. intros <- <- <- <-. done. Qed.

Lemma next_outgoing_refines : refines CmdNextOutgoing.
Proof.
  intros e HI. cbn [exec]. unfold next_outgoing. destruct (outgoing e) as [|m q] eqn:Eq.
  - exists e, (OutNext None). split_and!; try done. by apply as_next_none.
  - exists (set_outgoing q e), (OutNext (Some m)). split_and!; try done.
    + by apply inv_set_outgoing.
    + erewrite (abs_ext (set_outgoing q e)); [by eapply as_next|by apply (chans_eq e)|done..].
Qed.

Lemma open_refines p : refines (CmdOpen p).
Proof.
  intros e HI. unfold exec, open.
  pose proof (a_count_abs is_po e) as Cpo. rewrite <- (inv_po e HI) in Cpo.
  pose proof (a_count_abs Some e) as Clive. rewrite <- (inv_live e HI) in Clive.
  destruct (Z.leb_spec (max_pending_outgoing (limits e)) (pending_outgoing e)) as [H1|H1].
  { eapply refines_noop; [done..|]. apply as_open_refused. cbn [open_refused]. lia. }
  destruct (Z.leb_spec (max_channels (limits e)) (live e)) as [H2|H2].
  { eapply refines_noop; [done..|]. apply as_open_refused. cbn [open_refused]. lia. }
  destruct (allocate_ok e HI) as [[Hx ->]|(e1 & -> & HI1 & Hn & Hn1 & L1 & S1 & F1 & T1 & O1 & P1 & Q1 & V1)].
  { eapply refines_noop; [done..|]. apply as_open_refused. cbn [open_refused].
    pose proof (inv_next e HI) as [_ Hu]. cbn [abs n_numbers]. unfold n_issued, U32_MAX in *. rewrite Hx.
    specialize (Hu Hx). lia. }
  set (st := StPendingOutgoing (op_channel_type p) (Local (n_issued e)) (op_local p)).
  destruct (insert_ok e1 st HI1) as (l' & fr' & h & Hins & _); [rewrite V1, L1; lia|].
  rewrite Hins. cbn [mbind option_bind].
  eexists _, _. split; [reflexivity|].
  set (e2 := push_outgoing _ _).
  assert (Inv e2 /\ chans (abs e2) = <[h := st]> (chans (abs e)) /\ chans (abs e) !! h = None)
    as (HI2 & Hc & Hnone).
  { destruct (chans_inserted e1 _ e2 st h HI1 ltac:(rewrite V1, L1; lia) Hins eq_refl) as [Hnone Hc].
    rewrite (chans_eq e e1 S1) in Hnone, Hc. split_and!; [|done|done].
    eapply (insert_inv e1 st _ h HI1); [rewrite V1, L1; lia|exact Hins|done..| | | | | | ];
      unfold e2, st; simpl; rewrite ?P1, ?Q1, ?L1.
    - done.
    - rewrite zlen_nil. lia.
    - lia.
    - apply HI.
    - rewrite Hn1. apply (keys_ok_fresh _ (keys e)); [apply (n_issued_range e HI)|apply (inv_keys e HI)|].
      unfold keys. by rewrite S1, T1.
    - apply HI1. }
  split_and!; [done|by unfold e2; simpl|].
  erewrite (abs_ext e2); [|exact Hc|unfold e2; simpl; exact T1|unfold e2; simpl; by rewrite O1|
    unfold e2, n_issued; simpl; exact Hn1].
  apply (as_open (limits e) (abs e) p h); try done; [lia..|].
  cbn [abs n_numbers]. unfold U32_MAX in Hn. lia.
Qed.

Lemma po_pos e h ct n lc : Inv e -> get e h = Some (StPendingOutgoing ct n lc) -> 0 < pending_outgoing e.
Proof. intros HI (a & b & Hs & _)%get_split. rewrite (inv_po e HI), Hs, proj_mid. simpl. zlia. Qed.

Lemma pi_pos e h ct n pc : Inv e -> get e h = Some (StPendingIncoming ct n pc) -> 0 < pending_incoming e.
Proof. intros HI (a & b & Hs & _)%get_split. rewrite (inv_pi e HI), Hs, proj_mid. simpl. zlia. Qed.

Lemma get_free_ok_release e h st :
  Inv e -> get e h = Some st ->
  free_ok (free e ++ [index h]) (<[Z.to_nat (index h) := freed_slot h]> (slots e)).
Proof.
  intros HI Hg. destruct (get_split e h st Hg) as (a & b & Hs & Hl & Hi & Hlk & Hins).
  by eapply free_ok_release; [apply inv_free_ok|..].
Qed.

Lemma get_free_ok_keep e h st st' :
  Inv e -> get e h = Some st ->
  free_ok (free e) (<[Z.to_nat (index h) := mkSlot (generation h) (Some st')]> (slots e)).
Proof.
  intros HI Hg. destruct (get_split e h st Hg) as (a & b & Hs & Hl & Hi & Hlk & Hins).
  by eapply free_ok_keep; [apply inv_free_ok|..].
Qed.

Lemma get_generation_u32 e h st : Inv e -> get e h = Some st -> is_u32 (generation h).
Proof.
  intros HI (a & b & Hs & _)%get_split. pose proof (inv_gen e HI) as Hg. rewrite Hs in Hg.
  apply Forall_app in Hg as [_ Hg]. by apply Forall_cons in Hg as [Hg _].
Qed.

(** The engine after a live channel was removed and its counter adjusted. *)
Lemma removed_inv e h st e2 :
  Inv e -> get e h = Some st ->
  limits e2 = limits e -> slots e2 = slots (removed h e) -> free e2 = free (removed h e) ->
  live e2 = live e - 1 -> next_local e2 = next_local e ->
  numbers_exhausted e2 = numbers_exhausted e ->
  pending_outgoing e2 = pending_outgoing e - zlen (option_list (is_po st)) ->
  pending_incoming e2 = pending_incoming e - zlen (option_list (is_pi st)) ->
  tombstones e2 ⊆+ tombstones e ++ option_list (state_local st) ->
  zlen (tombstones e2) <= max_tombstones (limits e) ->
  Inv e2 /\ chans (abs e2) = delete h (chans (abs e)).
Proof.
  intros HI Hg E1 E2 E3 E4 E5 E6 E7 E8 Ht Htl. split; [|by eapply chans_deleted].
  pose proof (zlen_nonneg (option_list (is_po st))). pose proof (zlen_nonneg (option_list (is_pi st))).
  pose proof (inv_po_max e HI). pose proof (inv_pi_max e HI).
  eapply (slot_change_inv e h st (freed_slot h) _ HI Hg); [apply wrapping_add_u32_range
    |by apply (get_free_ok_release e h st)|exact E1|exact E2|exact E3| | | | | | |reflexivity| | |done];
    rewrite ?E5, ?E6; simpl; rewrite ?zlen_nil; try lia.
  - apply HI.
  - intros a b Hab. assert (n_issued e2 = n_issued e) as -> by (unfold n_issued; by rewrite E5, E6).
    eapply keys_ok_sub; [apply (inv_keys e HI)|]. unfold keys. rewrite Hab.
    etransitivity; [apply submseteq_app; [reflexivity|exact Ht]|]. solve_submseteq.
  - intros a b Hab. eapply submseteq_NoDup; [|apply (inv_peers e HI)]. rewrite Hab. cbn [app].
    solve_submseteq.
Qed.

Lemma handle_refused_none e h ph : get e h = None -> handle_refused (abs e) h ph Stale.
Proof. intros H. unfold handle_refused. by rewrite lookup_abs, H. Qed.

Lemma handle_refused_phase e h ph st :
  get e h = Some st -> state_phase st <> ph -> handle_refused (abs e) h ph (WrongPhase (state_phase st)).
Proof. intros H Hp. unfold handle_refused. by rewrite lookup_abs, H. Qed.

Lemma cancel_refines h : refines (CmdCancel h).
Proof.
  intros e HI. unfold exec, cancel. destruct (get e h) as [st|] eqn:Hg.
  2:{ eapply refines_noop; [done..|]. by apply as_cancel_refused, handle_refused_none. }
  destruct st as [ct n lc|ct pn pc|n pn].
  2,3: by eapply refines_noop; [done..|]; apply as_cancel_refused; apply (handle_refused_phase e h _ _ Hg).
  rewrite (remove_ok e h _ HI Hg). cbn [mbind option_bind].
  rewrite checked_sub_1 by (simpl; by eapply po_pos). cbn [mbind option_bind].
  eexists _, _. split; [reflexivity|].
  set (e2 := set_tombstones _ (set_tombstones _ _)).
  destruct (inv_limits e HI) as (_ & _ & _ & Hmt).
  destruct (trim_spec (max_tombstones (limits e)) (tombstones e ++ [n]) Hmt) as (pre & Hpre & Hlen).
  destruct (removed_inv e h _ e2 HI Hg) as [HI2 Hc]; try done.
  - unfold e2; simpl. rewrite zlen_nil. lia.
  - unfold e2; simpl. rewrite Hpre at 2. solve_submseteq.
  - unfold e2; simpl. rewrite Hlen. lia.
  - split_and!; [done|done|].
    erewrite (abs_ext e2); [|exact Hc|done..].
    eapply as_cancel. by rewrite lookup_abs.
Qed.

Lemma refuse_with_ok e h ct pn pc rc d :
  Inv e -> get e h = Some (StPendingIncoming ct pn pc) ->
  exists e', refuse_with h pn rc d e = Some e' /\ Inv e' /\ limits e' = limits e /\
    abs e' = mkA (delete h (chans (abs e))) (tombs (abs e))
               (queue (abs e) ++ [OutOpenFailure pn rc d []]) (n_numbers (abs e)).
Proof.
  intros HI Hg. unfold refuse_with. rewrite (remove_ok e h _ HI Hg). cbn [mbind option_bind].
  rewrite checked_sub_1 by (simpl; by eapply pi_pos). cbn [mbind option_bind].
  eexists. split; [reflexivity|]. set (e2 := push_outgoing _ _).
  destruct (removed_inv e h _ e2 HI Hg) as [HI2 Hc]; try done.
  - unfold e2; simpl. rewrite zlen_nil. lia.
  - unfold e2; simpl. by rewrite app_nil_r.
  - apply HI.
  - split_and!; [done|done|]. by apply abs_ext.
Qed.

Lemma refuse_refines h rc d : refines (CmdRefuse h rc d).
Proof.
  intros e HI. unfold exec, refuse. destruct (get e h) as [st|] eqn:Hg.
  2:{ eapply refines_noop; [done..|]. by apply as_refuse_refused, handle_refused_none. }
  destruct st as [ct n lc|ct pn pc|n pn].
  1,3: by eapply refines_noop; [done..|]; apply as_refuse_refused; apply (handle_refused_phase e h _ _ Hg).
  destruct (refuse_with_ok e h ct pn pc rc d HI Hg) as (e' & -> & HI' & Hl & Ha).
  cbn [mbind option_bind]. eexists _, _. split; [reflexivity|]. split_and!; [done..|].
  rewrite Ha. eapply as_refuse. by rewrite lookup_abs.
Qed.

(** The engine after a pending channel became established. [n] is its local
    number and [p] its peer number; exactly one of them is new. *)
Lemma established_inv e h st n p e2 :
  Inv e -> get e h = Some st ->
  limits e2 = limits e ->
  slots e2 = <[Z.to_nat (index h) := mkSlot (generation h) (Some (StEstablished n p))]> (slots e) ->
  free e2 = free e -> live e2 = live e -> next_local e2 = next_local e ->
  numbers_exhausted e2 = numbers_exhausted e -> tombstones e2 = tombstones e ->
  pending_outgoing e2 = pending_outgoing e - zlen (option_list (is_po st)) ->
  pending_incoming e2 = pending_incoming e - zlen (option_list (is_pi st)) ->
  (state_local st = Some n \/
   (state_local st = None /\ keys_ok (n_issued e) (n :: keys e))) ->
  (state_peer st = Some p \/ (state_peer st = None /\ p ∉ proj state_peer (slots e))) ->
  Inv e2 /\ chans (abs e2) = <[h := StEstablished n p]> (chans (abs e)).
Proof.
  intros HI Hg E1 E2 E3 E4 E5 E6 E7 E8 E9 Hn Hp. split; [|by eapply chans_updated].
  pose proof (zlen_nonneg (option_list (is_po st))). pose proof (zlen_nonneg (option_list (is_pi st))).
  pose proof (inv_po_max e HI). pose proof (inv_pi_max e HI).
  eapply (slot_change_inv e h st (mkSlot (generation h) (Some (StEstablished n p))) _ HI Hg);
    [by eapply get_generation_u32|by apply (get_free_ok_keep e h st)|exact E1|exact E2|exact E3
    | | | | | | |reflexivity| | |rewrite E7; apply HI];
    rewrite ?E5, ?E6; simpl; rewrite ?zlen_cons, ?zlen_nil; try lia.
  - apply HI.
  - intros a b Hab. assert (n_issued e2 = n_issued e) as -> by (unfold n_issued; by rewrite E5, E6).
    rewrite E7. destruct Hn as [Hn|[Hn Hk]]; rewrite Hn in Hab; simpl in Hab.
    + pose proof (inv_keys e HI) as Hk. unfold keys in Hk. by rewrite Hab in Hk.
    + eapply keys_ok_sub; [exact Hk|]. unfold keys. rewrite Hab. solve_submseteq.
  - intros a b Hab. destruct Hp as [Hp|[Hp Hni]]; rewrite Hp in Hab; simpl in Hab.
    + pose proof (inv_peers e HI) as Hk. by rewrite Hab in Hk.
    + apply (submseteq_NoDup _ (p :: proj state_peer (slots e))).
      * rewrite Hab. solve_submseteq.
      * constructor; [done|apply HI].
Qed.

Lemma accept_refines h p : refines (CmdAccept h p).
Proof.
  intros e HI. unfold exec, accept. destruct (get e h) as [st|] eqn:Hg.
  2:{ eapply refines_noop; [done..|]. by apply as_accept_refused, handle_refused_none. }
  destruct st as [ct n lc|ct pn pc|n pn].
  1,3: by eapply refines_noop; [done..|]; apply as_accept_refused; apply (handle_refused_phase e h _ _ Hg).
  destruct (allocate_ok e HI) as [[Hx ->]|(e1 & -> & HI1 & Hn & Hn1 & L1 & S1 & F1 & T1 & O1 & P1 & Q1 & V1)].
  - destruct (refuse_with_ok e h ct pn pc open_failure_reason.RESOURCE_SHORTAGE
      (bstr "channel numbers exhausted") HI Hg) as (e' & -> & HI' & Hl & Ha).
    cbn [mbind option_bind]. eexists _, _. split; [reflexivity|]. split_and!; [done..|].
    rewrite Ha. eapply as_accept_exhausted; [by rewrite lookup_abs|].
    pose proof (inv_next e HI) as [_ Hu]. change (n_numbers (abs e)) with (n_issued e).
    unfold n_issued, U32_MAX in *. rewrite Hx. specialize (Hu Hx). lia.
  - assert (get e1 h = Some (StPendingIncoming ct pn pc)) as Hg1 by (by rewrite (get_slots e e1 S1)).
    rewrite (set_ok e1 h _ _ Hg1). cbn [mbind option_bind].
    rewrite checked_sub_1 by (simpl; by eapply pi_pos). cbn [mbind option_bind].
    eexists _, _. split; [reflexivity|]. set (e2 := push_outgoing _ _).
    destruct (established_inv e1 h _ (Local (n_issued e)) pn e2 HI1 Hg1) as [HI2 Hc]; try done.
    + unfold e2; simpl. rewrite zlen_nil. lia.
    + right. split; [done|]. rewrite Hn1.
      apply (keys_ok_fresh _ (keys e)); [apply (n_issued_range e HI)|apply (inv_keys e HI)|].
      unfold keys. by rewrite S1, T1.
    + by left.
    + split_and!; [done|by unfold e2; simpl|].
      erewrite (abs_ext e2); [|rewrite Hc, (chans_eq e e1 S1); reflexivity|unfold e2; simpl; exact T1
        |unfold e2; simpl; by rewrite O1|unfold e2, n_issued; simpl; exact Hn1].
      eapply as_accept; [by rewrite lookup_abs|].
      change (n_numbers (abs e)) with (n_issued e). unfold U32_MAX in Hn. lia.
Qed.

Lemma proj_all_none {X} (f : State -> option X) l :
  Forall (fun s => slot_state s = None) l -> proj f l = [].
Proof. induction 1 as [|s l Hs _ IH]; [done|]. rewrite proj_cons, Hs, IH. done. Qed.

Lemma transport_lost_refines : refines CmdTransportLost.
Proof.
  intros e HI. unfold exec, transport_lost. pose proof (inv_len e HI) as Hlen.
  destruct (inv_limits e HI) as (Hpo & Hpi & Hm & Ht).
  pose proof (lose_slots_spec (slots e) 0 ltac:(lia) ltac:(lia)) as Hls.
  destruct (lose_slots 0 (slots e)) as [[l' evs] fr].
  destruct Hls as (Hll & Hnone & Hgen & Hfn & Hfr & Hev).
  eexists _, _. split; [reflexivity|]. set (e2 := set_outgoing [] _).
  pose proof (inv_free e HI) as Hfree.
  split_and!; [| done |].
  - constructor; unfold e2; simpl; try apply HI; try (by rewrite proj_all_none); try done.
    + unfold zlen in *. by rewrite Hll.
    + by apply Hgen, HI.
    + apply NoDup_app. split_and!; [apply HI| |done].
      intros j (Hj & s & Hs & Hn)%Hfree (_ & s' & Hs' & Hn')%Hfr.
      rewrite Z.sub_0_r in Hs'. congruence.
    + intros j. rewrite elem_of_app, Hfree, Hfr, Z.sub_0_r. split.
      * intros [(Hj & s & Hs & Hn)|(Hj & s & Hs & Hn)]; (split; [done|]);
          (destruct (lookup_lt_is_Some_2 l' (Z.to_nat j)) as [s' Hs'];
            [rewrite Hll; by eapply lookup_lt_Some|]);
          exists s'; split; [done| |done|]; rewrite Forall_lookup in Hnone; by eapply Hnone.
      * intros (Hj & s' & Hs' & _).
        destruct (lookup_lt_is_Some_2 (slots e) (Z.to_nat j)) as [s Hs].
        { rewrite <- Hll. by eapply lookup_lt_Some. }
        destruct (slot_state s) eqn:Es; [right|left]; (split; [done|]); exists s; split; congruence.
    + split; unfold keys; simpl; rewrite proj_all_none by done; simpl.
      * eapply submseteq_NoDup; [|apply (inv_keys e HI)]. unfold keys. solve_submseteq.
      * eapply submseteq_Forall; [|apply (inv_keys e HI)]. unfold keys. solve_submseteq.
    + rewrite proj_all_none by done. constructor.
  - erewrite (abs_ext e2); [|apply map_eq; intros h; rewrite lookup_abs, lookup_empty|done..].
    + apply as_lost. intros ev. rewrite Hev. setoid_rewrite lookup_abs. split.
      * intros (j & s & st & Hj & Hs & Hst & ->).
        exists (mkHandle (0 + j) (slot_generation s)), st. split; [|done].
        unfold get; cbn [index generation]. rewrite Z.add_0_l, znth_nonneg, Hs by done. simpl.
        by rewrite Z.eqb_refl.
      * intros (h & st & Hh & ->).
        destruct (get_split e h st Hh) as (a & b & Hs & Hl & Hi & Hlk & Hins).
        exists (index h), (mkSlot (generation h) (Some st)), st. split_and!; try done.
        by destruct h.
    + unfold get, e2; simpl. destruct (znth (index h) l') as [s|] eqn:Es; [|done].
      simpl. destruct (_ =? _); [|done]. apply znth_Some in Es as [_ Es].
      rewrite Forall_lookup in Hnone. by eapply Hnone.
Qed.

Lemma handle_open_refines m : refines (CmdHandleOpen m).
Proof.
  intros e HI. unfold exec, handle_open.
  pose proof (a_count_abs is_pi e) as Cpi. rewrite <- (inv_pi e HI) in Cpi.
  pose proof (a_count_abs Some e) as Clive. rewrite <- (inv_live e HI) in Clive.
  destruct (peer_number_in_use e _) eqn:Ep.
  { eapply refines_noop; [done..|]. apply as_peer_open_dup. by apply peer_in_use_abs. }
  apply peer_free_abs in Ep. fold (open_credit m).
  destruct (_ || _) eqn:Efull.
  { eexists _, _. split; [reflexivity|]. split_and!; [by apply inv_set_outgoing|done|].
    erewrite (abs_ext (push_outgoing _ e)); [|by apply (chans_eq e)|done..].
    apply as_peer_open_limit; [done|]. unfold incoming_full. rewrite Cpi, Clive.
    apply orb_true_iff in Efull as [?%Z.leb_le|?%Z.leb_le]; lia. }
  apply orb_false_iff in Efull as [H1%Z.leb_gt H2%Z.leb_gt].
  set (st := StPendingIncoming (ChannelOpen.channel_type m) (Peer (ChannelOpen.sender_channel m))
    (open_credit m)).
  destruct (insert_ok e st HI H2) as (l' & fr' & h & Hins & _).
  rewrite Hins. cbn [mbind option_bind]. eexists _, _. split; [reflexivity|].
  set (e2 := set_pending_incoming _ _).
  destruct (chans_inserted e _ e2 st h HI H2 Hins eq_refl) as [Hnone Hc].
  split_and!; [|done|].
  - eapply (insert_inv e st _ h HI H2 Hins); try done; unfold e2, st; simpl.
    + rewrite zlen_nil. lia.
    + apply HI.
    + lia.
    + apply (inv_keys e HI).
    + constructor; [|apply HI]. rewrite <- peer_in_use_spec, peer_in_use_abs. done.
  - erewrite (abs_ext e2); [|exact Hc|done..]. apply as_peer_open; [done| |done].
    unfold incoming_full. rewrite Cpi, Clive. lia.
Qed.

(** Consuming a tombstone. *)
Lemma consumed_inv e n a b :
  Inv e -> tombstones e = a ++ n :: b -> Inv (set_tombstones (a ++ b) e).
Proof.
  intros HI Ht. pose proof (inv_keys e HI) as Hk. pose proof (inv_tombs e HI) as Htl.
  constructor; simpl; try apply HI.
  - apply (keys_ok_sub (n_issued e) (keys e)); [done|]. unfold keys. simpl. rewrite Ht.
    solve_submseteq.
  - rewrite Ht in Htl. zlia.
Qed.

Lemma reply_violation_dup e n h p :
  get e h = Some (StEstablished (Local n) p) ->
  reply_violation (abs e) n (DuplicateReply (Local n)).
Proof. intros Hg. eapply rv_duplicate. by rewrite lookup_abs. Qed.

Lemma handle_confirmation_refines m : refines (CmdHandleConfirmation m).
Proof.
  intros e HI. unfold exec, handle_open_confirmation. fold (conf_credit m).
  set (n := ChannelOpenConfirmation.recipient_channel m).
  set (pn := Peer (ChannelOpenConfirmation.sender_channel m)).
  destruct (locate_cases e n HI)
    as [(h & ct & lc & -> & Hu & Hg)|[(h & p & -> & Hg)|[(-> & Hin & Hni)|(Hni & Hv)]]].
  - destruct (peer_number_in_use e pn) eqn:Ep.
    { eapply refines_noop; [done..|]. apply as_conf_dup. by apply peer_in_use_abs. }
    cbn [consume_reply]. rewrite Hg. rewrite (set_ok e h _ _ Hg). cbn [mbind option_bind].
    rewrite checked_sub_1 by (simpl; by eapply po_pos). cbn [mbind option_bind].
    eexists _, _. split; [reflexivity|]. set (e2 := set_pending_outgoing _ _).
    destruct (established_inv e h _ (Local n) pn e2 HI Hg) as [HI2 Hc]; try done.
    + unfold e2; simpl. rewrite zlen_nil. lia.
    + by left.
    + right. split; [done|]. rewrite <- peer_in_use_spec. congruence.
    + split_and!; [done|done|]. erewrite (abs_ext e2); [|exact Hc|done..].
      apply as_conf; [by rewrite lookup_abs|by apply peer_free_abs].
  - eapply refines_noop; [done..|]. apply as_conf_violation. by eapply reply_violation_dup.
  - destruct (peer_number_in_use e pn) eqn:Ep.
    { eapply refines_noop; [done..|]. apply as_conf_dup. by apply peer_in_use_abs. }
    destruct (consume_tombstone e n Hin) as (a & b & Ht & _ & ->).
    eexists _, _. split; [reflexivity|].
    split_and!; [by eapply consumed_inv|done|].
    erewrite (abs_ext (set_tombstones _ e)); [|by apply (chans_eq e)|done..].
    apply as_conf_late; [done|by apply peer_free_abs].
  - apply keys_abs in Hni as [Hl Ht].
    destruct Hv as [-> | ->]; (eapply refines_noop; [done..|]); apply as_conf_violation.
    + by apply rv_incoming.
    + by apply rv_unknown.
Qed.

Lemma handle_failure_refines m : refines (CmdHandleFailure m).
Proof.
  intros e HI. unfold exec, handle_open_failure.
  set (n := ChannelOpenFailure.recipient_channel m).
  destruct (locate_cases e n HI)
    as [(h & ct & lc & -> & Hu & Hg)|[(h & p & -> & Hg)|[(-> & Hin & Hni)|(Hni & Hv)]]].
  - cbn [consume_reply]. rewrite (remove_ok e h _ HI Hg). cbn [mbind option_bind].
    rewrite checked_sub_1 by (simpl; by eapply po_pos). cbn [mbind option_bind].
    eexists _, _. split; [reflexivity|]. set (e2 := set_pending_outgoing _ _).
    destruct (removed_inv e h _ e2 HI Hg) as [HI2 Hc]; try done.
    + unfold e2; simpl. rewrite zlen_nil. lia.
    + unfold e2; simpl. solve_submseteq.
    + apply HI.
    + split_and!; [done|done|]. erewrite (abs_ext e2); [|exact Hc|done..].
      eapply as_fail. by rewrite lookup_abs.
  - eapply refines_noop; [done..|]. apply as_fail_violation. by eapply reply_violation_dup.
  - destruct (consume_tombstone e n Hin) as (a & b & Ht & _ & ->).
    eexists _, _. split; [reflexivity|].
    split_and!; [by eapply consumed_inv|done|].
    erewrite (abs_ext (set_tombstones _ e)); [|by apply (chans_eq e)|done..]. by apply as_fail_late.
  - apply keys_abs in Hni as [Hl Ht].
    destruct Hv as [-> | ->]; (eapply refines_noop; [done..|]); apply as_fail_violation.
    + by apply rv_incoming.
    + by apply rv_unknown.
Qed.

Lemma exec_refines c : refines c.
Proof.
  destruct c; auto using next_outgoing_refines, open_refines, cancel_refines, accept_refines,
    refuse_refines, transport_lost_refines, handle_open_refines, handle_confirmation_refines,
    handle_failure_refines.
Qed.

Lemma inv_new lim : limits_ok lim -> Inv (new lim).
Proof.
  intros Hl. pose proof Hl as (H1 & H2 & H3 & H4).
  constructor; simpl; try done; try lia; try apply NoDup_nil_2.
  - zlia.
  - intros i. rewrite elem_of_nil. naive_solver.
  - split; [apply NoDup_nil_2|constructor].
Qed.

(** Steps of the abstract machine. *)
Inductive asteps (lim : OpeningLimits) : AState -> list Command -> AState -> list Outcome -> Prop :=
| asteps_nil s : asteps lim s [] s []
| asteps_cons s c s1 o cs s2 os :
    astep lim s c s1 o -> asteps lim s1 cs s2 os -> asteps lim s (c :: cs) s2 (o :: os).

Lemma run_refines cs : forall e,
  Inv e -> exists e' os, run cs e = Some (e', os) /\ Inv e' /\ limits e' = limits e /\
    asteps (limits e) (abs e) cs (abs e') os.
Proof.
  induction cs as [|c cs IH]; intros e HI.
  - exists e, []. split_and!; try done. constructor.
  - destruct (exec_refines c e HI) as (e1 & o & Hx & HI1 & L1 & Ha).
    destruct (IH e1 HI1) as (e2 & os & Hr & HI2 & L2 & Has).
    exists e2, (o :: os). cbn [run]. rewrite Hx. cbn [mbind option_bind]. rewrite Hr.
    split_and!; [done|done|congruence|]. econstructor; [done|]. by rewrite <- L1.
Qed.

Definition a_init : AState := mkA ∅ [] [] 0.

Lemma abs_new lim : abs (new lim) = a_init.
Proof. done. Qed.

Lemma run_new lim cs :
  limits_ok lim ->
  exists e os, run cs (new lim) = Some (e, os) /\ Inv e /\ limits e = lim /\
    asteps lim a_init cs (abs e) os.
Proof. intros Hl. apply (run_refines cs (new lim)). by apply inv_new. Qed.
