(* ===== verification/OpeningProps.v ===== *)
(** * The channel-opening engine: properties

    What the refinement of OpeningSpec.v means for the engine's users: no
    panic, exact counters and respected limits, violations without effect,
    numbers never reused on the wire, channels established only by agreement,
    late replies. *)

From stdpp Require Import gmap sorting.
From S2P Require Import Prelude WireError NameList Primitives Messages.
From S2P Require Import Opening OpeningProofs OpeningSpec.

(** ** Numbers on the wire *)

Definition sender_number (m : Outgoing) : option Z :=
  match m with
  | OutOpen _ (Local n) _ _ | OutOpenConfirmation _ (Local n) _ _ => Some n
  | OutOpenFailure _ _ _ _ => None
  end.

(** The local numbers in the messages handed to the binding, in order. *)
Definition sent_numbers (os : list Outcome) : list Z :=
  omap (fun o => match o with OutNext (Some m) => sender_number m | _ => None end) os.

(** The numbers still queued are increasing, between [lo] and the next number. *)
Definition queue_ok (lo : Z) (s : AState) : Prop :=
  lo <= n_numbers s /\ StronglySorted Z.lt (omap sender_number (queue s)) /\
  Forall (fun n => lo <= n < n_numbers s) (omap sender_number (queue s)).

Lemma queue_ok_snoc lo s m cs ts n' :
  queue_ok lo s ->
  match sender_number m with
  | Some n => n = n_numbers s /\ n' = n + 1
  | None => n' = n_numbers s
  end ->
  queue_ok lo (mkA cs ts (queue s ++ [m]) n').
Proof.
  intros (H1 & H2 & H3) Hm. unfold queue_ok; cbn [queue n_numbers]. rewrite omap_app.
  destruct (sender_number m) as [n|] eqn:En; simpl; rewrite En.
  - destruct Hm as [-> ->]. split_and!; [lia| |].
    + apply StronglySorted_app_2; [|done|by repeat constructor].
      intros x y Hx%(proj1 (Forall_forall _ _) H3) ->%list_elem_of_singleton. lia.
    + apply Forall_app. split; [|by constructor; [lia|constructor]].
      eapply Forall_impl; [exact H3|]. simpl. lia.
  - subst n'. by rewrite app_nil_r.
Qed.

Lemma queue_ok_same lo s cs ts : queue_ok lo s -> queue_ok lo (mkA cs ts (queue s) (n_numbers s)).
Proof. done. Qed.

Lemma queue_ok_clear lo s cs ts : queue_ok lo s -> queue_ok lo (mkA cs ts [] (n_numbers s)).
Proof. intros (H & _ & _). split_and!; [done|constructor|constructor]. Qed.

(** One step: a popped number is at least [lo] and bounds what follows. *)
Lemma astep_queue lim lo s c s' o :
  astep lim s c s' o -> queue_ok lo s ->
  match sent_numbers [o] with
  | [] => queue_ok lo s'
  | n :: _ => lo <= n /\ queue_ok (n + 1) s'
  end.
Proof.
  intros Hstep Hq. destruct Hstep; cbn; try exact Hq;
    try (by apply queue_ok_snoc); try (by apply queue_ok_clear).
  destruct Hq as (H1 & H2 & H3). rewrite H in H2, H3. cbn in H2, H3.
  unfold queue_ok; cbn [queue n_numbers]. destruct (sender_number m) as [n|] eqn:En.
  - apply StronglySorted_inv in H2 as [H2 Hlt]. apply Forall_cons in H3 as [Hn H3].
    split; [lia|]. split_and!; [lia|done|].
    rewrite Forall_forall in *. intros x Hx. specialize (Hlt x Hx). specialize (H3 x Hx). lia.
  - done.
Qed.

Lemma sent_numbers_cons o os : sent_numbers (o :: os) = sent_numbers [o] ++ sent_numbers os.
Proof. unfold sent_numbers. by rewrite <- omap_app. Qed.

Lemma sent_numbers_one o : sent_numbers [o] = [] \/ exists n, sent_numbers [o] = [n].
Proof. destruct o as [[[] |]| | | | |]; cbn; eauto; repeat case_match; eauto. Qed.

Lemma asteps_sorted lim s cs s' os :
  asteps lim s cs s' os -> forall lo, queue_ok lo s ->
  StronglySorted Z.lt (sent_numbers os) /\ Forall (fun n => lo <= n) (sent_numbers os).
Proof.
  induction 1 as [|s c s1 o cs s2 os Hstep Hsteps IH]; intros lo Hq.
  - split; constructor.
  - pose proof (astep_queue lim lo s c s1 o Hstep Hq) as H.
    rewrite sent_numbers_cons. destruct (sent_numbers_one o) as [E|[n E]]; rewrite E in *; simpl.
    + by apply IH.
    + destruct H as [Hlo Hq1]. destruct (IH (n + 1) Hq1) as [Hs Hf]. split.
      * constructor; [done|]. eapply Forall_impl; [exact Hf|]. simpl. lia.
      * constructor; [done|]. eapply Forall_impl; [exact Hf|]. simpl. lia.
Qed.

(** ** Properties *)

(** C19: the opening engine refines its abstract specification: from a fresh
    engine every sequence of application commands and peer messages, in any
    order and with any contents, runs to completion without a panic and is a
    run of the specification with the same results. *)
Theorem opening_refinement (lim : OpeningLimits) (cs : list Command) :
  limits_ok lim ->
  exists e os, run cs (new lim) = Some (e, os) /\ asteps lim a_init cs (abs e) os.
Proof. intros Hl. destruct (run_new lim cs Hl) as (e & os & H1 & _ & _ & H2). eauto. Qed.

Definition demo_open : ChannelOpen.t := ChannelOpen.mk (bstr "session") 7 1000 500 [].

Definition demo_cmds : list Command :=
  [CmdHandleOpen demo_open; CmdAccept (mkHandle 0 0) (mkAcceptParams (mkCredit 1 2) []);
   CmdOpen (mkOpenParams (bstr "session") (mkCredit 1 2) []);
   CmdHandleFailure (ChannelOpenFailure.mk 1 4 [] []); CmdNextOutgoing; CmdTransportLost].

Lemma limits_default_ok : limits_ok OpeningLimits_default.
Proof. unfold limits_ok; simpl; lia. Qed.

Lemma opening_refinement_witness :
  exists e os, run demo_cmds (new OpeningLimits_default) = Some (e, os) /\
    asteps OpeningLimits_default a_init demo_cmds (abs e) os.
Proof. apply (opening_refinement OpeningLimits_default demo_cmds). apply limits_default_ok. Defined.

(** C21: in every reachable state the counters equal what they count, all
    configured limits are respected, local numbers are unique among live and
    cancelled channels, and peer numbers are unique among live channels. *)
Theorem opening_invariant (lim : OpeningLimits) (cs : list Command) (e : OpeningEngine)
    (os : list Outcome) :
  limits_ok lim -> run cs (new lim) = Some (e, os) ->
  live e = a_count Some (chans (abs e)) /\ live e <= max_channels lim /\
  pending_outgoing e = a_count is_po (chans (abs e)) /\
  pending_outgoing e <= max_pending_outgoing lim /\
  pending_incoming e = a_count is_pi (chans (abs e)) /\
  pending_incoming e <= max_pending_incoming lim /\
  zlen (tombstones e) <= max_tombstones lim /\
  NoDup (proj state_local (slots e) ++ tombstones e) /\
  NoDup (proj state_peer (slots e)).
Proof.
  intros Hl Hr. destruct (run_new lim cs Hl) as (e' & os' & Hr' & HI & HL & _).
  rewrite Hr in Hr'. injection Hr' as <- <-. rewrite !a_count_abs, <- HL.
  pose proof (proj_Some_len (slots e)). pose proof (inv_len e HI). pose proof (inv_live e HI).
  split_and!; try apply HI. lia.
Qed.

Lemma opening_invariant_witness :
  exists e os, run [CmdHandleOpen demo_open] (new OpeningLimits_default) = Some (e, os) /\
    live e = 1 /\ live e <= 256.
Proof.
  destruct (run [CmdHandleOpen demo_open] (new OpeningLimits_default)) as [[e os]|] eqn:E;
    [|discriminate].
  exists e, os. split; [reflexivity|]. split; [vm_compute in E; by injection E as <- _|].
  apply (opening_invariant OpeningLimits_default [CmdHandleOpen demo_open] e os limits_default_ok E).
Defined.

(** A rejected call has no effect: a peer message answered with a
    violation and a command answered with an error leave the whole engine
    unchanged, the one exception being an [accept] after the local numbers ran
    out, which refuses the peer's open. *)
Theorem opening_errors_no_effect (c : Command) (e e' : OpeningEngine) (o : Outcome) :
  exec c e = Some (e', o) ->
  match o with
  | OutPeer (Err _) | OutHandle (Err _) | OutUnit (Err _) => e' = e
  | OutAccept (Err _) => e' = e \/ numbers_exhausted e = true
  | _ => True
  end.
Proof.
  destruct c; cbn [exec]; intros H.
  - destruct (next_outgoing e). by simplify_eq.
  - apply bind_Some in H as ([e1 r] & H & [= <- <-]). destruct r; [done|].
    unfold open, allocate_number in H. repeat case_match; simplify_eq/=; try done.
    all: by apply bind_Some in H as ([? ?] & _ & [= ]).
  - apply bind_Some in H as ([e1 r] & H & [= <- <-]). destruct r; [done|].
    unfold cancel in H. repeat case_match; simplify_eq/=; try done.
    apply bind_Some in H as (? & _ & H). by apply bind_Some in H as (? & _ & [= ]).
  - apply bind_Some in H as ([e1 r] & H & [= <- <-]). destruct r; [done|].
    unfold accept, allocate_number in H. repeat case_match; simplify_eq/=; auto.
    all: apply bind_Some in H as (? & _ & H); by apply bind_Some in H as (? & _ & [= ]).
  - apply bind_Some in H as ([e1 r] & H & [= <- <-]). destruct r; [done|].
    unfold refuse in H. repeat case_match; simplify_eq/=; try done.
    by apply bind_Some in H as (? & _ & [= ]).
  - destruct (transport_lost e). by simplify_eq.
  - apply bind_Some in H as ([e1 r] & H & [= <- <-]). destruct r; [done|].
    unfold handle_open in H. repeat case_match; simplify_eq/=; try done.
    by apply bind_Some in H as ([? ?] & _ & [= ]).
  - apply bind_Some in H as ([e1 r] & H & [= <- <-]). destruct r; [done|].
    unfold handle_open_confirmation in H. repeat case_match; simplify_eq/=; try done.
    all: apply bind_Some in H as (? & _ & H); by apply bind_Some in H as (? & _ & [= ]).
  - apply bind_Some in H as ([e1 r] & H & [= <- <-]). destruct r; [done|].
    unfold handle_open_failure in H. repeat case_match; simplify_eq/=; try done.
    all: apply bind_Some in H as (? & _ & H); by apply bind_Some in H as (? & _ & [= ]).
Qed.

Lemma opening_errors_no_effect_witness :
  exec (CmdHandleFailure (ChannelOpenFailure.mk 3 4 [] [])) (new OpeningLimits_default) =
    Some (new OpeningLimits_default, OutPeer (Err (UnknownRecipient 3))).
Proof.
  destruct (exec (CmdHandleFailure (ChannelOpenFailure.mk 3 4 [] [])) (new OpeningLimits_default))
    as [[e' o]|] eqn:E; [|discriminate].
  pose proof (opening_errors_no_effect _ _ _ _ E) as H.
  vm_compute in E. injection E as <- <-. cbv beta iota in H. reflexivity.
Defined.

(** Local numbers are never reused on the wire: in every run the sender
    numbers of the OPEN and OPEN_CONFIRMATION messages handed to the binding
    are strictly increasing. *)
Theorem opening_numbers_increasing (lim : OpeningLimits) (cs : list Command) (e : OpeningEngine)
    (os : list Outcome) :
  limits_ok lim -> run cs (new lim) = Some (e, os) -> StronglySorted Z.lt (sent_numbers os).
Proof.
  intros Hl Hr. destruct (run_new lim cs Hl) as (e' & os' & Hr' & _ & _ & Hsteps).
  rewrite Hr in Hr'. injection Hr' as <- <-.
  apply (asteps_sorted lim _ _ _ _ Hsteps 0). split_and!; [done|constructor|constructor].
Qed.

Lemma opening_numbers_increasing_witness :
  exists e os,
    run [CmdOpen (mkOpenParams [] (mkCredit 0 0) []); CmdOpen (mkOpenParams [] (mkCredit 0 0) []);
         CmdNextOutgoing; CmdNextOutgoing] (new OpeningLimits_default) = Some (e, os) /\
    sent_numbers os = [0; 1] /\ StronglySorted Z.lt (sent_numbers os).
Proof.
  destruct (run [CmdOpen (mkOpenParams [] (mkCredit 0 0) []);
    CmdOpen (mkOpenParams [] (mkCredit 0 0) []); CmdNextOutgoing; CmdNextOutgoing]
    (new OpeningLimits_default)) as [[e os]|] eqn:E; [|discriminate].
  exists e, os. split; [reflexivity|]. split; [vm_compute in E; by injection E as _ <-|].
  apply (opening_numbers_increasing OpeningLimits_default _ e os limits_default_ok E).
Defined.

Lemma astep_established lim s c s' o h n p :
  astep lim s c s' o -> chans s' !! h = Some (StEstablished n p) ->
  chans s !! h = Some (StEstablished n p) \/
  (exists params ct pc, c = CmdAccept h params /\ chans s !! h = Some (StPendingIncoming ct p pc)) \/
  (exists m ct lc, c = CmdHandleConfirmation m /\ chans s !! h = Some (StPendingOutgoing ct n lc) /\
     n = Local (ChannelOpenConfirmation.recipient_channel m) /\
     p = Peer (ChannelOpenConfirmation.sender_channel m)).
Proof.
  assert (forall (m : gmap ChannelHandle State) h0 st,
    <[h0 := st]> m !! h = Some (StEstablished n p) ->
    (h0 = h /\ st = StEstablished n p) \/ m !! h = Some (StEstablished n p)) as Hins.
  { intros m h0 st. rewrite lookup_insert_Some. naive_solver. }
  assert (forall (m : gmap ChannelHandle State) h0,
    delete h0 m !! h = Some (StEstablished n p) -> m !! h = Some (StEstablished n p)) as Hdel.
  { intros m h0. rewrite lookup_delete_Some. naive_solver. }
  intros Hstep Hh. destruct Hstep; cbn [chans] in Hh; auto; try (by apply Hdel in Hh; left);
    try (apply Hins in Hh as [[-> Heq]|Hh]; [|by left]); simplify_eq; eauto 10.
Qed.

(** A channel becomes established only by agreement: if a call makes the
    channel of a handle established, it is the application's [accept] of the
    peer's pending open, or the peer's confirmation naming the local number of
    our pending open. *)
Theorem opening_established_by_agreement (lim : OpeningLimits) (cs : list Command)
    (e e' : OpeningEngine) (os : list Outcome) (c : Command) (o : Outcome) (h : ChannelHandle)
    (n : LocalNumber) (p : PeerNumber) :
  limits_ok lim -> run cs (new lim) = Some (e, os) -> exec c e = Some (e', o) ->
  get e' h = Some (StEstablished n p) -> get e h <> Some (StEstablished n p) ->
  (exists params ct pc, c = CmdAccept h params /\ get e h = Some (StPendingIncoming ct p pc)) \/
  (exists m ct lc, c = CmdHandleConfirmation m /\ get e h = Some (StPendingOutgoing ct n lc) /\
     n = Local (ChannelOpenConfirmation.recipient_channel m) /\
     p = Peer (ChannelOpenConfirmation.sender_channel m)).
Proof.
  intros Hl Hr Hx Hh Hne. destruct (run_new lim cs Hl) as (e0 & os0 & Hr0 & HI & _ & _).
  rewrite Hr in Hr0. injection Hr0 as <- <-.
  destruct (exec_refines c e HI) as (e1 & o1 & Hx1 & _ & _ & Hstep).
  rewrite Hx in Hx1. injection Hx1 as <- <-. rewrite <- lookup_abs in Hh.
  destruct (astep_established _ _ _ _ _ h n p Hstep Hh) as [H|H]; rewrite !lookup_abs in H; [done|].
  exact H.
Qed.

Definition demo_conf : ChannelOpenConfirmation.t := ChannelOpenConfirmation.mk 0 9 10 20 [].

Lemma opening_established_by_agreement_witness :
  exists e e' os o,
    run [CmdOpen (mkOpenParams (bstr "session") (mkCredit 1 2) [])] (new OpeningLimits_default) =
      Some (e, os) /\
    exec (CmdHandleConfirmation demo_conf) e = Some (e', o) /\
    ((exists params ct pc, CmdHandleConfirmation demo_conf = CmdAccept (mkHandle 0 0) params /\
        get e (mkHandle 0 0) = Some (StPendingIncoming ct (Peer 9) pc)) \/
     (exists m ct lc, CmdHandleConfirmation demo_conf = CmdHandleConfirmation m /\
        get e (mkHandle 0 0) = Some (StPendingOutgoing ct (Local 0) lc) /\
        Local 0 = Local (ChannelOpenConfirmation.recipient_channel m) /\
        Peer 9 = Peer (ChannelOpenConfirmation.sender_channel m))).
Proof.
  eexists _, _, _, _. split; [reflexivity|]. split; [reflexivity|].
  eapply (opening_established_by_agreement OpeningLimits_default
    [CmdOpen (mkOpenParams (bstr "session") (mkCredit 1 2) [])]).
  - apply limits_default_ok.
  - reflexivity.
  - reflexivity.
  - reflexivity.
  - discriminate.
Defined.

(** ** Late replies *)

Lemma locate_tombstone e n :
  Inv e -> Local n ∈ tombstones e -> locate_reply e n = Ok (TgTombstone (Local n)).
Proof.
  intros HI Hin. destruct (inv_keys e HI) as [Hnd _]. unfold keys in Hnd.
  apply NoDup_app in Hnd as (_ & Hdisj & _).
  destruct (locate_cases e n HI)
    as [(h & ct & lc & _ & _ & Hg)|[(h & p & _ & Hg)|[(-> & _)|(Hni & _)]]].
  - exfalso. apply (Hdisj (Local n)); [|done]. apply proj_used. rewrite <- lookup_abs in Hg. eauto.
  - exfalso. apply (Hdisj (Local n)); [|done]. apply proj_used. rewrite <- lookup_abs in Hg. eauto.
  - done.
  - exfalso. apply Hni. unfold keys. apply elem_of_app. by right.
Qed.

Lemma locate_unknown e n :
  Inv e -> Local n ∉ keys e -> exists v, locate_reply e n = Err v.
Proof.
  intros HI Hni. unfold keys in Hni. rewrite elem_of_app in Hni.
  destruct (locate_cases e n HI)
    as [(h & ct & lc & _ & _ & Hg)|[(h & p & -> & _)|[(_ & Hin & _)|(_ & [-> | ->])]]]; eauto.
  - exfalso. apply Hni. left. apply proj_used. rewrite <- lookup_abs in Hg. eauto.
  - tauto.
Qed.

Lemma astep_cancel_inv lim s s' h o ct n lc :
  astep lim s (CmdCancel h) s' o -> chans s !! h = Some (StPendingOutgoing ct n lc) ->
  o = OutUnit (Ok tt) /\ chans s' = delete h (chans s) /\
  tombs s' = trim_tombstones (max_tombstones lim) (tombs s ++ [n]).
Proof.
  intros Hstep Hh. inversion Hstep as [| | | |h' ct' n' lc' Hh'|h' er Href| | | | | | | | | | | | | | | |];
    subst.
  - rewrite Hh in Hh'. by injection Hh' as <- <- <-.
  - unfold handle_refused in Href. rewrite Hh in Href. by destruct Href.
Qed.

(** Withdrawing an open: after [cancel] of a pending outgoing open (with
    room for a tombstone) the handle is stale, a refusal arriving afterwards is
    reported as a late reply for that number and consumes the tombstone, and a
    second reply is a violation. *)
Theorem opening_cancel_late_reply (lim : OpeningLimits) (cs : list Command) (e : OpeningEngine)
    (os : list Outcome) (h : ChannelHandle) (ct : bytes) (n : Z) (lc : Credit)
    (m : ChannelOpenFailure.t) :
  limits_ok lim -> 0 < max_tombstones lim -> run cs (new lim) = Some (e, os) ->
  get e h = Some (StPendingOutgoing ct (Local n) lc) ->
  ChannelOpenFailure.recipient_channel m = n ->
  exists e1 e2 v,
    cancel h e = Some (e1, Ok tt) /\ get e1 h = None /\
    handle_open_failure m e1 =
      Some (e2, Ok (EvLateReply (Local n) (LateRefused (ChannelOpenFailure.reason_code m)))) /\
    handle_open_failure m e2 = Some (e2, Err v).
Proof.
  intros Hl Ht Hr Hg Hm. destruct (run_new lim cs Hl) as (e0 & os0 & Hr0 & HI & HL & _).
  rewrite Hr in Hr0. injection Hr0 as <- <-.
  destruct (cancel_refines h e HI) as (e1 & o1 & Hx & HI1 & L1 & Hstep).
  cbn [exec] in Hx. apply bind_Some in Hx as ([e1' r] & Hc & [= -> <-]).
  destruct (astep_cancel_inv _ _ _ _ _ ct (Local n) lc Hstep) as (Ho & Hch & Htomb);
    [by rewrite lookup_abs|]. injection Ho as ->. cbn [abs tombs] in Htomb. subst n lim.
  set (n := ChannelOpenFailure.recipient_channel m) in *.
  assert (Local n ∈ tombstones e1) as Hin.
  { rewrite Htomb. destruct (trim_spec (max_tombstones (limits e)) (tombstones e ++ [Local n]))
      as (pre & Hpre & Hlen); [lia|].
    revert Hpre Hlen. generalize (trim_tombstones (max_tombstones (limits e)) (tombstones e ++ [Local n])).
    intros T Hpre Hlen. destruct T as [|x l _] using rev_ind.
    - rewrite zlen_nil in Hlen. zlia.
    - rewrite app_assoc in Hpre. apply app_inj_2 in Hpre as [_ [= ->]]; [|done].
      apply elem_of_app. right. by apply list_elem_of_singleton. }
  destruct (consume_tombstone e1 n Hin) as (a & b & Hab & Hna & Hcons).
  assert (Inv (set_tombstones (a ++ b) e1)) as HI2 by (by eapply consumed_inv).
  assert (Local n ∉ keys (set_tombstones (a ++ b) e1)) as Hni.
  { destruct (inv_keys e1 HI1) as [Hnd _]. unfold keys in *. rewrite Hab in Hnd. simpl.
    apply NoDup_app in Hnd as (_ & Hd & Hnd). apply NoDup_app in Hnd as (_ & _ & Hnd).
    apply NoDup_cons in Hnd as [Hnb _]. rewrite !elem_of_app. intros [Hk|[Hk|Hk]]; try done.
    apply (Hd _ Hk). apply elem_of_app. right. by constructor. }
  destruct (locate_unknown _ _ HI2 Hni) as [v Hv].
  exists e1, (set_tombstones (a ++ b) e1), v. split_and!.
  - done.
  - rewrite <- lookup_abs, Hch. apply lookup_delete_eq.
  - unfold handle_open_failure. fold n. rewrite (locate_tombstone e1 n HI1 Hin). by rewrite Hcons.
  - unfold handle_open_failure. fold n. by rewrite Hv.
Qed.

Lemma opening_cancel_late_reply_witness :
  exists e os e1 e2 v,
    run [CmdOpen (mkOpenParams (bstr "session") (mkCredit 1 2) [])] (new OpeningLimits_default) =
      Some (e, os) /\
    cancel (mkHandle 0 0) e = Some (e1, Ok tt) /\ get e1 (mkHandle 0 0) = None /\
    handle_open_failure (ChannelOpenFailure.mk 0 4 [] []) e1 =
      Some (e2, Ok (EvLateReply (Local 0) (LateRefused 4))) /\
    handle_open_failure (ChannelOpenFailure.mk 0 4 [] []) e2 = Some (e2, Err v).
Proof.
  eexists _, _. 
  pose proof (opening_cancel_late_reply OpeningLimits_default
    [CmdOpen (mkOpenParams (bstr "session") (mkCredit 1 2) [])] _ _ (mkHandle 0 0)
    (bstr "session") 0 (mkCredit 1 2) (ChannelOpenFailure.mk 0 4 [] []) limits_default_ok
    ltac:(simpl; lia) eq_refl eq_refl eq_refl) as (e1 & e2 & v & H).
  exists e1, e2, v. split; [reflexivity|exact H].
Defined.

(** ** Messages the engine queues *)

Definition outgoing_wf (m : Outgoing) : Prop :=
  match m with
  | OutOpen ct (Local n) c _ =>
      zlen ct <= U32_MAX /\ is_u32 n /\ is_u32 (initial_window_size c) /\ is_u32 (maximum_packet_size c)
  | OutOpenConfirmation (Peer p) (Local n) c _ =>
      is_u32 p /\ is_u32 n /\ is_u32 (initial_window_size c) /\ is_u32 (maximum_packet_size c)
  | OutOpenFailure (Peer p) rc d l =>
      is_u32 p /\ is_u32 rc /\ zlen d <= U32_MAX /\ zlen l <= U32_MAX
  end.

(** What the peer's engine is handed when it decodes a queued message. *)
Definition outgoing_received (m : Outgoing) (payload : bytes) : Prop :=
  match m with
  | OutOpen ct (Local n) c ts =>
      ChannelOpen.decode payload =
        Ok (ChannelOpen.mk ct n (initial_window_size c) (maximum_packet_size c) ts)
  | OutOpenConfirmation (Peer p) (Local n) c ts =>
      ChannelOpenConfirmation.decode payload =
        Ok (ChannelOpenConfirmation.mk p n (initial_window_size c) (maximum_packet_size c) ts)
  | OutOpenFailure (Peer p) rc d l =>
      ChannelOpenFailure.decode payload = Ok (ChannelOpenFailure.mk p rc d l)
  end.

Definition outgoing_size (m : Outgoing) : Z :=
  match m with
  | OutOpen ct _ _ ts => 17 + zlen ct + zlen ts
  | OutOpenConfirmation _ _ _ ts => 17 + zlen ts
  | OutOpenFailure _ _ d l => 17 + zlen d + zlen l
  end.

(** [Outgoing::encode] puts a queued message on the wire faithfully: with
    room for it, it writes the announced number of bytes, and the peer decodes
    exactly the numbers, credit and data the engine queued. *)
Theorem outgoing_encode_faithful (m : Outgoing) (out : bytes) :
  outgoing_wf m -> outgoing_size m <= zlen out ->
  exists out', outgoing_encode m out = (out', Ok (outgoing_size m)) /\
    outgoing_received m (ztake (outgoing_size m) out').
Proof.
  assert (forall A (C : Codec A) (a : A), codec_wf a -> zlen (codec_image a) <= zlen out ->
    exists out', codec_encode a out = (out', Ok (zlen (codec_image a))) /\
      codec_decode (ztake (zlen (codec_image a)) out') = Ok a) as Hgen.
  { intros A C a Hw Hl. destruct (codec_roundtrip a out Hw Hl) as (out' & n & He & Hd).
    rewrite (codec_encode_ok a out Hw Hl) in He. apply pair_equal_spec in He as [<- [= <-]].
    rewrite (codec_encode_ok a out Hw Hl). eauto. }
  destruct m as [ct [n] c ts|[p] [n] c ts|[p] rc d l]; intros Hw Hl; cbn [outgoing_received outgoing_encode].
  - set (a := ChannelOpen.mk ct n (initial_window_size c) (maximum_packet_size c) ts).
    assert (zlen (codec_image a) = outgoing_size (OutOpen ct (Local n) c ts)) as Hz
      by (simpl; unfold ChannelOpen.image; simpl; zlia).
    rewrite <- Hz in *. exact (Hgen _ _ a Hw Hl).
  - set (a := ChannelOpenConfirmation.mk p n (initial_window_size c) (maximum_packet_size c) ts).
    assert (zlen (codec_image a) = outgoing_size (OutOpenConfirmation (Peer p) (Local n) c ts)) as Hz
      by (simpl; unfold ChannelOpenConfirmation.image; simpl; zlia).
    rewrite <- Hz in *. exact (Hgen _ _ a Hw Hl).
  - set (a := ChannelOpenFailure.mk p rc d l).
    assert (zlen (codec_image a) = outgoing_size (OutOpenFailure (Peer p) rc d l)) as Hz
      by (simpl; unfold ChannelOpenFailure.image; simpl; zlia).
    rewrite <- Hz in *. exact (Hgen _ _ a Hw Hl).
Qed.

Lemma outgoing_encode_faithful_witness :
  exists out',
    outgoing_encode (OutOpenFailure (Peer 7) 4 (bstr "no") []) (replicate 32 x00) = (out', Ok 19) /\
    ChannelOpenFailure.decode (ztake 19 out') = Ok (ChannelOpenFailure.mk 7 4 (bstr "no") []).
Proof.
  apply (outgoing_encode_faithful (OutOpenFailure (Peer 7) 4 (bstr "no") [])).
  - repeat split; vm_compute; discriminate.
  - vm_compute; discriminate.
Defined.

(** ** Generations wrap around

    The module documentation says a stale handle cannot alias a newer channel.
    The generation is a wrapping 32-bit counter, so this holds for fewer than
    [2 ^ 32] reuses of a slot; an open refused that many times brings back the
    first handle. *)

Definition idle (g : Z) : OpeningEngine :=
  mkEngine OpeningLimits_default [mkSlot g None] [0] 0 false [] [] 0 0 0.

(** A peer's open, offered to the application under a handle with the
    generation [g]; its refusal; and the message sent for it. *)
Definition refuse_round (g : Z) : list Command :=
  [CmdHandleOpen demo_open; CmdRefuse (mkHandle 0 g) 1 []; CmdNextOutgoing].

Definition offered (g : Z) : Outcome :=
  OutPeer (Ok (EvIncomingOpen (mkHandle 0 g) (bstr "session") (Peer 7) (open_credit demo_open) [])).

Definition refused (g : Z) : list Outcome :=
  [offered g; OutUnit (Ok tt); OutNext (Some (OutOpenFailure (Peer 7) 1 [] []))].

(** The generations of the first [n] uses of a slot from [g] on. *)
Fixpoint generations (g : Z) (n : nat) : list Z :=
  match n with
  | O => []
  | S n => g :: generations (wrapping_add_u32 g 1) n
  end.

Lemma run_app cs1 cs2 e e1 os1 :
  run cs1 e = Some (e1, os1) ->
  run (cs1 ++ cs2) e = (fun p => (fst p, os1 ++ snd p)) <$> run cs2 e1.
Proof.
  revert e os1; induction cs1 as [|c cs1 IH]; intros e os1; cbn [run app].
  - intros [= <- <-]. destruct (run cs2 e) as [[? ?]|]; done.
  - intros ([e2 o] & Hx & ([e3 os] & Hr & [= <- <-])%bind_Some)%bind_Some.
    rewrite Hx. cbn [mbind option_bind]. rewrite (IH _ _ Hr).
    by destruct (run cs2 e3) as [[? ?]|].
Qed.

Lemma refuse_round_step g :
  run (refuse_round g) (idle g) = Some (idle (wrapping_add_u32 g 1), refused g).
Proof.
  set (st := StPendingIncoming (bstr "session") (Peer 7) (open_credit demo_open)).
  set (busy := mkEngine OpeningLimits_default [mkSlot g (Some st)] [] 0 false [] [] 0 1 1).
  assert (exec (CmdHandleOpen demo_open) (idle g) = Some (busy, offered g)) as H1 by reflexivity.
  assert (get busy (mkHandle 0 g) = Some st) as Hg
    by (transitivity (if g =? g then Some st else None); [reflexivity|by rewrite Z.eqb_refl]).
  assert (exec (CmdRefuse (mkHandle 0 g) 1 []) busy =
    Some (set_outgoing [OutOpenFailure (Peer 7) 1 [] []] (idle (wrapping_add_u32 g 1)), OutUnit (Ok tt))) as H2.
  { unfold exec, refuse. rewrite Hg. reflexivity. }
  unfold refuse_round. cbn [run]. rewrite H1. cbn [mbind option_bind]. rewrite H2. reflexivity.
Qed.

Lemma refuse_rounds n g :
  is_u32 g -> run (flat_map refuse_round (generations g n)) (idle g) =
    Some (idle ((g + Z.of_nat n) mod 2 ^ 32), flat_map refused (generations g n)).
Proof.
  revert g; induction n as [|n IH]; intros g Hg; cbn [generations flat_map].
  - cbn [run]. do 3 f_equal. rewrite Z.mod_small; unfold is_u32, U32_MAX in *; lia.
  - rewrite (run_app _ _ _ _ _ (refuse_round_step g)), IH by apply wrapping_add_u32_range.
    cbn [fmap option_fmap option_map fst snd]. do 3 f_equal.
    unfold wrapping_add_u32. rewrite Zplus_mod_idemp_l. f_equal. lia.
Qed.

(** C40: the protection against stale handles has an exact limit: when the peer
    opens a channel [n] times, each open is offered and refused, and then opens
    once more, the handle given out for the first open denotes the channel of the
    last one exactly when [n] is a multiple of [2 ^ 32]: slot generations are 32
    bits and wrap. *)
Theorem opening_stale_handle_alias (n : nat) :
  let g := Z.of_nat n mod 2 ^ 32 in
  exists e, run (flat_map refuse_round (generations 0 n) ++ [CmdHandleOpen demo_open]) (new OpeningLimits_default) =
      Some (e, flat_map refused (generations 0 n) ++ [offered g]) /\
    get e (mkHandle 0 g) = Some (StPendingIncoming (bstr "session") (Peer 7) (open_credit demo_open)) /\
    (get e (mkHandle 0 0) <> None <-> (2 ^ 32 | Z.of_nat n)).
Proof.
  intros g. set (st := StPendingIncoming (bstr "session") (Peer 7) (open_credit demo_open)).
  set (busy := mkEngine OpeningLimits_default [mkSlot g (Some st)] [] 0 false [] [] 0 1 1). exists busy.
  assert (forall h, get busy (mkHandle 0 h) = if h =? g then Some st else None) as Hget.
  { intros h. rewrite Z.eqb_sym. reflexivity. }
  rewrite !Hget, Z.eqb_refl, <- Z.mod_divide by lia. fold g. split_and!; [|done|].
  - destruct n as [|n]; [reflexivity|]. cbn [generations flat_map].
    assert (run (refuse_round 0) (new OpeningLimits_default) = Some (idle 1, refused 0)) as H1 by reflexivity.
    rewrite <- (assoc_L (++)), (run_app _ _ _ _ _ H1). change (wrapping_add_u32 0 1) with 1.
    rewrite (run_app _ _ _ _ _ (refuse_rounds n 1 ltac:(by split))).
    replace ((1 + Z.of_nat n) mod 2 ^ 32) with g by (unfold g; f_equal; lia). reflexivity.
  - destruct (Z.eqb_spec 0 g); split; (done || intros; congruence).
Qed.
