(* ===== verification/TcpIdent.v ===== *)
(** * TCP identification exchange

    Models crates/tatami_ssh_tcp/src/ident.rs: the incremental line reader that
    finds the server's identification among prelude lines, its limits and
    version policy, and the construction of our own identification line. The
    content syntax is that of WireIdent.v. *)

From S2P Require Import Prelude WireError WireIdent.

Definition CR : byte := x0d.
Definition LF : byte := x0a.

(* tcp/ident.rs:49-49 MAX_IDENTIFICATION_LINE *)
Definition MAX_IDENTIFICATION_LINE : Z := 255.

(* tcp/ident.rs:57-67 IdentLimits *)
Record IdentLimits : Type := mkIdentLimits {
  max_prelude_lines : Z;
  max_prelude_bytes : Z;
  max_prelude_line : Z;
  max_identification_line : Z
}.

(* tcp/ident.rs:70-77 IdentLimits::default *)
Definition IdentLimits_default : IdentLimits := mkIdentLimits 64 (8 * 1024) 1024 255.

(* tcp/ident.rs:82-87 LineTerminator *)
Inductive LineTerminator : Type := CrLf | Lf.

(* tcp/ident.rs:92-97 LineTerminator::byte_len *)
Definition byte_len (t : LineTerminator) : Z := match t with CrLf => 2 | Lf => 1 end.

(* tcp/ident.rs:102-107 VersionSupport *)
Inductive VersionSupport : Type := SupSsh2 | SupSsh2Compatibility.

#[export] Instance LineTerminator_eq_decision : EqDecision LineTerminator.
Proof. solve_decision. Defined.

#[export] Instance VersionSupport_eq_decision : EqDecision VersionSupport.
Proof. solve_decision. Defined.

Module TcpIdentification.

(* tcp/ident.rs:111-124 Identification *)
Record t : Type := mk {
  line : bytes;
  terminator : LineTerminator;
  protocol_version : bytes;
  software_version : bytes;
  comments : option bytes;
  support : VersionSupport
}.

End TcpIdentification.

(* tcp/ident.rs:129-135 IdentAnomaly *)
Inductive IdentAnomaly : Type := LfOnlyTerminator | CompatibilityVersion.

(* tcp/ident.rs:163-168 Identification::anomalies *)
Definition anomalies (i : TcpIdentification.t) : list IdentAnomaly :=
  (if bool_decide (TcpIdentification.terminator i = Lf) then [LfOnlyTerminator] else []) ++
  (if bool_decide (TcpIdentification.support i = SupSsh2Compatibility)
   then [CompatibilityVersion] else []).

(* tcp/ident.rs:213-223 InvalidLocalIdentification *)
Inductive InvalidLocalIdentification : Type :=
| LocalBadSoftwareVersion
| LocalTooLong (len : Z).

(* tcp/ident.rs:283-292 InvalidIdentification *)
Inductive InvalidIdentification : Type :=
| InvMissingSeparator | InvBadProtocolVersion | InvBadSoftwareVersion | InvControlCharacter.

(* tcp/ident.rs:265-279 IdentError *)
Inductive IdentError : Type :=
| PreludeLineTooLong
| TooManyPreludeLines
| PreludeBytesExceeded
| IdentificationTooLong
| IdentInvalid (e : InvalidIdentification)
| UnsupportedVersion.

(* tcp/ident.rs:323-345 IdentStep *)
Inductive IdentStep : Type :=
| StepNeedMore
| StepPrelude (line : bytes) (terminator : LineTerminator) (consumed : Z)
| StepIdentification (ident : TcpIdentification.t) (consumed : Z).

(* tcp/ident.rs:246-261 build_identification *)
Definition build_identification (software_version : bytes) :
    result bytes InvalidLocalIdentification :=
  let? content_len := ok_or (encoded_len (bstr "2.0") software_version None)
                        LocalBadSoftwareVersion in
  let? len := ok_or (checked_add_usize content_len 2) (LocalTooLong USIZE_MAX) in
  if MAX_IDENTIFICATION_LINE <? len then Err (LocalTooLong len)
  else
    let line := replicate (Z.to_nat len) x00 in
    let '(line, written) := encode (bstr "2.0") software_version None line in
    let? _ := map_err (fun _ => LocalBadSoftwareVersion) written in
    Ok (write_at content_len [CR; LF] line).

(* tcp/ident.rs:435-444 starts_identification *)
Definition starts_identification (buf : bytes) : option bool :=
  if zlen PREFIX <=? zlen buf then Some (bytes_eqb (ztake (zlen PREFIX) buf) PREFIX)
  else if bytes_eqb buf (ztake (zlen buf) PREFIX) then None
  else Some false.

(* tcp/ident.rs:448-455 find_line *)
Definition find_line (buf : bytes) : option (Z * LineTerminator) :=
  let* lf := position (fun b => byte_eqb b LF) buf in
  if (0 <? lf) && bool_decide (znth (lf - 1) buf = Some CR)
  then Some (lf - 1, CrLf)
  else Some (lf, Lf).

(* tcp/ident.rs:459-487 parse_identification *)
Definition parse_identification (line : bytes) (terminator : LineTerminator) :
    result TcpIdentification.t IdentError :=
  let? content := map_err (fun e => IdentInvalid (match e with
    | MissingPrefix | MissingSeparator => InvMissingSeparator
    | BadProtocolVersion => InvBadProtocolVersion
    | BadSoftwareVersion => InvBadSoftwareVersion
    | ControlCharacter => InvControlCharacter
    end)) (Identification.parse line) in
  let? support := match Identification.protocol_version_class content with
                  | Ssh2 => Ok SupSsh2
                  | Ssh2Compatibility => Ok SupSsh2Compatibility
                  | OtherVersion => Err UnsupportedVersion
                  end in
  Ok (TcpIdentification.mk (Identification.as_bytes content) terminator
        (Identification.protocol_version content) (Identification.software_version content)
        (Identification.comments content) support).

Module IdentificationReader.

(* tcp/ident.rs:349-353 IdentificationReader *)
Record t : Type := mk { limits : IdentLimits; prelude_lines : Z; prelude_bytes : Z }.

(* tcp/ident.rs:358-364 IdentificationReader::new *)
Definition new (limits : IdentLimits) : t := mk limits 0 0.

(* tcp/ident.rs:379-428 IdentificationReader::feed *)
Definition feed (self : t) (buf : bytes) : t * result IdentStep IdentError :=
  let is_ident := starts_identification buf in
  let line_limit :=
    match is_ident with
    | Some true => max_identification_line (limits self)
    | Some false => max_prelude_line (limits self)
    | None => Z.max (max_prelude_line (limits self)) (max_identification_line (limits self))
    end in
  match find_line buf with
  | None =>
      if line_limit <=? zlen buf then
        (self, Err (match is_ident with
                    | Some true => IdentificationTooLong
                    | _ => PreludeLineTooLong
                    end))
      else (self, Ok StepNeedMore)
  | Some (content_len, terminator) =>
      let consumed := content_len + byte_len terminator in
      let line := ztake content_len buf in
      if bool_decide (is_ident = Some true) then
        if max_identification_line (limits self) <? consumed then (self, Err IdentificationTooLong)
        else (self, let? ident := parse_identification line terminator in
                    Ok (StepIdentification ident consumed))
      else if max_prelude_line (limits self) <? consumed then (self, Err PreludeLineTooLong)
      else if max_prelude_lines (limits self) <=? prelude_lines self then
        (self, Err TooManyPreludeLines)
      else
        let total := saturating_add_usize (prelude_bytes self) consumed in
        if max_prelude_bytes (limits self) <? total then (self, Err PreludeBytesExceeded)
        else (mk (limits self) (prelude_lines self + 1) total,
              Ok (StepPrelude line terminator consumed))
  end.

End IdentificationReader.

(** ** Lemmas *)

Lemma find_line_None buf : find_line buf = None <-> Forall (fun b => byte_eqb b LF = false) buf.
Proof.
  unfold find_line. rewrite <- position_None.
  destruct (position _ buf); simpl; [|done]. by destruct (_ && _).
Qed.

(** A found line is content without LF followed by its terminator. *)
Lemma find_line_Some buf n t :
  find_line buf = Some (n, t) ->
  exists a b, buf = a ++ LF :: b /\ Forall (fun b => byte_eqb b LF = false) a /\
    n + byte_len t = zlen a + 1 /\ 0 <= n <= zlen a.
Proof.
  unfold find_line. intros (i & Hi & H)%bind_Some.
  apply position_Some in Hi as (a & x & b & -> & <- & Hx & Ha).
  apply byte_eqb_true in Hx as ->. exists a, b.
  destruct (Z.ltb_spec 0 (zlen a)); simpl in H; [|simplify_eq; simpl; split_and!; try done; zlia].
  case_bool_decide; simplify_eq; simpl; split_and!; try done; zlia.
Qed.

Lemma znth_app_l {A} i (l k : list A) : i < zlen l -> znth i (l ++ k) = znth i l.
Proof.
  intros. unfold znth. destruct (Z.ltb_spec i 0); [done|].
  apply lookup_app_l. unfold zlen in *. lia.
Qed.

(** Scanning does not depend on what follows the terminator. *)
Lemma find_line_app buf more n t :
  find_line buf = Some (n, t) -> find_line (buf ++ more) = Some (n, t).
Proof.
  unfold find_line. intros (i & Hi & H)%bind_Some.
  pose proof Hi as (a & x & b & -> & <- & Hx & Ha)%position_Some.
  rewrite <- app_assoc. simpl. rewrite position_app_Some by done. cbn [mbind option_bind].
  rewrite znth_app_l by lia. rewrite znth_app_l in H by lia. done.
Qed.

Lemma starts_app buf more b :
  starts_identification buf = Some b -> starts_identification (buf ++ more) = Some b.
Proof.
  unfold starts_identification. change (zlen PREFIX) with 4. rewrite zlen_app.
  pose proof (zlen_nonneg more).
  destruct (Z.leb_spec 4 (zlen buf)) as [Hl|Hl].
  - destruct (Z.leb_spec 4 (zlen buf + zlen more)); [|lia].
    by rewrite ztake_app_le.
  - destruct (bytes_eqb buf (ztake (zlen buf) PREFIX)) eqn:E; [done|]. intros [= <-].
    apply bytes_eqb_neq in E.
    destruct (Z.leb_spec 4 (zlen buf + zlen more)) as [Hge|Hlt].
    + f_equal. apply bytes_eqb_neq. intros Heq. apply E.
      assert (ztake (zlen buf) (ztake 4 (buf ++ more)) = ztake (zlen buf) PREFIX) as H1
        by (by rewrite Heq).
      unfold ztake in H1 at 1 2. rewrite take_take in H1.
      replace (Z.to_nat (zlen buf) `min` Z.to_nat 4)%nat with (Z.to_nat (zlen buf)) in H1 by lia.
      change (take (Z.to_nat (zlen buf)) (buf ++ more)) with (ztake (zlen buf) (buf ++ more)) in H1.
      by rewrite ztake_app_exact in H1.
    + destruct (bytes_eqb (buf ++ more) _) eqn:E2; [|done]. apply bytes_eqb_eq in E2.
      destruct E. apply (f_equal (ztake (zlen buf))) in E2. rewrite ztake_app_exact in E2 by done.
      rewrite E2 at 1. unfold ztake. rewrite take_take. f_equal. unfold zlen in *. lia.
Qed.

(** Fewer than four bytes consistent with the prefix contain no terminator. *)
Lemma starts_None buf :
  starts_identification buf = None -> zlen buf < 4 /\ find_line buf = None.
Proof.
  unfold starts_identification. change (zlen PREFIX) with 4.
  destruct (Z.leb_spec 4 (zlen buf)); [done|].
  destruct (bytes_eqb buf _) eqn:E; [|done]. intros _. split; [done|].
  apply bytes_eqb_eq in E. rewrite E. apply find_line_None.
  unfold ztake. apply Forall_take. by repeat constructor.
Qed.

(** Content up to a terminator that was not there before is as long as the
    whole earlier buffer. *)
Lemma find_line_late buf more n t :
  find_line buf = None -> find_line (buf ++ more) = Some (n, t) -> zlen buf + 1 <= n + byte_len t.
Proof.
  intros Hn%find_line_None (a & b & Hab & Ha & -> & _)%find_line_Some.
  enough (zlen buf <= zlen a) by lia.
  destruct (Z.lt_ge_cases (zlen a) (zlen buf)) as [Hlt|]; [|done]. exfalso.
  assert (LF ∈ buf) as Hin.
  { rewrite <- (ztake_app_exact buf more (zlen buf) eq_refl), Hab.
    rewrite ztake_app_ge by lia. apply elem_of_app. right.
    unfold ztake. destruct (Z.to_nat (zlen buf - zlen a)) eqn:E; [lia|]. simpl. by constructor. }
  rewrite Forall_forall in Hn. by apply Hn in Hin.
Qed.

Import IdentificationReader.

Lemma feed_line_app self buf more n t :
  find_line buf = Some (n, t) -> feed self (buf ++ more) = feed self buf.
Proof.
  intros Hf. unfold feed. rewrite (find_line_app _ more _ _ Hf), Hf.
  destruct (starts_identification buf) as [b|] eqn:Es.
  - rewrite (starts_app _ more _ Es). destruct (find_line_Some _ _ _ Hf) as (a & b' & Hab & _ & _ & Hn).
    rewrite ztake_app_le; [done|]. rewrite Hab. zlia.
  - apply starts_None in Es as [_ Es]. congruence.
Qed.

Lemma feed_need_more self buf r' :
  feed self buf = (r', Ok StepNeedMore) ->
  r' = self /\ find_line buf = None /\
  zlen buf < Z.max (max_prelude_line (limits self)) (max_identification_line (limits self)).
Proof.
  unfold feed. destruct (find_line buf) as [[n t]|].
  - case_bool_decide; repeat case_match; try done.
    destruct (parse_identification _ _); simpl; congruence.
  - destruct (starts_identification buf) as [[]|];
      match goal with |- context [?l <=? zlen buf] => destruct (Z.leb_spec l (zlen buf)) end;
      try done; intros [= <-]; split_and!; try done; lia.
Qed.

(** An error on a partial line stays the same error however it continues. *)
Lemma feed_error_app self buf more e :
  4 <= Z.max (max_prelude_line (limits self)) (max_identification_line (limits self)) ->
  find_line buf = None -> feed self buf = (self, Err e) -> feed self (buf ++ more) = (self, Err e).
Proof.
  intros Hlim Hf. unfold feed. rewrite Hf.
  destruct (starts_identification buf) as [b|] eqn:Es.
  - rewrite (starts_app _ more _ Es).
    destruct (find_line (buf ++ more)) as [[n t]|] eqn:Ef.
    + pose proof (find_line_late _ _ _ _ Hf Ef).
      destruct b;
        match goal with |- context [?l <=? zlen buf] => destruct (Z.leb_spec l (zlen buf)) end;
        try done.
      * intros [= <-]. rewrite bool_decide_true by done.
        by destruct (Z.ltb_spec (max_identification_line (limits self)) (n + byte_len t)); [|lia].
      * intros [= <-]. rewrite bool_decide_false by done.
        by destruct (Z.ltb_spec (max_prelude_line (limits self)) (n + byte_len t)); [|lia].
    + rewrite zlen_app. pose proof (zlen_nonneg more).
      destruct b;
        match goal with |- context [?l <=? zlen buf] => destruct (Z.leb_spec l (zlen buf)) end;
        try done;
        match goal with |- context [?l <=? zlen buf + ?m] =>
          destruct (Z.leb_spec l (zlen buf + m)) end; try done; lia.
  - apply starts_None in Es as [Hl _].
    match goal with |- context [?l <=? zlen buf] => destruct (Z.leb_spec l (zlen buf)) end; [lia|done].
Qed.

(** The reader's counters stay within its limits. *)
Definition reader_ok (r : IdentificationReader.t) : Prop :=
  0 <= prelude_lines r <= max_prelude_lines (limits r) /\
  0 <= prelude_bytes r <= max_prelude_bytes (limits r).

Lemma saturating_add_le a b m :
  0 <= a -> 0 <= b -> m <= USIZE_MAX -> saturating_add_usize a b <= m -> 0 <= saturating_add_usize a b.
Proof. unfold saturating_add_usize, USIZE_MAX. lia. Qed.

Lemma feed_counters self buf r' res :
  reader_ok self -> feed self buf = (r', res) ->
  reader_ok r' /\ limits r' = limits self /\
  match res with
  | Ok StepNeedMore => True
  | Ok (StepPrelude line t n) =>
      line = ztake (n - byte_len t) buf /\ 0 < n <= zlen buf /\ n <= max_prelude_line (limits self) /\
      prelude_lines r' = prelude_lines self + 1
  | Ok (StepIdentification i n) =>
      TcpIdentification.line i = ztake (n - byte_len (TcpIdentification.terminator i)) buf /\
      0 < n <= zlen buf /\ n <= max_identification_line (limits self) /\ r' = self
  | Err _ => r' = self
  end.
Proof.
  intros Hok. unfold feed. destruct (find_line buf) as [[n t]|] eqn:Ef.
  2:{ match goal with |- context [?l <=? zlen buf] => destruct (l <=? zlen buf) end;
      intros [= <- <-]; done. }
  destruct (find_line_Some _ _ _ Ef) as (a & b & Hab & _ & Hn & Hn2).
  assert (0 < n + byte_len t <= zlen buf) as Hcons by (rewrite Hab; zlia).
  assert (n + byte_len t - byte_len t = n) as Hsub by lia.
  case_bool_decide as Hid.
  - destruct (Z.ltb_spec (max_identification_line (limits self)) (n + byte_len t)); [by intros [= <- <-]|].
    unfold parse_identification. destruct (Identification.parse _) as [id|] eqn:Ep; simpl; [|by intros [= <- <-]].
    apply ident_parse_iff in Ep. destruct id as [i pv sv c]. destruct Ep as (-> & _ & _).
    destruct (Identification.protocol_version_class _); simpl; intros [= <- <-]; simpl;
      rewrite ?Hsub; split_and!; try done; lia.
  - destruct (Z.ltb_spec (max_prelude_line (limits self)) (n + byte_len t)); [by intros [= <- <-]|].
    destruct (Z.leb_spec (max_prelude_lines (limits self)) (prelude_lines self)); [by intros [= <- <-]|].
    destruct (Z.ltb_spec (max_prelude_bytes (limits self))
      (saturating_add_usize (prelude_bytes self) (n + byte_len t))); [by intros [= <- <-]|].
    intros [= <- <-]. rewrite Hsub. destruct Hok as [Hl Hb]. unfold reader_ok; simpl.
    split_and!; try done; try lia. unfold saturating_add_usize, USIZE_MAX. lia.
Qed.

Lemma replicate_app_split (n m : Z) (x : byte) :
  0 <= n -> 0 <= m -> replicate (Z.to_nat (n + m)) x = replicate (Z.to_nat n) x ++ replicate (Z.to_nat m) x.
Proof. intros. rewrite <- replicate_add. f_equal. lia. Qed.

Lemma zlen_replicate {A} n (x : A) : zlen (replicate n x) = Z.of_nat n.
Proof. unfold zlen. by rewrite length_replicate. Qed.

(** What [build_identification] produces. *)
Lemma build_identification_spec sw line :
  build_identification sw = Ok line ->
  ident_fields_ok (bstr "2.0") sw None /\
  line = ident_content (bstr "2.0") sw None ++ [CR; LF] /\ zlen line <= MAX_IDENTIFICATION_LINE.
Proof.
  unfold build_identification.
  destruct (encoded_len (bstr "2.0") sw None) as [n|] eqn:En; [|done]. cbn [ok_or rbind].
  pose proof (encoded_len_Some _ _ _ _ En) as Hn.
  set (content := ident_content (bstr "2.0") sw None) in *.
  destruct (checked_add_usize n 2) as [len|] eqn:El; [|done]. cbn [ok_or rbind].
  apply checked_add_Some in El as ->.
  destruct (Z.ltb_spec MAX_IDENTIFICATION_LINE (n + 2)); [done|].
  pose proof (zlen_nonneg content).
  destruct (encode _ _ _ _) as [l [w|er]] eqn:Ee; [|done]. cbn [map_err rbind].
  destruct (ident_encode_inv _ _ _ _ _ _ Ee) as [Hok Hlen].
  rewrite ident_encode_ok in Ee; [|done|done|].
  2:{ rewrite zlen_replicate. unfold MAX_IDENTIFICATION_LINE, USIZE_MAX in *. lia. }
  apply pair_equal_spec in Ee as [<- _]. fold content. intros <-%Ok_inj.
  rewrite replicate_app_split, zdrop_app_exact by (rewrite ?zlen_replicate; lia).
  assert (write_at n [CR; LF] (content ++ replicate (Z.to_nat 2) x00) = content ++ [CR; LF]) as ->.
  { pose proof (write_at_app n content [CR; LF] (replicate (Z.to_nat 2) x00) [] Hn eq_refl) as H2.
    rewrite !app_nil_r in H2. exact H2. }
  split_and!; [done|done|]. zlia.
Qed.

(** A line or an error found in a prefix of the stream is final. *)
Lemma feed_boundary (r r' : IdentificationReader.t) (buf more : bytes)
    (res : result IdentStep IdentError) :
  4 <= Z.max (max_prelude_line (limits r)) (max_identification_line (limits r)) ->
  feed r buf = (r', res) ->
  match res with
  | Ok StepNeedMore =>
      r' = r /\ zlen buf < Z.max (max_prelude_line (limits r)) (max_identification_line (limits r))
  | _ => feed r (buf ++ more) = (r', res)
  end.
Proof.
  intros Hlim Hf. destruct (find_line buf) as [[n t]|] eqn:El.
  - pose proof (feed_line_app r buf more n t El) as Happ. rewrite Hf in Happ.
    destruct res as [[| |]|]; try done. apply feed_need_more in Hf as (_ & Hno & _). congruence.
  - destruct res as [st|e].
    + assert (st = StepNeedMore) as ->.
      { revert Hf. unfold feed. rewrite El.
        match goal with |- context [?l <=? zlen buf] => destruct (l <=? zlen buf) end; congruence. }
      apply feed_need_more in Hf. naive_solver.
    + assert (r' = r) as ->.
      { revert Hf. unfold feed. rewrite El.
        match goal with |- context [?l <=? zlen buf] => destruct (l <=? zlen buf) end; congruence. }
      by apply feed_error_app.
Qed.

(** ** Properties *)

(** Identification scanning does not depend on read boundaries: a line or
    an error found in the bytes received so far is found unchanged when more
    bytes follow, and while more bytes are needed nothing changes and less
    than the larger line limit is buffered. *)
Theorem ident_feed_boundary_independent (r r' : IdentificationReader.t) (buf more : bytes)
    (res : result IdentStep IdentError) :
  4 <= Z.max (max_prelude_line (limits r)) (max_identification_line (limits r)) ->
  feed r buf = (r', res) ->
  match res with
  | Ok StepNeedMore =>
      r' = r /\ zlen buf < Z.max (max_prelude_line (limits r)) (max_identification_line (limits r))
  | _ => feed r (buf ++ more) = (r', res)
  end.
Proof. apply feed_boundary. Qed.

Lemma ident_feed_boundary_independent_witness :
  let r := IdentificationReader.new IdentLimits_default in
  exists i, feed r (bstr "SSH-2.0-x" ++ [CR; LF]) = (r, Ok (StepIdentification i 11)) /\
    feed r ((bstr "SSH-2.0-x" ++ [CR; LF]) ++ [x00; x00]) = (r, Ok (StepIdentification i 11)).
Proof.
  intros r. eexists. split; [reflexivity|].
  refine (ident_feed_boundary_independent r r (bstr "SSH-2.0-x" ++ [CR; LF]) [x00; x00]
    (Ok (StepIdentification _ 11)) _ _); [simpl; lia|reflexivity].
Defined.

(** The reader's resource limits hold: prelude lines and bytes never
    exceed their bounds, each step consumes at least one and at most the
    buffered bytes, a line is reported exactly as received, and an error or an
    identification leaves the reader unchanged. *)
Theorem ident_feed_limits (r r' : IdentificationReader.t) (buf : bytes)
    (res : result IdentStep IdentError) :
  reader_ok r -> feed r buf = (r', res) ->
  reader_ok r' /\ limits r' = limits r /\
  match res with
  | Ok StepNeedMore => True
  | Ok (StepPrelude line t n) =>
      line = ztake (n - byte_len t) buf /\ 0 < n <= zlen buf /\ n <= max_prelude_line (limits r) /\
      prelude_lines r' = prelude_lines r + 1
  | Ok (StepIdentification i n) =>
      TcpIdentification.line i = ztake (n - byte_len (TcpIdentification.terminator i)) buf /\
      0 < n <= zlen buf /\ n <= max_identification_line (limits r) /\ r' = r
  | Err _ => r' = r
  end.
Proof. apply feed_counters. Qed.

Lemma ident_feed_limits_witness :
  let r := IdentificationReader.new IdentLimits_default in
  reader_ok (fst (feed r (bstr "hello" ++ [LF; LF]))).
Proof.
  intros r.
  refine (proj1 (ident_feed_limits r (fst (feed r (bstr "hello" ++ [LF; LF]))) (bstr "hello" ++ [LF; LF])
    (Ok (StepPrelude (bstr "hello") Lf 6)) _ _)); [|reflexivity].
  unfold reader_ok; simpl; lia.
Defined.

(** Our own identification line is one the other side accepts: what
    [build_identification] returns fits the 255-byte line limit and a reader
    with a conforming limit, fed this line followed by anything, consumes
    exactly the line and reports version 2.0 with the same software version. *)
Theorem build_identification_accepted (sw line rest : bytes) (r : IdentificationReader.t) :
  build_identification sw = Ok line -> MAX_IDENTIFICATION_LINE <= max_identification_line (limits r) ->
  zlen line <= MAX_IDENTIFICATION_LINE /\
  feed r (line ++ rest) =
    (r, Ok (StepIdentification
              (TcpIdentification.mk (ident_content (bstr "2.0") sw None) CrLf (bstr "2.0") sw None SupSsh2)
              (zlen line))).
Proof.
  intros (Hok & Hl & Hlen)%build_identification_spec Hlim. split; [done|].
  set (content := ident_content (bstr "2.0") sw None) in *.
  assert (Forall (fun b => byte_eqb b LF = false) content) as Hnolf.
  { pose proof (content_no_forbidden _ _ _ Hok) as Hnf. unfold no_forbidden in Hnf. fold content in Hnf.
    rewrite Forall_forall. intros b Hb. destruct (byte_eqb b LF) eqn:E; [|done].
    apply byte_eqb_true in E as ->. rewrite <- not_true_iff_false, existsb_exists in Hnf.
    destruct Hnf. exists LF. split; [by apply list_elem_of_In|done]. }
  assert (find_line line = Some (zlen content, CrLf)) as Hfl.
  { unfold find_line. rewrite Hl.
    replace (content ++ [CR; LF]) with ((content ++ [CR]) ++ LF :: []) by (by rewrite <- app_assoc).
    rewrite position_app_Some; [|apply Forall_app; split; [done|by repeat constructor]|done].
    cbn [mbind option_bind]. pose proof (zlen_nonneg content).
    destruct (Z.ltb_spec 0 (zlen (content ++ [CR]))); [|zlia].
    rewrite bool_decide_true; [cbn [andb]; do 2 f_equal; zlia|].
    rewrite znth_nonneg by zlia. rewrite lookup_app_l, lookup_app_r by (unfold zlen in *; rewrite ?length_app in *; simpl in *; lia).
    replace (Z.to_nat _ - length content)%nat with 0%nat; [done|].
    rewrite zlen_app. unfold zlen. simpl. lia. }
  rewrite (feed_line_app _ _ _ _ _ Hfl). unfold feed. rewrite Hfl.
  assert (starts_identification line = Some true) as ->.
  { unfold starts_identification. change (zlen PREFIX) with 4. rewrite Hl.
    destruct (Z.leb_spec 4 (zlen (content ++ [CR; LF]))).
    - done.
    - unfold content in *. rewrite zlen_app, zlen_content in *. zlia. }
  rewrite bool_decide_true by done.
  assert (zlen content + byte_len CrLf = zlen line) as -> by (by rewrite Hl, zlen_app).
  destruct (Z.ltb_spec (max_identification_line (limits r)) (zlen line)); [lia|].
  rewrite Hl at 1. rewrite ztake_app_exact by done. unfold parse_identification.
  rewrite (proj2 (ident_parse_iff content (Identification.mk content (bstr "2.0") sw None))) by done.
  done.
Qed.

Lemma build_identification_accepted_witness :
  exists line, build_identification (bstr "tatami_0.1") = Ok line /\ zlen line = 20 /\
    snd (feed (IdentificationReader.new IdentLimits_default) (line ++ [x00])) =
      Ok (StepIdentification (TcpIdentification.mk (bstr "SSH-2.0-tatami_0.1") CrLf (bstr "2.0")
        (bstr "tatami_0.1") None SupSsh2) 20).
Proof.
  eexists. split; [reflexivity|]. split; [reflexivity|].
  rewrite (proj2 (build_identification_accepted (bstr "tatami_0.1") _ [x00]
    (IdentificationReader.new IdentLimits_default) eq_refl ltac:(vm_compute; discriminate))).
  reflexivity.
Defined.
