(* ===== verification/Packet.v ===== *)
(** * Initial binary packets

    Models crates/tatami_ssh_tcp/src/packet.rs: framing of the unprotected
    packets exchanged before NEWKEYS. A received buffer is a byte list; the
    encoder's output buffer is the byte list before and after the call, and
    the caller's padding closure is a function on the padding region. *)

From S2P Require Import Prelude.

(* tcp/packet.rs:32-32 INITIAL_BLOCK_SIZE *)
Definition INITIAL_BLOCK_SIZE : Z := 8.

(* tcp/packet.rs:34-34 MIN_TOTAL_LEN *)
Definition MIN_TOTAL_LEN : Z := 16.

(* tcp/packet.rs:36-36 MIN_PADDING *)
Definition MIN_PADDING : Z := 4.

(* tcp/packet.rs:38-38 HEADER_LEN *)
Definition HEADER_LEN : Z := 5.

(* tcp/packet.rs:43-43 BASELINE_MAX_TOTAL *)
Definition BASELINE_MAX_TOTAL : Z := 35000.

(* tcp/packet.rs:47-51 PacketLimits *)
Record PacketLimits : Type := mkPacketLimits { max_packet_length : Z }.

(* tcp/packet.rs:53-59 PacketLimits::default *)
Definition PacketLimits_default : PacketLimits := mkPacketLimits (64 * 1024).

(* tcp/packet.rs:63-71 InitialPacket *)
Record InitialPacket : Type := mkInitialPacket {
  payload : bytes;
  padding : bytes;
  total_len : Z
}.

(* tcp/packet.rs:75-85 PacketStep *)
Inductive PacketStep : Type :=
| PacketNeedMore (total_len : option Z)
| PacketComplete (p : InitialPacket).

(* tcp/packet.rs:89-114 PacketError *)
Inductive PacketError : Type :=
| TooLarge (packet_length limit : Z)
| TooSmall (packet_length : Z)
| Misaligned (packet_length : Z)
| BadPadding (packet_length padding_length : Z).

#[global] Instance packet_error_eq_decision : EqDecision PacketError.
Proof. solve_decision. Defined.

(** [usize::try_from] on a [u64] value. *)
Definition usize_try_from (n : Z) : option Z := if n <=? USIZE_MAX then Some n else None.

(* tcp/packet.rs:151-220 decode_initial_packet *)
Definition decode_initial_packet (buf : bytes) (limits : PacketLimits) :
    result PacketStep PacketError :=
  if zlen buf <? 4 then Ok (PacketNeedMore None)
  else
    let packet_length := be_val (ztake 4 buf) in
    if max_packet_length limits <? packet_length then
      Err (TooLarge packet_length (max_packet_length limits))
    else
      let total_u64 := packet_length + 4 in
      if total_u64 <? MIN_TOTAL_LEN then Err (TooSmall packet_length)
      else if negb (total_u64 mod INITIAL_BLOCK_SIZE =? 0) then Err (Misaligned packet_length)
      else
        match usize_try_from total_u64 with
        | None => Err (TooLarge packet_length (max_packet_length limits))
        | Some total_len =>
            if zlen buf <? HEADER_LEN then Ok (PacketNeedMore (Some total_len))
            else
              let padding_length := u8 (default x00 (znth 4 buf)) in
              match (let* pl := usize_try_from packet_length in
                     let* v := checked_sub pl padding_length in checked_sub v 1) with
              | None => Err (BadPadding packet_length padding_length)
              | Some payload_len =>
                  if padding_length <? MIN_PADDING then Err (BadPadding packet_length padding_length)
                  else if zlen buf <? total_len then Ok (PacketNeedMore (Some total_len))
                  else Ok (PacketComplete (mkInitialPacket
                    (zslice HEADER_LEN (HEADER_LEN + payload_len) buf)
                    (zslice (HEADER_LEN + payload_len) total_len buf) total_len))
              end
        end.

(* tcp/packet.rs:278-288 EncodeInitialError *)
Inductive EncodeInitialError : Type :=
| EncInsufficientCapacity (needed available : Z)
| EncPayloadTooLarge.

(** The padding the encoder chooses for [base] bytes of header and payload. *)
(* tcp/packet.rs:253-256 encode_initial_packet_with *)
Definition initial_padding (base : Z) : Z :=
  let padding := INITIAL_BLOCK_SIZE - base mod INITIAL_BLOCK_SIZE in
  if padding <? MIN_PADDING then padding + INITIAL_BLOCK_SIZE else padding.

(* tcp/packet.rs:244-274 encode_initial_packet_with *)
Definition encode_initial_packet_with (payload : bytes) (fill_padding : bytes -> bytes) (out : bytes) :
    bytes * result Z EncodeInitialError :=
  match checked_add_usize HEADER_LEN (zlen payload) with
  | None => (out, Err EncPayloadTooLarge)
  | Some base =>
      let padding := initial_padding base in
      let total := base + padding in
      match u32_try_from (total - 4) with
      | None => (out, Err EncPayloadTooLarge)
      | Some packet_length =>
          if U8_MAX <? padding then (out, Err EncPayloadTooLarge)
          else if zlen out <? total then (out, Err (EncInsufficientCapacity total (zlen out)))
          else
            let out := write_at 0 (be_bytes 4 packet_length) out in
            let out := write_at 4 [byte_of_Z padding] out in
            let out := write_at HEADER_LEN payload out in
            let region := zslice (HEADER_LEN + zlen payload) total out in
            let out := write_at (HEADER_LEN + zlen payload) (fill_padding region) out in
            (out, Ok total)
      end
  end.

(* tcp/packet.rs:229-235 encode_initial_packet *)
Definition encode_initial_packet (payload : bytes) (pad_byte : byte) (out : bytes) :
    bytes * result Z EncodeInitialError :=
  encode_initial_packet_with payload (fun padding => replicate (length padding) pad_byte) out.

(** ** Lemmas *)

Lemma initial_padding_spec base :
  0 <= base ->
  MIN_PADDING <= initial_padding base < MIN_PADDING + INITIAL_BLOCK_SIZE /\
  (base + initial_padding base) mod INITIAL_BLOCK_SIZE = 0.
Proof.
  unfold initial_padding, INITIAL_BLOCK_SIZE, MIN_PADDING. intros Hb.
  pose proof (Z.div_mod base 8 ltac:(lia)) as Hd. pose proof (Z.mod_pos_bound base 8 ltac:(lia)).
  destruct (Z.ltb_spec (8 - base mod 8) 4); (split; [lia|]).
  - replace (base + (8 - base mod 8 + 8)) with ((base / 8 + 2) * 8) by lia. apply Z.mod_mul. lia.
  - replace (base + (8 - base mod 8)) with ((base / 8 + 1) * 8) by lia. apply Z.mod_mul. lia.
Qed.

Lemma PacketComplete_inj p q : PacketComplete p = PacketComplete q -> p = q.
Proof. congruence. Qed.

(** The bytes of a well-formed packet. *)
Definition packet_image (p : InitialPacket) : bytes :=
  be_bytes 4 (total_len p - 4) ++ [byte_of_Z (zlen (padding p))] ++ payload p ++ padding p.

(** The packets the framing rules admit under a length cap. *)
Definition packet_wf (limits : PacketLimits) (p : InitialPacket) : Prop :=
  total_len p = HEADER_LEN + zlen (payload p) + zlen (padding p) /\
  total_len p - 4 <= max_packet_length limits /\ total_len p - 4 <= U32_MAX /\
  MIN_TOTAL_LEN <= total_len p /\ total_len p mod INITIAL_BLOCK_SIZE = 0 /\
  MIN_PADDING <= zlen (padding p) <= U8_MAX.

Lemma zlen_packet_image limits p : packet_wf limits p -> zlen (packet_image p) = total_len p.
Proof.
  intros (-> & _). unfold packet_image, HEADER_LEN. rewrite !zlen_app, zlen_be_bytes. zlia.
Qed.

Lemma usize_try_from_small n : n <= U32_MAX + 4 -> usize_try_from n = Some n.
Proof.
  unfold usize_try_from, U32_MAX, USIZE_MAX. intros.
  by destruct (Z.leb_spec n 18446744073709551615); [|lia].
Qed.

(** Decoding accepts every well-formed packet, whatever follows it. *)
Lemma decode_packet_image limits p rest :
  packet_wf limits p ->
  decode_initial_packet (packet_image p ++ rest) limits = Ok (PacketComplete p).
Proof.
  intros Hwf. pose proof (zlen_packet_image _ _ Hwf) as Hlen. destruct p as [pl pd t].
  destruct Hwf as (Ht & Hmax & Hu & Hmin & Hal & Hp). cbn [total_len padding payload] in *.
  unfold MIN_TOTAL_LEN, MIN_PADDING, U8_MAX, HEADER_LEN in *.
  pose proof (zlen_nonneg pl). pose proof (zlen_nonneg rest).
  unfold decode_initial_packet. rewrite zlen_app, Hlen.
  destruct (Z.ltb_spec (t + zlen rest) 4); [lia|].
  unfold packet_image; cbn [total_len padding payload]. rewrite <- app_assoc.
  rewrite ztake_app_exact by (by rewrite zlen_be_bytes).
  rewrite be_bytes_4 by (unfold is_u32; lia).
  destruct (Z.ltb_spec (max_packet_length limits) (t - 4)); [lia|].
  replace (t - 4 + 4) with t by lia. unfold MIN_TOTAL_LEN.
  destruct (Z.ltb_spec t 16); [lia|]. rewrite Hal. cbn [negb Z.eqb].
  rewrite !usize_try_from_small by lia. unfold HEADER_LEN.
  destruct (Z.ltb_spec (t + zlen rest) 5); [lia|].
  assert (default x00 (znth 4 (be_bytes 4 (t - 4) ++ ([byte_of_Z (zlen pd)] ++ pl ++ pd) ++ rest))
    = byte_of_Z (zlen pd)) as -> by done.
  rewrite u8_byte_of_Z, Z.mod_small by lia. cbn [mbind option_bind]. unfold checked_sub.
  destruct (Z.leb_spec (zlen pd) (t - 4)); [|lia]. cbn [mbind option_bind].
  destruct (Z.leb_spec 1 (t - 4 - zlen pd)); [|lia].
  unfold MIN_PADDING. destruct (Z.ltb_spec (zlen pd) 4); [lia|].
  destruct (Z.ltb_spec (t + zlen rest) t); [lia|]. do 3 f_equal.
  - rewrite <- !app_assoc, (app_assoc _ [_]).
    apply zslice_app_exact; rewrite ?zlen_app, zlen_be_bytes; zlia.
  - rewrite <- !app_assoc, (app_assoc _ [_]), (app_assoc _ pl).
    apply zslice_app_exact; rewrite !zlen_app, zlen_be_bytes; zlia.
Qed.

(** What each outcome of the decoder means. *)
Lemma decode_packet_complete limits buf p :
  decode_initial_packet buf limits = Ok (PacketComplete p) ->
  packet_wf limits p /\ exists rest, buf = packet_image p ++ rest.
Proof.
  unfold decode_initial_packet. destruct (Z.ltb_spec (zlen buf) 4); [done|].
  destruct (zsplit 4 buf) as (a & b & -> & Ha); [zlia|].
  rewrite ztake_app_exact by done. pose proof (be_val_4_range a Ha) as [Hr0 Hr1].
  set (L := be_val a) in *.
  destruct (Z.ltb_spec (max_packet_length limits) L); [done|].
  destruct (Z.ltb_spec (L + 4) MIN_TOTAL_LEN); [done|].
  destruct (Z.eqb_spec ((L + 4) mod INITIAL_BLOCK_SIZE) 0); [|done]. cbn [negb].
  rewrite !usize_try_from_small by lia.
  destruct (Z.ltb_spec (zlen (a ++ b)) HEADER_LEN) as [|H5]; [done|]. unfold HEADER_LEN in *.
  destruct b as [|x b]; [zlia|].
  assert (default x00 (znth 4 (a ++ x :: b)) = x) as ->.
  { rewrite znth_nonneg by lia. rewrite list_lookup_middle; [done|]. unfold zlen in Ha. lia. }
  pose proof (u8_range x). unfold checked_sub. cbn [mbind option_bind].
  destruct (Z.leb_spec (u8 x) L); [|done]. cbn [mbind option_bind].
  destruct (Z.leb_spec 1 (L - u8 x)); [|done].
  destruct (Z.ltb_spec (u8 x) MIN_PADDING); [done|].
  destruct (Z.ltb_spec (zlen (a ++ x :: b)) (L + 4)); [done|].
  intros <-%Ok_inj%PacketComplete_inj.
  destruct (zsplit (L - u8 x - 1) b) as (pl & b' & -> & Hpl); [zlia|].
  destruct (zsplit (u8 x) b') as (pd & rest & -> & Hpd); [zlia|].
  assert (zslice 5 (5 + (L - u8 x - 1)) (a ++ x :: pl ++ pd ++ rest) = pl) as ->.
  { change (x :: ?l) with ([x] ++ l). rewrite app_assoc. apply zslice_app_exact; zlia. }
  assert (zslice (5 + (L - u8 x - 1)) (L + 4) (a ++ x :: pl ++ pd ++ rest) = pd) as ->.
  { change (x :: ?l) with ([x] ++ l). rewrite app_assoc, (app_assoc _ pl). apply zslice_app_exact; zlia. }
  unfold packet_wf, packet_image, HEADER_LEN, U8_MAX; cbn [payload padding total_len].
  split; [split_and!; try done; lia|]. exists rest.
  replace (L + 4 - 4) with L by lia. unfold L. rewrite (be_bytes_of_val 4) by done.
  rewrite Hpd, byte_of_Z_u8, <- !app_assoc. done.
Qed.

(** The decoder's verdict on the length field alone. *)
Definition length_error (limits : PacketLimits) (packet_length : Z) : option PacketError :=
  if max_packet_length limits <? packet_length then Some (TooLarge packet_length (max_packet_length limits))
  else if packet_length + 4 <? MIN_TOTAL_LEN then Some (TooSmall packet_length)
  else if negb ((packet_length + 4) mod INITIAL_BLOCK_SIZE =? 0) then Some (Misaligned packet_length)
  else None.

(** The decoder as a three-stage classification by how much has arrived. *)
Lemma decode_packet_stages limits buf :
  decode_initial_packet buf limits =
  if zlen buf <? 4 then Ok (PacketNeedMore None)
  else
    let L := be_val (ztake 4 buf) in
    match length_error limits L with
    | Some e => Err e
    | None =>
        if zlen buf <? HEADER_LEN then Ok (PacketNeedMore (Some (L + 4)))
        else
          let pad := u8 (default x00 (znth 4 buf)) in
          if (L <? pad + 1) || (pad <? MIN_PADDING) then Err (BadPadding L pad)
          else if zlen buf <? L + 4 then Ok (PacketNeedMore (Some (L + 4)))
          else Ok (PacketComplete (mkInitialPacket
                 (zslice HEADER_LEN (L + 4 - pad) buf) (zslice (L + 4 - pad) (L + 4) buf) (L + 4)))
    end.
Proof.
  unfold decode_initial_packet, length_error. destruct (Z.ltb_spec (zlen buf) 4); [done|].
  assert (is_u32 (be_val (ztake 4 buf))) as [Hr0 Hr1].
  { apply be_val_4_range. apply zlen_ztake. lia. }
  cbv zeta. set (L := be_val (ztake 4 buf)) in *.
  destruct (max_packet_length limits <? L); [done|].
  destruct (L + 4 <? MIN_TOTAL_LEN); [done|].
  destruct (negb _); [done|]. rewrite !usize_try_from_small by lia.
  destruct (zlen buf <? HEADER_LEN); [done|]. pose proof (u8_range (default x00 (znth 4 buf))).
  set (p := u8 _) in *. unfold checked_sub, HEADER_LEN. cbn [mbind option_bind].
  destruct (Z.leb_spec p L), (Z.ltb_spec L (p + 1)); cbn [mbind option_bind orb]; try lia; try done.
  - destruct (Z.leb_spec 1 (L - p)); [lia|done].
  - destruct (Z.leb_spec 1 (L - p)); [|lia]. destruct (p <? MIN_PADDING); [done|].
    replace (5 + (L - p - 1)) with (L + 4 - p) by lia. done.
Qed.

(** A verdict on a prefix of the stream is final. *)
Lemma decode_packet_app limits buf more :
  match decode_initial_packet buf limits with
  | Ok (PacketNeedMore _) => True
  | r => decode_initial_packet (buf ++ more) limits = r
  end.
Proof.
  destruct (decode_initial_packet buf limits) as [[n|p]|e] eqn:E; [done| |].
  - apply decode_packet_complete in E as (Hwf & rest & ->). rewrite <- app_assoc.
    by apply decode_packet_image.
  - revert E. rewrite !decode_packet_stages. destruct (Z.ltb_spec (zlen buf) 4); [done|].
    pose proof (zlen_nonneg more). destruct (Z.ltb_spec (zlen (buf ++ more)) 4); [zlia|].
    rewrite ztake_app_le by lia. cbv zeta. destruct (length_error _ _); [done|].
    unfold HEADER_LEN.
    destruct (Z.ltb_spec (zlen buf) 5); [done|]. destruct (Z.ltb_spec (zlen (buf ++ more)) 5); [zlia|].
    assert (znth 4 (buf ++ more) = znth 4 buf) as ->.
    { rewrite !znth_nonneg by lia. apply lookup_app_l. unfold zlen in *. lia. }
    destruct (_ || _); [done|]. by destruct (zlen buf <? _).
Qed.

(** While more is needed, less than one capped packet is buffered. *)
Lemma decode_packet_need_more limits buf n :
  decode_initial_packet buf limits = Ok (PacketNeedMore n) ->
  zlen buf < 4 /\ n = None \/
  exists t, n = Some t /\ zlen buf < t /\ MIN_TOTAL_LEN <= t /\ t <= max_packet_length limits + 4 /\
    t = be_val (ztake 4 buf) + 4.
Proof.
  rewrite decode_packet_stages. destruct (Z.ltb_spec (zlen buf) 4); [intros [= <-]; by left|].
  cbv zeta. set (L := be_val (ztake 4 buf)). unfold length_error, MIN_TOTAL_LEN, HEADER_LEN, MIN_PADDING.
  destruct (Z.ltb_spec (max_packet_length limits) L); [done|].
  destruct (Z.ltb_spec (L + 4) 16); [done|]. destruct (negb _); [done|].
  destruct (Z.ltb_spec (zlen buf) 5).
  - intros [= <-]. right. exists (L + 4). split_and!; try done; lia.
  - destruct (_ || _); [done|]. destruct (Z.ltb_spec (zlen buf) (L + 4)); [|done].
    intros [= <-]. right. exists (L + 4). split_and!; try done; lia.
Qed.

(** A padding callback writes into the region it is given and cannot resize it. *)
Definition fills (fill : bytes -> bytes) : Prop := forall l, zlen (fill l) = zlen l.

Lemma fills_const b : fills (fun p => replicate (length p) b).
Proof. intros l. unfold zlen. by rewrite length_replicate. Qed.

(** The packet the encoder frames. *)
Definition framed (fill : bytes -> bytes) (pl old : bytes) : InitialPacket :=
  let n := initial_padding (HEADER_LEN + zlen pl) in
  mkInitialPacket pl (fill (zslice (HEADER_LEN + zlen pl) (HEADER_LEN + zlen pl + n) old))
    (HEADER_LEN + zlen pl + n).

Lemma zslice_length (a b : Z) (l : bytes) : 0 <= a <= b -> b <= zlen l -> zlen (zslice a b l) = b - a.
Proof. intros. unfold zslice. rewrite zlen_zdrop; rewrite zlen_ztake; lia. Qed.

(** The encoder on every branch. *)
Lemma encode_packet_spec fill pl out :
  fills fill -> zlen pl <= USIZE_MAX - 16 ->
  encode_initial_packet_with pl fill out =
  let total := HEADER_LEN + zlen pl + initial_padding (HEADER_LEN + zlen pl) in
  if U32_MAX <? total - 4 then (out, Err EncPayloadTooLarge)
  else if zlen out <? total then (out, Err (EncInsufficientCapacity total (zlen out)))
  else (packet_image (framed fill pl out) ++ zdrop total out, Ok total).
Proof.
  intros Hf Hu. unfold encode_initial_packet_with, checked_add_usize, HEADER_LEN.
  pose proof (zlen_nonneg pl). pose proof (initial_padding_spec (5 + zlen pl) ltac:(lia)) as [Hp _].
  unfold MIN_PADDING, INITIAL_BLOCK_SIZE in Hp. unfold USIZE_MAX, HEADER_LEN in *.
  destruct (Z.leb_spec (5 + zlen pl) 18446744073709551615); [|lia].
  cbv zeta. unfold framed, packet_image, HEADER_LEN; cbn [payload padding total_len].
  set (n := initial_padding (5 + zlen pl)) in *. unfold u32_try_from.
  destruct (Z.leb_spec (5 + zlen pl + n - 4) U32_MAX), (Z.ltb_spec U32_MAX (5 + zlen pl + n - 4));
    try lia; [|done].
  unfold U8_MAX. destruct (Z.ltb_spec 255 n); [lia|].
  destruct (Z.ltb_spec (zlen out) (5 + zlen pl + n)) as [|Ho]; [done|]. f_equal.
  destruct (zsplit 4 out) as (h & o1 & -> & Hh); [lia|]. rewrite zlen_app in Ho.
  destruct (zsplit 1 o1) as (pb & o2 & -> & Hpb); [lia|]. rewrite zlen_app in Ho.
  destruct (zsplit (zlen pl) o2) as (op & o3 & -> & Hop); [lia|]. rewrite zlen_app in Ho.
  destruct (zsplit n o3) as (od & o4 & -> & Hod); [lia|].
  assert (forall a b c : bytes, zlen a = 4 -> zlen b = 1 -> zlen c = zlen pl ->
    zslice (5 + zlen pl) (5 + zlen pl + n) (a ++ b ++ c ++ od ++ o4) = od) as Hsl.
  { intros a b c ???. rewrite (app_assoc a b), (app_assoc _ c). apply zslice_app_exact; zlia. }
  rewrite (Hsl h pb op) by done.
  pose proof (write_at_app 0 [] (be_bytes 4 (5 + zlen pl + n - 4)) h (pb ++ op ++ od ++ o4) eq_refl) as W1.
  cbn [app] in W1. rewrite W1 by (by rewrite zlen_be_bytes). clear W1.
  rewrite (write_at_app 4 _ [byte_of_Z n] pb) by done.
  rewrite (app_assoc _ [byte_of_Z n]), (write_at_app 5 _ pl op) by (rewrite ?zlen_app, ?zlen_be_bytes; done).
  rewrite <- (app_assoc _ [byte_of_Z n]), Hsl by done.
  rewrite (app_assoc _ [byte_of_Z n]), (app_assoc _ pl), (write_at_app _ _ (fill od) od);
    [|rewrite !zlen_app, zlen_be_bytes; zlia|by rewrite Hf].
  assert (zdrop (5 + zlen pl + n) (h ++ pb ++ op ++ od ++ o4) = o4) as ->.
  { rewrite (app_assoc h), (app_assoc _ op), (app_assoc _ od). apply zdrop_app_exact. zlia. }
  rewrite Hf, Hod, <- !app_assoc. done.
Qed.

Lemma framed_wf fill limits pl out :
  fills fill -> let p := framed fill pl out in
  total_len p - 4 <= U32_MAX -> total_len p - 4 <= max_packet_length limits ->
  total_len p <= zlen out -> packet_wf limits p.
Proof.
  intros Hf p Hu Hm Ho. pose proof (zlen_nonneg pl).
  pose proof (initial_padding_spec (HEADER_LEN + zlen pl) ltac:(unfold HEADER_LEN; lia)) as [Hp Hal].
  unfold packet_wf, p, framed, MIN_PADDING, INITIAL_BLOCK_SIZE, HEADER_LEN, U8_MAX in *;
    cbn [payload padding total_len] in *.
  rewrite Hf, zslice_length by lia. split_and!; try done; try lia.
  unfold MIN_TOTAL_LEN. destruct (Z.ltb_spec (5 + zlen pl + initial_padding (5 + zlen pl)) 16); [|done].
  assert (5 + zlen pl + initial_padding (5 + zlen pl) = 8 * ((5 + zlen pl + initial_padding (5 + zlen pl)) / 8))
    as Hq by (pose proof (Z.div_mod (5 + zlen pl + initial_padding (5 + zlen pl)) 8); lia). lia.
Qed.

(** A successful encoding has written the framed packet. *)
Lemma encode_packet_inv fill pl out out' m :
  fills fill -> encode_initial_packet_with pl fill out = (out', Ok m) ->
  m = total_len (framed fill pl out) /\ m - 4 <= U32_MAX /\ m <= zlen out /\
  ztake m out' = packet_image (framed fill pl out).
Proof.
  intros Hf Hp. pose proof (zlen_nonneg pl).
  rewrite encode_packet_spec in Hp; [|done|].
  2:{ revert Hp. unfold encode_initial_packet_with, checked_add_usize, HEADER_LEN, u32_try_from.
      pose proof (initial_padding_spec (5 + zlen pl) ltac:(lia)) as [Hpad _].
      unfold MIN_PADDING, INITIAL_BLOCK_SIZE, U32_MAX, USIZE_MAX in *.
      destruct (_ <=? 18446744073709551615); [|done].
      destruct (Z.leb_spec (5 + zlen pl + initial_padding (5 + zlen pl) - 4) 4294967295); [lia|done]. }
  cbv zeta in Hp. change (HEADER_LEN + zlen pl + initial_padding (HEADER_LEN + zlen pl))
    with (total_len (framed fill pl out)) in Hp.
  destruct (Z.ltb_spec U32_MAX (total_len (framed fill pl out) - 4)); [done|].
  destruct (Z.ltb_spec (zlen out) (total_len (framed fill pl out))); [done|].
  apply pair_equal_spec in Hp as [<- <-%Ok_inj]. split_and!; try done.
  apply ztake_app_exact. symmetry.
  apply (zlen_packet_image (mkPacketLimits (total_len (framed fill pl out) - 4))).
  by apply framed_wf.
Qed.

(** ** Properties *)

(** The initial-packet decoder accepts exactly the well-formed packets: it
    reports a complete packet precisely when the buffer starts with the framed
    bytes of a packet within the cap, at least 16 bytes, aligned to 8, with 4
    to 255 bytes of padding; payload, padding and length are those bytes. *)
Theorem packet_decode_exact (buf : bytes) (limits : PacketLimits) (p : InitialPacket) :
  decode_initial_packet buf limits = Ok (PacketComplete p) <->
  packet_wf limits p /\ exists rest, buf = packet_image p ++ rest.
Proof.
  split; [apply decode_packet_complete|]. intros (Hwf & rest & ->). by apply decode_packet_image.
Qed.

(** Packet decoding does not depend on read boundaries, and bad headers are
    refused before any body is buffered: a packet or an error found in the
    bytes so far is found again with more bytes; while the decoder waits it
    holds less than the announced packet, whose size it reports from the length
    field and which the cap bounds; from four bytes on, an unacceptable length
    is an error. *)
Theorem packet_decode_stream (buf more : bytes) (limits : PacketLimits) :
  match decode_initial_packet buf limits with
  | Ok (PacketNeedMore None) => zlen buf < 4
  | Ok (PacketNeedMore (Some t)) =>
      zlen buf < t <= max_packet_length limits + 4 /\ t = be_val (ztake 4 buf) + 4 /\
      length_error limits (t - 4) = None
  | r => decode_initial_packet (buf ++ more) limits = r
  end.
Proof.
  pose proof (decode_packet_app limits buf more) as Happ.
  destruct (decode_initial_packet buf limits) as [[n|p]|e] eqn:E; [|done|done]. clear Happ.
  pose proof (decode_packet_need_more _ _ _ E) as [[Hl ->]|(t & -> & Hl & _ & Hm & Ht)]; [done|].
  split_and!; [done|done|done|]. revert E. rewrite decode_packet_stages.
  destruct (zlen buf <? 4); [done|]. cbv zeta.
  replace (t - 4) with (be_val (ztake 4 buf)) by lia. by destruct (length_error _ _).
Qed.

(** The packet encoder frames what the decoder reads back: when the packet
    fits the output and 32 bits, the encoder writes exactly one well-formed
    packet of an aligned size with the fewest padding bytes that allow it (4 to
    11), leaves the bytes behind it alone, and decoding returns the payload;
    otherwise it reports the size it needed and writes nothing. *)
Theorem packet_roundtrip (pl out rest : bytes) (fill : bytes -> bytes) (limits : PacketLimits) :
  fills fill -> zlen pl <= USIZE_MAX - 16 ->
  let total := HEADER_LEN + zlen pl + initial_padding (HEADER_LEN + zlen pl) in
  match encode_initial_packet_with pl fill out with
  | (out', Ok n) =>
      n = total /\ zlen out' = zlen out /\ zdrop n out' = zdrop n out /\
      n mod INITIAL_BLOCK_SIZE = 0 /\ 4 <= n - HEADER_LEN - zlen pl < 12 /\
      (n - 4 <= max_packet_length limits -> exists pd,
        decode_initial_packet (ztake n out' ++ rest) limits =
          Ok (PacketComplete (mkInitialPacket pl pd n)))
  | (out', Err e) =>
      out' = out /\
      (e = EncPayloadTooLarge /\ U32_MAX < total - 4 \/
       e = EncInsufficientCapacity total (zlen out) /\ zlen out < total)
  end.
Proof.
  intros Hf Hu total. rewrite encode_packet_spec by done. fold total. cbv zeta.
  destruct (Z.ltb_spec U32_MAX (total - 4)); [by auto|].
  destruct (Z.ltb_spec (zlen out) total) as [|Ho]; [by auto|].
  pose proof (zlen_nonneg pl).
  pose proof (initial_padding_spec (HEADER_LEN + zlen pl) ltac:(unfold HEADER_LEN; lia)) as [Hp Hal].
  assert (packet_wf (mkPacketLimits (total - 4)) (framed fill pl out)) as Hwf.
  { apply framed_wf; done. }
  pose proof (zlen_packet_image _ _ Hwf) as Hl. change (total_len (framed fill pl out)) with total in Hl.
  unfold MIN_PADDING, INITIAL_BLOCK_SIZE in *. split_and!; try done; try (unfold total; lia).
  - rewrite zlen_app, Hl, zlen_zdrop; [lia|]. unfold total, HEADER_LEN in *. lia.
  - by apply zdrop_app_exact.
  - intros Hm. eexists. rewrite ztake_app_exact by done.
    apply decode_packet_image. by apply framed_wf.
Qed.

Lemma packet_roundtrip_witness :
  exists out' pd, encode_initial_packet [x15] x00 (replicate 20 xff) = (out', Ok 16) /\
    decode_initial_packet (ztake 16 out' ++ [x01]) PacketLimits_default =
      Ok (PacketComplete (mkInitialPacket [x15] pd 16)).
Proof.
  pose proof (packet_roundtrip [x15] (replicate 20 xff) [x01] (fun p => replicate (length p) x00)
    PacketLimits_default (fills_const x00) ltac:(vm_compute; discriminate)) as H.
  eexists. pose proof (proj2 (proj2 (proj2 (proj2 (proj2 H)))) ltac:(vm_compute; discriminate)) as [pd Hd].
  exists pd. split; [reflexivity|exact Hd].
Defined.
