(* ===== verification/Initial.v ===== *)
(** * The phase before NEWKEYS

    Models crates/tatami_ssh_tcp/src/initial.rs: the input buffer with a hard
    capacity, the packet and byte budgets, and the classification of the
    messages that may precede the first KEXINIT. *)

From S2P Require Import Prelude WireError NameList Primitives Messages KexInit WireIdent TcpIdent Packet.

Module InputBuffer.

(* tcp/initial.rs:30-33 InputBuffer *)
Record t : Type := mk { buf : bytes; capacity : Z }.

(* tcp/initial.rs:37-44 InputOverflow *)
Record InputOverflow : Type := mkOverflow { ov_capacity : Z; pending : Z; offered : Z }.

(* tcp/initial.rs:61-66 InputBuffer::new *)
Definition new (capacity : Z) : t := mk [] capacity.

(* tcp/initial.rs:70-72 InputBuffer::room *)
Definition room (self : t) : Z := capacity self - zlen (buf self).

(* tcp/initial.rs:76-78 InputBuffer::len *)
Definition len (self : t) : Z := zlen (buf self).

(* tcp/initial.rs:82-84 InputBuffer::is_empty *)
Definition is_empty (self : t) : bool := zlen (buf self) =? 0.

(* tcp/initial.rs:94-96 InputBuffer::as_slice *)
Definition as_slice (self : t) : bytes := buf self.

(* tcp/initial.rs:106-116 InputBuffer::push *)
Definition push (self : t) (data : bytes) : t * result unit InputOverflow :=
  if room self <? zlen data then
    (self, Err (mkOverflow (capacity self) (zlen (buf self)) (zlen data)))
  else (mk (buf self ++ data) (capacity self), Ok tt).

(** [drain(..n)] panics ([None]) when [n] exceeds the length. *)
(* tcp/initial.rs:119-121 InputBuffer::consume *)
Definition consume (self : t) (n : Z) : option t :=
  if n <=? zlen (buf self) then Some (mk (zdrop n (buf self)) (capacity self)) else None.

(* tcp/initial.rs:124-126 InputBuffer::clear *)
Definition clear (self : t) : t := mk [] (capacity self).

(** The bound the type promises; it also rules out underflow in [room]. *)
Definition inv (self : t) : Prop := zlen (buf self) <= capacity self.

End InputBuffer.

(* tcp/initial.rs:131-138 InitialLimits *)
Record InitialLimits : Type := mkInitialLimits {
  packet : PacketLimits;
  max_packets : Z;
  max_bytes : Z
}.

(* tcp/initial.rs:140-148 InitialLimits::default *)
Definition InitialLimits_default : InitialLimits :=
  mkInitialLimits PacketLimits_default 16 (256 * 1024).

(* tcp/initial.rs:152-189 InitialError *)
Inductive InitialError : Type :=
| InitIdent (e : IdentError)
| InitPacket (e : PacketError)
| EmptyPayload
| InitMessage (number : Z) (error : MessageError)
| UnexpectedMessage (number : Z)
| UnsupportedTransition (number : Z)
| PacketBudgetExceeded (limit : Z)
| ByteBudgetExceeded (limit : Z)
| InitOverflow (e : InputBuffer.InputOverflow).

(* tcp/initial.rs:194-211 InitialError::code *)
Definition initial_error_code (e : InitialError) : string :=
  match e with
  | InitIdent PreludeLineTooLong => "ident_prelude_line_too_long"
  | InitIdent TooManyPreludeLines => "ident_too_many_prelude_lines"
  | InitIdent PreludeBytesExceeded => "ident_prelude_too_large"
  | InitIdent IdentificationTooLong => "ident_too_long"
  | InitIdent (IdentInvalid _) => "ident_invalid"
  | InitIdent UnsupportedVersion => "ident_unsupported_version"
  | InitPacket _ => "packet_framing"
  | EmptyPayload => "packet_empty_payload"
  | InitMessage _ _ => "message_malformed"
  | UnexpectedMessage _ => "message_unexpected"
  | UnsupportedTransition _ => "unsupported_transition"
  | PacketBudgetExceeded _ => "packet_budget_exceeded"
  | ByteBudgetExceeded _ => "byte_budget_exceeded"
  | InitOverflow _ => "input_overflow"
  end.

(* tcp/initial.rs:258-278 SkippedMessage *)
Inductive SkippedMessage : Type :=
| SkIgnored (data_len : Z)
| SkDebug (always_display : bool) (message language_tag : bytes)
| SkUnimplemented (sequence_number : Z).

(* tcp/initial.rs:284-312 InitialStep *)
Inductive InitialStep : Type :=
| InitNeedMore
| InitSkipped (message : SkippedMessage) (consumed : Z)
| InitKexInit (kexinit : KexInit.t) (payload : bytes) (consumed : Z)
| InitDisconnect (disconnect : Disconnect.t) (consumed : Z)
| InitError (e : InitialError).

Module InitialPackets.

(* tcp/initial.rs:316-320 InitialPackets *)
Record t : Type := mk { limits : InitialLimits; packets : Z; nbytes : Z }.

(* tcp/initial.rs:325-331 InitialPackets::new *)
Definition new (limits : InitialLimits) : t := mk limits 0 0.

(** What becomes of a framed payload: the [match number] of the step. *)
(* tcp/initial.rs:368-424 InitialPackets::step *)
Definition classify (payload : bytes) (consumed : Z) : InitialStep :=
  match payload with
  | [] => InitError EmptyPayload
  | b :: _ =>
      let number := u8 b in
      let on {A} (decoded : result A MessageError) (k : A -> InitialStep) : InitialStep :=
        match decoded with Ok a => k a | Err error => InitError (InitMessage number error) end in
      if number =? Msg.IGNORE then
        on (Ignore.decode payload) (fun i => InitSkipped (SkIgnored (zlen (Ignore.data i))) consumed)
      else if number =? Msg.DEBUG then
        on (DebugMsg.decode payload) (fun d =>
          InitSkipped (SkDebug (DebugMsg.always_display d) (DebugMsg.message d) (DebugMsg.language_tag d)) consumed)
      else if number =? Msg.UNIMPLEMENTED then
        on (Unimplemented.decode payload) (fun u =>
          InitSkipped (SkUnimplemented (Unimplemented.sequence_number u)) consumed)
      else if number =? Msg.DISCONNECT then
        on (Disconnect.decode payload) (fun d => InitDisconnect d consumed)
      else if number =? Msg.KEXINIT then
        on (KexInit.decode payload) (fun k => InitKexInit k payload consumed)
      else if number =? Msg.NEWKEYS then InitError (UnsupportedTransition number)
      else if Msg.is_kex_method_specific number then InitError (UnsupportedTransition number)
      else InitError (UnexpectedMessage number)
  end.

(* tcp/initial.rs:346-425 InitialPackets::step *)
Definition step (self : t) (buf : bytes) : t * InitialStep :=
  match decode_initial_packet buf (packet (limits self)) with
  | Ok (PacketNeedMore _) => (self, InitNeedMore)
  | Err e => (self, InitError (InitPacket e))
  | Ok (PacketComplete p) =>
      let consumed := total_len p in
      if max_packets (limits self) <=? packets self then
        (self, InitError (PacketBudgetExceeded (max_packets (limits self))))
      else
        let bytes := saturating_add_usize (nbytes self) consumed in
        if max_bytes (limits self) <? bytes then
          (self, InitError (ByteBudgetExceeded (max_bytes (limits self))))
        else (mk (limits self) (packets self + 1) bytes, classify (payload p) consumed)
  end.

(** The budgets hold. *)
Definition inv (self : t) : Prop :=
  0 <= packets self <= max_packets (limits self) /\ 0 <= nbytes self <= max_bytes (limits self).

End InitialPackets.

(** ** Lemmas *)

Lemma push_spec b data :
  InputBuffer.inv b ->
  match InputBuffer.push b data with
  | (b', Ok _) => InputBuffer.inv b' /\ InputBuffer.capacity b' = InputBuffer.capacity b /\
                  InputBuffer.buf b' = InputBuffer.buf b ++ data
  | (b', Err _) => b' = b /\ InputBuffer.capacity b < zlen (InputBuffer.buf b ++ data)
  end.
Proof.
  unfold InputBuffer.push, InputBuffer.inv, InputBuffer.room. intros Hi.
  destruct (Z.ltb_spec (InputBuffer.capacity b - zlen (InputBuffer.buf b)) (zlen data)); simpl;
    split_and!; try done; zlia.
Qed.

Lemma consume_ok b n :
  0 <= n <= zlen (InputBuffer.buf b) -> InputBuffer.inv b ->
  exists b', InputBuffer.consume b n = Some b' /\ InputBuffer.inv b' /\
    b' = InputBuffer.mk (zdrop n (InputBuffer.buf b)) (InputBuffer.capacity b).
Proof.
  unfold InputBuffer.consume, InputBuffer.inv. intros Hn Hi.
  destruct (Z.leb_spec n (zlen (InputBuffer.buf b))); [|lia]. eexists; split_and!; try done. simpl.
  rewrite zlen_zdrop; lia.
Qed.

(** The number of bytes a classified packet asks to consume is its size. *)
Definition step_consumed (s : InitialStep) : option Z :=
  match s with
  | InitSkipped _ n | InitKexInit _ _ n | InitDisconnect _ n => Some n
  | InitNeedMore | InitError _ => None
  end.

Lemma classify_consumed pl n : forall m, step_consumed (InitialPackets.classify pl n) = Some m -> m = n.
Proof.
  unfold InitialPackets.classify. intros m. destruct pl as [|b pl]; [done|]. cbv zeta beta.
  repeat (case_match; simpl; try congruence).
Qed.

Lemma classify_not_need_more pl n : InitialPackets.classify pl n <> InitNeedMore.
Proof.
  unfold InitialPackets.classify. destruct pl as [|b pl]; [done|]. cbv zeta beta.
  repeat (case_match; simpl; try congruence).
Qed.

(** The bytes a step leaves alone do not influence it. *)
Lemma initial_step_app self buf more :
  snd (InitialPackets.step self buf) <> InitNeedMore ->
  InitialPackets.step self (buf ++ more) = InitialPackets.step self buf.
Proof.
  unfold InitialPackets.step. pose proof (decode_packet_app (packet (InitialPackets.limits self)) buf more) as H.
  destruct (decode_initial_packet buf _) as [[n|p]|e]; [done|by rewrite H..].
Qed.

(** Everything a step changes, and how much it consumes. *)
Lemma initial_step_spec self buf self' r :
  InitialPackets.inv self -> max_bytes (InitialPackets.limits self) < USIZE_MAX ->
  InitialPackets.step self buf = (self', r) ->
  InitialPackets.inv self' /\ InitialPackets.limits self' = InitialPackets.limits self /\
  match r with
  | InitNeedMore =>
      self' = self /\ zlen buf < max_packet_length (packet (InitialPackets.limits self)) + 4 \/
      self' = self /\ zlen buf < 4
  | InitError _ => True
  | _ => exists p rest, buf = packet_image p ++ rest /\
      packet_wf (packet (InitialPackets.limits self)) p /\ r = InitialPackets.classify (payload p) (total_len p) /\
      step_consumed r = Some (total_len p) /\ MIN_TOTAL_LEN <= total_len p <= zlen buf /\
      InitialPackets.packets self' = InitialPackets.packets self + 1 /\
      InitialPackets.nbytes self' = InitialPackets.nbytes self + total_len p
  end.
Proof.
  unfold InitialPackets.step. intros Hinv Husz.
  destruct (decode_initial_packet buf _) as [[n|p]|e] eqn:Ed; [| |by intros [= <- <-]].
  { intros [= <- <-]. split_and!; [done..|].
    apply decode_packet_need_more in Ed as [[Hl _]|(t & _ & Hl & _ & Ht & _)]; [by right|left].
    split; [done|lia]. }
  destruct (Z.leb_spec (max_packets (InitialPackets.limits self)) (InitialPackets.packets self));
    [by intros [= <- <-]|].
  destruct (Z.ltb_spec (max_bytes (InitialPackets.limits self))
    (saturating_add_usize (InitialPackets.nbytes self) (total_len p))); [by intros [= <- <-]|].
  intros H1; apply pair_equal_spec in H1 as [<- <-].
  apply decode_packet_complete in Ed as (Hwf & rest & ->).
  pose proof (zlen_packet_image _ _ Hwf) as Hl. pose proof Hwf as (_ & _ & _ & Hmin & _).
  unfold MIN_TOTAL_LEN, saturating_add_usize in *. destruct Hinv as [Hp Hb]. split; [|split; [done|]].
  { unfold InitialPackets.inv; simpl. lia. }
  assert (forall m, step_consumed (InitialPackets.classify (payload p) (total_len p)) = Some m -> m = total_len p)
    as Hcons by apply classify_consumed.
  pose proof (classify_not_need_more (payload p) (total_len p)) as Hnm.
  pose proof (zlen_nonneg rest). rewrite zlen_app, Hl.
  destruct (InitialPackets.classify (payload p) (total_len p)) eqn:Ec; [done| | | |done];
    (exists p, rest; rewrite Ec; simpl in *; rewrite (Hcons _ eq_refl); split_and!; try done; lia).
Qed.

(** The messages [classify] sends each way. *)
Lemma classify_kexinit pl n k q m :
  InitialPackets.classify pl n = InitKexInit k q m <-> KexInit.decode pl = Ok k /\ q = pl /\ m = n.
Proof.
  split.
  - unfold InitialPackets.classify. destruct pl as [|b pl]; [done|]. cbv zeta beta.
    repeat (case_match; try done). naive_solver.
  - intros (Hd & -> & ->). pose proof Hd as (Hw & b & _ & ->)%kexinit_decode_iff.
    unfold InitialPackets.classify. cbn [app]. cbv zeta beta.
    change (u8 (byte_of_Z Msg.KEXINIT)) with 20. cbn [Z.eqb Pos.eqb Msg.IGNORE Msg.DEBUG Msg.UNIMPLEMENTED
      Msg.DISCONNECT Msg.KEXINIT].
    cbn [app] in Hd. rewrite Hd. done.
Qed.

(** ** Properties *)

(** The budgets of the phase before KEXINIT hold: the packets and bytes
    accepted never exceed their limits; every accepted packet is the one at the
    front of the buffer, is counted once with its exact size, and its whole
    size (at least 16 bytes, never more than is buffered) is what the caller
    consumes; while more input is needed nothing changes and less than one
    capped packet is held. *)
Theorem initial_step_budgets (self self' : InitialPackets.t) (buf : bytes) (r : InitialStep) :
  InitialPackets.inv self -> max_bytes (InitialPackets.limits self) < USIZE_MAX ->
  InitialPackets.step self buf = (self', r) ->
  InitialPackets.inv self' /\ InitialPackets.limits self' = InitialPackets.limits self /\
  match r with
  | InitNeedMore => self' = self /\
      zlen buf < Z.max 4 (max_packet_length (packet (InitialPackets.limits self)) + 4)
  | InitError _ => True
  | _ => exists p rest, buf = packet_image p ++ rest /\
      packet_wf (packet (InitialPackets.limits self)) p /\
      step_consumed r = Some (total_len p) /\ MIN_TOTAL_LEN <= total_len p <= zlen buf /\
      InitialPackets.packets self' = InitialPackets.packets self + 1 /\
      InitialPackets.nbytes self' = InitialPackets.nbytes self + total_len p
  end.
Proof.
  intros Hi Hu Hs. destruct (initial_step_spec _ _ _ _ Hi Hu Hs) as (H1 & H2 & H3).
  split_and!; [done..|].
  destruct r; [destruct H3 as [[-> ?]|[-> ?]]; split; [done|lia|done|lia]| | | |done]; naive_solver.
Qed.

Definition ignore_packet : bytes :=
  [x00; x00; x00; x0c; x06; x02; x00; x00; x00; x00; x00; x00; x00; x00; x00; x00].

Lemma initial_step_budgets_witness :
  let self := InitialPackets.new InitialLimits_default in
  let self' := InitialPackets.mk InitialLimits_default 1 16 in
  InitialPackets.step self ignore_packet = (self', InitSkipped (SkIgnored 0) 16) /\ InitialPackets.inv self'.
Proof.
  intros self self'. split; [reflexivity|].
  refine (proj1 (initial_step_budgets self self' ignore_packet (InitSkipped (SkIgnored 0) 16) _ _ _)).
  - vm_compute. repeat split; discriminate.
  - vm_compute. reflexivity.
  - reflexivity.
Defined.

(** A KEXINIT the sender encodes and frames is the KEXINIT the receiver
    reports: within the budgets, the step on the framed bytes, followed by
    anything, returns the same value, the exact payload bytes for the exchange
    hash and the exact number of bytes to consume. *)
Theorem initial_kexinit_delivered (self : InitialPackets.t) (k : KexInit.t) (fill : bytes -> bytes)
    (out payload_out frame framed_out rest : bytes) (n m : Z) :
  KexInit.wf k -> fills fill ->
  KexInit.encode k out = (payload_out, Ok n) ->
  encode_initial_packet_with (ztake n payload_out) fill frame = (framed_out, Ok m) ->
  m - 4 <= max_packet_length (packet (InitialPackets.limits self)) ->
  InitialPackets.packets self < max_packets (InitialPackets.limits self) ->
  InitialPackets.nbytes self + m <= max_bytes (InitialPackets.limits self) < USIZE_MAX ->
  InitialPackets.step self (ztake m framed_out ++ rest) =
    (InitialPackets.mk (InitialPackets.limits self) (InitialPackets.packets self + 1)
       (InitialPackets.nbytes self + m),
     InitKexInit k (ztake n payload_out) m).
Proof.
  intros Hw Hf He Hp Hm Hpk Hnb.
  assert (ztake n payload_out = KexInit.image k) as Htk by exact (proj2 (codec_encode_inv k _ _ _ Hw He)).
  rewrite Htk in *. apply encode_packet_inv in Hp as (-> & Hu & Ho & ->); [|done].
  set (p := framed fill (KexInit.image k) frame) in *.
  unfold InitialPackets.step. rewrite decode_packet_image by (by apply framed_wf). cbv zeta.
  destruct (Z.leb_spec (max_packets (InitialPackets.limits self)) (InitialPackets.packets self)); [lia|].
  unfold saturating_add_usize. rewrite Z.min_l by lia.
  destruct (Z.ltb_spec (max_bytes (InitialPackets.limits self)) (InitialPackets.nbytes self + total_len p)); [lia|].
  f_equal. apply classify_kexinit. split_and!; [|done|done]. exact (codec_decode_image k Hw).
Qed.

Lemma initial_kexinit_delivered_witness :
  let k := kexinit_example in
  exists o n f m rest,
    KexInit.encode k (replicate 300 x00) = (o, Ok n) /\
    encode_initial_packet (ztake n o) x00 (replicate 300 x00) = (f, Ok m) /\
    InitialPackets.step (InitialPackets.new InitialLimits_default) (ztake m f ++ rest) =
      (InitialPackets.mk InitialLimits_default 1 m, InitKexInit k (ztake n o) m).
Proof.
  intros k. do 4 eexists. exists [x2a]. split; [vm_compute; reflexivity|]. split; [vm_compute; reflexivity|].
  refine (initial_kexinit_delivered (InitialPackets.new InitialLimits_default) k
    (fun p => replicate (length p) x00) (replicate 300 x00) _ (replicate 300 x00) _ [x2a] _ _
    kexinit_example_wf (fills_const x00) _ _ _ _ _).
  - vm_compute. reflexivity.
  - vm_compute. reflexivity.
  - vm_compute. discriminate.
  - vm_compute. reflexivity.
  - vm_compute. split; [discriminate|reflexivity].
Defined.
