(* ===== verification/Probe.v ===== *)
(** * The initial-offer probe

    Models crates/tatami_ssh_tcp/src/probe.rs: the state machine that observes
    a server's identification and first KEXINIT. A call that can panic
    ([unreachable!], [drain] out of range, an underflowing subtraction) returns
    [None] for the panic; the theorems show that it never does. *)

From S2P Require Import Prelude WireError NameList Primitives Messages KexInit WireIdent TcpIdent Packet Initial.

(* tcp/probe.rs:60-60 DEFAULT_SOFTWARE_VERSION *)
Definition DEFAULT_SOFTWARE_VERSION : bytes := bstr "tatami_0.1.0".

(* tcp/probe.rs:64-78 ProbeConfig *)
Record ProbeConfig : Type := mkProbeConfig {
  software_version : bytes;
  cfg_ident : IdentLimits;
  cfg_packet : PacketLimits;
  max_packets_before_kexinit : Z;
  max_bytes_before_kexinit : Z
}.

(* tcp/probe.rs:80-91 ProbeConfig::default *)
Definition ProbeConfig_default : ProbeConfig :=
  let initial := InitialLimits_default in
  mkProbeConfig DEFAULT_SOFTWARE_VERSION IdentLimits_default (packet initial)
    (max_packets initial) (max_bytes initial).

(* tcp/probe.rs:94-100 ProbeConfig::initial_limits *)
Definition initial_limits (self : ProbeConfig) : InitialLimits :=
  mkInitialLimits (cfg_packet self) (max_packets_before_kexinit self) (max_bytes_before_kexinit self).

(** The sums are those of [usize]; limits for which they overflow are outside
    [config_ok] below. *)
(* tcp/probe.rs:104-111 ProbeConfig::buffer_capacity *)
Definition buffer_capacity (self : ProbeConfig) : Z :=
  let packet := max_packet_length (cfg_packet self) + HEADER_LEN in
  let ident := Z.max (max_prelude_line (cfg_ident self)) (max_identification_line (cfg_ident self)) in
  Z.max packet ident + ident.

(* tcp/probe.rs:116-123 Stage *)
Inductive Stage : Type := StIdentification | StInitialPackets | StFinished.

#[global] Instance stage_eq_decision : EqDecision Stage.
Proof. solve_decision. Defined.

(* tcp/probe.rs:137-166 ProbeEvent *)
Inductive ProbeEvent : Type :=
| EvPreludeLine (line : bytes) (terminator : LineTerminator)
| EvServerIdentification (i : TcpIdentification.t)
| EvIgnored (data_len : Z)
| EvDebug (always_display : bool) (message language_tag : bytes)
| EvUnimplemented (sequence_number : Z).

(* tcp/probe.rs:168-186 ProbeEvent::from *)
Definition event_of_skipped (m : SkippedMessage) : ProbeEvent :=
  match m with
  | SkIgnored data_len => EvIgnored data_len
  | SkDebug always_display message language_tag => EvDebug always_display message language_tag
  | SkUnimplemented sequence_number => EvUnimplemented sequence_number
  end.

(* tcp/probe.rs:191-196 ProposalAnomaly *)
Inductive ProposalAnomaly : Type :=
| NonzeroReserved (v : Z)
| EmptyAlgorithmList (name : string).

(* tcp/probe.rs:201-206 ProposalAnomaly::code *)
Definition anomaly_code (a : ProposalAnomaly) : string :=
  match a with
  | NonzeroReserved _ => "kexinit_nonzero_reserved"
  | EmptyAlgorithmList _ => "kexinit_empty_algorithm_list"
  end.

(* tcp/probe.rs:223-232 Proposal *)
Record Proposal : Type := mkProposal {
  kexinit : OwnedKexInit.t;
  raw_payload : bytes;
  proposal_anomalies : list ProposalAnomaly;
  unexamined_bytes : Z
}.

(* tcp/probe.rs:238-258 Proposal::from_kexinit *)
Definition from_kexinit (k : KexInit.t) (payload : bytes) (unexamined : Z) : Proposal :=
  mkProposal (kexinit_to_owned k) payload
    ((if negb (KexInit.reserved k =? 0) then [NonzeroReserved (KexInit.reserved k)] else []) ++
     map EmptyAlgorithmList (KexInit.empty_algorithm_lists k))
    unexamined.

(* tcp/probe.rs:263-284 ProbeEnd *)
Inductive ProbeEnd : Type :=
| EndProposal (p : Proposal)
| EndDisconnected (reason_code : Z) (description language_tag : bytes)
| EndEof (stage : Stage) (pending_bytes : Z)
| EndError (e : InitialError).

(* tcp/probe.rs:288-295 Step *)
Inductive Step : Type :=
| NeedMore
| Event (e : ProbeEvent)
| Finished (e : ProbeEnd).

Module Probe.

(* tcp/probe.rs:302-309 Probe *)
Record t : Type := mk {
  client_line : bytes;
  stage : Stage;
  ident : IdentificationReader.t;
  packets : InitialPackets.t;
  buf : InputBuffer.t;
  end_ : option ProbeEnd
}.

(* tcp/probe.rs:314-324 Probe::new *)
Definition new (config : ProbeConfig) : result t InvalidLocalIdentification :=
  let? client_line := build_identification (software_version config) in
  Ok (mk client_line StIdentification (IdentificationReader.new (cfg_ident config))
        (InitialPackets.new (initial_limits config))
        (InputBuffer.new (buffer_capacity config)) None).

(* tcp/probe.rs:335-337 Probe::client_identification_line *)
Definition client_identification_line (self : t) : bytes :=
  ztake (zlen (client_line self) - 2) (client_line self).

(* tcp/probe.rs:347-349 Probe::pending_bytes *)
Definition pending_bytes (self : t) : Z := InputBuffer.len (buf self).

(* tcp/probe.rs:353-355 Probe::room *)
Definition room (self : t) : Z := InputBuffer.room (buf self).

(* tcp/probe.rs:393-397 Probe::finish *)
Definition finish (self : t) (e : ProbeEnd) : t * ProbeEnd :=
  (mk (client_line self) StFinished (ident self) (packets self) (buf self) (Some e), e).

Definition set_buf (self : t) (b : InputBuffer.t) : t :=
  mk (client_line self) (stage self) (ident self) (packets self) b (end_ self).

Definition set_stage (self : t) (s : Stage) : t :=
  mk (client_line self) s (ident self) (packets self) (buf self) (end_ self).

(* tcp/probe.rs:360-367 Probe::feed *)
Definition feed (self : t) (data : bytes) : t :=
  if bool_decide (stage self = StFinished) then self
  else
    match InputBuffer.push (buf self) data with
    | (b, Ok _) => set_buf self b
    | (b, Err e) => fst (finish (set_buf self b) (EndError (InitOverflow e)))
    end.

(* tcp/probe.rs:371-379 Probe::input_ended *)
Definition input_ended (self : t) : t * ProbeEnd :=
  match end_ self with
  | Some e => (self, e)
  | None => finish self (EndEof (stage self) (InputBuffer.len (buf self)))
  end.

(* tcp/probe.rs:399-422 Probe::step_identification *)
Definition step_identification (self : t) : option (t * Step) :=
  let '(r, res) := IdentificationReader.feed (ident self) (InputBuffer.as_slice (buf self)) in
  let self := mk (client_line self) (stage self) r (packets self) (buf self) (end_ self) in
  match res with
  | Ok StepNeedMore => Some (self, NeedMore)
  | Ok (StepPrelude line terminator consumed) =>
      let* b := InputBuffer.consume (buf self) consumed in
      Some (set_buf self b, Event (EvPreludeLine line terminator))
  | Ok (StepIdentification i consumed) =>
      let* b := InputBuffer.consume (buf self) consumed in
      Some (set_stage (set_buf self b) StInitialPackets, Event (EvServerIdentification i))
  | Err e =>
      let '(self, e) := finish self (EndError (InitIdent e)) in Some (self, Finished e)
  end.

(* tcp/probe.rs:424-458 Probe::step_packet *)
Definition step_packet (self : t) : option (t * Step) :=
  let '(pk, st) := InitialPackets.step (packets self) (InputBuffer.as_slice (buf self)) in
  let self := mk (client_line self) (stage self) (ident self) pk (buf self) (end_ self) in
  let ending (e : ProbeEnd) (consumed : Z) : option (t * Step) :=
    let* b := InputBuffer.consume (buf self) consumed in
    let '(self, e) := finish (set_buf self b) e in Some (self, Finished e) in
  match st with
  | InitNeedMore => Some (self, NeedMore)
  | InitSkipped message consumed =>
      let* b := InputBuffer.consume (buf self) consumed in
      Some (set_buf self b, Event (event_of_skipped message))
  | InitKexInit k payload consumed =>
      let* unexamined := checked_sub (InputBuffer.len (buf self)) consumed in
      ending (EndProposal (from_kexinit k payload unexamined)) consumed
  | InitDisconnect d consumed =>
      ending (EndDisconnected (Disconnect.reason_code d) (Disconnect.description d)
                (Disconnect.language_tag d)) consumed
  | InitError e => ending (EndError e) 0
  end.

(* tcp/probe.rs:382-391 Probe::step *)
Definition step (self : t) : option (t * Step) :=
  match end_ self with
  | Some e => Some (self, Finished e)
  | None =>
      match stage self with
      | StIdentification => step_identification self
      | StInitialPackets => step_packet self
      | StFinished => None
      end
  end.

End Probe.

(** ** The invariant *)

(** Configurations whose limits are representable and leave room for the
    four bytes that tell an identification from a prelude line. *)
Definition config_ok (c : ProbeConfig) : Prop :=
  let i := cfg_ident c in
  0 <= max_prelude_lines i /\ 0 <= max_prelude_bytes i <= USIZE_MAX /\
  0 <= max_prelude_line i /\ 0 <= max_identification_line i /\
  4 <= Z.max (max_prelude_line i) (max_identification_line i) /\
  0 <= max_packet_length (cfg_packet c) <= U32_MAX /\
  0 <= max_packets_before_kexinit c /\ 0 <= max_bytes_before_kexinit c < USIZE_MAX /\
  buffer_capacity c <= USIZE_MAX.

(** The limits of a running probe. *)
Definition limits_ok (i : IdentLimits) (l : InitialLimits) (capacity : Z) : Prop :=
  4 <= Z.max (max_prelude_line i) (max_identification_line i) <= capacity /\
  0 <= max_packet_length (packet l) /\ max_packet_length (packet l) + HEADER_LEN <= capacity /\
  max_bytes l < USIZE_MAX.

Definition probe_inv (self : Probe.t) : Prop :=
  InputBuffer.inv (Probe.buf self) /\ reader_ok (Probe.ident self) /\
  InitialPackets.inv (Probe.packets self) /\
  limits_ok (IdentificationReader.limits (Probe.ident self))
    (InitialPackets.limits (Probe.packets self)) (InputBuffer.capacity (Probe.buf self)) /\
  (Probe.stage self = StFinished <-> Probe.end_ self <> None).

(** What a probe never changes. *)
Definition same_config (p q : Probe.t) : Prop :=
  Probe.client_line q = Probe.client_line p /\
  IdentificationReader.limits (Probe.ident q) = IdentificationReader.limits (Probe.ident p) /\
  InitialPackets.limits (Probe.packets q) = InitialPackets.limits (Probe.packets p) /\
  InputBuffer.capacity (Probe.buf q) = InputBuffer.capacity (Probe.buf p).

#[global] Instance same_config_preorder : PreOrder same_config.
Proof. split; [by intros ?|]. intros p q r. unfold same_config. intros (?&?&?&?) (?&?&?&?). split_and!; congruence. Qed.

Lemma probe_new_inv c p : config_ok c -> Probe.new c = Ok p -> probe_inv p /\ Probe.end_ p = None.
Proof.
  unfold Probe.new. intros Hc (line & _ & <-%Ok_inj)%rbind_Ok. unfold config_ok, buffer_capacity, HEADER_LEN in Hc.
  split; [|done]. unfold probe_inv, InputBuffer.inv, reader_ok, InitialPackets.inv, limits_ok, HEADER_LEN; simpl.
  unfold buffer_capacity, HEADER_LEN. change (zlen (@nil byte)) with 0.
  split_and!; try done; try lia.
Qed.

Lemma probe_finish_inv p e : probe_inv p -> probe_inv (fst (Probe.finish p e)).
Proof. unfold probe_inv, Probe.finish; simpl. naive_solver. Qed.

(** ** One step *)

(** The outcome of a step that returns [r] in state [p']. *)
Definition step_post (p p' : Probe.t) (r : Step) : Prop :=
  probe_inv p' /\ same_config p p' /\
  match r with
  | NeedMore => p' = p /\ 0 < Probe.room p
  | Event _ => Probe.end_ p' = None /\ zlen (InputBuffer.buf (Probe.buf p')) < zlen (InputBuffer.buf (Probe.buf p))
  | Finished e => Probe.end_ p' = Some e
  end.

Lemma step_identification_spec p :
  probe_inv p -> Probe.end_ p = None -> Probe.stage p = StIdentification ->
  exists p' r, Probe.step_identification p = Some (p', r) /\ step_post p p' r.
Proof.
  intros (Hb & Hr & Hp & Hl & Hf) He Hs. unfold Probe.step_identification, InputBuffer.as_slice.
  destruct (IdentificationReader.feed _ _) as [r' res] eqn:Ef.
  destruct (feed_counters _ _ _ _ Hr Ef) as (Hr' & Hlim & Hres).
  assert (forall n, 0 < n <= zlen (InputBuffer.buf (Probe.buf p)) -> forall s,
    s <> StFinished -> exists b,
    InputBuffer.consume (Probe.buf p) n = Some b /\ zlen (InputBuffer.buf b) < zlen (InputBuffer.buf (Probe.buf p)) /\
    probe_inv (Probe.mk (Probe.client_line p) s r' (Probe.packets p) b None) /\
    InputBuffer.capacity b = InputBuffer.capacity (Probe.buf p)) as Hconsume.
  { intros n Hn s Hsn. destruct (consume_ok (Probe.buf p) n) as (b & Hc & Hib & ->); [lia|done|].
    eexists; split; [exact Hc|]. simpl. rewrite zlen_zdrop by lia. split_and!; [lia| |done].
    unfold probe_inv; simpl. rewrite Hlim. split_and!; try done; by split. }
  destruct res as [[|line t n|i n]|e]; simpl.
  - destruct (feed_need_more _ _ _ Ef) as (-> & _ & Hlt). eexists _, _; split; [done|].
    replace (Probe.mk _ _ _ _ _ _) with p by (by destruct p). split; [done|]. split; [done|]. split; [done|].
    unfold Probe.room, InputBuffer.room, limits_ok in *. lia.
  - destruct Hres as (_ & Hn & _). destruct (Hconsume n Hn StIdentification ltac:(done)) as (b & -> & Hlt & Hi & Hc).
    eexists _, _; split; [done|]. unfold step_post, Probe.set_buf; simpl. rewrite He, Hs.
    split_and!; try done.
  - destruct Hres as (_ & Hn & _). destruct (Hconsume n Hn StInitialPackets ltac:(done)) as (b & -> & Hlt & Hi & Hc).
    eexists _, _; split; [done|]. unfold step_post, Probe.set_stage, Probe.set_buf; simpl. rewrite He.
    split_and!; try done.
  - eexists _, _; split; [done|]. unfold step_post; simpl. subst r'. split_and!; done.
Qed.

Lemma step_packet_spec p :
  probe_inv p -> Probe.end_ p = None -> Probe.stage p = StInitialPackets ->
  exists p' r, Probe.step_packet p = Some (p', r) /\ step_post p p' r.
Proof.
  intros (Hb & Hr & Hp & Hl & Hf) He Hs. unfold Probe.step_packet, InputBuffer.as_slice.
  destruct (InitialPackets.step _ _) as [pk st] eqn:Ef.
  pose proof Hl as (_ & Hl1 & Hl2 & Hl3).
  destruct (initial_step_spec _ _ _ _ Hp Hl3 Ef) as (Hp' & Hlim & Hst).
  assert (forall n s en, 0 <= n <= zlen (InputBuffer.buf (Probe.buf p)) ->
    (s = StFinished <-> en <> None) -> exists b,
    InputBuffer.consume (Probe.buf p) n = Some b /\
    zlen (InputBuffer.buf b) = zlen (InputBuffer.buf (Probe.buf p)) - n /\
    probe_inv (Probe.mk (Probe.client_line p) s (Probe.ident p) pk b en) /\
    InputBuffer.capacity b = InputBuffer.capacity (Probe.buf p)) as Hconsume.
  { intros n s en Hn Hsn. destruct (consume_ok (Probe.buf p) n) as (b & Hc & Hib & ->); [lia|done|].
    eexists; split; [exact Hc|]. simpl. rewrite zlen_zdrop by lia. split_and!; [lia| |done].
    unfold probe_inv; simpl. rewrite Hlim. split_and!; try done; apply Hsn. }
  destruct st as [|m n|k pl n|d n|e]; cbn zeta beta; cbn [Probe.buf].
  - assert (pk = Probe.packets p) as -> by naive_solver. eexists _, _; split; [done|].
    replace (Probe.mk _ _ _ _ _ _) with p by (by destruct p). split; [done|]. split; [done|]. split; [done|].
    unfold Probe.room, InputBuffer.room, HEADER_LEN in *. destruct Hst as [[_ ?]|[_ ?]]; lia.
  - destruct Hst as (q & rest & _ & _ & _ & [= ->] & Hn & _). unfold MIN_TOTAL_LEN in Hn.
    destruct (Hconsume (total_len q) StInitialPackets None ltac:(lia) ltac:(by split)) as (b & -> & Hlt & Hi & Hc).
    eexists _, _; split; [done|]. unfold step_post, Probe.set_buf; simpl. rewrite He, Hs.
    split_and!; try done. lia.
  - destruct Hst as (q & rest & _ & _ & _ & [= ->] & Hn & _). unfold MIN_TOTAL_LEN in Hn.
    unfold checked_sub, InputBuffer.len.
    destruct (Z.leb_spec (total_len q) (zlen (InputBuffer.buf (Probe.buf p)))); [|lia]. cbn [mbind option_bind].
    edestruct (Hconsume (total_len q) StFinished (Some (EndProposal (from_kexinit k pl
      (zlen (InputBuffer.buf (Probe.buf p)) - total_len q))))) as (b & -> & _ & Hi & Hc); [lia|done|].
    eexists _, _; split; [done|]. unfold step_post, Probe.set_buf; simpl. split_and!; try done.
  - destruct Hst as (q & rest & _ & _ & _ & [= ->] & Hn & _). unfold MIN_TOTAL_LEN in Hn.
    edestruct (Hconsume (total_len q) StFinished (Some (EndDisconnected (Disconnect.reason_code d) (Disconnect.description d)
                (Disconnect.language_tag d)))) as (b & -> & _ & Hi & Hc); [lia|done|].
    eexists _, _; split; [done|]. unfold step_post, Probe.set_buf; simpl. split_and!; try done.
  - edestruct (Hconsume 0 StFinished (Some (EndError e))) as (b & -> & _ & Hi & Hc);
      [pose proof (zlen_nonneg (InputBuffer.buf (Probe.buf p))); lia|done|].
    eexists _, _; split; [done|]. unfold step_post, Probe.set_buf; simpl. split_and!; try done.
Qed.

Lemma probe_step_spec p :
  probe_inv p -> exists p' r, Probe.step p = Some (p', r) /\ step_post p p' r.
Proof.
  intros Hi. unfold Probe.step. destruct (Probe.end_ p) as [e|] eqn:He.
  - exists p, (Finished e). unfold step_post. split_and!; try done; by apply same_config_preorder.
  - destruct (Probe.stage p) eqn:Hs.
    + by apply step_identification_spec.
    + by apply step_packet_spec.
    + destruct Hi as (_ & _ & _ & _ & Hf). naive_solver.
Qed.

(** ** Feeding *)

Definition fits (p : Probe.t) (d : bytes) : Prop := zlen d <= Probe.room p.

(** The probe [p] in a buffer of capacity [c] in which [d] has arrived too. *)
Definition extend (c : Z) (p : Probe.t) (d : bytes) : Probe.t :=
  Probe.set_buf p (InputBuffer.mk (InputBuffer.buf (Probe.buf p) ++ d) c).

Lemma feed_fits p d :
  Probe.stage p <> StFinished -> fits p d ->
  Probe.feed p d = extend (InputBuffer.capacity (Probe.buf p)) p d.
Proof.
  intros Hs Hf. unfold Probe.feed. rewrite bool_decide_false by done.
  unfold InputBuffer.push, fits, Probe.room in *.
  by destruct (Z.ltb_spec (InputBuffer.room (Probe.buf p)) (zlen d)); [lia|].
Qed.

Lemma feed_inv p d : probe_inv p -> probe_inv (Probe.feed p d) /\ same_config p (Probe.feed p d).
Proof.
  intros Hi. unfold Probe.feed. case_bool_decide as Hs; [split; [done|by apply same_config_preorder]|].
  destruct Hi as (Hb & Hr & Hp & Hl & Hf). pose proof (push_spec (Probe.buf p) d Hb) as Hpush.
  destruct (InputBuffer.push (Probe.buf p) d) as [b [u|e]].
  - destruct Hpush as (Hb' & Hc & _). unfold probe_inv, same_config; simpl. rewrite Hc. by split_and!.
  - destruct Hpush as [-> _]. unfold probe_inv, same_config; simpl. split_and!; try done; naive_solver.
Qed.

(** Two outcomes that differ at most in how many bytes had already arrived
    behind the KEXINIT. *)
Definition end_sim (a b : ProbeEnd) : Prop :=
  match a, b with
  | EndProposal p, EndProposal q =>
      kexinit p = kexinit q /\ raw_payload p = raw_payload q /\ proposal_anomalies p = proposal_anomalies q
  | _, _ => a = b
  end.

#[global] Instance end_sim_equivalence : Equivalence end_sim.
Proof.
  split.
  - by intros [].
  - intros [] [] H; simpl in *; try congruence. naive_solver.
  - intros [] [] [] H1 H2; simpl in *; try congruence. naive_solver congruence.
Qed.

(** Consuming the front of a buffer does not see what is appended to it. *)
Lemma consume_extend b n d b' c :
  InputBuffer.consume b n = Some b' -> 0 <= n ->
  InputBuffer.consume (InputBuffer.mk (InputBuffer.buf b ++ d) c) n =
    Some (InputBuffer.mk (InputBuffer.buf b' ++ d) c).
Proof.
  unfold InputBuffer.consume. destruct (Z.leb_spec n (zlen (InputBuffer.buf b))) as [Hle|]; [|done].
  intros [= <-] Hn. simpl. pose proof (zlen_nonneg d).
  destruct (Z.leb_spec n (zlen (InputBuffer.buf b ++ d))); [|zlia].
  by rewrite zdrop_app_le.
Qed.

(** What a step on the extended input must return. *)
Definition step_extends (c : Z) (d : bytes) (r r' : option (Probe.t * Step)) : Prop :=
  match r with
  | Some (p', Event e) => r' = Some (extend c p' d, Event e)
  | Some (p', Finished e) => exists q e', r' = Some (q, Finished e') /\ end_sim e e'
  | _ => True
  end.

Lemma step_identification_extend c p d :
  probe_inv p -> step_extends c d (Probe.step_identification p) (Probe.step_identification (extend c p d)).
Proof.
  intros (Hb & Hr & _ & Hl & _). unfold Probe.step_identification, InputBuffer.as_slice. simpl.
  destruct (IdentificationReader.feed (Probe.ident p) (InputBuffer.buf (Probe.buf p))) as [r' res] eqn:Ef.
  destruct (feed_counters _ _ _ _ Hr Ef) as (_ & _ & Hres).
  pose proof (feed_boundary _ _ _ d _ (proj1 (proj1 Hl)) Ef) as Happ.
  destruct res as [[|line t n|i n]|e]; [done| | |].
  - rewrite Happ. simpl. destruct Hres as (_ & Hn & _). destruct (InputBuffer.consume (Probe.buf p) n) as [b|] eqn:Ec; [|done].
    rewrite (consume_extend _ _ d _ c Ec) by lia. done.
  - rewrite Happ. simpl. destruct Hres as (_ & Hn & _). destruct (InputBuffer.consume (Probe.buf p) n) as [b|] eqn:Ec; [|done].
    rewrite (consume_extend _ _ d _ c Ec) by lia. done.
  - rewrite Happ. simpl. eauto.
Qed.

Lemma step_packet_extend c p d :
  probe_inv p -> step_extends c d (Probe.step_packet p) (Probe.step_packet (extend c p d)).
Proof.
  intros (Hb & _ & Hp & (_ & _ & _ & Hl) & _). unfold Probe.step_packet, InputBuffer.as_slice. cbn [extend Probe.set_buf Probe.buf
    Probe.packets Probe.client_line Probe.stage Probe.ident Probe.end_ InputBuffer.buf].
  destruct (InitialPackets.step (Probe.packets p) (InputBuffer.buf (Probe.buf p))) as [pk st] eqn:Ef.
  destruct (initial_step_spec _ _ _ _ Hp Hl Ef) as (_ & _ & Hst).
  assert (st <> InitNeedMore -> InitialPackets.step (Probe.packets p) (InputBuffer.buf (Probe.buf p) ++ d) = (pk, st)) as Happ.
  { intros Hn. rewrite initial_step_app; rewrite Ef; done. }
  unfold MIN_TOTAL_LEN in Hst.
  destruct st as [|m n|k pl n|dm n|e]; [done|rewrite Happ by done; cbn zeta beta; cbn [Probe.buf]..].
  - destruct Hst as (q & rest & _ & _ & _ & [= ->] & Hn & _).
    destruct (InputBuffer.consume (Probe.buf p) _) as [b|] eqn:Ec; [|done].
    rewrite (consume_extend _ _ d _ c Ec) by lia. done.
  - destruct Hst as (q & rest & _ & _ & _ & [= ->] & Hn & _). unfold checked_sub, InputBuffer.len; simpl.
    destruct (Z.leb_spec (total_len q) (zlen (InputBuffer.buf (Probe.buf p)))); [|done]. pose proof (zlen_nonneg d).
    destruct (Z.leb_spec (total_len q) (zlen (InputBuffer.buf (Probe.buf p) ++ d))); [|zlia]. simpl.
    destruct (InputBuffer.consume (Probe.buf p) _) as [b|] eqn:Ec; [|done].
    rewrite (consume_extend _ _ d _ c Ec) by lia. simpl. eexists _, _; split; [done|done].
  - destruct Hst as (q & rest & _ & _ & _ & [= ->] & Hn & _).
    destruct (InputBuffer.consume (Probe.buf p) _) as [b|] eqn:Ec; [|done].
    rewrite (consume_extend _ _ d _ c Ec) by lia. simpl. eauto.
  - destruct (InputBuffer.consume (Probe.buf p) _) as [b|] eqn:Ec; [|done].
    rewrite (consume_extend _ _ d _ c Ec) by lia. simpl. eauto.
Qed.

Lemma probe_step_extend c p d :
  probe_inv p -> Probe.end_ p = None -> step_extends c d (Probe.step p) (Probe.step (extend c p d)).
Proof.
  intros Hi He. unfold Probe.step. simpl. rewrite He.
  destruct (Probe.stage p); [by apply step_identification_extend|by apply step_packet_extend|done].
Qed.

(** With nothing added, a waiting probe still waits. *)
Lemma probe_wait_extend c p p' :
  probe_inv p -> Probe.step p = Some (p', NeedMore) ->
  exists q, Probe.step (extend c p []) = Some (q, NeedMore).
Proof.
  intros Hi. unfold Probe.step. simpl. destruct (Probe.end_ p); [done|].
  destruct (Probe.stage p); [| |done].
  - unfold Probe.step_identification, InputBuffer.as_slice. simpl. rewrite app_nil_r.
    destruct (IdentificationReader.feed _ _) as [r' [[|line t n|i n]|e]]; simpl; [by eauto| | |done];
      by destruct (InputBuffer.consume (Probe.buf p) n).
  - unfold Probe.step_packet, InputBuffer.as_slice. simpl. rewrite app_nil_r.
    destruct (InitialPackets.step _ _) as [pk [|m n|k pl n|d n|e]]; simpl; [by eauto| | | |];
      try (by destruct (InputBuffer.consume (Probe.buf p) _)).
    destruct (checked_sub _ _); [|done]. simpl. by destruct (InputBuffer.consume (Probe.buf p) _).
Qed.

(** ** Driving the probe *)

(** Calling [step] until it waits or finishes: the events in order. *)
Inductive drains : Probe.t -> list ProbeEvent -> Probe.t -> option ProbeEnd -> Prop :=
| drains_wait p p' : Probe.step p = Some (p', NeedMore) -> drains p [] p' None
| drains_finished p p' e : Probe.step p = Some (p', Finished e) -> drains p [] p' (Some e)
| drains_event p p' ev evs q o :
    Probe.step p = Some (p', Event ev) -> drains p' evs q o -> drains p (ev :: evs) q o.

(** Feeding the chunks an adapter reads, each within [room], draining the probe
    before each read and at the end. *)
Inductive observes : Probe.t -> list bytes -> list ProbeEvent -> option ProbeEnd -> Prop :=
| observes_all p evs q o : drains p evs q o -> observes p [] evs o
| observes_end p d ds evs q e : drains p evs q (Some e) -> observes p (d :: ds) evs (Some e)
| observes_read p d ds evs q evs' o :
    drains p evs q None -> fits q d -> observes (Probe.feed q d) ds evs' o ->
    observes p (d :: ds) (evs ++ evs') o.

Lemma drains_inv p evs q o :
  drains p evs q o -> probe_inv p -> probe_inv q /\ same_config p q /\ (o = None -> Probe.end_ p = None -> Probe.end_ q = None).
Proof.
  induction 1 as [p p' Hs|p p' e Hs|p p' ev evs q o Hs _ IH]; intros Hi;
    destruct (probe_step_spec p Hi) as (p1 & r & Hs1 & (Hi1 & Hc1 & Hr)); rewrite Hs in Hs1; simplify_eq.
  - destruct Hr as [-> _]. by split_and!.
  - by split_and!.
  - destruct (IH Hi1) as (Hi2 & Hc2 & He2). split_and!; [done|by etrans|]. intros Ho _. apply He2; [done|]. by destruct Hr.
Qed.

Lemma drains_det p evs1 q1 o1 evs2 q2 o2 :
  drains p evs1 q1 o1 -> drains p evs2 q2 o2 -> evs1 = evs2 /\ q1 = q2 /\ o1 = o2.
Proof.
  intros H1; revert evs2 q2 o2. induction H1 as [p p' Hs|p p' e Hs|p p' ev evs q o Hs _ IH]; intros evs2 q2 o2;
    inversion 1; subst; rewrite Hs in *; simplify_eq; try done.
  match goal with H : drains _ _ _ _ |- _ => destruct (IH _ _ _ H) as (-> & -> & ->) end. done.
Qed.

(** Draining always stops, after at most one event per buffered byte. *)
Lemma drains_total p :
  probe_inv p -> exists evs q o, drains p evs q o /\ zlen evs <= zlen (InputBuffer.buf (Probe.buf p)) /\
    (o = None -> 0 < Probe.room q) /\ (forall e, o = Some e -> Probe.end_ q = Some e).
Proof.
  remember (Z.to_nat (zlen (InputBuffer.buf (Probe.buf p)))) as n eqn:Hn. revert p Hn.
  induction (lt_wf n) as [n _ IH]; intros p Hn Hi.
  destruct (probe_step_spec p Hi) as (p1 & r & Hs & (Hi1 & Hc1 & Hr)).
  pose proof (zlen_nonneg (InputBuffer.buf (Probe.buf p))).
  destruct r as [|ev|e].
  - destruct Hr as [-> Hroom]. exists [], p, None. split_and!; [by constructor|done|done|done].
  - destruct Hr as [_ Hlt]. pose proof (zlen_nonneg (InputBuffer.buf (Probe.buf p1))).
    destruct (IH (Z.to_nat (zlen (InputBuffer.buf (Probe.buf p1)))) ltac:(lia) p1 eq_refl Hi1)
      as (evs & q & o & Hd & Hl & Ho).
    exists (ev :: evs), q, o. split_and!; [by econstructor|zlia|apply Ho..].
  - exists [], p1, (Some e). split_and!; [by constructor|done|done|naive_solver].
Qed.

Lemma drains_waiting p evs q :
  drains p evs q None -> probe_inv p -> Probe.step q = Some (q, NeedMore).
Proof.
  remember None as o eqn:Ho. induction 1 as [p p' Hs|p p' e Hs|p p' ev evs q o Hs Hd IH]; intros Hi; [|done|];
    destruct (probe_step_spec p Hi) as (p1 & r & Hs1 & (Hi1 & _ & Hr)); rewrite Hs in Hs1; simplify_eq.
  - by destruct Hr as [-> _].
  - by apply IH.
Qed.

Definition opt_end_sim (a b : option ProbeEnd) : Prop :=
  match a, b with Some x, Some y => end_sim x y | None, None => True | _, _ => False end.

(** Draining before more input arrives loses nothing. *)
Lemma drains_extend c p evs q o d :
  drains p evs q o -> probe_inv p -> Probe.end_ p = None ->
  match o with
  | None => forall evs' q' o', drains (extend c q d) evs' q' o' -> drains (extend c p d) (evs ++ evs') q' o'
  | Some e => exists q' e', drains (extend c p d) evs q' (Some e') /\ end_sim e e'
  end.
Proof.
  induction 1 as [p p' Hs|p p' e Hs|p p' ev evs q o Hs _ IH]; intros Hi He;
    destruct (probe_step_spec p Hi) as (p1 & r & Hs1 & (Hi1 & Hc1 & Hr)); rewrite Hs in Hs1; simplify_eq;
    pose proof (probe_step_extend c p d Hi He) as Hx; rewrite Hs in Hx; simpl in Hx.
  - by destruct Hr as [-> _].
  - destruct Hx as (q & e' & Hx & Hsim). exists q, e'. split; [by constructor|done].
  - specialize (IH Hi1 (proj1 Hr)). destruct o as [e|].
    + destruct IH as (q' & e' & Hd & Hsim). exists q', e'. split; [by econstructor|done].
    + intros evs' q' o' Hd. simpl. econstructor; [exact Hx|]. by apply IH.
Qed.

(** Reading in chunks gives what reading everything at once gives. *)
Lemma observes_at_once c p ds evs o :
  observes p ds evs o -> probe_inv p -> Probe.end_ p = None ->
  exists q o', drains (extend c p (concat ds)) evs q o' /\ opt_end_sim o o'.
Proof.
  induction 1 as [p evs q o Hd|p d ds evs q e Hd|p d ds evs q evs' o Hd Hf _ IH]; intros Hi He.
  - pose proof (drains_extend c _ _ _ _ [] Hd Hi He) as Hx. destruct o as [e|]; simpl in *.
    + destruct Hx as (q' & e' & Hx & Hsim). by exists q', (Some e').
    + destruct (drains_inv _ _ _ _ Hd Hi) as (Hiq & _ & _).
      pose proof (drains_waiting _ _ _ Hd Hi) as Hq.
      destruct (probe_wait_extend c q q Hiq Hq) as [q' Hq']. exists q', None. split; [|done].
      rewrite <- (app_nil_r evs). apply Hx. by constructor.
  - destruct (drains_extend c _ _ _ _ (concat (d :: ds)) Hd Hi He) as (q' & e' & Hx & Hsim).
    by exists q', (Some e').
  - destruct (drains_inv _ _ _ _ Hd Hi) as (Hiq & _ & Heq). specialize (Heq eq_refl He).
    assert (Probe.stage q <> StFinished) as Hsq by (destruct Hiq as (_ & _ & _ & _ & Hfin); naive_solver).
    destruct (IH (proj1 (feed_inv q d Hiq))) as (q' & o' & Hx & Hsim).
    { by rewrite feed_fits. }
    exists q', o'. split; [|done]. rewrite feed_fits in Hx by done.
    assert (extend c (extend (InputBuffer.capacity (Probe.buf q)) q d) (concat ds) = extend c q (concat (d :: ds))) as Hext.
    { unfold extend, Probe.set_buf. simpl. by rewrite <- app_assoc. }
    rewrite Hext in Hx. exact (drains_extend c _ _ _ _ (concat (d :: ds)) Hd Hi He _ _ _ Hx).
Qed.

(** The states an adapter can bring a probe into, by any sequence of calls. *)
Inductive reachable (c : ProbeConfig) : Probe.t -> Prop :=
| reach_new p : Probe.new c = Ok p -> reachable c p
| reach_feed p d : reachable c p -> reachable c (Probe.feed p d)
| reach_ended p : reachable c p -> reachable c (fst (Probe.input_ended p))
| reach_step p p' r : reachable c p -> Probe.step p = Some (p', r) -> reachable c p'.

Lemma input_ended_inv p :
  probe_inv p -> probe_inv (fst (Probe.input_ended p)) /\ same_config p (fst (Probe.input_ended p)).
Proof.
  intros Hi. unfold Probe.input_ended. destruct (Probe.end_ p); simpl; [split; [done|by apply same_config_preorder]|].
  split; [by apply (probe_finish_inv p)|done].
Qed.

Lemma reachable_inv c p :
  config_ok c -> reachable c p ->
  probe_inv p /\ InputBuffer.capacity (Probe.buf p) = buffer_capacity c.
Proof.
  intros Hc. induction 1 as [p Hn|p d _ [Hi Hcap]|p _ [Hi Hcap]|p p' r _ [Hi Hcap] Hs].
  - split; [by eapply probe_new_inv|]. unfold Probe.new in Hn. by apply rbind_Ok in Hn as (l & _ & <-%Ok_inj).
  - destruct (feed_inv p d Hi) as (Hi' & _ & _ & _ & Hcap'). split; [done|congruence].
  - destruct (input_ended_inv p Hi) as (Hi' & _ & _ & _ & Hcap'). split; [done|congruence].
  - destruct (probe_step_spec p Hi) as (p1 & r1 & Hs1 & (Hi1 & (_ & _ & _ & Hcap') & _)).
    rewrite Hs in Hs1. simplify_eq. split; [done|congruence].
Qed.

(** A reported proposal is the decoded form of the payload it carries. *)
Definition end_faithful (e : ProbeEnd) : Prop :=
  match e with
  | EndProposal pr => exists k u, KexInit.decode (raw_payload pr) = Ok k /\ pr = from_kexinit k (raw_payload pr) u
  | _ => True
  end.

Lemma step_faithful p p' r :
  probe_inv p -> (forall e, Probe.end_ p = Some e -> end_faithful e) ->
  Probe.step p = Some (p', r) -> forall e, Probe.end_ p' = Some e -> end_faithful e.
Proof.
  intros Hi Hp. unfold Probe.step. destruct (Probe.end_ p) as [e0|] eqn:He.
  { intros [= <- <-]. rewrite He. naive_solver. }
  destruct (Probe.stage p) eqn:Hs; [| |done].
  - unfold Probe.step_identification. destruct (IdentificationReader.feed _ _) as [r' [[|line t n|i n]|er]]; simpl.
    2,3: destruct (InputBuffer.consume _ _); simpl; [|done].
    all: intros [= <- <-] e; simpl; rewrite ?He; naive_solver.
  - unfold Probe.step_packet. destruct Hi as (_ & _ & Hpk & (_ & _ & _ & Hl) & _).
    destruct (InitialPackets.step _ _) as [pk st] eqn:Est.
    destruct (initial_step_spec _ _ _ _ Hpk Hl Est) as (_ & _ & Hst).
    destruct st as [|m n|k pl n|dm n|er]; simpl.
    1: by intros [= <- <-] e; simpl; rewrite ?He.
    2: destruct Hst as (q & rest & _ & _ & Hcl%eq_sym%classify_kexinit & _); destruct Hcl as (Hk & -> & ->);
       destruct (checked_sub _ _) as [u|]; simpl; [|done].
    all: destruct (InputBuffer.consume _ _); simpl; [|done].
    all: intros [= <- <-] e; simpl; rewrite ?He; try (intros [= <-]; simpl); naive_solver.
Qed.

Lemma reachable_faithful c p :
  config_ok c -> reachable c p -> forall e, Probe.end_ p = Some e -> end_faithful e.
Proof.
  intros Hc. induction 1 as [p Hn|p d Hr IH|p Hr IH|p p' r Hr IH Hs]; intros e.
  - unfold Probe.new in Hn. apply rbind_Ok in Hn as (l & _ & <-%Ok_inj). done.
  - unfold Probe.feed. case_bool_decide; [by apply IH|].
    destruct (InputBuffer.push _ _) as [b [u|er]]; simpl; [by apply IH|by intros [= <-]].
  - unfold Probe.input_ended. destruct (Probe.end_ p) eqn:He; simpl; [rewrite He; by apply IH|by intros [= <-]].
  - eapply step_faithful; [|done|done]. by eapply reachable_inv.
Qed.

(** ** Properties *)

(** C22: what the probe observes depends only on the bytes the server sent, not
    on how reads split them: two adapters that read the same stream in any
    chunks within [room] see the same events in the same order and the same
    outcome, up to the count of bytes received behind the KEXINIT. *)
Theorem probe_boundary_independent (c : ProbeConfig) (p : Probe.t) (ds1 ds2 : list bytes)
    (evs1 evs2 : list ProbeEvent) (o1 o2 : option ProbeEnd) :
  config_ok c -> Probe.new c = Ok p ->
  observes p ds1 evs1 o1 -> observes p ds2 evs2 o2 -> concat ds1 = concat ds2 ->
  evs1 = evs2 /\ opt_end_sim o1 o2.
Proof.
  intros Hc Hn H1 H2 Hds. destruct (probe_new_inv c p Hc Hn) as [Hi He].
  destruct (observes_at_once 0 _ _ _ _ H1 Hi He) as (q1 & o1' & Hd1 & Hs1).
  destruct (observes_at_once 0 _ _ _ _ H2 Hi He) as (q2 & o2' & Hd2 & Hs2).
  rewrite Hds in Hd1. destruct (drains_det _ _ _ _ _ _ _ Hd1 Hd2) as (-> & -> & ->). split; [done|].
  destruct o1, o2, o2'; simpl in *; try done. by etrans; [|symmetry].
Qed.

Definition probe_stream_a : bytes := bstr "hi" ++ [LF] ++ bstr "SSH-".
Definition probe_stream_b : bytes := bstr "2.0-x" ++ [CR; LF] ++ ignore_packet ++ [x00].

(** A probe with the default configuration, computed. *)
Definition default_probe : Probe.t :=
  match Probe.new ProbeConfig_default with
  | Ok p => p
  | Err _ => Probe.mk [] StFinished (IdentificationReader.new IdentLimits_default)
               (InitialPackets.new InitialLimits_default) (InputBuffer.new 0) None
  end.

Lemma default_config_ok : config_ok ProbeConfig_default.
Proof. vm_compute. repeat split; discriminate. Qed.

Lemma probe_boundary_independent_witness :
  let evs := [EvPreludeLine (bstr "hi") Lf;
              EvServerIdentification (TcpIdentification.mk (bstr "SSH-2.0-x") CrLf (bstr "2.0") (bstr "x") None SupSsh2);
              EvIgnored 0] in
  observes default_probe [probe_stream_a; probe_stream_b] evs None /\
  observes default_probe [probe_stream_a ++ probe_stream_b] evs None /\
  evs = evs /\ opt_end_sim None None.
Proof.
  intros evs.
  assert (observes default_probe [probe_stream_a; probe_stream_b] evs None) as H1.
  { apply (observes_read _ _ _ [] default_probe evs None); [by constructor|vm_compute; discriminate|].
    eapply (observes_read _ _ _ [EvPreludeLine (bstr "hi") Lf]).
    - eapply drains_event; [vm_compute; reflexivity|]. apply drains_wait. vm_compute. reflexivity.
    - vm_compute. discriminate.
    - eapply observes_all, drains_event; [vm_compute; reflexivity|].
      eapply drains_event; [vm_compute; reflexivity|]. apply drains_wait. vm_compute. reflexivity. }
  assert (observes default_probe [probe_stream_a ++ probe_stream_b] evs None) as H2.
  { apply (observes_read _ _ _ [] default_probe evs None); [by constructor|vm_compute; discriminate|].
    eapply observes_all, drains_event; [vm_compute; reflexivity|]. eapply drains_event; [vm_compute; reflexivity|].
    eapply drains_event; [vm_compute; reflexivity|]. apply drains_wait. vm_compute. reflexivity. }
  split; [exact H1|]. split; [exact H2|].
  exact (probe_boundary_independent ProbeConfig_default default_probe _ _ evs evs None None
    default_config_ok eq_refl H1 H2 ltac:(vm_compute; reflexivity)).
Defined.

(** The probe never panics or wedges: in every reachable state the next
    [step] returns, stepping stops after at most one event per buffered byte,
    the buffer stays within its configured capacity, and a probe that waits for
    input always has room to read at least one more byte. *)
Theorem probe_progress (c : ProbeConfig) (p : Probe.t) :
  config_ok c -> reachable c p ->
  is_Some (Probe.step p) /\ 0 <= Probe.room p /\
  Probe.pending_bytes p + Probe.room p = buffer_capacity c /\
  exists evs q o, drains p evs q o /\ zlen evs <= Probe.pending_bytes p /\
    (o = None -> 0 < Probe.room q) /\ (forall e, o = Some e -> Probe.end_ q = Some e).
Proof.
  intros Hc Hr. destruct (reachable_inv c p Hc Hr) as [Hi Hcap].
  destruct (probe_step_spec p Hi) as (p1 & r & Hs & _). pose proof Hi as (Hb & _).
  unfold Probe.room, Probe.pending_bytes, InputBuffer.room, InputBuffer.len, InputBuffer.inv in *.
  split_and!; [by eauto|lia|lia|]. by apply drains_total.
Qed.

Lemma probe_progress_witness :
  reachable ProbeConfig_default (Probe.feed default_probe probe_stream_a) /\
  is_Some (Probe.step (Probe.feed default_probe probe_stream_a)).
Proof.
  assert (reachable ProbeConfig_default (Probe.feed default_probe probe_stream_a)) as Hr
    by (apply reach_feed, reach_new; reflexivity).
  split; [exact Hr|].
  exact (proj1 (probe_progress ProbeConfig_default _ default_config_ok Hr)).
Defined.

(** An outcome is final and faithful: once a probe has recorded its end,
    every later call returns that end and changes nothing, and a reported
    proposal is exactly what decoding its raw payload gives, with the
    anomalies of that message. *)
Theorem probe_outcome_final (c : ProbeConfig) (p : Probe.t) (e : ProbeEnd) (d : bytes) :
  config_ok c -> reachable c p -> Probe.end_ p = Some e ->
  Probe.step p = Some (p, Finished e) /\ Probe.feed p d = p /\ Probe.input_ended p = (p, e) /\
  (forall pr, e = EndProposal pr -> exists k u, KexInit.decode (raw_payload pr) = Ok k /\
     pr = from_kexinit k (raw_payload pr) u).
Proof.
  intros Hc Hr He. destruct (reachable_inv c p Hc Hr) as [(_ & _ & _ & _ & Hfin) _].
  pose proof (reachable_faithful c p Hc Hr e He) as Hfaith. split_and!.
  - unfold Probe.step. by rewrite He.
  - unfold Probe.feed. rewrite bool_decide_true; [done|]. apply Hfin. congruence.
  - unfold Probe.input_ended. by rewrite He.
  - by intros pr ->.
Qed.

Lemma probe_outcome_final_witness :
  let p := fst (Probe.input_ended default_probe) in
  Probe.feed p probe_stream_a = p /\ Probe.step p = Some (p, Finished (EndEof StIdentification 0)).
Proof.
  intros p.
  pose proof (probe_outcome_final ProbeConfig_default p (EndEof StIdentification 0) probe_stream_a
    default_config_ok (reach_ended _ _ (reach_new ProbeConfig_default default_probe eq_refl)) eq_refl) as H.
  exact (conj (proj1 (proj2 H)) (proj1 H)).
Defined.
