(* ===== verification/Observer.v ===== *)
(** * The incoming-connection observer

    Models crates/tatami_ssh_tcp/src/observer.rs: the server-side state machine
    that reads a client's identification and first KEXINIT. As in Probe.v a
    call that can panic returns [None] for the panic. *)

From S2P Require Import Prelude WireError NameList Primitives Messages KexInit WireIdent TcpIdent Packet Initial Probe.

(* tcp/observer.rs:52-52 DEFAULT_SOFTWARE_VERSION *)
Definition OBSERVER_SOFTWARE_VERSION : bytes := bstr "tatami_observer_0.1.0".

(* tcp/observer.rs:56-69 ObserverConfig *)
Record ObserverConfig : Type := mkObserverConfig {
  obs_software_version : bytes;
  obs_initial : InitialLimits;
  cfg_banner_only : bool;
  cfg_unexpected_sample : Z;
  obs_max_identification_line : Z
}.

(* tcp/observer.rs:71-81 ObserverConfig::default *)
Definition ObserverConfig_default : ObserverConfig :=
  mkObserverConfig OBSERVER_SOFTWARE_VERSION InitialLimits_default false 256 MAX_IDENTIFICATION_LINE.

(* tcp/observer.rs:86-89 ObserverConfig::buffer_capacity *)
Definition observer_buffer_capacity (self : ObserverConfig) : Z :=
  let packet := max_packet_length (packet (obs_initial self)) + HEADER_LEN in
  Z.max packet (obs_max_identification_line self) + obs_max_identification_line self.

(* tcp/observer.rs:94-101 ObserverStage *)
Inductive ObserverStage : Type := ObClientIdentification | ObInitialPackets | ObFinished.

#[global] Instance observer_stage_eq_decision : EqDecision ObserverStage.
Proof. solve_decision. Defined.

(* tcp/observer.rs:106-112 ObserverStage::code *)
Definition observer_stage_code (s : ObserverStage) : string :=
  match s with
  | ObClientIdentification => "client_identification"
  | ObInitialPackets => "initial_packets"
  | ObFinished => "finished"
  end.

(* tcp/observer.rs:127-132 ObserverEvent *)
Inductive ObserverEvent : Type :=
| OeClientIdentification (i : TcpIdentification.t)
| OeSkipped (m : SkippedMessage).

(* tcp/observer.rs:136-166 ObservationOutcome *)
Inductive ObservationOutcome : Type :=
| OoBannerOnly
| OoProposal (p : Proposal)
| OoDisconnected (reason_code : Z) (description language_tag : bytes)
| OoUnexpectedInput (sample : bytes) (truncated : bool)
| OoEof (stage : ObserverStage) (pending_bytes : Z)
| OoError (e : InitialError).

(* tcp/observer.rs:171-181 ObservationOutcome::code *)
Definition observation_code (o : ObservationOutcome) : string :=
  match o with
  | OoBannerOnly => "banner_only"
  | OoProposal p =>
      match proposal_anomalies p with [] => "proposal" | _ => "proposal_with_anomalies" end
  | OoDisconnected _ _ _ => "disconnected"
  | OoUnexpectedInput _ _ => "unexpected_input"
  | OoEof _ _ => "eof"
  | OoError _ => "protocol_error"
  end.

(* tcp/observer.rs:186-193 ObserverStep *)
Inductive ObserverStep : Type :=
| ObNeedMore
| ObEvent (e : ObserverEvent)
| ObFinishedWith (o : ObservationOutcome).

Module Observer.

(* tcp/observer.rs:197-206 Observer *)
Record t : Type := mk {
  server_line : bytes;
  banner_only : bool;
  unexpected_sample : Z;
  stage : ObserverStage;
  ident : IdentificationReader.t;
  packets : InitialPackets.t;
  buf : InputBuffer.t;
  end_ : option ObservationOutcome
}.

(* tcp/observer.rs:210-230 Observer::new *)
Definition new (config : ObserverConfig) : result t InvalidLocalIdentification :=
  let? server_line := build_identification (obs_software_version config) in
  let limits := mkIdentLimits 0 0 (obs_max_identification_line config) (obs_max_identification_line config) in
  Ok (mk server_line (cfg_banner_only config) (cfg_unexpected_sample config) ObClientIdentification
        (IdentificationReader.new limits) (InitialPackets.new (obs_initial config))
        (InputBuffer.new (observer_buffer_capacity config)) None).

(* tcp/observer.rs:241-243 Observer::server_identification_line *)
Definition server_identification_line (self : t) : bytes :=
  ztake (zlen (server_line self) - 2) (server_line self).

(* tcp/observer.rs:253-255 Observer::pending_bytes *)
Definition pending_bytes (self : t) : Z := InputBuffer.len (buf self).

(* tcp/observer.rs:259-261 Observer::room *)
Definition room (self : t) : Z := InputBuffer.room (buf self).

Definition set_ident (self : t) (r : IdentificationReader.t) : t :=
  mk (server_line self) (banner_only self) (unexpected_sample self) (stage self) r (packets self)
    (buf self) (end_ self).

Definition set_packets (self : t) (pk : InitialPackets.t) : t :=
  mk (server_line self) (banner_only self) (unexpected_sample self) (stage self) (ident self) pk
    (buf self) (end_ self).

Definition set_buf (self : t) (b : InputBuffer.t) : t :=
  mk (server_line self) (banner_only self) (unexpected_sample self) (stage self) (ident self)
    (packets self) b (end_ self).

Definition set_stage (self : t) (s : ObserverStage) : t :=
  mk (server_line self) (banner_only self) (unexpected_sample self) s (ident self) (packets self)
    (buf self) (end_ self).

(* tcp/observer.rs:298-302 Observer::finish *)
Definition finish (self : t) (o : ObservationOutcome) : t * ObservationOutcome :=
  (mk (server_line self) (banner_only self) (unexpected_sample self) ObFinished (ident self)
     (packets self) (buf self) (Some o), o).

(* tcp/observer.rs:266-273 Observer::feed *)
Definition feed (self : t) (data : bytes) : t :=
  if bool_decide (stage self = ObFinished) then self
  else
    match InputBuffer.push (buf self) data with
    | (b, Ok _) => set_buf self b
    | (b, Err e) => fst (finish (set_buf self b) (OoError (InitOverflow e)))
    end.

(* tcp/observer.rs:276-284 Observer::input_ended *)
Definition input_ended (self : t) : t * ObservationOutcome :=
  match end_ self with
  | Some e => (self, e)
  | None => finish self (OoEof (stage self) (InputBuffer.len (buf self)))
  end.

(* tcp/observer.rs:304-336 Observer::step_identification *)
Definition step_identification (self : t) : option (t * ObserverStep) :=
  let b := InputBuffer.as_slice (buf self) in
  if bool_decide (starts_identification b = Some false) then
    let n := Z.min (zlen b) (unexpected_sample self) in
    let outcome := OoUnexpectedInput (ztake n b) (n <? zlen b) in
    let '(self, o) := finish (set_buf self (InputBuffer.clear (buf self))) outcome in
    Some (self, ObFinishedWith o)
  else
    let '(r, res) := IdentificationReader.feed (ident self) b in
    let self := set_ident self r in
    match res with
    | Ok StepNeedMore => Some (self, ObNeedMore)
    | Ok (StepPrelude _ _ _) => None
    | Ok (StepIdentification i consumed) =>
        let* b := InputBuffer.consume (buf self) consumed in
        let self := set_buf self b in
        let self := if banner_only self then fst (finish self OoBannerOnly)
                    else set_stage self ObInitialPackets in
        Some (self, ObEvent (OeClientIdentification i))
    | Err e =>
        let '(self, o) := finish self (OoError (InitIdent e)) in Some (self, ObFinishedWith o)
    end.

(* tcp/observer.rs:338-369 Observer::step_packet *)
Definition step_packet (self : t) : option (t * ObserverStep) :=
  let '(pk, st) := InitialPackets.step (packets self) (InputBuffer.as_slice (buf self)) in
  let self := set_packets self pk in
  let ending (o : ObservationOutcome) (consumed : Z) : option (t * ObserverStep) :=
    let* b := InputBuffer.consume (buf self) consumed in
    let '(self, o) := finish (set_buf self b) o in Some (self, ObFinishedWith o) in
  match st with
  | InitNeedMore => Some (self, ObNeedMore)
  | InitSkipped message consumed =>
      let* b := InputBuffer.consume (buf self) consumed in
      Some (set_buf self b, ObEvent (OeSkipped message))
  | InitKexInit k payload consumed =>
      let* unexamined := checked_sub (InputBuffer.len (buf self)) consumed in
      ending (OoProposal (from_kexinit k payload unexamined)) consumed
  | InitDisconnect d consumed =>
      ending (OoDisconnected (Disconnect.reason_code d) (Disconnect.description d)
                (Disconnect.language_tag d)) consumed
  | InitError e => ending (OoError e) 0
  end.

(* tcp/observer.rs:287-296 Observer::step *)
Definition step (self : t) : option (t * ObserverStep) :=
  match end_ self with
  | Some o => Some (self, ObFinishedWith o)
  | None =>
      match stage self with
      | ObClientIdentification => step_identification self
      | ObInitialPackets => step_packet self
      | ObFinished => None
      end
  end.

End Observer.

(** ** The invariant *)

Definition observer_config_ok (c : ObserverConfig) : Prop :=
  0 <= max_packet_length (packet (obs_initial c)) <= U32_MAX /\
  0 <= max_packets (obs_initial c) /\ 0 <= max_bytes (obs_initial c) < USIZE_MAX /\
  0 <= cfg_unexpected_sample c <= USIZE_MAX /\ 0 <= obs_max_identification_line c /\
  observer_buffer_capacity c <= USIZE_MAX.

Definition observer_inv (self : Observer.t) : Prop :=
  InputBuffer.inv (Observer.buf self) /\ reader_ok (Observer.ident self) /\
  InitialPackets.inv (Observer.packets self) /\
  (let i := IdentificationReader.limits (Observer.ident self) in
   let l := InitialPackets.limits (Observer.packets self) in
   let cap := InputBuffer.capacity (Observer.buf self) in
   Z.max (max_prelude_line i) (max_identification_line i) <= cap /\
   0 <= max_packet_length (packet l) /\ max_packet_length (packet l) + HEADER_LEN <= cap /\
   max_bytes l < USIZE_MAX) /\
  (Observer.stage self = ObFinished <-> Observer.end_ self <> None).

(** The outcome of a step: waiting always leaves room, an event consumes input,
    a client line is never a prelude, and a proposal decodes its payload. *)
Definition observer_post (p p' : Observer.t) (r : ObserverStep) : Prop :=
  observer_inv p' /\
  InputBuffer.capacity (Observer.buf p') = InputBuffer.capacity (Observer.buf p) /\
  Observer.banner_only p' = Observer.banner_only p /\
  match r with
  | ObNeedMore => p' = p /\ 0 < Observer.room p
  | ObEvent _ => zlen (InputBuffer.buf (Observer.buf p')) < zlen (InputBuffer.buf (Observer.buf p))
  | ObFinishedWith o => Observer.end_ p' = Some o
  end.

(** The reader never reports a prelude line to an observer. *)
Lemma feed_no_prelude r b r' line t n :
  starts_identification b <> Some false ->
  IdentificationReader.feed r b <> (r', Ok (StepPrelude line t n)).
Proof.
  intros Hs. unfold IdentificationReader.feed.
  destruct (starts_identification b) as [[]|] eqn:Es; [|done|].
  - destruct (find_line b) as [[m u]|]; [|by destruct (_ <=? _)].
    rewrite bool_decide_true by done. destruct (_ <? _); [done|].
    destruct (parse_identification _ _); simpl; congruence.
  - apply starts_None in Es as [_ ->]. by destruct (_ <=? _).
Qed.

Lemma set_packets_same p : Observer.set_packets p (Observer.packets p) = p.
Proof. by destruct p. Qed.

(** Which outcome is recorded is irrelevant to the invariant. *)
Lemma observer_inv_end sl bo us i pk b x y :
  observer_inv (Observer.mk sl bo us ObFinished i pk b (Some x)) ->
  observer_inv (Observer.mk sl bo us ObFinished i pk b (Some y)).
Proof. unfold observer_inv; simpl. naive_solver. Qed.

Section step.
Context (p : Observer.t).
Context (Hinv : observer_inv p) (Hend : Observer.end_ p = None).

Lemma observer_consume n s i pk en :
  0 <= n <= zlen (InputBuffer.buf (Observer.buf p)) -> (s = ObFinished <-> en <> None) ->
  reader_ok i -> IdentificationReader.limits i = IdentificationReader.limits (Observer.ident p) ->
  InitialPackets.inv pk -> InitialPackets.limits pk = InitialPackets.limits (Observer.packets p) ->
  exists b, InputBuffer.consume (Observer.buf p) n = Some b /\
    zlen (InputBuffer.buf b) = zlen (InputBuffer.buf (Observer.buf p)) - n /\
    InputBuffer.capacity b = InputBuffer.capacity (Observer.buf p) /\
    observer_inv (Observer.mk (Observer.server_line p) (Observer.banner_only p)
      (Observer.unexpected_sample p) s i pk b en).
Proof.
  intros Hn Hsn Hi Hil Hp Hpl. pose proof Hinv as (Hb & _ & _ & Hl & _).
  destruct (consume_ok (Observer.buf p) n) as (b & Hc & Hib & ->); [lia|done|].
  eexists; split; [exact Hc|]. simpl. rewrite zlen_zdrop by lia. split_and!; [lia|done|].
  unfold observer_inv; simpl. rewrite Hil, Hpl. split_and!; try done; apply Hl || apply Hsn.
Qed.

Lemma observer_identification_spec :
  Observer.stage p = ObClientIdentification ->
  exists p' r, Observer.step_identification p = Some (p', r) /\ observer_post p p' r.
Proof.
  intros Hs. pose proof Hinv as (Hb & Hr & Hp & Hl & Hf).
  unfold Observer.step_identification, InputBuffer.as_slice.
  case_bool_decide as Hst.
  { eexists _, _; split; [done|]. unfold observer_post, observer_inv, InputBuffer.inv; simpl.
    split_and!; try done; try apply Hl. change (zlen (@nil byte)) with 0.
    unfold InputBuffer.inv in Hb. pose proof (zlen_nonneg (InputBuffer.buf (Observer.buf p))). lia. }
  destruct (IdentificationReader.feed _ _) as [r' res] eqn:Ef.
  destruct (feed_counters _ _ _ _ Hr Ef) as (Hr' & Hlim & Hres).
  destruct res as [[|line t n|i n]|e]; cbn zeta.
  - destruct (feed_need_more _ _ _ Ef) as (-> & _ & Hlt). eexists _, _; split; [done|].
    replace (Observer.set_ident p (Observer.ident p)) with p by (by destruct p).
    unfold observer_post. split_and!; try done.
    unfold Observer.room, InputBuffer.room. destruct Hl as (Hcap & _). lia.
  - by destruct (feed_no_prelude _ _ _ _ _ _ Hst Ef).
  - destruct Hres as (_ & Hn & _). destruct (Observer.banner_only p) eqn:Hban.
    + destruct (observer_consume n ObFinished r' (Observer.packets p) (Some OoBannerOnly))
        as (b & Hc & Hlen & Hcap & Hi); try done; [lia|].
      simpl. rewrite Hc. simpl. rewrite Hban. eexists _, _; split; [done|].
      unfold observer_post; simpl. rewrite Hban in Hi. split_and!; try done. lia.
    + destruct (observer_consume n ObInitialPackets r' (Observer.packets p) None)
        as (b & Hc & Hlen & Hcap & Hi); try done; [lia|].
      simpl. rewrite Hc. simpl. rewrite Hban. eexists _, _; split; [done|].
      unfold observer_post, Observer.set_stage; simpl. rewrite Hend. split_and!; try done. lia.
  - eexists _, _; split; [done|]. subst r'. unfold observer_post, observer_inv; simpl.
    split_and!; try done; apply Hl.
Qed.

Lemma observer_packet_spec :
  Observer.stage p = ObInitialPackets ->
  exists p' r, Observer.step_packet p = Some (p', r) /\ observer_post p p' r.
Proof.
  intros Hs. pose proof Hinv as (Hb & Hr & Hp & Hl & Hf).
  unfold Observer.step_packet, InputBuffer.as_slice.
  destruct (InitialPackets.step _ _) as [pk st] eqn:Ef. pose proof Hl as (_ & Hl1 & Hl2 & Hl3).
  destruct (initial_step_spec _ _ _ _ Hp Hl3 Ef) as (Hp' & Hlim & Hst).
  assert (forall n s en, 0 <= n <= zlen (InputBuffer.buf (Observer.buf p)) -> (s = ObFinished <-> en <> None) ->
    exists b, InputBuffer.consume (Observer.buf p) n = Some b /\
      zlen (InputBuffer.buf b) = zlen (InputBuffer.buf (Observer.buf p)) - n /\
      InputBuffer.capacity b = InputBuffer.capacity (Observer.buf p) /\
      observer_inv (Observer.mk (Observer.server_line p) (Observer.banner_only p)
        (Observer.unexpected_sample p) s (Observer.ident p) pk b en)) as Hconsume
    by (intros; by apply observer_consume).
  unfold MIN_TOTAL_LEN in Hst. pose proof (zlen_nonneg (InputBuffer.buf (Observer.buf p))).
  destruct st as [|m n|k pl n|d n|e]; cbn zeta beta.
  - assert (pk = Observer.packets p) as -> by naive_solver. eexists _, _; split; [done|].
    rewrite set_packets_same. unfold observer_post. split_and!; try done.
    unfold Observer.room, InputBuffer.room, HEADER_LEN in *. destruct Hst as [[_ ?]|[_ ?]]; lia.
  - destruct Hst as (q & rest & _ & _ & _ & [= ->] & Hn & _).
    cbn [Observer.set_packets Observer.buf].
    destruct (Hconsume (total_len q) ObInitialPackets None) as (b & -> & Hlen & Hcap & Hi); [lia|done|].
    eexists _, _; split; [done|]. unfold observer_post, Observer.set_buf; simpl. rewrite Hs, Hend. split_and!; try done. lia.
  - destruct Hst as (q & rest & _ & _ & _ & [= ->] & Hn & _). unfold checked_sub, InputBuffer.len.
    cbn [Observer.set_packets Observer.buf].
    destruct (Z.leb_spec (total_len q) (zlen (InputBuffer.buf (Observer.buf p)))); [|lia]. cbn [mbind option_bind].
    cbn [Observer.set_packets Observer.buf].
    destruct (Hconsume (total_len q) ObFinished (Some OoBannerOnly)) as (b & -> & _ & Hcap & Hi); [lia|by split|].
    eexists _, _; split; [done|]. unfold observer_post; simpl. split_and!; try done. by eapply observer_inv_end.
  - destruct Hst as (q & rest & _ & _ & _ & [= ->] & Hn & _).
    cbn [Observer.set_packets Observer.buf].
    destruct (Hconsume (total_len q) ObFinished (Some OoBannerOnly)) as (b & -> & _ & Hcap & Hi); [lia|by split|].
    eexists _, _; split; [done|]. unfold observer_post; simpl. split_and!; try done. by eapply observer_inv_end.
  - cbn [Observer.set_packets Observer.buf].
    destruct (Hconsume 0 ObFinished (Some OoBannerOnly)) as (b & -> & _ & Hcap & Hi); [lia|by split|].
    eexists _, _; split; [done|]. unfold observer_post; simpl. split_and!; try done. by eapply observer_inv_end.
Qed.
End step.

Lemma observer_step_spec p :
  observer_inv p -> exists p' r, Observer.step p = Some (p', r) /\ observer_post p p' r.
Proof.
  intros Hi. unfold Observer.step. destruct (Observer.end_ p) as [e|] eqn:He.
  - exists p, (ObFinishedWith e). unfold observer_post. by split_and!.
  - destruct (Observer.stage p) eqn:Hs.
    + by apply observer_identification_spec.
    + by apply observer_packet_spec.
    + destruct Hi as (_ & _ & _ & _ & Hf). naive_solver.
Qed.

Lemma observer_new_inv c p :
  observer_config_ok c -> Observer.new c = Ok p ->
  observer_inv p /\ InputBuffer.capacity (Observer.buf p) = observer_buffer_capacity c.
Proof.
  unfold Observer.new. intros Hc (line & _ & <-%Ok_inj)%rbind_Ok.
  unfold observer_config_ok, observer_buffer_capacity, HEADER_LEN in Hc. split; [|done].
  unfold observer_inv, InputBuffer.inv, reader_ok, InitialPackets.inv, observer_buffer_capacity, HEADER_LEN; simpl.
  change (zlen (@nil byte)) with 0. split_and!; try done; try lia.
Qed.

(** The states any sequence of calls can lead to. *)
Inductive observer_reachable (c : ObserverConfig) : Observer.t -> Prop :=
| oreach_new p : Observer.new c = Ok p -> observer_reachable c p
| oreach_feed p d : observer_reachable c p -> observer_reachable c (Observer.feed p d)
| oreach_ended p : observer_reachable c p -> observer_reachable c (fst (Observer.input_ended p))
| oreach_step p p' r :
    observer_reachable c p -> Observer.step p = Some (p', r) -> observer_reachable c p'.

Lemma observer_feed_inv p d :
  observer_inv p ->
  observer_inv (Observer.feed p d) /\
  InputBuffer.capacity (Observer.buf (Observer.feed p d)) = InputBuffer.capacity (Observer.buf p).
Proof.
  intros Hi. unfold Observer.feed. case_bool_decide as Hs; [done|].
  destruct Hi as (Hb & Hr & Hp & Hl & Hf). pose proof (push_spec (Observer.buf p) d Hb) as Hpush.
  destruct (InputBuffer.push (Observer.buf p) d) as [b [u|e]].
  - destruct Hpush as (Hb' & Hc & _). unfold observer_inv; simpl. rewrite Hc. split_and!; try done; apply Hl || apply Hf.
  - destruct Hpush as [-> _]. unfold observer_inv; simpl. split_and!; try done; apply Hl.
Qed.

Lemma observer_reachable_inv c p :
  observer_config_ok c -> observer_reachable c p ->
  observer_inv p /\ InputBuffer.capacity (Observer.buf p) = observer_buffer_capacity c.
Proof.
  intros Hc. induction 1 as [p Hn|p d _ [Hi Hcap]|p _ [Hi Hcap]|p p' r _ [Hi Hcap] Hs].
  - by apply observer_new_inv.
  - destruct (observer_feed_inv p d Hi) as [Hi' Hcap']. split; [done|congruence].
  - unfold Observer.input_ended. destruct (Observer.end_ p) eqn:He; [done|]. simpl. split; [|done].
    destruct Hi as (Hb & Hr & Hp & Hl & Hf). unfold observer_inv; simpl. split_and!; try done; apply Hl.
  - destruct (observer_step_spec p Hi) as (p1 & r1 & Hs1 & (Hi1 & Hcap' & _)).
    rewrite Hs in Hs1. simplify_eq. split; [done|congruence].
Qed.

(** ** Properties *)

(** The observer never panics or wedges and its outcome is final: in every
    reachable state [step] returns (no prelude line ever reaches the reader),
    the buffer stays within its capacity, waiting leaves the state alone and
    leaves room for another byte, an event consumes input, and a finished
    observer repeats its outcome and ignores further input. *)
Theorem observer_progress (c : ObserverConfig) (p : Observer.t) :
  observer_config_ok c -> observer_reachable c p ->
  Observer.pending_bytes p + Observer.room p = observer_buffer_capacity c /\ 0 <= Observer.room p /\
  exists p' r, Observer.step p = Some (p', r) /\
  match r with
  | ObNeedMore => p' = p /\ 0 < Observer.room p
  | ObEvent _ => Observer.pending_bytes p' < Observer.pending_bytes p
  | ObFinishedWith o => forall d, Observer.feed p' d = p' /\ Observer.input_ended p' = (p', o) /\
      Observer.step p' = Some (p', ObFinishedWith o)
  end.
Proof.
  intros Hc Hr. destruct (observer_reachable_inv c p Hc Hr) as [Hi Hcap]. pose proof Hi as (Hb & _).
  unfold Observer.pending_bytes, Observer.room, InputBuffer.len, InputBuffer.room, InputBuffer.inv in *.
  split_and!; [lia|lia|].
  destruct (observer_step_spec p Hi) as (p' & r & Hs & ((_ & _ & _ & _ & Hfin) & _ & _ & Hr')).
  exists p', r. split; [done|]. destruct r as [|e|o]; [done..|]. intros d.
  unfold Observer.feed, Observer.input_ended, Observer.step. rewrite Hr'.
  rewrite bool_decide_true; [done|]. apply Hfin. congruence.
Qed.

Definition default_observer : Observer.t :=
  match Observer.new ObserverConfig_default with
  | Ok p => p
  | Err _ => Observer.mk [] false 0 ObFinished (IdentificationReader.new IdentLimits_default)
               (InitialPackets.new InitialLimits_default) (InputBuffer.new 0) None
  end.

Lemma default_observer_config_ok : observer_config_ok ObserverConfig_default.
Proof. vm_compute. repeat split; discriminate. Qed.

Lemma observer_progress_witness :
  observer_reachable ObserverConfig_default (Observer.feed default_observer (bstr "GET /")) /\
  0 <= Observer.room (Observer.feed default_observer (bstr "GET /")).
Proof.
  assert (observer_reachable ObserverConfig_default (Observer.feed default_observer (bstr "GET /"))) as Hr
    by (apply oreach_feed, oreach_new; reflexivity).
  split; [exact Hr|].
  exact (proj1 (proj2 (observer_progress ObserverConfig_default _ default_observer_config_ok Hr))).
Defined.

(** A client must start with its identification: on a fresh observer, input
    that cannot be an identification ends the observation with a sample that
    is a prefix of that input no longer than configured; otherwise the only
    event that can follow is the client's identification, whose line is exactly
    the start of the input, and in banner-only mode it ends the observation. *)
Theorem observer_client_speaks_first (c : ObserverConfig) (p : Observer.t) (d : bytes) :
  observer_config_ok c -> Observer.new c = Ok p -> zlen d <= observer_buffer_capacity c ->
  match Observer.step (Observer.feed p d) with
  | Some (_, ObFinishedWith (OoUnexpectedInput sample truncated)) =>
      starts_identification d = Some false /\ zlen sample <= cfg_unexpected_sample c /\
      exists rest, d = sample ++ rest /\ truncated = bool_decide (rest <> [])
  | Some (q, ObEvent e) =>
      exists i n, e = OeClientIdentification i /\ starts_identification d = Some true /\
        TcpIdentification.line i = ztake (n - byte_len (TcpIdentification.terminator i)) d /\ 0 < n <= zlen d /\
        Observer.end_ q = (if cfg_banner_only c then Some OoBannerOnly else None)
  | Some (_, ObNeedMore) => starts_identification d <> Some false
  | Some (_, ObFinishedWith o) => exists e, o = OoError (InitIdent e)
  | None => False
  end.
Proof.
  intros Hc Hn Hfit. pose proof (zlen_nonneg d).
  assert (Observer.feed p d = Observer.set_buf p (InputBuffer.mk d (observer_buffer_capacity c)) /\
    Observer.stage p = ObClientIdentification /\ Observer.end_ p = None /\
    Observer.unexpected_sample p = cfg_unexpected_sample c /\ Observer.banner_only p = cfg_banner_only c /\
    reader_ok (Observer.ident p)) as (-> & Hs & He & Hu & Hb & Hr).
  { destruct (observer_new_inv c p Hc Hn) as [(_ & Hr & _) _]. revert Hr.
    unfold Observer.new in Hn. apply rbind_Ok in Hn as (l & _ & <-%Ok_inj). intros Hr.
    split_and!; try done; try apply Hr. unfold Observer.feed, InputBuffer.push, InputBuffer.room; simpl.
    change (zlen (@nil byte)) with 0. by destruct (Z.ltb_spec (observer_buffer_capacity c - 0) (zlen d)); [lia|]. }
  unfold Observer.step. simpl. rewrite He, Hs. unfold Observer.step_identification, InputBuffer.as_slice. simpl.
  pose proof Hc as (_ & _ & _ & [Hsample _] & _).
  case_bool_decide as Hst; simpl.
  - rewrite Hu. split; [done|]. split; [rewrite zlen_ztake_min by lia; lia|].
    exists (zdrop (Z.min (zlen d) (cfg_unexpected_sample c)) d). split; [by rewrite ztake_zdrop|].
    destruct (Z.ltb_spec (Z.min (zlen d) (cfg_unexpected_sample c)) (zlen d)).
    + rewrite bool_decide_true; [done|]. intros Hd%(f_equal zlen). rewrite zlen_zdrop, zlen_nil in Hd; lia.
    + rewrite bool_decide_false; [done|]. intros Hd. destruct Hd. apply zdrop_all. lia.
  - destruct (IdentificationReader.feed _ _) as [r' res] eqn:Ef.
    destruct (feed_counters _ _ _ _ Hr Ef) as (_ & _ & Hres).
    destruct res as [[|line t n|i n]|e]; simpl.
    + done.
    + by destruct (feed_no_prelude _ _ _ _ _ _ Hst Ef).
    + destruct Hres as (Hline & Hn' & _). unfold InputBuffer.consume; simpl.
      destruct (Z.leb_spec n (zlen d)); [|lia]. simpl. exists i, n. split_and!; try done; try lia.
      * destruct (starts_identification d) as [[]|] eqn:Es; [done|done|].
        apply starts_None in Es as [_ Hfl]. unfold IdentificationReader.feed in Ef. rewrite Hfl in Ef.
        by destruct (_ <=? zlen d) in Ef.
      * rewrite Hb. by destruct (cfg_banner_only c).
    + eauto.
Qed.

Lemma observer_client_speaks_first_witness :
  Observer.step (Observer.feed default_observer (bstr "GET /")) =
    Some (fst (Observer.finish (Observer.set_buf default_observer (InputBuffer.new
            (observer_buffer_capacity ObserverConfig_default))) (OoUnexpectedInput (bstr "GET /") false)),
          ObFinishedWith (OoUnexpectedInput (bstr "GET /") false)) /\
  starts_identification (bstr "GET /") = Some false.
Proof.
  split; [vm_compute; reflexivity|].
  exact (proj1 (observer_client_speaks_first ObserverConfig_default default_observer (bstr "GET /")
    default_observer_config_ok eq_refl ltac:(vm_compute; discriminate))).
Defined.
