(* ===== verification/KeyAlgorithm.v ===== *)
(** * Key types and signature schemes

    Models crates/tatami_ssh_keys/src/algorithm.rs. Which Cargo features are on
    is a property of the build; [Features] carries it. *)

From S2P Require Import Prelude NameList KexInit.

(** The Cargo features the crate tests with [cfg!]. *)
Record Features : Type := mkFeatures { feat_ed25519 : bool; feat_rsa : bool; feat_ecdsa_p256 : bool }.

Module KeyType.

(* keys/algorithm.rs:22-30 KeyType *)
Inductive t : Type := Ed25519 | Rsa | EcdsaP256.

#[global] Instance t_eq_decision : EqDecision t.
Proof. solve_decision. Defined.

(* keys/algorithm.rs:35-41 KeyType::name *)
Definition name (self : t) : bytes :=
  match self with
  | Ed25519 => algorithms.SSH_ED25519
  | Rsa => algorithms.SSH_RSA
  | EcdsaP256 => algorithms.ECDSA_SHA2_NISTP256
  end.

(* keys/algorithm.rs:45-49 KeyType::from_name *)
Definition from_name (n : bytes) : option t :=
  List.find (fun k => bytes_eqb (name k) n) [Ed25519; Rsa; EcdsaP256].

(* keys/algorithm.rs:54-60 KeyType::is_enabled *)
Definition is_enabled (f : Features) (self : t) : bool :=
  match self with
  | Ed25519 => feat_ed25519 f
  | Rsa => feat_rsa f
  | EcdsaP256 => feat_ecdsa_p256 f
  end.

(* keys/algorithm.rs:65-71 KeyType::sshfp_algorithm *)
Definition sshfp_algorithm (self : t) : Z :=
  match self with Rsa => 1 | EcdsaP256 => 3 | Ed25519 => 4 end.

End KeyType.

Module SignatureScheme.

(* keys/algorithm.rs:83-92 SignatureScheme *)
Inductive t : Type := Ed25519 | EcdsaP256Sha256 | RsaSha2_512 | RsaSha2_256.

#[global] Instance t_eq_decision : EqDecision t.
Proof. solve_decision. Defined.

(* keys/algorithm.rs:98-103 SignatureScheme::PREFERENCE *)
Definition PREFERENCE : list t := [Ed25519; EcdsaP256Sha256; RsaSha2_512; RsaSha2_256].

(* keys/algorithm.rs:107-114 SignatureScheme::name *)
Definition name (self : t) : bytes :=
  match self with
  | Ed25519 => algorithms.SSH_ED25519
  | EcdsaP256Sha256 => algorithms.ECDSA_SHA2_NISTP256
  | RsaSha2_512 => algorithms.RSA_SHA2_512
  | RsaSha2_256 => algorithms.RSA_SHA2_256
  end.

(* keys/algorithm.rs:119-121 SignatureScheme::from_name *)
Definition from_name (n : bytes) : option t := List.find (fun s => bytes_eqb (name s) n) PREFERENCE.

(* keys/algorithm.rs:125-131 SignatureScheme::key_type *)
Definition key_type (self : t) : KeyType.t :=
  match self with
  | Ed25519 => KeyType.Ed25519
  | EcdsaP256Sha256 => KeyType.EcdsaP256
  | RsaSha2_512 | RsaSha2_256 => KeyType.Rsa
  end.

(* keys/algorithm.rs:135-137 SignatureScheme::is_enabled *)
Definition is_enabled (f : Features) (self : t) : bool := KeyType.is_enabled f (key_type self).

(* keys/algorithm.rs:143-145 SignatureScheme::needs_provider *)
Definition needs_provider (self : t) : bool := match self with Ed25519 => false | _ => true end.

End SignatureScheme.

(** Names determine the scheme or key type. *)
Lemma scheme_from_name n s : SignatureScheme.from_name n = Some s <-> n = SignatureScheme.name s.
Proof.
  unfold SignatureScheme.from_name, SignatureScheme.PREFERENCE. cbn [List.find]. split.
  - repeat (destruct (bytes_eqb _ n) eqn:E; [apply bytes_eqb_eq in E as <-; by intros [= <-]|clear E]). done.
  - intros ->. by destruct s.
Qed.

Lemma key_type_from_name n k : KeyType.from_name n = Some k <-> n = KeyType.name k.
Proof.
  unfold KeyType.from_name. cbn [List.find]. split.
  - repeat (destruct (bytes_eqb _ n) eqn:E; [apply bytes_eqb_eq in E as <-; by intros [= <-]|clear E]). done.
  - intros ->. by destruct k.
Qed.

Lemma scheme_name_valid s : is_valid_name (SignatureScheme.name s) = true.
Proof. by destruct s. Qed.

Lemma preference_complete s : s ∈ SignatureScheme.PREFERENCE.
Proof. destruct s; repeat constructor. Qed.

Lemma preference_nodup : NoDup SignatureScheme.PREFERENCE.
Proof. by apply (bool_decide_unpack _). Qed.

(** There are only four schemes. *)
Lemma schemes_nodup_length (l : list SignatureScheme.t) : NoDup l -> (length l <= 4)%nat.
Proof.
  intros Hl. change 4%nat with (length SignatureScheme.PREFERENCE).
  apply NoDup_incl_length; [by apply NoDup_ListNoDup|]. intros y _. apply list_elem_of_In, preference_complete.
Qed.
