(* ===== verification/HostKey.v ===== *)
(** * Host keys and signature verification

    Models the provider-independent half of crates/tatami_ssh_keys: the blob
    codecs (blob.rs), the error types (error.rs), the signature-provider hook
    (provider.rs), the Ed25519, RSA and ECDSA P-256 key types (ed25519.rs,
    rsa.rs, ecdsa.rs) and the dispatching [HostKey] (host_key.rs). The curve
    arithmetic of ed25519-dalek and the host's provider are parameters. *)

From S2P Require Import Prelude WireError NameList Primitives Messages KexInit KeyAlgorithm.

(** ** Errors *)

(* keys/error.rs:10-25 BlobError *)
Inductive BlobError : Type :=
| BlobField (field : string) (offset : Z) (error : DecodeError)
| BlobTrailingBytes (count : Z).

(* keys/error.rs:47-97 KeyError *)
Inductive KeyError : Type :=
| KeyBlob (e : BlobError)
| UnsupportedAlgorithm (name : bytes)
| WrongLength (field : string) (expected found : Z)
| InvalidKey
| NonCanonicalInteger (field : string)
| RsaModulus (bits : Z)
| RsaExponent
| CurveMismatch
| PointEncoding
| ScalarTooLong (field : string)
| UnexpectedKeyType (expected found : bytes).

(* keys/error.rs:155-183 VerifyError *)
Inductive VerifyError : Type :=
| AlgorithmMismatch (key_algorithm signature_algorithm : bytes)
| UnexpectedSignatureAlgorithm (expected found : bytes)
| MalformedSignature (e : KeyError)
| ProviderUnavailable (scheme : bytes)
| VerifyInvalid.

(** ** Blobs *)

(* keys/blob.rs:118-129 field *)
Definition blob_field {A} (name : string) (read : M Reader.t DecodeError A) : M Reader.t BlobError A :=
  fun r =>
    let offset := Reader.position r in
    with_err (fun error => BlobField name offset error) read r.

(* keys/blob.rs:147-150 finish *)
Definition blob_finish : M Reader.t BlobError unit := fun r =>
  (r, map_err (fun count => BlobTrailingBytes count) (Reader.finish r)).

(** [field] under [?] in a function that returns [KeyError]. *)
Definition key_field {A} (name : string) (read : M Reader.t DecodeError A) : M Reader.t KeyError A :=
  with_err KeyBlob (blob_field name read).

Definition key_finish : M Reader.t KeyError unit := with_err KeyBlob blob_finish.

(** A [Result] inside a decoder. *)
Definition lift {S E A} (res : result A E) : M S E A := fun s => (s, res).

(* keys/blob.rs:135-144 positive_mpint *)
Definition positive_mpint (name : string) : M Reader.t KeyError bytes :=
  let! m := key_field name read_mpint in
  if Mpint.is_zero m || Mpint.is_negative m || negb (Mpint.is_canonical m)
  then fail (NonCanonicalInteger name)
  else ret (match Mpint.positive_magnitude m with Some b => b | None => [] end).

Module PublicKeyBlob.

(* keys/blob.rs:45-51 PublicKeyBlob *)
Record t : Type := mk { algorithm : bytes; body : bytes; blob_bytes : bytes }.

(* keys/blob.rs:56-64 PublicKeyBlob::decode *)
Definition decode (blob : bytes) : result t BlobError :=
  snd ((let! algorithm := blob_field "algorithm" Reader.read_string in
        fun r => (r, Ok (mk algorithm (Reader.remaining r) blob))) (Reader.new blob)).

(* keys/blob.rs:68-70 PublicKeyBlob::as_bytes *)
Definition as_bytes (self : t) : bytes := blob_bytes self.

End PublicKeyBlob.

Module SignatureBlob.

(* keys/blob.rs:75-80 SignatureBlob *)
Record t : Type := mk { algorithm : bytes; signature : bytes }.

(* keys/blob.rs:84-93 SignatureBlob::decode *)
Definition decode (blob : bytes) : result t BlobError :=
  snd ((let! algorithm := blob_field "algorithm" Reader.read_string in
        let! signature := blob_field "signature" Reader.read_string in
        let! _ := blob_finish in
        ret (mk algorithm signature)) (Reader.new blob)).

(* keys/blob.rs:96-101 SignatureBlob::encode *)
Definition encode (self : t) (out : bytes) : bytes * result Z EncodeError :=
  run_encode (
    let! _ := Writer.write_string (algorithm self) in
    let! _ := Writer.write_string (signature self) in
    ret tt) out.

End SignatureBlob.

(* keys/blob.rs:26-26 ED25519_PUBLIC_KEY_LEN *)
Definition ED25519_PUBLIC_KEY_LEN : Z := 32.

(* keys/blob.rs:29-29 ED25519_SIGNATURE_LEN *)
Definition ED25519_SIGNATURE_LEN : Z := 64.

(* keys/blob.rs:33-33 ED25519_BLOB_LEN *)
Definition ED25519_BLOB_LEN : Z := 4 + 11 + 4 + ED25519_PUBLIC_KEY_LEN.

(* keys/blob.rs:107-115 encode_ed25519_blob *)
Definition encode_ed25519_blob (key_bytes out : bytes) : bytes * result Z EncodeError :=
  run_encode (
    let! _ := Writer.write_string algorithms.SSH_ED25519 in
    let! _ := Writer.write_string key_bytes in
    ret tt) out.

(** ** The provider hook *)

(* keys/provider.rs:32-37 RsaHash *)
Inductive RsaHash : Type := Sha256 | Sha512.

(* keys/provider.rs:43-62 ProviderRequest *)
Inductive ProviderRequest : Type :=
| RsaPkcs1v15 (hash : RsaHash) (modulus exponent signature : bytes)
| EcdsaP256Sha256 (public_point signature : bytes).

(* keys/provider.rs:67-67 ProviderRejected *)
Inductive ProviderRejected : Type := Rejected.

(* keys/provider.rs:73-81 SignatureProvider *)
Record SignatureProvider : Type := mkProvider {
  supports : SignatureScheme.t -> bool;
  provider_verify : bytes -> ProviderRequest -> result unit ProviderRejected
}.

(** ** Ed25519 (ed25519-dalek is a parameter) *)

(** [VerifyingKey::from_bytes], [VerifyingKey::as_bytes] and
    [VerifyingKey::verify_strict]. *)
Class Dalek : Type := {
  VerifyingKey : Type;
  vk_from_bytes : bytes -> option VerifyingKey;
  vk_as_bytes : VerifyingKey -> bytes;
  vk_verify_strict : VerifyingKey -> bytes -> bytes -> bool
}.

(** What the code relies on: a key is kept with the 32 bytes it was decoded
    from, and those bytes decode to it. *)
Class DalekLaws (D : Dalek) : Prop := {
  vk_as_bytes_len : forall k, zlen (vk_as_bytes k) = ED25519_PUBLIC_KEY_LEN;
  vk_from_as_bytes : forall b k, vk_from_bytes b = Some k -> vk_as_bytes k = b
}.

Module Ed25519.
Section ed25519.
Context `{D : Dalek}.

(* keys/ed25519.rs:26-28 Ed25519PublicKey *)
Record PublicKey : Type := mkKey { key : VerifyingKey }.

(* keys/ed25519.rs:32-36 Ed25519PublicKey::from_bytes *)
Definition from_bytes (b : bytes) : result PublicKey KeyError :=
  map_ok mkKey (ok_or (vk_from_bytes b) InvalidKey).

(* keys/ed25519.rs:41-57 Ed25519PublicKey::from_blob *)
Definition from_blob (blob : PublicKeyBlob.t) : result PublicKey KeyError :=
  if negb (bytes_eqb (PublicKeyBlob.algorithm blob) algorithms.SSH_ED25519)
  then Err (UnsupportedAlgorithm (PublicKeyBlob.algorithm blob)) else
  snd ((let! _ := key_field "algorithm" Reader.read_string in
        let! key := key_field "key" Reader.read_string in
        let! _ := key_finish in
        lift (if zlen key =? ED25519_PUBLIC_KEY_LEN then from_bytes key
              else Err (WrongLength "key" ED25519_PUBLIC_KEY_LEN (zlen key))))
       (Reader.new (PublicKeyBlob.as_bytes blob))).

(* keys/ed25519.rs:61-63 Ed25519PublicKey::as_bytes *)
Definition as_bytes (self : PublicKey) : bytes := vk_as_bytes (key self).

(* keys/ed25519.rs:66-68 Ed25519PublicKey::encode_blob *)
Definition encode_blob (self : PublicKey) (out : bytes) : bytes * result Z EncodeError :=
  encode_ed25519_blob (as_bytes self) out.

(* keys/ed25519.rs:83-85 Ed25519Signature *)
Record Signature : Type := mkSig { sig : bytes }.

(* keys/ed25519.rs:98-111 Ed25519Signature::from_blob *)
Definition sig_from_blob (blob : SignatureBlob.t) : result Signature KeyError :=
  if negb (bytes_eqb (SignatureBlob.algorithm blob) algorithms.SSH_ED25519)
  then Err (UnsupportedAlgorithm (SignatureBlob.algorithm blob)) else
  if zlen (SignatureBlob.signature blob) =? ED25519_SIGNATURE_LEN
  then Ok (mkSig (SignatureBlob.signature blob))
  else Err (WrongLength "signature" ED25519_SIGNATURE_LEN (zlen (SignatureBlob.signature blob))).

(* keys/ed25519.rs:71-75 Ed25519PublicKey::verify *)
Definition verify (self : PublicKey) (message : bytes) (s : Signature) : result unit VerifyError :=
  if vk_verify_strict (key self) message (sig s) then Ok tt else Err VerifyInvalid.

(* keys/spki.rs:515-521 ssh_blob_of *)
Definition ssh_blob_of (self : PublicKey) : bytes :=
  fst (encode_ed25519_blob (as_bytes self) (replicate (Z.to_nat ED25519_BLOB_LEN) x00)).

End ed25519.
End Ed25519.

(** ** RSA *)

(** [u8::leading_zeros]. *)
Definition leading_zeros8 (b : byte) : Z := if u8 b =? 0 then 8 else 7 - Z.log2 (u8 b).

Module Rsa.

(* keys/rsa.rs:35-35 MIN_MODULUS_BITS *)
Definition MIN_MODULUS_BITS : Z := 2048.

(* keys/rsa.rs:37-37 MAX_MODULUS_BITS *)
Definition MAX_MODULUS_BITS : Z := 8192.

(* keys/rsa.rs:39-39 MAX_EXPONENT_BYTES *)
Definition MAX_EXPONENT_BYTES : Z := 4.

(* keys/rsa.rs:43-48 RsaPublicKey *)
Record PublicKey : Type := mk { e : bytes; n : bytes }.

(* keys/rsa.rs:60-65 bit_len *)
Definition bit_len (magnitude : bytes) : Z :=
  match magnitude with
  | [] => 0
  | top :: _ => (zlen magnitude - 1) * 8 + (8 - leading_zeros8 top)
  end.

(** [exponent.first() == Some(&0)] and [last().is_some_and(|b| b & 1 == 0)]. *)
Definition first_is_zero (b : bytes) : bool :=
  match head b with Some x => u8 x =? 0 | None => false end.

Definition last_is_even (b : bytes) : bool :=
  match last b with Some x => Z.land (u8 x) 1 =? 0 | None => false end.

(* keys/rsa.rs:70-97 RsaPublicKey::from_components *)
Definition from_components (exponent modulus : bytes) : result PublicKey KeyError :=
  if first_is_zero exponent || first_is_zero modulus
  then Err (NonCanonicalInteger (if first_is_zero exponent then "e" else "n"))
  else
  if (zlen exponent =? 0) || (MAX_EXPONENT_BYTES <? zlen exponent) || last_is_even exponent
     || match exponent with [b] => u8 b <? 3 | _ => false end
  then Err RsaExponent
  else
  let bits := bit_len modulus in
  if negb ((MIN_MODULUS_BITS <=? bits) && (bits <=? MAX_MODULUS_BITS)) || last_is_even modulus
  then Err (RsaModulus bits)
  else Ok (mk exponent modulus).

(* keys/rsa.rs:100-110 RsaPublicKey::from_blob *)
Definition from_blob (blob : PublicKeyBlob.t) : result PublicKey KeyError :=
  if negb (bytes_eqb (PublicKeyBlob.algorithm blob) algorithms.SSH_RSA)
  then Err (UnsupportedAlgorithm (PublicKeyBlob.algorithm blob)) else
  snd ((let! _ := key_field "algorithm" Reader.read_string in
        let! e := positive_mpint "e" in
        let! n := positive_mpint "n" in
        let! _ := key_finish in
        lift (from_components e n)) (Reader.new (PublicKeyBlob.as_bytes blob))).

(* keys/rsa.rs:132-146 RsaPublicKey::to_blob *)
Definition to_blob (self : PublicKey) : bytes :=
  let len := 4 + zlen algorithms.SSH_RSA + Mpint.mpint_positive_len (e self)
             + Mpint.mpint_positive_len (n self) in
  fst (run_encode (
    let! _ := Writer.write_string algorithms.SSH_RSA in
    let! _ := Writer.write_mpint_positive (e self) in
    Writer.write_mpint_positive (n self)) (replicate (Z.to_nat len) x00)).

(* keys/rsa.rs:150-180 RsaPublicKey::verify *)
Definition verify (self : PublicKey) (hash : RsaHash) (message signature : bytes)
    (provider : SignatureProvider) : result unit VerifyError :=
  let k := zlen (n self) in
  if (zlen signature =? 0) || (k <? zlen signature)
  then Err (MalformedSignature (WrongLength "signature" k (zlen signature)))
  else
  let padded := write_at (k - zlen signature) signature (replicate (Z.to_nat k) x00) in
  map_err (fun _ => VerifyInvalid)
    (provider_verify provider message (RsaPkcs1v15 hash (n self) (e self) padded)).

End Rsa.

(** ** ECDSA over P-256 *)

Module Ecdsa.

(* keys/ecdsa.rs:32-32 P256_POINT_LEN *)
Definition P256_POINT_LEN : Z := 65.

(* keys/ecdsa.rs:34-34 P256_SCALAR_LEN *)
Definition P256_SCALAR_LEN : Z := 32.

(* keys/ecdsa.rs:36-36 P256_BLOB_LEN *)
Definition P256_BLOB_LEN : Z := 4 + 19 + 4 + 8 + 4 + P256_POINT_LEN.

(* keys/ecdsa.rs:41-43 EcdsaP256PublicKey *)
Record PublicKey : Type := mk { point : bytes }.

(* keys/ecdsa.rs:57-63 EcdsaP256PublicKey::from_point *)
Definition from_point (point : bytes) : result PublicKey KeyError :=
  if negb (zlen point =? P256_POINT_LEN) then Err PointEncoding else
  match point with
  | b :: _ => if u8 b =? 0x04 then Ok (mk point) else Err PointEncoding
  | [] => Err PointEncoding
  end.

(* keys/ecdsa.rs:66-79 EcdsaP256PublicKey::from_blob *)
Definition from_blob (blob : PublicKeyBlob.t) : result PublicKey KeyError :=
  if negb (bytes_eqb (PublicKeyBlob.algorithm blob) algorithms.ECDSA_SHA2_NISTP256)
  then Err (UnsupportedAlgorithm (PublicKeyBlob.algorithm blob)) else
  snd ((let! _ := key_field "algorithm" Reader.read_string in
        let! curve := key_field "curve" Reader.read_string in
        let! q := key_field "Q" Reader.read_string in
        let! _ := key_finish in
        lift (if negb (bytes_eqb curve algorithms.NISTP256) then Err CurveMismatch
              else from_point q)) (Reader.new (PublicKeyBlob.as_bytes blob))).

(* keys/ecdsa.rs:89-98 EcdsaP256PublicKey::to_blob *)
Definition to_blob (self : PublicKey) : bytes :=
  fst (run_encode (
    let! _ := Writer.write_string algorithms.ECDSA_SHA2_NISTP256 in
    let! _ := Writer.write_string algorithms.NISTP256 in
    Writer.write_string (point self)) (replicate (Z.to_nat P256_BLOB_LEN) x00)).

(** One round of the loop of [fixed_signature]: [value] right-aligned in its
    half of [out]. *)
Definition place_scalar (out value : bytes) (name : string) (half : Z) : result bytes KeyError :=
  if P256_SCALAR_LEN <? zlen value then Err (ScalarTooLong name) else
  let end_ := (half + 1) * P256_SCALAR_LEN in
  Ok (write_at (end_ - zlen value) value out).

(* keys/ecdsa.rs:122-136 fixed_signature *)
Definition fixed_signature (inner : bytes) : result bytes KeyError :=
  snd ((let! r := positive_mpint "r" in
        let! s := positive_mpint "s" in
        let! _ := key_finish in
        lift (let out := replicate (Z.to_nat (2 * P256_SCALAR_LEN)) x00 in
              let? out := place_scalar out r "r" 0 in
              place_scalar out s "s" 1)) (Reader.new inner)).

(* keys/ecdsa.rs:102-118 EcdsaP256PublicKey::verify *)
Definition verify (self : PublicKey) (message signature : bytes) (provider : SignatureProvider) :
    result unit VerifyError :=
  let? rs := map_err MalformedSignature (fixed_signature signature) in
  map_err (fun _ => VerifyInvalid)
    (provider_verify provider message (EcdsaP256Sha256 (point self) rs)).

End Ecdsa.

(** ** Host keys of any type *)

Module HostKey.
Section host_key.
Context `{D : Dalek}.

(* keys/host_key.rs:40-50 HostKey *)
Inductive t : Type :=
| Ed25519 (key : Ed25519.PublicKey)
| Rsa (key : Rsa.PublicKey)
| EcdsaP256 (key : Ecdsa.PublicKey).

(* keys/host_key.rs:54-64 HostKey::from_blob *)
Definition from_blob (f : Features) (blob : PublicKeyBlob.t) : result t KeyError :=
  let unsupported := Err (UnsupportedAlgorithm (PublicKeyBlob.algorithm blob)) in
  match KeyType.from_name (PublicKeyBlob.algorithm blob) with
  | Some KeyType.Ed25519 =>
      if feat_ed25519 f then map_ok Ed25519 (Ed25519.from_blob blob) else unsupported
  | Some KeyType.Rsa => if feat_rsa f then map_ok Rsa (Rsa.from_blob blob) else unsupported
  | Some KeyType.EcdsaP256 =>
      if feat_ecdsa_p256 f then map_ok EcdsaP256 (Ecdsa.from_blob blob) else unsupported
  | None => unsupported
  end.

(* keys/host_key.rs:67-69 HostKey::parse *)
Definition parse (f : Features) (blob : bytes) : result t KeyError :=
  let? b := map_err KeyBlob (PublicKeyBlob.decode blob) in from_blob f b.

(* keys/host_key.rs:73-82 HostKey::key_type *)
Definition key_type (self : t) : KeyType.t :=
  match self with
  | Ed25519 _ => KeyType.Ed25519
  | Rsa _ => KeyType.Rsa
  | EcdsaP256 _ => KeyType.EcdsaP256
  end.

(* keys/host_key.rs:86-88 HostKey::algorithm *)
Definition algorithm (self : t) : bytes := KeyType.name (key_type self).

(* keys/host_key.rs:94-103 HostKey::to_blob *)
Definition to_blob (self : t) : bytes :=
  match self with
  | Ed25519 key => Ed25519.ssh_blob_of key
  | Rsa key => Rsa.to_blob key
  | EcdsaP256 key => Ecdsa.to_blob key
  end.

(* keys/host_key.rs:106-117 HostKey::encode_blob *)
Definition encode_blob (self : t) (out : bytes) : bytes * result Z EncodeError :=
  let blob := to_blob self in
  let available := zlen out in
  if zlen blob <=? available
  then (write_at 0 blob out, Ok (zlen blob))
  else (out, Err (InsufficientCapacity (zlen blob) available)).

(* keys/host_key.rs:122-167 HostKey::verify *)
Definition verify (self : t) (scheme : SignatureScheme.t) (message : bytes) (sig : SignatureBlob.t)
    (provider : option SignatureProvider) : result unit VerifyError :=
  if negb (bytes_eqb (SignatureBlob.algorithm sig) (SignatureScheme.name scheme))
  then Err (UnexpectedSignatureAlgorithm (SignatureScheme.name scheme) (SignatureBlob.algorithm sig))
  else
  if bool_decide (SignatureScheme.key_type scheme <> key_type self)
  then Err (AlgorithmMismatch (algorithm self) (SignatureBlob.algorithm sig))
  else
  let provider :=
    ok_or (match provider with
           | Some p => if supports p scheme then Some p else None
           | None => None
           end) (ProviderUnavailable (SignatureScheme.name scheme)) in
  match self with
  | Ed25519 key =>
      let? sig := map_err MalformedSignature (Ed25519.sig_from_blob sig) in
      Ed25519.verify key message sig
  | Rsa key =>
      let hash := match scheme with SignatureScheme.RsaSha2_512 => Sha512 | _ => Sha256 end in
      let? p := provider in
      Rsa.verify key hash message (SignatureBlob.signature sig) p
  | EcdsaP256 key =>
      let? p := provider in
      Ecdsa.verify key message (SignatureBlob.signature sig) p
  end.

End host_key.
End HostKey.
