(* ===== verification/HostKeyProps.v ===== *)
(** * Host keys: what parsing and verification promise

    The contracts of the blob readers, the RSA key policy and the ECDSA
    signature conversion in terms of integers, the round trip of every key
    blob, and the conditions under which [HostKey::verify] accepts. *)

From S2P Require Import Prelude WireError NameList Primitives Messages KexInit KeyAlgorithm HostKey.

Import Reader(rd).
Import Writer(wr).

(** ** Readers of the keys crate *)

Lemma reads_blob_field {A} name (m : M Reader.t DecodeError A) img :
  Reads m img -> Reads (blob_field name m) img.
Proof.
  intros Hm. split.
  - intros a bs pre rest H. unfold blob_field.
    by rewrite (reads_complete (Reads:=reads_with_err _ m img Hm) a).
  - intros pre rest r' a. unfold blob_field. intros H%with_err_Ok_inv. by apply reads_sound in H.
Qed.

Lemma reads_key_field {A} name (m : M Reader.t DecodeError A) img :
  Reads m img -> Reads (key_field name m) img.
Proof. intros Hm. by apply reads_with_err, reads_blob_field. Qed.

Lemma decodes_key_finish {A} (res : result A KeyError) :
  Decodes (let! _ := key_finish in lift res) (fun x bs => res = Ok x /\ bs = []).
Proof.
  intros pre rest x. unfold bind, key_finish, with_err, blob_finish, lift. rewrite finish_spec.
  case_bool_decide; simpl; naive_solver.
Qed.

Lemma decodes_blob_finish {A} (a : A) :
  Decodes (let! _ := blob_finish in ret a) (fun x bs => x = a /\ bs = []).
Proof.
  intros pre rest x. unfold bind, blob_finish. rewrite finish_spec.
  case_bool_decide; simpl; naive_solver.
Qed.

(** A read followed by a check on the value read. *)
Lemma reads_checked {E A B} (m : M Reader.t E A) (c : A -> bool) (e : E) (f : A -> B) img :
  Reads m img ->
  Reads (let! a := m in if c a then fail e else ret (f a))
        (fun b bs => exists a, c a = false /\ b = f a /\ img a bs).
Proof.
  intros Hm. split.
  - intros b bs pre rest (a & Hc & -> & Hi).
    erewrite bind_step by (by apply reads_complete). by rewrite Hc.
  - intros pre rest r' b. unfold bind.
    destruct (m (rd pre rest)) as [r [a|er]] eqn:Em; [|done].
    apply (reads_sound (Reads:=Hm)) in Em as (bs & rest' & -> & -> & Hi).
    destruct (c a) eqn:Ec; [done|]. intros [= <- <-]. naive_solver.
Qed.

(** Non-empty magnitudes without a leading zero byte, the value range of a
    strict positive mpint. *)
Definition magnitude (m : bytes) : Prop :=
  match m with [] => False | b :: _ => u8 b <> 0 end.

Lemma magnitude_strip m : magnitude m -> Mpint.strip_leading_zeros m = m.
Proof.
  destruct m as [|b m]; simpl; [done|]. intros Hb.
  unfold Mpint.strip_leading_zeros. simpl. by destruct (Z.eqb_spec (u8 b) 0).
Qed.

Lemma magnitude_be_val m : magnitude m -> 256 ^ (zlen m - 1) <= be_val m.
Proof.
  destruct m as [|b m]; simpl; [done|]. intros Hb. pose proof (u8_range b). pose proof (be_val_range m).
  rewrite zlen_cons. replace (1 + zlen m - 1) with (zlen m) by lia.
  assert (0 < 256 ^ zlen m) by (apply Z.pow_pos_nonneg; zlia). nia.
Qed.

Lemma magnitude_pos m : magnitude m -> 0 < be_val m.
Proof.
  intros H. pose proof (magnitude_be_val m H).
  assert (0 < 256 ^ (zlen m - 1)); [|lia].
  apply Z.pow_pos_nonneg; [lia|]. destruct m; [done|]. zlia.
Qed.

(** A canonical encoding of a positive integer is the one
    [write_mpint_positive] produces for its magnitude. *)
Lemma canonical_positive m :
  (Mpint.is_zero m || Mpint.is_negative m || negb (Mpint.is_canonical m)) = false <->
  exists mag, magnitude mag /\ Mpint.raw m = mpint_body mag /\ Mpint.positive_magnitude m = Some mag.
Proof.
  destruct m as [raw]; cbn [Mpint.raw]. split.
  - intros [[Hz Hn]%orb_false_iff Hc%negb_false_iff]%orb_false_iff.
    exists (Mpint.strip_leading_zeros raw).
    destruct (strip_leading_zeros_spec raw) as [Hv Hh].
    destruct (mpint_body_spec raw) as (Hc' & Hv' & Hp').
    assert (mpint_val (Mpint.mk raw) = be_val raw) as Hr.
    { unfold mpint_val. rewrite Hn. simpl. lia. }
    assert (raw = mpint_body raw) as Hraw.
    { assert (Mpint.mk raw = Mpint.mk (mpint_body raw)) as Heq; [|congruence].
      apply mpint_val_inj; [|congruence]. cbn [Mpint.raw].
      pose proof (mpint_canonical_shortest _ (Mpint.mk (mpint_body raw)) Hc ltac:(congruence)) as H1.
      pose proof (mpint_canonical_shortest _ (Mpint.mk raw) Hc' ltac:(congruence)) as H2.
      cbn [Mpint.raw] in *. lia. }
    assert (mpint_body (Mpint.strip_leading_zeros raw) = mpint_body raw) as Hb.
    { unfold mpint_body. destruct (Mpint.strip_leading_zeros raw) as [|b t] eqn:E; [done|].
      by rewrite magnitude_strip. }
    split_and!; [|congruence|by unfold Mpint.positive_magnitude; rewrite Hn].
    destruct (Mpint.strip_leading_zeros raw) eqn:E; [|done].
    exfalso. unfold mpint_body in Hraw. rewrite E in Hraw. subst.
    by unfold Mpint.is_zero in Hz; apply bool_decide_eq_false in Hz.
  - intros (mag & Hm & -> & Hp). destruct (mpint_body_spec mag) as (Hc & Hv & _).
    rewrite Hc. unfold Mpint.positive_magnitude in Hp.
    destruct (Mpint.is_negative (Mpint.mk (mpint_body mag))); [done|].
    unfold Mpint.is_zero. rewrite bool_decide_eq_false_2; [done|]. cbn [Mpint.raw].
    intros Hn. rewrite Hn in Hv. pose proof (magnitude_pos _ Hm).
    change (mpint_val (Mpint.mk [])) with 0 in Hv. lia.
Qed.

(** The encoding of a positive integer given by its magnitude. *)
Definition mpint_field (m : bytes) : bytes := sshstr (mpint_body m).

Definition pos_img (m bs : bytes) : Prop := magnitude m /\ string_img (mpint_body m) bs.

#[export] Instance reads_positive_mpint name : Reads (positive_mpint name) pos_img.
Proof.
  eapply reads_weaken; [apply reads_checked, reads_key_field, _|].
  intros m bs. unfold pos_img, mpint_img. split.
  - intros (a & Hc & -> & Hi). apply canonical_positive in Hc as (mag & Hm & Hr & ->).
    by rewrite <- Hr.
  - intros [Hm Hi]. exists (Mpint.mk (mpint_body m)).
    destruct (mpint_body_spec m) as (_ & _ & Hp). rewrite (magnitude_strip m Hm) in Hp.
    split_and!; [|by rewrite Hp|done]. apply canonical_positive. naive_solver.
Qed.

(** ** Magnitudes as integers *)

Lemma be_val_app a b : be_val (a ++ b) = be_val a * 256 ^ zlen b + be_val b.
Proof.
  induction a as [|x a IH]; simpl; [lia|].
  rewrite IH, zlen_app, Z.pow_add_r by zlia. lia.
Qed.

Lemma be_val_zeros k b : be_val (replicate k x00 ++ b) = be_val b.
Proof. induction k as [|k IH]; simpl; [done|]. rewrite IH. done. Qed.

Lemma zlen_replicate_Z {A} k (x : A) : 0 <= k -> zlen (replicate (Z.to_nat k) x) = k.
Proof. unfold zlen. rewrite length_replicate. lia. Qed.

(** A value right-aligned in a zeroed array of [k] bytes is its [k]-byte
    big-endian encoding. *)
Lemma pad_left (k : nat) v :
  zlen v <= Z.of_nat k ->
  replicate (Z.to_nat (Z.of_nat k - zlen v)) x00 ++ v = be_bytes k (be_val v).
Proof.
  intros Hl. pose proof (zlen_nonneg v).
  rewrite <- (be_val_zeros (Z.to_nat (Z.of_nat k - zlen v)) v). symmetry. apply be_bytes_of_val.
  rewrite zlen_app, zlen_replicate_Z by lia. lia.
Qed.

Lemma last_is_even_spec b : b <> [] -> Rsa.last_is_even b = negb (Z.odd (be_val b)).
Proof.
  intros Hb. destruct (exists_last Hb) as (l & x & ->).
  unfold Rsa.last_is_even. rewrite last_snoc, be_val_app. cbn [be_val].
  change (zlen [x]) with 1. rewrite Z.pow_1_r. change (zlen (@nil byte)) with 0.
  replace (be_val l * 256 + (u8 x * 256 ^ 0 + 0)) with (u8 x + 2 * (be_val l * 128)) by lia.
  rewrite Z.odd_add_mul_2. by destruct x.
Qed.

Lemma first_is_zero_spec b : Rsa.first_is_zero b = false <-> b = [] \/ magnitude b.
Proof.
  destruct b as [|x b]; cbn; [naive_solver|]. rewrite Z.eqb_neq. naive_solver.
Qed.

Lemma bit_len_spec m :
  magnitude m ->
  2 ^ (Rsa.bit_len m - 1) <= be_val m < 2 ^ Rsa.bit_len m /\ 0 < Rsa.bit_len m.
Proof.
  destruct m as [|b m]; simpl; [done|]. intros Hb.
  pose proof (u8_range b) as Hr. pose proof (be_val_range m) as Hv. rewrite zlen_cons.
  unfold leading_zeros8. destruct (Z.eqb_spec (u8 b) 0); [done|].
  set (j := Z.log2 (u8 b)). pose proof (Z.log2_spec (u8 b) ltac:(lia)) as Hl. fold j in Hl.
  pose proof (Z.log2_nonneg (u8 b)) as Hj. fold j in Hj. pose proof (zlen_nonneg m).
  replace ((1 + zlen m - 1) * 8 + (8 - (7 - j))) with (8 * zlen m + Z.succ j) by lia.
  replace (8 * zlen m + Z.succ j - 1) with (8 * zlen m + j) by lia.
  rewrite !(Z.pow_add_r 2 (8 * zlen m)), !Z.pow_mul_r by lia. change (2 ^ 8) with 256.
  split; [nia|lia].
Qed.

Lemma bit_len_range m lo hi :
  magnitude m -> 0 < lo ->
  (lo <= Rsa.bit_len m <= hi) <-> 2 ^ (lo - 1) <= be_val m < 2 ^ hi.
Proof.
  intros Hm Hlo. destruct (bit_len_spec m Hm) as [Hb Hp]. split.
  - intros [H1 H2]. split.
    + transitivity (2 ^ (Rsa.bit_len m - 1)); [|lia]. apply Z.pow_le_mono_r; lia.
    + eapply Z.lt_le_trans; [apply Hb|]. apply Z.pow_le_mono_r; lia.
  - intros [H1 H2]. split.
    + assert (lo - 1 < Rsa.bit_len m); [|lia]. apply (Z.pow_lt_mono_r_iff 2); lia.
    + assert (Rsa.bit_len m - 1 < hi); [|lia].
      destruct (Z.lt_ge_cases hi 0) as [Hn|Hn].
      { rewrite (Z.pow_neg_r 2 hi Hn) in H2. pose proof (magnitude_pos m Hm). lia. }
      apply (Z.pow_lt_mono_r_iff 2); lia.
Qed.

(** The exponent checks, as bounds on the integer. *)
Lemma exponent_policy b :
  Rsa.first_is_zero b = false ->
  ((zlen b =? 0) || (Rsa.MAX_EXPONENT_BYTES <? zlen b) || Rsa.last_is_even b
   || match b with [x] => u8 x <? 3 | _ => false end) = false <->
  magnitude b /\ Z.odd (be_val b) = true /\ 3 <= be_val b < 2 ^ 32.
Proof.
  rewrite first_is_zero_spec. intros [->|Hm]; [split; [done|by intros [[] _]]|].
  pose proof (magnitude_be_val b Hm) as Hlo. pose proof (be_val_range b) as Hhi.
  assert (b <> []) as Hne by (by intros ->).
  rewrite last_is_even_spec by done. change (2 ^ 32) with (256 ^ 4).
  rewrite !orb_false_iff, Z.eqb_neq, Z.ltb_ge, negb_false_iff. unfold Rsa.MAX_EXPONENT_BYTES.
  assert (zlen b <= 4 <-> be_val b < 256 ^ 4) as ->.
  { split; intros H.
    - eapply Z.lt_le_trans; [apply Hhi|]. apply Z.pow_le_mono_r; lia.
    - assert (zlen b - 1 < 4); [|lia]. apply (Z.pow_lt_mono_r_iff 256); lia. }
  assert (match b with [x] => u8 x <? 3 | _ => false end = false <-> 3 <= be_val b) as ->.
  { destruct b as [|x [|y b]]; [done| |].
    - cbn [be_val]. change (256 ^ zlen (@nil byte)) with 1. rewrite Z.ltb_ge. lia.
    - split; [intros _|done]. transitivity (256 ^ 1); [done|]. etransitivity; [|apply Hlo].
      apply Z.pow_le_mono_r; zlia. }
  assert (zlen b <> 0) by (intros H%zlen_0; done). tauto.
Qed.

Definition rsa_key_ok (k : Rsa.PublicKey) : Prop :=
  magnitude (Rsa.e k) /\ Z.odd (be_val (Rsa.e k)) = true /\ 3 <= be_val (Rsa.e k) < 2 ^ 32 /\
  magnitude (Rsa.n k) /\ Z.odd (be_val (Rsa.n k)) = true /\
  2 ^ 2047 <= be_val (Rsa.n k) < 2 ^ 8192.

Lemma from_components_iff e n k :
  Rsa.from_components e n = Ok k <-> k = Rsa.mk e n /\ rsa_key_ok k.
Proof.
  unfold Rsa.from_components, rsa_key_ok.
  destruct (Rsa.first_is_zero e) eqn:Ee; cbn [orb].
  { split; [done|]. intros [-> (He & _)]. cbn in He.
    assert (Rsa.first_is_zero e = false) by (apply first_is_zero_spec; auto). congruence. }
  destruct (Rsa.first_is_zero n) eqn:En; cbn [orb].
  { split; [done|]. intros [-> (_ & _ & _ & Hn & _)]. cbn in Hn.
    assert (Rsa.first_is_zero n = false) by (apply first_is_zero_spec; auto). congruence. }
  pose proof (exponent_policy e Ee) as Hpol. destruct (_ || _ || _ || _) eqn:Ex.
  { split; [done|]. intros [-> (H1 & H2 & H3 & _)]. cbn in *. naive_solver. }
  apply first_is_zero_spec in En as [->|Hn]; [split; [done|]; intros [-> H]; cbn in H; tauto|].
  rewrite last_is_even_spec by (by intros ->).
  pose proof (bit_len_range n Rsa.MIN_MODULUS_BITS Rsa.MAX_MODULUS_BITS Hn ltac:(done)) as Hb.
  change (2 ^ (Rsa.MIN_MODULUS_BITS - 1)) with (2 ^ 2047) in Hb.
  change (2 ^ Rsa.MAX_MODULUS_BITS) with (2 ^ 8192) in Hb.
  destruct (negb (_ && _) || _) eqn:Eb.
  - split; [done|]. intros [-> (_ & _ & _ & _ & Ho & Hr)]. cbn in Ho, Hr. exfalso.
    apply Hb in Hr as [H1%Z.leb_le H2%Z.leb_le]. by rewrite H1, H2, Ho in Eb.
  - apply orb_false_iff in Eb as [[H1%Z.leb_le H2%Z.leb_le]%negb_false_iff%andb_true_iff Ho%negb_false_iff].
    split; [intros <-%Ok_inj; split; [done|]; cbn; tauto|]. by intros [-> _].
Qed.

(** ** ECDSA signatures *)

Lemma strip_zero_cons t : Mpint.strip_leading_zeros (x00 :: t) = Mpint.strip_leading_zeros t.
Proof.
  unfold Mpint.strip_leading_zeros. cbn [Prelude.position].
  change (negb (u8 x00 =? 0)) with false. cbv iota.
  destruct (Prelude.position _ t) as [i|] eqn:E; simpl.
  - apply position_Some in E as (a & x & b & -> & <- & _).
    change (x00 :: a ++ x :: b) with ([x00] ++ a ++ x :: b).
    rewrite zdrop_app_ge by (change (zlen [x00]) with 1; pose proof (zlen_nonneg a); lia).
    f_equal. change (zlen [x00]) with 1. lia.
  - by rewrite !zdrop_all by zlia.
Qed.

Lemma mpint_body_zeros k m : mpint_body (replicate k x00 ++ m) = mpint_body m.
Proof.
  induction k as [|k IH]; simpl; [done|].
  rewrite <- IH. unfold mpint_body. by rewrite strip_zero_cons.
Qed.

(** The encoding of a positive integer as an SSH mpint of at most [k] bytes. *)
Definition mpint_of (k : nat) (v : Z) : bytes := mpint_field (be_bytes k v).

Lemma mpint_field_of k m : zlen m <= Z.of_nat k -> mpint_field m = mpint_of k (be_val m).
Proof.
  intros H. unfold mpint_of, mpint_field. rewrite <- pad_left by done. by rewrite mpint_body_zeros.
Qed.

Lemma mpint_body_short m : zlen (mpint_body m) <= 1 + zlen m.
Proof.
  unfold mpint_body.
  assert (zlen (Mpint.strip_leading_zeros m) <= zlen m) as H.
  { unfold Mpint.strip_leading_zeros. unfold zlen, zdrop. rewrite length_drop. lia. }
  destruct (Mpint.strip_leading_zeros m); [zlia|]. destruct (Mpint.high_bit _); zlia.
Qed.

(** Every positive integer of at most [k] bytes has a magnitude. *)
Lemma magnitude_of (k : nat) v :
  0 < v < 256 ^ Z.of_nat k ->
  exists m, magnitude m /\ be_val m = v /\ zlen m <= Z.of_nat k.
Proof.
  intros Hv. exists (Mpint.strip_leading_zeros (be_bytes k v)).
  destruct (strip_leading_zeros_spec (be_bytes k v)) as [Hb Hh].
  rewrite be_bytes_small in Hb by lia. split_and!; [|done|].
  - destruct (Mpint.strip_leading_zeros _); [|done]. simpl in Hb. lia.
  - unfold Mpint.strip_leading_zeros.
    rewrite <- (zlen_be_bytes k v). unfold zlen, zdrop. rewrite length_drop. lia.
Qed.

Lemma magnitude_lt m k : 0 <= k -> magnitude m -> zlen m <= k <-> be_val m < 256 ^ k.
Proof.
  intros Hk Hm. pose proof (magnitude_be_val m Hm). pose proof (be_val_range m). split; intros H1.
  - eapply Z.lt_le_trans; [apply (be_val_range m)|]. apply Z.pow_le_mono_r; lia.
  - assert (zlen m - 1 < k); [|lia]. apply (Z.pow_lt_mono_r_iff 256); lia.
Qed.

Lemma pos_img_field m : magnitude m -> zlen m <= 65536 -> pos_img m (mpint_field m).
Proof.
  intros Hm Hl. pose proof (mpint_body_short m). split; [done|]. split; [unfold U32_MAX; lia|done].
Qed.

Lemma write_at_0 src old room : zlen old = zlen src -> write_at 0 src (old ++ room) = src ++ room.
Proof. intros H. by apply (write_at_app 0 [] src old room). Qed.

(** The loop of [fixed_signature] on two scalars that fit. *)
Lemma place_scalars r s :
  zlen r <= 32 -> zlen s <= 32 ->
  (let? out := Ecdsa.place_scalar (replicate 64 x00) r "r" 0 in Ecdsa.place_scalar out s "s" 1)
  = Ok (be_bytes 32 (be_val r) ++ be_bytes 32 (be_val s)).
Proof.
  intros Hr Hs. unfold Ecdsa.place_scalar, Ecdsa.P256_SCALAR_LEN.
  rewrite (proj2 (Z.ltb_ge _ _) Hr), (proj2 (Z.ltb_ge _ _) Hs). cbn [rbind]. f_equal.
  pose proof (zlen_nonneg r). pose proof (zlen_nonneg s).
  rewrite <- (pad_left 32 r), <- (pad_left 32 s) by lia. change (Z.of_nat 32) with 32.
  replace (replicate 64 x00) with (replicate (Z.to_nat (32 - zlen r)) x00 ++
    replicate (Z.to_nat (zlen r)) x00 ++ replicate 32 x00)
    by (rewrite <- !replicate_add; f_equal; lia).
  rewrite write_at_app by (rewrite zlen_replicate_Z; lia).
  replace (replicate 32 x00) with (replicate (Z.to_nat (32 - zlen s)) x00 ++
    replicate (Z.to_nat (zlen s)) x00 ++ []) by (rewrite app_nil_r, <- !replicate_add; f_equal; lia).
  rewrite !app_assoc, <- (app_assoc _ (replicate (Z.to_nat (zlen s)) x00) []).
  rewrite write_at_app; [by rewrite app_nil_r, <- ?app_assoc| |rewrite zlen_replicate_Z; lia].
  rewrite !zlen_app, !zlen_replicate_Z by lia. lia.
Qed.

Lemma place_scalars_long r s :
  32 < zlen r \/ 32 < zlen s ->
  is_ok (let? out := Ecdsa.place_scalar (replicate 64 x00) r "r" 0 in Ecdsa.place_scalar out s "s" 1)
  = false.
Proof.
  unfold Ecdsa.place_scalar, Ecdsa.P256_SCALAR_LEN.
  destruct (Z.ltb_spec 32 (zlen r)), (Z.ltb_spec 32 (zlen s)); simpl; try done. lia.
Qed.

Lemma fixed_signature_iff inner out :
  Ecdsa.fixed_signature inner = Ok out <->
  exists r s, 0 < r < 2 ^ 256 /\ 0 < s < 2 ^ 256 /\
    inner = mpint_of 32 r ++ mpint_of 32 s /\ out = be_bytes 32 r ++ be_bytes 32 s.
Proof.
  unfold Ecdsa.fixed_signature. change (Z.to_nat (2 * Ecdsa.P256_SCALAR_LEN)) with 64%nat.
  change (2 ^ 256) with (256 ^ Z.of_nat 32).
  assert (forall m, magnitude m -> zlen m <= 32 <-> be_val m < 256 ^ Z.of_nat 32) as Hlt
    by (intros m Hm; by apply magnitude_lt).
  match goal with |- snd (?m _) = _ <-> _ => assert (Decodes m (fun o bs => exists r b1 b2, bs = b1 ++ b2 /\
    pos_img r b1 /\ exists s b3 b4, b2 = b3 ++ b4 /\ pos_img s b3 /\
    (let? out := Ecdsa.place_scalar (replicate 64 x00) r "r" 0 in Ecdsa.place_scalar out s "s" 1) = Ok o
    /\ b4 = [])) as Hd end.
  { apply decodes_bind; [apply _|]. intros r. apply decodes_bind; [apply _|]. intros s.
    apply decodes_key_finish. }
  rewrite rd_new, (Hd [] inner out). split.
  - intros (r & b1 & b2 & -> & [Hr [_ ->]] & s & b3 & b4 & -> & [Hs [_ ->]] & Hp & ->).
    destruct (Z.lt_ge_cases 32 (zlen r)) as [Hl|Hl1].
    { apply (f_equal is_ok) in Hp. rewrite place_scalars_long in Hp by auto. done. }
    destruct (Z.lt_ge_cases 32 (zlen s)) as [Hl|Hl2].
    { apply (f_equal is_ok) in Hp. rewrite place_scalars_long in Hp by auto. done. }
    rewrite place_scalars in Hp by done. apply Ok_inj in Hp as <-.
    exists (be_val r), (be_val s). rewrite app_nil_r. unfold mpint_field.
    pose proof (magnitude_pos r Hr). pose proof (magnitude_pos s Hs).
    pose proof (mpint_field_of 32 r Hl1) as <-. pose proof (mpint_field_of 32 s Hl2) as <-.
    split_and!; try done; try lia; by apply Hlt.
  - intros (r & s & Hr & Hs & -> & ->).
    destruct (magnitude_of 32 r Hr) as (mr & Hmr & <- & Hlr).
    destruct (magnitude_of 32 s Hs) as (ms & Hms & <- & Hls).
    rewrite <- !mpint_field_of by done.
    exists mr, (mpint_field mr), (mpint_field ms). split; [done|]. split; [apply pos_img_field; lia || done|].
    exists ms, (mpint_field ms), []. split; [by rewrite app_nil_r|].
    split; [apply pos_img_field; lia || done|]. by rewrite place_scalars.
Qed.

(** ** Blobs of every key type *)

Lemma decode_blob_iff blob b :
  PublicKeyBlob.decode blob = Ok b <->
  exists name body, zlen name <= U32_MAX /\ blob = sshstr name ++ body /\
    b = PublicKeyBlob.mk name body blob.
Proof.
  unfold PublicKeyBlob.decode. rewrite rd_new. unfold bind. split.
  - destruct (blob_field _ _ _) as [r [a|e]] eqn:E; [|done].
    apply (reads_sound (Reads:=reads_blob_field _ _ _ reads_read_string)) in E
      as (bs & rest & -> & -> & [Hl ->]).
    simpl. intros <-%Ok_inj. exists a, rest. by rewrite rd_remaining.
  - intros (name & body & Hl & -> & ->).
    rewrite (reads_complete (Reads:=reads_blob_field _ _ _ reads_read_string) name (sshstr name) [] body)
      by done.
    simpl. by rewrite rd_remaining.
Qed.

Lemma decode_signature_iff blob s :
  SignatureBlob.decode blob = Ok s <->
  zlen (SignatureBlob.algorithm s) <= U32_MAX /\ zlen (SignatureBlob.signature s) <= U32_MAX /\
  blob = sshstr (SignatureBlob.algorithm s) ++ sshstr (SignatureBlob.signature s).
Proof.
  unfold SignatureBlob.decode.
  match goal with |- snd (?m _) = _ <-> _ => assert (Decodes m (fun o bs => exists a b1 b2, bs = b1 ++ b2 /\
    string_img a b1 /\ exists g b3 b4, b2 = b3 ++ b4 /\ string_img g b3 /\
    o = SignatureBlob.mk a g /\ b4 = [])) as Hd end.
  { apply decodes_bind; [apply reads_blob_field, _|]. intros a.
    apply decodes_bind; [apply reads_blob_field, _|]. intros g. apply decodes_blob_finish. }
  rewrite rd_new, (Hd [] blob s). split.
  - intros (a & b1 & b2 & -> & [Ha ->] & g & b3 & b4 & -> & [Hg ->] & -> & ->).
    by rewrite app_nil_r.
  - intros (Ha & Hg & ->). destruct s as [a g]; simpl in *.
    exists a, (sshstr a), (sshstr g). split; [done|]. split; [done|].
    exists g, (sshstr g), []. by rewrite app_nil_r.
Qed.

(** What the three interpreters accept after the algorithm name. *)
Section from_blob.
Variable name body : bytes.
Hypothesis Hname : zlen name <= U32_MAX.

(** A decoder that starts by skipping the algorithm string of the blob. *)
Lemma skip_algorithm {A} (k : M Reader.t KeyError A) img a :
  Decodes k img ->
  snd ((let! _ := key_field "algorithm" Reader.read_string in k) (Reader.new (sshstr name ++ body))) = Ok a <->
  img a body.
Proof using Hname.
  intros Hk. rewrite rd_new.
  erewrite bind_step by (apply (reads_complete (Reads:=reads_key_field _ _ _ reads_read_string)); by split).
  apply Hk.
Qed.

Lemma ed25519_from_blob_iff `{D : Dalek} k :
  Ed25519.from_blob (PublicKeyBlob.mk name body (sshstr name ++ body)) = Ok k <->
  name = algorithms.SSH_ED25519 /\ exists kb, zlen kb = ED25519_PUBLIC_KEY_LEN /\ body = sshstr kb /\
    vk_from_bytes kb = Some (Ed25519.key k).
Proof using Hname.
  unfold Ed25519.from_blob. cbn [PublicKeyBlob.algorithm PublicKeyBlob.as_bytes PublicKeyBlob.blob_bytes].
  rewrite bytes_eqb_spec. case_bool_decide as Hn; cbn [negb]; [|naive_solver].
  rewrite (skip_algorithm _ (fun o bs => exists kb b1 b2, bs = b1 ++ b2 /\ string_img kb b1 /\
    (if zlen kb =? ED25519_PUBLIC_KEY_LEN then Ed25519.from_bytes kb
     else Err (WrongLength "key" ED25519_PUBLIC_KEY_LEN (zlen kb))) = Ok o /\ b2 = [])).
  2: { apply decodes_bind; [apply reads_key_field, _|]. intros kb. apply decodes_key_finish. }
  assert (forall kb, Ed25519.from_bytes kb = Ok k <-> vk_from_bytes kb = Some (Ed25519.key k)) as Hf.
  { intros kb. unfold Ed25519.from_bytes. destruct k as [k]; simpl.
    destruct (vk_from_bytes kb); simpl; naive_solver. }
  split.
  - intros (kb & b1 & b2 & -> & [_ ->] & Hk & ->). split; [done|]. exists kb.
    destruct (Z.eqb_spec (zlen kb) ED25519_PUBLIC_KEY_LEN); [|done]. rewrite app_nil_r.
    by rewrite <- Hf.
  - intros (_ & kb & Hl & -> & Hk). exists kb, (sshstr kb), []. rewrite app_nil_r.
    split; [done|]. split; [split; [rewrite Hl; done|done]|].
    by rewrite Hl, Z.eqb_refl, Hf.
Qed.

Lemma rsa_from_blob_iff k :
  Rsa.from_blob (PublicKeyBlob.mk name body (sshstr name ++ body)) = Ok k <->
  name = algorithms.SSH_RSA /\ rsa_key_ok k /\ body = mpint_field (Rsa.e k) ++ mpint_field (Rsa.n k).
Proof using Hname.
  unfold Rsa.from_blob. cbn [PublicKeyBlob.algorithm PublicKeyBlob.as_bytes PublicKeyBlob.blob_bytes].
  rewrite bytes_eqb_spec. case_bool_decide as Hn; cbn [negb]; [|naive_solver].
  rewrite (skip_algorithm _ (fun o bs => exists e b1 b2, bs = b1 ++ b2 /\ pos_img e b1 /\
    exists n b3 b4, b2 = b3 ++ b4 /\ pos_img n b3 /\ Rsa.from_components e n = Ok o /\ b4 = [])).
  2: { apply decodes_bind; [apply _|]. intros e. apply decodes_bind; [apply _|]. intros n.
       apply decodes_key_finish. }
  split.
  - intros (e & b1 & b2 & -> & [_ [_ ->]] & n & b3 & b4 & -> & [_ [_ ->]] & Hk & ->).
    apply from_components_iff in Hk as [-> Hk]. by rewrite app_nil_r.
  - intros (_ & Hk & ->). destruct k as [e n]. pose proof Hk as (He & _ & Hel & Hm & _ & Hml). cbn in He, Hel, Hm, Hml.
    assert (zlen e <= 4) by (apply magnitude_lt; [lia|done|]; apply Hel).
    assert (zlen n <= 1024).
    { apply magnitude_lt; [lia|done|]. change (256 ^ 1024) with (2 ^ 8192). apply Hml. }
    exists e, (mpint_field e), (mpint_field n). split; [done|]. split; [apply pos_img_field; lia || done|].
    exists n, (mpint_field n), []. split; [by rewrite app_nil_r|].
    split; [apply pos_img_field; lia || done|]. split; [|done]. by apply from_components_iff.
Qed.

Definition point_ok (p : bytes) : Prop := zlen p = Ecdsa.P256_POINT_LEN /\ head p = Some x04.

Lemma from_point_iff q k : Ecdsa.from_point q = Ok k <-> k = Ecdsa.mk q /\ point_ok q.
Proof.
  unfold Ecdsa.from_point, point_ok. destruct (Z.eqb_spec (zlen q) Ecdsa.P256_POINT_LEN); cbn [negb];
    [|naive_solver].
  destruct q as [|b q]; [naive_solver|]. cbn [head].
  destruct (Z.eqb_spec (u8 b) 4) as [Hb|Hb].
  - change 4 with (u8 x04) in Hb. apply u8_inj in Hb as ->. naive_solver.
  - split; [done|]. intros (_ & _ & [= ->]). done.
Qed.

Lemma ecdsa_from_blob_iff k :
  Ecdsa.from_blob (PublicKeyBlob.mk name body (sshstr name ++ body)) = Ok k <->
  name = algorithms.ECDSA_SHA2_NISTP256 /\ point_ok (Ecdsa.point k) /\
  body = sshstr algorithms.NISTP256 ++ sshstr (Ecdsa.point k).
Proof using Hname.
  unfold Ecdsa.from_blob. cbn [PublicKeyBlob.algorithm PublicKeyBlob.as_bytes PublicKeyBlob.blob_bytes].
  rewrite bytes_eqb_spec. case_bool_decide as Hn; cbn [negb]; [|naive_solver].
  rewrite (skip_algorithm _ (fun o bs => exists c b1 b2, bs = b1 ++ b2 /\ string_img c b1 /\
    exists q b3 b4, b2 = b3 ++ b4 /\ string_img q b3 /\
    (if negb (bytes_eqb c algorithms.NISTP256) then Err CurveMismatch else Ecdsa.from_point q) = Ok o /\ b4 = [])).
  2: { apply decodes_bind; [apply reads_key_field, _|]. intros c.
       apply decodes_bind; [apply reads_key_field, _|]. intros q. apply decodes_key_finish. }
  split.
  - intros (c & b1 & b2 & -> & [_ ->] & q & b3 & b4 & -> & [_ ->] & Hk & ->).
    destruct (bytes_eqb c _) eqn:E; [|done]. apply bytes_eqb_eq in E as ->. cbn [negb] in Hk.
    apply from_point_iff in Hk as [-> Hk]. by rewrite app_nil_r.
  - intros (_ & Hk & ->). destruct k as [q]; cbn in Hk |- *.
    exists algorithms.NISTP256, (sshstr algorithms.NISTP256), (sshstr q).
    split; [done|]. split; [done|]. exists q, (sshstr q), []. rewrite app_nil_r.
    split; [done|]. split; [split; [|done]; destruct Hk as [-> _]; done|].
    rewrite bytes_eqb_refl. cbn [negb]. split; [|done]. by apply from_point_iff.
Qed.
End from_blob.

(** An encoder run into a buffer of exactly its output's size. *)
Lemma run_encode_exact m bs out :
  Writes m bs -> zlen out = zlen bs -> fst (run_encode m out) = bs.
Proof.
  intros Hm Hl. rewrite (run_encode_ok m bs) by (done || lia). simpl.
  rewrite zdrop_all by lia. apply app_nil_r.
Qed.

Section host_keys.
Context `{DL : DalekLaws}.
Implicit Types k : HostKey.t.

(** The keys the crate hands out. *)
Definition host_key_ok k : Prop :=
  match k with
  | HostKey.Ed25519 key => vk_from_bytes (Ed25519.as_bytes key) = Some (Ed25519.key key)
  | HostKey.Rsa key => rsa_key_ok key
  | HostKey.EcdsaP256 key => point_ok (Ecdsa.point key)
  end.

(** The blob of a key, as RFC 8709, RFC 4253 and RFC 5656 define it. *)
Definition key_image k : bytes :=
  match k with
  | HostKey.Ed25519 key => sshstr algorithms.SSH_ED25519 ++ sshstr (Ed25519.as_bytes key)
  | HostKey.Rsa key => sshstr algorithms.SSH_RSA ++ mpint_field (Rsa.e key) ++ mpint_field (Rsa.n key)
  | HostKey.EcdsaP256 key =>
      sshstr algorithms.ECDSA_SHA2_NISTP256 ++ sshstr algorithms.NISTP256 ++ sshstr (Ecdsa.point key)
  end.

Lemma rsa_key_lengths key : rsa_key_ok key -> zlen (Rsa.e key) <= 4 /\ zlen (Rsa.n key) <= 1024.
Proof.
  intros (He & _ & Hel & Hn & _ & Hnl). split; (apply magnitude_lt; [lia|done|]).
  - apply Hel.
  - change (256 ^ 1024) with (2 ^ 8192). apply Hnl.
Qed.

Lemma to_blob_image k : host_key_ok k -> HostKey.to_blob k = key_image k.
Proof.
  destruct k as [key|key|key]; cbn [HostKey.to_blob key_image host_key_ok]; intros Hk.
  - unfold Ed25519.ssh_blob_of, encode_ed25519_blob. pose proof (vk_as_bytes_len (Ed25519.key key)) as Hl.
    fold (Ed25519.as_bytes key) in Hl.
    apply run_encode_exact; [|rewrite !zlen_app, !zlen_sshstr, Hl; done].
    apply writes_bind; [by apply writes_write_string|]. apply writes_bind_ret, writes_write_string.
    rewrite Hl. done.
  - unfold Rsa.to_blob. destruct (rsa_key_lengths key Hk) as [Hle Hln].
    pose proof (mpint_body_short (Rsa.e key)). pose proof (mpint_body_short (Rsa.n key)).
    rewrite <- !mpint_body_len. apply run_encode_exact.
    + apply writes_bind; [by apply writes_write_string|].
      apply writes_bind; apply writes_write_mpint_positive; unfold U32_MAX; lia.
    + unfold mpint_field. rewrite zlen_replicate_Z by zlia. zlia.
  - unfold Ecdsa.to_blob. destruct Hk as [Hl _]. apply run_encode_exact.
    + apply writes_bind; [by apply writes_write_string|].
      apply writes_bind; [by apply writes_write_string|]. apply writes_write_string. by rewrite Hl.
    + rewrite !zlen_app, !zlen_sshstr, Hl. done.
Qed.

(** What follows the algorithm name. *)
Definition key_body k : bytes :=
  match k with
  | HostKey.Ed25519 key => sshstr (Ed25519.as_bytes key)
  | HostKey.Rsa key => mpint_field (Rsa.e key) ++ mpint_field (Rsa.n key)
  | HostKey.EcdsaP256 key => sshstr algorithms.NISTP256 ++ sshstr (Ecdsa.point key)
  end.

Lemma key_image_body k : key_image k = sshstr (KeyType.name (HostKey.key_type k)) ++ key_body k.
Proof. by destruct k. Qed.

Lemma key_type_name_inj a b : KeyType.name a = KeyType.name b -> a = b.
Proof. by destruct a, b. Qed.

Lemma key_type_name_len ty : zlen (KeyType.name ty) <= U32_MAX.
Proof. by destruct ty. Qed.

Lemma map_ok_iff {A B E} (g : A -> B) (r : result A E) b :
  map_ok g r = Ok b <-> exists a, r = Ok a /\ b = g a.
Proof. destruct r; simpl; naive_solver. Qed.

Lemma from_blob_iff f name body k :
  zlen name <= U32_MAX ->
  HostKey.from_blob f (PublicKeyBlob.mk name body (sshstr name ++ body)) = Ok k <->
  KeyType.is_enabled f (HostKey.key_type k) = true /\ host_key_ok k /\
  name = KeyType.name (HostKey.key_type k) /\ body = key_body k.
Proof.
  intros Hn. unfold HostKey.from_blob. cbn [PublicKeyBlob.algorithm].
  destruct (KeyType.from_name name) as [ty|] eqn:Et.
  2: { split; [done|]. intros (_ & _ & Hb & _). apply key_type_from_name in Hb. congruence. }
  apply key_type_from_name in Et as ->. split.
  - destruct ty; (destruct (_ f) eqn:Ef; [|done]); intros (key & Hk & ->)%map_ok_iff; cbn [HostKey.key_type].
    + apply ed25519_from_blob_iff in Hk as (_ & kb & _ & -> & Hk); [|done].
      cbn [host_key_ok key_body]. unfold Ed25519.as_bytes. by rewrite (vk_from_as_bytes kb) by done.
    + by apply rsa_from_blob_iff in Hk as (_ & Hk & ->).
    + by apply ecdsa_from_blob_iff in Hk as (_ & Hk & ->).
  - intros (He & Hk & Ht%key_type_name_inj & ->). subst ty.
    destruct k as [key|key|key]; cbn [HostKey.key_type KeyType.is_enabled] in *; rewrite He;
      apply map_ok_iff; exists key; (split; [|done]).
    + apply ed25519_from_blob_iff; [done|]. split; [done|].
      exists (Ed25519.as_bytes key). split; [apply vk_as_bytes_len|done].
    + by apply rsa_from_blob_iff.
    + by apply ecdsa_from_blob_iff.
Qed.

Lemma parse_iff f blob k :
  HostKey.parse f blob = Ok k <->
  KeyType.is_enabled f (HostKey.key_type k) = true /\ host_key_ok k /\ blob = key_image k.
Proof.
  rewrite key_image_body. unfold HostKey.parse. split.
  - destruct (PublicKeyBlob.decode blob) as [b|e] eqn:E; [|done]. cbn [map_err rbind].
    apply decode_blob_iff in E as (name & body & Hl & -> & ->).
    intros (He & Hk & -> & ->)%from_blob_iff; [done|done].
  - intros (He & Hk & ->). pose proof (key_type_name_len (HostKey.key_type k)) as Hl.
    set (name := KeyType.name (HostKey.key_type k)) in *.
    assert (PublicKeyBlob.decode (sshstr name ++ key_body k) =
      Ok (PublicKeyBlob.mk name (key_body k) (sshstr name ++ key_body k))) as ->
      by (apply decode_blob_iff; eauto).
    cbn [map_err rbind]. by apply from_blob_iff.
Qed.

(** ** Verification *)

(** A provider that supports the scheme accepts the request. *)
Definition provider_accepts (provider : option SignatureProvider) (scheme : SignatureScheme.t)
    (message : bytes) (req : ProviderRequest) : Prop :=
  exists p, provider = Some p /\ supports p scheme = true /\ provider_verify p message req = Ok tt.

Definition hash_of (scheme : SignatureScheme.t) : RsaHash :=
  match scheme with SignatureScheme.RsaSha2_512 => Sha512 | _ => Sha256 end.

(** What has to hold of the inner signature bytes [s], per key type. *)
Definition signature_accepted k (scheme : SignatureScheme.t) (message s : bytes)
    (provider : option SignatureProvider) : Prop :=
  match k with
  | HostKey.Ed25519 key =>
      zlen s = ED25519_SIGNATURE_LEN /\ vk_verify_strict (Ed25519.key key) message s = true
  | HostKey.Rsa key =>
      1 <= zlen s <= zlen (Rsa.n key) /\
      provider_accepts provider scheme message
        (RsaPkcs1v15 (hash_of scheme) (Rsa.n key) (Rsa.e key) (be_bytes (length (Rsa.n key)) (be_val s)))
  | HostKey.EcdsaP256 key =>
      exists r t, 0 < r < 2 ^ 256 /\ 0 < t < 2 ^ 256 /\ s = mpint_of 32 r ++ mpint_of 32 t /\
        provider_accepts provider scheme message
          (EcdsaP256Sha256 (Ecdsa.point key) (be_bytes 32 r ++ be_bytes 32 t))
  end.

Lemma rsa_padding (n s : bytes) :
  zlen s <= zlen n ->
  write_at (zlen n - zlen s) s (replicate (Z.to_nat (zlen n)) x00) = be_bytes (length n) (be_val s).
Proof.
  intros Hl. pose proof (zlen_nonneg s).
  replace (replicate (Z.to_nat (zlen n)) x00) with
    (replicate (Z.to_nat (zlen n - zlen s)) x00 ++ replicate (Z.to_nat (zlen s)) x00 ++ [])
    by (rewrite app_nil_r, <- replicate_add; f_equal; lia).
  rewrite write_at_app by (rewrite zlen_replicate_Z; lia). rewrite app_nil_r. by apply pad_left.
Qed.

(** A provider call that is reached. *)
Lemma with_provider provider scheme message req (k : SignatureProvider -> result unit VerifyError) :
  (forall p, k p = Ok tt <-> provider_verify p message req = Ok tt) ->
  (let? p := ok_or (match provider with
                    | Some p => if supports p scheme then Some p else None
                    | None => None
                    end) (ProviderUnavailable (SignatureScheme.name scheme)) in k p) = Ok tt
  <-> provider_accepts provider scheme message req.
Proof.
  intros Hk. unfold provider_accepts. destruct provider as [p|]; cbn [ok_or rbind].
  2: { split; [done|]. by intros (? & ? & _). }
  destruct (supports p scheme) eqn:E; cbn [ok_or rbind]; [rewrite Hk|]; split.
  - eauto.
  - by intros (? & [= <-] & _ & ?).
  - done.
  - intros (? & [= <-] & ? & _). congruence.
Qed.

Lemma map_err_ok {A E F} (g : E -> F) (r : result A E) a : map_err g r = Ok a <-> r = Ok a.
Proof. destruct r; simpl; naive_solver. Qed.

Lemma verify_iff k scheme message sig provider :
  HostKey.verify k scheme message sig provider = Ok tt <->
  SignatureBlob.algorithm sig = SignatureScheme.name scheme /\
  SignatureScheme.key_type scheme = HostKey.key_type k /\
  signature_accepted k scheme message (SignatureBlob.signature sig) provider.
Proof.
  unfold HostKey.verify. rewrite bytes_eqb_spec.
  case_bool_decide as Ha; cbn [negb]; [|naive_solver].
  case_bool_decide as Ht; [naive_solver|].
  transitivity (signature_accepted k scheme message (SignatureBlob.signature sig) provider); [|naive_solver].
  set (s := SignatureBlob.signature sig). destruct k as [key|key|key]; cbn [signature_accepted].
  - unfold Ed25519.sig_from_blob. fold s.
    assert (scheme = SignatureScheme.Ed25519) as -> by (by destruct scheme).
    rewrite Ha. change (SignatureScheme.name SignatureScheme.Ed25519) with algorithms.SSH_ED25519.
    rewrite bytes_eqb_refl. cbn [negb].
    destruct (Z.eqb_spec (zlen s) ED25519_SIGNATURE_LEN); cbn [map_err rbind]; [|naive_solver].
    unfold Ed25519.verify. cbn [Ed25519.sig]. fold s. destruct (vk_verify_strict _ _ _); naive_solver.
  - fold (hash_of scheme). split.
    + intros H. assert (1 <= zlen s <= zlen (Rsa.n key)) as Hl.
      { destruct provider as [p|]; [|done]. simpl in H. destruct (supports p scheme); [|done].
        cbn [ok_or rbind] in H. unfold Rsa.verify in H.
        destruct (Z.eqb_spec (zlen s) 0), (Z.ltb_spec (zlen (Rsa.n key)) (zlen s)); try done.
        pose proof (zlen_nonneg s). lia. }
      split; [done|]. revert H. apply with_provider. intros p. unfold Rsa.verify.
      destruct (Z.eqb_spec (zlen s) 0), (Z.ltb_spec (zlen (Rsa.n key)) (zlen s)); try lia.
      cbn [orb]. by rewrite map_err_ok, rsa_padding by lia.
    + intros [Hl H]. revert H. apply with_provider. intros p. unfold Rsa.verify.
      destruct (Z.eqb_spec (zlen s) 0), (Z.ltb_spec (zlen (Rsa.n key)) (zlen s)); try lia.
      cbn [orb]. by rewrite map_err_ok, rsa_padding by lia.
  - destruct (Ecdsa.fixed_signature s) as [rs|e] eqn:E.
    + rewrite with_provider; last first.
      { intros p. unfold Ecdsa.verify. rewrite E. cbn [map_err rbind]. apply map_err_ok. }
      apply fixed_signature_iff in E as (r & t & Hr & Ht' & Hs & ->). split; [intros Hp; exists r, t; auto|].
      intros (r' & t' & Hr' & Ht'' & Hs' & Hp).
      assert (Ecdsa.fixed_signature s = Ok (be_bytes 32 r ++ be_bytes 32 t)) as H1
        by (apply fixed_signature_iff; eauto 8).
      assert (Ecdsa.fixed_signature s = Ok (be_bytes 32 r' ++ be_bytes 32 t')) as H2
        by (apply fixed_signature_iff; eauto 8).
      rewrite H1 in H2. apply Ok_inj in H2. by rewrite H2.
    + split.
      * unfold Ecdsa.verify. rewrite E. destruct provider as [p|]; simpl; [|done].
        by destruct (supports p scheme).
      * intros (r & t & Hr & Ht' & Hs & _).
        assert (Ecdsa.fixed_signature s = Ok (be_bytes 32 r ++ be_bytes 32 t)) as H1
          by (apply fixed_signature_iff; eauto 8). congruence.
Qed.

(** The requests provider.rs promises to a provider. *)
Definition request_valid (scheme : SignatureScheme.t) (req : ProviderRequest) : Prop :=
  match req with
  | RsaPkcs1v15 hash n e s =>
      SignatureScheme.key_type scheme = KeyType.Rsa /\ hash = hash_of scheme /\
      rsa_key_ok (Rsa.mk e n) /\ zlen s = zlen n
  | EcdsaP256Sha256 p s =>
      scheme = SignatureScheme.EcdsaP256Sha256 /\ point_ok p /\
      exists r t, 0 < r < 2 ^ 256 /\ 0 < t < 2 ^ 256 /\ s = be_bytes 32 r ++ be_bytes 32 t
  end.

(** Two providers that agree on a scheme's valid requests. *)
Definition same_on_valid (scheme : SignatureScheme.t) (p q : SignatureProvider) : Prop :=
  supports p scheme = supports q scheme /\
  forall message req, request_valid scheme req -> provider_verify p message req = provider_verify q message req.

Lemma verify_same_on_valid k scheme message sig p q :
  host_key_ok k -> same_on_valid scheme p q ->
  HostKey.verify k scheme message sig (Some p) = HostKey.verify k scheme message sig (Some q).
Proof.
  intros Hk [Hs Hv]. unfold HostKey.verify. cbv zeta. rewrite Hs.
  destruct (negb (bytes_eqb _ _)); [done|]. case_bool_decide as Ht; [done|].
  destruct k as [key|key|key]; [done| |]; destruct (supports q scheme); cbn [ok_or rbind]; try done.
  - unfold Rsa.verify. set (s := SignatureBlob.signature sig).
    destruct (Z.eqb_spec (zlen s) 0); [done|].
    destruct (Z.ltb_spec (zlen (Rsa.n key)) (zlen s)); [done|]. cbn [orb].
    rewrite rsa_padding by done. rewrite Hv; [done|]. cbn [request_valid].
    split_and!; [done|done|by destruct key|]. rewrite zlen_be_bytes. done.
  - unfold Ecdsa.verify. destruct (Ecdsa.fixed_signature _) as [rs|e] eqn:E; [|done].
    cbn [map_err rbind]. rewrite Hv; [done|]. cbn [request_valid].
    apply fixed_signature_iff in E as (r & t & ? & ? & _ & ->).
    split_and!; [by destruct scheme|done|]. eauto 8.
Qed.
End host_keys.

(** ** Properties *)

(** The RSA key policy in terms of integers: [from_components] accepts
    exactly the minimal encodings of an odd exponent between 3 and 2^32 and an
    odd modulus of 2048 to 8192 bits, and keeps both as given. *)
Theorem rsa_policy_exact (e n : bytes) (k : Rsa.PublicKey) :
  Rsa.from_components e n = Ok k <->
  k = Rsa.mk e n /\ magnitude e /\ magnitude n /\
  Z.odd (be_val e) = true /\ 3 <= be_val e < 2 ^ 32 /\
  Z.odd (be_val n) = true /\ 2 ^ 2047 <= be_val n < 2 ^ 8192.
Proof.
  rewrite from_components_iff. unfold rsa_key_ok. split.
  - intros [-> H]. cbn [Rsa.e Rsa.n] in H. tauto.
  - intros (-> & H). cbn [Rsa.e Rsa.n]. tauto.
Qed.

(** [fixed_signature] turns an inner ECDSA signature into [r || s]
    exactly when it is the canonical encoding of two positive integers below
    2^256 with nothing after them; the result is their 32-byte big-endian
    form. *)
Theorem fixed_signature_exact (inner out : bytes) :
  Ecdsa.fixed_signature inner = Ok out <->
  exists r s, 0 < r < 2 ^ 256 /\ 0 < s < 2 ^ 256 /\
    inner = mpint_of 32 r ++ mpint_of 32 s /\ out = be_bytes 32 r ++ be_bytes 32 s.
Proof. apply fixed_signature_iff. Qed.

(** C30: a host key parses from exactly one blob, its own canonical one:
    [HostKey::parse] accepts [blob] as [k] if and only if the key type is
    enabled, [k] satisfies its type's policy and [blob] is [k.to_blob()]. *)
Theorem host_key_parse_exact `{D : Dalek, !DalekLaws D} (f : Features) (blob : bytes) (k : HostKey.t) :
  HostKey.parse f blob = Ok k <->
  KeyType.is_enabled f (HostKey.key_type k) = true /\ host_key_ok k /\ blob = HostKey.to_blob k.
Proof.
  rewrite parse_iff. split; intros (He & Hk & ->); split_and!; try done;
    [symmetry|]; by apply to_blob_image.
Qed.

(** A curve library that knows one key. *)
#[local] Instance one_key : Dalek := {|
  VerifyingKey := unit;
  vk_from_bytes b := if bool_decide (b = replicate 32 x09) then Some tt else None;
  vk_as_bytes _ := replicate 32 x09;
  vk_verify_strict _ m s := bytes_eqb s (m ++ m)
|}.

#[local] Instance one_key_laws : DalekLaws one_key.
Proof. split; [done|]. intros b [] H. simpl in *. by case_bool_decide. Qed.

Lemma host_key_parse_exact_witness :
  HostKey.parse (mkFeatures true true true)
    (HostKey.to_blob (HostKey.Ed25519 (Ed25519.mkKey (D:=one_key) tt))) =
    Ok (HostKey.Ed25519 (Ed25519.mkKey tt)) /\
  zlen (HostKey.to_blob (HostKey.Ed25519 (Ed25519.mkKey (D:=one_key) tt))) = ED25519_BLOB_LEN.
Proof.
  split; [|reflexivity].
  apply (host_key_parse_exact (D:=one_key) (mkFeatures true true true)). split_and!; reflexivity.
Defined.

(** C29: [HostKey::verify] accepts exactly when the signature blob carries the
    negotiated scheme's name, the scheme is one for this key's type, and the
    inner signature is accepted: for Ed25519 by [verify_strict] on 64 bytes,
    for RSA and ECDSA by a present provider that supports the scheme, on the
    key's own integers and the signature value at its fixed width. *)
Theorem host_key_verify_exact `{D : Dalek} (k : HostKey.t) (scheme : SignatureScheme.t)
    (message : bytes) (sig : SignatureBlob.t) (provider : option SignatureProvider) :
  HostKey.verify k scheme message sig provider = Ok tt <->
  SignatureBlob.algorithm sig = SignatureScheme.name scheme /\
  SignatureScheme.key_type scheme = HostKey.key_type k /\
  signature_accepted k scheme message (SignatureBlob.signature sig) provider.
Proof. apply verify_iff. Qed.

(** Providers only see validated requests: whatever the peer sent, the
    verdict on a parsed key depends on the provider only through what it says
    about the scheme and about requests that keep the documented guarantees
    (policy-conforming RSA key and full-width signature, uncompressed point
    and in-range scalars). *)
Theorem provider_sees_valid_requests `{D : Dalek, !DalekLaws D} (f : Features) (blob : bytes) (k : HostKey.t)
    (scheme : SignatureScheme.t) (message : bytes) (sig : SignatureBlob.t) (p q : SignatureProvider) :
  HostKey.parse f blob = Ok k -> same_on_valid scheme p q ->
  HostKey.verify k scheme message sig (Some p) = HostKey.verify k scheme message sig (Some q).
Proof. intros (_ & Hk & _)%parse_iff. by apply verify_same_on_valid. Qed.

Lemma provider_sees_valid_requests_witness :
  let k := HostKey.EcdsaP256 (Ecdsa.mk (x04 :: replicate 64 x07)) in
  let p := mkProvider (fun _ => true) (fun _ req =>
    match req with EcdsaP256Sha256 _ _ => Ok tt | _ => Err Rejected end) in
  let q := mkProvider (fun _ => true) (fun _ req => Ok tt) in
  let sig := SignatureBlob.mk algorithms.ECDSA_SHA2_NISTP256 (mpint_of 32 5 ++ mpint_of 32 200) in
  HostKey.verify (D:=one_key) k SignatureScheme.EcdsaP256Sha256 [] sig (Some p) = Ok tt /\
  HostKey.verify (D:=one_key) k SignatureScheme.EcdsaP256Sha256 [] sig (Some p) =
  HostKey.verify (D:=one_key) k SignatureScheme.EcdsaP256Sha256 [] sig (Some q).
Proof.
  split; [reflexivity|].
  apply (provider_sees_valid_requests (D:=one_key) (mkFeatures true true true)
    (Ecdsa.to_blob (Ecdsa.mk (x04 :: replicate 64 x07)))); [reflexivity|].
  split; [reflexivity|]. intros m [h n e s|pt s]; [|reflexivity]. intros [H _]. discriminate H.
Defined.
