(* ===== verification/Spki.v ===== *)
(** * SubjectPublicKeyInfo

    Models crates/tatami_ssh_keys/src/spki.rs: the strict DER reader and
    the conversion between an SPKI and a host key. A reader call that fails leaves its cursor where it
    was and is never used again, so [read] returns the content with the rest.
    Debug assertions are not modelled. *)

From S2P Require Import Prelude WireError NameList Primitives Messages KexInit KeyAlgorithm HostKey HostKeyProps.

Module Spki.

(* keys/spki.rs:45-47 ED25519_SPKI_PREFIX *)
Definition ED25519_SPKI_PREFIX : bytes := [x30; x2a; x30; x05; x06; x03; x2b; x65; x70; x03; x21; x00].

(* keys/spki.rs:50-50 ED25519_SPKI_LEN *)
Definition ED25519_SPKI_LEN : Z := zlen ED25519_SPKI_PREFIX + 32.

(* keys/spki.rs:55-58 P256_SPKI_PREFIX *)
Definition P256_SPKI_PREFIX : bytes :=
  [x30; x59; x30; x13; x06; x07; x2a; x86; x48; xce; x3d; x02; x01; x06; x08; x2a;
   x86; x48; xce; x3d; x03; x01; x07; x03; x42; x00].

(* keys/spki.rs:61-61 OID_ED25519 *)
Definition OID_ED25519 : bytes := [x2b; x65; x70].

(* keys/spki.rs:63-63 OID_RSA_ENCRYPTION *)
Definition OID_RSA_ENCRYPTION : bytes := [x2a; x86; x48; x86; xf7; x0d; x01; x01; x01].

(* keys/spki.rs:65-65 OID_EC_PUBLIC_KEY *)
Definition OID_EC_PUBLIC_KEY : bytes := [x2a; x86; x48; xce; x3d; x02; x01].

(* keys/spki.rs:68-68 OID_PRIME256V1 *)
Definition OID_PRIME256V1 : bytes := [x2a; x86; x48; xce; x3d; x03; x01; x07].

(* keys/spki.rs:72-84 KNOWN_OIDS *)
Definition KNOWN_OIDS : list (bytes * string) :=
  [(OID_ED25519, "Ed25519"%string);
   ([x2b; x65; x71], "Ed448"%string);
   ([x2b; x65; x6e], "X25519"%string);
   ([x2b; x65; x6f], "X448"%string);
   (OID_RSA_ENCRYPTION, "rsaEncryption"%string);
   ([x2a; x86; x48; x86; xf7; x0d; x01; x01; x0a], "id-RSASSA-PSS"%string);
   (OID_EC_PUBLIC_KEY, "id-ecPublicKey"%string);
   ([x2a; x86; x48; xce; x38; x04; x01], "id-dsa"%string)].

(* keys/spki.rs:88-92 KNOWN_CURVES *)
Definition KNOWN_CURVES : list (bytes * string) :=
  [([x2b; x81; x04; x00; x22], "secp384r1"%string);
   ([x2b; x81; x04; x00; x23], "secp521r1"%string);
   ([x2b; x81; x04; x00; x0a], "secp256k1"%string)].

(* keys/spki.rs:94-94 TAG_INTEGER *)
Definition TAG_INTEGER : byte := x02.

(* keys/spki.rs:95-95 TAG_BIT_STRING *)
Definition TAG_BIT_STRING : byte := x03.

(* keys/spki.rs:97-97 TAG_NULL *)
Definition TAG_NULL : byte := x05.

(* keys/spki.rs:98-98 TAG_OID *)
Definition TAG_OID : byte := x06.

(* keys/spki.rs:99-99 TAG_SEQUENCE *)
Definition TAG_SEQUENCE : byte := x30.

(* keys/spki.rs:103-166 SpkiError *)
Inductive SpkiError : Type :=
| Truncated (field : string)
| UnexpectedTag (field : string) (expected found : byte)
| NonCanonicalLength (field : string)
| SpkiTrailingBytes (field : string) (count : Z)
| SpkiUnsupportedAlgorithm (known : option string)
| ParametersPresent
| ParametersInvalid
| UnsupportedCurve (known : option string)
| NonZeroUnusedBits (n : Z)
| WrongKeyLength (n : Z)
| SpkiInvalidKey
| SpkiNonCanonicalInteger (field : string)
| SpkiRsaModulus (bits : Z)
| SpkiRsaExponent
| SpkiPointEncoding.

(** The content length that follows a tag, with what follows it. *)
(* keys/spki.rs:247-277 Der::read *)
Definition read_len (field : string) (after_tag : bytes) : result (Z * bytes) SpkiError :=
  match after_tag with
  | [] => Err (Truncated field)
  | first :: after_len =>
      if u8 first <=? 0x7f then Ok (u8 first, after_len)
      else if u8 first =? 0x81 then
        match after_len with
        | [] => Err (Truncated field)
        | b :: rest => if u8 b <? 0x80 then Err (NonCanonicalLength field) else Ok (u8 b, rest)
        end
      else if u8 first =? 0x82 then
        match after_len with
        | b0 :: b1 :: rest =>
            let n := u8 b0 * 256 + u8 b1 in
            if n <? 0x100 then Err (NonCanonicalLength field) else Ok (n, rest)
        | _ => Err (Truncated field)
        end
      else Err (NonCanonicalLength field)
  end.

(* keys/spki.rs:235-284 Der::read *)
Definition read (tag : byte) (field : string) (self : bytes) : result (bytes * bytes) SpkiError :=
  match self with
  | [] => Err (Truncated field)
  | found :: after_tag =>
      if negb (byte_eqb found tag) then Err (UnexpectedTag field tag found) else
      let? (len, after_len) := read_len field after_tag in
      if zlen after_len <? len then Err (Truncated field)
      else Ok (ztake len after_len, zdrop len after_len)
  end.

Definition high_bit (b : byte) : bool := negb (Z.land (u8 b) 0x80 =? 0).

(* keys/spki.rs:289-299 Der::positive_integer *)
Definition read_positive_integer (field : string) (self : bytes) : result (bytes * bytes) SpkiError :=
  let? (v, rest) := read TAG_INTEGER field self in
  let bad := Err (SpkiNonCanonicalInteger field) in
  match v with
  | [] => bad
  | b :: l =>
      if high_bit b then bad
      else if byte_eqb b x00 then
        match l with
        | next :: _ => if high_bit next then Ok (l, rest) else bad
        | [] => bad
        end
      else Ok (v, rest)
  end.

(* keys/spki.rs:301-310 Der::finish *)
Definition finish (field : string) (self : bytes) : result unit SpkiError :=
  if zlen self =? 0 then Ok tt else Err (SpkiTrailingBytes field (zlen self)).

(* keys/spki.rs:314-326 tlv *)
Definition tlv (tag : byte) (content out : bytes) : bytes :=
  let len := zlen content in
  out ++ [tag] ++
  (if len <? 0x80 then [byte_of_Z len]
   else if len <? 0x100 then [x81; byte_of_Z len]
   else [x82; byte_of_Z (Z.shiftr len 8); byte_of_Z len]) ++ content.

(* keys/spki.rs:330-337 positive_integer *)
Definition positive_integer (magnitude out : bytes) : bytes :=
  let content := (match head magnitude with Some b => if high_bit b then [x00] else [] | None => [] end) ++ magnitude in
  tlv TAG_INTEGER content out.

(* keys/spki.rs:339-341 known *)
Definition known (table : list (bytes * string)) (oid : bytes) : option string :=
  option_map snd (List.find (fun '(o, _) => bytes_eqb o oid) table).

Section spki.
Context `{D : Dalek}.
Variable f : Features.

(* keys/spki.rs:382-406 host_key_from_spki *)
Definition rsa_from_spki (params : bytes) (unused : byte) (key : bytes) : result HostKey.t SpkiError :=
  let? (null, p) := map_err (fun _ => ParametersInvalid) (read TAG_NULL "RSA parameters" params) in
  if negb (zlen null =? 0) || negb (zlen p =? 0) then Err ParametersInvalid else
  if negb (u8 unused =? 0) then Err (NonZeroUnusedBits (u8 unused)) else
  let? (seq, k) := read TAG_SEQUENCE "RSAPublicKey" key in
  let? _ := finish "RSAPublicKey" k in
  let? (n, ints) := read_positive_integer "modulus" seq in
  let? (e, ints) := read_positive_integer "publicExponent" ints in
  let? _ := finish "RSAPublicKey body" ints in
  map_err (fun e => match e with RsaModulus bits => SpkiRsaModulus bits | _ => SpkiRsaExponent end)
    (map_ok HostKey.Rsa (Rsa.from_components e n)).

(* keys/spki.rs:408-427 host_key_from_spki *)
Definition ec_from_spki (params : bytes) (unused : byte) (key : bytes) : result HostKey.t SpkiError :=
  let? (curve, p) := map_err (fun _ => ParametersInvalid) (read TAG_OID "EC parameters" params) in
  if negb (zlen p =? 0) then Err ParametersInvalid else
  if negb (bytes_eqb curve OID_PRIME256V1) then Err (UnsupportedCurve (known KNOWN_CURVES curve)) else
  if negb (u8 unused =? 0) then Err (NonZeroUnusedBits (u8 unused)) else
  map_err (fun _ => SpkiPointEncoding) (map_ok HostKey.EcdsaP256 (Ecdsa.from_point key)).

(* keys/spki.rs:367-380 host_key_from_spki *)
Definition ed25519_from_spki (params : bytes) (unused : byte) (key : bytes) : result HostKey.t SpkiError :=
  if negb (zlen params =? 0) then Err ParametersPresent else
  if negb (u8 unused =? 0) then Err (NonZeroUnusedBits (u8 unused)) else
  if negb (zlen key =? ED25519_PUBLIC_KEY_LEN) then Err (WrongKeyLength (zlen key)) else
  map_err (fun _ => SpkiInvalidKey) (map_ok HostKey.Ed25519 (Ed25519.from_bytes key)).

(* keys/spki.rs:344-430 host_key_from_spki *)
Definition host_key_from_spki (spki : bytes) : result HostKey.t SpkiError :=
  let? (body, outer) := read TAG_SEQUENCE "SubjectPublicKeyInfo" spki in
  let? _ := finish "SubjectPublicKeyInfo" outer in
  let? (alg, fields) := read TAG_SEQUENCE "AlgorithmIdentifier" body in
  let? (oid, params) := read TAG_OID "algorithm OID" alg in
  let? (bits, fields) := read TAG_BIT_STRING "subjectPublicKey" fields in
  let? _ := finish "SubjectPublicKeyInfo body" fields in
  match bits with
  | [] => Err (Truncated "subjectPublicKey")
  | unused :: key =>
      if bytes_eqb oid OID_ED25519 && feat_ed25519 f then ed25519_from_spki params unused key
      else if bytes_eqb oid OID_RSA_ENCRYPTION && feat_rsa f then rsa_from_spki params unused key
      else if bytes_eqb oid OID_EC_PUBLIC_KEY && feat_ecdsa_p256 f then ec_from_spki params unused key
      else Err (SpkiUnsupportedAlgorithm (known KNOWN_OIDS oid))
  end.

(* keys/spki.rs:505-510 ed25519_spki *)
Definition ed25519_spki (key : Ed25519.PublicKey) : bytes :=
  let out := replicate (Z.to_nat ED25519_SPKI_LEN) x00 in
  let out := write_at 0 ED25519_SPKI_PREFIX out in
  write_at (zlen ED25519_SPKI_PREFIX) (Ed25519.as_bytes key) out.

(* keys/spki.rs:434-465 host_key_spki *)
Definition host_key_spki (key : HostKey.t) : bytes :=
  match key with
  | HostKey.Ed25519 k => ed25519_spki k
  | HostKey.Rsa k =>
      let alg := tlv TAG_OID OID_RSA_ENCRYPTION [] in
      let alg := tlv TAG_NULL [] alg in
      let ints := positive_integer (Rsa.n k) [] in
      let ints := positive_integer (Rsa.e k) ints in
      let rsa_key := tlv TAG_SEQUENCE ints [] in
      let bit_string := [x00] ++ rsa_key in
      let body := tlv TAG_SEQUENCE alg [] in
      let body := tlv TAG_BIT_STRING bit_string body in
      tlv TAG_SEQUENCE body []
  | HostKey.EcdsaP256 k => P256_SPKI_PREFIX ++ Ecdsa.point k
  end.

(* keys/spki.rs:468-470 spki_to_ssh_blob *)
Definition spki_to_ssh_blob (spki : bytes) : result bytes SpkiError :=
  map_ok HostKey.to_blob (host_key_from_spki spki).

(* keys/spki.rs:475-477 ssh_blob_to_spki *)
Definition ssh_blob_to_spki (blob : bytes) : result bytes KeyError :=
  map_ok host_key_spki (HostKey.parse f blob).

Definition ok {A E} (r : result A E) : option A := match r with Ok a => Some a | Err _ => None end.

(* keys/spki.rs:494-500 spki_algorithm_oid *)
Definition spki_algorithm_oid (spki : bytes) : option bytes :=
  let* (body, _) := ok (read TAG_SEQUENCE "" spki) in
  let* (alg, _) := ok (read TAG_SEQUENCE "" body) in
  let* (oid, _) := ok (read TAG_OID "" alg) in
  Some oid.

(* keys/spki.rs:482-490 ed25519_public_key_from_spki *)
Definition ed25519_public_key_from_spki (spki : bytes) : result Ed25519.PublicKey SpkiError :=
  let? k := host_key_from_spki spki in
  match k with
  | HostKey.Ed25519 k => Ok k
  | _ => Err (SpkiUnsupportedAlgorithm (known KNOWN_OIDS (default [] (spki_algorithm_oid spki))))
  end.

End spki.
End Spki.
