(* ===== verification/SpkiProps.v ===== *)
(** * SPKI: one encoding per key

    The DER reader accepts exactly what the writer produces, so an SPKI is
    accepted as a key if and only if it is that key's canonical SPKI, and the
    conversions to and from the SSH blob are inverse. *)

From S2P Require Import Prelude WireError NameList Primitives Messages KexInit KeyAlgorithm HostKey HostKeyProps Spki.

Import Spki.

(** The header of a value of length [n]. *)
Definition len_bytes (n : Z) : bytes :=
  if n <? 0x80 then [byte_of_Z n]
  else if n <? 0x100 then [x81; byte_of_Z n]
  else [x82; byte_of_Z (Z.shiftr n 8); byte_of_Z n].

Lemma tlv_eq tag c out : tlv tag c out = out ++ tag :: len_bytes (zlen c) ++ c.
Proof. done. Qed.

Lemma tlv_app tag c out : tlv tag c out = out ++ tlv tag c [].
Proof. done. Qed.

Lemma u8_small n : 0 <= n < 256 -> u8 (byte_of_Z n) = n.
Proof. intros Hn. rewrite u8_byte_of_Z. by apply Z.mod_small. Qed.

Lemma read_len_iff field s n r :
  read_len field s = Ok (n, r) <-> 0 <= n <= 0xffff /\ s = len_bytes n ++ r.
Proof.
  unfold read_len, len_bytes. split.
  - destruct s as [|b0 s]; [done|]. pose proof (u8_range b0).
    destruct (Z.leb_spec (u8 b0) 0x7f).
    { intros [= <- <-]. split; [lia|]. destruct (Z.ltb_spec (u8 b0) 0x80); [|lia]. by rewrite byte_of_Z_u8. }
    destruct (Z.eqb_spec (u8 b0) 0x81) as [E|].
    { change 0x81 with (u8 x81) in E. apply u8_inj in E as ->. destruct s as [|b s]; [done|]. pose proof (u8_range b).
      destruct (Z.ltb_spec (u8 b) 0x80); [done|]. intros [= <- <-]. split; [lia|].
      destruct (Z.ltb_spec (u8 b) 0x80); [lia|]. destruct (Z.ltb_spec (u8 b) 0x100); [|lia]. by rewrite byte_of_Z_u8. }
    destruct (Z.eqb_spec (u8 b0) 0x82) as [E|]; [|done].
    change 0x82 with (u8 x82) in E. apply u8_inj in E as ->. destruct s as [|b1 [|b2 s]]; [done|done|].
    pose proof (u8_range b1). pose proof (u8_range b2).
    destruct (Z.ltb_spec (u8 b1 * 256 + u8 b2) 0x100); [done|]. intros [= <- <-]. split; [lia|].
    destruct (Z.ltb_spec (u8 b1 * 256 + u8 b2) 0x80); [lia|]. destruct (Z.ltb_spec (u8 b1 * 256 + u8 b2) 0x100); [lia|].
    rewrite Z.shiftr_div_pow2 by lia. change (2 ^ 8) with 256. rewrite Z.div_add_l, Z.div_small, Z.add_0_r by lia.
    rewrite byte_of_Z_u8. cbn [app]. do 2 f_equal. rewrite <- (byte_of_Z_u8 b2) at 1. unfold byte_of_Z.
    by rewrite Z.add_comm, Z.mod_add by lia.
  - intros [Hn ->]. destruct (Z.ltb_spec n 0x80).
    { cbn [app]. rewrite u8_small by lia. destruct (Z.leb_spec n 0x7f); [done|lia]. }
    destruct (Z.ltb_spec n 0x100).
    { cbn [app]. change (u8 x81) with 0x81. cbn [Z.leb Z.eqb Z.compare Pos.compare Pos.compare_cont Pos.eqb].
      rewrite u8_small by lia. destruct (Z.ltb_spec n 0x80); [lia|done]. }
    cbn [app]. change (u8 x82) with 0x82. cbn [Z.leb Z.eqb Z.compare Pos.compare Pos.compare_cont Pos.eqb].
    rewrite Z.shiftr_div_pow2 by lia. change (2 ^ 8) with 256.
    assert (0 <= n / 256 < 256) by (split; [apply Z.div_pos; lia|apply Z.div_lt_upper_bound; lia]).
    rewrite u8_small by lia. rewrite u8_byte_of_Z. pose proof (Z.div_mod n 256 ltac:(lia)).
    replace (n / 256 * 256 + n mod 256) with n by lia. destruct (Z.ltb_spec n 0x100); [lia|done].
Qed.

(** The reader accepts exactly what the writer produces. *)
Lemma read_iff tag field s c r :
  read tag field s = Ok (c, r) <-> zlen c <= 0xffff /\ s = tlv tag c [] ++ r.
Proof.
  rewrite tlv_eq. cbn [app]. unfold read. split.
  - destruct s as [|b s]; [done|]. destruct (byte_eqb b tag) eqn:E; [|done]. cbn [negb].
    rewrite byte_eqb_spec in E. apply bool_decide_eq_true in E as ->.
    intros ([n s'] & (Hn & ->)%read_len_iff & H1)%rbind_Ok. destruct (Z.ltb_spec (zlen s') n); [done|].
    apply Ok_inj in H1 as [= <- <-]. rewrite zlen_ztake by lia. split; [lia|]. by rewrite <- app_assoc, ztake_zdrop.
  - intros [Hc ->]. rewrite byte_eqb_spec, bool_decide_true by done. cbn [negb].
    assert (read_len field ((len_bytes (zlen c) ++ c) ++ r) = Ok (zlen c, c ++ r)) as ->.
    { apply read_len_iff. pose proof (zlen_nonneg c). split; [lia|]. by rewrite app_assoc. }
    cbn [rbind]. rewrite zlen_app. pose proof (zlen_nonneg r). destruct (Z.ltb_spec (zlen c + zlen r) (zlen c)); [lia|].
    by rewrite ztake_app_exact, zdrop_app_exact.
Qed.

Definition short (c : bytes) : Prop := zlen c <= 0xffff.

Lemma read_tlv tag field c r : short c -> read tag field (tlv tag c [] ++ r) = Ok (c, r).
Proof. intros Hc. by apply read_iff. Qed.

Lemma read_tlv_end tag field c : short c -> read tag field (tlv tag c []) = Ok (c, []).
Proof. intros Hc. apply read_iff. by rewrite app_nil_r. Qed.

Lemma finish_iff field s : finish field s = Ok tt <-> s = [].
Proof. unfold finish. destruct (Z.eqb_spec (zlen s) 0) as [E|E]; [apply zlen_0 in E; done|]. split; [done|]. by intros ->. Qed.

Definition int_content (m : bytes) : bytes :=
  match head m with Some b => if high_bit b then [x00] else [] | None => [] end ++ m.

Lemma read_integer_iff field s m r :
  read_positive_integer field s = Ok (m, r) <->
  magnitude m /\ zlen (int_content m) <= 0xffff /\ s = positive_integer m [] ++ r.
Proof.
  unfold read_positive_integer, positive_integer. fold (int_content m). split.
  - intros ([v r'] & (Hv & ->)%read_iff & H1)%rbind_Ok. destruct v as [|b v]; [done|].
    destruct (high_bit b) eqn:Eb; [done|]. destruct (byte_eqb b x00) eqn:E0.
    + rewrite byte_eqb_spec in E0. apply bool_decide_eq_true in E0 as ->. destruct v as [|c v]; [done|].
      destruct (high_bit c) eqn:Ec; [|done]. apply Ok_inj in H1 as [= <- <-].
      unfold int_content. cbn [head]. rewrite Ec. split_and!; [|done|done].
      cbn. intros E. unfold high_bit in Ec. by rewrite E in Ec.
    + apply Ok_inj in H1 as [= <- <-]. unfold int_content. cbn [head]. rewrite Eb. split_and!; [|done|done].
      cbn. intros E. change 0 with (u8 x00) in E. apply u8_inj in E as ->. done.
  - intros (Hm & Hl & ->). rewrite (proj2 (read_iff TAG_INTEGER field _ (int_content m) r)) by done. cbn [rbind].
    unfold int_content. destruct m as [|b m]; [done|]. cbn [head]. cbn in Hm. destruct (high_bit b) eqn:Eb; cbn [app].
    + by rewrite Eb.
    + rewrite Eb, byte_eqb_spec, bool_decide_false; [done|]. by intros ->.
Qed.

(** The shape every SPKI has. *)
Definition spki_image (oid params : bytes) (unused : byte) (key : bytes) : bytes :=
  tlv TAG_SEQUENCE (tlv TAG_SEQUENCE (tlv TAG_OID oid [] ++ params) [] ++ tlv TAG_BIT_STRING (unused :: key) []) [].

Definition spki_short (oid params : bytes) (unused : byte) (key : bytes) : Prop :=
  short oid /\ short (tlv TAG_OID oid [] ++ params) /\ short (unused :: key) /\
  short (tlv TAG_SEQUENCE (tlv TAG_OID oid [] ++ params) [] ++ tlv TAG_BIT_STRING (unused :: key) []).

Section exact.
Context `{D : Dalek, !DalekLaws D}.
Variable f : Features.

Definition dispatch (oid params : bytes) (unused : byte) (key : bytes) : result HostKey.t SpkiError :=
  if bytes_eqb oid OID_ED25519 && feat_ed25519 f then ed25519_from_spki params unused key
  else if bytes_eqb oid OID_RSA_ENCRYPTION && feat_rsa f then rsa_from_spki params unused key
  else if bytes_eqb oid OID_EC_PUBLIC_KEY && feat_ecdsa_p256 f then ec_from_spki params unused key
  else Err (SpkiUnsupportedAlgorithm (known KNOWN_OIDS oid)).

Lemma from_spki_iff spki k :
  host_key_from_spki f spki = Ok k <->
  exists oid params unused key, spki = spki_image oid params unused key /\ spki_short oid params unused key /\
    dispatch oid params unused key = Ok k.
Proof.
  unfold host_key_from_spki. split.
  - intros ([body outer] & (Hb & ->)%read_iff & H1)%rbind_Ok. apply rbind_Ok in H1 as ([] & ->%finish_iff & H1).
    apply rbind_Ok in H1 as ([alg fields] & (Ha & ->)%read_iff & H1).
    apply rbind_Ok in H1 as ([oid params] & (Ho & ->)%read_iff & H1).
    apply rbind_Ok in H1 as ([bits fields'] & (Hbi & ->)%read_iff & H1).
    apply rbind_Ok in H1 as ([] & ->%finish_iff & H1). destruct bits as [|unused key]; [done|].
    exists oid, params, unused, key. rewrite !app_nil_r in *. split; [done|]. split; [by split_and!|done].
  - intros (oid & params & unused & key & -> & (H1 & H2 & H3 & H4) & Hd). unfold spki_image.
    rewrite read_tlv_end by done. cbn [rbind].
    rewrite (proj2 (finish_iff _ [])) by done. cbn [rbind].
    rewrite read_tlv by done. cbn [rbind]. rewrite read_tlv by done. cbn [rbind].
    rewrite read_tlv_end by done. cbn [rbind].
    rewrite (proj2 (finish_iff _ [])) by done. exact Hd.
Qed.

(** The parts of a key's canonical SPKI. *)
Definition key_params (k : HostKey.t) : bytes :=
  match k with
  | HostKey.Ed25519 _ => []
  | HostKey.Rsa _ => tlv TAG_NULL [] []
  | HostKey.EcdsaP256 _ => tlv TAG_OID OID_PRIME256V1 []
  end.

Definition key_oid (k : HostKey.t) : bytes :=
  match k with
  | HostKey.Ed25519 _ => OID_ED25519
  | HostKey.Rsa _ => OID_RSA_ENCRYPTION
  | HostKey.EcdsaP256 _ => OID_EC_PUBLIC_KEY
  end.

Definition key_bits (k : HostKey.t) : bytes :=
  match k with
  | HostKey.Ed25519 k => Ed25519.as_bytes k
  | HostKey.Rsa k => tlv TAG_SEQUENCE (positive_integer (Rsa.n k) [] ++ positive_integer (Rsa.e k) []) []
  | HostKey.EcdsaP256 k => Ecdsa.point k
  end.

Lemma zero_unused (b : byte) : u8 b = 0 <-> b = x00.
Proof. split; [|by intros ->]. intros E. change 0 with (u8 x00) in E. by apply u8_inj in E. Qed.

Lemma int_content_len m : zlen (int_content m) <= zlen m + 1.
Proof. unfold int_content. rewrite zlen_app. destruct (head m) as [b|]; [destruct (high_bit b)|]; rewrite ?zlen_cons, zlen_nil; lia. Qed.

Lemma zlen_tlv tag c : zlen (tlv tag c []) <= zlen c + 4.
Proof.
  rewrite tlv_eq. cbn [app]. rewrite zlen_cons, zlen_app. unfold len_bytes.
  destruct (zlen c <? 0x80); [|destruct (zlen c <? 0x100)]; rewrite ?zlen_cons, zlen_nil; lia.
Qed.

Lemma rsa_ints_short k :
  rsa_key_ok k -> short (int_content (Rsa.e k)) /\ short (int_content (Rsa.n k)) /\
  zlen (positive_integer (Rsa.n k) [] ++ positive_integer (Rsa.e k) []) <= 2000.
Proof.
  intros Hk. destruct (rsa_key_lengths k Hk) as [Hle Hln]. unfold short.
  pose proof (int_content_len (Rsa.e k)). pose proof (int_content_len (Rsa.n k)).
  pose proof (zlen_tlv TAG_INTEGER (int_content (Rsa.e k))). pose proof (zlen_tlv TAG_INTEGER (int_content (Rsa.n k))).
  split_and!; [lia|lia|]. rewrite zlen_app. unfold positive_integer. fold (int_content (Rsa.n k)) (int_content (Rsa.e k)). lia.
Qed.

Lemma ed25519_dispatch params unused key k :
  ed25519_from_spki params unused key = Ok k <->
  exists key', k = HostKey.Ed25519 key' /\ host_key_ok k /\ params = [] /\ unused = x00 /\ key = Ed25519.as_bytes key'.
Proof.
  unfold ed25519_from_spki. destruct (Z.eqb_spec (zlen params) 0) as [Ep|Ep]; cbn [negb].
  2: { split; [done|]. by intros (k' & _ & _ & -> & _). }
  apply zlen_0 in Ep as ->. destruct (Z.eqb_spec (u8 unused) 0) as [Eu|Eu]; cbn [negb].
  2: { split; [done|]. intros (k' & _ & _ & _ & -> & _). done. }
  apply zero_unused in Eu as ->. destruct (Z.eqb_spec (zlen key) ED25519_PUBLIC_KEY_LEN) as [El|El]; cbn [negb].
  2: { split; [done|]. intros (k' & _ & _ & _ & _ & ->). destruct El. exact (vk_as_bytes_len (Ed25519.key k')). }
  unfold Ed25519.from_bytes. destruct (vk_from_bytes key) as [vk|] eqn:Ev; cbn.
  - pose proof (vk_from_as_bytes _ _ Ev) as Ea. split.
    + intros [= <-]. exists (Ed25519.mkKey vk). unfold host_key_ok, Ed25519.as_bytes. cbn [Ed25519.key]. by rewrite Ea.
    + intros (k' & -> & Hk & _ & _ & ->). unfold host_key_ok in Hk. rewrite Hk in Ev. injection Ev as <-. by destruct k'.
  - split; [done|]. intros (k' & -> & Hk & _ & _ & ->). unfold host_key_ok in Hk. congruence.
Qed.

Lemma ec_dispatch params unused key k :
  ec_from_spki params unused key = Ok k <->
  exists key', k = HostKey.EcdsaP256 key' /\ host_key_ok k /\ params = tlv TAG_OID OID_PRIME256V1 [] /\ unused = x00 /\
    key = Ecdsa.point key'.
Proof.
  unfold ec_from_spki. split.
  - intros ([curve p] & Hr & H1)%rbind_Ok. destruct (read TAG_OID "EC parameters" params) as [[c p']|e] eqn:Er; [|done].
    apply Ok_inj in Hr as [= -> ->]. apply read_iff in Er as [_ ->].
    destruct (Z.eqb_spec (zlen p) 0) as [Ez|]; [|done]. apply zlen_0 in Ez as ->. cbn [negb] in H1.
    destruct (bytes_eqb curve OID_PRIME256V1) eqn:Ec; [|done]. apply bytes_eqb_eq in Ec as ->. cbn [negb] in H1.
    destruct (Z.eqb_spec (u8 unused) 0) as [Eu|]; [|done]. apply zero_unused in Eu as ->. cbn [negb] in H1.
    destruct (Ecdsa.from_point key) as [k'|e] eqn:Ek; [|done]. apply from_point_iff in Ek as [-> Hp].
    injection H1 as <-. exists (Ecdsa.mk key). by rewrite app_nil_r.
  - intros (k' & -> & Hk & -> & -> & ->). rewrite read_tlv_end by done. cbn [map_err rbind zlen length Z.of_nat Z.eqb negb].
    rewrite bytes_eqb_refl. cbn [negb]. change (u8 x00 =? 0) with true. cbn [negb].
    rewrite (proj2 (from_point_iff (Ecdsa.point k') (Ecdsa.mk (Ecdsa.point k')))) by done. by destruct k'.
Qed.

Lemma rsa_dispatch params unused key k :
  rsa_from_spki params unused key = Ok k <->
  exists key', k = HostKey.Rsa key' /\ host_key_ok k /\ params = tlv TAG_NULL [] [] /\ unused = x00 /\
    key = key_bits (HostKey.Rsa key').
Proof.
  unfold rsa_from_spki. split.
  - intros ([null p] & Hr & H1)%rbind_Ok. destruct (read TAG_NULL "RSA parameters" params) as [[c p']|e] eqn:Er; [|done].
    apply Ok_inj in Hr as [= -> ->]. apply read_iff in Er as [_ ->].
    destruct (Z.eqb_spec (zlen null) 0) as [Ez|]; [|done]. apply zlen_0 in Ez as ->.
    destruct (Z.eqb_spec (zlen p) 0) as [Ez|]; [|done]. apply zlen_0 in Ez as ->. cbn [negb orb] in H1.
    destruct (Z.eqb_spec (u8 unused) 0) as [Eu|]; [|done]. apply zero_unused in Eu as ->. cbn [negb] in H1.
    apply rbind_Ok in H1 as ([seq r] & (Hs & ->)%read_iff & H1). apply rbind_Ok in H1 as ([] & ->%finish_iff & H1).
    apply rbind_Ok in H1 as ([n r] & (Hn & _ & ->)%read_integer_iff & H1).
    apply rbind_Ok in H1 as ([e r'] & (He & _ & ->)%read_integer_iff & H1).
    apply rbind_Ok in H1 as ([] & ->%finish_iff & H1).
    destruct (Rsa.from_components e n) as [k'|er] eqn:Ek; [|done]. apply from_components_iff in Ek as [-> Hk].
    injection H1 as <-. exists (Rsa.mk e n). cbn [key_bits Rsa.n Rsa.e]. by rewrite !app_nil_r.
  - intros (k' & -> & Hk & -> & -> & ->). cbn [host_key_ok] in Hk. destruct (rsa_key_lengths k' Hk) as [Hle Hln].
    destruct (rsa_ints_short k' Hk) as (Hse & Hsn & Hsi).
    rewrite read_tlv_end by done. cbn [map_err rbind zlen length Z.of_nat Z.eqb negb orb].
    change (u8 x00 =? 0) with true. cbn [negb key_bits]. rewrite read_tlv_end by (unfold short; lia). cbn [rbind].
    rewrite (proj2 (finish_iff _ [])) by done. cbn [rbind].
    rewrite (proj2 (read_integer_iff _ _ (Rsa.n k') (positive_integer (Rsa.e k') []))) by (split_and!; [apply Hk|done|done]). cbn [rbind].
    rewrite (proj2 (read_integer_iff _ _ (Rsa.e k') [])) by (split_and!; [apply Hk|done|by rewrite app_nil_r]). cbn [rbind].
    rewrite (proj2 (finish_iff _ [])) by done. cbn [rbind].
    rewrite (proj2 (from_components_iff (Rsa.e k') (Rsa.n k') k')) by (split; [by destruct k'|done]). done.
Qed.

Lemma dispatch_iff oid params unused key k :
  dispatch oid params unused key = Ok k <->
  KeyType.is_enabled f (HostKey.key_type k) = true /\ host_key_ok k /\
  oid = key_oid k /\ params = key_params k /\ unused = x00 /\ key = key_bits k.
Proof.
  unfold dispatch. split.
  - destruct (bytes_eqb oid OID_ED25519 && feat_ed25519 f) eqn:E1.
    { apply andb_prop in E1 as [->%bytes_eqb_eq Hf].
      intros (k' & -> & Hk & -> & -> & ->)%ed25519_dispatch. done. }
    destruct (bytes_eqb oid OID_RSA_ENCRYPTION && feat_rsa f) eqn:E2.
    { apply andb_prop in E2 as [->%bytes_eqb_eq Hf].
      intros (k' & -> & Hk & -> & -> & ->)%rsa_dispatch. done. }
    destruct (bytes_eqb oid OID_EC_PUBLIC_KEY && feat_ecdsa_p256 f) eqn:E3; [|done].
    apply andb_prop in E3 as [->%bytes_eqb_eq Hf]. intros (k' & -> & Hk & -> & -> & ->)%ec_dispatch. done.
  - intros (He & Hk & -> & -> & -> & ->). destruct k as [k|k|k]; cbn [HostKey.key_type KeyType.is_enabled] in He; rewrite He.
    + rewrite bytes_eqb_refl. cbn [andb]. apply ed25519_dispatch. by exists k.
    + change (bytes_eqb (key_oid (HostKey.Rsa k)) OID_ED25519) with false. cbn [andb].
      rewrite bytes_eqb_refl. cbn [andb]. apply rsa_dispatch. by exists k.
    + change (bytes_eqb (key_oid (HostKey.EcdsaP256 k)) OID_ED25519) with false.
      change (bytes_eqb (key_oid (HostKey.EcdsaP256 k)) OID_RSA_ENCRYPTION) with false. cbn [andb].
      rewrite bytes_eqb_refl. cbn [andb]. apply ec_dispatch. by exists k.
Qed.

Lemma tlv_short tag c n : zlen c = n -> n < 0x80 -> tlv tag c [] = tag :: byte_of_Z n :: c.
Proof. intros <- Hn. rewrite tlv_eq. cbn [app]. unfold len_bytes. destruct (Z.ltb_spec (zlen c) 0x80); [done|lia]. Qed.

Lemma fixed_image oid params key n :
  zlen (tlv TAG_OID oid [] ++ params) = n -> n < 0x80 -> n + 5 + zlen key < 0x80 ->
  spki_image oid params x00 key =
    TAG_SEQUENCE :: byte_of_Z (n + 5 + zlen key) :: TAG_SEQUENCE :: byte_of_Z n ::
    (tlv TAG_OID oid [] ++ params) ++ TAG_BIT_STRING :: byte_of_Z (1 + zlen key) :: x00 :: key.
Proof.
  intros Hn Hn1 Hn2. pose proof (zlen_nonneg key). pose proof (zlen_nonneg (tlv TAG_OID oid [] ++ params)).
  unfold spki_image. rewrite (tlv_short TAG_BIT_STRING _ (1 + zlen key)); [|by rewrite zlen_cons|lia].
  rewrite (tlv_short TAG_SEQUENCE (tlv TAG_OID oid [] ++ params) n) by done.
  rewrite (tlv_short TAG_SEQUENCE _ (n + 5 + zlen key)); [done| |done].
  rewrite !zlen_app, !zlen_cons. rewrite zlen_app in Hn. rewrite zlen_app. lia.
Qed.

(** The writer of each type produces that shape. *)
Lemma host_key_spki_image k :
  host_key_ok k -> host_key_spki k = spki_image (key_oid k) (key_params k) x00 (key_bits k).
Proof.
  intros Hk. destruct k as [k|k|k]; cbn [host_key_spki].
  - pose proof (vk_as_bytes_len (Ed25519.key k)) as Hl. fold (Ed25519.as_bytes k) in Hl.
    rewrite (fixed_image _ _ _ 5); [|done|done|cbn [key_bits]; rewrite Hl; done].
    cbn [key_bits]. rewrite Hl. unfold ed25519_spki.
    destruct (zsplit 12 (replicate (Z.to_nat ED25519_SPKI_LEN) x00)) as (a & b & Hab & Ha); [done|].
    assert (zlen b = 32) as Hb.
    { apply (f_equal zlen) in Hab. rewrite zlen_app, Ha in Hab. change (zlen (replicate _ _)) with 44 in Hab. lia. }
    rewrite Hab. change (a ++ b) with ([] ++ a ++ b).
    rewrite (write_at_app 0 [] ED25519_SPKI_PREFIX a b) by done. rewrite <- (app_nil_r b).
    change ([] ++ ED25519_SPKI_PREFIX ++ b ++ []) with (ED25519_SPKI_PREFIX ++ b ++ []).
    rewrite write_at_app; [by rewrite app_nil_r|done|by rewrite Hl].
  - done.
  - destruct Hk as [Hl _]. rewrite (fixed_image _ _ _ 19); [|done|done|cbn [key_bits]; rewrite Hl; done].
    cbn [key_bits]. rewrite Hl. done.
Qed.

Lemma host_key_spki_short k : host_key_ok k -> spki_short (key_oid k) (key_params k) x00 (key_bits k).
Proof.
  intros Hk. assert (zlen (key_bits k) <= 2004) as Hl.
  { destruct k as [k|k|k]; cbn [key_bits].
    - pose proof (vk_as_bytes_len (Ed25519.key k)) as Hl. fold (Ed25519.as_bytes k) in Hl. rewrite Hl. done.
    - destruct (rsa_ints_short k Hk) as (_ & _ & Hs). pose proof (zlen_tlv TAG_SEQUENCE
        (positive_integer (Rsa.n k) [] ++ positive_integer (Rsa.e k) [])). lia.
    - destruct Hk as [Hl _]. rewrite Hl. done. }
  assert (zlen (tlv TAG_OID (key_oid k) [] ++ key_params k) <= 100) as Hp by (by destruct k).
  pose proof (zlen_tlv TAG_SEQUENCE (tlv TAG_OID (key_oid k) [] ++ key_params k)).
  pose proof (zlen_tlv TAG_BIT_STRING (x00 :: key_bits k)) as Ht. rewrite zlen_cons in Ht.
  unfold spki_short, short. rewrite zlen_cons. split_and!; [by destruct k|lia|lia|]. rewrite zlen_app. lia.
Qed.

Lemma spki_iff spki k :
  host_key_from_spki f spki = Ok k <->
  KeyType.is_enabled f (HostKey.key_type k) = true /\ host_key_ok k /\ spki = host_key_spki k.
Proof.
  rewrite from_spki_iff. split.
  - intros (oid & params & unused & key & -> & _ & (He & Hk & -> & -> & -> & ->)%dispatch_iff).
    split_and!; [done|done|]. by rewrite host_key_spki_image.
  - intros (He & Hk & ->). exists (key_oid k), (key_params k), x00, (key_bits k).
    split_and!; [by apply host_key_spki_image|by apply host_key_spki_short|by apply dispatch_iff].
Qed.
End exact.

Section conversions.
Context `{D : Dalek, !DalekLaws D}.

(** C31: a host key has exactly one SPKI: the strict reader accepts [spki] as
    [k] if and only if the key type is enabled, [k] satisfies its type's policy
    and [spki] is the canonical encoding of [k]; and the two conversions are
    inverse: an SPKI converts to a blob exactly when that blob converts back to
    the same SPKI. *)
Theorem spki_exact (f : Features) (spki blob : bytes) (k : HostKey.t) :
  (host_key_from_spki f spki = Ok k <->
   KeyType.is_enabled f (HostKey.key_type k) = true /\ host_key_ok k /\ spki = host_key_spki k) /\
  (spki_to_ssh_blob f spki = Ok blob <-> ssh_blob_to_spki f blob = Ok spki).
Proof.
  split; [apply spki_iff|]. unfold spki_to_ssh_blob, ssh_blob_to_spki. rewrite !map_ok_iff. split.
  - intros (k' & (He & Hk & ->)%spki_iff & ->). exists k'. split; [|done]. apply parse_iff. split_and!; [done|done|].
    by apply to_blob_image.
  - intros (k' & (He & Hk & ->)%parse_iff & ->). exists k'. split; [|by rewrite to_blob_image]. by apply spki_iff.
Qed.
End conversions.

#[local] Existing Instance one_key.
#[local] Existing Instance one_key_laws.

(** The Ed25519 key of the one-key library, both ways. *)
Lemma spki_exact_witness :
  let k := HostKey.Ed25519 (Ed25519.mkKey (D:=one_key) tt) in
  let f := mkFeatures true true true in
  host_key_from_spki (D:=one_key) f (ED25519_SPKI_PREFIX ++ replicate 32 x09) = Ok k /\
  ssh_blob_to_spki (D:=one_key) f (HostKey.to_blob k) = Ok (ED25519_SPKI_PREFIX ++ replicate 32 x09).
Proof.
  intros k f. split.
  - apply (spki_exact f _ [] k). split_and!; reflexivity.
  - apply (spki_exact f _ _ k). vm_compute. reflexivity.
Defined.
