(* ===== verification/Negotiate.v ===== *)
(** * Algorithm negotiation

    Models crates/tatami_ssh_tcp/src/negotiate.rs: the client's KEXINIT
    proposal and the RFC 4253 selection rules over two proposals. Selected
    names are the exact wire names; the [String] the code builds from them is
    the same bytes, since names are ASCII. *)

From S2P Require Import Prelude WireError NameList Primitives Messages KexInit KeyAlgorithm.

Module HostKeyAlgorithms.

(* tcp/negotiate.rs:71-74 HostKeyAlgorithms *)
Record t : Type := mk { schemes : list SignatureScheme.t; len : Z }.

(* tcp/negotiate.rs:78-83 HostKeyAlgorithmsError *)
Inductive Error : Type := Empty | Duplicate (s : SignatureScheme.t).

(* tcp/negotiate.rs:100-103 HostKeyAlgorithms::ED25519_ONLY *)
Definition ED25519_ONLY : t := mk (replicate 4 SignatureScheme.Ed25519) 1.

(* tcp/negotiate.rs:139-141 HostKeyAlgorithms::as_slice *)
Definition as_slice (self : t) : list SignatureScheme.t := ztake (len self) (schemes self).

(** The loop of [new]; [None] is the panic of an out-of-range index. *)
(* tcp/negotiate.rs:112-120 HostKeyAlgorithms::new *)
Fixpoint new_loop (out : t) (todo : list SignatureScheme.t) : option (result t Error) :=
  match todo with
  | [] => Some (Ok out)
  | s :: todo' =>
      if bool_decide (s ∈ as_slice out) then Some (Err (Duplicate s))
      else if len out <? zlen (schemes out)
           then new_loop (mk (<[Z.to_nat (len out) := s]> (schemes out)) (len out + 1)) todo'
           else None
  end.

(* tcp/negotiate.rs:106-121 HostKeyAlgorithms::new *)
Definition new (schemes : list SignatureScheme.t) : option (result t Error) :=
  match schemes with
  | [] => Some (Err Empty)
  | first :: _ => new_loop (mk (replicate 4 first) 0) schemes
  end.

(** The loop of [preferred]: [list[n] = s; n += 1]. *)
(* tcp/negotiate.rs:127-133 HostKeyAlgorithms::preferred *)
Fixpoint preferred_loop (can_verify : SignatureScheme.t -> bool) (buf : list SignatureScheme.t) (n : nat)
    (todo : list SignatureScheme.t) : list SignatureScheme.t * nat :=
  match todo with
  | [] => (buf, n)
  | s :: todo' =>
      if can_verify s then preferred_loop can_verify (<[n := s]> buf) (S n) todo'
      else preferred_loop can_verify buf n todo'
  end.

(* tcp/negotiate.rs:125-135 HostKeyAlgorithms::preferred *)
Definition preferred (can_verify : SignatureScheme.t -> bool) : option (option t) :=
  let '(buf, n) := preferred_loop can_verify (replicate 4 SignatureScheme.Ed25519) 0 SignatureScheme.PREFERENCE in
  let* r := new (take n buf) in
  Some (match r with Ok a => Some a | Err _ => None end).

End HostKeyAlgorithms.

Module ClientProposal.

(* tcp/negotiate.rs:154-164 ClientProposal *)
Record t : Type := mk {
  cookie : bytes;
  advertise_ext_info : bool;
  offer_strict_kex : bool;
  host_key_algorithms : HostKeyAlgorithms.t
}.

(* tcp/negotiate.rs:170-180 ClientProposal::kex_algorithms *)
Definition kex_algorithms (self : t) : list bytes :=
  [algorithms.CURVE25519_SHA256] ++
  (if advertise_ext_info self then [algorithms.EXT_INFO_C] else []) ++
  (if offer_strict_kex self then [algorithms.KEX_STRICT_C_OPENSSH; algorithms.KEX_STRICT_C] else []).

(** The name-lists in the order they are written. *)
(* tcp/negotiate.rs:190-200 ClientProposal::encode *)
Definition lists (self : t) : list (list bytes) := [
  kex_algorithms self;
  map SignatureScheme.name (HostKeyAlgorithms.as_slice (host_key_algorithms self));
  [algorithms.AES128_GCM_OPENSSH]; [algorithms.AES128_GCM_OPENSSH];
  [algorithms.HMAC_SHA2_256]; [algorithms.HMAC_SHA2_256];
  [algorithms.NONE]; [algorithms.NONE]; []; []].

Fixpoint write_name_lists (ls : list (list bytes)) : M Writer.t EncodeError unit :=
  match ls with
  | [] => ret tt
  | l :: ls' => let! _ := Writer.write_name_list l in write_name_lists ls'
  end.

(* tcp/negotiate.rs:184-206 ClientProposal::encode *)
Definition encode (self : t) : result bytes EncodeError :=
  let '(w, r) := (let! _ := Writer.write_u8 Msg.KEXINIT in
                  let! _ := Writer.write_bytes (cookie self) in
                  let! _ := write_name_lists (lists self) in
                  let! _ := Writer.write_bool false in
                  Writer.write_u32 0) (Writer.new (replicate 512 x00)) in
  let? _ := r in Ok (ztake (Writer.position w) (Writer.out w)).

End ClientProposal.

(* tcp/negotiate.rs:211-215 Mac *)
Inductive Mac : Type := ImplicitAead.

(* tcp/negotiate.rs:236-247 StrictKex *)
Record StrictKex : Type := mkStrictKex {
  offered_pre_standard : bool;
  offered_standard : bool;
  server_pre_standard : bool;
  server_standard : bool;
  negotiated : bool
}.

(* tcp/negotiate.rs:253-258 StrictKex::evaluate *)
Definition offers_marker (l : NameList.t) (r : StrictKexRole) (s : StrictKexSpelling) : bool :=
  existsb (fun name =>
    match classify_strict_kex_name name with
    | Some m => bool_decide (role m = r) && bool_decide (spelling m = s)
    | None => false
    end) (NameList.names l).

(* tcp/negotiate.rs:252-287 StrictKex::evaluate *)
Definition evaluate (client server : KexInit.t) : StrictKex :=
  let c_pre := offers_marker (KexInit.kex_algorithms client) RoleClient OpenSshV00 in
  let c_std := offers_marker (KexInit.kex_algorithms client) RoleClient Standard in
  let s_pre := offers_marker (KexInit.kex_algorithms server) RoleServer OpenSshV00 in
  let s_std := offers_marker (KexInit.kex_algorithms server) RoleServer Standard in
  mkStrictKex c_pre c_std s_pre s_std ((c_pre && s_pre) || (c_std && s_std)).

(* tcp/negotiate.rs:291-298 StrictKex::offered *)
Definition strict_offered (client : KexInit.t) : StrictKex :=
  let has name := NameList.contains (KexInit.kex_algorithms client) name in
  mkStrictKex (has algorithms.KEX_STRICT_C_OPENSSH) (has algorithms.KEX_STRICT_C) false false false.

(* tcp/negotiate.rs:303-328 Negotiated *)
Record Negotiated : Type := mkNegotiated {
  kex : bytes;
  host_key : bytes;
  encryption_client_to_server : bytes;
  encryption_server_to_client : bytes;
  mac_client_to_server : Mac;
  mac_server_to_client : Mac;
  compression_client_to_server : bytes;
  compression_server_to_client : bytes;
  strict_kex : StrictKex;
  ext_info : bool;
  server_guess_wrong : bool
}.

(* tcp/negotiate.rs:385-390 Direction *)
Inductive Direction : Type := ClientToServer | ServerToClient.

(* tcp/negotiate.rs:403-423 NegotiationError *)
Inductive NegotiationError : Type :=
| NoCommonKex
| NoCommonHostKey
| NoCommonCipher (d : Direction)
| NoMacImplemented (d : Direction)
| NoCommonCompression (d : Direction)
| UnsupportedSelection (field : string) (name : bytes).

(* tcp/negotiate.rs:428-437 NegotiationError::code *)
Definition negotiation_error_code (e : NegotiationError) : string :=
  match e with
  | NoCommonKex => "no_common_kex"
  | NoCommonHostKey => "no_common_host_key"
  | NoCommonCipher _ => "no_common_cipher"
  | NoMacImplemented _ => "no_mac_implemented"
  | NoCommonCompression _ => "no_common_compression"
  | UnsupportedSelection _ _ => "unsupported_selection"
  end.

(* tcp/negotiate.rs:464-466 is_aead *)
Definition is_aead (cipher : bytes) : bool := bytes_eqb cipher algorithms.AES128_GCM_OPENSSH.

(* tcp/negotiate.rs:468-470 is_method *)
Definition is_method (name : bytes) : bool :=
  match classify_kex_name name with Method => true | _ => false end.

(* tcp/negotiate.rs:473-475 first_method *)
Definition first_method (k : KexInit.t) : option bytes :=
  List.find is_method (NameList.names (KexInit.kex_algorithms k)).

(* tcp/negotiate.rs:478-480 first_common *)
Definition first_common (client server : NameList.t) : option bytes :=
  List.find (NameList.contains server) (NameList.names client).

(* tcp/negotiate.rs:378-380 Negotiated::host_key_scheme *)
Definition host_key_scheme (self : Negotiated) : option SignatureScheme.t :=
  SignatureScheme.from_name (host_key self).

(* tcp/negotiate.rs:335-373 Negotiated::check_profile *)
Definition check_profile (self : Negotiated) : result unit NegotiationError :=
  if negb (bytes_eqb (kex self) algorithms.CURVE25519_SHA256) then
    Err (UnsupportedSelection "kex_algorithms" (kex self))
  else if negb (bool_decide (is_Some (host_key_scheme self))) then
    Err (UnsupportedSelection "server_host_key_algorithms" (host_key self))
  else if negb (is_aead (encryption_client_to_server self)) then
    Err (UnsupportedSelection "encryption_algorithms_client_to_server" (encryption_client_to_server self))
  else if negb (is_aead (encryption_server_to_client self)) then
    Err (UnsupportedSelection "encryption_algorithms_server_to_client" (encryption_server_to_client self))
  else if negb (bytes_eqb (compression_client_to_server self) algorithms.NONE) then
    Err (UnsupportedSelection "compression_algorithms_client_to_server" (compression_client_to_server self))
  else if negb (bytes_eqb (compression_server_to_client self) algorithms.NONE) then
    Err (UnsupportedSelection "compression_algorithms_server_to_client" (compression_server_to_client self))
  else Ok tt.

(* tcp/negotiate.rs:488-571 negotiate *)
Definition negotiate (client server : KexInit.t) : result Negotiated NegotiationError :=
  let server_methods := List.filter is_method (NameList.names (KexInit.kex_algorithms server)) in
  let? kex := ok_or (List.find (fun name => bool_decide (name ∈ server_methods))
    (List.filter is_method (NameList.names (KexInit.kex_algorithms client)))) NoCommonKex in
  let? host_key := ok_or (first_common (KexInit.server_host_key_algorithms client)
    (KexInit.server_host_key_algorithms server)) NoCommonHostKey in
  let? enc_c2s := ok_or (first_common (KexInit.encryption_client_to_server client)
    (KexInit.encryption_client_to_server server)) (NoCommonCipher ClientToServer) in
  let? enc_s2c := ok_or (first_common (KexInit.encryption_server_to_client client)
    (KexInit.encryption_server_to_client server)) (NoCommonCipher ServerToClient) in
  let mac cipher direction :=
    if is_aead cipher then Ok ImplicitAead else Err (NoMacImplemented direction) in
  let? mac_c2s := mac enc_c2s ClientToServer in
  let? mac_s2c := mac enc_s2c ServerToClient in
  let? comp_c2s := ok_or (first_common (KexInit.compression_client_to_server client)
    (KexInit.compression_client_to_server server)) (NoCommonCompression ClientToServer) in
  let? comp_s2c := ok_or (first_common (KexInit.compression_server_to_client client)
    (KexInit.compression_server_to_client server)) (NoCommonCompression ServerToClient) in
  let strict_kex := evaluate client server in
  let ext_info := NameList.contains (KexInit.kex_algorithms server) algorithms.EXT_INFO_S in
  let server_guess_wrong := KexInit.first_kex_packet_follows server &&
    (let same_kex := bool_decide (first_method client = first_method server) in
     let same_host_key := bool_decide (head (NameList.names (KexInit.server_host_key_algorithms client)) =
                            head (NameList.names (KexInit.server_host_key_algorithms server))) in
     negb (same_kex && same_host_key)) in
  Ok (mkNegotiated kex host_key enc_c2s enc_s2c mac_c2s mac_s2c comp_c2s comp_s2c strict_kex
        ext_info server_guess_wrong).

(** ** The selection rule *)

(** RFC 4253: the first of the client's names that the server lists too. *)
Definition selected (client server : list bytes) (x : bytes) : Prop :=
  exists a b, client = a ++ x :: b /\ x ∈ server /\ Forall (fun y => y ∉ server) a.

Lemma find_Some_iff {A} (f : A -> bool) l x :
  List.find f l = Some x <-> exists a b, l = a ++ x :: b /\ f x = true /\ Forall (fun y => f y = false) a.
Proof.
  induction l as [|y l IH]; simpl.
  - split; [done|]. intros (a & b & H & _). by destruct a.
  - destruct (f y) eqn:E.
    + split; [intros [= <-]; by exists [], l|].
      intros ([|z a] & b & [= <- ->] & Hx & Ha); [done|]. apply Forall_cons in Ha as [? _]. congruence.
    + rewrite IH. split.
      * intros (a & b & -> & Hx & Ha). exists (y :: a), b. split_and!; [done|done|by constructor].
      * intros ([|z a] & b & [= <- ->] & Hx & Ha); [congruence|]. apply Forall_cons in Ha as [_ Ha]. eauto.
Qed.

Lemma find_None_iff {A} (f : A -> bool) l : List.find f l = None <-> Forall (fun y => f y = false) l.
Proof.
  induction l as [|y l IH]; simpl; [by split|]. rewrite Forall_cons, <- IH. destruct (f y); naive_solver.
Qed.

Lemma find_selected f client server x :
  (forall n, f n = true <-> n ∈ server) -> List.find f client = Some x <-> selected client server x.
Proof.
  intros Hf. rewrite find_Some_iff. unfold selected.
  split; intros (a & b & -> & Hx & Ha); exists a, b; (split; [done|]); (split; [by apply Hf|]);
    eapply Forall_impl; try exact Ha; simpl; intros y Hy.
  - rewrite <- Hf. congruence.
  - rewrite <- Hf in Hy. by destruct (f y).
Qed.

Lemma find_unselected (f : bytes -> bool) (client server : list bytes) :
  (forall n, f n = true <-> n ∈ server) -> List.find f client = None <-> forall x, x ∈ client -> x ∉ server.
Proof.
  intros Hf. rewrite find_None_iff, Forall_forall. split; intros H x Hx.
  - rewrite <- Hf, (H x Hx). done.
  - specialize (H x Hx). rewrite <- Hf in H. by destruct (f x).
Qed.

Lemma first_common_Some c s x :
  first_common c s = Some x <-> selected (NameList.names c) (NameList.names s) x.
Proof. apply find_selected. intros n. apply contains_spec. Qed.

Lemma first_common_None c s :
  first_common c s = None <-> forall x, x ∈ NameList.names c -> x ∉ NameList.names s.
Proof. apply find_unselected. intros n. apply contains_spec. Qed.

(** The key-exchange methods of a proposal: its names without the markers. *)
Definition methods (k : KexInit.t) : list bytes :=
  List.filter is_method (NameList.names (KexInit.kex_algorithms k)).

Lemma is_method_iff n : is_method n = true <-> is_marker (classify_kex_name n) = false.
Proof. unfold is_method. by destruct (classify_kex_name n). Qed.

Lemma elem_of_methods k n :
  n ∈ methods k <-> n ∈ NameList.names (KexInit.kex_algorithms k) /\ is_marker (classify_kex_name n) = false.
Proof. unfold methods. rewrite !list_elem_of_In, filter_In, is_method_iff. done. Qed.

Lemma selected_elem c s x : selected c s x -> x ∈ c /\ x ∈ s.
Proof. intros (a & b & -> & Hs & _). split; [|done]. apply elem_of_app. right. constructor. Qed.

Lemma offers_marker_iff l r s :
  offers_marker l r s = true <-> marker_name (mkMarker r s) ∈ NameList.names l.
Proof.
  unfold offers_marker. rewrite existsb_exists. split.
  - intros (n & Hn%list_elem_of_In & H). destruct (classify_strict_kex_name n) as [[r' s']|] eqn:E; [|done].
    apply andb_prop in H as [Hr%bool_decide_eq_true Hs%bool_decide_eq_true]. simpl in Hr, Hs.
    apply classify_strict_name in E. by subst.
  - intros H%list_elem_of_In. eexists; split; [exact H|].
    rewrite (proj2 (classify_strict_name _ (mkMarker r s)) eq_refl). simpl.
    rewrite !bool_decide_true; done.
Qed.

(** What [negotiate] computes once every list has a common entry. *)
Definition outcome (c s : KexInit.t) (n : Negotiated) : Prop :=
  selected (methods c) (methods s) (kex n) /\
  selected (NameList.names (KexInit.server_host_key_algorithms c))
    (NameList.names (KexInit.server_host_key_algorithms s)) (host_key n) /\
  selected (NameList.names (KexInit.encryption_client_to_server c))
    (NameList.names (KexInit.encryption_client_to_server s)) (encryption_client_to_server n) /\
  selected (NameList.names (KexInit.encryption_server_to_client c))
    (NameList.names (KexInit.encryption_server_to_client s)) (encryption_server_to_client n) /\
  encryption_client_to_server n = algorithms.AES128_GCM_OPENSSH /\
  encryption_server_to_client n = algorithms.AES128_GCM_OPENSSH /\
  selected (NameList.names (KexInit.compression_client_to_server c))
    (NameList.names (KexInit.compression_client_to_server s)) (compression_client_to_server n) /\
  selected (NameList.names (KexInit.compression_server_to_client c))
    (NameList.names (KexInit.compression_server_to_client s)) (compression_server_to_client n).

(** The flags that come with it. *)
Definition outcome_flags (c s : KexInit.t) (n : Negotiated) : Prop :=
  (negotiated (strict_kex n) = true <-> exists sp,
     marker_name (mkMarker RoleClient sp) ∈ NameList.names (KexInit.kex_algorithms c) /\
     marker_name (mkMarker RoleServer sp) ∈ NameList.names (KexInit.kex_algorithms s)) /\
  (ext_info n = true <-> algorithms.EXT_INFO_S ∈ NameList.names (KexInit.kex_algorithms s)) /\
  (server_guess_wrong n = true <-> KexInit.first_kex_packet_follows s = true /\
     ~ (head (methods c) = head (methods s) /\
        head (NameList.names (KexInit.server_host_key_algorithms c)) =
        head (NameList.names (KexInit.server_host_key_algorithms s)))).

Lemma find_head_filter {A} (f : A -> bool) l : List.find f l = head (List.filter f l).
Proof. induction l as [|x l IH]; simpl; [done|]. by destruct (f x). Qed.

Lemma evaluate_negotiated c s :
  negotiated (evaluate c s) = true <-> exists sp,
    marker_name (mkMarker RoleClient sp) ∈ NameList.names (KexInit.kex_algorithms c) /\
    marker_name (mkMarker RoleServer sp) ∈ NameList.names (KexInit.kex_algorithms s).
Proof.
  unfold evaluate; simpl. rewrite orb_true_iff, !andb_true_iff, !offers_marker_iff. split.
  - intros [H|H]; eauto.
  - intros [[] H]; [by right|by left].
Qed.

Lemma mac_ok cipher d m :
  (if is_aead cipher then Ok ImplicitAead else Err (NoMacImplemented d)) = Ok m <->
  cipher = algorithms.AES128_GCM_OPENSSH /\ m = ImplicitAead.
Proof.
  unfold is_aead. destruct (bytes_eqb _ _) eqn:E.
  - apply bytes_eqb_eq in E. by destruct m.
  - apply bytes_eqb_neq in E. naive_solver.
Qed.

Lemma find_method c s x :
  List.find (fun name => bool_decide (name ∈ List.filter is_method (NameList.names (KexInit.kex_algorithms s))))
    (List.filter is_method (NameList.names (KexInit.kex_algorithms c))) = Some x <->
  selected (methods c) (methods s) x.
Proof. apply find_selected. intros n. apply bool_decide_eq_true. Qed.

Lemma ok_or_Ok {A E} (o : option A) (e : E) a : ok_or o e = Ok a <-> o = Some a.
Proof. destruct o; simpl; naive_solver. Qed.

Lemma rbind_Ok_iff {A B E} (r : result A E) (k : A -> result B E) b :
  rbind r k = Ok b <-> exists a, r = Ok a /\ k a = Ok b.
Proof. split; [apply rbind_Ok|]. by intros (a & -> & H). Qed.

(** The flags, computed from the two proposals. *)
Definition guess_wrong (c s : KexInit.t) : bool :=
  KexInit.first_kex_packet_follows s &&
  negb (bool_decide (first_method c = first_method s) &&
        bool_decide (head (NameList.names (KexInit.server_host_key_algorithms c)) =
                     head (NameList.names (KexInit.server_host_key_algorithms s)))).

Lemma negotiate_ok_iff c s n :
  negotiate c s = Ok n <->
  outcome c s n /\ strict_kex n = evaluate c s /\
  ext_info n = NameList.contains (KexInit.kex_algorithms s) algorithms.EXT_INFO_S /\
  server_guess_wrong n = guess_wrong c s.
Proof.
  unfold negotiate, outcome. split.
  - intros (k & Hk%ok_or_Ok & H1)%rbind_Ok. apply rbind_Ok in H1 as (h & Hh%ok_or_Ok & H1).
    apply rbind_Ok in H1 as (e1 & He1%ok_or_Ok & H1). apply rbind_Ok in H1 as (e2 & He2%ok_or_Ok & H1).
    apply rbind_Ok in H1 as (m1 & [Ha1 ->]%mac_ok & H1). apply rbind_Ok in H1 as (m2 & [Ha2 ->]%mac_ok & H1).
    apply rbind_Ok in H1 as (c1 & Hc1%ok_or_Ok & H1). apply rbind_Ok in H1 as (c2 & Hc2%ok_or_Ok & H1).
    apply Ok_inj in H1 as <-. simpl.
    rewrite <- find_method, <- !first_common_Some. by split_and!.
  - intros ((Hk & Hh & He1 & He2 & Ha1 & Ha2 & Hc1 & Hc2) & Hs & Hx & Hg).
    apply find_method in Hk. apply first_common_Some in Hh, He1, He2, Hc1, Hc2.
    rewrite Hk. cbn [ok_or rbind]. rewrite Hh. cbn [ok_or rbind]. rewrite He1. cbn [ok_or rbind].
    rewrite He2. cbn [ok_or rbind]. rewrite (proj2 (mac_ok _ ClientToServer _) (conj Ha1 eq_refl)).
    rewrite (proj2 (mac_ok _ ServerToClient _) (conj Ha2 eq_refl)). cbn [rbind].
    rewrite Hc1. cbn [ok_or rbind]. rewrite Hc2. cbn [ok_or rbind].
    unfold guess_wrong in Hg. rewrite <- Hs, <- Hx, <- Hg. f_equal. destruct n as [? ? ? ? [] [] ? ? ? ? ?]. done.
Qed.

(** ** The client's proposal *)

Lemma new_loop_spec l : forall (done pad : list SignatureScheme.t),
  NoDup done -> zlen (done ++ pad) = 4 ->
  HostKeyAlgorithms.new_loop (HostKeyAlgorithms.mk (done ++ pad) (zlen done)) l <> None /\
  (forall a, HostKeyAlgorithms.new_loop (HostKeyAlgorithms.mk (done ++ pad) (zlen done)) l = Some (Ok a) ->
     HostKeyAlgorithms.as_slice a = done ++ l /\ NoDup (done ++ l)) /\
  (forall e, HostKeyAlgorithms.new_loop (HostKeyAlgorithms.mk (done ++ pad) (zlen done)) l = Some (Err e) ->
     ~ NoDup (done ++ l)).
Proof.
  induction l as [|s l IH]; intros done pad Hnd Hlen; cbn [HostKeyAlgorithms.new_loop];
    assert (HostKeyAlgorithms.as_slice (HostKeyAlgorithms.mk (done ++ pad) (zlen done)) = done) as Has
      by (by apply ztake_app_exact).
  { split_and!; [done| |done]. intros a [= <-]. by rewrite app_nil_r. }
  rewrite Has. cbn [HostKeyAlgorithms.schemes HostKeyAlgorithms.len]. case_bool_decide as Hin.
  { split_and!; [done|done|]. intros e [= <-] Hd. apply NoDup_app in Hd as (_ & Hd & _).
    apply (Hd s Hin). constructor. }
  destruct pad as [|x pad].
  { exfalso. rewrite app_nil_r in Hlen.
    assert (NoDup (s :: done)) as Hd by (by constructor).
    apply schemes_nodup_length in Hd. unfold zlen in Hlen. simpl in Hd. lia. }
  destruct (Z.ltb_spec (zlen done) (zlen (done ++ x :: pad))); [|zlia].
  assert (<[Z.to_nat (zlen done) := s]> (done ++ x :: pad) = (done ++ [s]) ++ pad) as ->.
  { unfold zlen. rewrite Nat2Z.id, insert_app_r_alt, Nat.sub_diag by lia. simpl. by rewrite <- app_assoc. }
  replace (zlen done + 1) with (zlen (done ++ [s])) by zlia.
  destruct (IH (done ++ [s]) pad) as (H1 & H2 & H3).
  - apply NoDup_app. split_and!; [done| |apply NoDup_singleton]. intros y Hy Hy'%list_elem_of_singleton. congruence.
  - zlia.
  - replace (done ++ s :: l) with ((done ++ [s]) ++ l) by (by rewrite <- app_assoc). done.
Qed.

Lemma host_key_algorithms_new l :
  exists r, HostKeyAlgorithms.new l = Some r /\
  match r with
  | Ok a => HostKeyAlgorithms.as_slice a = l /\ l <> [] /\ NoDup l
  | Err e => l = [] \/ ~ NoDup l
  end.
Proof.
  destruct l as [|s l]; [by eexists; split; [done|left]|]. unfold HostKeyAlgorithms.new.
  destruct (new_loop_spec (s :: l) [] (replicate 4 s) ltac:(constructor) eq_refl) as (H1 & H2 & H3).
  change (HostKeyAlgorithms.mk ([] ++ replicate 4 s) (zlen [])) with (HostKeyAlgorithms.mk (replicate 4 s) 0) in *.
  change ([] ++ s :: l) with (s :: l) in *.
  destruct (HostKeyAlgorithms.new_loop _ _) as [[a|e]|]; [| |done]; eexists; (split; [done|]).
  - destruct (H2 a eq_refl). done.
  - right. by eapply H3.
Qed.

(** The value the proposal encodes. *)
Definition proposal_kexinit (p : ClientProposal.t) : KexInit.t :=
  let l ns := NameList.mk (join_commas ns) in
  KexInit.mk (ClientProposal.cookie p) (l (ClientProposal.kex_algorithms p))
    (l (map SignatureScheme.name (HostKeyAlgorithms.as_slice (ClientProposal.host_key_algorithms p))))
    (l [algorithms.AES128_GCM_OPENSSH]) (l [algorithms.AES128_GCM_OPENSSH])
    (l [algorithms.HMAC_SHA2_256]) (l [algorithms.HMAC_SHA2_256])
    (l [algorithms.NONE]) (l [algorithms.NONE]) (l []) (l []) false 0.

Lemma preferred_spec can_verify :
  exists o, HostKeyAlgorithms.preferred can_verify = Some o /\
    match o with
    | Some a => HostKeyAlgorithms.as_slice a = List.filter can_verify SignatureScheme.PREFERENCE /\
        HostKeyAlgorithms.new (List.filter can_verify SignatureScheme.PREFERENCE) = Some (Ok a)
    | None => List.filter can_verify SignatureScheme.PREFERENCE = []
    end.
Proof.
  unfold HostKeyAlgorithms.preferred, SignatureScheme.PREFERENCE. simpl.
  destruct (can_verify SignatureScheme.Ed25519), (can_verify SignatureScheme.EcdsaP256Sha256),
    (can_verify SignatureScheme.RsaSha2_512), (can_verify SignatureScheme.RsaSha2_256);
    eexists; (split; [reflexivity|]); try split; reflexivity.
Qed.

(** A proposal the client can send: a full cookie and an accepted host-key list. *)
Definition proposal_ok (p : ClientProposal.t) : Prop :=
  zlen (ClientProposal.cookie p) = KexInit.COOKIE_LEN /\
  exists l, HostKeyAlgorithms.new l = Some (Ok (ClientProposal.host_key_algorithms p)).

Lemma kex_algorithms_valid p : Forall (fun n => is_valid_name n = true) (ClientProposal.kex_algorithms p).
Proof.
  unfold ClientProposal.kex_algorithms.
  destruct (ClientProposal.advertise_ext_info p), (ClientProposal.offer_strict_kex p); repeat constructor.
Qed.

Lemma scheme_names_valid l : Forall (fun n => is_valid_name n = true) (map SignatureScheme.name l).
Proof. induction l; simpl; constructor; [apply scheme_name_valid|done]. Qed.

Lemma lists_valid p : Forall (Forall (fun n => is_valid_name n = true)) (ClientProposal.lists p).
Proof.
  unfold ClientProposal.lists. constructor; [apply kex_algorithms_valid|].
  constructor; [apply scheme_names_valid|]. repeat constructor.
Qed.

Lemma zlen_join_kex p : zlen (join_commas (ClientProposal.kex_algorithms p)) <= 80.
Proof.
  unfold ClientProposal.kex_algorithms.
  destruct (ClientProposal.advertise_ext_info p), (ClientProposal.offer_strict_kex p); vm_compute; discriminate.
Qed.

(** A list of at most four scheme names is short. *)
Lemma zlen_join_schemes l :
  (length l <= 4)%nat -> zlen (join_commas (map SignatureScheme.name l)) <= 80.
Proof.
  assert (forall s, zlen (SignatureScheme.name s) <= 19) as Hs by (intros []; vm_compute; discriminate).
  assert (forall k, zlen (sep_tail (map SignatureScheme.name k)) <= 20 * zlen k) as Ht.
  { induction k as [|s k IH]; [done|]. unfold sep_tail in *. cbn [map concat]. specialize (Hs s).
    rewrite zlen_app, !zlen_cons. lia. }
  destruct l as [|s l]; [done|]. cbn [map]. rewrite join_commas_sep, zlen_app. intros Hl.
  specialize (Hs s). specialize (Ht l).
  assert (zlen l <= 3) by (unfold zlen; simpl in Hl; lia). lia.
Qed.

Lemma proposal_schemes p :
  proposal_ok p ->
  let l := HostKeyAlgorithms.as_slice (ClientProposal.host_key_algorithms p) in
  l <> [] /\ NoDup l /\ (length l <= 4)%nat.
Proof.
  intros (_ & l & Hl). destruct (host_key_algorithms_new l) as (r & Hr & Hspec).
  rewrite Hl in Hr. injection Hr as <-. destruct Hspec as (-> & Hne & Hnd). split_and!; [done|done|].
  by apply schemes_nodup_length.
Qed.

Lemma list_wf_join ns :
  Forall (fun n => is_valid_name n = true) ns -> zlen (join_commas ns) <= 80 ->
  KexInit.list_wf (NameList.mk (join_commas ns)).
Proof. intros Hv Hl. split; [by apply join_wf|]. cbn [NameList.body]. unfold U32_MAX. lia. Qed.

Lemma proposal_list_wf p :
  proposal_ok p -> Forall (fun ns => KexInit.list_wf (NameList.mk (join_commas ns))) (ClientProposal.lists p).
Proof.
  intros Hp. destruct (proposal_schemes p Hp) as (_ & _ & Hlen). unfold ClientProposal.lists.
  constructor; [apply list_wf_join; [apply kex_algorithms_valid|apply zlen_join_kex]|].
  constructor; [apply list_wf_join; [apply scheme_names_valid|by apply zlen_join_schemes]|].
  do 8 (constructor; [apply list_wf_join; [repeat constructor|vm_compute; discriminate]|]). constructor.
Qed.

Lemma proposal_kexinit_wf p : proposal_ok p -> KexInit.wf (proposal_kexinit p).
Proof.
  intros Hp. pose proof (proposal_list_wf p Hp) as Hl. destruct Hp as [Hc _].
  split_and!; [done| |vm_compute; split; discriminate].
  unfold KexInit.name_lists, proposal_kexinit, ClientProposal.lists in *. simpl.
  rewrite !Forall_cons in *. naive_solver.
Qed.

Lemma writes_name_lists ls :
  Forall (Forall (fun n => is_valid_name n = true)) ls ->
  Forall (fun ns => KexInit.list_wf (NameList.mk (join_commas ns))) ls ->
  Writes (ClientProposal.write_name_lists ls)
    (KexInit.lists_image (map (fun ns => NameList.mk (join_commas ns)) ls)).
Proof.
  induction 1 as [|ns ls Hv _ IH]; intros Hw; [apply writes_ret|].
  apply Forall_cons in Hw as [[_ Hl] Hw]. cbn [ClientProposal.write_name_lists map].
  unfold KexInit.lists_image in *. cbn [map concat NameList.body].
  apply writes_bind; [by apply writes_write_name_list|by apply IH].
Qed.

Lemma zlen_lists_image ls :
  zlen (KexInit.lists_image ls) = foldr (fun l n => 4 + zlen (NameList.body l) + n) 0 ls.
Proof.
  unfold KexInit.lists_image. induction ls as [|l ls IH]; [done|]. cbn [map concat foldr].
  by rewrite zlen_app, zlen_sshstr, IH.
Qed.

(** The proposal fits the buffer [encode] allocates. *)
Lemma zlen_proposal_image p :
  proposal_ok p -> zlen (KexInit.image (proposal_kexinit p)) <= zlen (replicate 512 x00).
Proof.
  intros Hp. destruct (proposal_schemes p Hp) as (_ & _ & Hlen).
  unfold KexInit.image. rewrite !zlen_app, zlen_lists_image, zlen_be_bytes. destruct Hp as [Hc _].
  change (KexInit.cookie (proposal_kexinit p)) with (ClientProposal.cookie p). rewrite Hc.
  pose proof (zlen_join_kex p). pose proof (zlen_join_schemes _ Hlen).
  unfold KexInit.name_lists, proposal_kexinit. cbn [foldr NameList.body KexInit.kex_algorithms
    KexInit.server_host_key_algorithms KexInit.encryption_client_to_server KexInit.encryption_server_to_client
    KexInit.mac_client_to_server KexInit.mac_server_to_client KexInit.compression_client_to_server
    KexInit.compression_server_to_client KexInit.languages_client_to_server KexInit.languages_server_to_client].
  change (zlen (join_commas [algorithms.AES128_GCM_OPENSSH])) with 22.
  change (zlen (join_commas [algorithms.HMAC_SHA2_256])) with 13.
  change (zlen (join_commas [algorithms.NONE])) with 4. change (zlen (join_commas [])) with 0.
  change (zlen (replicate 512 x00)) with 512. unfold KexInit.COOKIE_LEN. rewrite !zlen_cons, !zlen_nil. lia.
Qed.

Lemma proposal_encode p :
  proposal_ok p -> ClientProposal.encode p = Ok (KexInit.image (proposal_kexinit p)).
Proof.
  intros Hp. pose proof (proposal_list_wf p Hp) as Hl.
  set (m := let! _ := Writer.write_u8 Msg.KEXINIT in
            let! _ := Writer.write_bytes (ClientProposal.cookie p) in
            let! _ := ClientProposal.write_name_lists (ClientProposal.lists p) in
            let! _ := Writer.write_bool false in Writer.write_u32 0).
  assert (Writes m (KexInit.image (proposal_kexinit p))) as Hm.
  { unfold m, KexInit.image. apply writes_bind; [apply writes_write_u8|].
    apply writes_bind; [apply writes_write_bytes|].
    apply writes_bind; [exact (writes_name_lists (ClientProposal.lists p) (lists_valid p) Hl)|].
    apply writes_bind; [apply writes_write_bool|apply writes_write_u32]. }
  pose proof (zlen_proposal_image p Hp) as Hfit.
  pose proof (run_encode_ok m _ _ Hm Hfit) as He. unfold run_encode in He.
  unfold ClientProposal.encode. fold m. destruct (m (Writer.new (replicate 512 x00))) as [w r].
  destruct r as [u|e]; [|done]. apply pair_equal_spec in He as [Ho Hr%Ok_inj]. cbn [rbind].
  rewrite Ho, Hr. f_equal. by apply ztake_app_exact.
Qed.

Lemma selected_singleton x s y : selected [x] s y -> y = x.
Proof. intros H%selected_elem. destruct H as [H%list_elem_of_singleton _]. done. Qed.

Section our_proposal.
Context (p : ClientProposal.t) (Hp : proposal_ok p).
Let k := proposal_kexinit p.

Lemma proposal_names :
  NameList.names (KexInit.kex_algorithms k) = ClientProposal.kex_algorithms p /\
  NameList.names (KexInit.server_host_key_algorithms k) =
    map SignatureScheme.name (HostKeyAlgorithms.as_slice (ClientProposal.host_key_algorithms p)).
Proof. split; apply names_join; [apply kex_algorithms_valid|apply scheme_names_valid]. Qed.

Lemma proposal_methods : methods k = [algorithms.CURVE25519_SHA256].
Proof.
  unfold methods. rewrite (proj1 proposal_names). unfold ClientProposal.kex_algorithms.
  by destruct (ClientProposal.advertise_ext_info p), (ClientProposal.offer_strict_kex p).
Qed.

Lemma proposal_no_empty_list : KexInit.empty_algorithm_lists k = [].
Proof.
  destruct (proposal_schemes p Hp) as (Hne & _ & _). unfold k, proposal_kexinit, ClientProposal.kex_algorithms.
  destruct (ClientProposal.advertise_ext_info p), (ClientProposal.offer_strict_kex p),
    (HostKeyAlgorithms.as_slice _) as [|[] [|? ?]]; done.
Qed.

(** The client offers its marker in both spellings or in none. *)
Lemma proposal_markers sp :
  marker_name (mkMarker RoleClient sp) ∈ NameList.names (KexInit.kex_algorithms k) <->
  ClientProposal.offer_strict_kex p = true.
Proof.
  rewrite (proj1 proposal_names). unfold ClientProposal.kex_algorithms.
  rewrite <- (bool_decide_eq_true (_ ∈ _)).
  by destruct (ClientProposal.advertise_ext_info p), (ClientProposal.offer_strict_kex p), sp.
Qed.

Lemma proposal_profile s n :
  outcome k s n ->
  check_profile n = Ok tt /\ kex n = algorithms.CURVE25519_SHA256 /\
  exists sch, host_key_scheme n = Some sch /\
    sch ∈ HostKeyAlgorithms.as_slice (ClientProposal.host_key_algorithms p).
Proof.
  intros (Hk & Hh & _ & _ & He1 & He2 & Hc1 & Hc2).
  rewrite proposal_methods in Hk. apply selected_singleton in Hk, Hc1, Hc2.
  apply selected_elem in Hh as [Hh _]. rewrite (proj2 proposal_names) in Hh.
  apply list_elem_of_fmap in Hh as (sch & Hn & Hsch).
  assert (host_key_scheme n = Some sch) as Hs by (by apply scheme_from_name).
  split_and!; [|done|by eauto]. unfold check_profile, is_aead.
  rewrite Hk, Hs, He1, He2, Hc1, Hc2, !bytes_eqb_refl. done.
Qed.
End our_proposal.

(** Each failure of [negotiate] and what it says about the two proposals. *)
Lemma negotiate_errors (c s : KexInit.t) :
  match negotiate c s with
  | Ok _ => True
  | Err NoCommonKex => forall n, n ∈ methods c -> n ∉ methods s
  | Err NoCommonHostKey => forall n, n ∈ NameList.names (KexInit.server_host_key_algorithms c) ->
      n ∉ NameList.names (KexInit.server_host_key_algorithms s)
  | Err (NoCommonCipher ClientToServer) => forall n,
      n ∈ NameList.names (KexInit.encryption_client_to_server c) ->
      n ∉ NameList.names (KexInit.encryption_client_to_server s)
  | Err (NoCommonCipher ServerToClient) => forall n,
      n ∈ NameList.names (KexInit.encryption_server_to_client c) ->
      n ∉ NameList.names (KexInit.encryption_server_to_client s)
  | Err (NoMacImplemented ClientToServer) => exists n, n <> algorithms.AES128_GCM_OPENSSH /\
      selected (NameList.names (KexInit.encryption_client_to_server c))
        (NameList.names (KexInit.encryption_client_to_server s)) n
  | Err (NoMacImplemented ServerToClient) => exists n, n <> algorithms.AES128_GCM_OPENSSH /\
      selected (NameList.names (KexInit.encryption_server_to_client c))
        (NameList.names (KexInit.encryption_server_to_client s)) n
  | Err (NoCommonCompression ClientToServer) => forall n,
      n ∈ NameList.names (KexInit.compression_client_to_server c) ->
      n ∉ NameList.names (KexInit.compression_client_to_server s)
  | Err (NoCommonCompression ServerToClient) => forall n,
      n ∈ NameList.names (KexInit.compression_server_to_client c) ->
      n ∉ NameList.names (KexInit.compression_server_to_client s)
  | Err (UnsupportedSelection _ _) => False
  end.
Proof.
  unfold negotiate.
  destruct (List.find _ (List.filter _ _)) as [k|] eqn:Hk; cbn [ok_or rbind].
  2:{ rewrite (find_unselected _ _ (methods s)) in Hk; [done|]. intros n. apply bool_decide_eq_true. }
  destruct (first_common (KexInit.server_host_key_algorithms c) _) eqn:Hh; cbn [ok_or rbind].
  2:{ by apply first_common_None. }
  destruct (first_common (KexInit.encryption_client_to_server c) _) as [e1|] eqn:He1; cbn [ok_or rbind].
  2:{ by apply first_common_None. }
  destruct (first_common (KexInit.encryption_server_to_client c) _) as [e2|] eqn:He2; cbn [ok_or rbind].
  2:{ by apply first_common_None. }
  apply first_common_Some in He1, He2. unfold is_aead.
  destruct (bytes_eqb e1 _) eqn:E1; cbn [rbind].
  2:{ apply bytes_eqb_neq in E1. eauto. }
  destruct (bytes_eqb e2 _) eqn:E2; cbn [rbind].
  2:{ apply bytes_eqb_neq in E2. eauto. }
  destruct (first_common (KexInit.compression_client_to_server c) _) eqn:Hc1; cbn [ok_or rbind].
  2:{ by apply first_common_None. }
  destruct (first_common (KexInit.compression_server_to_client c) _) eqn:Hc2; cbn [ok_or rbind]; [done|].
  by apply first_common_None.
Qed.

(** ** Properties *)

(** C26: negotiation implements the RFC 4253 selection rule: it succeeds exactly
    when every category has a common entry and both ciphers are the implemented
    AEAD; each selected name is the first of the client's names that the server
    lists too; markers take no part in the choice of the key-exchange method;
    strict KEX is on exactly when both sides sent the marker of one spelling;
    the server's guess is wrong exactly when it announced one and the first
    method or first host-key algorithm differ. *)
Theorem negotiate_selects_first_common (c s : KexInit.t) :
  (forall n, negotiate c s = Ok n -> outcome c s n /\ outcome_flags c s n) /\
  ((exists n, outcome c s n) -> exists n, negotiate c s = Ok n).
Proof.
  split.
  - intros n (Ho & Hs & Hx & Hg)%negotiate_ok_iff. split; [done|]. unfold outcome_flags.
    rewrite Hs, Hx, Hg. split_and!; [apply evaluate_negotiated|apply contains_spec|].
    unfold guess_wrong, first_method. rewrite !find_head_filter. fold (methods c) (methods s).
    rewrite andb_true_iff, negb_true_iff, andb_false_iff, !bool_decide_eq_false.
    destruct (decide (head (methods c) = head (methods s))); tauto.
  - intros [[k h e1 e2 m1 m2 c1 c2 ? ? ?] Ho].
    exists (mkNegotiated k h e1 e2 m1 m2 c1 c2 (evaluate c s)
      (NameList.contains (KexInit.kex_algorithms s) algorithms.EXT_INFO_S) (guess_wrong c s)).
    apply negotiate_ok_iff. by split_and!.
Qed.

(** A negotiation failure names a category that really has no usable common
    entry: no shared method once markers are removed, no shared name in the
    reported list, or a selected cipher that is not an AEAD. *)
Theorem negotiate_errors_justified (c s : KexInit.t) :
  match negotiate c s with
  | Ok _ => True
  | Err NoCommonKex => forall n, n ∈ methods c -> n ∉ methods s
  | Err NoCommonHostKey => forall n, n ∈ NameList.names (KexInit.server_host_key_algorithms c) ->
      n ∉ NameList.names (KexInit.server_host_key_algorithms s)
  | Err (NoCommonCipher ClientToServer) => forall n,
      n ∈ NameList.names (KexInit.encryption_client_to_server c) ->
      n ∉ NameList.names (KexInit.encryption_client_to_server s)
  | Err (NoCommonCipher ServerToClient) => forall n,
      n ∈ NameList.names (KexInit.encryption_server_to_client c) ->
      n ∉ NameList.names (KexInit.encryption_server_to_client s)
  | Err (NoMacImplemented ClientToServer) => exists n, n <> algorithms.AES128_GCM_OPENSSH /\
      selected (NameList.names (KexInit.encryption_client_to_server c))
        (NameList.names (KexInit.encryption_client_to_server s)) n
  | Err (NoMacImplemented ServerToClient) => exists n, n <> algorithms.AES128_GCM_OPENSSH /\
      selected (NameList.names (KexInit.encryption_server_to_client c))
        (NameList.names (KexInit.encryption_server_to_client s)) n
  | Err (NoCommonCompression ClientToServer) => forall n,
      n ∈ NameList.names (KexInit.compression_client_to_server c) ->
      n ∉ NameList.names (KexInit.compression_client_to_server s)
  | Err (NoCommonCompression ServerToClient) => forall n,
      n ∈ NameList.names (KexInit.compression_server_to_client c) ->
      n ∉ NameList.names (KexInit.compression_server_to_client s)
  | Err (UnsupportedSelection _ _) => False
  end.
Proof. apply negotiate_errors. Qed.

(** [HostKeyAlgorithms::new] accepts exactly the non-empty lists without
    repetition, keeps their order, and never indexes outside its array;
    [preferred] lists exactly the verifiable schemes in preference order. *)
Theorem host_key_algorithms_exact (l : list SignatureScheme.t) (can_verify : SignatureScheme.t -> bool) :
  (exists r, HostKeyAlgorithms.new l = Some r /\
     (is_ok r = true <-> l <> [] /\ NoDup l) /\
     (forall a, r = Ok a -> HostKeyAlgorithms.as_slice a = l)) /\
  (exists o, HostKeyAlgorithms.preferred can_verify = Some o /\
     match o with
     | Some a => HostKeyAlgorithms.as_slice a = List.filter can_verify SignatureScheme.PREFERENCE
     | None => List.filter can_verify SignatureScheme.PREFERENCE = []
     end).
Proof.
  split.
  - destruct (host_key_algorithms_new l) as ([a|e] & Hr & Hspec); eexists; (split; [exact Hr|]); simpl.
    + naive_solver.
    + split; [|done]. split; [done|]. naive_solver.
  - destruct (preferred_spec can_verify) as (o & Ho & Hspec). exists o. split; [done|].
    destruct o; [apply Hspec|done].
Qed.

(** What our client offers is what it can run: the proposal always encodes
    (it fits the allocated buffer), the peer decodes exactly the offered lists,
    and whatever any server answers, a successful negotiation with it passes
    the profile check, selects curve25519-sha256, a host-key scheme the client
    offered, and strict KEX exactly when offered and answered in one spelling;
    MAC negotiation is never reached. *)
Theorem client_proposal_profile (p : ClientProposal.t) (s : KexInit.t) :
  proposal_ok p ->
  exists payload k, ClientProposal.encode p = Ok payload /\ KexInit.decode payload = Ok k /\
    KexInit.empty_algorithm_lists k = [] /\
    NameList.names (KexInit.kex_algorithms k) = ClientProposal.kex_algorithms p /\
    (forall n, negotiate k s = Ok n ->
       check_profile n = Ok tt /\ kex n = algorithms.CURVE25519_SHA256 /\
       (exists sch, host_key_scheme n = Some sch /\
          sch ∈ HostKeyAlgorithms.as_slice (ClientProposal.host_key_algorithms p)) /\
       (negotiated (strict_kex n) = true <-> ClientProposal.offer_strict_kex p = true /\
          (algorithms.KEX_STRICT_S_OPENSSH ∈ NameList.names (KexInit.kex_algorithms s) \/
           algorithms.KEX_STRICT_S ∈ NameList.names (KexInit.kex_algorithms s)))) /\
    (forall d, negotiate k s <> Err (NoMacImplemented d)).
Proof.
  intros Hp. exists (KexInit.image (proposal_kexinit p)), (proposal_kexinit p). split_and!.
  - by apply proposal_encode.
  - exact (codec_decode_image _ (proposal_kexinit_wf p Hp)).
  - by apply proposal_no_empty_list.
  - apply proposal_names.
  - intros n (Ho & Hs & _)%negotiate_ok_iff. destruct (proposal_profile p s n Ho) as (H1 & H2 & H3).
    split_and!; [done..|]. rewrite Hs, evaluate_negotiated. setoid_rewrite proposal_markers. split.
    + intros ([] & Hc & H); [split; [done|by right]|split; [done|by left]].
    + intros [Hc [H|H]]; [exists OpenSshV00|exists Standard]; done.
  - intros d Hd. pose proof (negotiate_errors (proposal_kexinit p) s) as H. rewrite Hd in H.
    destruct d; destruct H as (n & Hne & Hsel%selected_singleton); done.
Qed.

Definition example_proposal : ClientProposal.t :=
  ClientProposal.mk (replicate 16 x2a) true true HostKeyAlgorithms.ED25519_ONLY.

Lemma example_proposal_ok : proposal_ok example_proposal.
Proof. split; [done|]. by exists [SignatureScheme.Ed25519]. Qed.

Lemma client_proposal_profile_witness :
  exists payload k, ClientProposal.encode example_proposal = Ok payload /\ KexInit.decode payload = Ok k /\
    KexInit.empty_algorithm_lists k = [].
Proof.
  destruct (client_proposal_profile example_proposal kexinit_example example_proposal_ok)
    as (payload & k & H1 & H2 & H3 & _).
  exists payload, k. exact (conj H1 (conj H2 H3)).
Defined.
