(* ===== verification/Gcm.v ===== *)
(** * Protected packets

    Models crates/tatami_ssh_tcp/src/gcm.rs: sealing and opening packets with
    an AEAD under a counter nonce. The cipher ([Aes128Gcm] of the [aes_gcm]
    crate) and the padding generator ([RngCore]) are not part of the
    repository: they are the operations of the classes [Aead] and [Rng], and
    what the code relies on about them is [AeadLaws] and [RngLaws]. Both work
    on a buffer in place, so the buffer after the call is part of the result
    even when they fail. *)

From S2P Require Import Prelude Packet.

(** ** The provider interfaces *)

Class Aead (K : Type) := {
  (** [Aes128Gcm::new]. *)
  aead_new : bytes -> K;
  (** [encrypt_in_place_detached]: key, nonce, associated data, buffer. *)
  encrypt_in_place : K -> bytes -> bytes -> bytes -> bytes * option bytes;
  (** [decrypt_in_place_detached]: key, nonce, associated data, buffer, tag. *)
  decrypt_in_place : K -> bytes -> bytes -> bytes -> bytes -> bytes * bool
}.

(** The largest plaintext AES-GCM accepts ([P_MAX] of the crate). *)
Definition AEAD_P_MAX : Z := 2 ^ 36.

Class AeadLaws (K : Type) `{Aead K} : Prop := {
  encrypt_ok : forall k n a b, zlen b <= AEAD_P_MAX ->
    exists c t, encrypt_in_place k n a b = (c, Some t) /\ zlen c = zlen b /\ zlen t = 16;
  decrypt_len : forall k n a b t, zlen (fst (decrypt_in_place k n a b t)) = zlen b;
  decrypt_encrypt : forall k n a b c t,
    encrypt_in_place k n a b = (c, Some t) -> decrypt_in_place k n a c t = (b, true)
}.

(** [RngCore::fill_bytes] on a region of the given length. *)
Class Rng (R : Type) := { fill_bytes : R -> Z -> R * bytes }.

Class RngLaws (R : Type) `{Rng R} : Prop := {
  fill_len : forall r n, 0 <= n -> zlen (snd (fill_bytes r n)) = n
}.

(* tcp/gcm.rs:56-56 KEY_LEN *)
Definition KEY_LEN : Z := 16.

(* tcp/gcm.rs:58-58 NONCE_LEN *)
Definition NONCE_LEN : Z := 12.

(* tcp/gcm.rs:60-60 NONCE_FIXED_LEN *)
Definition NONCE_FIXED_LEN : Z := 4.

(* tcp/gcm.rs:62-62 TAG_LEN *)
Definition TAG_LEN : Z := 16.

(* tcp/gcm.rs:64-64 BLOCK_SIZE *)
Definition BLOCK_SIZE : Z := 16.

(* tcp/gcm.rs:66-66 MIN_PADDING *)
Definition GCM_MIN_PADDING : Z := 4.

(* tcp/gcm.rs:68-68 LENGTH_LEN *)
Definition LENGTH_LEN : Z := 4.

(* tcp/gcm.rs:71-71 MIN_PACKET_LENGTH *)
Definition MIN_PACKET_LENGTH : Z := BLOCK_SIZE.

(* tcp/gcm.rs:75-81 SealError *)
Inductive SealError : Type := SealPayloadTooLarge | SealCounterExhausted.

(* tcp/gcm.rs:97-128 OpenError *)
Inductive OpenError : Type :=
| OpenTooLarge (packet_length limit : Z)
| OpenTooSmall (packet_length : Z)
| OpenMisaligned (packet_length : Z)
| OpenBadPadding (packet_length padding_length : Z)
| TagMismatch
| OpenCounterExhausted.

(* tcp/gcm.rs:164-169 ProtectedPacket *)
Record ProtectedPacket : Type := mkProtectedPacket { prot_payload : bytes; prot_total_len : Z }.

(* tcp/gcm.rs:173-182 OpenStep *)
Inductive OpenStep : Type :=
| OpenNeedMore (total_len : option Z)
| OpenPacket (p : ProtectedPacket).

Module AeadDirection.
Section direction.
Context {K R : Type} `{Aead K, Rng R}.

(* tcp/gcm.rs:185-190 AeadDirection *)
Record t : Type := mk { cipher : K; fixed : bytes; counter : Z; packets : Z }.

(* tcp/gcm.rs:209-220 AeadDirection::from_parts *)
Definition from_parts (key iv : bytes) : t :=
  mk (aead_new key) (ztake NONCE_FIXED_LEN iv) (be_val (zdrop NONCE_FIXED_LEN iv)) 0.

(* tcp/gcm.rs:230-235 AeadDirection::next_nonce *)
Definition next_nonce (self : t) : bytes := fixed self ++ be_bytes 8 (counter self).

(* tcp/gcm.rs:239-241 AeadDirection::counter_available *)
Definition counter_available (self : t) : bool := negb (counter self =? U64_MAX).

(** The additions are those of [u64]; [dir_ok] below keeps them from wrapping. *)
(* tcp/gcm.rs:243-247 AeadDirection::advance *)
Definition advance (self : t) : t :=
  mk (cipher self) (fixed self) (counter self + 1) (packets self + 1).

(** The padding chosen for [unpadded] bytes. *)
(* tcp/gcm.rs:265-268 AeadDirection::seal *)
Definition seal_padding (unpadded : Z) : Z :=
  let padding := BLOCK_SIZE - unpadded mod BLOCK_SIZE in
  if padding <? GCM_MIN_PADDING then padding + BLOCK_SIZE else padding.

(* tcp/gcm.rs:251-293 AeadDirection::seal *)
Definition seal (self : t) (payload : bytes) (padding_rng : R) (out : bytes) :
    t * R * bytes * result Z SealError :=
  if negb (counter_available self) then (self, padding_rng, out, Err SealCounterExhausted)
  else
    match (let* unpadded := checked_add_usize (zlen payload) 1 in
           let padding := seal_padding unpadded in
           let* packet_length := checked_add_usize unpadded padding in
           let* length_field := u32_try_from packet_length in
           if U8_MAX <? padding then None else Some (padding, length_field)) with
    | None => (self, padding_rng, out, Err SealPayloadTooLarge)
    | Some (padding, length_field) =>
        let start := zlen out in
        let out := out ++ be_bytes 4 length_field in
        let out := out ++ [byte_of_Z padding] in
        let out := out ++ payload in
        let pad_start := zlen out in
        let '(rng, region) := fill_bytes padding_rng padding in
        let out := out ++ region in
        let aad := ztake LENGTH_LEN (zdrop start out) in
        let body := zdrop LENGTH_LEN (zdrop start out) in
        let '(body, tag) := encrypt_in_place (cipher self) (next_nonce self) aad body in
        let out := ztake start out ++ aad ++ body in
        match tag with
        | None => (self, rng, out, Err SealPayloadTooLarge)
        | Some tag =>
            let out := out ++ tag in
            (advance self, rng, out, Ok (zlen out - start))
        end
    end.

(* tcp/gcm.rs:298-356 AeadDirection::open *)
Definition open (self : t) (buf : bytes) (limits : PacketLimits) :
    t * bytes * result OpenStep OpenError :=
  if zlen buf <? LENGTH_LEN then (self, buf, Ok (OpenNeedMore None))
  else
    let packet_length := be_val (ztake 4 buf) in
    if max_packet_length limits <? packet_length then
      (self, buf, Err (OpenTooLarge packet_length (max_packet_length limits)))
    else if packet_length <? MIN_PACKET_LENGTH then (self, buf, Err (OpenTooSmall packet_length))
    else if negb (packet_length mod BLOCK_SIZE =? 0) then (self, buf, Err (OpenMisaligned packet_length))
    else
      match usize_try_from packet_length with
      | None => (self, buf, Err (OpenTooLarge packet_length (max_packet_length limits)))
      | Some body_len =>
          let total_len := LENGTH_LEN + body_len + TAG_LEN in
          if zlen buf <? total_len then (self, buf, Ok (OpenNeedMore (Some total_len)))
          else if negb (counter_available self) then (self, buf, Err OpenCounterExhausted)
          else
            let aad := ztake LENGTH_LEN buf in
            let rest := zdrop LENGTH_LEN buf in
            let body := ztake body_len rest in
            let rest := zdrop body_len rest in
            let tag := ztake TAG_LEN rest in
            let '(body, verified) := decrypt_in_place (cipher self) (next_nonce self) aad body tag in
            let buf := aad ++ body ++ rest in
            if negb verified then (self, buf, Err TagMismatch)
            else
              let self := advance self in
              let padding_length := u8 (default x00 (znth 0 body)) in
              match (let* n := checked_sub body_len 1 in
                     let* n := checked_sub n padding_length in
                     if GCM_MIN_PADDING <=? padding_length then Some n else None) with
              | None => (self, buf, Err (OpenBadPadding packet_length padding_length))
              | Some payload_len =>
                  (self, buf, Ok (OpenPacket (mkProtectedPacket (zslice 1 (1 + payload_len) body) total_len)))
              end
      end.

End direction.
Arguments t : clear implicits.
End AeadDirection.

Import AeadDirection.

(** ** Lemmas *)

Section gcm.
Context {K R : Type} `{AeadLaws K, RngLaws R}.
Implicit Types (self : AeadDirection.t K) (rng : R).

(** The counter and the packet count stay within [u64]. *)
Definition dir_ok self : Prop :=
  zlen (fixed self) = NONCE_FIXED_LEN /\ is_u64 (counter self) /\ 0 <= packets self <= counter self.

Lemma from_parts_ok key iv : zlen iv = NONCE_LEN -> dir_ok (from_parts (K:=K) key iv).
Proof.
  unfold NONCE_LEN, dir_ok, from_parts, NONCE_FIXED_LEN. simpl. intros Hiv.
  rewrite zlen_ztake by lia. pose proof (be_val_range (zdrop 4 iv)) as Hr.
  rewrite zlen_zdrop, Hiv in Hr by lia. unfold is_u64, U64_MAX.
  change (256 ^ (12 - 4)) with 18446744073709551616 in Hr. lia.
Qed.

Lemma advance_ok self : dir_ok self -> counter_available self = true -> dir_ok (advance self).
Proof.
  unfold dir_ok, counter_available, is_u64. intros (Hf & Hc & Hp) Ha%negb_true_iff%Z.eqb_neq. simpl.
  split_and!; try done; lia.
Qed.

Lemma seal_padding_spec n :
  0 <= n ->
  GCM_MIN_PADDING <= seal_padding n < GCM_MIN_PADDING + BLOCK_SIZE /\ (n + seal_padding n) mod BLOCK_SIZE = 0.
Proof.
  unfold seal_padding, BLOCK_SIZE, GCM_MIN_PADDING. intros Hn.
  pose proof (Z.div_mod n 16 ltac:(lia)) as Hd. pose proof (Z.mod_pos_bound n 16 ltac:(lia)).
  destruct (Z.ltb_spec (16 - n mod 16) 4); (split; [lia|]).
  - replace (n + (16 - n mod 16 + 16)) with ((n / 16 + 2) * 16) by lia. apply Z.mod_mul. lia.
  - replace (n + (16 - n mod 16)) with ((n / 16 + 1) * 16) by lia. apply Z.mod_mul. lia.
Qed.

(** [packet_length] of a sealed payload. *)
Definition sealed_length (payload : bytes) : Z := zlen payload + 1 + seal_padding (zlen payload + 1).

(** The plaintext body of a sealed payload. *)
Definition plain_body (payload pad : bytes) : bytes := [byte_of_Z (zlen pad)] ++ payload ++ pad.

Lemma sealed_length_spec payload :
  sealed_length payload mod BLOCK_SIZE = 0 /\ MIN_PACKET_LENGTH <= sealed_length payload /\
  zlen payload + 5 <= sealed_length payload <= zlen payload + 20.
Proof.
  unfold sealed_length, MIN_PACKET_LENGTH. pose proof (zlen_nonneg payload).
  destruct (seal_padding_spec (zlen payload + 1) ltac:(lia)) as [Hp Hm].
  unfold GCM_MIN_PADDING, BLOCK_SIZE in *. split_and!; [done| |lia|lia].
  pose proof (Z.div_mod (zlen payload + 1 + seal_padding (zlen payload + 1)) 16 ltac:(lia)). lia.
Qed.

(** Sealing, on every branch. *)
Lemma seal_spec self payload rng out :
  zlen payload <= USIZE_MAX - 20 ->
  exists rng' pad,
    fill_bytes rng (seal_padding (zlen payload + 1)) = (rng', pad) /\
    zlen pad = seal_padding (zlen payload + 1) /\
    seal self payload rng out =
    if negb (counter_available self) then (self, rng, out, Err SealCounterExhausted)
    else if U32_MAX <? sealed_length payload then (self, rng, out, Err SealPayloadTooLarge)
    else
      let '(c, t) := encrypt_in_place (cipher self) (next_nonce self)
        (be_bytes 4 (sealed_length payload)) (plain_body payload pad) in
      match t with
      | None => (self, rng', out ++ be_bytes 4 (sealed_length payload) ++ c, Err SealPayloadTooLarge)
      | Some t => (advance self, rng', out ++ be_bytes 4 (sealed_length payload) ++ c ++ t,
                   Ok (4 + zlen c + zlen t))
      end.
Proof.
  intros Hu. pose proof (zlen_nonneg payload).
  pose proof (seal_padding_spec (zlen payload + 1) ltac:(lia)) as [Hp _].
  unfold GCM_MIN_PADDING, BLOCK_SIZE in Hp.
  destruct (fill_bytes rng (seal_padding (zlen payload + 1))) as [rng' pad] eqn:Hfill.
  assert (zlen pad = seal_padding (zlen payload + 1)) as Hpad.
  { pose proof (fill_len rng (seal_padding (zlen payload + 1)) ltac:(lia)) as Hl. by rewrite Hfill in Hl. }
  exists rng', pad. split; [done|]. split; [done|]. unfold seal. destruct (negb _); [done|].
  unfold checked_add_usize, U8_MAX, USIZE_MAX in *.
  destruct (Z.leb_spec (zlen payload + 1) 18446744073709551615); [|lia]. cbn [mbind option_bind].
  destruct (Z.leb_spec (zlen payload + 1 + seal_padding (zlen payload + 1)) 18446744073709551615); [|lia].
  cbn [mbind option_bind]. fold (sealed_length payload). unfold u32_try_from.
  destruct (Z.leb_spec (sealed_length payload) U32_MAX), (Z.ltb_spec U32_MAX (sealed_length payload));
    try lia; [|done]. cbn [mbind option_bind].
  destruct (Z.ltb_spec 255 (seal_padding (zlen payload + 1))); [lia|]. rewrite Hfill. cbv zeta.
  rewrite <- Hpad. set (L := be_bytes 4 (sealed_length payload)).
  assert (zlen L = 4) as HL by apply zlen_be_bytes.
  assert ((((out ++ L) ++ [byte_of_Z (zlen pad)]) ++ payload) ++ pad = out ++ L ++ plain_body payload pad) as ->
    by (unfold plain_body; by rewrite <- !app_assoc).
  rewrite (zdrop_app_exact out), (ztake_app_exact out) by done. unfold LENGTH_LEN.
  rewrite (ztake_app_exact L), (zdrop_app_exact L) by done.
  destruct (encrypt_in_place _ _ _ _) as [c [t|]]; [|done]. rewrite <- !app_assoc. do 2 f_equal. zlia.
Qed.

(** A sealed packet as the receiver sees it. *)
Definition sealed_packet self (payload pkt : bytes) : Prop :=
  exists pad c t, zlen pad = seal_padding (zlen payload + 1) /\ zlen t = TAG_LEN /\
    zlen c = sealed_length payload /\
    encrypt_in_place (cipher self) (next_nonce self) (be_bytes 4 (sealed_length payload))
      (plain_body payload pad) = (c, Some t) /\
    pkt = be_bytes 4 (sealed_length payload) ++ c ++ t.

Lemma zlen_plain_body payload pad :
  zlen pad = seal_padding (zlen payload + 1) -> zlen (plain_body payload pad) = sealed_length payload.
Proof. intros Hp. unfold plain_body, sealed_length. zlia. Qed.

Lemma sealed_packet_len self payload pkt :
  sealed_packet self payload pkt -> zlen pkt = LENGTH_LEN + sealed_length payload + TAG_LEN.
Proof.
  intros (pad & c & t & _ & Ht & Hc & _ & ->). rewrite !zlen_app, zlen_be_bytes, Hc, Ht. unfold LENGTH_LEN. lia.
Qed.

(** A successful seal appends one sealed packet and advances once. *)
Lemma seal_Ok self payload rng out self' rng' out' n :
  zlen payload <= USIZE_MAX - 20 ->
  seal self payload rng out = (self', rng', out', Ok n) ->
  counter_available self = true /\ self' = advance self /\ sealed_length payload <= U32_MAX /\
  exists pkt, out' = out ++ pkt /\ n = zlen pkt /\ sealed_packet self payload pkt.
Proof.
  intros Hu. destruct (seal_spec self payload rng out Hu) as (r1 & pad & _ & Hpad & ->).
  destruct (counter_available self); cbn [negb]; [|done].
  destruct (Z.ltb_spec U32_MAX (sealed_length payload)); [done|].
  destruct (encrypt_ok (cipher self) (next_nonce self) (be_bytes 4 (sealed_length payload))
    (plain_body payload pad)) as (c & t & He & Hc & Ht).
  { rewrite zlen_plain_body by done. unfold U32_MAX, AEAD_P_MAX in *. lia. }
  rewrite He. intros Heq. apply pair_equal_spec in Heq as [Heq <-%Ok_inj].
  apply pair_equal_spec in Heq as [Heq <-]. apply pair_equal_spec in Heq as [<- <-].
  split_and!; [done..|]. eexists. split; [done|]. split; [rewrite !zlen_app, zlen_be_bytes; lia|].
  exists pad, c, t. rewrite zlen_plain_body in Hc by done. by split_and!.
Qed.

(** When a seal goes through. *)
Lemma seal_succeeds self payload rng out :
  counter_available self = true -> sealed_length payload <= U32_MAX ->
  exists self' rng' out' n, seal self payload rng out = (self', rng', out', Ok n).
Proof.
  intros Ha Hl. destruct (sealed_length_spec payload) as (_ & _ & Hs).
  destruct (seal_spec self payload rng out) as (r1 & pad & _ & Hpad & ->).
  { unfold U32_MAX, USIZE_MAX in *. lia. }
  rewrite Ha. cbn [negb]. destruct (Z.ltb_spec U32_MAX (sealed_length payload)); [lia|].
  destruct (encrypt_ok (cipher self) (next_nonce self) (be_bytes 4 (sealed_length payload))
    (plain_body payload pad)) as (c & t & -> & _ & _); [|eauto].
  rewrite zlen_plain_body by done. unfold U32_MAX, AEAD_P_MAX in *. lia.
Qed.

(** The receiver opens a sealed packet wherever the reads end behind it. *)
Lemma open_sealed self payload pkt rest limits :
  sealed_packet self payload pkt -> counter_available self = true ->
  sealed_length payload <= U32_MAX -> sealed_length payload <= max_packet_length limits ->
  exists buf', open self (pkt ++ rest) limits =
    (advance self, buf' ++ rest, Ok (OpenPacket (mkProtectedPacket payload (zlen pkt)))) /\
    zlen buf' = zlen pkt.
Proof.
  intros Hs Ha Hu Hm. pose proof (sealed_packet_len _ _ _ Hs) as Hlen.
  destruct Hs as (pad & c & t & Hpad & Ht & Hc & He & ->).
  destruct (sealed_length_spec payload) as (Hmod & Hmin & Hb). pose proof (zlen_nonneg rest). pose proof (zlen_nonneg payload).
  pose proof (decrypt_encrypt _ _ _ _ _ _ He) as Hd. unfold LENGTH_LEN, TAG_LEN in *.
  set (L := be_bytes 4 (sealed_length payload)) in *. assert (zlen L = 4) as HL by apply zlen_be_bytes.
  assert (0 <= sealed_length payload) as Hnn by (pose proof (zlen_nonneg payload); lia).
  exists (L ++ plain_body payload pad ++ t).
  split; [|rewrite Hlen, !zlen_app, zlen_plain_body by done; lia].
  unfold open. rewrite zlen_app, Hlen. unfold LENGTH_LEN, TAG_LEN.
  destruct (Z.ltb_spec (4 + sealed_length payload + 16 + zlen rest) 4); [lia|].
  rewrite <- !app_assoc, (ztake_app_exact L), (zdrop_app_exact L) by done.
  assert (be_val L = sealed_length payload) as HvL by (apply be_bytes_4; unfold is_u32; lia).
  cbv zeta. rewrite !HvL.
  destruct (Z.ltb_spec (max_packet_length limits) (sealed_length payload)); [lia|].
  destruct (Z.ltb_spec (sealed_length payload) MIN_PACKET_LENGTH); [lia|].
  rewrite Hmod. cbn [negb Z.eqb]. rewrite usize_try_from_small by lia.
  destruct (Z.ltb_spec (4 + sealed_length payload + 16 + zlen rest) (4 + sealed_length payload + 16)); [lia|].
  rewrite Ha. cbn [negb].
  rewrite (ztake_app_exact c), (zdrop_app_exact c), (ztake_app_exact t) by done. rewrite Hd. cbn [negb].
  destruct (seal_padding_spec (zlen payload + 1) ltac:(pose proof (zlen_nonneg payload); lia)) as [Hp _].
  unfold GCM_MIN_PADDING, BLOCK_SIZE in *.
  change (default x00 (znth 0 (plain_body payload pad))) with (byte_of_Z (zlen pad)).
  rewrite u8_byte_of_Z, Z.mod_small by lia. unfold checked_sub, sealed_length.
  destruct (Z.leb_spec 1 (zlen payload + 1 + seal_padding (zlen payload + 1))); [|lia]. cbn [mbind option_bind].
  destruct (Z.leb_spec (zlen pad) (zlen payload + 1 + seal_padding (zlen payload + 1) - 1)); [|lia].
  cbn [mbind option_bind]. destruct (Z.leb_spec 4 (zlen pad)); [|lia]. f_equal. do 2 f_equal.
  unfold plain_body. apply f_equal2; [|done]. apply zslice_app_exact; [done|]. zlia.
Qed.

(** ** Sequences of packets *)

(** Sealing payloads one after another into one output buffer. *)
Fixpoint seal_all self (payloads : list bytes) rng (out : bytes) :
    AeadDirection.t K * R * bytes * result unit SealError :=
  match payloads with
  | [] => (self, rng, out, Ok tt)
  | p :: ps =>
      match seal self p rng out with
      | (self, rng, out, Ok _) => seal_all self ps rng out
      | (self, rng, out, Err e) => (self, rng, out, Err e)
      end
  end.

(** Opening [n] packets, consuming each from the front of the buffer. *)
Fixpoint open_all (n : nat) self (buf : bytes) (limits : PacketLimits) :
    AeadDirection.t K * bytes * option (list bytes) :=
  match n with
  | O => (self, buf, Some [])
  | S n' =>
      match open self buf limits with
      | (self, buf, Ok (OpenPacket p)) =>
          let '(self, buf, r) := open_all n' self (zdrop (prot_total_len p) buf) limits in
          (self, buf, (fun l => prot_payload p :: l) <$> r)
      | (self, buf, _) => (self, buf, None)
      end
  end.

(** Two ends of one direction. *)
Definition in_step (s r : AeadDirection.t K) : Prop :=
  cipher s = cipher r /\ fixed s = fixed r /\ counter s = counter r.

Lemma sealed_packet_in_step s r payload pkt :
  in_step s r -> sealed_packet s payload pkt -> sealed_packet r payload pkt.
Proof. intros (Hc & Hf & Hn). unfold sealed_packet, next_nonce. by rewrite Hc, Hf, Hn. Qed.

Lemma stream_roundtrip ps : forall s r rng out s' rng' out' rest limits,
  in_step s r ->
  Forall (fun p => sealed_length p <= U32_MAX /\ sealed_length p <= max_packet_length limits) ps ->
  seal_all s ps rng out = (s', rng', out', Ok tt) ->
  exists r' wire, out' = out ++ wire /\ open_all (length ps) r (wire ++ rest) limits = (r', rest, Some ps) /\
    in_step s' r' /\ counter s' = counter s + zlen ps.
Proof.
  induction ps as [|p ps IH]; intros s r rng out s' rng' out' rest limits Hst Hps.
  { simpl. intros [= <- <- <-]. exists r, []. rewrite app_nil_r, zlen_nil. split_and!; try done; try apply Hst. lia. }
  apply Forall_cons in Hps as [[Hu Hm] Hps]. cbn [seal_all].
  destruct (seal s p rng out) as [[[s1 r1] o1] [n|e]] eqn:Es; [|done].
  assert (zlen p <= USIZE_MAX - 20) as Hz.
  { destruct (sealed_length_spec p) as (_ & _ & Hb). unfold U32_MAX, USIZE_MAX in *. lia. }
  destruct (seal_Ok _ _ _ _ _ _ _ _ Hz Es) as (Ha & -> & _ & pkt & -> & -> & Hpkt).
  assert (in_step (advance s) (advance r)) as Hst1.
  { destruct Hst as (? & ? & Hn). unfold in_step; simpl. rewrite Hn. done. }
  intros Hrest. destruct (IH _ (advance r) _ _ _ _ _ rest limits Hst1 Hps Hrest)
    as (r' & wire & -> & Hopen & Hst' & Hcnt).
  exists r', (pkt ++ wire). rewrite <- !app_assoc. split; [done|]. cbn [open_all length].
  assert (counter_available r = true) as Hra.
  { unfold counter_available in *. destruct Hst as (_ & _ & <-). done. }
  destruct (open_sealed r p pkt (wire ++ rest) limits (sealed_packet_in_step _ _ _ _ Hst Hpkt) Hra Hu Hm)
    as (buf' & -> & Hbl). cbn [prot_total_len prot_payload].
  rewrite zdrop_app_exact by done. rewrite Hopen. cbn [fmap option_fmap option_map].
  split_and!; try done; try apply Hst'. simpl in Hcnt. zlia.
Qed.

(** ** Nonces *)

Lemma next_nonce_inj (s s' : AeadDirection.t K) :
  fixed s = fixed s' -> is_u64 (counter s) -> is_u64 (counter s') ->
  next_nonce (K:=K) s = next_nonce s' -> counter s = counter s'.
Proof.
  unfold next_nonce. intros -> Hs Hs' Heq%app_inv_head.
  rewrite <- (be_bytes_8 (counter s)), <- (be_bytes_8 (counter s')) by done. by rewrite Heq.
Qed.

(** The nonces of [n] packets from the counter [c] on. *)
Fixpoint nonces (fixed : bytes) (c : Z) (n : nat) : list bytes :=
  match n with
  | O => []
  | S n => (fixed ++ be_bytes 8 c) :: nonces fixed (c + 1) n
  end.

Lemma nonces_range f c n x : x ∈ nonces f c n -> exists d, c <= d < c + Z.of_nat n /\ x = f ++ be_bytes 8 d.
Proof.
  revert c. induction n as [|n IH]; intros c; cbn [nonces]; [by intros ?%elem_of_nil|].
  rewrite elem_of_cons. intros [->|(d & ? & ->)%IH]; [exists c|exists d]; (split; [lia|done]).
Qed.

Lemma nonces_NoDup f c n : 0 <= c -> c + Z.of_nat n <= U64_MAX -> NoDup (nonces f c n).
Proof.
  revert c. induction n as [|n IH]; intros c Hc Hn; cbn [nonces]; constructor; [|apply IH; lia].
  intros (d & Hd & Heq%app_inv_head%(f_equal be_val))%nonces_range. unfold U64_MAX in *.
  rewrite !be_bytes_8 in Heq by (unfold is_u64, U64_MAX; lia). lia.
Qed.

(** What opening does to the nonce state. *)
Lemma open_state self buf limits self' buf' r :
  open self buf limits = (self', buf', r) ->
  self' = self \/ self' = advance self /\ counter_available self = true.
Proof.
  unfold open. intros Ho.
  repeat (match type of Ho with
          | (if ?b then _ else _) = _ => destruct b eqn:?
          | (match ?o with Some _ => _ | None => _ end) = _ => destruct o
          | (let '(_, _) := ?d in _) = _ => destruct d
          end; try (apply pair_equal_spec in Ho as [[<- _]%pair_equal_spec _]; by left)).
  all: apply pair_equal_spec in Ho as [[<- _]%pair_equal_spec _]; right; (split; [done|]);
    by destruct (counter_available self).
Qed.

(** What sealing does to it. *)
Lemma seal_state (s s1 : AeadDirection.t K) p rng rng1 out out1 r :
  seal s p rng out = (s1, rng1, out1, r) ->
  match r with Ok _ => s1 = advance s /\ counter_available s = true | Err _ => s1 = s end.
Proof.
  unfold seal. destruct (counter_available s) eqn:Ha; cbn [negb]; [|by intros [= <- _ _ <-]].
  destruct (mbind _ _) as [[pad lf]|]; [|by intros [= <- _ _ <-]].
  destruct (fill_bytes rng pad) as [r2 region]. cbv zeta.
  destruct (encrypt_in_place _ _ _ _) as [body [tag|]]; by intros [= <- _ _ <-].
Qed.

(** [body] and [tag] at the front of [buf] verify under the nonce [n] and
    decrypt to [plain]. *)
Definition verifies (k : K) (n buf plain : bytes) : Prop :=
  exists L body tag rest, buf = L ++ body ++ tag ++ rest /\ zlen L = LENGTH_LEN /\ be_val L = zlen body /\
    zlen tag = TAG_LEN /\ decrypt_in_place k n L body tag = (plain, true).

(** Opening, on every branch. *)
Lemma open_spec self buf limits :
  match open self buf limits with
  | (self', buf', Ok (OpenNeedMore None)) => self' = self /\ buf' = buf /\ zlen buf < LENGTH_LEN
  | (self', buf', Ok (OpenNeedMore (Some n))) =>
      self' = self /\ buf' = buf /\ zlen buf < n /\ n = LENGTH_LEN + be_val (ztake 4 buf) + TAG_LEN /\
      be_val (ztake 4 buf) <= max_packet_length limits
  | (self', buf', Err TagMismatch) => self' = self /\ zlen buf' = zlen buf
  | (self', buf', Ok (OpenPacket p)) =>
      exists L body tag rest plain n,
        buf = L ++ body ++ tag ++ rest /\ buf' = L ++ plain ++ tag ++ rest /\
        zlen L = LENGTH_LEN /\ be_val L = zlen body /\ zlen tag = TAG_LEN /\ zlen plain = zlen body /\
        zlen body <= max_packet_length limits /\ zlen body mod BLOCK_SIZE = 0 /\
        decrypt_in_place (cipher self) (next_nonce self) L body tag = (plain, true) /\
        self' = advance self /\ prot_total_len p = LENGTH_LEN + zlen body + TAG_LEN /\
        znth 0 plain = Some (byte_of_Z n) /\ GCM_MIN_PADDING <= n <= U8_MAX /\
        prot_payload p = zslice 1 (zlen body - n) plain
  | (self', buf', Err (OpenBadPadding _ _)) =>
      self' = advance self /\ zlen buf' = zlen buf /\ exists plain, verifies (cipher self) (next_nonce self) buf plain
  | (self', buf', Err _) => self' = self /\ buf' = buf
  end.
Proof.
  unfold open, verifies, LENGTH_LEN, TAG_LEN. destruct (Z.ltb_spec (zlen buf) 4) as [|H4]; [done|].
  destruct (zsplit 4 buf) as (L & b1 & -> & HL); [lia|]. rewrite (ztake_app_exact L), (zdrop_app_exact L) by done.
  destruct (be_val_4_range L HL) as [Hr0 Hr1]. cbv zeta. set (N := be_val L) in *.
  destruct (Z.ltb_spec (max_packet_length limits) N); [done|].
  destruct (Z.ltb_spec N MIN_PACKET_LENGTH) as [|Hmin]; [done|]. unfold MIN_PACKET_LENGTH in Hmin.
  destruct (Z.eqb_spec (N mod BLOCK_SIZE) 0) as [Hal|]; [|done]. cbn [negb].
  rewrite usize_try_from_small by lia.
  destruct (Z.ltb_spec (zlen (L ++ b1)) (4 + N + 16)) as [|Hlen]; [by split_and!; try lia|].
  rewrite zlen_app in Hlen. destruct (counter_available self); cbn [negb]; [|done].
  destruct (zsplit N b1) as (body & b2 & -> & Hbody); [lia|]. rewrite zlen_app in Hlen.
  rewrite (ztake_app_exact body), (zdrop_app_exact body) by done.
  destruct (zsplit 16 b2) as (tag & rest & -> & Htag); [lia|]. rewrite (ztake_app_exact tag) by done.
  pose proof (decrypt_len (cipher self) (next_nonce self) L body tag) as Hdl.
  destruct (decrypt_in_place (cipher self) (next_nonce self) L body tag) as [plain v] eqn:Hd. cbn [fst] in Hdl.
  destruct v; cbn [negb]; [|split; [done|rewrite !zlen_app, Hdl; done]].
  assert (zlen (L ++ plain ++ tag ++ rest) = zlen (L ++ body ++ tag ++ rest)) as Hsame by (rewrite !zlen_app, Hdl; done).
  assert (exists plain, verifies (cipher self) (next_nonce self) (L ++ body ++ tag ++ rest) plain) as Hver
    by (exists plain, L, body, tag, rest; by split_and!).
  unfold BLOCK_SIZE in Hmin. destruct plain as [|x plain]; [rewrite zlen_nil in Hdl; lia|].
  change (default x00 (znth 0 (x :: plain))) with x. pose proof (u8_range x) as Hx. unfold checked_sub.
  destruct (Z.leb_spec 1 N); [|lia]. cbn [mbind option_bind].
  destruct (Z.leb_spec (u8 x) (N - 1)); cbn [mbind option_bind];
    [|done].
  destruct (Z.leb_spec GCM_MIN_PADDING (u8 x)); [|done].
  exists L, body, tag, rest, (x :: plain), (u8 x). rewrite byte_of_Z_u8. unfold U8_MAX. cbn [prot_total_len prot_payload].
  split_and!; try done; try lia; try (by rewrite Hbody). f_equal. lia.
Qed.

(** A packet that went through one direction: a payload sealed behind [out],
    giving [out'], or the packet at the front of [buf] opened; its payload is
    absent when the padding was bad. *)
Inductive Processed : Type :=
| Sealed (payload out out' : bytes)
| Opened (buf : bytes) (payload : option bytes).

(** What an open call let through. *)
Definition released (buf : bytes) (r : result OpenStep OpenError) : list Processed :=
  match r with
  | Ok (OpenPacket p) => [Opened buf (Some (prot_payload p))]
  | Err (OpenBadPadding _ _) => [Opened buf None]
  | _ => []
  end.

(** Any sequence of seal and open calls on one direction, with the packets that
    were sealed or opened, whatever state each call left. *)
Inductive uses : AeadDirection.t K -> list Processed -> AeadDirection.t K -> Prop :=
| uses_nil s : uses s [] s
| uses_seal s p rng out s1 rng1 out1 n ps s2 :
    seal s p rng out = (s1, rng1, out1, Ok n) -> uses s1 ps s2 -> uses s (Sealed p out out1 :: ps) s2
| uses_seal_refused s p rng out s1 rng1 out1 e ps s2 :
    seal s p rng out = (s1, rng1, out1, Err e) -> uses s1 ps s2 -> uses s ps s2
| uses_open s buf limits buf1 r s1 ps s2 :
    open s buf limits = (s1, buf1, r) -> uses s1 ps s2 -> uses s (released buf r ++ ps) s2.

(** The packet is what the cipher made of it, or verified, under the nonce [n]. *)
Definition under (k : K) (n : bytes) (p : Processed) : Prop :=
  match p with
  | Sealed payload out out' => exists pad c t,
      encrypt_in_place k n (be_bytes 4 (sealed_length payload)) (plain_body payload pad) = (c, Some t) /\
      out' = out ++ be_bytes 4 (sealed_length payload) ++ c ++ t
  | Opened buf payload => exists plain, verifies k n buf plain /\
      match payload with
      | None => True
      | Some payload => exists pad, znth 0 plain = Some (byte_of_Z pad) /\ GCM_MIN_PADDING <= pad <= U8_MAX /\
          payload = zslice 1 (zlen plain - pad) plain
      end
  end.

(** A seal that succeeds fits. *)
Lemma seal_fits self payload rng out self' rng' out' n :
  seal self payload rng out = (self', rng', out', Ok n) -> zlen payload <= USIZE_MAX - 20.
Proof.
  unfold seal. destruct (negb _); [done|]. unfold checked_add_usize, u32_try_from.
  destruct (_ <=? _); cbn [mbind option_bind]; [|done]. destruct (_ <=? _); cbn [mbind option_bind]; [|done].
  pose proof (seal_padding_spec (zlen payload + 1) ltac:(pose proof (zlen_nonneg payload); lia)) as [Hp _].
  destruct (Z.leb_spec (zlen payload + 1 + seal_padding (zlen payload + 1)) U32_MAX); cbn [mbind option_bind]; [|done].
  intros _. unfold U32_MAX, USIZE_MAX, GCM_MIN_PADDING in *. lia.
Qed.

Lemma seal_under self payload rng out self' rng' out' r :
  seal self payload rng out = (self', rng', out', r) ->
  match r with
  | Ok _ => self' = advance self /\ counter_available self = true /\
      under (cipher self) (next_nonce self) (Sealed payload out out')
  | Err _ => self' = self
  end.
Proof.
  intros Hs. destruct r as [n|e].
  - destruct (seal_Ok _ _ _ _ _ _ _ _ (seal_fits _ _ _ _ _ _ _ _ Hs) Hs) as (Ha & -> & _ & pkt & -> & _ & pad & c & t & _ & _ & _ & He & ->).
    split_and!; [done|done|]. by exists pad, c, t.
  - exact (seal_state _ _ _ _ _ _ _ _ Hs).
Qed.

Lemma open_under self buf limits self' buf' r :
  open self buf limits = (self', buf', r) ->
  (self' = self /\ released buf r = []) \/
  (self' = advance self /\ exists p, released buf r = [p] /\ under (cipher self) (next_nonce self) p).
Proof.
  intros Ho. pose proof (open_spec self buf limits) as Hs. rewrite Ho in Hs.
  destruct r as [[[|]|p]|[]]; cbn [released]; try (left; by destruct Hs).
  - destruct Hs as (L & body & tag & rest & plain & n & -> & _ & HL & Hb & Ht & Hpl & _ & _ & Hd & -> & _ & Hn & Hr & Hp).
    right. split; [done|]. eexists. split; [done|]. exists plain. split; [by exists L, body, tag, rest|].
    exists n. rewrite Hpl. done.
  - destruct Hs as (-> & _ & plain & Hv). right. split; [done|]. eexists. split; [done|]. by exists plain.
Qed.

Lemma uses_spec (s s' : AeadDirection.t K) ps :
  uses s ps s' -> dir_ok s ->
  dir_ok s' /\ cipher s' = cipher s /\ fixed s' = fixed s /\
  counter s' = counter s + zlen ps /\ packets s' = packets s + zlen ps /\
  Forall2 (under (cipher s)) (nonces (fixed s) (counter s) (length ps)) ps.
Proof.
  induction 1 as [s|s p rng out s1 rng1 out1 n ps s2 Hs Hu IH|s p rng out s1 rng1 out1 e ps s2 Hs Hu IH
    |s buf limits buf1 r s1 ps s2 Ho Hu IH]; intros Hok.
  - rewrite zlen_nil. split_and!; try done; try lia; constructor.
  - apply seal_under in Hs as (-> & Ha & Hp). destruct (IH (advance_ok s Hok Ha)) as (?&?&?&?&?&?).
    cbn [advance cipher fixed counter packets] in *. rewrite zlen_cons. split_and!; try done; try lia. by constructor.
  - apply seal_state in Hs as ->. by apply IH.
  - destruct (open_under _ _ _ _ _ _ Ho) as [[-> ->]|(-> & p & -> & Hp)]; [by apply IH|].
    destruct (open_state _ _ _ _ _ _ Ho) as [Hs|[_ Ha]]; [apply (f_equal counter) in Hs; simpl in Hs; lia|].
    destruct (IH (advance_ok s Hok Ha)) as (?&?&?&?&?&?).
    cbn [advance cipher fixed counter packets app] in *. rewrite zlen_cons. split_and!; try done; try lia. by constructor.
Qed.
End gcm.

(** ** A transparent provider

    A cipher that leaves the text alone and a generator of zero bytes: concrete
    operations that satisfy the laws. *)

Definition null_tag : bytes := replicate 16 x5a.

#[export] Instance null_aead : Aead unit := {
  aead_new _ := tt;
  encrypt_in_place _ _ _ b := (b, Some null_tag);
  decrypt_in_place _ _ _ b t := (b, bytes_eqb t null_tag)
}.

#[export] Instance null_aead_laws : AeadLaws unit.
Proof.
  split.
  - intros. by exists b, null_tag.
  - done.
  - intros ? ? ? ? ? ? [= -> <-]. done.
Qed.

#[export] Instance zero_rng : Rng unit := { fill_bytes _ n := (tt, replicate (Z.to_nat n) x00) }.

#[export] Instance zero_rng_laws : RngLaws unit.
Proof. split. intros r n Hn. simpl. unfold zlen. rewrite length_replicate. lia. Qed.

(** ** Properties *)

(** C23: protected traffic is delivered: whatever sequence of payloads the sender
    seals, a receiver with the same key, fixed field and counter that opens the
    resulting bytes one packet at a time recovers exactly those payloads in
    order, leaves what follows them untouched, and stays in step with the
    sender, for every cipher that decrypts what it encrypted. *)
Theorem protected_stream_roundtrip {K R : Type} `{AeadLaws K, RngLaws R}
    (s r s' : AeadDirection.t K) (rng rng' : R) (payloads : list bytes) (out' rest : bytes)
    (limits : PacketLimits) :
  in_step s r ->
  Forall (fun p => sealed_length p <= U32_MAX /\ sealed_length p <= max_packet_length limits) payloads ->
  seal_all s payloads rng [] = (s', rng', out', Ok tt) ->
  exists r', open_all (length payloads) r (out' ++ rest) limits = (r', rest, Some payloads) /\
    in_step s' r' /\ counter s' = counter s + zlen payloads.
Proof.
  intros Hst Hps Hs. destruct (stream_roundtrip payloads s r rng [] s' rng' out' rest limits Hst Hps Hs)
    as (r' & wire & -> & Ho & Hst' & Hc). eauto.
Qed.

Lemma protected_stream_roundtrip_witness :
  let d := from_parts (K:=unit) [] (replicate 12 x00) in
  exists s' out' r', seal_all (R:=unit) d [[x15]; [x01; x02]] tt [] = (s', tt, out', Ok tt) /\
    open_all 2 d (out' ++ [x09]) PacketLimits_default = (r', [x09], Some [[x15]; [x01; x02]]).
Proof.
  intros d. eexists _, _.
  destruct (protected_stream_roundtrip (R:=unit) d d _ tt _ [[x15]; [x01; x02]] _ [x09] PacketLimits_default
    ltac:(done) ltac:(repeat constructor; vm_compute; discriminate) eq_refl) as (r' & Ho & _).
  exists r'. split; [reflexivity|exact Ho].
Defined.

(** C25: a nonce is never used for two packets and the counter never wraps:
    over any sequence of seal and open calls, failed ones included, and for
    every cipher, the bytes a seal appends are the cipher's output, and a packet
    an open lets through was verified by the cipher, under the direction's fixed
    field followed by the counter, one value per packet from the initial counter
    on; these nonces are pairwise distinct, and the counter and the packet count
    grow by exactly the number of packets and stay within 64 bits. *)
Theorem nonces_never_repeat {K R : Type} `{AeadLaws K, RngLaws R} (s s' : AeadDirection.t K) (ps : list Processed) :
  dir_ok s -> uses (R:=R) s ps s' ->
  let ns := nonces (fixed s) (counter s) (length ps) in
  Forall2 (under (cipher s)) ns ps /\ NoDup ns /\ counter s' = counter s + zlen ps /\
  packets s' = packets s + zlen ps /\ counter s' <= U64_MAX.
Proof.
  intros Hok Hu. destruct (uses_spec s s' ps Hu Hok) as ((_ & [Hc0 Hc] & _) & _ & _ & Hcnt & Hp & Hall).
  destruct Hok as (_ & [? ?] & _). split_and!; try done. apply nonces_NoDup; unfold zlen in *; lia.
Qed.

(** A packet sealed twice, and the second one opened by its sender's direction:
    three nonces. *)
Lemma nonces_never_repeat_witness :
  let d := from_parts (K:=unit) [] (replicate 12 x00) in
  exists ps s', uses (R:=unit) d ps s' /\ length ps = 3%nat /\ NoDup (nonces (fixed d) (counter d) 3) /\ counter s' = 3.
Proof.
  intros d.
  assert (exists ps s', uses (R:=unit) d ps s' /\ length ps = 3%nat) as (ps & s' & Hu & Hl).
  { eexists _, _. split; [|shelve].
    eapply (uses_seal d [x15] tt []); [vm_compute; reflexivity|].
    eapply (uses_seal _ [x15] tt []); [vm_compute; reflexivity|].
    eapply (uses_open _ (be_bytes 4 16 ++ byte_of_Z 14 :: x15 :: replicate 14 x00 ++ null_tag) PacketLimits_default);
      [vm_compute; reflexivity|]. apply uses_nil. Unshelve. reflexivity. }
  exists ps, s'. split; [exact Hu|]. split; [exact Hl|].
  destruct (nonces_never_repeat (R:=unit) d s' ps (from_parts_ok [] (replicate 12 x00) eq_refl) Hu) as (_ & Hn & Hc & _).
  rewrite Hl in Hn. split; [exact Hn|]. rewrite Hc. unfold zlen. rewrite Hl. reflexivity.
Defined.

(** Sealing succeeds exactly when it may: it refuses with the counter at
    its last value, refuses a payload whose framed length exceeds 32 bits, and
    in both cases changes nothing; otherwise it appends exactly one aligned
    packet of the reported size behind the bytes already in the buffer and
    advances the counter once. *)
Theorem seal_exact {K R : Type} `{AeadLaws K, RngLaws R} (s : AeadDirection.t K) (payload out : bytes) (rng : R) :
  zlen payload <= USIZE_MAX - 20 ->
  match seal s payload rng out with
  | (s', rng', out', Err SealCounterExhausted) =>
      s' = s /\ rng' = rng /\ out' = out /\ counter s = U64_MAX
  | (s', rng', out', Err SealPayloadTooLarge) =>
      s' = s /\ rng' = rng /\ out' = out /\ counter s <> U64_MAX /\ U32_MAX < sealed_length payload
  | (s', rng', out', Ok n) =>
      counter s <> U64_MAX /\ sealed_length payload <= U32_MAX /\ s' = advance s /\
      n = LENGTH_LEN + sealed_length payload + TAG_LEN /\ sealed_length payload mod BLOCK_SIZE = 0 /\
      exists pkt, out' = out ++ pkt /\ zlen pkt = n /\ ztake 4 pkt = be_bytes 4 (sealed_length payload)
  end.
Proof.
  intros Hu. destruct (seal s payload rng out) as [[[s' rng'] out'] [n|e]] eqn:Es.
  - destruct (seal_Ok _ _ _ _ _ _ _ _ Hu Es) as (Ha & -> & Hl & pkt & -> & -> & Hpkt).
    apply negb_true_iff, Z.eqb_neq in Ha. pose proof (sealed_packet_len _ _ _ Hpkt) as Hlen.
    destruct (sealed_length_spec payload) as (Hm & _). split_and!; try done. exists pkt. split_and!; try done.
    destruct Hpkt as (pad & c & t & _ & _ & _ & _ & ->). apply ztake_app_exact. by rewrite zlen_be_bytes.
  - destruct (seal_spec s payload rng out Hu) as (r1 & pad & _ & Hpad & Hsp). rewrite Es in Hsp.
    unfold counter_available in Hsp. rewrite negb_involutive in Hsp.
    destruct (Z.eqb_spec (counter s) U64_MAX) as [Hc|Hc].
    { apply pair_equal_spec in Hsp as [Hsp [= ->]]. by simplify_eq. }
    destruct (Z.ltb_spec U32_MAX (sealed_length payload)).
    { apply pair_equal_spec in Hsp as [Hsp [= ->]]. by simplify_eq. }
    destruct (encrypt_ok (cipher s) (next_nonce s) (be_bytes 4 (sealed_length payload)) (plain_body payload pad))
      as (c & t & He & _ & _).
    { rewrite zlen_plain_body by done. unfold U32_MAX, AEAD_P_MAX in *. lia. }
    rewrite He in Hsp. by apply pair_equal_spec in Hsp as [_ Hsp].
Qed.

Lemma seal_exact_witness :
  let d := from_parts (K:=unit) [] (replicate 12 xff) in
  seal (R:=unit) d [x15] tt [x01] = (d, tt, [x01], Err SealCounterExhausted) /\ counter d = U64_MAX.
Proof.
  intros d. split; [reflexivity|].
  exact (proj2 (proj2 (proj2 (seal_exact (R:=unit) d [x15] [x01] tt ltac:(vm_compute; discriminate))))).
Defined.

(** A protected packet is released only when verified: a payload is
    returned only if the cipher verified the tag over exactly the clear length
    and the body that arrived, under the current nonce, and it is the decrypted
    body without its padding; a length that is too large, too small or
    misaligned is refused from the first four bytes; waiting or refusing
    changes neither buffer nor counter, and a tag failure does not advance. *)
Theorem open_only_verified {K : Type} `{AeadLaws K} (s : AeadDirection.t K) (buf : bytes)
    (limits : PacketLimits) :
  match open s buf limits with
  | (s', buf', Ok (OpenNeedMore None)) => s' = s /\ buf' = buf /\ zlen buf < LENGTH_LEN
  | (s', buf', Ok (OpenNeedMore (Some n))) =>
      s' = s /\ buf' = buf /\ zlen buf < n /\ n = LENGTH_LEN + be_val (ztake 4 buf) + TAG_LEN /\
      be_val (ztake 4 buf) <= max_packet_length limits
  | (s', buf', Err TagMismatch) => s' = s /\ zlen buf' = zlen buf
  | (s', buf', Ok (OpenPacket p)) =>
      exists L body tag rest plain n,
        buf = L ++ body ++ tag ++ rest /\ buf' = L ++ plain ++ tag ++ rest /\
        zlen L = LENGTH_LEN /\ be_val L = zlen body /\ zlen tag = TAG_LEN /\ zlen plain = zlen body /\
        zlen body <= max_packet_length limits /\ zlen body mod BLOCK_SIZE = 0 /\
        decrypt_in_place (cipher s) (next_nonce s) L body tag = (plain, true) /\
        s' = advance s /\ prot_total_len p = LENGTH_LEN + zlen body + TAG_LEN /\
        znth 0 plain = Some (byte_of_Z n) /\ GCM_MIN_PADDING <= n <= U8_MAX /\
        prot_payload p = zslice 1 (zlen body - n) plain
  | (s', buf', Err (OpenBadPadding _ _)) =>
      s' = advance s /\ zlen buf' = zlen buf /\ exists plain, verifies (cipher s) (next_nonce s) buf plain
  | (s', buf', Err _) => s' = s /\ buf' = buf
  end.
Proof. apply open_spec. Qed.

Lemma open_only_verified_witness :
  let d := from_parts (K:=unit) [] (replicate 12 x00) in
  open d [x00; x00; x00] PacketLimits_default = (d, [x00; x00; x00], Ok (OpenNeedMore None)) /\ zlen [x00; x00; x00] < LENGTH_LEN.
Proof.
  intros d. split; [reflexivity|].
  exact (proj2 (proj2 (open_only_verified d [x00; x00; x00] PacketLimits_default))).
Defined.
