(* ===== verification/Transcript.v ===== *)
(** * Exchange hash and key derivation

    Models crates/tatami_ssh_tcp/src/transcript.rs for curve25519-sha256.
    SHA-256 and X25519 come from other crates: [Hash] and [Dh] are their
    operations, [HashLaws] and [DhLaws] what is documented about them. A
    streaming hasher is the bytes it has absorbed; [finalize] hashes them. The
    zeroizing wrappers have no observable behaviour. [None] stands for the
    panic of an [expect]. *)

From S2P Require Import Prelude WireError NameList Primitives Packet Gcm.

Class Hash := { sha256 : bytes -> bytes }.

Class HashLaws `{Hash} : Prop := { sha256_len : forall m, zlen (sha256 m) = 32 }.

(** [x25519_dalek]: the public value of a secret and the shared value of a
    secret and a public value. *)
Class Dh := {
  dh_public : bytes -> bytes;
  diffie_hellman : bytes -> bytes -> bytes
}.

Class DhLaws `{Dh} : Prop := {
  dh_public_len : forall s, zlen (dh_public s) = 32;
  dh_len : forall s p, zlen (diffie_hellman s p) = 32
}.

(* tcp/transcript.rs:58-58 X25519_LEN *)
Definition X25519_LEN : Z := 32.

(* tcp/transcript.rs:60-60 HASH_LEN *)
Definition HASH_LEN : Z := 32.

(* tcp/transcript.rs:62-62 AES128_KEY_LEN *)
Definition AES128_KEY_LEN : Z := 16.

(* tcp/transcript.rs:64-64 GCM_IV_LEN *)
Definition GCM_IV_LEN : Z := 12.

(* tcp/transcript.rs:68-77 KexError *)
Inductive KexError : Type := ServerEphemeralLength (found : Z) | AllZeroSharedSecret.

(* tcp/transcript.rs:236-251 ExchangeHashInputs *)
Record ExchangeHashInputs : Type := mkInputs {
  v_c : bytes; v_s : bytes; i_c : bytes; i_s : bytes; k_s : bytes; q_c : bytes; q_s : bytes
}.

(* tcp/transcript.rs:275-281 AeadKeys *)
Record AeadKeys : Type := mkAeadKeys { key : bytes; iv : bytes }.

(* tcp/transcript.rs:285-290 KeySet *)
Record KeySet : Type := mkKeySet { client_to_server : AeadKeys; server_to_client : AeadKeys }.

(* tcp/transcript.rs:175-175 MPINT_K_MAX *)
Definition MPINT_K_MAX : Z := 4 + 1 + X25519_LEN.

(* tcp/transcript.rs:162-170 SharedSecret::mpint *)
Definition mpint (k : bytes) : option bytes :=
  let len := Mpint.mpint_positive_len k in
  let buf := replicate (Z.to_nat MPINT_K_MAX) x00 in
  if zlen buf <? len then None
  else
    match Writer.write_mpint_positive k (Writer.new (ztake len buf)) with
    | (w, Ok _) => Some (ztake len (Writer.out w ++ zdrop len buf))
    | (_, Err _) => None
    end.

(** [u32::try_from(bytes.len()).expect(..)] and the two updates. *)
(* tcp/transcript.rs:253-257 update_string *)
Definition update_string (hash b : bytes) : option bytes :=
  match u32_try_from (zlen b) with
  | Some len => Some (hash ++ be_bytes 4 len ++ b)
  | None => None
  end.

Section transcript.
Context `{Hash, Dh}.

(** The ephemeral key pair: the secret and the public value derived from it. *)
(* tcp/transcript.rs:93-96 EphemeralKeyPair *)
Record EphemeralKeyPair : Type := mkKeyPair { secret : bytes; public : bytes }.

(* tcp/transcript.rs:115-122 EphemeralKeyPair::from_secret_bytes *)
Definition from_secret_bytes (b : bytes) : EphemeralKeyPair := mkKeyPair b (dh_public b).

(** [try_fill_bytes] of the injected generator is the argument; a failure of
    it is returned. *)
(* tcp/transcript.rs:109-113 EphemeralKeyPair::generate *)
Definition generate {E} (try_fill_bytes : Z -> result bytes E) : result EphemeralKeyPair E :=
  let? b := try_fill_bytes X25519_LEN in Ok (from_secret_bytes b).

(* tcp/transcript.rs:132-147 EphemeralKeyPair::agree *)
Definition agree (self : EphemeralKeyPair) (server_public : bytes) : result bytes KexError :=
  if negb (zlen server_public =? X25519_LEN) then Err (ServerEphemeralLength (zlen server_public))
  else
    let k := diffie_hellman (secret self) server_public in
    if bytes_eqb k (replicate (Z.to_nat X25519_LEN) x00) then Err AllZeroSharedSecret else Ok k.

Fixpoint update_strings (hash : bytes) (parts : list bytes) : option bytes :=
  match parts with
  | [] => Some hash
  | p :: ps => let* hash := update_string hash p in update_strings hash ps
  end.

(* tcp/transcript.rs:261-270 exchange_hash *)
Definition exchange_hash (inputs : ExchangeHashInputs) (k : bytes) : option bytes :=
  let* hash := update_strings [] [v_c inputs; v_s inputs; i_c inputs; i_s inputs; k_s inputs;
                                  q_c inputs; q_s inputs] in
  let* m := mpint k in
  Some (sha256 (hash ++ m)).

(** The loop of [derive_key]: [base] is the primed hasher, [block] the last
    block, [filled] the prefix already written. *)
(* tcp/transcript.rs:315-325 derive_key *)
Fixpoint derive_loop (fuel : nat) (base block out : bytes) (filled : Z) : option bytes :=
  match fuel with
  | O => None
  | S fuel' =>
      let n := Z.min HASH_LEN (zlen out - filled) in
      let out := write_at filled (ztake n block) out in
      let filled := filled + n in
      if filled =? zlen out then Some out
      else
        let base := base ++ block in
        derive_loop fuel' base (sha256 base) out filled
  end.

(** One iteration fills a whole block, so [length out] iterations and one more
    suffice (see [derive_key_total]). *)
(* tcp/transcript.rs:297-326 derive_key *)
Definition derive_key (k h : bytes) (letter : byte) (session_id out : bytes) : option bytes :=
  let* m := mpint k in
  let base := m ++ h in
  let block := sha256 ((base ++ [letter]) ++ session_id) in
  derive_loop (S (length out)) base block out 0.

(* tcp/transcript.rs:330-350 derive_aes128_gcm_keys *)
Definition derive_aes128_gcm_keys (k h session_id : bytes) : option KeySet :=
  let zero n := replicate (Z.to_nat n) x00 in
  let* iv_c := derive_key k h "A"%byte session_id (zero GCM_IV_LEN) in
  let* iv_s := derive_key k h "B"%byte session_id (zero GCM_IV_LEN) in
  let* key_c := derive_key k h "C"%byte session_id (zero AES128_KEY_LEN) in
  let* key_s := derive_key k h "D"%byte session_id (zero AES128_KEY_LEN) in
  Some (mkKeySet (mkAeadKeys key_c iv_c) (mkAeadKeys key_s iv_s)).

(** ** Reference definitions *)

(** The hash input of RFC 5656 section 4 with RFC 8731's K. *)
Definition preimage (i : ExchangeHashInputs) (k : bytes) : bytes :=
  sshstr (v_c i) ++ sshstr (v_s i) ++ sshstr (i_c i) ++ sshstr (i_s i) ++ sshstr (k_s i) ++
  sshstr (q_c i) ++ sshstr (q_s i) ++ sshstr (mpint_body k).

(** RFC 4253 section 7.2: [K1 || ... || Kn] with [K1 = HASH(K || H || X || id)]
    and [K(n+1) = HASH(K || H || K1 || ... || Kn)]. *)
Fixpoint kdf_stream (k h : bytes) (letter : byte) (session_id : bytes) (n : nat) : bytes :=
  match n with
  | O => []
  | S n' =>
      let prev := kdf_stream k h letter session_id n' in
      prev ++ match n' with
              | O => sha256 (sshstr (mpint_body k) ++ h ++ [letter] ++ session_id)
              | S _ => sha256 (sshstr (mpint_body k) ++ h ++ prev)
              end
  end.

(** ** Lemmas *)

Definition parts_ok (i : ExchangeHashInputs) : Prop :=
  Forall (fun p => zlen p <= U32_MAX) [v_c i; v_s i; i_c i; i_s i; k_s i; q_c i; q_s i].

Lemma strip_leading_zeros_len b : zlen (Mpint.strip_leading_zeros b) <= zlen b.
Proof.
  unfold Mpint.strip_leading_zeros. destruct (Prelude.position _ b) as [i|] eqn:E.
  - apply position_Some in E as (a & x & c & -> & <- & _). rewrite zdrop_app_exact by done. zlia.
  - rewrite zdrop_all by lia. apply zlen_nonneg.
Qed.

(** The [expect] of [mpint] cannot fail for a 32-byte secret. *)
Lemma mpint_ok k : zlen k = X25519_LEN -> mpint k = Some (sshstr (mpint_body k)).
Proof.
  unfold X25519_LEN, mpint. intros Hk. rewrite <- mpint_body_len.
  assert (zlen (sshstr (mpint_body k)) <= MPINT_K_MAX) as Hmax.
  { rewrite zlen_sshstr. pose proof (strip_leading_zeros_len k). unfold mpint_body, MPINT_K_MAX, X25519_LEN.
    destruct (Mpint.strip_leading_zeros k); [|destruct (Mpint.high_bit b)]; zlia. }
  set (buf := replicate (Z.to_nat MPINT_K_MAX) x00). assert (zlen buf = MPINT_K_MAX) as Hbuf by done.
  set (bs := sshstr (mpint_body k)) in *. pose proof (zlen_nonneg bs).
  destruct (Z.ltb_spec (zlen buf) (zlen bs)); [lia|].
  assert (Writes (Writer.write_mpint_positive k) bs) as Hw.
  { apply writes_write_mpint_positive. unfold bs in Hmax. rewrite zlen_sshstr in Hmax.
    unfold MPINT_K_MAX, X25519_LEN, U32_MAX in *. lia. }
  rewrite wr_new. rewrite <- (app_nil_r (ztake (zlen bs) buf)).
  rewrite (writes_ok (Writes:=Hw)) by (apply zlen_ztake; lia). unfold Writer.wr; cbn [Writer.out].
  rewrite app_nil_r. f_equal. by apply ztake_app_exact.
Qed.

Lemma update_string_ok hash b : zlen b <= U32_MAX -> update_string hash b = Some (hash ++ sshstr b).
Proof. intros Hb. unfold update_string. by rewrite u32_try_from_ok. Qed.

Lemma exchange_hash_ok i k :
  parts_ok i -> zlen k = X25519_LEN -> exchange_hash i k = Some (sha256 (preimage i k)).
Proof.
  unfold parts_ok. rewrite !Forall_cons. intros (H1 & H2 & H3 & H4 & H5 & H6 & H7 & _) Hk.
  unfold exchange_hash. cbn [update_strings].
  do 7 (rewrite update_string_ok by done; cbn [mbind option_bind]).
  rewrite mpint_ok by done. cbn [mbind option_bind]. unfold preimage. by rewrite <- !app_assoc.
Qed.

Lemma be_val_inj a b : zlen a = zlen b -> be_val a = be_val b -> a = b.
Proof. intros Hl%Nat2Z.inj Hv. by rewrite <- (be_bytes_be_val a), <- (be_bytes_be_val b), Hl, Hv. Qed.

(** Secrets of one length have different mpint encodings. *)
Lemma mpint_body_inj a b : zlen a = zlen b -> mpint_body a = mpint_body b -> a = b.
Proof.
  intros Hl He. apply be_val_inj; [done|].
  destruct (mpint_body_spec a) as (_ & <- & _). destruct (mpint_body_spec b) as (_ & <- & _). by rewrite He.
Qed.

Section derive.
Context `{!HashLaws}.
Context (k h : bytes) (letter : byte) (sid : bytes).
Let stream := kdf_stream k h letter sid.

(** The block the loop is about to copy out in iteration [i]. *)
Definition kdf_block (i : nat) : bytes :=
  match i with
  | O => sha256 (sshstr (mpint_body k) ++ h ++ [letter] ++ sid)
  | S _ => sha256 (sshstr (mpint_body k) ++ h ++ stream i)
  end.

Lemma kdf_stream_S i : stream (S i) = stream i ++ kdf_block i.
Proof. by destruct i. Qed.

Lemma zlen_kdf_block i : zlen (kdf_block i) = 32.
Proof. destruct i; apply sha256_len. Qed.

Lemma zlen_kdf_stream i : zlen (stream i) = 32 * Z.of_nat i.
Proof.
  induction i as [|i IH]; [done|]. rewrite kdf_stream_S, zlen_app, zlen_kdf_block, IH. lia.
Qed.

(** More blocks only extend the stream. *)
Lemma kdf_stream_prefix i j : (i <= j)%nat -> exists t, stream j = stream i ++ t.
Proof.
  induction 1 as [|j _ (t & IH)]; [exists []; by rewrite app_nil_r|].
  exists (t ++ kdf_block j). by rewrite kdf_stream_S, IH, app_assoc.
Qed.

Lemma kdf_take_enough len i j :
  len <= 32 * Z.of_nat i -> len <= 32 * Z.of_nat j -> ztake len (stream i) = ztake len (stream j).
Proof.
  intros Hi Hj. destruct (Nat.le_ge_cases i j) as [Hij|Hij];
    destruct (kdf_stream_prefix _ _ Hij) as (t & ->); rewrite ztake_app_le; rewrite ?zlen_kdf_stream; done.
Qed.

Lemma derive_loop_spec fuel : forall i out,
  zlen out - 32 * Z.of_nat i < 32 * Z.of_nat fuel -> 32 * Z.of_nat i <= zlen out ->
  ztake (32 * Z.of_nat i) out = stream i ->
  derive_loop fuel (sshstr (mpint_body k) ++ h ++ stream i) (kdf_block i) out (32 * Z.of_nat i) =
    Some (ztake (zlen out) (stream (i + fuel))).
Proof.
  induction fuel as [|fuel IH]; intros i out Hf Hi Hpre; [lia|]. cbn [derive_loop]. unfold HASH_LEN.
  destruct (zsplit (32 * Z.of_nat i) out) as (a & b & -> & Ha); [lia|].
  rewrite ztake_app_exact in Hpre by done. subst a. rewrite zlen_app, Ha in *.
  replace (32 * Z.of_nat i + zlen b - 32 * Z.of_nat i) with (zlen b) by lia.
  remember (Z.min 32 (zlen b)) as n eqn:Hnm. pose proof (zlen_nonneg b).
  destruct (zsplit n b) as (old & rest & -> & Hold); [lia|]. rewrite zlen_app in *.
  pose proof (zlen_kdf_block i) as Hb. pose proof (zlen_nonneg rest).
  assert (zlen (ztake n (kdf_block i)) = n) as Hn by (apply zlen_ztake; lia).
  rewrite write_at_app by lia. rewrite !zlen_app, Ha, Hn.
  destruct (Z.eqb_spec (32 * Z.of_nat i + n) (32 * Z.of_nat i + (n + zlen rest))) as [He|He].
  - assert (rest = []) as -> by (apply zlen_0; lia). rewrite app_nil_r, zlen_nil. f_equal.
    rewrite (kdf_take_enough _ (i + S fuel) (S i)) by lia. rewrite kdf_stream_S.
    rewrite ztake_app_ge by lia. f_equal. rewrite Ha. f_equal. lia.
  - assert (n = 32) as Hn32 by lia. rewrite Hn32 in *. rewrite (ztake_all (kdf_block i)) in * by lia.
    replace (32 * Z.of_nat i + 32) with (32 * Z.of_nat (S i)) by lia.
    replace ((sshstr (mpint_body k) ++ h ++ stream i) ++ kdf_block i)
      with (sshstr (mpint_body k) ++ h ++ stream (S i)) by (by rewrite kdf_stream_S, <- !app_assoc).
    change (sha256 (sshstr (mpint_body k) ++ h ++ stream (S i))) with (kdf_block (S i)).
    rewrite (app_assoc (stream i)), <- kdf_stream_S. rewrite IH.
    + f_equal. rewrite zlen_app, zlen_kdf_stream. replace (S i + fuel)%nat with (i + S fuel)%nat by lia.
      f_equal. lia.
    + rewrite zlen_app, zlen_kdf_stream. lia.
    + rewrite zlen_app, zlen_kdf_stream. lia.
    + apply ztake_app_exact. by rewrite zlen_kdf_stream.
Qed.

(** The derivation always completes and fills the output with the stream. *)
Lemma derive_key_total out n :
  zlen k = X25519_LEN -> zlen out <= 32 * Z.of_nat n ->
  derive_key k h letter sid out = Some (ztake (zlen out) (stream n)).
Proof.
  intros Hk Hn. unfold derive_key. rewrite mpint_ok by done. cbn [mbind option_bind].
  pose proof (derive_loop_spec (S (length out)) 0 out) as Hl. cbn [Z.of_nat] in Hl.
  rewrite Z.mul_0_r, Z.sub_0_r in Hl. change (stream 0) with (@nil byte) in Hl. rewrite app_nil_r in Hl.
  change (kdf_block 0) with (sha256 (sshstr (mpint_body k) ++ h ++ [letter] ++ sid)) in Hl.
  rewrite <- !app_assoc. rewrite Hl by (unfold zlen; done || lia).
  f_equal. apply kdf_take_enough; [unfold zlen; lia|done].
Qed.
End derive.

Lemma derive_keys_total `{!HashLaws} k h sid :
  zlen k = X25519_LEN ->
  derive_aes128_gcm_keys k h sid =
    Some (mkKeySet
      (mkAeadKeys (ztake 16 (kdf_stream k h "C"%byte sid 1)) (ztake 12 (kdf_stream k h "A"%byte sid 1)))
      (mkAeadKeys (ztake 16 (kdf_stream k h "D"%byte sid 1)) (ztake 12 (kdf_stream k h "B"%byte sid 1)))).
Proof.
  intros Hk. unfold derive_aes128_gcm_keys.
  do 4 (rewrite (derive_key_total _ _ _ _ _ 1) by (done || (vm_compute; discriminate)); cbn [mbind option_bind]).
  done.
Qed.
End transcript.

(** The first nonce of a direction is its derived nonce. *)
Lemma first_nonce {K : Type} `{Aead K} (key iv : bytes) :
  zlen iv = NONCE_LEN -> AeadDirection.next_nonce (AeadDirection.from_parts (K:=K) key iv) = iv.
Proof.
  unfold NONCE_LEN, AeadDirection.next_nonce, AeadDirection.from_parts, NONCE_FIXED_LEN.
  cbn [AeadDirection.fixed AeadDirection.counter]. intros Hl.
  destruct (zsplit 4 iv) as (a & b & -> & Ha); [lia|]. rewrite ztake_app_exact, zdrop_app_exact by done. f_equal.
  rewrite zlen_app in Hl. rewrite <- (be_bytes_be_val b) at 2. f_equal. unfold zlen in *. lia.
Qed.

(** Concrete providers that satisfy the laws. *)
Definition toy_digest (m : bytes) : bytes := ztake 32 (m ++ replicate 32 x00).

#[local] Instance toy_hash : Hash := { sha256 := toy_digest }.

#[local] Instance toy_hash_laws : HashLaws.
Proof.
  split. intros m. simpl. unfold toy_digest. apply zlen_ztake. rewrite zlen_app.
  change (zlen (replicate 32 x00)) with 32. pose proof (zlen_nonneg m). lia.
Qed.

#[local] Instance toy_dh : Dh := {
  dh_public _ := replicate 32 x09;
  diffie_hellman _ _ := replicate 32 x81
}.

#[local] Instance toy_dh_laws : DhLaws.
Proof. by split. Qed.

(** ** Properties *)

(** C27: the exchange hash binds the whole exchange: for fields that fit their
    length prefix and a 32-byte secret it is computed without panicking, it is
    the hash of the RFC layout, and that layout is unambiguous: different
    identification lines, KEXINIT payloads, host key, ephemeral values or
    secret give different hash inputs. *)
Theorem exchange_hash_binds `{Hash} (i j : ExchangeHashInputs) (a b : bytes) :
  parts_ok i -> parts_ok j -> zlen a = X25519_LEN -> zlen b = X25519_LEN ->
  exchange_hash i a = Some (sha256 (preimage i a)) /\
  (preimage i a = preimage j b -> i = j /\ a = b).
Proof.
  intros Hi Hj Ha Hb. split; [by apply exchange_hash_ok|].
  unfold parts_ok in *. rewrite !Forall_cons in *.
  destruct Hi as (I1 & I2 & I3 & I4 & I5 & I6 & I7 & _), Hj as (J1 & J2 & J3 & J4 & J5 & J6 & J7 & _).
  unfold preimage. intros Heq.
  do 7 (apply sshstr_inj in Heq as [? Heq]; [|done|done]).
  rewrite <- (app_nil_r (sshstr (mpint_body a))), <- (app_nil_r (sshstr (mpint_body b))) in Heq.
  assert (forall x, zlen x = X25519_LEN -> zlen (mpint_body x) <= U32_MAX) as Hm.
  { intros x Hx. pose proof (strip_leading_zeros_len x). unfold mpint_body, X25519_LEN, U32_MAX in *.
    destruct (Mpint.strip_leading_zeros x) as [|y l]; [zlia|destruct (Mpint.high_bit y); zlia]. }
  apply sshstr_inj in Heq as [Hk _]; [|by apply Hm..]. apply mpint_body_inj in Hk; [|lia].
  destruct i, j. simpl in *. by subst.
Qed.

Definition example_inputs : ExchangeHashInputs :=
  mkInputs (bstr "SSH-2.0-a") (bstr "SSH-2.0-b") [x14] [x14; x01] [x07] (replicate 32 x01) (replicate 32 x02).

Lemma exchange_hash_binds_witness :
  exchange_hash example_inputs (replicate 32 x80) = Some (sha256 (preimage example_inputs (replicate 32 x80))).
Proof.
  refine (proj1 (exchange_hash_binds example_inputs example_inputs (replicate 32 x80) (replicate 32 x80) _ _ _ _));
    try reflexivity; repeat constructor; vm_compute; discriminate.
Defined.

(** Key derivation is RFC 4253's: for an output of any length the loop
    terminates and fills it with the first bytes of K1 || K2 || ..., whichever
    number of blocks suffices, so a longer key extends a shorter one. *)
Theorem derive_key_rfc `{HashLaws} (k h sid out : bytes) (letter : byte) (n : nat) :
  zlen k = X25519_LEN -> zlen out <= HASH_LEN * Z.of_nat n ->
  derive_key k h letter sid out = Some (ztake (zlen out) (kdf_stream k h letter sid n)) /\
  zlen (kdf_stream k h letter sid n) = HASH_LEN * Z.of_nat n.
Proof. intros Hk Hn. split; [by apply derive_key_total|by apply zlen_kdf_stream]. Qed.

Lemma derive_key_rfc_witness :
  exists out, derive_key (replicate 32 x80) [x01] "C"%byte [x02] (replicate 40 x00) = Some out /\ zlen out = 40.
Proof.
  eexists. split; [|shelve].
  exact (proj1 (derive_key_rfc (replicate 32 x80) [x01] [x02] (replicate 40 x00) "C"%byte 2 eq_refl
    ltac:(vm_compute; discriminate))).
  Unshelve. vm_compute. reflexivity.
Defined.

(** C28: the key schedule is RFC 4253's, with RFC 8731's check of the secret: a
    server's public value is accepted exactly when it has 32 bytes and the shared
    value is not all zero, which is then the secret; from it, for every exchange
    hash and session identifier, the four keys are derived without panicking:
    letter A gives the client's nonce, B the server's, C the client's key and D
    the server's, each the first 12 or 16 bytes of HASH(K || H || letter ||
    session_id); a key of any length is the start of RFC 4253's K1 || K2 || ...;
    and the first nonce of each direction is the derived one. *)
Theorem key_schedule_exact {K : Type} `{Aead K, HashLaws, DhLaws} (pair : EphemeralKeyPair) (server_public : bytes) :
  let shared := diffie_hellman (secret pair) server_public in
  match agree pair server_public with
  | Err (ServerEphemeralLength n) => n = zlen server_public /\ n <> X25519_LEN
  | Err AllZeroSharedSecret => zlen server_public = X25519_LEN /\ shared = replicate 32 x00
  | Ok k =>
      zlen server_public = X25519_LEN /\ k = shared /\ k <> replicate 32 x00 /\
      forall h sid,
        let k1 letter := sha256 (sshstr (mpint_body k) ++ h ++ [letter] ++ sid) in
        let c2s := mkAeadKeys (ztake 16 (k1 "C"%byte)) (ztake 12 (k1 "A"%byte)) in
        let s2c := mkAeadKeys (ztake 16 (k1 "D"%byte)) (ztake 12 (k1 "B"%byte)) in
        derive_aes128_gcm_keys k h sid = Some (mkKeySet c2s s2c) /\
        (forall letter out n, zlen out <= HASH_LEN * Z.of_nat n ->
           derive_key k h letter sid out = Some (ztake (zlen out) (kdf_stream k h letter sid n))) /\
        Forall (fun d => zlen (key d) = AES128_KEY_LEN /\ zlen (iv d) = GCM_IV_LEN /\
            dir_ok (AeadDirection.from_parts (K:=K) (key d) (iv d)) /\
            AeadDirection.next_nonce (AeadDirection.from_parts (K:=K) (key d) (iv d)) = iv d)
          [c2s; s2c]
  end.
Proof.
  intros shared. unfold agree. destruct (Z.eqb_spec (zlen server_public) X25519_LEN) as [Hp|Hp]; cbn [negb]; [|done].
  fold shared. assert (zlen shared = X25519_LEN) as Hk by apply dh_len.
  destruct (bytes_eqb shared _) eqn:Ez; [by apply bytes_eqb_eq in Ez|].
  split; [done|]. split; [done|]. split; [by apply bytes_eqb_neq|]. intros h sid. cbv zeta.
  assert (forall m n, 0 <= n <= 32 -> zlen (ztake n (sha256 m)) = n) as Hlen
    by (intros; apply zlen_ztake; rewrite sha256_len; lia).
  split; [by apply derive_keys_total|]. split; [intros letter out n Hn; by apply derive_key_total|].
  rewrite !Forall_cons, Forall_nil. cbn [key iv].
  split_and!; try (by apply Hlen); try (by apply from_parts_ok, Hlen); try (by apply first_nonce, Hlen); done.
Qed.

Lemma key_schedule_exact_witness :
  agree (from_secret_bytes [x01]) (replicate 32 x09) = Ok (replicate 32 x81) /\
  exists ks, derive_aes128_gcm_keys (replicate 32 x81) [x01] [x02] = Some ks /\ zlen (iv (client_to_server ks)) = 12.
Proof.
  split; [reflexivity|].
  destruct (key_schedule_exact (K:=unit) (from_secret_bytes [x01]) (replicate 32 x09)) as (_ & _ & _ & Hd).
  destruct (Hd [x01] [x02]) as (Hk & _ & Ha). eexists. split; [exact Hk|]. inversion Ha as [|? ? (_ & Hi & _)]. exact Hi.
Defined.
