(* ===== verification/Trust.v ===== *)
(** * Fingerprints, host trust and SSHFP values

    Models crates/tatami_ssh_keys/src/fingerprint.rs, trust.rs and sshfp.rs.
    SHA-256 is the [Hash] of Transcript.v; the base64 codec (base64ct) is the
    parameter [Base64]. A [str] is its bytes. *)

From S2P Require Import Prelude WireError NameList Primitives Messages KexInit KeyAlgorithm HostKey HostKeyProps.
From S2P Require Import Packet Gcm Transcript.

(** ** Fingerprints *)

(* keys/fingerprint.rs:21-21 SHA256_LEN *)
Definition SHA256_LEN : Z := 32.

(* keys/fingerprint.rs:24-24 PREFIX *)
Definition PREFIX : bytes := bstr "SHA256:".

(* keys/fingerprint.rs:27-27 BASE64_LEN *)
Definition BASE64_LEN : Z := 43.

(* keys/fingerprint.rs:79-92 FingerprintParseError *)
Inductive FingerprintParseError : Type :=
| MissingPrefix
| Padding
| FingerprintWrongLength (found : Z)
| InvalidBase64.

(** [Base64Unpadded::decode] and [encode] of whole byte strings. *)
Class Base64 := { b64_decode : bytes -> option bytes; b64_encode : bytes -> bytes }.

(** The documented behaviour the code relies on: 32 bytes encode to 43
    characters of the standard alphabet, none of them [=], and decoding
    inverts encoding. *)
Class Base64Laws `{Base64} : Prop := {
  b64_roundtrip : forall d, b64_decode (b64_encode d) = Some d;
  b64_canonical : forall t d, b64_decode t = Some d -> b64_encode d = t;
  b64_len_32 : forall d, zlen d = 32 -> zlen (b64_encode d) = BASE64_LEN;
  b64_no_padding : forall d, Forall (fun c => c <> "="%byte) (b64_encode d)
}.

Module Sha256Fingerprint.

(* keys/fingerprint.rs:31-31 Sha256Fingerprint *)
Record t : Type := mk { digest : bytes }.

(* keys/fingerprint.rs:37-39 Sha256Fingerprint::from_bytes *)
Definition from_bytes (digest : bytes) : t := mk digest.

(* keys/fingerprint.rs:43-45 Sha256Fingerprint::as_bytes *)
Definition as_bytes (self : t) : bytes := digest self.

(* keys/fingerprint.rs:55-62 Sha256Fingerprint::eq *)
Definition eq (self other : t) : bool :=
  let diff := foldl (fun acc '(a, b) => Z.lor acc (Z.lxor (u8 a) (u8 b))) 0
                (combine (digest self) (digest other)) in
  diff =? 0.

(* keys/fingerprint.rs:130-132 Sha256Fingerprint::of_blob *)
Definition of_blob `{Hash} (complete_blob_bytes : bytes) : t := mk (sha256 complete_blob_bytes).

(** The decoder is handed a 32-byte buffer: a longer value is an error, a
    shorter one is caught by the length test after it. *)
(* keys/fingerprint.rs:135-152 Sha256Fingerprint::parse *)
Definition parse `{Base64} (text : bytes) : result t FingerprintParseError :=
  let? body := ok_or (strip_prefix PREFIX text) MissingPrefix in
  if existsb (fun c => byte_eqb c "="%byte) body then Err Padding else
  if negb (zlen body =? BASE64_LEN) then Err (FingerprintWrongLength (zlen body)) else
  let? decoded := ok_or (b64_decode body) InvalidBase64 in
  if negb (zlen decoded =? SHA256_LEN) then Err InvalidBase64 else Ok (mk decoded).

(* keys/fingerprint.rs:156-161 Sha256Fingerprint::fmt *)
Definition display `{Base64} (self : t) : bytes := PREFIX ++ b64_encode (digest self).

End Sha256Fingerprint.

(** ** Trust policies *)

(* keys/trust.rs:62-71 TrustSource *)
Inductive TrustSource : Type := PinnedFingerprint | KnownHosts (line : Z).

(* keys/trust.rs:95-125 UntrustedReason *)
Inductive UntrustedReason : Type :=
| FingerprintMismatch
| NoPolicy
| UnknownHost
| KeyChanged (line : Z)
| Revoked (line : Z)
| CertificateAuthorityOnly
| NoKeyForAlgorithm
| UnsupportedIdentity.

(* keys/trust.rs:39-50 TrustDecision *)
Inductive TrustDecision : Type :=
| Trusted (source : TrustSource)
| Untrusted (reason : UntrustedReason).

(* keys/trust.rs:55-57 TrustDecision::is_trusted *)
Definition is_trusted (d : TrustDecision) : bool := match d with Trusted _ => true | Untrusted _ => false end.

(* keys/trust.rs:76-81 TrustSource::code *)
Definition trust_source_code (s : TrustSource) : string :=
  match s with PinnedFingerprint => "pinned_fingerprint" | KnownHosts _ => "known_hosts" end.

(* keys/trust.rs:85-90 TrustSource::line *)
Definition trust_source_line (s : TrustSource) : option Z :=
  match s with PinnedFingerprint => None | KnownHosts line => Some line end.

(* keys/trust.rs:130-141 UntrustedReason::code *)
Definition untrusted_reason_code (r : UntrustedReason) : string :=
  match r with
  | FingerprintMismatch => "fingerprint_mismatch"
  | NoPolicy => "no_policy"
  | UnknownHost => "unknown_host"
  | KeyChanged _ => "key_changed"
  | Revoked _ => "revoked"
  | CertificateAuthorityOnly => "certificate_authority_only"
  | NoKeyForAlgorithm => "no_key_for_algorithm"
  | UnsupportedIdentity => "unsupported_identity"
  end.

(* keys/trust.rs:145-150 UntrustedReason::line *)
Definition untrusted_reason_line (r : UntrustedReason) : option Z :=
  match r with KeyChanged line | Revoked line => Some line | _ => None end.

(* keys/trust.rs:178-185 HostIdentity *)
Record HostIdentity : Type := mkIdentity {
  id_algorithm : bytes;
  id_blob : bytes;
  id_sha256 : Sha256Fingerprint.t
}.

(* keys/trust.rs:191-197 HostIdentity::from_blob *)
Definition identity_from_blob `{Hash} (blob : PublicKeyBlob.t) : HostIdentity :=
  mkIdentity (PublicKeyBlob.algorithm blob) (PublicKeyBlob.as_bytes blob)
    (Sha256Fingerprint.of_blob (PublicKeyBlob.as_bytes blob)).

(* keys/trust.rs:205-208 HostTrustPolicy *)
Class HostTrustPolicy (P : Type) := { decide_trust : P -> HostIdentity -> TrustDecision }.

(* keys/trust.rs:212-212 PinnedSha256 *)
Record PinnedSha256 : Type := mkPinned { pin : Sha256Fingerprint.t }.

(* keys/trust.rs:215-226 PinnedSha256::decide *)
Definition pinned_decide (self : PinnedSha256) (host : HostIdentity) : TrustDecision :=
  if Sha256Fingerprint.eq (pin self) (id_sha256 host)
  then Trusted PinnedFingerprint else Untrusted FingerprintMismatch.

#[export] Instance pinned_policy : HostTrustPolicy PinnedSha256 := {| decide_trust := pinned_decide |}.

(* keys/trust.rs:237-237 NoTrustPolicy *)
Inductive NoTrustPolicy : Type := mkNoTrust.

(* keys/trust.rs:240-244 NoTrustPolicy::decide *)
Definition no_trust_decide (self : NoTrustPolicy) (host : HostIdentity) : TrustDecision :=
  Untrusted NoPolicy.

#[export] Instance no_trust_policy : HostTrustPolicy NoTrustPolicy := {| decide_trust := no_trust_decide |}.

(** ** SSHFP values *)

Definition is_digit (c : byte) : bool := (48 <=? u8 c) && (u8 c <=? 57).

(** [str::parse::<u8>]: an optional plus sign, then at least one digit,
    without overflow. *)
Fixpoint parse_digits (acc : Z) (t : bytes) : option Z :=
  match t with
  | [] => Some acc
  | c :: t' =>
      if is_digit c then
        let acc := acc * 10 + (u8 c - 48) in
        if U8_MAX <? acc then None else parse_digits acc t'
      else None
  end.

Definition parse_u8 (t : bytes) : option Z :=
  match t with
  | [] => None
  | c :: t' =>
      let digits := if byte_eqb c "+"%byte then t' else t in
      match digits with [] => None | _ => parse_digits 0 digits end
  end.

(** [Display] of a [u8]. *)
Definition display_u8 (v : Z) : bytes :=
  let digit d := byte_of_Z (48 + d) in
  if v <? 10 then [digit v]
  else if v <? 100 then [digit (v / 10); digit (v mod 10)]
  else [digit (v / 100); digit (v / 10 mod 10); digit (v mod 10)].

(** [char::to_digit(16)] of a byte taken as a character. *)
Definition to_digit16 (c : byte) : option Z :=
  let v := u8 c in
  if (48 <=? v) && (v <=? 57) then Some (v - 48)
  else if (97 <=? v) && (v <=? 102) then Some (v - 87)
  else if (65 <=? v) && (v <=? 70) then Some (v - 55)
  else None.

(** [{b:02x}]. *)
Definition hex_digit (d : Z) : byte := byte_of_Z (if d <? 10 then 48 + d else 87 + d).

Definition hex_byte (b : byte) : bytes := [hex_digit (u8 b / 16); hex_digit (u8 b mod 16)].

Definition is_ascii_whitespace (c : byte) : bool :=
  existsb (byte_eqb c) [x20; x09; x0a; x0c; x0d].

(** [str::split_ascii_whitespace]: the maximal runs of other characters. *)
Fixpoint split_words (word : bytes) (t : bytes) : list bytes :=
  let flush := match word with [] => [] | _ => [rev word] end in
  match t with
  | [] => flush
  | c :: t' => if is_ascii_whitespace c then flush ++ split_words [] t' else split_words (c :: word) t'
  end.

Definition split_ascii_whitespace (t : bytes) : list bytes := split_words [] t.

(** The loop over [hex.as_bytes().chunks(2)]. *)
Fixpoint parse_hex (t : bytes) : option bytes :=
  match t with
  | hi :: lo :: t' =>
      let* hi := to_digit16 hi in
      let* lo := to_digit16 lo in
      let* rest := parse_hex t' in
      Some (byte_of_Z (hi * 16 + lo) :: rest)
  | [] => Some []
  | [_] => None
  end.

Module Sshfp.

(* keys/sshfp.rs:28-28 TYPE_SHA256 *)
Definition TYPE_SHA256 : Z := 2.

(* keys/sshfp.rs:32-39 Sshfp *)
Record t : Type := mk { algorithm : Z; fingerprint_type : Z; digest : bytes }.

(* keys/sshfp.rs:44-51 Sshfp::sha256_of_blob *)
Definition sha256_of_blob `{Hash, Dalek} (f : Features) (blob : bytes) : result t KeyError :=
  let? k := HostKey.parse f blob in
  Ok (mk (KeyType.sshfp_algorithm (HostKey.key_type k)) TYPE_SHA256 (sha256 blob)).

(* keys/sshfp.rs:56-75 Sshfp::parse_rdata *)
Definition parse_rdata (text : bytes) : option t :=
  match split_ascii_whitespace text with
  | a :: rest =>
      let* algorithm := parse_u8 a in
      match rest with
      | ty :: rest =>
          let* fingerprint_type := parse_u8 ty in
          match rest with
          | hex :: rest =>
              if negb (zlen rest =? 0) || negb (fingerprint_type =? TYPE_SHA256) || negb (zlen hex =? 64)
              then None
              else let* digest := parse_hex hex in Some (mk algorithm fingerprint_type digest)
          | [] => None
          end
      | [] => None
      end
  | [] => None
  end.

(* keys/sshfp.rs:80-86 Sshfp::fmt *)
Definition display (self : t) : bytes :=
  display_u8 (algorithm self) ++ [x20] ++ display_u8 (fingerprint_type self) ++ [x20] ++
  concat (map hex_byte (digest self)).

End Sshfp.

(** ** Lemmas *)

(** The XOR/OR fold over a pair of digests is zero only for equal ones. *)
Lemma diff_fold_zero l acc :
  0 <= acc ->
  let r := foldl (fun acc '(a, b) => Z.lor acc (Z.lxor (u8 a) (u8 b))) acc l in
  r = 0 <-> acc = 0 /\ Forall (fun '(a, b) => a = b) l.
Proof.
  revert acc; induction l as [|[a b] l IH]; intros acc Ha; simpl; [naive_solver|].
  pose proof (u8_range a). pose proof (u8_range b).
  rewrite IH by (apply Z.lor_nonneg; split; [done|]; apply Z.lxor_nonneg; lia).
  rewrite Z.lor_eq_0_iff, Z.lxor_eq_0_iff, Forall_cons. split.
  - intros [[-> E%u8_inj] Hl]. done.
  - intros (-> & -> & Hl). done.
Qed.

Lemma combine_diag a b :
  length a = length b -> Forall (fun '(x, y) => x = y) (combine a b) <-> (a : bytes) = b.
Proof.
  revert b; induction a as [|x a IH]; intros [|y b]; simpl; try done.
  intros [= Hl]. rewrite Forall_cons, IH by done. naive_solver.
Qed.

Lemma fingerprint_eq_iff a b :
  zlen (Sha256Fingerprint.digest a) = SHA256_LEN -> zlen (Sha256Fingerprint.digest b) = SHA256_LEN ->
  Sha256Fingerprint.eq a b = true <-> a = b.
Proof.
  destruct a as [a], b as [b]; cbn [Sha256Fingerprint.digest]. intros Ha Hb.
  unfold Sha256Fingerprint.eq; cbn [Sha256Fingerprint.digest].
  rewrite Z.eqb_eq, diff_fold_zero, combine_diag by (done || (unfold zlen in *; lia)). naive_solver.
Qed.

Lemma no_equals l : Forall (fun c => c <> "="%byte) l -> existsb (fun c => byte_eqb c "="%byte) l = false.
Proof.
  induction 1 as [|c l Hc Hl IH]; simpl; [done|]. rewrite IH, byte_eqb_spec, bool_decide_eq_false_2; done.
Qed.

(** The presentation form: exactly the texts [Display] prints are parsed. *)
Lemma fingerprint_text_exact `{Base64, !Base64Laws} (text : bytes) (fp : Sha256Fingerprint.t) :
  Sha256Fingerprint.parse text = Ok fp <->
  zlen (Sha256Fingerprint.digest fp) = SHA256_LEN /\ text = Sha256Fingerprint.display fp.
Proof.
  unfold Sha256Fingerprint.parse, Sha256Fingerprint.display. split.
  - destruct (strip_prefix PREFIX text) as [body|] eqn:E; [|done]. apply strip_prefix_Some in E as ->.
    cbn [ok_or rbind]. destruct (existsb _ body); [done|]. destruct (negb _); [done|].
    destruct (b64_decode body) as [d|] eqn:Ed; [|done]. cbn [ok_or rbind].
    destruct (Z.eqb_spec (zlen d) SHA256_LEN) as [Hl|]; [|done]. intros <-%Ok_inj.
    cbn [Sha256Fingerprint.digest]. by rewrite (b64_canonical body d).
  - intros [Hl ->]. destruct fp as [d]; cbn [Sha256Fingerprint.digest] in *.
    rewrite (proj2 (strip_prefix_Some PREFIX _ _) eq_refl). cbn [ok_or rbind].
    rewrite (no_equals _ (b64_no_padding d)), (b64_len_32 d Hl), b64_roundtrip. cbn [ok_or rbind].
    by rewrite Hl.
Qed.

Definition word (w : bytes) : Prop := Forall (fun c => is_ascii_whitespace c = false) w.

Lemma split_words_word w acc t :
  word w -> split_words acc (w ++ t) = split_words (rev w ++ acc) t.
Proof.
  intros Hw. revert acc; induction Hw as [|c w Hc Hw IH]; intros acc; simpl; [done|].
  rewrite Hc, IH. by rewrite <- app_assoc.
Qed.

Lemma split_word_space w t :
  word w -> w <> [] -> split_ascii_whitespace (w ++ x20 :: t) = w :: split_ascii_whitespace t.
Proof.
  intros Hw Hne. unfold split_ascii_whitespace. rewrite split_words_word, app_nil_r by done.
  cbn [split_words]. change (is_ascii_whitespace x20) with true. cbv iota.
  destruct (rev w) as [|c l] eqn:E; [by apply (f_equal (@rev _)) in E; rewrite rev_involutive in E|].
  rewrite <- E, rev_involutive. done.
Qed.

Lemma split_word_end w : word w -> w <> [] -> split_ascii_whitespace w = [w].
Proof.
  intros Hw Hne. unfold split_ascii_whitespace. rewrite <- (app_nil_r w) at 1.
  rewrite split_words_word, app_nil_r by done. cbn [split_words].
  destruct (rev w) as [|c l] eqn:E; [by apply (f_equal (@rev _)) in E; rewrite rev_involutive in E|].
  by rewrite <- E, rev_involutive.
Qed.

Lemma display_u8_spec v :
  0 <= v <= U8_MAX ->
  parse_u8 (display_u8 v) = Some v /\ word (display_u8 v) /\ display_u8 v <> [].
Proof.
  intros Hv. assert (exists b, v = u8 b) as [b ->].
  { exists (byte_of_Z v). rewrite u8_byte_of_Z, Z.mod_small; [done|]. unfold U8_MAX in Hv. lia. }
  clear Hv. unfold word.
  destruct b; (split; [vm_compute; reflexivity|split; [repeat constructor|vm_compute; discriminate]]).
Qed.

Lemma hex_byte_spec b t :
  parse_hex (hex_byte b ++ t) = (fun d => b :: d) <$> parse_hex t.
Proof.
  assert (exists hi lo, hex_byte b = [hi; lo] /\ exists x y, to_digit16 hi = Some x /\
    to_digit16 lo = Some y /\ byte_of_Z (x * 16 + y) = b) as (hi & lo & -> & x & y & Hx & Hy & Hb).
  { exists (hex_digit (u8 b / 16)), (hex_digit (u8 b mod 16)). split; [done|].
    exists (u8 b / 16), (u8 b mod 16). by destruct b. }
  simpl. rewrite Hx, Hy. simpl. rewrite Hb. by destruct (parse_hex t).
Qed.

Lemma hex_bytes_spec l :
  parse_hex (concat (map hex_byte l)) = Some l /\ word (concat (map hex_byte l)) /\
  zlen (concat (map hex_byte l)) = 2 * zlen l.
Proof.
  induction l as [|b l (IH1 & IH2 & IH3)]; [split_and!; constructor|]. cbn [map concat]. split_and!.
  - by rewrite hex_byte_spec, IH1.
  - apply Forall_app. split; [|done]. destruct b; repeat constructor.
  - rewrite zlen_app, IH3, zlen_cons. change (zlen (hex_byte b)) with 2. lia.
Qed.

(** ** Properties *)

(** An SSHFP value survives its presentation form: the RDATA text that
    [Display] prints for a SHA-256 value is read back by [parse_rdata] as the
    same algorithm number and digest. *)
Theorem sshfp_rdata_roundtrip (fp : Sshfp.t) :
  0 <= Sshfp.algorithm fp <= U8_MAX -> Sshfp.fingerprint_type fp = Sshfp.TYPE_SHA256 ->
  zlen (Sshfp.digest fp) = 32 -> Sshfp.parse_rdata (Sshfp.display fp) = Some fp.
Proof.
  destruct fp as [a ty d]; cbn [Sshfp.algorithm Sshfp.fingerprint_type Sshfp.digest].
  intros Ha -> Hd. destruct (display_u8_spec a Ha) as (Hp & Hw & Hne).
  destruct (hex_bytes_spec d) as (Hh & Hhw & Hhl). set (hex := concat (map hex_byte d)) in *.
  unfold Sshfp.parse_rdata, Sshfp.display; cbn [Sshfp.algorithm Sshfp.fingerprint_type Sshfp.digest].
  fold hex. rewrite (split_word_space _ (display_u8 Sshfp.TYPE_SHA256 ++ [x20] ++ hex)) by done.
  rewrite Hp. cbn [mbind option_bind]. change (display_u8 Sshfp.TYPE_SHA256) with [x32].
  change ([x32] ++ [x20] ++ hex) with ([x32] ++ x20 :: hex).
  rewrite (split_word_space [x32] hex) by first [done | by repeat constructor].
  change (parse_u8 [x32]) with (Some 2). cbn [mbind option_bind].
  rewrite split_word_end; [|done|]; last first.
  { intros E. rewrite E in Hhl. change (zlen (@nil byte)) with 0 in Hhl. lia. }
  rewrite Hhl, Hd. simpl. by rewrite Hh.
Qed.

Lemma sshfp_rdata_roundtrip_witness :
  Sshfp.parse_rdata (Sshfp.display (Sshfp.mk 4 2 (replicate 32 xa5))) =
  Some (Sshfp.mk 4 2 (replicate 32 xa5)).
Proof. apply sshfp_rdata_roundtrip; vm_compute; try split; (reflexivity || discriminate). Defined.

(** The pinned policy trusts exactly the pinned digest: a host is trusted
    if and only if the SHA-256 of its complete blob equals the pin, byte for
    byte; otherwise the decision is a fingerprint mismatch. *)
Theorem pinned_policy_exact `{Hash, !HashLaws} (p : PinnedSha256) (b : PublicKeyBlob.t) :
  zlen (Sha256Fingerprint.digest (pin p)) = SHA256_LEN ->
  decide_trust p (identity_from_blob b) =
  if bool_decide (Sha256Fingerprint.digest (pin p) = sha256 (PublicKeyBlob.as_bytes b))
  then Trusted PinnedFingerprint else Untrusted FingerprintMismatch.
Proof.
  intros Hl. cbn [decide_trust pinned_policy]. unfold pinned_decide, identity_from_blob. cbn [id_sha256].
  pose proof (fingerprint_eq_iff (pin p) (Sha256Fingerprint.of_blob (PublicKeyBlob.as_bytes b)) Hl
    (sha256_len _)) as Heq.
  destruct (Sha256Fingerprint.eq _ _) eqn:E.
  - rewrite bool_decide_eq_true_2; [done|]. by rewrite (proj1 Heq eq_refl).
  - rewrite bool_decide_eq_false_2; [done|]. intros Hd.
    assert (false = true); [|done]. apply Heq. destruct p as [[d]]. by cbn in *; subst.
Qed.

#[local] Instance head_hash : Hash := {| sha256 := toy_digest |}.

#[local] Instance head_hash_laws : HashLaws.
Proof.
  split. intros m. cbn [sha256 head_hash]. unfold toy_digest. apply zlen_ztake.
  rewrite zlen_app. change (zlen (replicate 32 x00)) with 32. pose proof (zlen_nonneg m). lia.
Qed.

Lemma pinned_policy_exact_witness :
  decide_trust (mkPinned (Sha256Fingerprint.mk (replicate 32 x01)))
    (identity_from_blob (H:=head_hash) (PublicKeyBlob.mk [] [] (replicate 40 x01))) = Trusted PinnedFingerprint.
Proof.
  refine (eq_trans (pinned_policy_exact (H:=head_hash) _ _ _) _); reflexivity.
Defined.
