(* ===== verification/PrivateKeyProps.v ===== *)
(** * OpenSSH host private keys: what is accepted and what is written

    The RSA checks at their fixed width decide statements about integers; the
    DER of every accepted key reads back; no accepted input panics. *)

From S2P Require Import Prelude WireError NameList Primitives Messages KexInit KeyAlgorithm HostKey HostKeyProps.
From S2P Require Import Spki SpkiProps Packet Gcm Transcript Trust PrivateKey.

Import Spki PrivateKey.

(** ** Integers at their width *)

Section arithmetic.
Context `{Sk : SshKey, !SshKeyLaws Sk, U : U8192, UL : !U8192Laws U}.

Lemma wide_spec m : zlen m <= 1024 -> exists w, wide m = Some w /\ w_val w = be_val m.
Proof.
  intros Hm. pose proof (zlen_nonneg m). unfold wide, checked_sub. destruct (Z.leb_spec (zlen m) 1024); [|lia].
  cbn [mbind option_bind]. eexists. split; [done|].
  assert (write_at (1024 - zlen m) m (replicate 1024 x00) = replicate (Z.to_nat (1024 - zlen m)) x00 ++ m) as ->.
  { replace 1024%nat with (Z.to_nat (1024 - zlen m) + Z.to_nat (zlen m))%nat by lia.
    rewrite replicate_add, <- (app_nil_r (replicate (Z.to_nat (zlen m)) x00)).
    rewrite write_at_app by (rewrite zlen_replicate_Z; lia). by rewrite app_nil_r. }
  rewrite w_from_be_slice_val; [apply be_val_zeros|]. rewrite zlen_app, zlen_replicate_Z by lia. lia.
Qed.

Lemma position_ext {A} (f g : A -> bool) l : (forall x, f x = g x) -> position f l = position g l.
Proof. intros H. induction l as [|x l IH]; [done|]. cbn. by rewrite H, IH. Qed.

Lemma strip_position b :
  zdrop (default (zlen b) (position (fun b => negb (byte_eqb b x00)) b)) b = Mpint.strip_leading_zeros b.
Proof.
  unfold Mpint.strip_leading_zeros. rewrite (position_ext _ (fun x => negb (u8 x =? 0))); [by destruct (position _ _)|].
  intros []; reflexivity.
Qed.

(** A remainder, as the minimal bytes of its value. *)
Definition crt_exponent (d p : Z) (b : bytes) : Prop := magnitude b /\ be_val b = d mod (p - 1).

Lemma magnitude_inj a b : magnitude a -> magnitude b -> be_val a = be_val b -> a = b.
Proof.
  intros Ha Hb He. assert (zlen a = zlen b) as Hl.
  { pose proof (zlen_nonneg a). pose proof (zlen_nonneg b). apply Z.le_antisymm.
    - apply magnitude_lt; [lia|done|]. rewrite He. by apply magnitude_lt.
    - apply magnitude_lt; [lia|done|]. rewrite <- He. by apply magnitude_lt. }
  rewrite <- (be_bytes_be_val a), <- (be_bytes_be_val b), He. unfold zlen in Hl. f_equal. lia.
Qed.

Lemma crt_spec dw pw b :
  0 < w_val pw ->
  crt dw pw = Ok b /\ zlen b <> 0 <-> 1 < w_val pw /\ crt_exponent (w_val dw) (w_val pw) b.
Proof.
  intros Hp. pose proof (w_val_range pw) as Hr. unfold crt, crt_exponent.
  rewrite strip_position, w_eqb_val, w_zero_val, w_to_be_bytes_val.
  assert (w_val (w_wrapping_sub pw w_one) = w_val pw - 1) as Hv.
  { rewrite w_wrapping_sub_val, w_one_val. apply Z.mod_small. lia. }
  rewrite Hv. destruct (Z.eqb_spec (w_val pw - 1) 0) as [E|E].
  { split; [by intros []|]. lia. }
  assert (w_val (w_rem dw (w_wrapping_sub pw w_one)) = w_val dw mod (w_val pw - 1)) as Hm.
  { rewrite w_rem_val; [by rewrite Hv|]. by rewrite Hv. }
  assert (0 <= w_val dw mod (w_val pw - 1) < w_val pw - 1) as Hb by (apply Z.mod_pos_bound; lia).
  rewrite Hm. destruct (strip_leading_zeros_spec (be_bytes 1024 (w_val dw mod (w_val pw - 1)))) as [Hs Hh].
  rewrite be_bytes_small in Hs by (change (Z.of_nat 1024) with 1024; lia).
  set (s := Mpint.strip_leading_zeros _) in *. clearbody s. split.
  - intros [<-%Ok_inj Hz]. split_and!; [lia| |done]. by destruct s.
  - intros (_ & Hmb & Hbv). assert (b <> []) by (by intros ->). split; [|by intros Hz%zlen_0].
    f_equal. apply magnitude_inj; [|done|congruence].
    destruct s; [|done]. cbn in Hs. pose proof (magnitude_pos b Hmb). lia.
Qed.

Lemma positive_iff m what b : positive m what = Ok b <-> as_positive_bytes m = Some b /\ magnitude b.
Proof.
  unfold positive. destruct (as_positive_bytes m) as [c|] eqn:E; [|naive_solver].
  destruct (Z.eqb_spec (zlen c) 0) as [Hc|Hc]; cbn [negb].
  - apply zlen_0 in Hc as ->. split; [done|]. by intros [[= <-] ?].
  - destruct (as_positive_bytes_minimal m c E) as [->|]; [done|]. naive_solver.
Qed.

(** The integers of an accepted key. The value of [iqmp] is left to the
    provider that loads the key. *)
Definition rsa_private_ok (k : RsaHostPrivateKey) : Prop :=
  let n := be_val (Rsa.n (rsa_public k)) in
  let d_ := be_val (d k) in let p_ := be_val (p k) in let q_ := be_val (q k) in
  rsa_key_ok (rsa_public k) /\
  (magnitude (d k) /\ magnitude (p k) /\ magnitude (q k) /\ magnitude (iqmp k)) /\
  p_ * q_ = n /\ d_ < n /\ 1 < p_ /\ 1 < q_ /\ zlen (iqmp k) <= zlen (p k) /\
  crt_exponent d_ p_ (dp k) /\ crt_exponent d_ q_ (dq k).

(** The length tests follow from the integer ones. *)
Lemma lengths_follow n d p q :
  magnitude n -> magnitude d -> magnitude p -> magnitude q ->
  be_val p * be_val q = be_val n -> be_val d < be_val n ->
  zlen d <= zlen n /\ zlen p <= zlen n /\ zlen q <= zlen n.
Proof.
  intros Hn Hd Hp Hq Hm Hl. pose proof (be_val_range n). pose proof (magnitude_pos p Hp). pose proof (magnitude_pos q Hq).
  split_and!; (apply magnitude_lt; [apply zlen_nonneg|done|nia]).
Qed.

Lemma high_word_zero m n hi lo : 0 <= n < m -> 0 <= lo < m -> 0 <= hi < m -> n = hi * m + lo -> hi = 0 /\ lo = n.
Proof. intros. assert (hi = 0) by nia. lia. Qed.

Lemma crt_pair_spec {A} dw pw qw (mk : bytes -> bytes -> A) a :
  0 < w_val pw -> 0 < w_val qw ->
  (let? dp := crt dw pw in
   let? dq := crt dw qw in
   if (zlen dp =? 0) || (zlen dq =? 0) then Err PublicKeyMismatch else Ok (mk dp dq)) = Ok a <->
  exists bp bq, a = mk bp bq /\ (1 < w_val pw /\ crt_exponent (w_val dw) (w_val pw) bp) /\
    (1 < w_val qw /\ crt_exponent (w_val dw) (w_val qw) bq).
Proof.
  intros Hp Hq. split.
  - intros (bp & Hbp & (bq & Hbq & H1)%rbind_Ok)%rbind_Ok.
    destruct (_ || _) eqn:Ee; [done|]. apply orb_false_iff in Ee as [Hzp%Z.eqb_neq Hzq%Z.eqb_neq].
    apply Ok_inj in H1 as <-. exists bp, bq. rewrite <- !crt_spec by done. done.
  - intros (bp & bq & -> & [-> Zp]%crt_spec & [-> Zq]%crt_spec); [|done..]. cbn [rbind].
    by destruct (Z.eqb_spec (zlen bp) 0), (Z.eqb_spec (zlen bq) 0).
Qed.

Lemma check_keypair_spec public d p q iqmp :
  rsa_key_ok public -> magnitude d -> magnitude p -> magnitude q -> magnitude iqmp ->
  exists r, check_keypair public (Rsa.n public) d p q iqmp = Some r /\
    forall k, r = Ok k <-> k = mkRsa public d p q iqmp (dp k) (dq k) /\ rsa_private_ok k.
Proof.
  intros Hk Hd Hp Hq Hi. unfold check_keypair. set (n := Rsa.n public).
  assert (magnitude n) as Hn by apply Hk. destruct (rsa_key_lengths public Hk) as [_ Hln]. fold n in Hln.
  assert (forall k, k = mkRsa public d p q iqmp (dp k) (dq k) /\ rsa_private_ok k ->
    be_val p * be_val q = be_val n /\ be_val d < be_val n /\ zlen iqmp <= zlen p /\
    (1 < be_val p /\ crt_exponent (be_val d) (be_val p) (dp k)) /\
    (1 < be_val q /\ crt_exponent (be_val d) (be_val q) (dq k))) as Hok.
  { intros k [-> (_ & _ & H)]. cbn in H. tauto. }
  assert (forall k, ~ (k = mkRsa public d p q iqmp (dp k) (dq k) /\ rsa_private_ok k) ->
    Err PublicKeyMismatch = Ok k <-> k = mkRsa public d p q iqmp (dp k) (dq k) /\ rsa_private_ok k) as Herr
    by (intros k; split; [done|tauto]).
  destruct (_ || _ || _ || _) eqn:Eg.
  { eexists. split; [done|]. intros k. apply Herr. intros (H1 & H2 & H3 & _)%Hok.
    destruct (lengths_follow n d p q) as (? & ? & ?); [done..|].
    apply orb_true_iff in Eg as [[[Eg|Eg]%orb_true_iff|Eg]%orb_true_iff|Eg]; apply Z.ltb_lt in Eg; lia. }
  apply orb_false_iff in Eg as [[[E1 E2]%orb_false_iff E3]%orb_false_iff E4]. apply Z.ltb_ge in E1, E2, E3, E4.
  destruct (wide_spec n) as (nw & -> & Vn); [lia|]. destruct (wide_spec d) as (dw & -> & Vd); [lia|].
  destruct (wide_spec p) as (pw & -> & Vp); [lia|]. destruct (wide_spec q) as (qw & -> & Vq); [lia|].
  cbn [mbind option_bind]. rewrite w_geb_val, Vn, Vd. destruct (Z.leb_spec (be_val n) (be_val d)) as [Hnd|Hnd].
  { eexists. split; [done|]. intros k. apply Herr. intros (_ & H2 & _)%Hok. lia. }
  pose proof (w_mul_wide_val pw qw) as Hm. pose proof (w_val_range nw) as Hrn.
  destruct (w_mul_wide pw qw) as [lo hi]. cbn [fst snd] in Hm. rewrite !w_eqb_val, w_zero_val, Vp, Vq, Vn in *.
  pose proof (w_val_range lo) as Hrl. pose proof (w_val_range hi) as Hrh.
  destruct (_ || _) eqn:Em.
  { eexists. split; [done|]. intros k. apply Herr. intros (H1 & _)%Hok. rewrite H1 in Hm.
    apply high_word_zero in Hm as [Hz Hl]; [|done..].
    apply orb_true_iff in Em as [Em%negb_true_iff%Z.eqb_neq|Em%negb_true_iff%Z.eqb_neq]; congruence. }
  apply orb_false_iff in Em as [Ez%negb_false_iff%Z.eqb_eq El%negb_false_iff%Z.eqb_eq].
  rewrite Ez, El in Hm. change (0 * 256 ^ 1024 + be_val n) with (be_val n) in Hm.
  pose proof (magnitude_pos p Hp). pose proof (magnitude_pos q Hq).
  eexists. split; [done|]. intros k. rewrite crt_pair_spec by (by rewrite ?Vp, ?Vq). rewrite Vd, Vp, Vq. split.
  - intros (bp & bq & -> & [? ?] & [? ?]). split; [done|]. unfold rsa_private_ok. cbn. tauto.
  - intros H1. destruct (Hok k H1) as (_ & _ & _ & Cp & Cq). exists (dp k), (dq k). tauto.
Qed.

(** A key pair is accepted exactly as the key with its integers, when they
    satisfy the checks; no pair panics. *)
Lemma rsa_from_keypair_spec pub_e pub_n priv_d priv_iqmp priv_p priv_q :
  exists r, rsa_from_keypair pub_e pub_n priv_d priv_iqmp priv_p priv_q = Some r /\
    forall k, r = Ok k <->
      as_positive_bytes pub_e = Some (Rsa.e (rsa_public k)) /\ as_positive_bytes pub_n = Some (Rsa.n (rsa_public k)) /\
      as_positive_bytes priv_d = Some (d k) /\ as_positive_bytes priv_iqmp = Some (iqmp k) /\
      as_positive_bytes priv_p = Some (p k) /\ as_positive_bytes priv_q = Some (q k) /\ rsa_private_ok k.
Proof.
  unfold rsa_from_keypair. destruct (rbind (positive pub_n "n") _) as [v|e] eqn:Er.
  - apply rbind_Ok in Er as (n & [Pn Mn]%positive_iff & Er). apply rbind_Ok in Er as (e & [Pe Me]%positive_iff & Er).
    apply rbind_Ok in Er as (public & Hpub & Er). apply map_err_ok, from_components_iff in Hpub as [-> Hk].
    apply rbind_Ok in Er as (d0 & [Pd Md]%positive_iff & Er). apply rbind_Ok in Er as (p0 & [Pp Mp]%positive_iff & Er).
    apply rbind_Ok in Er as (q0 & [Pq Mq]%positive_iff & Er). apply rbind_Ok in Er as (i0 & [Pi Mi]%positive_iff & Er).
    apply Ok_inj in Er as <-. destruct (check_keypair_spec (Rsa.mk e n) d0 p0 q0 i0) as (r & Hr & Hiff); [done..|].
    exists r. split; [exact Hr|]. intros k. rewrite Hiff, Pe, Pn, Pd, Pi, Pp, Pq. split.
    + intros [-> H]. done.
    + destruct k as [[] ? ? ? ? ? ?]. cbn. naive_solver.
  - eexists. split; [done|]. intros k. split; [done|].
    intros (Pe & Pn & Pd & Pi & Pp & Pq & H). exfalso. assert (is_ok (@Err (Rsa.PublicKey * bytes * bytes * bytes * bytes * bytes) _ e) = true); [|done].
    rewrite <- Er. destruct H as (Hk & (? & ? & ? & ?) & _).
    assert (forall m what b, as_positive_bytes m = Some b -> magnitude b -> positive m what = Ok b) as Hpos
      by (intros; by apply positive_iff).
    rewrite (Hpos _ _ _ Pn) by apply Hk. cbn [rbind]. rewrite (Hpos _ _ _ Pe) by apply Hk. cbn [rbind].
    rewrite (proj2 (from_components_iff _ _ (rsa_public k))) by (by destruct (rsa_public k)). cbn [rbind map_err].
    rewrite (Hpos _ _ _ Pd), (Hpos _ _ _ Pp), (Hpos _ _ _ Pq), (Hpos _ _ _ Pi) by done. done.
Qed.
End arithmetic.

(** ** Reading the written DER

    Reference readers of the three containers (RFC 8410 7, RFC 8017 A.1.2, RFC
    5915 3), over the strict DER reader of the SPKI conversion. *)

Definition TAG_OCTET_STRING : byte := x04.

Definition TAG_CONTEXT_0 : byte := xa0.

Definition TAG_CONTEXT_1 : byte := xa1.

(** The value of one field that fills its container. *)
Definition read_whole (tag : byte) (s : bytes) : result bytes SpkiError :=
  let? (c, rest) := read tag "" s in
  let? _ := finish "" rest in
  Ok c.

(** A field with a fixed value. *)
Definition read_fixed (tag : byte) (v s : bytes) : result bytes SpkiError :=
  let? (c, rest) := read tag "" s in
  if bytes_eqb c v then Ok rest else Err SpkiInvalidKey.

Definition read_pkcs8 (der : bytes) : result (list bytes) SpkiError :=
  let? s := read_whole TAG_SEQUENCE der in
  let? s := read_fixed TAG_INTEGER [x00] s in
  let? s := read_fixed TAG_SEQUENCE (tlv TAG_OID OID_ED25519 []) s in
  let? s := read_whole TAG_OCTET_STRING s in
  let? seed := read_whole TAG_OCTET_STRING s in
  Ok [seed].

Fixpoint read_integers (n : nat) (s : bytes) : result (list bytes) SpkiError :=
  match n with
  | O => let? _ := finish "" s in Ok []
  | S n => let? (m, rest) := read_positive_integer "" s in map_ok (cons m) (read_integers n rest)
  end.

Definition read_pkcs1 (der : bytes) : result (list bytes) SpkiError :=
  let? s := read_whole TAG_SEQUENCE der in
  let? s := read_fixed TAG_INTEGER [x00] s in
  read_integers 8 s.

Definition read_sec1 (der : bytes) : result (list bytes) SpkiError :=
  let? s := read_whole TAG_SEQUENCE der in
  let? s := read_fixed TAG_INTEGER [x01] s in
  let? (scalar, s) := read TAG_OCTET_STRING "" s in
  let? s := read_fixed TAG_CONTEXT_0 (tlv TAG_OID OID_PRIME256V1 []) s in
  let? s := read_whole TAG_CONTEXT_1 s in
  let? bits := read_whole TAG_BIT_STRING s in
  match bits with
  | unused :: point => if byte_eqb unused x00 then Ok [scalar; point] else Err SpkiInvalidKey
  | [] => Err SpkiInvalidKey
  end.

Definition read_private_key (d : PrivateKeyDer) : result (list bytes) SpkiError :=
  match format d with
  | Pkcs8 => read_pkcs8 (der_bytes d)
  | Pkcs1 => read_pkcs1 (der_bytes d)
  | Sec1 => read_sec1 (der_bytes d)
  end.

Lemma read_whole_tlv tag c : short c -> read_whole tag (tlv tag c []) = Ok c.
Proof. intros Hc. unfold read_whole. by rewrite read_tlv_end. Qed.

Lemma read_fixed_tlv tag v r : short v -> read_fixed tag v (tlv tag v [] ++ r) = Ok r.
Proof. intros Hc. unfold read_fixed. rewrite read_tlv by done. cbn [rbind]. by rewrite bytes_eqb_refl. Qed.

Lemma read_integers_spec l :
  Forall (fun m => magnitude m /\ zlen m <= 1024) l ->
  read_integers (length l) (mjoin (map (fun m => positive_integer m []) l)) = Ok l.
Proof.
  induction 1 as [|m l [Hm Hl] _ IH]; [done|]. cbn [length read_integers map].
  pose proof (int_content_len m).
  assert (read_positive_integer "" (positive_integer m [] ++ mjoin (map (fun m => positive_integer m []) l)) =
    Ok (m, mjoin (map (fun m => positive_integer m []) l))) as Hr by (apply read_integer_iff; split_and!; [done|lia|done]).
  change (mjoin (?x :: ?y)) with (x ++ mjoin y). rewrite Hr. cbn [rbind]. by rewrite IH.
Qed.

(** The writer, in the terms of the reader. *)
Lemma push_header_eq out tag n : push_header out tag n = out ++ tag :: len_bytes n.
Proof. unfold push_header, len_bytes. destruct (n <? 0x80); [|destruct (n <? 0x100)]; by rewrite <- app_assoc. Qed.

Definition written (m : bytes) : bytes := match m with [] => tlv TAG_INTEGER [x00] [] | _ => positive_integer m [] end.

Lemma push_integer_eq out m : push_integer out m = out ++ written m.
Proof.
  unfold push_integer. rewrite push_header_eq. unfold written, integer_content_len, needs_zero, positive_integer.
  destruct m as [|b m]; [by rewrite <- !app_assoc|]. cbn [head]. rewrite tlv_eq, zlen_app.
  destruct (high_bit b); rewrite <- ?app_assoc; cbn [app Z.b2z].
  - by rewrite (Z.add_comm (zlen (b :: m))).
  - by rewrite Z.add_0_r.
Qed.

Lemma header_len_eq n : header_len n = 1 + zlen (len_bytes n).
Proof. unfold header_len, len_bytes. destruct (n <? 0x80); [|destruct (n <? 0x100)]; done. Qed.

Lemma integer_len_eq m : integer_len m = zlen (written m).
Proof.
  unfold integer_len, written, integer_content_len, needs_zero, positive_integer. rewrite header_len_eq.
  destruct m as [|b m]; [done|]. cbn [head]. rewrite tlv_eq. cbn [app].
  destruct (high_bit b); cbn [Z.b2z app]; rewrite (zlen_cons TAG_INTEGER), zlen_app; [rewrite (zlen_cons x00)|].
  - rewrite (Z.add_comm (zlen (b :: m))). lia.
  - rewrite Z.add_0_r. lia.
Qed.

Lemma push_integers_eq l : forall out, foldl push_integer out l = out ++ mjoin (map written l).
Proof.
  induction l as [|m l IH]; intros out; cbn; [by rewrite app_nil_r|]. by rewrite IH, push_integer_eq, <- app_assoc.
Qed.

Lemma integer_lens_eq l : forall n, foldl Z.add n (map integer_len l) = n + zlen (mjoin (map written l)).
Proof.
  induction l as [|m l IH]; intros n; cbn [foldl map]; [change (zlen (mjoin [])) with 0; lia|].
  change (mjoin (?x :: ?y)) with (x ++ mjoin y).
  rewrite IH, integer_len_eq, zlen_app. lia.
Qed.

(** The allocation is exact, and the content is the sequence of the parts. *)
Lemma to_pkcs1_der_eq k :
  to_pkcs1_der k = Some (tlv TAG_SEQUENCE (mjoin (map written
    [[]; Rsa.n (rsa_public k); Rsa.e (rsa_public k); d k; p k; q k; dp k; dq k; iqmp k])) []).
Proof.
  unfold to_pkcs1_der. rewrite integer_lens_eq, push_integers_eq, push_header_eq, header_len_eq, Z.add_0_l.
  rewrite tlv_eq. cbn [app]. rewrite zlen_cons, zlen_app.
  match goal with |- (if ?a =? ?b then _ else _) = _ => destruct (Z.eqb_spec a b); [done|lia] end.
Qed.

(** Short lengths take one byte, so the fixed prefixes are these headers. *)
Lemma pkcs8_image seed :
  zlen seed = 32 ->
  ED25519_PKCS8_PREFIX ++ seed =
  tlv TAG_SEQUENCE (tlv TAG_INTEGER [x00] [] ++ tlv TAG_SEQUENCE (tlv TAG_OID OID_ED25519 []) [] ++
    tlv TAG_OCTET_STRING (tlv TAG_OCTET_STRING seed []) []) [].
Proof.
  intros Hl. rewrite (tlv_short TAG_OCTET_STRING seed 32) by done.
  rewrite (tlv_short TAG_OCTET_STRING _ 34) by (rewrite ?zlen_cons, ?Hl; done).
  rewrite (tlv_short TAG_SEQUENCE (_ ++ _) 46); [done| |done]. rewrite !zlen_app, !zlen_cons, Hl. done.
Qed.

Lemma sec1_image scalar point :
  zlen scalar = 32 -> zlen point = 65 ->
  P256_SEC1_PREFIX ++ scalar ++ P256_SEC1_MIDDLE ++ point =
  tlv TAG_SEQUENCE (tlv TAG_INTEGER [x01] [] ++ tlv TAG_OCTET_STRING scalar [] ++
    tlv TAG_CONTEXT_0 (tlv TAG_OID OID_PRIME256V1 []) [] ++
    tlv TAG_CONTEXT_1 (tlv TAG_BIT_STRING (x00 :: point) []) []) [].
Proof.
  intros Hs Hp. rewrite (tlv_short TAG_OCTET_STRING scalar 32) by done.
  rewrite (tlv_short TAG_BIT_STRING _ 66) by (rewrite ?zlen_cons, ?Hp; done).
  rewrite (tlv_short TAG_CONTEXT_1 _ 68) by (rewrite ?zlen_cons, ?Hp; done).
  rewrite (tlv_short TAG_SEQUENCE _ 119); [|rewrite !zlen_app, !zlen_cons, Hs, Hp; done|done].
  cbn [app]. by rewrite <- ?app_assoc.
Qed.

(** ** Every accepted key *)

Section accepted.
Context `{D : Dalek, !DalekLaws D, Sk : SshKey, !SshKeyLaws Sk, !DalekSigning D, U : U8192, UL : !U8192Laws U}.
Variable f : Features.

(** The public half. *)
Definition public_half (k : HostPrivateKey) : HostKey.t :=
  match k with
  | PkEd25519 k => HostKey.Ed25519 (ed_public k)
  | PkRsa k => HostKey.Rsa (rsa_public k)
  | PkEcdsaP256 k => HostKey.EcdsaP256 (ec_public k)
  end.

(** The private half belongs to it, as far as this crate checks. *)
Definition private_key_ok (k : HostPrivateKey) : Prop :=
  host_key_ok (public_half k) /\
  match k with
  | PkEd25519 k => zlen (seed k) = 32 /\ vk_as_bytes (sk_verifying_key (seed k)) = Ed25519.as_bytes (ed_public k)
  | PkRsa k => rsa_private_ok k
  | PkEcdsaP256 k => zlen (scalar k) = 32 /\ be_val (scalar k) <> 0
  end.

(** The secrets a TLS stack has to find in the converted key. *)
Definition key_contents (k : HostPrivateKey) : list bytes :=
  match k with
  | PkEd25519 k => [seed k]
  | PkRsa k => [Rsa.n (rsa_public k); Rsa.e (rsa_public k); d k; p k; q k; dp k; dq k; iqmp k]
  | PkEcdsaP256 k => [scalar k; Ecdsa.point (ec_public k)]
  end.

Lemma rsa_parts_short k :
  rsa_private_ok k -> Forall (fun m => magnitude m /\ zlen m <= 1024) (key_contents (PkRsa k)).
Proof.
  intros (Hk & (Hd & Hp & Hq & Hi) & Hm & Hl & Hp1 & Hq1 & Hil & [Hdp Vdp] & [Hdq Vdq]).
  destruct (rsa_key_lengths _ Hk) as [Hle Hln].
  destruct (lengths_follow (Rsa.n (rsa_public k)) (d k) (p k) (q k)) as (? & ? & ?); [apply Hk|done..|].
  assert (forall a r, 1 < be_val a -> magnitude a -> magnitude r -> be_val r = be_val (d k) mod (be_val a - 1) ->
    zlen r <= zlen a) as Hrem.
  { intros a r Ha Hma Hmr Hr. apply magnitude_lt; [apply zlen_nonneg|done|]. pose proof (be_val_range a).
    pose proof (Z.mod_pos_bound (be_val (d k)) (be_val a - 1) ltac:(lia)). lia. }
  pose proof (Hrem (p k) (dp k) Hp1 Hp Hdp Vdp). pose proof (Hrem (q k) (dq k) Hq1 Hq Hdq Vdq).
  cbn [key_contents]. repeat (apply Forall_cons; split); [..|by apply Forall_nil]; split; try done; try lia; apply Hk.
Qed.

Lemma ints_short l :
  Forall (fun m => magnitude m /\ zlen m <= 1024) l ->
  zlen (mjoin (map (fun m => positive_integer m []) l)) <= 1029 * zlen l.
Proof.
  induction 1 as [|m l [_ Hm] _ IH]; [done|]. cbn [map]. change (mjoin (?x :: ?y)) with (x ++ mjoin y).
  rewrite zlen_app, zlen_cons. pose proof (int_content_len m). pose proof (zlen_tlv TAG_INTEGER (int_content m)).
  unfold positive_integer at 1. fold (int_content m). lia.
Qed.

Lemma pkcs8_reads seed : zlen seed = 32 -> read_pkcs8 (ED25519_PKCS8_PREFIX ++ seed) = Ok [seed].
Proof.
  intros Hl. unfold read_pkcs8. rewrite pkcs8_image by done.
  pose proof (zlen_tlv TAG_OCTET_STRING seed). pose proof (zlen_tlv TAG_OCTET_STRING (tlv TAG_OCTET_STRING seed [])).
  rewrite read_whole_tlv; [|unfold short; rewrite !zlen_app; change (zlen (tlv TAG_INTEGER _ _)) with 3;
    change (zlen (tlv TAG_SEQUENCE _ _)) with 7; lia].
  cbn [rbind]. rewrite read_fixed_tlv by done. cbn [rbind]. rewrite read_fixed_tlv by done. cbn [rbind].
  rewrite read_whole_tlv by (unfold short; lia). cbn [rbind]. by rewrite read_whole_tlv by (unfold short; lia).
Qed.

Lemma pkcs1_reads k :
  rsa_private_ok k -> exists der, to_pkcs1_der k = Some der /\ read_pkcs1 der = Ok (key_contents (PkRsa k)).
Proof.
  intros Hk. rewrite to_pkcs1_der_eq. eexists. split; [done|]. unfold read_pkcs1.
  pose proof (rsa_parts_short k Hk) as Hs. pose proof (ints_short _ Hs) as Hz.
  assert (map written ([] :: key_contents (PkRsa k)) =
    tlv TAG_INTEGER [x00] [] :: map (fun m => positive_integer m []) (key_contents (PkRsa k))) as Hw.
  { cbn [map]. f_equal. clear Hz. induction Hs as [|m l [Hm _] _ IH]; [done|]. cbn [map]. rewrite IH. by destruct m. }
  change ([] :: Rsa.n _ :: ?l) with ([] :: key_contents (PkRsa k)). rewrite Hw.
  change (mjoin (?x :: ?y)) with (x ++ mjoin y).
  rewrite read_whole_tlv; [|unfold short; rewrite zlen_app; change (zlen (tlv TAG_INTEGER _ _)) with 3;
    change (zlen (key_contents (PkRsa k))) with 8 in Hz; lia].
  cbn [rbind]. rewrite read_fixed_tlv by done. exact (read_integers_spec _ Hs).
Qed.

Lemma sec1_reads scalar point :
  zlen scalar = 32 -> zlen point = 65 ->
  read_sec1 (P256_SEC1_PREFIX ++ scalar ++ P256_SEC1_MIDDLE ++ point) = Ok [scalar; point].
Proof.
  intros Hs Hp. unfold read_sec1. rewrite sec1_image by done.
  pose proof (zlen_tlv TAG_OCTET_STRING scalar). pose proof (zlen_tlv TAG_BIT_STRING (x00 :: point)).
  pose proof (zlen_tlv TAG_CONTEXT_1 (tlv TAG_BIT_STRING (x00 :: point) [])). rewrite zlen_cons in *.
  rewrite read_whole_tlv; [|unfold short; rewrite !zlen_app; change (zlen (tlv TAG_INTEGER _ _)) with 3;
    change (zlen (tlv TAG_CONTEXT_0 _ _)) with 12; lia].
  cbn [rbind]. rewrite read_fixed_tlv by done. cbn [rbind]. rewrite read_tlv by (unfold short; lia). cbn [rbind].
  rewrite read_fixed_tlv by done. cbn [rbind]. rewrite read_whole_tlv by (unfold short; lia). cbn [rbind].
  by rewrite read_whole_tlv by (unfold short; rewrite zlen_cons; lia).
Qed.

Lemma der_reads k :
  private_key_ok k -> exists d, to_private_key_der k = Some d /\ read_private_key d = Ok (key_contents k).
Proof.
  intros [Hh Hk]. destruct k as [k|k|k]; cbn [to_private_key_der].
  - destruct Hk as [Hl _]. eexists. split; [done|]. by apply pkcs8_reads.
  - destruct (pkcs1_reads k Hk) as (der & -> & Hr). by exists (mkDer Pkcs1 der).
  - destruct Hh as [Hp _]. destruct Hk as [Hs _]. change Ecdsa.P256_POINT_LEN with 65 in Hp.
    unfold to_sec1_der. rewrite !zlen_app. cbn [public_half] in Hp. rewrite Hs, Hp.
    eexists. split; [done|]. by apply sec1_reads.
Qed.

(** ** Acceptance *)

Lemma windows_spec (m : bytes) l :
  m <> [] -> existsb (fun w => bytes_eqb w m) (windows (zlen m) l) = true <-> exists pre post, l = pre ++ m ++ post.
Proof.
  intros Hm. assert (0 < zlen m) by (destruct m; [done|rewrite zlen_cons; pose proof (zlen_nonneg m); lia]).
  induction l as [|b l IH].
  - cbn [windows]. destruct (zlen [] <? zlen m); cbn [existsb]; (split; [done|]);
      intros (pre & post & Hl); destruct pre, m; done.
  - cbn [windows]. destruct (Z.ltb_spec (zlen (b :: l)) (zlen m)) as [Hs|Hs]; cbn [existsb].
    + split; [done|]. intros (pre & post & Hl). rewrite Hl, !zlen_app in Hs.
      pose proof (zlen_nonneg pre). pose proof (zlen_nonneg post). lia.
    + rewrite orb_true_iff, IH, bytes_eqb_eq. split.
      * intros [Ht|(pre & post & ->)]; [|by exists (b :: pre), post].
        exists [], (zdrop (zlen m) (b :: l)). cbn [app]. by rewrite <- (ztake_zdrop (zlen m) (b :: l)), Ht at 1.
      * intros ([|c pre] & post & Hl); [left; rewrite Hl; cbn [app]; by apply ztake_app_exact|right].
        injection Hl as -> ->. by exists pre, post.
Qed.

Lemma decode_iff text key :
  decode text = Ok key <->
  zlen text <= MAX_PRIVATE_KEY_BYTES /\ (exists pre post, text = pre ++ MARKER ++ post) /\
  sk_from_openssh text = Ok key /\ sk_is_encrypted key = false.
Proof.
  unfold decode. change 35 with (zlen MARKER). rewrite <- windows_spec by done.
  destruct (Z.ltb_spec MAX_PRIVATE_KEY_BYTES (zlen text)); [split; [done|lia]|].
  destruct (existsb _ _); cbn [negb]; [|naive_solver].
  destruct (sk_from_openssh text) as [k|e]; cbn [map_err rbind]; [|naive_solver].
  destruct (sk_is_encrypted k) eqn:E; split; try done.
  - intros (_ & _ & [= <-] & ?). congruence.
  - intros [= <-]. done.
  - by intros (_ & _ & [= <-] & ?).
Qed.

(** Which key a parsed container holds. *)
Definition holds (data : KeypairData SkMpint) (k : HostPrivateKey) : Prop :=
  match data, k with
  | KpEd25519 public private, PkEd25519 k => public = Ed25519.as_bytes (ed_public k) /\ private = seed k
  | KpRsa e' n' d' iqmp' p' q', PkRsa k =>
      as_positive_bytes e' = Some (Rsa.e (rsa_public k)) /\ as_positive_bytes n' = Some (Rsa.n (rsa_public k)) /\
      as_positive_bytes d' = Some (d k) /\ as_positive_bytes iqmp' = Some (iqmp k) /\
      as_positive_bytes p' = Some (p k) /\ as_positive_bytes q' = Some (q k)
  | KpNistP256 public private, PkEcdsaP256 k => public = Ecdsa.point (ec_public k) /\ private = scalar k
  | _, _ => False
  end.

Lemma ed25519_keypair_iff key k :
  ed25519_from_keypair key = Ok k <-> holds (sk_key_data key) (PkEd25519 k) /\ private_key_ok (PkEd25519 k).
Proof.
  unfold ed25519_from_keypair, private_key_ok. pose proof (sk_ed25519_lengths key) as Hlen.
  destruct (sk_key_data key) as [public private| | |]; cbn [holds public_half host_key_ok]; try naive_solver.
  destruct (Hlen _ _ eq_refl) as [_ Hl]. unfold Ed25519.from_bytes. split.
  - intros (v & Hv%map_err_ok & H1)%rbind_Ok. apply map_ok_iff in Hv as (vk & Hv & ->).
    destruct (bytes_eqb _ _) eqn:E; [|done]. apply bytes_eqb_eq in E. apply Ok_inj in H1 as <-. cbn in *.
    destruct (vk_from_bytes public) as [v|] eqn:Ev; [|done]. injection Hv as ->.
    pose proof (vk_from_as_bytes _ _ Ev). naive_solver.
  - cbn. intros ((-> & ->) & Hv & _ & E). rewrite Hv. cbn. rewrite E, bytes_eqb_refl. by destruct k as [? []].
Qed.

Lemma all_zero s : forallb (fun b => byte_eqb b x00) s = true <-> be_val s = 0.
Proof.
  induction s as [|b s IH]; [done|]. cbn [forallb be_val]. rewrite andb_true_iff, IH, byte_eqb_spec, bool_decide_eq_true.
  pose proof (be_val_range s). pose proof (u8_range b).
  assert (0 < 256 ^ zlen s) by (apply Z.pow_pos_nonneg; [lia|apply zlen_nonneg]).
  rewrite <- zero_unused. nia.
Qed.

Lemma ecdsa_parts_iff point private k :
  ecdsa_from_parts point private = Ok k <->
  holds (KpNistP256 point private) (PkEcdsaP256 k) /\ private_key_ok (PkEcdsaP256 k).
Proof.
  unfold ecdsa_from_parts, private_key_ok. cbn [holds public_half host_key_ok]. split.
  - intros (v & Hv%map_err_ok & H1)%rbind_Ok. apply from_point_iff in Hv as [-> Hp].
    destruct (Z.eqb_spec (zlen private) 32); [|done]. cbn [negb] in H1.
    destruct (forallb _ _) eqn:E; [done|]. apply Ok_inj in H1 as <-. cbn. split_and!; try done.
    intros H0%all_zero. congruence.
  - intros ((-> & ->) & Hp & Hl & Hz).
    rewrite (proj2 (from_point_iff _ (ec_public k))) by (by destruct (ec_public k)). cbn [map_err rbind]. rewrite Hl. cbn [Z.eqb negb Pos.eqb].
    destruct (forallb _ _) eqn:E; [by apply all_zero in E|]. by destruct k.
Qed.

Lemma from_openssh_spec text :
  feat_ed25519 f = true ->
  exists r, from_openssh f text = Some r /\
    forall k, r = Ok k <->
      (exists key, decode text = Ok key /\ holds (sk_key_data key) k) /\
      private_key_ok k /\ KeyType.is_enabled f (key_type k) = true.
Proof.
  intros He. unfold from_openssh. destruct (decode text) as [key|e] eqn:Ed; [|eexists; naive_solver].
  assert (forall k, (exists key', @Ok _ PrivateKeyError key = Ok key' /\ holds (sk_key_data key') k) <->
    holds (sk_key_data key) k) as Hex by (intros; naive_solver).
  setoid_rewrite Hex. clear Hex. pose proof (ed25519_keypair_iff key) as Hed.
  destruct (sk_key_data key) as [public private|e n d' i p' q'|public private|] eqn:Ek.
  - eexists. split; [done|]. intros k. rewrite map_ok_iff. setoid_rewrite Hed. destruct k as [k|k|k]; cbn; naive_solver.
  - destruct (feat_rsa f) eqn:Ef.
    + destruct (rsa_from_keypair_spec e n d' i p' q') as (r & -> & Hr). eexists. split; [done|].
      intros k. rewrite map_ok_iff. setoid_rewrite Hr. unfold private_key_ok. destruct k as [k|k|k]; cbn;
        [naive_solver| |naive_solver]. rewrite Ef. split; [|naive_solver].
      intros (a & Ha & [= ->]). destruct Ha as (?&?&?&?&?&?&Hok). split_and!; try done. apply Hok.
    + eexists. split; [done|]. intros [k|k|k]; cbn; naive_solver congruence.
  - destruct (feat_ecdsa_p256 f) eqn:Ef.
    + eexists. split; [done|]. intros k. rewrite map_ok_iff. setoid_rewrite ecdsa_parts_iff.
      destruct k as [k|k|k]; cbn; naive_solver.
    + eexists. split; [done|]. intros [k|k|k]; cbn; naive_solver congruence.
  - eexists. split; [done|]. intros [k|k|k]; cbn; naive_solver.
Qed.
End accepted.

(** ** The theorems *)

Section theorems.
Context `{D : Dalek, !DalekLaws D, Sk : SshKey, !SshKeyLaws Sk, !DalekSigning D, U : U8192, UL : !U8192Laws U}.

(** A private key file is accepted exactly when it is within the size
    limit, contains the OpenSSH marker, parses, is not encrypted, holds a key
    of an enabled type, and that key is consistent: the Ed25519 public key is
    derived from the seed; for RSA, [p q = n], [d < n], both factors exceed one
    and the CRT exponents are [d mod (p - 1)] and [d mod (q - 1)], not zero;
    the P-256 scalar is 32 bytes and not zero. No file panics. *)
Theorem private_key_exact (f : Features) (text : bytes) (H : feat_ed25519 f = true) :
  exists r, from_openssh f text = Some r /\
    forall k, r = Ok k <->
      (zlen text <= MAX_PRIVATE_KEY_BYTES /\ (exists pre post, text = pre ++ MARKER ++ post) /\
       exists key, sk_from_openssh text = Ok key /\ sk_is_encrypted key = false /\ holds (sk_key_data key) k) /\
      private_key_ok k /\ KeyType.is_enabled f (key_type k) = true.
Proof.
  destruct (from_openssh_spec f text H) as (r & Hr & Hiff). exists r. split; [done|]. intros k. rewrite Hiff.
  setoid_rewrite decode_iff. naive_solver.
Qed.

(** Converting an accepted key never trips its length assertion, the DER
    has the strict structure of its format (PKCS#8, PKCS#1, SEC1) and carries
    exactly the key's secrets, and the blob the key presents parses back to its
    public half. *)
Theorem private_key_der_reads (f : Features) (text : bytes) (k : HostPrivateKey)
    (H : feat_ed25519 f = true) (Hk : from_openssh f text = Some (Ok k)) :
  (exists d, to_private_key_der k = Some d /\ read_private_key d = Ok (key_contents k)) /\
  HostKey.parse f (ssh_blob k) = Ok (public_half k).
Proof.
  destruct (from_openssh_spec f text H) as (r & Hr & Hiff). rewrite Hk in Hr. injection Hr as <-.
  destruct (proj1 (Hiff k) eq_refl) as (_ & Hok & He). split; [by apply der_reads|].
  assert (ssh_blob k = HostKey.to_blob (public_half k)) as -> by (by destruct k).
  apply parse_iff. split_and!; [by destruct k|apply Hok|apply to_blob_image, Hok].
Qed.
End theorems.

(** ** A concrete instance *)

(** Words as integers taken modulo their width [m]. *)
Definition words_mod (m : Z) : U8192 := {|
  W := Z;
  w_from_be_slice := be_val;
  w_to_be_bytes a := be_bytes 1024 (a mod m);
  w_zero := 0;
  w_one := 1;
  w_eqb a b := a mod m =? b mod m;
  w_geb a b := b mod m <=? a mod m;
  w_mul_wide a b := let x := (a mod m) * (b mod m) in (x mod m, x / m);
  w_wrapping_sub a b := (a - b) mod m;
  w_rem a b := (a mod m) mod (b mod m)
|}.

Lemma mod_mul_wide m a b :
  1 < m ->
  let x := (a mod m) * (b mod m) in x = ((x / m) mod m) * m + (x mod m) mod m.
Proof.
  intros H1 x. pose proof (Z.mod_pos_bound a m ltac:(lia)). pose proof (Z.mod_pos_bound b m ltac:(lia)).
  rewrite Z.mod_mod by lia.
  rewrite (Z.mod_small (x / m)); [rewrite Z.mul_comm; apply Z.div_mod; lia|].
  split; [apply Z.div_pos; nia|]. apply Z.div_lt_upper_bound; nia.
Qed.

Definition words_mod_laws (m : Z) (HM : m = 256 ^ 1024) (H1 : 1 < m) : U8192Laws (words_mod m).
Proof.
  unshelve econstructor; [exact (fun a => a mod m)|..]; rewrite <- ?HM.
  - intros a. apply Z.mod_pos_bound. lia.
  - intros b Hb. apply Z.mod_small. rewrite HM, <- Hb. apply be_val_range.
  - done.
  - done.
  - apply Z.mod_small. clear HM. lia.
  - done.
  - done.
  - intros a b. by apply mod_mul_wide.
  - intros a b. clear HM. unfold w_wrapping_sub, words_mod. rewrite Z.mod_mod by lia. apply Zminus_mod.
  - intros a b Hb. clear HM. unfold w_rem, words_mod in *.
    pose proof (Z.mod_pos_bound b m ltac:(lia)). pose proof (Z.mod_pos_bound a m ltac:(lia)).
    pose proof (Z.mod_pos_bound (a mod m) (b mod m) ltac:(lia)). apply Z.mod_small. lia.
Defined.

#[local] Instance u8192_ref : U8192 := words_mod (256 ^ 1024).

#[local] Instance u8192_ref_laws : U8192Laws u8192_ref := words_mod_laws _ eq_refl eq_refl.

(** A parser that finds one RSA pair: [p = q = 2^1024 - 1], [e = 65537] and
    [d = 5]. *)
Definition ones : bytes := replicate 128 xff.

Definition n_bytes : bytes := replicate 127 xff ++ [xfe] ++ replicate 127 x00 ++ [x01].

#[local] Instance one_pair : SshKey := {|
  SkMpint := bytes;
  as_positive_bytes b := match b with [] => None | c :: _ => if u8 c =? 0 then None else Some b end;
  SkPrivateKey := unit;
  sk_is_encrypted _ := false;
  sk_algorithm _ := "ssh-rsa"%string;
  sk_key_data _ := KpRsa [x01; x00; x01] n_bytes [x05] [x01] ones ones;
  sk_from_openssh _ := Ok tt
|}.

#[local] Instance one_pair_laws : SshKeyLaws one_pair.
Proof.
  split; [|done]. intros [|c m] b; cbn; [done|]. destruct (Z.eqb_spec (u8 c) 0); [done|]. intros [= <-]. by right.
Qed.

#[local] Existing Instance one_key.
#[local] Existing Instance one_key_laws.

#[local] Instance one_signer : DalekSigning one_key := {| sk_verifying_key _ := tt |}.

Definition demo_key : HostPrivateKey :=
  PkRsa (mkRsa (Rsa.mk [x01; x00; x01] n_bytes) [x05] ones ones [x01] [x05] [x05]).

Lemma demo_accepted : from_openssh (mkFeatures true true true) MARKER = Some (Ok demo_key).
Proof. vm_compute. reflexivity. Qed.

(** The pair is accepted, so its integers satisfy the checks. *)
Lemma private_key_exact_witness : private_key_ok demo_key.
Proof.
  destruct (private_key_exact (mkFeatures true true true) MARKER eq_refl) as (r & Hr & Hiff).
  rewrite demo_accepted in Hr. injection Hr as <-. apply (Hiff demo_key). reflexivity.
Defined.

Lemma private_key_der_reads_witness :
  exists d, to_private_key_der demo_key = Some d /\
    read_private_key d = Ok [n_bytes; [x01; x00; x01]; [x05]; ones; ones; [x05]; [x05]; [x01]].
Proof.
  apply (private_key_der_reads (mkFeatures true true true) MARKER demo_key eq_refl demo_accepted).
Defined.
