(* ===== verification/KnownHosts.v ===== *)
(** * known_hosts

    Models crates/tatami_ssh_keys/src/known_hosts.rs and the hashed host names of
    crates/tatami_ssh_openssh_compat/src/lib.rs: the line parser, the host
    patterns, the lookup name and the trust decision. The padded base64 codec
    (base64ct) and HMAC-SHA1 (hmac, sha1) are the parameters [Base64Padded] and
    [HmacSha1]; whether the feature [openssh-hashed-hosts] is on is an argument.
    A [str] is its bytes; line numbers and indices are within [usize] because
    they count the bytes of a slice. *)

From S2P Require Import Prelude WireError NameList Primitives Messages KexInit KeyAlgorithm HostKey HostKeyProps.
From S2P Require Import Packet Gcm Transcript Trust.

(** [Base64::decode] and [encode] of whole byte strings (padded, standard alphabet). *)
Class Base64Padded := { bp_decode : bytes -> option bytes; bp_encode : bytes -> bytes }.

(** The documented behaviour relied on: decoding inverts encoding, an encoding
    uses only the alphabet [A-Za-z0-9+/=], and only no bytes encode to nothing. *)
Class Base64PaddedLaws `{Base64Padded} : Prop := {
  bp_roundtrip : forall d, bp_decode (bp_encode d) = Some d;
  bp_alphabet : forall d, Forall (fun c => 43 <= u8 c <= 122) (bp_encode d);
  bp_nonempty : forall d, d <> [] -> bp_encode d <> []
}.

(** [Hmac::<Sha1>]: key and message; [verify_slice] compares the whole digest. *)
Class HmacSha1 := { hmac_sha1 : bytes -> bytes -> bytes }.

(** ** The standard library *)

(** [slice::split]. *)
Fixpoint split_on (sep : byte -> bool) (l : bytes) : list bytes :=
  match l with
  | [] => [[]]
  | b :: l' =>
      if sep b then [] :: split_on sep l'
      else match split_on sep l' with
           | w :: ws => (b :: w) :: ws
           | [] => [[b]]
           end
  end.

(** [u8::to_ascii_lowercase], byte by byte. *)
Definition ascii_lower (b : byte) : byte :=
  if (65 <=? u8 b) && (u8 b <=? 90) then byte_of_Z (u8 b + 32) else b.

Definition to_ascii_lowercase (l : bytes) : bytes := map ascii_lower l.

(** Whether [str::from_utf8] accepts the bytes (well-formed UTF-8). *)
Definition utf8_tail (b : byte) : bool := (128 <=? u8 b) && (u8 b <=? 191).

Fixpoint utf8_ok (l : bytes) : bool :=
  match l with
  | [] => true
  | b0 :: l1 =>
      let c := u8 b0 in
      if c <? 128 then utf8_ok l1 else
      match l1 with
      | [] => false
      | b1 :: l2 =>
          if (194 <=? c) && (c <=? 223) then utf8_tail b1 && utf8_ok l2 else
          match l2 with
          | [] => false
          | b2 :: l3 =>
              let low := if c =? 224 then 160 else 128 in
              let high := if c =? 237 then 159 else 191 in
              if (224 <=? c) && (c <=? 239)
              then (low <=? u8 b1) && (u8 b1 <=? high) && utf8_tail b2 && utf8_ok l3 else
              match l3 with
              | [] => false
              | b3 :: l4 =>
                  let low := if c =? 240 then 144 else 128 in
                  let high := if c =? 244 then 143 else 191 in
                  (240 <=? c) && (c <=? 244) && (low <=? u8 b1) && (u8 b1 <=? high) &&
                  utf8_tail b2 && utf8_tail b3 && utf8_ok l4
              end
          end
      end
  end.

(** [u16]'s [Display]: at most five decimal digits. *)
Fixpoint decimal (digits : nat) (v : Z) : bytes :=
  match digits with
  | O => []
  | S d => (if v <? 10 then [] else decimal d (v / 10)) ++ [byte_of_Z (48 + v mod 10)]
  end.

Definition display_u16 (v : Z) : bytes := decimal 5 v.

(** ** Hashed host names *)

Module HashedHost.

(* compat/lib.rs:45-45 HASH_LEN *)
Definition HASH_LEN : Z := 20.

(* compat/lib.rs:47-47 MAX_STORED_FIELD_LEN *)
Definition MAX_STORED_FIELD_LEN : Z := 128.

(* compat/lib.rs:50-50 MAX_LOOKUP_NAME_LEN *)
Definition MAX_LOOKUP_NAME_LEN : Z := 1024.

(* compat/lib.rs:52-52 DECODE_BUF_LEN *)
Definition DECODE_BUF_LEN : Z := MAX_STORED_FIELD_LEN / 4 * 3.

(* compat/lib.rs:56-69 HashedHostnameError *)
Inductive HashedHostnameError : Type :=
| StoredFieldTooLong
| LookupNameTooLong
| Grammar
| HashedBase64
| SaltLength
| DigestLength.

(** The decoder and the encoder fail when their output does not fit. *)
(* compat/lib.rs:123-136 decode_part *)
Definition decode_part `{Base64Padded} (text : bytes) (length_error : HashedHostnameError) :
    result bytes HashedHostnameError :=
  let? decoded := ok_or (bp_decode text) HashedBase64 in
  if DECODE_BUF_LEN <? zlen decoded then Err HashedBase64 else
  let canonical := bp_encode decoded in
  if MAX_STORED_FIELD_LEN <? zlen canonical then Err HashedBase64 else
  if negb (bytes_eqb canonical text) then Err HashedBase64 else
  if zlen decoded =? HASH_LEN then Ok decoded else Err length_error.

(* compat/lib.rs:95-119 matches_hashed_hostname *)
Definition matches_hashed_hostname `{Base64Padded, HmacSha1} (stored_field lookup_name : bytes) :
    result bool HashedHostnameError :=
  if MAX_STORED_FIELD_LEN <? zlen stored_field then Err StoredFieldTooLong else
  if MAX_LOOKUP_NAME_LEN <? zlen lookup_name then Err LookupNameTooLong else
  let? rest := ok_or (strip_prefix (bstr "|1|") stored_field) Grammar in
  match split_on (fun b => byte_eqb b "|") rest with
  | [salt; digest] =>
      let? salt := decode_part salt SaltLength in
      let? digest := decode_part digest DigestLength in
      Ok (bytes_eqb (hmac_sha1 salt lookup_name) digest)
  | _ => Err Grammar
  end.

End HashedHost.

(** ** Data *)

(* keys/known_hosts.rs:88-88 DEFAULT_PORT *)
Definition DEFAULT_PORT : Z := 22.

(* keys/known_hosts.rs:93-93 MAX_LOOKUP_NAME_BYTES *)
Definition MAX_LOOKUP_NAME_BYTES : Z := 1024.

(* keys/known_hosts.rs:97-106 Limits *)
Record Limits : Type := mkLimits {
  max_file_bytes : Z;
  max_line_bytes : Z;
  max_entries : Z;
  max_patterns_per_line : Z
}.

(* keys/known_hosts.rs:111-118 Limits::default *)
Definition Limits_default : Limits := mkLimits (Z.shiftl 1 20) (16 * 1024) 10000 256.

(* keys/known_hosts.rs:123-131 Marker *)
Inductive Marker : Type := MarkNone | MarkRevoked | MarkCertAuthority.

#[export] Instance marker_eq_decision : EqDecision Marker.
Proof. solve_decision. Defined.

(* keys/known_hosts.rs:135-161 Malformed *)
Inductive Malformed : Type :=
| UnknownMarker
| MissingField (what : string)
| EmptyPattern
| MalformedHashedHost
| MalformedBase64
| MalformedBlob
| KeyTypeMismatch
| MalformedKey (key_type : KeyType.t)
| NulByte.

(* keys/known_hosts.rs:181-185 Unsupported *)
Inductive Unsupported : Type := HashedHostnames.

(* keys/known_hosts.rs:200-240 KnownHostsError *)
Inductive KnownHostsError : Type :=
| FileTooLarge (limit : Z)
| LineTooLong (line limit : Z)
| TooManyEntries (limit : Z)
| TooManyPatterns (line limit : Z)
| MalformedLine (line : Z) (what : Malformed)
| UnsupportedLine (line : Z) (what : Unsupported).

(* keys/known_hosts.rs:245-253 KnownHostsError::line *)
Definition error_line (e : KnownHostsError) : option Z :=
  match e with
  | LineTooLong line _ | TooManyPatterns line _ | MalformedLine line _ | UnsupportedLine line _ => Some line
  | FileTooLarge _ | TooManyEntries _ => None
  end.

(* keys/known_hosts.rs:288-297 LookupNameError *)
Inductive LookupNameError : Type := LookupEmpty | InvalidCharacter | LookupTooLong.

(** The bytes a host may not contain. *)
Definition host_byte_refused (b : byte) : bool :=
  (u8 b <=? 32) || (u8 b =? 127) || existsb (byte_eqb b) (bstr ",[]*?!").

(* keys/known_hosts.rs:316-336 lookup_name *)
Definition lookup_name (host : bytes) (port : Z) : result bytes LookupNameError :=
  if zlen host =? 0 then Err LookupEmpty else
  if existsb host_byte_refused host then Err InvalidCharacter else
  let lower := to_ascii_lowercase host in
  let name := if port =? DEFAULT_PORT then lower
              else bstr "[" ++ lower ++ bstr "]:" ++ display_u16 port in
  if MAX_LOOKUP_NAME_BYTES <? zlen name then Err LookupTooLong else Ok name.

(* keys/known_hosts.rs:339-343 Pattern *)
Record Pattern : Type := mkPattern { negated : bool; text : bytes }.

(* keys/known_hosts.rs:346-351 Hosts *)
Inductive Hosts : Type := HostPatterns (l : list Pattern) | HostHashed (field : bytes).

Module Entry.

(* keys/known_hosts.rs:355-361 Entry *)
Record t : Type := mk { line : Z; marker : Marker; hosts : Hosts; key_type : bytes; blob : bytes }.

(* keys/known_hosts.rs:392-398 Entry::is_hashed *)
Definition is_hashed (self : t) : bool := match hosts self with HostHashed _ => true | HostPatterns _ => false end.

End Entry.

(** ** Pattern matching *)

(** The loop, from indices [p] and [n] and the last star with the name position
    it was tried at. [None]: the fuel ran out, or the final slice
    [pattern\[p..\]] is out of range (see [glob_match_total]). *)
(* keys/known_hosts.rs:701-716 glob_match *)
Fixpoint glob_loop (fuel : nat) (pattern name : bytes) (p n : nat) (star : option (nat * nat)) : option bool :=
  match fuel with
  | O => None
  | S fuel' =>
      match name !! n with
      | None =>
          if bool_decide (p <= length pattern)%nat
          then Some (forallb (fun b => byte_eqb b "*") (drop p pattern)) else None
      | Some c =>
          let at_p f := match pattern !! p with Some b => f b | None => false end in
          if at_p (fun b => byte_eqb b "?" || byte_eqb b c) then glob_loop fuel' pattern name (p + 1) (n + 1) star
          else if at_p (fun b => byte_eqb b "*") then glob_loop fuel' pattern name (p + 1) n (Some (p, n))
          else match star with
               | Some (sp, sn) => glob_loop fuel' pattern name (sp + 1) (sn + 1) (Some (sp, (sn + 1)%nat))
               | None => Some false
               end
      end
  end.

(* keys/known_hosts.rs:698-717 glob_match *)
Definition glob_match (pattern name : bytes) : option bool :=
  glob_loop (S (length name * S (length pattern) + length pattern)) pattern name 0 0 None.

Module Applicable.

(* keys/known_hosts.rs:506-511 Applicable *)
Record t : Type := mk { line : Z; marker : Marker; key_type : bytes; blob : bytes }.

End Applicable.

(* keys/known_hosts.rs:433-435 KnownHosts *)
Record KnownHostsFile : Type := mkKnownHosts { entries : list Entry.t }.

(* keys/known_hosts.rs:516-519 KnownHostsPolicy *)
Record KnownHostsPolicy : Type := mkPolicy { bound_name : bytes; applicable : list Applicable.t }.

Section policy.
Context `{B : Base64Padded, HM : HmacSha1}.

(* keys/known_hosts.rs:415-426 Entry::applies_to *)
Fixpoint patterns_apply (patterns : list Pattern) (name : bytes) (positive : bool) : option bool :=
  match patterns with
  | [] => Some positive
  | p :: patterns' =>
      match glob_match (text p) name with
      | None => None
      | Some true => if negated p then Some false else patterns_apply patterns' name true
      | Some false => patterns_apply patterns' name positive
      end
  end.

(* keys/known_hosts.rs:405-428 Entry::applies_to *)
Definition applies_to (self : Entry.t) (name : bytes) : option bool :=
  match Entry.hosts self with
  | HostHashed field =>
      Some (match HashedHost.matches_hashed_hostname field name with Ok b => b | Err _ => false end)
  | HostPatterns patterns => patterns_apply patterns name false
  end.

(* keys/known_hosts.rs:491-496 KnownHosts::policy_for_name *)
Definition applicable_of (e : Entry.t) : Applicable.t :=
  Applicable.mk (Entry.line e) (Entry.marker e) (Entry.key_type e) (Entry.blob e).

(* keys/known_hosts.rs:487-497 KnownHosts::policy_for_name *)
Fixpoint collect_applicable (too_long : bool) (name : bytes) (l : list Entry.t) : option (list Applicable.t) :=
  match l with
  | [] => Some []
  | e :: l' =>
      match (if too_long then Some false else applies_to e name) with
      | None => None
      | Some a =>
          let* rest := collect_applicable too_long name l' in
          Some (if a : bool then applicable_of e :: rest else rest)
      end
  end.

(* keys/known_hosts.rs:485-502 KnownHosts::policy_for_name *)
Definition policy_for_name (self : KnownHostsFile) (name : bytes) : option KnownHostsPolicy :=
  let too_long := MAX_LOOKUP_NAME_BYTES <? zlen name in
  let* l := collect_applicable too_long name (entries self) in
  Some (mkPolicy name l).

(* keys/known_hosts.rs:476-479 KnownHosts::policy_for *)
Definition policy_for (self : KnownHostsFile) (host : bytes) (port : Z) :
    option (result KnownHostsPolicy LookupNameError) :=
  match lookup_name host port with
  | Err e => Some (Err e)
  | Ok name => let* p := policy_for_name self name in Some (Ok p)
  end.

(* keys/known_hosts.rs:530-532 KnownHostsPolicy::applicable_entries *)
Definition applicable_entries (self : KnownHostsPolicy) : Z := zlen (applicable self).

Definition marked (m : Marker) (a : Applicable.t) : bool := bool_decide (Applicable.marker a = m).

(* keys/known_hosts.rs:536-571 KnownHostsPolicy::decide *)
Definition known_hosts_decide (self : KnownHostsPolicy) (host : HostIdentity) : TrustDecision :=
  let lists a := bytes_eqb (Applicable.blob a) (id_blob host) in
  match List.find (fun a => marked MarkRevoked a && lists a) (applicable self) with
  | Some r => Untrusted (Revoked (Applicable.line r))
  | None =>
  match List.find (fun a => marked MarkNone a && lists a) (applicable self) with
  | Some t => Trusted (KnownHosts (Applicable.line t))
  | None =>
      let plain := List.filter (marked MarkNone) (applicable self) in
      match List.find (fun a => bytes_eqb (Applicable.key_type a) (id_algorithm host)) plain with
      | Some same_alg => Untrusted (KeyChanged (Applicable.line same_alg))
      | None =>
          match plain with
          | _ :: _ => Untrusted NoKeyForAlgorithm
          | [] =>
              if existsb (marked MarkCertAuthority) (applicable self)
              then Untrusted CertificateAuthorityOnly else Untrusted UnknownHost
          end
      end
  end
  end.

#[export] Instance known_hosts_policy : HostTrustPolicy KnownHostsPolicy := {| decide_trust := known_hosts_decide |}.

(** ** The parser *)

(* keys/known_hosts.rs:574-576 is_space *)
Definition is_space (b : byte) : bool := byte_eqb b x20 || byte_eqb b x09.

(* keys/known_hosts.rs:578-581 trim_start *)
Fixpoint trim_start (s : bytes) : bytes :=
  match s with
  | [] => []
  | b :: s' => if is_space b then trim_start s' else s
  end.

(* keys/known_hosts.rs:584-591 next_field *)
Definition next_field (s : bytes) : option (bytes * bytes) :=
  let s := trim_start s in
  if zlen s =? 0 then None else
  let end_ := default (zlen s) (position is_space s) in
  Some (ztake end_ s, zdrop end_ s).

(** Both builds: with and without [openssh-hashed-hosts]. *)
(* keys/known_hosts.rs:642-659 parse_hashed *)
Definition parse_hashed (hashed_hosts : bool) (field : bytes) (line : Z) : result Hosts KnownHostsError :=
  if hashed_hosts then
    match HashedHost.matches_hashed_hostname field [] with
    | Ok _ => Ok (HostHashed field)
    | Err _ => Err (MalformedLine line MalformedHashedHost)
    end
  else Err (UnsupportedLine line HashedHostnames).

(* keys/known_hosts.rs:667-688 parse_hosts *)
Fixpoint parse_patterns (patterns : list Pattern) (line : Z) (limits : Limits) (raws : list bytes) :
    result (list Pattern) KnownHostsError :=
  match raws with
  | [] => Ok patterns
  | raw :: raws' =>
      if max_patterns_per_line limits <=? zlen patterns
      then Err (TooManyPatterns line (max_patterns_per_line limits)) else
      let '(negated, text) :=
        match strip_prefix (bstr "!") raw with Some t => (true, t) | None => (false, raw) end in
      if zlen text =? 0 then Err (MalformedLine line EmptyPattern) else
      if bool_decide (head text = Some "|"%byte) then Err (MalformedLine line MalformedHashedHost) else
      parse_patterns (patterns ++ [mkPattern negated (to_ascii_lowercase text)]) line limits raws'
  end.

(* keys/known_hosts.rs:661-690 parse_hosts *)
Definition parse_hosts (hashed_hosts : bool) (field : bytes) (line : Z) (limits : Limits) :
    result Hosts KnownHostsError :=
  if bool_decide (head field = Some "|"%byte) then parse_hashed hashed_hosts field line else
  let? patterns := parse_patterns [] line limits (split_on (fun b => byte_eqb b ",") field) in
  Ok (HostPatterns patterns).

Context `{DD : Dalek}.
Variable features : Features.
Variable hashed_hosts : bool.

(** The key of an enabled type is parsed; a well-formed RSA key outside the
    policy is kept. *)
(* keys/known_hosts.rs:621-628 parse_line *)
Definition check_key (key_type blob : bytes) : result unit Malformed :=
  match KeyType.from_name key_type with
  | Some kt =>
      if KeyType.is_enabled features kt then
        match HostKey.parse features blob with
        | Ok _ | Err (RsaModulus _) | Err RsaExponent => Ok tt
        | Err _ => Err (MalformedKey kt)
        end
      else Ok tt
  | None => Ok tt
  end.

(* keys/known_hosts.rs:593-636 parse_line *)
Definition parse_line (content : bytes) (line : Z) (limits : Limits) : result Entry.t KnownHostsError :=
  let bad what := MalformedLine line what in
  if existsb (byte_eqb x00) content then Err (bad NulByte) else
  let? (first, rest) := ok_or (next_field content) (bad (MissingField "host patterns")) in
  let? (marker, first, rest) :=
    if bool_decide (head first = Some "@"%byte) then
      let? m :=
        if bytes_eqb first (bstr "@revoked") then Ok MarkRevoked
        else if bytes_eqb first (bstr "@cert-authority") then Ok MarkCertAuthority
        else Err (bad UnknownMarker) in
      let? (first, rest) := ok_or (next_field rest) (bad (MissingField "host patterns")) in
      Ok (m, first, rest)
    else Ok (MarkNone, first, rest) in
  let? hosts := parse_hosts hashed_hosts first line limits in
  let? (key_type, rest) := ok_or (next_field rest) (bad (MissingField "key type")) in
  let? (key_b64, _) := ok_or (next_field rest) (bad (MissingField "key")) in
  if negb (utf8_ok key_b64) then Err (bad MalformedBase64) else
  let? blob := ok_or (bp_decode key_b64) (bad MalformedBase64) in
  let? parsed := map_err (fun _ => bad MalformedBlob) (PublicKeyBlob.decode blob) in
  if negb (bytes_eqb (PublicKeyBlob.algorithm parsed) key_type) then Err (bad KeyTypeMismatch) else
  let? _ := map_err bad (check_key key_type blob) in
  Ok (Entry.mk line marker hosts key_type blob).

(** [strip_suffix(b"\r").unwrap_or(raw)]. *)
Definition strip_cr (raw : bytes) : bytes :=
  match last raw with Some x0d => ztake (zlen raw - 1) raw | _ => raw end.

(** [for (index, raw) in lines.enumerate()] with the entries so far. *)
(* keys/known_hosts.rs:446-465 KnownHosts::parse *)
Fixpoint parse_lines (limits : Limits) (acc : list Entry.t) (index : Z) (raws : list bytes) :
    result (list Entry.t) KnownHostsError :=
  match raws with
  | [] => Ok acc
  | raw :: raws' =>
      let line := index + 1 in
      let raw := strip_cr raw in
      if max_line_bytes limits <? zlen raw then Err (LineTooLong line (max_line_bytes limits)) else
      let content := trim_start raw in
      if (zlen content =? 0) || bool_decide (head content = Some "#"%byte)
      then parse_lines limits acc (index + 1) raws'
      else if max_entries limits <=? zlen acc then Err (TooManyEntries (max_entries limits)) else
      let? e := parse_line content line limits in
      parse_lines limits (acc ++ [e]) (index + 1) raws'
  end.

(* keys/known_hosts.rs:439-467 KnownHosts::parse *)
Definition parse (bytes : bytes) (limits : Limits) : result KnownHostsFile KnownHostsError :=
  if max_file_bytes limits <? zlen bytes then Err (FileTooLarge (max_file_bytes limits)) else
  let? l := parse_lines limits [] 0 (split_on (fun b => byte_eqb b x0a) bytes) in
  Ok (mkKnownHosts l).

End policy.
