(* ===== verification/KnownHostsProps.v ===== *)
(** * Properties of known_hosts

    Pattern matching against a reference matcher, the lookup name, the parser
    and the trust decision over the file. *)

From S2P Require Import Prelude WireError NameList Primitives Messages KexInit KeyAlgorithm HostKey HostKeyProps.
From S2P Require Import WireIdent Packet Gcm Transcript Trust KnownHosts.

(** ** Patterns *)

(** What a pattern means: [*] stands for any run, [?] for one byte, anything
    else for itself. *)
Fixpoint glob (p : bytes) : bytes -> bool :=
  match p with
  | [] => fun n => match n with [] => true | _ => false end
  | c :: p' =>
      if byte_eqb c "*" then
        fix star (n : bytes) : bool :=
          glob p' n || match n with [] => false | _ :: n' => star n' end
      else fun n =>
        match n with
        | [] => false
        | x :: n' => (byte_eqb c "?" || byte_eqb c x) && glob p' n'
        end
  end.

Lemma star_neq c : c <> "*"%byte -> byte_eqb c "*" = false.
Proof. intros Hc. destruct (byte_eqb c "*") eqn:E; [|done]. by apply byte_eqb_true in E. Qed.

Lemma glob_star p n :
  glob ("*"%byte :: p) n = true <-> exists k, (k <= length n)%nat /\ glob p (drop k n) = true.
Proof.
  induction n as [|x n IH]; cbn.
  - rewrite orb_false_r. split; [intros Hg; by exists 0%nat|]. intros (k & Hk & Hg). by replace k with 0%nat in Hg by lia.
  - rewrite orb_true_iff. cbn in IH. rewrite IH. split.
    + intros [Hg|(k & Hk & Hg)]; [exists 0%nat; split; [lia|done]|exists (S k); split; [lia|done]].
    + intros ([|k] & Hk & Hg); [by left|right; exists k; split; [lia|done]].
Qed.

Lemma glob_other c p x n :
  c <> "*"%byte -> glob (c :: p) (x :: n) = (byte_eqb c "?" || byte_eqb c x) && glob p n.
Proof. intros Hc. cbn. rewrite star_neq by done. done. Qed.

Lemma glob_other_nil c p : c <> "*"%byte -> glob (c :: p) [] = false.
Proof. intros Hc. cbn. rewrite star_neq by done. done. Qed.

Lemma glob_empty p : glob p [] = forallb (fun b => byte_eqb b "*") p.
Proof.
  induction p as [|c p IH]; [done|]. cbn. destruct (byte_eqb c "*"); [|done]. by rewrite orb_false_r.
Qed.

(** A segment without stars takes exactly its length. *)
Lemma glob_segment (seg r m : bytes) :
  Forall (fun b => b <> "*"%byte) seg -> glob (seg ++ r) m = true ->
  (length seg <= length m)%nat /\ glob r (drop (length seg) m) = true.
Proof.
  intros Hs. revert m. induction Hs as [|c seg Hc _ IH]; intros m; [split; [cbn; lia|done]|].
  cbn [app]. destruct m as [|x m]; [by rewrite glob_other_nil|]. rewrite glob_other by done.
  intros [_ Hg]%andb_prop. destruct (IH m Hg) as [Hl Hr]. split; [cbn; lia|done].
Qed.

Section glob_loop.
Variables pattern name : bytes.
Hypothesis no_star : Forall (fun b => b <> "*"%byte) name.

(** The last star is at [sp], was tried at [sn], and what follows it up to [p]
    has no star and matched so far. *)
Definition star_ok (p n : nat) (star : option (nat * nat)) : Prop :=
  match star with
  | None => True
  | Some (sp, sn) =>
      (sp < p)%nat /\ (n = sn + (p - sp - 1))%nat /\ pattern !! sp = Some "*"%byte /\
      forall i b, (sp < i < p)%nat -> pattern !! i = Some b -> b <> "*"%byte
  end.

(** What is still to be tried. *)
Definition later (star : option (nat * nat)) : Prop :=
  match star with
  | None => False
  | Some (sp, sn) => exists k, (sn < k <= length name)%nat /\ glob (drop (sp + 1) pattern) (drop k name) = true
  end.

Definition tries (n : nat) (star : option (nat * nat)) : nat :=
  length name - match star with None => n | Some (_, sn) => sn end.

Lemma later_segment p n star :
  (p <= length pattern)%nat -> star_ok p n star -> later star ->
  exists k, (n < k <= length name)%nat /\ glob (drop p pattern) (drop k name) = true.
Proof.
  destruct star as [[sp sn]|]; [|done]. intros Hp (Hsp & Hn & _ & Hns) (k & Hk & Hg).
  set (seg := take (p - sp - 1) (drop (sp + 1) pattern)).
  assert (length seg = p - sp - 1)%nat as Hl by (unfold seg; rewrite length_take, length_drop; lia).
  assert (drop (sp + 1) pattern = seg ++ drop p pattern) as Hd.
  { unfold seg. replace (drop p pattern) with (drop (p - sp - 1) (drop (sp + 1) pattern)); [by rewrite take_drop|].
    rewrite drop_drop. f_equal. lia. }
  rewrite Hd in Hg. apply glob_segment in Hg as [Hle Hg].
  - rewrite length_drop in Hle. rewrite drop_drop in Hg. exists (k + length seg)%nat. split; [lia|done].
  - apply Forall_lookup. intros i b Hi. apply (Hns (sp + 1 + i)%nat b).
    + apply lookup_lt_Some in Hi. lia.
    + unfold seg in Hi. rewrite lookup_take in Hi. case_decide; [|done]. by rewrite lookup_drop in Hi.
Qed.

(** Falling back to the last star, when the current alignment cannot match. *)
Definition backtrack (loop : nat -> nat -> option (nat * nat) -> option bool) (star : option (nat * nat)) : option bool :=
  match star with
  | Some (sp, sn) => loop (sp + 1)%nat (sn + 1)%nat (Some (sp, (sn + 1)%nat))
  | None => Some false
  end.

Lemma backtrack_spec loop fuel p n star (g : bool) :
  (forall p n star, (p <= length pattern)%nat -> (n <= length name)%nat -> star_ok p n star ->
    (tries n star * S (length pattern) + (length pattern - p) < fuel)%nat ->
    exists b, loop p n star = Some b /\
      (b = true <-> glob (drop p pattern) (drop n name) = true \/ later star)) ->
  (p <= length pattern)%nat -> (n < length name)%nat -> star_ok p n star ->
  (tries n star * S (length pattern) + (length pattern - p) < S fuel)%nat ->
  g = false ->
  exists b, backtrack loop star = Some b /\ (b = true <-> g = true \/ later star).
Proof.
  intros IH Hp Hn Hs Hf ->. destruct star as [[sp sn]|]; [|exists false; split; [done|naive_solver]].
  destruct Hs as (H1 & H2 & H3 & H4). cbn [backtrack].
  destruct (IH (sp + 1)%nat (sn + 1)%nat (Some (sp, (sn + 1)%nat))) as (r & Hr & Hi).
  - lia.
  - lia.
  - split_and!; [lia|lia|done|]. intros i b Hi. lia.
  - unfold tries in *. nia.
  - exists r. split; [done|]. rewrite Hi. cbn [later]. split.
    + intros [Hg|(k & Hk & Hg)]; right; [exists (sn + 1)%nat|exists k]; (split; [lia|done]).
    + intros [|(k & Hk & Hg)]; [done|]. destruct (decide (k = sn + 1)%nat) as [->|]; [by left|].
      right. exists k. split; [lia|done].
Qed.

(** Meeting a star: what the earlier one could still match, this one can. *)
Lemma open_star_iff p n star :
  (n <= length name)%nat -> star_ok p n star -> pattern !! p = Some "*"%byte ->
  glob (drop p pattern) (drop n name) = true \/ later star <->
  glob (drop (p + 1) pattern) (drop n name) = true \/ later (Some (p, n)).
Proof.
  intros Hn Hs Hp. pose proof (lookup_lt_Some _ _ _ Hp) as Hlt.
  assert (forall k, (n <= k <= length name)%nat -> glob (drop (p + 1) pattern) (drop k name) = true ->
    glob (drop (p + 1) pattern) (drop n name) = true \/ later (Some (p, n))) as Hlater.
  { intros k Hk Hg. destruct (decide (k = n)) as [->|]; [by left|]. right. exists k. split; [lia|done]. }
  assert (forall m, (n <= m)%nat -> glob (drop p pattern) (drop m name) = true ->
    exists k, (m <= k <= Nat.max m (length name))%nat /\ glob (drop (p + 1) pattern) (drop k name) = true) as Hopen.
  { intros m Hm. rewrite (drop_S pattern "*"%byte p), glob_star by done. intros (j & Hj & Hg).
    rewrite length_drop in Hj. rewrite drop_drop in Hg. exists (m + j)%nat. rewrite Nat.add_1_r. split; [lia|done]. }
  split.
  - intros [Hg|Hl].
    + destruct (Hopen n) as (k & Hk & Hgk); [lia|done|]. apply (Hlater k); [lia|done].
    + destruct (later_segment p n star ltac:(lia) Hs Hl) as (m & Hm & Hg).
      destruct (Hopen m) as (k & Hk & Hgk); [lia|done|]. apply (Hlater k); [lia|done].
  - intros Hr. left. rewrite (drop_S pattern "*"%byte p), glob_star by done. rewrite <- Nat.add_1_r.
    destruct Hr as [Hg|(k & Hk & Hg)]; [exists 0%nat; split; [lia|done]|].
    exists (k - n)%nat. rewrite drop_drop, length_drop. split; [lia|]. by replace (n + (k - n))%nat with k by lia.
Qed.

Lemma star_ok_advance p n star b :
  star_ok p n star -> pattern !! p = Some b -> b <> "*"%byte -> star_ok (p + 1) (n + 1) star.
Proof.
  destruct star as [[sp sn]|]; [|done]. intros (H1 & H2 & H3 & H4) Hb Hne. split_and!; [lia|lia|done|].
  intros i b' Hi Hb'. destruct (decide (i = p)) as [->|]; [congruence|]. apply (H4 i); [lia|done].
Qed.

Lemma glob_loop_spec fuel p n star :
  (p <= length pattern)%nat -> (n <= length name)%nat -> star_ok p n star ->
  (tries n star * S (length pattern) + (length pattern - p) < fuel)%nat ->
  exists b, glob_loop fuel pattern name p n star = Some b /\
    (b = true <-> glob (drop p pattern) (drop n name) = true \/ later star).
Proof.
  revert p n star. induction fuel as [|fuel IH]; intros p n star Hp Hn Hs Hf; [lia|]. cbn [glob_loop].
  destruct (name !! n) as [c|] eqn:Ec; last first.
  { apply lookup_ge_None in Ec. rewrite bool_decide_true by done. eexists; split; [done|].
    rewrite (drop_ge name) by done. rewrite glob_empty. split; [by left|]. intros [|Hl]; [done|].
    destruct (later_segment p n star Hp Hs Hl) as (k & Hk & _). lia. }
  assert (c <> "*"%byte) as Hc by (rewrite Forall_lookup in no_star; by eapply no_star).
  pose proof (lookup_lt_Some _ _ _ Ec) as Hn1. pose proof (drop_S name c n Ec) as Hdn.
  destruct (pattern !! p) as [b|] eqn:Eb; last first.
  { apply (backtrack_spec _ fuel p n); try done. by rewrite Hdn, (drop_ge pattern) by (by apply lookup_ge_None). }
  pose proof (lookup_lt_Some _ _ _ Eb) as Hp1. pose proof (drop_S pattern b p Eb) as Hdp.
  destruct (_ || _) eqn:Em; [|destruct (byte_eqb b "*") eqn:Est].
  - assert (b <> "*"%byte) as Hb.
    { intros ->. apply orb_prop in Em as [Em|Em]; [done|]. apply byte_eqb_true in Em. congruence. }
    destruct (IH (p + 1)%nat (n + 1)%nat star) as (r & Hr & Hi); [lia|lia|by eapply star_ok_advance| |].
    { destruct star as [[sp sn]|]; unfold tries in *; nia. }
    exists r. split; [done|]. rewrite Hi, Hdp, Hdn, glob_other, Em by done. cbn [andb]. by rewrite !Nat.add_1_r.
  - apply byte_eqb_true in Est as ->.
    destruct (IH (p + 1)%nat n (Some (p, n))) as (r & Hr & Hi); [lia|lia| | |].
    + split_and!; [lia|lia|done|]. intros i b' Hi. lia.
    + destruct star as [[sp sn]|]; unfold tries in *; [|nia]. destruct Hs as (H1 & H2 & _). nia.
    + exists r. split; [done|]. by rewrite (open_star_iff p n star).
  - apply (backtrack_spec _ fuel p n); try done. rewrite Hdn, Hdp, glob_other, Em; [done|]. by intros ->.
Qed.
End glob_loop.

(** The loop returns on every name. *)
Lemma glob_loop_total (pattern name : bytes) fuel : forall p n star,
  (p <= length pattern)%nat -> (n <= length name)%nat ->
  match star with None => True | Some (sp, sn) => (sp < p)%nat /\ (sn <= n)%nat end ->
  (tries name n star * S (length pattern) + (length pattern - p) < fuel)%nat ->
  is_Some (glob_loop fuel pattern name p n star).
Proof.
  induction fuel as [|fuel IH]; intros p n star Hp Hn Hs Hf; [lia|]. cbn [glob_loop].
  destruct (name !! n) as [c|] eqn:Ec; [|rewrite bool_decide_true by done; by eexists].
  pose proof (lookup_lt_Some _ _ _ Ec) as Hn1.
  assert (is_Some (match star with
    | Some (sp, sn) => glob_loop fuel pattern name (sp + 1) (sn + 1) (Some (sp, (sn + 1)%nat))
    | None => Some false end)) as Hback.
  { destruct star as [[sp sn]|]; [|by eexists]. apply IH; unfold tries in *; [lia|lia|lia|nia]. }
  destruct (pattern !! p) as [b|] eqn:Eb; [|done]. pose proof (lookup_lt_Some _ _ _ Eb) as Hp1.
  destruct (_ || _); [|destruct (byte_eqb b "*"); [|done]].
  - apply IH; [lia|lia| |]; destruct star as [[sp sn]|]; unfold tries in *; try done; try lia; nia.
  - apply IH; [lia|lia|lia|]. destruct star as [[sp sn]|]; unfold tries in *; nia.
Qed.

Lemma glob_match_total pattern name : is_Some (glob_match pattern name).
Proof. apply glob_loop_total; unfold tries; [lia|lia|done|lia]. Qed.

Lemma glob_match_glob pattern name :
  Forall (fun b => b <> "*"%byte) name -> glob_match pattern name = Some (glob pattern name).
Proof.
  intros Hns. destruct (glob_loop_spec pattern name Hns (S (length name * S (length pattern) + length pattern)) 0 0 None)
    as (b & Hb & Hi); unfold tries; [lia|lia|done|lia|].
  unfold glob_match. rewrite Hb. f_equal. cbn [drop later] in Hi. apply eq_bool_prop_intro.
  rewrite !Is_true_true. rewrite Hi. tauto.
Qed.

(** On any name: what the loop accepts, the pattern means. *)
Lemma glob_star_drop q name n k :
  (n <= k)%nat -> glob q (drop k name) = true -> glob ("*"%byte :: q) (drop n name) = true.
Proof.
  intros Hk Hg. rewrite glob_star, length_drop. exists (Nat.min (k - n) (length name - n)). split; [lia|].
  rewrite drop_drop. destruct (Nat.le_gt_cases k (length name)).
  - by replace (n + _)%nat with k by lia.
  - rewrite drop_ge in Hg by lia. by rewrite drop_ge by lia.
Qed.

Definition still (pattern name : bytes) (star : option (nat * nat)) : Prop :=
  exists sp sn k, star = Some (sp, sn) /\ (sn < k)%nat /\ glob (drop (sp + 1) pattern) (drop k name) = true.

Lemma glob_loop_sound (pattern name : bytes) fuel : forall p n star,
  glob_loop fuel pattern name p n star = Some true ->
  glob (drop p pattern) (drop n name) = true \/ still pattern name star.
Proof.
  induction fuel as [|fuel IH]; intros p n star; [done|]. cbn [glob_loop].
  destruct (name !! n) as [c|] eqn:Ec; last first.
  { case_bool_decide; [|done]. intros [= Ha]. left. apply lookup_ge_None in Ec. by rewrite (drop_ge name), glob_empty by done. }
  assert (match star with
    | Some (sp, sn) => glob_loop fuel pattern name (sp + 1) (sn + 1) (Some (sp, (sn + 1)%nat))
    | None => Some false end = Some true -> still pattern name star) as Hback.
  { destruct star as [[sp sn]|]; [|done]. intros [Hg|(sp' & sn' & k & [= <- <-] & Hk & Hg)]%IH.
    - exists sp, sn, (sn + 1)%nat. split_and!; [done|lia|done].
    - exists sp, sn, k. split_and!; [done|lia|done]. }
  pose proof (drop_S name c n Ec) as Hdn.
  destruct (pattern !! p) as [b|] eqn:Eb; [|by right; apply Hback]. pose proof (drop_S pattern b p Eb) as Hdp.
  destruct (_ || _) eqn:Em; [|destruct (byte_eqb b "*") eqn:Est; [|by right; apply Hback]].
  - intros [Hg|Hs]%IH; [left|by right]. rewrite Nat.add_1_r, Nat.add_1_r in Hg. destruct (decide (b = "*"%byte)) as [->|Hb].
    + rewrite Hdp. apply (glob_star_drop _ name n (S n)); [lia|done].
    + by rewrite Hdp, Hdn, glob_other, Em by done.
  - apply byte_eqb_true in Est as ->. rewrite Hdp. intros [Hg|(sp & sn & k & [= <- <-] & Hk & Hg)]%IH; left;
      rewrite Nat.add_1_r in Hg; eapply glob_star_drop; [|done| |done]; lia.
Qed.

(** A star that meets a star in front of everything is out of the way. *)
Definition shift_star (star : option (nat * nat)) : option (nat * nat) :=
  (fun '(sp, sn) => (S sp, S sn)) <$> star.

Lemma glob_loop_shift x y q r fuel : forall p n star,
  glob_loop fuel (x :: q) (y :: r) (S p) (S n) (shift_star star) = glob_loop fuel q r p n star.
Proof.
  induction fuel as [|fuel IH]; intros p n star; [done|]. cbn [glob_loop]. cbn [lookup list_lookup length drop].
  destruct (r !! n) as [c|]; last first.
  { destruct (decide (p <= length q)%nat); [by rewrite !bool_decide_true by lia|by rewrite !bool_decide_false by lia]. }
  change (S p + 1)%nat with (S (p + 1)). change (S n + 1)%nat with (S (n + 1)).
  rewrite (IH (p + 1)%nat (n + 1)%nat star), (IH (p + 1)%nat n (Some (p, n)) : glob_loop _ _ _ _ _ (Some (S p, S n)) = _).
  destruct star as [[sp sn]|]; cbn [shift_star fmap option_fmap option_map]; [|done].
  change (S sp + 1)%nat with (S (sp + 1)). change (S sn + 1)%nat with (S (sn + 1)).
  by rewrite (IH (sp + 1)%nat (sn + 1)%nat (Some (sp, (sn + 1)%nat)) : glob_loop _ _ _ _ _ (Some (S sp, S (sn + 1))) = _).
Qed.

Lemma glob_loop_more pattern name b fuel : forall fuel' p n star,
  glob_loop fuel pattern name p n star = Some b -> (fuel <= fuel')%nat -> glob_loop fuel' pattern name p n star = Some b.
Proof.
  induction fuel as [|fuel IH]; intros [|fuel'] p n star Hb Hf; [done|done|lia|]. cbn [glob_loop] in *.
  destruct (name !! n); [|done]. destruct (pattern !! p).
  - destruct (_ || _); [by apply IH; [|lia]|]. destruct (byte_eqb _ "*"); [by apply IH; [|lia]|].
    destruct star as [[sp sn]|]; [by apply IH; [|lia]|done].
  - destruct star as [[sp sn]|]; [by apply IH; [|lia]|done].
Qed.

Lemma glob_match_stars q r : glob_match ("*"%byte :: q) ("*"%byte :: r) = glob_match q r.
Proof.
  destruct (glob_match_total q r) as [b Hb]. rewrite Hb. unfold glob_match in *.
  apply (glob_loop_more _ _ _ (S (S (length r * S (length q) + length q)))); [|simpl; lia].
  set (fuel := S (length r * S (length q) + length q)) in *. cbn [glob_loop lookup list_lookup].
  change (byte_eqb "*" "?" || byte_eqb "*" "*") with true. cbv iota.
  rewrite <- Hb. exact (glob_loop_shift "*"%byte "*"%byte q r fuel 0 0 None).
Qed.

(** ** Lines that apply *)

(** Some positive pattern matches and no negated one does. *)
Definition patterns_match (l : list Pattern) (name : bytes) : Prop :=
  (exists p, p ∈ l /\ negated p = false /\ glob (text p) name = true) /\
  forall p, p ∈ l -> negated p = true -> glob (text p) name = false.

Lemma patterns_apply_total l name pos : is_Some (patterns_apply l name pos).
Proof.
  revert pos. induction l as [|p l IH]; intros pos; cbn [patterns_apply]; [by eexists|].
  destruct (glob_match_total (text p) name) as [[] ->]; [destruct (negated p); [by eexists|done]|done].
Qed.

Lemma patterns_apply_spec l name pos :
  Forall (fun b => b <> "*"%byte) name ->
  exists b, patterns_apply l name pos = Some b /\
    (b = true <-> (pos = true \/ exists p, p ∈ l /\ negated p = false /\ glob (text p) name = true) /\
       forall p, p ∈ l -> negated p = true -> glob (text p) name = false).
Proof.
  intros Hn. revert pos. induction l as [|p l IH]; intros pos; cbn [patterns_apply].
  { exists pos. split; [done|]. split; [intros ->; split; [by left|intros p Hp; by apply elem_of_nil in Hp]|].
    intros [[|(p & Hp & _)] _]; [done|by apply elem_of_nil in Hp]. }
  rewrite glob_match_glob by done. destruct (glob (text p) name) eqn:Eg.
  - destruct (negated p) eqn:En.
    + exists false. split; [done|]. split; [done|]. intros [_ Hf]. rewrite Hf in Eg; [done|by left|done].
    + destruct (IH true) as (b & -> & Hb). exists b. split; [done|]. rewrite Hb. split.
      * intros [_ Hf]. split; [right; exists p; split; [by left|done]|].
        intros q [->|Hq]%elem_of_cons Hneg; [congruence|by apply Hf].
      * intros [_ Hf]. split; [by left|]. intros q Hq. apply Hf. by right.
  - destruct (IH pos) as (b & -> & Hb). exists b. split; [done|]. rewrite Hb. split.
    + intros [Hp Hf]. split; [destruct Hp as [|(q & Hq & Hr)]; [by left|right; exists q; split; [by right|done]]|].
      intros q [->|Hq]%elem_of_cons Hneg; [done|by apply Hf].
    + intros [Hp Hf]. split; [|intros q Hq; apply Hf; by right].
      destruct Hp as [|(q & [->|Hq]%elem_of_cons & Hr1 & Hr2)]; [by left|congruence|right; by exists q].
Qed.

(** ** Lookup names *)

Lemma lower_not_star b : b <> "*"%byte -> ascii_lower b <> "*"%byte.
Proof. destruct b; vm_compute; congruence. Qed.

Lemma host_byte_fine b : host_byte_refused b = false -> ascii_lower b <> "*"%byte /\ ascii_lower b <> "["%byte /\ ascii_lower b <> "]"%byte.
Proof. destruct b; vm_compute; (done || (intros _; repeat split; congruence)). Qed.

Lemma decimal_digits d v : 0 <= v -> Forall (fun b => 48 <= u8 b <= 57) (decimal d v).
Proof.
  revert v. induction d as [|d IH]; intros v Hv; cbn [decimal]; [constructor|]. apply Forall_app. split.
  - destruct (v <? 10); [constructor|]. apply IH. by apply Z.div_pos.
  - constructor; [|constructor]. rewrite u8_byte_of_Z. pose proof (Z.mod_pos_bound v 10 ltac:(lia)).
    rewrite (Z.mod_small (48 + v mod 10)) by lia. lia.
Qed.

Lemma existsb_false_Forall {A} (f : A -> bool) l : existsb f l = false -> Forall (fun x => f x = false) l.
Proof.
  intros Hf. apply List.Forall_forall. intros x Hx. destruct (f x) eqn:E; [|done].
  assert (existsb f l = true) by (apply existsb_exists; eauto). congruence.
Qed.

(** The two forms of a lookup name. *)
Lemma lookup_name_form host port name :
  lookup_name host port = Ok name ->
  host <> [] /\ zlen name <= MAX_LOOKUP_NAME_BYTES /\
  Forall (fun b => b <> "*"%byte /\ b <> "["%byte /\ b <> "]"%byte) (to_ascii_lowercase host) /\
  name = if port =? DEFAULT_PORT then to_ascii_lowercase host
         else bstr "[" ++ to_ascii_lowercase host ++ bstr "]:" ++ display_u16 port.
Proof.
  unfold lookup_name. destruct (Z.eqb_spec (zlen host) 0) as [|Hz]; [done|].
  destruct (existsb _ _) eqn:Ee; [done|]. destruct (Z.ltb_spec MAX_LOOKUP_NAME_BYTES
    (zlen (if port =? DEFAULT_PORT then to_ascii_lowercase host else bstr "[" ++ to_ascii_lowercase host ++ bstr "]:" ++ display_u16 port))); [done|].
  intros <-%Ok_inj. split; [intros ->; done|]. split_and!; [done| |done].
  apply existsb_false_Forall in Ee. apply Forall_map. eapply Forall_impl; [exact Ee|]. intros b Hb. by apply host_byte_fine.
Qed.

Lemma lookup_name_no_star host port name :
  0 <= port -> lookup_name host port = Ok name -> Forall (fun b => b <> "*"%byte) name.
Proof.
  intros Hp (_ & _ & Hf & ->)%lookup_name_form.
  assert (Forall (fun b => b <> "*"%byte) (to_ascii_lowercase host)) as Hh
    by (eapply Forall_impl; [exact Hf|]; by intros b (? & _)).
  destruct (port =? DEFAULT_PORT); [done|]. rewrite !Forall_app. split_and!; [by apply (bool_decide_unpack _)|done|by apply (bool_decide_unpack _)|].
  eapply Forall_impl; [apply (decimal_digits 5 port Hp)|]. intros b Hb ->. change (u8 "*"%byte) with 42 in Hb. lia.
Qed.

Lemma decimal_inj d v w :
  0 <= v < 10 ^ Z.of_nat d -> 0 <= w < 10 ^ Z.of_nat d -> decimal d v = decimal d w -> v = w.
Proof.
  revert v w. induction d as [|d IH]; intros v w Hv Hw; [cbn in *; lia|]. cbn [decimal].
  intros [He Hd]%app_inj_tail. rewrite Nat2Z.inj_succ, Z.pow_succ_r in Hv, Hw by lia.
  assert (v mod 10 = w mod 10) as Hm.
  { apply (f_equal u8) in Hd. rewrite !u8_byte_of_Z in Hd.
    pose proof (Z.mod_pos_bound v 10 ltac:(lia)). pose proof (Z.mod_pos_bound w 10 ltac:(lia)).
    rewrite (Z.mod_small (48 + v mod 10)), (Z.mod_small (48 + w mod 10)) in Hd by lia. lia. }
  assert (forall x, 0 <= x -> decimal d (x / 10) = [] -> x < 10 \/ d = O) as Hnil.
  { intros x Hx. destruct d; [by right|]. cbn [decimal]. intros E%app_eq_nil. by destruct E. }
  assert (v / 10 = w / 10) as Hq; [|rewrite (Z.div_mod v 10), (Z.div_mod w 10) by lia; lia].
  assert (v / 10 < 10 ^ Z.of_nat d /\ w / 10 < 10 ^ Z.of_nat d) as [Hv1 Hw1] by (split; apply Z.div_lt_upper_bound; lia).
  assert (0 <= v / 10 /\ 0 <= w / 10) as [Hv2 Hw2] by (split; apply Z.div_pos; lia).
  destruct (Z.ltb_spec v 10), (Z.ltb_spec w 10).
  - rewrite !Z.div_small by lia. done.
  - destruct (Hnil w) as [Hx|Hx]; [lia|by symmetry|lia|subst d]. cbn in Hw1, Hv1. lia.
  - destruct (Hnil v) as [Hx|Hx]; [lia|done|lia|subst d]. cbn in Hw1, Hv1. lia.
  - apply IH; [lia|lia|done].
Qed.

(** What precedes the first closing bracket is determined. *)
Lemma bracket_split (a b r r' : bytes) :
  Forall (fun c => c <> "]"%byte) a -> Forall (fun c => c <> "]"%byte) b ->
  a ++ "]"%byte :: r = b ++ "]"%byte :: r' -> a = b /\ r = r'.
Proof.
  intros Ha. revert b. induction Ha as [|x a Hx _ IH]; intros b Hb; destruct Hb as [|y b Hy Hb]; cbn; intros E.
  - by injection E.
  - injection E as E1 _. congruence.
  - injection E as E1 _. congruence.
  - injection E as -> E. destruct (IH b Hb E) as [-> ->]. done.
Qed.

(** ** The decision *)

Section decision.
Context `{B : Base64Padded, HM : HmacSha1}.

(** Whether a line applies to a name: its patterns match, or it is the hash of
    the name. *)
Definition entry_applies (e : Entry.t) (name : bytes) : Prop :=
  match Entry.hosts e with
  | HostPatterns l => patterns_match l name
  | HostHashed field => HashedHost.matches_hashed_hostname field name = Ok true
  end.

Lemma applies_to_spec e name :
  Forall (fun b => b <> "*"%byte) name ->
  exists b, applies_to e name = Some b /\ (b = true <-> entry_applies e name).
Proof.
  intros Hn. unfold applies_to, entry_applies. destruct (Entry.hosts e) as [l|field].
  - destruct (patterns_apply_spec l name false Hn) as (b & -> & Hb). exists b. split; [done|]. rewrite Hb.
    unfold patterns_match. naive_solver.
  - destruct (HashedHost.matches_hashed_hostname field name) as [[]|e']; eexists; (split; [done|]); naive_solver.
Qed.

Lemma applies_to_total e name : is_Some (applies_to e name).
Proof. unfold applies_to. destruct (Entry.hosts e); [apply patterns_apply_total|by eexists]. Qed.

Lemma collect_total tl name l : is_Some (collect_applicable tl name l).
Proof.
  induction l as [|e l [r Hr]]; cbn; [by eexists|]. rewrite Hr. destruct tl; [by eexists|].
  destruct (applies_to_total e name) as [b ->]. by eexists.
Qed.

Lemma collect_spec name l r :
  Forall (fun b => b <> "*"%byte) name -> collect_applicable false name l = Some r ->
  forall a, a ∈ r <-> exists e, e ∈ l /\ entry_applies e name /\ a = applicable_of e.
Proof.
  intros Hn. revert r. induction l as [|e l IH]; intros r; cbn.
  { intros [= <-] a. split; [by intros ?%elem_of_nil|]. by intros (e & He%elem_of_nil & _). }
  destruct (applies_to_spec e name Hn) as (b & -> & Hb). destruct (collect_applicable false name l) as [rest|]; [|done].
  cbn [mbind option_bind]. intros [= <-] a. specialize (IH rest eq_refl a).
  assert (a ∈ (if b then applicable_of e :: rest else rest) <-> (b = true /\ a = applicable_of e) \/ a ∈ rest) as ->
    by (destruct b; rewrite ?elem_of_cons; naive_solver).
  rewrite IH, Hb. setoid_rewrite elem_of_cons. split.
  - intros [[? ->]|(e' & He & Ha)]; [exists e; auto|exists e'; naive_solver].
  - intros (e' & [->|He] & Ha & ->); [by left|right; eauto].
Qed.

(** What decides: the lines that apply to the name. *)
Definition applying (kh : KnownHostsFile) (name : bytes) (P : Entry.t -> Prop) : Prop :=
  exists e, e ∈ entries kh /\ entry_applies e name /\ P e.

Definition lists_key (m : Marker) (blob : bytes) (e : Entry.t) : Prop := Entry.marker e = m /\ Entry.blob e = blob.

Lemma find_iff {A} (f : A -> bool) (l : list A) :
  match List.find f l with
  | Some x => x ∈ l /\ f x = true
  | None => forall x, x ∈ l -> f x = false
  end.
Proof.
  destruct (List.find f l) as [x|] eqn:E.
  - apply List.find_some in E as [Hi Hf]. split; [by apply list_elem_of_In|done].
  - intros x Hx. apply (List.find_none _ _ E). by apply list_elem_of_In.
Qed.

Lemma marked_iff m a : marked m a = true <-> Applicable.marker a = m.
Proof. apply bool_decide_eq_true. Qed.

(** The decision of a policy, as a property of its applicable lines. *)
Definition decision_ok (some : (Applicable.t -> Prop) -> Prop) (host : HostIdentity) (d : TrustDecision) : Prop :=
  let mark m a := Applicable.marker a = m in
  let lists a := Applicable.blob a = id_blob host in
  let revoked := some (fun a => mark MarkRevoked a /\ lists a) in
  let known := some (fun a => mark MarkNone a /\ lists a) in
  let plain := some (mark MarkNone) in
  let same_alg := some (fun a => mark MarkNone a /\ Applicable.key_type a = id_algorithm host) in
  match d with
  | Untrusted (Revoked line) => some (fun a => mark MarkRevoked a /\ lists a /\ Applicable.line a = line)
  | Trusted (KnownHosts line) =>
      ~ revoked /\ some (fun a => mark MarkNone a /\ lists a /\ Applicable.line a = line)
  | Untrusted (KeyChanged line) =>
      ~ revoked /\ ~ known /\
      some (fun a => mark MarkNone a /\ Applicable.key_type a = id_algorithm host /\ Applicable.line a = line)
  | Untrusted NoKeyForAlgorithm => ~ revoked /\ ~ known /\ ~ same_alg /\ plain
  | Untrusted CertificateAuthorityOnly => ~ revoked /\ ~ plain /\ some (mark MarkCertAuthority)
  | Untrusted UnknownHost => ~ revoked /\ ~ plain /\ ~ some (mark MarkCertAuthority)
  | _ => False
  end.

Lemma decide_ok p host :
  decision_ok (fun P => exists a, a ∈ applicable p /\ P a) host (known_hosts_decide p host).
Proof.
  unfold known_hosts_decide. set (l := applicable p).
  pose proof (find_iff (fun a => marked MarkRevoked a && bytes_eqb (Applicable.blob a) (id_blob host)) l) as Hrev.
  destruct (List.find _ l) as [r|].
  { destruct Hrev as [Hin [Hm%marked_iff Hb%bytes_eqb_eq]%andb_prop]. by exists r. }
  assert (~ exists a, a ∈ l /\ Applicable.marker a = MarkRevoked /\ Applicable.blob a = id_blob host) as Hnr.
  { intros (a & Ha & Hm & Hb). specialize (Hrev a Ha). apply marked_iff in Hm. by rewrite Hm, Hb, bytes_eqb_refl in Hrev. }
  pose proof (find_iff (fun a => marked MarkNone a && bytes_eqb (Applicable.blob a) (id_blob host)) l) as Hkn.
  destruct (List.find _ l) as [t|].
  { destruct Hkn as [Hin [Hm%marked_iff Hb%bytes_eqb_eq]%andb_prop]. split; [done|]. by exists t. }
  assert (~ exists a, a ∈ l /\ Applicable.marker a = MarkNone /\ Applicable.blob a = id_blob host) as Hnk.
  { intros (a & Ha & Hm & Hb). specialize (Hkn a Ha). apply marked_iff in Hm. by rewrite Hm, Hb, bytes_eqb_refl in Hkn. }
  assert (forall a, a ∈ List.filter (marked MarkNone) l <-> a ∈ l /\ Applicable.marker a = MarkNone) as Hf.
  { intros a. rewrite !list_elem_of_In, List.filter_In, marked_iff. done. }
  pose proof (find_iff (fun a => bytes_eqb (Applicable.key_type a) (id_algorithm host)) (List.filter (marked MarkNone) l)) as Hsa.
  destruct (List.find _ _) as [s|].
  { destruct Hsa as [[Hin Hm]%Hf Hk%bytes_eqb_eq]. split_and!; [done|done|]. by exists s. }
  destruct (List.filter (marked MarkNone) l) as [|x xs] eqn:Ex.
  - assert (~ exists a, a ∈ l /\ Applicable.marker a = MarkNone) as Hnp.
    { intros (a & Ha). by apply Hf, elem_of_nil in Ha. }
    destruct (existsb (marked MarkCertAuthority) l) eqn:Ee.
    + apply existsb_exists in Ee as (a & Ha & Hm%marked_iff). split_and!; [done|done|].
      exists a. by rewrite list_elem_of_In.
    + split_and!; [done|done|]. intros (a & Ha & Hm%marked_iff). apply existsb_false_Forall in Ee.
      rewrite Forall_forall in Ee. specialize (Ee a Ha). congruence.
  - split_and!; [done|done| |].
    + intros (a & Ha & Hm & Hk). assert (a ∈ x :: xs) as Hin by (by apply Hf). specialize (Hsa a Hin).
      by rewrite Hk, bytes_eqb_refl in Hsa.
    + exists x. apply Hf. by left.
Qed.

Lemma decision_ok_iff (some some' : (Applicable.t -> Prop) -> Prop) host d :
  (forall P, some P <-> some' P) -> decision_ok some host d -> decision_ok some' host d.
Proof. intros Hi. unfold decision_ok. destruct d as [[]|[]]; by rewrite ?Hi. Qed.

Definition decision_code (d : TrustDecision) : string :=
  match d with Trusted s => trust_source_code s | Untrusted r => untrusted_reason_code r end.

(** Up to the reported line, the decision is a function of which lines apply. *)
Lemma decision_code_det (l : list Applicable.t) host d d' :
  let some P := exists a, a ∈ l /\ P a in
  decision_ok some host d -> decision_ok some host d' -> decision_code d = decision_code d'.
Proof.
  intros some. set (R := some (fun a => Applicable.marker a = MarkRevoked /\ Applicable.blob a = id_blob host)).
  set (K := some (fun a => Applicable.marker a = MarkNone /\ Applicable.blob a = id_blob host)).
  set (S := some (fun a => Applicable.marker a = MarkNone /\ Applicable.key_type a = id_algorithm host)).
  set (P := some (fun a => Applicable.marker a = MarkNone)).
  set (C := some (fun a => Applicable.marker a = MarkCertAuthority)).
  assert ((K -> P) /\ (S -> P)) as HP by (unfold K, S, P, some; naive_solver).
  assert (forall d, decision_ok some host d ->
    (R /\ decision_code d = "revoked") \/ (~ R /\ K /\ decision_code d = "known_hosts") \/
    (~ R /\ ~ K /\ S /\ decision_code d = "key_changed") \/
    (~ R /\ ~ K /\ ~ S /\ P /\ decision_code d = "no_key_for_algorithm") \/
    (~ R /\ ~ P /\ C /\ decision_code d = "certificate_authority_only") \/
    (~ R /\ ~ P /\ ~ C /\ decision_code d = "unknown_host")) as Hcase.
  { clear d d'. intros [[|line]|[]]; cbn; try done.
    - intros [Hr (a & Ha & Hm & Hb & _)]. right; left. split_and!; [exact Hr|exists a; done|done].
    - tauto.
    - intros (Hr & Hk & (a & Ha & Hm & Hb & _)). right; right; left. split_and!; [exact Hr|exact Hk|exists a; done|done].
    - intros (a & Ha & Hm & Hb & _). left. split; [exists a; done|done].
    - tauto.
    - tauto. }
  intros H1%Hcase H2%Hcase. clear Hcase.
  destruct H1 as [[? ->]|[(?&?&->)|[(?&?&?&->)|[(?&?&?&?&->)|[(?&?&?&->)|(?&?&?&->)]]]]],
    H2 as [[? ->]|[(?&?&->)|[(?&?&?&->)|[(?&?&?&?&->)|[(?&?&?&->)|(?&?&?&->)]]]]]; try done; tauto.
Qed.

Lemma collect_permutation tl name l l' r r' :
  Permutation l l' -> collect_applicable tl name l = Some r -> collect_applicable tl name l' = Some r' ->
  Permutation r r'.
Proof.
  intros Hp. revert r r'. induction Hp as [|e l l' Hp IH|e f l|l m n Hp1 IH1 Hp2 IH2]; intros r r' H1 H2.
  - cbn in H1, H2. by simplify_eq.
  - cbn in H1, H2. destruct (if tl then Some false else applies_to e name) as [b|]; [|done].
    destruct (collect_applicable tl name l) as [x|]; [|done]. destruct (collect_applicable tl name l') as [y|]; [|done].
    cbn in H1, H2. simplify_eq. specialize (IH x y eq_refl eq_refl). destruct b; [by constructor|done].
  - cbn in H1, H2. destruct (if tl then Some false else applies_to e name) as [b|]; [|by destruct (if tl then _ else _)].
    destruct (if tl then Some false else applies_to f name) as [b'|]; [|done].
    destruct (collect_applicable tl name l) as [x|]; [|done]. cbn in H1, H2. simplify_eq.
    destruct b, b'; (done || constructor).
  - destruct (collect_total tl name m) as [x Hx]. etrans; [by apply IH1|by apply IH2].
Qed.
End decision.

(** ** The parser *)

(** The lines that carry an entry, with their numbers and content. *)
Fixpoint content_lines (index : Z) (raws : list bytes) : list (Z * bytes) :=
  match raws with
  | [] => []
  | raw :: raws' =>
      let content := trim_start (strip_cr raw) in
      if (zlen content =? 0) || bool_decide (head content = Some "#"%byte) then content_lines (index + 1) raws'
      else (index + 1, content) :: content_lines (index + 1) raws'
  end.

Section parser.
Context `{B : Base64Padded, HM : HmacSha1, DD : Dalek}.
Variable features : Features.
Variable hashed_hosts : bool.

Lemma parse_lines_iff limits acc index raws l :
  parse_lines features hashed_hosts limits acc index raws = Ok l <->
  Forall (fun raw => zlen (strip_cr raw) <= max_line_bytes limits) raws /\
  (content_lines index raws = [] \/ zlen acc + zlen (content_lines index raws) <= max_entries limits) /\
  exists es, l = acc ++ es /\
    Forall2 (fun '(n, c) e => parse_line features hashed_hosts c n limits = Ok e) (content_lines index raws) es.
Proof.
  revert acc index. induction raws as [|raw raws IH]; intros acc index; cbn [parse_lines content_lines].
  { split.
    - intros <-%Ok_inj. split_and!; [constructor|by left|]. exists []. by rewrite app_nil_r.
    - intros (_ & _ & es & -> & ->%Forall2_nil_inv_l). by rewrite app_nil_r. }
  rewrite Forall_cons. destruct (Z.ltb_spec (max_line_bytes limits) (zlen (strip_cr raw))).
  { split; [done|]. intros [[? _] _]. lia. }
  destruct (_ || _).
  { rewrite IH. naive_solver. }
  destruct (Z.leb_spec (max_entries limits) (zlen acc)).
  { split; [done|]. intros (_ & [?|Hn] & _); [done|]. rewrite zlen_cons in Hn.
    pose proof (zlen_nonneg (content_lines (index + 1) raws)). lia. }
  destruct (parse_line features hashed_hosts (trim_start (strip_cr raw)) (index + 1) limits) as [e|e] eqn:Ep; cbn [rbind]; last first.
  { split; [done|]. intros (_ & _ & es & _ & (x & xs & Hx & _)%Forall2_cons_inv_l). congruence. }
  rewrite IH, zlen_app. change (zlen [e]) with 1. rewrite zlen_cons. split.
  - intros (Hl & Hc & es & -> & He). split_and!; [done|done| |].
    + right. destruct Hc as [->|]; [change (zlen []) with 0; lia|lia].
    + exists (e :: es). rewrite <- app_assoc. split; [done|by constructor].
  - intros ([_ Hl] & [?|Hc] & es & -> & (x & xs & Hx & Hxs & ->)%Forall2_cons_inv_l); [done|].
    rewrite Ep in Hx. apply Ok_inj in Hx as <-. split_and!; [done|right; lia|].
    exists xs. by rewrite <- app_assoc.
Qed.
End parser.

(** ** Writing a line and reading it back *)

Definition plain_byte (b : byte) : Prop := is_space b = false /\ b <> x00.

Definition field_ok (f : bytes) : Prop := f <> [] /\ Forall plain_byte f.

Lemma position_none_all (f : bytes) : Forall plain_byte f -> position is_space f = None.
Proof. induction 1 as [|b f [Hb _] _ IH]; [done|]. cbn. by rewrite Hb, IH. Qed.

Lemma position_field (f rest : bytes) :
  Forall plain_byte f -> position is_space (f ++ x20 :: rest) = Some (zlen f).
Proof.
  induction 1 as [|b f [Hb _] _ IH]; [done|]. cbn [app position]. rewrite Hb, IH. cbn. f_equal. rewrite zlen_cons. lia.
Qed.

Lemma trim_field (f rest : bytes) : field_ok f -> trim_start (f ++ rest) = f ++ rest.
Proof. intros [Hne Hf]. destruct Hf as [|b f [Hb _] _]; [done|]. cbn. by rewrite Hb. Qed.

Lemma next_field_mid (f rest : bytes) :
  field_ok f -> next_field (f ++ x20 :: rest) = Some (f, x20 :: rest).
Proof.
  intros Hf. unfold next_field. rewrite trim_field by done. rewrite position_field by apply Hf.
  pose proof (zlen_nonneg rest). rewrite zlen_app, zlen_cons. destruct (Z.eqb_spec (zlen f + (1 + zlen rest)) 0).
  { pose proof (zlen_nonneg f). lia. }
  cbn [default]. by rewrite ztake_app_exact, zdrop_app_exact.
Qed.

Lemma next_field_space (f rest : bytes) :
  field_ok f -> next_field (x20 :: f ++ x20 :: rest) = Some (f, x20 :: rest).
Proof. intros Hf. rewrite <- (next_field_mid f rest Hf). reflexivity. Qed.

(** Separated words are recovered. *)
Fixpoint join_with (c : byte) (ws : list bytes) : bytes :=
  match ws with
  | [] => []
  | [w] => w
  | w :: ws' => w ++ c :: join_with c ws'
  end.

Lemma split_on_word c (w rest : bytes) :
  Forall (fun b => b <> c) w ->
  split_on (fun b => byte_eqb b c) (w ++ c :: rest) = w :: split_on (fun b => byte_eqb b c) rest.
Proof.
  induction 1 as [|b w Hb _ IH]; cbn [app split_on].
  - by rewrite byte_eqb_spec, bool_decide_true.
  - by rewrite byte_eqb_spec, bool_decide_false, IH.
Qed.

Lemma split_on_last c (w : bytes) :
  Forall (fun b => b <> c) w -> split_on (fun b => byte_eqb b c) w = [w].
Proof.
  induction 1 as [|b w Hb _ IH]; [done|]. cbn [split_on]. by rewrite byte_eqb_spec, bool_decide_false, IH.
Qed.

Lemma split_on_join c ws :
  ws <> [] -> Forall (Forall (fun b => b <> c)) ws -> split_on (fun b => byte_eqb b c) (join_with c ws) = ws.
Proof.
  intros Hne Hw. induction Hw as [|w ws Hw Hws IH]; [done|]. destruct ws as [|w' ws]; [by apply split_on_last|].
  change (join_with c (w :: w' :: ws)) with (w ++ c :: join_with c (w' :: ws)).
  rewrite split_on_word by done. f_equal. by apply IH.
Qed.

Definition render_pattern (p : Pattern) : bytes := (if negated p then bstr "!" else []) ++ text p.

(** Patterns as they are stored: lower case, readable back. *)
Definition pattern_ok (p : Pattern) : Prop :=
  field_ok (text p) /\ Forall (fun b => b <> ","%byte) (text p) /\ head (text p) <> Some "|"%byte /\
  head (text p) <> Some "!"%byte /\ to_ascii_lowercase (text p) = text p.

Lemma strip_bang (t : bytes) : head t <> Some "!"%byte -> strip_prefix (bstr "!") t = None.
Proof.
  change (bstr "!") with ["!"%byte]. destruct t as [|b t]; [done|]. intros Hh. cbn [strip_prefix].
  rewrite byte_eqb_spec, bool_decide_false; [done|]. intros <-. by destruct Hh.
Qed.

Lemma parse_patterns_render line limits ps acc :
  Forall pattern_ok ps -> zlen acc + zlen ps <= max_patterns_per_line limits ->
  parse_patterns acc line limits (map render_pattern ps) = Ok (acc ++ ps).
Proof.
  intros Hp. revert acc. induction Hp as [|p ps ([Hne Hf] & Hc & Hb & He & Hl) _ IH]; intros acc Hm; cbn [map parse_patterns].
  { by rewrite app_nil_r. }
  rewrite zlen_cons in Hm. pose proof (zlen_nonneg ps). destruct (Z.leb_spec (max_patterns_per_line limits) (zlen acc)); [lia|].
  assert (match strip_prefix (bstr "!") (render_pattern p) with Some t => (true, t) | None => (false, render_pattern p) end
    = (negated p, text p)) as ->.
  { unfold render_pattern. destruct p as [[] t]; cbn [negated text] in *; [done|].
    change ([] ++ t) with t. by rewrite strip_bang. }
  destruct (Z.eqb_spec (zlen (text p)) 0) as [Hz|]; [apply zlen_0 in Hz; done|].
  rewrite bool_decide_false by done. rewrite Hl, IH, <- app_assoc; [by destruct p|].
  rewrite zlen_app. change (zlen [mkPattern (negated p) (text p)]) with 1. lia.
Qed.

Lemma render_field p : pattern_ok p -> field_ok (render_pattern p) /\ Forall (fun b => b <> ","%byte) (render_pattern p).
Proof.
  intros ([Hne Hf] & Hc & _). unfold render_pattern. destruct (negated p); [|done].
  split; [split; [done|]|]; by constructor.
Qed.

Lemma join_field ws : ws <> [] -> Forall field_ok ws -> field_ok (join_with "," ws).
Proof.
  intros Hne Hw. induction Hw as [|w ws [Hw1 Hw2] Hws IH]; [done|]. destruct ws as [|w' ws]; [done|].
  change (join_with "," (w :: w' :: ws)) with (w ++ ","%byte :: join_with "," (w' :: ws)).
  destruct IH as [_ IH]; [done|]. split; [by destruct w|]. apply Forall_app. split; [done|]. by constructor.
Qed.

(** The start of the host field decides how it is read. *)
Definition starts_plain (ps : list Pattern) : Prop :=
  match ps with [] => False | p :: _ => head (render_pattern p) <> Some "@"%byte end.

Lemma join_head c w ws : w <> [] -> head (join_with c (w :: ws)) = head w.
Proof. destruct w as [|b w]; [done|]. by destruct ws. Qed.

Lemma hosts_head ps :
  Forall pattern_ok ps -> starts_plain ps ->
  let f := join_with "," (map render_pattern ps) in
  head f <> Some "@"%byte /\ head f <> Some "|"%byte.
Proof.
  intros Hp Hs. destruct Hp as [|p ps Hp _]; [done|]. cbn [map].
  pose proof (render_field p Hp) as [[Hne _] _]. cbv zeta. rewrite join_head by done. split; [exact Hs|].
  destruct Hp as ([Ht _] & _ & Hb & _). unfold render_pattern. destruct (negated p); [done|].
  change ([] ++ text p) with (text p). done.
Qed.

Lemma ascii_utf8 (l : bytes) : Forall (fun c => 43 <= u8 c <= 122) l -> utf8_ok l = true.
Proof.
  induction 1 as [|b l Hb _ IH]; [done|]. cbn [utf8_ok]. destruct (Z.ltb_spec (u8 b) 128); [done|lia].
Qed.

Lemma encoded_field `{B : Base64Padded, !Base64PaddedLaws} d : d <> [] -> field_ok (bp_encode d).
Proof.
  intros Hd. split; [by apply bp_nonempty|]. eapply Forall_impl; [apply bp_alphabet|].
  intros b Hb. split; [|intros ->; by change (u8 x00) with 0 in Hb; lia].
  unfold is_space. rewrite !byte_eqb_spec. apply orb_false_iff. split; apply bool_decide_eq_false; intros ->.
  - change (u8 x20) with 32 in Hb. lia.
  - change (u8 x09) with 9 in Hb. lia.
Qed.

(** A line as an administrator writes it. *)
Definition render_line `{Base64Padded} (m : Marker) (ps : list Pattern) (key_type blob comment : bytes) : bytes :=
  match m with
  | MarkNone => []
  | MarkRevoked => bstr "@revoked" ++ [x20]
  | MarkCertAuthority => bstr "@cert-authority" ++ [x20]
  end ++
  join_with "," (map render_pattern ps) ++ x20 :: key_type ++ x20 :: bp_encode blob ++ x20 :: comment.

Section roundtrip.
Context `{B : Base64Padded, !Base64PaddedLaws, HM : HmacSha1, DD : Dalek}.
Variables (features : Features) (hashed_hosts : bool).

Lemma no_nul (l : bytes) : Forall (fun b => b <> x00) l -> existsb (byte_eqb x00) l = false.
Proof.
  induction 1 as [|b l Hb _ IH]; [done|]. cbn [existsb]. rewrite IH, byte_eqb_spec, bool_decide_false; [done|]. congruence.
Qed.

Lemma field_no_nul f : field_ok f -> Forall (fun b => b <> x00) f.
Proof. intros [_ Hf]. eapply Forall_impl; [exact Hf|]. by intros b [_ ?]. Qed.

Lemma render_no_nul m ps kt blob comment :
  field_ok (join_with "," (map render_pattern ps)) -> field_ok kt -> field_ok (bp_encode blob) ->
  Forall (fun b => b <> x00) comment ->
  Forall (fun b => b <> x00) (render_line m ps kt blob comment).
Proof.
  intros Hh Hk Hb Hc. unfold render_line. rewrite !Forall_app, !Forall_cons, !Forall_app, !Forall_cons, Forall_app, Forall_cons.
  split_and!; try done; try by apply field_no_nul. destruct m; [constructor|by apply (bool_decide_unpack _)..].
Qed.

(** The part of the line after the marker. *)
Lemma parse_rest line limits (m : Marker) ps kt blob comment pk :
  ps <> [] -> Forall pattern_ok ps -> zlen ps <= max_patterns_per_line limits -> starts_plain ps ->
  field_ok kt -> PublicKeyBlob.decode blob = Ok pk -> PublicKeyBlob.algorithm pk = kt ->
  check_key features kt blob = Ok tt -> field_ok (bp_encode blob) ->
  (let? hosts := parse_hosts hashed_hosts (join_with "," (map render_pattern ps)) line limits in
   let? (key_type, rest) := ok_or (next_field (x20 :: kt ++ x20 :: bp_encode blob ++ x20 :: comment))
                              (MalformedLine line (MissingField "key type")) in
   let? (key_b64, _) := ok_or (next_field rest) (MalformedLine line (MissingField "key")) in
   if negb (utf8_ok key_b64) then Err (MalformedLine line MalformedBase64) else
   let? blob := ok_or (bp_decode key_b64) (MalformedLine line MalformedBase64) in
   let? parsed := map_err (fun _ => MalformedLine line MalformedBlob) (PublicKeyBlob.decode blob) in
   if negb (bytes_eqb (PublicKeyBlob.algorithm parsed) key_type) then Err (MalformedLine line KeyTypeMismatch) else
   let? _ := map_err (MalformedLine line) (check_key features key_type blob) in
   Ok (Entry.mk line m hosts key_type blob)) = Ok (Entry.mk line m (HostPatterns ps) kt blob).
Proof.
  intros Hne Hp Hz Hs Hk Hd Ha Hc Hb. destruct (hosts_head ps Hp Hs) as [_ Hbar].
  unfold parse_hosts. rewrite bool_decide_false by done.
  rewrite split_on_join; [|by destruct ps|].
  2: { apply Forall_map. eapply Forall_impl; [exact Hp|]. intros p Hpp. by apply render_field. }
  rewrite (parse_patterns_render line limits ps []) by done. cbn [rbind app].
  rewrite next_field_space by done. cbn [ok_or rbind].
  rewrite next_field_space by done. cbn [ok_or rbind].
  rewrite ascii_utf8 by apply bp_alphabet. cbn [negb]. rewrite bp_roundtrip. cbn [ok_or rbind].
  rewrite Hd. cbn [map_err rbind]. rewrite Ha, bytes_eqb_refl. cbn [negb]. rewrite Hc. done.
Qed.
End roundtrip.

(** ** Properties *)

(** C33: pattern matching is the meaning of patterns: the iterative matcher with
    one backtrack point returns on every input, and agrees with the recursive
    reading of stars and question marks on every name without a literal star,
    which includes every lookup name. *)
Theorem glob_match_exact (pattern name : bytes) :
  is_Some (glob_match pattern name) /\
  (Forall (fun b => b <> "*"%byte) name -> glob_match pattern name = Some (glob pattern name)) /\
  (forall host port, 0 <= port -> lookup_name host port = Ok name -> Forall (fun b => b <> "*"%byte) name).
Proof.
  split_and!; [apply glob_match_total|apply glob_match_glob|]. intros host port. apply lookup_name_no_star.
Qed.

(** C35: on every name, with or without literal stars, the matcher accepts no
    more than the pattern means; it accepts less on names with a literal star: a
    star that starts both pattern and name is taken literally and given up as a
    wildcard, so the rest must match the rest, and the pattern [*] refuses every
    longer name that starts with a star, although it means any run. *)
Theorem glob_match_sound (pattern name : bytes) :
  (glob_match pattern name = Some true -> glob pattern name = true) /\
  (forall q r, glob_match ("*"%byte :: q) ("*"%byte :: r) = glob_match q r) /\
  (forall r, r <> [] -> glob_match ["*"%byte] ("*"%byte :: r) = Some false /\ glob ["*"%byte] ("*"%byte :: r) = true).
Proof.
  split; [|split; [apply glob_match_stars|]].
  - intros [|(? & ? & ? & ? & _)]%glob_loop_sound; done.
  - intros r Hr. rewrite glob_match_stars. split; [by destruct r|].
    apply glob_star. exists (S (length r)). split; [done|]. by rewrite drop_ge.
Qed.

(** Lookup names identify the host and the port: two requests share a
    lookup name exactly when their hosts are equal up to ASCII case and their
    ports are equal. *)
Theorem lookup_name_injective (h h' : bytes) (port port' : Z) (name : bytes) :
  0 <= port <= 65535 -> 0 <= port' <= 65535 ->
  lookup_name h port = Ok name -> lookup_name h' port' = Ok name ->
  port = port' /\ to_ascii_lowercase h = to_ascii_lowercase h'.
Proof.
  intros Hp Hp' (Hne & _ & Hf & Hn)%lookup_name_form (Hne' & _ & Hf' & Hn')%lookup_name_form.
  assert (forall x y : bytes, x <> [] -> Forall (fun b => b <> "*"%byte /\ b <> "["%byte /\ b <> "]"%byte) (to_ascii_lowercase x) ->
    to_ascii_lowercase x = "["%byte :: y -> False) as Hb.
  { intros x y _ Hx E. rewrite E in Hx. apply Forall_cons in Hx as [(_ & Hx & _) _]. done. }
  destruct (Z.eqb_spec port DEFAULT_PORT) as [->|], (Z.eqb_spec port' DEFAULT_PORT) as [->|]; subst name.
  - done.
  - exfalso. by apply (Hb h _ Hne Hf Hn').
  - exfalso. by apply (Hb h' _ Hne' Hf' (eq_sym Hn')).
  - injection Hn' as E. apply bracket_split in E as [El Ed];
      [|eapply Forall_impl; [exact Hf|]; naive_solver|eapply Forall_impl; [exact Hf'|]; naive_solver].
    split; [|done]. apply (decimal_inj 5); [change (10 ^ Z.of_nat 5) with 100000; lia..|]. by injection Ed.
Qed.

Section claims.
Context `{B : Base64Padded, HM : HmacSha1, DD : Dalek}.
Variables (features : Features) (hashed_hosts : bool).

(** The policy for a host: its name is the lookup name and its decision is
    determined by the lines that apply to it. *)
Lemma policy_for_spec (kh : KnownHostsFile) (host : bytes) (port : Z) :
  0 <= port ->
  match policy_for kh host port with
  | Some (Ok p) => lookup_name host port = Ok (bound_name p) /\
      forall id, decision_ok (fun P => applying kh (bound_name p) (fun e => P (applicable_of e))) id (known_hosts_decide p id)
  | Some (Err e) => lookup_name host port = Err e
  | None => False
  end.
Proof.
  intros Hp. unfold policy_for. destruct (lookup_name host port) as [name|e] eqn:El; [|done].
  pose proof (lookup_name_no_star _ _ _ Hp El) as Hns. pose proof (lookup_name_form _ _ _ El) as (_ & Hlen & _).
  unfold policy_for_name. destruct (Z.ltb_spec MAX_LOOKUP_NAME_BYTES (zlen name)); [lia|].
  destruct (collect_total false name (entries kh)) as [l Hl]. rewrite Hl. cbn [mbind option_bind bound_name].
  split; [done|]. intros id. eapply decision_ok_iff; [|exact (decide_ok (mkPolicy name l) id)].
  intros P. cbn [applicable]. setoid_rewrite (collect_spec name (entries kh) l Hns Hl). unfold applying. naive_solver.
Qed.

(** C32: the trust decision is the documented one, over the whole file and in no
    particular order: an applicable revocation of the key wins over everything;
    otherwise an applicable plain line with the key is trusted; otherwise the
    key has changed, has no entry for its algorithm, has only certificate
    authorities, or the host is unknown, exactly as the applicable lines are;
    the reported line is one that justifies it; reordering the file's lines
    cannot change the decision. *)
Theorem known_hosts_decision (kh kh' : KnownHostsFile) (host : bytes) (port : Z) (id : HostIdentity) :
  0 <= port -> Permutation (entries kh) (entries kh') ->
  match policy_for kh host port, policy_for kh' host port with
  | Some (Ok p), Some (Ok p') =>
      exists name, lookup_name host port = Ok name /\
        decision_ok (fun P => applying kh name (fun e => P (applicable_of e))) id (decide_trust p id) /\
        decision_code (decide_trust p id) = decision_code (decide_trust p' id)
  | Some (Err e), Some (Err e') => lookup_name host port = Err e /\ e = e'
  | _, _ => False
  end.
Proof.
  intros Hp Hperm. unfold policy_for. destruct (lookup_name host port) as [name|e] eqn:El; [|done].
  pose proof (lookup_name_no_star _ _ _ Hp El) as Hns.
  pose proof (lookup_name_form _ _ _ El) as (_ & Hlen & _).
  unfold policy_for_name. destruct (Z.ltb_spec MAX_LOOKUP_NAME_BYTES (zlen name)); [lia|].
  destruct (collect_total false name (entries kh)) as [l Hl]. destruct (collect_total false name (entries kh')) as [l' Hl'].
  rewrite Hl, Hl'. cbn [mbind option_bind]. exists name. split; [done|].
  pose proof (decide_ok (mkPolicy name l) id) as Hd. pose proof (decide_ok (mkPolicy name l') id) as Hd'.
  cbn [applicable] in Hd, Hd'. split.
  - eapply decision_ok_iff; [|exact Hd]. intros P. setoid_rewrite (collect_spec name (entries kh) l Hns Hl).
    unfold applying. naive_solver.
  - apply (decision_code_det l id); [exact Hd|]. eapply decision_ok_iff; [|exact Hd'].
    intros P. by setoid_rewrite (collect_permutation false name _ _ _ _ Hperm Hl Hl').
Qed.

(** C34: a file parses as a whole or not at all: parsing succeeds exactly when
    the file, its lines and the number of entries are within the limits and
    every line that is not blank or a comment parses; the entries are those
    lines' entries, in order, with their line numbers. No bad line, and so no
    broken revocation, is ever skipped. *)
Theorem known_hosts_parse_exact (file : bytes) (limits : Limits) (kh : KnownHostsFile) :
  let raws := split_on (fun b => byte_eqb b x0a) file in
  parse features hashed_hosts file limits = Ok kh <->
  zlen file <= max_file_bytes limits /\
  Forall (fun raw => zlen (strip_cr raw) <= max_line_bytes limits) raws /\
  (content_lines 0 raws = [] \/ zlen (content_lines 0 raws) <= max_entries limits) /\
  Forall2 (fun '(n, c) e => parse_line features hashed_hosts c n limits = Ok e) (content_lines 0 raws) (entries kh).
Proof.
  intros raws. unfold parse. fold raws. destruct (Z.ltb_spec (max_file_bytes limits) (zlen file)) as [|Hf].
  { split; [done|]. intros (? & _). lia. }
  pose proof (parse_lines_iff features hashed_hosts limits [] 0 raws) as Hi.
  destruct (parse_lines features hashed_hosts limits [] 0 raws) as [l|e]; cbn [rbind].
  - specialize (Hi l). destruct kh as [es]. cbn [entries]. split.
    + intros [= <-]. destruct (proj1 Hi eq_refl) as (H1 & H2 & x & -> & H3). done.
    + intros (_ & H1 & H2 & H3). do 2 f_equal. assert (Ok l = Ok (E:=KnownHostsError) es) as E1%Ok_inj; [|done].
      destruct (proj1 Hi eq_refl) as (_ & _ & x & -> & H4). f_equal. cbn [app].
      clear -H3 H4. revert es H3. induction H4 as [|[n c] e cl x Hx _ IH]; intros es H3.
      * by apply Forall2_nil_inv_l in H3 as ->.
      * apply Forall2_cons_inv_l in H3 as (e' & es' & He' & H3 & ->). rewrite Hx in He'. apply Ok_inj in He' as ->.
        f_equal. by apply IH.
  - split; [done|]. intros (_ & H1 & H2 & H3). exfalso. specialize (Hi (entries kh)).
    destruct Hi as [_ Hi]. discriminate Hi. split_and!; [done|done|]. by exists (entries kh).
Qed.

(** A line written with a marker, lower-case patterns, a key type and the
    encoded key is read back as exactly that entry, whatever the comment. *)
Theorem known_hosts_line_roundtrip `{!Base64PaddedLaws} (line : Z) (limits : Limits) (m : Marker) (ps : list Pattern)
    (key_type blob comment : bytes) (pk : PublicKeyBlob.t) :
  Forall pattern_ok ps -> starts_plain ps -> zlen ps <= max_patterns_per_line limits -> field_ok key_type ->
  Forall (fun b => b <> x00) comment ->
  PublicKeyBlob.decode blob = Ok pk -> PublicKeyBlob.algorithm pk = key_type ->
  check_key features key_type blob = Ok tt ->
  parse_line features hashed_hosts (render_line m ps key_type blob comment) line limits =
    Ok (Entry.mk line m (HostPatterns ps) key_type blob).
Proof.
  intros Hp Hs Hz Hk Hc Hd Ha Hck. assert (ps <> []) as Hne by (by destruct ps).
  assert (blob <> []) as Hbne by (by intros ->).
  pose proof (encoded_field blob Hbne) as Hb.
  assert (field_ok (join_with "," (map render_pattern ps))) as Hf.
  { apply join_field; [by destruct ps|]. apply Forall_map. eapply Forall_impl; [exact Hp|]. intros p Hpp. by apply render_field. }
  destruct (hosts_head ps Hp Hs) as [Hat _].
  unfold parse_line. rewrite no_nul by (by apply render_no_nul).
  unfold render_line. destruct m.
  - cbn [app]. rewrite next_field_mid by done. cbn [ok_or rbind]. rewrite bool_decide_false by done. cbn [rbind].
    by apply (parse_rest features hashed_hosts line limits MarkNone ps key_type blob comment pk).
  - rewrite <- app_assoc. cbn [app]. rewrite (next_field_mid (bstr "@revoked")) by (by apply (bool_decide_unpack _)).
    cbn [ok_or rbind]. rewrite bool_decide_true by done. rewrite bytes_eqb_refl. cbn [rbind].
    rewrite next_field_space by done. cbn [ok_or rbind].
    by apply (parse_rest features hashed_hosts line limits MarkRevoked ps key_type blob comment pk).
  - rewrite <- app_assoc. cbn [app]. rewrite (next_field_mid (bstr "@cert-authority")) by (by apply (bool_decide_unpack _)).
    cbn [ok_or rbind]. rewrite bool_decide_true by done. rewrite bytes_eqb_refl. cbn [rbind].
    change (bytes_eqb (bstr "@cert-authority") (bstr "@revoked")) with false. cbn [rbind].
    rewrite next_field_space by done. cbn [ok_or rbind].
    by apply (parse_rest features hashed_hosts line limits MarkCertAuthority ps key_type blob comment pk).
Qed.
End claims.

(** ** Witnesses *)

Lemma lookup_name_injective_witness :
  lookup_name (bstr "Host.Example") 2222 = Ok (bstr "[host.example]:2222") /\
  to_ascii_lowercase (bstr "Host.Example") = to_ascii_lowercase (bstr "host.example").
Proof.
  split; [reflexivity|].
  apply (lookup_name_injective (bstr "Host.Example") (bstr "host.example") 2222 2222 (bstr "[host.example]:2222"));
    [lia|lia|reflexivity|reflexivity].
Defined.

(** Two letters per byte stand in for base64, and the message for its MAC. *)
Definition letters (b : byte) : bytes := [byte_of_Z (97 + u8 b / 16); byte_of_Z (97 + u8 b mod 16)].

Fixpoint letters_decode (t : bytes) : option bytes :=
  match t with
  | [] => Some []
  | a :: b :: t' =>
      let* rest := letters_decode t' in
      Some (byte_of_Z ((u8 a - 97) * 16 + (u8 b - 97)) :: rest)
  | _ => None
  end.

#[local] Instance letters_codec : Base64Padded := {|
  bp_decode := letters_decode;
  bp_encode d := concat (map letters d)
|}.

#[local] Instance letters_codec_laws : Base64PaddedLaws.
Proof.
  split.
  - induction d as [|b d IH]; [done|]. cbn in *. rewrite IH. cbn [mbind option_bind]. do 2 f_equal. by destruct b.
  - induction d as [|b d IH]; [constructor|]. cbn [bp_encode letters_codec map concat]. apply Forall_app. split; [|exact IH].
    destruct b; repeat constructor; vm_compute; discriminate.
  - by intros [|b d].
Qed.

#[local] Instance echo_mac : HmacSha1 := {| hmac_sha1 _ m := m |}.

#[local] Instance any_key : Dalek := {|
  VerifyingKey := unit;
  vk_from_bytes b := Some tt;
  vk_as_bytes _ := replicate 32 x09;
  vk_verify_strict _ _ _ := false
|}.

Definition sample_blob : bytes := sshstr algorithms.SSH_ED25519 ++ sshstr (replicate 32 x09).

Definition sample_patterns : list Pattern := [mkPattern false (bstr "*.example"); mkPattern true (bstr "bad.example")].

Definition sample_features : Features := mkFeatures true true true.

Lemma known_hosts_line_roundtrip_witness :
  parse_line sample_features true (render_line MarkRevoked sample_patterns algorithms.SSH_ED25519 sample_blob (bstr "note"))
    7 Limits_default = Ok (Entry.mk 7 MarkRevoked (HostPatterns sample_patterns) algorithms.SSH_ED25519 sample_blob).
Proof.
  apply (known_hosts_line_roundtrip sample_features true 7 Limits_default MarkRevoked sample_patterns algorithms.SSH_ED25519
    sample_blob (bstr "note") (PublicKeyBlob.mk algorithms.SSH_ED25519 (sshstr (replicate 32 x09)) sample_blob)).
  - repeat constructor; vm_compute; discriminate.
  - discriminate.
  - vm_compute; discriminate.
  - split; [discriminate|]. repeat constructor; discriminate.
  - repeat constructor; discriminate.
  - reflexivity.
  - reflexivity.
  - reflexivity.
Defined.

Definition sample_entry (line : Z) (m : Marker) : Entry.t :=
  Entry.mk line m (HostPatterns sample_patterns) algorithms.SSH_ED25519 sample_blob.

Definition sample_identity : HostIdentity :=
  mkIdentity algorithms.SSH_ED25519 sample_blob (Sha256Fingerprint.mk []).

Lemma known_hosts_decision_witness :
  match policy_for (mkKnownHosts [sample_entry 1 MarkNone; sample_entry 2 MarkRevoked]) (bstr "a.example") 22,
        policy_for (mkKnownHosts [sample_entry 2 MarkRevoked; sample_entry 1 MarkNone]) (bstr "a.example") 22 with
  | Some (Ok p), Some (Ok p') =>
      decide_trust p sample_identity = Untrusted (Revoked 2) /\
      decision_code (decide_trust p sample_identity) = decision_code (decide_trust p' sample_identity)
  | _, _ => False
  end.
Proof.
  pose proof (known_hosts_decision (mkKnownHosts [sample_entry 1 MarkNone; sample_entry 2 MarkRevoked])
    (mkKnownHosts [sample_entry 2 MarkRevoked; sample_entry 1 MarkNone]) (bstr "a.example") 22 sample_identity
    ltac:(lia) (perm_swap _ _ _)) as Hd.
  set (kh := mkKnownHosts [sample_entry 1 MarkNone; sample_entry 2 MarkRevoked]) in *.
  set (kh' := mkKnownHosts [sample_entry 2 MarkRevoked; sample_entry 1 MarkNone]) in *.
  assert (match policy_for kh (bstr "a.example") 22 with
          | Some (Ok p) => decide_trust p sample_identity = Untrusted (Revoked 2)
          | _ => False end) as Hv by (vm_compute; reflexivity).
  destruct (policy_for kh _ _) as [[p|e]|]; [|exact (False_ind _ Hv)..].
  destruct (policy_for kh' _ _) as [[p'|e]|]; [|exact (False_ind _ Hd)..].
  destruct Hd as (name & _ & _ & Hc). exact (conj Hv Hc).
Defined.
