(* ===== verification/Text.v ===== *)
(** * Rendering of untrusted bytes and of reports

    Models crates/tatami_ssh/src/text.rs (terminal escaping) and json.rs (the
    JSON value model and serializer). The strings text.rs builds are ASCII and
    are their bytes; a JSON string is the list of its Unicode scalar values. *)

From S2P Require Import Prelude WireError NameList Primitives Messages KexInit KeyAlgorithm HostKey HostKeyProps.
From S2P Require Import Packet Gcm Transcript Trust KnownHosts KnownHostsProps.

(** ** Terminal text *)

Module Text.

(** [write!(out, "\\x{b:02x}")]. *)
Definition hex_escape (b : byte) : bytes := bstr "\x" ++ hex_byte b.

Definition printable (b : byte) : bool := (0x20 <=? u8 b) && (u8 b <=? 0x7e).

(* facade/text.rs:14-27 escape_bytes *)
Fixpoint escape_bytes (bytes : bytes) : Prelude.bytes :=
  match bytes with
  | [] => []
  | b :: rest =>
      (if byte_eqb b "\"%byte then bstr "\\"
       else if printable b then [b]
       else hex_escape b) ++ escape_bytes rest
  end.

Definition QUOTE : byte := x22.

Fixpoint quoted_body (bytes : bytes) : Prelude.bytes :=
  match bytes with
  | [] => []
  | b :: rest =>
      (if byte_eqb b QUOTE then ["\"%byte; QUOTE]
       else if byte_eqb b "\"%byte then bstr "\\"
       else if printable b then [b]
       else hex_escape b) ++ quoted_body rest
  end.

(* facade/text.rs:31-46 quoted *)
Definition quoted (bytes : bytes) : Prelude.bytes := [QUOTE] ++ quoted_body bytes ++ [QUOTE].

End Text.

(** ** JSON *)

Module Json.

#[local] Set Warnings "-register-all".

Definition str : Type := list Z.

Definition chars (s : string) : str := map u8 (bstr s).

(* facade/json.rs:18-33 Value *)
Inductive Value : Type :=
| Null
| Bool (b : bool)
| UInt (n : Z)
| Int (n : Z)
| Str (s : str)
| Array (items : list Value)
| Object (fields : list (str * Value)).

(* facade/json.rs:50-56 Value::hex *)
Definition hex (bytes : bytes) : Value := Str (map u8 (mjoin (map hex_byte bytes))).

(* facade/json.rs:59-65 Value::strings *)
Definition strings (items : list str) : Value := Array (map Str items).

(** [u64]'s [Display] (at most 20 digits) and [i64]'s. *)
Definition display_u64 (n : Z) : str := map u8 (decimal 20 n).

Definition display_i64 (n : Z) : str := if n <? 0 then 45 :: display_u64 (- n) else display_u64 n.

(** One character of [write_string]; the last escape is [\u{:04x}]. *)
(* facade/json.rs:196-208 write_string *)
Definition write_char (c : Z) : str :=
  if c =? 34 then [92; 34]
  else if c =? 92 then [92; 92]
  else if c =? 10 then [92; 110]
  else if c =? 13 then [92; 114]
  else if c =? 9 then [92; 116]
  else if c =? 8 then [92; 98]
  else if c =? 12 then [92; 102]
  else if c <? 0x20 then [92; 117; 48; 48] ++ map u8 (hex_byte (byte_of_Z c))
  else [c].

(* facade/json.rs:193-211 write_string *)
Definition write_string (out s : str) : str := out ++ [34] ++ mjoin (map write_char s) ++ [34].

(** The two loops: a comma before every item but the first. *)
(* facade/json.rs:95-100 Value::write *)
Definition separated {A} (write_item : A -> str -> str) : nat -> list A -> str -> str :=
  fix go (i : nat) (items : list A) (out : str) : str :=
    match items with
    | [] => out
    | item :: rest =>
        let out := if (0 <? i)%nat then out ++ [44] else out in
        go (S i) rest (write_item item out)
    end.

(* facade/json.rs:82-116 Value::write *)
Fixpoint write (self : Value) (out : str) : str :=
  match self with
  | Null => out ++ chars "null"
  | Bool b => out ++ chars (if b then "true" else "false")
  | UInt n => out ++ display_u64 n
  | Int n => out ++ display_i64 n
  | Str s => write_string out s
  | Array items => separated write O items (out ++ [91]) ++ [93]
  | Object fields =>
      separated (fun kv out => write (snd kv) (write_string out (fst kv) ++ [58])) O fields (out ++ [123]) ++ [125]
  end.

(* facade/json.rs:75-79 Value::to_json *)
Definition to_json (self : Value) : str := write self [].

(** The builder keeps the fields in insertion order. *)
(* facade/json.rs:126-129 Object::field *)
Definition field (self : list (str * Value)) (key : str) (value : Value) : list (str * Value) := self ++ [(key, value)].

(* facade/json.rs:133-138 Object::opt *)
Definition opt (self : list (str * Value)) (key : str) (value : option Value) : list (str * Value) :=
  match value with
  | Some v => field self key v
  | None => field self key Null
  end.

(* facade/json.rs:142-144 Object::build *)
Definition build (self : list (str * Value)) : Value := Object self.

End Json.
