(* ===== verification/TextProps.v ===== *)
(** * What rendered text means

    Escaped terminal text is printable and determines the bytes; a JSON text is
    one line without control characters and parses, by a reference parser of
    RFC 8259, to the value it was written from. *)

From S2P Require Import Prelude WireError NameList Primitives Messages KexInit KeyAlgorithm HostKey HostKeyProps.
From S2P Require Import Packet Gcm Transcript Trust KnownHosts KnownHostsProps Text.

(** ** Terminal text *)

Import Text.

Definition unhex (hi lo : byte) : option byte :=
  let* h := to_digit16 hi in
  let* l := to_digit16 lo in
  Some (byte_of_Z (h * 16 + l)).

(** The bytes a text stands for, up to an unescaped quote when [q]. *)
Fixpoint unescape (q : bool) (s : bytes) : option (bytes * bytes) :=
  match s with
  | [] => if q then None else Some ([], [])
  | b :: r =>
      if byte_eqb b "\"%byte then
        match r with
        | c :: r' =>
            if byte_eqb c "\"%byte || (q && byte_eqb c QUOTE)
            then prod_map (cons c) id <$> unescape q r'
            else if byte_eqb c "x"%byte then
              match r' with
              | hi :: lo :: r'' => let* v := unhex hi lo in prod_map (cons v) id <$> unescape q r''
              | _ => None
              end
            else None
        | [] => None
        end
      else if q && byte_eqb b QUOTE then Some ([], r)
      else prod_map (cons b) id <$> unescape q r
  end.

Lemma unhex_hex_byte b : unhex (hex_digit (u8 b / 16)) (hex_digit (u8 b mod 16)) = Some b.
Proof. by destruct b. Qed.

(** One step of the reader undoes one step of either writer. *)
Lemma unescape_escape bs : unescape false (escape_bytes bs) = Some (bs, []).
Proof.
  induction bs as [|b bs IH]; [done|]. cbn [escape_bytes]. rewrite byte_eqb_spec. case_bool_decide as Hb.
  - subst. cbn -[escape_bytes]. by rewrite IH.
  - destruct (printable b).
    + cbn -[escape_bytes]. rewrite byte_eqb_spec, bool_decide_false by done. by rewrite IH.
    + unfold hex_escape, hex_byte. cbn -[escape_bytes unhex hex_digit u8]. rewrite unhex_hex_byte. cbn. by rewrite IH.
Qed.

Lemma unescape_quoted bs rest : unescape true (quoted_body bs ++ QUOTE :: rest) = Some (bs, rest).
Proof.
  induction bs as [|b bs IH]; [done|]. cbn [quoted_body]. rewrite (byte_eqb_spec b QUOTE). case_bool_decide as Hq.
  { subst. cbn -[quoted_body]. by rewrite IH. }
  rewrite byte_eqb_spec. case_bool_decide as Hb.
  { subst. cbn -[quoted_body]. by rewrite IH. }
  destruct (printable b).
  - cbn -[quoted_body QUOTE]. rewrite !byte_eqb_spec, !bool_decide_false by done. by rewrite IH.
  - unfold hex_escape, hex_byte. cbn -[quoted_body unhex hex_digit u8]. rewrite unhex_hex_byte. cbn. by rewrite IH.
Qed.

Lemma hex_escape_printable b : Forall (fun c => printable c = true) (hex_escape b).
Proof. destruct b; repeat constructor. Qed.

Lemma escape_printable bs : Forall (fun c => printable c = true) (escape_bytes bs).
Proof.
  induction bs as [|b bs IH]; [constructor|]. cbn [escape_bytes]. apply Forall_app. split; [|done].
  destruct (byte_eqb b "\"%byte); [repeat constructor|]. destruct (printable b) eqn:E; [by repeat constructor|].
  apply hex_escape_printable.
Qed.

Lemma quoted_printable bs : Forall (fun c => printable c = true) (quoted bs).
Proof.
  unfold quoted. apply Forall_cons. split; [done|]. apply Forall_app. split; [|by repeat constructor].
  induction bs as [|b bs IH]; [constructor|]. cbn [quoted_body]. apply Forall_app. split; [|done].
  destruct (byte_eqb b QUOTE); [repeat constructor|]. destruct (byte_eqb b "\"%byte); [repeat constructor|].
  destruct (printable b) eqn:E; [by repeat constructor|]. apply hex_escape_printable.
Qed.

(** Whatever a peer sent, what reaches the terminal is printable ASCII,
    and the bytes stay recoverable: reading the escapes back yields them, and
    in a quoted literal the closing quote is the first one not escaped. *)
Theorem escape_recoverable (bs rest : bytes) :
  Forall (fun c => printable c = true) (escape_bytes bs) /\
  Forall (fun c => printable c = true) (quoted bs) /\
  unescape false (escape_bytes bs) = Some (bs, []) /\
  exists s, quoted bs ++ rest = QUOTE :: s /\ unescape true s = Some (bs, rest).
Proof.
  split_and!; [apply escape_printable|apply quoted_printable|apply unescape_escape|].
  exists (quoted_body bs ++ QUOTE :: rest). split; [|apply unescape_quoted].
  unfold quoted. by rewrite <- !app_assoc.
Qed.

(** ** JSON *)

Import Json.

Section value_ind.
Variable P : Value -> Prop.
Hypothesis HNull : P Null.
Hypothesis HBool : forall b, P (Bool b).
Hypothesis HUInt : forall n, P (UInt n).
Hypothesis HInt : forall n, P (Int n).
Hypothesis HStr : forall s, P (Str s).
Hypothesis HArray : forall l, Forall P l -> P (Array l).
Hypothesis HObject : forall l, Forall (fun kv => P (snd kv)) l -> P (Object l).

(** Induction with the items and fields of a value. *)
Fixpoint value_ind (v : Value) : P v :=
  match v with
  | Null => HNull
  | Bool b => HBool b
  | UInt n => HUInt n
  | Int n => HInt n
  | Str s => HStr s
  | Array l =>
      HArray l ((fix go l : Forall P l :=
        match l with [] => List.Forall_nil _ | x :: l => @List.Forall_cons _ _ x l (value_ind x) (go l) end) l)
  | Object l =>
      HObject l ((fix go l : Forall (fun kv => P (snd kv)) l :=
        match l with [] => List.Forall_nil _ | x :: l => @List.Forall_cons _ _ x l (value_ind (snd x)) (go l) end) l)
  end.
End value_ind.

(** What is written for a value. *)
Definition commas (l : list str) : str :=
  match l with [] => [] | x :: l => x ++ mjoin (map (cons 44) l) end.

Definition string_image (s : str) : str := [34] ++ mjoin (map write_char s) ++ [34].

Fixpoint image (v : Value) : str :=
  match v with
  | Null => chars "null"
  | Bool b => chars (if b then "true" else "false")
  | UInt n => display_u64 n
  | Int n => display_i64 n
  | Str s => string_image s
  | Array l => [91] ++ commas (map image l) ++ [93]
  | Object l => [123] ++ commas (map (fun kv => string_image (fst kv) ++ [58] ++ image (snd kv)) l) ++ [125]
  end.

Lemma separated_spec {A} (w : A -> str -> str) (g : A -> str) l :
  Forall (fun x => forall out, w x out = out ++ g x) l ->
  forall i out, separated w i l out = out ++ (if (0 <? i)%nat then mjoin (map (cons 44) (map g l)) else commas (map g l)).
Proof.
  induction 1 as [|x l Hx _ IH]; intros i out.
  - destruct (0 <? i)%nat; cbn; by rewrite app_nil_r.
  - change (separated w i (x :: l) out) with (separated w (S i) l (w x (if (0 <? i)%nat then out ++ [44] else out))).
    rewrite IH, Hx. change (0 <? S i)%nat with true. destruct (0 <? i)%nat; rewrite <- ?app_assoc; reflexivity.
Qed.

Lemma write_image v : forall out, write v out = out ++ image v.
Proof.
  induction v as [| | | | |l IH|l IH] using value_ind; intros out; try done; cbn [write image].
  - rewrite (separated_spec write image l IH). cbn [Nat.ltb Nat.leb]. by rewrite <- !app_assoc.
  - rewrite (separated_spec _ (fun kv => string_image (fst kv) ++ [58] ++ image (snd kv))).
    + cbn [Nat.ltb Nat.leb]. by rewrite <- !app_assoc.
    + eapply Forall_impl; [exact IH|]. intros [k v] Hv o. cbn in *. rewrite Hv. unfold write_string, string_image.
      by rewrite <- !app_assoc.
Qed.

(** *** The reference parser *)

Definition hex_value (c : Z) : option Z :=
  if (48 <=? c) && (c <=? 57) then Some (c - 48)
  else if (97 <=? c) && (c <=? 102) then Some (c - 87)
  else None.

Definition simple_escape (c : Z) : option Z :=
  if c =? 34 then Some 34 else if c =? 92 then Some 92 else if c =? 47 then Some 47
  else if c =? 110 then Some 10 else if c =? 114 then Some 13 else if c =? 116 then Some 9
  else if c =? 98 then Some 8 else if c =? 102 then Some 12 else None.

(** The characters of a string, after its opening quote. *)
Fixpoint read_string (s : str) : option (str * str) :=
  match s with
  | [] => None
  | c :: r =>
      if c =? 34 then Some ([], r)
      else if c =? 92 then
        match r with
        | [] => None
        | e :: r' =>
            match simple_escape e with
            | Some v => prod_map (cons v) id <$> read_string r'
            | None =>
                if e =? 117 then
                  match r' with
                  | h3 :: h2 :: h1 :: h0 :: r'' =>
                      let* d3 := hex_value h3 in
                      let* d2 := hex_value h2 in
                      let* d1 := hex_value h1 in
                      let* d0 := hex_value h0 in
                      prod_map (cons (((d3 * 16 + d2) * 16 + d1) * 16 + d0)) id <$> read_string r''
                  | _ => None
                  end
                else None
            end
        end
      else if c <? 0x20 then None
      else prod_map (cons c) id <$> read_string r
  end.

Definition digit (c : Z) : bool := (48 <=? c) && (c <=? 57).

Fixpoint read_digits (acc : Z) (s : str) : Z * str :=
  match s with
  | c :: r => if digit c then read_digits (acc * 10 + (c - 48)) r else (acc, s)
  | [] => (acc, [])
  end.

Fixpoint expect (p s : str) : option str :=
  match p, s with
  | [], _ => Some s
  | x :: p, y :: s => if x =? y then expect p s else None
  | _ :: _, [] => None
  end.

(** A sequence closed by [stop], whose items [item] reads. *)
Fixpoint parse_value (fuel : nat) (s : str) {struct fuel} : option (Value * str) :=
  match fuel with
  | O => None
  | S fuel =>
      match s with
      | [] => None
      | c :: r =>
          if c =? 34 then prod_map Str id <$> read_string r
          else if c =? 91 then
            match expect [93] r with
            | Some r' => Some (Array [], r')
            | None => prod_map Array id <$> parse_items fuel r
            end
          else if c =? 123 then
            match expect [125] r with
            | Some r' => Some (Object [], r')
            | None => prod_map Object id <$> parse_fields fuel r
            end
          else if c =? 110 then (fun r => (Null, r)) <$> expect (chars "ull") r
          else if c =? 116 then (fun r => (Bool true, r)) <$> expect (chars "rue") r
          else if c =? 102 then (fun r => (Bool false, r)) <$> expect (chars "alse") r
          else if c =? 45 then
            match r with
            | d :: _ => if digit d then Some (prod_map (fun n => Int (- n)) id (read_digits 0 r)) else None
            | [] => None
            end
          else if digit c then Some (prod_map UInt id (read_digits 0 s))
          else None
      end
  end
with parse_items (fuel : nat) (s : str) {struct fuel} : option (list Value * str) :=
  match fuel with
  | O => None
  | S fuel =>
      let* (v, r) := parse_value fuel s in
      match expect [93] r with
      | Some r' => Some ([v], r')
      | None =>
          let* r := expect [44] r in
          prod_map (cons v) id <$> parse_items fuel r
      end
  end
with parse_fields (fuel : nat) (s : str) {struct fuel} : option (list (str * Value) * str) :=
  match fuel with
  | O => None
  | S fuel =>
      let* r := expect [34] s in
      let* (k, r) := read_string r in
      let* r := expect [58] r in
      let* (v, r) := parse_value fuel r in
      match expect [125] r with
      | Some r' => Some ([(k, v)], r')
      | None =>
          let* r := expect [44] r in
          prod_map (cons (k, v)) id <$> parse_fields fuel r
      end
  end.

Definition parse_json (s : str) : option (Value * str) := parse_value (length s) s.

(** Values the types allow; a non-negative [Int] reads back as a [UInt]. *)
Definition char_ok (c : Z) : Prop := 0 <= c <= 0x10ffff.

Fixpoint value_ok (v : Value) : Prop :=
  match v with
  | Null | Bool _ => True
  | UInt n => 0 <= n <= U64_MAX
  | Int n => - 2 ^ 63 <= n < 2 ^ 63
  | Str s => Forall char_ok s
  | Array l => foldr and True (map value_ok l)
  | Object l => foldr and True (map (fun kv => Forall char_ok (fst kv) /\ value_ok (snd kv)) l)
  end.

Fixpoint canonical (v : Value) : Value :=
  match v with
  | Int n => if n <? 0 then Int n else UInt n
  | Array l => Array (map canonical l)
  | Object l => Object (map (fun kv => (fst kv, canonical (snd kv))) l)
  | _ => v
  end.

Example parse_demo :
  parse_json (to_json (Object [(chars "a", Array [UInt 10; Int (-5); Str [10; 1; 0x2713]; Null]); (chars "b", Object [])]))
  = Some (Object [(chars "a", Array [UInt 10; Int (-5); Str [10; 1; 0x2713]; Null]); (chars "b", Object [])], []).
Proof. vm_compute. reflexivity. Qed.

(** *** Tokens *)

(** Decides the character tests that arithmetic refutes. *)
Ltac refute_eqb c := repeat match goal with |- context [c =? ?k] => rewrite (proj2 (Z.eqb_neq c k)) by lia end.

Lemma read_write_char c t : 0 <= c -> read_string (write_char c ++ t) = prod_map (cons c) id <$> read_string t.
Proof.
  intros Hc. destruct (Z.ltb_spec c 32) as [Hs|Hs].
  - assert (exists m, c = Z.of_nat m /\ (m < 32)%nat) as (m & -> & Hm) by (exists (Z.to_nat c); lia).
    clear Hc Hs. do 32 (destruct m as [|m]; [reflexivity|]). lia.
  - unfold write_char. destruct (Z.eqb_spec c 34) as [->|H1]; [reflexivity|].
    destruct (Z.eqb_spec c 92) as [->|H2]; [reflexivity|].
    refute_eqb c. destruct (Z.ltb_spec c 32); [lia|]. cbn [app read_string]. refute_eqb c.
    destruct (Z.ltb_spec c 32); [lia|done].
Qed.

Lemma read_string_spec s rest :
  Forall char_ok s -> read_string (mjoin (map write_char s) ++ 34 :: rest) = Some (s, rest).
Proof.
  induction 1 as [|c s [Hc _] _ IH]; [done|]. cbn [map]. change (mjoin (?x :: ?y)) with (x ++ mjoin y).
  rewrite <- app_assoc, read_write_char by done. by rewrite IH.
Qed.

Definition stops (s : str) : Prop := match s with c :: _ => digit c = false | [] => True end.

Lemma digit_spec c : digit c = true <-> 48 <= c <= 57.
Proof. unfold digit. rewrite andb_true_iff, !Z.leb_le. done. Qed.

Lemma read_decimal k n t :
  0 <= n < 10 ^ Z.of_nat k -> read_digits 0 (map u8 (decimal k n) ++ t) = read_digits n t.
Proof.
  revert n t. induction k as [|k IH]; intros n t Hn.
  - change (10 ^ Z.of_nat 0) with 1 in Hn. by replace n with 0 by lia.
  - rewrite Nat2Z.inj_succ, Z.pow_succ_r in Hn by lia. cbn [decimal]. rewrite map_app, <- app_assoc.
    pose proof (Z.mod_pos_bound n 10 ltac:(lia)). pose proof (Z.div_mod n 10 ltac:(lia)).
    assert (forall m, read_digits m (map u8 [byte_of_Z (48 + n mod 10)] ++ t) = read_digits (m * 10 + n mod 10) t) as Hstep.
    { intros m. cbn [map app read_digits]. rewrite u8_byte_of_Z, Z.mod_small by lia.
      rewrite (proj2 (digit_spec _)) by lia. f_equal. lia. }
    destruct (Z.ltb_spec n 10).
    + cbn [map app]. rewrite Hstep. f_equal. rewrite Z.mod_small; lia.
    + rewrite IH, Hstep; [f_equal; lia|]. split; [apply Z.div_pos; lia|]. apply Z.div_lt_upper_bound; lia.
Qed.

Lemma read_u64 n t : 0 <= n <= U64_MAX -> stops t -> read_digits 0 (display_u64 n ++ t) = (n, t).
Proof.
  intros Hn Ht. unfold display_u64. rewrite read_decimal.
  - destruct t as [|c t]; [done|]. cbn in *. by rewrite Ht.
  - change (10 ^ Z.of_nat 20) with 100000000000000000000. unfold U64_MAX in Hn. lia.
Qed.

Lemma display_head n : 0 <= n -> exists c t, display_u64 n = c :: t /\ digit c = true.
Proof.
  intros Hn. unfold display_u64. pose proof (decimal_digits 20 n Hn) as Hd.
  destruct (decimal 20 n) as [|b l] eqn:E; [cbn [decimal] in E; by apply app_eq_nil in E as [_ ?]|].
  exists (u8 b), (map u8 l). split; [done|]. apply digit_spec. by apply Forall_cons in Hd as [Hd _].
Qed.

(** Every value starts with a character that closes nothing. *)
Lemma image_head v : value_ok v -> exists c t, image v = c :: t /\ c <> 93 /\ c <> 125.
Proof.
  intros Hv. destruct v as [|[]|n|n|s|l|l]; try (by eexists _, _; split_and!); cbn [value_ok image] in *.
  - destruct (display_head n) as (c & t & -> & Hc%digit_spec); [lia|]. exists c, t. split_and!; [done|lia|lia].
  - unfold display_i64. destruct (Z.ltb_spec n 0); [by eexists _, _|].
    destruct (display_head n) as (c & t & -> & Hc%digit_spec); [lia|]. exists c, t. split_and!; [done|lia|lia].
Qed.

Lemma parse_number fuel n t : 0 <= n <= U64_MAX -> stops t ->
  parse_value (S fuel) (display_u64 n ++ t) = Some (UInt n, t).
Proof.
  intros Hn Ht. pose proof (read_u64 n t Hn Ht) as Hr. destruct (display_head n) as (c & l & E & Hc); [lia|].
  rewrite E in *. cbn [app parse_value] in *. pose proof (proj1 (digit_spec c) Hc).
  refute_eqb c. rewrite Hc. by rewrite Hr.
Qed.

(** *** Values *)

Definition total (l : list nat) : nat := foldr Nat.add O l.

Fixpoint size (v : Value) : nat :=
  match v with
  | Array l => S (total (map (fun v => S (size v)) l))
  | Object l => S (total (map (fun kv => S (size (snd kv))) l))
  | _ => 1
  end.

Definition parses (v : Value) : Prop :=
  value_ok v -> forall fuel rest, (size v <= fuel)%nat -> stops rest ->
  parse_value fuel (image v ++ rest) = Some (canonical v, rest).

Lemma commas_cons {A} (g : A -> str) x l r stop :
  commas (map g (x :: l)) ++ stop :: r = g x ++ match l with [] => stop :: r | _ => 44 :: commas (map g l) ++ stop :: r end.
Proof. cbn [map commas]. rewrite <- app_assoc. by destruct l. Qed.

Lemma items_spec l :
  l <> [] -> Forall parses l -> foldr and True (map value_ok l) ->
  forall fuel rest, (total (map (fun v => S (size v)) l) <= fuel)%nat ->
  parse_items fuel (commas (map image l) ++ 93 :: rest) = Some (map canonical l, rest).
Proof.
  induction l as [|v l IH]; [done|]. intros _ [Hv Hl]%Forall_cons [Ov Ol] fuel rest Hf. cbn [map total foldr] in Hf.
  destruct fuel as [|fuel]; [lia|]. rewrite commas_cons. cbn [parse_items].
  rewrite Hv; [|done|lia|by destruct l]. cbn [mbind option_bind]. destruct l as [|w l]; [done|].
  change (expect [93] (44 :: ?t)) with (@None str). change (expect [44] (44 :: ?t)) with (Some t).
  cbn [mbind option_bind].
  rewrite IH; [done|done|done|done|]. cbn in *. lia.
Qed.

Lemma fields_spec l :
  l <> [] -> Forall (fun kv => parses (snd kv)) l ->
  foldr and True (map (fun kv => Forall char_ok (fst kv) /\ value_ok (snd kv)) l) ->
  forall fuel rest, (total (map (fun kv => S (size (snd kv))) l) <= fuel)%nat ->
  parse_fields fuel (commas (map (fun kv => string_image (fst kv) ++ [58] ++ image (snd kv)) l) ++ 125 :: rest)
  = Some (map (fun kv => (fst kv, canonical (snd kv))) l, rest).
Proof.
  induction l as [|[k v] l IH]; [done|]. intros _ [Hv Hl]%Forall_cons [[Ok Ov] Ol] fuel rest Hf. cbn in Hv, Ok, Ov.
  cbn [map total foldr fst snd] in Hf. destruct fuel as [|fuel]; [cbn in Hf; lia|].
  rewrite commas_cons. cbn [fst snd]. cbn [parse_fields]. unfold string_image at 1. rewrite <- !app_assoc.
  change (expect [34] ([34] ++ ?t)) with (Some t). cbn [mbind option_bind].
  change ([34] ++ [58] ++ ?t) with (34 :: 58 :: t). rewrite read_string_spec by done. cbn [mbind option_bind].
  change (expect [58] (58 :: ?t)) with (Some t). cbn [mbind option_bind].
  rewrite Hv; [|done|cbn in Hf; lia|by destruct l]. cbn [mbind option_bind]. destruct l as [|kv l]; [done|].
  change (expect [125] (44 :: ?t)) with (@None str). change (expect [44] (44 :: ?t)) with (Some t).
  cbn [mbind option_bind]. rewrite IH; [done|done|done|done|]. cbn in *. lia.
Qed.

Lemma not_closing v t stop : value_ok v -> stop = 93 \/ stop = 125 -> expect [stop] (image v ++ t) = None.
Proof.
  intros Hv Hs. destruct (image_head v Hv) as (c & l & -> & H1 & H2). cbn.
  destruct (Z.eqb_spec stop c); [exfalso; naive_solver|done].
Qed.

Lemma value_parses v : parses v.
Proof.
  induction v as [|b|n|n|s|l IH|l IH] using value_ind; intros Ho fuel rest Hf Hr;
    (destruct fuel as [|fuel]; [cbn in Hf; lia|]); cbn [value_ok] in Ho; cbn [image canonical].
  - done.
  - by destruct b.
  - by apply parse_number.
  - unfold display_i64. destruct (Z.ltb_spec n 0); [|apply parse_number; [unfold U64_MAX; lia|done]].
    pose proof (read_u64 (- n) rest ltac:(unfold U64_MAX; lia) Hr) as Hd.
    destruct (display_head (- n)) as (c & t & E & Hc); [lia|]. rewrite E in *. cbn [app] in *.
    cbn [parse_value]. cbn -[read_digits digit]. rewrite Hc, Hd. cbn. by rewrite Z.opp_involutive.
  - unfold string_image. cbn [app parse_value]. change (34 =? 34) with true. cbn iota.
    rewrite <- app_assoc. cbn [app]. by rewrite read_string_spec.
  - cbn [app parse_value]. rewrite <- app_assoc. cbn [app].
    change (91 =? 34) with false. change (91 =? 91) with true. cbn iota.
    destruct l as [|v l]; [done|]. rewrite items_spec; [|done|done|done|exact (le_S_n _ _ Hf)].
    rewrite commas_cons, not_closing by (by naive_solver). done.
  - cbn [app parse_value]. rewrite <- app_assoc. cbn [app].
    change (123 =? 34) with false. change (123 =? 91) with false. change (123 =? 123) with true. cbn iota.
    destruct l as [|kv l]; [done|]. rewrite fields_spec; [|done|done|done|exact (le_S_n _ _ Hf)]. done.
Qed.

(** Enough fuel: every value is at least as long as its size. *)
Lemma commas_length {A} (g : A -> str) (n : A -> nat) l :
  Forall (fun x => (n x <= length (g x))%nat) l ->
  (total (map (fun x => S (n x)) l) <= S (length (commas (map g l))))%nat.
Proof.
  destruct 1 as [|x l Hx Hl]; [cbn; lia|]. cbn [map total foldr commas]. rewrite length_app.
  cut (total (map (fun x => S (n x)) l) <= length (mjoin (map (cons 44%Z) (map g l))))%nat; [unfold total; lia|].
  induction Hl as [|y l Hy _ IH]; [done|]. cbn [map total foldr]. change (mjoin (?x :: ?y)) with (x ++ mjoin y).
  rewrite length_app. cbn [length]. unfold total in IH. lia.
Qed.

Lemma size_length v : value_ok v -> (size v <= length (image v))%nat.
Proof.
  induction v as [|b|n|n|s|l IH|l IH] using value_ind; intros Ho; cbn [value_ok] in Ho.
  - cbn. lia.
  - destruct b; cbn; lia.
  - destruct (image_head (UInt n) Ho) as (c & t & -> & _). cbn. lia.
  - destruct (image_head (Int n) Ho) as (c & t & -> & _). cbn. lia.
  - cbn. lia.
  - cbn [size image]. rewrite !length_app. cbn [length].
    assert (total (map (fun v => S (size v)) l) <= S (length (commas (map image l))))%nat; [|lia].
    apply commas_length. induction IH as [|x l Hx _ IH]; [constructor|]. destruct Ho as [Ox Ol]. constructor; auto.
  - cbn [size image]. rewrite !length_app. cbn [length].
    assert (total (map (fun kv => S (size (snd kv))) l) <=
      S (length (commas (map (fun kv => string_image (fst kv) ++ [58%Z] ++ image (snd kv)) l))))%nat; [|lia].
    apply (commas_length (fun kv : str * Value => string_image (fst kv) ++ [58] ++ image (snd kv)) (fun kv => size (snd kv))).
    induction IH as [|[k x] l Hx _ IH]; [constructor|]. destruct Ho as [[_ Ox] Ol]. constructor; [|auto].
    cbn in *. rewrite !length_app. cbn. specialize (Hx Ox). lia.
Qed.

(** *** One line *)

Definition visible (c : Z) : Prop := 0x20 <= c.

Lemma write_char_visible c : 0 <= c -> Forall visible (write_char c).
Proof.
  intros Hc. unfold write_char, visible.
  repeat match goal with |- context [c =? ?k] => destruct (Z.eqb_spec c k); [repeat constructor; lia|] end.
  destruct (Z.ltb_spec c 32); [|repeat constructor; lia]. repeat (apply Forall_cons; split; [lia|]).
  generalize (byte_of_Z c). intros []; repeat constructor; vm_compute; congruence.
Qed.

Lemma string_visible s : Forall char_ok s -> Forall visible (string_image s).
Proof.
  intros Hs. unfold string_image. apply Forall_cons. split; [done|]. apply Forall_app. split; [|by repeat constructor].
  induction Hs as [|c s [Hc _] _ IH]; [constructor|]. cbn [map]. change (mjoin (?x :: ?y)) with (x ++ mjoin y).
  apply Forall_app. split; [by apply write_char_visible|done].
Qed.

Lemma commas_visible {A} (g : A -> str) l : Forall (fun x => Forall visible (g x)) l -> Forall visible (commas (map g l)).
Proof.
  destruct 1 as [|x l Hx Hl]; [constructor|]. cbn [map commas]. apply Forall_app. split; [done|].
  induction Hl as [|y l Hy _ IH]; [constructor|]. cbn [map]. change (mjoin (?x :: ?y)) with (x ++ mjoin y).
  apply Forall_app. split; [|done]. apply Forall_cons. by split.
Qed.

Lemma display_visible n : 0 <= n -> Forall visible (display_u64 n).
Proof.
  intros Hn. unfold display_u64. apply Forall_map. eapply Forall_impl; [by apply decimal_digits|].
  intros b Hb. cbn beta in Hb. change (0x20 <= u8 b). lia.
Qed.

Lemma image_visible v : value_ok v -> Forall visible (image v).
Proof.
  induction v as [|b|n|n|s|l IH|l IH] using value_ind; intros Ho; cbn [value_ok] in Ho; cbn [image].
  - by repeat constructor.
  - destruct b; by repeat constructor.
  - apply display_visible. lia.
  - unfold display_i64. destruct (Z.ltb_spec n 0); [apply Forall_cons; split; [done|]|]; apply display_visible; lia.
  - by apply string_visible.
  - apply Forall_cons. split; [done|]. apply Forall_app. split; [|by repeat constructor]. apply commas_visible.
    induction IH as [|x l Hx _ IH]; [constructor|]. destruct Ho as [Ox Ol]. constructor; auto.
  - apply Forall_cons. split; [done|]. apply Forall_app. split; [|by repeat constructor]. apply commas_visible.
    induction IH as [|[k x] l Hx _ IH]; [constructor|]. destruct Ho as [[Okk Ox] Ol]. constructor; [|auto].
    cbn [fst snd] in *. apply Forall_app. split; [by apply string_visible|]. apply Forall_cons. split; [done|auto].
Qed.

(** [to_json] writes one line without control characters, and RFC 8259
    parsing reads back the value, with the order of items and fields (a
    non-negative [Int] and the [UInt] of the same number have the same text). *)
Theorem json_roundtrip (v : Value) (H : value_ok v) :
  parse_json (to_json v) = Some (canonical v, []) /\ Forall (fun c => 0x20 <= c) (to_json v).
Proof.
  unfold to_json. rewrite write_image. cbn [app]. split; [|by apply image_visible].
  unfold parse_json. rewrite <- (app_nil_r (image v)) at 2. apply value_parses; [done|by apply size_length|done].
Qed.

Lemma json_roundtrip_witness :
  parse_json (to_json (build (opt (field [] (chars "s") (Str [10; 34; 0x1f512])) (chars "n") (Some (Int (-7)))))) =
  Some (Object [(chars "s", Str [10; 34; 0x1f512]); (chars "n", Int (-7))], []).
Proof.
  apply (json_roundtrip (Object [(chars "s", Str [10; 34; 0x1f512]); (chars "n", Int (-7))])).
  cbn. unfold char_ok. split_and!; repeat constructor; lia.
Defined.
