(* ===== verification/FacadeTrust.v ===== *)
(** * Trust configuration of the client

    Models crates/tatami_ssh/src/trust.rs and host/files.rs: bounded reads of
    named files and the policy prepared from a pin or a known_hosts file before
    any connection. The file system is the class [Fs]; [None] is a panic (of the
    pattern matcher). *)

From S2P Require Import Prelude WireError NameList Primitives Messages KexInit KeyAlgorithm HostKey HostKeyProps.
From S2P Require Import Packet Gcm Transcript Trust KnownHosts KnownHostsProps.

(** What [File::metadata] reports of the opened file. *)
Record Metadata : Type := mkMetadata { meta_is_file : bool; meta_len : Z; meta_mode : Z }.

(** [File::open], [File::metadata] and [file.take(cap).read_to_end(buf)], each
    for one call on the opened file. *)
Class Fs : Type := {
  Path : Type;
  IoError : Type;
  File : Type;
  fs_open : Path -> result File IoError;
  fs_metadata : File -> result Metadata IoError;
  fs_read : File -> Z -> result bytes IoError
}.

Section facade.
Context `{F : Fs}.

(** ** Files *)

(* facade/host/files.rs:23-50 FileError *)
Inductive FileError : Type :=
| FileIo (path : Path) (error : IoError)
| FileTooLargeAt (path : Path) (limit : Z)
| NotRegularFile (path : Path)
| InsecurePermissions (path : Path) (mode : Z).

(* facade/host/files.rs:55-62 FileError::code *)
Definition file_error_code (e : FileError) : string :=
  match e with
  | FileIo _ _ => "io_error"
  | FileTooLargeAt _ _ => "file_too_large"
  | NotRegularFile _ => "not_a_regular_file"
  | InsecurePermissions _ _ => "insecure_permissions"
  end.

(* facade/host/files.rs:93-108 open_regular *)
Definition open_regular (path : Path) (limit : Z) : result (File * Metadata) FileError :=
  let? file := map_err (FileIo path) (fs_open path) in
  let? meta := map_err (FileIo path) (fs_metadata file) in
  if negb (meta_is_file meta) then Err (NotRegularFile path) else
  if limit <? meta_len meta then Err (FileTooLargeAt path limit) else Ok (file, meta).

(** [usize] and [u64] are both 64 bits wide. *)
(* facade/host/files.rs:110-120 read_into *)
Definition read_into (path : Path) (file : File) (limit : Z) : result bytes FileError :=
  let cap := Z.min (limit + 1) U64_MAX in
  let? buf := map_err (FileIo path) (fs_read file cap) in
  if limit <? zlen buf then Err (FileTooLargeAt path limit) else Ok buf.

(* facade/host/files.rs:124-129 read_bounded *)
Definition read_bounded (path : Path) (limit : Z) : result bytes FileError :=
  let? (file, meta) := open_regular path limit in
  read_into path file limit.

(** On Unix. *)
(* facade/host/files.rs:134-157 read_private_key *)
Definition read_private_key (path : Path) (limit : Z) : result bytes FileError :=
  let? (file, meta) := open_regular path limit in
  let mode := Z.land (meta_mode meta) 0xfff in
  if negb (Z.land mode 0x3f =? 0) then Err (InsecurePermissions path mode) else
  read_into path file limit.

(** ** Trust *)

(* facade/trust.rs:28-33 TrustConfig *)
Inductive TrustConfig : Type :=
| Pin (pin : Sha256Fingerprint.t)
| KnownHostsPath (path : Path).

(* facade/trust.rs:44-49 TrustConfig::mode *)
Definition mode (self : TrustConfig) : string :=
  match self with Pin _ => "pinned_fingerprint" | KnownHostsPath _ => "known_hosts" end.

(* facade/trust.rs:53-58 TrustConfig::pin *)
Definition config_pin (self : TrustConfig) : option Sha256Fingerprint.t :=
  match self with Pin p => Some p | KnownHostsPath _ => None end.

(* facade/trust.rs:62-67 TrustConfig::known_hosts_file *)
Definition known_hosts_file (self : TrustConfig) : option Path :=
  match self with Pin _ => None | KnownHostsPath p => Some p end.

(** The policies behind [Arc<dyn SharedHostTrustPolicy>]. *)
Inductive SharedPolicy : Type :=
| SharedPin (p : PinnedSha256)
| SharedKnownHosts (p : KnownHostsPolicy).

Definition shared_decide (self : SharedPolicy) (host : HostIdentity) : TrustDecision :=
  match self with
  | SharedPin p => pinned_decide p host
  | SharedKnownHosts p => known_hosts_decide p host
  end.

#[export] Instance shared_policy : HostTrustPolicy SharedPolicy := {| decide_trust := shared_decide |}.

(* facade/trust.rs:120-125 PreparedTrust *)
Record PreparedTrust : Type := mkPrepared { policy : SharedPolicy; prepared_name : option bytes }.

(* facade/trust.rs:130-144 TrustConfigError *)
Inductive TrustConfigError : Type :=
| ConfigFile (e : FileError)
| ConfigMalformed (path : Path) (error : KnownHostsError)
| ConfigLookupName (e : LookupNameError).

(* facade/trust.rs:150-160 TrustConfigError::code *)
Definition config_error_code (e : TrustConfigError) : string :=
  match e with
  | ConfigFile _ => "io_error"
  | ConfigMalformed _ (UnsupportedLine _ _) => "unsupported_configuration"
  | ConfigMalformed _ _ => "malformed_configuration"
  | ConfigLookupName _ => "invalid_lookup_name"
  end.

Context `{B : Base64Padded, HM : HmacSha1, DD : Dalek}.
Variable features : Features.
Variable hashed_hosts : bool.

(* facade/trust.rs:71-97 TrustConfig::prepare *)
Definition prepare (self : TrustConfig) (host : bytes) (port : Z) : option (result PreparedTrust TrustConfigError) :=
  match self with
  | Pin pin => Some (Ok (mkPrepared (SharedPin (mkPinned pin)) None))
  | KnownHostsPath path =>
      let limits := Limits_default in
      match read_bounded path (max_file_bytes limits) with
      | Err e => Some (Err (ConfigFile e))
      | Ok bytes =>
          match parse features hashed_hosts bytes limits with
          | Err error => Some (Err (ConfigMalformed path error))
          | Ok parsed =>
              let* p := policy_for parsed host port in
              Some (let? p := map_err ConfigLookupName p in
                    Ok (mkPrepared (SharedKnownHosts p) (Some (bound_name p))))
          end
      end
  end.
End facade.

(** ** Theorems *)

Section theorems.
Context `{F : Fs, B : Base64Padded, HM : HmacSha1, DD : Dalek}.

(** What was read is what the opened file returned, whole and within the limit. *)
Definition read_ok (path : Path) (limit : Z) (b : bytes) : Prop :=
  exists file meta, fs_open path = Ok file /\ fs_metadata file = Ok meta /\ meta_is_file meta = true /\
    meta_len meta <= limit /\ fs_read file (Z.min (limit + 1) U64_MAX) = Ok b /\ zlen b <= limit.

Lemma open_regular_iff path limit file meta :
  open_regular path limit = Ok (file, meta) <->
  fs_open path = Ok file /\ fs_metadata file = Ok meta /\ meta_is_file meta = true /\ meta_len meta <= limit.
Proof.
  unfold open_regular. split.
  - intros (f & Hf%map_err_ok & (m & Hm%map_err_ok & H1)%rbind_Ok)%rbind_Ok.
    destruct (meta_is_file m) eqn:E; [|done]. destruct (Z.ltb_spec limit (meta_len m)); [done|].
    by apply Ok_inj in H1 as [= <- <-].
  - intros (-> & Hm & Hr & Hl). cbn [map_err rbind]. rewrite Hm. cbn [map_err rbind]. rewrite Hr. cbn [negb].
    by destruct (Z.ltb_spec limit (meta_len meta)); [lia|].
Qed.

Lemma read_into_iff path file limit b :
  read_into path file limit = Ok b <-> fs_read file (Z.min (limit + 1) U64_MAX) = Ok b /\ zlen b <= limit.
Proof.
  unfold read_into. split.
  - intros (c & Hc%map_err_ok & H1)%rbind_Ok. destruct (Z.ltb_spec limit (zlen c)); [done|]. by apply Ok_inj in H1 as <-.
  - intros [-> Hl]. cbn [map_err rbind]. by destruct (Z.ltb_spec limit (zlen b)); [lia|].
Qed.

Lemma read_bounded_iff path limit b : read_bounded path limit = Ok b <-> read_ok path limit b.
Proof.
  unfold read_bounded, read_ok. split.
  - intros ([file meta] & Ho%open_regular_iff & Hr%read_into_iff)%rbind_Ok. exists file, meta. tauto.
  - intros (file & meta & H). rewrite (proj2 (open_regular_iff path limit file meta)) by tauto.
    cbn [rbind]. apply read_into_iff. tauto.
Qed.

(** A private key file is read exactly when it is a regular file within
    the limit, whole, and without any group or other permission bit. *)
Theorem private_key_file_exact (path : Path) (limit : Z) (b : bytes) :
  read_private_key path limit = Ok b <->
  exists file meta, fs_open path = Ok file /\ fs_metadata file = Ok meta /\ meta_is_file meta = true /\
    meta_len meta <= limit /\ fs_read file (Z.min (limit + 1) U64_MAX) = Ok b /\ zlen b <= limit /\
    forall i, 0 <= i < 6 -> Z.testbit (meta_mode meta) i = false.
Proof.
  assert (forall m, Z.land (Z.land m 0xfff) 0x3f = 0 <-> forall i, 0 <= i < 6 -> Z.testbit m i = false) as Hbits.
  { intros m. rewrite <- Z.land_assoc. change (Z.land 0xfff 0x3f) with (Z.ones 6). rewrite Z.land_ones by lia. split.
    - intros H i Hi. rewrite <- (Z.mod_pow2_bits_low m 6 i) by lia. rewrite H. apply Z.bits_0.
    - intros H. apply Z.bits_inj_0. intros i. destruct (Z.lt_ge_cases i 0); [by apply Z.testbit_neg_r|].
      destruct (Z.lt_ge_cases i 6); [rewrite Z.mod_pow2_bits_low by lia; by apply H|].
      by apply Z.mod_pow2_bits_high. }
  unfold read_private_key. split.
  - intros ([file meta] & Ho%open_regular_iff & H1)%rbind_Ok. destruct (Z.eqb_spec (Z.land (Z.land (meta_mode meta) 0xfff) 0x3f) 0) as [E|E];
      [|done]. cbn [negb] in H1. apply read_into_iff in H1. exists file, meta. rewrite Hbits in E. tauto.
  - intros (file & meta & H). rewrite (proj2 (open_regular_iff path limit file meta)) by tauto. cbn [rbind].
    rewrite (proj2 (Hbits (meta_mode meta))) by tauto. cbn [negb Z.eqb]. apply read_into_iff. tauto.
Qed.

(** Preparing trust never panics, and what it prepares is bound to the
    configuration: a pin decides by the digest alone; a known_hosts file is
    read whole within its limit, parsed as a whole, and decides for the lookup
    name of the host and port given, by the lines that apply to it. An error
    names what failed: the file, its content (unsupported or malformed) or the
    lookup name. *)
Theorem prepared_trust_sound (features : Features) (hashed : bool) (c : TrustConfig) (host : bytes) (port : Z) :
  0 <= port ->
  let limit := max_file_bytes Limits_default in
  match prepare features hashed c host port with
  | None => False
  | Some (Ok t) =>
      match c with
      | Pin p => prepared_name t = None /\
          forall id, zlen (Sha256Fingerprint.digest p) = SHA256_LEN -> zlen (Sha256Fingerprint.digest (id_sha256 id)) = SHA256_LEN ->
            is_trusted (decide_trust (policy t) id) = true <-> p = id_sha256 id
      | KnownHostsPath path => exists b kh name, read_ok path limit b /\
          parse features hashed b Limits_default = Ok kh /\ lookup_name host port = Ok name /\ prepared_name t = Some name /\
          forall id, decision_ok (fun P => applying kh name (fun e => P (applicable_of e))) id (decide_trust (policy t) id)
      end
  | Some (Err e) => exists path, c = KnownHostsPath path /\
      match e with
      | ConfigFile _ => forall b, ~ read_ok path limit b
      | ConfigMalformed q e' => q = path /\ exists b, read_ok path limit b /\ parse features hashed b Limits_default = Err e' /\
          (config_error_code e = "unsupported_configuration"%string <-> exists line what, e' = UnsupportedLine line what)
      | ConfigLookupName e' => exists b kh, read_ok path limit b /\
          parse features hashed b Limits_default = Ok kh /\ lookup_name host port = Err e'
      end
  end.
Proof.
  intros Hp limit. unfold prepare. destruct c as [p|path].
  - split; [done|]. intros id Hl Hi. cbn. unfold pinned_decide. cbn [pin].
    rewrite <- (fingerprint_eq_iff p (id_sha256 id)) by done. by destruct (Sha256Fingerprint.eq _ _).
  - pose proof (read_bounded_iff path limit) as Hr. fold limit. destruct (read_bounded path limit) as [b|e].
    2: { exists path. split; [done|]. intros b Hb%Hr. done. }
    pose proof (proj1 (Hr b) eq_refl) as Hb. destruct (parse features hashed b Limits_default) as [kh|e] eqn:Ep.
    2: { exists path. split_and!; [done|done|]. exists b. split_and!; [done|done|]. destruct e; cbn; naive_solver. }
    pose proof (policy_for_spec kh host port Hp) as Hpol. destruct (policy_for kh host port) as [[pol|e]|]; [| |done].
    + destruct Hpol as [Hn Hd]. cbn. exists b, kh, (bound_name pol). done.
    + cbn. exists path. split; [done|]. exists b, kh. done.
Qed.
End theorems.

(** A file system with one regular file. *)
#[local] Instance one_file (b : bytes) : Fs := {|
  Path := unit;
  IoError := unit;
  File := unit;
  fs_open _ := Ok tt;
  fs_metadata _ := Ok (mkMetadata true (zlen b) 0x180);
  fs_read _ cap := Ok (ztake cap b)
|}.

#[local] Existing Instance letters_codec.
#[local] Existing Instance echo_mac.
#[local] Existing Instance any_key.

(** An empty file prepares a policy bound to the lookup name, which knows no
    host. *)
Lemma prepared_trust_sound_witness :
  match prepare (F:=one_file []) sample_features true (@KnownHostsPath (one_file []) tt) (bstr "Host") 2222 with
  | Some (Ok t) => prepared_name t = Some (bstr "[host]:2222") /\
      decide_trust (policy t) sample_identity = Untrusted UnknownHost /\
      exists b, read_ok (F:=one_file []) tt (max_file_bytes Limits_default) b
  | _ => False
  end.
Proof.
  pose proof (prepared_trust_sound (F:=one_file []) sample_features true (@KnownHostsPath (one_file []) tt) (bstr "Host") 2222
    ltac:(lia)) as Hs.
  cbn zeta in Hs. change (prepare (F:=one_file []) sample_features true (@KnownHostsPath (one_file []) tt) (bstr "Host") 2222)
    with (Some (@Ok _ (TrustConfigError (F:=one_file []))
      (mkPrepared (SharedKnownHosts (mkPolicy (bstr "[host]:2222") [])) (Some (bstr "[host]:2222"))))) in *.
  cbn iota in *. destruct Hs as (b & kh & name & Hb & _ & _ & _ & _).
  split; [reflexivity|]. split; [reflexivity|]. exists b. exact Hb.
Defined.
