(* ===== verification/Handshake.v ===== *)
(** * The client handshake state machine

    Models crates/tatami_ssh_tcp/src/handshake.rs: the client's key exchange,
    host verification and service negotiation. The cryptography is that of the
    classes [Aead], [Hash], [Dh] and [Dalek]; the host's signature provider is
    part of the state as in the source. A call that can panic returns [None]
    for the panic. Text the source builds only for reports
    ([String::from_utf8_lossy], [format!]) is kept as the bytes or the error it
    is built from; [StrictDetail] names the strict-KEX messages. *)

From S2P Require Import Prelude WireError NameList Primitives Messages KexInit ExtInfo.
From S2P Require Import WireIdent TcpIdent Packet Initial Probe KeyAlgorithm HostKey HostKeyProps Negotiate.
From S2P Require Import Gcm Transcript Trust.

(* tcp/handshake.rs:143-143 COMPLETE_DESCRIPTION *)
Definition COMPLETE_DESCRIPTION : bytes := bstr "tatami diagnostic complete".

(* tcp/handshake.rs:146-146 REKEY_DESCRIPTION *)
Definition REKEY_DESCRIPTION : bytes := bstr "rekeying is not supported by this diagnostic".

Module HandshakeConfig.

(* tcp/handshake.rs:150-177 HandshakeConfig *)
Record t : Type := mk {
  software_version : bytes;
  advertise_ext_info : bool;
  offer_strict_kex : bool;
  ident : IdentLimits;
  packet : PacketLimits;
  max_pre_kex_packets : Z;
  max_pre_kex_bytes : Z;
  max_protected_packets : Z;
  max_ext_info_extensions : Z;
  service : bytes;
  host_key_algorithms : option HostKeyAlgorithms.t
}.

(* tcp/handshake.rs:179-196 HandshakeConfig::default *)
Definition default : t :=
  let initial := InitialLimits_default in
  mk DEFAULT_SOFTWARE_VERSION true true IdentLimits_default (Initial.packet initial)
    (max_packets initial) (max_bytes initial) 64 64 algorithms.SSH_USERAUTH None.

(* tcp/handshake.rs:201-210 HandshakeConfig::buffer_capacity *)
Definition buffer_capacity (self : t) : Z :=
  let cap := max_packet_length (packet self) in
  let unprotected := cap + HEADER_LEN in
  let protected := cap + LENGTH_LEN + TAG_LEN in
  let ident := Z.max (max_prelude_line (ident self)) (max_identification_line (ident self)) in
  Z.max (Z.max protected unprotected) ident + ident.

End HandshakeConfig.

Module Hs.

(* tcp/handshake.rs:215-230 Phase *)
Inductive Phase : Type :=
| ServerIdentification
| ServerKexInit
| EcdhReply
| TrustPending
| ServerNewKeys
| Service
| PhFinished.

#[global] Instance phase_eq_decision : EqDecision Phase.
Proof. solve_decision. Defined.

(* tcp/handshake.rs:235-245 Phase::code *)
Definition phase_code (p : Phase) : string :=
  match p with
  | ServerIdentification => "server_identification"
  | ServerKexInit => "server_kexinit"
  | EcdhReply => "kex_ecdh_reply"
  | TrustPending => "trust_decision"
  | ServerNewKeys => "server_newkeys"
  | Service => "service"
  | PhFinished => "finished"
  end.

(* tcp/handshake.rs:264-271 HostIdentityOwned *)
Record HostIdentityOwned : Type := mkHostIdentity {
  own_algorithm : bytes; own_blob : bytes; own_sha256 : Sha256Fingerprint.t
}.

(* tcp/handshake.rs:276-282 HostIdentityOwned::as_identity *)
Definition as_identity (self : HostIdentityOwned) : HostIdentity :=
  mkIdentity (own_algorithm self) (own_blob self) (own_sha256 self).

(* tcp/handshake.rs:301-335 ProtocolViolation *)
Inductive ProtocolViolation : Type :=
| PvIdent (e : IdentError)
| PvPacket (e : PacketError)
| PvProtected (e : OpenError)
| PvEmptyPayload
| PvMessage (number : Z) (error : MessageError)
| PvHostKey (e : KeyError)
| PvKex (e : KexError)
| PvExtInfo (e : ExtInfoError)
| PvServiceMismatch (requested accepted : bytes)
| PvSeal (e : SealError)
| PvEncode (e : EncodeError).

(* tcp/handshake.rs:367-383 LimitKind *)
Inductive LimitKind : Type :=
| PreKexPackets (limit : Z)
| PreKexBytes (limit : Z)
| ProtectedPackets (limit : Z).

(** The texts of [StrictKexViolation]. *)
Inductive StrictDetail : Type :=
| SequenceWrapped
| SecondKexInit
| SecondEcdhReply
| NewKeysBeforeReply
| UnexpectedKexMessage (number : Z)
| MessageDuringKex (number : Z)
| DisconnectDuringKex (reason_code : Z)
| KexInitNotFirst.

(* tcp/handshake.rs:401-450 HandshakeOutcome *)
Inductive HandshakeOutcome : Type :=
| Completed
| HostNotTrusted (reason : UntrustedReason)
| SignatureInvalid
| NegotiationFailed (e : NegotiationError)
| StrictKexViolation (detail : StrictDetail)
| ProtocolError (v : ProtocolViolation)
| ServerDisconnected (reason_code : Z) (description : bytes)
| RekeyNotSupported
| UnexpectedMessage (number : Z) (phase : Phase)
| TagMismatch
| Eof (phase : Phase)
| InputOverflow (e : InputBuffer.InputOverflow)
| Limit (l : LimitKind).

(* tcp/handshake.rs:455-471 HandshakeOutcome::code *)
Definition outcome_code (o : HandshakeOutcome) : string :=
  match o with
  | Completed => "completed"
  | HostNotTrusted _ => "host_not_trusted"
  | SignatureInvalid => "signature_invalid"
  | NegotiationFailed _ => "negotiation_failed"
  | StrictKexViolation _ => "strict_kex_violation"
  | ProtocolError _ => "protocol_error"
  | ServerDisconnected _ _ => "server_disconnected"
  | RekeyNotSupported => "rekey_not_supported"
  | UnexpectedMessage _ _ => "unexpected_message"
  | TagMismatch => "tag_mismatch"
  | Eof _ => "eof"
  | InputOverflow _ => "input_overflow"
  | Limit _ => "limit"
  end.

(* tcp/handshake.rs:475-477 HandshakeOutcome::is_complete *)
Definition is_complete (o : HandshakeOutcome) : bool := match o with Completed => true | _ => false end.

(* tcp/handshake.rs:287-297 Step *)
Inductive Step : Type :=
| NeedMore
| Send
| TrustDecisionRequired (identity : HostIdentityOwned)
| Finished (o : HandshakeOutcome).

(* tcp/handshake.rs:525-537 HandshakeInitError *)
Inductive HandshakeInitError (E : Type) : Type :=
| InitIdentification (e : InvalidLocalIdentification)
| InitEntropy (e : E)
| InitEncode (e : EncodeError)
| InitHostKeyAlgorithm (s : SignatureScheme.t).
Arguments InitIdentification {E} e.
Arguments InitEntropy {E} e.
Arguments InitEncode {E} e.
Arguments InitHostKeyAlgorithm {E} s.

(* tcp/handshake.rs:566-573 HostKeySummary *)
Record HostKeySummary : Type := mkHostKeySummary {
  sum_algorithm : bytes; fingerprint : Sha256Fingerprint.t; blob_len : Z
}.

(* tcp/handshake.rs:577-584 ExtInfoSummary *)
Record ExtInfoSummary : Type := mkExtInfoSummary {
  received : bool;
  sum_server_sig_algs : option (list bytes);
  extension_names : list bytes
}.

(* tcp/handshake.rs:588-593 ServerDisconnect *)
Record ServerDisconnect : Type := mkServerDisconnect { sd_reason_code : Z; sd_description : bytes }.

(** Why a signature was refused: the blob or the verification. *)
Inductive SignatureError : Type := SigBlob (e : BlobError) | SigVerify (e : VerifyError).

(* tcp/handshake.rs:557-562 Advertised *)
Record Advertised : Type := mkAdvertised { adv_client : OwnedKexInit.t; adv_server : option OwnedKexInit.t }.

(* tcp/handshake.rs:597-652 HandshakeReport *)
Record HandshakeReport : Type := mkReport {
  r_phase : Phase;
  r_client_identification : bytes;
  r_server_prelude_lines : list bytes;
  r_server_identification : option TcpIdentification.t;
  r_server_identification_anomalies : list IdentAnomaly;
  r_advertised : Advertised;
  r_selected : option Negotiated;
  r_strict_kex : StrictKex;
  r_kexinit_was_first_packet : option bool;
  r_skipped_messages : list SkippedMessage;
  r_server_guess_discarded : bool;
  r_host_key : option HostKeySummary;
  r_signature_valid : option bool;
  r_signature_error : option SignatureError;
  r_trust : option TrustDecision;
  r_newkeys_sent : bool;
  r_newkeys_received : bool;
  r_protected_packets_sent : Z;
  r_protected_packets_received : Z;
  r_send_sequence : Z;
  r_receive_sequence : Z;
  r_ext_info : option ExtInfoSummary;
  r_service_accepted : option bytes;
  r_server_disconnect : option ServerDisconnect;
  r_outcome : option HandshakeOutcome;
  r_user_authenticated : bool
}.

(* tcp/handshake.rs:658-663 PaddingSource *)
Record PaddingSource : Type := mkPadding { seed : bytes; counter : Z; block : bytes; used : Z }.

(* tcp/handshake.rs:666-673 PaddingSource::new *)
Definition padding_new (seed : bytes) : PaddingSource := mkPadding seed 0 (replicate 32 x00) 32.

(* tcp/handshake.rs:712-717 Flow *)
Inductive Flow : Type := FlowContinue | FlowNeedMore.

End Hs.
Import Hs.

(** ** Padding *)

Section padding.
Context `{Hash}.

(** One round of the loop; the block is indexed within its 32 bytes (see
    [padding_ok]). *)
Definition padding_byte (self : PaddingSource) : PaddingSource * byte :=
  let self :=
    if used self =? 32
    then mkPadding (seed self) ((counter self + 1) mod 2 ^ 64)
           (sha256 (seed self ++ be_bytes 8 (counter self))) 0
    else self in
  (mkPadding (seed self) (counter self) (block self) (used self + 1),
   default x00 (znth (used self) (block self))).

(* tcp/handshake.rs:689-703 PaddingSource::fill_bytes *)
Fixpoint padding_fill (n : nat) (self : PaddingSource) : PaddingSource * bytes :=
  match n with
  | O => (self, [])
  | S n' =>
      let '(self, b) := padding_byte self in
      let '(self, rest) := padding_fill n' self in
      (self, b :: rest)
  end.

#[export] Instance padding_rng : Rng PaddingSource := {| fill_bytes self n := padding_fill (Z.to_nat n) self |}.

Lemma padding_fill_len n self : length (snd (padding_fill n self)) = n.
Proof.
  revert self; induction n as [|n IH]; intros self; [done|]. cbn [padding_fill].
  destruct (padding_byte self) as [s b]. specialize (IH s).
  destruct (padding_fill n s) as [s' l]. simpl in *. lia.
Qed.

#[export] Instance padding_rng_laws : RngLaws PaddingSource.
Proof. split. intros r n Hn. simpl. unfold zlen. rewrite padding_fill_len. lia. Qed.
End padding.

(** [RngCore::try_fill_bytes] of the injected entropy source. *)
Class TryRng (R E : Type) := { try_fill_bytes : R -> Z -> R * result bytes E }.

(** An entropy source that fills what it was asked to fill. *)
Class TryRngLaws (R E : Type) `{TryRng R E} : Prop := {
  try_fill_len : forall r n b, 0 <= n -> snd (try_fill_bytes r n) = Ok b -> zlen b = n
}.

(** ** The state *)

Module ClientHandshake.
Section state.
Context {K : Type}.

(* tcp/handshake.rs:720-768 ClientHandshake *)
Record t : Type := mk {
  config : HandshakeConfig.t;
  phase : Phase;
  client_line : bytes;
  ident_reader : IdentificationReader.t;
  buf : InputBuffer.t;
  out : bytes;
  pending_outcome : option HandshakeOutcome;
  outcome : option HandshakeOutcome;
  padding : PaddingSource;
  i_c : bytes;
  client_kexinit : OwnedKexInit.t;
  ephemeral : option EphemeralKeyPair;
  q_c : bytes;
  prelude : list bytes;
  server_ident : option TcpIdentification.t;
  server_kexinit : option OwnedKexInit.t;
  i_s : option bytes;
  negotiated : option Negotiated;
  strict : StrictKex;
  kexinit_was_first : option bool;
  pre_kex_packets : Z;
  pre_kex_bytes : Z;
  skipped : list SkippedMessage;
  guess_discarded : bool;
  host_key : option HostKeySummary;
  identity : option HostIdentityOwned;
  signature_valid : option bool;
  signature_error : option SignatureError;
  provider : option SignatureProvider;
  trust : option TrustDecision;
  session_id : option bytes;
  keys : option KeySet;
  send_aead : option (AeadDirection.t K);
  recv_aead : option (AeadDirection.t K);
  newkeys_sent : bool;
  newkeys_received : bool;
  send_seq : Z;
  recv_seq : Z;
  protected_sent : Z;
  protected_received : Z;
  ext_info : option ExtInfoSummary;
  service_accepted : option bytes;
  server_disconnect : option ServerDisconnect
}.

(** Field updates: the record with one projection replaced. *)
Definition eta (s : t) : t :=
  mk (config s) (phase s) (client_line s) (ident_reader s) (buf s) (out s) (pending_outcome s)
    (outcome s) (padding s) (i_c s) (client_kexinit s) (ephemeral s) (q_c s) (prelude s)
    (server_ident s) (server_kexinit s) (i_s s) (negotiated s) (strict s) (kexinit_was_first s)
    (pre_kex_packets s) (pre_kex_bytes s) (skipped s) (guess_discarded s) (host_key s) (identity s)
    (signature_valid s) (signature_error s) (provider s) (trust s) (session_id s) (keys s)
    (send_aead s) (recv_aead s) (newkeys_sent s) (newkeys_received s) (send_seq s) (recv_seq s)
    (protected_sent s) (protected_received s) (ext_info s) (service_accepted s) (server_disconnect s).

Ltac update s field v :=
  let e := eval cbv [eta] in (eta s) in
  lazymatch eval pattern field in e with
  | ?f _ => let r := eval cbv beta in (f v) in exact r
  end.

Definition set_phase (v : Phase) (s : t) : t := ltac:(update s (phase s) v).
Definition set_ident_reader (v : IdentificationReader.t) (s : t) : t := ltac:(update s (ident_reader s) v).
Definition set_buf (v : InputBuffer.t) (s : t) : t := ltac:(update s (buf s) v).
Definition set_out (v : bytes) (s : t) : t := ltac:(update s (out s) v).
Definition set_pending_outcome (v : option HandshakeOutcome) (s : t) : t := ltac:(update s (pending_outcome s) v).
Definition set_outcome (v : option HandshakeOutcome) (s : t) : t := ltac:(update s (outcome s) v).
Definition set_padding (v : PaddingSource) (s : t) : t := ltac:(update s (padding s) v).
Definition set_ephemeral (v : option EphemeralKeyPair) (s : t) : t := ltac:(update s (ephemeral s) v).
Definition set_prelude (v : list bytes) (s : t) : t := ltac:(update s (prelude s) v).
Definition set_server_ident (v : option TcpIdentification.t) (s : t) : t := ltac:(update s (server_ident s) v).
Definition set_server_kexinit (v : option OwnedKexInit.t) (s : t) : t := ltac:(update s (server_kexinit s) v).
Definition set_i_s (v : option bytes) (s : t) : t := ltac:(update s (i_s s) v).
Definition set_negotiated (v : option Negotiated) (s : t) : t := ltac:(update s (negotiated s) v).
Definition set_strict (v : StrictKex) (s : t) : t := ltac:(update s (strict s) v).
Definition set_kexinit_was_first (v : option bool) (s : t) : t := ltac:(update s (kexinit_was_first s) v).
Definition set_pre_kex_packets (v : Z) (s : t) : t := ltac:(update s (pre_kex_packets s) v).
Definition set_pre_kex_bytes (v : Z) (s : t) : t := ltac:(update s (pre_kex_bytes s) v).
Definition set_skipped (v : list SkippedMessage) (s : t) : t := ltac:(update s (skipped s) v).
Definition set_guess_discarded (v : bool) (s : t) : t := ltac:(update s (guess_discarded s) v).
Definition set_host_key (v : option HostKeySummary) (s : t) : t := ltac:(update s (host_key s) v).
Definition set_identity (v : option HostIdentityOwned) (s : t) : t := ltac:(update s (identity s) v).
Definition set_signature_valid (v : option bool) (s : t) : t := ltac:(update s (signature_valid s) v).
Definition set_signature_error (v : option SignatureError) (s : t) : t := ltac:(update s (signature_error s) v).
Definition set_trust (v : option TrustDecision) (s : t) : t := ltac:(update s (trust s) v).
Definition set_session_id (v : option bytes) (s : t) : t := ltac:(update s (session_id s) v).
Definition set_keys (v : option KeySet) (s : t) : t := ltac:(update s (keys s) v).
Definition set_send_aead (v : option (AeadDirection.t K)) (s : t) : t := ltac:(update s (send_aead s) v).
Definition set_recv_aead (v : option (AeadDirection.t K)) (s : t) : t := ltac:(update s (recv_aead s) v).
Definition set_newkeys_sent (v : bool) (s : t) : t := ltac:(update s (newkeys_sent s) v).
Definition set_newkeys_received (v : bool) (s : t) : t := ltac:(update s (newkeys_received s) v).
Definition set_send_seq (v : Z) (s : t) : t := ltac:(update s (send_seq s) v).
Definition set_recv_seq (v : Z) (s : t) : t := ltac:(update s (recv_seq s) v).
Definition set_protected_sent (v : Z) (s : t) : t := ltac:(update s (protected_sent s) v).
Definition set_protected_received (v : Z) (s : t) : t := ltac:(update s (protected_received s) v).
Definition set_ext_info (v : option ExtInfoSummary) (s : t) : t := ltac:(update s (ext_info s) v).
Definition set_service_accepted (v : option bytes) (s : t) : t := ltac:(update s (service_accepted s) v).
Definition set_server_disconnect (v : option ServerDisconnect) (s : t) : t := ltac:(update s (server_disconnect s) v).

End state.
Arguments t : clear implicits.

Section operations.
Context {K : Type} `{Aead K, Hash, Dh, Dalek}.
Variable features : Features.
Implicit Types self : t K.

(* tcp/handshake.rs:911-913 ClientHandshake::client_identification_line *)
Definition client_identification_line self : bytes :=
  ztake (zlen (client_line self) - 2) (client_line self).

(* tcp/handshake.rs:923-925 ClientHandshake::pending_bytes *)
Definition pending_bytes self : Z := InputBuffer.len (buf self).

(* tcp/handshake.rs:929-931 ClientHandshake::room *)
Definition room self : Z := InputBuffer.room (buf self).

(* tcp/handshake.rs:1067-1069 ClientHandshake::strict_active *)
Definition strict_active self : bool := Negotiate.negotiated (strict self).

(* tcp/handshake.rs:1071-1073 ClientHandshake::initial_kex_done *)
Definition initial_kex_done self : bool := newkeys_sent self && newkeys_received self.

(* tcp/handshake.rs:1075-1081 ClientHandshake::finish *)
Definition finish self (o : HandshakeOutcome) : t K :=
  let self := set_phase PhFinished self in
  let self := set_pending_outcome None self in
  let self := set_ephemeral None self in
  let self := set_keys None self in
  set_outcome (Some o) self.

(* tcp/handshake.rs:1083-1086 ClientHandshake::fail *)
Definition fail self (o : HandshakeOutcome) : t K * Flow := (finish self o, FlowContinue).

(* tcp/handshake.rs:1088-1090 ClientHandshake::strict_violation *)
Definition strict_violation self (detail : StrictDetail) : t K * Flow :=
  fail self (StrictKexViolation detail).

(* tcp/handshake.rs:1092-1095 ClientHandshake::unexpected *)
Definition unexpected self (number : Z) : t K * Flow :=
  fail self (UnexpectedMessage number (phase self)).

(* tcp/handshake.rs:1100-1119 ClientHandshake::bump_sequence *)
Definition bump_sequence self (send : bool) : t K * result unit HandshakeOutcome :=
  let seq := if send then send_seq self else recv_seq self in
  let next :=
    match checked_add_u32 seq 1 with
    | Some n => Ok n
    | None =>
        if strict_active self && negb (initial_kex_done self)
        then Err (StrictKexViolation SequenceWrapped) else Ok 0
    end in
  match next with
  | Err e => (self, Err e)
  | Ok next => (if send then set_send_seq next self else set_recv_seq next self, Ok tt)
  end.

(** The closure is called once, on the padding region, and only when framing
    succeeds; that region is what [n] has beyond header and payload. *)
(* tcp/handshake.rs:1121-1131 ClientHandshake::send_unprotected *)
Definition send_unprotected self (payload : bytes) : t K * result unit HandshakeOutcome :=
  let framed := replicate (Z.to_nat (HEADER_LEN + zlen payload + 16)) x00 in
  let '(framed, res) :=
    encode_initial_packet_with payload (fun pad => snd (fill_bytes (padding self) (zlen pad))) framed in
  match res with
  | Err _ => (self, Err (ProtocolError (PvEncode (EncodeLengthOverflow (zlen payload)))))
  | Ok n =>
      let self := set_padding (fst (fill_bytes (padding self) (n - HEADER_LEN - zlen payload))) self in
      let self := set_out (out self ++ ztake n framed) self in
      bump_sequence self true
  end.

(* tcp/handshake.rs:1133-1142 ClientHandshake::send_protected *)
Definition send_protected self (payload : bytes) : option (t K * result unit HandshakeOutcome) :=
  let* aead := send_aead self in
  let '(aead, rng, o, res) := AeadDirection.seal aead payload (padding self) (out self) in
  let self := set_out o (set_padding rng (set_send_aead (Some aead) self)) in
  match res with
  | Err e => Some (self, Err (ProtocolError (PvSeal e)))
  | Ok _ =>
      let* sent := checked_add_u32 (protected_sent self) 1 in
      Some (bump_sequence (set_protected_sent sent self) true)
  end.

(* tcp/handshake.rs:1144-1154 ClientHandshake::send_disconnect *)
Definition send_disconnect self (description : bytes) : option (t K * result unit HandshakeOutcome) :=
  let b := replicate (Z.to_nat (1 + 4 + 4 + zlen description + 4)) x00 in
  let '(b, res) := Disconnect.encode (Disconnect.mk disconnect_reason.BY_APPLICATION description []) b in
  match res with
  | Err e => Some (self, Err (ProtocolError (PvEncode e)))
  | Ok n => send_protected self (ztake n b)
  end.

(* tcp/handshake.rs:1156-1173 ClientHandshake::step_identification *)
Definition step_identification self : option (t K * Flow) :=
  let '(r, res) := IdentificationReader.feed (ident_reader self) (InputBuffer.as_slice (buf self)) in
  let self := set_ident_reader r self in
  match res with
  | Ok StepNeedMore => Some (self, FlowNeedMore)
  | Ok (StepPrelude line _ consumed) =>
      let self := set_prelude (prelude self ++ [line]) self in
      let* b := InputBuffer.consume (buf self) consumed in
      Some (set_buf b self, FlowContinue)
  | Ok (StepIdentification i consumed) =>
      let self := set_server_ident (Some i) self in
      let* b := InputBuffer.consume (buf self) consumed in
      Some (set_phase ServerKexInit (set_buf b self), FlowContinue)
  | Err e => Some (fail self (ProtocolError (PvIdent e)))
  end.

(* tcp/handshake.rs:1259-1286 ClientHandshake::skip *)
Definition skip self (number : Z) (payload : bytes) : option (t K * Flow) :=
  let malformed (error : MessageError) := Some (fail self (ProtocolError (PvMessage number error))) in
  let push (m : SkippedMessage) := Some (set_skipped (skipped self ++ [m]) self, FlowContinue) in
  if number =? Msg.IGNORE then
    match Ignore.decode payload with
    | Ok i => push (SkIgnored (zlen (Ignore.data i)))
    | Err e => malformed e
    end
  else if number =? Msg.DEBUG then
    match DebugMsg.decode payload with
    | Ok d => push (SkDebug (DebugMsg.always_display d) (DebugMsg.message d) (DebugMsg.language_tag d))
    | Err e => malformed e
    end
  else if number =? Msg.UNIMPLEMENTED then
    match Unimplemented.decode payload with
    | Ok u => push (SkUnimplemented (Unimplemented.sequence_number u))
    | Err e => malformed e
    end
  else None.

(* tcp/handshake.rs:1290-1318 ClientHandshake::on_disconnect *)
Definition on_disconnect self (payload : bytes) (violation : bool) : t K * Flow :=
  match Disconnect.decode payload with
  | Err error => fail self (ProtocolError (PvMessage Msg.DISCONNECT error))
  | Ok d =>
      let reason_code := Disconnect.reason_code d in
      let description := Disconnect.description d in
      let self := set_server_disconnect (Some (mkServerDisconnect reason_code description)) self in
      if violation then strict_violation self (DisconnectDuringKex reason_code)
      else fail self (ServerDisconnected reason_code description)
  end.

(* tcp/handshake.rs:1320-1366 ClientHandshake::on_server_kexinit *)
Definition on_server_kexinit self (payload : bytes) : option (t K * Flow) :=
  let was_first := pre_kex_packets self =? 1 in
  let self := set_kexinit_was_first (Some was_first) self in
  match KexInit.decode payload with
  | Err error => Some (fail self (ProtocolError (PvMessage Msg.KEXINIT error)))
  | Ok server =>
      let self := set_server_kexinit (Some (kexinit_to_owned server)) self in
      let self := set_i_s (Some payload) self in
      match KexInit.decode (i_c self) with
      | Err _ => None
      | Ok client =>
          match (let? n := negotiate client server in let? _ := check_profile n in Ok n) with
          | Err e =>
              let self := set_strict (evaluate client server) self in
              Some (fail self (NegotiationFailed e))
          | Ok n =>
              let self := set_strict (strict_kex n) self in
              let self := set_negotiated (Some n) self in
              if strict_active self && negb was_first
              then Some (strict_violation self KexInitNotFirst)
              else
                let '(b, res) := KexEcdhInit.encode (KexEcdhInit.mk (q_c self))
                                   (replicate (Z.to_nat (1 + 4 + X25519_LEN)) x00) in
                match res with
                | Err _ => None
                | Ok n =>
                    let '(self, res) := send_unprotected self (ztake n b) in
                    match res with
                    | Err o => Some (fail self o)
                    | Ok _ => Some (set_phase EcdhReply self, FlowContinue)
                    end
                end
          end
      end
  end.

(* tcp/handshake.rs:1368-1472 ClientHandshake::on_ecdh_reply *)
Definition on_ecdh_reply self (payload : bytes) : option (t K * Flow) :=
  match KexEcdhReply.decode payload with
  | Err error => Some (fail self (ProtocolError (PvMessage Msg.KEX_ECDH_REPLY error)))
  | Ok reply =>
      match PublicKeyBlob.decode (KexEcdhReply.host_key_blob reply) with
      | Err e => Some (fail self (ProtocolError (PvHostKey (KeyBlob e))))
      | Ok blob =>
          match HostKey.from_blob features blob with
          | Err e => Some (fail self (ProtocolError (PvHostKey e)))
          | Ok hk =>
              let id := identity_from_blob blob in
              let self := set_host_key (Some (mkHostKeySummary (id_algorithm id) (id_sha256 id)
                                                (zlen (id_blob id)))) self in
              let id := mkHostIdentity (id_algorithm id) (id_blob id) (id_sha256 id) in
              match (let* n := negotiated self in host_key_scheme n) with
              | None => Some (unexpected self Msg.KEX_ECDH_REPLY)
              | Some scheme =>
                  if bool_decide (HostKey.key_type hk <> SignatureScheme.key_type scheme)
                  then Some (fail self (ProtocolError (PvHostKey (UnexpectedKeyType
                               (KeyType.name (SignatureScheme.key_type scheme))
                               (PublicKeyBlob.algorithm blob)))))
                  else
                  match ephemeral self with
                  | None => Some (unexpected self Msg.KEX_ECDH_REPLY)
                  | Some eph =>
                      let self := set_ephemeral None self in
                      match agree eph (KexEcdhReply.server_ephemeral reply) with
                      | Err e => Some (fail self (ProtocolError (PvKex e)))
                      | Ok k =>
                          let* v_s := server_ident self in
                          let* i_s := i_s self in
                          let* h := exchange_hash
                            (mkInputs (client_identification_line self) (TcpIdentification.line v_s)
                               (i_c self) i_s (KexEcdhReply.host_key_blob reply) (q_c self)
                               (KexEcdhReply.server_ephemeral reply)) k in
                          let verified :=
                            let? sig := map_err SigBlob (SignatureBlob.decode (KexEcdhReply.signature_blob reply)) in
                            map_err SigVerify (HostKey.verify hk scheme h sig (provider self)) in
                          match verified with
                          | Err detail =>
                              let self := set_signature_valid (Some false) self in
                              let self := set_signature_error (Some detail) self in
                              Some (fail self SignatureInvalid)
                          | Ok _ =>
                              let self := set_signature_valid (Some true) self in
                              let* ks := derive_aes128_gcm_keys k h h in
                              let self := set_keys (Some ks) self in
                              let self := set_session_id (Some h) self in
                              let self := set_identity (Some id) self in
                              Some (set_phase TrustPending self, FlowContinue)
                          end
                      end
                  end
              end
          end
      end
  end.

(* tcp/handshake.rs:1474-1503 ClientHandshake::on_server_newkeys *)
Definition on_server_newkeys self (payload : bytes) : option (t K * Flow) :=
  match NewKeys.decode payload with
  | Err error => Some (fail self (ProtocolError (PvMessage Msg.NEWKEYS error)))
  | Ok _ =>
      let self := set_newkeys_received true self in
      let* ks := keys self in
      let self := set_keys None self in
      let stc := server_to_client ks in
      let self := set_recv_aead (Some (AeadDirection.from_parts (key stc) (iv stc))) self in
      let self := if strict_active self then set_recv_seq 0 self else self in
      let self := set_phase Service self in
      let self := set_ext_info (Some (mkExtInfoSummary false None [])) self in
      let service := HandshakeConfig.service (config self) in
      let '(b, res) := ServiceRequest.encode (ServiceRequest.mk service)
                         (replicate (Z.to_nat (1 + 4 + zlen service)) x00) in
      match res with
      | Err _ => None
      | Ok n =>
          let* (self, res) := send_protected self (ztake n b) in
          match res with
          | Err o => Some (fail self o)
          | Ok _ => Some (self, FlowContinue)
          end
      end
  end.

(* tcp/handshake.rs:1219-1257 ClientHandshake::handle_kex_message *)
Definition handle_kex_message self (number : Z) (payload : bytes) : option (t K * Flow) :=
  let strict := strict_active self in
  let awaiting_reply := bool_decide (phase self = EcdhReply) in
  let guess_wrong := match negotiated self with Some n => server_guess_wrong n | None => false end in
  let skippable := (number =? Msg.IGNORE) || (number =? Msg.DEBUG) || (number =? Msg.UNIMPLEMENTED) in
  if Msg.is_kex_method_specific number && awaiting_reply && guess_wrong && negb (guess_discarded self)
  then Some (set_guess_discarded true self, FlowContinue)
  else if (number =? Msg.KEX_ECDH_REPLY) && awaiting_reply then on_ecdh_reply self payload
  else if (number =? Msg.NEWKEYS) && negb awaiting_reply then on_server_newkeys self payload
  else if (number =? Msg.KEXINIT) && strict then Some (strict_violation self SecondKexInit)
  else if (number =? Msg.KEX_ECDH_REPLY) && strict then Some (strict_violation self SecondEcdhReply)
  else if (number =? Msg.NEWKEYS) && strict then Some (strict_violation self NewKeysBeforeReply)
  else if Msg.is_kex_method_specific number && strict
  then Some (strict_violation self (UnexpectedKexMessage number))
  else if skippable && strict then Some (strict_violation self (MessageDuringKex number))
  else if skippable then skip self number payload
  else if number =? Msg.DISCONNECT then Some (on_disconnect self payload strict)
  else Some (unexpected self number).

(* tcp/handshake.rs:1202-1216 ClientHandshake::handle_unprotected *)
Definition handle_unprotected self (payload : bytes) : option (t K * Flow) :=
  match payload with
  | [] => Some (fail self (ProtocolError PvEmptyPayload))
  | b :: _ =>
      let number := u8 b in
      match phase self with
      | ServerKexInit =>
          if number =? Msg.KEXINIT then on_server_kexinit self payload
          else if (number =? Msg.IGNORE) || (number =? Msg.DEBUG) || (number =? Msg.UNIMPLEMENTED)
          then skip self number payload
          else if number =? Msg.DISCONNECT then Some (on_disconnect self payload false)
          else Some (unexpected self number)
      | EcdhReply | ServerNewKeys => handle_kex_message self number payload
      | _ => None
      end
  end.

(* tcp/handshake.rs:1175-1200 ClientHandshake::step_unprotected *)
Definition step_unprotected self : option (t K * Flow) :=
  let cfg := config self in
  match decode_initial_packet (InputBuffer.as_slice (buf self)) (HandshakeConfig.packet cfg) with
  | Ok (PacketNeedMore _) => Some (self, FlowNeedMore)
  | Err e => Some (fail self (ProtocolError (PvPacket e)))
  | Ok (PacketComplete packet) =>
      if HandshakeConfig.max_pre_kex_packets cfg <=? pre_kex_packets self
      then Some (fail self (Limit (PreKexPackets (HandshakeConfig.max_pre_kex_packets cfg))))
      else
      let nbytes := saturating_add_usize (pre_kex_bytes self) (total_len packet) in
      if HandshakeConfig.max_pre_kex_bytes cfg <? nbytes
      then Some (fail self (Limit (PreKexBytes (HandshakeConfig.max_pre_kex_bytes cfg))))
      else
      let* n := checked_add_usize (pre_kex_packets self) 1 in
      let self := set_pre_kex_packets n self in
      let self := set_pre_kex_bytes nbytes self in
      let* b := InputBuffer.consume (buf self) (total_len packet) in
      let self := set_buf b self in
      let '(self, res) := bump_sequence self false in
      match res with
      | Err o => Some (fail self o)
      | Ok _ => handle_unprotected self (payload packet)
      end
  end.

(** [filter_map(Result::ok).map(|(name, _)| ..)]. *)
Fixpoint ok_names (l : list (result (bytes * bytes) MessageError)) : list bytes :=
  match l with
  | [] => []
  | Ok (name, _) :: l' => name :: ok_names l'
  | Err _ :: l' => ok_names l'
  end.

(* tcp/handshake.rs:1552-1588 ClientHandshake::on_ext_info *)
Definition on_ext_info self (payload : bytes) : t K * Flow :=
  match ExtInfo.decode payload with
  | Err error => fail self (ProtocolError (PvMessage Msg.EXT_INFO error))
  | Ok ext =>
      match ExtInfo.validate ext (HandshakeConfig.max_ext_info_extensions (config self)) with
      | Err e => fail self (ProtocolError (PvExtInfo e))
      | Ok _ =>
          let names := ok_names (Extensions.items (ExtInfo.extensions ext)) in
          let record algs :=
            (set_ext_info (Some (mkExtInfoSummary true algs names)) self, FlowContinue) in
          match ExtInfo.server_sig_algs ext with
          | None => record None
          | Some (Ok list) => record (Some (NameList.names list))
          | Some (Err e) => fail self (ProtocolError (PvExtInfo e))
          end
      end
  end.

(* tcp/handshake.rs:1590-1616 ClientHandshake::on_service_accept *)
Definition on_service_accept self (payload : bytes) : option (t K * Flow) :=
  match ServiceAccept.decode payload with
  | Err error => Some (fail self (ProtocolError (PvMessage Msg.SERVICE_ACCEPT error)))
  | Ok accept =>
      let service := HandshakeConfig.service (config self) in
      if negb (bytes_eqb (ServiceAccept.service_name accept) service)
      then Some (fail self (ProtocolError (PvServiceMismatch service (ServiceAccept.service_name accept))))
      else
      let self := set_service_accepted (Some (ServiceAccept.service_name accept)) self in
      let* (self, res) := send_disconnect self COMPLETE_DESCRIPTION in
      match res with
      | Err o => Some (fail self o)
      | Ok _ => Some (set_pending_outcome (Some Completed) self, FlowContinue)
      end
  end.

(* tcp/handshake.rs:1531-1550 ClientHandshake::handle_protected *)
Definition handle_protected self (payload : bytes) : option (t K * Flow) :=
  match payload with
  | [] => Some (fail self (ProtocolError PvEmptyPayload))
  | b :: _ =>
      let number := u8 b in
      if (number =? Msg.EXT_INFO) && (protected_received self =? 1) then Some (on_ext_info self payload)
      else if (number =? Msg.IGNORE) || (number =? Msg.DEBUG) then skip self number payload
      else if number =? Msg.SERVICE_ACCEPT then on_service_accept self payload
      else if number =? Msg.DISCONNECT then Some (on_disconnect self payload false)
      else if number =? Msg.KEXINIT then
        let* (self, res) := send_disconnect self REKEY_DESCRIPTION in
        match res with
        | Err o => Some (fail self o)
        | Ok _ => Some (set_pending_outcome (Some RekeyNotSupported) self, FlowContinue)
        end
      else Some (unexpected self number)
  end.

(* tcp/handshake.rs:1505-1529 ClientHandshake::step_protected *)
Definition step_protected self : option (t K * Flow) :=
  let cfg := config self in
  let* aead := recv_aead self in
  let '(aead, b, res) := AeadDirection.open aead (InputBuffer.buf (buf self)) (HandshakeConfig.packet cfg) in
  let self := set_recv_aead (Some aead) self in
  let self := set_buf (InputBuffer.mk b (InputBuffer.capacity (buf self))) self in
  match res with
  | Ok (OpenNeedMore _) => Some (self, FlowNeedMore)
  | Err Gcm.TagMismatch => Some (fail self TagMismatch)
  | Err e => Some (fail self (ProtocolError (PvProtected e)))
  | Ok (OpenPacket p) =>
      let* b := InputBuffer.consume (buf self) (prot_total_len p) in
      let self := set_buf b self in
      if HandshakeConfig.max_protected_packets cfg <=? protected_received self
      then Some (fail self (Limit (ProtectedPackets (HandshakeConfig.max_protected_packets cfg))))
      else
      let* n := checked_add_u32 (protected_received self) 1 in
      let self := set_protected_received n self in
      let '(self, res) := bump_sequence self false in
      match res with
      | Err o => Some (fail self o)
      | Ok _ => handle_protected self (prot_payload p)
      end
  end.

(** One round of the loop of [step]: a result, or the state to continue from. *)
(* tcp/handshake.rs:995-1022 ClientHandshake::step *)
Definition round self : option (t K * option Step) :=
  match outcome self with
  | Some o => Some (self, Some (Finished o))
  | None =>
      if negb (zlen (out self) =? 0) then Some (self, Some Send)
      else
      match pending_outcome self with
      | Some o => Some (finish (set_pending_outcome None self) o, None)
      | None =>
          let flow (r : option (t K * Flow)) : option (t K * option Step) :=
            let* (self, f) := r in
            Some (self, match f with FlowContinue => None | FlowNeedMore => Some NeedMore end) in
          match phase self with
          | ServerIdentification => flow (step_identification self)
          | ServerKexInit | EcdhReply | ServerNewKeys => flow (step_unprotected self)
          | TrustPending =>
              let* id := identity self in Some (self, Some (TrustDecisionRequired id))
          | Service => flow (step_protected self)
          | PhFinished => None
          end
      end
  end.

Fixpoint rounds (fuel : nat) self : option (t K * Step) :=
  match fuel with
  | O => None
  | S fuel' =>
      let* (self, r) := round self in
      match r with
      | Some s => Some (self, s)
      | None => rounds fuel' self
      end
  end.

(** Every round that continues consumes input or ends the handshake, so the
    buffered bytes and two more rounds are enough (see [step_total]). *)
(* tcp/handshake.rs:994-1023 ClientHandshake::step *)
Definition step self : option (t K * Step) := rounds (S (S (length (InputBuffer.buf (buf self))))) self.

(* tcp/handshake.rs:935-942 ClientHandshake::feed *)
Definition feed self (data : bytes) : t K :=
  match outcome self with
  | Some _ => self
  | None =>
      match InputBuffer.push (buf self) data with
      | (b, Ok _) => set_buf b self
      | (b, Err e) => finish (set_buf b self) (InputOverflow e)
      end
  end.

(* tcp/handshake.rs:945-947 ClientHandshake::take_output *)
Definition take_output self : t K * bytes := (set_out [] self, out self).

(* tcp/handshake.rs:950-957 ClientHandshake::input_ended *)
Definition input_ended self : t K * HandshakeOutcome :=
  match outcome self with
  | Some o => (self, o)
  | None => let o := Eof (phase self) in (finish self o, o)
  end.

(* tcp/handshake.rs:960-991 ClientHandshake::provide_trust *)
Definition provide_trust self (decision : TrustDecision) : option (t K) :=
  if negb (bool_decide (phase self = TrustPending)) then Some self
  else
  let self := set_trust (Some decision) self in
  match decision with
  | Untrusted reason => Some (finish (set_keys None self) (HostNotTrusted reason))
  | Trusted _ =>
      let '(p, res) := NewKeys.encode NewKeys.mk (replicate 1 x00) in
      match res with
      | Err _ => None
      | Ok n =>
          let '(self, res) := send_unprotected self (ztake n p) in
          match res with
          | Err o => Some (finish self o)
          | Ok _ =>
              let self := set_newkeys_sent true self in
              let* ks := keys self in
              let cts := client_to_server ks in
              let self := set_send_aead (Some (AeadDirection.from_parts (key cts) (iv cts))) self in
              let self := if strict_active self then set_send_seq 0 self else self in
              Some (set_phase ServerNewKeys self)
          end
      end
  end.

(** The state before the first output is queued. *)
Definition initial (config : HandshakeConfig.t) (client_line : bytes) (padding : PaddingSource)
    (i_c : bytes) (client_kexinit : OwnedKexInit.t) (ephemeral : EphemeralKeyPair)
    (strict : StrictKex) (provider : option SignatureProvider) : t K :=
  mk config ServerIdentification client_line (IdentificationReader.new (HandshakeConfig.ident config))
    (InputBuffer.new (HandshakeConfig.buffer_capacity config)) [] None None padding i_c client_kexinit
    (Some ephemeral) (public ephemeral) [] None None None None strict None 0 0 [] false None None None
    None provider None None None None None false false 0 0 0 0 None None None.

(* tcp/handshake.rs:804-901 ClientHandshake::build *)
Definition build {R E} `{TryRng R E} (config : HandshakeConfig.t) (rng : R)
    (provider : option SignatureProvider) : option (result (t K) (HandshakeInitError E)) :=
  let can_verify s :=
    SignatureScheme.is_enabled features s &&
    (negb (SignatureScheme.needs_provider s) ||
     match provider with Some p => supports p s | None => false end) in
  let* algs :=
    match HandshakeConfig.host_key_algorithms config with
    | Some list =>
        match List.find (fun s => negb (can_verify s)) (HostKeyAlgorithms.as_slice list) with
        | Some s => Some (Err (InitHostKeyAlgorithm s))
        | None => Some (Ok list)
        end
    | None =>
        let* o := HostKeyAlgorithms.preferred can_verify in
        Some (ok_or o (InitHostKeyAlgorithm SignatureScheme.Ed25519))
    end in
  match (let? algs := algs in
         let? line := map_err InitIdentification (build_identification (HandshakeConfig.software_version config)) in
         let '(rng, cookie) := try_fill_bytes rng KexInit.COOKIE_LEN in
         let? cookie := map_err InitEntropy cookie in
         let '(rng', _) := try_fill_bytes rng X25519_LEN in
         let? eph := map_err InitEntropy (generate (fun n => snd (try_fill_bytes rng n))) in
         let '(_, seed) := try_fill_bytes rng' 32 in
         let? seed := map_err InitEntropy seed in
         let proposal := ClientProposal.mk cookie (HandshakeConfig.advertise_ext_info config)
                           (HandshakeConfig.offer_strict_kex config) algs in
         let? i_c := map_err InitEncode (ClientProposal.encode proposal) in
         Ok (line, eph, seed, i_c)) with
  | Err e => Some (Err e)
  | Ok (line, eph, seed, i_c) =>
      match KexInit.decode i_c with
      | Err _ => None
      | Ok k =>
          let hs := initial config line (padding_new seed) i_c (kexinit_to_owned k) eph
                      (strict_offered k) provider in
          let hs := set_out (out hs ++ client_line hs) hs in
          let '(hs, res) := send_unprotected hs i_c in
          Some (Ok (match res with Ok _ => hs | Err o => finish hs o end))
      end
  end.

(* tcp/handshake.rs:787-792 ClientHandshake::new *)
Definition new {R E} `{TryRng R E} (config : HandshakeConfig.t) (rng : R) :
    option (result (t K) (HandshakeInitError E)) := build config rng None.

(* tcp/handshake.rs:796-802 ClientHandshake::with_signature_provider *)
Definition with_signature_provider {R E} `{TryRng R E} (config : HandshakeConfig.t) (rng : R)
    (provider : SignatureProvider) : option (result (t K) (HandshakeInitError E)) :=
  build config rng (Some provider).

(* tcp/handshake.rs:1027-1063 ClientHandshake::report *)
Definition report self : HandshakeReport :=
  mkReport (phase self) (client_identification_line self) (prelude self) (server_ident self)
    (match server_ident self with Some i => anomalies i | None => [] end)
    (mkAdvertised (client_kexinit self) (server_kexinit self)) (negotiated self) (strict self)
    (kexinit_was_first self) (skipped self) (guess_discarded self) (host_key self)
    (signature_valid self) (signature_error self) (trust self) (newkeys_sent self)
    (newkeys_received self) (protected_sent self) (protected_received self) (send_seq self)
    (recv_seq self) (ext_info self) (service_accepted self) (server_disconnect self) (outcome self)
    false.

End operations.
End ClientHandshake.
