(* ===== verification/HandshakeProofs.v ===== *)
(** * The handshake's invariant

    The invariant of [ClientHandshake]: what holds in every phase ([base]) and
    what each phase adds ([phase_ok]), with its preservation by every handler.
    The handlers are shown to return (no [expect], [unreachable!] or index of
    the source can panic) under it. *)

From S2P Require Import Prelude WireError NameList Primitives Messages KexInit ExtInfo.
From S2P Require Import WireIdent TcpIdent Packet Initial KeyAlgorithm HostKey HostKeyProps Negotiate.
From S2P Require Import Gcm Transcript Trust Handshake.

Import Hs ClientHandshake.

(** Configurations whose limits are representable; input buffers stay below
    2^32 bytes. *)
Definition hs_config_ok (c : HandshakeConfig.t) : Prop :=
  let i := HandshakeConfig.ident c in
  0 <= max_prelude_lines i /\ 0 <= max_prelude_bytes i <= USIZE_MAX /\
  0 <= max_prelude_line i /\ 0 <= max_identification_line i /\
  4 <= Z.max (max_prelude_line i) (max_identification_line i) /\
  0 <= max_packet_length (HandshakeConfig.packet c) /\
  0 <= HandshakeConfig.max_pre_kex_packets c <= USIZE_MAX /\ 0 <= HandshakeConfig.max_pre_kex_bytes c /\
  0 <= HandshakeConfig.max_protected_packets c <= U32_MAX /\
  zlen (HandshakeConfig.service c) <= U32_MAX /\
  HandshakeConfig.buffer_capacity c <= U32_MAX /\
  (forall a, HandshakeConfig.host_key_algorithms c = Some a ->
     exists l, HostKeyAlgorithms.new l = Some (Ok a)).

Create HintDb hs discriminated.

Section invariant.
Context {K : Type} `{AL : AeadLaws K, HL : HashLaws, DL : DhLaws, DD : Dalek}.
Variable features : Features.
Implicit Types self : t K.

(** The evidence behind a verified host: the client's ephemeral key agreed on
    [k] with the peer's value, [h] is the exchange hash of exactly the
    identifications, KEXINITs, host key and ephemeral values exchanged, the
    host key [id] carries is one of the enabled types, and its signature over
    [h] verified under the negotiated scheme; [ks] are the keys derived. *)
Definition authentic (p : option SignatureProvider) (v_c v_s ic is_ qc : bytes) (n : Negotiated)
    (id : HostIdentityOwned) (h : bytes) (ks : KeySet) : Prop :=
  exists eph q_s k scheme hk sig,
    public eph = qc /\ dh_public (secret eph) = qc /\ agree eph q_s = Ok k /\
    exchange_hash (mkInputs v_c v_s ic is_ (own_blob id) qc q_s) k = Some h /\
    host_key_scheme n = Some scheme /\
    HostKey.parse features (own_blob id) = Ok hk /\
    own_sha256 id = Sha256Fingerprint.of_blob (own_blob id) /\
    HostKey.verify hk scheme h sig p = Ok tt /\
    derive_aes128_gcm_keys k h h = Some ks.

(** [n] is what the two KEXINITs negotiate, and is within the profile. *)
Definition agreed (ic is_ : bytes) (n : Negotiated) : Prop :=
  exists client server, KexInit.decode ic = Ok client /\ KexInit.decode is_ = Ok server /\
    negotiate client server = Ok n /\ check_profile n = Ok tt.

Definition verified self (ks : KeySet) : Prop :=
  exists vs p n id h,
    server_ident self = Some vs /\ i_s self = Some p /\ negotiated self = Some n /\
    identity self = Some id /\ session_id self = Some h /\ agreed (i_c self) p n /\
    authentic (provider self) (client_identification_line self) (TcpIdentification.line vs)
      (i_c self) p (q_c self) n id h ks.

(** [a] is the direction keyed with [d], after its own number of packets. *)
Definition dir_from (d : AeadKeys) (a : AeadDirection.t K) : Prop :=
  AeadDirection.cipher a = aead_new (key d) /\
  AeadDirection.fixed a = ztake NONCE_FIXED_LEN (iv d) /\
  AeadDirection.counter a = be_val (zdrop NONCE_FIXED_LEN (iv d)) + AeadDirection.packets a.

(** The keys in use are those of [ks], each in its direction. *)
Definition keyed self (ks : KeySet) : Prop :=
  (forall k, keys self = Some k -> k = ks) /\
  (forall a, send_aead self = Some a ->
     dir_from (client_to_server ks) a /\ AeadDirection.packets a = protected_sent self) /\
  (forall a, recv_aead self = Some a -> dir_from (server_to_client ks) a).

Record base self : Prop := {
  b_cfg : hs_config_ok (config self);
  b_buf : InputBuffer.inv (buf self);
  b_cap : InputBuffer.capacity (buf self) = HandshakeConfig.buffer_capacity (config self);
  b_rd : reader_ok (ident_reader self);
  b_lim : IdentificationReader.limits (ident_reader self) = HandshakeConfig.ident (config self);
  b_line : 2 <= zlen (client_line self) <= 255;
  b_ic : exists client, KexInit.decode (i_c self) = Ok client;
  b_ck : forall client, KexInit.decode (i_c self) = Ok client -> client_kexinit self = kexinit_to_owned client;
  b_ic_len : zlen (i_c self) <= 512;
  b_qc : zlen (q_c self) = X25519_LEN;
  b_eph : forall e, ephemeral self = Some e -> public e = q_c self /\ dh_public (secret e) = q_c self;
  b_vs : forall i, server_ident self = Some i -> zlen (TcpIdentification.line i) <= U32_MAX;
  b_is : forall p, i_s self = Some p -> zlen p <= U32_MAX;
  b_sk : forall p, i_s self = Some p ->
    exists server, KexInit.decode p = Ok server /\ server_kexinit self = Some (kexinit_to_owned server);
  b_neg : forall n, negotiated self = Some n ->
    strict self = strict_kex n /\ exists p, i_s self = Some p /\ agreed (i_c self) p n;
  b_auth : signature_valid self = Some true -> exists ks, verified self ks /\ keyed self ks;
  b_aead : (newkeys_sent self = false -> send_aead self = None) /\
    (newkeys_received self = false -> recv_aead self = None);
  b_sent : newkeys_sent self = true ->
    signature_valid self = Some true /\ exists src, trust self = Some (Trusted src);
  b_recv : newkeys_received self = true -> newkeys_sent self = true;
  b_prot : newkeys_received self = false ->
    protected_sent self = 0 /\ protected_received self = 0 /\ service_accepted self = None;
  b_svc : forall s, service_accepted self = Some s -> s = HandshakeConfig.service (config self);
  b_pc : 0 <= pre_kex_packets self <= HandshakeConfig.max_pre_kex_packets (config self);
  b_pb : pre_kex_bytes self <= HandshakeConfig.max_pre_kex_bytes (config self);
  b_pr : 0 <= protected_received self <= HandshakeConfig.max_protected_packets (config self);
  b_ps : 0 <= protected_sent self <= 2;
  b_out : pending_outcome self = Some Completed \/ outcome self = Some Completed ->
    service_accepted self <> None;
  b_sseq : is_u32 (send_seq self);
  b_rseq : is_u32 (recv_seq self);
  b_strict_recv : newkeys_received self = true -> strict_active self = true ->
    kexinit_was_first self = Some true /\ pre_kex_packets self = 3 + Z.b2z (guess_discarded self) /\
    zlen (skipped self) <= protected_received self /\ recv_seq self = protected_received self;
  b_strict_sent : newkeys_sent self = true -> strict_active self = true ->
    send_seq self = protected_sent self
}.

(** Under strict KEX, what the unprotected packets seen so far were: [c] of
    them, [m] of which are the expected messages. *)
Definition strict_count self (c m : Z) : Prop :=
  strict_active self = true ->
  kexinit_was_first self = Some true /\ c = m + Z.b2z (guess_discarded self) /\ skipped self = [].

(** What each phase adds; [c] is the number of unprotected packets handled. *)
Definition phase_ok (c : Z) self : Prop :=
  let early := pending_outcome self = None /\ outcome self = None /\ newkeys_received self = false in
  match phase self with
  | ServerIdentification =>
      early /\ newkeys_sent self = false /\ signature_valid self = None /\ negotiated self = None /\
      strict_active self = false /\ guess_discarded self = false /\ c = 0 /\ skipped self = []
  | ServerKexInit =>
      early /\ newkeys_sent self = false /\ signature_valid self = None /\ negotiated self = None /\
      strict_active self = false /\ guess_discarded self = false /\ server_ident self <> None /\
      zlen (skipped self) = c
  | EcdhReply =>
      early /\ newkeys_sent self = false /\ signature_valid self = None /\ negotiated self <> None /\
      server_ident self <> None /\ strict_count self c 1
  | TrustPending =>
      early /\ newkeys_sent self = false /\ signature_valid self = Some true /\ identity self <> None /\
      keys self <> None /\ strict_count self c 2 /\ ephemeral self = None
  | ServerNewKeys =>
      early /\ newkeys_sent self = true /\ keys self <> None /\ send_aead self <> None /\
      strict_count self c 2 /\ ephemeral self = None
  | Service =>
      outcome self = None /\ newkeys_received self = true /\ send_aead self <> None /\
      recv_aead self <> None /\ (pending_outcome self = None -> protected_sent self = 1) /\
      keys self = None /\ ephemeral self = None
  | PhFinished =>
      outcome self <> None /\ pending_outcome self = None /\ keys self = None /\ ephemeral self = None
  end.

Definition inv self : Prop := base self /\ phase_ok (pre_kex_packets self) self.

(** What no operation changes. *)
Definition same_setup self self' : Prop :=
  config self' = config self /\ provider self' = provider self /\
  client_line self' = client_line self /\ i_c self' = i_c self /\ q_c self' = q_c self.

#[global] Instance same_setup_preorder : PreOrder same_setup.
Proof.
  split; [by intros ?|]. intros a b c (?&?&?&?&?) (?&?&?&?&?). unfold same_setup. split_and!; congruence.
Qed.

(** The clauses an update leaves as they were, from those of [Hb]. *)
Ltac base_by Hb :=
  split;
  [ try exact (b_cfg _ Hb) | try exact (b_buf _ Hb) | try exact (b_cap _ Hb) | try exact (b_rd _ Hb)
  | try exact (b_lim _ Hb) | try exact (b_line _ Hb) | try exact (b_ic _ Hb) | try exact (b_ck _ Hb) | try exact (b_ic_len _ Hb)
  | try exact (b_qc _ Hb) | try exact (b_eph _ Hb) | try exact (b_vs _ Hb) | try exact (b_is _ Hb)
  | try exact (b_sk _ Hb) | try exact (b_neg _ Hb) | try exact (b_auth _ Hb) | try exact (b_aead _ Hb) | try exact (b_sent _ Hb) | try exact (b_recv _ Hb)
  | try exact (b_prot _ Hb) | try exact (b_svc _ Hb) | try exact (b_pc _ Hb) | try exact (b_pb _ Hb) | try exact (b_pr _ Hb) | try exact (b_ps _ Hb)
  | try exact (b_out _ Hb) | try exact (b_sseq _ Hb) | try exact (b_rseq _ Hb)
  | try exact (b_strict_recv _ Hb) | try exact (b_strict_sent _ Hb) ].

(** Fields [base] does not constrain. *)
Lemma base_phase (v : Phase) self : base self -> base (set_phase v self).
Proof. intros Hb. base_by Hb. Qed.

Lemma base_out (v : bytes) self : base self -> base (set_out v self).
Proof. intros Hb. base_by Hb. Qed.

Lemma base_padding (v : PaddingSource) self : base self -> base (set_padding v self).
Proof. intros Hb. base_by Hb. Qed.

Lemma base_prelude (v : list bytes) self : base self -> base (set_prelude v self).
Proof. intros Hb. base_by Hb. Qed.

Lemma base_pre_kex_bytes (v : Z) self :
  base self -> v <= HandshakeConfig.max_pre_kex_bytes (config self) -> base (set_pre_kex_bytes v self).
Proof. intros Hb Hv. base_by Hb. exact Hv. Qed.

Lemma base_host_key (v : option HostKeySummary) self : base self -> base (set_host_key v self).
Proof. intros Hb. base_by Hb. Qed.

Lemma base_signature_error (v : option SignatureError) self : base self -> base (set_signature_error v self).
Proof. intros Hb. base_by Hb. Qed.

Lemma base_no_keys self : base self -> base (set_keys None self).
Proof.
  intros Hb. base_by Hb. intros Hs. destruct (b_auth _ Hb Hs) as (ks & Hv & _ & Hk). by exists ks.
Qed.

(** Replacing a direction by one keyed from the same exchange. *)
Lemma base_send_aead self a :
  base self -> newkeys_sent self = true ->
  (forall ks, verified self ks -> keyed self ks ->
     dir_from (client_to_server ks) a /\ AeadDirection.packets a = protected_sent self) ->
  base (set_send_aead (Some a) self).
Proof.
  intros Hb Hs Ha. destruct (b_auth _ Hb (proj1 (b_sent _ Hb Hs))) as (ks & Hv & Hk). base_by Hb.
  - intros _. exists ks. split; [exact Hv|]. destruct (Ha ks Hv Hk) as [Hd Hp]. destruct Hk as (H1' & _ & H3').
    split_and!; [exact H1'| |exact H3']. by intros a' [= <-].
  - split; [|exact (proj2 (b_aead _ Hb))]. intros Hf. change (newkeys_sent self = false) in Hf. congruence.
Qed.

Lemma base_recv_aead self a :
  base self -> newkeys_received self = true ->
  (forall ks, verified self ks -> keyed self ks -> dir_from (server_to_client ks) a) ->
  base (set_recv_aead (Some a) self).
Proof.
  intros Hb Hs Ha.
  destruct (b_auth _ Hb (proj1 (b_sent _ Hb (b_recv _ Hb Hs)))) as (ks & Hv & Hk). base_by Hb.
  - intros _. exists ks. split; [exact Hv|]. pose proof (Ha ks Hv Hk) as Hd. destruct Hk as (H1' & H2' & _).
    split_and!; [exact H1'|exact H2'|]. by intros a' [= <-].
  - split; [exact (proj1 (b_aead _ Hb))|]. intros Hf. change (newkeys_received self = false) in Hf. congruence.
Qed.

Lemma base_ext_info (v : option ExtInfoSummary) self : base self -> base (set_ext_info v self).
Proof. intros Hb. base_by Hb. Qed.

Lemma base_server_disconnect (v : option ServerDisconnect) self : base self -> base (set_server_disconnect v self).
Proof. intros Hb. base_by Hb. Qed.

#[local] Hint Resolve base_phase base_out base_padding base_prelude base_pre_kex_bytes
  base_host_key base_signature_error base_ext_info base_server_disconnect : hs.

(** ** Ending the handshake *)

Lemma base_no_ephemeral self : base self -> base (set_ephemeral None self).
Proof.
  intros Hb. base_by Hb. done.
Qed.

Lemma base_pending o self :
  (o = Some Completed -> service_accepted self <> None) -> base self -> base (set_pending_outcome o self).
Proof.
  intros Ho Hb. base_by Hb.
  cbn. intros [->|?]; [auto|]. apply (b_out _ Hb). auto.
Qed.

Lemma base_outcome o self :
  (o = Some Completed -> service_accepted self <> None) -> base self -> base (set_outcome o self).
Proof.
  intros Ho Hb. base_by Hb.
  cbn. intros [?| ->]; [|auto]. apply (b_out _ Hb). auto.
Qed.

Lemma finish_eq self o :
  finish self o = set_outcome (Some o) (set_keys None (set_ephemeral None
    (set_pending_outcome None (set_phase PhFinished self)))).
Proof. done. Qed.

Lemma base_finish self o : base self -> (o = Completed -> service_accepted self <> None) -> base (finish self o).
Proof.
  intros Hb Ho. rewrite finish_eq. apply base_outcome.
  - intros [= E]. exact (Ho E).
  - apply base_no_keys, base_no_ephemeral, base_pending; [done|]. by apply base_phase.
Qed.

Lemma finish_done self o :
  phase (finish self o) = PhFinished /\ outcome (finish self o) = Some o /\ pending_outcome (finish self o) = None /\
  keys (finish self o) = None /\ ephemeral (finish self o) = None.
Proof. done. Qed.

Lemma phase_ok_finish c self o : phase_ok c (finish self o).
Proof. destruct (finish_done self o) as (Hp & Ho & Hn). unfold phase_ok. by rewrite Hp, Ho. Qed.

Lemma finish_inv self o : base self -> (o = Completed -> service_accepted self <> None) -> inv (finish self o).
Proof.
  intros Hb Ho. split; [by apply base_finish|apply phase_ok_finish].
Qed.

Lemma finish_setup self o : same_setup self (finish self o).
Proof. done. Qed.

(** The result of a handler that keeps the buffer. *)
Definition handled self (r : option (t K * Flow)) : Prop :=
  exists self', r = Some (self', FlowContinue) /\ inv self' /\ same_setup self self' /\ buf self' = buf self.

Lemma handled_fail self self1 o :
  base self1 -> same_setup self self1 -> buf self1 = buf self -> o <> Completed ->
  handled self (Some (fail self1 o)).
Proof.
  intros Hb Hs Hbuf Ho. eexists; split; [done|]. split; [by apply finish_inv|done].
Qed.

(** ** Sequence numbers and sending *)

Lemma bump_spec self send :
  is_u32 (send_seq self) -> is_u32 (recv_seq self) ->
  exists r,
    (bump_sequence self send = (self, Err (StrictKexViolation SequenceWrapped)) /\ r = U32_MAX /\ initial_kex_done self = false \/
     exists n, bump_sequence self send =
       ((if send then set_send_seq n self else set_recv_seq n self), Ok tt) /\
       is_u32 n /\ (r < U32_MAX -> n = r + 1)) /\
    r = (if send then send_seq self else recv_seq self).
Proof.
  intros Hs Hr. eexists; split; [|done]. unfold bump_sequence, checked_add_u32.
  set (r := if send then send_seq self else recv_seq self).
  assert (is_u32 r) as [Hr1 Hr2] by (by destruct send). unfold is_u32 in *.
  destruct (Z.leb_spec (r + 1) U32_MAX).
  - right. eexists; split; [done|]. lia.
  - destruct (_ && _) eqn:E.
    + left. apply andb_prop in E as [_ E%negb_true_iff]. split_and!; [done|lia|done].
    + right. eexists; split; [done|]. split; [done|lia].
Qed.

Lemma set_send_seq_id self : set_send_seq (send_seq self) self = self.
Proof. by destruct self. Qed.

Lemma set_sent_id self : set_protected_sent (protected_sent self) self = self.
Proof. by destruct self. Qed.

Lemma set_out_padding_id self : set_out (out self) (set_padding (padding self) self) = self.
Proof. by destruct self. Qed.

Lemma send_unprotected_spec self payload :
  is_u32 (send_seq self) -> is_u32 (recv_seq self) ->
  exists p o s r,
    send_unprotected self payload = (set_send_seq s (set_out o (set_padding p self)), r) /\
    is_u32 s /\ r <> Err Completed.
Proof.
  intros Hs Hr. unfold send_unprotected. destruct (encode_initial_packet_with _ _ _) as [f [n|e]].
  - set (s1 := set_out _ _).
    destruct (bump_spec s1 true) as (x & [[-> _]|(m & -> & Hm & _)] & Hx); [done|done| |].
    + exists (padding s1), (out s1), (send_seq s1). eexists.
      change (set_out (out s1) (set_padding (padding s1) self)) with s1. rewrite set_send_seq_id. done.
    + eexists _, _, m, _. done.
  - exists (padding self), (out self), (send_seq self). eexists.
    rewrite set_out_padding_id, set_send_seq_id. done.
Qed.

Lemma dir_from_new d : dir_from d (AeadDirection.from_parts (key d) (iv d)).
Proof. split_and!; [done|done|]. cbn. lia. Qed.

Lemma dir_from_advance d a : dir_from d a -> dir_from d (AeadDirection.advance a).
Proof. intros (H1' & H2' & H3'). split_and!; [done|done|]. cbn. lia. Qed.

Lemma send_protected_spec self payload :
  is_u32 (send_seq self) -> is_u32 (recv_seq self) -> send_aead self <> None ->
  0 <= protected_sent self <= 1 ->
  exists a p o m s r,
    send_protected self payload =
      Some (set_send_seq s (set_protected_sent m (set_out o (set_padding p (set_send_aead (Some a) self)))), r) /\
    is_u32 s /\ r <> Err Completed /\ (r = Ok tt -> m = protected_sent self + 1) /\
    (send_seq self = protected_sent self -> s = m) /\ protected_sent self <= m <= protected_sent self + 1 /\
    (forall d a0, send_aead self = Some a0 ->
       dir_from d a0 /\ AeadDirection.packets a0 = protected_sent self -> dir_from d a /\ AeadDirection.packets a = m).
Proof.
  intros Hs Hr Ha Hm. unfold send_protected. destruct (send_aead self) as [a|] eqn:Ea; [|done]. cbn [mbind option_bind].
  destruct (AeadDirection.seal a payload (padding self) (out self)) as [[[a' rng] o] res] eqn:Eseal.
  pose proof (seal_state _ _ _ _ _ _ _ _ Eseal) as Hseal.
  assert (forall d a0, Some a = Some a0 -> dir_from d a0 /\ AeadDirection.packets a0 = protected_sent self ->
    dir_from d a' /\ AeadDirection.packets a' = protected_sent self + match res with Ok _ => 1 | Err _ => 0 end) as Hdir.
  { intros d a0 [= <-] [Hd Hpk]. destruct res; [destruct Hseal as [-> _]|rewrite Hseal]; [|split; [done|lia]].
    split; [by apply dir_from_advance|]. cbn. lia. }
  destruct res as [n|e].
  - unfold checked_add_u32 at 1. cbn [protected_sent set_out set_padding set_send_aead].
    destruct (Z.leb_spec (protected_sent self + 1) U32_MAX); [|unfold U32_MAX in *; lia]. cbn [mbind option_bind].
    set (s1 := set_protected_sent _ _).
    destruct (bump_spec s1 true) as (x & [(-> & -> & _)|(k & -> & Hk & Hkn)] & Hx); [done|done| |]; cbn in Hx.
    + exists a', rng, o, (protected_sent self + 1), (send_seq s1). eexists. fold s1. rewrite set_send_seq_id.
      split; [done|]. cbn [send_seq s1 set_protected_sent set_out set_padding set_send_aead].
      split_and!; try done; [|lia..]. rewrite <- Hx. unfold U32_MAX. lia.
    + eexists a', rng, o, _, k, _. split; [done|]. split_and!; try done; [|lia..].
      intros Hsp. rewrite Hkn; [lia|]. unfold U32_MAX. lia.
  - set (s1 := set_out o _). exists a', rng, o, (protected_sent s1), (send_seq s1). eexists. fold s1.
    rewrite set_sent_id, set_send_seq_id. change (protected_sent s1) with (protected_sent self).
    split_and!; try done; [lia..|]. intros d a0 E Ha0.
    destruct (Hdir d a0 E Ha0) as [H1' H2']. split; [done|]. rewrite H2'. change (protected_sent s1) with (protected_sent self). lia.
Qed.

(** ** Handlers

    Each is called after its packet was counted, so the phase's count is the
    one before it. *)

Lemma skip_handled self number payload :
  number = Msg.IGNORE \/ number = Msg.DEBUG \/ number = Msg.UNIMPLEMENTED -> base self ->
  (forall m, inv (set_skipped (skipped self ++ [m]) self)) ->
  handled self (skip self number payload).
Proof.
  intros Hn Hb Hi. unfold skip.
  assert (forall e, handled self (Some (fail self (ProtocolError (PvMessage number e))))) as Hf
    by (intros e; by apply handled_fail).
  assert (forall m, handled self (Some (set_skipped (skipped self ++ [m]) self, FlowContinue))) as Hp
    by (intros m; eexists; split; [done|]; done).
  destruct Hn as [->|[->| ->]]; cbn [Z.eqb Pos.eqb Msg.IGNORE Msg.DEBUG Msg.UNIMPLEMENTED].
  - destruct (Ignore.decode payload); auto.
  - destruct (DebugMsg.decode payload); auto.
  - destruct (Unimplemented.decode payload); auto.
Qed.

Lemma on_disconnect_handled self payload v : base self -> handled self (Some (on_disconnect self payload v)).
Proof.
  intros Hb. unfold on_disconnect. destruct (Disconnect.decode payload) as [d|e]; [|by apply handled_fail].
  destruct v; (apply handled_fail; [by apply base_server_disconnect|done..]).
Qed.

Lemma unexpected_handled self number : base self -> handled self (Some (unexpected self number)).
Proof. intros Hb. by apply handled_fail. Qed.

Lemma violation_handled self d : base self -> handled self (Some (strict_violation self d)).
Proof. intros Hb. by apply handled_fail. Qed.

(** The invariant in the phases before the reply constrains only the setup. *)
Lemma base_early self self' :
  base self -> same_setup self self' -> buf self' = buf self -> ident_reader self' = ident_reader self ->
  ephemeral self' = ephemeral self \/ ephemeral self' = None ->
  server_ident self' = server_ident self ->
  (forall p, i_s self' = Some p -> zlen p <= U32_MAX) ->
  (forall n, negotiated self' = Some n ->
     strict self' = strict_kex n /\ exists p, i_s self' = Some p /\ agreed (i_c self') p n) ->
  signature_valid self' <> Some true -> send_aead self' = None /\ recv_aead self' = None ->
  newkeys_sent self' = false -> newkeys_received self' = false ->
  protected_sent self' = 0 -> protected_received self' = 0 -> service_accepted self' = None ->
  pre_kex_packets self' = pre_kex_packets self -> pre_kex_bytes self' = pre_kex_bytes self ->
  pending_outcome self' = None -> outcome self' = None ->
  is_u32 (send_seq self') -> is_u32 (recv_seq self') -> client_kexinit self' = client_kexinit self ->
  (forall p, i_s self' = Some p ->
     exists server, KexInit.decode p = Ok server /\ server_kexinit self' = Some (kexinit_to_owned server)) ->
  base self'.
Proof.
  intros Hb (E1 & E2 & E3 & E4 & E5) Hbuf Hrd He Hsi His Hn Hsv Hae Hns Hnr Hps Hpr Hsa Hpc Hpb Hpo Ho Hss Hrs Hck Hsk.
  destruct Hb. split; rewrite ?E1, ?E2, ?E3, ?E4, ?E5, ?Hbuf, ?Hrd, ?Hpc, ?Hpb, ?Hpr, ?Hps, ?Hck, ?Hsi; try done; try congruence.
  - intros e. destruct He as [->| ->]; [auto|done].
  - by rewrite <- E4.
  - split; intros _; apply Hae.
  - lia.
  - intros [?|?]; congruence.
Qed.

(** The fixed-size messages fit the buffers the source gives them. *)
Lemma ecdh_init_encodes q :
  zlen q = X25519_LEN ->
  exists b n, KexEcdhInit.encode (KexEcdhInit.mk q) (replicate (Z.to_nat (1 + 4 + X25519_LEN)) x00) = (b, Ok n).
Proof.
  intros Hq.
  pose proof (codec_encode_ok (KexEcdhInit.mk q) (replicate (Z.to_nat (1 + 4 + X25519_LEN)) x00)) as Hk.
  cbn [codec_encode codec_wf codec_image kex_ecdh_init_codec] in Hk. rewrite Hk; [eauto| |].
  - unfold KexEcdhInit.wf. cbn [KexEcdhInit.client_ephemeral]. by rewrite Hq.
  - unfold KexEcdhInit.image. cbn [KexEcdhInit.client_ephemeral]. rewrite zlen_app, zlen_sshstr, Hq. done.
Qed.

Lemma on_server_kexinit_handled self payload :
  base self -> phase self = ServerKexInit -> phase_ok (pre_kex_packets self - 1) self ->
  zlen payload <= U32_MAX -> handled self (on_server_kexinit self payload).
Proof.
  intros Hb Hph Hp Hl. unfold phase_ok in Hp. rewrite Hph in Hp.
  destruct Hp as ((Hpo & Ho & Hnr) & Hns & Hsv & Hn & Hst & Hgd & Hsi & Hsk).
  destruct (b_prot _ Hb Hnr) as (Hps & Hpr & Hsa). assert (send_aead self = None /\ recv_aead self = None) as Hae.
  { split; by apply (b_aead _ Hb). }
  unfold on_server_kexinit. set (wf := pre_kex_packets self =? 1).
  assert (forall sk is_ st, (forall p, is_ = Some p -> zlen p <= U32_MAX) ->
    (forall p, is_ = Some p -> exists server, KexInit.decode p = Ok server /\ sk = Some (kexinit_to_owned server)) ->
    base (set_strict st (set_i_s is_ (set_server_kexinit sk (set_kexinit_was_first (Some wf) self))))) as Hb1.
  { intros sk is_ st Hi Hk. apply (base_early self); cbn; auto using b_sseq, b_rseq; try done; congruence. }
  destruct (KexInit.decode payload) as [server|e] eqn:Es.
  2: { apply handled_fail; [|done..]. specialize (Hb1 (server_kexinit self) (i_s self) (strict self) (b_is _ Hb) (b_sk _ Hb)).
       revert Hb1. by destruct self. }
  cbn [i_c set_i_s set_server_kexinit set_kexinit_was_first].
  destruct (b_ic _ Hb) as [client Hc]. rewrite Hc.
  destruct (negotiate client server) as [n|e] eqn:En; cbn [rbind].
  2: { apply handled_fail; [|done..]. apply Hb1; intros p [= <-]; eauto. }
  destruct (check_profile n) as [[]|e] eqn:Ep; cbn [rbind].
  2: { apply handled_fail; [|done..]. apply Hb1; intros p [= <-]; eauto. }
  set (s1 := set_negotiated (Some n) _).
  assert (agreed (i_c self) payload n) as Hag by (exists client, server; done).
  assert (forall o p s, is_u32 s -> base (set_send_seq s (set_out o (set_padding p s1)))) as Hb2.
  { intros o p s Hs. apply (base_early self); cbn; auto using b_rseq; try done; try congruence.
    - intros n' [= <-]. eauto.
    - intros q [= <-]. eauto. }
  assert (base s1) as Hbs1.
  { specialize (Hb2 (out self) (padding self) (send_seq self) (b_sseq _ Hb)). revert Hb2.
    change (set_send_seq (send_seq self) (set_out (out self) (set_padding (padding self) s1)))
      with (set_send_seq (send_seq s1) (set_out (out s1) (set_padding (padding s1) s1))).
    by rewrite set_out_padding_id, set_send_seq_id. }
  destruct (strict_active s1 && negb wf) eqn:Esf; [by apply handled_fail|].
  destruct (KexEcdhInit.encode _ _) as [b res] eqn:Ee.
  assert (exists m, res = Ok m) as [m ->].
  { destruct (ecdh_init_encodes (q_c s1) (b_qc _ Hb)) as (b' & m & E). rewrite E in Ee. injection Ee as <- <-. eauto. }
  destruct (send_unprotected_spec s1 (ztake m b) (b_sseq _ Hbs1) (b_rseq _ Hbs1)) as (p & o & s & r & -> & Hs & Hr).
  destruct r as [[]|oc]; last first.
  { apply handled_fail; [by apply Hb2|done|done|]. congruence. }
  eexists; split; [done|]. split; [|done]. split; [by apply base_phase, Hb2|].
  cbn. unfold phase_ok; cbn. split_and!; try done. unfold strict_count; cbn.
  intros Hst1. unfold strict_active in Esf, Hst1; cbn in Esf, Hst1. rewrite Hst1 in Esf. cbn in Esf.
  apply negb_false_iff in Esf. rewrite Esf. split; [done|]. apply Z.eqb_eq in Esf.
  assert (skipped self = []) as Hsk0 by (apply zlen_0; lia).
  split; [|done]. by rewrite Esf, Hgd.
Qed.
(** *** The reply *)

Lemma base_signature_refused self :
  newkeys_sent self = false -> base self -> base (set_signature_valid (Some false) self).
Proof.
  intros Hn Hb. base_by Hb.
  - done.
  - cbn [newkeys_sent set_signature_valid]. congruence.
Qed.

(** The state after a verified reply. *)
Definition after_reply self (ks : KeySet) (h : bytes) (id : HostIdentityOwned) : t K :=
  set_identity (Some id) (set_session_id (Some h) (set_keys (Some ks) (set_signature_valid (Some true) self))).

Lemma base_after_reply self ks h id :
  newkeys_sent self = false -> newkeys_received self = false -> verified (after_reply self ks h id) ks ->
  base self -> base (after_reply self ks h id).
Proof.
  intros Hn Hnr Hv Hb. destruct (b_aead _ Hb) as [Hs Hr]. specialize (Hs Hn). specialize (Hr Hnr). base_by Hb.
  - intros _. exists ks. split; [exact Hv|]. split_and!.
    + by intros k [= <-].
    + intros a Ha. change (send_aead self = Some a) in Ha. congruence.
    + intros a Ha. change (recv_aead self = Some a) in Ha. congruence.
  - change (newkeys_sent (after_reply self ks h id)) with (newkeys_sent self). congruence.
Qed.

Lemma reply_fields_len p r :
  KexEcdhReply.decode p = Ok r -> zlen (KexEcdhReply.host_key_blob r) <= U32_MAX.
Proof.
  intros Hd. assert (KexEcdhReply.wf r) as [Hl _]; [|done].
  exact (codec_accepts_wf p r (proj1 (codec_decode_iff p r) Hd)).
Qed.

Lemma agree_len eph q k : agree eph q = Ok k -> zlen q = X25519_LEN /\ zlen k = X25519_LEN.
Proof.
  unfold agree. destruct (Z.eqb_spec (zlen q) X25519_LEN); [|done]. cbn [negb].
  destruct (bytes_eqb _ _); [done|]. intros <-%Ok_inj. split; [done|]. apply dh_len.
Qed.

(** The exchange hash and the keys are always computed from a reply's values. *)
Lemma reply_hash self v_s p ks_blob eph q_s k :
  base self -> zlen v_s <= U32_MAX -> zlen p <= U32_MAX -> zlen ks_blob <= U32_MAX ->
  agree eph q_s = Ok k ->
  exists h ks,
    exchange_hash (mkInputs (client_identification_line self) v_s (i_c self) p ks_blob (q_c self) q_s) k = Some h /\
    derive_aes128_gcm_keys k h h = Some ks.
Proof.
  intros Hb Hv Hp Hk Ha. destruct (agree_len _ _ _ Ha) as [Hq Hkl].
  eexists _, _. split; [|by apply derive_keys_total].
  apply exchange_hash_ok; [|done]. unfold parts_ok; cbn.
  pose proof (b_line _ Hb). pose proof (b_ic_len _ Hb). pose proof (b_qc _ Hb) as Hqc.
  unfold X25519_LEN in *.
  assert (zlen (client_identification_line self) <= zlen (client_line self)) by apply zlen_ztake_le.
  repeat constructor; try done; unfold U32_MAX in *; lia.
Qed.

Lemma parse_of_decoded blob b k :
  PublicKeyBlob.decode blob = Ok b -> HostKey.from_blob features b = Ok k ->
  HostKey.parse features blob = Ok k /\ PublicKeyBlob.as_bytes b = blob.
Proof.
  intros Hd Hk. unfold HostKey.parse. rewrite Hd. split; [done|].
  by apply decode_blob_iff in Hd as (name & body & _ & _ & ->).
Qed.

Lemma on_ecdh_reply_handled self payload :
  base self -> phase self = EcdhReply -> phase_ok (pre_kex_packets self - 1) self ->
  handled self (on_ecdh_reply features self payload).
Proof.
  intros Hb Hph Hp. unfold phase_ok in Hp. rewrite Hph in Hp.
  destruct Hp as ((Hpo & Ho & Hnr) & Hns & Hsv & Hn & Hsi & Hst).
  unfold on_ecdh_reply. destruct (KexEcdhReply.decode payload) as [reply|e] eqn:Er; [|by apply handled_fail].
  destruct (PublicKeyBlob.decode _) as [blob|e] eqn:Eb; [|by apply handled_fail].
  destruct (HostKey.from_blob features blob) as [hk|e] eqn:Ek; [|by apply handled_fail].
  destruct (parse_of_decoded _ _ _ Eb Ek) as [Hparse Hbytes].
  cbv zeta. cbn [id_algorithm id_sha256 id_blob identity_from_blob]. rewrite Hbytes.
  set (s1 := set_host_key _ self). assert (base s1) as Hb1 by (by apply base_host_key).
  destruct (negotiated s1) as [n|] eqn:En; cbn [mbind option_bind]; [|by apply handled_fail].
  destruct (host_key_scheme n) as [scheme|] eqn:Esch; [|by apply handled_fail].
  case_bool_decide as Hty; [by apply handled_fail|].
  destruct (ephemeral s1) as [eph|] eqn:Eeph; [|by apply handled_fail].
  set (s2 := set_ephemeral None s1). assert (base s2) as Hb2 by (by apply base_no_ephemeral).
  destruct (agree eph _) as [k|e] eqn:Eag; [|by apply handled_fail].
  destruct (server_ident s2) as [vs|] eqn:Evs; [|done]. cbn [mbind option_bind].
  destruct (b_neg _ Hb2 n En) as (Hstrict & p & Eis & Hag). rewrite Eis. cbn [mbind option_bind].
  destruct (reply_hash s2 (TcpIdentification.line vs) p (KexEcdhReply.host_key_blob reply) eph
    (KexEcdhReply.server_ephemeral reply) k Hb2 (b_vs _ Hb2 _ Evs) (b_is _ Hb2 _ Eis)
    (reply_fields_len _ _ Er) Eag) as (h & ks & Hh & Hks).
  rewrite Hh. cbn [mbind option_bind].
  assert (newkeys_sent s2 = false) as Hns2 by exact Hns.
  destruct (SignatureBlob.decode _) as [sig|e]; cbn [map_err rbind]; last first.
  { apply handled_fail; [|done..]. by apply base_signature_error, base_signature_refused. }
  destruct (HostKey.verify hk scheme h sig (provider s2)) as [[]|e] eqn:Ever; cbn [map_err]; last first.
  { apply handled_fail; [|done..]. by apply base_signature_error, base_signature_refused. }
  rewrite Hks. cbn [mbind option_bind].
  set (id := mkHostIdentity _ _ _). fold (after_reply s2 ks h id).
  assert (verified (after_reply s2 ks h id) ks) as Hver.
  { exists vs, p, n, id, h. split_and!; try done.
    destruct (b_eph _ Hb1 eph Eeph) as [Hpub Hsec].
    exists eph, (KexEcdhReply.server_ephemeral reply), k, scheme, hk, sig. split_and!; done. }
  eexists; split; [done|]. split; [|done]. split.
  - by apply base_phase, base_after_reply.
  - unfold phase_ok. change (phase (set_phase TrustPending (after_reply s2 ks h id))) with TrustPending. cbv iota.
    split_and!; try done. intros Hs. destruct (Hst Hs) as (Hw1 & Hw2 & Hw3). split_and!; [done| |done].
    change (pre_kex_packets (set_phase TrustPending (after_reply s2 ks h id))) with (pre_kex_packets self).
    change (guess_discarded (set_phase TrustPending (after_reply s2 ks h id))) with (guess_discarded self). lia.
Qed.

(** *** The server's NEWKEYS and protected sending *)

Definition with_recv_reset self : t K := if strict_active self then set_recv_seq 0 self else self.

Lemma base_received self :
  base self -> newkeys_sent self = true -> newkeys_received self = false ->
  strict_count self (pre_kex_packets self - 1) 2 ->
  base (with_recv_reset (set_newkeys_received true self)).
Proof.
  intros Hb Hns Hnr Hst. destruct (b_prot _ Hb Hnr) as (Hps & Hpr & Hsa).
  unfold with_recv_reset. change (strict_active (set_newkeys_received true self)) with (strict_active self).
  destruct (strict_active self) eqn:Es.
  - base_by Hb.
    + split; [exact (proj1 (b_aead _ Hb))|done].
    + done.
    + done.
    + done.
    + intros _ _. destruct (Hst Es) as (Hw1 & Hw2 & Hw3). split; [exact Hw1|].
      cbn [pre_kex_packets guess_discarded skipped protected_received recv_seq set_recv_seq set_newkeys_received].
      rewrite Hw3, Hpr. split_and!; [lia|done|done].
  - base_by Hb.
    + split; [exact (proj1 (b_aead _ Hb))|done].
    + done.
    + done.
    + intros _ Hs. change (strict_active self = true) in Hs. congruence.
Qed.

Lemma base_recv_new self ks :
  base self -> newkeys_received self = true -> keys self = Some ks ->
  base (set_recv_aead (Some (AeadDirection.from_parts (key (server_to_client ks)) (iv (server_to_client ks)))) self).
Proof.
  intros Hb Hs Hk. apply base_recv_aead; [done|done|]. intros ks' _ (Hk' & _). rewrite <- (Hk' ks Hk). apply dir_from_new.
Qed.

Lemma received_valid self :
  base self -> newkeys_received self = true -> signature_valid self = Some true.
Proof. intros Hb Hn. apply (b_sent _ Hb), (b_recv _ Hb), Hn. Qed.

Lemma base_sent_protected self a p o m s :
  base self -> newkeys_received self = true -> is_u32 s -> send_aead self <> None ->
  (send_seq self = protected_sent self -> s = m) -> 0 <= m <= 2 ->
  (forall d a0, send_aead self = Some a0 -> dir_from d a0 /\ AeadDirection.packets a0 = protected_sent self ->
     dir_from d a /\ AeadDirection.packets a = m) ->
  base (set_send_seq s (set_protected_sent m (set_out o (set_padding p (set_send_aead (Some a) self))))).
Proof.
  intros Hb Hnr Hs Hsa Hm Hm2 Hd. pose proof (received_valid _ Hb Hnr) as Hsv. base_by Hb.
  - intros _. destruct (b_auth _ Hb Hsv) as (ks & Hv & H1' & H2' & H3'). exists ks. split; [exact Hv|].
    split_and!; [exact H1'| |exact H3']. intros a' [= <-].
    destruct (send_aead self) as [a0|] eqn:Ea; [|done]. exact (Hd _ a0 eq_refl (H2' a0 eq_refl)).
  - split; [|exact (proj2 (b_aead _ Hb))]. intros Hf. change (newkeys_sent self = false) in Hf.
    rewrite (b_recv _ Hb Hnr) in Hf. done.
  - intros Hf. change (newkeys_received self = false) in Hf. congruence.
  - done.
  - done.
  - intros Hns Hstr. exact (Hm (b_strict_sent _ Hb Hns Hstr)).
Qed.

Lemma service_request_encodes sv :
  zlen sv <= U32_MAX ->
  exists b n, ServiceRequest.encode (ServiceRequest.mk sv) (replicate (Z.to_nat (1 + 4 + zlen sv)) x00) = (b, Ok n).
Proof.
  intros Hl. pose proof (zlen_nonneg sv).
  pose proof (codec_encode_ok (ServiceRequest.mk sv) (replicate (Z.to_nat (1 + 4 + zlen sv)) x00)) as Hk.
  cbn [codec_encode codec_wf codec_image service_request_codec] in Hk. rewrite Hk; [eauto|done|].
  unfold ServiceRequest.image. cbn [ServiceRequest.service_name].
  rewrite zlen_replicate_Z by lia. rewrite zlen_app, zlen_sshstr. change (zlen [byte_of_Z _]) with 1. lia.
Qed.

Lemma on_server_newkeys_handled self payload :
  base self -> phase self = ServerNewKeys -> phase_ok (pre_kex_packets self - 1) self ->
  handled self (on_server_newkeys self payload).
Proof.
  intros Hb Hph Hp. unfold phase_ok in Hp. rewrite Hph in Hp.
  destruct Hp as ((Hpo & Ho & Hnr) & Hns & Hk & Hsa & Hst & Heph).
  destruct (b_prot _ Hb Hnr) as (Hps & _ & _).
  unfold on_server_newkeys. destruct (NewKeys.decode payload) as [nk|e]; [|by apply handled_fail].
  change (keys (set_newkeys_received true self)) with (keys self).
  destruct (keys self) as [ks|] eqn:Ek; [|done]. cbn [mbind option_bind].
  set (s1 := set_recv_aead _ (set_keys None (set_newkeys_received true self))).
  set (s2 := set_ext_info _ _).
  assert (base s2) as Hb2.
  { apply base_ext_info, base_phase. change (strict_active s1) with (strict_active self).
    pose proof (base_received self Hb Hns Hnr Hst) as Hr. unfold with_recv_reset in Hr.
    change (strict_active (set_newkeys_received true self)) with (strict_active self) in Hr.
    destruct (strict_active self).
    - pose proof (base_no_keys _ (base_recv_new _ ks Hr eq_refl Ek)) as Hr2. base_by Hr2.
    - exact (base_no_keys _ (base_recv_new _ ks Hr eq_refl Ek)). }
  assert (same_setup self s2 /\ buf s2 = buf self /\ newkeys_received s2 = true /\ phase s2 = Service /\
    outcome s2 = None /\ pending_outcome s2 = None /\ recv_aead s2 <> None /\ send_aead s2 <> None /\
    protected_sent s2 = 0 /\ keys s2 = None /\ ephemeral s2 = None)
    as (Hset & Hbuf & Hnr2 & Hph2 & Ho2 & Hpo2 & Hra2 & Hsa2 & Hps2 & Hk2 & He2).
  { unfold s2. change (strict_active s1) with (strict_active self).
    destruct (strict_active self); split_and!; done. }
  clearbody s2.
  destruct (service_request_encodes (HandshakeConfig.service (config s2))) as (b & m & ->); [apply (b_cfg _ Hb2)|].
  destruct (send_protected_spec s2 (ztake m b) (b_sseq _ Hb2) (b_rseq _ Hb2) Hsa2 ltac:(lia))
    as (a & p & o & pm & sq & r & -> & Hsq & Hr & Hrm & Hsm & Hpm & Hdir). cbn [mbind option_bind].
  pose proof (base_sent_protected s2 a p o pm sq Hb2 Hnr2 Hsq Hsa2 Hsm ltac:(lia) Hdir) as Hb3.
  destruct r as [[]|oc]; [|apply handled_fail; [done|by etrans|by etrans|congruence]].
  eexists; split; [done|]. split; [split; [exact Hb3|]|split; [by etrans|by etrans]].
  unfold phase_ok. cbn [phase set_send_seq set_protected_sent set_out set_padding set_send_aead]. rewrite Hph2.
  split_and!; try done. intros _.
  cbn [protected_sent set_send_seq set_protected_sent set_out set_padding set_send_aead]. rewrite (Hrm eq_refl). lia.
Qed.

(** *** Dispatch before the new keys *)

Lemma base_skipped self m :
  base self -> newkeys_received self = false \/ zlen (skipped self) < protected_received self ->
  base (set_skipped (skipped self ++ [m]) self).
Proof.
  intros Hb Hs. base_by Hb. intros Hnr Hst. destruct (b_strict_recv _ Hb Hnr Hst) as (Hf & Hc & _ & Hq).
  split_and!; [exact Hf|exact Hc| |exact Hq].
  cbn [skipped protected_received set_skipped]. rewrite zlen_app. change (zlen [m]) with 1.
  change (newkeys_received self = true) in Hnr. destruct Hs; [congruence|lia].
Qed.

Lemma base_guess self : base self -> newkeys_received self = false -> base (set_guess_discarded true self).
Proof. intros Hb Hn. base_by Hb. intros Hnr. change (newkeys_received self = true) in Hnr. congruence. Qed.

Lemma handle_kex_message_handled self number payload :
  base self -> phase self = EcdhReply \/ phase self = ServerNewKeys ->
  phase_ok (pre_kex_packets self - 1) self ->
  handled self (handle_kex_message features self number payload).
Proof.
  intros Hb Hph Hp. unfold handle_kex_message.
  assert (newkeys_received self = false) as Hnr.
  { unfold phase_ok in Hp. destruct Hph as [E|E]; rewrite E in Hp; apply Hp. }
  destruct (_ && _ && _ && negb _) eqn:Eg.
  { apply andb_prop in Eg as [[[_ Ea%bool_decide_eq_true]%andb_prop _]%andb_prop Eg%negb_true_iff].
    eexists; split; [done|]. split; [|done]. split; [by apply base_guess|].
    unfold phase_ok in Hp |- *. change (phase (set_guess_discarded true self)) with (phase self). rewrite Ea in Hp |- *.
    destruct Hp as (He & Hns & Hsv & Hn & Hsi & Hst). split_and!; try done; try apply He.
    intros Hs. destruct (Hst Hs) as (Hw1 & Hw2 & Hw3). split_and!; [done| |done].
    rewrite Eg in Hw2. change (pre_kex_packets self = 1 + 1). cbn in Hw2. lia. }
  clear Eg. destruct (_ && _) eqn:Er.
  { apply andb_prop in Er as [_ Ea%bool_decide_eq_true]. by apply on_ecdh_reply_handled. }
  destruct (_ && negb _) eqn:En.
  { apply andb_prop in En as [_ Ea%negb_true_iff%bool_decide_eq_false].
    destruct Hph; [done|]. by apply on_server_newkeys_handled. }
  clear Er En. do 4 (destruct (_ && strict_active self); [by apply violation_handled|]).
  destruct (_ && strict_active self) eqn:Es; [by apply violation_handled|].
  destruct (_ || _ || _) eqn:Esk; [|destruct (_ =? Msg.DISCONNECT); [by apply on_disconnect_handled|by apply unexpected_handled]].
  apply skip_handled; [lia|done|]. intros m. split; [apply base_skipped; auto|].
  unfold phase_ok in Hp |- *. change (phase (set_skipped (skipped self ++ [m]) self)) with (phase self).
  destruct Hph as [E|E]; rewrite E in Hp |- *; destruct_and? Hp; split_and!; try done;
    intros Hs; change (strict_active self = true) in Hs; cbn [andb] in Es; congruence.
Qed.

(** *** Unprotected packets *)

Lemma handle_unprotected_handled self payload :
  base self -> phase self = ServerKexInit \/ phase self = EcdhReply \/ phase self = ServerNewKeys ->
  phase_ok (pre_kex_packets self - 1) self -> zlen payload <= U32_MAX ->
  handled self (handle_unprotected features self payload).
Proof.
  intros Hb Hph Hp Hl. unfold handle_unprotected. destruct payload as [|b l]; [by apply handled_fail|].
  destruct Hph as [E|Hph].
  2: { destruct Hph as [E|E]; rewrite E; apply handle_kex_message_handled; auto. }
  rewrite E. destruct (_ =? Msg.KEXINIT); [by apply on_server_kexinit_handled|].
  destruct (_ || _ || _) eqn:Esk;
    [|destruct (_ =? Msg.DISCONNECT); [by apply on_disconnect_handled|by apply unexpected_handled]].
  unfold phase_ok in Hp. rewrite E in Hp. destruct Hp as (He & Hns & Hsv & Hn & Hst & Hgd & Hsi & Hsk).
  apply skip_handled; [lia|done|]. intros m. split; [apply base_skipped; [done|left; apply He]|].
  unfold phase_ok. change (phase (set_skipped (skipped self ++ [m]) self)) with (phase self). rewrite E.
  split_and!; try done; try apply He. cbn [skipped set_skipped pre_kex_packets]. rewrite zlen_app, Hsk.
  change (zlen [m]) with 1. lia.
Qed.

Lemma base_buffer self b :
  base self -> InputBuffer.inv b -> InputBuffer.capacity b = InputBuffer.capacity (buf self) ->
  base (set_buf b self).
Proof. intros Hb Hi Hc. base_by Hb; [exact Hi|]. etrans; [exact Hc|]. apply (b_cap _ Hb). Qed.

(** What counting an unprotected packet changes. *)
Definition counted self (n m : Z) (b : InputBuffer.t) : t K :=
  set_buf b (set_pre_kex_bytes m (set_pre_kex_packets n self)).

Lemma base_counted self n m b :
  base self -> newkeys_received self = false ->
  0 <= n <= HandshakeConfig.max_pre_kex_packets (config self) ->
  m <= HandshakeConfig.max_pre_kex_bytes (config self) ->
  InputBuffer.inv b -> InputBuffer.capacity b = InputBuffer.capacity (buf self) ->
  base (counted self n m b).
Proof.
  intros Hb Hnr Hn Hm Hi Hc. apply base_buffer; [|done|done]. apply base_pre_kex_bytes; [|done].
  base_by Hb; [exact Hn|]. intros Hf. change (newkeys_received self = true) in Hf. congruence.
Qed.

Lemma base_recv_seq self n :
  base self -> newkeys_received self = false -> is_u32 n -> base (set_recv_seq n self).
Proof.
  intros Hb Hnr Hn. base_by Hb; [exact Hn|]. intros Hf. change (newkeys_received self = true) in Hf. congruence.
Qed.

(** The states a round leads to: [live] counts the round that ends the handshake. *)
Definition live self : Z := match outcome self with None => 1 | Some _ => 0 end.

Definition stepped self (r : option (t K * Flow)) : Prop :=
  exists self' f, r = Some (self', f) /\ inv self' /\ same_setup self self' /\
    match f with
    | FlowContinue => pending_bytes self' + live self' <= pending_bytes self
    | FlowNeedMore => pending_bytes self' = pending_bytes self /\ 0 < room self' /\
        outcome self' = outcome self /\ phase self' = phase self /\ out self' = out self
    end.

Lemma live_range self : 0 <= live self <= 1.
Proof. unfold live. destruct (outcome self); lia. Qed.

Lemma stepped_fail self self1 o :
  base self1 -> same_setup self self1 -> pending_bytes self1 <= pending_bytes self -> o <> Completed ->
  stepped self (Some (fail self1 o)).
Proof.
  intros Hb Hs Hbuf Ho. eexists _, _; split; [done|]. split; [by apply finish_inv|]. split; [done|].
  change (pending_bytes (finish self1 o)) with (pending_bytes self1). change (live (finish self1 o)) with 0. lia.
Qed.

Lemma stepped_handled self self1 r :
  handled self1 r -> same_setup self self1 -> pending_bytes self1 < pending_bytes self -> stepped self r.
Proof.
  intros (self' & -> & Hi & Hs & Hbuf) Hss Hp. eexists _, _; split; [done|]. split; [done|].
  split; [by etrans|]. pose proof (live_range self'). unfold pending_bytes, InputBuffer.len in *. rewrite Hbuf. lia.
Qed.

Lemma phase_ok_counted c self n m b s :
  phase_ok c self -> phase_ok c (set_recv_seq s (counted self n m b)).
Proof.
  unfold phase_ok, strict_count. change (phase (set_recv_seq s (counted self n m b))) with (phase self).
  destruct (phase self); intros Hp; exact Hp.
Qed.

Lemma capacity_bounds self :
  base self ->
  let i := HandshakeConfig.ident (config self) in
  max_packet_length (HandshakeConfig.packet (config self)) + 24 <= InputBuffer.capacity (buf self) /\
  Z.max (max_prelude_line i) (max_identification_line i) < InputBuffer.capacity (buf self) /\
  InputBuffer.capacity (buf self) <= U32_MAX.
Proof.
  intros Hb i. destruct (b_cfg _ Hb) as (H1' & H2' & H3' & H4' & H5' & H6' & H7' & _ & H8' & H9' & H10' & _).
  rewrite (b_cap _ Hb). fold i in H1', H2', H3', H4', H5'. split_and!; [| |exact H10'];
    unfold HandshakeConfig.buffer_capacity, HEADER_LEN, LENGTH_LEN, TAG_LEN; fold i; lia.
Qed.

Lemma waiting_room self n :
  base self -> pending_bytes self < n -> n <= InputBuffer.capacity (buf self) -> 0 < room self.
Proof. unfold pending_bytes, InputBuffer.len, room, InputBuffer.room. lia. Qed.

Lemma step_unprotected_stepped self :
  inv self -> phase self = ServerKexInit \/ phase self = EcdhReply \/ phase self = ServerNewKeys ->
  stepped self (step_unprotected features self).
Proof.
  intros [Hb Hp] Hph. pose proof (capacity_bounds self Hb) as (Hc1 & Hc2 & Hc3).
  assert (newkeys_received self = false) as Hnr.
  { unfold phase_ok in Hp. destruct Hph as [E|[E|E]]; rewrite E in Hp; apply Hp. }
  unfold step_unprotected. destruct (decode_initial_packet _ _) as [[t|p]|e] eqn:Ed; [| |by apply stepped_fail].
  - eexists self, _; split; [done|]. split; [by split|]. split; [done|]. split_and!; try done.
    apply decode_packet_need_more in Ed as [[Ht _]|(l & _ & Ht & _ & Hl & _)].
    + by apply (waiting_room self 4); [done|done|]; destruct (b_cfg _ Hb) as (_&_&_&_&_&?&_); lia.
    + apply (waiting_room self l); [done|done|lia].
  - apply decode_packet_complete in Ed as (Hwf & rest & Hbuf). pose proof (zlen_packet_image _ _ Hwf) as Hlen.
    unfold InputBuffer.as_slice in Hbuf.
    destruct (Z.leb_spec (HandshakeConfig.max_pre_kex_packets (config self)) (pre_kex_packets self)); [by apply stepped_fail|].
    destruct (Z.ltb_spec (HandshakeConfig.max_pre_kex_bytes (config self))
      (saturating_add_usize (pre_kex_bytes self) (total_len p))); [by apply stepped_fail|].
    pose proof (b_pc _ Hb). destruct (b_cfg _ Hb) as (_&_&_&_&_&_&Hmp&_).
    unfold checked_add_usize. destruct (Z.leb_spec (pre_kex_packets self + 1) USIZE_MAX); [|lia]. cbn [mbind option_bind].
    cbn [buf set_pre_kex_bytes set_pre_kex_packets].
    assert (MIN_TOTAL_LEN <= total_len p) as Hmin by apply Hwf. unfold MIN_TOTAL_LEN in Hmin.
    assert (pending_bytes self = total_len p + zlen rest) as Hpend by (unfold pending_bytes, InputBuffer.len; by rewrite Hbuf, zlen_app, Hlen).
    pose proof (zlen_nonneg rest).
    destruct (consume_ok (buf self) (total_len p)) as (b & -> & Hbi & Hbe); [unfold pending_bytes, InputBuffer.len in Hpend; lia|apply (b_buf _ Hb)|].
    cbn [mbind option_bind]. match goal with |- context [set_pre_kex_bytes ?m _] => set (nb := m) end.
    fold (counted self (pre_kex_packets self + 1) nb b). set (s1 := counted _ _ _ _).
    assert (base s1) as Hb1.
    { apply base_counted; [done|done|lia|done|done|by rewrite Hbe]. }
    assert (pending_bytes s1 < pending_bytes self) as Hlt.
    { change (pending_bytes s1) with (zlen (InputBuffer.buf b)). rewrite Hbe. cbn [InputBuffer.buf].
      rewrite Hbuf, zdrop_app_exact by done. lia. }
    destruct (bump_spec s1 false (b_sseq _ Hb1) (b_rseq _ Hb1)) as (x & [[-> _]|(s & -> & Hs & _)] & _).
    { apply stepped_fail; [done|done|lia|done]. }
    apply (stepped_handled self (set_recv_seq s s1)); [|done|done].
    apply handle_unprotected_handled.
    + by apply base_recv_seq.
    + exact Hph.
    + apply phase_ok_counted. change (pre_kex_packets (set_recv_seq s s1)) with (pre_kex_packets self + 1).
      by replace (pre_kex_packets self + 1 - 1) with (pre_kex_packets self) by lia.
    + assert (zlen (payload p) <= zlen (packet_image p)); [|unfold pending_bytes, InputBuffer.len in *; pose proof (b_buf _ Hb) as Hi; unfold InputBuffer.inv in Hi; rewrite Hlen in *; lia].
      rewrite Hlen. destruct Hwf as (-> & _). unfold HEADER_LEN. pose proof (zlen_nonneg (Packet.padding p)). lia.
Qed.

(** *** The server's identification *)

Lemma base_reader self r :
  base self -> reader_ok r ->
  IdentificationReader.limits r = IdentificationReader.limits (ident_reader self) ->
  base (set_ident_reader r self).
Proof. intros Hb Hr Hl. base_by Hb; [exact Hr|]. etrans; [exact Hl|]. apply (b_lim _ Hb). Qed.

Lemma base_server_ident self i :
  base self -> signature_valid self = None -> zlen (TcpIdentification.line i) <= U32_MAX ->
  base (set_server_ident (Some i) self).
Proof.
  intros Hb Hs Hl. base_by Hb.
  - by intros ? [= <-].
  - intros Hf. change (signature_valid self = Some true) in Hf. congruence.
Qed.

Lemma step_identification_stepped self :
  inv self -> phase self = ServerIdentification -> stepped self (step_identification self).
Proof.
  intros [Hb Hp] Hph. pose proof (capacity_bounds self Hb) as (_ & Hc2 & Hc3).
  unfold phase_ok in Hp. rewrite Hph in Hp. destruct Hp as (He & Hns & Hsv & Hn & Hst & Hgd & Hc & Hsk).
  unfold step_identification, InputBuffer.as_slice.
  destruct (IdentificationReader.feed _ _) as [r res] eqn:Ef.
  destruct (feed_counters _ _ _ _ (b_rd _ Hb) Ef) as (Hr & Hlim & Hres).
  set (s1 := set_ident_reader r self). assert (base s1) as Hb1 by (by apply base_reader).
  pose proof (b_buf _ Hb) as Hi. unfold InputBuffer.inv in Hi. fold (pending_bytes self) in Hi.
  destruct res as [[|line t n|i n]|e]; [| | |by apply stepped_fail].
  - apply feed_need_more in Ef as (_ & _ & Hl). rewrite (b_lim _ Hb) in Hl. cbv zeta in Hc2.
    eexists s1, _; split; [done|]. split; [split; [done|]|split_and!; try done].
    + unfold phase_ok. change (phase s1) with (phase self). rewrite Hph. done.
    + eapply (waiting_room self); [done|exact Hl|lia].
  - destruct Hres as (_ & Hn1 & _).
    destruct (consume_ok (buf self) n) as (b & Eb & Hbi & Hbe); [lia|apply (b_buf _ Hb)|].
    cbn [buf set_prelude set_ident_reader s1]. rewrite Eb. cbn [mbind option_bind].
    eexists _, _; split; [done|]. split; [split|split; [done|]].
    + apply base_buffer; [by apply base_prelude|done|by rewrite Hbe].
    + unfold phase_ok. cbn [phase set_buf set_prelude set_ident_reader s1]. rewrite Hph. done.
    + unfold pending_bytes, InputBuffer.len, live. cbn [buf set_buf outcome set_prelude set_ident_reader s1].
      rewrite (proj1 (proj2 He)), Hbe. cbn [InputBuffer.buf]. rewrite zlen_zdrop by lia. lia.
  - destruct Hres as (Hline & Hn1 & _).
    destruct (consume_ok (buf self) n) as (b & Eb & Hbi & Hbe); [lia|apply (b_buf _ Hb)|].
    cbn [buf set_server_ident set_ident_reader s1]. rewrite Eb. cbn [mbind option_bind].
    eexists _, _; split; [done|]. split; [split|split; [done|]].
    + apply base_phase, base_buffer; [|done|by rewrite Hbe]. apply base_server_ident; [done|done|].
      rewrite Hline. etrans; [apply zlen_ztake_le|]. fold (pending_bytes self). lia.
    + unfold phase_ok. cbn [phase set_phase].
      split_and!; try done; try apply He.
      change (zlen (skipped self) = pre_kex_packets self). by rewrite Hsk, Hc.
    + unfold pending_bytes, InputBuffer.len, live. cbn [buf set_buf outcome set_phase set_server_ident set_ident_reader s1].
      rewrite (proj1 (proj2 He)), Hbe. cbn [InputBuffer.buf]. rewrite zlen_zdrop by lia. lia.
Qed.

(** *** Protected packets *)

Lemma base_protected_received self m s :
  base self -> newkeys_received self = true -> 0 <= protected_received self < m ->
  m <= HandshakeConfig.max_protected_packets (config self) -> is_u32 s ->
  (recv_seq self = protected_received self -> s = m) ->
  base (set_recv_seq s (set_protected_received m self)).
Proof.
  intros Hb Hnr Hm Hmax Hs He. base_by Hb.
  - intros Hf. change (newkeys_received self = false) in Hf. congruence.
  - change (0 <= m <= HandshakeConfig.max_protected_packets (config self)). lia.
  - exact Hs.
  - intros Hr Hst. destruct (b_strict_recv _ Hb Hr Hst) as (Hf & Hc & Hk & Hq).
    split_and!; [exact Hf|exact Hc| |exact (He Hq)].
    change (zlen (skipped self) <= m). lia.
Qed.

Lemma base_service self s :
  base self -> newkeys_received self = true -> s = HandshakeConfig.service (config self) ->
  base (set_service_accepted (Some s) self).
Proof.
  intros Hb Hnr Hs. base_by Hb.
  - intros Hf. change (newkeys_received self = false) in Hf. congruence.
  - intros s' [= <-]. exact Hs.
  - by intros _.
Qed.

Lemma disconnect_encodes r d :
  is_u32 r -> zlen d <= U32_MAX - 13 ->
  exists b n, Disconnect.encode (Disconnect.mk r d []) (replicate (Z.to_nat (1 + 4 + 4 + zlen d + 4)) x00) = (b, Ok n).
Proof.
  intros Hr Hl. pose proof (zlen_nonneg d).
  pose proof (codec_encode_ok (Disconnect.mk r d []) (replicate (Z.to_nat (1 + 4 + 4 + zlen d + 4)) x00)) as Hk.
  cbn [codec_encode codec_wf codec_image disconnect_codec] in Hk. rewrite Hk; [eauto| |].
  - unfold Disconnect.wf. cbn [Disconnect.reason_code Disconnect.description Disconnect.language_tag].
    split_and!; [done|lia|done].
  - unfold Disconnect.image. cbn [Disconnect.reason_code Disconnect.description Disconnect.language_tag].
    rewrite zlen_replicate_Z by lia. rewrite !zlen_app, !zlen_sshstr, zlen_be_bytes.
    change (zlen [byte_of_Z _]) with 1. change (zlen (@nil byte)) with 0. lia.
Qed.

Definition serving self : Prop :=
  phase self = Service /\ outcome self = None /\ pending_outcome self = None /\
  newkeys_received self = true /\ send_aead self <> None /\ recv_aead self <> None /\ protected_sent self = 1 /\
  keys self = None /\ ephemeral self = None.

Lemma serving_phase_ok c self : serving self -> phase_ok c self.
Proof. intros (Hp & Ho & _ & Hn & Hs & Hr & Hm & Hk & He). unfold phase_ok. rewrite Hp. done. Qed.

(** Sending the last message and keeping its outcome for when it is written. *)
Lemma disconnect_handled self self1 d o :
  base self1 -> serving self1 -> same_setup self self1 -> buf self1 = buf self -> zlen d <= U32_MAX - 13 ->
  (o = Completed -> service_accepted self1 <> None) ->
  handled self (let* (s, res) := send_disconnect self1 d in
                match res with
                | Err o' => Some (fail s o')
                | Ok _ => Some (set_pending_outcome (Some o) s, FlowContinue)
                end).
Proof.
  intros Hb (Hph & Ho & Hpo & Hnr & Hsa & Hra & Hm & Hk & He) Hset Hbuf Hd Hoc. unfold send_disconnect.
  destruct (disconnect_encodes disconnect_reason.BY_APPLICATION d) as (b & n & ->); [done|done|].
  destruct (send_protected_spec self1 (ztake n b) (b_sseq _ Hb) (b_rseq _ Hb) Hsa ltac:(lia))
    as (a & p & ou & pm & sq & r & -> & Hsq & Hr & Hrm & Hsm & Hpm & Hdir). cbn [mbind option_bind].
  pose proof (base_sent_protected self1 a p ou pm sq Hb Hnr Hsq Hsa Hsm ltac:(lia) Hdir) as Hb3.
  set (s3 := set_send_seq sq _) in *.
  destruct r as [[]|oc]; [|apply handled_fail; [done|by etrans|by etrans|congruence]].
  eexists; split; [done|]. split; [split|split; [by etrans|by etrans]].
  - apply base_pending; [|done]. intros [= E]. exact (Hoc E).
  - unfold phase_ok. change (phase (set_pending_outcome (Some o) s3)) with (phase self1). rewrite Hph.
    split_and!; try done.
Qed.

Lemma on_ext_info_handled self payload :
  base self -> serving self -> handled self (Some (on_ext_info self payload)).
Proof.
  intros Hb Hs.
  assert (forall v, handled self (Some (set_ext_info v self, FlowContinue))) as Hrec.
  { intros v. eexists; split; [done|]. split; [split; [by apply base_ext_info|]|done].
    apply serving_phase_ok. exact Hs. }
  unfold on_ext_info. destruct (ExtInfo.decode payload) as [ext|e]; [|by apply handled_fail].
  destruct (ExtInfo.validate _ _) as [x|e]; [|by apply handled_fail]. cbv zeta.
  destruct (ExtInfo.server_sig_algs ext) as [[l|e]|]; [apply Hrec|by apply handled_fail|apply Hrec].
Qed.

Lemma on_service_accept_handled self payload :
  base self -> serving self -> handled self (on_service_accept self payload).
Proof.
  intros Hb Hs. unfold on_service_accept.
  destruct (ServiceAccept.decode payload) as [a|e]; [|by apply handled_fail]. cbv zeta.
  destruct (bytes_eqb _ _) eqn:Eq; cbn [negb]; [|by apply handled_fail]. apply bytes_eqb_eq in Eq.
  apply disconnect_handled; try done. apply base_service; [done| |done]. apply Hs.
Qed.

Lemma handle_protected_handled self payload :
  base self -> serving self -> (strict_active self = true -> zlen (skipped self) < protected_received self) ->
  handled self (handle_protected self payload).
Proof.
  intros Hb Hs Hk. unfold handle_protected. destruct payload as [|b l]; [by apply handled_fail|]. cbv zeta.
  destruct (_ && _); [by apply on_ext_info_handled|].
  destruct (_ || _) eqn:Esk.
  { apply skip_handled; [lia|done|]. intros m. split; [|by apply serving_phase_ok].
    base_by Hb. intros Hnr Hst. destruct (b_strict_recv _ Hb Hnr Hst) as (Hf & Hc & _ & Hq).
    split_and!; [exact Hf|exact Hc| |exact Hq].
    cbn [skipped protected_received set_skipped]. rewrite zlen_app. change (zlen [m]) with 1.
    specialize (Hk Hst). lia. }
  destruct (_ =? Msg.SERVICE_ACCEPT); [by apply on_service_accept_handled|].
  destruct (_ =? Msg.DISCONNECT); [by apply on_disconnect_handled|].
  destruct (_ =? Msg.KEXINIT); [by apply disconnect_handled|by apply unexpected_handled].
Qed.

Lemma open_buffer (a a' : AeadDirection.t K) (bf bf' : bytes) lim res :
  AeadDirection.open a bf lim = (a', bf', res) ->
  zlen bf' = zlen bf /\
  match res with
  | Ok (OpenNeedMore None) => zlen bf < 4
  | Ok (OpenNeedMore (Some n)) => zlen bf < n /\ n <= max_packet_length lim + 20
  | Ok (OpenPacket p) => 20 <= prot_total_len p <= zlen bf
  | _ => True
  end.
Proof.
  intros E. pose proof (open_spec a bf lim) as Hs. rewrite E in Hs. unfold LENGTH_LEN, TAG_LEN in Hs.
  destruct res as [[[n|]|p]|[]]; destruct_and? Hs; subst; try (split; [done|lia]); try done.
  destruct Hs as (L & body & tag & rest & plain & n & -> & -> & HLen & _ & Ht & Hpl & _ & _ & _ & _ & Htot & _).
  rewrite !zlen_app, Htot, HLen, Ht, Hpl. pose proof (zlen_nonneg body). pose proof (zlen_nonneg rest). lia.
Qed.

Lemma step_protected_stepped self :
  inv self -> phase self = Service -> pending_outcome self = None -> stepped self (step_protected self).
Proof.
  intros [Hb Hp] Hph Hpo. pose proof (capacity_bounds self Hb) as (Hc1 & Hc2 & Hc3).
  unfold phase_ok in Hp. rewrite Hph in Hp. destruct Hp as (Ho & Hnr & Hsa & Hra & Hm & Hk0 & He0). specialize (Hm Hpo).
  unfold step_protected. destruct (recv_aead self) as [a|] eqn:Ea; [|done]. cbn [mbind option_bind].
  destruct (AeadDirection.open a _ _) as [[a' bf'] res] eqn:Eo.
  pose proof (open_state _ _ _ _ _ _ Eo) as Hst. apply open_buffer in Eo as [Hlen Hres].
  change (InputBuffer.capacity (buf (set_recv_aead (Some a') self))) with (InputBuffer.capacity (buf self)).
  set (b1 := InputBuffer.mk bf' _). set (s1 := set_buf b1 _).
  pose proof (b_buf _ Hb) as Hi. unfold InputBuffer.inv in Hi.
  assert (InputBuffer.inv b1) as Hi1.
  { unfold InputBuffer.inv. change (zlen bf' <= InputBuffer.capacity (buf self)). lia. }
  assert (base s1) as Hb1.
  { apply base_buffer; [|exact Hi1|done]. apply base_recv_aead; [done|done|].
    intros ks _ (_ & _ & Hr). destruct Hst as [->|[-> _]]; [|apply dir_from_advance]; by apply Hr. }
  assert (pending_bytes s1 = pending_bytes self) as Hpend by exact Hlen.
  assert (serving s1) as Hs1 by done.
  destruct res as [[t|p]|e].
  - eexists s1, _; split; [done|]. split; [split; [done|by apply serving_phase_ok]|]. split_and!; try done.
    destruct (b_cfg _ Hb) as (_&_&_&_&_&Hpl&_).
    destruct t as [n|]; [destruct Hres|]; (eapply (waiting_room s1);
      [done|rewrite Hpend; eassumption|change (InputBuffer.capacity (buf s1)) with (InputBuffer.capacity (buf self)); lia]).
  - destruct (consume_ok b1 (prot_total_len p)) as (b & Eb & Hbi & Hbe);
      [change (InputBuffer.buf b1) with bf'; lia|done|].
    change (buf s1) with b1. rewrite Eb. cbn [mbind option_bind]. set (s2 := set_buf b s1).
    assert (base s2) as Hb2 by (apply base_buffer; [done|done|by rewrite Hbe]).
    assert (pending_bytes s2 < pending_bytes self) as Hlt.
    { change (pending_bytes s2) with (zlen (InputBuffer.buf b)). rewrite Hbe. cbn [InputBuffer.buf].
      change (InputBuffer.buf b1) with bf'. rewrite zlen_zdrop by lia. unfold pending_bytes, InputBuffer.len. lia. }
    change (protected_received s2) with (protected_received self).
    destruct (Z.leb_spec (HandshakeConfig.max_protected_packets (config self)) (protected_received self));
      [apply stepped_fail; [done|done|lia|done]|].
    pose proof (b_pr _ Hb). destruct (b_cfg _ Hb) as (_&_&_&_&_&_&_&_&Hmp&_).
    unfold checked_add_u32 at 1. destruct (Z.leb_spec (protected_received self + 1) U32_MAX); [|lia]. cbn [mbind option_bind].
    set (m := protected_received self + 1). set (s3 := set_protected_received m s2).
    assert (forall s, is_u32 s -> (recv_seq self = protected_received self -> s = m) -> base (set_recv_seq s s3)) as Hb3.
    { intros s Hs He. apply base_protected_received; [done|done| | |done|exact He].
      - change (protected_received s2) with (protected_received self). lia.
      - change (config s2) with (config self). lia. }
    destruct (bump_spec s3 false (b_sseq _ Hb) (b_rseq _ Hb)) as (x & [(-> & _ & Hd)|(s & -> & Hs & Hsx)] & Hx).
    + unfold initial_kex_done in Hd. change (newkeys_sent self && newkeys_received self = false) in Hd.
      by rewrite (b_recv _ Hb Hnr), Hnr in Hd.
    + change (recv_seq s3) with (recv_seq self) in Hx. apply (stepped_handled self (set_recv_seq s s3)); [|done|done].
      assert (recv_seq self = protected_received self -> s = m) as He.
      { intros Hq. unfold m. rewrite <- Hq, <- Hx. apply Hsx. lia. }
      apply handle_protected_handled; [by apply Hb3|done|].
      intros Hact. destruct (b_strict_recv _ Hb Hnr Hact) as (_ & _ & Hk & _).
      change (zlen (skipped self) < m). lia.
  - destruct e; (apply stepped_fail; [done|done|lia|done]).
Qed.

(** ** The loop *)

(** What [step] answers, and the state it leaves. *)
Definition answered self (s : Step) : Prop :=
  match s with
  | Finished o => outcome self = Some o
  | Send => outcome self = None /\ out self <> []
  | TrustDecisionRequired id =>
      outcome self = None /\ out self = [] /\ phase self = TrustPending /\ identity self = Some id
  | NeedMore =>
      outcome self = None /\ out self = [] /\ 0 < room self /\ phase self <> TrustPending /\ phase self <> PhFinished
  end.

Lemma stepped_round self r :
  outcome self = None -> out self = [] -> phase self <> TrustPending -> phase self <> PhFinished ->
  stepped self r ->
  exists self' st,
    (let* (self, f) := r in
     Some (self, match f with FlowContinue => None | FlowNeedMore => Some NeedMore end)) = Some (self', st) /\
    inv self' /\ same_setup self self' /\
    match st with
    | None => pending_bytes self' + live self' < pending_bytes self + live self
    | Some s => answered self' s
    end.
Proof.
  intros Ho Hout Hp1 Hp2 (self' & f & -> & Hi & Hs & Hf). cbn [mbind option_bind].
  assert (live self = 1) as Hl by (unfold live; by rewrite Ho).
  destruct f; [exists self', None; split_and!; try done; lia|exists self', (Some NeedMore); split_and!; try done].
  destruct Hf as (_ & Hr & Ho' & Hph & Hout').
  unfold answered. by rewrite Ho', Hph, Hout'.
Qed.

Lemma round_spec self :
  inv self ->
  exists self' st, round features self = Some (self', st) /\ inv self' /\ same_setup self self' /\
    match st with
    | None => pending_bytes self' + live self' < pending_bytes self + live self
    | Some s => answered self' s
    end.
Proof.
  intros [Hb Hp]. unfold round. destruct (outcome self) as [o|] eqn:Eo.
  { eexists _, _; split_and!; try done. }
  destruct (Z.eqb_spec (zlen (out self)) 0) as [Ez|Ez]; cbn [negb]; last first.
  { exists self, (Some Send). split_and!; try done. split; [done|]. intros E. by rewrite E in Ez. }
  apply zlen_0 in Ez. destruct (pending_outcome self) as [o|] eqn:Epo.
  { eexists _, _; split; [done|]. split; [|split].
    - apply finish_inv; [by apply base_pending|]. intros ->. change (service_accepted self <> None).
      apply (b_out _ Hb). auto.
    - done.
    - change (pending_bytes (finish (set_pending_outcome None self) o)) with (pending_bytes self).
      change (live (finish (set_pending_outcome None self) o)) with 0. unfold live. rewrite Eo. lia. }
  destruct (phase self) eqn:Eph; try (apply stepped_round; [done|done|by rewrite Eph|by rewrite Eph|]).
  - by apply step_identification_stepped.
  - apply step_unprotected_stepped; [done|auto].
  - apply step_unprotected_stepped; [done|auto].
  - pose proof Hp as Hp'. unfold phase_ok in Hp'. rewrite Eph in Hp'. destruct Hp' as (_ & _ & _ & Hid & _).
    destruct (identity self) as [id|] eqn:Eid; [|done]. cbn [mbind option_bind].
    exists self, (Some (TrustDecisionRequired id)). split_and!; done.
  - apply step_unprotected_stepped; [done|auto].
  - by apply step_protected_stepped.
  - unfold phase_ok in Hp. rewrite Eph in Hp. by destruct Hp.
Qed.

Lemma rounds_total fuel self :
  inv self -> pending_bytes self + live self < Z.of_nat fuel ->
  exists self' st, rounds features fuel self = Some (self', st) /\ inv self' /\ same_setup self self' /\
    answered self' st.
Proof.
  revert self. induction fuel as [|fuel IH]; intros self Hi Hf.
  { pose proof (zlen_nonneg (InputBuffer.buf (buf self))). pose proof (live_range self). unfold pending_bytes, InputBuffer.len in Hf. lia. }
  cbn [rounds]. destruct (round_spec self Hi) as (s1 & st & -> & Hi1 & Hs1 & Hst). cbn [mbind option_bind].
  destruct st as [st|]; [by eexists _, _|].
  destruct (IH s1 Hi1) as (s2 & st2 & -> & Hi2 & Hs2 & Ha); [lia|].
  eexists _, _; split_and!; try done. by etrans.
Qed.

Lemma step_total self :
  inv self ->
  exists self' st, step features self = Some (self', st) /\ inv self' /\ same_setup self self' /\ answered self' st.
Proof.
  intros Hi. apply rounds_total; [done|]. pose proof (live_range self). unfold pending_bytes, InputBuffer.len, zlen. lia.
Qed.

(** ** The other entry points *)

Lemma finished_outcome self : inv self -> phase self = PhFinished <-> outcome self <> None.
Proof.
  intros [_ Hp]. unfold phase_ok in Hp. destruct (phase self); split; try done;
    intros Ho; try (exfalso; tauto); apply Hp.
Qed.

Lemma feed_keeps self data : inv self -> inv (feed self data) /\ same_setup self (feed self data).
Proof.
  intros [Hb Hp]. unfold feed. destruct (outcome self); [done|].
  pose proof (push_spec (buf self) data (b_buf _ Hb)) as Hpush. destruct (InputBuffer.push _ _) as [b [x|e]].
  - destruct Hpush as (Hi & Hc & _). split; [|done]. split; [by apply base_buffer|]. unfold phase_ok, strict_count in *.
    change (phase (set_buf b self)) with (phase self). destruct (phase self); exact Hp.
  - split; [|done]. apply finish_inv; [|done]. destruct Hpush as [-> _]. apply base_buffer; [done|apply Hb|done].
Qed.

Lemma take_output_keeps self : inv self -> inv (fst (take_output self)) /\ same_setup self (fst (take_output self)).
Proof.
  intros [Hb Hp]. split; [|done]. cbn [fst take_output]. split; [by apply base_out|].
  unfold phase_ok, strict_count in *. change (phase (set_out [] self)) with (phase self). destruct (phase self); exact Hp.
Qed.

Lemma input_ended_keeps self : inv self -> inv (fst (input_ended self)) /\ same_setup self (fst (input_ended self)).
Proof.
  intros Hi. unfold input_ended. destruct (outcome self); [done|]. split; [|done]. by apply finish_inv; [apply Hi|].
Qed.

Lemma base_trust self d : base self -> newkeys_sent self = false -> base (set_trust (Some d) self).
Proof. intros Hb Hn. base_by Hb. intros Hf. change (newkeys_sent self = true) in Hf. congruence. Qed.

Lemma base_send_seq self n : base self -> newkeys_sent self = false -> is_u32 n -> base (set_send_seq n self).
Proof.
  intros Hb Hn Hu. base_by Hb; [exact Hu|]. intros Hf. change (newkeys_sent self = true) in Hf. congruence.
Qed.

Definition with_send_reset self : t K := if strict_active self then set_send_seq 0 self else self.

Lemma base_sent_newkeys self src :
  base self -> signature_valid self = Some true -> trust self = Some (Trusted src) ->
  newkeys_received self = false -> base (with_send_reset (set_newkeys_sent true self)).
Proof.
  intros Hb Hsv Ht Hnr. destruct (b_prot _ Hb Hnr) as (Hps & _ & _).
  unfold with_send_reset. change (strict_active (set_newkeys_sent true self)) with (strict_active self).
  destruct (strict_active self) eqn:Es.
  - base_by Hb; [split; [done|exact (proj2 (b_aead _ Hb))]|by intros _; eauto|done|done|]. intros _ _. exact (eq_sym Hps).
  - base_by Hb; [split; [done|exact (proj2 (b_aead _ Hb))]|by intros _; eauto|done|]. intros _ Hf. change (strict_active self = true) in Hf. congruence.
Qed.

Lemma base_send_new self ks :
  base self -> newkeys_sent self = true -> keys self = Some ks -> protected_sent self = 0 ->
  base (set_send_aead (Some (AeadDirection.from_parts (key (client_to_server ks)) (iv (client_to_server ks)))) self).
Proof.
  intros Hb Hs Hk Hp. apply base_send_aead; [done|done|]. intros ks' _ (Hk' & _). rewrite <- (Hk' ks Hk).
  split; [apply dir_from_new|]. by rewrite Hp.
Qed.

Lemma provide_trust_keeps self d :
  inv self -> exists self', provide_trust self d = Some self' /\ inv self' /\ same_setup self self'.
Proof.
  intros [Hb Hp]. unfold provide_trust. case_bool_decide as Hph; cbn [negb]; [|by exists self].
  pose proof Hp as Hp'. unfold phase_ok in Hp'. rewrite Hph in Hp'.
  destruct Hp' as ((Hpo & Ho & Hnr) & Hns & Hsv & Hid & Hk & Hst & Heph).
  destruct (b_prot _ Hb Hnr) as (Hps & _ & _). set (s1 := set_trust (Some d) self). assert (base s1) as Hb1 by (by apply base_trust).
  destruct d as [src|reason]; last first.
  { eexists; split; [done|]. split; [|done]. apply finish_inv; [by apply base_no_keys|done]. }
  destruct (NewKeys.encode NewKeys.mk (replicate 1 x00)) as [p [n|e]] eqn:Ee; [|by vm_compute in Ee].
  destruct (send_unprotected_spec s1 (ztake n p) (b_sseq _ Hb1) (b_rseq _ Hb1)) as (pd & o & s & r & -> & Hs & Hr).
  set (s2 := set_send_seq s _).
  assert (base s2) as Hb2 by (by apply base_send_seq; [apply base_out, base_padding| |]).
  destruct r as [[]|oc]; last first.
  { eexists; split; [done|]. split; [|done]. apply finish_inv; [done|]. congruence. }
  change (keys (set_newkeys_sent true s2)) with (keys self). destruct (keys self) as [ks|] eqn:Ek; [|done].
  cbn [mbind option_bind]. set (a := AeadDirection.from_parts _ _).
  pose proof (base_sent_newkeys s2 src Hb2 Hsv eq_refl Hnr) as Hb3. unfold with_send_reset in Hb3.
  change (strict_active (set_newkeys_sent true s2)) with (strict_active self) in Hb3.
  change (strict_active (set_send_aead (Some a) (set_newkeys_sent true s2))) with (strict_active self).
  eexists; split; [done|]. destruct (strict_active self) eqn:Es; (split; [split|done]).
  - pose proof (base_send_new _ ks Hb3 eq_refl Ek Hps) as Hb4. apply base_phase. base_by Hb4.
  - unfold phase_ok. cbn [phase set_phase]. split_and!; try done. change (keys self <> None). congruence.
  - apply base_phase. exact (base_send_new _ ks Hb3 eq_refl Ek Hps).
  - unfold phase_ok. cbn [phase set_phase]. split_and!; try done. change (keys self <> None). congruence.
Qed.

(** ** Construction *)

(** What a client configured for [p] offers. *)
Definition can_verify (p : option SignatureProvider) (s : SignatureScheme.t) : bool :=
  SignatureScheme.is_enabled features s &&
  (negb (SignatureScheme.needs_provider s) || match p with Some p => supports p s | None => false end).

Definition offers (c : HandshakeConfig.t) (p : option SignatureProvider) (ic : bytes) : Prop :=
  exists prop, proposal_ok prop /\ ic = KexInit.image (proposal_kexinit prop) /\
    ClientProposal.offer_strict_kex prop = HandshakeConfig.offer_strict_kex c /\
    Forall (fun s => can_verify p s = true) (HostKeyAlgorithms.as_slice (ClientProposal.host_key_algorithms prop)).

Lemma find_none_Forall {A} (f : A -> bool) l :
  List.find (fun x => negb (f x)) l = None -> Forall (fun x => f x = true) l.
Proof.
  intros Hf. apply List.Forall_forall. intros x Hx. pose proof (List.find_none _ _ Hf x Hx) as E.
  by apply negb_false_iff in E.
Qed.

Lemma filter_Forall {A} (f : A -> bool) l : Forall (fun x => f x = true) (List.filter f l).
Proof. apply List.Forall_forall. intros x Hx. by apply List.filter_In in Hx as [_ Hx]. Qed.

(** The host-key list [build] settles on. *)
Lemma chosen_algorithms c p :
  hs_config_ok c ->
  match HandshakeConfig.host_key_algorithms c with
  | Some list =>
      List.find (fun s => negb (can_verify p s)) (HostKeyAlgorithms.as_slice list) = None ->
      (exists l, HostKeyAlgorithms.new l = Some (Ok list)) /\
      Forall (fun s => can_verify p s = true) (HostKeyAlgorithms.as_slice list)
  | None =>
      exists o, HostKeyAlgorithms.preferred (can_verify p) = Some o /\
        forall a, o = Some a -> (exists l, HostKeyAlgorithms.new l = Some (Ok a)) /\
          Forall (fun s => can_verify p s = true) (HostKeyAlgorithms.as_slice a)
  end.
Proof.
  intros Hc. destruct (HandshakeConfig.host_key_algorithms c) as [list|] eqn:E.
  - intros Hf. split; [by apply Hc|by apply find_none_Forall].
  - destruct (preferred_spec (can_verify p)) as (o & Ho & Hspec). exists o. split; [done|].
    intros a ->. destruct Hspec as [-> Hn]. split; [eauto|apply filter_Forall].
Qed.

Lemma initial_base c line pad ic eph k p :
  hs_config_ok c -> 2 <= zlen line <= 255 -> KexInit.decode ic = Ok k -> zlen ic <= 512 ->
  dh_public (secret eph) = public eph -> zlen (public eph) = X25519_LEN ->
  base (initial (K := K) c line pad ic (kexinit_to_owned k) eph (strict_offered k) p) /\
  phase_ok 0 (initial (K := K) c line pad ic (kexinit_to_owned k) eph (strict_offered k) p).
Proof.
  intros Hc Hl Hd Hic Hpub Hlen. pose proof Hc as (C1 & C2 & C3 & C4 & C5 & C6 & C7 & Cb & C8 & C9 & C10 & C11).
  split.
  - split; cbn [config buf ident_reader client_line i_c client_kexinit q_c ephemeral server_ident i_s server_kexinit negotiated strict signature_valid
      newkeys_sent newkeys_received protected_sent protected_received service_accepted pre_kex_packets pre_kex_bytes pending_outcome
      outcome send_seq recv_seq initial]; try done; try lia.
    + change (0 <= HandshakeConfig.buffer_capacity c). unfold HandshakeConfig.buffer_capacity. unfold HEADER_LEN, LENGTH_LEN, TAG_LEN. lia.
    + split; cbn [IdentificationReader.prelude_lines IdentificationReader.prelude_bytes IdentificationReader.limits
        IdentificationReader.new]; lia.
    + eauto.
    + intros client. rewrite Hd. by intros [= <-].
    + by intros e [= <-].
    + by intros [?|?].
  - unfold phase_ok. cbn [phase initial]. split_and!; done.
Qed.

Context {R E : Type} `{RL : TryRngLaws R E}.

Lemma start_inv (hs : t K) payload :
  base hs -> phase_ok 0 hs -> pre_kex_packets hs = 0 -> phase hs = ServerIdentification ->
  let '(hs', res) := send_unprotected hs payload in
  let r := match res with Ok _ => hs' | Err o => finish hs' o end in
  inv r /\ same_setup hs r.
Proof.
  intros Hb Hp Hc Hph. pose proof Hp as Hp'. unfold phase_ok in Hp'. rewrite Hph in Hp'.
  destruct Hp' as (He & Hns & Hrest).
  destruct (send_unprotected_spec hs payload (b_sseq _ Hb) (b_rseq _ Hb)) as (pd & o & s & r & -> & Hs & Hr).
  set (s2 := set_send_seq s _).
  assert (base s2) as Hb2 by (by apply base_send_seq; [apply base_out, base_padding| |]).
  destruct r as [[]|oc]; cbn zeta; split; try done.
  - split; [done|]. change (pre_kex_packets s2) with (pre_kex_packets hs). rewrite Hc. unfold phase_ok.
    change (phase s2) with (phase hs). rewrite Hph. exact (conj He (conj Hns Hrest)).
  - apply finish_inv; [done|]. congruence.
Qed.

Lemma identification_len sw line : build_identification sw = Ok line -> 2 <= zlen line <= 255.
Proof.
  intros (_ & -> & Hl)%build_identification_spec. split; [|exact Hl]. rewrite zlen_app.
  change (zlen [CR; LF]) with 2. pose proof (zlen_nonneg (ident_content (bstr "2.0") sw None)). lia.
Qed.

Lemma built_inv c p line eph ic prop pad :
  hs_config_ok c -> 2 <= zlen line <= 255 -> proposal_ok prop ->
  ic = KexInit.image (proposal_kexinit prop) -> dh_public (secret eph) = public eph -> zlen (public eph) = X25519_LEN ->
  let k := proposal_kexinit prop in
  let hs := initial (K := K) c line pad ic (kexinit_to_owned k) eph (strict_offered k) p in
  let hs := set_out (out hs ++ client_line hs) hs in
  let '(hs', res) := send_unprotected hs ic in
  let r := match res with Ok _ => hs' | Err o => finish hs' o end in
  inv r /\ config r = c /\ provider r = p /\ i_c r = ic.
Proof.
  intros Hc Hl Hp Hic Hd Hpl k. pose proof (zlen_proposal_image prop Hp) as Hfit.
  assert (KexInit.decode ic = Ok k) as Hdec by (rewrite Hic; exact (codec_decode_image _ (proposal_kexinit_wf prop Hp))).
  destruct (initial_base c line pad ic eph k p Hc Hl Hdec ltac:(by rewrite Hic) Hd Hpl) as [Hb Hph].
  cbv zeta. set (hs := initial _ _ _ _ _ _ _ _) in *. set (hs1 := set_out _ hs).
  pose proof (start_inv hs1 ic (base_out _ _ Hb)) as Hs. specialize (Hs Hph eq_refl eq_refl).
  destruct (send_unprotected hs1 ic) as [hs' res]. cbv zeta in Hs. destruct Hs as (Hi & E1 & E2 & E3 & E4 & E5).
  split; [exact Hi|]. rewrite E1, E2, E4. done.
Qed.

Lemma build_total c (rng : R) p :
  hs_config_ok c -> exists r, build (K := K) features c rng p = Some r /\
    forall hs, r = Ok hs -> inv hs /\ config hs = c /\ provider hs = p /\ offers c p (i_c hs).
Proof.
  intros Hc. unfold build. fold (can_verify p). pose proof (chosen_algorithms c p Hc) as Ha.
  set (A := match HandshakeConfig.host_key_algorithms c with Some _ => _ | None => _ end).
  assert (exists r, A = Some r /\ forall a, r = Ok a ->
    (exists l, HostKeyAlgorithms.new l = Some (Ok a)) /\
    Forall (fun s => can_verify p s = true) (HostKeyAlgorithms.as_slice a)) as (r & -> & Hr).
  { unfold A. destruct (HandshakeConfig.host_key_algorithms c) as [l|].
    - change (fun s => negb _) with (fun s => negb (can_verify p s)).
      destruct (List.find _ _) eqn:Ef; eexists; split; try done. intros a [= <-]. by apply Ha.
    - destruct Ha as (o & Ho & Hspec). change (HostKeyAlgorithms.preferred _) with (HostKeyAlgorithms.preferred (can_verify p)).
      rewrite Ho. cbn [mbind option_bind]. eexists; split; [done|]. intros a. destruct o; [|done]. intros [= <-]. by apply Hspec. }
  cbn [mbind option_bind]. clear Ha.
  destruct r as [algs|e]; cbn [rbind]; [|by eexists]. destruct (Hr algs eq_refl) as [Hnew Hall].
  destruct (build_identification _) as [line|e] eqn:El; cbn [map_err rbind]; [|by eexists].
  destruct (try_fill_bytes rng KexInit.COOKIE_LEN) as [rng1 [cookie|e]] eqn:Ec; cbn [map_err rbind]; [|by eexists].
  destruct (try_fill_bytes rng1 X25519_LEN) as [rng2 sk] eqn:Es. unfold generate. rewrite Es. cbn [snd].
  destruct sk as [sk|e]; cbn [map_err rbind]; [|by eexists].
  destruct (try_fill_bytes rng2 32) as [rng3 [seed|e]]; cbn [map_err rbind]; [|by eexists].
  set (prop := ClientProposal.mk cookie _ _ algs).
  assert (proposal_ok prop) as Hp.
  { split; [|exact Hnew]. apply (try_fill_len rng); [done|]. by rewrite Ec. }
  rewrite (proposal_encode prop Hp). cbn [map_err rbind].
  assert (KexInit.decode (KexInit.image (proposal_kexinit prop)) = Ok (proposal_kexinit prop)) as ->
    by exact (codec_decode_image _ (proposal_kexinit_wf prop Hp)).
  pose proof (built_inv c p line (from_secret_bytes sk) _ prop (padding_new seed) Hc (identification_len _ _ El) Hp eq_refl eq_refl
    (dh_public_len _)) as Hi. cbv zeta in Hi |- *.
  destruct (send_unprotected _ _) as [hs' res]. eexists; split; [done|]. intros hs [= <-].
  destruct Hi as (Hi & E1 & E2 & E3). split_and!; [exact Hi|exact E1|exact E2|]. rewrite E3. by exists prop.
Qed.

(** ** Reachable states *)

Inductive reachable (c : HandshakeConfig.t) (p : option SignatureProvider) : t K -> Prop :=
| reach_build rng hs : build features c rng p = Some (Ok hs) -> reachable c p hs
| reach_feed hs data : reachable c p hs -> reachable c p (feed hs data)
| reach_take hs : reachable c p hs -> reachable c p (fst (take_output hs))
| reach_end hs : reachable c p hs -> reachable c p (fst (input_ended hs))
| reach_trust hs d hs' : reachable c p hs -> provide_trust hs d = Some hs' -> reachable c p hs'
| reach_step hs hs' s : reachable c p hs -> step features hs = Some (hs', s) -> reachable c p hs'.

Lemma reachable_state c p hs :
  hs_config_ok c -> reachable c p hs ->
  inv hs /\ config hs = c /\ provider hs = p /\ offers c p (i_c hs).
Proof.
  intros Hc. assert (forall a b : t K, same_setup a b -> config a = c /\ provider a = p /\ offers c p (i_c a) ->
    config b = c /\ provider b = p /\ offers c p (i_c b)) as Hss.
  { intros a b (-> & -> & _ & -> & _). done. }
  induction 1 as [rng hs Hbuild|hs data _ [Hi Hk]|hs _ [Hi Hk]|hs _ [Hi Hk]|hs d hs' _ [Hi Hk] Hpt|hs hs' s _ [Hi Hk] Hst].
  - destruct (build_total c rng p Hc) as (r & E1 & Hr). rewrite Hbuild in E1. injection E1 as <-. by apply Hr.
  - destruct (feed_keeps hs data Hi) as [Hi2 Hs2]. split; [done|by apply (Hss hs)].
  - destruct (take_output_keeps hs Hi) as [Hi2 Hs2]. split; [done|by apply (Hss hs)].
  - destruct (input_ended_keeps hs Hi) as [Hi2 Hs2]. split; [done|by apply (Hss hs)].
  - destruct (provide_trust_keeps hs d Hi) as (x & Ex & Hi2 & Hs2). rewrite Hpt in Ex. injection Ex as <-.
    split; [done|by apply (Hss hs)].
  - destruct (step_total hs Hi) as (x & st & Ex & Hi2 & Hs2 & _). rewrite Hst in Ex. injection Ex as <- <-.
    split; [done|by apply (Hss hs)].
Qed.

End invariant.
