(* ===== verification/HandshakeProps.v ===== *)
(** * Properties of the client handshake

    What every reachable state of [ClientHandshake] satisfies, whatever the
    server sends and however the caller interleaves its calls, and an example
    run that completes. *)

From S2P Require Import Prelude WireError NameList Primitives Messages KexInit ExtInfo.
From S2P Require Import WireIdent TcpIdent Packet Initial KeyAlgorithm HostKey HostKeyProps Negotiate.
From S2P Require Import Gcm Transcript Trust Handshake HandshakeProofs.

Import Hs ClientHandshake.

(** ** Example run

    A server that signs with the one accepted key and answers the requested
    service, over the null cipher. *)

Module Demo.

#[export] Instance demo_hash : Hash := {| sha256 := toy_digest |}.

#[export] Instance demo_hash_laws : HashLaws.
Proof.
  split. intros m. simpl. unfold toy_digest. apply zlen_ztake. rewrite zlen_app.
  change (zlen (replicate 32 x00)) with 32. pose proof (zlen_nonneg m). lia.
Qed.

#[export] Instance demo_dh : Dh := {|
  dh_public _ := replicate 32 x09;
  diffie_hellman _ _ := replicate 32 x81
|}.

#[export] Instance demo_dh_laws : DhLaws.
Proof. by split. Qed.

#[export] Instance demo_dalek : Dalek := {|
  VerifyingKey := unit;
  vk_from_bytes b := if bool_decide (b = replicate 32 x09) then Some tt else None;
  vk_as_bytes _ := replicate 32 x09;
  vk_verify_strict _ m s := bytes_eqb s (m ++ m)
|}.

#[export] Instance demo_rng : TryRng unit unit := {|
  try_fill_bytes _ n := (tt, Ok (replicate (Z.to_nat n) x07))
|}.

#[export] Instance demo_rng_laws : TryRngLaws unit unit.
Proof.
  split. intros r n b Hn [= <-]. unfold zlen. rewrite length_replicate. lia.
Qed.

Definition demo_features : Features := mkFeatures true false false.

(** The caller's calls. *)
Inductive Call : Type := CallFeed (data : bytes) | CallTake | CallEnd | CallTrust (d : TrustDecision) | CallStep.

Definition call (hs : t unit) (c : Call) : option (t unit) :=
  match c with
  | CallFeed d => Some (feed hs d)
  | CallTake => Some (fst (take_output hs))
  | CallEnd => Some (fst (input_ended hs))
  | CallTrust d => provide_trust hs d
  | CallStep => let* (hs, _) := step demo_features hs in Some hs
  end.

Fixpoint calls (hs : t unit) (l : list Call) : option (t unit) :=
  match l with
  | [] => Some hs
  | c :: l' => let* hs := call hs c in calls hs l'
  end.

Definition start : option (t unit) :=
  match build demo_features HandshakeConfig.default tt None with
  | Some (Ok hs) => Some hs
  | _ => None
  end.

Definition after (l : list Call) : option (t unit) := let* hs := start in calls hs l.

(** Framing for the server's side. *)
Definition plain (payload : bytes) : bytes :=
  match encode_initial_packet_with payload (fun pad => pad) (replicate 600 x00) with
  | (b, Ok n) => ztake n b
  | (_, Err _) => []
  end.

Definition names (l : list bytes) : NameList.t := NameList.mk (join_commas l).

Definition server_kexinit : KexInit.t :=
  KexInit.mk (replicate 16 x33)
    (names [algorithms.CURVE25519_SHA256; algorithms.KEX_STRICT_S_OPENSSH]) (names [bstr "ssh-ed25519"])
    (names [algorithms.AES128_GCM_OPENSSH]) (names [algorithms.AES128_GCM_OPENSSH])
    (names []) (names []) (names [algorithms.NONE]) (names [algorithms.NONE]) (names []) (names []) false 0.

Definition server_line : bytes := bstr "SSH-2.0-demo".

Definition host_blob : bytes := HostKey.to_blob (HostKey.Ed25519 (Ed25519.mkKey (D:=demo_dalek) tt)).

Definition hash_of (hs : t unit) : bytes :=
  default [] (exchange_hash (mkInputs (client_identification_line hs) server_line (i_c hs)
    (KexInit.image server_kexinit) host_blob (q_c hs) (replicate 32 x09)) (replicate 32 x81)).

Definition reply_of (hs : t unit) : bytes :=
  KexEcdhReply.image (KexEcdhReply.mk host_blob (replicate 32 x09)
    (sshstr (bstr "ssh-ed25519") ++ sshstr (hash_of hs ++ hash_of hs))).

Definition sealed (payload : bytes) : bytes :=
  match AeadDirection.seal (AeadDirection.from_parts (K:=unit) [] (replicate 12 x00)) payload tt [] with
  | (_, _, b, _) => b
  end.

Definition until_trust (hs : t unit) : list Call :=
  [CallTake; CallFeed (server_line ++ [CR; LF]); CallStep; CallFeed (plain (KexInit.image server_kexinit));
   CallStep; CallTake; CallFeed (plain (reply_of hs)); CallStep].

Definition until_done (hs : t unit) : list Call :=
  until_trust hs ++
  [CallTrust (Trusted PinnedFingerprint); CallStep; CallTake; CallFeed (plain (NewKeys.image NewKeys.mk)); CallStep; CallTake;
   CallFeed (sealed (ServiceAccept.image (ServiceAccept.mk algorithms.SSH_USERAUTH))); CallStep; CallTake; CallStep].

Definition trusting : option (t unit) := let* hs := start in calls hs (until_trust hs).

Definition completed : option (t unit) := let* hs := start in calls hs (until_done hs).

End Demo.

(** ** Properties *)

Section props.
Context {K : Type} `{AL : AeadLaws K, HL : HashLaws, DL : DhLaws, DD : Dalek}.
Context {R E : Type} `{RL : TryRngLaws R E}.
Variable features : Features.
Implicit Types (c : HandshakeConfig.t) (p : option SignatureProvider) (hs : t K).

(** The scheme a verified handshake used is one the client offered and can verify. *)
Lemma agreed_scheme c p hs is_ n :
  offers features c p (i_c hs) -> agreed (i_c hs) is_ n ->
  (exists scheme, host_key_scheme n = Some scheme /\ can_verify features p scheme = true) /\
  (Negotiate.negotiated (strict_kex n) = true -> HandshakeConfig.offer_strict_kex c = true).
Proof.
  intros (prop & Hp & Hic & Hoff & Hall) (client & server & Hc & _ & Hn & _).
  assert (client = proposal_kexinit prop) as ->.
  { rewrite Hic in Hc. pose proof (codec_decode_image _ (proposal_kexinit_wf prop Hp)) as Hd.
    cbn [codec_decode codec_image kexinit_codec] in Hd. rewrite Hd in Hc. by apply Ok_inj in Hc. }
  apply negotiate_ok_iff in Hn as (Ho & Hs & _). split.
  - destruct (proposal_profile prop server n Ho) as (_ & _ & sch & Hsch & Hin). exists sch. split; [done|].
    rewrite Forall_forall in Hall. by apply Hall.
  - rewrite Hs, evaluate_negotiated. intros (sp & Hm & _). rewrite <- Hoff. by apply proposal_markers in Hm.
Qed.

(** C24: a handshake never panics and never stalls: building one succeeds or
    reports an error; in every state reached by any interleaving of received
    bytes, output taken, trust answers and end of input, [step] returns, and
    what it answers is true of the state: it asks for input only with nothing
    to send and room to read, asks to send only with output queued, asks for a
    trust decision only for the identity presented, and finishes with the
    recorded outcome; the input buffer stays within its capacity. *)
Theorem handshake_progress c p hs :
  hs_config_ok c -> reachable features (R:=R) c p hs ->
  (forall rng : R, is_Some (build (K:=K) features c rng p)) /\
  (exists hs' s, step features hs = Some (hs', s) /\ answered hs' s) /\
  (forall d, is_Some (provide_trust hs d)) /\
  0 <= room hs /\ pending_bytes hs + room hs = HandshakeConfig.buffer_capacity c.
Proof.
  intros Hc Hr. destruct (reachable_state features c p hs Hc Hr) as (Hi & Hcfg & _).
  pose proof (b_buf _ _ (proj1 Hi)) as Hb. pose proof (b_cap _ _ (proj1 Hi)) as Hcap. rewrite Hcfg in Hcap.
  unfold InputBuffer.inv, room, pending_bytes, InputBuffer.room, InputBuffer.len in *. split_and!; [| | |lia|lia].
  - intros rng. destruct (build_total features c rng p Hc) as (r & -> & _). by eexists.
  - destruct (step_total features hs Hi) as (hs' & s & Hs & _ & _ & Ha). by exists hs', s.
  - intros d. destruct (provide_trust_keeps features hs d Hi) as (hs' & -> & _). by eexists.
Qed.

(** C1: our NEWKEYS is the gate: it is sent only after the host's signature
    over the exchange hash of exactly the identifications, KEXINITs, host key
    and ephemeral values exchanged verified under the negotiated scheme and the
    caller trusted the host; both directions are then keyed with the keys
    derived from that exchange, each with its own, and number their packets
    from the derived IV; before the server's NEWKEYS no protected packet is
    sent or accepted. *)
Theorem handshake_newkeys_gate c p hs :
  hs_config_ok c -> reachable features (R:=R) c p hs ->
  (newkeys_sent hs = true ->
     (exists src, trust hs = Some (Trusted src)) /\ exists ks, verified features hs ks /\ keyed hs ks) /\
  (newkeys_received hs = true -> newkeys_sent hs = true) /\
  (newkeys_sent hs = false -> send_aead hs = None) /\
  (newkeys_received hs = false ->
     recv_aead hs = None /\ protected_sent hs = 0 /\ protected_received hs = 0 /\ service_accepted hs = None).
Proof.
  intros Hc Hr. destruct (reachable_state features c p hs Hc Hr) as ([Hb _] & _). split_and!.
  - intros Hn. destruct (b_sent _ _ Hb Hn) as [Hs Ht]. split; [done|]. by apply (b_auth _ _ Hb).
  - apply (b_recv _ _ Hb).
  - apply (b_aead _ _ Hb).
  - intros Hn. split; [by apply (b_aead _ _ Hb)|by apply (b_prot _ _ Hb)].
Qed.

(** What a completed handshake has behind it. *)
Lemma completed_state c p hs :
  hs_config_ok c -> reachable features (R:=R) c p hs -> outcome hs = Some Completed ->
  newkeys_sent hs = true /\ newkeys_received hs = true /\ (exists src, trust hs = Some (Trusted src)) /\
  service_accepted hs = Some (HandshakeConfig.service c) /\
  (exists ks, verified features hs ks) /\
  exists n scheme, negotiated hs = Some n /\ host_key_scheme n = Some scheme /\ can_verify features p scheme = true.
Proof.
  intros Hc Hr Ho. destruct (reachable_state features c p hs Hc Hr) as ([Hb _] & Hcfg & _ & Hoff).
  assert (service_accepted hs <> None) as Hs by (apply (b_out _ _ Hb); auto).
  destruct (service_accepted hs) as [s|] eqn:Es; [|done]. pose proof (b_svc _ _ Hb s Es) as ->. rewrite Hcfg.
  assert (newkeys_received hs = true) as Hnr.
  { destruct (newkeys_received hs) eqn:En; [done|]. destruct (b_prot _ _ Hb En) as (_ & _ & Hn). congruence. }
  pose proof (b_recv _ _ Hb Hnr) as Hns. destruct (b_sent _ _ Hb Hns) as [Hsv Ht].
  destruct (b_auth _ _ Hb Hsv) as (ks & Hv & _). pose proof Hv as (vs & is_ & n & id & h & _ & _ & Hn & _ & _ & Hag & _).
  destruct (agreed_scheme c p hs is_ n Hoff Hag) as [(scheme & Hsch & Hcan) _]. split_and!; eauto.
Qed.

(** Completion means what it says: a handshake ends as completed only when
    the host was verified and trusted, both NEWKEYS were exchanged, the scheme
    is one the client could verify, and the server accepted exactly the
    configured service in a protected message. *)
Theorem handshake_completed_sound c p hs :
  hs_config_ok c -> reachable features (R:=R) c p hs -> outcome hs = Some Completed ->
  newkeys_sent hs = true /\ newkeys_received hs = true /\ (exists src, trust hs = Some (Trusted src)) /\
  service_accepted hs = Some (HandshakeConfig.service c) /\
  (exists ks, verified features hs ks) /\
  exists n scheme, negotiated hs = Some n /\ host_key_scheme n = Some scheme /\ can_verify features p scheme = true.
Proof. apply completed_state. Qed.

(** C20: strict key exchange as specified: it is active only when the client
    offered it and the server's KEXINIT carries its marker; once active and the
    new keys are in place, the server's KEXINIT was its first packet, nothing
    but the expected key-exchange messages (and at most one wrong guess) was
    accepted before NEWKEYS, and both sequence numbers restarted at NEWKEYS, so
    that they count exactly the protected packets. *)
Theorem handshake_strict_kex c p hs :
  hs_config_ok c -> reachable features (R:=R) c p hs -> strict_active hs = true ->
  (forall n, negotiated hs = Some n -> HandshakeConfig.offer_strict_kex c = true /\
     exists is_ server sp, i_s hs = Some is_ /\ KexInit.decode is_ = Ok server /\
       marker_name (mkMarker RoleServer sp) ∈ NameList.names (KexInit.kex_algorithms server)) /\
  (newkeys_sent hs = true -> send_seq hs = protected_sent hs) /\
  (newkeys_received hs = true ->
     kexinit_was_first hs = Some true /\ pre_kex_packets hs = 3 + Z.b2z (guess_discarded hs) /\
     zlen (skipped hs) <= protected_received hs /\ recv_seq hs = protected_received hs).
Proof.
  intros Hc Hr Hst. destruct (reachable_state features c p hs Hc Hr) as ([Hb _] & _ & _ & Hoff). split_and!.
  - intros n Hn. destruct (b_neg _ _ Hb n Hn) as (Hs & is_ & His & Hag).
    unfold strict_active in Hst. rewrite Hs in Hst. split; [by apply (agreed_scheme c p hs is_ n)|].
    destruct Hag as (client & server & _ & Hd & Hng & _).
    apply negotiate_ok_iff in Hng as (_ & He & _). rewrite He, evaluate_negotiated in Hst.
    destruct Hst as (sp & _ & Hm). by exists is_, server, sp.
  - intros Hn. by apply (b_strict_sent _ _ Hb).
  - intros Hn. by apply (b_strict_recv _ _ Hb).
Qed.

(** An outcome is final, and ending the handshake forgets its secrets: once
    an outcome is recorded every later call returns it and changes nothing (a
    late trust answer or more input is ignored), and neither the derived keys
    nor the ephemeral secret are held any more. *)
Theorem handshake_outcome_final c p hs o d data :
  hs_config_ok c -> reachable features (R:=R) c p hs -> outcome hs = Some o ->
  step features hs = Some (hs, Finished o) /\ feed hs data = hs /\ input_ended hs = (hs, o) /\
  provide_trust hs d = Some hs /\ keys hs = None /\ ephemeral hs = None.
Proof.
  intros Hc Hr Ho. destruct (reachable_state features c p hs Hc Hr) as (Hi & _).
  assert (phase hs = PhFinished) as Hph by (apply (finished_outcome features hs Hi); congruence).
  destruct Hi as [_ Hp]. unfold phase_ok in Hp. rewrite Hph in Hp. destruct Hp as (_ & _ & Hk & He).
  split_and!; [| | | |done|done].
  - unfold step. cbn [rounds]. unfold round. rewrite Ho. done.
  - unfold feed. by rewrite Ho.
  - unfold input_ended. by rewrite Ho.
  - unfold provide_trust. rewrite Hph. done.
Qed.

(** What a server can make the client do is budgeted: unprotected packets,
    their bytes and protected packets stay within their configured maxima, the
    buffered input within the capacity, and every counter within its machine
    width. *)
Theorem handshake_budgets c p hs :
  hs_config_ok c -> reachable features (R:=R) c p hs ->
  0 <= pre_kex_packets hs <= HandshakeConfig.max_pre_kex_packets c /\
  pre_kex_bytes hs <= HandshakeConfig.max_pre_kex_bytes c /\
  0 <= protected_received hs <= HandshakeConfig.max_protected_packets c /\
  pending_bytes hs <= HandshakeConfig.buffer_capacity c /\
  is_u32 (send_seq hs) /\ is_u32 (recv_seq hs).
Proof.
  intros Hc Hr. destruct (reachable_state features c p hs Hc Hr) as ([Hb _] & Hcfg & _).
  pose proof (b_buf _ _ Hb) as Hbuf. unfold InputBuffer.inv in Hbuf. rewrite (b_cap _ _ Hb) in Hbuf.
  rewrite <- Hcfg. split_and!; try apply Hb. exact Hbuf.
Qed.

(** C36: a report is well formed whenever it is taken: it shows an outcome exactly
    when the phase is finished, never claims an authenticated user, shows our
    NEWKEYS only with a valid signature and a positive trust decision, protected
    traffic only after the server's NEWKEYS, and a service only when it is the
    configured one; a selection is shown only with both proposals, and is the
    negotiation of exactly the proposals shown, as is the strict key exchange;
    the sequence numbers and the count of received packets are within 32 bits,
    and at most two protected packets, the service request and a disconnect, are
    ever counted as sent. *)
Theorem handshake_report_wellformed c p hs :
  hs_config_ok c -> reachable features (R:=R) c p hs ->
  let r := report hs in
  (r_phase r = PhFinished <-> r_outcome r <> None) /\ r_user_authenticated r = false /\
  (r_newkeys_sent r = true ->
     r_signature_valid r = Some true /\ exists src, r_trust r = Some (Trusted src)) /\
  (r_newkeys_received r = false ->
     r_protected_packets_sent r = 0 /\ r_protected_packets_received r = 0 /\ r_service_accepted r = None) /\
  (forall s, r_service_accepted r = Some s -> s = HandshakeConfig.service c /\ r_newkeys_received r = true) /\
  (forall n, r_selected r = Some n -> exists client server,
     adv_client (r_advertised r) = kexinit_to_owned client /\
     adv_server (r_advertised r) = Some (kexinit_to_owned server) /\
     negotiate client server = Ok n /\ r_strict_kex r = strict_kex n) /\
  is_u32 (r_send_sequence r) /\ is_u32 (r_receive_sequence r) /\ is_u32 (r_protected_packets_received r) /\
  0 <= r_protected_packets_sent r <= 2.
Proof.
  intros Hc Hr r. destruct (reachable_state features c p hs Hc Hr) as (Hi & Hcfg & _). pose proof (proj1 Hi) as Hb.
  split; [exact (finished_outcome features hs Hi)|]. split; [done|]. split; [apply (b_sent _ _ Hb)|]. split; [apply (b_prot _ _ Hb)|].
  split; [|split; [|split_and!; [apply Hb|apply Hb| |apply (b_ps _ _ Hb)..]]].
  - intros s Hs. split; [rewrite <- Hcfg; by apply (b_svc _ _ Hb)|]. unfold r in *. cbn in *.
    destruct (newkeys_received hs) eqn:En; [done|]. destruct (b_prot _ _ Hb En) as (_ & _ & Hn). congruence.
  - intros n Hn. destruct (b_neg _ _ Hb n Hn) as (Hs & is_ & His & client & server & Hdc & Hds & Hng & _).
    destruct (b_sk _ _ Hb is_ His) as (server' & Hds' & Hsk). rewrite Hds in Hds'. injection Hds' as <-.
    exists client, server. split_and!; [by apply (b_ck _ _ Hb)|done|done|done].
  - pose proof (b_pr _ _ Hb) as Hpr. destruct (b_cfg _ _ Hb) as (_&_&_&_&_&_&_&_&Hmp&_). unfold is_u32, r. cbn. lia.
Qed.
End props.

(** ** Witnesses *)

Import Demo.

Lemma default_handshake_ok : hs_config_ok HandshakeConfig.default.
Proof. unfold hs_config_ok. vm_compute. split_and!; done. Qed.

Lemma calls_reachable hs l hs' :
  reachable demo_features (R:=unit) HandshakeConfig.default None hs -> calls hs l = Some hs' ->
  reachable demo_features (R:=unit) HandshakeConfig.default None hs'.
Proof.
  revert hs. induction l as [|c l IH]; intros hs Hr; cbn [calls]; [by intros [= <-]|].
  destruct (call hs c) as [hs1|] eqn:Ec; [|done]. cbn [mbind option_bind]. apply IH.
  destruct c; cbn [call] in Ec.
  - injection Ec as <-. by apply reach_feed.
  - injection Ec as <-. by apply reach_take.
  - injection Ec as <-. by apply reach_end.
  - by eapply reach_trust.
  - destruct (step demo_features hs) as [[hs2 s]|] eqn:Es; [|done]. injection Ec as <-. by eapply reach_step.
Qed.

Lemma start_reachable hs : start = Some hs -> reachable demo_features (R:=unit) HandshakeConfig.default None hs.
Proof.
  unfold start. destruct (build _ _ _ _) as [[hs1|e]|] eqn:Eb; [|done|done]. intros [= <-].
  by apply (reach_build _ _ _ tt).
Qed.

Lemma completed_reachable hs :
  completed = Some hs -> reachable demo_features (R:=unit) HandshakeConfig.default None hs.
Proof.
  unfold completed. destruct start as [hs0|] eqn:Es; [|done]. cbn [mbind option_bind]. intros Hc.
  apply (calls_reachable hs0 (until_done hs0)); [by apply start_reachable|done].
Qed.

(** The fields of the final state the witnesses need. *)
Lemma completed_fields :
  match completed with
  | Some hs => outcome hs = Some Completed /\ newkeys_sent hs = true /\ newkeys_received hs = true /\
      strict_active hs = true /\ protected_sent hs = 2 /\ protected_received hs = 1
  | None => False
  end.
Proof. vm_compute. split_and!; reflexivity. Qed.

Lemma handshake_progress_witness :
  match completed with
  | Some hs => exists hs' s, step demo_features hs = Some (hs', s) /\ answered hs' s
  | None => False
  end.
Proof.
  pose proof completed_fields as Hf. destruct completed as [hs|] eqn:Ec; [|exact Hf].
  exact (proj1 (proj2 (handshake_progress (R:=unit) (E:=unit) demo_features HandshakeConfig.default None hs
    default_handshake_ok (completed_reachable hs Ec)))).
Defined.

Lemma handshake_newkeys_gate_witness :
  match completed with
  | Some hs => exists ks, verified demo_features hs ks /\ keyed hs ks
  | None => False
  end.
Proof.
  pose proof completed_fields as Hf. destruct completed as [hs|] eqn:Ec; [|exact Hf].
  exact (proj2 (proj1 (handshake_newkeys_gate (R:=unit) (E:=unit) demo_features HandshakeConfig.default None hs
    default_handshake_ok (completed_reachable hs Ec)) (proj1 (proj2 Hf)))).
Defined.

Lemma handshake_completed_sound_witness :
  match completed with
  | Some hs => service_accepted hs = Some algorithms.SSH_USERAUTH
  | None => False
  end.
Proof.
  pose proof completed_fields as Hf. destruct completed as [hs|] eqn:Ec; [|exact Hf].
  exact (proj1 (proj2 (proj2 (proj2 (handshake_completed_sound (R:=unit) (E:=unit) demo_features HandshakeConfig.default None hs
    default_handshake_ok (completed_reachable hs Ec) (proj1 Hf)))))).
Defined.

Lemma handshake_strict_kex_witness :
  match completed with
  | Some hs => send_seq hs = 2 /\ kexinit_was_first hs = Some true
  | None => False
  end.
Proof.
  pose proof completed_fields as Hf. destruct completed as [hs|] eqn:Ec; [|exact Hf].
  destruct Hf as (_ & Hns & Hnr & Hst & Hps & _).
  pose proof (handshake_strict_kex (R:=unit) (E:=unit) demo_features HandshakeConfig.default None hs
    default_handshake_ok (completed_reachable hs Ec) Hst) as (_ & Hs & Hr).
  split; [rewrite (Hs Hns); exact Hps|exact (proj1 (Hr Hnr))].
Defined.

Lemma handshake_outcome_final_witness :
  match completed with
  | Some hs => feed hs [x00] = hs /\ keys hs = None
  | None => False
  end.
Proof.
  pose proof completed_fields as Hf. destruct completed as [hs|] eqn:Ec; [|exact Hf].
  pose proof (handshake_outcome_final (R:=unit) (E:=unit) demo_features HandshakeConfig.default None hs Completed
    (Trusted PinnedFingerprint) [x00] default_handshake_ok (completed_reachable hs Ec) (proj1 Hf)) as (_ & H1 & _ & _ & H2 & _).
  exact (conj H1 H2).
Defined.

Lemma handshake_budgets_witness :
  match completed with
  | Some hs => 0 <= protected_received hs <= 64
  | None => False
  end.
Proof.
  pose proof completed_fields as Hf. destruct completed as [hs|] eqn:Ec; [|exact Hf].
  exact (proj1 (proj2 (proj2 (handshake_budgets (R:=unit) (E:=unit) demo_features HandshakeConfig.default None hs
    default_handshake_ok (completed_reachable hs Ec))))).
Defined.

Lemma handshake_report_wellformed_witness :
  match completed with
  | Some hs => r_signature_valid (report hs) = Some true
  | None => False
  end.
Proof.
  pose proof completed_fields as Hf. destruct completed as [hs|] eqn:Ec; [|exact Hf].
  exact (proj1 (proj1 (proj2 (proj2 (handshake_report_wellformed (R:=unit) (E:=unit) demo_features HandshakeConfig.default None hs
    default_handshake_ok (completed_reachable hs Ec)))) (proj1 (proj2 Hf)))).
Defined.
