(* ===== verification/Seam.v ===== *)
(** * The seam between the drivers and the operating system

    Models crates/tatami_ssh_tcp/src/io/seam.rs and the connect phase of io.rs.
    A blocking driver only sees the socket and the clock through the traits
    [Conn] and [Clock]; here they are one interface [Seam] over an arbitrary
    world, so that a driver is a function of the world and every theorem about
    it holds for every behaviour of peer, network and clock. Instants and
    durations are nanoseconds. An [io::Error] is its kind and OS code. *)

From S2P Require Import Prelude.

(** Calls that may not return a value: a loop that ran out of the fuel given to
    it, or a panic. *)
Inductive run (A : Type) : Type :=
| Done (a : A)
| Panics
| Spins.

Arguments Done {A} a.
Arguments Panics {A}.
Arguments Spins {A}.

(** The kinds of [io::ErrorKind] the code tells apart. *)
Inductive ErrorKind : Type :=
| Interrupted
| WouldBlock
| TimedOut
| WriteZero
| ConnectionRefused
| ConnectionAborted
| ConnectionReset
| PermissionDenied
| BrokenPipe
| InvalidInput
| OtherKind (code : Z).

#[export] Instance error_kind_eq_decision : EqDecision ErrorKind.
Proof. solve_decision. Defined.

Record IoError : Type := mkIoError { kind : ErrorKind; raw_os_error : option Z }.

(** [io::Error::new]. *)
Definition io_error (k : ErrorKind) : IoError := mkIoError k None.

(** ** Conn and Clock

    A read returns the bytes it stored in the buffer of the given length. *)
(* tcp/io/seam.rs:30-47 Conn *)
Class Seam : Type := {
  World : Type;
  conn_read : Z -> World -> World * result bytes IoError;
  conn_write : bytes -> World -> World * result Z IoError;
  conn_flush : World -> World * result unit IoError;
  conn_set_read_timeout : Z -> World -> World * result unit IoError;
  conn_set_write_timeout : Z -> World -> World * result unit IoError;
  clock_now : World -> World * Z
}.

(** [Read::read] and [Write::write] never report more than the buffer holds. *)
Class SeamLaws (Sm : Seam) : Prop := {
  conn_read_len : forall n w w' d, 0 <= n -> conn_read n w = (w', Ok d) -> zlen d <= n;
  conn_write_len : forall d w w' n, conn_write d w = (w', Ok n) -> 0 <= n <= zlen d
}.

Section seam.
Context `{Sm : Seam}.

(* tcp/io/seam.rs:87-91 remaining_until *)
Definition remaining_until (deadline : Z) (w : World) : World * option Z :=
  let '(w, now) := clock_now w in
  (w, if now <? deadline then Some (deadline - now) else None).

(* tcp/io/seam.rs:103-123 write_all_by *)
Fixpoint write_loop (fuel : nat) (data : bytes) (written deadline : Z) (w : World)
    : run (World * result unit IoError) :=
  match fuel with
  | O => Spins
  | S fuel =>
      if written <? zlen data then
        let '(w, remaining) := remaining_until deadline w in
        match remaining with
        | None => Done (w, Err (io_error TimedOut))
        | Some remaining =>
            let '(w, r) := conn_set_write_timeout remaining w in
            match r with
            | Err e => Done (w, Err e)
            | Ok _ =>
                let '(w, r) := conn_write (zdrop written data) w in
                match r with
                | Ok n =>
                    if n =? 0 then Done (w, Err (io_error WriteZero))
                    else write_loop fuel data (written + n) deadline w
                | Err e =>
                    match kind e with
                    | Interrupted => write_loop fuel data written deadline w
                    | WouldBlock => Done (w, Err (io_error TimedOut))
                    | _ => Done (w, Err e)
                    end
                end
            end
        end
      else
        let '(w, r) := conn_flush w in Done (w, r)
  end.

(* tcp/io/seam.rs:97-124 write_all_by *)
Definition write_all_by (fuel : nat) (data : bytes) (deadline : Z) (w : World) : run (World * result unit IoError) :=
  write_loop fuel data 0 deadline w.

(* tcp/io.rs:313-318 is_timeout *)
Definition is_timeout (e : IoError) : bool :=
  match kind e with WouldBlock | TimedOut => true | _ => false end.
End seam.

(** ** The connect phase *)

(* tcp/io.rs:68-77 IoConfig *)
Record IoConfig : Type := mkIoConfig {
  connect_timeout : Z;
  read_timeout : Z;
  max_connect_attempts : Z;
  read_chunk : Z
}.

(* tcp/io.rs:79-88 IoConfig::default *)
Definition IoConfig_default : IoConfig := mkIoConfig 10000000000 10000000000 4 4096.

(** The resolver, [TcpStream::connect_timeout] and [Instant::now]. *)
Class Net : Type := {
  NetWorld : Type;
  Addr : Type;
  Stream : Type;
  net_now : NetWorld -> NetWorld * Z;
  net_resolve : bytes -> Z -> NetWorld -> NetWorld * result (list Addr) IoError;
  net_connect : Addr -> Z -> NetWorld -> NetWorld * result Stream IoError
}.

Section connect.
Context `{N : Net}.

(* tcp/io.rs:130-139 ConnectError *)
Inductive ConnectError : Type :=
| NoAddresses
| Resolve (e : IoError)
| AllAttemptsFailed (attempts : list (Addr * IoError))
| ConnectTimedOut (attempts : list (Addr * IoError)).

(* tcp/io.rs:181-192 connect *)
Fixpoint connect_each (deadline : Z) (failures : list (Addr * IoError)) (addrs : list Addr) (w : NetWorld)
    : NetWorld * result Stream ConnectError :=
  match addrs with
  | [] =>
      let '(w, now) := net_now w in
      (w, Err (if deadline <=? now then ConnectTimedOut failures else AllAttemptsFailed failures))
  | addr :: addrs =>
      let '(w, now) := net_now w in
      if deadline <=? now then (w, Err (ConnectTimedOut failures)) else
      let '(w, r) := net_connect addr (deadline - now) w in
      match r with
      | Ok stream => (w, Ok stream)
      | Err e => connect_each deadline (failures ++ [(addr, e)]) addrs w
      end
  end.

(* tcp/io.rs:171-198 connect *)
Definition connect (host : bytes) (port : Z) (io : IoConfig) (w : NetWorld) : NetWorld * result Stream ConnectError :=
  let '(w, started) := net_now w in
  let deadline := started + connect_timeout io in
  let '(w, r) := net_resolve host port w in
  match r with
  | Err e => (w, Err (Resolve e))
  | Ok [] => (w, Err NoAddresses)
  | Ok addrs => connect_each deadline [] (ztake (Z.max (max_connect_attempts io) 1) addrs) w
  end.
End connect.

(** ** The scripted connection of the driver tests

    Events are consumed in order; time is the virtual clock. [None] is a panic
    of the script itself (a call without a timeout). Hooks (closures run by a
    read) and the cap on the number of calls are left out. *)
Module Scripted.

(* tcp/io/seam.rs:191-208 ReadEvent *)
Inductive ReadEvent : Type :=
| RData (d : bytes)
| REof
| RErr (k : ErrorKind)
| RElapse (silence : Z).

(* tcp/io/seam.rs:211-220 WriteEvent *)
Inductive WriteEvent : Type :=
| WAccept (n : nat)
| WZero
| WErr (k : ErrorKind)
| WElapse (silence : Z).

(* tcp/io/seam.rs:227-244 ScriptedConn *)
Record t : Type := mk {
  elapsed : Z;
  reads : list ReadEvent;
  writes : list WriteEvent;
  rt : option Z;
  wt : option Z;
  written : bytes;
  read_timeouts : list (Z * Z);
  write_timeouts : list (Z * Z);
  read_requests : list Z
}.

(* tcp/io/seam.rs:251-274 ScriptedConn::new *)
Definition new (reads : list ReadEvent) (writes : list WriteEvent) : t := mk 0 reads writes None None [] [] [] [].

(* tcp/io/seam.rs:291-293 is_timeout_kind *)
Definition is_timeout_kind (k : ErrorKind) : bool := match k with WouldBlock | TimedOut => true | _ => false end.

(* tcp/io/seam.rs:297-307 checked_timeout *)
Definition checked_timeout (t : Z) : result Z IoError :=
  if t =? 0 then Err (io_error InvalidInput) else Ok t.

Definition set_reads (l : list ReadEvent) (s : t) : t :=
  mk (elapsed s) l (writes s) (rt s) (wt s) (written s) (read_timeouts s) (write_timeouts s) (read_requests s).

Definition set_writes (l : list WriteEvent) (s : t) : t :=
  mk (elapsed s) (reads s) l (rt s) (wt s) (written s) (read_timeouts s) (write_timeouts s) (read_requests s).

(* tcp/io/seam.rs:173-175 VirtualClock::advance *)
Definition advance (by_ : Z) (s : t) : t :=
  mk (elapsed s + by_) (reads s) (writes s) (rt s) (wt s) (written s) (read_timeouts s) (write_timeouts s) (read_requests s).

Definition extend_written (b : bytes) (s : t) : t :=
  mk (elapsed s) (reads s) (writes s) (rt s) (wt s) (written s ++ b) (read_timeouts s) (write_timeouts s) (read_requests s).

(* tcp/io/seam.rs:316-353 ScriptedConn::read *)
Fixpoint read_events (n budget : Z) (events : list ReadEvent) (s : t) : t * result bytes IoError :=
  match events with
  | [] => (advance budget (set_reads [] s), Err (io_error WouldBlock))
  | RElapse silence :: events =>
      if budget <=? silence then
        (advance budget (set_reads ((if budget <? silence then [RElapse (silence - budget)] else []) ++ events) s),
         Err (io_error WouldBlock))
      else read_events n (budget - silence) events (advance silence s)
  | RData d :: events =>
      let n := Z.min (zlen d) n in
      (set_reads ((if n <? zlen d then [RData (zdrop n d)] else []) ++ events) s, Ok (ztake n d))
  | REof :: events => (set_reads (REof :: events) s, Ok [])
  | RErr k :: events =>
      let s := set_reads events s in
      ((if is_timeout_kind k then advance budget s else s), Err (io_error k))
  end.

(* tcp/io/seam.rs:310-355 ScriptedConn::read *)
Definition read (n : Z) (s : t) : option (t * result bytes IoError) :=
  let s := mk (elapsed s) (reads s) (writes s) (rt s) (wt s) (written s) (read_timeouts s) (write_timeouts s)
             (read_requests s ++ [n]) in
  let* budget := rt s in
  Some (read_events n budget (reads s) s).

(* tcp/io/seam.rs:363-393 ScriptedConn::write *)
Fixpoint write_events (buf : bytes) (budget : Z) (events : list WriteEvent) (s : t) : t * result Z IoError :=
  match events with
  | [] => (extend_written buf (set_writes [] s), Ok (zlen buf))
  | WAccept n :: events =>
      let n := Z.min (Z.of_nat n) (zlen buf) in (extend_written (ztake n buf) (set_writes events s), Ok n)
  | WZero :: events => (set_writes events s, Ok 0)
  | WErr k :: events =>
      let s := set_writes events s in
      ((if is_timeout_kind k then advance budget s else s), Err (io_error k))
  | WElapse silence :: events =>
      if budget <=? silence then
        (advance budget (set_writes ((if budget <? silence then [WElapse (silence - budget)] else []) ++ events) s),
         Err (io_error WouldBlock))
      else write_events buf (budget - silence) events (advance silence s)
  end.

(* tcp/io/seam.rs:357-394 ScriptedConn::write *)
Definition write (buf : bytes) (s : t) : option (t * result Z IoError) :=
  let* budget := wt s in
  Some (write_events buf budget (writes s) s).

(* tcp/io/seam.rs:400-405 ScriptedConn::set_read_timeout *)
Definition set_read_timeout (timeout : Z) (s : t) : t * result unit IoError :=
  match checked_timeout timeout with
  | Err e => (s, Err e)
  | Ok d => (mk (elapsed s) (reads s) (writes s) (Some d) (wt s) (written s)
               (read_timeouts s ++ [(elapsed s, d)]) (write_timeouts s) (read_requests s), Ok tt)
  end.

(* tcp/io/seam.rs:407-412 ScriptedConn::set_write_timeout *)
Definition set_write_timeout (timeout : Z) (s : t) : t * result unit IoError :=
  match checked_timeout timeout with
  | Err e => (s, Err e)
  | Ok d => (mk (elapsed s) (reads s) (writes s) (rt s) (Some d) (written s)
               (read_timeouts s) (write_timeouts s ++ [(elapsed s, d)]) (read_requests s), Ok tt)
  end.

(** The script as a seam: a panicking call answers an error no driver retries. *)
#[export] Instance scripted_seam : Seam := {|
  World := t;
  conn_read n s := default (s, Err (io_error (OtherKind 0))) (read n s);
  conn_write b s := default (s, Err (io_error (OtherKind 0))) (write b s);
  conn_flush s := (s, Ok tt);
  conn_set_read_timeout := set_read_timeout;
  conn_set_write_timeout := set_write_timeout;
  clock_now s := (s, elapsed s)
|}.

Lemma read_events_len n budget events s s' d :
  0 <= n -> read_events n budget events s = (s', Ok d) -> zlen d <= n.
Proof.
  intros Hn. revert budget s. induction events as [|ev events IH]; intros budget s; [done|]. cbn [read_events].
  destruct ev as [b| |k|silence].
  - intros [= <- <-]. pose proof (zlen_nonneg b). rewrite zlen_ztake_min by lia. lia.
  - by intros [= <- <-].
  - done.
  - destruct (budget <=? silence); [done|]. apply IH.
Qed.

Lemma write_events_len buf budget events s s' n :
  write_events buf budget events s = (s', Ok n) -> 0 <= n <= zlen buf.
Proof.
  pose proof (zlen_nonneg buf). revert budget s. induction events as [|ev events IH]; intros budget s; cbn [write_events].
  { intros [= <- <-]. lia. }
  destruct ev as [m| |k|silence].
  - intros [= <- <-]. lia.
  - intros [= <- <-]. lia.
  - done.
  - destruct (budget <=? silence); [done|]. apply IH.
Qed.

#[export] Instance scripted_laws : SeamLaws scripted_seam.
Proof.
  split.
  - intros n w w' d Hn. cbn. unfold read. cbn. destruct (rt w); cbn; [|done]. by apply read_events_len.
  - intros d w w' n. cbn. unfold write. destruct (wt w); cbn; [|done]. by apply write_events_len.
Qed.
End Scripted.
