(* ===== verification/ConnectRun.v ===== *)
(** * The connect phase

    What [connect] of io.rs does over any resolver and network: which addresses
    it tries, with how much time each, and what its result says. *)

From S2P Require Import Prelude WireError Seam.

(** ** Recording *)

Inductive NetCall {A S : Type} : Type :=
| NetNow (t : Z)
| NetResolve (r : result (list A) IoError)
| NetConnect (a : A) (timeout : Z) (r : result S IoError).
Arguments NetCall : clear implicits.

(** Any network, with a log of the calls made. *)
Definition traced_net (N : Net) : Net := {|
  NetWorld := @NetWorld N * list (NetCall Addr Stream);
  Addr := @Addr N;
  Stream := @Stream N;
  net_now w := let '(w', t) := net_now (fst w) in ((w', snd w ++ [NetNow t]), t);
  net_resolve h p w := let '(w', r) := net_resolve h p (fst w) in ((w', snd w ++ [NetResolve r]), r);
  net_connect a d w := let '(w', r) := net_connect a d (fst w) in ((w', snd w ++ [NetConnect a d r]), r)
|}.

Section connect.
Context {N : Net}.
Implicit Types w : @NetWorld (traced_net N).

Abbreviation net_log w := (snd w : list (NetCall (@Addr N) (@Stream N))).

(** Failed attempts, in order: each begins with a reading of the clock before
    the deadline and is given exactly the time then left. *)
Inductive attempts (deadline : Z) : list (Addr * IoError) -> list (NetCall (@Addr N) (@Stream N)) -> Prop :=
| attempts_none : attempts deadline [] []
| attempts_one a e t fs l :
    t < deadline -> attempts deadline fs l ->
    attempts deadline ((a, e) :: fs) (NetNow t :: NetConnect a (deadline - t) (Err e) :: l).

(** How attempts at [addrs] end, after the earlier failures [before]: connected
    to the first address that answers; out of time, with what failed until then;
    or, with time left, every address failed. *)
Inductive outcome (deadline : Z) (before : list (Addr * IoError)) (addrs : list (@Addr N))
    : list (NetCall (@Addr N) (@Stream N)) -> result (@Stream N) (@ConnectError (traced_net N)) -> Prop :=
| outcome_connected fs l a rest t st :
    addrs = map fst fs ++ a :: rest -> attempts deadline fs l -> t < deadline ->
    outcome deadline before addrs (l ++ [NetNow t; NetConnect a (deadline - t) (Ok st)]) (Ok st)
| outcome_late fs l rest t :
    addrs = map fst fs ++ rest -> attempts deadline fs l -> deadline <= t ->
    outcome deadline before addrs (l ++ [NetNow t]) (Err (ConnectTimedOut (N := traced_net N) (before ++ fs)))
| outcome_failed fs l t :
    addrs = map fst fs -> attempts deadline fs l -> t < deadline ->
    outcome deadline before addrs (l ++ [NetNow t]) (Err (AllAttemptsFailed (N := traced_net N) (before ++ fs))).

Lemma net_now_log w : exists t, let '(w', t') := net_now (Net := traced_net N) w in t' = t /\ net_log w' = net_log w ++ [NetNow t].
Proof. cbn. destruct (net_now (fst w)) as [w' t]. by exists t. Qed.

(** One more failed attempt in front. *)
Lemma outcome_after deadline before a e t addrs l r :
  t < deadline -> outcome deadline (before ++ [(a, e)]) addrs l r ->
  outcome deadline before (a :: addrs) (NetNow t :: NetConnect a (deadline - t) (Err e) :: l) r.
Proof.
  intros Ht [fs l' b rest t' st -> Hat Ht'|fs l' rest t' -> Hat Ht'|fs l' t' -> Hat Ht'].
  - apply (outcome_connected _ _ _ ((a, e) :: fs) (NetNow t :: NetConnect a (deadline - t) (Err e) :: l') b rest); [done|by constructor|done].
  - rewrite <- (assoc_L (++)). by apply (outcome_late _ _ _ ((a, e) :: fs) (NetNow t :: NetConnect a (deadline - t) (Err e) :: l') rest); [|constructor|].
  - rewrite <- (assoc_L (++)). by apply (outcome_failed _ _ _ ((a, e) :: fs) (NetNow t :: NetConnect a (deadline - t) (Err e) :: l')); [|constructor|].
Qed.

Lemma connect_each_log deadline before addrs w w' r :
  connect_each (N := traced_net N) deadline before addrs w = (w', r) ->
  exists l, net_log w' = net_log w ++ l /\ outcome deadline before addrs l r.
Proof.
  revert before w. induction addrs as [|a addrs IH]; intros before w; cbn [connect_each];
    destruct (net_now_log w) as (t & Ht); destruct (net_now w) as [w1 t']; destruct Ht as [-> Hl].
  - intros [= <- <-]. exists [NetNow t]. split; [done|].
    pose proof (outcome_late deadline before [] [] [] [] t) as Ho1. pose proof (outcome_failed deadline before [] [] [] t) as Ho2.
    rewrite !app_nil_r in Ho1. rewrite app_nil_r in Ho2.
    destruct (Z.leb_spec deadline t); [by apply Ho1; [|constructor|]|by apply Ho2; [|constructor|]].
  - destruct (Z.leb_spec deadline t).
    { intros [= <- <-]. exists [NetNow t]. split; [done|].
      pose proof (outcome_late deadline before (a :: addrs) [] [] (a :: addrs) t) as Ho. rewrite app_nil_r in Ho.
      by apply Ho; [|constructor|]. }
    cbn [net_connect traced_net]. destruct (@net_connect N a (deadline - t) (fst w1)) as [w2 [st|e]].
    + intros [= <- <-]. exists [NetNow t; NetConnect a (deadline - t) (Ok st)]. split; [cbn; by rewrite Hl, <- (assoc_L (++))|].
      by apply (outcome_connected _ _ _ [] [] a addrs); [|constructor|].
    + intros Hrec. apply IH in Hrec as (l & El & Ho).
      exists (NetNow t :: NetConnect a (deadline - t) (Err e) :: l). split; [rewrite El; cbn; by rewrite Hl, <- !(assoc_L (++))|].
      by apply outcome_after.
Qed.
End connect.

(** ** Properties *)

(** Connecting keeps to one deadline and reports what it did: the name is
    resolved once; at most [max_connect_attempts] of its addresses (at least
    one) are tried, in the resolver's order and each once, each with exactly the
    time then left to the deadline and only while there is some; the first to
    answer is returned; otherwise the error lists every attempt made with its
    error, and is a timeout exactly when the deadline had passed. *)
Theorem connect_attempts {N : Net} (host : bytes) (port : Z) (io : IoConfig) (w w' : @NetWorld (traced_net N)) r :
  connect (N := traced_net N) host port io w = (w', r) ->
  exists t0 resolved l, let deadline := t0 + connect_timeout io in
    snd w' = snd w ++ NetNow t0 :: NetResolve resolved :: l /\
    match resolved with
    | Err e => l = [] /\ r = Err (Resolve e)
    | Ok [] => l = [] /\ r = Err NoAddresses
    | Ok addrs => outcome deadline [] (ztake (Z.max (max_connect_attempts io) 1) addrs) l r
    end.
Proof.
  unfold connect. destruct (net_now_log w) as (t & Ht). destruct (net_now w) as [w1 t']. destruct Ht as [-> Hl].
  cbn [net_resolve traced_net]. destruct (@net_resolve N host port (fst w1)) as [w2 res].
  destruct res as [[|a addrs]|e].
  - intros [= <- <-]. exists t, (Ok []), []. cbn. by rewrite Hl, <- (assoc_L (++)).
  - intros (l & El & Ho)%connect_each_log. exists t, (Ok (a :: addrs)), l. split; [|done].
    rewrite El. cbn. by rewrite Hl, <- !(assoc_L (++)).
  - intros [= <- <-]. exists t, (Err e), []. cbn. by rewrite Hl, <- (assoc_L (++)).
Qed.

(** A host with two addresses, the first of which takes three ticks to refuse. *)
Definition two_addresses : Net := {|
  NetWorld := Z;
  Addr := Z;
  Stream := Z;
  net_now w := (w, w);
  net_resolve _ _ w := (w + 1, Ok [10; 20]);
  net_connect a d w := if a =? 10 then (w + 3, Err (io_error ConnectionReset)) else (w + 1, Ok a)
|}.

Definition two_addresses_io : IoConfig := mkIoConfig 100 100 4 4096.

Lemma connect_attempts_witness :
  let '(w', r) := connect (N := traced_net two_addresses) (bstr "h") 22 two_addresses_io ((0, []) : @NetWorld (traced_net two_addresses)) in
  r = Ok 20 /\ exists t0 resolved l, snd w' = [] ++ NetNow t0 :: NetResolve resolved :: l.
Proof.
  destruct (connect (N := traced_net two_addresses) (bstr "h") 22 two_addresses_io ((0, []) : @NetWorld (traced_net two_addresses))) as [w' r] eqn:Ec.
  destruct (connect_attempts (N := two_addresses) (bstr "h") 22 two_addresses_io ((0, []) : @NetWorld (traced_net two_addresses)) w' r Ec) as (t0 & resolved & l & El & _).
  split; [vm_compute in Ec; injection Ec as <- <-; reflexivity|]. exists t0, resolved, l. exact El.
Defined.
