(* ===== verification/Drivers.v ===== *)
(** * The blocking drivers

    Models the drivers of crates/tatami_ssh_tcp/src/io: [drive] and [run_probe]
    of io.rs, [run_handshake_on] and [run_handshake] of io/handshake.rs, and
    [drive] and [observe_connection] of io/listener.rs. Each is the loop around
    a state machine of Probe.v, Handshake.v or Observer.v, over the [Seam] of
    Seam.v. A loop is a function of its fuel: [Spins] is a run that did not end
    within it and [Panics] a state machine that panicked; DriversProps.v bounds
    the fuel by the deadline and excludes the panics. *)

From S2P Require Import Prelude WireError NameList Primitives Messages KexInit ExtInfo WireIdent TcpIdent Packet.
From S2P Require Import Initial Probe Observer KeyAlgorithm HostKey Negotiate Gcm Transcript Trust Handshake Seam.

(** What an owned [TcpStream] offers besides [Conn]; the results of
    [set_nodelay] and [shutdown] are discarded by every caller. *)
Class Socket (Sm : Seam) : Type := {
  SocketAddr : Type;
  peer_addr : World -> World * result SocketAddr IoError;
  local_addr : World -> World * result SocketAddr IoError;
  set_nodelay : World -> World;
  shutdown_both : World -> World
}.

(** Bytes to ask for: a chunk, within the room of the state machine, and one
    byte when it has none so that it reports the overflow itself. *)
(* tcp/io.rs:290-292 drive *)
Definition want_of (chunk room : Z) : Z := Z.max (Z.min chunk room) 1.

(** The timed read each loop ends with. *)
Inductive timed_read_result : Type :=
| DeadlinePassed
| TimeoutRefused (e : IoError)
| ReadResult (r : result bytes IoError).

Section timed_read.
Context `{Sm : Seam}.

(* tcp/io.rs:278-293 drive *)
Definition timed_read (slice : Z -> Z) (want deadline : Z) (w : World) : World * timed_read_result :=
  let '(w, remaining) := remaining_until deadline w in
  match remaining with
  | None => (w, DeadlinePassed)
  | Some remaining =>
      let '(w, r) := conn_set_read_timeout (slice remaining) w in
      match r with
      | Err e => (w, TimeoutRefused e)
      | Ok _ => let '(w, r) := conn_read want w in (w, ReadResult r)
      end
  end.
End timed_read.

(** ** The probe driver *)

Module ProbeDriver.

(* tcp/io.rs:92-109 RunEnd *)
Inductive RunEnd : Type :=
| EndProbe (e : ProbeEnd)
| EndTimedOut (stage : Stage) (pending_bytes : Z)
| EndIo (stage : Stage) (error : IoError).

(* tcp/io.rs:343-348 RunEnd::is_complete *)
Definition is_complete (e : RunEnd) : bool :=
  match e with
  | EndProbe (EndProposal p) => match proposal_anomalies p with [] => true | _ => false end
  | _ => false
  end.

Definition timed_out (p : Probe.t) : RunEnd := EndTimedOut (Probe.stage p) (Probe.pending_bytes p).

(** An event consumes input, so the buffered bytes and one more call are enough
    fuel (see [drain_drains]). *)
(* tcp/io.rs:269-276 drive *)
Fixpoint drain (fuel : nat) (probe : Probe.t) (events : list ProbeEvent)
    : run (Probe.t * list ProbeEvent * option ProbeEnd) :=
  match fuel with
  | O => Spins
  | S fuel =>
      match Probe.step probe with
      | None => Panics
      | Some (probe, NeedMore) => Done (probe, events, None)
      | Some (probe, Event e) => drain fuel probe (events ++ [e])
      | Some (probe, Finished e) => Done (probe, events, Some e)
      end
  end.

Section driver.
Context `{Sm : Seam}.

(* tcp/io.rs:267-310 drive *)
Fixpoint read_loop (fuel : nat) (probe : Probe.t) (events : list ProbeEvent) (deadline chunk : Z) (w : World)
    : run (World * Probe.t * list ProbeEvent * RunEnd) :=
  match fuel with
  | O => Spins
  | S fuel =>
      match drain (S (length (InputBuffer.buf (Probe.buf probe)))) probe events with
      | Panics => Panics
      | Spins => Spins
      | Done (probe, events, Some e) => Done (w, probe, events, EndProbe e)
      | Done (probe, events, None) =>
          let '(w, r) := timed_read id (want_of (Z.max chunk 1) (Probe.room probe)) deadline w in
          match r with
          | DeadlinePassed => Done (w, probe, events, timed_out probe)
          | TimeoutRefused error => Done (w, probe, events, EndIo (Probe.stage probe) error)
          | ReadResult (Ok []) =>
              let '(probe, e) := Probe.input_ended probe in Done (w, probe, events, EndProbe e)
          | ReadResult (Ok data) => read_loop fuel (Probe.feed probe data) events deadline chunk w
          | ReadResult (Err e) =>
              if is_timeout e then Done (w, probe, events, timed_out probe)
              else
                match kind e with
                | Interrupted => read_loop fuel probe events deadline chunk w
                | _ => Done (w, probe, events, EndIo (Probe.stage probe) e)
                end
          end
      end
  end.

(* tcp/io.rs:240-311 drive *)
Definition drive (fuel : nat) (probe : Probe.t) (deadline chunk : Z) (w : World)
    : run (World * Probe.t * list ProbeEvent * RunEnd) :=
  match write_all_by fuel (Probe.client_line probe) deadline w with
  | Panics => Panics
  | Spins => Spins
  | Done (w, Ok _) => read_loop fuel probe [] deadline chunk w
  | Done (w, Err e) =>
      Done (w, probe, [], if is_timeout e then timed_out probe else EndIo (Probe.stage probe) e)
  end.

Context `{Sk : !Socket Sm}.

(* tcp/io.rs:113-126 ProbeRun *)
Record ProbeRun : Type := mkProbeRun {
  peer : SocketAddr;
  local : SocketAddr;
  client_identification : bytes;
  events : list ProbeEvent;
  end_ : RunEnd;
  elapsed : Z
}.

(* tcp/io.rs:202-238 run_probe *)
Definition run_probe (fuel : nat) (config : ProbeConfig) (io : IoConfig) (w : World)
    : run (World * result ProbeRun IoError) :=
  let '(w, started) := clock_now w in
  let deadline := started + read_timeout io in
  let '(w, peer) := peer_addr w in
  match peer with
  | Err e => Done (w, Err e)
  | Ok peer =>
      let '(w, local) := local_addr w in
      match local with
      | Err e => Done (w, Err e)
      | Ok local =>
          match Probe.new config with
          | Err _ => Done (w, Err (io_error InvalidInput))
          | Ok probe =>
              let w := set_nodelay w in
              match drive fuel probe deadline (read_chunk io) w with
              | Panics => Panics
              | Spins => Spins
              | Done (w, _, events, end_) =>
                  let w := shutdown_both w in
                  let '(w, now) := clock_now w in
                  Done (w, Ok (mkProbeRun peer local (Probe.client_line probe) events end_ (now - started)))
              end
          end
      end
  end.
End driver.
End ProbeDriver.

(** ** The handshake driver *)

Module HandshakeDriver.
Import Hs ClientHandshake.

(* tcp/io/handshake.rs:52-61 HandshakeIo *)
Record HandshakeIo : Type := mkHandshakeIo {
  hs_connect_timeout : Z;
  overall_timeout : Z;
  hs_read_chunk : Z
}.

(* tcp/io/handshake.rs:63-71 HandshakeIo::default *)
Definition HandshakeIo_default : HandshakeIo := mkHandshakeIo 10000000000 15000000000 4096.

(* tcp/io/handshake.rs:76-87 HandshakeIo::connect *)
Definition hs_connect `{N : Net} (self : HandshakeIo) (host : bytes) (port : Z) (w : NetWorld)
    : NetWorld * result Stream ConnectError :=
  connect host port (mkIoConfig (hs_connect_timeout self) (overall_timeout self)
    (max_connect_attempts IoConfig_default) (hs_read_chunk self)) w.

(* tcp/io/handshake.rs:92-109 HandshakeEnd *)
Inductive HandshakeEnd : Type :=
| EndFinished (o : HandshakeOutcome)
| EndTimedOut (phase : Phase) (pending_bytes : Z)
| EndIo (phase : Phase) (error : IoError).

(* tcp/io/handshake.rs:126-128 HandshakeEnd::is_complete *)
Definition end_is_complete (e : HandshakeEnd) : bool :=
  match e with EndFinished o => is_complete o | _ => false end.

Section driver.
Context `{Sm : Seam}.
Context {K : Type} `{Aead K, Hash, Dh, Dalek} (features : Features).
Context {P : Type} `{Pol : HostTrustPolicy P} (policy : P).
Implicit Types hs : t K.

Definition timed_out hs : HandshakeEnd := EndTimedOut (phase hs) (pending_bytes hs).

(* tcp/io/handshake.rs:229-298 run_handshake_on *)
Fixpoint run_handshake_on (fuel : nat) hs (deadline chunk : Z) (w : World)
    : run (World * t K * HandshakeEnd) :=
  match fuel with
  | O => Spins
  | S fuel =>
      match step features hs with
      | None => Panics
      | Some (hs, Finished outcome) => Done (w, hs, EndFinished outcome)
      | Some (hs, Send) =>
          let '(hs, out) := take_output hs in
          match write_all_by fuel out deadline w with
          | Panics => Panics
          | Spins => Spins
          | Done (w, Ok _) => run_handshake_on fuel hs deadline chunk w
          | Done (w, Err e) =>
              Done (w, hs, if is_timeout e then timed_out hs else EndIo (phase hs) e)
          end
      | Some (hs, TrustDecisionRequired identity) =>
          match provide_trust hs (decide_trust policy (as_identity identity)) with
          | None => Panics
          | Some hs => run_handshake_on fuel hs deadline chunk w
          end
      | Some (hs, NeedMore) =>
          let '(w, r) := timed_read id (want_of (Z.max chunk 1) (room hs)) deadline w in
          match r with
          | DeadlinePassed => Done (w, hs, timed_out hs)
          | TimeoutRefused error => Done (w, hs, EndIo (phase hs) error)
          | ReadResult (Ok []) =>
              let '(hs, o) := input_ended hs in Done (w, hs, EndFinished o)
          | ReadResult (Ok data) => run_handshake_on fuel (feed hs data) deadline chunk w
          | ReadResult (Err e) =>
              if is_timeout e then Done (w, hs, timed_out hs)
              else
                match kind e with
                | Interrupted => run_handshake_on fuel hs deadline chunk w
                | _ => Done (w, hs, EndIo (phase hs) e)
                end
          end
      end
  end.

Context `{Sk : !Socket Sm}.
Context {R E : Type} `{TryRng R E}.

(* tcp/io/handshake.rs:133-144 HandshakeRun *)
Record HandshakeRun : Type := mkHandshakeRun {
  peer : SocketAddr;
  local : SocketAddr;
  run_report : HandshakeReport;
  end_ : HandshakeEnd;
  elapsed : Z
}.

(** The entropy source is an argument; the code passes [OsEntropy]. *)
(* tcp/io/handshake.rs:186-226 run_handshake *)
Definition run_handshake (fuel : nat) (config : HandshakeConfig.t) (provider : option SignatureProvider)
    (rng : R) (io : HandshakeIo) (w : World) : run (World * result HandshakeRun IoError) :=
  let '(w, started) := clock_now w in
  let deadline := started + overall_timeout io in
  let '(w, peer) := peer_addr w in
  match peer with
  | Err e => Done (w, Err e)
  | Ok peer =>
      let '(w, local) := local_addr w in
      match local with
      | Err e => Done (w, Err e)
      | Ok local =>
          let built :=
            match provider with
            | Some p => with_signature_provider features config rng p
            | None => new features config rng
            end in
          match built with
          | None => Panics
          | Some (Err _) => Done (w, Err (io_error InvalidInput))
          | Some (Ok handshake) =>
              let w := set_nodelay w in
              match run_handshake_on fuel handshake deadline (hs_read_chunk io) w with
              | Panics => Panics
              | Spins => Spins
              | Done (w, handshake, end_) =>
                  let w := shutdown_both w in
                  let '(w, now) := clock_now w in
                  Done (w, Ok (mkHandshakeRun peer local (report handshake) end_ (now - started)))
              end
          end
      end
  end.
End driver.
End HandshakeDriver.

(** ** The observer driver *)

(** What a worker shares with the rest of the process: the stop flag, which
    other threads may set between any two loads, and the wall clock, as the
    time since the Unix epoch (zero before it). *)
Class Shared (Sm : Seam) : Type := {
  stop_load : World -> World * bool;
  unix_now : World -> World * Z
}.

Module ObserverDriver.

(* tcp/io/listener.rs:78-103 ListenerConfig *)
Record ListenerConfig {A : Type} : Type := mkListenerConfig {
  bind_addr : A;
  max_concurrent : Z;
  connection_timeout : Z;
  max_connections : option Z;
  run_for : option Z;
  cfg_observer : ObserverConfig;
  cfg_read_chunk : Z;
  pending_records : Z;
  shutdown_grace : Z;
  poll_interval : Z;
  overload_report_interval : Z
}.
Arguments ListenerConfig : clear implicits.

(** The default address is the loopback address with port 2222. *)
(* tcp/io/listener.rs:105-121 ListenerConfig::default *)
Definition ListenerConfig_default {A} (loopback : A) : ListenerConfig A :=
  mkListenerConfig A loopback 32 5000000000 None None ObserverConfig_default 4096 128 5000000000 25000000 1000000000.

(* tcp/io/listener.rs:185-194 ObservationEnd *)
Inductive ObservationEnd : Type :=
| EndObserver (o : ObservationOutcome)
| EndTimedOut
| EndShutdown
| EndIo (e : IoError).

(* tcp/io/listener.rs:199-206 ObservationEnd::code *)
Definition end_code (e : ObservationEnd) : string :=
  match e with
  | EndObserver o => observation_code o
  | EndTimedOut => "timeout"
  | EndShutdown => "shutdown"
  | EndIo _ => "io_error"
  end.

(* tcp/io/listener.rs:211-239 Observation *)
Record Observation {A : Type} : Type := mkObservation {
  id : Z;
  local : A;
  peer : A;
  accepted_unix : Z;
  elapsed : Z;
  bytes_read : Z;
  bytes_written : Z;
  server_identification : bytes;
  client_identification : option TcpIdentification.t;
  messages : list SkippedMessage;
  proposal : option Proposal;
  stage : ObserverStage;
  end_ : ObservationEnd
}.
Arguments Observation : clear implicits.
Arguments mkObservation {A}.

Section updates.
Context {A : Type}.
Implicit Types o : Observation A.

Definition with_times o (elapsed : Z) (e : ObservationEnd) : Observation A :=
  mkObservation (id o) (local o) (peer o) (accepted_unix o) elapsed (bytes_read o) (bytes_written o)
    (server_identification o) (client_identification o) (messages o) (proposal o) (stage o) e.

Definition with_counts o (read written : Z) : Observation A :=
  mkObservation (id o) (local o) (peer o) (accepted_unix o) (elapsed o) read written
    (server_identification o) (client_identification o) (messages o) (proposal o) (stage o) (end_ o).

Definition with_content o (ci : option TcpIdentification.t) (ms : list SkippedMessage)
    (pr : option Proposal) (st : ObserverStage) : Observation A :=
  mkObservation (id o) (local o) (peer o) (accepted_unix o) (elapsed o) (bytes_read o) (bytes_written o)
    (server_identification o) ci ms pr st (end_ o).

Definition with_stage o (st : ObserverStage) : Observation A :=
  with_content o (client_identification o) (messages o) (proposal o) st.

(* tcp/io/listener.rs:700-703 drive *)
Definition record_event o (e : ObserverEvent) : Observation A :=
  match e with
  | OeClientIdentification i => with_content o (Some i) (messages o) (proposal o) (stage o)
  | OeSkipped m => with_content o (client_identification o) (messages o ++ [m]) (proposal o) (stage o)
  end.

(* tcp/io/listener.rs:704-710 drive *)
Definition record_outcome o (outcome : ObservationOutcome) : Observation A :=
  with_content o (client_identification o) (messages o)
    (match outcome with OoProposal p => Some p | _ => proposal o end) ObFinished.

(* tcp/io/listener.rs:697-712 drive *)
Fixpoint drain (fuel : nat) (observer : Observer.t) (obs : Observation A)
    : run (Observer.t * Observation A * option ObservationOutcome) :=
  match fuel with
  | O => Spins
  | S fuel =>
      match Observer.step observer with
      | None => Panics
      | Some (observer, ObNeedMore) => Done (observer, obs, None)
      | Some (observer, ObEvent e) => drain fuel observer (record_event obs e)
      | Some (observer, ObFinishedWith outcome) => Done (observer, record_outcome obs outcome, Some outcome)
      end
  end.
End updates.

Section driver.
Context `{Sm : Seam} `{Sh : !Shared Sm} {A : Type}.
Implicit Types obs : Observation A.

(** A poll shorter than a millisecond is one millisecond. *)
(* tcp/io/listener.rs:721-721 drive *)
Definition poll_slice (config : ListenerConfig A) (remaining : Z) : Z :=
  Z.min remaining (Z.max (poll_interval config) 1000000).

(** Slicing the read buffer past its end is a panic. *)
(* tcp/io/listener.rs:695-745 drive *)
Fixpoint read_loop (fuel : nat) (observer : Observer.t) obs (deadline : Z) (config : ListenerConfig A) (w : World)
    : run (World * Observer.t * Observation A * ObservationEnd) :=
  match fuel with
  | O => Spins
  | S fuel =>
      match drain (S (length (InputBuffer.buf (Observer.buf observer)))) observer obs with
      | Panics => Panics
      | Spins => Spins
      | Done (observer, obs, Some outcome) => Done (w, observer, obs, EndObserver outcome)
      | Done (observer, obs, None) =>
          let obs := with_stage obs (Observer.stage observer) in
          let '(w, stop) := stop_load w in
          if (stop : bool) then Done (w, observer, obs, EndShutdown)
          else
          let want := want_of (cfg_read_chunk config) (Observer.room observer) in
          let '(w, r) := timed_read (poll_slice config) want deadline w in
          match r with
          | DeadlinePassed => Done (w, observer, obs, EndTimedOut)
          | TimeoutRefused e => Done (w, observer, obs, EndIo e)
          | ReadResult r =>
              if cfg_read_chunk config <? want then Panics
              else
              match r with
              | Ok [] =>
                  let '(observer, outcome) := Observer.input_ended observer in
                  Done (w, observer, with_stage obs ObFinished, EndObserver outcome)
              | Ok data =>
                  let obs := with_counts obs (bytes_read obs + zlen data) (bytes_written obs) in
                  read_loop fuel (Observer.feed observer data) obs deadline config w
              | Err e =>
                  match kind e with
                  | WouldBlock | TimedOut | Interrupted => read_loop fuel observer obs deadline config w
                  | _ => Done (w, observer, obs, EndIo e)
                  end
              end
          end
      end
  end.

(* tcp/io/listener.rs:678-746 drive *)
Definition drive (fuel : nat) (observer : Observer.t) obs (deadline : Z) (config : ListenerConfig A) (w : World)
    : run (World * Observer.t * Observation A * ObservationEnd) :=
  let banner := Observer.server_line observer in
  match write_all_by fuel banner deadline w with
  | Panics => Panics
  | Spins => Spins
  | Done (w, Ok _) =>
      read_loop fuel observer (with_counts obs (bytes_read obs) (bytes_written obs + zlen banner)) deadline config w
  | Done (w, Err e) =>
      Done (w, observer, obs, match kind e with TimedOut => EndTimedOut | _ => EndIo e end)
  end.

Context `{Sk : !Socket Sm}.

(* tcp/io/listener.rs:644-658 observe_connection *)
Definition new_observation (id : Z) (local peer : A) (accepted_unix : Z) (observer : Observer.t) : Observation A :=
  mkObservation id local peer accepted_unix 0 0 0 (Observer.server_identification_line observer)
    None [] None ObClientIdentification EndTimedOut.

(* tcp/io/listener.rs:630-676 observe_connection *)
Definition observe_connection (fuel : nat) (id : Z) (local peer : A) (accepted_at : Z)
    (config : ListenerConfig A) (w : World) : run (World * Observation A) :=
  let '(w, accepted_unix) := unix_now w in
  let deadline := accepted_at + connection_timeout config in
  match Observer.new (cfg_observer config) with
  | Err _ => Panics
  | Ok observer =>
      let w := set_nodelay w in
      match drive fuel observer (new_observation id local peer accepted_unix observer) deadline config w with
      | Panics => Panics
      | Spins => Spins
      | Done (w, _, obs, e) =>
          let w := shutdown_both w in
          let '(w, now) := clock_now w in
          Done (w, with_times obs (now - accepted_at) e)
      end
  end.
End driver.
End ObserverDriver.
