(* ===== verification/DriversProofs.v ===== *)
(** * The drivers: calls, deadlines and fuel

    A seam that records the calls made through it, the discipline every driver
    keeps on that record, and the lemmas on the shared parts of the drivers
    ([write_all_by], [timed_read]): what they send and receive, and that the
    deadline bounds how often they loop on any seam whose socket calls take
    time. *)

From S2P Require Import Prelude WireError Seam Packet Drivers.

(** ** Recording *)

Inductive Call : Type :=
| CallNow (t : Z)
| CallSetRead (d : Z) (r : result unit IoError)
| CallSetWrite (d : Z) (r : result unit IoError)
| CallRead (want : Z) (r : result bytes IoError)
| CallWrite (data : bytes) (r : result Z IoError)
| CallFlush (r : result unit IoError)
| CallStop (b : bool)
| CallShutdown.

Definition logging {W A} (f : W -> W * A) (c : A -> Call) (w : W * list Call) : (W * list Call) * A :=
  let '(w', a) := f (fst w) in ((w', snd w ++ [c a]), a).

(** Any seam, with a log of the calls made. *)
Definition traced (Sm : Seam) : Seam := {|
  World := @World Sm * list Call;
  conn_read n := logging (conn_read n) (CallRead n);
  conn_write d := logging (conn_write d) (CallWrite d);
  conn_flush := logging conn_flush CallFlush;
  conn_set_read_timeout d := logging (conn_set_read_timeout d) (CallSetRead d);
  conn_set_write_timeout d := logging (conn_set_write_timeout d) (CallSetWrite d);
  clock_now := logging clock_now CallNow
|}.

Definition unlogged {W A} (f : W -> W * A) (w : W * list Call) : (W * list Call) * A :=
  let '(w', a) := f (fst w) in ((w', snd w), a).

Definition traced_shared (Sm : Seam) (Sh : Shared Sm) : Shared (traced Sm) :=
  Build_Shared (traced Sm) (logging stop_load CallStop) (unlogged unix_now).

Definition traced_socket (Sm : Seam) (Sk : Socket Sm) : Socket (traced Sm) :=
  Build_Socket (traced Sm) SocketAddr (unlogged peer_addr) (unlogged local_addr)
    (fun w => (set_nodelay (fst w), snd w))
    (fun w => (shutdown_both (fst w), snd w ++ [CallShutdown])).

(** The bytes the peer was sent, and the chunks it was seen to send. *)
Fixpoint sent (log : list Call) : bytes :=
  match log with
  | [] => []
  | CallWrite d (Ok n) :: log => ztake n d ++ sent log
  | _ :: log => sent log
  end.

Fixpoint heard (log : list Call) : list bytes :=
  match log with
  | [] => []
  | CallRead _ (Ok (b :: d)) :: log => (b :: d) :: heard log
  | _ :: log => heard log
  end.

Lemma sent_app l1 l2 : sent (l1 ++ l2) = sent l1 ++ sent l2.
Proof.
  induction l1 as [|c l1 IH]; [done|]. simpl. destruct c as [| | | |d [n|e]| | |]; simpl; try exact IH.
  by rewrite IH, (assoc_L (++)).
Qed.

Lemma heard_app l1 l2 : heard (l1 ++ l2) = heard l1 ++ heard l2.
Proof.
  induction l1 as [|c l1 IH]; [done|]. simpl. destruct c as [| | |n [[|b d]|e]| | | |]; simpl; try exact IH.
  by rewrite IH.
Qed.

(** ** Discipline

    Where a call may stand: a timeout is set only right after the clock was
    read before the deadline, to the time then remaining (its [slice] for a
    read); a read or write only right after its timeout was accepted; reads ask
    for at least one byte. *)
Inductive Armed : Type := Idle | Clocked (t : Z) | ReadArmed | WriteArmed.

Definition armed_by (r : result unit IoError) (a : Armed) : Armed := match r with Ok _ => a | Err _ => Idle end.

Definition pace1 (slice : Z -> Z) (deadline : Z) (a : Armed) (c : Call) : option Armed :=
  match c, a with
  | CallNow t, _ => Some (Clocked t)
  | CallSetRead d r, Clocked t =>
      if (t <? deadline) && (d =? slice (deadline - t)) then Some (armed_by r ReadArmed) else None
  | CallSetWrite d r, Clocked t =>
      if (t <? deadline) && (d =? deadline - t) then Some (armed_by r WriteArmed) else None
  | CallRead want _, ReadArmed => if 1 <=? want then Some Idle else None
  | CallWrite _ _, WriteArmed => Some Idle
  | (CallFlush _ | CallStop _ | CallShutdown), _ => Some Idle
  | _, _ => None
  end.

Fixpoint pace (slice : Z -> Z) (deadline : Z) (a : Armed) (log : list Call) : option Armed :=
  match log with
  | [] => Some a
  | c :: log => let* a := pace1 slice deadline a c in pace slice deadline a log
  end.

Definition disciplined (slice : Z -> Z) (deadline : Z) (log : list Call) : Prop :=
  forall a, is_Some (pace slice deadline a log).

Lemma pace_app slice deadline a l1 l2 :
  pace slice deadline a (l1 ++ l2) = (let* a := pace slice deadline a l1 in pace slice deadline a l2).
Proof.
  revert a. induction l1 as [|c l1 IH]; intros a; [done|]. simpl. destruct (pace1 slice deadline a c); [apply IH|done].
Qed.

Lemma disciplined_nil slice deadline : disciplined slice deadline [].
Proof. intros a. by eexists. Qed.

Lemma disciplined_app slice deadline l1 l2 :
  disciplined slice deadline l1 -> disciplined slice deadline l2 -> disciplined slice deadline (l1 ++ l2).
Proof. intros H1 H2 a. rewrite pace_app. destruct (H1 a) as [b ->]. apply H2. Qed.

(** The calls that look at the deadline or say it has passed, for a driver that
    gives every call the whole time left (the probe and the handshake); a read
    of the observer only waits for a poll, and ObserverRun.v does not count it. *)
Definition late1 (deadline : Z) (c : Call) : Prop :=
  match c with
  | CallNow t => deadline <= t
  | CallSetRead _ (Err e) | CallSetWrite _ (Err e) | CallRead _ (Err e)
  | CallWrite _ (Err e) | CallFlush (Err e) => is_timeout e = true
  | _ => False
  end.

(** Evidence that time ran out. *)
Definition late (deadline : Z) (log : list Call) : Prop := Exists (late1 deadline) log.

Lemma late_app_l deadline l1 l2 : late deadline l1 -> late deadline (l1 ++ l2).
Proof. intros H. apply Exists_app. by left. Qed.

Lemma late_app_r deadline l1 l2 : late deadline l2 -> late deadline (l1 ++ l2).
Proof. intros H. apply Exists_app. by right. Qed.

(** The last call of a log. *)
Definition ends_with (P : Call -> Prop) (log : list Call) : Prop := exists c, last log = Some c /\ P c.

Lemma ends_with_snoc (P : Call -> Prop) l c : P c -> ends_with P (l ++ [c]).
Proof. intros Hc. exists c. by rewrite last_snoc. Qed.

Lemma ends_with_app_r P l1 l2 : ends_with P l2 -> ends_with P (l1 ++ l2).
Proof. intros (c & Hl & Hc). exists c. by rewrite last_app, Hl. Qed.

Lemma ends_with_late (P : Call -> Prop) deadline l :
  (forall c, P c -> late1 deadline c) -> ends_with P l -> late deadline l.
Proof.
  intros HP (c & Hl & Hc). apply Exists_exists. exists c. split; [|by apply HP].
  by apply last_Some_elem_of.
Qed.

(** The call that made [write_all_by] fail with [e]. *)
Definition write_stop (deadline : Z) (e : IoError) (c : Call) : Prop :=
  match c with
  | CallNow t => deadline <= t /\ e = io_error TimedOut
  | CallWrite _ (Ok n) => n = 0 /\ e = io_error WriteZero
  | CallWrite _ (Err e') => e = match kind e' with WouldBlock => io_error TimedOut | _ => e' end
  | CallSetWrite _ (Err e') | CallFlush (Err e') => e = e'
  | _ => False
  end.

Lemma write_stop_late deadline e c : write_stop deadline e c -> is_timeout e = true -> late1 deadline c.
Proof.
  destruct c as [t|d r|d [[]|e']|n r|d [n|e']|[[]|e']|b|]; simpl; try done.
  - intros [H _] _. exact H.
  - by intros <-.
  - by intros [_ ->].
  - intros ->. unfold is_timeout. by destruct (kind e') eqn:Ek; simpl; rewrite ?Ek.
  - by intros <-.
Qed.

(** The call that ended a timed read that did not receive. *)
Definition read_stop (deadline : Z) (r : timed_read_result) (c : Call) : Prop :=
  match r with
  | DeadlinePassed => exists t, c = CallNow t /\ deadline <= t
  | TimeoutRefused e => exists d, c = CallSetRead d (Err e)
  | ReadResult r => exists n, c = CallRead n r
  end.

Create HintDb driver.
#[export] Hint Resolve disciplined_nil disciplined_app late_app_l late_app_r : driver.

(** ** Time *)

(** A clock that never goes back, and socket calls that take time: what bounds
    a loop that ends when the deadline has passed. *)
Class Ticking (Sm : Seam) : Type := {
  time : World -> Z;
  tick_now : forall w, time w <= snd (clock_now w) <= time (fst (clock_now w));
  tick_read : forall n w, time w < time (fst (conn_read n w));
  tick_write : forall d w, time w < time (fst (conn_write d w));
  tick_flush : forall w, time w <= time (fst (conn_flush w));
  tick_set_read : forall d w, time w <= time (fst (conn_set_read_timeout d w));
  tick_set_write : forall d w, time w <= time (fst (conn_set_write_timeout d w))
}.

(** Fuel that outlasts the time left. *)
Definition outlasts {Sm} `{!Ticking Sm} (fuel : nat) (deadline : Z) (w : @World Sm) : Prop :=
  Z.max 0 (deadline - time w) < Z.of_nat fuel.

Section ticking.
Context {Sm : Seam} `{Tk : !Ticking Sm}.

Lemma remaining_until_ticks deadline w :
  let '(w', r) := remaining_until deadline w in
  time w <= time w' /\ match r with Some _ => time w < deadline | None => True end.
Proof.
  unfold remaining_until. pose proof (tick_now w) as Hn. destruct (clock_now w) as [w' t]. simpl in Hn.
  destruct (Z.ltb_spec t deadline); lia.
Qed.

(** With fuel that outlasts the time left a write ends, and a write that
    delivered anything took time. *)
Lemma write_loop_ends fuel data written deadline w :
  outlasts fuel deadline w ->
  exists w' r, write_loop fuel data written deadline w = Done (w', r) /\ time w <= time w' /\
    (r = Ok tt -> written < zlen data -> time w < time w' /\ time w < deadline).
Proof.
  unfold outlasts. revert written w. induction fuel as [|fuel IH]; intros written w Hf; [lia|]. cbn [write_loop].
  destruct (Z.ltb_spec written (zlen data)); last first.
  { pose proof (tick_flush w). destruct (conn_flush w) as [w1 r]. eexists _, _; split_and!; [done|done|lia]. }
  pose proof (remaining_until_ticks deadline w) as Hr. destruct (remaining_until deadline w) as [w1 [rem|]];
    [|eexists _, _; split_and!; [done|lia|done]].
  pose proof (tick_set_write rem w1) as Hs. destruct (conn_set_write_timeout rem w1) as [w2 [u|e]]; simpl in Hs;
    [|eexists _, _; split_and!; [done|lia|done]].
  pose proof (tick_write (zdrop written data) w2) as Hw. destruct (conn_write _ w2) as [w3 r3]. simpl in Hw.
  assert (forall n, exists w' r, write_loop fuel data n deadline w3 = Done (w', r) /\ time w < time w') as Hrec.
  { intros n. destruct (IH n w3) as (w' & r & -> & Ht & _); [lia|]. eexists _, _; split; [done|lia]. }
  destruct r3 as [n|e].
  - destruct (n =? 0); [eexists _, _; split_and!; [done|lia|done]|].
    destruct (Hrec (written + n)) as (w' & r & -> & ?). eexists _, _; split_and!; [done|lia|lia].
  - destruct (Hrec written) as (w' & r & Hw' & ?).
    destruct (kind e); eexists _, _; split_and!; done || lia.
Qed.

(** A timed read that returned a result took time, and had it. *)
Lemma timed_read_ticks slice want deadline w :
  let '(w', r) := timed_read slice want deadline w in
  time w <= time w' /\ match r with ReadResult _ => time w < time w' /\ time w < deadline | _ => True end.
Proof.
  unfold timed_read. pose proof (remaining_until_ticks deadline w) as Hr.
  destruct (remaining_until deadline w) as [w1 [rem|]]; [|lia].
  pose proof (tick_set_read (slice rem) w1) as Hs. destruct (conn_set_read_timeout _ w1) as [w2 [u|e]]; simpl in Hs; [|lia].
  pose proof (tick_read want w2) as Hw. destruct (conn_read want w2) as [w3 r]. simpl in Hw. lia.
Qed.
End ticking.

(** ** What the shared parts do *)

(** The log of a world of the traced seam. *)
Abbreviation logged w := (snd w : list Call).

Section traced.
Context {Sm : Seam}.
Implicit Types w : @World (traced Sm).

(** [w'] comes after [w], by the disciplined calls [l]. *)
Definition adds (slice : Z -> Z) (deadline : Z) w w' (l : list Call) : Prop :=
  logged w' = logged w ++ l /\ disciplined slice deadline l.

Lemma adds_nil slice deadline w : adds slice deadline w w [].
Proof. split; [by rewrite app_nil_r|apply disciplined_nil]. Qed.

Lemma adds_app slice deadline w1 w2 w3 l1 l2 :
  adds slice deadline w1 w2 l1 -> adds slice deadline w2 w3 l2 -> adds slice deadline w1 w3 (l1 ++ l2).
Proof. intros [E1 D1] [E2 D2]. split; [by rewrite E2, E1, (assoc_L (++))|by apply disciplined_app]. Qed.

Lemma remaining_until_log deadline w :
  exists t, let '(w', r) := remaining_until (Sm := traced Sm) deadline w in
  logged w' = logged w ++ [CallNow t] /\ r = if t <? deadline then Some (deadline - t) else None.
Proof. unfold remaining_until, clock_now; simpl. unfold logging. destruct (clock_now (fst w)) as [w' t]. by exists t. Qed.

Lemma logging_log {W A} (f : W -> W * A) (c : A -> Call) (w : W * list Call) :
  let '(w', a) := logging f c w in logged w' = logged w ++ [c a].
Proof. unfold logging. by destruct (f (fst w)). Qed.

(** The steps of one round of [write_all_by] and of a timed read. *)
Lemma disciplined_late slice deadline t : disciplined slice deadline [CallNow t].
Proof. intros a. by eexists. Qed.

Lemma disciplined_refused slice deadline t r :
  t < deadline -> disciplined slice deadline [CallNow t; CallSetRead (slice (deadline - t)) r].
Proof.
  intros Ht a. simpl. destruct (Z.ltb_spec t deadline); [|lia]. rewrite Z.eqb_refl. by eexists.
Qed.

Lemma disciplined_read slice deadline t u want r :
  t < deadline -> 1 <= want ->
  disciplined slice deadline [CallNow t; CallSetRead (slice (deadline - t)) (Ok u); CallRead want r].
Proof.
  intros Ht Hw a. simpl. destruct (Z.ltb_spec t deadline); [|lia]. rewrite Z.eqb_refl. simpl.
  destruct (Z.leb_spec 1 want); [|lia]. by eexists.
Qed.

Lemma disciplined_write slice deadline t r l :
  t < deadline -> (l = [] \/ (exists d r', r = Ok tt /\ l = [CallWrite d r'])) ->
  disciplined slice deadline (CallNow t :: CallSetWrite (deadline - t) r :: l).
Proof.
  intros Ht Hl a. simpl. destruct (Z.ltb_spec t deadline); [|lia]. rewrite Z.eqb_refl. simpl.
  destruct Hl as [->|(d & r' & -> & ->)]; by eexists.
Qed.

Lemma disciplined_flush slice deadline r : disciplined slice deadline [CallFlush r].
Proof. intros a. by eexists. Qed.

(** A timed read within its deadline discipline, and what it received. *)
Lemma timed_read_last slice want deadline w :
  1 <= want -> exists l, let '(w', r) := timed_read (Sm := traced Sm) slice want deadline w in
  adds slice deadline w w' l /\ sent l = [] /\
  heard l = (match r with ReadResult (Ok (b :: d)) => [b :: d] | _ => [] end) /\
  ends_with (read_stop deadline r) l.
Proof.
  intros Hw. unfold timed_read. destruct (remaining_until_log deadline w) as (t & Ht).
  destruct (remaining_until deadline w) as [w1 r1]. destruct Ht as [Hl1 ->].
  destruct (Z.ltb_spec t deadline); last first.
  { exists [CallNow t]. split_and!; [split; [done|apply disciplined_late]|done|done|]. eexists; split; [done|by eexists]. }
  cbn [conn_set_read_timeout traced].
  pose proof (logging_log (conn_set_read_timeout (slice (deadline - t))) (CallSetRead (slice (deadline - t))) w1) as Hl2.
  destruct (logging _ _ w1) as [w2 [[]|e]]; last first.
  { exists [CallNow t; CallSetRead (slice (deadline - t)) (Err e)]. split_and!; [|done|done|eexists; split; [done|by eexists]].
    split; [rewrite Hl2, Hl1; by rewrite <- (assoc_L (++))|by apply disciplined_refused]. }
  cbn [conn_read traced]. pose proof (logging_log (conn_read want) (CallRead want) w2) as Hl3.
  destruct (logging _ _ w2) as [w3 r3].
  exists [CallNow t; CallSetRead (slice (deadline - t)) (Ok tt); CallRead want r3].
  split_and!; [|done|by destruct r3 as [[|]|]|eexists; split; [done|by eexists]].
  split; [rewrite Hl3, Hl2, Hl1; by rewrite <- !(assoc_L (++))|by apply disciplined_read].
Qed.

(** When the whole remaining time was given to the read, a timeout means that
    it has passed. *)
Lemma timed_read_log slice want deadline w :
  1 <= want -> exists l, let '(w', r) := timed_read (Sm := traced Sm) slice want deadline w in
  adds slice deadline w w' l /\ sent l = [] /\
  heard l = (match r with ReadResult (Ok (b :: d)) => [b :: d] | _ => [] end) /\
  (r = DeadlinePassed \/ (exists e, (r = TimeoutRefused e \/ r = ReadResult (Err e)) /\ is_timeout e = true) ->
     late deadline l).
Proof.
  intros Hw. destruct (timed_read_last slice want deadline w Hw) as (l & Hl). exists l.
  destruct (timed_read slice want deadline w) as [w' r]. destruct Hl as (?&?&?&He). split_and!; [done..|].
  intros [->|(e & [->| ->] & Ht)]; (eapply ends_with_late, He); simpl; [by intros c (t & -> & ?)|by intros c (t & ->)..].
Qed.

#[export] Instance traced_laws : SeamLaws Sm -> SeamLaws (traced Sm).
Proof.
  intros L. split.
  - intros n [w l] w' d Hn. cbn. unfold logging. cbn [fst snd]. destruct (conn_read n w) as [w1 r] eqn:E. intros Hq%(f_equal snd). simpl in Hq. subst r.
    by eapply conn_read_len.
  - intros d [w l] w' n. cbn. unfold logging. cbn [fst snd]. destruct (conn_write d w) as [w1 r] eqn:E. intros Hq%(f_equal snd). simpl in Hq. subst r.
    by eapply conn_write_len.
Qed.

(** What a write delivers: the data in order, all of it when it succeeds, a
    prefix when it fails; the last call says why. *)
Lemma write_loop_last `{!SeamLaws Sm} slice fuel data written deadline w w' r :
  0 <= written <= zlen data ->
  write_loop (Sm := traced Sm) fuel data written deadline w = Done (w', r) ->
  exists l rest, adds slice deadline w w' l /\ heard l = [] /\ zdrop written data = sent l ++ rest /\
    (r = Ok tt -> rest = []) /\ (forall e, r = Err e -> ends_with (write_stop deadline e) l).
Proof.
  revert written w. induction fuel as [|fuel IH]; intros written w Hwr; [done|]. cbn [write_loop].
  destruct (Z.ltb_spec written (zlen data)); last first.
  { cbn [conn_flush traced]. pose proof (logging_log conn_flush CallFlush w) as Hl.
    destruct (logging _ _ w) as [w1 r1]. intros [= <- <-]. exists [CallFlush r1], []. split_and!.
    - split; [done|apply disciplined_flush].
    - done.
    - simpl. apply zdrop_all. lia.
    - done.
    - intros e ->. by apply (ends_with_snoc _ []). }
  destruct (remaining_until_log deadline w) as (t & Ht).
  destruct (remaining_until deadline w) as [w1 r1]. destruct Ht as [Hl1 ->].
  destruct (Z.ltb_spec t deadline); last first.
  { intros [= <- <-]. exists [CallNow t], (zdrop written data). split_and!; try done.
    - split; [done|apply disciplined_late].
    - intros e [= <-]. by apply (ends_with_snoc _ []). }
  cbn [conn_set_write_timeout traced].
  pose proof (logging_log (conn_set_write_timeout (deadline - t)) (CallSetWrite (deadline - t)) w1) as Hl2.
  destruct (logging _ _ w1) as [w2 [[]|e]]; last first.
  { intros [= <- <-]. exists [CallNow t; CallSetWrite (deadline - t) (Err e)], (zdrop written data). split_and!; try done.
    - split; [by rewrite Hl2, Hl1, <- (assoc_L (++))|]. apply disciplined_write; [done|by left].
    - intros e' [= <-]. by apply (ends_with_snoc _ [_]). }
  cbn [conn_write traced]. pose proof (logging_log (conn_write (zdrop written data)) (CallWrite (zdrop written data)) w2) as Hl3.
  pose proof (conn_write_len (Sm := traced Sm) (zdrop written data) w2) as Hlen. cbn [conn_write traced] in Hlen.
  destruct (logging _ _ w2) as [w3 r3]. specialize (Hlen w3).
  set (round := [CallNow t; CallSetWrite (deadline - t) (Ok tt); CallWrite (zdrop written data) r3]).
  assert (adds slice deadline w w3 round) as Hround.
  { split; [by rewrite Hl3, Hl2, Hl1, <- !(assoc_L (++))|]. apply disciplined_write; [done|right; eauto]. }
  assert (heard round = []) as Hrecv by done.
  destruct r3 as [n|e].
  - specialize (Hlen n eq_refl). rewrite zlen_zdrop in Hlen by lia.
    assert (sent round = ztake n (zdrop written data)) as Hs by apply app_nil_r.
    destruct (Z.eqb_spec n 0) as [->|Hn].
    + intros [= <- <-]. exists round, (zdrop written data). split_and!; try done. intros e [= <-]. by apply (ends_with_snoc _ [_; _]).
    + intros Hrec. destruct (IH (written + n) w3 ltac:(lia) Hrec) as (l & rest & Ha & Hr & Hd & Hok & Hlate).
      exists (round ++ l), rest. split_and!; [by eapply adds_app|by rewrite heard_app, Hrecv, Hr| |done|].
      * rewrite sent_app, Hs, <- (assoc_L (++)), <- Hd.
        replace (zdrop (written + n) data) with (zdrop n (zdrop written data)); [by rewrite ztake_zdrop|].
        by rewrite zdrop_zdrop by lia.
      * intros e He. apply ends_with_app_r. by apply Hlate.
  - assert (sent round = []) as Hs by done. destruct (kind e) eqn:Ek; try (intros [= <- <-]; exists round, (zdrop written data); split_and!; try done;
      intros e' [= <-]; apply (ends_with_snoc _ [_; _]); simpl; by rewrite Ek).
    intros Hrec. destruct (IH written w3 ltac:(lia) Hrec) as (l & rest & Ha & Hr & Hd & Hok & Hlate).
    exists (round ++ l), rest. split_and!; [by eapply adds_app|by rewrite heard_app, Hrecv, Hr| |done|].
    + by rewrite sent_app, Hs.
    + intros e' He. apply ends_with_app_r. by apply Hlate.
Qed.

(** A failure that counts as a timeout has evidence. *)
Lemma write_loop_log `{!SeamLaws Sm} slice fuel data written deadline w w' r :
  0 <= written <= zlen data ->
  write_loop (Sm := traced Sm) fuel data written deadline w = Done (w', r) ->
  exists l rest, adds slice deadline w w' l /\ heard l = [] /\ zdrop written data = sent l ++ rest /\
    (r = Ok tt -> rest = []) /\ (forall e, r = Err e -> is_timeout e = true -> late deadline l).
Proof.
  intros Hw Hr. destruct (write_loop_last slice _ _ _ _ _ _ _ Hw Hr) as (l & rest & ?&?&?&?& He).
  exists l, rest. split_and!; [done..|]. intros e He1 He2. eapply ends_with_late, (He e He1).
  intros c Hc. by eapply write_stop_late.
Qed.

Lemma timed_read_len `{!SeamLaws Sm} slice want deadline w :
  1 <= want -> forall d, snd (timed_read (Sm := traced Sm) slice want deadline w) = ReadResult (Ok d) -> zlen d <= want.
Proof.
  intros Hw d. unfold timed_read. destruct (remaining_until deadline w) as [w1 [rem|]]; [|done].
  destruct (conn_set_read_timeout _ w1) as [w2 [u|e]]; [|done].
  destruct (conn_read want w2) as [w3 r] eqn:E. intros [= ->]. eapply (conn_read_len (Sm := traced Sm)); [|exact E]. lia.
Qed.
End traced.

(** ** Two networks for examples *)

(** A peer that sends one byte every ten ticks, forever. *)
Module Trickle.
#[export] Instance trickle_seam : Seam := {|
  World := Z;
  conn_read n w := (w + 10, Ok (ztake n [x78]));
  conn_write d w := (w + 1, Ok (zlen d));
  conn_flush w := (w, Ok tt);
  conn_set_read_timeout _ w := (w, Ok tt);
  conn_set_write_timeout _ w := (w, Ok tt);
  clock_now w := (w, w)
|}.

#[export] Instance trickle_laws : SeamLaws trickle_seam.
Proof.
  split.
  - intros n w w' d Hn [= <- <-]. rewrite zlen_ztake_min by lia. lia.
  - intros d w w' n [= <- <-]. pose proof (zlen_nonneg d). lia.
Qed.

#[export] Instance trickle_ticks : Ticking trickle_seam.
Proof. refine {| time := (id : @World trickle_seam -> Z) |}; intros; cbn; unfold id; lia. Defined.
End Trickle.

(** The scripted connection as a socket, of a process that is never stopped. *)
Definition scripted_socket : Socket Scripted.scripted_seam :=
  Build_Socket Scripted.scripted_seam unit (fun w => (w, Ok tt)) (fun w => (w, Ok tt)) id id.

Definition scripted_shared : Shared Scripted.scripted_seam :=
  Build_Shared Scripted.scripted_seam (fun w => (w, false)) (fun w => (w, 0)).
