(* ===== verification/ProbeRun.v ===== *)
(** * The probe driver

    What a run of [ProbeDriver.drive] reports, over any network: its events and
    outcome are those of the bytes the server was seen to send, however they
    were split and delayed, and the deadline bounds the run. *)

From S2P Require Import Prelude WireError NameList Primitives Messages KexInit WireIdent TcpIdent Packet.
From S2P Require Import Initial Probe Seam Drivers DriversProofs.

Import ProbeDriver.

(** ** Draining *)

Lemma drain_drains fuel p events :
  probe_inv p -> zlen (InputBuffer.buf (Probe.buf p)) < Z.of_nat fuel ->
  exists evs q o, drain fuel p events = Done (q, events ++ evs, o) /\ drains p evs q o /\
    (o = None -> 0 < Probe.room q).
Proof.
  revert p events. induction fuel as [|fuel IH]; intros p events Hi Hf.
  { pose proof (zlen_nonneg (InputBuffer.buf (Probe.buf p))). lia. }
  cbn [drain]. destruct (probe_step_spec p Hi) as (p1 & r & Hs & (Hi1 & Hc1 & Hr)). rewrite Hs. destruct r as [|ev|e].
  - destruct Hr as [-> Hroom]. exists [], p, None. rewrite app_nil_r. split_and!; [done|by constructor|done].
  - destruct Hr as [_ Hlt]. destruct (IH p1 (events ++ [ev]) Hi1) as (evs & q & o & -> & Hd & Ho); [lia|].
    exists (ev :: evs), q, o. rewrite <- (assoc_L (++)). split_and!; [done|by econstructor|done].
  - exists [], p1, (Some e). rewrite app_nil_r. split_and!; [done|by constructor|done].
Qed.

Lemma want_fits chunk room : 0 < room -> 1 <= want_of (Z.max chunk 1) room <= room.
Proof. unfold want_of. lia. Qed.

(** ** Reports *)

(** The end [e] of a run that drained its input to [q] with outcome [o]. *)
Definition reports (q : Probe.t) (o : option ProbeEnd) (e : RunEnd) : Prop :=
  match o with
  | Some x => e = EndProbe x
  | None =>
      e = EndProbe (EndEof (Probe.stage q) (Probe.pending_bytes q)) \/ e = timed_out q \/
      exists err, e = EndIo (Probe.stage q) err
  end.

Section driver.
Context {Sm : Seam} `{SL : !SeamLaws Sm}.
Implicit Types w : @World (traced Sm).

(** What the reads so far, [ds], and the events so far, [evs], have to do with
    the probe [p0] the run began with: whatever arrives next, the probe [p]
    goes on as [p0] would have with all of it. *)
Definition gathered (p0 p : Probe.t) (ds : list bytes) (evs : list ProbeEvent) : Prop :=
  let cap := InputBuffer.capacity (Probe.buf p0) in
  probe_inv p /\ Probe.end_ p = None /\ InputBuffer.capacity (Probe.buf p) = cap /\
  forall d evs' q o, drains (extend cap p d) evs' q o ->
    drains (extend cap p0 (concat ds ++ d)) (evs ++ evs') q o.

Lemma extend_nil p : extend (InputBuffer.capacity (Probe.buf p)) p [] = p.
Proof. destruct p as [? ? ? ? [b c] ?]. unfold extend, Probe.set_buf; simpl. by rewrite app_nil_r. Qed.

Lemma gathered_start p : probe_inv p -> Probe.end_ p = None -> gathered p p [] [].
Proof. by intros Hi He. Qed.

Lemma gathered_drained p0 p ds evs evs' q o :
  gathered p0 p ds evs -> drains p evs' q o ->
  drains (extend (InputBuffer.capacity (Probe.buf p0)) p0 (concat ds)) (evs ++ evs') q o.
Proof.
  intros (_ & _ & Hc & Hg) Hd. rewrite <- (app_nil_r (concat ds)). apply Hg. by rewrite <- Hc, extend_nil.
Qed.

Lemma gathered_read p0 p ds evs evs' q d :
  gathered p0 p ds evs -> drains p evs' q None -> fits q d ->
  gathered p0 (Probe.feed q d) (ds ++ [d]) (evs ++ evs').
Proof.
  intros (Hi & He & Hc & Hg) Hd Hf. destruct (drains_inv _ _ _ _ Hd Hi) as (Hiq & (_ & _ & _ & Hcq) & Heq).
  specialize (Heq eq_refl He).
  assert (Probe.stage q <> StFinished) as Hsq by (destruct Hiq as (_ & _ & _ & _ & Hfin); naive_solver).
  split; [by apply feed_inv|]. rewrite feed_fits by done. split_and!; [done|by rewrite Hcq|].
  intros d' evs'' q' o Hx. rewrite concat_app, <- !(assoc_L (++)). simpl. rewrite app_nil_r. apply Hg.
  apply (drains_extend _ _ _ _ _ _ Hd Hi He). revert Hx. unfold extend, Probe.set_buf; simpl. by rewrite <- (assoc_L (++)).
Qed.

Lemma gathered_wait p0 p ds evs evs' q :
  gathered p0 p ds evs -> drains p evs' q None -> gathered p0 q ds (evs ++ evs').
Proof.
  intros (Hi & He & Hc & Hg) Hd. destruct (drains_inv _ _ _ _ Hd Hi) as (Hiq & (_ & _ & _ & Hcq) & Heq).
  split; [done|]. split; [by apply Heq|]. split; [congruence|]. intros d evs'' q' o Hx.
  rewrite <- (assoc_L (++)). apply Hg. by apply (drains_extend _ _ _ _ _ _ Hd Hi He).
Qed.

(** The loop reports what the received bytes say. *)
Lemma read_loop_report p0 fuel p ds evs deadline chunk w w' p' events e :
  gathered p0 p ds evs -> read_loop (Sm := traced Sm) fuel p evs deadline chunk w = Done (w', p', events, e) ->
  exists l q o, adds id deadline w w' l /\ sent l = [] /\
    drains (extend (InputBuffer.capacity (Probe.buf p0)) p0 (concat (ds ++ heard l))) events q o /\
    reports q o e /\ (forall s n, e = EndTimedOut s n -> late deadline l).
Proof.
  revert p ds evs w. induction fuel as [|fuel IH]; intros p ds evs w Hg; [done|]. cbn [read_loop].
  destruct (drain_drains (S (length (InputBuffer.buf (Probe.buf p)))) p evs (proj1 Hg))
    as (evs1 & q & o & -> & Hd & Hroom); [unfold zlen; lia|].
  assert (forall l, heard l = [] ->
    drains (extend (InputBuffer.capacity (Probe.buf p0)) p0 (concat (ds ++ heard l))) (evs ++ evs1) q o) as Hend.
  { intros l ->. rewrite app_nil_r. by eapply gathered_drained. }
  destruct o as [x|].
  { intros [= <- <- <- <-]. exists [], q, (Some x). split_and!; [apply adds_nil|done|by apply (Hend [])|done|done]. }
  specialize (Hroom eq_refl). pose proof (want_fits chunk _ Hroom) as Hwant.
  destruct (timed_read_log id _ deadline w (proj1 Hwant)) as (l & Hl).
  pose proof (timed_read_len id _ deadline w (proj1 Hwant)) as Hlen.
  destruct (timed_read id _ deadline w) as [w1 r]. destruct Hl as (Ha & Hs & Hr & Hlate).
  destruct r as [|err|[[|b d]|err]].
  - intros [= <- <- <- <-]. exists l, q, None. split_and!; [done|done|by apply Hend|by right; left|]. intros; apply Hlate; by left.
  - intros [= <- <- <- <-]. exists l, q, None. split_and!; [done|done|by apply Hend|right; right; by eexists|done].
  - destruct (drains_inv _ _ _ _ Hd (proj1 Hg)) as (_ & _ & Heq). specialize (Heq eq_refl (proj1 (proj2 Hg))).
    unfold Probe.input_ended. rewrite Heq.
    intros [= <- <- <- <-]. exists l, q, None. split_and!; [done|done|by apply Hend|by left|done].
  - intros Hrec. assert (fits q (b :: d)) as Hf by (unfold fits; specialize (Hlen (b :: d) eq_refl); lia).
    destruct (IH _ _ _ _ (gathered_read _ _ _ _ _ _ _ Hg Hd Hf) Hrec) as (l' & q' & o' & Ha' & Hs' & Hd' & Hrep & Hl').
    exists (l ++ l'), q', o'. split_and!; [by eapply adds_app|by rewrite sent_app, Hs, Hs'| |done|].
    + by rewrite heard_app, Hr, (assoc_L (++)).
    + intros s n E. apply late_app_r. by eapply Hl'.
  - destruct (is_timeout err) eqn:Et.
    { intros [= <- <- <- <-]. exists l, q, None. split_and!; [done|done|by apply Hend|by right; left|].
      intros; apply Hlate. right. eauto. }
    destruct (kind err); try (intros [= <- <- <- <-]; exists l, q, None; split_and!;
      [done|done|by apply Hend|right; right; by eexists|done]).
    intros Hrec. destruct (IH _ _ _ _ (gathered_wait _ _ _ _ _ _ Hg Hd) Hrec) as (l' & q' & o' & Ha' & Hs' & Hd' & Hrep & Hl').
    exists (l ++ l'), q', o'. split_and!; [by eapply adds_app|by rewrite sent_app, Hs, Hs'| |done|].
    + by rewrite heard_app, Hr.
    + intros s n E. apply late_app_r. by eapply Hl'.
Qed.

(** A whole run: either the client's line went out and the report is that of
    the bytes received, or the line did not go out and nothing was read. *)
Lemma drive_report c p fuel deadline chunk w w' p' events e :
  config_ok c -> Probe.new c = Ok p ->
  drive (Sm := traced Sm) fuel p deadline chunk w = Done (w', p', events, e) ->
  exists l, adds id deadline w w' l /\ (forall s n, e = EndTimedOut s n -> late deadline l) /\
    ((sent l = Probe.client_line p /\ exists q o,
        drains (extend (buffer_capacity c) p (concat (heard l))) events q o /\ reports q o e) \/
     (heard l = [] /\ events = [] /\ sent l `prefix_of` Probe.client_line p /\
        (e = timed_out p \/ exists err, e = EndIo (Probe.stage p) err))).
Proof.
  intros Hc Hn. destruct (probe_new_inv c p Hc Hn) as [Hi He].
  assert (InputBuffer.capacity (Probe.buf p) = buffer_capacity c) as Hcap
    by exact (proj2 (reachable_inv c p Hc (reach_new _ _ Hn))).
  unfold drive, write_all_by. destruct (write_loop fuel _ 0 deadline w) as [[w1 r]| |] eqn:Ew; [|done|done].
  apply (write_loop_log id) in Ew as (l1 & rest & Ha & Hr & Hd & Hok & Hlate); [|pose proof (zlen_nonneg (Probe.client_line p)); lia].
  rewrite zdrop_0 in Hd. destruct r as [[]|err].
  - intros Hrun. destruct (read_loop_report p fuel p [] [] deadline chunk w1 w' p' events e) as
      (l2 & q & o & Ha2 & Hs2 & Hd2 & Hrep & Hl2); [by apply gathered_start|done|].
    exists (l1 ++ l2). split_and!; [by eapply adds_app| |].
    + intros s n E. apply late_app_r. by eapply Hl2.
    + left. rewrite sent_app, Hs2, app_nil_r, heard_app, Hr. split; [by rewrite Hd, Hok, app_nil_r|].
      exists q, o. by rewrite <- Hcap.
  - intros [= <- <- <- <-]. exists l1. split_and!; [done| |].
    + intros s n. destruct (is_timeout err) eqn:Et; [|done]. intros _. by eapply Hlate.
    + right. split_and!; [done|done|by exists rest|]. destruct (is_timeout err); [by left|right; by eexists].
Qed.
End driver.

(** ** Fuel *)

Section fuel.
Context {Sm : Seam} `{SL : !SeamLaws Sm, Tk : !Ticking Sm}.

Lemma probe_loop_ends fuel p evs deadline chunk w :
  probe_inv p -> outlasts fuel deadline w ->
  exists w' p' events e, read_loop fuel p evs deadline chunk w = Done (w', p', events, e).
Proof.
  unfold outlasts. revert p evs w. induction fuel as [|fuel IH]; intros p evs w Hi Hf; [lia|]. cbn [read_loop].
  destruct (drain_drains (S (length (InputBuffer.buf (Probe.buf p)))) p evs Hi)
    as (evs1 & q & o & -> & Hd & _); [unfold zlen; lia|].
  destruct (drains_inv _ _ _ _ Hd Hi) as (Hiq & _ & _).
  destruct o as [x|]; [by eexists _, _, _, _|].
  pose proof (timed_read_ticks id (want_of (Z.max chunk 1) (Probe.room q)) deadline w) as Ht.
  destruct (timed_read id _ deadline w) as [w1 r].
  assert (forall p' evs', probe_inv p' -> (match r with ReadResult _ => True | _ => False end) ->
    exists w' p'' events e, read_loop fuel p' evs' deadline chunk w1 = Done (w', p'', events, e)) as Hrec.
  { intros p' evs' Hp' Hr. apply IH; [done|]. destruct r; [done|done|]. lia. }
  destruct r as [|err|[[|b d]|err]].
  - by eexists _, _, _, _.
  - by eexists _, _, _, _.
  - destruct (Probe.input_ended q). by eexists _, _, _, _.
  - apply Hrec; [|done]. by apply feed_inv.
  - destruct (is_timeout err); [by eexists _, _, _, _|].
    destruct (kind err); try (by eexists _, _, _, _). by apply Hrec.
Qed.

Lemma drive_ends c p fuel deadline chunk w :
  config_ok c -> Probe.new c = Ok p -> outlasts fuel deadline w ->
  exists w' p' events e, drive fuel p deadline chunk w = Done (w', p', events, e).
Proof.
  intros Hc Hn Hf. unfold drive, write_all_by.
  destruct (write_loop_ends fuel (Probe.client_line p) 0 deadline w Hf) as (w1 & r & -> & Ht & _).
  destruct r as [[]|e]; [|by eexists _, _, _, _].
  apply probe_loop_ends; [by apply (probe_new_inv c)|]. unfold outlasts in *. lia.
Qed.
End fuel.

(** ** Properties *)

(** C13: a probe run reports exactly what the server sent: over any network, it
    sends the client's line before it reads anything; its events and its
    outcome are those of the probe given all received bytes at once (so not of
    how reads split or delayed them), a closed or failed connection and a
    timeout carrying the stage and the bytes pending at that point; every
    socket call is bounded by the time then left to the one deadline, and a
    timeout is only reported when that time ran out. *)
Theorem probe_run_faithful {Sm : Seam} `{!SeamLaws Sm} (c : ProbeConfig) (p : Probe.t) (fuel : nat)
    (deadline chunk : Z) (w w' : @World (traced Sm)) p' events e :
  config_ok c -> Probe.new c = Ok p ->
  drive (Sm := traced Sm) fuel p deadline chunk w = Done (w', p', events, e) ->
  exists l, logged w' = logged w ++ l /\ disciplined id deadline l /\
    (forall s n, e = EndTimedOut s n -> late deadline l) /\
    ((sent l = Probe.client_line p /\ exists q o,
        drains (extend (buffer_capacity c) p (concat (heard l))) events q o /\ reports q o e) \/
     (heard l = [] /\ events = [] /\ sent l `prefix_of` Probe.client_line p /\
        (e = timed_out p \/ exists err, e = EndIo (Probe.stage p) err))).
Proof.
  intros Hc Hn Hr. destruct (drive_report c p fuel deadline chunk w w' p' events e Hc Hn Hr) as (l & [E D] & H). eauto.
Qed.

#[local] Existing Instance Scripted.scripted_laws.

(** A server that sends its identification in two pieces and then nothing. *)
Definition two_pieces : Scripted.t :=
  Scripted.new [Scripted.RData (bstr "SSH-2."); Scripted.RElapse 5; Scripted.RErr Interrupted;
                Scripted.RData (bstr "0-x" ++ [CR; LF])]
    [Scripted.WAccept 3; Scripted.WErr Interrupted].

Abbreviation two_pieces_run := (drive (Sm := traced Scripted.scripted_seam) 20 default_probe 100 16 (two_pieces, [])).

Definition two_pieces_events : list ProbeEvent :=
  [EvServerIdentification (TcpIdentification.mk (bstr "SSH-2.0-x") CrLf (bstr "2.0") (bstr "x") None SupSsh2)].

Lemma probe_run_faithful_witness :
  match two_pieces_run with
  | Done (w', _, events, e) =>
      e = EndTimedOut StInitialPackets 0 /\ events = two_pieces_events /\
      late 100 (logged w') /\ disciplined id 100 (logged w')
  | _ => False
  end.
Proof.
  assert (match two_pieces_run with
    | Done (_, _, events, e) => e = EndTimedOut StInitialPackets 0 /\ events = two_pieces_events
    | _ => False end) as Hrun by (vm_compute; split; reflexivity).
  destruct two_pieces_run as [[[[w' p'] events] e]| |] eqn:E; [|exact Hrun|exact Hrun]. destruct Hrun as [He Hev].
  destruct (probe_run_faithful (Sm := Scripted.scripted_seam) ProbeConfig_default default_probe 20 100 16 (two_pieces, []) w' p' events e
    default_config_ok eq_refl E) as (l & El & D & L & _).
  rewrite El. split; [exact He|]. split; [exact Hev|]. split; [exact (L _ _ He)|exact D].
Defined.

(** Two probe runs that received the same bytes agree, whatever the networks,
    clocks, deadlines and read sizes: they report the same events, and the ends
    of both are ends of the same drained probe (so when one has the probe's own
    verdict, the other has that verdict too). *)
Theorem probe_runs_agree {Sm1 Sm2 : Seam} `{!SeamLaws Sm1, !SeamLaws Sm2} (c : ProbeConfig) (p : Probe.t)
    fuel1 fuel2 deadline1 deadline2 chunk1 chunk2 (w1 : @World Sm1) (w2 : @World Sm2) w1' w2' p1 p2 evs1 evs2 e1 e2 :
  config_ok c -> Probe.new c = Ok p ->
  drive (Sm := traced Sm1) fuel1 p deadline1 chunk1 (w1, []) = Done (w1', p1, evs1, e1) ->
  drive (Sm := traced Sm2) fuel2 p deadline2 chunk2 (w2, []) = Done (w2', p2, evs2, e2) ->
  concat (heard (logged w1')) = concat (heard (logged w2')) -> heard (logged w1') <> [] ->
  heard (logged w2') <> [] ->
  evs1 = evs2 /\ exists q o, reports q o e1 /\ reports q o e2.
Proof.
  intros Hc Hn H1 H2 Heq N1 N2.
  destruct (drive_report c p _ _ _ _ _ _ _ _ Hc Hn H1) as (l1 & [E1 _] & _ & [(_ & q1 & o1 & D1 & R1)|(R & _)]);
    cbn in E1; rewrite E1 in *; [|done].
  destruct (drive_report c p _ _ _ _ _ _ _ _ Hc Hn H2) as (l2 & [E2 _] & _ & [(_ & q2 & o2 & D2 & R2)|(R & _)]);
    cbn in E2; rewrite E2 in *; [|done].
  rewrite Heq in D1. destruct (drains_det _ _ _ _ _ _ _ D1 D2) as (-> & -> & ->). eauto.
Qed.

Definition one_piece : Scripted.t :=
  Scripted.new [Scripted.RData (bstr "SSH-2.0-x" ++ [CR; LF]); Scripted.REof] [].

Abbreviation one_piece_run := (drive (Sm := traced Scripted.scripted_seam) 20 default_probe 100 4096 (one_piece, [])).

Lemma probe_runs_agree_witness :
  match two_pieces_run, one_piece_run with
  | Done (_, _, evs1, e1), Done (_, _, evs2, e2) =>
      evs1 = evs2 /\ e1 = EndTimedOut StInitialPackets 0 /\ e2 = EndProbe (EndEof StInitialPackets 0) /\
      exists q o, reports q o e1 /\ reports q o e2
  | _, _ => False
  end.
Proof.
  assert (match two_pieces_run, one_piece_run with
    | Done (w1', _, evs1, e1), Done (w2', _, evs2, e2) =>
        e1 = EndTimedOut StInitialPackets 0 /\ e2 = EndProbe (EndEof StInitialPackets 0) /\
        concat (heard (logged w1')) = concat (heard (logged w2')) /\
        bool_decide (heard (logged w1') = []) = false /\ bool_decide (heard (logged w2') = []) = false
    | _, _ => False end) as Hrun by (vm_compute; split_and!; reflexivity).
  destruct two_pieces_run as [[[[w1' p1] evs1] e1]| |] eqn:E1; [|exact Hrun|exact Hrun].
  destruct one_piece_run as [[[[w2' p2] evs2] e2]| |] eqn:E2; [|exact Hrun|exact Hrun].
  destruct Hrun as (H1 & H2 & H3 & H4 & H5).
  destruct (probe_runs_agree (Sm1 := Scripted.scripted_seam) (Sm2 := Scripted.scripted_seam) ProbeConfig_default default_probe 20 20 100 100 16 4096 two_pieces one_piece
    w1' w2' p1 p2 evs1 evs2 e1 e2 default_config_ok eq_refl E1 E2 H3 (bool_decide_eq_false_1 _ H4) (bool_decide_eq_false_1 _ H5)) as [He Hq].
  exact (conj He (conj H1 (conj H2 Hq))).
Defined.

(** A probe run always ends: on any network whose socket calls take time and
    whose clock never goes back, the loop makes at most one round per unit of
    time left to the deadline, however slowly the server trickles bytes or how
    often calls are interrupted, and no call of the probe panics. *)
Theorem probe_run_ends {Sm : Seam} `{SL : !SeamLaws Sm, Tk : !Ticking Sm} (c : ProbeConfig) (p : Probe.t) (fuel : nat)
    (deadline chunk : Z) (w : World) :
  config_ok c -> Probe.new c = Ok p -> outlasts fuel deadline w ->
  exists w' p' events e, drive fuel p deadline chunk w = Done (w', p', events, e).
Proof. apply drive_ends. Qed.

#[local] Existing Instances Trickle.trickle_laws Trickle.trickle_ticks.

Lemma probe_run_ends_witness :
  exists w' p' events e, drive (Sm := Trickle.trickle_seam) 101 default_probe 100 4096 (0 : @World Trickle.trickle_seam) =
    Done (w', p', events, e).
Proof.
  exact (probe_run_ends (Sm := Trickle.trickle_seam) (Tk := Trickle.trickle_ticks) ProbeConfig_default default_probe 101 100 4096
    (0 : @World Trickle.trickle_seam) default_config_ok eq_refl ltac:(vm_compute; reflexivity)).
Defined.
