(* ===== verification/HandshakeRun.v ===== *)
(** * The handshake driver

    What a run of [HandshakeDriver.run_handshake_on] does over any network: the
    caller's policy is the only source of the trust decision, asked once and
    about the identity that was verified; the state machine's guarantees hold of
    the result; and the deadline bounds the run. *)

From S2P Require Import Prelude WireError NameList Primitives Messages KexInit ExtInfo.
From S2P Require Import WireIdent TcpIdent Packet Initial KeyAlgorithm HostKey HostKeyProps Negotiate.
From S2P Require Import Gcm Transcript Trust Handshake HandshakeProofs HandshakeProps Seam Drivers DriversProofs.

Import Hs ClientHandshake HandshakeDriver.

(** ** What a step leaves alone *)

Section frame.
Context {K : Type} `{AL : AeadLaws K, HL : HashLaws, DL : DhLaws, DD : Dalek}.
Variable features : Features.
Implicit Types self : t K.

(** The phases after the trust decision. *)
Definition settled (p : Phase) : bool :=
  match p with ServerNewKeys | Service | PhFinished => true | _ => false end.

(** The decision stands, and after it the identity does too. *)
Definition kept self self' : Prop :=
  trust self' = trust self /\
  (settled (phase self) = true -> identity self' = identity self /\ settled (phase self') = true).

#[global] Instance kept_preorder : PreOrder kept.
Proof.
  split; [by intros ?|]. intros a b c [E1 Hab] [E2 Hbc]. split; [congruence|]. intros Hs.
  destruct (Hab Hs) as [I1 S1], (Hbc S1) as [I2 S2]. split; [congruence|done].
Qed.

(** Sending touches none of it. *)
Definition same_trust self self' : Prop :=
  trust self' = trust self /\ identity self' = identity self /\ phase self' = phase self.

Lemma same_trust_kept self self' : same_trust self self' -> kept self self'.
Proof. intros (? & ? & Hp). split; [done|]. by rewrite Hp. Qed.

Lemma kept_finish self self' o : kept self self' -> kept self (finish self' o).
Proof. intros [E Hk]. split; [done|]. intros Hs. split; [by apply Hk|done]. Qed.

Lemma bump_same self send self' r : bump_sequence self send = (self', r) -> same_trust self self'.
Proof.
  unfold bump_sequence. destruct (checked_add_u32 _ _); [by intros [= <- <-]; destruct send|].
  destruct (_ && _); intros [= <- <-]; [done|by destruct send].
Qed.

Lemma send_unprotected_same self p self' r : send_unprotected self p = (self', r) -> same_trust self self'.
Proof.
  unfold send_unprotected. destruct (encode_initial_packet_with _ _ _) as [fr [n|e]]; [|by intros [= <- <-]].
  by intros Hb%bump_same.
Qed.

Lemma send_protected_same self p self' r : send_protected self p = Some (self', r) -> same_trust self self'.
Proof.
  unfold send_protected. destruct (send_aead self) as [a|]; [|done]. cbn [mbind option_bind].
  destruct (AeadDirection.seal _ _ _ _) as [[[a' g] o] [x|e]]; [|by intros [= <- <-]].
  destruct (checked_add_u32 _ _); [|done]. cbn [mbind option_bind]. by intros [= Hb%bump_same].
Qed.

Lemma send_disconnect_same self d self' r : send_disconnect self d = Some (self', r) -> same_trust self self'.
Proof.
  unfold send_disconnect. destruct (Disconnect.encode _ _) as [b [n|e]]; [apply send_protected_same|by intros [= <- <-]].
Qed.

(** A handler that, whatever it does, keeps the decision. *)
Definition keeps (self : t K) (r : option (t K * Flow)) : Prop :=
  forall self' f, r = Some (self', f) -> kept self self'.

Lemma keeps_fail self self1 o : kept self self1 -> keeps self (Some (fail self1 o)).
Proof. intros Hk self' f [= <- <-]. by apply kept_finish. Qed.

Lemma keeps_some self self1 f : kept self self1 -> keeps self (Some (self1, f)).
Proof. by intros Hk self' f' [= <- <-]. Qed.

Lemma keeps_none self : keeps self None.
Proof. done. Qed.

(** Before the decision only the decision itself matters. *)
Lemma kept_early self self' : settled (phase self) = false -> trust self' = trust self -> kept self self'.
Proof. intros Hs Ht. split; [done|]. congruence. Qed.

#[local] Hint Resolve keeps_fail keeps_some keeps_none kept_finish kept_early same_trust_kept : core.
#[local] Hint Extern 1 (kept _ _) => by split : core.
#[local] Hint Extern 1 (same_trust _ _) => done : core.

Ltac branch := lazymatch goal with |- keeps _ (if ?b then _ else _) => destruct b end.

Ltac keeps_auto := cbn zeta; cbn [mbind option_bind]; unfold unexpected, strict_violation; auto.

Lemma step_identification_keeps self :
  settled (phase self) = false -> keeps self (step_identification self).
Proof.
  intros Hs. unfold step_identification. destruct (IdentificationReader.feed _ _) as [r [[|l u n|i n]|e]]; keeps_auto;
    destruct (InputBuffer.consume _ _); keeps_auto.
Qed.

Lemma skip_keeps self number payload : keeps self (skip self number payload).
Proof.
  unfold skip. destruct (number =? _); [destruct (Ignore.decode _); keeps_auto|].
  destruct (number =? _); [destruct (DebugMsg.decode _); keeps_auto|].
  destruct (number =? _); [destruct (Unimplemented.decode _)|]; keeps_auto.
Qed.

Lemma on_disconnect_keeps self payload v : keeps self (Some (on_disconnect self payload v)).
Proof.
  unfold on_disconnect. destruct (Disconnect.decode payload); [destruct v|]; keeps_auto.
Qed.

Lemma on_server_kexinit_keeps self payload :
  settled (phase self) = false -> keeps self (on_server_kexinit self payload).
Proof.
  intros Hs. unfold on_server_kexinit. destruct (KexInit.decode payload) as [server|e]; [|keeps_auto]. cbn zeta.
  destruct (KexInit.decode _) as [client|e]; [|done]. destruct (rbind _ _) as [n|e]; [|keeps_auto].
  destruct (_ && _); [keeps_auto|]. destruct (KexEcdhInit.encode _ _) as [b [m|e]]; [|done].
  destruct (send_unprotected _ _) as [self2 r] eqn:Es. apply send_unprotected_same in Es as (Et & _).
  destruct r; keeps_auto.
Qed.

Lemma on_ecdh_reply_keeps self payload :
  settled (phase self) = false -> keeps self (on_ecdh_reply features self payload).
Proof.
  intros Hs. unfold on_ecdh_reply. destruct (KexEcdhReply.decode payload) as [reply|e]; [|keeps_auto].
  destruct (PublicKeyBlob.decode _) as [blob|e]; [|keeps_auto].
  destruct (HostKey.from_blob _ _) as [hk|e]; [|keeps_auto]. cbn zeta.
  destruct (mbind _ _) as [scheme|]; [|keeps_auto]. destruct (bool_decide _); [keeps_auto|].
  destruct (ephemeral _) as [eph|]; [|keeps_auto]. destruct (agree _ _) as [k|e]; [|keeps_auto].
  destruct (server_ident _); [|done]. cbn [mbind option_bind]. destruct (i_s _); [|done]. cbn [mbind option_bind].
  destruct (exchange_hash _ _); [|done]. cbn [mbind option_bind]. destruct (rbind _ _); [|keeps_auto].
  destruct (derive_aes128_gcm_keys _ _ _); keeps_auto.
Qed.

Lemma on_server_newkeys_keeps self payload : keeps self (on_server_newkeys self payload).
Proof.
  unfold on_server_newkeys. destruct (NewKeys.decode payload); [|keeps_auto]. cbn zeta.
  destruct (keys _) as [ks|]; [|done]. cbn [mbind option_bind].
  set (s1 := set_ext_info _ _). assert (kept self s1) as Hk.
  { subst s1. destruct (strict_active _); split; done. }
  destruct (ServiceRequest.encode _ _) as [b [n|e]]; [|done].
  destruct (send_protected s1 _) as [[self2 r]|] eqn:Es; [|done]. cbn [mbind option_bind].
  apply send_protected_same, same_trust_kept in Es.
  assert (kept self self2) by (by etrans). destruct r; keeps_auto.
Qed.

Lemma handle_kex_message_keeps self number payload :
  phase self = EcdhReply \/ phase self = ServerNewKeys -> keeps self (handle_kex_message features self number payload).
Proof.
  intros Hp. unfold handle_kex_message. branch; [keeps_auto|].
  destruct (_ && bool_decide _) eqn:Ea.
  { apply andb_prop in Ea as [_ Ea%bool_decide_eq_true]. apply on_ecdh_reply_keeps. by rewrite Ea. }
  branch; [apply on_server_newkeys_keeps|].
  do 5 (branch; [keeps_auto|]).
  branch; [apply skip_keeps|]. branch; [apply on_disconnect_keeps|keeps_auto].
Qed.

Lemma handle_unprotected_keeps self payload :
  keeps self (handle_unprotected features self payload).
Proof.
  unfold handle_unprotected. destruct payload as [|b payload]; [keeps_auto|].
  destruct (phase self) eqn:Ep; try done; try (apply handle_kex_message_keeps; auto).
  branch; [apply on_server_kexinit_keeps; by rewrite Ep|].
  branch; [apply skip_keeps|]. branch; [apply on_disconnect_keeps|keeps_auto].
Qed.

Lemma keeps_trans self self1 r : kept self self1 -> keeps self1 r -> keeps self r.
Proof. intros Hk Hr self' f E. etrans; [exact Hk|by eapply Hr]. Qed.

Lemma step_unprotected_keeps self : keeps self (step_unprotected features self).
Proof.
  unfold step_unprotected. destruct (decode_initial_packet _ _) as [[n|pk]|e]; [keeps_auto| |keeps_auto]. cbn zeta.
  branch; [keeps_auto|]. branch; [keeps_auto|].
  destruct (checked_add_usize _ _); [|done]. cbn [mbind option_bind].
  destruct (InputBuffer.consume _ _); [|done]. cbn [mbind option_bind].
  destruct (bump_sequence _ _) as [self2 r] eqn:Eb. apply bump_same, same_trust_kept in Eb.
  assert (kept self self2) by (etrans; [|exact Eb]; by split).
  destruct r; [|keeps_auto]. eapply keeps_trans; [done|]. apply handle_unprotected_keeps.
Qed.

Lemma on_ext_info_keeps self payload : keeps self (Some (on_ext_info self payload)).
Proof.
  unfold on_ext_info. destruct (ExtInfo.decode payload); [|keeps_auto]. destruct (ExtInfo.validate _ _); [|keeps_auto].
  destruct (ExtInfo.server_sig_algs _) as [[l|e]|]; keeps_auto.
Qed.

Lemma disconnect_keeps self self1 d o :
  kept self self1 ->
  keeps self (let* (s, res) := send_disconnect self1 d in
    match res with Err o => Some (fail s o) | Ok _ => Some (set_pending_outcome (Some o) s, FlowContinue) end).
Proof.
  intros Hk. destruct (send_disconnect self1 d) as [[self2 r]|] eqn:Es; [|done]. cbn [mbind option_bind].
  apply send_disconnect_same, same_trust_kept in Es. assert (kept self self2) as Hk2 by (by etrans).
  destruct r; [|keeps_auto]. apply keeps_some. etrans; [exact Hk2|]. by split.
Qed.

Lemma handle_protected_keeps self payload : keeps self (handle_protected self payload).
Proof.
  unfold handle_protected. destruct payload as [|b payload]; [keeps_auto|]. cbn zeta.
  branch; [apply on_ext_info_keeps|]. branch; [apply skip_keeps|].
  branch.
  { unfold on_service_accept. destruct (ServiceAccept.decode _); [|keeps_auto]. cbn zeta.
    branch; [keeps_auto|]. by apply disconnect_keeps. }
  branch; [apply on_disconnect_keeps|].
  branch; [by apply disconnect_keeps|keeps_auto].
Qed.

Lemma step_protected_keeps self : keeps self (step_protected self).
Proof.
  unfold step_protected. destruct (recv_aead self); [|done]. cbn [mbind option_bind].
  destruct (AeadDirection.open _ _ _) as [[a b] res]. cbn zeta.
  destruct res as [[n|p]|e]; [keeps_auto| |destruct e; keeps_auto].
  destruct (InputBuffer.consume _ _); [|done]. cbn [mbind option_bind].
  branch; [keeps_auto|]. destruct (checked_add_u32 _ _); [|done]. cbn [mbind option_bind].
  destruct (bump_sequence _ _) as [self2 r] eqn:Eb. apply bump_same, same_trust_kept in Eb.
  assert (kept self self2) by (etrans; [|exact Eb]; by split).
  destruct r; [|keeps_auto]. eapply keeps_trans; [done|]. apply handle_protected_keeps.
Qed.

Lemma round_keeps self self' r : round features self = Some (self', r) -> kept self self'.
Proof.
  assert (forall x, keeps self x ->
    (let* (s, f) := x in Some (s, match f with FlowContinue => None | FlowNeedMore => Some NeedMore end)) = Some (self', r) ->
    kept self self') as Hflow.
  { intros [[s f]|] Hx; [|done]. cbn [mbind option_bind]. intros [= <- _]. by eapply Hx. }
  unfold round. destruct (outcome self); [by intros [= <- _]|].
  destruct (negb _); [by intros [= <- _]|]. destruct (pending_outcome self); [intros [= <- _]; by apply kept_finish|].
  destruct (phase self) eqn:Ep; try (apply Hflow).
  - apply step_identification_keeps. by rewrite Ep.
  - apply step_unprotected_keeps.
  - apply step_unprotected_keeps.
  - destruct (identity self); [|done]. by intros [= <- _].
  - apply step_unprotected_keeps.
  - apply step_protected_keeps.
  - done.
Qed.

Lemma step_kept self self' s : step features self = Some (self', s) -> kept self self'.
Proof.
  unfold step. generalize (S (S (length (InputBuffer.buf (buf self))))). intros fuel. revert self.
  induction fuel as [|fuel IH]; intros self; [done|]. cbn [rounds].
  destruct (round features self) as [[self1 [st|]]|] eqn:Er; [| |done]; cbn [mbind option_bind]; apply round_keeps in Er.
  - by intros [= <- _].
  - intros Hs. etrans; [exact Er|by apply IH].
Qed.

Lemma feed_kept self data : kept self (feed self data).
Proof.
  unfold feed. destruct (outcome self); [done|]. destruct (InputBuffer.push _ _) as [b [u|e]]; [by split|].
  apply kept_finish. by split.
Qed.

Lemma input_ended_kept self : kept self (fst (input_ended self)).
Proof. unfold input_ended. destruct (outcome self); [done|]. by apply kept_finish. Qed.

(** The decision is recorded, about the identity it was asked about. *)
Lemma provide_trust_records self d self' :
  phase self = TrustPending -> provide_trust self d = Some self' ->
  trust self' = Some d /\ identity self' = identity self /\ settled (phase self') = true.
Proof.
  intros Hp. unfold provide_trust. rewrite bool_decide_true by done. cbn [negb].
  destruct d as [src|reason]; [|by intros [= <-]]. destruct (NewKeys.encode _ _) as [b [n|e]]; [|done].
  destruct (send_unprotected _ _) as [s1 r] eqn:Es. apply send_unprotected_same in Es as (Et & Ei & _).
  destruct r; [|intros [= <-]; exact (conj Et (conj Ei eq_refl))].
  cbn zeta. destruct (keys _); [|done]. cbn [mbind option_bind].
  destruct (strict_active _); intros [= <-]; exact (conj Et (conj Ei eq_refl)).
Qed.
End frame.

(** ** Conversations

    The run without its I/O: what the client says and hears, and what it asks
    its policy, in the order of the calls. *)

Section conversation.
Context {K : Type} `{AL : AeadLaws K, HL : HashLaws, DL : DhLaws, DD : Dalek}.
Context {R E : Type} `{RL : TryRngLaws R E}.
Context {P : Type} `{Pol : HostTrustPolicy P} (policy : P).
Variable features : Features.
Implicit Types hs : t K.

(** [converses hs ds out hs']: hearing the chunks [ds], each within the room
    there was, and saying exactly [out], [hs] becomes [hs']. *)
Inductive converses : t K -> list bytes -> bytes -> t K -> Prop :=
| converses_done hs : converses hs [] [] hs
| converses_send hs hs1 hs2 said ds out hs' :
    step features hs = Some (hs1, Send) -> take_output hs1 = (hs2, said) ->
    converses hs2 ds out hs' -> converses hs ds (said ++ out) hs'
| converses_ask hs hs1 id hs2 ds out hs' :
    step features hs = Some (hs1, TrustDecisionRequired id) ->
    provide_trust hs1 (decide_trust policy (as_identity id)) = Some hs2 ->
    converses hs2 ds out hs' -> converses hs ds out hs'
| converses_hear hs hs1 d ds out hs' :
    step features hs = Some (hs1, NeedMore) -> zlen d <= room hs1 ->
    converses (feed hs1 d) ds out hs' -> converses hs (d :: ds) out hs'
| converses_wait hs hs1 ds out hs' :
    step features hs = Some (hs1, NeedMore) ->
    converses hs1 ds out hs' -> converses hs ds out hs'.

(** [ends hs hs' e said]: how the driver leaves a conversation at [hs], having
    said [said] of a message it could not finish. *)
Inductive ends hs : t K -> HandshakeEnd -> bytes -> Prop :=
| ends_finished hs' o : step features hs = Some (hs', Finished o) -> ends hs hs' (EndFinished o) []
| ends_closed hs1 hs' o :
    step features hs = Some (hs1, NeedMore) -> input_ended hs1 = (hs', o) -> ends hs hs' (EndFinished o) []
| ends_waiting hs' e :
    step features hs = Some (hs', NeedMore) -> e = timed_out hs' \/ (exists err, e = EndIo (phase hs') err) ->
    ends hs hs' e []
| ends_sending hs1 hs' out said e :
    step features hs = Some (hs1, Send) -> take_output hs1 = (hs', out) -> said `prefix_of` out ->
    e = timed_out hs' \/ (exists err, e = EndIo (phase hs') err) -> ends hs hs' e said.

(** The policy's answer is the decision, about the identity verified. *)
Definition trusts hs : Prop :=
  forall d, trust hs = Some d ->
    settled (phase hs) = true /\ exists id, identity hs = Some id /\ d = decide_trust policy (as_identity id).

Lemma trusts_kept hs hs' : kept hs hs' -> trusts hs -> trusts hs'.
Proof.
  intros [Et Hk] Ht d Hd. rewrite Et in Hd. destruct (Ht d Hd) as [Hs (id & Hi & ->)].
  destruct (Hk Hs) as [Ei Hs']. split; [done|]. exists id. split; [congruence|done].
Qed.

Definition sound c p hs : Prop := reachable features (R:=R) c p hs /\ trusts hs.

Lemma sound_step c p hs hs' s :
  hs_config_ok c -> sound c p hs -> step features hs = Some (hs', s) -> sound c p hs' /\ answered hs' s.
Proof.
  intros Hc [Hr Ht] Hs. split.
  - split; [by eapply reach_step|]. eapply trusts_kept; [|exact Ht]. by eapply step_kept.
  - destruct (reachable_state features c p hs Hc Hr) as (Hi & _).
    destruct (step_total features hs Hi) as (x & st & Ex & _ & _ & Ha). rewrite Hs in Ex. by injection Ex as <- <-.
Qed.

Lemma sound_take c p hs : sound c p hs -> sound c p (fst (take_output hs)).
Proof. intros [Hr Ht]. split; [by apply reach_take|]. by eapply trusts_kept; [|exact Ht]. Qed.

Lemma sound_feed c p hs d : sound c p hs -> sound c p (feed hs d).
Proof. intros [Hr Ht]. split; [by apply reach_feed|]. eapply trusts_kept; [apply feed_kept|done]. Qed.

Lemma sound_end c p hs : sound c p hs -> sound c p (fst (input_ended hs)).
Proof. intros [Hr Ht]. split; [by apply reach_end|]. eapply trusts_kept; [apply input_ended_kept|done]. Qed.

Lemma sound_ask c p hs id hs' :
  sound c p hs -> answered hs (TrustDecisionRequired id) ->
  provide_trust hs (decide_trust policy (as_identity id)) = Some hs' ->
  sound c p hs' /\ trust hs' <> None.
Proof.
  intros [Hr _] (_ & _ & Hp & Hid) Hpt. destruct (provide_trust_records hs _ hs' Hp Hpt) as (Et & Ei & Hs).
  split; [|by rewrite Et]. split; [by eapply reach_trust|]. intros d Hd. rewrite Et in Hd. injection Hd as <-.
  split; [done|]. exists id. split; [congruence|done].
Qed.

Lemma sound_converses c p hs ds out hs' :
  hs_config_ok c -> converses hs ds out hs' -> sound c p hs -> sound c p hs'.
Proof.
  intros Hc. induction 1 as [hs|hs hs1 hs2 said ds out hs' Hs Ht _ IH|hs hs1 id hs2 ds out hs' Hs Hpt _ IH|
    hs hs1 d ds out hs' Hs Hd _ IH|hs hs1 ds out hs' Hs _ IH]; intros Hso; [done|..];
    destruct (sound_step c p _ _ _ Hc Hso Hs) as [Hso1 Ha]; apply IH.
  - replace hs2 with (fst (take_output hs1)) by (by rewrite Ht). by apply sound_take.
  - by eapply sound_ask.
  - by apply sound_feed.
  - done.
Qed.

(** The end tells the state it is about. *)
Definition end_matches hs (e : HandshakeEnd) : Prop :=
  match e with
  | EndFinished o => outcome hs = Some o
  | EndTimedOut ph n => ph = phase hs /\ n = pending_bytes hs
  | EndIo ph _ => ph = phase hs
  end.

Lemma sound_ends c p hs hs' e said :
  hs_config_ok c -> ends hs hs' e said -> sound c p hs -> sound c p hs' /\ end_matches hs' e.
Proof.
  intros Hc He Hso. destruct He as [hs' o Hs|hs1 hs' o Hs Hi|hs' e Hs He|hs1 hs' out said e Hs Ht Hpre He];
    destruct (sound_step c p _ _ _ Hc Hso Hs) as [Hso1 Ha].
  - done.
  - replace hs' with (fst (input_ended hs1)) by (by rewrite Hi). split; [by apply sound_end|].
    destruct Ha as (Ho & _). revert Hi. unfold input_ended. rewrite Ho. by intros [= <- <-].
  - split; [done|]. destruct He as [->|[err ->]]; done.
  - injection Ht as <- <-. split; [by apply sound_take|]. destruct He as [->|[err ->]]; done.
Qed.

Lemma sound_built c p rng hs : hs_config_ok c -> build features c rng p = Some (Ok hs) -> sound c p hs.
Proof.
  intros Hc Hb. split; [by eapply reach_build|]. revert Hb. unfold build.
  destruct (match HandshakeConfig.host_key_algorithms c with Some _ => _ | None => _ end) as [algs|]; [|done].
  cbn [mbind option_bind]. destruct (rbind _ _) as [[[[line eph] seed] ic]|e]; [|done].
  destruct (KexInit.decode ic) as [k|e]; [|done].
  destruct (send_unprotected _ _) as [s1 r] eqn:Es. apply send_unprotected_same in Es as (Et & _).
  intros [= <-] d Hd. destruct r; change (trust s1 = Some d) in Hd; rewrite Et in Hd; done.
Qed.

(** ** The driver's conversation *)

Context {Sm : Seam} `{SL : !SeamLaws Sm}.
Implicit Types w : @World (traced Sm).

Lemma run_converses c p fuel hs deadline chunk w w' hs' e :
  hs_config_ok c -> sound c p hs ->
  run_handshake_on (Sm := traced Sm) features policy fuel hs deadline chunk w = Done (w', hs', e) ->
  exists l hsn out said, adds id deadline w w' l /\ converses hs (heard l) out hsn /\
    ends hsn hs' e said /\ sent l = out ++ said /\ (forall ph n, e = EndTimedOut ph n -> late deadline l).
Proof.
  intros Hc. revert hs w. induction fuel as [|fuel IH]; intros hs w Hso; [done|]. cbn [run_handshake_on].
  destruct (step features hs) as [[hs1 st]|] eqn:Es; [|done].
  destruct (sound_step c p _ _ _ Hc Hso Es) as [Hso1 Ha]. destruct st as [| |id|o].
  - destruct Ha as (Ho & Hout & Hroom & _).
    assert (1 <= want_of (Z.max chunk 1) (room hs1) <= room hs1) as Hwant by (unfold want_of; lia).
    destruct (timed_read_log Datatypes.id _ deadline w (proj1 Hwant)) as (l & Hl).
    pose proof (timed_read_len Datatypes.id _ deadline w (proj1 Hwant)) as Hlen.
    destruct (timed_read _ _ deadline w) as [w1 r]. destruct Hl as (Hadd & Hs & Hr & Hlate).
    assert (forall e', e' = timed_out hs1 \/ (exists err, e' = EndIo (phase hs1) err) -> heard l = [] ->
      converses hs (heard l) [] hs /\ ends hs hs1 e' [] /\ sent l = [] ++ []) as Hstop.
    { intros e' He' ->. split; [constructor|]. split; [by constructor|done]. }
    destruct r as [|err|[[|b d]|err]].
    + intros [= <- <- <-]. destruct (Hstop (timed_out hs1)) as (?&?&?); [by left|done|].
      exists l, hs, [], []. split_and!; try done. intros; apply Hlate; by left.
    + intros [= <- <- <-]. destruct (Hstop (EndIo (phase hs1) err)) as (?&?&?); [right; eauto|done|].
      exists l, hs, [], []. by split_and!.
    + destruct (input_ended hs1) as [hs2 o] eqn:Ei. intros [= <- <- <-]. exists l, hs, [], [].
      rewrite Hr. split_and!; [done|constructor|by eapply ends_closed|done|done].
    + intros Hrec. destruct (IH _ _ (sound_feed _ _ _ (b :: d) Hso1) Hrec) as (l' & hsn & out & said & Ha' & Hcv & He & Hs' & Hl').
      exists (l ++ l'), hsn, out, said. split_and!; [by eapply adds_app| |done|by rewrite sent_app, Hs, Hs'|].
      * rewrite heard_app, Hr. eapply converses_hear; [done| |done]. specialize (Hlen (b :: d) eq_refl). lia.
      * intros ph n E1. apply late_app_r. by eapply Hl'.
    + destruct (is_timeout err) eqn:Et.
      { intros [= <- <- <-]. destruct (Hstop (timed_out hs1)) as (?&?&?); [by left|done|].
        exists l, hs, [], []. split_and!; try done. intros; apply Hlate; right; eauto. }
      destruct (kind err); try (intros [= <- <- <-]; destruct (Hstop (EndIo (phase hs1) err)) as (?&?&?); [right; eauto|done|];
        exists l, hs, [], []; by split_and!).
      intros Hrec. destruct (IH _ _ Hso1 Hrec) as (l' & hsn & out & said & Ha' & Hcv & He & Hs' & Hl').
      exists (l ++ l'), hsn, out, said. split_and!; [by eapply adds_app| |done|by rewrite sent_app, Hs, Hs'|].
      * rewrite heard_app, Hr. by eapply converses_wait.
      * intros ph n E1. apply late_app_r. by eapply Hl'.
  - cbn [take_output]. unfold write_all_by.
    destruct (write_loop fuel (out hs1) 0 deadline w) as [[w1 r]| |] eqn:Ew; [|done|done].
    apply (write_loop_log Datatypes.id) in Ew as (l & rest & Hadd & Hr & Hd & Hok & Hlate); [|pose proof (zlen_nonneg (out hs1)); lia].
    rewrite zdrop_0 in Hd. destruct r as [[]|err].
    + intros Hrec. destruct (IH _ _ (sound_take _ _ _ Hso1) Hrec) as (l' & hsn & o & said & Ha' & Hcv & He & Hs' & Hl').
      exists (l ++ l'), hsn, (out hs1 ++ o), said. split_and!; [by eapply adds_app| |done| |].
      * rewrite heard_app, Hr. by eapply converses_send.
      * rewrite sent_app, Hs', Hd, Hok by done. by rewrite app_nil_r, (assoc_L (++)).
      * intros ph n E1. apply late_app_r. by eapply Hl'.
    + intros [= <- <- <-]. exists l, hs, [], (sent l). rewrite Hr. split_and!; [done|constructor| |done|].
      * eapply ends_sending; [done|done|by exists rest|]. destruct (is_timeout err); [by left|right; eauto].
      * destruct (is_timeout err) eqn:Et; [|done]. intros ph n _. by eapply Hlate.
  - destruct (provide_trust hs1 _) as [hs2|] eqn:Ept; [|done]. intros Hrec.
    destruct (sound_ask _ _ _ _ _ Hso1 Ha Ept) as [Hso2 _].
    destruct (IH _ _ Hso2 Hrec) as (l' & hsn & out & said & Ha' & Hcv & He & Hs' & Hl').
    exists l', hsn, out, said. split_and!; try done. by eapply converses_ask.
  - intros [= <- <- <-]. exists [], hs, [], []. split_and!; [apply adds_nil|constructor|by constructor|done|done].
Qed.
End conversation.

(** ** Fuel *)

Section fuel.
Context {K : Type} `{AL : AeadLaws K, HL : HashLaws, DL : DhLaws, DD : Dalek}.
Context {R E : Type} `{RL : TryRngLaws R E}.
Context {P : Type} `{Pol : HostTrustPolicy P} (policy : P).
Context {Sm : Seam} `{SL : !SeamLaws Sm, Tk : !Ticking Sm}.
Variable features : Features.
Implicit Types hs : t K.

(** The question still to come. *)
Definition asks hs : Z := match trust hs with None => 1 | Some _ => 0 end.

Lemma asks_range hs : 0 <= asks hs <= 1.
Proof. unfold asks. destruct (trust hs); lia. Qed.

Lemma asks_kept hs hs' : kept hs hs' -> asks hs' = asks hs.
Proof. intros [Et _]. unfold asks. by rewrite Et. Qed.

Lemma run_ends c p fuel hs deadline chunk (w : @World Sm) :
  hs_config_ok c -> sound (R:=R) policy features c p hs ->
  Z.max 0 (deadline - time w) + asks hs + 1 < Z.of_nat fuel ->
  exists w' hs' e, run_handshake_on features policy fuel hs deadline chunk w = Done (w', hs', e).
Proof.
  intros Hc. revert hs w. induction fuel as [|fuel IH]; intros hs w Hso Hf; [pose proof (asks_range hs); lia|].
  cbn [run_handshake_on]. destruct (reachable_state features c p hs Hc (proj1 Hso)) as (Hi & _).
  destruct (step_total features hs Hi) as (hs1 & st & Es & Hi1 & _ & _). rewrite Es.
  destruct (sound_step policy features c p _ _ _ Hc Hso Es) as [Hso1 Ha].
  pose proof (asks_kept _ _ (step_kept features _ _ _ Es)) as Hask. pose proof (asks_range hs).
  destruct st as [| |id|o].
  - pose proof (timed_read_ticks Datatypes.id (want_of (Z.max chunk 1) (room hs1)) deadline w) as Ht.
    destruct (timed_read Datatypes.id _ deadline w) as [w1 r]. destruct r as [|err|[[|b d]|err]].
    + by eexists _, _, _.
    + by eexists _, _, _.
    + destruct (input_ended hs1). by eexists _, _, _.
    + apply IH; [by apply sound_feed|]. rewrite (asks_kept _ _ (feed_kept hs1 (b :: d))). lia.
    + destruct (is_timeout err); [by eexists _, _, _|].
      destruct (kind err); try (by eexists _, _, _). apply IH; [done|]. lia.
  - destruct Ha as [_ Hout]. cbn [take_output]. unfold write_all_by.
    destruct (write_loop_ends fuel (out hs1) 0 deadline w) as (w1 & r & -> & Ht & Hd); [unfold outlasts; lia|].
    destruct r as [[]|err]; [|by eexists _, _, _]. apply IH; [by apply sound_take|].
    change (asks (set_out [] hs1)) with (asks hs1). destruct Hd as [? ?]; [done| |lia].
    pose proof (zlen_nonneg (out hs1)). destruct (Z.eq_dec (zlen (out hs1)) 0) as [E0%zlen_0|]; [done|lia].
  - destruct (provide_trust_keeps features hs1 (decide_trust policy (as_identity id)) Hi1) as (hs2 & Ep & _). rewrite Ep.
    destruct (sound_ask policy features _ _ _ _ _ Hso1 Ha Ep) as [Hso2 Ht2]. apply IH; [done|].
    assert (asks hs2 = 0) as -> by (unfold asks; by destruct (trust hs2)).
    assert (asks hs1 = 1); [|lia]. unfold asks. destruct (trust hs1) as [d|] eqn:Et; [|done].
    destruct Ha as (_ & _ & Hp & _). destruct (proj2 Hso1 d Et) as [Hse _]. by rewrite Hp in Hse.
  - by eexists _, _, _.
Qed.
End fuel.

(** ** Properties *)

Section props.
Context {K : Type} `{AL : AeadLaws K, HL : HashLaws, DL : DhLaws, DD : Dalek}.
Context {R E : Type} `{RL : TryRngLaws R E}.
Context {P : Type} `{Pol : HostTrustPolicy P} (policy : P).
Context {Sm : Seam} `{SL : !SeamLaws Sm, Sk : !Socket Sm}.
Variable features : Features.

#[local] Instance traced_sk : Socket (traced Sm) := traced_socket Sm Sk.

(** What [run_handshake] returns, from the handshake it built. *)
Lemma run_handshake_spec fuel c provider (rng : R) io (w w' : @World (traced Sm)) r :
  hs_config_ok c ->
  run_handshake (Sm := traced Sm) features policy fuel c provider rng io w = Done (w', Ok r) ->
  exists hs0 hsn hs' l out said t0 t1,
    build features c rng provider = Some (Ok hs0) /\
    logged w' = logged w ++ CallNow t0 :: l ++ [CallShutdown; CallNow t1] /\
    disciplined id (t0 + overall_timeout io) l /\ elapsed r = t1 - t0 /\
    converses policy features hs0 (heard l) out hsn /\ ends features hsn hs' (end_ r) said /\
    sent l = out ++ said /\ run_report r = report hs' /\
    (forall ph n, end_ r = EndTimedOut ph n -> late (t0 + overall_timeout io) l) /\
    sound (R:=R) policy features c provider hs' /\ end_matches hs' (end_ r).
Proof.
  intros Hc. unfold run_handshake. cbn [clock_now traced].
  pose proof (logging_log clock_now CallNow w) as H0w. destruct (logging _ _ w) as [w0 t0].
  cbn [peer_addr local_addr traced_sk traced_socket]. unfold unlogged.
  destruct (peer_addr (fst w0)) as [w1 [pa|e]]; [|done]. cbn [fst snd].
  destruct (local_addr w1) as [w2 [la|e]]; [|done].
  replace (match provider with Some p => with_signature_provider (K:=K) features c rng p | None => new features c rng end)
    with (build (K:=K) features c rng provider) by (by destruct provider).
  destruct (build (K:=K) features c rng provider) as [[hs0|e]|] eqn:Hbuild; [|done|done].
  destruct (run_handshake_on _ _ _ _ _ _ _) as [[[w4 hs'] e]| |] eqn:Er; [|done|done].
  pose proof (sound_built policy features c provider rng hs0 Hc Hbuild) as Hso.
  destruct (run_converses policy features c provider _ _ _ _ _ _ _ _ Hc Hso Er) as (l & hsn & out & said & Ha & Hcv & He & Hs & Hl).
  pose proof (logging_log clock_now CallNow (shutdown_both (Sm := traced Sm) w4)) as H1w.
  destruct (logging _ _ (shutdown_both w4)) as [w5 t1]. intros [= <- <-].
  pose proof (sound_converses policy features c provider _ _ _ _ Hc Hcv Hso) as Hson.
  destruct (sound_ends policy features c provider _ _ _ _ Hc He Hson) as [Hso' Hm].
  exists hs0, hsn, hs', l, out, said, t0, t1. destruct Ha as [El D]. split_and!; try done.
  rewrite H1w. transitivity ((logged w4 ++ [CallShutdown]) ++ [CallNow t1]); [done|].
  rewrite El. transitivity (((logged w0 ++ l) ++ [CallShutdown]) ++ [CallNow t1]); [done|].
  rewrite H0w, <- !(assoc_L (++)). done.
Qed.

(** C8: the driver adds nothing to the conversation: whatever the network does,
    [run_handshake] is bracketed by one reading of the clock and one shutdown of
    the socket; in between every call is bounded by the time then left to the
    overall deadline; what was sent and heard is, in order and byte for byte, a
    conversation of the state machine it built (a message it could not finish
    being cut short, which ends the run), each read within the room there was;
    and the report is that of the final state, with the phase, pending bytes or
    outcome of that state, a timeout only when time ran out. *)
Theorem handshake_run_refines fuel c provider (rng : R) io (w w' : @World (traced Sm)) r :
  hs_config_ok c ->
  run_handshake (Sm := traced Sm) features policy fuel c provider rng io w = Done (w', Ok r) ->
  exists hs0 hsn hs' l out said t0 t1,
    build features c rng provider = Some (Ok hs0) /\
    logged w' = logged w ++ CallNow t0 :: l ++ [CallShutdown; CallNow t1] /\
    disciplined id (t0 + overall_timeout io) l /\ elapsed r = t1 - t0 /\
    converses policy features hs0 (heard l) out hsn /\ ends features hsn hs' (end_ r) said /\
    sent l = out ++ said /\ run_report r = report hs' /\ end_matches hs' (end_ r) /\
    (forall ph n, end_ r = EndTimedOut ph n -> late (t0 + overall_timeout io) l).
Proof.
  intros Hc Hr. destruct (run_handshake_spec _ _ _ _ _ _ _ _ Hc Hr)
    as (hs0 & hsn & hs' & l & out & said & t0 & t1 & Hb & El & D & Et & Hcv & He & Hs & Hrep & Hl & _ & Hm).
  exists hs0, hsn, hs', l, out, said, t0, t1. by split_and!.
Qed.

(** A run that ends as completed was trusted by the caller's policy: the
    policy was asked about, and trusted, the very identity whose key signed this
    exchange; keys were exchanged in both directions and the server accepted the
    configured service. No other end counts as complete. *)
Theorem handshake_run_trusted fuel c provider (rng : R) io (w w' : @World (traced Sm)) r :
  hs_config_ok c ->
  run_handshake (Sm := traced Sm) features policy fuel c provider rng io w = Done (w', Ok r) ->
  end_is_complete (end_ r) = true ->
  exists (hs : t K) id src ks, run_report r = report hs /\ identity hs = Some id /\
    decide_trust policy (as_identity id) = Trusted src /\ trust hs = Some (Trusted src) /\
    verified features hs ks /\ newkeys_sent hs = true /\ newkeys_received hs = true /\
    service_accepted hs = Some (HandshakeConfig.service c).
Proof.
  intros Hc Hr Hcomp. destruct (run_handshake_spec _ _ _ _ _ _ _ _ Hc Hr)
    as (hs0 & hsn & hs' & l & out & said & t0 & t1 & _ & _ & _ & _ & _ & _ & _ & Hrep & _ & [Hre Htr] & Hm).
  destruct (end_ r) as [o| |]; [|done|done]. destruct o; try done.
  destruct (completed_state features c provider hs' Hc Hre Hm) as (Hns & Hnr & (src & Ht) & Hsv & (ks & Hv) & _).
  destruct (Htr _ Ht) as [_ (hid & Hid & Hd)]. exists hs', hid, src, ks. split_and!; done.
Qed.

(** A handshake run always ends: on any network whose socket calls take time
    and whose clock never goes back, the deadline bounds the rounds of the
    driver whatever the server sends or withholds, and neither the state machine
    nor the decision panics. *)
Theorem handshake_run_ends `{Tk : !Ticking Sm} fuel c provider (rng : R) hs deadline chunk (w : @World Sm) :
  hs_config_ok c -> build features c rng provider = Some (Ok hs) ->
  Z.max 0 (deadline - time w) + 2 < Z.of_nat fuel ->
  exists w' hs' e, run_handshake_on features policy fuel hs deadline chunk w = Done (w', hs', e).
Proof.
  intros Hc Hb Hf. eapply (run_ends (R:=R)); [done|by eapply sound_built|]. pose proof (asks_range hs). lia.
Qed.
End props.

(** ** Witnesses *)

Import Demo.
#[local] Existing Instances Scripted.scripted_laws scripted_socket Trickle.trickle_laws Trickle.trickle_ticks.

(** The example server, scripted: it signs with the pinned key. *)
Definition demo_policy : PinnedSha256 := mkPinned (Sha256Fingerprint.of_blob host_blob).

Definition demo_script : Scripted.t :=
  match start with
  | Some hs =>
      Scripted.new
        [Scripted.RData (server_line ++ [CR; LF]); Scripted.RElapse 3; Scripted.RData (plain (KexInit.image server_kexinit));
         Scripted.RErr Interrupted; Scripted.RData (plain (reply_of hs)); Scripted.RData (plain (NewKeys.image NewKeys.mk));
         Scripted.RData (sealed (ServiceAccept.image (ServiceAccept.mk algorithms.SSH_USERAUTH)))]
        [Scripted.WAccept 5]
  | None => Scripted.new [] []
  end.

Definition demo_world : @World (traced Scripted.scripted_seam) := (demo_script, []).

Abbreviation demo_run :=
  (run_handshake (Sm := traced Scripted.scripted_seam) (Sk := traced_sk) (E := unit) demo_features demo_policy 40
     HandshakeConfig.default None tt (mkHandshakeIo 100 100 64) demo_world).

Lemma demo_run_completes :
  match demo_run with Done (_, Ok r) => end_is_complete (end_ r) = true | _ => False end.
Proof. vm_compute. reflexivity. Qed.

Lemma handshake_run_refines_witness :
  match demo_run with
  | Done (w', Ok r) => exists l t1, logged w' = CallNow 0 :: l ++ [CallShutdown; CallNow t1] /\ disciplined id 100 l
  | _ => False
  end.
Proof.
  pose proof demo_run_completes as Hd.
  assert (match demo_run with Done (w', Ok _) => hd_error (logged w') = Some (CallNow 0) | _ => False end) as Hh
    by (vm_compute; reflexivity).
  destruct demo_run as [[w' [r|e]]| |] eqn:Er; [|exact Hd..].
  destruct (handshake_run_refines (E := unit) (Sm := Scripted.scripted_seam) demo_policy demo_features 40
    HandshakeConfig.default None tt (mkHandshakeIo 100 100 64) demo_world w' r default_handshake_ok Er)
    as (hs0 & hsn & hs' & l & out & said & t0 & t1 & _ & El & D & _).
  exists l, t1. rewrite El in Hh |- *. injection Hh as ->. exact (conj eq_refl D).
Defined.

Lemma handshake_run_trusted_witness :
  match demo_run with
  | Done (_, Ok r) => exists (hs : t unit) id, run_report r = report hs /\ identity hs = Some id /\
      decide_trust demo_policy (as_identity id) = Trusted PinnedFingerprint
  | _ => False
  end.
Proof.
  pose proof demo_run_completes as Hd. destruct demo_run as [[w' [r|e]]| |] eqn:Er; [|exact Hd..].
  destruct (handshake_run_trusted (E := unit) (Sm := Scripted.scripted_seam) demo_policy demo_features 40
    HandshakeConfig.default None tt (mkHandshakeIo 100 100 64) demo_world w' r default_handshake_ok Er Hd)
    as (hs & hid & src & ks & Hrep & Hid & Hdec & _).
  exists hs, hid. split; [exact Hrep|]. split; [exact Hid|]. rewrite Hdec. revert Hdec. cbn. unfold pinned_decide.
  destruct (Sha256Fingerprint.eq _ _); [intros [= <-]; reflexivity|intros [=]].
Defined.

Lemma handshake_run_ends_witness :
  match start with
  | Some hs => exists w' hs' e, run_handshake_on (Sm := Trickle.trickle_seam) demo_features demo_policy 103 hs 100 64
      (0 : @World Trickle.trickle_seam) = Done (w', hs', e)
  | None => False
  end.
Proof.
  assert (match build (K:=unit) demo_features HandshakeConfig.default tt None with Some (Ok _) => True | _ => False end) as Hb
    by (vm_compute; exact I).
  unfold start. destruct (build demo_features HandshakeConfig.default tt None) as [[hs|e]|] eqn:Eb; [|exact Hb..].
  exact (handshake_run_ends (E := unit) (Sm := Trickle.trickle_seam) (Tk := Trickle.trickle_ticks) demo_policy demo_features 103
    HandshakeConfig.default None tt hs 100 64 (0 : @World Trickle.trickle_seam) default_handshake_ok Eb
    ltac:(vm_compute; reflexivity)).
Defined.
