(* ===== verification/ObserverRun.v ===== *)
(** * The observer driver

    What the record of one observed connection says, over any network and
    however the listener is stopped: it is the record of what the client sent,
    its counters are those of the bytes moved, and the connection deadline
    bounds the observation. *)

From S2P Require Import Prelude WireError NameList Primitives Messages KexInit WireIdent TcpIdent Packet.
From S2P Require Import Initial Probe Observer Seam Drivers DriversProofs.

Import ObserverDriver.

(** ** Observations without I/O *)

(** [hears p ds evs q]: given the chunks [ds] as it asks for more, each within
    its room, [p] reports [evs] and becomes [q]. *)
Inductive hears : Observer.t -> list bytes -> list ObserverEvent -> Observer.t -> Prop :=
| hears_done p : hears p [] [] p
| hears_event p p1 e ds evs q :
    Observer.step p = Some (p1, ObEvent e) -> hears p1 ds evs q -> hears p ds (e :: evs) q
| hears_read p d ds evs q :
    Observer.step p = Some (p, ObNeedMore) -> zlen d <= Observer.room p ->
    hears (Observer.feed p d) ds evs q -> hears p (d :: ds) evs q.

Lemma hears_app p ds1 evs1 q ds2 evs2 r :
  hears p ds1 evs1 q -> hears q ds2 evs2 r -> hears p (ds1 ++ ds2) (evs1 ++ evs2) r.
Proof.
  induction 1 as [p|p p1 e ds evs q Hs _ IH|p d ds evs q Hs Hf _ IH]; intros Hq; [done|..].
  - eapply hears_event; [done|by apply IH].
  - apply hears_read; [done..|by apply IH].
Qed.

(** What a record keeps of the events: the identification and the messages. *)
Fixpoint ident_in (ci : option TcpIdentification.t) (evs : list ObserverEvent) : option TcpIdentification.t :=
  match evs with
  | [] => ci
  | OeClientIdentification i :: evs => ident_in (Some i) evs
  | OeSkipped _ :: evs => ident_in ci evs
  end.

Fixpoint skipped_in (evs : list ObserverEvent) : list SkippedMessage :=
  match evs with
  | [] => []
  | OeClientIdentification _ :: evs => skipped_in evs
  | OeSkipped m :: evs => m :: skipped_in evs
  end.

Lemma ident_in_app ci evs1 evs2 : ident_in ci (evs1 ++ evs2) = ident_in (ident_in ci evs1) evs2.
Proof. revert ci. induction evs1 as [|[i|m] evs1 IH]; intros ci; [done|apply IH..]. Qed.

Lemma skipped_in_app evs1 evs2 : skipped_in (evs1 ++ evs2) = skipped_in evs1 ++ skipped_in evs2.
Proof. induction evs1 as [|[i|m] evs1 IH]; simpl; [done|done|by rewrite IH]. Qed.

Section record.
Context {A : Type}.
Implicit Types o : Observation A.

(** [o'] is [o] with the events [evs] and [n] bytes read added. *)
Definition grows o o' (evs : list ObserverEvent) (n : Z) : Prop :=
  id o' = id o /\ local o' = local o /\ peer o' = peer o /\ accepted_unix o' = accepted_unix o /\
  server_identification o' = server_identification o /\ bytes_written o' = bytes_written o /\
  bytes_read o' = bytes_read o + n /\
  client_identification o' = ident_in (client_identification o) evs /\
  messages o' = messages o ++ skipped_in evs.

Lemma grows_refl o : grows o o [] 0.
Proof. unfold grows. rewrite app_nil_r. split_and!; try done; lia. Qed.

Lemma grows_trans o1 o2 o3 evs1 evs2 n1 n2 :
  grows o1 o2 evs1 n1 -> grows o2 o3 evs2 n2 -> grows o1 o3 (evs1 ++ evs2) (n1 + n2).
Proof.
  unfold grows. intros (?&?&?&?&?&?&?&Hc&Hm) (?&?&?&?&?&?&?&Hc'&Hm').
  rewrite ident_in_app, skipped_in_app, (assoc_L (++)), <- Hc, <- Hm. split_and!; (congruence || lia).
Qed.

Lemma record_event_grows o e :
  grows o (record_event o e) [e] 0 /\ proposal (record_event o e) = proposal o.
Proof. destruct e; unfold grows; simpl; rewrite ?app_nil_r; split_and!; (done || lia). Qed.

Lemma with_stage_grows o o' st evs n : grows o o' evs n -> grows o (with_stage o' st) evs n.
Proof. done. Qed.

Lemma drain_hears fuel p o :
  observer_inv p -> zlen (InputBuffer.buf (Observer.buf p)) < Z.of_nat fuel ->
  exists evs q q' o' r, drain fuel p o = Done (q', o', r) /\ hears p [] evs q /\ grows o o' evs 0 /\ observer_inv q' /\
    match r with
    | None => q' = q /\ Observer.step q = Some (q, ObNeedMore) /\ 0 < Observer.room q /\ proposal o' = proposal o
    | Some x => Observer.step q = Some (q', ObFinishedWith x) /\ stage o' = ObFinished /\
        proposal o' = match x with OoProposal pr => Some pr | _ => proposal o end
    end.
Proof.
  revert p o. induction fuel as [|fuel IH]; intros p o Hi Hf.
  { pose proof (zlen_nonneg (InputBuffer.buf (Observer.buf p))). lia. }
  cbn [drain]. destruct (observer_step_spec p Hi) as (p1 & r & Hs & (Hi1 & _ & _ & Hr)). rewrite Hs.
  destruct r as [|ev|x].
  - destruct Hr as [-> Hroom]. exists [], p, p, o, None. split_and!; try done; [constructor|apply grows_refl].
  - destruct (record_event_grows o ev) as [Hg Hp].
    destruct (IH p1 (record_event o ev) Hi1) as (evs & q & q' & o' & r & -> & Hh & Hg' & Hi' & Hr'); [lia|].
    exists (ev :: evs), q, q', o', r. rewrite Hp in Hr'. split_and!; try done.
    + by eapply hears_event.
    + exact (grows_trans _ _ _ [ev] evs 0 0 Hg Hg').
  - exists [], p, p1, (record_outcome o x), (Some x). split_and!; try done; [constructor|].
    unfold grows; simpl. rewrite app_nil_r. split_and!; try done; lia.
Qed.
End record.

(** ** The driver *)

(** The record of an observation that waits for more bytes. *)
Definition waits {A} (q : Observer.t) (o : Observation A) : Prop :=
  stage o = Observer.stage q /\ proposal o = None /\ Observer.step q = Some (q, ObNeedMore).

(** The call that ended the reading, for each end: the end of input was read;
    the clock stood at or past the deadline; the stop flag was seen; the read
    timeout was refused, or a read failed otherwise than by expiring or being
    interrupted. *)
Definition input_end (c : Call) : Prop := exists n, c = CallRead n (Ok []).

Definition deadline_passed (deadline : Z) (c : Call) : Prop := exists t, c = CallNow t /\ deadline <= t.

Definition read_failed (err : IoError) (c : Call) : Prop :=
  (exists d, c = CallSetRead d (Err err)) \/
  (exists n, c = CallRead n (Err err) /\ kind err <> WouldBlock /\ kind err <> TimedOut /\ kind err <> Interrupted).

(** How an observation that heard up to [q] by the calls [l] was recorded: the
    end [e] with the last call as its reason, the stage reached and the
    proposal. *)
Definition concludes {A} (deadline : Z) (l : list Call) (q : Observer.t) (o : Observation A) (e : ObservationEnd) : Prop :=
  match e with
  | EndObserver x =>
      stage o = ObFinished /\ proposal o = (match x with OoProposal pr => Some pr | _ => None end) /\
      ((exists q', Observer.step q = Some (q', ObFinishedWith x)) \/
       (Observer.step q = Some (q, ObNeedMore) /\ x = OoEof (Observer.stage q) (Observer.pending_bytes q) /\
        ends_with input_end l))
  | EndTimedOut => waits q o /\ ends_with (deadline_passed deadline) l
  | EndShutdown => waits q o /\ ends_with (eq (CallStop true)) l
  | EndIo err => waits q o /\ ends_with (read_failed err) l
  end.

(** How a banner that could not be written was recorded. *)
Definition banner_failed (deadline : Z) (l : list Call) (e : ObservationEnd) : Prop :=
  exists err, ends_with (write_stop deadline err) l /\ e = match kind err with TimedOut => EndTimedOut | _ => EndIo err end.

Lemma concludes_app {A} deadline l1 l2 q (o : Observation A) e :
  concludes deadline l2 q o e -> concludes deadline (l1 ++ l2) q o e.
Proof.
  destruct e; simpl; [|by intros [? ?%(ends_with_app_r _ l1)]..].
  intros (?&?&[?|(?&?&?%(ends_with_app_r _ l1))]); split_and!; auto.
Qed.

Lemma chunk_fits chunk room : 1 <= chunk -> 0 < room -> 1 <= want_of chunk room <= room /\ want_of chunk room <= chunk.
Proof. unfold want_of. lia. Qed.

Section driver.
Context {Sm : Seam} `{SL : !SeamLaws Sm, Sh : !Shared Sm} {A : Type}.
Context (config : ListenerConfig A).
Implicit Types (w : @World (traced Sm)) (o : Observation A).

#[local] Instance traced_sh : Shared (traced Sm) := traced_shared Sm Sh.

Lemma stop_log w :
  exists b, let '(w', b') := stop_load w in b' = b /\
  forall slice deadline, adds slice deadline w w' [CallStop b].
Proof.
  cbn [stop_load traced_sh traced_shared]. pose proof (logging_log stop_load CallStop w) as Hl.
  destruct (logging _ _ w) as [w' b]. exists b. split; [done|]. intros slice deadline. split; [done|]. intros a. by eexists.
Qed.

(** A waiting observer has not ended. *)
Lemma waiting_ended q :
  Observer.step q = Some (q, ObNeedMore) ->
  snd (Observer.input_ended q) = OoEof (Observer.stage q) (Observer.pending_bytes q).
Proof. unfold Observer.step, Observer.input_ended. by destruct (Observer.end_ q). Qed.

Lemma read_loop_record fuel p o deadline w w' p' o' e :
  observer_inv p -> proposal o = None -> 1 <= cfg_read_chunk config ->
  read_loop (Sm := traced Sm) fuel p o deadline config w = Done (w', p', o', e) ->
  exists l evs q, adds (poll_slice config) deadline w w' l /\ sent l = [] /\ hears p (heard l) evs q /\
    grows o o' evs (zlen (concat (heard l))) /\ concludes deadline l q o' e.
Proof.
  intros Hi Hpr Hck. revert p o w Hi Hpr. induction fuel as [|fuel IH]; intros p o w Hi Hpr; [done|]. cbn [read_loop].
  destruct (drain_hears (S (length (InputBuffer.buf (Observer.buf p)))) p o Hi)
    as (evs & q & q' & o1 & r & -> & Hh & Hg & Hi' & Hr); [unfold zlen; lia|].
  rewrite Hpr in Hr. destruct r as [x|].
  { destruct Hr as (Hs & Hst & Hp). intros [= <- <- <- <-]. exists [], evs, q.
    split_and!; [apply adds_nil|done|done|done|split_and!; eauto]. }
  destruct Hr as (-> & Hs & Hroom & Hp).
  destruct (stop_log w) as (b & Hb). destruct (stop_load w) as [w1 b']. destruct Hb as [-> Hadd1]. destruct b.
  { intros [= <- <- <- <-]. exists [CallStop true], evs, q.
    split_and!; [done|done|done|by apply with_stage_grows|]. split; [by split_and!|by eexists]. }
  destruct (chunk_fits _ _ Hck Hroom) as [Hwant Hwc].
  destruct (timed_read_last (poll_slice config) _ deadline w1 (proj1 Hwant)) as (l & Hl).
  pose proof (timed_read_len (poll_slice config) _ deadline w1 (proj1 Hwant)) as Hlen.
  destruct (timed_read _ _ deadline w1) as [w2 r]. destruct Hl as (Ha & Hsl & Hhl & Hlast).
  destruct (Z.ltb_spec (cfg_read_chunk config) (want_of (cfg_read_chunk config) (Observer.room q))); [lia|].
  set (l1 := CallStop false :: l).
  assert (adds (poll_slice config) deadline w w2 l1) as Hadd by exact (adds_app _ _ _ _ _ _ _ (Hadd1 _ _) Ha).
  apply (ends_with_app_r _ [CallStop false]) in Hlast. change ([CallStop false] ++ l) with l1 in Hlast.
  assert (heard l1 = [] ->
     hears p (heard l1) evs q /\ grows o (with_stage o1 (Observer.stage q)) evs (zlen (concat (heard l1))) /\
     waits q (with_stage o1 (Observer.stage q))) as Hstop.
  { intros ->. split; [done|]. split; [by apply with_stage_grows|by split_and!]. }
  assert (forall d p2 o2, heard l1 = d -> observer_inv p2 -> proposal o2 = None ->
    hears p d evs p2 -> grows o o2 evs (zlen (concat d)) ->
    read_loop (Sm := traced Sm) fuel p2 o2 deadline config w2 = Done (w', p', o', e) ->
    exists l evs q, adds (poll_slice config) deadline w w' l /\ sent l = [] /\ hears p (heard l) evs q /\
    grows o o' evs (zlen (concat (heard l))) /\ concludes deadline l q o' e) as Hrec.
  { intros d p2 o2 Hd Hi2 Hp2 Hh2 Hg2 Hrun. destruct (IH p2 o2 w2 Hi2 Hp2 Hrun) as (l' & evs' & q' & Ha' & Hs' & Hh' & Hg' & Hc').
    exists (l1 ++ l'), (evs ++ evs'), q'. rewrite heard_app, Hd, concat_app, zlen_app.
    split_and!; [by eapply adds_app|by rewrite sent_app, Hs'; unfold l1; cbn [sent]; rewrite Hsl|by eapply hears_app|by eapply grows_trans|by apply concludes_app]. }
  destruct r as [|err|[[|c d]|err]].
  - intros [= <- <- <- <-]. destruct (Hstop Hhl) as (?&?&?). by exists l1, evs, q.
  - intros [= <- <- <- <-]. destruct (Hstop Hhl) as (?&?&?). exists l1, evs, q. split_and!; try done. split; [done|].
    destruct Hlast as (c & ? & ?). exists c. split; [done|by left].
  - pose proof (waiting_ended q Hs) as Hend. destruct (Observer.input_ended q) as [q2 x]. simpl in Hend. subst x.
    intros [= <- <- <- <-]. destruct (Hstop Hhl) as (?&?&?).
    exists l1, evs, q. split_and!; try done. split_and!; [done|done|by right].
  - apply (Hrec [c :: d]); [done|by apply observer_feed_inv|done| |].
    + rewrite <- (app_nil_r evs). change [c :: d] with ([] ++ [c :: d]). eapply hears_app; [done|].
      apply hears_read; [done| |constructor]. specialize (Hlen (c :: d) eq_refl). lia.
    + cbn [concat]. rewrite app_nil_r. destruct Hg as (?&?&?&?&?&?&Hbr&?&?). unfold grows; simpl. split_and!; try done.
      rewrite Hbr. lia.
  - assert (read_loop (Sm := traced Sm) fuel q (with_stage o1 (Observer.stage q)) deadline config w2 = Done (w', p', o', e) ->
      exists l evs q, adds (poll_slice config) deadline w w' l /\ sent l = [] /\ hears p (heard l) evs q /\
      grows o o' evs (zlen (concat (heard l))) /\ concludes deadline l q o' e) as Hagain.
    { by apply (Hrec []). }
    assert (kind err <> WouldBlock -> kind err <> TimedOut -> kind err <> Interrupted ->
      ends_with (read_failed err) l1) as Hfail.
    { intros H1 H2 H3. destruct Hlast as (c & Hc & n & ->). eexists; split; [exact Hc|]. right. by exists n. }
    destruct (kind err) eqn:Ek; try exact Hagain; (intros [= <- <- <- <-]; destruct (Hstop Hhl) as (?&?&?);
      exists l1, evs, q; split_and!; try done; split; [done|by apply Hfail]).
Qed.

Lemma drive_record fuel p o deadline w w' p' o' e :
  observer_inv p -> proposal o = None -> 1 <= cfg_read_chunk config ->
  drive (Sm := traced Sm) fuel p o deadline config w = Done (w', p', o', e) ->
  exists l evs q, adds (poll_slice config) deadline w w' l /\
    ((sent l = Observer.server_line p /\ hears p (heard l) evs q /\ concludes deadline l q o' e /\
        grows (with_counts o (bytes_read o) (bytes_written o + zlen (Observer.server_line p))) o' evs
          (zlen (concat (heard l)))) \/
     (heard l = [] /\ sent l `prefix_of` Observer.server_line p /\ o' = o /\ banner_failed deadline l e)).
Proof.
  intros Hi Hpr Hck. unfold drive, write_all_by.
  destruct (write_loop fuel _ 0 deadline w) as [[w1 r]| |] eqn:Ew; [|done|done].
  apply (write_loop_last (poll_slice config)) in Ew as (l1 & rest & Ha & Hr & Hd & Hok & Hlast);
    [|pose proof (zlen_nonneg (Observer.server_line p)); lia].
  rewrite zdrop_0 in Hd. destruct r as [[]|err].
  - intros Hrun. apply read_loop_record in Hrun as (l2 & evs & q & Ha2 & Hs2 & Hh & Hg & Hc); [|done..].
    exists (l1 ++ l2), evs, q. split; [by eapply adds_app|]. left.
    rewrite sent_app, Hs2, app_nil_r, heard_app, Hr.
    split_and!; [by rewrite Hd, Hok, app_nil_r|done|by apply concludes_app|done].
  - intros [= <- <- <- <-]. exists l1, [], p. split; [done|right].
    split_and!; [done|by exists rest|done|]. exists err. split; [by apply Hlast|done].
Qed.
End driver.

(** ** Fuel *)

Section fuel.
Context {Sm : Seam} `{SL : !SeamLaws Sm, Sh : !Shared Sm, Tk : !Ticking Sm} {A : Type}.
Context (config : ListenerConfig A).
Context (tick_stop : forall w : @World Sm, time w <= time (fst (stop_load w))).

Lemma observer_loop_ends fuel p (o : Observation A) deadline (w : @World Sm) :
  observer_inv p -> 1 <= cfg_read_chunk config -> outlasts fuel deadline w ->
  exists w' p' o' e, read_loop fuel p o deadline config w = Done (w', p', o', e).
Proof using All.
  unfold outlasts. intros Hi Hck. revert p o w Hi. induction fuel as [|fuel IH]; intros p o w Hi Hf; [lia|]. cbn [read_loop].
  destruct (drain_hears (S (length (InputBuffer.buf (Observer.buf p)))) p o Hi)
    as (evs & q & q' & o1 & r & -> & _ & _ & Hi' & Hr); [unfold zlen; lia|].
  destruct r as [x|]; [by eexists _, _, _, _|]. destruct Hr as (-> & _ & Hroom & _).
  pose proof (tick_stop w) as Hts. destruct (stop_load w) as [w1 []]; [by eexists _, _, _, _|]. simpl in Hts.
  destruct (chunk_fits _ _ Hck Hroom) as [_ Hwc].
  pose proof (timed_read_ticks (poll_slice config) (want_of (cfg_read_chunk config) (Observer.room q)) deadline w1) as Ht.
  destruct (timed_read _ _ deadline w1) as [w2 r].
  destruct (Z.ltb_spec (cfg_read_chunk config) (want_of (cfg_read_chunk config) (Observer.room q))); [lia|].
  destruct r as [|err|[[|b d]|err]].
  - by eexists _, _, _, _.
  - by eexists _, _, _, _.
  - destruct (Observer.input_ended q). by eexists _, _, _, _.
  - apply IH; [by apply observer_feed_inv|lia].
  - destruct (kind err); try (by eexists _, _, _, _); apply IH; (done || lia).
Qed.

Lemma observer_drive_ends fuel p (o : Observation A) deadline (w : @World Sm) :
  observer_inv p -> 1 <= cfg_read_chunk config -> outlasts fuel deadline w ->
  exists w' p' o' e, drive fuel p o deadline config w = Done (w', p', o', e).
Proof using All.
  intros Hi Hck Hf. unfold drive, write_all_by.
  destruct (write_loop_ends fuel (Observer.server_line p) 0 deadline w Hf) as (w1 & r & -> & Ht & _).
  destruct r as [[]|e]; [|by eexists _, _, _, _]. apply observer_loop_ends; [done..|]. unfold outlasts in *. lia.
Qed.
End fuel.

(** ** Properties *)

Section props.
Context {Sm : Seam} `{SL : !SeamLaws Sm, Sh : !Shared Sm, Sk : !Socket Sm} {A : Type}.

#[local] Existing Instance traced_sh.
#[local] Instance traced_sk : Socket (traced Sm) := traced_socket Sm Sk.

(** What a worker's record says. *)
Lemma observation_record fuel n (lo pe : A) accepted_at (config : ListenerConfig A)
    (w w' : @World (traced Sm)) o :
  observer_config_ok (cfg_observer config) -> 1 <= cfg_read_chunk config ->
  observe_connection (Sm := traced Sm) fuel n lo pe accepted_at config w = Done (w', o) ->
  exists p l evs q t1, let deadline := accepted_at + connection_timeout config in
    Observer.new (cfg_observer config) = Ok p /\
    logged w' = logged w ++ l ++ [CallShutdown; CallNow t1] /\
    disciplined (poll_slice config) deadline l /\
    id o = n /\ local o = lo /\ peer o = pe /\ elapsed o = t1 - accepted_at /\
    server_identification o = Observer.server_identification_line p /\
    bytes_read o = zlen (concat (heard l)) /\
    client_identification o = ident_in None evs /\ messages o = skipped_in evs /\
    ((sent l = Observer.server_line p /\ bytes_written o = zlen (Observer.server_line p) /\
        hears p (heard l) evs q /\ concludes deadline l q o (end_ o)) \/
     (heard l = [] /\ evs = [] /\ bytes_written o = 0 /\ sent l `prefix_of` Observer.server_line p /\
        stage o = ObClientIdentification /\ proposal o = None /\ banner_failed deadline l (end_ o))).
Proof.
  intros Hc Hck. unfold observe_connection. cbn [unix_now traced_sh traced_shared]. unfold unlogged.
  destruct (unix_now (fst w)) as [w1 unix]. destruct (Observer.new _) as [p|e] eqn:En; [|done].
  destruct (observer_new_inv _ _ Hc En) as [Hi _].
  destruct (drive _ _ _ _ _ _) as [[[[w2 p'] o1] e]| |] eqn:Ed; [|done|done].
  apply drive_record in Ed as (l & evs & q & [El D] & Hcase); [|done..].
  cbn [clock_now traced]. pose proof (logging_log clock_now CallNow (shutdown_both (Sm := traced Sm) w2)) as Hl.
  destruct (logging _ _ (shutdown_both w2)) as [w3 t1]. intros [= <- <-].
  assert (logged w3 = logged w ++ l ++ [CallShutdown; CallNow t1]) as Hlog.
  { rewrite Hl. transitivity ((logged w2 ++ [CallShutdown]) ++ [CallNow t1]); [done|].
    rewrite El. transitivity (((logged w ++ l) ++ [CallShutdown]) ++ [CallNow t1]); [done|]. by rewrite <- !(assoc_L (++)). }
  destruct Hcase as [(Hs & Hh & Hcc & Hg)|(Hh & Hs & -> & Hend)].
  - destruct Hg as (?&?&?&?&?&?&?&?&?). exists p, l, evs, q, t1. split_and!; try done. left. split_and!; done.
  - exists p, l, [], q, t1. split_and!; try done; [by rewrite Hh|]. right. split_and!; try done.
Qed.

(** C14: an observation record is what happened on the connection: the banner is
    sent before anything is read; the client identification and messages are
    those the observer reported for the bytes read, in order, each read within
    its room; the proposal, the stage and the end are the observer's, and the
    last call made is the reason for every other end: an end of input only after
    a read that returned nothing, a timeout only after a clock reading at or past
    the deadline (or, before anything was read, a banner write that timed out),
    never after a read poll that merely expired, a shutdown only after the stop
    flag was seen set, and an I/O error only after the call that failed with it;
    [bytes_read] counts what was read, and [bytes_written] the banner when all of
    it was sent, zero otherwise; every call is bounded by the time left to the
    connection's deadline, a read also by the poll interval; the socket is shut
    down at the end, whatever the end. *)
Theorem observation_faithful fuel n (lo pe : A) accepted_at (config : ListenerConfig A)
    (w w' : @World (traced Sm)) o :
  observer_config_ok (cfg_observer config) -> 1 <= cfg_read_chunk config ->
  observe_connection (Sm := traced Sm) fuel n lo pe accepted_at config w = Done (w', o) ->
  exists p l evs q t1, let deadline := accepted_at + connection_timeout config in
    Observer.new (cfg_observer config) = Ok p /\
    logged w' = logged w ++ l ++ [CallShutdown; CallNow t1] /\
    disciplined (poll_slice config) deadline l /\
    id o = n /\ local o = lo /\ peer o = pe /\ elapsed o = t1 - accepted_at /\
    server_identification o = Observer.server_identification_line p /\
    bytes_read o = zlen (concat (heard l)) /\
    client_identification o = ident_in None evs /\ messages o = skipped_in evs /\
    ((sent l = Observer.server_line p /\ bytes_written o = zlen (Observer.server_line p) /\
        hears p (heard l) evs q /\ concludes deadline l q o (end_ o)) \/
     (heard l = [] /\ evs = [] /\ bytes_written o = 0 /\ sent l `prefix_of` Observer.server_line p /\
        stage o = ObClientIdentification /\ proposal o = None /\ banner_failed deadline l (end_ o))).
Proof. apply observation_record. Qed.

(** An observation always ends: on any network whose socket calls take time,
    with a clock that never goes back, the connection deadline bounds the polls
    of a worker, whatever the client sends or withholds, and nothing panics for
    a validated configuration. *)
Theorem observation_ends `{Tk : !Ticking Sm} fuel p (o : Observation A) deadline (config : ListenerConfig A)
    (w : @World Sm) :
  (forall w : @World Sm, time w <= time (fst (stop_load w))) ->
  observer_config_ok (cfg_observer config) -> Observer.new (cfg_observer config) = Ok p ->
  1 <= cfg_read_chunk config -> outlasts fuel deadline w ->
  exists w' p' o' e, drive fuel p o deadline config w = Done (w', p', o', e).
Proof. intros Ht Hc Hn Hck Hf. apply observer_drive_ends; [done| |done|done]. by apply (observer_new_inv _ _ Hc Hn). Qed.
End props.

(** ** Witnesses *)

#[local] Existing Instances Scripted.scripted_laws scripted_socket scripted_shared Trickle.trickle_laws Trickle.trickle_ticks.
#[local] Existing Instance traced_sh.

Definition demo_listener : ListenerConfig unit := ListenerConfig_default tt.

(** A client that stops reading inside the banner. *)
Definition deaf_client : @World (traced Scripted.scripted_seam) :=
  (Scripted.new [] [Scripted.WAccept 7; Scripted.WErr WouldBlock], []).

Abbreviation deaf_run :=
  (observe_connection (Sm := traced Scripted.scripted_seam) (Sk := traced_sk) 40 1 tt tt 0 demo_listener deaf_client).

(** A partial banner is not counted. *)
Lemma observation_faithful_witness :
  match deaf_run with
  | Done (w', o) => bytes_written o = 0 /\ zlen (sent (logged w')) = 7 /\ end_ o = EndTimedOut /\
      client_identification o = ident_in None []
  | _ => False
  end.
Proof.
  assert (match deaf_run with
    | Done (w', o) => bytes_written o = 0 /\ zlen (sent (logged w')) = 7 /\ end_ o = EndTimedOut
    | _ => False end) as Hd by (vm_compute; split_and!; reflexivity).
  destruct deaf_run as [[w' o]| |] eqn:Er; [|exact Hd|exact Hd]. destruct Hd as (H1 & H2 & H3).
  destruct (observation_faithful (Sm := Scripted.scripted_seam) 40 1 tt tt 0 demo_listener deaf_client w' o
    default_observer_config_ok ltac:(vm_compute; discriminate) Er)
    as (p & l & evs & q & t1 & Hn & _ & _ & _ & _ & _ & _ & _ & _ & Hc & _ & [(_ & Hw & _)|(_ & -> & _)]).
  - exfalso. rewrite H1 in Hw. vm_compute in Hn. injection Hn as <-. vm_compute in Hw. discriminate.
  - exact (conj H1 (conj H2 (conj H3 Hc))).
Defined.

Definition trickle_shared : Shared Trickle.trickle_seam :=
  Build_Shared Trickle.trickle_seam (fun w => (w, false)) (fun w => (w, 0)).

Lemma observation_ends_witness :
  exists w' p' o' e, drive (Sm := Trickle.trickle_seam) (Sh := trickle_shared) 101 default_observer
    (new_observation 1 tt tt 0 default_observer) 100 demo_listener (0 : @World Trickle.trickle_seam) = Done (w', p', o', e).
Proof.
  exact (observation_ends (Sm := Trickle.trickle_seam) (Sh := trickle_shared) (Tk := Trickle.trickle_ticks) 101 default_observer
    (new_observation 1 tt tt 0 default_observer) 100 demo_listener (0 : @World Trickle.trickle_seam)
    (fun w => Z.le_refl _) default_observer_config_ok eq_refl ltac:(vm_compute; discriminate) ltac:(vm_compute; reflexivity)).
Defined.
