(* ===== verification/Listener.v ===== *)
(** * The listener

    Models io/listener.rs of crates/tatami_ssh_tcp/src: configuration checks,
    and [Listener::run] with its threads. The threads (the accept loop, one
    worker per admitted connection, the sink) interleave at every access to what
    they share: the stop flag, the capacity counter, the record channel, the
    drop counter and the sink's flags. [exec] performs one such step, chosen by
    a label; the operating system's answers (the result of [accept], an
    observation, the verdict of the sink, the passing of time, a call of
    [StopHandle::stop]) are in the labels. Counters are unbounded: their widths
    are out of reach of any run. *)

From S2P Require Import Prelude WireError NameList Primitives Messages KexInit WireIdent TcpIdent Packet.
From S2P Require Import Initial Probe Observer Seam Drivers.

Import ObserverDriver.

Module Run.

(* tcp/io/listener.rs:125-132 ConfigError *)
Inductive ConfigError : Type :=
| BadDuration (name : string)
| ZeroLimit (name : string)
| Identification (e : InvalidLocalIdentification).

(** [addable] says which durations can be added to the current instant. *)
Section validate.
Context {A : Type} (addable : Z -> bool).

(* tcp/io/listener.rs:149-151 usable *)
Definition usable (d : Z) : bool := negb (d =? 0) && addable d.

(* tcp/io/listener.rs:148-180 ListenerConfig::validate *)
Definition validate (self : ListenerConfig A) : result unit ConfigError :=
  if negb (usable (connection_timeout self)) then Err (BadDuration "connection_timeout")
  else if match run_for self with Some d => negb (usable d) | None => false end
  then Err (BadDuration "run_for")
  else if negb (usable (poll_interval self)) then Err (BadDuration "poll_interval")
  else if negb (usable (overload_report_interval self)) then Err (BadDuration "overload_report_interval")
  else if negb (addable (shutdown_grace self)) then Err (BadDuration "shutdown_grace")
  else if max_concurrent self =? 0 then Err (ZeroLimit "max_concurrent")
  else if pending_records self =? 0 then Err (ZeroLimit "pending_records")
  else if cfg_read_chunk self =? 0 then Err (ZeroLimit "read_chunk")
  else
    let? _ := map_err Identification (Observer.new (cfg_observer self)) in
    Ok tt.
End validate.

(* tcp/io/listener.rs:589-594 BindError *)
Inductive BindError : Type :=
| BindConfig (e : ConfigError)
| BindIo (e : IoError).

(** The operating system's part of [bind], in order: the socket, its
    non-blocking mode, its address. *)
Class BindOs (A : Type) : Type := {
  OsListener : Type;
  os_bind : A -> result OsListener IoError;
  os_set_nonblocking : OsListener -> result unit IoError;
  os_local_addr : OsListener -> result A IoError
}.

(* tcp/io/listener.rs:340-345 Listener *)
Record Listener `{BindOs A} : Type := mkListener {
  lst_config : ListenerConfig A;
  lst_socket : OsListener;
  lst_bound : A;
  lst_stop : bool
}.

(* tcp/io/listener.rs:356-367 Listener::bind *)
Definition bind `{BindOs A} (addable : Z -> bool) (config : ListenerConfig A) : result Listener BindError :=
  let? _ := map_err BindConfig (validate addable config) in
  let? socket := map_err BindIo (os_bind (bind_addr config)) in
  let? _ := map_err BindIo (os_set_nonblocking socket) in
  let? bound := map_err BindIo (os_local_addr socket) in
  Ok (mkListener _ _ config socket bound false).

(* tcp/io/listener.rs:243-254 StopReason *)
Inductive StopReason : Type :=
| RunDurationElapsed
| ConnectionLimitReached
| StopRequested
| SinkFailed
| AcceptFailed.

#[export] Instance stop_reason_eq_decision : EqDecision StopReason.
Proof. solve_decision. Defined.

(* tcp/io/listener.rs:259-267 StopReason::code *)
Definition stop_code (r : StopReason) : string :=
  match r with
  | RunDurationElapsed => "run_duration_elapsed"
  | ConnectionLimitReached => "connection_limit_reached"
  | StopRequested => "stop_requested"
  | SinkFailed => "sink_failed"
  | AcceptFailed => "accept_failed"
  end.

(* tcp/io/listener.rs:620-628 is_transient_accept_error *)
Definition is_transient_accept_error (e : IoError) : bool :=
  match kind e with
  | Interrupted | ConnectionAborted | ConnectionReset | TimedOut => true
  | _ => false
  end ||
  match raw_os_error e with Some n => (n =? 23) || (n =? 24) | None => false end.

(** The description of the fatal error: the text of the sink's or of
    [accept]'s error, kept as the error it comes from. *)
Inductive RunError (E : Type) : Type := FromSink (e : E) | FromAccept (e : IoError).
Arguments FromSink {E} e.
Arguments FromAccept {E} e.

(** [A]: socket addresses; [E]: what a sink fails with. *)
Section records.
Context {A E : Type}.

(* tcp/io/listener.rs:272-291 Summary *)
Record Summary : Type := mkSummary {
  sm_bound : A;
  sm_accepted : Z;
  sm_observed : Z;
  sm_dropped_at_capacity : Z;
  sm_records_dropped : Z;
  sm_workers_abandoned : Z;
  sm_reason : StopReason;
  sm_error : option (RunError E);
  sm_elapsed : Z
}.

(* tcp/io/listener.rs:295-313 ListenerEvent *)
Inductive ListenerEvent : Type :=
| Started (bound : A)
| ObservationEvent (o : Observation A)
| Overload (dropped_since_last total_dropped : Z)
| Stopped (s : Summary).

(** ** Threads *)

(** A worker: observing; with a record to queue; with a record that was refused,
    to be counted; and done but for its capacity. *)
(* tcp/io/listener.rs:483-495 run *)
Inductive WorkerPhase : Type :=
| Observing
| Emitting (o : Observation A)
| Counting
| Releasing.

Record Worker : Type := mkWorker { w_id : Z; w_peer : A; w_accepted_at : Z; w_phase : WorkerPhase }.

(** The sink thread: waiting for a record; holding one; about to set the failed
    flag, then the error; about to set the done flag; ended; unwound by a
    panic, which drops the receiver. *)
(* tcp/io/listener.rs:406-419 run *)
Inductive SinkPhase : Type :=
| SinkWaiting
| SinkHolding (e : ListenerEvent)
| SinkFailing (e : E)
| SinkStoring (e : E)
| SinkEnding
| SinkEnded
| SinkPanicked.

(** The accept loop and the shutdown sequence, by the next shared access. *)
Inductive MainPhase : Type :=
| SendStarted
| CheckStop
| CheckSink
| CheckLimits
| FlushOverload
| CountOverload
| Accepting
| Admitting (peer : A) (accepted_at : Z)
| StopAccepting (r : StopReason)
| Draining (r : StopReason) (grace_end : Z)
| Cancelling (r : StopReason)
| Awaiting (r : StopReason) (cancel_end : Z)
| Leaving (r : StopReason)
| FinalOverload (r : StopReason) (abandoned : Z)
| CountFinal (r : StopReason) (abandoned : Z)
| ReadError (r : StopReason) (abandoned : Z)
| Summarizing (r : StopReason) (abandoned : Z)
| Queueing (s : Summary) (abandon : Z)
| CountStopped (s : Summary)
| ReadDropped (s : Summary)
| Closing (s : Summary) (wait_end : Z)
| Returned (s : Summary).

(** The locals of [run]; [wake] is when a sleep of it ends. *)
(* tcp/io/listener.rs:424-429 run *)
Record Main : Type := mkMain {
  pc : MainPhase;
  wake : Z;
  started : Z;
  accepted : Z;
  observed : Z;
  dropped : Z;
  dropped_reported : Z;
  last_overload_report : option Z;
  error : option (RunError E)
}.

(** What the threads share, and the history of the channel: the records queued
    and refused, taken by the sink thread, and given to the sink. *)
(* tcp/io/listener.rs:347-352 Shared *)
Record State : Type := mkState {
  now : Z;
  stop : bool;
  active : Z;
  records_dropped : Z;
  chan : list ListenerEvent;
  sink_failed : bool;
  sink_done : bool;
  sink_error : option E;
  sink : SinkPhase;
  workers : list Worker;
  main : Main;
  queued : list ListenerEvent;
  refused : list ListenerEvent;
  taken : list ListenerEvent;
  delivered : list ListenerEvent
}.
End records.
Arguments Summary : clear implicits.
Arguments ListenerEvent : clear implicits.
Arguments Worker : clear implicits.
Arguments WorkerPhase : clear implicits.
Arguments SinkPhase : clear implicits.
Arguments MainPhase : clear implicits.
Arguments Main : clear implicits.
Arguments State : clear implicits.

(** ** Updates *)

Section updates.
Context {A E : Type}.
Implicit Types (s : State A E) (m : Main A E).

Ltac update etas field v :=
  let e := eval cbv beta in etas in
  lazymatch eval pattern field in e with
  | ?f _ => let r := eval cbv beta in (f v) in exact r
  end.

Ltac update_main m field v :=
  update (mkMain (pc m) (wake m) (started m) (accepted m) (observed m) (dropped m) (dropped_reported m)
    (last_overload_report m) (error m)) field v.

Definition set_pc (v : MainPhase A E) m : Main A E := ltac:(update_main m (pc m) v).
Definition set_wake (v : Z) m : Main A E := ltac:(update_main m (wake m) v).
Definition set_accepted (v : Z) m : Main A E := ltac:(update_main m (accepted m) v).
Definition set_observed (v : Z) m : Main A E := ltac:(update_main m (observed m) v).
Definition set_dropped (v : Z) m : Main A E := ltac:(update_main m (dropped m) v).
Definition set_dropped_reported (v : Z) m : Main A E := ltac:(update_main m (dropped_reported m) v).
Definition set_last_overload_report (v : option Z) m : Main A E := ltac:(update_main m (last_overload_report m) v).
Definition set_error (v : option (RunError E)) m : Main A E := ltac:(update_main m (error m) v).

Ltac update_state s field v :=
  update (mkState (now s) (stop s) (active s) (records_dropped s) (chan s) (sink_failed s) (sink_done s)
    (sink_error s) (sink s) (workers s) (main s) (queued s) (refused s) (taken s) (delivered s)) field v.

Definition set_now (v : Z) s : State A E := ltac:(update_state s (now s) v).
Definition set_stop (v : bool) s : State A E := ltac:(update_state s (stop s) v).
Definition set_active (v : Z) s : State A E := ltac:(update_state s (active s) v).
Definition set_records_dropped (v : Z) s : State A E := ltac:(update_state s (records_dropped s) v).
Definition set_chan (v : list (ListenerEvent A E)) s : State A E := ltac:(update_state s (chan s) v).
Definition set_sink_failed (v : bool) s : State A E := ltac:(update_state s (sink_failed s) v).
Definition set_sink_done (v : bool) s : State A E := ltac:(update_state s (sink_done s) v).
Definition set_sink_error (v : option E) s : State A E := ltac:(update_state s (sink_error s) v).
Definition set_sink (v : SinkPhase A E) s : State A E := ltac:(update_state s (sink s) v).
Definition set_workers (v : list (Worker A)) s : State A E := ltac:(update_state s (workers s) v).
Definition set_main (v : Main A E) s : State A E := ltac:(update_state s (main s) v).
Definition set_queued (v : list (ListenerEvent A E)) s : State A E := ltac:(update_state s (queued s) v).
Definition set_refused (v : list (ListenerEvent A E)) s : State A E := ltac:(update_state s (refused s) v).
Definition set_taken (v : list (ListenerEvent A E)) s : State A E := ltac:(update_state s (taken s) v).
Definition set_delivered (v : list (ListenerEvent A E)) s : State A E := ltac:(update_state s (delivered s) v).
End updates.

(** ** Steps *)

Section steps.
Context {A E : Type}.
Context (config : ListenerConfig A) (bound : A).
Implicit Types (s : State A E) (m : Main A E) (ev : ListenerEvent A E).

Definition goto (p : MainPhase A E) s : State A E := set_main (set_pc p (main s)) s.

Definition sleep_to (d : Z) (p : MainPhase A E) s : State A E :=
  set_main (set_wake (now s + d) (set_pc p (main s))) s.

(** [SyncSender::try_send]: refused when the channel is full or its receiver is
    gone. *)
Definition receiver_gone s : bool := match sink s with SinkPanicked | SinkEnding | SinkEnded => true | _ => false end.

Definition try_send ev s : State A E * bool :=
  if receiver_gone s || (pending_records config <=? zlen (chan s))
  then (set_refused (refused s ++ [ev]) s, false)
  else (set_queued (queued s ++ [ev]) (set_chan (chan s ++ [ev]) s), true).

(** The second half of [try_emit], after a refusal. *)
(* tcp/io/listener.rs:607-615 try_emit *)
Definition count_refusal s : State A E := set_records_dropped (records_dropped s + 1) s.

(* tcp/io/listener.rs:431-459 run *)
Definition check_limits s : State A E :=
  let m := main s in
  if match run_for config with Some d => started m + d <=? now s | None => false end
  then goto (StopAccepting RunDurationElapsed) s
  else if match max_connections config with Some n => n <=? accepted m | None => false end
  then goto (StopAccepting ConnectionLimitReached) s
  else goto FlushOverload s.

Definition overload_event m : ListenerEvent A E := Overload (dropped m - dropped_reported m) (dropped m).

Definition overload_reported s : State A E :=
  set_main (set_last_overload_report (Some (now s)) (set_dropped_reported (dropped (main s)) (main s))) s.

(* tcp/io/listener.rs:445-459 run *)
Definition flush_overload s : State A E :=
  let m := main s in
  if (dropped_reported m <? dropped m) &&
     match last_overload_report m with
     | Some t => overload_report_interval config <=? now s - t
     | None => true
     end
  then
    let '(s, sent) := try_send (overload_event m) s in
    if (sent : bool) then goto Accepting (overload_reported s) else goto CountOverload s
  else goto Accepting s.

(* tcp/io/listener.rs:461-508 run *)
Definition accept (r : result A IoError) s : State A E :=
  let m := main s in
  match r with
  | Ok peer => set_main (set_pc (Admitting peer (now s)) (set_accepted (accepted m + 1) m)) s
  | Err e =>
      match kind e with
      | WouldBlock => sleep_to (poll_interval config) CheckStop s
      | _ =>
          if is_transient_accept_error e then sleep_to (poll_interval config) CheckStop s
          else set_main (set_pc (StopAccepting AcceptFailed) (set_error (Some (FromAccept e)) m)) s
      end
  end.

(* tcp/io/listener.rs:466-496 run *)
Definition admit_connection (peer : A) (accepted_at : Z) s : State A E :=
  let m := main s in
  if active s <? max_concurrent config then
    let s := set_active (active s + 1) s in
    let id := observed m + 1 in
    let s := set_workers (workers s ++ [mkWorker id peer accepted_at Observing]) s in
    set_main (set_pc CheckStop (set_observed id m)) s
  else set_main (set_pc CheckStop (set_dropped (dropped m + 1) m)) s.

Definition wait_step : Z := Z.min (poll_interval config) 10000000.

(* tcp/io/listener.rs:514-519 run *)
Definition stop_accepting (r : StopReason) s : State A E :=
  let s := match r with SinkFailed | AcceptFailed => set_stop true s | _ => s end in
  goto (Draining r (now s + shutdown_grace config)) s.

(* tcp/io/listener.rs:520-523 run *)
Definition draining (r : StopReason) (grace_end : Z) s : State A E :=
  if (0 <? active s) && (now s <? grace_end) then sleep_to wait_step (Draining r grace_end) s
  else if 0 <? active s then goto (Cancelling r) s
  else goto (Leaving r) s.

(* tcp/io/listener.rs:524-525 run *)
Definition cancelling (r : StopReason) s : State A E :=
  goto (Awaiting r (now s + shutdown_grace config)) (set_stop true s).

(* tcp/io/listener.rs:526-528 run *)
Definition awaiting (r : StopReason) (cancel_end : Z) s : State A E :=
  if (0 <? active s) && (now s <? cancel_end) then sleep_to wait_step (Awaiting r cancel_end) s
  else goto (Leaving r) s.

(* tcp/io/listener.rs:532-540 run *)
Definition final_overload (r : StopReason) (abandoned : Z) s : State A E :=
  let m := main s in
  if dropped_reported m <? dropped m then
    let '(s, sent) := try_send (overload_event m) s in
    if (sent : bool) then goto (ReadError r abandoned) s else goto (CountFinal r abandoned) s
  else goto (ReadError r abandoned) s.

(* tcp/io/listener.rs:542-544 run *)
Definition read_error (r : StopReason) (abandoned : Z) s : State A E :=
  let m := main s in
  let m := if bool_decide (r = SinkFailed) then set_error (option_map FromSink (sink_error s)) m else m in
  set_main (set_pc (Summarizing r abandoned) m) s.

(* tcp/io/listener.rs:546-561 run *)
Definition summarize (r : StopReason) (abandoned : Z) s : State A E :=
  let m := main s in
  let summary := mkSummary bound (accepted m) (observed m) (dropped m) (records_dropped s) abandoned r
                   (error m) (now s - started m) in
  goto (Queueing summary (now s + shutdown_grace config)) s.

(** Each attempt to queue the summary is a [try_send] of the same record: only
    giving up counts as a refusal. *)
(* tcp/io/listener.rs:562-573 run *)
Definition queueing (summary : Summary A E) (abandon : Z) s : State A E :=
  if receiver_gone s || (pending_records config <=? zlen (chan s)) then
    if negb (receiver_gone s) && (now s <? abandon) then sleep_to 5000000 (Queueing summary abandon) s
    else goto (CountStopped summary) (set_refused (refused s ++ [Stopped summary]) s)
  else goto (ReadDropped summary) (set_queued (queued s ++ [Stopped summary]) (set_chan (chan s ++ [Stopped summary]) s)).

Definition with_records_dropped (n : Z) (x : Summary A E) : Summary A E :=
  mkSummary (sm_bound x) (sm_accepted x) (sm_observed x) (sm_dropped_at_capacity x) n
    (sm_workers_abandoned x) (sm_reason x) (sm_error x) (sm_elapsed x).

(* tcp/io/listener.rs:574-576 run *)
Definition read_dropped (summary : Summary A E) s : State A E :=
  goto (Closing (with_records_dropped (records_dropped s) summary) (now s + shutdown_grace config)) s.

(* tcp/io/listener.rs:577-583 run *)
Definition closing (summary : Summary A E) (wait_end : Z) s : State A E :=
  if negb (sink_done s) && (now s <? wait_end) then sleep_to 5000000 (Closing summary wait_end) s
  else goto (Returned summary) s.

(** The next step of the main thread; accepting needs the answer of [accept]. *)
(* tcp/io/listener.rs:384-584 run *)
Definition main_step s : option (State A E) :=
  if now s <? wake (main s) then None
  else
  match pc (main s) with
  | SendStarted =>
      if receiver_gone s then Some (goto CheckStop s)
      else if pending_records config <=? zlen (chan s) then None
      else Some (goto CheckStop (fst (try_send (Started bound) s)))
  | CheckStop => Some (if stop s then goto (StopAccepting StopRequested) s else goto CheckSink s)
  | CheckSink => Some (if sink_failed s then goto (StopAccepting SinkFailed) s else goto CheckLimits s)
  | CheckLimits => Some (check_limits s)
  | FlushOverload => Some (flush_overload s)
  | CountOverload => Some (goto Accepting (overload_reported (count_refusal s)))
  | Accepting => None
  | Admitting peer accepted_at => Some (admit_connection peer accepted_at s)
  | StopAccepting r => Some (stop_accepting r s)
  | Draining r grace_end => Some (draining r grace_end s)
  | Cancelling r => Some (cancelling r s)
  | Awaiting r cancel_end => Some (awaiting r cancel_end s)
  | Leaving r => Some (goto (FinalOverload r (active s)) s)
  | FinalOverload r abandoned => Some (final_overload r abandoned s)
  | CountFinal r abandoned => Some (goto (ReadError r abandoned) (count_refusal s))
  | ReadError r abandoned => Some (read_error r abandoned s)
  | Summarizing r abandoned => Some (summarize r abandoned s)
  | Queueing summary abandon => Some (queueing summary abandon s)
  | CountStopped summary => Some (goto (ReadDropped summary) (count_refusal s))
  | ReadDropped summary => Some (read_dropped summary s)
  | Closing summary wait_end => Some (closing summary wait_end s)
  | Returned _ => None
  end.

(** The worker at a position of the list makes its next step; an observing one
    ends with the given observation. *)
(* tcp/io/listener.rs:483-495 run *)
Definition worker_step (i : nat) (o : Observation A) s : option (State A E) :=
  let* w := workers s !! i in
  let become p s := set_workers (<[i := mkWorker (w_id w) (w_peer w) (w_accepted_at w) p]> (workers s)) s in
  match w_phase w with
  | Observing => Some (become (Emitting o) s)
  | Emitting o =>
      let '(s, sent) := try_send (ObservationEvent o) s in
      Some (become (if (sent : bool) then Releasing else Counting) s)
  | Counting => Some (become Releasing (count_refusal s))
  | Releasing => Some (set_active (active s - 1) (set_workers (delete i (workers s)) s))
  end.

(** The channel is closed once the main thread and every worker have dropped
    their sender. *)
Definition senders_gone s : bool :=
  match pc (main s), workers s with
  | (Closing _ _ | Returned _), [] => true
  | _, _ => false
  end.

(** The sink thread's next step; when it calls the sink, with that verdict. *)
(* tcp/io/listener.rs:406-419 run *)
Definition sink_step (verdict : result unit E) s : option (State A E) :=
  match sink s with
  | SinkWaiting =>
      match chan s with
      | ev :: rest => Some (set_taken (taken s ++ [ev]) (set_chan rest (set_sink (SinkHolding ev) s)))
      | [] => if senders_gone s then Some (set_sink SinkEnding s) else None
      end
  | SinkHolding ev =>
      if sink_failed s then Some (set_sink SinkWaiting s)
      else
        let s := set_delivered (delivered s ++ [ev]) s in
        Some (set_sink (match verdict with Ok _ => SinkWaiting | Err e => SinkFailing e end) s)
  | SinkFailing e => Some (set_sink (SinkStoring e) (set_sink_failed true s))
  | SinkStoring e => Some (set_sink SinkWaiting (set_sink_error (Some e) s))
  | SinkEnding => Some (set_sink SinkEnded (set_sink_done true s))
  | SinkEnded | SinkPanicked => None
  end.

(** A panic of the sink while it is called. *)
Definition sink_panic s : option (State A E) :=
  match sink s with
  | SinkHolding ev =>
      if sink_failed s then None
      else Some (set_chan [] (set_sink SinkPanicked (set_delivered (delivered s ++ [ev]) s)))
  | _ => None
  end.

(* tcp/io/listener.rs:328-330 StopHandle::stop *)
Definition stop_handle_stop s : State A E := set_stop true s.

Inductive Label : Type :=
| Tick (d : Z)
| StopHandle
| MainStep
| Accept (r : result A IoError)
| WorkerStep (i : nat) (o : Observation A)
| SinkStep (verdict : result unit E)
| SinkPanic.

Definition exec (l : Label) s : option (State A E) :=
  match l with
  | Tick d => if 0 <=? d then Some (set_now (now s + d) s) else None
  | StopHandle => Some (stop_handle_stop s)
  | MainStep => main_step s
  | Accept r =>
      match pc (main s) with
      | Accepting => if now s <? wake (main s) then None else Some (accept r s)
      | _ => None
      end
  | WorkerStep i o => worker_step i o s
  | SinkStep verdict => sink_step verdict s
  | SinkPanic => sink_panic s
  end.

Fixpoint execs (ls : list Label) s : option (State A E) :=
  match ls with
  | [] => Some s
  | l :: ls => let* s := exec l s in execs ls s
  end.

(* tcp/io/listener.rs:385-397 run *)
Definition initial (now : Z) (stop : bool) : State A E :=
  mkState now stop 0 0 [] false false None SinkWaiting []
    (mkMain SendStarted now now 0 0 0 0 None None) [] [] [] [].
End steps.
End Run.
