(* ===== verification/ListenerProofs.v ===== *)
(** * Invariants of the listener

    What every interleaving of the listener's threads keeps, for any client,
    clock and sink: capacity, the counters, the channel and the sink, one record
    per observed connection, the drop accounting, truthful stop reasons, and
    what may follow the final record. Each group is an invariant of its own. *)

From S2P Require Import Prelude WireError NameList Primitives Messages KexInit WireIdent TcpIdent Packet.
From S2P Require Import Initial Probe Observer Seam Drivers DriversProofs ObserverRun Listener.

Import ObserverDriver Run.

(** Limits a validated configuration has. *)
Definition listener_ok {A} (config : ListenerConfig A) : Prop :=
  1 <= max_concurrent config /\ 1 <= pending_records config /\ 1 <= cfg_read_chunk config /\
  0 < poll_interval config /\ 0 <= shutdown_grace config.

(** ** Lists of workers *)

Section tally.
Context {W : Type}.

(** A sum over a list, by position. *)
Fixpoint tally (f : W -> Z) (l : list W) : Z := match l with [] => 0 | x :: l => f x + tally f l end.

Lemma tally_app f l k : tally f (l ++ k) = tally f l + tally f k.
Proof. induction l as [|x l IH]; simpl; lia. Qed.

Lemma tally_insert f l i x y : l !! i = Some x -> tally f (<[i := y]> l) = tally f l - f x + f y.
Proof.
  revert i. induction l as [|z l IH]; intros [|i] Hi; simpl in *; simplify_eq; [lia|]. rewrite (IH i Hi). lia.
Qed.

Lemma tally_delete f l i x : l !! i = Some x -> tally f (delete i l) = tally f l - f x.
Proof.
  revert i. induction l as [|z l IH]; intros [|i] Hi; simpl in *; simplify_eq; [lia|]. rewrite (IH i Hi). lia.
Qed.

Lemma tally_zero f l : (forall x, 0 <= f x) -> 0 <= tally f l.
Proof. intros Hf. induction l as [|x l IH]; simpl; [lia|]. specialize (Hf x). lia. Qed.

Lemma tally_le f g l : (forall x, f x <= g x) -> tally f l <= tally g l.
Proof. intros Hf. induction l as [|x l IH]; simpl; [lia|]. specialize (Hf x). lia. Qed.

Lemma tally_one l : tally (fun _ => 1) l = zlen l.
Proof. induction l as [|x l IH]; simpl; [done|]. rewrite IH, zlen_cons. done. Qed.

Lemma zlen_insert (l : list W) i x : zlen (<[i := x]> l) = zlen l.
Proof. unfold zlen. by rewrite length_insert. Qed.

Lemma zlen_delete (l : list W) i x : l !! i = Some x -> zlen (delete i l) = zlen l - 1.
Proof. intros Hi. rewrite <- !tally_one. by apply tally_delete with (f := fun _ => 1) in Hi. Qed.

Lemma insert_Permutation (l : list W) i x y : l !! i = Some x -> <[i := y]> l ≡ₚ y :: delete i l.
Proof.
  revert i. induction l as [|z l IH]; intros [|i] Hi; simpl in *; simplify_eq; [done|].
  rewrite (IH i Hi). apply Permutation_swap.
Qed.

(** Replacing one element of a list replaces its share of a concatenation. *)
Lemma concat_map_insert {B} (f : W -> list B) (l : list W) i x y :
  l !! i = Some x -> f x ++ concat (map f (<[i := y]> l)) ≡ₚ f y ++ concat (map f l).
Proof.
  intros Hi. rewrite (insert_Permutation l i x y Hi). simpl.
  rewrite (delete_Permutation l i x Hi) at 2. simpl. rewrite !(assoc_L (++)). by rewrite (Permutation_app_comm (f x) (f y)).
Qed.

Lemma concat_map_delete {B} (f : W -> list B) (l : list W) i x :
  l !! i = Some x -> concat (map f l) ≡ₚ f x ++ concat (map f (delete i l)).
Proof. intros Hi. by rewrite (delete_Permutation l i x Hi) at 1. Qed.
End tally.

(** The cases of a step. *)
Ltac unfold_steps :=
  unfold exec, main_step, check_limits, flush_overload, accept, admit_connection, stop_accepting, draining, cancelling,
    awaiting, final_overload, read_error, summarize, queueing, read_dropped, closing, overload_reported,
    count_refusal, worker_step, sink_step, sink_panic, stop_handle_stop, sleep_to, goto, try_send in *.

Ltac step_cases He :=
  repeat progress unfold_steps; simplify_eq/=;
  try (apply bind_Some in He as (w & Hw & He));
  repeat (case_match; simplify_eq/=; try done).

Section invariants.
Context {A E : Type}.
Context (config : ListenerConfig A) (bound : A).
Context (Hok : listener_ok config).
Implicit Types (s : State A E) (m : Main A E) (ev : ListenerEvent A E).

(** A record that observing the connection of worker [n] can produce, over some
    network, clock and stop flag. *)
Definition genuine (n : Z) (o : Observation A) : Prop :=
  exists (Sm : Seam) (SL : SeamLaws Sm) (Sh : Shared Sm) (Sk : Socket Sm) fuel peer accepted_at
    (w w' : @World (traced Sm)),
    observe_connection (Sh := traced_shared Sm Sh) (Sk := traced_socket Sm Sk) fuel n bound peer accepted_at config w =
      Done (w', o).

(** The observation in a label is one the worker can make. *)
Definition label_ok (l : @Label A E) s : Prop :=
  match l with
  | WorkerStep i o => forall w, workers s !! i = Some w -> genuine (w_id w) o
  | _ => True
  end.

Inductive reachable : State A E -> Prop :=
| reach_init t b : reachable (initial t b)
| reach_step l s s' : reachable s -> label_ok l s -> exec config bound l s = Some s' -> reachable s'.

Definition admitting (p : MainPhase A E) : Z := match p with Admitting _ _ => 1 | _ => 0 end.

(** The main thread is past the connection limit's check. *)
Definition may_accept (p : MainPhase A E) : bool :=
  match p with FlushOverload | CountOverload | Accepting => true | _ => false end.

(** Capacity is what the workers hold, and the counters add up. *)
Record counts s : Prop := {
  c_active : active s = zlen (workers s);
  c_cap : active s <= max_concurrent config;
  c_accepted : accepted (main s) = observed (main s) + dropped (main s) + admitting (pc (main s));
  c_observed : 0 <= observed (main s);
  c_reported : 0 <= dropped_reported (main s) <= dropped (main s);
  c_limit : forall n, max_connections config = Some n -> 0 <= n ->
    accepted (main s) <= n /\ (may_accept (pc (main s)) = true -> accepted (main s) < n)
}.

Lemma counts_init t b : counts (initial t b).
Proof using Hok. destruct Hok as (? & _). split; simpl; try done; lia. Qed.

Lemma counts_step l s s' : counts s -> exec config bound l s = Some s' -> counts s'.
Proof using Hok.
  intros Hi He. destruct l as [d| | |r|i o|v|]; step_cases He; destruct Hi as [Ca Cc Cac Co Cr Cl].
  all: try match goal with Hp : pc (main _) = _ |- _ => rewrite Hp in * end.
  all: split; simpl in *; rewrite ?zlen_app, ?zlen_cons, ?zlen_nil, ?zlen_insert; try done; try lia.
  all: try (erewrite zlen_delete by done; lia).
  all: intros n Hn Hn0; destruct (Cl n Hn Hn0) as [C1 C2]; simplify_eq; try congruence;
    simpl in *; try specialize (C2 eq_refl); split_and!; intros; (done || lia).
Qed.

Lemma reachable_counts s : reachable s -> counts s.
Proof using Hok. induction 1 as [t b|l s s' _ IH _ He]; [apply counts_init|by eapply counts_step]. Qed.

(** ** The channel and the sink *)

(** What a step does to the channel: nothing, or it queues or refuses a record,
    or the sink thread moves. *)
Inductive channel_effect s s' : Prop :=
| effect_none :
    chan s' = chan s -> queued s' = queued s -> refused s' = refused s -> taken s' = taken s ->
    delivered s' = delivered s -> sink s' = sink s -> sink_failed s' = sink_failed s -> channel_effect s s'
| effect_queued ev :
    receiver_gone s = false -> zlen (chan s) < pending_records config ->
    chan s' = chan s ++ [ev] -> queued s' = queued s ++ [ev] -> refused s' = refused s -> taken s' = taken s ->
    delivered s' = delivered s -> sink s' = sink s -> sink_failed s' = sink_failed s -> channel_effect s s'
| effect_refused ev :
    chan s' = chan s -> queued s' = queued s -> refused s' = refused s ++ [ev] -> taken s' = taken s ->
    delivered s' = delivered s -> sink s' = sink s -> sink_failed s' = sink_failed s -> channel_effect s s'
| effect_sink v : sink_step v s = Some s' -> channel_effect s s'
| effect_panic : sink_panic s = Some s' -> channel_effect s s'.

Lemma exec_channel l s s' : exec config bound l s = Some s' -> channel_effect s s'.
Proof using Type.
  intros He. destruct l as [d| | |r|i o|v|]; [..|by apply (effect_sink _ _ v)|by apply effect_panic]; step_cases He.
  all: try (by apply effect_none).
  all: try (by eapply effect_refused).
  all: match goal with Hr : receiver_gone _ || _ = false |- _ => apply orb_false_iff in Hr as [Hr1 Hr2]
         | Hr1 : receiver_gone _ = false, Hr2 : (_ <=? _) = false |- _ => idtac end.
  all: eapply effect_queued; [done|lia|done..].
Qed.

(** The records reach the sink thread in the order they were queued, and the
    sink itself as long as it has not failed. *)
Record channel s : Prop := {
  h_cap : zlen (chan s) <= pending_records config;
  h_gone : sink s = SinkPanicked -> taken s `prefix_of` queued s;
  h_all : sink s <> SinkPanicked -> taken s ++ chan s = queued s;
  h_given : if sink_failed s then delivered s `prefix_of` taken s
            else taken s = delivered s ++ match sink s with SinkHolding ev => [ev] | _ => [] end
}.

Lemma channel_init t b : channel (initial t b).
Proof using Hok. destruct Hok as (_ & ? & _). split; simpl; try done. change (zlen (@nil (ListenerEvent A E))) with 0. lia. Qed.

Lemma channel_sink v s s' : channel s -> sink_step v s = Some s' -> channel s'.
Proof using Type.
  unfold sink_step. intros [Hc Hg Ha Hd] He. destruct (sink s) as [|ev|e|e| | |] eqn:Es; simplify_eq/=.
  - specialize (Ha ltac:(done)). destruct (chan s) as [|ev rest] eqn:Ec.
    + destruct (senders_gone s); simplify_eq. split; simpl; try done; by rewrite Ec.
    + simplify_eq. rewrite zlen_cons in Hc. split; simpl; [lia|done|by rewrite <- Ha, <- (assoc_L (++))|].
      destruct (sink_failed s); [by apply prefix_app_r|by rewrite Hd, app_nil_r].
  - specialize (Ha ltac:(done)). destruct (sink_failed s) eqn:Ef; simplify_eq.
    + split; simpl; try done. by rewrite Ef.
    + split; simpl; try done; [by destruct v|]. rewrite Ef, Hd. destruct v; by rewrite app_nil_r.
  - split; simpl; try done; [auto|]. destruct (sink_failed s); [done|]. by rewrite Hd, app_nil_r.
  - split; simpl; try done; auto.
  - split; simpl; try done; auto.
Qed.

Lemma channel_step l s s' : channel s -> exec config bound l s = Some s' -> channel s'.
Proof using Type.
  intros Hi [E1 E2 _ E3 E4 E5 E6|ev Hr Hlt E1 E2 _ E3 E4 E5 E6|ev E1 E2 _ E3 E4 E5 E6|v Hs|Hp]%exec_channel.
  - destruct Hi. split; rewrite ?E1, ?E2, ?E3, ?E4, ?E5, ?E6; done.
  - destruct Hi as [Hc Hg Ha Hd]. split; rewrite ?E1, ?E2, ?E3, ?E4, ?E5, ?E6; [|intros Hp; unfold receiver_gone in Hr; by rewrite Hp in Hr| |done].
    + rewrite zlen_app, zlen_cons, zlen_nil. lia.
    + intros Hp. by rewrite (assoc_L (++)), Ha.
  - destruct Hi. split; rewrite ?E1, ?E2, ?E3, ?E4, ?E5, ?E6; done.
  - by eapply channel_sink.
  - unfold sink_panic in Hp. destruct Hi as [Hc Hg Ha Hd]. destruct (sink s) as [|ev| | | | |] eqn:Es; try done.
    destruct (sink_failed s) eqn:Ef; simplify_eq. specialize (Ha ltac:(done)). pose proof (zlen_nonneg (chan s)).
    split; simpl; [by rewrite zlen_nil; lia|intros _; by exists (chan s)|done|]. by rewrite Ef, Hd, app_nil_r.
Qed.

Lemma reachable_channel s : reachable s -> channel s.
Proof using Hok. induction 1 as [t b|l s s' _ IH _ He]; [apply channel_init|by eapply channel_step]. Qed.

(** ** The first record *)

Definition is_started ev : Prop := match ev with Started _ => True | _ => False end.

Definition begun (q : list (ListenerEvent A E)) : Prop :=
  exists rest, q = Started bound :: rest /\ Forall (fun ev => ~ is_started ev) rest.

Lemma begun_app q ev : begun q -> ~ is_started ev -> begun (q ++ [ev]).
Proof using Type. intros (rest & -> & Hr) He. exists (rest ++ [ev]). split; [done|]. apply Forall_app. auto. Qed.

Definition opened (p : MainPhase A E) : bool := match p with SendStarted => false | _ => true end.

(** Nothing happens before the first record is queued. *)
Definition opening s : Prop :=
  if opened (pc (main s)) then begun (queued s)
  else queued s = [] /\ chan s = [] /\ sink s = SinkWaiting /\ workers s = [] /\ refused s = [].

Lemma opening_step l s s' : opening s -> exec config bound l s = Some s' -> opening s'.
Proof using Type.
  intros Hi He. destruct l as [d| | |r|i o|v|]; step_cases He; unfold opening in *; simpl in *.
  all: try match goal with Hp : pc (main _) = _ |- _ => rewrite Hp in *; simpl in * end; try done.
  all: try (by apply begun_app; [|unfold overload_event; auto]).
  all: try (destruct (opened (pc (main s))) eqn:Eo; [try done; by apply begun_app; [|auto]|]).
  all: destruct Hi as (Hq & Hc & Hs & Hw' & Hr); simplify_eq/=; try congruence.
  all: try (rewrite Hw' in *; done).
  - unfold receiver_gone in *. rewrite Hs in *. done.
  - exists []. by rewrite Hq.
  - unfold senders_gone in *. destruct (pc (main s)); try done.
Qed.

Lemma reachable_opening s : reachable s -> opening s.
Proof using Type. induction 1 as [t b|l s s' _ IH _ He]; [done|by eapply opening_step]. Qed.

(** ** One record per observed connection *)

Definition obs_ids (q : list (ListenerEvent A E)) : list Z :=
  omap (fun ev => match ev with ObservationEvent o => Some (id o) | _ => None end) q.

(** The connection whose record is still to come. *)
Definition pending_ids (w : Worker A) : list Z :=
  match w_phase w with Observing | Emitting _ => [w_id w] | _ => [] end.

Definition genuine_event ev : Prop := match ev with ObservationEvent o => genuine (id o) o | _ => True end.

Definition genuine_worker (w : Worker A) : Prop :=
  match w_phase w with Emitting o => genuine (w_id w) o | _ => True end.

Record records s : Prop := {
  d_ids : obs_ids (queued s) ++ obs_ids (refused s) ++ concat (map pending_ids (workers s)) ≡ₚ
    seqZ 1 (observed (main s));
  d_workers : Forall genuine_worker (workers s);
  d_queued : Forall genuine_event (queued s);
  d_refused : Forall genuine_event (refused s)
}.

Lemma obs_ids_app q1 q2 : obs_ids (q1 ++ q2) = obs_ids q1 ++ obs_ids q2.
Proof using Type. apply omap_app. Qed.

Context (Hobs : observer_config_ok (cfg_observer config)).

(** The record of a worker carries its number. *)
Lemma genuine_id n o : genuine n o -> id o = n.
Proof using Hok Hobs.
  intros (Sm & SL & Sh & Sk & fuel & peer & at_ & w & w' & Hr). destruct Hok as (_ & _ & Hck & _).
  apply observation_record in Hr as (p & l & evs & q & t1 & _ & _ & _ & Hid & _); done.
Qed.

Lemma records_init t b : records (initial t b).
Proof using Type. split; simpl; try done. Qed.

(** A step of a worker keeps the numbers accounted for. *)
Lemma records_worker i o s s' :
  records s -> (forall w, workers s !! i = Some w -> genuine (w_id w) o) ->
  worker_step config i o s = Some s' -> records s'.
Proof using Hok Hobs.
  intros [Hd Hw Hq Hr] Hl (w & Hi & He)%bind_Some. pose proof (Forall_lookup_1 _ _ _ _ Hw Hi) as Hgw.
  specialize (Hl w Hi). unfold try_send, count_refusal in He.
  assert (forall p, genuine_worker (mkWorker (w_id w) (w_peer w) (w_accepted_at w) p) ->
    Forall genuine_worker (<[i := mkWorker (w_id w) (w_peer w) (w_accepted_at w) p]> (workers s))) as Hins
    by (intros p Hp; by apply Forall_insert).
  pose proof (fun y => concat_map_insert pending_ids (workers s) i w y Hi) as Hperm.
  unfold genuine_worker in Hgw. destruct (w_phase w) as [|o1| |] eqn:Ep.
  - simplify_eq. split; simpl; try done; [|by apply Hins]. rewrite <- Hd. do 2 f_equiv.
    specialize (Hperm (mkWorker (w_id w) (w_peer w) (w_accepted_at w) (Emitting o))).
    unfold pending_ids in Hperm at 1 3. rewrite Ep in Hperm. simpl in Hperm. by apply Permutation_cons_inv in Hperm.
  - pose proof (genuine_id _ _ Hgw) as Hid.
    specialize (Hperm (mkWorker (w_id w) (w_peer w) (w_accepted_at w) Counting)) as Hp1.
    specialize (Hperm (mkWorker (w_id w) (w_peer w) (w_accepted_at w) Releasing)) as Hp2.
    unfold pending_ids in Hp1 at 1 3; unfold pending_ids in Hp2 at 1 3. rewrite Ep in Hp1, Hp2. simpl in Hp1, Hp2.
    assert (genuine_event (ObservationEvent o1)) as Hge by (simpl; by rewrite Hid).
    destruct (_ || _); simplify_eq/=.
    + split; simpl; try done; [|by apply Hins|apply Forall_app; auto].
      rewrite <- Hd, obs_ids_app, <- Hp1. simpl. by rewrite Hid, <- !(assoc_L (++)).
    + split; simpl; try done; [|by apply Hins|apply Forall_app; auto].
      rewrite <- Hd, obs_ids_app, <- Hp2. simpl. rewrite Hid, <- !(assoc_L (++)). f_equiv.
      rewrite (Permutation_app_comm (obs_ids (refused s)) (w_id w :: _)). simpl. f_equiv. apply Permutation_app_comm.
  - simplify_eq. specialize (Hperm (mkWorker (w_id w) (w_peer w) (w_accepted_at w) Releasing)).
    unfold pending_ids in Hperm at 1 3. rewrite Ep in Hperm. simpl in Hperm.
    split; simpl; try done; [|by apply Hins]. by rewrite <- Hd, <- Hperm.
  - simplify_eq. pose proof (concat_map_delete pending_ids _ _ _ Hi) as Hdel. unfold pending_ids in Hdel at 2.
    rewrite Ep in Hdel. simpl in Hdel. split; simpl; try done; [by rewrite <- Hd, Hdel|by apply Forall_delete].
Qed.

Lemma records_step l s s' :
  records s -> counts s -> label_ok l s -> exec config bound l s = Some s' -> records s'.
Proof using Hok Hobs.
  intros Hi Hc Hl He. destruct l as [d| | |r|i o|v|]; [..|by eapply records_worker| |]; step_cases He; destruct Hi as [Hd Hw Hq Hr].
  all: split; simpl in *; rewrite ?obs_ids_app; unfold overload_event; simpl; rewrite ?app_nil_r; try done.
  all: try (apply Forall_app; auto).
  - pose proof (c_observed _ Hc) as Ho. rewrite seqZ_app by lia. rewrite <- Hd, map_app, concat_app, !(assoc_L (++)).
    f_equiv. simpl. by rewrite (comm_L Z.add).
Qed.

Lemma reachable_records s : reachable s -> records s.
Proof using Hok Hobs.
  induction 1 as [t b|l s s' Hr IH Hl He]; [apply records_init|]. eapply records_step; [done| |done|done].
  by apply reachable_counts.
Qed.

(** ** Refusals *)

Definition counting (p : MainPhase A E) : Z :=
  match p with CountOverload | CountFinal _ _ | CountStopped _ => 1 | _ => 0 end.

Definition counting_worker (w : Worker A) : Z := match w_phase w with Counting => 1 | _ => 0 end.

(** Every refused record is counted, or about to be by the thread that failed to
    queue it. *)
Definition tallied s : Prop :=
  records_dropped s + counting (pc (main s)) + tally counting_worker (workers s) = zlen (refused s).

Lemma tallied_step l s s' : tallied s -> exec config bound l s = Some s' -> tallied s'.
Proof using Type.
  intros Hi He. destruct l as [d| | |r|i o|v|]; step_cases He; unfold tallied in *; simpl in *.
  all: try match goal with Hp : pc (main _) = _ |- _ => rewrite Hp in *; simpl in * end.
  all: rewrite ?tally_app, ?zlen_app, ?zlen_cons, ?zlen_nil; simpl; try lia.
  all: try first [erewrite tally_insert by done|erewrite tally_delete by done].
  all: change counting_worker with (fun w : Worker A => match w_phase w with Counting => 1 | _ => 0 end) in *; simpl;
    try match goal with Hp : w_phase _ = _ |- _ => rewrite Hp end; lia.
Qed.

Lemma reachable_tallied s : reachable s -> tallied s.
Proof using Type. induction 1 as [t b|l s s' _ IH _ He]; [done|by eapply tallied_step]. Qed.

(** ** Why the run ends *)

(** The reason the shutdown sequence carries. *)
Definition reason_of (p : MainPhase A E) : option StopReason :=
  match p with
  | StopAccepting r | Draining r _ | Cancelling r | Awaiting r _ | Leaving r | FinalOverload r _
  | CountFinal r _ | ReadError r _ | Summarizing r _ => Some r
  | Queueing x _ | CountStopped x | ReadDropped x | Closing x _ | Returned x => Some (sm_reason x)
  | _ => None
  end.

(** The error has been read from the sink. *)
Definition error_read (p : MainPhase A E) : bool :=
  match p with
  | Summarizing _ _ | Queueing _ _ | CountStopped _ | ReadDropped _ | Closing _ _ | Returned _ => true
  | _ => false
  end.

Definition fatal (e : IoError) : Prop := kind e <> WouldBlock /\ is_transient_accept_error e = false.

(** A reason is only given when it holds. *)
Definition justified s (r : StopReason) : Prop :=
  match r with
  | StopRequested => stop s = true
  | SinkFailed => sink_failed s = true
  | RunDurationElapsed => exists d, run_for config = Some d /\ started (main s) + d <= now s
  | ConnectionLimitReached => exists n, max_connections config = Some n /\ n <= accepted (main s)
  | AcceptFailed => exists e, error (main s) = Some (FromAccept e) /\ fatal e
  end.

(** What the error field says: nothing before a fatal error, [accept]'s error
    after one, and for a failed sink what it had stored when it was read. *)
Definition error_ok s : Prop :=
  match reason_of (pc (main s)) with
  | Some AcceptFailed => True
  | Some SinkFailed =>
      if error_read (pc (main s)) then error (main s) = None \/ error (main s) = option_map FromSink (sink_error s)
      else error (main s) = None
  | _ => error (main s) = None
  end.

Record reasons s : Prop := {
  r_just : forall r, reason_of (pc (main s)) = Some r -> justified s r;
  r_error : error_ok s;
  r_stored : sink_failed s = false -> sink_error s = None;
  r_once : match sink s with
           | SinkFailing _ => sink_failed s = false
           | SinkStoring _ => sink_failed s = true /\ sink_error s = None
           | _ => True
           end
}.

Lemma reasons_init t b : reasons (initial t b).
Proof using Type. split; done. Qed.

Lemma reasons_step l s s' : reasons s -> exec config bound l s = Some s' -> reasons s'.
Proof using Type.
  intros Hi He. destruct l as [d| | |r|i o|v|]; step_cases He; destruct Hi as [Hj Her Hst Hon].
  all: unfold error_ok in *.
  all: try match goal with Hp : pc (main _) = _ |- _ => rewrite Hp in *; simpl in * end.
  all: try match goal with Hp : sink _ = _ |- _ => rewrite Hp in *; simpl in * end.
  all: split; unfold error_ok in *; simpl in *; try done; try (by auto).
  all: try (intros r0 Hr0; try pose proof (Hj r0 Hr0) as Hj0; destruct r0; simplify_eq/=; unfold fatal in *; naive_solver lia).
  all: try (intros r0 Hr0; simplify_eq; eexists; split; [done|split; congruence]).
  - rewrite bool_decide_eq_true in *. subst. by right.
  - rewrite bool_decide_eq_false in *. destruct r; try done.
  - destruct Hon as [_ Hse]. rewrite Hse in *. destruct (reason_of _) as [[]|]; try done.
    destruct (error_read _); [|done]. by destruct Her as [?|?]; left.
  - destruct Hon as [Hf _]. congruence.
Qed.

Lemma reachable_reasons s : reachable s -> reasons s.
Proof using Type. induction 1 as [t b|l s s' _ IH _ He]; [apply reasons_init|by eapply reasons_step]. Qed.

(** ** Overload records *)

(** Each overload record reports drops not reported by an earlier one, and its
    total is where the next one goes on from at the earliest. *)
Fixpoint overloads (lo : Z) (q : list (ListenerEvent A E)) : Prop :=
  match q with
  | [] => True
  | Overload since total :: q => 0 < since /\ lo + since <= total /\ overloads total q
  | _ :: q => overloads lo q
  end.

Fixpoint top (lo : Z) (q : list (ListenerEvent A E)) : Z :=
  match q with
  | [] => lo
  | Overload _ total :: q => top total q
  | _ :: q => top lo q
  end.

Lemma overloads_app lo q1 q2 : overloads lo (q1 ++ q2) <-> overloads lo q1 /\ overloads (top lo q1) q2.
Proof using Type.
  revert lo. induction q1 as [|ev q1 IH]; intros lo; simpl; [tauto|]. destruct ev; simpl; try apply IH. rewrite IH. tauto.
Qed.

Lemma top_app lo q1 q2 : top lo (q1 ++ q2) = top (top lo q1) q2.
Proof using Type. revert lo. induction q1 as [|ev q1 IH]; intros lo; simpl; [done|]. destruct ev; apply IH. Qed.

Definition past_final (p : MainPhase A E) : bool :=
  match p with
  | CountFinal _ _ | ReadError _ _ | Summarizing _ _ | Queueing _ _ | CountStopped _ | ReadDropped _ | Closing _ _
  | Returned _ => true
  | _ => false
  end.

Definition overloaded s : Prop :=
  overloads 0 (queued s) /\
  top 0 (queued s) <= (if past_final (pc (main s)) then dropped (main s) else dropped_reported (main s)).

Lemma overloaded_step l s s' : counts s -> overloaded s -> exec config bound l s = Some s' -> overloaded s'.
Proof using Type.
  intros Hc Hi He. pose proof (c_reported _ Hc) as Hr. clear Hc.
  destruct l as [d| | |r|i o|v|]; step_cases He; unfold overloaded in *; simpl in *; try done; destruct Hi as [Ho Ht].
  all: try match goal with Hp : pc (main _) = _ |- _ => rewrite Hp in *; simpl in * end.
  all: rewrite ?overloads_app, ?top_app; unfold overload_event in *; simpl; split_and!; try done; lia.
Qed.

Lemma reachable_overloaded s : reachable s -> overloaded s.
Proof using Hok.
  induction 1 as [t b|l s s' Hr IH _ He]; [done|]. eapply overloaded_step; [by apply reachable_counts|done|done].
Qed.

(** ** The end of the run *)

Definition plain ev : Prop := match ev with Stopped _ => False | _ => True end.

Definition is_observation ev : Prop := match ev with ObservationEvent _ => True | _ => False end.

Definition pending_worker (w : Worker A) : Z := match w_phase w with Observing | Emitting _ => 1 | _ => 0 end.

(** The workers counted as abandoned, once they have been counted. *)
Definition abandoned_of (p : MainPhase A E) : option Z :=
  match p with
  | FinalOverload _ a | CountFinal _ a | ReadError _ a | Summarizing _ a => Some a
  | Queueing x _ | CountStopped x | ReadDropped x | Closing x _ | Returned x => Some (sm_workers_abandoned x)
  | _ => None
  end.

Definition summary_of (p : MainPhase A E) : option (Summary A E) :=
  match p with Queueing x _ | CountStopped x | ReadDropped x | Closing x _ | Returned x => Some x | _ => None end.

(** The summary after the final record was queued or given up. *)
Definition final_of (p : MainPhase A E) : option (Summary A E) :=
  match p with CountStopped x | ReadDropped x | Closing x _ | Returned x => Some x | _ => None end.

Definition closed_of (p : MainPhase A E) : option (Summary A E) :=
  match p with Closing x _ | Returned x => Some x | _ => None end.

(** The final record, if it was queued, is followed by records of abandoned
    workers only. *)
Definition after_stopped s (x : Summary A E) : Prop :=
  Forall plain (queued s) \/
  exists q1 q2 n, queued s = q1 ++ Stopped (with_records_dropped n x) :: q2 /\ Forall plain q1 /\
    Forall is_observation q2 /\ zlen q2 + tally pending_worker (workers s) <= sm_workers_abandoned x.

Record ending s : Prop := {
  n_left : forall a, abandoned_of (pc (main s)) = Some a -> zlen (workers s) <= a;
  n_plain : final_of (pc (main s)) = None -> Forall plain (queued s);
  n_stopped : forall x, final_of (pc (main s)) = Some x -> after_stopped s x;
  n_summary : forall x, summary_of (pc (main s)) = Some x ->
    sm_bound x = bound /\ sm_accepted x = accepted (main s) /\ sm_observed x = observed (main s) /\
    sm_dropped_at_capacity x = dropped (main s) /\ sm_error x = error (main s)
}.

Lemma pending_le ws : tally pending_worker ws <= zlen ws.
Proof using Type. rewrite <- tally_one. apply tally_le. intros w. unfold pending_worker. destruct (w_phase w); lia. Qed.

Lemma with_records_dropped_id (x : Summary A E) : with_records_dropped (sm_records_dropped x) x = x.
Proof using Type. by destruct x. Qed.

(** The workers of a step of one of them: as many pending as records not yet
    queued or refused. *)
Lemma worker_pending i o s s' :
  worker_step config i o s = Some s' ->
  main s' = main s /\ zlen (workers s') <= zlen (workers s) /\
  exists evs, queued s' = queued s ++ evs /\ Forall is_observation evs /\
    zlen evs + tally pending_worker (workers s') <= tally pending_worker (workers s).
Proof using Type.
  intros (w & Hi & He)%bind_Some. unfold try_send, count_refusal in He.
  pose proof (fun p => tally_insert pending_worker _ i w (mkWorker (w_id w) (w_peer w) (w_accepted_at w) p) Hi) as Hins.
  pose proof (tally_delete pending_worker _ i w Hi) as Hdel. pose proof (zlen_delete _ i w Hi) as Hzd.
  change pending_worker with (fun w : Worker A => match w_phase w with Observing | Emitting _ => 1 | _ => 0 end) in *.
  simpl in Hins, Hdel. destruct (w_phase w) as [|o1| |] eqn:Ep; [| |..].
  - simplify_eq. simpl. rewrite zlen_insert, Hins. split; [done|]. split; [lia|]. exists []. rewrite app_nil_r, zlen_nil.
    split_and!; [done|constructor|lia].
  - destruct (_ || _); simplify_eq/=; rewrite zlen_insert, Hins; (split; [done|]); (split; [lia|]).
    + exists []. rewrite app_nil_r, zlen_nil. split_and!; [done|constructor|lia].
    + exists [ObservationEvent o1]. split_and!; [done|by repeat constructor|rewrite zlen_cons, zlen_nil; lia].
  - simplify_eq. simpl. rewrite zlen_insert, Hins. split; [done|]. split; [lia|]. exists []. rewrite app_nil_r, zlen_nil.
    split_and!; [done|constructor|lia].
  - simplify_eq. simpl. rewrite Hzd, Hdel. split; [done|]. split; [lia|]. exists []. rewrite app_nil_r, zlen_nil.
    split_and!; [done|constructor|lia].
Qed.

Lemma observation_plain evs : Forall is_observation evs -> Forall plain evs.
Proof using Type. intros H. eapply Forall_impl; [done|]. by intros []. Qed.

Lemma ending_worker i o s s' : ending s -> worker_step config i o s = Some s' -> ending s'.
Proof using Type.
  intros [Hl Hp Hst Hsm] (Em & Hz & evs & Eq & Ho & Ht)%worker_pending. split; rewrite Em.
  - intros a Ha. specialize (Hl a Ha). lia.
  - intros Hf. rewrite Eq. apply Forall_app. split; [by apply Hp|by apply observation_plain].
  - intros x Hf. destruct (Hst x Hf) as [Hpl|(q1 & q2 & n & Eq1 & H1 & H2 & Hn)].
    + left. rewrite Eq. apply Forall_app. split; [done|by apply observation_plain].
    + right. exists q1, (q2 ++ evs), n. rewrite Eq, Eq1, <- (assoc_L (++)). split_and!; try done.
      * apply Forall_app. auto.
      * rewrite zlen_app. lia.
  - done.
Qed.

Lemma ending_step l s s' : counts s -> ending s -> exec config bound l s = Some s' -> ending s'.
Proof using Type.
  intros Hcs Hi He. pose proof (c_active _ Hcs) as Hact. clear Hcs.
  destruct l as [d| | |r|i o|v|]; [..|by eapply ending_worker| |].
  all: step_cases He; destruct Hi as [Hl Hp Hst Hsm].
  all: try match goal with Hp : pc (main _) = _ |- _ => rewrite Hp in *; simpl in * end.
  all: split; simpl in *; try done; intros; simplify_eq/=; try (by auto).
  all: try (apply Forall_app; split; [by apply Hp|by repeat constructor]).
  - lia.
  - left. by apply Hp.
  - right. exists (queued s), [], (sm_records_dropped x). rewrite with_records_dropped_id. split_and!; [done|by apply Hp|constructor|].
    simpl. pose proof (pending_le (workers s)). specialize (Hl _ eq_refl). rewrite zlen_nil. lia.
  - destruct (Hst _ eq_refl) as [?|(q1 & q2 & n & ? & ? & ? & ?)]; [by left|]. right. by exists q1, q2, n.
Qed.

Lemma reachable_ending s : reachable s -> ending s.
Proof using Hok.
  induction 1 as [t b|l s s' Hr IH _ He]; [by split|]. eapply ending_step; [by apply reachable_counts|done|done].
Qed.

(** The drop counter of the returned summary: never more than was dropped, and
    all of it when no worker was abandoned. *)
Definition dropped_all s : Prop :=
  forall x, closed_of (pc (main s)) = Some x ->
    sm_records_dropped x <= records_dropped s /\
    (sm_workers_abandoned x = 0 -> sm_records_dropped x = zlen (refused s)).

Lemma no_workers s : ending s -> abandoned_of (pc (main s)) = Some 0 -> workers s = [].
Proof using Type.
  intros Hi Ha. pose proof (n_left _ Hi 0 Ha). pose proof (zlen_nonneg (workers s)). apply zlen_0. lia.
Qed.

Lemma dropped_all_step l s s' :
  ending s -> tallied s -> dropped_all s -> exec config bound l s = Some s' -> dropped_all s'.
Proof using Type.
  intros Hen Ht Hi He. unfold tallied in Ht. pose proof (no_workers s Hen) as Hnw. clear Hen.
  destruct l as [d| | |r|i o|v|]; step_cases He; unfold dropped_all in *; simpl in *; try done.
  all: try match goal with Hp : pc (main _) = _ |- _ => rewrite Hp in *; simpl in * end; try done; try (by auto).
  all: intros x Hx; simplify_eq/=; try (by auto).
  - split; [lia|]. intros Ha. rewrite Hnw in Ht by (by rewrite Ha). simpl in Ht. lia.
  - destruct (Hi x Hx) as [Hx1 Hx2]. split; [lia|]. intros Ha. rewrite Hnw in Hw; [done|]. destruct (pc (main s)); simplify_eq/=; congruence.
  - destruct (Hi x Hx) as [Hx1 Hx2]. split; [lia|]. intros Ha. rewrite Hnw in Hw; [done|]. destruct (pc (main s)); simplify_eq/=; congruence.
Qed.

Lemma reachable_dropped_all s : reachable s -> dropped_all s.
Proof using Hok.
  induction 1 as [t b|l s s' Hr IH _ He]; [done|].
  eapply dropped_all_step; [by apply reachable_ending|by apply reachable_tallied|done|done].
Qed.
End invariants.
