(* ===== verification/ListenerProps.v ===== *)
(** * Properties of the listener

    What holds of every run, however its threads interleave, and example runs. *)

From S2P Require Import Prelude WireError NameList Primitives Messages KexInit WireIdent TcpIdent Packet.
From S2P Require Import Initial Probe Observer Seam Drivers DriversProofs ObserverRun Listener ListenerProofs.

Import ObserverDriver Run.

(** Field values a [ListenerConfig] can hold: counts and durations. *)
Definition config_wf {A} (c : ListenerConfig A) : Prop :=
  0 <= max_concurrent c /\ 0 <= pending_records c /\ 0 <= cfg_read_chunk c /\ 0 <= connection_timeout c /\
  0 <= shutdown_grace c /\ 0 <= poll_interval c /\ 0 <= overload_report_interval c /\
  (forall d, run_for c = Some d -> 0 <= d).

Lemma refuse_unless {X} (b : bool) (e : X) r :
  (if negb b then Err e else r) = Ok tt <-> b = true /\ r = Ok tt.
Proof. destruct b; simpl; naive_solver. Qed.

Lemma refuse_if {X} (b : bool) (e : X) r : (if b then Err e else r) = Ok tt <-> b = false /\ r = Ok tt.
Proof. destruct b; naive_solver. Qed.

Lemma map_err_unit {X Y Z} (f : X -> Y) (r : result Z X) :
  (let? _ := map_err f r in Ok tt) = Ok tt <-> exists p, r = Ok p.
Proof. destruct r; simpl; naive_solver. Qed.

(** [validate] accepts exactly the configurations [run] is safe with: every
    limit at least one, every timeout but the grace period positive, every
    duration addable to the clock, and an observer that can be built. *)
Theorem validate_exact {A} (addable : Z -> bool) (c : ListenerConfig A) :
  config_wf c ->
  validate addable c = Ok tt <->
    listener_ok c /\ 0 < connection_timeout c /\ 0 < overload_report_interval c /\
    (forall d, run_for c = Some d -> 0 < d) /\
    Forall (fun d => addable d = true)
      ([connection_timeout c; poll_interval c; overload_report_interval c; shutdown_grace c] ++ option_list (run_for c)) /\
    exists p, Observer.new (cfg_observer c) = Ok p.
Proof.
  intros Hwf. unfold validate. rewrite !refuse_unless, !refuse_if, map_err_unit. unfold usable. rewrite !andb_true_iff, !negb_true_iff, !Z.eqb_neq.
  assert ((match run_for c with Some d => negb (negb (d =? 0) && addable d) | None => false end) = false <->
    (forall d, run_for c = Some d -> d <> 0) /\ Forall (fun d => addable d = true) (option_list (run_for c))) as ->.
  { destruct (run_for c) as [d|]; simpl; [|by split; [intros _; split; [|constructor]|]].
    rewrite negb_false_iff, andb_true_iff, negb_true_iff, Z.eqb_neq, Forall_singleton. naive_solver. }
  rewrite !negb_false_iff, !andb_true_iff, !negb_true_iff, !Z.eqb_neq.
  unfold listener_ok, config_wf in *. rewrite Forall_app, !Forall_cons, Forall_nil. destruct Hwf as (?&?&?&?&?&?&?&Hrf).
  assert ((forall d, run_for c = Some d -> d <> 0) <-> forall d, run_for c = Some d -> 0 < d) as ->.
  { split; intros Hd d Hs; specialize (Hd d Hs); [specialize (Hrf d Hs)|]; lia. }
  split.
  - intros ((?&?)&(?&?)&(?&?)&(?&?)&?&?&?&?&?). split_and!; try done; lia.
  - intros ((?&?&?&?&?)&?&?&?&((?&?&?&?&?)&?)&?). split_and!; try done; lia.
Qed.


(** ** Progress *)

Section progress.
Context {A E : Type}.
Context (config : ListenerConfig A) (bound : A).
Context (Hok : listener_ok config).
Implicit Types (s : State A E).

(** The position in the shutdown sequence. *)
Definition rank (p : MainPhase A E) : option nat :=
  match p with
  | StopAccepting _ => Some 12%nat
  | Draining _ _ => Some 11%nat
  | Cancelling _ => Some 10%nat
  | Awaiting _ _ => Some 9%nat
  | Leaving _ => Some 8%nat
  | FinalOverload _ _ => Some 7%nat
  | CountFinal _ _ => Some 6%nat
  | ReadError _ _ => Some 5%nat
  | Summarizing _ _ => Some 4%nat
  | Queueing _ _ => Some 3%nat
  | CountStopped _ => Some 2%nat
  | ReadDropped _ => Some 1%nat
  | Closing _ _ => Some 0%nat
  | _ => None
  end.

(** How long to wait before the next step makes progress. *)
Definition patience s : Z :=
  Z.max 0 (Z.max (wake (main s) - now s)
    (match pc (main s) with
     | Draining _ t | Awaiting _ t | Queueing _ t | Closing _ t => t - now s
     | _ => 0
     end)).

Lemma execs_app ls1 ls2 s :
  execs config bound (ls1 ++ ls2) s = (let* s := execs config bound ls1 s in execs config bound ls2 s).
Proof.
  revert s. induction ls1 as [|l ls1 IH]; intros s; [done|]. cbn [execs app].
  destruct (exec config bound l s); [apply IH|done].
Qed.

(** One step further, without any other thread. *)
Lemma shutdown_advances s n :
  rank (pc (main s)) = Some n ->
  exists s', execs config bound [Tick (patience s); MainStep] s = Some s' /\
    ((exists x, pc (main s') = Returned x) \/ exists k, rank (pc (main s')) = Some k /\ (k < n)%nat).
Proof.
  intros Hr. assert (0 <= patience s /\ wake (main s) <= now s + patience s) as [Hp Hw] by (unfold patience; lia).
  cbn [execs exec]. destruct (Z.leb_spec 0 (patience s)); [|lia]. cbn [mbind option_bind]. unfold main_step.
  cbn [set_now main now]. destruct (Z.ltb_spec (now s + patience s) (wake (main s))); [lia|].
  assert (forall t, (match pc (main s) with Draining _ t | Awaiting _ t | Queueing _ t | Closing _ t => t - now s | _ => 0 end) = t - now s ->
    (now s + patience s <? t) = false) as Hlate by (intros t Ht; apply Z.ltb_ge; unfold patience; rewrite Ht; lia).
  destruct (pc (main s)) eqn:Epc; simplify_eq/=; try specialize (Hlate _ eq_refl); (eexists; split; [reflexivity|]).
  all: unfold stop_accepting, draining, cancelling, awaiting, final_overload, read_error, summarize, queueing, read_dropped,
    closing, try_send, count_refusal, goto; cbn [now set_now main]; rewrite ?Hlate, ?andb_false_r.
  all: repeat case_match; simplify_eq/=; eauto with lia.
Qed.

Lemma shutdown_returns n s :
  rank (pc (main s)) = Some n ->
  exists ls s' x, Forall (fun l => match l with Tick _ | MainStep => True | _ => False end) ls /\
    execs config bound ls s = Some s' /\ pc (main s') = Returned x.
Proof.
  revert s. induction (lt_wf n) as [n _ IH]. intros s Hr.
  destruct (shutdown_advances s n Hr) as (s1 & He & [(x & Hx)|(k & Hk & Hlt)]).
  - exists [Tick (patience s); MainStep], s1, x. split_and!; [by repeat constructor|done|done].
  - destruct (IH k Hlt s1 Hk) as (ls & s' & x & Hls & He' & Hx).
    exists (Tick (patience s) :: MainStep :: ls), s', x. split_and!; [by repeat constructor| |done].
    change (execs config bound ([Tick (patience s); MainStep] ++ ls) s = Some s'). by rewrite execs_app, He.
Qed.

(** The position in the accept loop of a run that has been asked to stop. *)
Definition loop_rank (p : MainPhase A E) : option nat :=
  match p with
  | SendStarted => Some 7%nat
  | CheckSink => Some 6%nat
  | CheckLimits => Some 5%nat
  | FlushOverload => Some 4%nat
  | CountOverload => Some 3%nat
  | Accepting => Some 2%nat
  | Admitting _ _ => Some 1%nat
  | CheckStop => Some 0%nat
  | _ => None
  end.

(** The main thread's next label, given what [accept] will answer. *)
Definition next_label (r : result A IoError) s : @Label A E :=
  match pc (main s) with Accepting => Accept r | _ => MainStep end.

Lemma loop_advances r s n :
  loop_rank (pc (main s)) = Some n -> stop s = true -> opening bound s ->
  exists s', execs config bound [Tick (patience s); next_label r s] s = Some s' /\ stop s' = true /\
    (is_Some (rank (pc (main s'))) \/ exists k, loop_rank (pc (main s')) = Some k /\ (k < n)%nat).
Proof using Hok.
  intros Hr Hst Hop. assert (0 <= patience s /\ wake (main s) <= now s + patience s) as [Hp Hw] by (unfold patience; lia).
  set (s1 := set_now (now s + patience s) s).
  assert (exec config bound (Tick (patience s)) s = Some s1) as Htick by (cbn [exec]; by destruct (Z.leb_spec 0 (patience s)); [|lia]).
  cbn [execs]. rewrite Htick. cbn [mbind option_bind]. unfold next_label. clear Htick.
  assert ((now s1 <? wake (main s1)) = false) as Hnow by (apply Z.ltb_ge; done).
  destruct (pc (main s)) eqn:Epc; cbn [loop_rank] in Hr; simplify_eq; cbn [exec]; unfold main_step;
    change (pc (main s1)) with (pc (main s)); rewrite Epc, Hnow.
  - unfold opening in Hop. rewrite Epc in Hop. destruct Hop as (_ & Hc & Hs & _).
    unfold try_send. assert (receiver_gone s1 = false) as -> by (unfold receiver_gone; simpl; by rewrite Hs).
    assert ((pending_records config <=? zlen (chan s1)) = false) as ->.
    { destruct Hok as (_ & ? & _). simpl. rewrite Hc, zlen_nil. apply Z.leb_gt. lia. }
    eexists; split_and!; [done|done|]. right. exists 0%nat. split; [done|lia].
  - simpl. rewrite Hst. eexists; split_and!; [done|done|]. left. by eexists.
  - simpl. eexists; split_and!; [done|by destruct (sink_failed s)|]. destruct (sink_failed s); [left; by eexists|right; eauto with lia].
  - unfold check_limits. repeat case_match; (eexists; split_and!; [done|done|]); first [left; by eexists|right; eauto with lia].
  - unfold flush_overload, try_send. repeat case_match; simplify_eq/=; (eexists; split_and!; [done|done|]); right; eauto with lia.
  - eexists; split_and!; [done|done|]. right. eauto with lia.
  - unfold accept. repeat case_match; simplify_eq/=; (eexists; split_and!; [done|done|]);
      first [left; by eexists|right; eauto with lia].
  - unfold admit_connection. repeat case_match; simplify_eq/=; (eexists; split_and!; [done|done|]); right; eauto with lia.
Qed.
End progress.

(** ** Properties *)

Section props.
Context {A E : Type}.
Context (config : ListenerConfig A) (bound : A).
Implicit Types (s : State A E).

(** C17: admission is bounded and counted: at every point of every run the
    observations in progress are the workers that hold capacity, at most
    [max_concurrent] of them; every accepted connection was observed or dropped
    (but for the one being decided), and no more are accepted than
    [max_connections] allows. *)
Theorem listener_admission s :
  listener_ok config -> reachable config bound s ->
  active s = zlen (workers s) /\ active s <= max_concurrent config /\
  accepted (main s) = observed (main s) + dropped (main s) + admitting (pc (main s)) /\
  (forall n, max_connections config = Some n -> 0 <= n -> accepted (main s) <= n).
Proof.
  intros Hok Hr. destruct (reachable_counts config bound Hok s Hr) as [Ha Hc Hacc _ _ Hl]. split_and!; try done.
  intros n Hn H0. by apply (Hl n Hn H0).
Qed.

(** C12: the sink sees the truth in order: it is given, one at a time, a prefix of
    the records queued, of which never more than [pending_records] wait; the
    first is the start of the run; every observation among them is a record that
    [observe_connection] returns under this configuration, for some peer, accept
    time, network and clock; no connection has two, and their numbers are those
    of admitted connections; and overload records never report a drop twice. *)
Theorem listener_records s :
  listener_ok config -> observer_config_ok (cfg_observer config) -> reachable config bound s ->
  delivered s `prefix_of` queued s /\ zlen (chan s) <= pending_records config /\
  (queued s = [] \/ begun bound (queued s)) /\
  Forall (genuine_event config bound) (delivered s) /\
  NoDup (obs_ids (queued s)) /\ Forall (fun n => 1 <= n <= observed (main s)) (obs_ids (queued s)) /\
  overloads 0 (queued s).
Proof.
  intros Hok Hobs Hr. destruct (reachable_channel config bound Hok s Hr) as [Hc Hg Ha Hd].
  destruct (reachable_records config bound Hok Hobs s Hr) as [Hids _ Hq _].
  assert (delivered s `prefix_of` queued s) as Hpre.
  { trans (taken s); [destruct (sink_failed s); [done|rewrite Hd; by eexists]|].
    destruct (sink s); try (rewrite <- Ha by done; by eexists). by apply Hg. }
  split_and!; [done|done| |..].
  - pose proof (reachable_opening config bound s Hr) as Ho. unfold opening in Ho. destruct (opened _); [by right|left; apply Ho].
  - destruct Hpre as [k Hk]. rewrite Hk in Hq. by apply Forall_app in Hq as [? _].
  - assert (NoDup (seqZ 1 (observed (main s)))) as Hnd by apply NoDup_seqZ. rewrite <- Hids in Hnd. by apply NoDup_app in Hnd as [? _].
  - apply Forall_forall. intros n Hn. assert (n ∈ seqZ 1 (observed (main s))) as Hin.
    { rewrite <- Hids. apply elem_of_app. by left. }
    apply elem_of_seqZ in Hin. lia.
  - apply (reachable_overloaded config bound Hok s Hr).
Qed.

(** C11: the summary is true: when [run] returns, its counters add up, its reason
    holds, its error is that of [accept] or of the sink, if any; when no worker
    was abandoned, all are gone, every connection observed left exactly one
    record, queued or counted as dropped, the drop counter is exact, and the
    summary is the last record queued, if it could be queued. *)
Theorem listener_summary s x :
  listener_ok config -> observer_config_ok (cfg_observer config) -> reachable config bound s ->
  pc (main s) = Returned x ->
  sm_bound x = bound /\ sm_accepted x = sm_observed x + sm_dropped_at_capacity x /\
  justified config s (sm_reason x) /\
  (sm_error x = None \/ (exists e, sm_reason x = AcceptFailed /\ sm_error x = Some (FromAccept e) /\ fatal e) \/
   (exists e, sm_reason x = SinkFailed /\ sm_error x = Some (FromSink e) /\ sink_error s = Some e)) /\
  sm_records_dropped x <= records_dropped s /\ zlen (workers s) <= sm_workers_abandoned x /\
  (sm_workers_abandoned x = 0 ->
     workers s = [] /\ sm_records_dropped x = zlen (refused s) /\
     obs_ids (queued s) ++ obs_ids (refused s) ≡ₚ seqZ 1 (sm_observed x) /\
     (Forall plain (queued s) \/
      exists q n, queued s = q ++ [Stopped (with_records_dropped n x)] /\ Forall plain q)).
Proof.
  intros Hok Hobs Hr Hpc. destruct (reachable_counts config bound Hok s Hr) as [_ _ Hacc _ _ _].
  destruct (reachable_ending config bound Hok s Hr) as [Hl _ Hst Hsm].
  destruct (reachable_reasons config bound s Hr) as [Hj He _ _].
  destruct (reachable_dropped_all config bound Hok s Hr x) as [Hd1 Hd2]; [by rewrite Hpc|].
  unfold error_ok in He. rewrite Hpc in *. simpl in *.
  destruct (Hsm x eq_refl) as (Eb & Ea & Eo & Ed & Ee). specialize (Hj _ eq_refl). specialize (Hl _ eq_refl).
  split_and!; [done|lia|done| |done|done|].
  - rewrite Ee. destruct (sm_reason x); auto; simpl in Hj.
    + destruct He as [->| ->]; [by left|]. destruct (sink_error s) as [e|]; [|by left]. right; right. by exists e.
    + right; left. destruct Hj as (e & -> & Hf). by exists e.
  - intros Hz. assert (workers s = []) as Hnw by (apply zlen_0; pose proof (zlen_nonneg (workers s)); lia).
    split_and!; [done|by apply Hd2| |].
    + destruct (reachable_records config bound Hok Hobs s Hr) as [Hids _ _ _]. rewrite Hnw in Hids. simpl in Hids.
      rewrite app_nil_r in Hids. by rewrite Eo.
    + destruct (Hst x eq_refl) as [?|(q1 & q2 & n & Eq & Hp & _ & Hlen)]; [by left|]. right. exists q1, n.
      rewrite Hnw in Hlen. simpl in Hlen. pose proof (zlen_nonneg q2). rewrite (zlen_0 q2) in Eq by lia. by rewrite Eq.
Qed.

(** C18: a run that is asked to stop returns, and one that is stopping returns, on
    its own: from every state of every run in which the stop flag is set or the
    accept loop has ended, the passing of time and steps of the main thread
    alone (with any answer of the non-blocking [accept]) lead to its return, so
    neither a stuck worker nor a blocked sink nor the lack of another client
    holds it. *)
Theorem listener_returns s r :
  listener_ok config -> reachable config bound s ->
  stop s = true \/ is_Some (reason_of (pc (main s))) -> (forall x, pc (main s) <> Returned x) ->
  exists ls s' x, Forall (fun l => match l with Tick _ | MainStep => True | Accept r' => r' = r | _ => False end) ls /\
    execs config bound ls s = Some s' /\ pc (main s') = Returned x.
Proof.
  intros Hok Hr. pose proof (reachable_opening config bound s Hr) as Hop. clear Hr.
  assert (forall s, is_Some (rank (pc (main s))) -> exists ls s' x,
    Forall (fun l : @Label A E => match l with Tick _ | MainStep => True | Accept r' => r' = r | _ => False end) ls /\
    execs config bound ls s = Some s' /\ pc (main s') = Returned x) as Hshut.
  { intros s1 [n Hn]. destruct (shutdown_returns config bound n s1 Hn) as (ls & s' & x & Hls & He & Hx).
    exists ls, s', x. split_and!; [|done|done]. eapply Forall_impl; [done|]. by intros []. }
  intros Hst Hnr.
  assert (is_Some (rank (pc (main s))) \/ (stop s = true /\ is_Some (loop_rank (pc (main s))))) as [Hs|[Hs [n Hn]]].
  { destruct (pc (main s)) eqn:E1; simpl in *; try (left; by eexists); try (right; split; [|by eexists]);
      try (destruct Hst as [?|[? ?]]; done). by destruct (Hnr s0). }
  { by apply Hshut. }
  clear Hst Hnr. revert s Hop Hs Hn. induction (lt_wf n) as [n _ IH]. intros s Hop Hs Hn.
  destruct (loop_advances config bound Hok r s n Hn Hs Hop) as (s1 & He & Hs1 & Hnext).
  assert (opening bound s1) as Hop1.
  { cbn [execs] in He. destruct (exec config bound (Tick (patience s)) s) as [s0|] eqn:E0; [|done]. cbn [mbind option_bind] in He.
    apply bind_Some in He as (s2 & E2 & [= <-]). eapply opening_step; [|exact E2]. by eapply opening_step. }
  assert (exists ls s' x, Forall (fun l : @Label A E => match l with Tick _ | MainStep => True | Accept r' => r' = r | _ => False end) ls /\
    execs config bound ls s1 = Some s' /\ pc (main s') = Returned x) as (ls & s' & x & Hls & He' & Hx).
  { destruct Hnext as [Hrk|(k & Hk & Hlt)]; [by apply Hshut|by apply (IH k Hlt s1)]. }
  exists ([Tick (patience s); next_label r s] ++ ls), s', x. split_and!; [|by rewrite execs_app, He|done].
  apply Forall_app. split; [|done]. repeat constructor. unfold next_label. by destruct (pc (main s)).
Qed.
End props.

(** ** Example runs *)

Section examples.
Context {A E : Type}.
Context (config : ListenerConfig A) (bound : A).
Implicit Types (s : State A E).

(** The observations of the labels are numbered as the workers they end. *)
Fixpoint numbered (ls : list (@Label A E)) s : bool :=
  match ls with
  | [] => true
  | l :: ls =>
      match l with
      | WorkerStep i o => match workers s !! i with Some w => w_id w =? id o | None => true end
      | _ => true
      end && match exec config bound l s with Some s => numbered ls s | None => true end
  end.

Lemma execs_reachable ls s s' :
  reachable config bound s -> numbered ls s = true ->
  Forall (fun l => match l with WorkerStep _ o => genuine config bound (id o) o | _ => True end) ls ->
  execs config bound ls s = Some s' -> reachable config bound s'.
Proof.
  revert s. induction ls as [|l ls IH]; intros s Hr Hn Hg; cbn [execs]; [by intros [= <-]|].
  intros (s1 & He & Hes)%bind_Some. inversion Hg as [|? ? Hl Hls]; subst.
  cbn [numbered] in Hn. apply andb_prop in Hn as [Hn1 Hn2]. rewrite He in Hn2.
  apply (IH s1); [|done|done|done]. eapply reach_step; [done| |done].
  destruct l; try done. intros w Hw. rewrite Hw in Hn1. apply Z.eqb_eq in Hn1. by rewrite Hn1.
Qed.
End examples.

#[local] Existing Instances Scripted.scripted_laws scripted_socket scripted_shared.

(** The record of the client of ObserverRun.v that stops reading. *)
Definition deaf_observation : Observation unit :=
  match observe_connection (Sm := traced Scripted.scripted_seam) (Sh := traced_shared _ scripted_shared)
          (Sk := traced_socket _ scripted_socket) 40 1 tt tt 0 demo_listener deaf_client with
  | Done (_, o) => o
  | _ => new_observation 1 tt tt 0 default_observer
  end.

Lemma deaf_genuine : genuine demo_listener tt (id deaf_observation) deaf_observation.
Proof.
  assert (match observe_connection (Sm := traced Scripted.scripted_seam) (Sh := traced_shared _ scripted_shared)
      (Sk := traced_socket _ scripted_socket) 40 1 tt tt 0 demo_listener deaf_client with Done (_, o) => id o = 1 | _ => False end) as Hid
    by (vm_compute; reflexivity).
  unfold deaf_observation.
  destruct (observe_connection (Sm := traced Scripted.scripted_seam) (Sh := traced_shared _ scripted_shared)
    (Sk := traced_socket _ scripted_socket) 40 1 tt tt 0 demo_listener deaf_client) as [[w' o]| |] eqn:Ed; [|done|done].
  rewrite Hid. exists Scripted.scripted_seam, _, scripted_shared, scripted_socket, 40%nat, tt, 0, deaf_client, w'. exact Ed.
Qed.

Lemma demo_listener_ok : listener_ok demo_listener.
Proof. unfold listener_ok. vm_compute. split_and!; done. Qed.

(** One client, observed; then a stop request; the sink takes everything. *)
Definition demo_labels : list (@Label unit unit) :=
  let m := MainStep in let k := SinkStep (Ok tt) in let w := WorkerStep 0 deaf_observation in
  [m; k; k; m; m; m; m; Accept (Ok tt); m; w; StopHandle; m; m; Tick 1; w; m; Tick 10000000; k; k; w; m; m; m; m; m; m; m; k; k; k; k; m].

Abbreviation demo_end := (execs demo_listener tt demo_labels (initial 0 false)).

Lemma demo_end_fields :
  match demo_end with
  | Some s => match pc (main s) with
      | Returned x => x = mkSummary tt 1 1 0 0 0 StopRequested None 10000001 /\ obs_ids (queued s) = [1] /\ sink s = SinkEnded
      | _ => False
      end
  | None => False
  end.
Proof. vm_compute. split_and!; reflexivity. Qed.

Lemma demo_reachable s : demo_end = Some s -> reachable demo_listener tt s.
Proof.
  intros He. eapply execs_reachable; [apply reach_init| | |exact He]; [vm_compute; reflexivity|].
  repeat constructor; apply deaf_genuine.
Qed.

Lemma validate_exact_witness :
  config_wf demo_listener /\ (validate (fun _ => true) demo_listener = Ok tt -> listener_ok demo_listener).
Proof.
  assert (config_wf demo_listener) as Hwf by (unfold config_wf; vm_compute; split_and!; done).
  split; [exact Hwf|]. intros Hv. exact (proj1 (proj1 (validate_exact (fun _ => true) demo_listener Hwf) Hv)).
Defined.

Lemma listener_admission_witness :
  match demo_end with Some s => active s <= 32 /\ active s = zlen (workers s) | None => False end.
Proof.
  pose proof demo_end_fields as Hf. destruct demo_end as [s|] eqn:Ed; [|exact Hf].
  destruct (listener_admission demo_listener tt s demo_listener_ok (demo_reachable s Ed)) as (Ha & Hc & _).
  exact (conj Hc Ha).
Defined.

Lemma listener_records_witness :
  match demo_end with Some s => delivered s `prefix_of` queued s /\ obs_ids (queued s) = [1] | None => False end.
Proof.
  pose proof demo_end_fields as Hf. destruct demo_end as [s|] eqn:Ed; [|exact Hf].
  destruct (listener_records demo_listener tt s demo_listener_ok default_observer_config_ok (demo_reachable s Ed)) as (Hd & _).
  split; [exact Hd|]. destruct (pc (main s)); try (exact (match Hf with end)). exact (proj1 (proj2 Hf)).
Defined.

Lemma listener_summary_witness :
  match demo_end with
  | Some s => exists x, pc (main s) = Returned x /\ sm_records_dropped x = zlen (refused s) /\ workers s = [] /\ stop s = true
  | None => False
  end.
Proof.
  pose proof demo_end_fields as Hf. destruct demo_end as [s|] eqn:Ed; [|exact Hf].
  destruct (pc (main s)) eqn:Epc; try (exact (match Hf with end)). destruct Hf as (-> & _).
  destruct (listener_summary demo_listener tt s _ demo_listener_ok default_observer_config_ok (demo_reachable s Ed) Epc)
    as (_ & _ & Hj & _ & _ & _ & Hz).
  destruct (Hz eq_refl) as (Hw & Hd & _). eexists. split; [reflexivity|]. exact (conj Hd (conj Hw Hj)).
Defined.

Lemma listener_returns_witness :
  exists ls s' x, execs demo_listener tt ls (initial 0 true : State unit unit) = Some s' /\ pc (main s') = Returned x.
Proof.
  destruct (listener_returns demo_listener tt (initial 0 true : State unit unit) (Ok tt) demo_listener_ok
    (reach_init demo_listener tt 0 true) (or_introl eq_refl) ltac:(discriminate)) as (ls & s' & x & _ & He & Hx).
  exists ls, s', x. exact (conj He Hx).
Defined.

(** The sink fails on the first record, and the main thread overtakes it between
    its two stores. *)
Definition race_labels : list (@Label unit unit) :=
  let m := MainStep in let k := SinkStep (Err tt) in
  [m; k; k; k; m; m; m; m; m; m; m; m; m; m; Tick 5000000000; m].

(** C39: a failed sink can be reported without its error: the sink thread sets the
    failed flag before it stores the error, so a run can return with the reason
    that the sink failed and no error although the sink returned one. *)
Theorem sink_error_race :
  exists (s : State unit unit) x,
    reachable demo_listener tt s /\ pc (main s) = Returned x /\ sm_reason x = SinkFailed /\ sm_error x = None /\
    sink s = SinkStoring tt.
Proof.
  assert (match execs demo_listener tt race_labels (initial 0 false) with
    | Some s => match pc (main s) with
        | Returned x => sm_reason x = SinkFailed /\ sm_error x = None /\ sink s = SinkStoring tt
        | _ => False end
    | None => False end) as Hr by (vm_compute; split_and!; reflexivity).
  destruct (execs demo_listener tt race_labels (initial 0 false)) as [s|] eqn:Ed; [|done].
  destruct (pc (main s)) eqn:Epc; try done. eexists s, _. split_and!; [|done|apply Hr..].
  eapply execs_reachable; [apply reach_init| | |exact Ed]; [vm_compute; reflexivity|by repeat constructor].
Qed.
