(* ===== verification/Calendar.v ===== *)
(** * Timestamps of the observer's records

    Models [civil_from_days] and [rfc3339] of crates/tatami_ssh/src/server.rs
    against the Gregorian calendar given by its day-after function: month
    lengths and the leap-year rule. A [Duration] is its nanoseconds. *)

From S2P Require Import Prelude WireError NameList Primitives Messages KexInit KeyAlgorithm HostKey HostKeyProps.
From S2P Require Import Packet Gcm Transcript Trust KnownHosts KnownHostsProps Text TextProps.

Module Calendar.
Import Json.

(** ** The code *)

(** [i64] division truncates; no intermediate leaves 64 bits for a day count
    below [2^62]. *)
(* facade/server.rs:571-583 civil_from_days *)
Definition civil_from_days (z : Z) : Z * Z * Z :=
  let z := z + 719468 in
  let era := Z.quot (if 0 <=? z then z else z - 146096) 146097 in
  let doe := z - era * 146097 in
  let yoe := Z.quot (doe - Z.quot doe 1460 + Z.quot doe 36524 - Z.quot doe 146096) 365 in
  let y := yoe + era * 400 in
  let doy := doe - (365 * yoe + Z.quot yoe 4 - Z.quot yoe 100) in
  let mp := Z.quot (5 * doy + 2) 153 in
  let d := doy - Z.quot (153 * mp + 2) 5 + 1 in
  let m := if mp <? 10 then mp + 3 else mp - 9 in
  (if m <=? 2 then y + 1 else y, m, d).

(** [{:0w}] of a non-negative integer. *)
Definition padded (w : nat) (n : Z) : str :=
  let s := display_u64 n in replicate (w - length s) 48 ++ s.

Definition as_secs (d : Z) : Z := d / 1000000000.

Definition subsec_millis (d : Z) : Z := d mod 1000000000 / 1000000.

Definition I64_MAX : Z := 2 ^ 63 - 1.

(* facade/server.rs:555-567 rfc3339 *)
Definition rfc3339 (since_epoch : Z) : str :=
  let secs := as_secs since_epoch in
  let millis := subsec_millis since_epoch in
  let days := secs / 86400 in
  let rem := secs mod 86400 in
  let '(y, m, d) := civil_from_days (if days <=? I64_MAX then days else I64_MAX) in
  padded 4 y ++ chars "-" ++ padded 2 m ++ chars "-" ++ padded 2 d ++ chars "T"
  ++ padded 2 (rem / 3600) ++ chars ":" ++ padded 2 (rem mod 3600 / 60) ++ chars ":" ++ padded 2 (rem mod 60)
  ++ chars "." ++ padded 3 millis ++ chars "Z".

(** ** The calendar *)

Definition leap (y : Z) : bool := (y mod 4 =? 0) && (negb (y mod 100 =? 0) || (y mod 400 =? 0)).

Definition month_length (y m : Z) : Z :=
  if m =? 2 then if leap y then 29 else 28
  else if (m =? 4) || (m =? 6) || (m =? 9) || (m =? 11) then 30 else 31.

Definition next_day (date : Z * Z * Z) : Z * Z * Z :=
  let '(y, m, d) := date in
  if d <? month_length y m then (y, m, d + 1)
  else if m <? 12 then (y, m + 1, 1) else (y + 1, 1, 1).

Definition valid (date : Z * Z * Z) : Prop :=
  let '(y, m, d) := date in 1 <= m <= 12 /\ 1 <= d <= month_length y m.

(** Days since 1970-01-01, counting years from March. *)
Definition day_number (date : Z * Z * Z) : Z :=
  let '(y, m, d) := date in
  let y := if m <=? 2 then y - 1 else y in
  let mp := if m <=? 2 then m + 9 else m - 3 in
  365 * y + y / 4 - y / 100 + y / 400 + (153 * mp + 2) / 5 + d - 1 - 719468.

(** ** Theorems *)

(** The leap-year test as a fact about the year before, counted from March. *)
Lemma leap_spec y : leap y = true <-> y mod 4 = 0 /\ (y mod 100 <> 0 \/ y mod 400 = 0).
Proof. unfold leap. rewrite andb_true_iff, orb_true_iff, negb_true_iff, Z.eqb_neq, !Z.eqb_eq. done. Qed.

Lemma year_of_era yoe doy doe :
  0 <= yoe < 400 -> 0 <= doy <= 365 ->
  (doy = 365 -> yoe mod 4 = 3 /\ (yoe mod 100 = 99 -> yoe = 399)) ->
  doe = 365 * yoe + yoe / 4 - yoe / 100 + doy ->
  (doe - doe / 1460 + doe / 36524 - doe / 146096) / 365 = yoe.
Proof. intros. Z.to_euclidean_division_equations. lia. Qed.

(** The months counted from March: [n / 5] days before each. *)
Lemma month_of_year mp d : 0 <= mp <= 11 -> 1 <= d <= 31 -> (mp = 1 \/ mp = 3 \/ mp = 6 \/ mp = 8 \/ mp = 11 -> d <= 30) ->
  (5 * ((153 * mp + 2) / 5 + d - 1) + 2) / 153 = mp.
Proof.
  intros Hm Hd H30.
  assert (mp = 0 \/ mp = 1 \/ mp = 2 \/ mp = 3 \/ mp = 4 \/ mp = 5 \/ mp = 6 \/ mp = 7 \/ mp = 8 \/ mp = 9 \/ mp = 10 \/ mp = 11)
    as Hc by lia.
  repeat (destruct Hc as [->|Hc]); try subst mp; Z.to_euclidean_division_equations; lia.
Qed.

Lemma valid_next date : valid date -> valid (next_day date).
Proof.
  destruct date as [[y m] d]. intros [Hm Hd]. unfold next_day.
  destruct (Z.ltb_spec d (month_length y m)); [cbn [valid]; lia|].
  destruct (Z.ltb_spec m 12); unfold valid, month_length; repeat case_match; lia.
Qed.

(** The three divisions of a year number move when the year that ends in
    February is a leap year. *)
Lemma leap_step y : (y / 4 - y / 100 + y / 400) - ((y - 1) / 4 - (y - 1) / 100 + (y - 1) / 400) = if leap y then 1 else 0.
Proof.
  pose proof (leap_spec y) as Hl. destruct (leap y); destruct Hl as [H1 H2];
    [specialize (H1 eq_refl)|assert (~ (y mod 4 = 0 /\ (y mod 100 <> 0 \/ y mod 400 = 0))) as H3 by (by intros ?%H2)];
    clear H2; Z.to_euclidean_division_equations; lia.
Qed.

Lemma day_number_next date : valid date -> day_number (next_day date) = day_number date + 1.
Proof.
  destruct date as [[y m] d]. intros [Hm Hd]. unfold next_day.
  destruct (Z.ltb_spec d (month_length y m)); [cbn [day_number]; lia|].
  assert (d = month_length y m) as -> by lia. pose proof (leap_step y) as Hl.
  assert (m = 1 \/ m = 2 \/ m = 3 \/ m = 4 \/ m = 5 \/ m = 6 \/ m = 7 \/ m = 8 \/ m = 9 \/ m = 10 \/ m = 11 \/ m = 12) as Hc by lia.
  repeat (destruct Hc as [->|Hc]); try subst m; cbn -[leap] in *;
    rewrite ?Z.add_simpl_r; repeat case_match; Z.to_euclidean_division_equations; lia.
Qed.

(** The split of a day number into era, year of the era and day of the year. *)
Lemma day_of_year y m d : valid (y, m, d) ->
  let y' := if m <=? 2 then y - 1 else y in
  let mp := if m <=? 2 then m + 9 else m - 3 in
  let doy := (153 * mp + 2) / 5 + d - 1 in
  0 <= mp <= 11 /\ 0 <= doy <= 365 /\ (mp = 1 \/ mp = 3 \/ mp = 6 \/ mp = 8 \/ mp = 11 -> d <= 30) /\ 1 <= d <= 31 /\
  (doy = 365 -> (y' mod 400) mod 4 = 3 /\ ((y' mod 400) mod 100 = 99 -> y' mod 400 = 399)).
Proof.
  intros [Hm Hd]. cbn zeta. pose proof (leap_spec y) as Hl.
  assert (m = 1 \/ m = 2 \/ m = 3 \/ m = 4 \/ m = 5 \/ m = 6 \/ m = 7 \/ m = 8 \/ m = 9 \/ m = 10 \/ m = 11 \/ m = 12) as Hc by lia.
  repeat (destruct Hc as [->|Hc]); try subst m; cbn -[leap] in *; destruct (leap y);
    try (split_and!; Z.to_euclidean_division_equations; lia).
Qed.

Lemma day_of_era_range yoe doy : 0 <= yoe < 400 -> 0 <= doy <= 365 -> 0 <= 365 * yoe + yoe / 4 - yoe / 100 + doy < 146097.
Proof. intros. Z.to_euclidean_division_equations. lia. Qed.

Lemma day_of_era_sum y doy :
  365 * y + y / 4 - y / 100 + y / 400 + doy
  = y / 400 * 146097 + (365 * (y mod 400) + y mod 400 / 4 - y mod 400 / 100 + doy).
Proof. Z.to_euclidean_division_equations. lia. Qed.

(** [civil_from_days] with the flooring divisions its operands allow. *)
Lemma civil_split era doe : 0 <= era -> 0 <= doe < 146097 ->
  civil_from_days (era * 146097 + doe - 719468) =
    let yoe := (doe - doe / 1460 + doe / 36524 - doe / 146096) / 365 in
    let doy := doe - (365 * yoe + yoe / 4 - yoe / 100) in
    let mp := (5 * doy + 2) / 153 in
    let m := if mp <? 10 then mp + 3 else mp - 9 in
    (if m <=? 2 then yoe + era * 400 + 1 else yoe + era * 400, m, doy - (153 * mp + 2) / 5 + 1).
Proof.
  intros He Hd. unfold civil_from_days. replace (era * 146097 + doe - 719468 + 719468) with (doe + era * 146097) by lia.
  rewrite (proj2 (Z.leb_le 0 _)) by lia.
  rewrite (Z.quot_div_nonneg (doe + _)), Z.div_add, Z.div_small by lia. replace (doe + era * 146097 - (0 + era) * 146097) with doe by lia.
  cbn zeta. rewrite !(Z.quot_div_nonneg doe) by lia.
  set (yoe := (doe - doe / 1460 + doe / 36524 - doe / 146096) / 365).
  assert (0 <= yoe /\ 0 <= doe - (365 * yoe + yoe / 4 - yoe / 100)) as [Hy Hdoy].
  { unfold yoe. Z.to_euclidean_division_equations. lia. }
  assert (Z.quot (doe - doe / 1460 + doe / 36524 - doe / 146096) 365 = yoe) as ->.
  { apply Z.quot_div_nonneg; [|lia]. Z.to_euclidean_division_equations. lia. }
  rewrite !(Z.quot_div_nonneg yoe) by lia. set (doy := doe - (365 * yoe + yoe / 4 - yoe / 100)) in *.
  rewrite (Z.quot_div_nonneg (5 * doy + 2)) by lia.
  assert (0 <= (5 * doy + 2) / 153) by (apply Z.div_pos; lia).
  by rewrite (Z.quot_div_nonneg (153 * _ + 2)) by lia.
Qed.

Lemma civil_day_number date : valid date -> 0 <= day_number date -> civil_from_days (day_number date) = date.
Proof.
  destruct date as [[y m] d]. intros Hv Hz. pose proof (day_of_year y m d Hv) as (Hmp & Hdoy & H30 & Hd & H365).
  destruct Hv as [Hm _]. unfold day_number in *. cbn zeta in *.
  remember (if m <=? 2 then y - 1 else y) as y' eqn:Ey. remember (if m <=? 2 then m + 9 else m - 3) as mp eqn:Emp.
  pose proof (month_of_year mp d Hmp Hd H30) as Hmonth.
  pose proof (Z.mod_pos_bound y' 400 ltac:(lia)) as Hyoe.
  pose proof (day_of_era_range _ _ Hyoe Hdoy) as Hdoe.
  pose proof (year_of_era (y' mod 400) _ _ Hyoe Hdoy H365 eq_refl) as Hyear.
  pose proof (day_of_era_sum y' ((153 * mp + 2) / 5 + d - 1)) as Hsum.
  set (doe := 365 * (y' mod 400) + y' mod 400 / 4 - y' mod 400 / 100 + ((153 * mp + 2) / 5 + d - 1)) in *.
  replace (365 * y' + y' / 4 - y' / 100 + y' / 400 + (153 * mp + 2) / 5 + d - 1 - 719468)
    with (y' / 400 * 146097 + doe - 719468) in * by lia.
  rewrite civil_split by lia. cbn zeta. rewrite Hyear.
  replace (doe - (365 * (y' mod 400) + y' mod 400 / 4 - y' mod 400 / 100)) with ((153 * mp + 2) / 5 + d - 1) by (unfold doe; lia).
  rewrite Hmonth. pose proof (Z.div_mod y' 400 ltac:(lia)). clearbody doe.
  subst y' mp. destruct (Z.leb_spec m 2); repeat f_equal; repeat case_match; lia.
Qed.

Definition epoch : Z * Z * Z := (1970, 1, 1).

Definition calendar (n : nat) : Z * Z * Z := Nat.iter n next_day epoch.

Lemma calendar_day n : valid (calendar n) /\ day_number (calendar n) = Z.of_nat n.
Proof.
  induction n as [|n [IHv IHn]]; [done|]. change (calendar (S n)) with (next_day (calendar n)). split; [by apply valid_next|].
  rewrite day_number_next by done. lia.
Qed.

(** [civil_from_days n] is the date [n] days after 1970-01-01: what
    stepping the Gregorian calendar one day at a time, by its month lengths and
    leap-year rule, arrives at. *)
Theorem civil_from_days_calendar (n : nat) : civil_from_days (Z.of_nat n) = calendar n.
Proof. destruct (calendar_day n) as [Hv Hn]. rewrite <- Hn. apply civil_day_number; [done|lia]. Qed.

Lemma civil_valid z : 0 <= z -> valid (civil_from_days z) /\ day_number (civil_from_days z) = z.
Proof.
  intros Hz. destruct (calendar_day (Z.to_nat z)) as [Hv Hn]. rewrite Z2Nat.id in Hn by done.
  pose proof (civil_day_number (calendar (Z.to_nat z)) Hv ltac:(lia)) as E. rewrite Hn in E. by rewrite E.
Qed.

(** *** The text *)

(** A reader of the format: the milliseconds since the epoch that it names. *)
Definition read_rfc3339 (s : str) : option Z :=
  let '(y, s) := read_digits 0 s in
  let* s := expect (chars "-") s in
  let '(mo, s) := read_digits 0 s in
  let* s := expect (chars "-") s in
  let '(d, s) := read_digits 0 s in
  let* s := expect (chars "T") s in
  let '(h, s) := read_digits 0 s in
  let* s := expect (chars ":") s in
  let '(mi, s) := read_digits 0 s in
  let* s := expect (chars ":") s in
  let '(sec, s) := read_digits 0 s in
  let* s := expect (chars ".") s in
  let '(ms, s) := read_digits 0 s in
  let* s := expect (chars "Z") s in
  if bool_decide (s = []) then Some ((((day_number (y, mo, d) * 24 + h) * 60 + mi) * 60 + sec) * 1000 + ms) else None.

Lemma read_padded w n t : 0 <= n <= U64_MAX -> stops t -> read_digits 0 (padded w n ++ t) = (n, t).
Proof.
  intros Hn Ht. unfold padded. rewrite <- app_assoc. generalize (w - length (display_u64 n))%nat as k.
  induction k as [|k IH]; [by apply read_u64|]. done.
Qed.

Lemma expect_app p s : expect p (p ++ s) = Some s.
Proof. induction p as [|x p IH]; [done|]. cbn. by rewrite Z.eqb_refl. Qed.

(** Every component of a representable instant fits the [u64] display. *)
Lemma civil_small z : 0 <= z <= U64_MAX -> let '(y, m, d) := civil_from_days z in
  1970 <= y <= U64_MAX /\ 1 <= m <= 12 /\ 1 <= d <= 31.
Proof.
  intros [Hz Hmax]. destruct (civil_valid z Hz) as [Hv Hn]. destruct (civil_from_days z) as [[y m] d].
  pose proof (day_of_year y m d Hv) as (_ & _ & _ & Hd & _). destruct Hv as [Hm _]. split_and!; try lia.
  - cut (~ y < 1970); [lia|]. intros Hy. unfold day_number, U64_MAX in *. clear Hmax.
    destruct (Z.leb_spec m 2); Z.to_euclidean_division_equations; lia.
  - cut (~ U64_MAX < y); [lia|]. intros Hy. unfold day_number, U64_MAX in *.
    destruct (Z.leb_spec m 2); Z.to_euclidean_division_equations; lia.
Qed.

(** The timestamp of a record, read back by the calendar, is the instant to
    the millisecond, for every instant a [Duration] since the epoch holds. *)
Theorem rfc3339_exact (t : Z) (H : 0 <= t < (U64_MAX + 1) * 1000000000) : read_rfc3339 (rfc3339 t) = Some (t / 1000000).
Proof.
  unfold rfc3339, as_secs, subsec_millis. set (secs := t / 1000000000).
  assert (0 <= secs <= U64_MAX) as Hs.
  { split; [apply Z.div_pos; lia|]. apply Z.lt_succ_r, Z.div_lt_upper_bound; lia. }
  assert (0 <= secs / 86400 <= U64_MAX / 86400) as Hdays by (split; [apply Z.div_pos; lia|apply Z.div_le_mono; lia]).
  change (U64_MAX / 86400) with 213503982334601 in Hdays.
  rewrite (proj2 (Z.leb_le _ I64_MAX)) by (unfold I64_MAX; lia).
  pose proof (civil_small (secs / 86400) ltac:(unfold U64_MAX; lia)) as Hc.
  destruct (civil_valid (secs / 86400) ltac:(lia)) as [_ Hday].
  destruct (civil_from_days (secs / 86400)) as [[y m] d]. destruct Hc as (Hy & Hm & Hd).
  pose proof (Z.mod_pos_bound secs 86400 ltac:(lia)) as Hrem.
  pose proof (Z.mod_pos_bound t 1000000000 ltac:(lia)) as Hns.
  unfold read_rfc3339.
  repeat (rewrite read_padded by (first [done|unfold U64_MAX in *; Z.to_euclidean_division_equations; lia]);
          rewrite ?expect_app; cbn [mbind option_bind]).
  change (expect (chars "Z") (chars "Z")) with (Some (@nil Z)). cbn [mbind option_bind].
  rewrite bool_decide_eq_true_2 by done. rewrite Hday. f_equal. subst secs. clear -H.
  Z.to_euclidean_division_equations. lia.
Qed.

Lemma rfc3339_exact_witness : read_rfc3339 (rfc3339 1789907696789123456) = Some 1789907696789.
Proof. apply (rfc3339_exact 1789907696789123456). unfold U64_MAX. lia. Defined.

Example rfc3339_known_values :
  rfc3339 0 = chars "1970-01-01T00:00:00.000Z" /\
  rfc3339 951868800000000000 = chars "2000-03-01T00:00:00.000Z" /\
  rfc3339 1789907696789000000 = chars "2026-09-20T12:34:56.789Z" /\
  rfc3339 1709251199000000000 = chars "2024-02-29T23:59:59.000Z".
Proof. vm_compute. done. Qed.

End Calendar.
