(* ===== verification/Utf8.v ===== *)
(** * UTF-8

    What the reports use of Rust's strings: [String::from_utf8_lossy] (the
    [Utf8Chunks] iterator: every maximal ill-formed prefix of a scalar becomes
    one replacement character) and the encoding of a string as bytes. *)

From S2P Require Import Prelude WireError NameList Primitives Messages KexInit KeyAlgorithm HostKey HostKeyProps.
From S2P Require Import Packet Gcm Transcript Trust KnownHosts KnownHostsProps Text TextProps.

Module Utf8.
Import Json.

(** ** Decoding *)

Definition REPLACEMENT : Z := 0xfffd.

Definition within (lo hi c : Z) : bool := (lo <=? c) && (c <=? hi).

(** A continuation byte. *)
Definition cont (b : byte) : bool := within 0x80 0xbf (u8 b).

(** The six low bits of a continuation byte. *)
Definition low6 (b : byte) : Z := u8 b - 0x80.

(** The second bytes that may follow a three-byte and a four-byte head; other
    bytes would make an overlong form, a surrogate or a value out of range. *)
Definition second3 (head second : Z) : bool :=
  if head =? 0xe0 then within 0xa0 0xbf second
  else if head =? 0xed then within 0x80 0x9f second
  else within 0x80 0xbf second.

Definition second4 (head second : Z) : bool :=
  if head =? 0xf0 then within 0x90 0xbf second
  else if head =? 0xf4 then within 0x80 0x8f second
  else within 0x80 0xbf second.

(* facade/json.rs:44-46 Value::lossy_text *)
Fixpoint from_utf8_lossy (s : bytes) : str :=
  match s with
  | [] => []
  | b0 :: r0 =>
      let h := u8 b0 in
      if h <? 0x80 then h :: from_utf8_lossy r0
      else if within 0xc2 0xdf h then
        match r0 with
        | b1 :: r1 =>
            if cont b1 then ((h - 0xc0) * 64 + low6 b1) :: from_utf8_lossy r1
            else REPLACEMENT :: from_utf8_lossy r0
        | [] => [REPLACEMENT]
        end
      else if within 0xe0 0xef h then
        match r0 with
        | b1 :: r1 =>
            if second3 h (u8 b1) then
              match r1 with
              | b2 :: r2 =>
                  if cont b2 then ((h - 0xe0) * 4096 + low6 b1 * 64 + low6 b2) :: from_utf8_lossy r2
                  else REPLACEMENT :: from_utf8_lossy r1
              | [] => [REPLACEMENT]
              end
            else REPLACEMENT :: from_utf8_lossy r0
        | [] => [REPLACEMENT]
        end
      else if within 0xf0 0xf4 h then
        match r0 with
        | b1 :: r1 =>
            if second4 h (u8 b1) then
              match r1 with
              | b2 :: r2 =>
                  if cont b2 then
                    match r2 with
                    | b3 :: r3 =>
                        if cont b3 then
                          ((h - 0xf0) * 262144 + low6 b1 * 4096 + low6 b2 * 64 + low6 b3) :: from_utf8_lossy r3
                        else REPLACEMENT :: from_utf8_lossy r2
                    | [] => [REPLACEMENT]
                    end
                  else REPLACEMENT :: from_utf8_lossy r1
              | [] => [REPLACEMENT]
              end
            else REPLACEMENT :: from_utf8_lossy r0
        | [] => [REPLACEMENT]
        end
      else REPLACEMENT :: from_utf8_lossy r0
  end.

(** ** Encoding *)

(** [char::encode_utf8]. *)
Definition encode_char (c : Z) : bytes :=
  if c <? 0x80 then [byte_of_Z c]
  else if c <? 0x800 then [byte_of_Z (0xc0 + c / 64); byte_of_Z (0x80 + c mod 64)]
  else if c <? 0x10000 then
    [byte_of_Z (0xe0 + c / 4096); byte_of_Z (0x80 + c / 64 mod 64); byte_of_Z (0x80 + c mod 64)]
  else
    [byte_of_Z (0xf0 + c / 262144); byte_of_Z (0x80 + c / 4096 mod 64);
     byte_of_Z (0x80 + c / 64 mod 64); byte_of_Z (0x80 + c mod 64)].

(** [str::as_bytes]. *)
Definition as_bytes (s : str) : bytes := mjoin (map encode_char s).

(** Unicode scalar values. *)
Definition scalar (c : Z) : Prop := 0 <= c < 0xd800 \/ 0xe000 <= c <= 0x10ffff.

Example lossy_demo :
  from_utf8_lossy (bstr "a" ++ [xc3; xa9; xe0; x80; xff; xf0; x9f; x98; x80; xed; xa0; x80; xe2; x82])
  = [97; 0xe9; REPLACEMENT; REPLACEMENT; REPLACEMENT; 0x1f600; REPLACEMENT; REPLACEMENT; REPLACEMENT; REPLACEMENT].
Proof. vm_compute. reflexivity. Qed.

(** ** Lemmas *)

Lemma within_spec lo hi c : within lo hi c = true <-> lo <= c <= hi.
Proof. unfold within. rewrite andb_true_iff, !Z.leb_le. done. Qed.

Lemma cont_spec b : cont b = true -> 0 <= low6 b < 64.
Proof. unfold cont, low6. rewrite within_spec. lia. Qed.

Lemma byte_range lo hi c : lo <= c <= hi -> 0 <= lo -> hi <= 255 -> u8 (byte_of_Z c) = c.
Proof. intros. rewrite u8_byte_of_Z. apply Z.mod_small. lia. Qed.

(** Unfolds the tests on the bytes of one scalar to arithmetic. *)
Ltac utf8_tests :=
  repeat match goal with
  | H : second3 _ _ = true |- _ => unfold second3 in H
  | H : second4 _ _ = true |- _ => unfold second4 in H
  | H : cont _ = true |- _ => apply cont_spec in H
  | H : within _ _ _ = true |- _ => rewrite within_spec in H
  | H : (_ <? _) = true |- _ => apply Z.ltb_lt in H
  | H : (_ <? _) = false |- _ => apply Z.ltb_ge in H
  | H : (if ?b =? ?k then _ else _) = true |- _ => destruct (Z.eqb_spec b k)
  end; unfold low6 in *.

(** The lossy form of any bytes is made of scalar values. *)
Lemma lossy_scalar s : Forall scalar (from_utf8_lossy s).
Proof.
  induction s as [s IH] using (induction_ltof1 _ (@length byte)). unfold ltof in IH.
  assert (scalar REPLACEMENT) by (unfold scalar, REPLACEMENT; lia).
  destruct s as [|b0 r0]; [constructor|]. cbn [from_utf8_lossy]. pose proof (u8_range b0).
  repeat case_match; subst; constructor; try done; try (apply IH; cbn; lia);
    utf8_tests; unfold scalar; lia.
Qed.

Lemma scalar_char_ok s : Forall scalar s -> Forall char_ok s.
Proof. intros H. eapply Forall_impl; [done|]. unfold scalar, char_ok. lia. Qed.

Lemma lossy_char_ok s : Forall char_ok (from_utf8_lossy s).
Proof. apply scalar_char_ok, lossy_scalar. Qed.

Lemma u8_of c : 0 <= c <= 255 -> u8 (byte_of_Z c) = c.
Proof. intros. rewrite u8_byte_of_Z. apply Z.mod_small. lia. Qed.

Lemma within_false lo hi c : c < lo \/ hi < c -> within lo hi c = false.
Proof. intros H. apply not_true_iff_false. rewrite within_spec. lia. Qed.

(** Decides the tests of the decoder on known ranges. *)
Ltac decide_tests :=
  repeat match goal with
  | |- context [?a <? ?b] => first [rewrite (proj2 (Z.ltb_lt a b)) by lia | rewrite (proj2 (Z.ltb_ge a b)) by lia]
  | |- context [within ?lo ?hi ?c] => first [rewrite (proj2 (within_spec lo hi c)) by lia | rewrite (within_false lo hi c) by lia]
  | |- context [?a =? ?b] => destruct (Z.eqb_spec a b)
  end.

(** A well-formed scalar decodes to itself. *)
Lemma lossy_encode_char c t : scalar c -> from_utf8_lossy (encode_char c ++ t) = c :: from_utf8_lossy t.
Proof.
  intros Hc. unfold encode_char.
  pose proof (Z.mod_pos_bound c 64 ltac:(lia)). pose proof (Z.mod_pos_bound (c / 64) 64 ltac:(lia)).
  pose proof (Z.mod_pos_bound (c / 4096) 64 ltac:(lia)).
  assert (c = c / 64 * 64 + c mod 64) by (Z.to_euclidean_division_equations; lia).
  assert (c / 64 = c / 4096 * 64 + c / 64 mod 64) by (Z.to_euclidean_division_equations; lia).
  assert (c / 4096 = c / 262144 * 64 + c / 4096 mod 64) by (Z.to_euclidean_division_equations; lia).
  assert (0 <= c / 64 /\ 0 <= c / 4096 /\ 0 <= c / 262144) as (? & ? & ?)
    by (unfold scalar in Hc; split_and!; apply Z.div_pos; lia).
  unfold scalar in Hc.
  repeat case_match; utf8_tests; cbn [app from_utf8_lossy]; unfold cont, second3, second4, low6;
    rewrite !u8_of by lia; decide_tests; f_equal; lia.
Qed.

Lemma as_bytes_cons c s : as_bytes (c :: s) = encode_char c ++ as_bytes s.
Proof. done. Qed.

(** Text that is well formed is kept as it is. *)
Lemma lossy_as_bytes s : Forall scalar s -> from_utf8_lossy (as_bytes s) = s.
Proof.
  induction 1 as [|c s Hc _ IH]; [done|]. rewrite as_bytes_cons, lossy_encode_char by done. by rewrite IH.
Qed.

(** ASCII bytes are their own characters. *)
Lemma lossy_ascii s : Forall (fun b => u8 b < 0x80) s -> from_utf8_lossy s = map u8 s.
Proof. induction 1 as [|b s Hb _ IH]; [done|]. cbn. rewrite (proj2 (Z.ltb_lt _ _) Hb). by rewrite IH. Qed.

Lemma as_bytes_app s t : as_bytes (s ++ t) = as_bytes s ++ as_bytes t.
Proof. unfold as_bytes. by rewrite map_app, join_app. Qed.

End Utf8.
