(* ===== verification/Display.v ===== *)
(** * Messages

    Models the [Display] implementations of the error and state types that
    reports print: crates/tatami_ssh_wire (error.rs, ident.rs, ext_info.rs),
    crates/tatami_ssh_tcp (ident.rs, packet.rs, initial.rs, probe.rs,
    observer.rs, gcm.rs, transcript.rs, negotiate.rs, handshake.rs, io.rs),
    crates/tatami_ssh_keys (error.rs, known_hosts.rs, trust.rs) and
    crates/tatami_ssh (host/files.rs, trust.rs). A string is its UTF-8 bytes.

    The lemmas show that a message is printable ASCII whatever the peer sent:
    [plain]. The names of fields and lists are string literals of the source;
    where an error carries one, the lemma asks that it is printable. *)

From S2P Require Import Prelude WireError NameList Primitives Messages KexInit ExtInfo WireIdent TcpIdent Packet.
From S2P Require Import Initial Probe Observer KeyAlgorithm HostKey HostKeyProps Negotiate Gcm Transcript Trust.
From S2P Require Import KnownHosts KnownHostsProps Text TextProps FacadeTrust Handshake Seam Drivers.

Module Display.
Import Hs.

(** ** Formatting *)

(** [{n}] of an unsigned integer of at most 64 bits. *)
Definition show (n : Z) : bytes := decimal 20 n.

Definition show_bool (b : bool) : bytes := bstr (if b then "true" else "false").

(** What the standard library prints: an [io::Error], the seconds of a
    [Duration] with three decimals, and a socket address. *)
Class Shows : Type := {
  show_io : IoError -> bytes;
  show_secs : Z -> bytes
}.

Class ShowAddr (A : Type) : Type := show_addr : A -> bytes.

(** ** The wire crate *)

(* wire/error.rs:66-80 InvalidEncoding::fmt *)
Definition invalid_encoding (e : InvalidEncoding) : bytes :=
  match e with
  | NameListNonAscii offset => bstr "name list has non-printable or non-ASCII byte at offset " ++ show offset
  | NameListEmptyName offset => bstr "name list has an empty name at offset " ++ show offset
  end.

(* wire/error.rs:50-64 DecodeError::fmt *)
Definition decode_error (e : DecodeError) : bytes :=
  match e with
  | WireError.Truncated needed available =>
      bstr "truncated input: needed " ++ show needed ++ bstr " bytes, " ++ show available ++ bstr " available"
  | DecodeLengthOverflow claimed available =>
      bstr "length prefix " ++ show claimed ++ bstr " exceeds " ++ show available ++ bstr " available bytes"
  | DecodeInvalidEncoding e => bstr "invalid encoding: " ++ invalid_encoding e
  end.

(* wire/error.rs:111-126 EncodeError::fmt *)
Definition encode_error (e : EncodeError) : bytes :=
  match e with
  | InsufficientCapacity needed available =>
      bstr "output buffer too small: needed " ++ show needed ++ bstr " bytes, " ++ show available ++ bstr " available"
  | EncodeLengthOverflow len => bstr "length " ++ show len ++ bstr " does not fit in a uint32 prefix"
  | InvalidName index => bstr "name at index " ++ show index ++ bstr " is not a valid SSH name"
  end.

(* wire/error.rs:162-181 MessageError::fmt *)
Definition message_error (e : MessageError) : bytes :=
  match e with
  | MessageEmpty => bstr "empty payload"
  | WireError.UnexpectedMessage expected found =>
      bstr "expected message number " ++ show expected ++ bstr ", found " ++ show found
  | MessageField field offset error =>
      bstr "field `" ++ bstr field ++ bstr "` at offset " ++ show offset ++ bstr ": " ++ decode_error error
  | MessageTrailingBytes count => show count ++ bstr " unexpected trailing byte(s) after message"
  end.

(* wire/ext_info.rs:118-136 ExtInfoError::fmt *)
Definition ext_info_error (e : ExtInfoError) : bytes :=
  match e with
  | ExtInfoMessage e => message_error e
  | TooManyExtensions claimed max => bstr "nr-extensions " ++ show claimed ++ bstr " exceeds limit " ++ show max
  | CountMismatch claimed found =>
      bstr "nr-extensions " ++ show claimed ++ bstr " but only " ++ show found ++ bstr " pair(s) present"
  | InvalidServerSigAlgs e => bstr "server-sig-algs value is not a name-list: " ++ invalid_encoding e
  end.

(** ** Identification, packets and the initial phase *)

(* tcp/ident.rs:148-159 IdentAnomaly::fmt *)
Definition ident_anomaly (a : IdentAnomaly) : bytes :=
  match a with
  | LfOnlyTerminator => bstr "line terminated by LF only (RFC 4253 requires CR LF)"
  | CompatibilityVersion => bstr "protocol version 1.99 (SSH-1 compatibility indication)"
  end.

(* tcp/ident.rs:140-145 IdentAnomaly::code *)
Definition ident_anomaly_code (a : IdentAnomaly) : string :=
  match a with
  | LfOnlyTerminator => "lf_only_terminator"
  | CompatibilityVersion => "compatibility_version_1_99"
  end.

(* tcp/ident.rs:307-316 InvalidIdentification::fmt *)
Definition invalid_identification (e : InvalidIdentification) : bytes :=
  match e with
  | InvMissingSeparator => bstr "missing '-' after protocol version"
  | InvBadProtocolVersion => bstr "malformed protocol version"
  | InvBadSoftwareVersion => bstr "malformed software version"
  | InvControlCharacter => bstr "control character in line"
  end.

(* tcp/ident.rs:294-305 IdentError::fmt *)
Definition ident_error (e : IdentError) : bytes :=
  match e with
  | PreludeLineTooLong => bstr "pre-identification line too long"
  | TooManyPreludeLines => bstr "too many pre-identification lines"
  | PreludeBytesExceeded => bstr "pre-identification text too large"
  | IdentificationTooLong => bstr "identification line too long"
  | IdentInvalid e => bstr "invalid identification: " ++ invalid_identification e
  | UnsupportedVersion => bstr "unsupported SSH protocol version"
  end.

(* tcp/packet.rs:116-143 PacketError::fmt *)
Definition packet_error (e : PacketError) : bytes :=
  match e with
  | TooLarge packet_length limit =>
      bstr "packet_length " ++ show packet_length ++ bstr " exceeds local limit " ++ show limit
  | TooSmall packet_length => bstr "packet_length " ++ show packet_length ++ bstr " below minimum"
  | Misaligned packet_length => bstr "packet_length " ++ show packet_length ++ bstr " not aligned to block size"
  | BadPadding packet_length padding_length =>
      bstr "padding_length " ++ show padding_length ++ bstr " invalid for packet_length " ++ show packet_length
  end.

(* tcp/initial.rs:46-54 InputOverflow::fmt *)
Definition input_overflow (e : InputBuffer.InputOverflow) : bytes :=
  bstr "input of " ++ show (InputBuffer.offered e) ++ bstr " bytes exceeds buffer capacity "
  ++ show (InputBuffer.ov_capacity e) ++ bstr " (" ++ show (InputBuffer.pending e) ++ bstr " pending)".

(* tcp/initial.rs:247-254 MsgName::fmt *)
Definition msg_name (number : Z) : bytes :=
  match Msg.name number with
  | Some n => bstr n ++ bstr " (" ++ show number ++ bstr ")"
  | None => bstr "message number " ++ show number
  end.

(* tcp/initial.rs:214-240 InitialError::fmt *)
Definition initial_error (e : InitialError) : bytes :=
  match e with
  | InitIdent e => bstr "identification: " ++ ident_error e
  | InitPacket e => bstr "packet framing: " ++ packet_error e
  | EmptyPayload => bstr "packet with empty payload"
  | InitMessage number error => bstr "malformed " ++ msg_name number ++ bstr ": " ++ message_error error
  | Initial.UnexpectedMessage number => bstr "unexpected " ++ msg_name number ++ bstr " before KEXINIT"
  | UnsupportedTransition number =>
      msg_name number ++ bstr " before KEXINIT; initial packet decoding cannot continue"
  | PacketBudgetExceeded limit => bstr "more than " ++ show limit ++ bstr " packets before KEXINIT"
  | ByteBudgetExceeded limit => bstr "more than " ++ show limit ++ bstr " bytes before KEXINIT"
  | InitOverflow e => input_overflow e
  end.

(* tcp/probe.rs:125-133 Stage::fmt *)
Definition stage (s : Stage) : bytes :=
  match s with
  | StIdentification => bstr "awaiting server identification"
  | StInitialPackets => bstr "awaiting server KEXINIT"
  | StFinished => bstr "finished"
  end.

(* tcp/probe.rs:209-218 ProposalAnomaly::fmt *)
Definition proposal_anomaly (a : ProposalAnomaly) : bytes :=
  match a with
  | NonzeroReserved v => bstr "reserved field is " ++ show v ++ bstr ", expected 0"
  | EmptyAlgorithmList name => bstr "required list `" ++ bstr name ++ bstr "` is empty"
  end.

(* tcp/observer.rs:115-123 ObserverStage::fmt *)
Definition observer_stage (s : ObserverStage) : bytes :=
  match s with
  | ObClientIdentification => bstr "awaiting client identification"
  | ObInitialPackets => bstr "awaiting client KEXINIT"
  | ObFinished => bstr "finished"
  end.

(** ** Keys *)

(** Printable bytes as they are but backquote and backslash, others as
    [\\xNN]. *)
Fixpoint escaped_body (bs : bytes) : bytes :=
  match bs with
  | [] => []
  | b :: rest =>
      (if (0x20 <=? u8 b) && (u8 b <? 0x7f) && negb (byte_eqb b "`"%byte) && negb (byte_eqb b "\"%byte)
       then [b] else Text.hex_escape b) ++ escaped_body rest
  end.

(* keys/error.rs:221-233 Escaped::fmt *)
Definition escaped (bs : bytes) : bytes := bstr "`" ++ escaped_body bs ++ bstr "`".

(* keys/error.rs:27-40 BlobError::fmt *)
Definition blob_error (e : BlobError) : bytes :=
  match e with
  | BlobField field offset error =>
      bstr "field `" ++ bstr field ++ bstr "` at offset " ++ show offset ++ bstr ": " ++ decode_error error
  | BlobTrailingBytes count => show count ++ bstr " unexpected trailing byte(s) after blob"
  end.

(* keys/error.rs:99-139 KeyError::fmt *)
Definition key_error (e : KeyError) : bytes :=
  match e with
  | KeyBlob e => bstr "malformed blob: " ++ blob_error e
  | UnsupportedAlgorithm name => bstr "unsupported algorithm " ++ escaped name
  | WrongLength field expected found =>
      bstr field ++ bstr " is " ++ show found ++ bstr " bytes, expected " ++ show expected
  | InvalidKey => bstr "key bytes do not encode a valid public key"
  | NonCanonicalInteger field => bstr field ++ bstr " is not a minimal positive mpint"
  | RsaModulus bits =>
      bstr "RSA modulus of " ++ show bits ++ bstr " bits is not accepted (odd, 2048 to 8192 bits)"
  | RsaExponent => bstr "RSA public exponent is not accepted (odd, at least 3, at most 4 bytes)"
  | CurveMismatch => bstr "ECDSA curve identifier does not match the key algorithm"
  | PointEncoding => bstr "ECDSA point is not a 65-byte uncompressed SEC1 encoding"
  | ScalarTooLong field => bstr "ECDSA signature " ++ bstr field ++ bstr " is wider than the curve order"
  | UnexpectedKeyType expected found =>
      bstr "host key is " ++ escaped found ++ bstr ", but the negotiated algorithm needs " ++ escaped expected
  end.

(* keys/error.rs:185-212 VerifyError::fmt *)
Definition verify_error (e : VerifyError) : bytes :=
  match e with
  | AlgorithmMismatch key_algorithm signature_algorithm =>
      bstr "signature algorithm " ++ escaped signature_algorithm ++ bstr " does not match key algorithm "
      ++ escaped key_algorithm
  | UnexpectedSignatureAlgorithm expected found =>
      bstr "signature is labelled " ++ escaped found ++ bstr ", but " ++ escaped expected ++ bstr " was negotiated"
  | MalformedSignature e => bstr "malformed signature: " ++ key_error e
  | ProviderUnavailable scheme =>
      bstr "no signature provider for " ++ escaped scheme ++ bstr " in this build"
  | VerifyInvalid => bstr "signature does not verify"
  end.

(** The handshake keeps the text; the model keeps the error it comes from. *)
(* tcp/handshake.rs:1447-1457 ClientHandshake::on_ecdh_reply *)
Definition signature_error (e : SignatureError) : bytes :=
  match e with
  | SigBlob e => bstr "signature blob: " ++ blob_error e
  | SigVerify e => verify_error e
  end.

(* keys/trust.rs:154-171 UntrustedReason::describe *)
Definition describe (r : UntrustedReason) : bytes :=
  match r with
  | FingerprintMismatch => bstr "fingerprint mismatch"
  | NoPolicy => bstr "no trust policy"
  | UnknownHost => bstr "host not listed in known_hosts"
  | KeyChanged _ => bstr "known_hosts lists a different key for this host (key changed)"
  | Revoked _ => bstr "key is revoked in known_hosts"
  | CertificateAuthorityOnly => bstr "only @cert-authority entries apply; host certificates are not supported"
  | NoKeyForAlgorithm => bstr "known_hosts lists this host only with other key algorithms"
  | UnsupportedIdentity => bstr "unsupported host identity"
  end.

(* keys/known_hosts.rs:163-177 Malformed::fmt *)
Definition malformed (e : Malformed) : bytes :=
  match e with
  | UnknownMarker => bstr "unknown marker (only @revoked and @cert-authority)"
  | MissingField what => bstr "missing " ++ bstr what
  | EmptyPattern => bstr "empty host pattern"
  | MalformedHashedHost => bstr "malformed hashed host (expected one |1|salt|hash)"
  | MalformedBase64 => bstr "key is not valid base64"
  | MalformedBlob => bstr "key blob does not start with an algorithm name"
  | KeyTypeMismatch => bstr "key type does not match the key blob"
  | MalformedKey key_type => bstr "invalid " ++ KeyType.name key_type ++ bstr " key"
  | NulByte => bstr "NUL byte in line"
  end.

(* keys/known_hosts.rs:187-196 Unsupported::fmt *)
Definition unsupported (e : Unsupported) : bytes :=
  match e with
  | HashedHostnames =>
      bstr "hashed host names (|1|...) are not supported by this build; rebuild with the "
      ++ bstr "`openssh-hashed-hosts` feature or list plaintext host names"
  end.

(* keys/known_hosts.rs:256-282 KnownHostsError::fmt *)
Definition known_hosts_error (e : KnownHostsError) : bytes :=
  match e with
  | FileTooLarge limit => bstr "known_hosts file exceeds " ++ show limit ++ bstr " bytes"
  | LineTooLong line limit => bstr "known_hosts line " ++ show line ++ bstr " exceeds " ++ show limit ++ bstr " bytes"
  | TooManyEntries limit => bstr "known_hosts has more than " ++ show limit ++ bstr " entries"
  | TooManyPatterns line limit =>
      bstr "known_hosts line " ++ show line ++ bstr " has more than " ++ show limit ++ bstr " host patterns"
  | MalformedLine line what => bstr "known_hosts line " ++ show line ++ bstr ": " ++ malformed what
  | UnsupportedLine line what => bstr "known_hosts line " ++ show line ++ bstr ": " ++ unsupported what
  end.

(* keys/known_hosts.rs:299-309 LookupNameError::fmt *)
Definition lookup_name_error (e : LookupNameError) : bytes :=
  match e with
  | LookupEmpty => bstr "host name for known_hosts lookup is empty"
  | InvalidCharacter => bstr "host name for known_hosts lookup contains a character that cannot appear in a host"
  | LookupTooLong => bstr "host name for known_hosts lookup is too long"
  end.

(** ** Negotiation and the handshake *)

(* tcp/negotiate.rs:220-224 Mac::as_str *)
Definition mac (m : Mac) : bytes := match m with ImplicitAead => bstr "implicit (AEAD)" end.

(* tcp/negotiate.rs:392-399 Direction::fmt *)
Definition direction (d : Direction) : bytes :=
  match d with ClientToServer => bstr "client-to-server" | ServerToClient => bstr "server-to-client" end.

(* tcp/negotiate.rs:440-458 NegotiationError::fmt *)
Definition negotiation_error (e : NegotiationError) : bytes :=
  match e with
  | NoCommonKex => bstr "no common key-exchange method"
  | NoCommonHostKey => bstr "no common host-key algorithm"
  | NoCommonCipher d => bstr "no common " ++ direction d ++ bstr " cipher"
  | NoMacImplemented d => bstr "selected " ++ direction d ++ bstr " cipher is not an AEAD and no MAC is implemented"
  | NoCommonCompression d => bstr "no common " ++ direction d ++ bstr " compression algorithm"
  | UnsupportedSelection field name => bstr "selected `" ++ name ++ bstr "` in " ++ bstr field ++ bstr " is not implemented"
  end.

(* tcp/gcm.rs:83-90 SealError::fmt *)
Definition seal_error (e : SealError) : bytes :=
  match e with
  | SealPayloadTooLarge => bstr "payload too large to frame"
  | SealCounterExhausted => bstr "AEAD invocation counter exhausted"
  end.

(* tcp/gcm.rs:130-158 OpenError::fmt *)
Definition open_error (e : OpenError) : bytes :=
  match e with
  | OpenTooLarge packet_length limit =>
      bstr "protected packet_length " ++ show packet_length ++ bstr " exceeds local limit " ++ show limit
  | OpenTooSmall packet_length => bstr "protected packet_length " ++ show packet_length ++ bstr " below minimum"
  | OpenMisaligned packet_length =>
      bstr "protected packet_length " ++ show packet_length ++ bstr " not a multiple of the block size"
  | OpenBadPadding packet_length padding_length =>
      bstr "padding_length " ++ show padding_length ++ bstr " invalid for packet_length " ++ show packet_length
  | Gcm.TagMismatch => bstr "authentication tag mismatch"
  | OpenCounterExhausted => bstr "AEAD invocation counter exhausted"
  end.

(* tcp/transcript.rs:79-88 KexError::fmt *)
Definition kex_error (e : KexError) : bytes :=
  match e with
  | ServerEphemeralLength found => bstr "Q_S is " ++ show found ++ bstr " bytes, expected " ++ show X25519_LEN
  | AllZeroSharedSecret => bstr "X25519 shared secret is all zero"
  end.

(* tcp/handshake.rs:248-260 Phase::fmt *)
Definition phase (p : Phase) : bytes :=
  match p with
  | ServerIdentification => bstr "awaiting server identification"
  | ServerKexInit => bstr "awaiting server KEXINIT"
  | EcdhReply => bstr "awaiting KEX_ECDH_REPLY"
  | TrustPending => bstr "awaiting host trust decision"
  | ServerNewKeys => bstr "awaiting server NEWKEYS"
  | Service => bstr "awaiting SERVICE_ACCEPT"
  | PhFinished => bstr "finished"
  end.

(* tcp/handshake.rs:337-363 ProtocolViolation::fmt *)
Definition protocol_violation (v : ProtocolViolation) : bytes :=
  match v with
  | PvIdent e => bstr "identification: " ++ ident_error e
  | PvPacket e => bstr "packet framing: " ++ packet_error e
  | PvProtected e => bstr "protected packet: " ++ open_error e
  | PvEmptyPayload => bstr "packet with empty payload"
  | PvMessage number error => bstr "malformed " ++ msg_name number ++ bstr ": " ++ message_error error
  | PvHostKey e => bstr "host key: " ++ key_error e
  | PvKex e => bstr "key agreement: " ++ kex_error e
  | PvExtInfo e => bstr "EXT_INFO: " ++ ext_info_error e
  | PvServiceMismatch requested accepted =>
      bstr "SERVICE_ACCEPT named " ++ show (zlen accepted) ++ bstr " byte(s) of service, not the requested "
      ++ show (zlen requested) ++ bstr " byte(s)"
  | PvSeal e => bstr "sealing: " ++ seal_error e
  | PvEncode e => bstr "encoding: " ++ encode_error e
  end.

(* tcp/handshake.rs:385-397 LimitKind::fmt *)
Definition limit_kind (l : LimitKind) : bytes :=
  match l with
  | PreKexPackets limit => bstr "more than " ++ show limit ++ bstr " packets before NEWKEYS"
  | PreKexBytes limit => bstr "more than " ++ show limit ++ bstr " bytes before NEWKEYS"
  | ProtectedPackets limit => bstr "more than " ++ show limit ++ bstr " protected packets"
  end.

(** The text of a strict-KEX violation, built where it is detected; the last
    three are at lines 1105-1109, 1309-1312 and 1351-1354. *)
(* tcp/handshake.rs:1238-1252 ClientHandshake::handle_kex_message *)
Definition strict_detail (d : StrictDetail) : bytes :=
  match d with
  | SecondKexInit => bstr "second KEXINIT during the initial key exchange"
  | SecondEcdhReply => bstr "second KEX_ECDH_REPLY during the initial key exchange"
  | NewKeysBeforeReply => bstr "NEWKEYS before KEX_ECDH_REPLY"
  | UnexpectedKexMessage n =>
      bstr "unexpected key-exchange message " ++ show n ++ bstr " during the initial key exchange"
  | MessageDuringKex number => msg_name number ++ bstr " during the initial key exchange"
  | SequenceWrapped => bstr "packet sequence number wrapped before the initial key exchange completed"
  | DisconnectDuringKex reason_code =>
      bstr "SSH_MSG_DISCONNECT (reason code " ++ show reason_code ++ bstr ") during the initial key exchange"
  | KexInitNotFirst => bstr "KEXINIT was not the first packet received"
  end.

(** ** Connecting and files *)

Definition attempt_text `{Shows} `{ShowAddr A} (attempt : A * IoError) : bytes :=
  bstr "; " ++ show_addr (fst attempt) ++ bstr ": " ++ show_io (snd attempt).

(* tcp/io.rs:141-166 ConnectError::fmt *)
Definition connect_error `{N : Net} `{Shows} `{!ShowAddr Addr} (e : ConnectError) : bytes :=
  match e with
  | NoAddresses => bstr "target resolved to no addresses"
  | Resolve e => bstr "name resolution failed: " ++ show_io e
  | AllAttemptsFailed attempts =>
      bstr "all " ++ show (zlen attempts) ++ bstr " connection attempt(s) failed" ++ mjoin (map attempt_text attempts)
  | ConnectTimedOut attempts =>
      bstr "connect deadline passed after " ++ show (zlen attempts) ++ bstr " attempt(s)" ++ mjoin (map attempt_text attempts)
  end.

(** Paths and errors of the file system. *)
Class FsShows (F : Fs) : Type := {
  show_fs_path : Path -> bytes;
  show_fs_error : FacadeTrust.IoError -> bytes
}.

(** [{mode:04o}] of twelve permission bits. *)
Definition show_mode (mode : Z) : bytes :=
  map (fun k => byte_of_Z (48 + Z.shiftr mode (3 * k) mod 8)) [3; 2; 1; 0].

Section files.
Context `{F : Fs} `{!FsShows F}.

(* facade/host/files.rs:65-82 FileError::fmt *)
Definition file_error (e : FileError) : bytes :=
  match e with
  | FileIo path error => show_fs_path path ++ bstr ": " ++ show_fs_error error
  | FileTooLargeAt path limit => show_fs_path path ++ bstr ": larger than " ++ show limit ++ bstr " bytes"
  | NotRegularFile path => show_fs_path path ++ bstr ": not a regular file"
  | InsecurePermissions path mode =>
      show_fs_path path ++ bstr ": permissions " ++ show_mode mode
      ++ bstr " allow group/other access; a private key must be 0600 or stricter"
  end.

(* facade/trust.rs:163-173 TrustConfigError::fmt *)
Definition trust_config_error (e : TrustConfigError) : bytes :=
  match e with
  | ConfigFile e => bstr "cannot read known_hosts file " ++ file_error e
  | ConfigMalformed path error => show_fs_path path ++ bstr ": " ++ known_hosts_error error
  | ConfigLookupName e => lookup_name_error e
  end.
End files.

(* facade/trust.rs:102-116 trust_text *)
Definition trust_text (t : option TrustDecision) : bytes :=
  match t with
  | Some (Trusted source) =>
      match trust_source_line source with
      | Some line => bstr "trusted (known_hosts line " ++ show line ++ bstr ")"
      | None => bstr "trusted (pinned fingerprint)"
      end
  | Some (Untrusted reason) =>
      match untrusted_reason_line reason with
      | Some line => bstr "untrusted (" ++ describe reason ++ bstr "; known_hosts line " ++ show line ++ bstr ")"
      | None => bstr "untrusted (" ++ describe reason ++ bstr ")"
      end
  | None => bstr "not decided (host key not verified)"
  end.

(** ** Printable messages *)

Definition plain (t : bytes) : Prop := Forall (fun c => Text.printable c = true) t.

#[global] Instance plain_decision t : Decision (plain t).
Proof. unfold plain. apply _. Defined.

Lemma plain_app s t : plain s -> plain t -> plain (s ++ t).
Proof. intros. by apply Forall_app. Qed.

Lemma plain_nil : plain [].
Proof. constructor. Qed.

Lemma plain_join l : Forall plain l -> plain (mjoin l).
Proof. induction 1; [constructor|]. by apply plain_app. Qed.

Lemma plain_literal s : bool_decide (plain (bstr s)) = true -> plain (bstr s).
Proof. apply bool_decide_eq_true_1. Qed.

Lemma plain_show n : plain (show n).
Proof.
  unfold show. generalize 20%nat as d. intros d. revert n. induction d as [|d IH]; intros n; [constructor|].
  cbn [decimal]. apply plain_app; [by case_match; [constructor|]|]. constructor; [|constructor].
  pose proof (Z.mod_pos_bound n 10 ltac:(lia)). unfold Text.printable. rewrite u8_byte_of_Z, Z.mod_small by lia.
  apply andb_true_intro. rewrite !Z.leb_le. lia.
Qed.

Lemma plain_show_bool b : plain (show_bool b).
Proof. destruct b; by apply plain_literal. Qed.

Lemma plain_escaped bs : plain (escaped bs).
Proof.
  apply plain_app; [by apply plain_literal|]. apply plain_app; [|by apply plain_literal].
  induction bs as [|b bs IH]; [constructor|]. apply plain_app; [|done]. case_match; [|apply TextProps.hex_escape_printable].
  constructor; [|constructor]. unfold Text.printable. apply andb_true_intro.
  repeat match goal with H : (_ && _) = true |- _ => apply andb_prop in H as [? ?] end.
  rewrite !Z.leb_le in *. rewrite Z.ltb_lt in *. lia.
Qed.

Lemma plain_escape_bytes bs : plain (Text.escape_bytes bs).
Proof. apply TextProps.escape_printable. Qed.

Lemma plain_quoted bs : plain (Text.quoted bs).
Proof. apply TextProps.quoted_printable. Qed.

Create HintDb plain.
#[export] Hint Resolve plain_app plain_nil plain_show plain_show_bool plain_escaped plain_escape_bytes plain_quoted : plain.
#[export] Hint Extern 1 (plain (bstr _)) => apply plain_literal; vm_compute; reflexivity : plain.

(** A host whose printed errors, times and addresses are printable. *)
Class ShowsPlain (Sh : Shows) : Prop := {
  plain_show_io : forall e, plain (show_io e);
  plain_show_secs : forall d, plain (show_secs d)
}.

Class ShowAddrPlain {A} (Sa : ShowAddr A) : Prop := plain_show_addr : forall a : A, plain (show_addr a).
#[export] Hint Resolve plain_show_io plain_show_secs plain_show_addr : plain.

Lemma plain_connect_error `{N : Net} `{Sh : Shows, !ShowsPlain Sh} `{Sa : !ShowAddr Addr, !ShowAddrPlain Sa} e : plain (connect_error e).
Proof.
  assert (forall l : list (Addr * IoError), plain (mjoin (map attempt_text l))) as Hl.
  { intros l. apply plain_join, Forall_map, Forall_true. intros [a err]. unfold attempt_text. auto 10 with plain. }
  destruct e; unfold connect_error; auto 10 with plain.
Qed.
#[export] Hint Resolve plain_connect_error : plain.

(** The literal names an error carries. *)
Definition message_named (e : MessageError) : Prop := match e with MessageField f _ _ => plain (bstr f) | _ => True end.

Definition blob_named (e : BlobError) : Prop := match e with BlobField f _ _ => plain (bstr f) | _ => True end.

Definition key_named (e : KeyError) : Prop :=
  match e with
  | KeyBlob e => blob_named e
  | WrongLength f _ _ | NonCanonicalInteger f | ScalarTooLong f => plain (bstr f)
  | _ => True
  end.

Definition signature_named (e : SignatureError) : Prop :=
  match e with
  | SigBlob e => blob_named e
  | SigVerify (MalformedSignature e) => key_named e
  | SigVerify _ => True
  end.

Definition ext_info_named (e : ExtInfoError) : Prop := match e with ExtInfoMessage e => message_named e | _ => True end.

Definition initial_named (e : InitialError) : Prop := match e with InitMessage _ e => message_named e | _ => True end.

Definition negotiation_named (e : NegotiationError) : Prop :=
  match e with UnsupportedSelection f n => plain (bstr f) /\ plain n | _ => True end.

Definition violation_named (v : ProtocolViolation) : Prop :=
  match v with
  | PvMessage _ e => message_named e
  | PvHostKey e => key_named e
  | PvExtInfo e => ext_info_named e
  | _ => True
  end.

Definition anomaly_named (a : ProposalAnomaly) : Prop := match a with EmptyAlgorithmList n => plain (bstr n) | _ => True end.

Lemma plain_invalid_encoding e : plain (invalid_encoding e).
Proof. destruct e; cbn [invalid_encoding]; auto with plain. Qed.
#[export] Hint Resolve plain_invalid_encoding : plain.

Lemma plain_decode_error e : plain (decode_error e).
Proof. destruct e; cbn [decode_error]; auto 10 with plain. Qed.
#[export] Hint Resolve plain_decode_error : plain.

Lemma plain_encode_error e : plain (encode_error e).
Proof. destruct e; cbn [encode_error]; auto 10 with plain. Qed.
#[export] Hint Resolve plain_encode_error : plain.

Lemma plain_message_error e : message_named e -> plain (message_error e).
Proof. destruct e; cbn [message_error message_named]; auto 10 with plain. Qed.
#[export] Hint Resolve plain_message_error : plain.

Lemma plain_ext_info_error e : ext_info_named e -> plain (ext_info_error e).
Proof. destruct e; cbn [ext_info_error ext_info_named]; auto 10 with plain. Qed.
#[export] Hint Resolve plain_ext_info_error : plain.

Lemma plain_ident_error e : plain (ident_error e).
Proof. destruct e as [| | | |[]|]; cbn [ident_error invalid_identification]; auto with plain. Qed.
#[export] Hint Resolve plain_ident_error : plain.

Lemma plain_packet_error e : plain (packet_error e).
Proof. destruct e; cbn [packet_error]; auto 10 with plain. Qed.
#[export] Hint Resolve plain_packet_error : plain.

Lemma plain_input_overflow e : plain (input_overflow e).
Proof. unfold input_overflow. auto 10 with plain. Qed.
#[export] Hint Resolve plain_input_overflow : plain.

Lemma plain_msg_name n : plain (msg_name n).
Proof. unfold msg_name, Msg.name. repeat case_match; simplify_eq; auto 10 with plain. Qed.
#[export] Hint Resolve plain_msg_name : plain.

Lemma plain_initial_error e : initial_named e -> plain (initial_error e).
Proof. destruct e; cbn [initial_error initial_named]; auto 10 with plain. Qed.
#[export] Hint Resolve plain_initial_error : plain.

Lemma plain_blob_error e : blob_named e -> plain (blob_error e).
Proof. destruct e; cbn [blob_error blob_named]; auto 10 with plain. Qed.
#[export] Hint Resolve plain_blob_error : plain.

Lemma plain_key_error e : key_named e -> plain (key_error e).
Proof. destruct e; cbn [key_error key_named]; auto 10 with plain. Qed.
#[export] Hint Resolve plain_key_error : plain.

Lemma plain_signature_error e : signature_named e -> plain (signature_error e).
Proof. destruct e as [e|[]]; cbn [signature_error signature_named verify_error]; auto 10 with plain. Qed.
#[export] Hint Resolve plain_signature_error : plain.

Lemma plain_negotiation_error e : negotiation_named e -> plain (negotiation_error e).
Proof. destruct e as [| |[]|[]|[]|f n]; cbn [negotiation_error negotiation_named direction]; try (intros [? ?]); auto 10 with plain. Qed.
#[export] Hint Resolve plain_negotiation_error : plain.

Lemma plain_open_error e : plain (open_error e).
Proof. destruct e; cbn [open_error]; auto 10 with plain. Qed.
#[export] Hint Resolve plain_open_error : plain.

Lemma plain_kex_error e : plain (kex_error e).
Proof. destruct e; cbn [kex_error]; auto 10 with plain. Qed.
#[export] Hint Resolve plain_kex_error : plain.

Lemma plain_protocol_violation v : violation_named v -> plain (protocol_violation v).
Proof. destruct v as [| | | | | | | | |[]|]; cbn [protocol_violation violation_named seal_error]; auto 10 with plain. Qed.
#[export] Hint Resolve plain_protocol_violation : plain.

Lemma plain_strict_detail d : plain (strict_detail d).
Proof. destruct d; cbn [strict_detail]; auto 10 with plain. Qed.
#[export] Hint Resolve plain_strict_detail : plain.

Lemma plain_describe r : plain (describe r).
Proof. destruct r; cbn [describe]; auto with plain. Qed.
#[export] Hint Resolve plain_describe : plain.

Lemma plain_trust_text t : plain (trust_text t).
Proof. unfold trust_text. repeat case_match; auto 10 with plain. Qed.
#[export] Hint Resolve plain_trust_text : plain.

Lemma plain_phase p : plain (phase p).
Proof. destruct p; cbn [phase]; auto with plain. Qed.

Lemma plain_stage s : plain (stage s).
Proof. destruct s; cbn [stage]; auto with plain. Qed.

Lemma plain_limit_kind l : plain (limit_kind l).
Proof. destruct l; cbn [limit_kind]; auto with plain. Qed.

Lemma plain_direction d : plain (direction d).
Proof. destruct d; cbn [direction]; auto with plain. Qed.

Lemma plain_proposal_anomaly a : anomaly_named a -> plain (proposal_anomaly a).
Proof. destruct a; cbn [proposal_anomaly anomaly_named]; auto 10 with plain. Qed.

Lemma plain_ident_anomaly a : plain (ident_anomaly a).
Proof. destruct a; cbn [ident_anomaly]; auto with plain. Qed.
#[export] Hint Resolve plain_phase plain_stage plain_limit_kind plain_direction plain_proposal_anomaly plain_ident_anomaly : plain.

End Display.
