(* ===== verification/Named.v ===== *)
(** * The names in errors

    The decoders only put string literals of the source into their errors, and
    the parser of identifications only accepts printable version tokens. So
    whatever a peer sends, what reports print of it without escaping is
    printable. *)

From S2P Require Import Prelude WireError NameList Primitives Messages KexInit ExtInfo WireIdent TcpIdent Packet.
From S2P Require Import Initial Probe KeyAlgorithm HostKey HostKeyProps Negotiate Gcm Transcript Trust.
From S2P Require Import KnownHosts KnownHostsProps Text TextProps FacadeTrust Handshake Seam Drivers Display.

Import Display.

(** ** Decoders *)

(** Every error of [m] satisfies [P]. *)
Definition fails_with {S E A} (P : E -> Prop) (m : M S E A) : Prop := forall s s' e, m s = (s', Err e) -> P e.

Section fails_with.
Context {S E : Type} (P : E -> Prop).

Lemma fails_ret {A} (a : A) : fails_with (S := S) P (ret a).
Proof. by intros s s' e [=]. Qed.

Lemma fails_fail {A} e : P e -> fails_with (S := S) P (fail (A := A) e).
Proof. by intros He s s' e' [= _ <-]. Qed.

Lemma fails_bind {A B} (m : M S E A) (k : A -> M S E B) :
  fails_with P m -> (forall a, fails_with P (k a)) -> fails_with P (bind m k).
Proof.
  intros Hm Hk s s' e. unfold bind. destruct (m s) as [s1 [a|e1]] eqn:E1; [apply Hk|].
  intros [= <- <-]. by eapply Hm.
Qed.

Lemma fails_with_err {F A} (f : F -> E) (m : M S F A) : (forall e, P (f e)) -> fails_with P (with_err f m).
Proof. intros Hf s s' e. unfold with_err. destruct (m s) as [s1 [a|e1]]; intros [=]. by subst. Qed.

Lemma fails_if {A} (b : bool) (m n : M S E A) : fails_with P m -> fails_with P n -> fails_with P (if b then m else n).
Proof. by destruct b. Qed.
End fails_with.

Create HintDb named.
#[export] Hint Resolve fails_ret fails_fail fails_bind fails_if : named.
#[export] Hint Extern 1 (message_named _) => exact I : named.

Lemma fails_field {A} name (m : M Reader.t DecodeError A) :
  bool_decide (plain (bstr name)) = true -> fails_with message_named (field name m).
Proof. intros H s s' e Hm. eapply (fails_with_err message_named); [|exact Hm]. intros err. by apply plain_literal. Qed.
#[export] Hint Extern 1 (fails_with message_named (field _ _)) => apply fails_field; vm_compute; reflexivity : named.

Lemma fails_expect n : fails_with message_named (expect_message n).
Proof. unfold expect_message. apply fails_bind; [by apply fails_with_err|]. intros. auto with named. Qed.

Lemma fails_finish : fails_with message_named finish.
Proof. intros s s' e. unfold finish. destruct (Reader.finish s); intros [=]. by subst. Qed.

Lemma fails_remaining : fails_with message_named remaining.
Proof. by intros s s' e [=]. Qed.
#[export] Hint Resolve fails_expect fails_finish fails_remaining : named.

Lemma decode_named {A} (m : M Reader.t MessageError A) payload e :
  fails_with message_named m -> run_decode m payload = Err e -> message_named e.
Proof. unfold run_decode. intros Hm. destruct (m _) as [r x] eqn:E. cbn. intros ->. by eapply Hm. Qed.

(** The errors of one message's decoder. *)
Ltac decode_named := intros H; eapply decode_named; [|exact H]; repeat (apply fails_bind; [auto with named|intros]); auto with named.

Lemma ignore_named p e : Ignore.decode p = Err e -> message_named e.
Proof. decode_named. Qed.

Lemma debug_named p e : DebugMsg.decode p = Err e -> message_named e.
Proof. decode_named. Qed.

Lemma unimplemented_named p e : Unimplemented.decode p = Err e -> message_named e.
Proof. decode_named. Qed.

Lemma disconnect_named p e : Disconnect.decode p = Err e -> message_named e.
Proof. decode_named. Qed.

Lemma kexinit_named p e : KexInit.decode p = Err e -> message_named e.
Proof. decode_named. Qed.

(** ** Identification *)

Definition ident_plain (i : TcpIdentification.t) : Prop :=
  plain (TcpIdentification.protocol_version i) /\ plain (TcpIdentification.software_version i).

Lemma token_plain t : is_version_token t = true -> plain t.
Proof.
  intros [_ H]%version_token_spec. eapply Forall_impl; [exact H|]. intros b. destruct b; vm_compute; done.
Qed.

Lemma parse_identification_plain line t i : parse_identification line t = Ok i -> ident_plain i.
Proof.
  unfold parse_identification. intros (content & Hc & H)%rbind_Ok. revert H. intros (sup & _ & <-%Ok_inj)%rbind_Ok.
  assert (Identification.parse line = Ok content) as Hp by (destruct (Identification.parse line); by simplify_eq/=).
  apply ident_parse_iff in Hp. destruct content as [i pv sv c]. destruct Hp as (_ & Hf & _).
  destruct Hf as (Hpv & Hsv & _). split; by apply token_plain.
Qed.

Lemma feed_ident_plain r buf r' i n : IdentificationReader.feed r buf = (r', Ok (StepIdentification i n)) -> ident_plain i.
Proof.
  unfold IdentificationReader.feed. repeat case_match; try (by intros [=]).
  intros [= <- Hid]. revert Hid. intros (x & Hx & [= <- <-])%rbind_Ok. by eapply parse_identification_plain.
Qed.

(** ** The initial phase *)

Lemma initial_step_named r buf r' e : InitialPackets.step r buf = (r', InitError e) -> initial_named e.
Proof.
  unfold InitialPackets.step. destruct (decode_initial_packet _ _) as [[|p]|]; [by intros [=]| |by intros [= _ <-]].
  repeat (case_match; [by intros [= _ <-]|]). intros [= _ Hst]. revert Hst. unfold InitialPackets.classify.
  destruct (payload p) as [|b l]; [by intros [= <-]|].
  repeat case_match; intros [=]; subst; cbn;
    eauto using ignore_named, debug_named, unimplemented_named, disconnect_named, kexinit_named.
Qed.

Lemma zip_names {A B} (f : A * B -> Prop) `{forall x, Decision (f x)} (Q : B -> Prop) l names :
  Forall Q names -> Forall Q (map snd (filter f (zip l names))).
Proof.
  intros HQ. apply Forall_map, Forall_forall. intros [a b] [_ Hin]%list_elem_of_filter.
  apply elem_of_zip_r in Hin. by eapply Forall_forall in HQ.
Qed.

Lemma anomalies_named k payload n : Forall anomaly_named (proposal_anomalies (from_kexinit k payload n)).
Proof.
  apply Forall_app. split; [case_match; by repeat constructor|]. apply Forall_map. apply zip_names.
  apply (bool_decide_eq_true_1 (Forall (fun s => plain (bstr s)) _)). vm_compute. reflexivity.
Qed.
