(* ===== verification/ProbeReport.v ===== *)
(** * The probe command

    Models [client::probe] of crates/tatami_ssh/src/client.rs: one run from the
    connect phase to the structured report, and the text it is printed as. The
    text is the list of its lines. *)

From S2P Require Import Prelude WireError NameList Primitives Messages KexInit ExtInfo WireIdent TcpIdent Packet.
From S2P Require Import Initial Probe KeyAlgorithm HostKey HostKeyProps Negotiate Gcm Transcript Trust.
From S2P Require Import KnownHosts KnownHostsProps Text TextProps FacadeTrust Handshake Seam Drivers Display Named.

(** ** Text shared by the reports *)

Module ReportText.
Import Text Display.

(** [writeln!] appends a line and its end. *)
Definition writeln (line : bytes) : bytes := line ++ [LF].

Definition write_lines (lines : list bytes) : bytes := mjoin (map writeln lines).

(* facade/client.rs:1382-1388 target *)
Definition target (host : bytes) (port : Z) : bytes :=
  if existsb (fun b => byte_eqb b ":"%byte) host
  then bstr "[" ++ host ++ bstr "]:" ++ show port
  else host ++ bstr ":" ++ show port.

(* facade/client.rs:1392-1397 list *)
Fixpoint list_items (i : nat) (names : list bytes) : bytes :=
  match names with
  | [] => []
  | n :: rest => (if (0 <? i)%nat then bstr ", " else []) ++ escape_bytes n ++ list_items (S i) rest
  end.

(* facade/client.rs:1390-1400 list *)
Definition list_text (names : list bytes) : bytes := bstr "[" ++ list_items 0 names ++ bstr "]".

(* facade/client.rs:1364-1368 reason_suffix *)
Definition reason_suffix (code : Z) : bytes :=
  match disconnect_reason.name code with
  | Some n => bstr " (" ++ bstr n ++ bstr ")"
  | None => []
  end.

(* facade/client.rs:939-961 write_skipped *)
Definition skipped_line (m : SkippedMessage) : bytes :=
  match m with
  | SkIgnored data_len => bstr "Server SSH_MSG_IGNORE: " ++ show data_len ++ bstr " data byte(s)"
  | SkDebug always_display message language_tag =>
      bstr "Server SSH_MSG_DEBUG (always_display=" ++ show_bool always_display ++ bstr ", lang=" ++ quoted language_tag
      ++ bstr "): " ++ quoted message
  | SkUnimplemented sequence_number => bstr "Server SSH_MSG_UNIMPLEMENTED for sequence " ++ show sequence_number
  end.

(** ** Lines *)

(** The lines of a text whose every line is terminated. *)
Fixpoint lines_of (line : bytes) (t : bytes) : list bytes :=
  match t with
  | [] => []
  | b :: t => if byte_eqb b LF then line :: lines_of [] t else lines_of (line ++ [b]) t
  end.

Lemma lines_of_plain line l t : plain l -> lines_of line (l ++ LF :: t) = (line ++ l) :: lines_of [] t.
Proof.
  intros H. revert line. induction H as [|b l Hb _ IH]; intros line; [by rewrite app_nil_r|]. cbn [app lines_of].
  destruct (byte_eqb b LF) eqn:E; [by destruct b|]. by rewrite IH, <- app_assoc.
Qed.

(** A line break in the output is one the report wrote. *)
Lemma write_lines_of ls : Forall plain ls -> lines_of [] (write_lines ls) = ls.
Proof.
  induction 1 as [|l ls Hl _ IH]; [done|]. unfold write_lines. cbn [map]. change (mjoin (?x :: ?y)) with (x ++ mjoin y).
  unfold writeln at 1. rewrite <- app_assoc. cbn [app]. rewrite lines_of_plain by done. f_equal. apply IH.
Qed.

Lemma plain_list_text names : plain (list_text names).
Proof.
  unfold list_text. apply plain_app; [auto with plain|]. apply plain_app; [|auto with plain].
  generalize O as i. induction names as [|n names IH]; intros i; [constructor|]. cbn [list_items].
  apply plain_app; [case_match; auto with plain|]. auto with plain.
Qed.

Lemma plain_target host port : plain host -> plain (target host port).
Proof. intros. unfold target. case_match; auto 10 with plain. Qed.

Lemma plain_reason_suffix code : plain (reason_suffix code).
Proof. unfold reason_suffix, disconnect_reason.name. repeat case_match; simplify_eq; auto 10 with plain. Qed.

Lemma plain_skipped_line m : plain (skipped_line m).
Proof. destruct m; unfold skipped_line; auto 10 with plain. Qed.
#[export] Hint Resolve plain_list_text plain_target plain_reason_suffix plain_skipped_line : plain.

(** Proves that a concrete list of lines is printable. *)
Ltac plain_lines :=
  repeat match goal with
  | |- Forall plain [] => constructor
  | |- Forall plain (_ :: _) => apply Forall_cons; split; [auto 14 with plain|]
  end.

End ReportText.

(** ** The command *)

Module ProbeCommand.
Import Text Display ReportText ProbeDriver.

(* facade/client.rs:49-59 Options *)
Record Options : Type := mkOptions { host : bytes; port : Z; io : IoConfig; probe : ProbeConfig }.

(* facade/client.rs:64-71 Options::new *)
Definition options (host : bytes) (port : Z) : Options := mkOptions host port IoConfig_default ProbeConfig_default.

Section command.
Context `{N : Net} `{Sm : Seam} `{Sk : !Socket Sm}.

(* facade/client.rs:76-112 Completion *)
Inductive Completion : Type :=
| Complete
| ProposalWithAnomalies
| Disconnected (reason_code : Z) (description : bytes)
| Eof (stage : Stage) (pending_bytes : Z)
| TimedOut (stage : Stage)
| ProtocolError (e : InitialError)
| Io (stage : Stage) (error : IoError)
| ConnectFailed (e : ConnectError).

(* facade/client.rs:117-119 Completion::is_complete *)
Definition is_complete (c : Completion) : bool := match c with Complete => true | _ => false end.

(* facade/client.rs:125-148 Report *)
Record Report : Type := mkReport {
  rp_host : bytes;
  rp_port : Z;
  rp_peer : option SocketAddr;
  rp_local : option SocketAddr;
  rp_client_identification : option bytes;
  rp_prelude : list bytes;
  rp_server_identification : option TcpIdentification.t;
  rp_messages : list ProbeEvent;
  rp_proposal : option Proposal;
  rp_completion : Completion;
  rp_elapsed : option Z
}.

(** The report before anything happened. *)
(* facade/client.rs:162-176 run *)
Definition blank (o : Options) (c : Completion) : Report :=
  mkReport (host o) (port o) None None None [] None [] None c None.

(* facade/client.rs:207-213 fill_from_run *)
Fixpoint sort_events (events : list ProbeEvent) (prelude : list bytes) (ident : option TcpIdentification.t)
    (messages : list ProbeEvent) : list bytes * option TcpIdentification.t * list ProbeEvent :=
  match events with
  | [] => (prelude, ident, messages)
  | event :: rest =>
      match event with
      | EvPreludeLine line _ => sort_events rest (prelude ++ [line]) ident messages
      | EvServerIdentification i => sort_events rest prelude (Some i) messages
      | other => sort_events rest prelude ident (messages ++ [other])
      end
  end.

(* facade/client.rs:214-242 fill_from_run *)
Definition completion_of (e : RunEnd) : Completion * option Proposal :=
  match e with
  | EndProbe (EndProposal p) =>
      (match proposal_anomalies p with [] => Complete | _ => ProposalWithAnomalies end, Some p)
  | EndProbe (EndDisconnected reason_code description _) => (Disconnected reason_code description, None)
  | EndProbe (EndEof stage pending_bytes) => (Eof stage pending_bytes, None)
  | EndProbe (EndError e) => (ProtocolError e, None)
  | EndTimedOut stage _ => (TimedOut stage, None)
  | EndIo stage error => (Io stage error, None)
  end.

(* facade/client.rs:200-243 fill_from_run *)
Definition fill_from_run (o : Options) (r : ProbeRun) : Report :=
  let ident := ztake (Z.max (zlen (client_identification r) - 2) 0) (client_identification r) in
  let '(prelude, server, messages) := sort_events (events r) [] None [] in
  let '(completion, proposal) := completion_of (end_ r) in
  mkReport (host o) (port o) (Some (peer r)) (Some (local r)) (Some ident) prelude server messages proposal completion
    (Some (elapsed r)).

(** [attach] is the world once the stream is connected. *)
(* facade/client.rs:161-198 run *)
Definition run_command (attach : Stream -> NetWorld -> World) (fuel : nat) (o : Options) (w : NetWorld) : run Report :=
  let '(w, r) := connect (host o) (port o) (io o) w in
  match r with
  | Err e => Done (blank o (ConnectFailed e))
  | Ok stream =>
      match run_probe fuel (probe o) (io o) (attach stream w) with
      | Panics => Panics
      | Spins => Spins
      | Done (_, Err error) => Done (blank o (Io StIdentification error))
      | Done (_, Ok r) => Done (fill_from_run o r)
      end
  end.

(** ** The text *)

Context `{Sh : Shows} `{!ShowAddr Addr} `{!ShowAddr SocketAddr}.

(* facade/client.rs:437-469 completion_line *)
Definition completion_line (c : Completion) : bytes :=
  match c with
  | Complete => bstr "complete; initial server proposal received"
  | ProposalWithAnomalies => bstr "incomplete; KEXINIT decoded but contains protocol anomalies"
  | Disconnected reason_code description =>
      bstr "server disconnected; reason " ++ show reason_code ++ reason_suffix reason_code ++ bstr ": " ++ quoted description
  | Eof stage pending_bytes =>
      bstr "incomplete; connection closed by peer while " ++ Display.stage stage ++ bstr " (" ++ show pending_bytes
      ++ bstr " unparsed byte(s))"
  | TimedOut stage =>
      bstr "incomplete; deadline passed while " ++ Display.stage stage ++ bstr " (this probe does not send a client KEXINIT; "
      ++ bstr "a server that waits for it will not respond)"
  | ProtocolError e => bstr "incomplete; " ++ initial_error e
  | Io stage error =>
      bstr "incomplete; socket error while " ++ Display.stage stage ++ bstr ": " ++ show_io error
  | ConnectFailed e => bstr "not connected; " ++ connect_error e
  end.

(* facade/client.rs:417-431 write_kex_list *)
Definition kex_note (n : bytes) : list bytes :=
  let note s := [bstr "    " ++ escape_bytes n ++ bstr ": " ++ bstr s] in
  match classify_kex_name n with
  | Method => []
  | ExtInfoClient => note "client extension-negotiation marker (RFC 8308), not a method"
  | ExtInfoServer => note "server extension-negotiation marker (RFC 8308), not a method"
  | StrictKexClient => note "client strict-KEX marker (draft-ietf-sshm-strict-kex), not a method"
  | StrictKexServer => note "server strict-KEX marker (draft-ietf-sshm-strict-kex), not a method"
  end.

(* facade/client.rs:414-435 write_kex_list *)
Definition kex_lines (names : list bytes) : list bytes :=
  (bstr "  KEX algorithms, in advertised order: " ++ list_text names) :: mjoin (map kex_note names).

(* facade/client.rs:261-286 Report::write_text *)
Definition ident_lines (i : option TcpIdentification.t) : list bytes :=
  match i with
  | Some i =>
      [bstr "Server identification: " ++ escape_bytes (TcpIdentification.line i);
       bstr "  protocol version: " ++ TcpIdentification.protocol_version i ++ bstr " ("
       ++ bstr (match TcpIdentification.support i with
                | SupSsh2 => "SSH-2"
                | SupSsh2Compatibility => "SSH-2 compatibility mode"
                end) ++ bstr ")";
       bstr "  software version: " ++ TcpIdentification.software_version i] ++
      match TcpIdentification.comments i with Some c => [bstr "  comments: " ++ quoted c] | None => [] end ++
      (if bool_decide (TcpIdentification.terminator i = Lf)
       then [bstr "  note: line terminated by LF only (RFC 4253 requires CR LF)"] else [])
  | None => [bstr "Server identification: not received"]
  end.

(* facade/client.rs:288-311 Report::write_text *)
Definition message_lines (m : ProbeEvent) : list bytes :=
  match m with
  | EvIgnored data_len => [skipped_line (SkIgnored data_len)]
  | EvDebug always_display message language_tag => [skipped_line (SkDebug always_display message language_tag)]
  | EvUnimplemented sequence_number => [skipped_line (SkUnimplemented sequence_number)]
  | EvPreludeLine _ _ | EvServerIdentification _ => []
  end.

(* facade/client.rs:317-380 Report::write_text *)
Definition proposal_lines (p : Proposal) : list bytes :=
  let k := kexinit p in
  [bstr "Initial server proposal (advertised, unauthenticated):"] ++
  kex_lines (OwnedKexInit.kex_algorithms k) ++
  [bstr "  Server host-key algorithms: " ++ list_text (OwnedKexInit.server_host_key_algorithms k);
   bstr "  Ciphers client->server: " ++ list_text (OwnedKexInit.encryption_client_to_server k);
   bstr "  Ciphers server->client: " ++ list_text (OwnedKexInit.encryption_server_to_client k);
   bstr "  MACs client->server: " ++ list_text (OwnedKexInit.mac_client_to_server k);
   bstr "  MACs server->client: " ++ list_text (OwnedKexInit.mac_server_to_client k);
   bstr "  Compression client->server: " ++ list_text (OwnedKexInit.compression_client_to_server k);
   bstr "  Compression server->client: " ++ list_text (OwnedKexInit.compression_server_to_client k);
   bstr "  Languages client->server: " ++ list_text (OwnedKexInit.languages_client_to_server k);
   bstr "  Languages server->client: " ++ list_text (OwnedKexInit.languages_server_to_client k);
   bstr "  First KEX packet follows: " ++ show_bool (OwnedKexInit.first_kex_packet_follows k);
   bstr "  Reserved field: " ++ show (OwnedKexInit.reserved k)] ++
  map (fun a => bstr "  Anomaly: " ++ proposal_anomaly a) (proposal_anomalies p) ++
  (if 0 <? unexamined_bytes p
   then [bstr "  Note: " ++ show (unexamined_bytes p) ++ bstr " byte(s) received after KEXINIT were not examined"] else []).

(* facade/client.rs:249-391 Report::write_text *)
Definition text_lines (r : Report) : list bytes :=
  [bstr "Target: " ++ target (rp_host r) (rp_port r);
   match rp_peer r with
   | Some peer => bstr "Connected to: " ++ show_addr peer
   | None => bstr "Connected to: (not connected)"
   end] ++
  match rp_client_identification r with
  | Some ident => [bstr "Client identification sent: " ++ escape_bytes ident]
  | None => []
  end ++
  map (fun line => bstr "Server pre-identification line: " ++ quoted line) (rp_prelude r) ++
  ident_lines (rp_server_identification r) ++
  mjoin (map message_lines (rp_messages r)) ++
  [bstr "Observation: " ++ completion_line (rp_completion r)] ++
  match rp_proposal r with Some p => proposal_lines p | None => [] end ++
  [bstr "Key exchange: not performed";
   bstr "Server public key / fingerprint: not obtained";
   bstr "Server trust verification: not performed";
   bstr "User authentication: not attempted"] ++
  match rp_elapsed r with
  | Some e => [bstr "Elapsed after connect: " ++ show_secs e ++ bstr "s"]
  | None => []
  end.

Definition write_text (r : Report) : bytes := write_lines (text_lines r).

End command.
End ProbeCommand.
