(* ===== verification/ProbeReportProps.v ===== *)
(** * What a probe report shows

    The text of a report is made of printable lines whatever the server sends,
    and a report counts as complete exactly when the probe decoded a proposal
    without anomalies. *)

From S2P Require Import Prelude WireError NameList Primitives Messages KexInit ExtInfo WireIdent TcpIdent Packet.
From S2P Require Import Initial Probe KeyAlgorithm HostKey HostKeyProps Negotiate Gcm Transcript Trust.
From S2P Require Import KnownHosts KnownHostsProps Text TextProps FacadeTrust Handshake Seam Drivers DriversProofs Display Named ProbeReport.

Import Display ReportText ProbeDriver ProbeCommand.

(** ** Observations *)

Definition event_plain (e : ProbeEvent) : Prop := match e with EvServerIdentification i => ident_plain i | _ => True end.

(** A verdict reached after the events [evs]: a proposal is the decoding of its
    payload and comes after an identification. *)
Definition end_genuine (evs : list ProbeEvent) (e : ProbeEnd) : Prop :=
  match e with
  | EndProposal p =>
      Forall anomaly_named (proposal_anomalies p) /\
      (exists k, KexInit.decode (raw_payload p) = Ok k /\ p = from_kexinit k (raw_payload p) (unexamined_bytes p)) /\
      exists i, EvServerIdentification i ∈ evs
  | EndError e => initial_named e
  | _ => True
  end.

Definition run_end_genuine (evs : list ProbeEvent) (e : RunEnd) : Prop :=
  match e with EndProbe e => end_genuine evs e | _ => True end.

(** A probe that goes on, after the events [evs]. *)
Definition going (p : Probe.t) (evs : list ProbeEvent) : Prop :=
  (forall e, Probe.end_ p = Some e -> exists n, e = EndError (InitOverflow n)) /\
  (Probe.stage p = StInitialPackets -> exists i, EvServerIdentification i ∈ evs) /\ Forall event_plain evs.

Lemma packet_kexinit r buf r' k pl n : InitialPackets.step r buf = (r', InitKexInit k pl n) -> KexInit.decode pl = Ok k.
Proof.
  unfold InitialPackets.step. repeat case_match; try (by intros [=]). intros [= _ Hc].
  by apply classify_kexinit in Hc as (? & -> & _).
Qed.

Lemma probe_step_plain p evs p' r : going p evs -> Probe.step p = Some (p', r) ->
  match r with NeedMore => going p' evs | Event e => going p' (evs ++ [e]) | Finished e => end_genuine evs e end.
Proof.
  intros (Hend & Hseen & Hev). unfold Probe.step. destruct (Probe.end_ p) as [e|] eqn:He.
  { intros [= <- <-]. by destruct (Hend e eq_refl) as [n ->]. }
  assert (forall q ev, Probe.end_ q = Probe.end_ p -> Probe.stage q = Probe.stage p -> event_plain ev ->
    going q evs /\ going q (evs ++ [ev])) as Hgo.
  { intros q ev Hq Hs Hp. unfold going. rewrite Hq, He, Hs. split_and!; try done.
    - intros (i & Hi)%Hseen. exists i. apply elem_of_app. by left.
    - apply Forall_app. split; [done|by apply Forall_singleton]. }
  destruct (Probe.stage p) eqn:Hst; [| |done].
  - unfold Probe.step_identification. destruct (IdentificationReader.feed _ _) as [r' [[|line t n|i n]|e]] eqn:Ef.
    + intros [= <- <-]. by apply (Hgo _ (EvIgnored 0)).
    + destruct (InputBuffer.consume _ _) as [b|]; [|done]. intros [= <- <-]. by apply Hgo.
    + destruct (InputBuffer.consume _ _) as [b|]; [|done]. intros [= <- <-]. apply feed_ident_plain in Ef.
      unfold going; cbn. rewrite He. split_and!; [done|intros _; exists i; apply elem_of_app; right; constructor|]. apply Forall_app. split; [done|by apply Forall_singleton].
    + by intros [= <- <-].
  - unfold Probe.step_packet. destruct (InitialPackets.step _ _) as [pk st] eqn:Ef. cbn zeta.
    destruct st as [|m n|k pl n|d n|e].
    + intros [= <- <-]. by apply (Hgo _ (EvIgnored 0)).
    + destruct (InputBuffer.consume _ _) as [b|]; [|done]. intros [= <- <-]. apply Hgo; [done|done|by destruct m].
    + destruct (checked_sub _ _) as [u|]; [|done]. destruct (InputBuffer.consume _ _) as [b|]; [|done].
      apply packet_kexinit in Ef. pose proof (anomalies_named k pl u) as Hn. intros [= <- <-]. split; [exact Hn|].
      split; [by exists k|by apply Hseen].
    + destruct (InputBuffer.consume _ _) as [b|]; [|done]. by intros [= <- <-].
    + destruct (InputBuffer.consume _ _) as [b|]; [|done]. apply initial_step_named in Ef. by intros [= <- <-].
Qed.

Lemma feed_going p d evs : going p evs -> going (Probe.feed p d) evs.
Proof.
  intros Hp. unfold Probe.feed. case_bool_decide; [done|]. destruct (InputBuffer.push _ _) as [b [?|e]]; [exact Hp|].
  destruct Hp as (_ & _ & Hev). split_and!; [intros e' [= <-]; by eexists|done|done].
Qed.

Lemma drain_plain fuel p evs p' evs' o : going p evs -> drain fuel p evs = Done (p', evs', o) ->
  Forall event_plain evs' /\ match o with Some e => end_genuine evs' e | None => going p' evs' end.
Proof.
  revert p evs. induction fuel as [|fuel IH]; intros p evs Hp; [done|]. cbn [drain].
  destruct (Probe.step p) as [[q r]|] eqn:Hs; [|done]. pose proof (probe_step_plain p evs q r Hp Hs) as Hr. destruct r as [|e|e].
  - intros [= <- <- <-]. split; [apply Hr|done].
  - by apply IH.
  - intros [= <- <- <-]. split; [apply Hp|done].
Qed.

Section run.
Context `{N : Net} `{Sm : Seam} `{Sk : !Socket Sm}.

Lemma read_loop_plain fuel p evs deadline chunk w w' p' evs' e :
  going p evs -> read_loop fuel p evs deadline chunk w = Done (w', p', evs', e) ->
  Forall event_plain evs' /\ run_end_genuine evs' e.
Proof.
  revert p evs w. induction fuel as [|fuel IH]; intros p evs w Hp; [done|]. cbn [read_loop].
  destruct (drain _ p evs) as [[[q evs1] o]| |] eqn:Hd; [|done|done].
  destruct (drain_plain _ _ _ _ _ _ Hp Hd) as (Hev1 & Ho). destruct o as [x|]; [by intros [= _ _ <- <-]|].
  destruct (timed_read id _ deadline w) as [w1 r].
  destruct r as [|err|[[|b d]|err]]; try (by intros [= _ _ <- <-]).
  - unfold Probe.input_ended. destruct (Probe.end_ q) as [x|] eqn:Hx; intros [= _ _ <- <-]; (split; [done|]); [|done].
    by destruct (proj1 Ho x Hx) as [n ->].
  - apply IH. by apply feed_going.
  - destruct (is_timeout err); [by intros [= _ _ <- <-]|].
    destruct (kind err); try (by intros [= _ _ <- <-]). by apply IH.
Qed.

Lemma run_probe_plain fuel c io w w' r : run_probe fuel c io w = Done (w', Ok r) ->
  Forall event_plain (events r) /\ run_end_genuine (events r) (end_ r).
Proof.
  unfold run_probe. destruct (clock_now w) as [w1 started]. destruct (peer_addr w1) as [w2 [peer|]]; [|done].
  destruct (local_addr w2) as [w3 [local|]]; [|done].
  destruct (Probe.new c) as [p|] eqn:Hn; [|done].
  assert (going p []) as Hp by (revert Hn; unfold Probe.new; by intros (line & _ & <-%Ok_inj)%rbind_Ok).
  destruct (drive fuel p _ _ _) as [[[[w4 p4] evs] e]| |] eqn:Hd; [|done|done].
  destruct (clock_now (shutdown_both w4)) as [w5 now]. intros [= _ <-]. cbn. revert Hd. unfold drive.
  destruct (write_all_by _ _ _ _) as [[w6 [?|err]]| |]; [|intros [= _ _ <- <-]; by case_match|done|done].
  by apply read_loop_plain.
Qed.

(** ** Reports *)

Lemma sort_events_spec evs pre i ms : sort_events evs pre i ms =
  (pre ++ omap (fun e => match e with EvPreludeLine l _ => Some l | _ => None end) evs,
   match last (omap (fun e => match e with EvServerIdentification i => Some i | _ => None end) evs) with Some j => Some j | None => i end,
   ms ++ omap (fun e => match e with EvPreludeLine _ _ | EvServerIdentification _ => None | _ => Some e end) evs).
Proof.
  revert pre i ms. induction evs as [|e evs IH]; intros pre i ms; [by rewrite !app_nil_r|].
  destruct e as [l tm|j|n|a m l|n]; cbn [sort_events]; rewrite IH; cbn -[last]; rewrite <- ?app_assoc; try done.
  rewrite last_cons. by destruct (last _).
Qed.

(** What a report shows unescaped. *)
Record text_ok (r : Report) : Prop := {
  ok_host : plain (rp_host r);
  ok_ident : forall i, rp_server_identification r = Some i -> ident_plain i;
  ok_error : forall e, rp_completion r = ProtocolError e -> initial_named e;
  ok_anomalies : forall p, rp_proposal r = Some p -> Forall anomaly_named (proposal_anomalies p)
}.

Lemma blank_text_ok o c : plain (host o) -> (forall e, c <> ProtocolError e) -> text_ok (blank o c).
Proof. intros Hh Hc. split; cbn; [done|done| |done]. intros e ->. by destruct (Hc e). Qed.

Lemma fill_text_ok o r :
  plain (host o) -> Forall event_plain (events r) -> run_end_genuine (events r) (end_ r) -> text_ok (fill_from_run o r).
Proof.
  intros Hh Hev He. unfold fill_from_run. rewrite sort_events_spec. cbn.
  destruct (completion_of (end_ r)) as [c p] eqn:Ec. split; cbn; [done| | |].
  - intros i. destruct (last _) as [j|] eqn:Ej; [|done]. intros [= ->].
    apply last_Some_elem_of, list_elem_of_omap in Ej as (e & Hin & Heq).
    eapply Forall_forall in Hev; [|exact Hin]. by destruct e; simplify_eq.
  - intros e ->. by destruct (end_ r) as [[]| |]; simplify_eq/=; repeat case_match.
  - intros q ->. destruct (end_ r) as [[]| |]; simplify_eq/=. apply He.
Qed.

Lemma run_command_text_ok attach fuel o w r : plain (host o) -> run_command attach fuel o w = Done r -> text_ok r.
Proof.
  intros Hh. unfold run_command. destruct (connect _ _ _ w) as [w1 [stream|e]]; [|by intros [= <-]; apply blank_text_ok].
  destruct (run_probe _ _ _ _) as [[w2 [pr|e]]| |] eqn:Er; [|by intros [= <-]; apply blank_text_ok|done|done].
  intros [= <-]. apply run_probe_plain in Er as [Hev He]. by apply fill_text_ok.
Qed.

Context `{Sh : Shows, !ShowsPlain Sh} `{Sa : !ShowAddr Addr, !ShowAddrPlain Sa} `{Sb : !ShowAddr SocketAddr, !ShowAddrPlain Sb}.

Lemma plain_completion_line c : (forall e, c = ProtocolError e -> initial_named e) -> plain (completion_line c).
Proof. intros Hc. destruct c; unfold completion_line; auto 12 with plain. Qed.

Lemma kex_lines_plain names : Forall plain (kex_lines names).
Proof.
  unfold kex_lines. constructor; [auto with plain|]. apply Forall_join, Forall_map, Forall_true. intros n.
  unfold kex_note. case_match; plain_lines.
Qed.

Lemma proposal_lines_plain p : Forall anomaly_named (proposal_anomalies p) -> Forall plain (proposal_lines p).
Proof.
  intros Ha. unfold proposal_lines. cbn zeta. repeat (apply Forall_app; split).
  - plain_lines.
  - apply kex_lines_plain.
  - plain_lines.
  - apply Forall_map. eapply Forall_impl; [exact Ha|]. intros a. auto with plain.
  - case_match; plain_lines.
Qed.

Lemma text_lines_plain r : text_ok r -> Forall plain (text_lines r).
Proof.
  intros Hr. pose proof (ok_host r Hr) as Hh. unfold text_lines. repeat (apply Forall_app; split); plain_lines.
  - destruct (rp_peer r); auto with plain.
  - case_match; plain_lines.
  - apply Forall_map, Forall_true. auto with plain.
  - destruct (rp_server_identification r) as [i|] eqn:Ei; [|unfold ident_lines; plain_lines].
    destruct (ok_ident r Hr i Ei) as [Hp Hs]. unfold ident_lines. repeat (apply Forall_app; split); plain_lines.
    + destruct (TcpIdentification.support i); auto 10 with plain.
    + case_match; plain_lines.
    + case_match; plain_lines.
  - apply Forall_join, Forall_map, Forall_true. intros m. destruct m; unfold message_lines; plain_lines.
  - apply plain_app; [auto with plain|]. apply plain_completion_line, (ok_error r Hr).
  - destruct (rp_proposal r) as [p|] eqn:Ep; [|constructor]. by apply proposal_lines_plain, (ok_anomalies r Hr).
  - case_match; plain_lines.
Qed.

End run.

(** ** Properties *)

(** Whatever a server sends, the text of a probe report is made of printable
    ASCII lines, and its line breaks are exactly the ones the report writes: no
    peer can forge or break a line or reach the terminal with a control
    character. The operator's host name and what the standard library prints
    are taken to be printable. *)
Theorem probe_text_safe `{N : Net} `{Sm : Seam} `{Sk : !Socket Sm} `{Sh : Shows, !ShowsPlain Sh}
    `{Sa : !ShowAddr Addr, !ShowAddrPlain Sa} `{Sb : !ShowAddr SocketAddr, !ShowAddrPlain Sb}
    (attach : Stream -> NetWorld -> World) (fuel : nat) (o : Options) (w : NetWorld) (r : Report) :
  plain (host o) -> run_command attach fuel o w = Done r ->
  Forall plain (text_lines r) /\ lines_of [] (write_text r) = text_lines r.
Proof.
  intros Hh Hr. assert (Forall plain (text_lines r)) as Hl by (by eapply text_lines_plain, run_command_text_ok).
  split; [done|]. by apply write_lines_of.
Qed.

(** A probe report says complete exactly when it shows a proposal without
    anomalies; and then the server had sent an identification, and the proposal
    is the decoding of the KEXINIT payload the report carries, with a zero
    reserved field and no empty algorithm list. *)
Theorem probe_report_complete `{N : Net} `{Sm : Seam} `{Sk : !Socket Sm}
    (attach : Stream -> NetWorld -> World) (fuel : nat) (o : Options) (w : NetWorld) (r : Report) :
  run_command attach fuel o w = Done r ->
  (is_complete (rp_completion r) = true <-> exists p, rp_proposal r = Some p /\ proposal_anomalies p = []) /\
  (is_complete (rp_completion r) = true ->
     is_Some (rp_server_identification r) /\ is_Some (rp_peer r) /\
     exists p k, rp_proposal r = Some p /\ KexInit.decode (raw_payload p) = Ok k /\ kexinit p = kexinit_to_owned k /\
       KexInit.reserved k = 0 /\ KexInit.empty_algorithm_lists k = []).
Proof.
  unfold run_command. destruct (connect _ _ _ w) as [w1 [stream|e]]; [|intros [= <-]; split; [split; [done|by intros (? & [=] & _)]|done]].
  destruct (run_probe _ _ _ _) as [[w2 [pr|e]]| |] eqn:Er; [|intros [= <-]; split; [split; [done|by intros (? & [=] & _)]|done]|done|done].
  intros [= <-]. apply run_probe_plain in Er as [_ He]. unfold fill_from_run. rewrite sort_events_spec.
  destruct (completion_of (end_ pr)) as [c q] eqn:Ec. cbn.
  destruct (end_ pr) as [[p|rc d l|s n|e]|s n|s err]; cbn [completion_of] in Ec; injection Ec as <- <-; try (split; [split; [done|by intros (? & [=] & _)]|done]).
  destruct He as (_ & (k & Hk & Hp) & i & Hi).
  assert (proposal_anomalies p = [] <-> is_complete (match proposal_anomalies p with [] => Complete | _ => ProposalWithAnomalies end) = true)
    as Ha by (by destruct (proposal_anomalies p)).
  split; [naive_solver|]. rewrite <- Ha. intros Hn. split_and!.
  - destruct (last _) as [j|] eqn:Ej; [done|]. apply last_None in Ej.
    assert (i ∈ omap (fun e => match e with EvServerIdentification i => Some i | _ => None end) (events pr)) as Hin
      by (apply list_elem_of_omap; eauto). rewrite Ej in Hin. by apply not_elem_of_nil in Hin.
  - done.
  - exists p, k. rewrite Hp in Hn |- *. cbn in Hn |- *. apply app_nil in Hn as [Hr Hm]. split_and!; [done|done|done| |].
    + by destruct (Z.eqb_spec (KexInit.reserved k) 0).
    + by apply map_eq_nil in Hm.
Qed.

(** ** A run over a script *)

#[local] Existing Instance DriversProofs.scripted_socket.

Definition demo_shows : Shows := {| show_io _ := bstr "error"; show_secs _ := bstr "0.000" |}.

Definition demo_shows_plain : ShowsPlain demo_shows.
Proof. split; intros; apply plain_literal; reflexivity. Qed.

Definition demo_addr {A} : ShowAddr A := fun _ => bstr "127.0.0.1:22".

Definition demo_addr_plain {A} : ShowAddrPlain (@demo_addr A).
Proof. intros a. apply plain_literal. reflexivity. Qed.

(** A host with one address that accepts at once. *)
Definition demo_net : Net := {|
  NetWorld := unit;
  Addr := unit;
  Stream := unit;
  net_now w := (w, 0);
  net_resolve _ _ w := (w, Ok [tt]);
  net_connect _ _ w := (w, Ok tt)
|}.

(** A KEXINIT without anomalies, in a packet. *)
Definition demo_packet : bytes :=
  let '(out, _) := KexInit.encode kexinit_example (replicate 300 x00) in
  let payload := ztake (zlen (KexInit.image kexinit_example)) out in
  let '(out, n) := encode_initial_packet payload x00 (replicate 400 x00) in
  match n with Ok n => ztake n out | Err _ => [] end.

(** A server that tries to clear the screen and to forge a line first. *)
Definition hostile_server : Scripted.t :=
  Scripted.new [Scripted.RData ([x1b] ++ bstr "[2J" ++ [CR] ++ bstr "User authentication: done" ++ [LF]);
                Scripted.RData (bstr "SSH-2.0-x" ++ [CR; LF] ++ demo_packet)] [].

Abbreviation hostile_run :=
  (run_command (N := demo_net) (Sm := Scripted.scripted_seam) (fun _ _ => hostile_server) 20 (options (bstr "h") 22) tt).

Definition hostile_line : bytes :=
  bstr "Server pre-identification line: " ++ [Text.QUOTE] ++ bstr "\x1b[2J\x0dUser authentication: done" ++ [Text.QUOTE].

#[local] Existing Instances demo_shows demo_shows_plain demo_addr_plain.
#[local] Instance demo_peer : ShowAddr (@SocketAddr _ DriversProofs.scripted_socket) := demo_addr.
#[local] Instance demo_target : ShowAddr (@Addr demo_net) := demo_addr.

Lemma probe_text_safe_witness :
  match hostile_run with
  | Done r => text_lines r !! 3%nat = Some hostile_line /\ lines_of [] (write_text r) = text_lines r
  | _ => False
  end.
Proof.
  assert (match hostile_run with Done r => text_lines r !! 3%nat = Some hostile_line | _ => False end) as Hl
    by (vm_compute; reflexivity).
  destruct hostile_run as [r| |] eqn:E; [|exact Hl|exact Hl]. split; [exact Hl|].
  exact (proj2 (probe_text_safe (Sb := demo_peer) (Sa := demo_target) _ 20 (options (bstr "h") 22) tt r
    (plain_literal "h" eq_refl) E)).
Defined.

Lemma probe_report_complete_witness :
  match hostile_run with
  | Done r => is_complete (rp_completion r) = true /\ is_Some (rp_server_identification r)
  | _ => False
  end.
Proof.
  assert (match hostile_run with Done r => is_complete (rp_completion r) = true | _ => False end) as Hl
    by (vm_compute; reflexivity).
  destruct hostile_run as [r| |] eqn:E; [|exact Hl|exact Hl]. split; [exact Hl|].
  exact (proj1 (proj2 (probe_report_complete _ _ _ _ r E) Hl)).
Defined.
