(* ===== verification/Records.v ===== *)
(** * The observer's records

    Models [server::observe] of crates/tatami_ssh/src/server.rs: the JSON record
    of every listener event, its truncation, and the sink of
    [Prepared::run_jsonl] that writes one line for each. The wall clock and the
    output are parameters; a string of the model is its UTF-8 bytes. *)

From S2P Require Import Prelude WireError NameList Primitives Messages KexInit ExtInfo WireIdent TcpIdent Packet.
From S2P Require Import Initial Probe Observer KeyAlgorithm HostKey HostKeyProps Negotiate Gcm Transcript Trust.
From S2P Require Import KnownHosts KnownHostsProps Text TextProps FacadeTrust Handshake Seam Drivers Listener.
From S2P Require Import Calendar Utf8 Display.

Module Records.
Import Json Utf8 Calendar ObserverDriver Run.

(** ** Values *)

(** A [String] and a literal, as values. *)
Definition text (s : bytes) : Value := Str (from_utf8_lossy s).

Definition lit (s : string) : Value := Str (chars s).

(* facade/json.rs:69-71 Value::object *)
Definition object : list (str * Value) := [].

(* facade/server.rs:68-68 SCHEMA_VERSION *)
Definition SCHEMA_VERSION : Z := 1.

(* facade/server.rs:530-533 bounded_text *)
Definition bounded_text (bs : bytes) (max : Z) : Value * bool :=
  let n := Z.min (zlen bs) max in (text (ztake n bs), n <? zlen bs).

(* facade/server.rs:535-538 bounded_hex *)
Definition bounded_hex (bs : bytes) (max : Z) : Value * bool :=
  let n := Z.min (zlen bs) max in (hex (ztake n bs), n <? zlen bs).

(** Durations are in nanoseconds. *)
(* facade/server.rs:540-542 millis *)
Definition millis (d : Z) : Z := Z.min (d / 1000000) U64_MAX.

(* facade/server.rs:520-528 io_kind_code *)
Definition io_kind_code (k : ErrorKind) : string :=
  match k with
  | ConnectionReset => "connection_reset"
  | ConnectionAborted => "connection_aborted"
  | BrokenPipe => "broken_pipe"
  | TimedOut => "timed_out"
  | _ => "io_other"
  end.

(* facade/server.rs:282-302 identification_record *)
Definition identification_record (i : TcpIdentification.t) (max_field : Z) : Value :=
  let '(line_hex, line_trunc) := bounded_hex (TcpIdentification.line i) max_field in
  let obj := object in
  let obj := field obj (chars "line") (text (TcpIdentification.line i)) in
  let obj := field obj (chars "line_hex") line_hex in
  let obj := field obj (chars "protocol_version") (text (TcpIdentification.protocol_version i)) in
  let obj := field obj (chars "software_version") (text (TcpIdentification.software_version i)) in
  let obj := opt obj (chars "comments") (text <$> TcpIdentification.comments i) in
  let obj := field obj (chars "terminator") (lit (match TcpIdentification.terminator i with CrLf => "crlf" | Lf => "lf" end)) in
  let obj := field obj (chars "anomalies") (strings (map (fun a => chars (Display.ident_anomaly_code a)) (anomalies i))) in
  let obj := if line_trunc then field obj (chars "line_hex_truncated") (Bool true) else obj in
  build obj.

(* facade/server.rs:304-329 message_record *)
Definition message_record (max_field : Z) (m : SkippedMessage) : Value :=
  match m with
  | SkIgnored data_len =>
      let obj := field object (chars "type") (lit "ignore") in
      build (field obj (chars "data_len") (UInt data_len))
  | SkDebug always_display message language_tag =>
      let '(t, text_trunc) := bounded_text message max_field in
      let obj := field object (chars "type") (lit "debug") in
      let obj := field obj (chars "always_display") (Bool always_display) in
      let obj := field obj (chars "message") t in
      let obj := field obj (chars "message_truncated") (Bool text_trunc) in
      build (field obj (chars "language_tag") (fst (bounded_text language_tag max_field)))
  | SkUnimplemented sequence_number =>
      let obj := field object (chars "type") (lit "unimplemented") in
      build (field obj (chars "sequence_number") (UInt sequence_number))
  end.

(* facade/server.rs:336-351 proposal_record *)
Definition kex_marker (n : bytes) : option Value :=
  let marker kind := Some (build (field (field object (chars "name") (text n)) (chars "kind") (lit kind))) in
  match classify_kex_name n with
  | Method => None
  | ExtInfoClient => marker "ext_info_client"
  | ExtInfoServer => marker "ext_info_server"
  | StrictKexClient => marker "strict_kex_client"
  | StrictKexServer => marker "strict_kex_server"
  end.

Definition name_values (names : list bytes) : Value := strings (map from_utf8_lossy names).

(* facade/server.rs:331-405 proposal_record *)
Definition proposal_record (p : Proposal) : Value :=
  let k := kexinit p in
  let markers := omap kex_marker (OwnedKexInit.kex_algorithms k) in
  let obj := object in
  let obj := field obj (chars "role") (lit "client") in
  let obj := field obj (chars "cookie_hex") (hex (OwnedKexInit.cookie k)) in
  let obj := field obj (chars "kex_algorithms") (name_values (OwnedKexInit.kex_algorithms k)) in
  let obj := field obj (chars "kex_markers") (Array markers) in
  let obj := field obj (chars "server_host_key_algorithms") (name_values (OwnedKexInit.server_host_key_algorithms k)) in
  let obj := field obj (chars "encryption_client_to_server") (name_values (OwnedKexInit.encryption_client_to_server k)) in
  let obj := field obj (chars "encryption_server_to_client") (name_values (OwnedKexInit.encryption_server_to_client k)) in
  let obj := field obj (chars "mac_client_to_server") (name_values (OwnedKexInit.mac_client_to_server k)) in
  let obj := field obj (chars "mac_server_to_client") (name_values (OwnedKexInit.mac_server_to_client k)) in
  let obj := field obj (chars "compression_client_to_server") (name_values (OwnedKexInit.compression_client_to_server k)) in
  let obj := field obj (chars "compression_server_to_client") (name_values (OwnedKexInit.compression_server_to_client k)) in
  let obj := field obj (chars "languages_client_to_server") (name_values (OwnedKexInit.languages_client_to_server k)) in
  let obj := field obj (chars "languages_server_to_client") (name_values (OwnedKexInit.languages_server_to_client k)) in
  let obj := field obj (chars "first_kex_packet_follows") (Bool (OwnedKexInit.first_kex_packet_follows k)) in
  let obj := field obj (chars "reserved") (UInt (OwnedKexInit.reserved k)) in
  let obj := field obj (chars "anomalies") (strings (map (fun a => chars (anomaly_code a)) (proposal_anomalies p))) in
  let obj := field obj (chars "payload_len") (UInt (zlen (raw_payload p))) in
  let obj := field obj (chars "unexamined_bytes") (UInt (unexamined_bytes p)) in
  build obj.

Section records.
Context `{Sh : Display.Shows}.

(* facade/server.rs:408-518 end_fields *)
Definition end_fields (e : ObservationEnd) (max_field : Z) : string * option bytes * bytes * option Value :=
  match e with
  | EndObserver o =>
      match o with
      | OoBannerOnly => (observation_code o, None, bstr "client identification received; banner-only mode", None)
      | OoProposal p =>
          (observation_code o, None,
           match proposal_anomalies p with
           | [] => bstr "client identification and initial KEXINIT received"
           | _ => bstr "KEXINIT decoded with anomalies; see proposal.anomalies"
           end, None)
      | OoDisconnected reason_code description language_tag =>
          let '(t, trunc) := bounded_text description max_field in
          (observation_code o, Some (bstr "disconnect_" ++ Display.show reason_code),
           bstr "client sent SSH_MSG_DISCONNECT" ++
           match disconnect_reason.name reason_code with Some n => bstr " (" ++ bstr n ++ bstr ")" | None => [] end,
           Some (
             let obj := field object (chars "reason_code") (UInt reason_code) in
             let obj := opt obj (chars "reason_name") (lit <$> disconnect_reason.name reason_code) in
             let obj := field obj (chars "description") t in
             let obj := field obj (chars "description_truncated") (Bool trunc) in
             build (field obj (chars "language_tag") (fst (bounded_text language_tag max_field)))))
      | OoUnexpectedInput sample truncated =>
          let '(h, hex_trunc) := bounded_hex sample max_field in
          (observation_code o, Some (bstr "not_ssh_identification"),
           bstr "first bytes did not begin an SSH identification",
           Some (
             let obj := field object (chars "sample") (fst (bounded_text sample max_field)) in
             let obj := field obj (chars "sample_hex") h in
             let obj := field obj (chars "sample_len") (UInt (zlen sample)) in
             build (field obj (chars "sample_truncated") (Bool (truncated || hex_trunc)))))
      | OoEof stage pending_bytes =>
          (observation_code o,
           Some (if pending_bytes =? 0 then bstr "eof_at_boundary" else bstr "eof_truncated"),
           bstr "peer closed while " ++ Display.observer_stage stage,
           Some (build (field object (chars "pending_bytes") (UInt pending_bytes))))
      | OoError e => (observation_code o, Some (bstr (initial_error_code e)), Display.initial_error e, None)
      end
  | EndTimedOut =>
      (end_code e, Some (bstr "connection_deadline"),
       bstr "connection deadline passed (this observer sends no server KEXINIT; a client waiting for it will time out here)",
       None)
  | EndShutdown =>
      (end_code e, Some (bstr "listener_stopping"), bstr "listener stopped while the connection was active", None)
  | EndIo err => (end_code e, Some (bstr (io_kind_code (kind err))), bstr "socket error: " ++ Display.show_io err, None)
  end.

(** ** Records *)

(** [SystemTime::now], in nanoseconds from the Unix epoch, and what a sink's
    error prints as. *)
Context {A E W : Type} `{!Display.ShowAddr A}.
Context (system_now : W -> W * Z) (show_sink : E -> bytes).

(* facade/server.rs:544-550 now_rfc3339 *)
Definition now_rfc3339 (w : W) : W * str :=
  let '(w, t) := system_now w in (w, rfc3339 (Z.max 0 t)).

(* facade/server.rs:201-206 envelope *)
Definition envelope (event : string) (w : W) : W * list (str * Value) :=
  let '(w, time) := now_rfc3339 w in
  (w, field (field (field object (chars "schema") (UInt SCHEMA_VERSION)) (chars "event") (lit event)) (chars "time") (Str time)).

Definition run_error (e : RunError E) : bytes :=
  match e with FromSink e => show_sink e | FromAccept e => Display.show_io e end.

(* facade/server.rs:210-222 summary_record *)
Definition summary_record (s : Summary A E) (w : W) : W * Value :=
  let '(w, obj) := envelope "listener_stopped" w in
  let obj := field obj (chars "bound") (text (Display.show_addr (sm_bound s))) in
  let obj := field obj (chars "reason") (lit (stop_code (sm_reason s))) in
  let obj := field obj (chars "accepted") (UInt (sm_accepted s)) in
  let obj := field obj (chars "observed") (UInt (sm_observed s)) in
  let obj := field obj (chars "dropped_at_capacity") (UInt (sm_dropped_at_capacity s)) in
  let obj := field obj (chars "records_dropped") (UInt (sm_records_dropped s)) in
  let obj := field obj (chars "workers_abandoned") (UInt (sm_workers_abandoned s)) in
  let obj := field obj (chars "elapsed_ms") (UInt (millis (sm_elapsed s))) in
  let obj := opt obj (chars "error") ((fun e => text (run_error e)) <$> sm_error s) in
  (w, build obj).

(* facade/server.rs:233-280 observation_record *)
Definition observation_record (o : Observation A) (max_field : Z) (truncated : bool) (w : W) : W * Value :=
  let '(outcome, reason, detail, diagnostics) := end_fields (end_ o) max_field in
  let '(w, obj) := envelope "connection_observation" w in
  let obj := field obj (chars "id") (UInt (id o)) in
  let obj := field obj (chars "transport") (lit "tcp") in
  let obj := field obj (chars "local_addr") (text (Display.show_addr (local o))) in
  let obj := field obj (chars "peer_addr") (text (Display.show_addr (peer o))) in
  let obj := field obj (chars "accepted_at") (Str (rfc3339 (accepted_unix o))) in
  let obj := field obj (chars "elapsed_ms") (UInt (millis (elapsed o))) in
  let obj := field obj (chars "bytes_read") (UInt (bytes_read o)) in
  let obj := field obj (chars "bytes_written") (UInt (bytes_written o)) in
  let obj := field obj (chars "server_identification") (text (server_identification o)) in
  let obj := opt obj (chars "client_identification")
    ((fun i => identification_record i max_field) <$> client_identification o) in
  let obj :=
    if truncated then field (field obj (chars "messages") (Array [])) (chars "proposal") Null
    else opt (field obj (chars "messages") (Array (map (message_record max_field) (messages o))))
           (chars "proposal") (proposal_record <$> proposal o) in
  let obj := field obj (chars "stage") (lit (observer_stage_code (stage o))) in
  let obj := field obj (chars "outcome") (lit outcome) in
  let obj := opt obj (chars "reason") (text <$> reason) in
  let obj := field obj (chars "detail") (text detail) in
  let obj := opt obj (chars "diagnostics") diagnostics in
  let obj := field obj (chars "key_exchange_completed") (Bool false) in
  let obj := field obj (chars "peer_authenticated") (Bool false) in
  let obj := field obj (chars "record_truncated") (Bool truncated) in
  (w, build obj).

(* facade/server.rs:165-170 Encoder *)
Record Encoder : Type := mkEncoder { max_record_bytes : Z; max_field_bytes : Z }.

(* facade/server.rs:176-198 Encoder::encode *)
Definition encode (self : Encoder) (event : ListenerEvent A E) (w : W) : W * Value :=
  match event with
  | Started bound =>
      let '(w, obj) := envelope "listener_started" w in
      (w, build (field obj (chars "bound") (text (Display.show_addr bound))))
  | Overload dropped_since_last total_dropped =>
      let '(w, obj) := envelope "overload" w in
      let obj := field obj (chars "dropped_since_last") (UInt dropped_since_last) in
      (w, build (field obj (chars "total_dropped") (UInt total_dropped)))
  | Stopped s => summary_record s w
  | ObservationEvent o =>
      let '(w, full) := observation_record o (max_field_bytes self) false w in
      if zlen (as_bytes (to_json full)) <=? max_record_bytes self then (w, full)
      else observation_record o (max_field_bytes self) true w
  end.

(** ** The sink *)

(** The output; an error of it is an [io::Error]. *)
Context (write_all : bytes -> W -> W * result unit IoError) (flush : W -> W * result unit IoError).

(* facade/server.rs:147-153 Prepared::run_jsonl *)
Definition jsonl_sink (self : Encoder) (event : ListenerEvent A E) (w : W) : W * result unit IoError :=
  let '(w, v) := encode self event w in
  let line := to_json v ++ [10] in
  let '(w, r) := write_all (as_bytes line) w in
  match r with
  | Err e => (w, Err e)
  | Ok _ =>
      let '(w, r) := flush w in
      match r with Err e => (w, Err e) | Ok _ => (w, Ok tt) end
  end.

End records.

(** ** Options *)

(* facade/server.rs:72-79 Options *)
Record Options {A : Type} : Type := mkOptions { opt_listener : ListenerConfig A; opt_max_record_bytes : Z; opt_max_field_bytes : Z }.
Arguments Options : clear implicits.
Arguments mkOptions {A}.

(* facade/server.rs:82-88 Options::default *)
Definition Options_default {A} (any : A) : Options A := mkOptions (ListenerConfig_default any) (256 * 1024) 512.

(* facade/server.rs:94-100 Options::banner_only *)
Definition banner_only {A} (self : Options A) (on : bool) : Options A :=
  let l := opt_listener self in
  let o := cfg_observer l in
  let observer := mkObserverConfig (obs_software_version o) (obs_initial o) on (cfg_unexpected_sample o)
    (obs_max_identification_line o) in
  mkOptions
    (mkListenerConfig A (bind_addr l) (max_concurrent l) (connection_timeout l) (max_connections l) (run_for l) observer
       (cfg_read_chunk l) (pending_records l) (shutdown_grace l) (poll_interval l) (overload_report_interval l))
    (opt_max_record_bytes self) (opt_max_field_bytes self).

(* facade/server.rs:158-161 prepare *)
Definition prepare `{BindOs A} (addable : Z -> bool) (options : Options A) : result (Listener * Options A) BindError :=
  let? listener := bind addable (opt_listener options) in Ok (listener, options).

(* facade/server.rs:142-146 Prepared::run_jsonl *)
Definition encoder_of {A} (options : Options A) : Encoder :=
  mkEncoder (opt_max_record_bytes options) (opt_max_field_bytes options).

End Records.
