(* ===== verification/RecordsProps.v ===== *)
(** * What the observer's log holds

    The log of an observer run is JSON Lines: whatever clients send, each line
    is one record, and reading the file back gives the records of the events
    the listener delivered, in order. Byte evidence in a record is exact up to
    the field bound and flagged beyond it. *)

From S2P Require Import Prelude WireError NameList Primitives Messages KexInit ExtInfo WireIdent TcpIdent Packet.
From S2P Require Import Initial Probe Observer KeyAlgorithm HostKey HostKeyProps Negotiate Gcm Transcript Trust.
From S2P Require Import KnownHosts KnownHostsProps Text TextProps FacadeTrust Handshake Seam Drivers DriversProofs ObserverRun.
From S2P Require Import Listener ListenerProofs ListenerProps Calendar Utf8 Display ProbeReport Records.

Import Json Utf8 Calendar ObserverDriver Run Records.

(** ** Well-formed records *)

Definition u64 (n : Z) : Prop := 0 <= n <= U64_MAX.

(** Values of records: unsigned integers of 64 bits and strings of scalars. *)
Fixpoint good (v : Value) : Prop :=
  match v with
  | Null | Bool _ => True
  | UInt n => 0 <= n <= U64_MAX
  | Int _ => False
  | Str s => Forall scalar s
  | Array l => foldr and True (map good l)
  | Object l => foldr and True (map (fun kv => Forall scalar (fst kv) /\ good (snd kv)) l)
  end.

Definition good_fields (l : list (str * Value)) : Prop := good (Object l).

Lemma foldr_and {B} (P : B -> Prop) l : foldr and True (map P l) <-> Forall P l.
Proof. induction l as [|x l IH]; cbn; [by split|]. rewrite Forall_cons, IH. done. Qed.

Lemma good_fields_app l k : good_fields (l ++ k) <-> good_fields l /\ good_fields k.
Proof. unfold good_fields. cbn [good]. rewrite !(foldr_and (fun kv => Forall scalar (fst kv) /\ good (snd kv))). apply Forall_app. Qed.

Lemma scalar_u8 l : Forall scalar (map u8 l).
Proof. apply Forall_map, Forall_forall. intros b _. pose proof (u8_range b). unfold scalar. lia. Qed.

Lemma good_text s : good (text s). Proof. apply lossy_scalar. Qed.
Lemma good_lit s : good (lit s). Proof. apply scalar_u8. Qed.
Lemma good_hex s : good (hex s). Proof. apply scalar_u8. Qed.
Lemma good_bool b : good (Bool b). Proof. done. Qed.
Lemma good_null : good Null. Proof. done. Qed.
Lemma good_uint n : u64 n -> good (UInt n). Proof. done. Qed.

Lemma good_strings l : Forall (Forall scalar) l -> good (strings l).
Proof. intros H. unfold strings. cbn [good]. rewrite foldr_and, Forall_map. done. Qed.

Lemma good_name_values l : good (name_values l).
Proof. apply good_strings, Forall_map, Forall_forall. intros. apply lossy_scalar. Qed.

Lemma good_codes {B} (f : B -> string) l : good (strings (map (fun a => chars (f a)) l)).
Proof. apply good_strings, Forall_map, Forall_forall. intros. apply scalar_u8. Qed.

Lemma good_array l : Forall good l -> good (Array l).
Proof. cbn [good]. by rewrite foldr_and. Qed.

Lemma good_field l k v : good_fields l -> good v -> good_fields (field l (chars k) v).
Proof. intros. unfold field. rewrite good_fields_app. split; [done|]. split; [split; [apply scalar_u8|done]|done]. Qed.

Lemma good_opt l k v : good_fields l -> from_option good True v -> good_fields (opt l (chars k) v).
Proof. intros Hl Hv. destruct v as [x|]; by apply good_field. Qed.

Lemma good_some {B} (f : B -> Value) v : (forall x, v = Some x -> good (f x)) -> from_option good True (f <$> v).
Proof. destruct v as [x|]; cbn; [|done]. intros H. by apply H. Qed.

Lemma good_some_text v : from_option good True (text <$> v).
Proof. apply good_some. intros. apply good_text. Qed.

Lemma good_object : good_fields object. Proof. done. Qed.

Lemma good_build l : good_fields l -> good (build l). Proof. done. Qed.

Lemma padded_scalar w n : Forall scalar (padded w n).
Proof. unfold padded. cbn zeta. apply Forall_app. split; [|apply scalar_u8]. apply Forall_replicate. unfold scalar. lia. Qed.

Lemma good_rfc3339 t : good (Str (rfc3339 t)).
Proof.
  cbn [good]. unfold rfc3339. destruct (civil_from_days _) as [[y m] d]. 
  repeat first [apply padded_scalar | apply scalar_u8 | apply Forall_app; split].
Qed.

Lemma good_millis d : 0 <= d -> good (UInt (millis d)).
Proof. intros H. cbn [good]. unfold millis. pose proof (Z.div_pos d 1000000 H ltac:(lia)). unfold U64_MAX. lia. Qed.

Create HintDb good.
#[export] Hint Resolve good_text good_lit good_hex good_bool good_null good_name_values good_codes good_field good_opt good_some_text good_object
  good_build good_rfc3339 good_millis good_uint : good.

(** ** Fields of the types *)

(** The integers of an event are those its types can hold. *)
Definition typed_message (m : SkippedMessage) : Prop :=
  match m with SkIgnored n | SkUnimplemented n => u64 n | SkDebug _ _ _ => True end.

Definition typed_proposal (p : Proposal) : Prop :=
  u64 (OwnedKexInit.reserved (kexinit p)) /\ u64 (zlen (raw_payload p)) /\ u64 (unexamined_bytes p).

Definition typed_end (e : ObservationEnd) : Prop :=
  match e with
  | EndObserver (OoDisconnected n _ _) | EndObserver (OoEof _ n) => u64 n
  | EndObserver (OoUnexpectedInput sample _) => u64 (zlen sample)
  | _ => True
  end.

Definition typed {A E} (ev : ListenerEvent A E) : Prop :=
  match ev with
  | Started _ => True
  | Overload n m => u64 n /\ u64 m
  | Stopped s => u64 (sm_accepted s) /\ u64 (sm_observed s) /\ u64 (sm_dropped_at_capacity s) /\
      u64 (sm_records_dropped s) /\ u64 (sm_workers_abandoned s) /\ 0 <= sm_elapsed s
  | ObservationEvent o => u64 (id o) /\ u64 (bytes_read o) /\ u64 (bytes_written o) /\ 0 <= elapsed o /\
      Forall typed_message (messages o) /\ from_option typed_proposal True (proposal o) /\ typed_end (end_ o)
  end.

Lemma good_bounded_text s n : good (fst (bounded_text s n)). Proof. apply good_text. Qed.

Lemma good_identification i n : good (identification_record i n).
Proof. unfold identification_record, bounded_hex. case_match; auto 20 with good. Qed.

Lemma good_message n m : typed_message m -> good (message_record n m).
Proof. destruct m; cbn [typed_message message_record]; intros; unfold bounded_text; cbn [fst]; auto 20 with good. Qed.

Lemma good_markers l : Forall good (omap kex_marker l).
Proof.
  apply Forall_forall. intros v (n & _ & Hn)%list_elem_of_omap. unfold kex_marker in Hn.
  destruct (classify_kex_name n); simplify_eq; auto 10 with good.
Qed.

Lemma good_proposal p : typed_proposal p -> good (proposal_record p).
Proof.
  intros (H1 & H2 & H3). unfold proposal_record. pose proof (good_array _ (good_markers (OwnedKexInit.kex_algorithms (kexinit p)))).
  cbn zeta. auto 30 with good.
Qed.

Section records.
Context `{Sh : Display.Shows} {A E W : Type} `{Sa : !Display.ShowAddr A}.
Context (system_now : W -> W * Z) (show_sink : E -> bytes).

Lemma good_end_fields e n : typed_end e -> from_option good True (snd (end_fields e n)).
Proof.
  destruct e as [[]| | |]; try done; intros H; cbn [typed_end] in H; unfold end_fields, bounded_text, bounded_hex; cbn [fst snd from_option]; auto 20 with good.
  assert (from_option good True (lit <$> disconnect_reason.name reason_code)) by (apply good_some; auto with good).
  auto 20 with good.
Qed.

Lemma good_envelope s w : good_fields (snd (envelope system_now s w)).
Proof. unfold envelope, now_rfc3339. destruct (system_now w) as [w' t]. cbn [snd]. apply good_field; [|apply good_rfc3339]. apply good_field; [|auto with good]. apply good_field; [auto with good|]. cbn. unfold SCHEMA_VERSION, U64_MAX. lia. Qed.

Lemma good_observation o n b w : typed (E := E) (ObservationEvent o) -> good (snd (observation_record system_now o n b w)).
Proof.
  cbn [typed]. intros (H1 & H2 & H3 & H4 & H5 & H6 & H7). unfold observation_record.
  pose proof (good_end_fields (end_ o) n H7) as Hd. destruct (end_fields _ _) as [[[? ?] ?] ?]. cbn [snd] in Hd.
  pose proof (good_envelope "connection_observation" w) as He. destruct (envelope _ _ _) as [w' obj]. cbn [snd] in *.
  assert (from_option good True ((fun i => identification_record i n) <$> client_identification o))
    by (apply good_some; intros; apply good_identification).
  assert (good (Array (map (message_record n) (messages o)))) as Hm.
  { apply good_array, Forall_map. eapply Forall_impl; [done|]. intros. by apply good_message. }
  assert (from_option good True (proposal_record <$> proposal o)).
  { apply good_some. intros x Hx. rewrite Hx in H6. by apply good_proposal. }
  assert (good (Array [])) by done.
  destruct b; auto 40 with good.
Qed.

Lemma encode_good enc ev w : typed ev -> good (snd (encode system_now show_sink enc ev w)).
Proof.
  destruct ev as [a|o|n m|s]; cbn [encode].
  - intros _. pose proof (good_envelope "listener_started" w) as He. destruct (envelope _ _ _). cbn [snd] in *. auto with good.
  - intros H. pose proof (good_observation o (max_field_bytes enc) false w H) as Hf.
    destruct (observation_record _ _ _ _ _) as [w' full]. destruct (_ <=? _); [done|]. by apply good_observation.
  - intros [H1 H2]. pose proof (good_envelope "overload" w) as He. destruct (envelope _ _ _). cbn [snd] in *. auto with good.
  - intros (H1 & H2 & H3 & H4 & H5 & H6). unfold summary_record. pose proof (good_envelope "listener_stopped" w) as He.
    destruct (envelope _ _ _). cbn [snd] in *.
    assert (from_option good True ((fun e => text (run_error show_sink e)) <$> sm_error s)) by (apply good_some; auto with good).
    auto 40 with good.
Qed.
End records.

(** ** Reading a line back *)

Lemma scalar_ascii l : Forall (fun c => 0 <= c < 128) l -> Forall scalar l.
Proof. intros H. eapply Forall_impl; [done|]. unfold scalar. lia. Qed.

(** Concrete ASCII characters. *)
Ltac ascii_scalar := apply scalar_ascii; repeat (apply Forall_cons; split; [lia|]); apply Forall_nil; exact I.

Lemma scalar_join {B} (g : B -> str) l : Forall (fun x => Forall scalar (g x)) l -> Forall scalar (mjoin (map g l)).
Proof. induction 1 as [|x l Hx _ IH]; [constructor|]. cbn [map]. change (mjoin (?x :: ?y)) with (x ++ mjoin y). by apply Forall_app. Qed.

Lemma scalar_enclosed (l r : Z) s : 0 <= l < 128 -> 0 <= r < 128 -> Forall scalar s -> Forall scalar ([l] ++ s ++ [r]).
Proof.
  intros. apply Forall_app. split; [ascii_scalar|].
  apply Forall_app. split; [done|ascii_scalar].
Qed.

Lemma scalar_write_char c : scalar c -> Forall scalar (write_char c).
Proof.
  intros Hc. unfold write_char. repeat (case_match; [apply scalar_u8 || (ascii_scalar)|]).
  case_match; [apply Forall_app; split; [ascii_scalar|apply scalar_u8]|by apply Forall_singleton].
Qed.

Lemma scalar_string_image s : Forall scalar s -> Forall scalar (string_image s).
Proof.
  intros Hs. apply scalar_enclosed; [lia|lia|]. apply scalar_join. eapply Forall_impl; [done|]. apply scalar_write_char.
Qed.

Lemma scalar_commas l : Forall (Forall scalar) l -> Forall scalar (commas l).
Proof.
  intros [|x k Hx Hk]; [constructor|]. cbn [commas]. apply Forall_app. split; [done|]. apply scalar_join.
  eapply Forall_impl; [done|]. intros y Hy. constructor; [unfold scalar; lia|done].
Qed.

Lemma Forall_both {B} (P Q R : B -> Prop) l : Forall P l -> Forall Q l -> (forall x, P x -> Q x -> R x) -> Forall R l.
Proof. intros HP HQ H. apply Forall_forall. intros x Hx. eapply Forall_forall in HP, HQ; eauto. Qed.

Lemma good_image v : good v -> Forall scalar (image v).
Proof.
  induction v as [|b|n|n|s|l IH|l IH] using value_ind; cbn [good image]; intros H; try done; try apply scalar_u8.
  - by apply scalar_string_image.
  - rewrite foldr_and in H. apply scalar_enclosed; [lia|lia|]. apply scalar_commas, Forall_map.
    apply (Forall_both _ _ _ _ IH H). naive_solver.
  - rewrite (foldr_and (fun kv => Forall scalar (fst kv) /\ good (snd kv))) in H. apply scalar_enclosed; [lia|lia|].
    apply scalar_commas, Forall_map. apply (Forall_both _ _ _ _ IH H). intros kv ? (? & ?).
    apply Forall_app. split; [by apply scalar_string_image|]. constructor; [unfold scalar; lia|auto].
Qed.

Lemma good_value_ok v : good v -> value_ok v.
Proof.
  induction v as [|b|n|n|s|l IH|l IH] using value_ind; cbn [good value_ok]; intros H; try done.
  - by apply scalar_char_ok.
  - rewrite foldr_and in *. apply (Forall_both _ _ _ _ IH H). naive_solver.
  - rewrite (foldr_and (fun kv => Forall scalar (fst kv) /\ good (snd kv))) in H.
    rewrite (foldr_and (fun kv => Forall char_ok (fst kv) /\ value_ok (snd kv))).
    apply (Forall_both _ _ _ _ IH H). intros kv ? (? & ?). split; [by apply scalar_char_ok|auto].
Qed.

Lemma good_canonical v : good v -> canonical v = v.
Proof.
  induction v as [|b|n|n|s|l IH|l IH] using value_ind; cbn [good canonical]; intros H; try done; f_equal.
  - rewrite foldr_and in H. rewrite <- (map_id l) at 2. apply map_ext_Forall.
    apply (Forall_both _ _ _ _ IH H). naive_solver.
  - rewrite (foldr_and (fun kv => Forall scalar (fst kv) /\ good (snd kv))) in H. rewrite <- (map_id l) at 2. apply map_ext_Forall.
    apply (Forall_both _ _ _ _ IH H). intros [k v] Hc (_ & Hv). cbn in *. by rewrite Hc.
Qed.

(** A line of a log, read as JSON. *)
Definition read_line (line : bytes) : option Value :=
  match parse_json (from_utf8_lossy line) with Some (v, []) => Some v | _ => None end.

(** The records of a log: its terminated lines. *)
Definition read_log (log : bytes) : list (option Value) := map read_line (ReportText.lines_of [] log).

Definition unbroken (l : bytes) : Prop := Forall (fun b => b <> LF) l.

Lemma encode_char_unbroken c : scalar c -> 0x20 <= c -> unbroken (encode_char c).
Proof.
  intros Hs Hc. assert (forall z, 0x20 <= z <= 255 -> byte_of_Z z <> LF) as Hb.
  { intros z Hz He. apply (f_equal u8) in He. rewrite u8_of in He by lia. cbn in He. lia. }
  unfold encode_char, scalar in *.
  repeat (case_match; [repeat constructor; apply Hb; Z.to_euclidean_division_equations; lia|]).
  repeat constructor; apply Hb; Z.to_euclidean_division_equations; lia.
Qed.

Lemma to_json_image v : to_json v = image v.
Proof. unfold to_json. by rewrite write_image. Qed.

Lemma json_unbroken v : good v -> unbroken (as_bytes (to_json v)).
Proof.
  intros Hg. rewrite to_json_image. pose proof (good_image v Hg) as Hs. pose proof (image_visible v (good_value_ok v Hg)) as Hv.
  revert Hs Hv. generalize (image v) as s. induction s as [|c s IH]; [constructor|].
  intros [Hs Hss]%Forall_cons [Hv Hvs]%Forall_cons. rewrite as_bytes_cons. apply Forall_app. split; [by apply encode_char_unbroken|].
  by apply IH.
Qed.

Lemma read_line_json v : good v -> read_line (as_bytes (to_json v)) = Some v.
Proof.
  intros Hg. unfold read_line. rewrite to_json_image, lossy_as_bytes by (by apply good_image). unfold parse_json.
  rewrite <- (app_nil_r (image v)) at 2. rewrite value_parses; [|by apply good_value_ok|by apply size_length, good_value_ok|done].
  by rewrite good_canonical.
Qed.

Lemma lines_of_unbroken line l t : unbroken l -> ReportText.lines_of line (l ++ LF :: t) = (line ++ l) :: ReportText.lines_of [] t.
Proof.
  intros H. revert line. induction H as [|b l Hb _ IH]; intros line; [by rewrite app_nil_r|]. cbn [app ReportText.lines_of].
  rewrite byte_eqb_spec, bool_decide_false by done. by rewrite IH, <- app_assoc.
Qed.

Lemma lines_of_tail line l : unbroken l -> ReportText.lines_of line l = [].
Proof. intros H. revert line. induction H as [|b l Hb _ IH]; intros line; [done|]. cbn [ReportText.lines_of]. rewrite byte_eqb_spec, bool_decide_false by done. apply IH. Qed.

(** A log is read record by record, whatever follows. *)
Lemma read_log_cons v t : good v -> read_log (as_bytes (to_json v ++ [10]) ++ t) = Some v :: read_log t.
Proof.
  intros Hg. unfold read_log. rewrite as_bytes_app, <- app_assoc. change (as_bytes [10] ++ t) with (LF :: t).
  rewrite lines_of_unbroken by (by apply json_unbroken). cbn [map]. f_equal. by apply read_line_json.
Qed.

Definition log_of (vs : list Value) : bytes := mjoin (map (fun v => as_bytes (to_json v ++ [10])) vs).

Lemma read_log_of vs t : Forall good vs -> read_log (log_of vs ++ t) = map Some vs ++ read_log t.
Proof.
  induction 1 as [|v vs Hv _ IH]; [done|]. unfold log_of. cbn [map]. change (mjoin (?x :: ?y)) with (x ++ mjoin y).
  rewrite <- app_assoc, read_log_cons by done. cbn [app]. f_equal. apply IH.
Qed.

(** A part of a line is the whole line or no record. *)
Lemma read_log_partial v l : good v -> l `prefix_of` as_bytes (to_json v ++ [10]) ->
  read_log l = [] \/ read_log l = [Some v].
Proof.
  intros Hg [k Hk]. destruct k as [|b k _] using rev_ind.
  - right. rewrite app_nil_r in Hk. rewrite <- Hk, <- (app_nil_r (as_bytes _)). by rewrite read_log_cons.
  - left. rewrite as_bytes_app, (assoc_L (++)) in Hk. change (as_bytes [10]) with [LF] in Hk. apply app_inj_tail in Hk as [Hk _].
    unfold read_log. rewrite lines_of_tail; [done|]. pose proof (json_unbroken v Hg) as Hu. rewrite Hk in Hu.
    by apply Forall_app in Hu as [? _].
Qed.
