(* ===== verification/ObserverLog.v ===== *)
(** * The log of an observer run

    The listener's threads with the sink of [Prepared::run_jsonl]: at every
    point of every run, the file read back is the sequence of records the
    listener delivered. *)

From S2P Require Import Prelude WireError NameList Primitives Messages KexInit ExtInfo WireIdent TcpIdent Packet.
From S2P Require Import Initial Probe Observer KeyAlgorithm HostKey HostKeyProps Negotiate Gcm Transcript Trust.
From S2P Require Import KnownHosts KnownHostsProps Text TextProps FacadeTrust Handshake Seam Drivers DriversProofs ObserverRun.
From S2P Require Import Listener ListenerProofs ListenerProps Calendar Utf8 Display ProbeReport Records RecordsProps.

Import Json Utf8 Calendar ObserverDriver Run Records.

(** ** The output *)

(** The wall clock and the writer given to [run_jsonl]; [written] is what the
    writer has taken. *)
Class LogOut (W : Type) : Type := {
  system_now : W -> W * Z;
  write_all : bytes -> W -> W * result unit IoError;
  flush : W -> W * result unit IoError;
  written : W -> bytes
}.

(** [write_all] writes everything or fails after a part of it. *)
Class LogOutLaws (W : Type) `{LogOut W} : Prop := {
  now_keeps (w : W) : written (fst (system_now w)) = written w;
  write_all_takes (b : bytes) (w : W) :
    match write_all b w with
    | (w', Ok _) => written w' = written w ++ b
    | (w', Err _) => exists p, p `prefix_of` b /\ written w' = written w ++ p
    end;
  flush_keeps (w : W) : written (fst (flush w)) = written w
}.

Section log.
Context `{Sh : Display.Shows} {A W : Type} `{Sa : !Display.ShowAddr A} `{Ou : LogOut W} {OL : LogOutLaws W}.
Context (config : ListenerConfig A) (bound : A) (enc : Encoder).
Implicit Types (s : State A IoError) (ev : ListenerEvent A IoError) (w : W).

Definition encode_in ev w : W * Value := encode system_now Display.show_io enc ev w.

Definition sink_in ev w : W * result unit IoError := jsonl_sink system_now Display.show_io write_all flush enc ev w.

Definition line_of (v : Value) : bytes := as_bytes (to_json v ++ [10]).

(** The step calls the sink. *)
Definition calls_sink (l : @Label A IoError) s : bool :=
  match l, sink s with
  | (SinkStep _ | SinkPanic), SinkHolding _ => negb (sink_failed s)
  | _, _ => false
  end.

(** A run of the listener with its log. The other threads and the passing of
    time leave the log alone; a writer that panics may have taken a part. *)
Inductive logging_run : State A IoError -> W -> Prop :=
| log_init t b w : written w = [] -> logging_run (initial t b) w
| log_other l s s' w w' :
    logging_run s w -> label_ok config bound l s -> exec config bound l s = Some s' -> calls_sink l s = false ->
    written w' = written w -> logging_run s' w'
| log_sink ev s s' w w' r :
    logging_run s w -> sink s = SinkHolding ev -> sink_failed s = false -> sink_in ev w = (w', r) ->
    exec config bound (SinkStep r) s = Some s' -> logging_run s' w'
| log_panic ev p s s' w w' :
    logging_run s w -> sink s = SinkHolding ev -> sink_failed s = false -> exec config bound SinkPanic s = Some s' ->
    p `prefix_of` line_of (snd (encode_in ev w)) -> written w' = written w ++ p -> logging_run s' w'.

Definition sink_broken s : bool :=
  sink_failed s || match sink s with SinkFailing _ | SinkPanicked => true | _ => false end.

Definition recorded ev (v : Value) : Prop := exists w, snd (encode_in ev w) = v.

Lemma logging_reachable s w : logging_run s w -> reachable config bound s.
Proof. induction 1; [apply reach_init|..]; (eapply reach_step; [done| |done]); done. Qed.

Lemma encode_written ev w : written (fst (encode_in ev w)) = written w.
Proof.
  assert (forall k x, written (fst (envelope system_now k x)) = written x) as He.
  { intros k x. unfold envelope, now_rfc3339. pose proof (now_keeps x) as H. by destruct (system_now x). }
  assert (forall o n b x, written (fst (observation_record system_now o n b x)) = written x) as Ho.
  { intros o n b x. unfold observation_record. destruct (end_fields _ _) as [[[? ?] ?] ?].
    pose proof (He "connection_observation" x) as H. by destruct (envelope _ _ _). }
  unfold encode_in. destruct ev as [a|o|n m|x]; cbn [encode]; unfold summary_record.
  - pose proof (He "listener_started" w) as H. by destruct (envelope _ _ _).
  - pose proof (Ho o (max_field_bytes enc) false w) as H. destruct (observation_record _ _ _ _ _) as [w1 v].
    cbn in H. case_match; [done|]. by rewrite Ho.
  - pose proof (He "overload" w) as H. by destruct (envelope _ _ _).
  - pose proof (He "listener_stopped" w) as H. by destruct (envelope _ _ _).
Qed.

(** What one call of the sink does to the log. *)
Lemma sink_in_spec ev w w' r : sink_in ev w = (w', r) ->
  exists p, written w' = written w ++ p /\ p `prefix_of` line_of (snd (encode_in ev w)) /\
    (r = Ok tt -> p = line_of (snd (encode_in ev w))).
Proof.
  unfold sink_in, jsonl_sink. fold (encode_in ev w). pose proof (encode_written ev w) as Hw.
  destruct (encode_in ev w) as [w1 v]. cbn [fst snd] in *. fold (line_of v).
  pose proof (write_all_takes (line_of v) w1) as Ht. destruct (write_all (line_of v) w1) as [w2 [u|e]].
  - pose proof (flush_keeps w2) as Hf. destruct (flush w2) as [w3 [u'|e]]; intros [= <- <-]; cbn [fst] in Hf;
      exists (line_of v); (split_and!; [by rewrite Hf, Ht, Hw|done|done]).
  - intros [= <- <-]. destruct Ht as (p & Hp & Ht). exists p. split_and!; [by rewrite Ht, Hw|done|done].
Qed.

Definition log_inv s w : Prop :=
  exists evs vs tail, written w = log_of vs ++ tail /\ Forall2 recorded evs vs /\
    ((tail = [] /\ delivered s = evs) \/
     (sink_broken s = true /\ exists ev v, delivered s = evs ++ [ev] /\ recorded ev v /\ tail `prefix_of` line_of v)).

Lemma log_of_snoc vs v : log_of (vs ++ [v]) = log_of vs ++ line_of v.
Proof. unfold log_of. rewrite map_app, join_app. cbn. by rewrite app_nil_r. Qed.

(** Other steps neither deliver nor repair. *)
Lemma other_step l s s' : exec config bound l s = Some s' -> calls_sink l s = false ->
  delivered s' = delivered s /\ (sink_broken s = true -> sink_broken s' = true).
Proof.
  unfold calls_sink, sink_broken. intros He Hc.
  destruct l; step_cases He; rewrite ?orb_true_r; auto;
    match goal with H : sink_failed s = true |- _ => by rewrite H end.
Qed.

Lemma log_step s w : logging_run s w -> log_inv s w.
Proof.
  induction 1 as [t b w Hw|l s s' w w' _ IH Hl He Hc Hw|ev s s' w w' r _ IH Hs Hf Hk He|ev p s s' w w' _ IH Hs Hf He Hp Hw].
  - exists [], [], []. rewrite Hw. split_and!; [done|constructor|by left].
  - destruct IH as (evs & vs & tail & Hlog & Hr & Hcase). destruct (other_step l s s' He Hc) as [Hd Hb].
    exists evs, vs, tail. rewrite Hw, Hd. split_and!; [done..|]. naive_solver.
  - destruct IH as (evs & vs & tail & Hlog & Hr & [[-> Hd]|[Hb _]]); [|unfold sink_broken in Hb; by rewrite Hf, Hs in Hb].
    destruct (sink_in_spec ev w w' r Hk) as (p & Hw & Hp & Hok). rewrite app_nil_r in Hlog.
    cbn [exec] in He. unfold sink_step in He. rewrite Hs, Hf in He. injection He as <-.
    destruct r as [[]|e].
    + exists (evs ++ [ev]), (vs ++ [snd (encode_in ev w)]), []. rewrite Hw, (Hok eq_refl), log_of_snoc, app_nil_r, Hlog.
      split_and!; [done| |left; split; [done|]]; [|cbn; by rewrite Hd].
      apply Forall2_app; [done|]. constructor; [by exists w|constructor].
    + exists evs, vs, p. rewrite Hw, Hlog. split_and!; [done..|]. right. unfold sink_broken. cbn. rewrite Hf. split; [done|].
      exists ev, (snd (encode_in ev w)). rewrite Hd. split_and!; [done|by exists w|done].
  - destruct IH as (evs & vs & tail & Hlog & Hr & [[-> Hd]|[Hb _]]); [|unfold sink_broken in Hb; by rewrite Hf, Hs in Hb].
    rewrite app_nil_r in Hlog. cbn [exec] in He. unfold sink_panic in He. rewrite Hs, Hf in He. injection He as <-.
    exists evs, vs, p. rewrite Hw, Hlog. split_and!; [done..|]. right. unfold sink_broken. cbn. rewrite orb_true_r. split; [done|].
    exists ev, (snd (encode_in ev w)). rewrite Hd. split_and!; [done|by exists w|done].
Qed.

Lemma recorded_good ev v : typed ev -> recorded ev v -> good v.
Proof. intros Ht [w <-]. by apply encode_good. Qed.

Lemma recorded_all_good evs vs : Forall typed evs -> Forall2 recorded evs vs -> Forall good vs.
Proof. intros Ht. induction 1 as [|ev v evs vs Hr _ IH]; [constructor|]. apply Forall_cons in Ht as [Ht Hts]. constructor; [by eapply recorded_good|auto]. Qed.

(** The records delivered, as the listener's theorems describe them. *)
Lemma delivered_spec s :
  listener_ok config -> observer_config_ok (cfg_observer config) -> reachable config bound s ->
  Forall (genuine_event config bound) (delivered s) /\
  (delivered s = [] \/ exists rest, delivered s = Started bound :: rest).
Proof.
  intros Hok Hobs Hr. destruct (reachable_channel config bound Hok s Hr) as [_ Hg Ha Hd].
  destruct (reachable_records config bound Hok Hobs s Hr) as [_ _ Hq _].
  assert (delivered s `prefix_of` queued s) as [k Hk].
  { trans (taken s); [destruct (sink_failed s); [done|rewrite Hd; by eexists]|].
    destruct (sink s); try (rewrite <- Ha by done; by eexists). by apply Hg. }
  rewrite Hk in Hq. apply Forall_app in Hq as [Hq _]. split; [done|].
  pose proof (reachable_opening config bound s Hr) as Ho. unfold opening in Ho. destruct (opened _).
  - destruct Ho as (rest & Ho & _). rewrite Hk in Ho. destruct (delivered s) as [|ev d]; [by left|]. right. exists d.
    by injection Ho as <- _.
  - destruct Ho as (Ho & _). rewrite Hk in Ho. left. by apply app_eq_nil in Ho as [? _].
Qed.

(** C10: the observer's log is the truth, line by line: at every point of every
    run, whatever clients sent and however the writer fails or panics, the file
    is JSON Lines whose terminated lines read back, each as one whole record, to
    the records of the events the listener gave its sink, in order and without
    a gap, the first being the start of the run and every observation among
    them the record of observing an admitted connection; only the record during
    which the writer failed may be missing or cut short. *)
Theorem observer_log s w :
  listener_ok config -> observer_config_ok (cfg_observer config) -> logging_run s w -> Forall typed (delivered s) ->
  exists evs vs, read_log (written w) = map Some vs /\ Forall2 recorded evs vs /\
    (delivered s = evs \/ (sink_broken s = true /\ exists ev, delivered s = evs ++ [ev])) /\
    Forall (genuine_event config bound) evs /\ (evs = [] \/ exists rest, evs = Started bound :: rest).
Proof.
  intros Hok Hobs Hr Ht. destruct (delivered_spec s Hok Hobs (logging_reachable s w Hr)) as [Hg Hb].
  destruct (log_step s w Hr) as (evs & vs & tail & Hw & Hrec & [[-> Hd]|(Hbr & ev & v & Hd & Hv & Htail)]).
  - rewrite Hd in *. exists evs, vs. rewrite Hw, read_log_of by (by eapply recorded_all_good). cbn. rewrite app_nil_r.
    split_and!; auto.
  - rewrite Hd in *. apply Forall_app in Hg as [Hg1 Hg2], Ht as [Ht1 Ht2]. apply Forall_cons in Ht2 as [Ht2 _].
    pose proof (recorded_good _ _ Ht2 Hv) as Hgv. pose proof (recorded_all_good _ _ Ht1 Hrec) as Hgs.
    rewrite Hw, read_log_of by done. destruct (read_log_partial v tail Hgv Htail) as [->| ->].
    + exists evs, vs. rewrite app_nil_r. split_and!; eauto. destruct evs as [|e evs]; [by left|]. right. exists evs.
      destruct Hb as [?|[rest Hb]]; [done|]. by injection Hb as -> _.
    + exists (evs ++ [ev]), (vs ++ [v]). rewrite map_app. split_and!; auto.
      * apply Forall2_app; [done|]. by repeat constructor.
      * by apply Forall_app.
Qed.
End log.

(** ** Example runs *)

(** A disk: what was written, the room left, and the time. *)
Record Disk : Type := mkDisk { file : bytes; room : Z; wall : Z }.

Definition disk_full : IoError := mkIoError (OtherKind 28) (Some 28).

#[global] Instance disk_out : LogOut Disk := {|
  system_now d := (mkDisk (file d) (room d) (wall d + 1000000), wall d);
  write_all b d :=
    if zlen b <=? room d then (mkDisk (file d ++ b) (room d - zlen b) (wall d), Ok tt)
    else (mkDisk (file d ++ ztake (room d) b) 0 (wall d), Err disk_full);
  flush d := (d, Ok tt);
  written d := file d
|}.

#[global] Instance disk_laws : LogOutLaws Disk.
Proof.
  split; try done. intros b d. cbn. destruct (_ <=? _); [done|]. exists (ztake (room d) b). split; [|done].
  exists (zdrop (room d) b). symmetry. apply take_drop.
Qed.

Section examples.
Context `{Sh : Display.Shows} {A W : Type} `{Sa : !Display.ShowAddr A} `{Ou : LogOut W}.
Context (config : ListenerConfig A) (bound : A) (enc : Encoder).

(** The steps of a run, the sink's verdict being the writer's. *)
Definition log_exec (l : @Label A IoError) (sw : State A IoError * W) : option (State A IoError * W) :=
  let '(s, w) := sw in
  if calls_sink l s then
    match l, sink s with
    | SinkStep _, SinkHolding ev =>
        let '(w, r) := sink_in enc ev w in (fun s => (s, w)) <$> exec config bound (SinkStep r) s
    | _, _ => None
    end
  else (fun s => (s, w)) <$> exec config bound l s.

Fixpoint log_execs (ls : list (@Label A IoError)) (sw : State A IoError * W) : option (State A IoError * W) :=
  match ls with [] => Some sw | l :: ls => let* sw := log_exec l sw in log_execs ls sw end.

(** The observations of the labels are numbered as the workers they end. *)
Fixpoint log_numbered (ls : list (@Label A IoError)) (sw : State A IoError * W) : bool :=
  match ls with
  | [] => true
  | l :: ls =>
      match l with
      | WorkerStep i o => match workers (fst sw) !! i with Some w => w_id w =? id o | None => true end
      | _ => true
      end && match log_exec l sw with Some sw => log_numbered ls sw | None => true end
  end.

Lemma log_exec_run l s w s' w' :
  logging_run config bound enc s w -> label_ok config bound l s -> log_exec l (s, w) = Some (s', w') ->
  logging_run config bound enc s' w'.
Proof.
  intros Hr Hl. unfold log_exec. destruct (calls_sink l s) eqn:Hc.
  - destruct l; try done. destruct (sink s) as [|ev| | | | |] eqn:Hs; try done. unfold calls_sink in Hc. rewrite Hs in Hc.
    destruct (sink_in enc ev w) as [w1 r] eqn:Hk. intros (s1 & He & [= -> ->])%fmap_Some.
    eapply log_sink; [done..|by destruct (sink_failed s)|done|done].
  - intros (s1 & He & [= -> ->])%fmap_Some. by eapply log_other.
Qed.

Lemma log_execs_run ls s w s' w' :
  logging_run config bound enc s w -> log_numbered ls (s, w) = true ->
  Forall (fun l => match l with WorkerStep _ o => genuine config bound (id o) o | _ => True end) ls ->
  log_execs ls (s, w) = Some (s', w') -> logging_run config bound enc s' w'.
Proof.
  revert s w. induction ls as [|l ls IH]; intros s w Hr Hn Hg; cbn [log_execs]; [by intros [= <- <-]|].
  intros ([s1 w1] & He & Hes)%bind_Some. inversion Hg as [|? ? Hl Hls]; subst.
  cbn [log_numbered] in Hn. apply andb_prop in Hn as [Hn1 Hn2]. rewrite He in Hn2.
  apply (IH s1 w1); [|done|done|done]. eapply log_exec_run; [done| |done].
  destruct l; try done. intros x Hx. cbn in Hn1. rewrite Hx in Hn1. apply Z.eqb_eq in Hn1. by rewrite Hn1.
Qed.
End examples.

#[local] Instance demo_shows : Display.Shows := {| Display.show_io _ := bstr "error"; Display.show_secs _ := bstr "0.000" |}.
#[local] Instance demo_show_addr : Display.ShowAddr unit := fun _ => bstr "127.0.0.1:2222".

Definition demo_encoder : Encoder := mkEncoder 4096 512.

(** One client, observed, then a stop request; the disk fills up. *)
Definition log_labels : list (@Label unit IoError) :=
  let m := MainStep in let k := SinkStep (Ok tt) in let w := WorkerStep 0 deaf_observation in
  [m; k; k; m; m; m; m; Accept (Ok tt); m; w; StopHandle; m; m; Tick 1; w; m; Tick 10000000; k; k; w; m; m; m; m; m; m; m; k; k; k; k; m].

Definition demo_disk (room : Z) : Disk := mkDisk [] room 1769990400000000000.

Abbreviation full_disk_run := (log_execs demo_listener tt demo_encoder log_labels (initial 0 false, demo_disk 700)).

(** The events of a log, by name. *)
Definition event_name (v : option Value) : option str :=
  match v with Some (Object (_ :: (_, Str s) :: _)) => Some s | _ => None end.

Definition log_summary (r : option (State unit IoError * Disk)) :=
  match r with
  | Some (s, d) => Some (map event_name (read_log (file d)), zlen (file d), sink_broken s, length (delivered s))
  | None => None
  end.

(** The integers of an event are in range. *)
Definition small_event (ev : ListenerEvent unit IoError) : bool :=
  match ev with
  | Started _ => true
  | ObservationEvent o => (0 <=? id o) && (id o <=? U64_MAX) && (0 <=? bytes_read o) && (bytes_read o <=? U64_MAX) &&
      (0 <=? bytes_written o) && (bytes_written o <=? U64_MAX) && (0 <=? elapsed o) &&
      match messages o, proposal o, end_ o with [], None, EndTimedOut => true | _, _, _ => false end
  | _ => false
  end.

Lemma small_typed evs : forallb small_event evs = true -> Forall typed evs.
Proof.
  intros H. apply Forall_forall. intros ev Hev. rewrite forallb_forall in H. specialize (H ev (proj1 (list_elem_of_In _ _) Hev)).
  destruct ev as [a|o|n m|x]; try done. cbn [small_event] in H. repeat (apply andb_prop in H as [H ?]). cbn [typed]. unfold u64.
  destruct (messages o), (proposal o), (end_ o); try done. split_and!; (done || lia).
Qed.

Lemma full_disk_facts :
  match full_disk_run with
  | Some (s, d) => log_summary (Some (s, d)) = Some ([Some (chars "listener_started")], 700, true, 2%nat) /\
      forallb small_event (delivered s) = true
  | None => False
  end.
Proof. vm_compute. split; reflexivity. Qed.

Lemma full_disk_logging s d : full_disk_run = Some (s, d) -> logging_run demo_listener tt demo_encoder s d.
Proof.
  apply log_execs_run; [apply log_init; exact eq_refl|vm_compute; reflexivity|].
  repeat constructor; apply deaf_genuine.
Qed.

(** One record read, two delivered: the disk filled up in the second. *)
Lemma observer_log_witness :
  match full_disk_run with
  | Some (s, d) => exists vs, read_log (file d) = map Some vs /\ length vs = 1%nat /\ sink_broken s = true /\
      length (delivered s) = 2%nat
  | None => False
  end.
Proof.
  pose proof full_disk_facts as Hf. destruct full_disk_run as [[s d]|] eqn:Er; [|exact Hf]. destruct Hf as [Hsum Hty].
  apply full_disk_logging in Er.
  destruct (observer_log demo_listener tt demo_encoder s d demo_listener_ok default_observer_config_ok Er (small_typed _ Hty))
    as (evs & vs & Hl & _).
  unfold log_summary in Hsum. injection Hsum as H1 H2 H3 H4. exists vs. change (written d) with (file d) in Hl.
  rewrite Hl in H1. apply (f_equal length) in H1. rewrite !length_map in H1.
  exact (conj Hl (conj H1 (conj H3 H4))).
Defined.
