(* ===== verification/RecordEvidence.v ===== *)
(** * Evidence in observation records

    What a reader of one record can rely on: which fields it always has, that
    byte evidence is exact up to the field bound and flagged beyond it, and when
    a record was cut. *)

From S2P Require Import Prelude WireError NameList Primitives Messages KexInit ExtInfo WireIdent TcpIdent Packet.
From S2P Require Import Initial Probe Observer KeyAlgorithm HostKey HostKeyProps Negotiate Gcm Transcript Trust.
From S2P Require Import KnownHosts KnownHostsProps Text TextProps FacadeTrust Handshake Seam Drivers DriversProofs ObserverRun.
From S2P Require Import Listener ListenerProps Calendar Utf8 Display Records.

Import Json Utf8 Calendar ObserverDriver Run Records.

(** ** Reading fields *)

Fixpoint str_eqb (s t : str) : bool :=
  match s, t with
  | [], [] => true
  | x :: s, y :: t => (x =? y) && str_eqb s t
  | _, _ => false
  end.

Fixpoint assoc (key : str) (l : list (str * Value)) : option Value :=
  match l with
  | [] => None
  | (k, v) :: l => if str_eqb key k then Some v else assoc key l
  end.

(** The first field of an object with a name. *)
Definition get (key : string) (v : Value) : option Value :=
  match v with Object l => assoc (chars key) l | _ => None end.

(** The bytes of a hexadecimal text. *)
Fixpoint unhex_text (s : str) : option bytes :=
  match s with
  | [] => Some []
  | hi :: lo :: s =>
      let* b := unhex (byte_of_Z hi) (byte_of_Z lo) in
      let* r := unhex_text s in
      Some (b :: r)
  | _ => None
  end.

Definition hex_bytes (v : option Value) : option bytes := match v with Some (Str s) => unhex_text s | _ => None end.

Lemma hex_exact bs : hex_bytes (Some (hex bs)) = Some bs.
Proof.
  unfold hex. cbn [hex_bytes]. induction bs as [|b bs IH]; [done|]. cbn [map]. change (mjoin (?x :: ?y)) with (x ++ mjoin y).
  unfold hex_byte at 1. cbn [app map unhex_text]. rewrite !byte_of_Z_u8, unhex_hex_byte. cbn [mbind option_bind]. by rewrite IH.
Qed.

Lemma opt_field l k v : opt l k v = field l k (default Null v).
Proof. by destruct v. Qed.

(** ** Records *)

Section evidence.
Context `{Sh : Display.Shows} {A E W : Type} `{Sa : !Display.ShowAddr A}.
Context (system_now : W -> W * Z) (show_sink : E -> bytes).
Implicit Types (o : Observation A) (w : W).

(** The fields every observation record has. *)
Lemma record_fields o n truncated w : let v := snd (observation_record system_now o n truncated w) in
  get "event" v = Some (lit "connection_observation") /\ get "id" v = Some (UInt (id o)) /\
  get "bytes_read" v = Some (UInt (bytes_read o)) /\ get "bytes_written" v = Some (UInt (bytes_written o)) /\
  get "stage" v = Some (lit (observer_stage_code (stage o))) /\ get "outcome" v = Some (lit (end_code (end_ o))) /\
  get "key_exchange_completed" v = Some (Bool false) /\ get "peer_authenticated" v = Some (Bool false) /\
  get "record_truncated" v = Some (Bool truncated) /\
  get "client_identification" v = Some (default Null ((fun i => identification_record i n) <$> client_identification o)) /\
  get "messages" v = Some (Array (if truncated then [] else map (message_record n) (messages o))) /\
  get "proposal" v = Some (if truncated then Null else default Null (proposal_record <$> proposal o)) /\
  get "diagnostics" v = Some (default Null (snd (end_fields (end_ o) n))).
Proof.
  assert (fst (fst (fst (end_fields (end_ o) n))) = end_code (end_ o)) as Hc
    by (destruct (end_ o) as [[]| | |]; cbn; unfold bounded_text, bounded_hex; done).
  intros v. subst v. unfold observation_record, envelope. destruct (end_fields _ _) as [[[outcome reason] detail] diagnostics].
  cbn [fst snd] in *. subst outcome. destruct (now_rfc3339 system_now w) as [w' t].
  cbn zeta. rewrite !opt_field. destruct truncated; split_and!; reflexivity.
Qed.

(** A byte field: exact up to the bound. *)
Lemma bounded_hex_exact bs n : 0 <= n ->
  hex_bytes (Some (fst (bounded_hex bs n))) = Some (ztake n bs) /\ snd (bounded_hex bs n) = (n <? zlen bs).
Proof.
  intros Hn. unfold bounded_hex. cbn [fst snd]. rewrite hex_exact. pose proof (zlen_nonneg bs). split.
  - f_equal. unfold ztake. destruct (Z.le_gt_cases n (zlen bs)); [by rewrite Z.min_r|].
    rewrite Z.min_l by lia. unfold zlen in *. rewrite !take_ge by lia. done.
  - destruct (Z.ltb_spec n (zlen bs)), (Z.ltb_spec (Z.min (zlen bs) n) (zlen bs)); (done || lia).
Qed.

Lemma identification_evidence i n : 0 <= n ->
  let r := identification_record i n in
  hex_bytes (get "line_hex" r) = Some (ztake n (TcpIdentification.line i)) /\
  get "line_hex_truncated" r = (if n <? zlen (TcpIdentification.line i) then Some (Bool true) else None).
Proof.
  intros Hn r. subst r. unfold identification_record. destruct (bounded_hex_exact (TcpIdentification.line i) n Hn) as [Hh Ht].
  destruct (bounded_hex _ _) as [h t]. cbn [fst snd] in *. subst t. rewrite opt_field.
  destruct (_ <? _); (split; [exact Hh|reflexivity]).
Qed.

Lemma proposal_evidence p : let r := proposal_record p in
  hex_bytes (get "cookie_hex" r) = Some (OwnedKexInit.cookie (kexinit p)) /\
  get "kex_algorithms" r = Some (name_values (OwnedKexInit.kex_algorithms (kexinit p))) /\
  get "server_host_key_algorithms" r = Some (name_values (OwnedKexInit.server_host_key_algorithms (kexinit p))) /\
  get "payload_len" r = Some (UInt (zlen (raw_payload p))).
Proof. intros r. split_and!; try reflexivity. apply (hex_exact (OwnedKexInit.cookie (kexinit p))). Qed.

Lemma sample_evidence sample trunc n : 0 <= n ->
  let d := default Null (snd (end_fields (EndObserver (OoUnexpectedInput sample trunc)) n)) in
  hex_bytes (get "sample_hex" d) = Some (ztake n sample) /\ get "sample_len" d = Some (UInt (zlen sample)) /\
  get "sample_truncated" d = Some (Bool (trunc || (n <? zlen sample))).
Proof.
  intros Hn. unfold end_fields. destruct (bounded_hex_exact sample n Hn) as [Hh Ht]. destruct (bounded_hex _ _) as [h t].
  cbn [fst snd default] in *. subst t. split_and!; [exact Hh|reflexivity|reflexivity].
Qed.

(** C16: a record says what it leaves out: the record of an observation carries the
    connection's number, byte counts, stage and outcome, and never claims a key
    exchange or an authentication; the client's identification line, the
    proposal's cookie and the sample of unexpected input can be read back from
    their hexadecimal fields, exactly up to the field bound, and are flagged
    when longer; the record lists every message in order, and the proposal if
    there is one, exactly when the full record fits; otherwise its list of
    messages is empty, its proposal null, and the record says that it was cut. *)
Theorem record_evidence enc o w w' v :
  0 <= max_field_bytes enc -> encode system_now show_sink enc (ObservationEvent o) w = (w', v) ->
  let n := max_field_bytes enc in
  let full := snd (observation_record system_now o n false w) in
  let cut := max_record_bytes enc <? zlen (as_bytes (to_json full)) in
  get "id" v = Some (UInt (id o)) /\ get "bytes_read" v = Some (UInt (bytes_read o)) /\
  get "bytes_written" v = Some (UInt (bytes_written o)) /\ get "stage" v = Some (lit (observer_stage_code (stage o))) /\
  get "outcome" v = Some (lit (end_code (end_ o))) /\
  get "key_exchange_completed" v = Some (Bool false) /\ get "peer_authenticated" v = Some (Bool false) /\
  get "record_truncated" v = Some (Bool cut) /\ (cut = false -> v = full) /\
  get "messages" v = Some (Array (if cut then [] else map (message_record n) (messages o))) /\
  (proposal o = None -> get "proposal" v = Some Null) /\
  (forall i, client_identification o = Some i -> exists r, get "client_identification" v = Some r /\
     hex_bytes (get "line_hex" r) = Some (ztake n (TcpIdentification.line i)) /\
     get "line_hex_truncated" r = (if n <? zlen (TcpIdentification.line i) then Some (Bool true) else None)) /\
  (forall p, proposal o = Some p -> exists r, get "proposal" v = Some r /\
     if cut then r = Null else hex_bytes (get "cookie_hex" r) = Some (OwnedKexInit.cookie (kexinit p)) /\
       get "kex_algorithms" r = Some (name_values (OwnedKexInit.kex_algorithms (kexinit p))) /\
       get "server_host_key_algorithms" r = Some (name_values (OwnedKexInit.server_host_key_algorithms (kexinit p))) /\
       get "payload_len" r = Some (UInt (zlen (raw_payload p)))) /\
  (forall sample trunc, end_ o = EndObserver (OoUnexpectedInput sample trunc) -> exists d, get "diagnostics" v = Some d /\
     hex_bytes (get "sample_hex" d) = Some (ztake n sample) /\ get "sample_len" d = Some (UInt (zlen sample)) /\
     get "sample_truncated" d = Some (Bool (trunc || (n <? zlen sample)))).
Proof.
  intros Hn He n full cut.
  assert (exists x, v = snd (observation_record system_now o n cut x) /\ (cut = false -> v = full)) as (x & -> & Hfull).
  { cbn [encode] in He. fold n in He. subst full cut. destruct (observation_record system_now o n false w) as [w1 full] eqn:Ef.
    cbn [snd]. destruct (Z.leb_spec (zlen (as_bytes (to_json full))) (max_record_bytes enc)) as [Hl|Hl].
    - injection He as <- <-. exists w. rewrite (proj2 (Z.ltb_ge _ _) Hl), Ef. done.
    - exists w1. rewrite (proj2 (Z.ltb_lt _ _) Hl), He. done. }
  destruct (record_fields o n cut x) as (_ & H1 & H2 & H3 & H4 & H5 & H6 & H7 & H8 & H9 & H10 & H11 & H12).
  split_and!; try assumption.
  - intros Hp. rewrite Hp in H11. rewrite H11. by destruct cut.
  - intros i Hi. rewrite Hi in H9. eexists. split; [exact H9|]. by apply identification_evidence.
  - intros p Hp. rewrite Hp in H11. eexists. split; [exact H11|]. destruct cut; [done|]. apply proposal_evidence.
  - intros sample trunc Hs. rewrite Hs in H12. eexists. split; [exact H12|]. by apply sample_evidence.
Qed.
End evidence.

(** ** A scanner's connection *)

#[local] Instance demo_shows : Display.Shows := {| Display.show_io _ := bstr "error"; Display.show_secs _ := bstr "0.000" |}.
#[local] Instance demo_show_addr : Display.ShowAddr unit := fun _ => bstr "127.0.0.1:2222".

(** A client that spoke another protocol after an ignored message. *)
Definition scanner : Observation unit :=
  mkObservation 7 tt tt 0 1500000 12 40 (bstr "SSH-2.0-x") None [SkIgnored 3] None ObFinished
    (EndObserver (OoUnexpectedInput ([x16; x03] ++ bstr "hello") false)).

Abbreviation scanner_record :=
  (encode (E := IoError) (fun w : Z => (w + 1, w)) Display.show_io (mkEncoder 64 4) (ObservationEvent scanner) 0).

(** The sample is cut at four bytes, and flagged; the record does not fit in
    64 bytes, so it lists no message, and says so. *)
Lemma record_evidence_witness :
  match scanner_record with
  | (_, v) => exists d, get "diagnostics" v = Some d /\ hex_bytes (get "sample_hex" d) = Some ([x16; x03] ++ bstr "he") /\
      get "sample_truncated" d = Some (Bool true) /\ get "record_truncated" v = Some (Bool true) /\
      get "messages" v = Some (Array [])
  end.
Proof.
  destruct scanner_record as [w' v] eqn:Ev.
  destruct (record_evidence (fun w : Z => (w + 1, w)) Display.show_io (mkEncoder 64 4) scanner 0 w' v
    ltac:(vm_compute; discriminate) Ev) as (_ & _ & _ & _ & _ & _ & _ & Ht & _ & Hm & _ & _ & _ & Hs).
  destruct (Hs ([x16; x03] ++ bstr "hello") false eq_refl) as (d & Hd & Hh & _ & Hx). exists d.
  split; [exact Hd|]. split; [exact Hh|]. split; [exact Hx|]. vm_compute in Ht, Hm. exact (conj Ht Hm).
Defined.
