(* ===== verification/HandshakeReport.v ===== *)
(** * The handshake command

    Models [client::handshake] of crates/tatami_ssh/src/client.rs: one run from
    the trust configuration over the connect phase to the structured report, its
    text (the list of its lines) and its JSON record. A string is its UTF-8
    bytes. *)

From S2P Require Import Prelude WireError NameList Primitives Messages KexInit ExtInfo WireIdent TcpIdent Packet.
From S2P Require Import Initial Probe KeyAlgorithm HostKey HostKeyProps Negotiate Gcm Transcript Trust.
From S2P Require Import KnownHosts KnownHostsProps Text TextProps FacadeTrust Handshake Seam Drivers Listener.
From S2P Require Import Calendar Utf8 Display ProbeReport Records.

Module HandshakeCommand.
Import Hs HandshakeDriver Text Json Display ReportText Records.

Section command.
Context `{F : Fs} `{N : Net} `{Sm : Seam} `{Sk : !Socket Sm}.

(* facade/client.rs:559-571 Options *)
Record Options : Type := mkOptions {
  host : bytes;
  port : Z;
  opt_trust : TrustConfig;
  io : HandshakeIo;
  config : HandshakeConfig.t
}.

(* facade/client.rs:577-585 Options::new *)
Definition options (host : bytes) (port : Z) (trust : TrustConfig) : Options :=
  mkOptions host port trust HandshakeIo_default HandshakeConfig.default.

(* facade/client.rs:591-660 Completion *)
Inductive Completion : Type :=
| Complete
| HostNotTrusted (reason : UntrustedReason)
| SignatureInvalid
| NegotiationFailed (e : NegotiationError)
| StrictKexViolation (detail : StrictDetail)
| ProtocolError (v : ProtocolViolation)
| ServerDisconnected (reason_code : Z) (description : bytes)
| RekeyNotSupported
| UnexpectedMessage (number : Z) (phase : Phase)
| TagMismatch
| Eof (phase : Phase)
| InputOverflow (o : InputBuffer.InputOverflow)
| Limit (l : LimitKind)
| TimedOut (phase : Phase) (pending_bytes : Z)
| Io (phase : Phase) (error : IoError)
| ConnectFailed (e : ConnectError)
| TrustConfiguration (e : TrustConfigError)
| NotStarted (e : IoError).

(* facade/client.rs:665-667 Completion::is_complete *)
Definition is_complete (c : Completion) : bool := match c with Complete => true | _ => false end.

(* facade/client.rs:672-693 Completion::code *)
Definition code (c : Completion) : string :=
  match c with
  | Complete => "completed"
  | HostNotTrusted _ => "host_not_trusted"
  | SignatureInvalid => "signature_invalid"
  | NegotiationFailed _ => "negotiation_failed"
  | StrictKexViolation _ => "strict_kex_violation"
  | ProtocolError _ => "protocol_error"
  | ServerDisconnected _ _ => "server_disconnected"
  | RekeyNotSupported => "rekey_not_supported"
  | UnexpectedMessage _ _ => "unexpected_message"
  | TagMismatch => "tag_mismatch"
  | Eof _ => "eof"
  | InputOverflow _ => "input_overflow"
  | Limit _ => "limit"
  | TimedOut _ _ => "timed_out"
  | Io _ _ => "io_error"
  | ConnectFailed _ => "connect_failed"
  | TrustConfiguration _ => "trust_configuration_error"
  | NotStarted _ => "not_started"
  end.

(* facade/client.rs:695-723 Completion::from_outcome *)
Definition from_outcome (o : HandshakeOutcome) : Completion :=
  match o with
  | Hs.Completed => Complete
  | Hs.HostNotTrusted reason => HostNotTrusted reason
  | Hs.SignatureInvalid => SignatureInvalid
  | Hs.NegotiationFailed e => NegotiationFailed e
  | Hs.StrictKexViolation detail => StrictKexViolation detail
  | Hs.ProtocolError v => ProtocolError v
  | Hs.ServerDisconnected reason_code description => ServerDisconnected reason_code description
  | Hs.RekeyNotSupported => RekeyNotSupported
  | Hs.UnexpectedMessage number phase => UnexpectedMessage number phase
  | Hs.TagMismatch => TagMismatch
  | Hs.Eof phase => Eof phase
  | Hs.InputOverflow o => InputOverflow o
  | Hs.Limit l => Limit l
  end.

(* facade/client.rs:729-749 Report *)
Record Report : Type := mkReport {
  rp_host : bytes;
  rp_port : Z;
  rp_trust : TrustConfig;
  rp_lookup_name : option bytes;
  rp_peer : option SocketAddr;
  rp_local : option SocketAddr;
  rp_handshake : option HandshakeReport;
  rp_completion : Completion;
  rp_elapsed : option Z
}.

(* facade/client.rs:759-775 Report::unconnected *)
Definition unconnected (o : Options) (lookup_name : option bytes) (c : Completion) : Report :=
  mkReport (host o) (port o) (opt_trust o) lookup_name None None None c None.

(* facade/client.rs:819-829 from_run *)
Definition completion_of (e : HandshakeEnd) : Completion :=
  match e with
  | EndFinished outcome => from_outcome outcome
  | EndTimedOut phase pending_bytes => TimedOut phase pending_bytes
  | EndIo phase error => Io phase error
  end.

(* facade/client.rs:818-841 from_run *)
Definition from_run (o : Options) (lookup_name : option bytes) (r : HandshakeRun) : Report :=
  mkReport (host o) (port o) (opt_trust o) lookup_name (Some (peer r)) (Some (local r)) (Some (run_report r))
    (completion_of (end_ r)) (Some (elapsed r)).

(** ** The run *)

Section run.
Context {K : Type} `{Aead K, Hash, Dh, DD : Dalek, BP : Base64Padded, HM : HmacSha1}.
Context {R E : Type} `{TryRng R E}.
Context (features : Features) (hashed_hosts : bool).

(** [attach] is the world once the stream is connected; [provider] is the host's
    signature provider, if the build has one. *)
(* facade/client.rs:782-816 run *)
Definition run_command (attach : Stream -> NetWorld -> World) (fuel : nat) (o : Options)
    (provider : option SignatureProvider) (rng : R) (w : NetWorld) : run Report :=
  match FacadeTrust.prepare features hashed_hosts (opt_trust o) (host o) (port o) with
  | None => Panics
  | Some (Err e) => Done (unconnected o None (TrustConfiguration e))
  | Some (Ok prepared) =>
      let lookup_name := prepared_name prepared in
      let '(w, stream) := hs_connect (io o) (host o) (port o) w in
      match stream with
      | Err e => Done (unconnected o lookup_name (ConnectFailed e))
      | Ok s =>
          match run_handshake (K := K) features (policy prepared) fuel (config o) provider rng (io o) (attach s w) with
          | Panics => Panics
          | Spins => Spins
          | Done (_, Ok r) => Done (from_run o lookup_name r)
          | Done (_, Err e) => Done (unconnected o lookup_name (NotStarted e))
          end
      end
  end.
End run.

(** ** The text *)

Context `{Sh : Shows} `{Sa : !ShowAddr Addr} `{Sb : !ShowAddr SocketAddr} `{FS : !FsShows F} `{B64 : Base64}.

(* facade/client.rs:1378-1380 yes_no *)
Definition yes_no (b : bool) : bytes := bstr (if b then "yes" else "no").

(* facade/client.rs:1370-1376 markers *)
Definition markers (names : list bytes) : list bytes :=
  List.filter (fun n => match classify_kex_name n with Method => false | _ => true end) names.

(* facade/client.rs:964-986 write_field *)
Definition field_lines (label : string) (client : list bytes) (server : option (list bytes)) (selected : option bytes)
    (note : option bytes) : list bytes :=
  [bstr "  " ++ bstr label ++ bstr ":";
   bstr "    client advertised: " ++ list_text client;
   match server with
   | Some s => bstr "    server advertised: " ++ list_text s
   | None => bstr "    server advertised: (no server KEXINIT)"
   end;
   match selected with
   | Some s => bstr "    selected: " ++ escape_bytes s
   | None => bstr "    selected: (none)"
   end] ++
  match note with Some n => [bstr "    note: " ++ n] | None => [] end.

(* facade/client.rs:1116-1122 negotiation_failure *)
Definition offered (what : bytes) (cl : list bytes) (sv : option (list bytes)) : bytes :=
  bstr "no common " ++ what ++ bstr "; client offered " ++ list_text cl ++ bstr ", server offered "
  ++ match sv with Some l => list_text l | None => bstr "(nothing)" end.

(* facade/client.rs:1111-1163 negotiation_failure *)
Definition negotiation_failure (e : NegotiationError) (c : OwnedKexInit.t) (s : option OwnedKexInit.t) : bytes :=
  match e with
  | NoCommonKex =>
      offered (bstr "key-exchange method (markers excluded)") (OwnedKexInit.kex_algorithms c) (OwnedKexInit.kex_algorithms <$> s)
  | NoCommonHostKey =>
      offered (bstr "host-key algorithm") (OwnedKexInit.server_host_key_algorithms c)
        (OwnedKexInit.server_host_key_algorithms <$> s)
  | NoCommonCipher d =>
      let '(cl, sv) :=
        match d with
        | ClientToServer => (OwnedKexInit.encryption_client_to_server c, OwnedKexInit.encryption_client_to_server <$> s)
        | ServerToClient => (OwnedKexInit.encryption_server_to_client c, OwnedKexInit.encryption_server_to_client <$> s)
        end in
      offered (bstr "cipher " ++ direction d) cl sv
  | NoCommonCompression d =>
      let '(cl, sv) :=
        match d with
        | ClientToServer => (OwnedKexInit.compression_client_to_server c, OwnedKexInit.compression_client_to_server <$> s)
        | ServerToClient => (OwnedKexInit.compression_server_to_client c, OwnedKexInit.compression_server_to_client <$> s)
        end in
      offered (bstr "compression algorithm " ++ direction d) cl sv
  | NoMacImplemented _ | UnsupportedSelection _ _ => negotiation_error e
  end.

(* facade/client.rs:1286-1362 completion_line *)
Definition completion_line (c : Completion) (h : option HandshakeReport) : bytes :=
  match c with
  | Complete => bstr "completed; key exchange, host-key verification, host trust and service request all succeeded"
  | HostNotTrusted FingerprintMismatch =>
      bstr "host key not trusted; presented fingerprint does not match --host-key-sha256 (no NEWKEYS sent)"
  | HostNotTrusted reason =>
      bstr "host key not trusted; " ++ describe reason ++
      match untrusted_reason_line reason with Some l => bstr " at known_hosts line " ++ show l | None => [] end ++
      bstr " (no NEWKEYS sent)"
  | TrustConfiguration e =>
      bstr "not started; trust configuration unusable (" ++ bstr (config_error_code e) ++ bstr "): "
      ++ escape_bytes (trust_config_error e)
  | SignatureInvalid => bstr "host signature over the exchange hash is invalid"
  | NegotiationFailed e =>
      bstr "negotiation failed; " ++
      match h with
      | Some h => negotiation_failure e (adv_client (r_advertised h)) (adv_server (r_advertised h))
      | None => negotiation_error e
      end
  | StrictKexViolation detail => bstr "strict KEX violation: " ++ escape_bytes (strict_detail detail)
  | ProtocolError v => bstr "protocol error: " ++ protocol_violation v
  | ServerDisconnected reason_code description =>
      bstr "server disconnected; reason " ++ show reason_code ++ reason_suffix reason_code ++ bstr ": " ++ quoted description
  | RekeyNotSupported => bstr "server requested a re-exchange; not supported by this diagnostic (DISCONNECT sent)"
  | UnexpectedMessage number phase =>
      bstr "unexpected " ++
      match Msg.name number with Some n => bstr n | None => bstr "message number " ++ show number end ++
      bstr " while " ++ Display.phase phase
  | TagMismatch => bstr "protected packet failed authentication"
  | Eof phase => bstr "incomplete; connection closed by peer while " ++ Display.phase phase
  | InputOverflow o => bstr "incomplete; " ++ input_overflow o
  | Limit l => bstr "incomplete; limit exceeded: " ++ limit_kind l
  | TimedOut phase pending_bytes =>
      bstr "incomplete; deadline passed while " ++ Display.phase phase ++ bstr " (" ++ show pending_bytes ++ bstr " unparsed byte(s))"
  | Io phase error => bstr "incomplete; socket error while " ++ Display.phase phase ++ bstr ": " ++ show_io error
  | ConnectFailed e => bstr "not connected; " ++ connect_error e
  | NotStarted e => bstr "not started; " ++ show_io e
  end.

(* facade/client.rs:996-999 write_negotiation *)
Definition NEGOTIATION_HEADER : bytes := bstr "Algorithm negotiation (RFC 4253 §7.1; markers are never selected):".

(* facade/client.rs:1032-1032 write_negotiation *)
Definition AEAD_NOTE : bytes := bstr "MAC lists ignored per draft-miller-sshm-aes-gcm-01 §2 (AEAD cipher)".

(* facade/client.rs:988-1107 write_negotiation *)
Definition negotiation_lines (h : HandshakeReport) (completion : Completion) : list bytes :=
  let c := adv_client (r_advertised h) in
  let s := adv_server (r_advertised h) in
  let sel := r_selected h in
  [NEGOTIATION_HEADER] ++
  field_lines "KEX" (OwnedKexInit.kex_algorithms c) (OwnedKexInit.kex_algorithms <$> s) (kex <$> sel) None ++
  field_lines "Host-key algorithm" (OwnedKexInit.server_host_key_algorithms c) (OwnedKexInit.server_host_key_algorithms <$> s)
    (host_key <$> sel) None ++
  field_lines "Cipher client->server" (OwnedKexInit.encryption_client_to_server c)
    (OwnedKexInit.encryption_client_to_server <$> s) (encryption_client_to_server <$> sel) None ++
  field_lines "Cipher server->client" (OwnedKexInit.encryption_server_to_client c)
    (OwnedKexInit.encryption_server_to_client <$> s) (encryption_server_to_client <$> sel) None ++
  field_lines "MAC client->server" (OwnedKexInit.mac_client_to_server c) (OwnedKexInit.mac_client_to_server <$> s)
    ((fun n => mac (mac_client_to_server n)) <$> sel)
    (match sel with Some n => if is_aead (encryption_client_to_server n) then Some AEAD_NOTE else None | None => None end) ++
  field_lines "MAC server->client" (OwnedKexInit.mac_server_to_client c) (OwnedKexInit.mac_server_to_client <$> s)
    ((fun n => mac (mac_server_to_client n)) <$> sel)
    (match sel with Some n => if is_aead (encryption_server_to_client n) then Some AEAD_NOTE else None | None => None end) ++
  field_lines "Compression client->server" (OwnedKexInit.compression_client_to_server c)
    (OwnedKexInit.compression_client_to_server <$> s) (compression_client_to_server <$> sel) None ++
  field_lines "Compression server->client" (OwnedKexInit.compression_server_to_client c)
    (OwnedKexInit.compression_server_to_client <$> s) (compression_server_to_client <$> sel) None ++
  [bstr "  Markers offered by client: " ++ list_text (markers (OwnedKexInit.kex_algorithms c))] ++
  match s with
  | Some s =>
      [bstr "  Markers offered by server: " ++ list_text (markers (OwnedKexInit.kex_algorithms s));
       bstr "  EXT_INFO advertised by server (ext-info-s): "
       ++ yes_no (existsb (fun n => bytes_eqb n (bstr "ext-info-s")) (OwnedKexInit.kex_algorithms s));
       bstr "  Server first_kex_packet_follows: " ++ show_bool (OwnedKexInit.first_kex_packet_follows s)] ++
      (if r_server_guess_discarded h then [bstr "  Server guessed wrong; its first KEX packet was discarded"] else [])
  | None => [bstr "  Markers offered by server: (no server KEXINIT)"]
  end ++
  [bstr "  Result: " ++
   match sel, completion, s with
   | Some _, _, _ => bstr "negotiated"
   | None, NegotiationFailed e, _ => bstr "failed; " ++ negotiation_failure e c s
   | None, _, None => bstr "not reached (no server KEXINIT)"
   | None, _, Some _ => bstr "not performed"
   end].

(* facade/client.rs:1194-1207 marker_names *)
Definition marker_names (pre_standard standard : bool) (base : bytes) : bytes :=
  match pre_standard, standard with
  | false, false => bstr "(none)"
  | true, false => base ++ bstr "-v00@openssh.com (pre-standard)"
  | false, true => base ++ bstr " (standard)"
  | true, true => base ++ bstr "-v00@openssh.com (pre-standard)" ++ bstr ", " ++ base ++ bstr " (standard)"
  end.

(* facade/client.rs:1165-1192 write_strict_kex *)
Definition strict_kex_lines (h : HandshakeReport) : list bytes :=
  let s := r_strict_kex h in
  [bstr "Strict KEX (draft-ietf-sshm-strict-kex):";
   bstr "  offered by client: " ++ marker_names (offered_pre_standard s) (offered_standard s) (bstr "kex-strict-c");
   match adv_server (r_advertised h) with
   | Some _ => bstr "  offered by server: " ++ marker_names (server_pre_standard s) (server_standard s) (bstr "kex-strict-s")
   | None => bstr "  offered by server: (no server KEXINIT)"
   end;
   bstr "  negotiated: " ++ show_bool (negotiated s);
   bstr "  KEXINIT was first packet: " ++
   match r_kexinit_was_first_packet h with Some true => bstr "yes" | Some false => bstr "no" | None => bstr "unknown" end].

(* facade/client.rs:1209-1230 write_host_key *)
Definition host_key_lines (h : HandshakeReport) : list bytes :=
  match r_host_key h with
  | None => [bstr "Server host key: not received"]
  | Some k =>
      [bstr "Server host key:";
       bstr "  algorithm: " ++ escape_bytes (sum_algorithm k);
       bstr "  fingerprint: " ++ Sha256Fingerprint.display (fingerprint k);
       bstr "  blob length: " ++ show (blob_len k) ++ bstr " byte(s)";
       bstr "  signature: " ++
       match r_signature_valid h with Some true => bstr "valid" | Some false => bstr "invalid" | None => bstr "not verified" end] ++
      match r_signature_error h with
      | Some e => [bstr "  signature error: " ++ escape_bytes (signature_error e)]
      | None => []
      end
  end.

(* facade/client.rs:1243-1265 write_trust_source *)
Definition trust_source_lines (trust : TrustConfig) (lookup_name : option bytes) : list bytes :=
  match trust with
  | Pin pin =>
      [bstr "  source: pinned fingerprint (--host-key-sha256)"; bstr "  pinned: " ++ Sha256Fingerprint.display pin]
  | KnownHostsPath path =>
      [bstr "  source: known_hosts file (--known-hosts) " ++ escape_bytes (show_fs_path path);
       match lookup_name with
       | Some name => bstr "  lookup name: " ++ escape_bytes name
       | None => bstr "  lookup name: (not bound)"
       end]
  end.

(* facade/client.rs:1232-1241 write_trust *)
Definition trust_lines (trust : TrustConfig) (lookup_name : option bytes) (h : HandshakeReport) : list bytes :=
  [bstr "Host trust:"] ++ trust_source_lines trust lookup_name ++ [bstr "  result: " ++ trust_text (r_trust h)].

(* facade/client.rs:1267-1284 write_ext_info *)
Definition ext_info_lines (h : HandshakeReport) : list bytes :=
  match r_ext_info h with
  | None => [bstr "EXT_INFO (RFC 8308): protected phase not reached"]
  | Some e =>
      [bstr "EXT_INFO (RFC 8308):";
       bstr "  received: " ++ yes_no (received e);
       match sum_server_sig_algs e with
       | Some algs => bstr "  server-sig-algs: " ++ list_text algs
       | None => bstr "  server-sig-algs: (absent)"
       end;
       bstr "  other extensions: "
       ++ list_text (List.filter (fun n => negb (bytes_eqb n (bstr "server-sig-algs"))) (extension_names e))]
  end.

(* facade/client.rs:887-900 Report::write_observed *)
Definition ident_lines (h : HandshakeReport) : list bytes :=
  match r_server_identification h with
  | Some i =>
      [bstr "Server identification: " ++ escape_bytes (TcpIdentification.line i);
       bstr "  protocol version: " ++ TcpIdentification.protocol_version i;
       bstr "  software version: " ++ TcpIdentification.software_version i] ++
      match TcpIdentification.comments i with Some c => [bstr "  comments: " ++ quoted c] | None => [] end ++
      map (fun a => bstr "  anomaly: " ++ ident_anomaly a) (r_server_identification_anomalies h)
  | None => [bstr "Server identification: not received"]
  end.

(* facade/client.rs:878-936 Report::write_observed *)
Definition observed_lines (r : Report) (h : HandshakeReport) : list bytes :=
  [bstr "Client identification sent: " ++ escape_bytes (r_client_identification h)] ++
  map (fun line => bstr "Server pre-identification line: " ++ quoted line) (r_server_prelude_lines h) ++
  ident_lines h ++
  map skipped_line (r_skipped_messages h) ++
  negotiation_lines h (rp_completion r) ++ strict_kex_lines h ++ host_key_lines h ++
  trust_lines (rp_trust r) (rp_lookup_name r) h ++
  [bstr "Protected transport:";
   bstr "  NEWKEYS sent: " ++ yes_no (r_newkeys_sent h);
   bstr "  NEWKEYS received: " ++ yes_no (r_newkeys_received h);
   bstr "  protected packets sent: " ++ show (r_protected_packets_sent h);
   bstr "  protected packets received: " ++ show (r_protected_packets_received h)] ++
  ext_info_lines h ++
  [match r_service_accepted h with
   | Some s => bstr "Service accepted: " ++ escape_bytes s
   | None => bstr "Service: SERVICE_ACCEPT not received"
   end] ++
  match r_server_disconnect h with
  | Some d =>
      [bstr "Server DISCONNECT: reason " ++ show (sd_reason_code d) ++ reason_suffix (sd_reason_code d) ++ bstr ": "
       ++ quoted (sd_description d)]
  | None => []
  end.

(* facade/client.rs:849-876 Report::write_text *)
Definition text_lines (r : Report) : list bytes :=
  [bstr "Target: " ++ target (rp_host r) (rp_port r);
   match rp_peer r, rp_local r with
   | Some peer, Some local => bstr "Connected to: " ++ show_addr peer ++ bstr " (local address " ++ show_addr local ++ bstr ")"
   | Some peer, None => bstr "Connected to: " ++ show_addr peer
   | None, _ => bstr "Connected to: (not connected)"
   end] ++
  match rp_handshake r with Some h => observed_lines r h | None => [] end ++
  [bstr "Outcome: " ++ completion_line (rp_completion r) (rp_handshake r) ++ bstr " (code: " ++ bstr (code (rp_completion r))
   ++ bstr ")";
   bstr "User authentication: not attempted";
   bstr "user_authenticated: false";
   bstr "Rekeying: not supported by this diagnostic"] ++
  match rp_elapsed r with
  | Some e => [bstr "Elapsed after connect: " ++ show_secs e ++ bstr "s"]
  | None => []
  end.

Definition write_text (r : Report) : bytes := write_lines (text_lines r).

(** ** The JSON record *)

(* facade/client.rs:1593-1598 bytes_record *)
Definition bytes_record (bs : bytes) : Value :=
  build (field (field object (chars "text") (text bs)) (chars "hex") (hex bs)).

(* facade/client.rs:1600-1612 ident_record *)
Definition ident_record (i : TcpIdentification.t) (h : HandshakeReport) : Value :=
  let obj := field object (chars "line") (text (TcpIdentification.line i)) in
  let obj := field obj (chars "protocol_version") (text (TcpIdentification.protocol_version i)) in
  let obj := field obj (chars "software_version") (text (TcpIdentification.software_version i)) in
  let obj := opt obj (chars "comments") (text <$> TcpIdentification.comments i) in
  let obj := opt obj (chars "comments_hex") (hex <$> TcpIdentification.comments i) in
  build (field obj (chars "anomalies")
    (strings (map (fun a => chars (ident_anomaly_code a)) (r_server_identification_anomalies h)))).

(* facade/client.rs:1614-1636 skipped_record *)
Definition skipped_record (m : SkippedMessage) : Value :=
  match m with
  | SkIgnored data_len =>
      build (field (field object (chars "type") (lit "ignore")) (chars "data_len") (UInt data_len))
  | SkDebug always_display message language_tag =>
      let obj := field object (chars "type") (lit "debug") in
      let obj := field obj (chars "always_display") (Bool always_display) in
      let obj := field obj (chars "message") (text message) in
      let obj := field obj (chars "message_hex") (hex message) in
      build (field obj (chars "language_tag") (text language_tag))
  | SkUnimplemented sequence_number =>
      build (field (field object (chars "type") (lit "unimplemented")) (chars "sequence_number") (UInt sequence_number))
  end.

(* facade/client.rs:1638-1677 kexinit_record *)
Definition kexinit_record (k : OwnedKexInit.t) : Value :=
  let obj := field object (chars "cookie_hex") (hex (OwnedKexInit.cookie k)) in
  let obj := field obj (chars "kex_algorithms") (name_values (OwnedKexInit.kex_algorithms k)) in
  let obj := field obj (chars "kex_markers") (name_values (markers (OwnedKexInit.kex_algorithms k))) in
  let obj := field obj (chars "server_host_key_algorithms") (name_values (OwnedKexInit.server_host_key_algorithms k)) in
  let obj := field obj (chars "encryption_client_to_server") (name_values (OwnedKexInit.encryption_client_to_server k)) in
  let obj := field obj (chars "encryption_server_to_client") (name_values (OwnedKexInit.encryption_server_to_client k)) in
  let obj := field obj (chars "mac_client_to_server") (name_values (OwnedKexInit.mac_client_to_server k)) in
  let obj := field obj (chars "mac_server_to_client") (name_values (OwnedKexInit.mac_server_to_client k)) in
  let obj := field obj (chars "compression_client_to_server") (name_values (OwnedKexInit.compression_client_to_server k)) in
  let obj := field obj (chars "compression_server_to_client") (name_values (OwnedKexInit.compression_server_to_client k)) in
  let obj := field obj (chars "languages_client_to_server") (name_values (OwnedKexInit.languages_client_to_server k)) in
  let obj := field obj (chars "languages_server_to_client") (name_values (OwnedKexInit.languages_server_to_client k)) in
  let obj := field obj (chars "first_kex_packet_follows") (Bool (OwnedKexInit.first_kex_packet_follows k)) in
  build (field obj (chars "reserved") (UInt (OwnedKexInit.reserved k))).

(* facade/client.rs:1679-1704 selected_record *)
Definition selected_record (n : Negotiated) : Value :=
  let obj := field object (chars "kex") (text (kex n)) in
  let obj := field obj (chars "host_key") (text (host_key n)) in
  let obj := field obj (chars "encryption_client_to_server") (text (encryption_client_to_server n)) in
  let obj := field obj (chars "encryption_server_to_client") (text (encryption_server_to_client n)) in
  let obj := field obj (chars "mac_client_to_server") (text (mac (mac_client_to_server n))) in
  let obj := field obj (chars "mac_server_to_client") (text (mac (mac_server_to_client n))) in
  let obj := field obj (chars "compression_client_to_server") (text (compression_client_to_server n)) in
  let obj := field obj (chars "compression_server_to_client") (text (compression_server_to_client n)) in
  let obj := field obj (chars "ext_info") (Bool (ext_info n)) in
  build (field obj (chars "server_guess_wrong") (Bool (server_guess_wrong n))).

(* facade/client.rs:1706-1714 strict_kex_record *)
Definition strict_kex_record (s : StrictKex) : Value :=
  let obj := field object (chars "offered_pre_standard") (Bool (offered_pre_standard s)) in
  let obj := field obj (chars "offered_standard") (Bool (offered_standard s)) in
  let obj := field obj (chars "server_pre_standard") (Bool (server_pre_standard s)) in
  let obj := field obj (chars "server_standard") (Bool (server_standard s)) in
  build (field obj (chars "negotiated") (Bool (negotiated s))).

(* facade/client.rs:1485-1487 Report::to_json *)
Definition advertised_record (a : Advertised) : Value :=
  build (opt (field object (chars "client") (kexinit_record (adv_client a))) (chars "server") (kexinit_record <$> adv_server a)).

(* facade/client.rs:1506-1509 Report::to_json *)
Definition host_key_record (k : HostKeySummary) : Value :=
  let obj := field object (chars "algorithm") (text (sum_algorithm k)) in
  let obj := field obj (chars "fingerprint_sha256") (text (Sha256Fingerprint.display (fingerprint k))) in
  build (field obj (chars "blob_len") (UInt (blob_len k))).

(* facade/client.rs:1551-1562 Report::to_json *)
Definition ext_info_record (e : ExtInfoSummary) : Value :=
  let obj := field object (chars "received") (Bool (received e)) in
  let obj := opt obj (chars "server_sig_algs") (name_values <$> sum_server_sig_algs e) in
  build (field obj (chars "extension_names") (name_values (extension_names e))).

(* facade/client.rs:1572-1576 Report::to_json *)
Definition disconnect_record (d : ServerDisconnect) : Value :=
  let obj := field object (chars "reason_code") (UInt (sd_reason_code d)) in
  let obj := opt obj (chars "reason_name") (lit <$> disconnect_reason.name (sd_reason_code d)) in
  let obj := field obj (chars "description") (text (sd_description d)) in
  build (field obj (chars "description_hex") (hex (sd_description d))).

(* facade/client.rs:1411-1427 Report::to_json *)
Definition trust_fields (t : option TrustDecision) (c : Completion)
    : option string * option string * option Z * option string :=
  let '(trust_source, untrusted_reason, trust_line) :=
    match t with
    | Some (Trusted source) => (Some (trust_source_code source), None, trust_source_line source)
    | Some (Untrusted reason) => (None, Some (untrusted_reason_code reason), untrusted_reason_line reason)
    | None => (None, None, None)
    end in
  match c with
  | TrustConfiguration e => (trust_source, Some (config_error_code e), trust_line, Some (config_error_code e))
  | _ => (trust_source, untrusted_reason, trust_line, None)
  end.

(* facade/client.rs:1432-1481 Report::to_json *)
Definition opening_fields (r : Report) : list (str * Value) :=
  let h := rp_handshake r in
  let obj := field object (chars "schema") (UInt 1) in
  let obj := field obj (chars "event") (lit "tcp_handshake") in
  let obj := field obj (chars "target")
    (build (field (field object (chars "host") (text (rp_host r))) (chars "port") (UInt (rp_port r)))) in
  let obj := opt obj (chars "peer") ((fun a => text (show_addr a)) <$> rp_peer r) in
  let obj := opt obj (chars "local") ((fun a => text (show_addr a)) <$> rp_local r) in
  let obj := opt obj (chars "pinned_fingerprint_sha256") ((fun p => text (Sha256Fingerprint.display p)) <$> config_pin (rp_trust r)) in
  let obj := opt obj (chars "known_hosts_file") ((fun p => text (show_fs_path p)) <$> known_hosts_file (rp_trust r)) in
  let obj := opt obj (chars "known_hosts_lookup") (text <$> rp_lookup_name r) in
  let obj := opt obj (chars "phase") ((fun h => lit (phase_code (r_phase h))) <$> h) in
  let obj := opt obj (chars "client_identification") ((fun h => text (r_client_identification h)) <$> h) in
  let obj := field obj (chars "server_prelude_lines")
    (Array (default [] ((fun h => map bytes_record (r_server_prelude_lines h)) <$> h))) in
  let obj := opt obj (chars "server_identification")
    (let* h := h in (fun i => ident_record i h) <$> r_server_identification h) in
  field obj (chars "skipped_messages") (Array (default [] ((fun h => map skipped_record (r_skipped_messages h)) <$> h))).

(* facade/client.rs:1409-1590 Report::to_json *)
Definition to_json (r : Report) : Value :=
  let h := rp_handshake r in
  let '(trust_source, untrusted_reason, trust_line, trust_error) := trust_fields (mbind r_trust h) (rp_completion r) in
  let negotiation_error_code := match rp_completion r with NegotiationFailed e => Some (negotiation_error_code e) | _ => None end in
  let is_some_and (p : HandshakeReport -> bool) := match h with Some h => p h | None => false end in
  let obj := opening_fields r in
  let obj := opt obj (chars "advertised") ((fun h => advertised_record (r_advertised h)) <$> h) in
  let obj := opt obj (chars "selected") (selected_record <$> mbind r_selected h) in
  let obj := opt obj (chars "strict_kex") ((fun h => strict_kex_record (r_strict_kex h)) <$> h) in
  let obj := opt obj (chars "kexinit_was_first_packet") (Bool <$> mbind r_kexinit_was_first_packet h) in
  let obj := field obj (chars "server_guess_discarded") (Bool (is_some_and r_server_guess_discarded)) in
  let obj := opt obj (chars "host_key") (host_key_record <$> mbind r_host_key h) in
  let obj := opt obj (chars "fingerprint_sha256")
    ((fun k => text (Sha256Fingerprint.display (fingerprint k))) <$> mbind r_host_key h) in
  let obj := opt obj (chars "host_key_signature_valid") (Bool <$> mbind r_signature_valid h) in
  let obj := opt obj (chars "signature_error") ((fun e => text (signature_error e)) <$> mbind r_signature_error h) in
  let obj := field obj (chars "trust_policy") (lit (mode (rp_trust r))) in
  let obj := opt obj (chars "host_trusted") ((fun t => Bool (is_trusted t)) <$> mbind r_trust h) in
  let obj := opt obj (chars "trust_source") (lit <$> trust_source) in
  let obj := opt obj (chars "trust_line") (UInt <$> trust_line) in
  let obj := opt obj (chars "untrusted_reason") (lit <$> untrusted_reason) in
  let obj := opt obj (chars "trust_error") (lit <$> trust_error) in
  let obj := field obj (chars "key_exchange_completed") (Bool (is_some_and (fun h => r_newkeys_sent h && r_newkeys_received h))) in
  let obj := field obj (chars "newkeys_sent") (Bool (is_some_and r_newkeys_sent)) in
  let obj := field obj (chars "newkeys_received") (Bool (is_some_and r_newkeys_received)) in
  let obj := field obj (chars "protected_packets_sent") (UInt (default 0 (r_protected_packets_sent <$> h))) in
  let obj := field obj (chars "protected_packets_received") (UInt (default 0 (r_protected_packets_received <$> h))) in
  let obj := opt obj (chars "ext_info") (ext_info_record <$> mbind r_ext_info h) in
  let obj := opt obj (chars "service_accepted") (text <$> mbind r_service_accepted h) in
  let obj := opt obj (chars "server_disconnect") (disconnect_record <$> mbind r_server_disconnect h) in
  let obj := field obj (chars "outcome") (text (completion_line (rp_completion r) h)) in
  let obj := field obj (chars "outcome_code") (lit (code (rp_completion r))) in
  let obj := opt obj (chars "negotiation_error_code") (lit <$> negotiation_error_code) in
  let obj := field obj (chars "user_authenticated") (Bool false) in
  let obj := field obj (chars "rekey_supported") (Bool false) in
  build (opt obj (chars "elapsed_ms") ((fun e => UInt (millis e)) <$> rp_elapsed r)).
End command.
End HandshakeCommand.
