(* ===== verification/NamedHandshake.v ===== *)
(** * The names in handshake errors

    Extends Named.v to the handshake: in every state a server can bring the
    client to, the errors and names that reports print without escaping are
    printable, and the host key they show is the one that was verified. *)

From S2P Require Import Prelude WireError NameList Primitives Messages KexInit ExtInfo WireIdent TcpIdent Packet.
From S2P Require Import Initial Probe KeyAlgorithm HostKey HostKeyProps Negotiate Gcm Transcript Trust.
From S2P Require Import KnownHosts KnownHostsProps Text TextProps FacadeTrust Handshake HandshakeProofs HandshakeProps.
From S2P Require Import Seam Drivers Display Named.

Import Display.

(** ** Messages *)

Lemma ecdh_reply_named p e : KexEcdhReply.decode p = Err e -> message_named e.
Proof. decode_named. Qed.

Lemma newkeys_named p e : NewKeys.decode p = Err e -> message_named e.
Proof. decode_named. Qed.

Lemma service_accept_named p e : ServiceAccept.decode p = Err e -> message_named e.
Proof. decode_named. Qed.

Lemma ext_info_decode_named p e : ExtInfo.decode p = Err e -> message_named e.
Proof.
  intros H. eapply decode_named; [|exact H]. apply fails_bind; [auto with named|intros]. apply fails_bind; [by intros s s' x [=]|intros].
  apply fails_bind; [auto with named|intros]. intros s s' x. cbn beta zeta.
  destruct (_ <=? _); intros [=]. subst. by apply plain_literal.
Qed.

Lemma read_pair_named : fails_with message_named read_pair.
Proof. unfold read_pair. auto with named. Qed.

Lemma fails_ext_message {A} (m : M Reader.t MessageError A) :
  fails_with message_named m -> fails_with ext_info_named (with_err ExtInfoMessage m).
Proof. intros Hm s s' e. unfold with_err. destruct (m s) as [s1 [a|e1]] eqn:E1; intros [=]. subst. cbn. by eapply Hm. Qed.

Lemma validate_named x n e : ExtInfo.validate x n = Err e -> ext_info_named e.
Proof.
  unfold ExtInfo.validate. case_match; [by intros [= <-]|]. destruct ((let! _ := _ in _) _) as [r [a|e1]] eqn:E1; [done|].
  intros [= <-]. revert E1. apply fails_bind.
  - generalize 0 at 1 as found. induction (Z.to_nat (ExtInfo.count x)) as [|k IH]; intros found; [apply fails_ret|].
    cbn [ExtInfo.validate_loop]. intros s s' e'. case_match; [by intros [= _ <-]|].
    apply fails_bind; [apply fails_ext_message, read_pair_named|]. intros _. apply IH.
  - intros _. apply fails_bind; [apply fails_ext_message, fails_finish|]. intros _. apply fails_ret.
Qed.

Lemma sig_algs_named x e : ExtInfo.server_sig_algs x = Some (Err e) -> ext_info_named e.
Proof.
  unfold ExtInfo.server_sig_algs, Extensions.items. generalize (S (Z.to_nat (Extensions.remaining (ExtInfo.extensions x)))) as k. generalize (ExtInfo.extensions x) as t.
  intros t k. revert t. induction k as [|k IH]; intros t; [done|]. cbn [Extensions.drain]. unfold Extensions.next.
  destruct (_ || _); [done|]. destruct (read_pair _) as [r [[n v]|e1]] eqn:E1; cbn [ExtInfo.find_server_sig_algs].
  - case_match; [|apply IH]. destruct (NameList.parse v); by intros [= <-].
  - intros [= <-]. cbn. by eapply read_pair_named.
Qed.

(** ** Keys *)

Lemma fails_blob_field {A} name (m : M Reader.t DecodeError A) :
  bool_decide (plain (bstr name)) = true -> fails_with blob_named (blob_field name m).
Proof. intros H s s' e Hm. eapply (fails_with_err blob_named); [|exact Hm]. intros err. by apply plain_literal. Qed.

Lemma fails_key_blob {A} (m : M Reader.t BlobError A) : fails_with blob_named m -> fails_with key_named (with_err KeyBlob m).
Proof. intros Hm s s' e. unfold with_err. destruct (m s) as [s1 [a|e1]] eqn:E1; intros [=]. subst. cbn. by eapply Hm. Qed.

Lemma fails_key_field {A} name (m : M Reader.t DecodeError A) :
  bool_decide (plain (bstr name)) = true -> fails_with key_named (key_field name m).
Proof. intros H. by apply fails_key_blob, fails_blob_field. Qed.

Lemma fails_key_finish : fails_with key_named key_finish.
Proof. apply fails_key_blob. intros s s' e. unfold blob_finish. destruct (Reader.finish s); intros [=]. by subst. Qed.

Lemma fails_positive_mpint name : bool_decide (plain (bstr name)) = true -> fails_with key_named (positive_mpint name).
Proof.
  intros H. unfold positive_mpint. apply fails_bind; [by apply fails_key_field|]. intros. apply fails_if; [|apply fails_ret].
  apply fails_fail. by apply plain_literal.
Qed.

Lemma fails_lift {S A} (r : result A KeyError) : (forall e, r = Err e -> key_named e) -> fails_with (S := S) key_named (lift r).
Proof. intros H s s' e [= _ ->]. by apply H. Qed.

#[export] Hint Extern 1 (fails_with key_named (key_field _ _)) => apply fails_key_field; vm_compute; reflexivity : named.
#[export] Hint Extern 1 (fails_with key_named (positive_mpint _)) => apply fails_positive_mpint; vm_compute; reflexivity : named.
#[export] Hint Resolve fails_key_finish : named.

Lemma snd_named {S E A} (P : E -> Prop) (m : M S E A) s e : fails_with P m -> snd (m s) = Err e -> P e.
Proof. intros Hm. destruct (m s) as [s' r] eqn:E1. cbn. intros ->. by eapply Hm. Qed.

(** The errors of a key's decoder. *)
Ltac key_named_tac :=
  case_match; [by intros [= <-]|]; apply snd_named; repeat (apply fails_bind; [auto with named|intros]); apply fails_lift.

Lemma blob_decode_named b e : PublicKeyBlob.decode b = Err e -> blob_named e.
Proof.
  unfold PublicKeyBlob.decode. apply snd_named. apply fails_bind; [by apply fails_blob_field|]. by intros a s s' x [=].
Qed.

Lemma from_blob_named `{D : Dalek} f b e : HostKey.from_blob f b = Err e -> key_named e.
Proof.
  assert (forall e, Ed25519.from_blob b = Err e -> key_named e) as H1.
  { intros x. unfold Ed25519.from_blob. key_named_tac. intros y. case_match; [|intros [= <-]; by apply plain_literal].
    unfold Ed25519.from_bytes. destruct (vk_from_bytes _); by intros [= <-]. }
  assert (forall e, Rsa.from_blob b = Err e -> key_named e) as H2.
  { intros x. unfold Rsa.from_blob. key_named_tac. intros y. unfold Rsa.from_components. repeat case_match; intros [= <-]; try done;
      by apply plain_literal. }
  assert (forall e, Ecdsa.from_blob b = Err e -> key_named e) as H3.
  { intros x. unfold Ecdsa.from_blob. key_named_tac. intros y. unfold Ecdsa.from_point. repeat case_match; by intros [= <-]. }
  unfold HostKey.from_blob. repeat case_match; intros H'; try (by injection H' as <-).
  - apply H1. by destruct (Ed25519.from_blob b); simplify_eq/=.
  - apply H2. by destruct (Rsa.from_blob b); simplify_eq/=.
  - apply H3. by destruct (Ecdsa.from_blob b); simplify_eq/=.
Qed.

(** ** Negotiation *)

Lemma valid_name_plain n : is_valid_name n = true -> plain n.
Proof.
  intros [_ H]%is_valid_name_spec. eapply Forall_impl; [exact H|]. intros b. destruct b; vm_compute; done.
Qed.

Lemma first_common_plain c s n : name_list_wf c -> first_common c s = Some n -> plain n.
Proof.
  intros Hw [Hin _]%List.find_some. apply valid_name_plain. by eapply Forall_forall in Hw; [|apply list_elem_of_In].
Qed.

(** Our own names are printable, so what is selected is. *)
Lemma check_profile_named n e :
  plain (kex n) -> plain (host_key n) -> plain (encryption_client_to_server n) -> plain (encryption_server_to_client n) ->
  plain (compression_client_to_server n) -> plain (compression_server_to_client n) ->
  check_profile n = Err e -> negotiation_named e.
Proof.
  intros. unfold check_profile in *. repeat (case_match; [simplify_eq; split; [by apply plain_literal|done]|]). done.
Qed.

Lemma ok_or_named {A} (o : option A) e0 e : negotiation_named e0 -> ok_or o e0 = Err e -> negotiation_named e.
Proof. destruct o; [done|]. by intros ? [= <-]. Qed.

Lemma rbind_named {A B} (r : result A NegotiationError) (k : A -> result B NegotiationError) e :
  (forall e, r = Err e -> negotiation_named e) -> (forall a e, k a = Err e -> negotiation_named e) ->
  rbind r k = Err e -> negotiation_named e.
Proof. intros Hr Hk. destruct r as [a|e1]; cbn [rbind]; [apply Hk|]. intros [= <-]. by apply Hr. Qed.

Lemma negotiate_named client server e : negotiate client server = Err e -> negotiation_named e.
Proof.
  unfold negotiate. cbn zeta.
  repeat (apply rbind_named; [intros e'; try (by apply ok_or_named); case_match; by intros [= <-]|intros ? ?]).
  done.
Qed.

Lemma negotiated_named client server e :
  KexInit.wf client -> (let? n := negotiate client server in let? _ := check_profile n in Ok n) = Err e -> negotiation_named e.
Proof.
  intros (_ & Hw & _). destruct (negotiate client server) as [n|e1] eqn:En; cbn [rbind].
  2: { intros [= <-]. by eapply negotiate_named. }
  apply negotiate_ok_iff in En as (Ho & _).
  destruct (check_profile n) as [u|e1] eqn:Ec; [done|]. intros [= <-]. revert Ec.
  destruct Ho as (H1 & H2 & H3 & H4 & _ & _ & H5 & H6).
  assert (forall l s x, l ∈ KexInit.name_lists client -> selected (NameList.names l) s x -> plain x) as Hsel.
  { intros l s x Hl (a & b & Hab & _). eapply Forall_forall in Hw as [Hw _]; [|exact Hl]. unfold name_list_wf in Hw.
    rewrite Hab in Hw. apply Forall_app in Hw as [_ [Hx _]%Forall_cons]. by apply valid_name_plain. }
  assert (plain (kex n)) as Hk.
  { destruct H1 as (a & b & Hab & _).
    assert (kex n ∈ methods client) as [Hin _]%list_elem_of_In%filter_In by (rewrite Hab; apply elem_of_app; right; left).
    apply list_elem_of_In in Hin.
    eapply Forall_forall in Hw as [Hw _]; [|left]. eapply Forall_forall in Hw; [|exact Hin]. by apply valid_name_plain. }
  apply check_profile_named; first [exact Hk | eapply Hsel; [|eassumption]; unfold KexInit.name_lists; repeat first [left | right]].
Qed.

(** ** States *)

Import Hs ClientHandshake.

Section tidy.
Context {K : Type} `{AL : AeadLaws K, HL : HashLaws, DL : DhLaws, DD : Dalek}.
Variable features : Features.
Implicit Types self : t K.

Definition outcome_named (o : HandshakeOutcome) : Prop :=
  match o with
  | ProtocolError v => violation_named v
  | NegotiationFailed e => negotiation_named e
  | _ => True
  end.

(** The report's host key is that of the identity. *)
Definition shows (k : HostKeySummary) (id : HostIdentityOwned) : Prop :=
  sum_algorithm k = own_algorithm id /\ fingerprint k = own_sha256 id /\ blob_len k = zlen (own_blob id).

Definition early (p : Phase) : bool := match p with ServerIdentification | ServerKexInit | EcdhReply => true | _ => false end.

Record tidy self : Prop := {
  ti_ident : forall i, server_ident self = Some i -> ident_plain i;
  ti_outcome : forall o, outcome self = Some o -> outcome_named o;
  ti_pending : forall o, pending_outcome self = Some o -> outcome_named o;
  ti_early : early (phase self) = true -> identity self = None;
  ti_key : forall id, identity self = Some id -> exists k, host_key self = Some k /\ shows k id;
  ti_kexinit : exists k, KexInit.decode (i_c self) = Ok k
}.

(** What the invariant depends on. *)
Definition alike self self' : Prop :=
  server_ident self' = server_ident self /\ outcome self' = outcome self /\ pending_outcome self' = pending_outcome self /\
  phase self' = phase self /\ identity self' = identity self /\ host_key self' = host_key self /\ i_c self' = i_c self.

Lemma alike_tidy self self' : alike self self' -> tidy self -> tidy self'.
Proof.
  intros (E1 & E2 & E3 & E4 & E5 & E6 & E7) [? ? ? ? ? ?]. split; rewrite ?E1, ?E2, ?E3, ?E4, ?E5, ?E6, ?E7; done.
Qed.

Lemma alike_trans a b c : alike a b -> alike b c -> alike a c.
Proof. unfold alike. intros (?&?&?&?&?&?&?) (?&?&?&?&?&?&?). split_and!; congruence. Qed.

(** A state that differs in other fields only. *)
Ltac frame := eapply alike_tidy; [|eassumption]; unfold alike; split_and!; reflexivity.

(** Ending needs only a named outcome. *)
Lemma finish_tidy self o : tidy self -> outcome_named o -> tidy (finish self o).
Proof. intros [? ? ? ? ? ?] Ho. split; cbn; try done. by intros o' [= <-]. Qed.

Lemma bump_alike self send self' r : bump_sequence self send = (self', r) ->
  alike self self' /\ forall o, r = Err o -> outcome_named o.
Proof.
  unfold bump_sequence. destruct (checked_add_u32 _ _); [by intros [= <- <-]; destruct send|].
  destruct (_ && _); intros [= <- <-]; [split; [done|]; by intros o [= <-]|by destruct send].
Qed.

Lemma send_unprotected_alike self p self' r : send_unprotected self p = (self', r) ->
  alike self self' /\ forall o, r = Err o -> outcome_named o.
Proof.
  unfold send_unprotected. destruct (encode_initial_packet_with _ _ _) as [fr [n|e]].
  - intros Hb%bump_alike. done.
  - intros [= <- <-]. split; [done|]. by intros o [= <-].
Qed.

Lemma send_protected_alike self p self' r : send_protected self p = Some (self', r) ->
  alike self self' /\ forall o, r = Err o -> outcome_named o.
Proof.
  unfold send_protected. destruct (send_aead self) as [a|]; [|done]. cbn [mbind option_bind].
  destruct (AeadDirection.seal _ _ _ _) as [[[a' g] o] [x|e]].
  - destruct (checked_add_u32 _ _); [|done]. cbn [mbind option_bind]. by intros [= Hb%bump_alike].
  - intros [= <- <-]. split; [done|]. by intros o' [= <-].
Qed.

Lemma send_disconnect_alike self d self' r : send_disconnect self d = Some (self', r) ->
  alike self self' /\ forall o, r = Err o -> outcome_named o.
Proof.
  unfold send_disconnect. destruct (Disconnect.encode _ _) as [b [n|e]]; [apply send_protected_alike|].
  intros [= <- <-]. split; [done|]. by intros o [= <-].
Qed.

(** A handler from a tidy state leaves a tidy state. *)
Definition tidies (r : option (t K * Flow)) : Prop := forall self' f, r = Some (self', f) -> tidy self'.

Lemma tidies_none : tidies None.
Proof. done. Qed.

Lemma tidies_some self f : tidy self -> tidies (Some (self, f)).
Proof. by intros Ht self' f' [= <- _]. Qed.

Lemma tidies_fail self o : tidy self -> outcome_named o -> tidies (Some (fail self o)).
Proof. intros. by apply tidies_some, finish_tidy. Qed.

#[local] Hint Resolve tidies_none tidies_some tidies_fail finish_tidy : core.
#[local] Hint Extern 1 (alike _ _) => done : core.

(** What follows a send. *)
Lemma tidies_sent self (r : t K * result unit HandshakeOutcome) g :
  tidy self -> (alike self (fst r) /\ forall o, snd r = Err o -> outcome_named o) ->
  (forall s, alike self s -> tidies (g s)) ->
  tidies (let '(s, res) := r in match res with Err o => Some (fail s o) | Ok _ => g s end).
Proof.
  intros Ht [Ha Hn] Hg. destruct r as [s [u|o]]; cbn in *; [by apply Hg|]. apply tidies_fail; [by eapply alike_tidy|by apply Hn].
Qed.

Lemma skip_tidies self number payload : tidy self -> tidies (skip self number payload).
Proof.
  intros Ht. unfold skip.
  destruct (number =? _); [destruct (Ignore.decode _) eqn:E; [|apply tidies_fail; [done|by eapply ignore_named]]|];
    [apply tidies_some; frame|].
  destruct (number =? _); [destruct (DebugMsg.decode _) eqn:E; [|apply tidies_fail; [done|by eapply debug_named]]|];
    [apply tidies_some; frame|].
  destruct (number =? _); [|done]. destruct (Unimplemented.decode _) eqn:E; [|apply tidies_fail; [done|by eapply unimplemented_named]].
  apply tidies_some. frame.
Qed.

Lemma on_disconnect_tidies self payload v : tidy self -> tidies (Some (on_disconnect self payload v)).
Proof.
  intros Ht. unfold on_disconnect. destruct (Disconnect.decode payload) eqn:E; [|apply tidies_fail; [done|by eapply disconnect_named]].
  cbn zeta. destruct v; (apply tidies_fail; [frame|done]).
Qed.

Lemma step_identification_tidies self : tidy self -> early (phase self) = true -> tidies (step_identification self).
Proof.
  intros Ht He. unfold step_identification. destruct (IdentificationReader.feed _ _) as [r [[|l u n|i n]|e]] eqn:Ef; cbn zeta.
  - apply tidies_some. frame.
  - destruct (InputBuffer.consume _ _); [|done]. apply tidies_some. frame.
  - destruct (InputBuffer.consume _ _); [|done]. apply tidies_some. destruct Ht. split; cbn; auto.
    intros i' [= <-]. by eapply feed_ident_plain.
  - apply tidies_fail; [frame|done].
Qed.

Lemma on_server_kexinit_tidies self payload : tidy self -> early (phase self) = true -> tidies (on_server_kexinit self payload).
Proof.
  intros Ht He. unfold on_server_kexinit. cbn zeta.
  destruct (KexInit.decode payload) as [server|e] eqn:Ed; [|apply tidies_fail; [frame|by eapply kexinit_named]].
  cbn zeta. cbn [i_c set_i_s set_server_kexinit set_kexinit_was_first].
  destruct (KexInit.decode (i_c self)) as [client|e] eqn:Ec; [|done].
  destruct (rbind _ _) as [n|e] eqn:En.
  2: { apply tidies_fail; [frame|]. eapply negotiated_named; [|exact En]. by apply kexinit_decode_iff in Ec as [? _]. }
  destruct (_ && _); [apply tidies_fail; [frame|done]|].
  destruct (KexEcdhInit.encode _ _) as [b [m|e]]; [|done]. set (s1 := set_negotiated _ _).
  apply (tidies_sent self); [done| |].
  - destruct (send_unprotected s1 _) as [s2 r] eqn:Es. by apply send_unprotected_alike in Es.
  - intros s Ha. apply tidies_some. destruct (alike_tidy _ _ Ha Ht). split; cbn; try done. intros _.
    destruct Ha as (_ & _ & _ & _ & -> & _). by apply Ht.
Qed.

(** The summary is set with the identity, and only before there is one. *)
Lemma on_ecdh_reply_tidies self payload : tidy self -> early (phase self) = true -> tidies (on_ecdh_reply features self payload).
Proof.
  intros Ht He. pose proof (ti_early _ Ht He) as Hid. unfold on_ecdh_reply.
  destruct (KexEcdhReply.decode payload) as [reply|e] eqn:Ed; [|apply tidies_fail; [done|by eapply ecdh_reply_named]].
  destruct (PublicKeyBlob.decode _) as [blob|e] eqn:Eb; [|apply tidies_fail; [done|by eapply blob_decode_named]].
  destruct (HostKey.from_blob _ _) as [hk|e] eqn:Eh; [|apply tidies_fail; [done|by eapply from_blob_named]]. cbn zeta.
  set (k := mkHostKeySummary _ _ _). set (s1 := set_host_key (Some k) self).
  assert (tidy s1) as Ht1 by (destruct Ht; split; cbn; auto; intros id Hx; congruence).
  destruct (mbind _ _) as [scheme|]; [|by apply tidies_fail]. destruct (bool_decide _); [by apply tidies_fail|].
  destruct (ephemeral _) as [eph|]; [|by apply tidies_fail].
  destruct (agree _ _) as [z|e]; [|apply tidies_fail; [frame|done]].
  destruct (server_ident _); [|done]. cbn [mbind option_bind]. destruct (i_s _); [|done]. cbn [mbind option_bind].
  destruct (exchange_hash _ _); [|done]. cbn [mbind option_bind].
  destruct (rbind _ _); [|apply tidies_fail; [frame|done]].
  destruct (derive_aes128_gcm_keys _ _ _); [|done]. cbn [mbind option_bind]. apply tidies_some.
  destruct Ht1. split; cbn; auto; try done. intros id [= <-]. by exists k.
Qed.

Lemma on_server_newkeys_tidies self payload : tidy self -> early (phase self) = false -> tidies (on_server_newkeys self payload).
Proof.
  intros Ht He. unfold on_server_newkeys. destruct (NewKeys.decode payload) eqn:Ed; [|apply tidies_fail; [done|by eapply newkeys_named]].
  cbn zeta. destruct (keys _) as [ks|]; [|done]. cbn [mbind option_bind].
  set (s1 := set_ext_info _ _).
  assert (tidy s1) as Ht1 by (subst s1; destruct Ht; destruct (strict_active _); split; cbn; auto; done).
  destruct (ServiceRequest.encode _ _) as [b [n|e]]; [|done].
  destruct (send_protected s1 _) as [r|] eqn:Es; [|done]. cbn [mbind option_bind].
  apply (tidies_sent s1); [done| |].
  - destruct r. by apply send_protected_alike in Es.
  - intros s Ha. apply tidies_some. by eapply alike_tidy.
Qed.

Lemma unexpected_tidies self number : tidy self -> tidies (Some (unexpected self number)).
Proof. intros. by apply tidies_fail. Qed.

Lemma strict_tidies self d : tidy self -> tidies (Some (strict_violation self d)).
Proof. intros. by apply tidies_fail. Qed.

#[local] Hint Resolve unexpected_tidies strict_tidies on_disconnect_tidies skip_tidies : core.

Ltac branch := lazymatch goal with |- tidies (if ?b then _ else _) => destruct b end.

Lemma handle_kex_message_tidies self number payload :
  tidy self -> phase self = EcdhReply \/ phase self = ServerNewKeys -> tidies (handle_kex_message features self number payload).
Proof.
  intros Ht Hp. unfold handle_kex_message. branch; [apply tidies_some; frame|].
  destruct ((number =? Msg.KEX_ECDH_REPLY) && bool_decide _) eqn:Ea.
  { apply andb_prop in Ea as [_ Ea%bool_decide_eq_true]. apply on_ecdh_reply_tidies; [done|by rewrite Ea]. }
  destruct ((number =? Msg.NEWKEYS) && negb _) eqn:Eb.
  { apply andb_prop in Eb as [_ Eb%negb_true_iff%bool_decide_eq_false]. apply on_server_newkeys_tidies; [done|].
    by destruct Hp as [?| ->]. }
  do 6 (branch; [auto|]). branch; auto.
Qed.

Lemma handle_unprotected_tidies self payload : tidy self -> tidies (handle_unprotected features self payload).
Proof.
  intros Ht. unfold handle_unprotected. destruct payload as [|b payload]; [by apply tidies_fail|].
  destruct (phase self) eqn:Ep; try done; try (apply handle_kex_message_tidies; auto).
  branch; [apply on_server_kexinit_tidies; [done|by rewrite Ep]|]. branch; [auto|]. branch; auto.
Qed.

Lemma step_unprotected_tidies self : tidy self -> tidies (step_unprotected features self).
Proof.
  intros Ht. unfold step_unprotected. destruct (decode_initial_packet _ _) as [[n|pk]|e]; [by apply tidies_some| |by apply tidies_fail].
  cbn zeta. branch; [by apply tidies_fail|]. branch; [by apply tidies_fail|].
  destruct (checked_add_usize _ _); [|done]. cbn [mbind option_bind].
  destruct (InputBuffer.consume _ _); [|done]. cbn [mbind option_bind].
  apply (tidies_sent self); [done| |].
  - destruct (bump_sequence _ _) as [s2 r] eqn:Es. by apply bump_alike in Es.
  - intros s Ha. apply handle_unprotected_tidies. by eapply alike_tidy.
Qed.

Lemma on_ext_info_tidies self payload : tidy self -> tidies (Some (on_ext_info self payload)).
Proof.
  intros Ht. unfold on_ext_info. destruct (ExtInfo.decode payload) as [x|e] eqn:Ed;
    [|apply tidies_fail; [done|by eapply ext_info_decode_named]].
  destruct (ExtInfo.validate _ _) eqn:Ev; [|apply tidies_fail; [done|by eapply validate_named]].
  destruct (ExtInfo.server_sig_algs _) as [[l|e]|] eqn:Es; [|apply tidies_fail; [done|by eapply sig_algs_named]|];
    (apply tidies_some; frame).
Qed.

Lemma disconnect_tidies self self1 d o : tidy self -> alike self self1 -> outcome_named o ->
  tidies (let* (s, res) := send_disconnect self1 d in
    match res with Err o => Some (fail s o) | Ok _ => Some (set_pending_outcome (Some o) s, FlowContinue) end).
Proof.
  intros Ht Ha Ho. destruct (send_disconnect self1 d) as [r|] eqn:Es; [|done]. cbn [mbind option_bind].
  apply (tidies_sent self1 r); [by eapply alike_tidy| |].
  - destruct r. by apply send_disconnect_alike in Es.
  - intros s Hs. apply tidies_some. destruct (alike_tidy _ _ (alike_trans _ _ _ Ha Hs) Ht). split; cbn; auto.
    by intros o' [= <-].
Qed.

Lemma handle_protected_tidies self payload : tidy self -> tidies (handle_protected self payload).
Proof.
  intros Ht. unfold handle_protected. destruct payload as [|b payload]; [by apply tidies_fail|]. cbn zeta.
  branch; [by apply on_ext_info_tidies|]. branch; [auto|].
  branch.
  { unfold on_service_accept. destruct (ServiceAccept.decode _) eqn:Ed; [|apply tidies_fail; [done|by eapply service_accept_named]].
    cbn zeta. branch; [by apply tidies_fail|]. by apply (disconnect_tidies self). }
  branch; [auto|]. branch; [by apply (disconnect_tidies self)|auto].
Qed.

Lemma step_protected_tidies self : tidy self -> tidies (step_protected self).
Proof.
  intros Ht. unfold step_protected. destruct (recv_aead self); [|done]. cbn [mbind option_bind].
  destruct (AeadDirection.open _ _ _) as [[a b] res]. cbn zeta.
  destruct res as [[n|p]|e]; [apply tidies_some; frame| |destruct e; (apply tidies_fail; [frame|done])].
  destruct (InputBuffer.consume _ _); [|done]. cbn [mbind option_bind].
  branch; [apply tidies_fail; [frame|done]|]. destruct (checked_add_u32 _ _); [|done]. cbn [mbind option_bind].
  apply (tidies_sent self); [done| |].
  - destruct (bump_sequence _ _) as [s2 r] eqn:Es. by apply bump_alike in Es.
  - intros s Ha. apply handle_protected_tidies. by eapply alike_tidy.
Qed.

Lemma round_tidy self self' r : tidy self -> round features self = Some (self', r) -> tidy self'.
Proof.
  intros Ht.
  assert (forall x, tidies x ->
    (let* (s, f) := x in Some (s, match f with FlowContinue => None | FlowNeedMore => Some NeedMore end)) = Some (self', r) ->
    tidy self') as Hflow.
  { intros [[s f]|] Hx; [|done]. cbn [mbind option_bind]. intros [= <- _]. by eapply Hx. }
  unfold round. destruct (outcome self) eqn:Eo; [by intros [= <- _]|].
  destruct (negb _); [by intros [= <- _]|]. destruct (pending_outcome self) as [o|] eqn:Ep.
  { intros [= <- _]. apply finish_tidy; [|by apply (ti_pending _ Ht)]. destruct Ht. by split; cbn. }
  destruct (phase self) eqn:Eh; try (apply Hflow).
  - apply step_identification_tidies; [done|by rewrite Eh].
  - by apply step_unprotected_tidies.
  - by apply step_unprotected_tidies.
  - destruct (identity self); [|done]. by intros [= <- _].
  - by apply step_unprotected_tidies.
  - by apply step_protected_tidies.
  - done.
Qed.

Lemma step_tidy self self' s : tidy self -> step features self = Some (self', s) -> tidy self'.
Proof.
  unfold step. generalize (S (S (length (InputBuffer.buf (buf self))))). intros fuel. revert self.
  induction fuel as [|fuel IH]; intros self Ht; [done|]. cbn [rounds].
  destruct (round features self) as [[self1 [st|]]|] eqn:Er; [| |done]; cbn [mbind option_bind]; apply round_tidy in Er; try done.
  - by intros [= <- _].
  - by apply IH.
Qed.

Lemma feed_tidy self data : tidy self -> tidy (feed self data).
Proof.
  intros Ht. unfold feed. destruct (outcome self); [done|]. destruct (InputBuffer.push _ _) as [b [u|e]]; [frame|].
  apply finish_tidy; [frame|done].
Qed.

Lemma input_ended_tidy self : tidy self -> tidy (fst (input_ended self)).
Proof. intros Ht. unfold input_ended. destruct (outcome self); [done|]. by apply finish_tidy. Qed.

Lemma provide_trust_tidy self d self' : tidy self -> provide_trust self d = Some self' -> tidy self'.
Proof.
  intros Ht. unfold provide_trust. destruct (negb _) eqn:Ep; [by intros [= <-]|].
  destruct d as [src|reason]; [|intros [= <-]; apply finish_tidy; [frame|done]].
  destruct (NewKeys.encode _ _) as [b [n|e]]; [|done].
  destruct (send_unprotected _ _) as [s1 r] eqn:Es. apply send_unprotected_alike in Es as [Ha Hn].
  assert (tidy s1) as Ht1 by (eapply alike_tidy; [|exact Ht]; done).
  destruct r; [|intros [= <-]; apply finish_tidy; [done|by apply Hn]].
  cbn zeta. destruct (keys _); [|done]. cbn [mbind option_bind].
  intros [= <-]. destruct Ht1. destruct (strict_active _); split; cbn; auto; done.
Qed.

Lemma build_tidy {R E} `{TryRng R E} c (rng : R) p self : build (K:=K) features c rng p = Some (Ok self) -> tidy self.
Proof.
  unfold build. destruct (match HandshakeConfig.host_key_algorithms c with Some _ => _ | None => _ end) as [algs|]; [|done].
  cbn [mbind option_bind]. destruct (rbind _ _) as [[[[line eph] seed] ic]|e]; [|done].
  destruct (KexInit.decode ic) as [k|e] eqn:Ek; [|done]. set (s0 := set_out _ _).
  assert (tidy s0) as Ht by (split; cbn; try done; by exists k).
  destruct (send_unprotected s0 _) as [s1 r] eqn:Es. apply send_unprotected_alike in Es as [Ha Hn].
  intros [= <-]. destruct r; [by eapply alike_tidy|]. apply finish_tidy; [by eapply alike_tidy|by apply Hn].
Qed.

(** Every state of every handshake is tidy. *)
Lemma reachable_tidy {R E} `{RL : TryRngLaws R E} c p self : reachable features (R:=R) c p self -> tidy self.
Proof.
  induction 1; eauto using build_tidy, step_tidy, feed_tidy, input_ended_tidy, provide_trust_tidy.
  frame.
Qed.
End tidy.
