(* ===== verification/HandshakeReportProps.v ===== *)
(** * What a handshake report says

    Whatever the server sends: a report that says completed is one whose host
    was verified, trusted by the configured source, and accepted the service;
    its text holds no byte of the server's that a terminal would interpret; its
    JSON record reads back and says the same. *)

From S2P Require Import Prelude WireError NameList Primitives Messages KexInit ExtInfo WireIdent TcpIdent Packet.
From S2P Require Import Initial Probe KeyAlgorithm HostKey HostKeyProps Negotiate Gcm Transcript Trust.
From S2P Require Import KnownHosts KnownHostsProps Text TextProps FacadeTrust Handshake HandshakeProofs HandshakeProps.
From S2P Require Import Seam Drivers DriversProofs HandshakeRun Listener Utf8 Display Named NamedHandshake.
From S2P Require Import ProbeReport ProbeReportProps Records RecordsProps RecordEvidence HandshakeReport.

Import Hs HandshakeDriver Text Json Display ReportText Records HandshakeCommand.

(** ** Lines *)

Lemma write_lines_unbroken ls : Forall unbroken ls -> lines_of [] (write_lines ls) = ls.
Proof.
  induction 1 as [|l ls Hl _ IH]; [done|]. unfold write_lines. cbn [map]. change (mjoin (?x :: ?y)) with (x ++ mjoin y).
  unfold writeln at 1. rewrite <- app_assoc. cbn [app]. rewrite lines_of_unbroken by done. f_equal. apply IH.
Qed.

(** Printable ASCII, or one of the two fixed lines with a section sign. *)
Definition tame (l : bytes) : Prop := plain l \/ l = NEGOTIATION_HEADER \/ l = bstr "    note: " ++ AEAD_NOTE.

Lemma tame_unbroken l : tame l -> unbroken l.
Proof.
  intros [H|[->| ->]].
  - eapply Forall_impl; [exact H|]. intros b Hb ->. done.
  - apply (bool_decide_eq_true_1 (Forall (fun b => b <> LF) _)). vm_compute. reflexivity.
  - apply (bool_decide_eq_true_1 (Forall (fun b => b <> LF) _)). vm_compute. reflexivity.
Qed.

Lemma plain_tame ls : Forall plain ls -> Forall tame ls.
Proof. intros H. eapply Forall_impl; [exact H|]. by left. Qed.

(** Fingerprints print in base64. *)
Class Base64Plain (B : Base64) : Prop := plain_b64 : forall d, plain (b64_encode d).

Lemma plain_fingerprint `{B : Base64, !Base64Plain B} f : plain (Sha256Fingerprint.display f).
Proof. unfold Sha256Fingerprint.display, PREFIX. apply plain_app; [auto with plain|apply plain_b64]. Qed.
#[export] Hint Resolve plain_fingerprint : plain.

Section text.
Context `{F : Fs} `{N : Net} `{Sm : Seam} `{Sk : !Socket Sm}.
Context `{Sh : Shows, !ShowsPlain Sh} `{Sa : !ShowAddr Addr, !ShowAddrPlain Sa} `{Sb : !ShowAddr SocketAddr, !ShowAddrPlain Sb}.
Context `{FS : !FsShows F} `{B64 : Base64, !Base64Plain B64}.

Lemma plain_yes_no b : plain (yes_no b).
Proof. destruct b; unfold yes_no; auto with plain. Qed.

Lemma plain_marker_names a b base : plain base -> plain (marker_names a b base).
Proof. intros. unfold marker_names. repeat case_match; auto 10 with plain. Qed.
#[local] Hint Resolve plain_yes_no plain_marker_names : plain.

Lemma plain_offered what cl sv : plain what -> plain (offered what cl sv).
Proof. intros. unfold offered. case_match; auto 12 with plain. Qed.
#[local] Hint Resolve plain_offered : plain.

Lemma plain_negotiation_failure e c s : negotiation_named e -> plain (negotiation_failure e c s).
Proof. intros. destruct e; cbn [negotiation_failure]; try case_match; auto 12 with plain. Qed.
#[local] Hint Resolve plain_negotiation_failure : plain.

(** What the completion may carry. *)
Definition completion_named (c : Completion) : Prop :=
  match c with ProtocolError v => violation_named v | NegotiationFailed e => negotiation_named e | _ => True end.

Lemma plain_config_code e : plain (bstr (config_error_code e)).
Proof. destruct e as [e|p e|e]; [| destruct e|]; cbn [config_error_code]; auto with plain. Qed.

Lemma plain_number_name n s : Msg.name n = Some s -> plain (bstr s).
Proof. unfold Msg.name. repeat case_match; intros [= <-]; auto with plain. Qed.
#[local] Hint Resolve plain_config_code plain_number_name : plain.

Lemma plain_outcome_line c h : completion_named c -> plain (completion_line c h).
Proof.
  intros Hc. destruct c; cbn [completion_line completion_named] in *; try case_match; auto 12 with plain;
    repeat case_match; eauto 14 with plain.
Qed.

Lemma plain_code (c : Completion) : plain (bstr (code c)).
Proof. destruct c; cbn [code]; auto with plain. Qed.
#[local] Hint Resolve plain_outcome_line plain_code : plain.

Lemma field_lines_tame label c s sel note :
  bool_decide (plain (bstr label)) = true -> note = None \/ note = Some AEAD_NOTE -> Forall tame (field_lines label c s sel note).
Proof.
  intros Hl%plain_literal Hn. unfold field_lines. apply Forall_app. split.
  - apply plain_tame. destruct s, sel; plain_lines.
  - destruct Hn as [->| ->]; [constructor|]. apply Forall_singleton. right. by right.
Qed.

Lemma negotiation_lines_tame h c : completion_named c -> Forall tame (negotiation_lines h c).
Proof.
  intros Hc. unfold negotiation_lines. cbn zeta.
  apply Forall_app; split; [apply Forall_singleton; right; by left|].
  do 8 (apply Forall_app; split; [apply field_lines_tame; [vm_compute; reflexivity|repeat case_match; auto]|]).
  apply plain_tame. apply Forall_app; split; [plain_lines|]. apply Forall_app; split.
  - repeat case_match; cbn [app]; plain_lines.
  - apply Forall_singleton. apply plain_app; [auto with plain|]. repeat case_match; auto with plain.
Qed.

Lemma strict_kex_lines_plain h : Forall plain (strict_kex_lines h).
Proof. unfold strict_kex_lines. cbn zeta. repeat case_match; plain_lines. Qed.

Lemma host_key_lines_plain h : Forall plain (host_key_lines h).
Proof. unfold host_key_lines. repeat case_match; cbn [app]; plain_lines. Qed.

Lemma trust_lines_plain t n h : Forall plain (trust_lines t n h).
Proof. unfold trust_lines, trust_source_lines. repeat case_match; cbn [app]; plain_lines. Qed.

Lemma ext_info_lines_plain h : Forall plain (ext_info_lines h).
Proof. unfold ext_info_lines. repeat case_match; plain_lines. Qed.

Lemma map_plain {B} (f : B -> bytes) l : (forall x, plain (f x)) -> Forall plain (map f l).
Proof. intros H. apply Forall_map, Forall_true. done. Qed.

Lemma ident_lines_plain h : (forall i, r_server_identification h = Some i -> ident_plain i) -> Forall plain (ident_lines h).
Proof.
  intros Hi. unfold ident_lines. destruct (r_server_identification h) as [i|]; [|plain_lines].
  destruct (Hi i eq_refl). apply Forall_app; split; [plain_lines|]. apply Forall_app; split; [case_match; plain_lines|].
  apply map_plain. auto with plain.
Qed.

(** What a report needs for its text to be tame. *)
Definition text_ok (r : Report) : Prop :=
  plain (rp_host r) /\ completion_named (rp_completion r) /\
  forall h i, rp_handshake r = Some h -> r_server_identification h = Some i -> ident_plain i.

Lemma observed_lines_tame r h : text_ok r -> rp_handshake r = Some h -> Forall tame (observed_lines r h).
Proof.
  intros (_ & Hc & Hi) Hh. unfold observed_lines.
  apply Forall_app; split; [apply plain_tame; plain_lines|].
  apply Forall_app; split; [apply plain_tame, map_plain; auto with plain|].
  apply Forall_app; split; [apply plain_tame, ident_lines_plain; eauto|].
  apply Forall_app; split; [apply plain_tame, map_plain; auto with plain|].
  apply Forall_app; split; [by apply negotiation_lines_tame|]. apply plain_tame.
  apply Forall_app; split; [apply strict_kex_lines_plain|]. apply Forall_app; split; [apply host_key_lines_plain|].
  apply Forall_app; split; [apply trust_lines_plain|]. apply Forall_app; split; [plain_lines|].
  apply Forall_app; split; [apply ext_info_lines_plain|]. apply Forall_app; split; [case_match; plain_lines|].
  case_match; plain_lines.
Qed.

Lemma text_lines_tame r : text_ok r -> Forall tame (text_lines r).
Proof.
  intros Hok. pose proof Hok as (Hh & Hc & _). unfold text_lines.
  apply Forall_app; split; [apply plain_tame; repeat case_match; plain_lines|].
  apply Forall_app; split; [case_match; [by apply observed_lines_tame|constructor]|]. apply plain_tame.
  apply Forall_app; split; [plain_lines|]. case_match; plain_lines.
Qed.
End text.

(** ** JSON *)

Section json.
Context `{F : Fs} `{N : Net} `{Sm : Seam} `{Sk : !Socket Sm}.
Context `{Sh : Shows} `{Sa : !ShowAddr Addr} `{Sb : !ShowAddr SocketAddr} `{FS : !FsShows F} `{B64 : Base64}.

(** The integers of a report are those its types can hold. *)
Definition typed_handshake (h : HandshakeReport) : Prop :=
  u64 (OwnedKexInit.reserved (adv_client (r_advertised h))) /\
  from_option (fun k => u64 (OwnedKexInit.reserved k)) True (adv_server (r_advertised h)) /\
  Forall typed_message (r_skipped_messages h) /\ from_option (fun k => u64 (blob_len k)) True (r_host_key h) /\
  u64 (r_protected_packets_sent h) /\ u64 (r_protected_packets_received h) /\
  from_option (fun d => u64 (sd_reason_code d)) True (r_server_disconnect h) /\
  match r_trust h with
  | Some (Trusted src) => from_option u64 True (trust_source_line src)
  | Some (Untrusted reason) => from_option u64 True (untrusted_reason_line reason)
  | None => True
  end.

Definition typed_report (r : Report) : Prop :=
  u64 (rp_port r) /\ from_option (fun e => 0 <= e) True (rp_elapsed r) /\ from_option typed_handshake True (rp_handshake r).

Lemma good_kexinit k : u64 (OwnedKexInit.reserved k) -> good (kexinit_record k).
Proof. intros. unfold kexinit_record. cbn zeta. auto 30 with good. Qed.

Lemma good_skipped m : typed_message m -> good (skipped_record m).
Proof. destruct m; cbn [typed_message skipped_record]; intros; auto 20 with good. Qed.

Lemma good_ident i h : good (ident_record i h).
Proof.
  unfold ident_record. assert (from_option good True (hex <$> TcpIdentification.comments i)) by (apply good_some; auto with good).
  cbn zeta. auto 20 with good.
Qed.

Lemma good_bind {A B} (f : A -> option B) (g : B -> Value) (x : option A) :
  (forall a b, x = Some a -> f a = Some b -> good (g b)) -> from_option good True (g <$> mbind f x).
Proof. intros Hg. destruct x as [a|]; [|done]. cbn. apply good_some. intros b Hb. by eapply Hg. Qed.

Lemma good_opening r : typed_report r -> good_fields (opening_fields r).
Proof.
  intros (Hp & _ & Hh). unfold opening_fields. cbn zeta.
  assert (u64 1) by (unfold u64, U64_MAX; lia).
  assert (forall {B} (f : B -> bytes) (x : option B), from_option good True ((fun a => text (f a)) <$> x)) as Ht
    by (intros; apply good_some; auto with good).
  assert (forall {B} (f : B -> string) (x : option B), from_option good True ((fun a => lit (f a)) <$> x)) as Hl
    by (intros; apply good_some; auto with good).
  assert (from_option good True (h ← rp_handshake r; (fun i => ident_record i h) <$> r_server_identification h)).
  { destruct (rp_handshake r) as [h|]; [|done]. cbn. apply good_some. intros. apply good_ident. }
  assert (good (Array (default [] ((fun h => map bytes_record (r_server_prelude_lines h)) <$> rp_handshake r)))).
  { apply good_array. destruct (rp_handshake r) as [h|]; [|constructor]. cbn. apply Forall_map, Forall_true. intros.
    unfold bytes_record. auto 10 with good. }
  assert (good (Array (default [] ((fun h => map skipped_record (r_skipped_messages h)) <$> rp_handshake r)))).
  { apply good_array. destruct (rp_handshake r) as [h|]; [|constructor]. cbn. apply Forall_map. destruct Hh as (_ & _ & Hs & _).
    eapply Forall_impl; [exact Hs|]. apply good_skipped. }
  auto 40 with good.
Qed.

Lemma good_lit_some v : from_option good True (lit <$> v).
Proof. apply good_some. auto with good. Qed.

Lemma good_bool_some v : from_option good True (Bool <$> v).
Proof. apply good_some. auto with good. Qed.
#[local] Hint Resolve good_lit_some good_bool_some : good.

Lemma good_trust_line t c : match t with
    | Some (Trusted src) => from_option u64 True (trust_source_line src)
    | Some (Untrusted reason) => from_option u64 True (untrusted_reason_line reason)
    | None => True end ->
  from_option good True (UInt <$> snd (fst (trust_fields t c))).
Proof.
  intros Ht. assert (snd (fst (trust_fields t c)) = match t with
    | Some (Trusted src) => trust_source_line src | Some (Untrusted reason) => untrusted_reason_line reason | None => None end) as ->
    by (unfold trust_fields; destruct t as [[]|], c; done).
  destruct t as [[src|reason]|]; [destruct (trust_source_line src)|destruct (untrusted_reason_line reason)|]; done.
Qed.

Lemma good_to_json r : typed_report r -> good (HandshakeCommand.to_json r).
Proof.
  intros Hty. pose proof (good_opening r Hty) as Ho. destruct Hty as (_ & He & Hh). unfold HandshakeCommand.to_json. cbn zeta.
  assert (from_option good True (UInt <$> snd (fst (trust_fields (mbind r_trust (rp_handshake r)) (rp_completion r))))) as Hl.
  { apply good_trust_line. destruct (rp_handshake r) as [h|]; [|done]. apply Hh. }
  destruct (trust_fields _ _) as [[[src reason] line] err]. cbn [fst snd] in Hl.
  assert (from_option good True ((fun h => advertised_record (r_advertised h)) <$> rp_handshake r)).
  { apply good_some. intros h Hx. rewrite Hx in Hh. destruct Hh as (Hc & Hs & _). unfold advertised_record.
    assert (from_option good True (kexinit_record <$> adv_server (r_advertised h))).
    { apply good_some. intros k Hk. rewrite Hk in Hs. by apply good_kexinit. }
    pose proof (good_kexinit _ Hc). auto 10 with good. }
  assert (from_option good True (selected_record <$> mbind r_selected (rp_handshake r))).
  { apply good_bind. intros. unfold selected_record. cbn zeta. auto 20 with good. }
  assert (from_option good True ((fun h => strict_kex_record (r_strict_kex h)) <$> rp_handshake r)).
  { apply good_some. intros. unfold strict_kex_record. cbn zeta. auto 20 with good. }
  assert (from_option good True (host_key_record <$> mbind r_host_key (rp_handshake r))).
  { apply good_bind. intros h k Hx Hk. rewrite Hx in Hh. destruct Hh as (_ & _ & _ & Hb & _). rewrite Hk in Hb. cbn in Hb.
    unfold host_key_record. cbn zeta. auto 20 with good. }
  assert (from_option good True (ext_info_record <$> mbind r_ext_info (rp_handshake r))).
  { apply good_bind. intros h e _ _. unfold ext_info_record. cbn zeta.
    assert (from_option good True (name_values <$> sum_server_sig_algs e)) by (apply good_some; auto with good). auto 20 with good. }
  assert (from_option good True (disconnect_record <$> mbind r_server_disconnect (rp_handshake r))).
  { apply good_bind. intros h d Hx Hk. rewrite Hx in Hh. destruct Hh as (_ & _ & _ & _ & _ & _ & Hb & _). rewrite Hk in Hb. cbn in Hb.
    unfold disconnect_record. cbn zeta. auto 20 with good. }
  assert (from_option good True ((fun k => text (Sha256Fingerprint.display (fingerprint k))) <$> mbind r_host_key (rp_handshake r)))
    by (apply good_bind; auto with good).
  assert (from_option good True ((fun e => text (signature_error e)) <$> mbind r_signature_error (rp_handshake r)))
    by (apply good_bind; auto with good).
  assert (from_option good True ((fun t => Bool (is_trusted t)) <$> mbind r_trust (rp_handshake r))) by (apply good_bind; auto with good).
  assert (from_option good True ((fun e => UInt (millis e)) <$> rp_elapsed r)).
  { apply good_some. intros e Hx. rewrite Hx in He. auto with good. }
  assert (u64 (default 0 (r_protected_packets_sent <$> rp_handshake r)) /\ u64 (default 0 (r_protected_packets_received <$> rp_handshake r))) as [? ?].
  { destruct (rp_handshake r) as [h|]; [|unfold u64, U64_MAX; cbn; lia]. destruct Hh as (_ & _ & _ & _ & Hs & Hr & _). by split. }
  auto 60 with good.
Qed.

(** The fields a reader of the record decides by. *)
Lemma json_fields r : let v := HandshakeCommand.to_json r in let h := rp_handshake r in
  get "user_authenticated" v = Some (Bool false) /\ get "outcome_code" v = Some (lit (code (rp_completion r))) /\
  get "host_trusted" v = Some (default Null ((fun t => Bool (is_trusted t)) <$> mbind r_trust h)) /\
  get "host_key_signature_valid" v = Some (default Null (Bool <$> mbind r_signature_valid h)) /\
  get "key_exchange_completed" v =
    Some (Bool (match h with Some h => r_newkeys_sent h && r_newkeys_received h | None => false end)) /\
  get "service_accepted" v = Some (default Null (text <$> mbind r_service_accepted h)) /\
  get "fingerprint_sha256" v = Some (default Null ((fun k => text (Sha256Fingerprint.display (fingerprint k))) <$> mbind r_host_key h)).
Proof.
  intros v h. subst v h. unfold HandshakeCommand.to_json. cbn zeta. destruct (trust_fields _ _) as [[[src reason] line] err].
  unfold opening_fields. cbn zeta. rewrite !opt_field. split_and!; reflexivity.
Qed.

Lemma code_complete (c : Completion) : lit (code c) = lit "completed" <-> is_complete c = true.
Proof. destruct c; vm_compute; split; intros; congruence. Qed.
End json.

(** ** The run *)

Section run.
Context {K : Type} `{AL : AeadLaws K, HL : HashLaws, DL : DhLaws, DD : Dalek, BP : Base64Padded, HM : HmacSha1}.
Context {R E : Type} `{RL : TryRngLaws R E}.
Context `{F : Fs} `{N : Net} {Sm : Seam} `{SL : !SeamLaws Sm, Sk : !Socket Sm}.
Context (features : Features) (hashed : bool).
Context (attach : Stream -> NetWorld -> @World (traced Sm)) (fuel : nat).
Context (o : Options) (provider : option SignatureProvider) (rng : R).

#[local] Instance traced_sk : Socket (traced Sm) := traced_socket Sm Sk.

Abbreviation TracedReport := (@Report F N (traced Sm) traced_sk).
Implicit Types r : TracedReport.

Definition command (w : NetWorld) : run TracedReport :=
  run_command (Sm := traced Sm) (K := K) features hashed attach fuel o provider rng w.

(** A report without a connection, or one of a run. *)
Lemma command_cases w r : command w = Done r ->
  (exists name c, r = unconnected o name c /\ is_complete c = false /\ completion_named c) \/
  exists prepared x w0 w' run, FacadeTrust.prepare features hashed (opt_trust o) (host o) (port o) = Some (Ok prepared) /\
    run_handshake (Sm := traced Sm) (K := K) features (policy prepared) fuel (config o) provider rng (io o) (attach x w0) = Done (w', Ok run) /\
    r = from_run o (prepared_name prepared) run.
Proof.
  unfold command, run_command. destruct (FacadeTrust.prepare _ _ _ _ _) as [[prepared|e]|] eqn:Ep; [| |done].
  2: { intros [= <-]. left. by eexists _, _. }
  destruct (hs_connect _ _ _ w) as [w1 [x|e]].
  2: { intros [= <-]. left. by eexists _, _. }
  destruct (run_handshake _ _ _ _ _ _ _ _) as [[w2 [run|e]]| |] eqn:Er; [| |done|done].
  - intros [= <-]. right. by exists prepared, x, w1, w2, run.
  - intros [= <-]. left. by eexists _, _.
Qed.

(** A run's report is that of a state the handshake can reach. *)
Lemma command_state w r h : hs_config_ok (config o) -> command w = Done r -> rp_handshake r = Some h ->
  exists prepared (hs : ClientHandshake.t K) e,
    FacadeTrust.prepare features hashed (opt_trust o) (host o) (port o) = Some (Ok prepared) /\ h = ClientHandshake.report hs /\
    sound (R:=R) (policy prepared) features (config o) provider hs /\ end_matches hs e /\ rp_completion r = completion_of e.
Proof.
  intros Hc Hr Hh. apply command_cases in Hr as [(name & c & -> & _)|(prepared & x & w0 & w' & run & Hp & Hrun & ->)]; [done|].
  destruct (run_handshake_spec (E := E) _ _ _ _ _ _ _ _ _ _ Hc Hrun) as (hs0 & hsn & hs & l & out & said & t0 & t1 & _ & _ & _ & _ & _ & _ & _ & Hrep & _ & Hso & Hm).
  injection Hh as <-. exists prepared, hs, (end_ run). split_and!; done.
Qed.

Lemma from_outcome_named out : outcome_named out -> completion_named (from_outcome out).
Proof. by destruct out. Qed.

Lemma command_text_ok w r : hs_config_ok (config o) -> plain (host o) -> command w = Done r -> text_ok r.
Proof.
  intros Hc Hh Hr. pose proof (command_cases w r Hr) as [(name & c & -> & _ & Hn)|(prepared & x & w0 & w' & run & Hp & Hrun & Er)]; [done|].
  assert (exists h, rp_handshake r = Some h) as [h Hrh] by (rewrite Er; by eexists).
  destruct (command_state w r h Hc Hr Hrh) as (pr & hs & e & _ & Eh & [Hre _] & Hm & Hco).
  destruct (reachable_tidy features (config o) provider hs Hre) as [Hti Hto _ _ _ _]. split_and!.
  - by rewrite Er.
  - rewrite Hco. destruct e as [out| |]; [|done|done]. apply from_outcome_named, Hto, Hm.
  - intros h' i Hh' Hi. rewrite Hrh in Hh'. injection Hh' as <-. rewrite Eh in Hi. by apply Hti.
Qed.

Lemma complete_outcome e : is_complete (completion_of e) = true -> e = EndFinished Completed.
Proof. by destruct e as [[]| |]. Qed.

(** The state behind a completed report. *)
Lemma command_complete w r : hs_config_ok (config o) -> command w = Done r -> is_complete (rp_completion r) = true ->
  exists prepared (hs : ClientHandshake.t K) id src ks,
    FacadeTrust.prepare features hashed (opt_trust o) (host o) (port o) = Some (Ok prepared) /\
    rp_handshake r = Some (ClientHandshake.report hs) /\ ClientHandshake.identity hs = Some id /\
    decide_trust (policy prepared) (as_identity id) = Trusted src /\ ClientHandshake.trust hs = Some (Trusted src) /\
    verified features hs ks /\ ClientHandshake.signature_valid hs = Some true /\
    ClientHandshake.newkeys_sent hs = true /\ ClientHandshake.newkeys_received hs = true /\
    ClientHandshake.service_accepted hs = Some (HandshakeConfig.service (config o)) /\
    exists k, ClientHandshake.host_key hs = Some k /\ shows k id.
Proof.
  intros Hc Hr Hco. pose proof (command_cases w r Hr) as [(name & c & -> & Hn & _)|(pr & ? & ? & ? & run & _ & _ & Er)];
    [cbn [rp_completion unconnected] in Hco; congruence|].
  assert (exists h, rp_handshake r = Some h) as [h Hrh] by (rewrite Er; by eexists).
  destruct (command_state w r h Hc Hr Hrh) as (prepared & hs & e & Hp & -> & [Hre Htr] & Hm & He).
  rewrite He in Hco. apply complete_outcome in Hco as ->.
  destruct (completed_state features (config o) provider hs Hc Hre Hm) as (Hns & Hnr & (src & Ht) & Hsv & (ks & Hv) & _).
  destruct (Htr _ Ht) as [_ (id & Hid & Hd)].
  destruct (reachable_state features (config o) provider hs Hc Hre) as ([Hb _] & _).
  destruct (b_sent _ _ Hb Hns) as [Hsig _].
  destruct (ti_key _ (reachable_tidy features (config o) provider hs Hre) id Hid) as (k & Hk & Hs).
  exists prepared, hs, id, src, ks. split_and!; try done. by exists k.
Qed.

(** C2: a handshake report says completed only for a host that was verified and
    trusted by the configured source: the trust configuration was usable; its
    policy trusted exactly the identity whose signature over this exchange
    verified, and a pin equals its fingerprint; NEWKEYS went both ways; the
    server accepted the configured service; and the report shows that host key,
    a valid signature and that decision. *)
Theorem handshake_report_complete w r :
  hs_config_ok (config o) -> command w = Done r -> is_complete (rp_completion r) = true ->
  exists prepared (hs : ClientHandshake.t K) id src ks k,
    FacadeTrust.prepare features hashed (opt_trust o) (host o) (port o) = Some (Ok prepared) /\
    rp_handshake r = Some (ClientHandshake.report hs) /\ rp_lookup_name r = prepared_name prepared /\
    ClientHandshake.identity hs = Some id /\ verified features hs ks /\
    decide_trust (policy prepared) (as_identity id) = Trusted src /\
    (forall p, opt_trust o = Pin p -> zlen (Sha256Fingerprint.digest p) = SHA256_LEN ->
       zlen (Sha256Fingerprint.digest (own_sha256 id)) = SHA256_LEN -> p = own_sha256 id) /\
    let h := ClientHandshake.report hs in
    r_host_key h = Some k /\ fingerprint k = own_sha256 id /\ r_signature_valid h = Some true /\
    r_trust h = Some (Trusted src) /\ r_newkeys_sent h = true /\ r_newkeys_received h = true /\
    r_service_accepted h = Some (HandshakeConfig.service (config o)).
Proof.
  intros Hc Hr Hco. destruct (command_complete w r Hc Hr Hco)
    as (prepared & hs & id & src & ks & Hp & Hh & Hid & Hd & Ht & Hv & Hsv & Hns & Hnr & Hsa & k & Hk & _ & Hf & _).
  exists prepared, hs, id, src, ks, k. split_and!; try done.
  - pose proof (command_cases w r Hr) as [(name & c & -> & Hn & _)|(pr & ? & ? & ? & run & Hp' & _ & ->)]; [cbn [rp_completion unconnected] in Hco; congruence|].
    rewrite Hp in Hp'. by injection Hp' as <-.
  - intros p Ho Hl Hl'. rewrite Ho in Hp. unfold FacadeTrust.prepare in Hp. injection Hp as <-. 
    unfold decide_trust in Hd; cbn [shared_policy shared_decide policy] in Hd. unfold pinned_decide in Hd. cbn [pin] in Hd.
    apply fingerprint_eq_iff; [done|done|]. change (id_sha256 (as_identity id)) with (own_sha256 id) in Hd.
    by destruct (Sha256Fingerprint.eq p (own_sha256 id)).
Qed.

(** C9: nothing the server sends reaches the terminal raw: every line of a
    handshake report's text is printable ASCII, but for two fixed lines with a
    section sign, and reading the text back gives the report's own lines, so no
    server can add, split or hide one; this is for a host name typed in printable
    ASCII, and for addresses and system errors that print as such. *)
Theorem handshake_text_safe `{Sh : Shows, !ShowsPlain Sh} `{Sa : !ShowAddr Addr, !ShowAddrPlain Sa}
    `{Sb : !ShowAddr (@SocketAddr _ traced_sk), !ShowAddrPlain Sb} `{FS : !FsShows F} `{B64 : Base64, !Base64Plain B64} w r :
  hs_config_ok (config o) -> plain (host o) -> command w = Done r ->
  Forall tame (text_lines r) /\ lines_of [] (write_text r) = text_lines r.
Proof.
  intros Hc Hh Hr. assert (Forall tame (text_lines r)) as Ht by (by eapply text_lines_tame, command_text_ok).
  split; [done|]. apply write_lines_unbroken. eapply Forall_impl; [exact Ht|]. apply tame_unbroken.
Qed.

(** C15: the JSON record of a handshake says what happened: it is one line that
    reads back as the record; it never claims an authenticated user; its outcome
    code is [completed] exactly for a completed run, and then the record shows a
    trusted host, a valid signature, an exchange completed in both directions,
    the configured service, and the fingerprint of the host key that the
    configured trust source accepted. *)
Theorem handshake_json_sound `{Sh : Shows} `{Sa : !ShowAddr Addr} `{Sb : !ShowAddr (@SocketAddr _ traced_sk)}
    `{FS : !FsShows F} `{B64 : Base64} w r :
  hs_config_ok (config o) -> command w = Done r -> typed_report r ->
  let v := HandshakeCommand.to_json r in
  read_line (Utf8.as_bytes (Json.to_json v)) = Some v /\ unbroken (Utf8.as_bytes (Json.to_json v)) /\
  get "user_authenticated" v = Some (Bool false) /\
  (get "outcome_code" v = Some (lit "completed") <-> is_complete (rp_completion r) = true) /\
  (get "outcome_code" v = Some (lit "completed") ->
     get "host_trusted" v = Some (Bool true) /\ get "host_key_signature_valid" v = Some (Bool true) /\
     get "key_exchange_completed" v = Some (Bool true) /\
     get "service_accepted" v = Some (text (HandshakeConfig.service (config o))) /\
     exists prepared id src, FacadeTrust.prepare features hashed (opt_trust o) (host o) (port o) = Some (Ok prepared) /\
       decide_trust (policy prepared) (as_identity id) = Trusted src /\
       get "fingerprint_sha256" v = Some (text (Sha256Fingerprint.display (own_sha256 id)))).
Proof.
  intros Hc Hr Hty v. pose proof (good_to_json r Hty) as Hg.
  destruct (json_fields r) as (Hu & Hcode & Htr & Hsig & Hkex & Hsvc & Hfp).
  assert (get "outcome_code" v = Some (lit "completed") <-> is_complete (rp_completion r) = true) as Hiff.
  { subst v. rewrite Hcode. rewrite <- code_complete. split; [intros Hx; by apply (inj Some) in Hx|by intros ->]. }
  split_and!; [by apply read_line_json|by apply json_unbroken|done|exact Hiff|].
  intros Hcomp. apply Hiff in Hcomp. destruct (command_complete w r Hc Hr Hcomp)
    as (prepared & hs & id & src & ks & Hp & Hh & Hid & Hd & Ht & Hv & Hsv & Hns & Hnr & Hsa & k & Hk & _ & Hf & _).
  subst v. rewrite Hh in *. cbn [mbind option_bind ClientHandshake.report r_trust r_signature_valid r_newkeys_sent r_newkeys_received
    r_service_accepted r_host_key] in *.
  rewrite Ht in Htr. rewrite Hsv in Hsig. rewrite Hns, Hnr in Hkex. rewrite Hsa in Hsvc. rewrite Hk in Hfp. cbn [fmap option_fmap option_map default] in Hfp.
  rewrite Hf in Hfp. split_and!; try assumption. by exists prepared, id, src.
Qed.
End run.

(** ** An example run *)

Import Demo.
#[local] Existing Instances Scripted.scripted_laws scripted_socket letters_codec echo_mac.
#[local] Existing Instances demo_shows demo_shows_plain demo_addr_plain.

(** A file system without files, and hexadecimal for base64. *)
Definition no_files : Fs := {|
  Path := unit;
  FacadeTrust.IoError := unit;
  File := unit;
  fs_open _ := Err tt;
  fs_metadata _ := Err tt;
  fs_read _ _ := Err tt
|}.

Definition no_files_shows : FsShows no_files := {| show_fs_path _ := bstr "/k"; show_fs_error _ := bstr "error" |}.

Definition hex64 : Base64 := {| b64_decode _ := None; b64_encode d := mjoin (map hex_byte d) |}.

Lemma hex64_plain : Base64Plain hex64.
Proof. intros d. apply plain_join, Forall_map, Forall_true. intros b. by destruct b; repeat constructor. Qed.

#[local] Existing Instances no_files no_files_shows hex64 hex64_plain demo_net.
#[local] Instance demo_local : ShowAddr (@SocketAddr (traced Scripted.scripted_seam) (traced_socket _ scripted_socket)) := demo_addr.
#[local] Instance demo_remote : ShowAddr (@Addr demo_net) := demo_addr.

(** The example server, with its key pinned. *)
Definition demo_options : Options :=
  mkOptions (bstr "h") 22 (Pin (Sha256Fingerprint.of_blob host_blob)) (mkHandshakeIo 100 100 64) HandshakeConfig.default.

Abbreviation demo_command :=
  (command (K := unit) (E := unit) (F := no_files) (N := demo_net) (Sm := Scripted.scripted_seam) demo_features false (fun _ _ => demo_world) 40 demo_options None tt tt).

Lemma demo_command_done : match demo_command with Done r => is_complete (rp_completion r) = true | _ => False end.
Proof. vm_compute. reflexivity. Qed.

(** The completed report shows the pinned fingerprint. *)
Lemma handshake_report_complete_witness :
  match demo_command with
  | Done r => is_complete (rp_completion r) = true /\
      exists h k, rp_handshake r = Some h /\ r_host_key h = Some k /\ r_signature_valid h = Some true
  | _ => False
  end.
Proof.
  pose proof demo_command_done as Hd. destruct demo_command as [r| |] eqn:Er; [|exact Hd|exact Hd].
  split; [exact Hd|].
  destruct (handshake_report_complete (R := unit) (E := unit) (F := no_files) (N := demo_net) (Sm := Scripted.scripted_seam) demo_features false (fun _ _ => demo_world)
    40 demo_options None tt tt r default_handshake_ok Er Hd)
    as (prepared & hs & id & src & ks & k & _ & Hh & _ & _ & _ & _ & _ & Hk & _ & Hs & _).
  exists (ClientHandshake.report hs), k. exact (conj Hh (conj Hk Hs)).
Defined.

Lemma handshake_text_safe_witness :
  match demo_command with
  | Done r => lines_of [] (write_text r) = text_lines r /\ text_lines r !! 0%nat = Some (bstr "Target: h:22")
  | _ => False
  end.
Proof.
  assert (match demo_command with Done r => text_lines r !! 0%nat = Some (bstr "Target: h:22") | _ => False end) as Hd
    by (vm_compute; reflexivity).
  destruct demo_command as [r| |] eqn:Er; [|exact Hd|exact Hd]. split; [|exact Hd].
  exact (proj2 (handshake_text_safe (R := unit) (E := unit) (F := no_files) (N := demo_net) (Sm := Scripted.scripted_seam) demo_features false (fun _ _ => demo_world)
    40 demo_options None tt tt r default_handshake_ok (plain_literal "h" eq_refl) Er)).
Defined.

(** The integers of the example report. *)
Definition small_report (r : @Report no_files demo_net (traced Scripted.scripted_seam) (traced_socket _ scripted_socket)) : bool :=
  let small n := (0 <=? n) && (n <=? U64_MAX) in
  small (rp_port r) && match rp_elapsed r with Some e => 0 <=? e | None => true end &&
  match rp_handshake r with
  | Some h => small (OwnedKexInit.reserved (adv_client (r_advertised h))) &&
      match adv_server (r_advertised h) with Some k => small (OwnedKexInit.reserved k) | None => true end &&
      match r_skipped_messages h, r_server_disconnect h with [], None => true | _, _ => false end &&
      match r_host_key h with Some k => small (blob_len k) | None => true end &&
      small (r_protected_packets_sent h) && small (r_protected_packets_received h) &&
      match r_trust h with Some (Trusted PinnedFingerprint) => true | _ => false end
  | None => true
  end.

Lemma small_report_typed r : small_report r = true -> typed_report r.
Proof.
  unfold small_report, typed_report, u64. cbn zeta. intros Hs. repeat rewrite andb_true_iff in Hs. destruct Hs as ((? & He) & Hh).
  split; [lia|]. split; [destruct (rp_elapsed r); [cbn; lia|done]|].
  destruct (rp_handshake r) as [h|]; [|done]. cbn [from_option]. unfold typed_handshake, u64.
  repeat rewrite andb_true_iff in Hh. destruct Hh as ((((((H1 & H2) & H3) & H4) & H5) & H6) & H7).
  destruct (r_skipped_messages h); [|done]. destruct (r_server_disconnect h); [done|].
  destruct (r_trust h) as [[[|]|]|]; try done.
  split_and!; try lia; try done; [destruct (adv_server _)|destruct (r_host_key h)]; cbn; (done || lia).
Qed.

Lemma handshake_json_sound_witness :
  match demo_command with
  | Done r => exists v, read_line (Utf8.as_bytes (Json.to_json v)) = Some v /\ get "host_trusted" v = Some (Bool true) /\
      get "outcome_code" v = Some (lit "completed")
  | _ => False
  end.
Proof.
  pose proof demo_command_done as Hd.
  assert (match demo_command with Done r => small_report r = true | _ => False end) as Hs by (vm_compute; reflexivity).
  destruct demo_command as [r| |] eqn:Er; [|exact Hd|exact Hd].
  destruct (handshake_json_sound (R := unit) (E := unit) (F := no_files) (N := demo_net) (Sm := Scripted.scripted_seam) demo_features false (fun _ _ => demo_world)
    40 demo_options None tt tt r default_handshake_ok Er (small_report_typed r Hs)) as (Hl & _ & _ & Hiff & Himp).
  exists (HandshakeCommand.to_json r). split; [exact Hl|]. pose proof (proj2 Hiff Hd) as Hc.
  split; [exact (proj1 (Himp Hc))|exact Hc].
Defined.
