(* ===== verification/Durations.v ===== *)
(** * Durations on the command line

    Models [parse_duration] of both entry points
    (crates/tatami_ssh/src/bin/tatami-client.rs, tatami-server.rs). The code
    computes with [f64]: numbers here are IEEE 754 binary64 values
    ([spec_float] of the Standard Library with 53 bits and exponent 1024),
    rounded to nearest, ties to even, as [f64::from_str] and the operators are.
    A [Duration] is its nanoseconds; [None] is a panic. *)

From Stdlib Require Import SpecFloat.
From S2P Require Import Prelude KexInit KeyAlgorithm HostKey Transcript Trust KnownHosts KnownHostsProps.

(** [{:?}] of a string, as the standard library escapes it. *)
Class DebugStr : Type := debug_str : bytes -> bytes.

(** A usage error is its text. *)
Definition UsageError : Type := bytes.

Module Durations.

(** ** Binary64 *)

Definition f64_div : spec_float -> spec_float -> spec_float := SFdiv 53 1024.

Definition f64_mul : spec_float -> spec_float -> spec_float := SFmul 53 1024.

(** The number closest to [n / d]. *)
Definition f64_ratio (n d : Z) : spec_float :=
  match n, d with
  | Zpos n, Zpos d => f64_div (S754_finite false n 0) (S754_finite false d 0)
  | _, _ => S754_zero false
  end.

Definition f64_of (n : Z) : spec_float := f64_ratio n 1.

Definition is_finite (x : spec_float) : bool :=
  match x with S754_zero _ | S754_finite _ _ _ => true | _ => false end.

(** The longest prefix whose bytes satisfy [f], and the rest. *)
Fixpoint span (f : byte -> bool) (t : bytes) : bytes * bytes :=
  match t with
  | [] => ([], [])
  | c :: t' => if f c then let '(a, b) := span f t' in (c :: a, b) else ([], t)
  end.

Fixpoint digits_value (acc : Z) (t : bytes) : Z :=
  match t with [] => acc | c :: t' => digits_value (acc * 10 + (u8 c - 48)) t' end.

(** [f64::from_str] on a text of digits and points, the only one it is given:
    digits with at most one point among them, and at least one digit. *)
Definition parse_f64 (t : bytes) : option spec_float :=
  let '(ip, rest) := span is_digit t in
  let fp := match rest with [] => [] | _ :: fp => fp end in
  if negb (forallb is_digit fp) then None
  else match ip ++ fp with
       | [] => None
       | ds => Some (f64_ratio (digits_value 0 ds) (10 ^ zlen fp))
       end.

Definition half_even (n d : Z) : Z :=
  let q := n / d in
  let r := n mod d in
  if 2 * r <? d then q else if d <? 2 * r then q + 1 else if Z.even q then q else q + 1.

(** [Duration::from_secs_f64]: the nearest number of nanoseconds, ties to even;
    a panic when the seconds are negative, not finite or do not fit 64 bits. *)
Definition from_secs_f64 (x : spec_float) : option Z :=
  match x with
  | S754_zero _ => Some 0
  | S754_finite false m e =>
      let num := if 0 <=? e then Zpos m * 2 ^ e else Zpos m in
      let den := if 0 <=? e then 1 else 2 ^ (- e) in
      if num <? 2 ^ 64 * den then Some (half_even (num * 1000000000) den) else None
  | _ => None
  end.

Section parse.
Context `{DebugStr}.

(* facade/bin/tatami-client.rs:217-240 parse_duration *)
Definition client_parse_duration (s : bytes) : option (result Z UsageError) :=
  let bad := bstr "invalid duration " ++ debug_str s ++ bstr "; use forms like 5s, 500ms or 2m" in
  let '(num, unit) :=
    match span (fun c => is_digit c || byte_eqb c "."%byte) s with
    | (num, []) => (num, bstr "s")
    | (num, unit) => (num, unit)
    end in
  match parse_f64 num with
  | None => Some (Err bad)
  | Some value =>
      let secs :=
        if bytes_eqb unit (bstr "ms") then Some (f64_div value (f64_of 1000))
        else if bytes_eqb unit (bstr "s") then Some value
        else if bytes_eqb unit (bstr "m") then Some (f64_mul value (f64_of 60))
        else None in
      match secs with
      | None => Some (Err bad)
      | Some secs =>
          if negb (is_finite secs) || SFleb secs (S754_zero false)
          then Some (Err (bstr "duration " ++ debug_str s ++ bstr " must be greater than zero"))
          else let* d := from_secs_f64 secs in Some (Ok d)
      end
  end.

(* facade/bin/tatami-server.rs:191-218 parse_duration *)
Definition server_parse_duration (s : bytes) : option (result Z UsageError) :=
  let bad := bstr "invalid duration " ++ debug_str s ++ bstr "; use forms like 5s, 500ms or 10m" in
  let '(num, unit) :=
    match span (fun c => is_digit c || byte_eqb c "."%byte) s with
    | (num, []) => (num, bstr "s")
    | (num, unit) => (num, unit)
    end in
  match parse_f64 num with
  | None => Some (Err bad)
  | Some value =>
      let secs :=
        if bytes_eqb unit (bstr "ms") then Some (f64_div value (f64_of 1000))
        else if bytes_eqb unit (bstr "s") then Some value
        else if bytes_eqb unit (bstr "m") then Some (f64_mul value (f64_of 60))
        else if bytes_eqb unit (bstr "h") then Some (f64_mul value (f64_of 3600))
        else None in
      match secs with
      | None => Some (Err bad)
      | Some secs =>
          if negb (is_finite secs) || SFleb secs (S754_zero false)
          then Some (Err (bstr "duration " ++ debug_str s ++ bstr " must be greater than zero"))
          else if SFltb (f64_mul (f64_of 366) (f64_of 86400)) secs
          then Some (Err (bstr "duration " ++ debug_str s ++ bstr " is unreasonably large"))
          else let* d := from_secs_f64 secs in Some (Ok d)
      end
  end.
End parse.

(** ** Numbers *)

Lemma digits2_bounds p : 2 ^ (Zpos (digits2_pos p) - 1) <= Zpos p < 2 ^ Zpos (digits2_pos p).
Proof.
  induction p as [p IH|p IH|]; cbn [digits2_pos]; [| |by cbn].
  all: rewrite Pos2Z.inj_succ; replace (Z.succ (Zpos (digits2_pos p)) - 1) with (Zpos (digits2_pos p) - 1 + 1) by lia.
  all: rewrite Z.pow_add_r, Z.pow_succ_r by lia; lia.
Qed.

Lemma digits2_unique p d : 0 < d -> 2 ^ (d - 1) <= Zpos p < 2 ^ d -> Zpos (digits2_pos p) = d.
Proof.
  intros Hd Hp. pose proof (digits2_bounds p) as Hb.
  destruct (Z.lt_trichotomy (Zpos (digits2_pos p)) d) as [Hlt|[He|Hgt]]; [|done|].
  - pose proof (Z.pow_le_mono_r 2 (Zpos (digits2_pos p)) (d - 1)). lia.
  - pose proof (Z.pow_le_mono_r 2 d (Zpos (digits2_pos p) - 1)). lia.
Qed.

(** Shifting right divides; what is lost goes to the two flags. *)
Lemma shr_1_m r : 0 <= shr_m r -> shr_m (shr_1 r) = shr_m r / 2.
Proof.
  destruct r as [m g s]. cbn [shr_m]. destruct m as [|[p|p|]|p]; cbn [shr_1 shr_m]; intros; try done.
  - rewrite Pos2Z.inj_xI. apply (Z.div_unique _ _ _ 1); lia.
  - rewrite Pos2Z.inj_xO. apply (Z.div_unique _ _ _ 0); lia.
Qed.

Lemma iter_shr_m p r : 0 <= shr_m r -> shr_m (SpecFloat.iter_pos shr_1 p r) = shr_m r / 2 ^ Zpos p.
Proof.
  revert r. induction p as [p IH|p IH|]; intros r Hr; cbn [SpecFloat.iter_pos].
  - assert (0 <= shr_m (shr_1 r)) by (rewrite shr_1_m by done; apply Z.div_pos; lia).
    assert (0 <= shr_m (SpecFloat.iter_pos shr_1 p (shr_1 r))) by (rewrite IH by done; apply Z.div_pos; lia).
    rewrite !IH, shr_1_m by done. rewrite !Z.div_div by lia. f_equal.
    rewrite (Pos2Z.inj_xI p), Z.pow_add_r, Z.pow_mul_r by lia. change (2 ^ 1) with 2. rewrite <- Z.pow_mul_r by lia.
    replace (2 * Zpos p) with (Zpos p + Zpos p) by lia. rewrite Z.pow_add_r by lia. lia.
  - assert (0 <= shr_m (SpecFloat.iter_pos shr_1 p r)) by (rewrite IH by done; apply Z.div_pos; lia).
    rewrite !IH by done. rewrite Z.div_div by lia. f_equal. rewrite (Pos2Z.inj_xO p).
    replace (2 * Zpos p) with (Zpos p + Zpos p) by lia. rewrite Z.pow_add_r by lia. lia.
  - by rewrite shr_1_m.
Qed.

(** A mantissa that has been aligned fits 53 bits. *)
Lemma shr_fexp_small m e l mrs e' :
  0 <= m -> shr_fexp 53 1024 m e l = (mrs, e') -> 0 <= shr_m mrs < 2 ^ 53.
Proof.
  intros Hm. unfold shr_fexp.
  assert (shr_m (shr_record_of_loc m l) = m) as Hl by (by destruct l as [|[]]).
  assert (m < 2 ^ Zdigits2 m) as Hd by (destruct m as [|p|p]; [done|apply digits2_bounds|lia]).
  set (k := fexp 53 1024 (Zdigits2 m + e) - e). intros Hs.
  assert (0 <= Zdigits2 m) by (destruct m; cbn; lia). assert (Zdigits2 m - 53 <= k) by (unfold k, fexp; lia).
  destruct k as [|p|p] eqn:Ek; cbn [shr] in Hs; injection Hs as <- <-.
  - rewrite Hl. pose proof (Z.pow_le_mono_r 2 (Zdigits2 m) 53). lia.
  - rewrite iter_shr_m, Hl by lia. split; [apply Z.div_pos; lia|]. apply Z.div_lt_upper_bound; [lia|].
    rewrite <- Z.pow_add_r by lia. pose proof (Z.pow_le_mono_r 2 (Zdigits2 m) (Zpos p + 53)). lia.
  - rewrite Hl. pose proof (Z.pow_le_mono_r 2 (Zdigits2 m) 53). lia.
Qed.

Lemma round_small s mx ex lx t m e :
  0 <= mx -> binary_round_aux 53 1024 s mx ex lx = S754_finite t m e -> Zpos m < 2 ^ 53.
Proof.
  intros Hm. unfold binary_round_aux. destruct (shr_fexp 53 1024 mx ex lx) as [r1 e1] eqn:E1.
  destruct (shr_fexp 53 1024 (round_nearest_even _ _) e1 loc_Exact) as [r2 e2] eqn:E2.
  apply shr_fexp_small in E1; [|done].
  assert (0 <= round_nearest_even (shr_m r1) (loc_of_shr_record r1)) as Hr.
  { unfold round_nearest_even. repeat case_match; lia. }
  apply shr_fexp_small in E2; [|done]. destruct (shr_m r2); [done| |done]. case_match; [|done]. intros [= <- <- <-]. lia.
Qed.

Lemma div_small x y t m e : f64_div x y = S754_finite t m e -> Zpos m < 2 ^ 53.
Proof.
  unfold f64_div, SFdiv. destruct x as [| | |sx mx ex], y as [| | |sy my ey]; try done.
  unfold SFdiv_core_binary. set (m' := match _ with Z0 => _ | _ => _ end).
  assert (0 <= m') as Hm by (unfold m'; case_match; [lia|apply Z.shiftl_nonneg; lia|lia]).
  pose proof (Z.div_eucl_eq m' (Zpos my) ltac:(lia)) as He. pose proof (Z.mod_pos_bound m' (Zpos my) ltac:(lia)) as Hb.
  unfold Z.modulo in Hb. destruct (Z.div_eucl m' (Zpos my)) as [q r]. apply round_small. nia.
Qed.

Lemma mul_small x y t m e : f64_mul x y = S754_finite t m e -> Zpos m < 2 ^ 53.
Proof. unfold f64_mul, SFmul. destruct x as [| | |sx mx ex], y as [| | |sy my ey]; try done. by apply round_small. Qed.

Lemma ratio_small n d t m e : f64_ratio n d = S754_finite t m e -> Zpos m < 2 ^ 53.
Proof. unfold f64_ratio. destruct n, d; try done. apply div_small. Qed.

(** ** Bounds *)

Lemma half_even_le n d k : 0 <= n -> 0 < d -> n <= k * d -> 0 <= half_even n d <= k.
Proof.
  intros Hn Hd Hk. unfold half_even. pose proof (Z.div_mod n d ltac:(lia)) as He. pose proof (Z.mod_pos_bound n d Hd).
  pose proof (Z.div_pos n d Hn Hd). repeat case_match; rewrite ?Z.ltb_lt, ?Z.ltb_ge in *; nia.
Qed.

(** The largest number of seconds the server takes, 366 days. *)
Definition YEAR : Z := 366 * 86400.

Lemma year_value : f64_mul (f64_of 366) (f64_of 86400) = S754_finite false 8488573363814400 (-28).
Proof. vm_compute. reflexivity. Qed.

Lemma within_year m e :
  Zpos m < 2 ^ 53 -> SFltb (f64_mul (f64_of 366) (f64_of 86400)) (S754_finite false m e) = false ->
  exists d, from_secs_f64 (S754_finite false m e) = Some d /\ 0 <= d <= YEAR * 1000000000.
Proof.
  rewrite year_value. unfold SFltb. cbn [SFcompare]. intros Hm Hlt.
  assert (e <= -28 /\ Zpos m <= YEAR * 2 ^ (- e)) as [He Hv].
  { destruct (Z.compare_spec (-28) e) as [<-|?|Hgt]; [|done|].
    - split; [done|]. change (Pos.compare_cont Eq ?a ?b) with (Pos.compare a b) in Hlt.
      replace (YEAR * 2 ^ (- -28)) with 8488573363814400 by (vm_compute; reflexivity).
      apply Pos2Z.pos_le_pos, Pos.le_nlt. intros Hgt. rewrite <- Pos.compare_lt_iff in Hgt. by rewrite Hgt in Hlt.
    - split; [lia|]. pose proof (Z.pow_le_mono_r 2 29 (- e) ltac:(lia) ltac:(lia)). unfold YEAR. lia. }
  unfold from_secs_f64. destruct (Z.leb_spec 0 e); [lia|]. unfold YEAR in *.
  pose proof (Z.pow_pos_nonneg 2 (- e) ltac:(lia) ltac:(lia)).
  destruct (Z.ltb_spec (Zpos m) (2 ^ 64 * 2 ^ (- e))) as [_|Hge]; [|lia].
  eexists; split; [done|]. apply half_even_le; lia.
Qed.

(** A parsed number fits the format. *)
Lemma parse_f64_small t x s m e : parse_f64 t = Some x -> x = S754_finite s m e -> Zpos m < 2 ^ 53.
Proof.
  unfold parse_f64. destruct (span is_digit t) as [ip rest]. repeat case_match; try done; intros [= <-]; apply ratio_small.
Qed.

(** What passes the sign test is a positive number. *)
Lemma positive_secs x :
  negb (is_finite x) || SFleb x (S754_zero false) = false -> exists m e, x = S754_finite false m e.
Proof. destruct x as [?|?| |[] m e]; try done. intros _. by exists m, e. Qed.

(** ** Whole seconds *)

(** An integer of at most 53 bits is a number of the format. *)
Lemma f64_of_exact n :
  0 < n < 2 ^ 53 ->
  exists m e, f64_of n = S754_finite false m e /\ - 53 < e <= 0 /\ Zpos m = n * 2 ^ (- e).
Proof.
  intros Hn. destruct n as [|p|p]; [lia| |lia]. pose proof (digits2_bounds p) as Hd. set (d := Zpos (digits2_pos p)) in *.
  assert (0 < d <= 53) as Hd'.
  { split; [lia|]. destruct (Z.le_gt_cases d 53); [done|]. pose proof (Z.pow_le_mono_r 2 53 (d - 1)). lia. }
  pose proof (Z.pow_pos_nonneg 2 (53 - d) ltac:(lia) ltac:(lia)) as Hpow.
  set (q := Z.to_pos (Zpos p * 2 ^ (53 - d))). assert (Zpos q = Zpos p * 2 ^ (53 - d)) as Hq by (apply Z2Pos.id; lia).
  assert (Zpos (digits2_pos q) = 53) as Hq53.
  { apply digits2_unique; [lia|]. rewrite Hq. replace (53 - 1) with ((d - 1) + (53 - d)) by lia.
    replace (2 ^ 53) with (2 ^ (d + (53 - d))) by (f_equal; lia). rewrite !Z.pow_add_r by lia. nia. }
  exists q, (d - 53). split_and!; [|lia|lia|rewrite Hq; f_equal; f_equal; lia].
  unfold f64_of, f64_ratio, f64_div, SFdiv, SFdiv_core_binary. cbn [Zdigits2]. fold d.
  change (Zpos (digits2_pos 1)) with 1.
  replace (Z.min (fexp 53 1024 (d + 0 - (1 + 0))) (0 - 0)) with (d - 54) by (unfold fexp, emin; lia).
  replace (0 - 0 - (d - 54)) with (54 - d) by lia. destruct (54 - d) as [|s|s] eqn:Es; [lia| |lia].
  rewrite Z.shiftl_mul_pow2 by lia. replace (Zpos p * 2 ^ Zpos s) with (Zpos q~0)
    by (rewrite (Pos2Z.inj_xO q), Hq, <- Es; replace (54 - d) with (1 + (53 - d)) by lia; rewrite Z.pow_add_r by lia; lia).
  replace (Z.div_eucl (Zpos q~0) 1) with (Zpos q~0, 0)
    by (rewrite (surjective_pairing (Z.div_eucl (Zpos q~0) 1)); change (fst (Z.div_eucl (Zpos q~0) 1)) with (Zpos q~0 / 1);
        change (snd (Z.div_eucl (Zpos q~0) 1)) with (Zpos q~0 mod 1); by rewrite Z.div_1_r, Z.mod_1_r).
  change (new_location 1 0) with loc_Exact. unfold binary_round_aux. unfold shr_fexp at 1. cbn [Zdigits2 digits2_pos shr_record_of_loc].
  rewrite (Pos2Z.inj_succ (digits2_pos q)), Hq53.
  replace (fexp 53 1024 (Z.succ 53 + (d - 54)) - (d - 54)) with 1 by (unfold fexp, emin; lia).
  cbn [shr SpecFloat.iter_pos shr_1 orb shr_m loc_of_shr_record round_nearest_even]. replace (d - 54 + 1) with (d - 53) by lia.
  unfold shr_fexp. cbn [Zdigits2 shr_record_of_loc]. rewrite Hq53.
  replace (fexp 53 1024 (53 + (d - 53)) - (d - 53)) with 0 by (unfold fexp, emin; lia). cbn [shr shr_m].
  destruct (Z.leb_spec (d - 53) (1024 - 53)); [done|lia].
Qed.

Lemma from_secs_exact n : 0 < n < 2 ^ 53 -> from_secs_f64 (f64_of n) = Some (n * 1000000000).
Proof.
  intros Hn. destruct (f64_of_exact n Hn) as (m & e & -> & He & Hm). unfold from_secs_f64.
  pose proof (Z.pow_pos_nonneg 2 (- e) ltac:(lia) ltac:(lia)) as Hp.
  assert (forall d, 0 < d -> half_even (n * d * 1000000000) d = n * 1000000000) as Hh.
  { intros d Hd. unfold half_even. replace (n * d * 1000000000) with (n * 1000000000 * d) by lia.
    rewrite Z.div_mul, Z.mod_mul by lia. by destruct (Z.ltb_spec (2 * 0) d); [|lia]. }
  destruct (Z.leb_spec 0 e).
  - assert (e = 0) as -> by lia. change (2 ^ (- 0)) with 1 in *. change (2 ^ 0) with 1. rewrite Hm, Z.mul_1_r.
    destruct (Z.ltb_spec (n * 1) (2 ^ 64 * 1)); [|lia]. by rewrite Hh.
  - rewrite Hm. destruct (Z.ltb_spec (n * 2 ^ (- e)) (2 ^ 64 * 2 ^ (- e))); [by rewrite Hh|nia].
Qed.

(** A larger integer keeps its number of bits, or rounds up to the next power
    of two. *)
Lemma f64_of_large n d :
  54 <= d <= 1023 -> 2 ^ (d - 1) <= n < 2 ^ d ->
  exists m e, f64_of n = S754_finite false m e /\ 0 <= e /\ 2 ^ (d - 1) <= Zpos m * 2 ^ e <= 2 ^ d.
Proof.
  intros Hd Hn. destruct n as [|p|p]; [pose proof (Z.pow_pos_nonneg 2 (d - 1)); lia| |lia].
  pose proof (digits2_unique p d ltac:(lia) Hn) as Hp.
  unfold f64_of, f64_ratio, f64_div, SFdiv, SFdiv_core_binary. cbn [Zdigits2]. rewrite Hp.
  change (Zpos (digits2_pos 1)) with 1.
  replace (Z.min (fexp 53 1024 (d + 0 - (1 + 0))) (0 - 0)) with 0 by (unfold fexp, emin; lia).
  replace (0 - 0 - 0) with 0 by lia. cbn iota.
  replace (Z.div_eucl (Zpos p) 1) with (Zpos p, 0)
    by (rewrite (surjective_pairing (Z.div_eucl (Zpos p) 1)); change (fst (Z.div_eucl (Zpos p) 1)) with (Zpos p / 1);
        change (snd (Z.div_eucl (Zpos p) 1)) with (Zpos p mod 1); by rewrite Z.div_1_r, Z.mod_1_r).
  change (new_location 1 0) with loc_Exact. cbn [xorb]. unfold binary_round_aux.
  destruct (shr_fexp 53 1024 (Zpos p) 0 loc_Exact) as [r1 e1] eqn:E1.
  assert (e1 = d - 53 /\ shr_m r1 = Zpos p / 2 ^ (d - 53)) as [-> Hq].
  { unfold shr_fexp in E1. cbn [Zdigits2 shr_record_of_loc] in E1. rewrite Hp in E1.
    replace (fexp 53 1024 (d + 0) - 0) with (d - 53) in E1 by (unfold fexp, emin; lia).
    destruct (d - 53) as [|k|k] eqn:Ek; [|cbn [shr] in E1|lia]; injection E1 as <- <-.
    - split; [done|]. by rewrite Z.div_1_r.
    - split; [lia|]. by rewrite iter_shr_m. }
  assert (2 ^ 52 <= Zpos p / 2 ^ (d - 53) < 2 ^ 53) as Hqb.
  { split; [apply Z.div_le_lower_bound|apply Z.div_lt_upper_bound]; try lia; rewrite <- Z.pow_add_r by lia.
    - replace (d - 53 + 52) with (d - 1) by lia. lia.
    - replace (d - 53 + 53) with d by lia. lia. }
  set (m1 := round_nearest_even (shr_m r1) (loc_of_shr_record r1)).
  assert (2 ^ 52 <= m1 <= 2 ^ 53) as Hm1 by (unfold m1, round_nearest_even; rewrite Hq; repeat case_match; lia).
  replace (2 ^ (d - 1)) with (2 ^ 52 * 2 ^ (d - 53)) by (rewrite <- Z.pow_add_r by lia; f_equal; lia).
  replace (2 ^ d) with (2 ^ 53 * 2 ^ (d - 53)) by (rewrite <- Z.pow_add_r by lia; f_equal; lia).
  pose proof (Z.pow_pos_nonneg 2 (d - 53) ltac:(lia) ltac:(lia)) as Hpow.
  destruct (Z.eq_dec m1 (2 ^ 53)) as [->|Hne].
  - replace (shr_fexp 53 1024 (2 ^ 53) (d - 53) loc_Exact) with (Build_shr_record (2 ^ 52) false false, d - 53 + 1).
    2: { unfold shr_fexp. change (Zdigits2 (2 ^ 53)) with 54.
         replace (fexp 53 1024 (54 + (d - 53)) - (d - 53)) with 1 by (unfold fexp, emin; lia). reflexivity. }
    cbn [shr_m]. change (2 ^ 52) with (Zpos 4503599627370496). cbn iota.
    destruct (Z.leb_spec (d - 53 + 1) (1024 - 53)); [|lia]. eexists _, _. split; [done|].
    rewrite Z.pow_add_r by lia. lia.
  - destruct m1 as [|q|q] eqn:Em; [lia| |lia].
    assert (Zpos (digits2_pos q) = 53) as Hq53 by (apply digits2_unique; [lia|change (53 - 1) with 52; lia]).
    unfold shr_fexp. cbn [Zdigits2 shr_record_of_loc]. rewrite Hq53.
    replace (fexp 53 1024 (53 + (d - 53)) - (d - 53)) with 0 by (unfold fexp, emin; lia). cbn [shr shr_m].
    destruct (Z.leb_spec (d - 53) (1024 - 53)); [|lia]. eexists _, _. split; [done|]. nia.
Qed.

Lemma bit_length n : 0 < n -> exists d, 0 < d /\ 2 ^ (d - 1) <= n < 2 ^ d.
Proof. destruct n as [|p|p]; [lia| |lia]. intros _. exists (Zpos (digits2_pos p)). split; [lia|apply digits2_bounds]. Qed.

Lemma bit_length_le n d a : 2 ^ (d - 1) <= n -> n < 2 ^ a -> 0 < a -> d <= a.
Proof. intros H1 H2 Ha. destruct (Z.le_gt_cases d a); [done|]. pose proof (Z.pow_le_mono_r 2 a (d - 1)). lia. Qed.

(** Where a whole number of seconds stops being a [Duration]. *)
Lemma from_secs_panics n : 2 ^ 64 <= n < 2 ^ 1023 -> 
  negb (is_finite (f64_of n)) || SFleb (f64_of n) (S754_zero false) = false /\ from_secs_f64 (f64_of n) = None.
Proof.
  intros Hn. destruct (bit_length n ltac:(lia)) as (d & Hd & Hb).
  assert (d <= 1023) by (eapply bit_length_le; [apply Hb|apply Hn|lia]).
  assert (65 <= d) as H65.
  { destruct (Z.le_gt_cases 65 d); [done|]. pose proof (Z.pow_le_mono_r 2 d 64). lia. }
  destruct (f64_of_large n d ltac:(lia) Hb) as (m & e & -> & He & Hm & _). split; [done|]. unfold from_secs_f64.
  pose proof (Z.pow_le_mono_r 2 64 (d - 1) ltac:(lia) ltac:(lia)).
  rewrite (proj2 (Z.leb_le _ _) He). destruct (Z.ltb_spec (Zpos m * 2 ^ e) (2 ^ 64 * 1)); [lia|done].
Qed.

Lemma from_secs_fits n : 0 < n < 2 ^ 63 ->
  negb (is_finite (f64_of n)) || SFleb (f64_of n) (S754_zero false) = false /\ is_Some (from_secs_f64 (f64_of n)).
Proof.
  intros Hn. destruct (Z.lt_ge_cases n (2 ^ 53)) as [Hs|Hl].
  - rewrite from_secs_exact by lia. split; [|by eexists]. by destruct (f64_of_exact n ltac:(lia)) as (m & e & -> & _).
  - destruct (bit_length n ltac:(lia)) as (d & Hd & Hb).
    assert (d <= 63) by (eapply bit_length_le; [apply Hb|apply Hn|lia]).
    assert (54 <= d) as H54 by (destruct (Z.le_gt_cases 54 d); [done|]; pose proof (Z.pow_le_mono_r 2 d 53); lia).
    destruct (f64_of_large n d ltac:(lia) Hb) as (m & e & -> & He & _ & Hm). split; [done|]. unfold from_secs_f64.
    pose proof (Z.pow_le_mono_r 2 d 63 ltac:(lia) ltac:(lia)).
    rewrite (proj2 (Z.leb_le _ _) He). destruct (Z.ltb_spec (Zpos m * 2 ^ e) (2 ^ 64 * 1)); [by eexists|lia].
Qed.

Lemma span_stop f a c b : forallb f a = true -> f c = false -> span f (a ++ c :: b) = (a, c :: b).
Proof.
  intros Ha Hc. induction a as [|x a IH]; cbn [app span forallb] in *; [by rewrite Hc|].
  apply andb_prop in Ha as [-> Ha]. by rewrite IH.
Qed.

Lemma span_all f a : forallb f a = true -> span f a = (a, []).
Proof. intros Ha. induction a as [|x a IH]; [done|]. cbn [span forallb] in *. apply andb_prop in Ha as [-> Ha]. by rewrite IH. Qed.

Lemma digits_value_snoc acc a c : digits_value acc (a ++ [c]) = digits_value acc a * 10 + (u8 c - 48).
Proof. revert acc. induction a as [|x a IH]; intros acc; [done|]. cbn [app digits_value]. by rewrite IH. Qed.

Lemma digits_value_decimal k n : 0 <= n < 10 ^ Z.of_nat k -> digits_value 0 (decimal k n) = n.
Proof.
  revert n. induction k as [|k IH]; intros n Hn; [cbn in *; lia|].
  rewrite Nat2Z.inj_succ, Z.pow_succ_r in Hn by lia. cbn [decimal]. rewrite digits_value_snoc.
  pose proof (Z.mod_pos_bound n 10 ltac:(lia)). pose proof (Z.div_mod n 10 ltac:(lia)).
  rewrite u8_byte_of_Z, Z.mod_small by lia. destruct (Z.ltb_spec n 10).
  - cbn [digits_value]. rewrite Z.mod_small by lia. lia.
  - rewrite IH; [lia|]. split; [apply Z.div_pos; lia|]. apply Z.div_lt_upper_bound; lia.
Qed.

Lemma decimal_is_digit k n : 0 <= n -> forallb is_digit (decimal k n) = true.
Proof.
  intros Hn. apply forallb_forall. intros b Hb%list_elem_of_In. pose proof (decimal_digits k n Hn) as Hf.
  rewrite Forall_forall in Hf. specialize (Hf b Hb). unfold is_digit. apply andb_true_intro. rewrite !Z.leb_le. lia.
Qed.

Lemma parse_f64_decimal n : 0 <= n < 10 ^ 20 -> parse_f64 (decimal 20 n) = Some (f64_of n).
Proof.
  intros Hn. unfold parse_f64. rewrite span_all by (apply decimal_is_digit; lia). cbn [forallb negb]. rewrite app_nil_r.
  pose proof (digits_value_decimal 20 n Hn) as Hv.
  destruct (decimal 20 n) as [|c l] eqn:E; [cbn [decimal] in E; by apply app_eq_nil in E as [_ ?]|]. rewrite Hv. done.
Qed.

Section theorems.
Context `{DebugStr}.

(** What [parse_duration] splits a whole number of seconds into. *)
Lemma seconds_split n :
  0 <= n -> span (fun c => is_digit c || byte_eqb c "."%byte) (decimal 20 n ++ bstr "s") = (decimal 20 n, ["s"%byte]).
Proof.
  intros Hn. apply span_stop; [|done]. pose proof (decimal_is_digit 20 n Hn) as Hd.
  rewrite forallb_forall in *. intros b Hb. by rewrite Hd.
Qed.

(** A positive number is finite and passes the test for zero. *)
Lemma seconds_positive n : 0 < n < 2 ^ 53 -> negb (is_finite (f64_of n)) || SFleb (f64_of n) (S754_zero false) = false.
Proof. intros Hn. by destruct (f64_of_exact n Hn) as (m & e & -> & _). Qed.

Lemma client_whole_seconds n :
  0 < n < 2 ^ 53 -> client_parse_duration (decimal 20 n ++ bstr "s") = Some (Ok (n * 1000000000)).
Proof.
  intros Hn. unfold client_parse_duration. rewrite seconds_split by lia. cbn iota beta. rewrite parse_f64_decimal by lia.
  change (bytes_eqb ["s"%byte] (bstr "ms")) with false. change (bytes_eqb ["s"%byte] (bstr "s")) with true.
  cbn iota. rewrite seconds_positive, from_secs_exact by done. done.
Qed.

(** A whole number of seconds as it is typed, with its unit or without. *)
Lemma client_seconds ds unit :
  forallb is_digit ds = true -> ds <> [] -> unit = [] \/ unit = bstr "s" ->
  let secs := f64_of (digits_value 0 ds) in
  negb (is_finite secs) || SFleb secs (S754_zero false) = false ->
  client_parse_duration (ds ++ unit) = (let* d := from_secs_f64 secs in Some (Ok d)).
Proof.
  intros Hds Hne Hu secs Hpos.
  assert (parse_f64 ds = Some secs) as Hp.
  { unfold parse_f64. rewrite span_all by done. cbn [forallb negb]. rewrite app_nil_r. by destruct ds. }
  assert (forallb (fun c => is_digit c || byte_eqb c "."%byte) ds = true) as Hds'.
  { rewrite forallb_forall in *. intros b Hb. by rewrite Hds. }
  unfold client_parse_duration. destruct Hu as [->| ->].
  - rewrite app_nil_r, span_all by done. cbn iota beta. rewrite Hp.
    change (bytes_eqb (bstr "s") (bstr "ms")) with false. rewrite bytes_eqb_refl. cbn iota. by rewrite Hpos.
  - rewrite (span_stop _ ds "s"%byte []) by done. cbn iota beta. rewrite Hp.
    change (bytes_eqb ["s"%byte] (bstr "ms")) with false. change (bytes_eqb ["s"%byte] (bstr "s")) with true.
    cbn iota. by rewrite Hpos.
Qed.

Lemma client_seconds_panic ds unit :
  forallb is_digit ds = true -> ds <> [] -> unit = [] \/ unit = bstr "s" -> 2 ^ 64 <= digits_value 0 ds < 2 ^ 1023 ->
  client_parse_duration (ds ++ unit) = None.
Proof. intros Hds Hne Hu [Hp Hn]%from_secs_panics. by rewrite client_seconds, Hn. Qed.

Lemma client_seconds_fit ds unit :
  forallb is_digit ds = true -> ds <> [] -> unit = [] \/ unit = bstr "s" -> 0 < digits_value 0 ds < 2 ^ 63 ->
  exists d, client_parse_duration (ds ++ unit) = Some (Ok d).
Proof. intros Hds Hne Hu [Hp [d Hd]]%from_secs_fits. exists d. by rewrite client_seconds, Hd. Qed.

Lemma server_duration_within s :
  exists r, server_parse_duration s = Some r /\ (forall d, r = Ok d -> 0 <= d <= YEAR * 1000000000).
Proof.
  unfold server_parse_duration. destruct (span _ s) as [num rest].
  destruct (match rest with [] => _ | _ => _ end) as [num' unit].
  destruct (parse_f64 num') as [v|] eqn:Ev; [|by eexists].
  destruct (if bytes_eqb unit _ then _ else _) as [secs|] eqn:Es; [|by eexists].
  assert (forall t m e, secs = S754_finite t m e -> Zpos m < 2 ^ 53) as Hm.
  { intros t m e ->. repeat case_match; simplify_eq; eauto using div_small, mul_small, parse_f64_small. }
  destruct (negb (is_finite secs) || _) eqn:Ep; [by eexists|]. apply positive_secs in Ep as (m & e & ->).
  destruct (SFltb _ _) eqn:El; [by eexists|].
  destruct (within_year m e (Hm _ _ _ eq_refl) El) as (d & -> & Hd). eexists; split; [done|]. by intros ? [= <-].
Qed.
End theorems.

(** The values of the repository's own tests. *)
#[local] Instance plain_debug : DebugStr := fun s => s.

Example client_durations :
  map (fun s => client_parse_duration (bstr s)) ["5s"; "500ms"; "2m"; "3"; "1.5s"; "0.1"]%string =
    map (fun d => Some (Ok d)) [5000000000; 500000000; 120000000000; 3000000000; 1500000000; 100000000] /\
  Forall (fun s => exists e, client_parse_duration (bstr s) = Some (Err e)) ["0"; "0s"; "-1s"; "5h"; "abc"; ""; "."; "1.2.3"]%string.
Proof. split; [vm_compute; reflexivity|]. repeat (constructor; [eexists; vm_compute; reflexivity|]). constructor. Qed.

End Durations.
