(* ===== verification/QuicTls.v ===== *)
(** * TLS identity checks of the QUIC diagnostics

    Models crates/tatami_ssh_quic/src/diag/mod.rs, the fingerprint types of
    diag/identity.rs and the client side of diag/tls.rs: configuration checks,
    the certificate and raw-public-key verifiers and the TLS configuration a
    connection is started with. rustls and webpki are the class [Rustls]; the
    cell a verifier records its check in is a value of the model. *)

From S2P Require Import Prelude WireError NameList Primitives Messages KexInit KeyAlgorithm HostKey HostKeyProps.
From S2P Require Import Packet Gcm Transcript Trust Spki SpkiProps KnownHosts KnownHostsProps Text FacadeTrust Display Durations.

Import Spki.

(** The TLS signature schemes the code names; any other by its code. *)
Inductive TlsScheme : Type :=
| ED25519
| RSA_PSS_SHA256
| RSA_PSS_SHA384
| RSA_PSS_SHA512
| ECDSA_NISTP256_SHA256
| OtherScheme (code : Z).

(** What rustls passes to a certificate verifier. *)
Record CertInput : Type := mkCertInput {
  end_entity : bytes;
  intermediates : list bytes;
  ci_server_name : bytes;
  ocsp_response : bytes;
  ci_now : Z
}.

(** rustls with the ring provider, and webpki. [general], [bad_encoding] and
    [other_error] are the errors a verifier can build: a general one with its
    text, a certificate that does not parse, and an error of the verifier's own,
    known by its [Debug] text. [server_name_try_from] tells a DNS name ([Some
    true]) from an address ([Some false]) and other names. *)
Class Rustls : Type := {
  RustlsError : Type;
  show_rustls : RustlsError -> bytes;
  general : bytes -> RustlsError;
  bad_encoding : RustlsError;
  other_error : bytes -> RustlsError;
  Dss : Type;
  dss_scheme : Dss -> TlsScheme;
  show_scheme : TlsScheme -> bytes;
  verify_tls12 : bytes -> bytes -> Dss -> result unit RustlsError;
  verify_tls13 : bytes -> bytes -> Dss -> result unit RustlsError;
  verify_tls13_with_raw_key : bytes -> bytes -> Dss -> result unit RustlsError;
  RootStore : Type;
  WebPki : Type;
  roots_add : bytes -> result RootStore RustlsError;
  webpki_build : RootStore -> result WebPki bytes;
  webpki_cert : WebPki -> CertInput -> result unit RustlsError;
  webpki_tls12 : WebPki -> bytes -> bytes -> Dss -> result unit RustlsError;
  webpki_tls13 : WebPki -> bytes -> bytes -> Dss -> result unit RustlsError;
  tls13_versions : result unit RustlsError;
  quic_initial_suite : result unit bytes;
  server_name_try_from : bytes -> option (option bool)
}.

Module Quic.
Import Display.

(** ** Shared definitions *)

(* quic/diag/mod.rs:84-84 QUIC_VERSION_1 *)
Definition QUIC_VERSION_1 : Z := 1.

(* quic/diag/mod.rs:87-87 DEFAULT_HANDSHAKE_TIMEOUT *)
Definition DEFAULT_HANDSHAKE_TIMEOUT : Z := 5000000000.

(* quic/diag/mod.rs:91-96 Datagram *)
Record Datagram {A : Type} : Type := mkDatagram { destination : A; payload : bytes }.
Arguments Datagram : clear implicits.
Arguments mkDatagram {A}.

(* quic/diag/mod.rs:100-120 ConfigError *)
Inductive ConfigError `{Rustls} : Type :=
| Alpn (why : string)
| BadDuration (which : string)
| ZeroLimit (which : string)
| Tls (e : RustlsError)
| Key (e : RustlsError)
| QuicCrypto (e : bytes)
| ServerName (name : bytes)
| Exporter (why : string)
| IdentityMode (why : string).

(* quic/diag/mod.rs:122-136 ConfigError::fmt *)
Definition config_error `{Rustls, DebugStr} (e : ConfigError) : bytes :=
  match e with
  | Alpn why => bstr "invalid ALPN list: " ++ bstr why
  | BadDuration which => bstr which ++ bstr " must be > 0 and fit a varint"
  | ZeroLimit which => bstr which ++ bstr " must be > 0"
  | Tls e => bstr "TLS configuration rejected: " ++ show_rustls e
  | Key e => bstr "private key rejected by provider: " ++ show_rustls e
  | QuicCrypto e => bstr "QUIC crypto configuration rejected: " ++ e
  | ServerName n => bstr "invalid server name " ++ debug_str n
  | Exporter why => bstr "invalid exporter probe: " ++ bstr why
  | IdentityMode why => bstr "invalid identity mode: " ++ bstr why
  end.

(* quic/diag/mod.rs:147-154 validate_alpn *)
Fixpoint alpn_entries `{Rustls} (alpn : list bytes) : result unit ConfigError :=
  match alpn with
  | [] => Ok tt
  | p :: rest =>
      if zlen p =? 0 then Err (Alpn "empty protocol name")
      else if 255 <? zlen p then Err (Alpn "protocol name longer than 255 bytes")
      else alpn_entries rest
  end.

(* quic/diag/mod.rs:141-156 validate_alpn *)
Definition validate_alpn `{Rustls} (alpn : list bytes) : result unit ConfigError :=
  match alpn with
  | [] => Err (Alpn "at least one protocol is required; the value is experimental and must be given explicitly")
  | _ => alpn_entries alpn
  end.

(** The settings of [quinn_proto::TransportConfig] the code makes; times in
    nanoseconds, the idle timeout in milliseconds. *)
Record TransportConfig : Type := mkTransport {
  max_concurrent_bidi_streams : Z;
  max_concurrent_uni_streams : Z;
  datagram_receive_buffer_size : option Z;
  max_idle_timeout : option Z;
  keep_alive_interval : option Z;
  mtu_discovery : bool;
  segmentation_offload : bool
}.

(** [IdleTimeout::try_from]: whole milliseconds that fit a variable-length
    integer. *)
Definition idle_timeout (d : Z) : option Z := let ms := d / 1000000 in if ms <? 2 ^ 62 then Some ms else None.

(* quic/diag/mod.rs:160-175 transport_config *)
Definition transport_config `{Rustls} (handshake_timeout : Z) : result TransportConfig ConfigError :=
  if handshake_timeout =? 0 then Err (BadDuration "handshake_timeout")
  else match idle_timeout handshake_timeout with
       | None => Err (BadDuration "handshake_timeout")
       | Some idle => Ok (mkTransport 0 0 None (Some idle) None false false)
       end.

(* quic/diag/mod.rs:179-183 endpoint_config *)
Definition endpoint_versions : list Z := [QUIC_VERSION_1].

(* quic/diag/mod.rs:190-195 EndpointResponse *)
Inductive EndpointResponse : Type := VersionNegotiation | OtherResponse.

(* quic/diag/mod.rs:200-206 EndpointResponse::classify *)
Definition classify (payload : bytes) : EndpointResponse :=
  match payload with
  | b0 :: b1 :: b2 :: b3 :: b4 :: _ =>
      if negb (Z.land (u8 b0) 0x80 =? 0) && bytes_eqb [b1; b2; b3; b4] [x00; x00; x00; x00]
      then VersionNegotiation else OtherResponse
  | _ => OtherResponse
  end.

(* quic/diag/mod.rs:215-224 bounded_escaped *)
Definition escape_byte (b : byte) : bytes :=
  if byte_eqb b "\"%byte then bstr "\\"
  else if Text.printable b then [b]
  else Text.hex_escape b.

(* quic/diag/mod.rs:212-229 bounded_escaped *)
Definition bounded_escaped (bs : bytes) (max : Z) : bytes :=
  let n := Z.min (zlen bs) max in
  mjoin (map escape_byte (ztake n bs)) ++ (if n <? zlen bs then bstr "..." else []).

(** ** Fingerprints *)

Module Sha256Newtype.

(* quic/diag/identity.rs:212-224 FingerprintParseError *)
Inductive ParseError : Type := MissingPrefix | Padding | WrongLength (found : Z) | InvalidBase64.

(** [CertificateSha256] and [SpkiSha256] are two instances of one macro. *)
(* quic/diag/identity.rs:121-126 CertificateSha256 *)
Record t : Type := mk { digest : bytes }.

(* quic/diag/identity.rs:133-135 CertificateSha256::of_der *)
Definition of_der `{Hash} (der : bytes) : t := mk (sha256 der).

(* quic/diag/identity.rs:150-168 CertificateSha256::parse *)
Definition parse `{Base64} (text : bytes) : result t ParseError :=
  let? body := ok_or (strip_prefix (bstr "SHA256:") text) MissingPrefix in
  if existsb (fun c => byte_eqb c "="%byte) body then Err Padding else
  if negb (zlen body =? 43) then Err (WrongLength (zlen body)) else
  let? decoded := ok_or (b64_decode body) InvalidBase64 in
  if negb (zlen decoded =? 32) then Err InvalidBase64 else Ok (mk decoded).

(* quic/diag/identity.rs:172-180 CertificateSha256::eq *)
Definition eq (self other : t) : bool :=
  foldl (fun acc '(a, b) => Z.lor acc (Z.lxor (u8 a) (u8 b))) 0 (combine (digest self) (digest other)) =? 0.

(* quic/diag/identity.rs:182-190 CertificateSha256::fmt *)
Definition display `{Base64} (self : t) : bytes := bstr "SHA256:" ++ b64_encode (digest self).

(* quic/diag/identity.rs:226-237 FingerprintParseError::fmt *)
Definition parse_error (e : ParseError) : bytes :=
  match e with
  | MissingPrefix => bstr "must start with `SHA256:`"
  | Padding => bstr "must not be padded with `=`"
  | WrongLength found => bstr "base64 body must be 43 characters, found " ++ show found
  | InvalidBase64 => bstr "not valid standard base64"
  end.

End Sha256Newtype.

(* quic/diag/identity.rs:121-121 CertificateSha256 *)
Definition CertificateSha256 : Type := Sha256Newtype.t.

(* quic/diag/identity.rs:126-126 SpkiSha256 *)
Definition SpkiSha256 : Type := Sha256Newtype.t.

(** ** Messages *)

(* keys/spki.rs:168-219 SpkiError::fmt *)
Definition spki_error (e : SpkiError) : bytes :=
  match e with
  | Spki.Truncated field => bstr "SPKI truncated in " ++ bstr field
  | Spki.UnexpectedTag field expected found =>
      bstr "SPKI " ++ bstr field ++ bstr ": tag 0x" ++ hex_byte found ++ bstr ", expected 0x" ++ hex_byte expected
  | NonCanonicalLength field => bstr "SPKI " ++ bstr field ++ bstr ": length is not minimal DER"
  | SpkiTrailingBytes field count => bstr "SPKI " ++ bstr field ++ bstr ": " ++ show count ++ bstr " unexpected trailing byte(s)"
  | SpkiUnsupportedAlgorithm (Some name) => bstr "SPKI algorithm " ++ bstr name ++ bstr " is not supported by this build"
  | SpkiUnsupportedAlgorithm None => bstr "SPKI algorithm is not supported (unrecognised OID)"
  | ParametersPresent => bstr "SPKI Ed25519 algorithm parameters must be absent (RFC 8410 §3)"
  | ParametersInvalid => bstr "SPKI algorithm parameters must be NULL for RSA or a named curve for EC"
  | UnsupportedCurve (Some name) => bstr "SPKI curve " ++ bstr name ++ bstr " is not supported (only prime256v1)"
  | UnsupportedCurve None => bstr "SPKI curve is not supported (only prime256v1)"
  | NonZeroUnusedBits n => bstr "SPKI key BIT STRING declares " ++ show n ++ bstr " unused bit(s)"
  | WrongKeyLength n => bstr "SPKI key is " ++ show n ++ bstr " bytes, Ed25519 is 32"
  | SpkiInvalidKey => bstr "SPKI key is not a valid Ed25519 public key"
  | SpkiNonCanonicalInteger field => bstr "SPKI " ++ bstr field ++ bstr " is not a minimal positive DER INTEGER"
  | SpkiRsaModulus bits => bstr "SPKI RSA modulus of " ++ show bits ++ bstr " bits is not accepted (odd, 2048 to 8192 bits)"
  | SpkiRsaExponent => bstr "SPKI RSA exponent is not accepted (odd, at least 3, at most 4 bytes)"
  | SpkiPointEncoding => bstr "SPKI EC point is not a 65-byte uncompressed encoding"
  end.

(* quic/diag/tls.rs:376-385 HostNotTrusted::fmt *)
Definition host_not_trusted (reason : UntrustedReason) : bytes :=
  bstr "SSH host key not trusted: " ++ describe reason ++ bstr " (" ++ bstr (untrusted_reason_code reason) ++ bstr ")".

(* quic/diag/tls.rs:159-167 PinMismatch::fmt *)
Definition pin_mismatch_text (what : string) : bytes :=
  bstr "presented " ++ bstr what ++ bstr " does not match the configured SHA-256 pin".


(** ** The client's verifiers *)

Section client.
Context `{R : Rustls, Hash, F : Fs, BP : Base64Padded, HM : HmacSha1, DD : Dalek}.
Variable features : Features.

(* quic/diag/tls.rs:316-336 SshIdentityCheck *)
Inductive SshIdentityCheck : Type :=
| Judged (algorithm : bytes) (blob : bytes) (fingerprint : Sha256Fingerprint.t) (decision : TrustDecision)
| NotConvertible (reason : bytes).

(* quic/diag/tls.rs:341-343 SshIdentityCheck::is_trusted *)
Definition is_trusted (self : SshIdentityCheck) : bool :=
  match self with Judged _ _ _ (Trusted _) => true | _ => false end.

(* quic/diag/tls.rs:352-360 SshHostTrust *)
Record SshHostTrust : Type := mkSshHostTrust {
  ssh_policy : SharedPolicy;
  source : string;
  lookup_name : option bytes
}.

(* quic/diag/tls.rs:546-557 ClientTrust *)
Inductive ClientTrust : Type :=
| PinnedCertificateSha256 (pin : CertificateSha256)
| RootCertificate (der : bytes)
| PinnedRawPublicKeySha256 (pin : SpkiSha256)
| SshHostKey (trust : SshHostTrust).

(* quic/diag/tls.rs:562-572 ClientTrust::code *)
Definition trust_code (self : ClientTrust) : string :=
  match self with
  | PinnedCertificateSha256 _ => "pinned_certificate_sha256"
  | RootCertificate _ => "root_certificate"
  | PinnedRawPublicKeySha256 _ => "pinned_raw_public_key_sha256"
  | SshHostKey t =>
      if String.eqb (source t) "known_hosts" then "ssh_host_key_known_hosts" else "ssh_host_key_pinned_fingerprint"
  end.

(* quic/diag/tls.rs:576-581 ClientTrust::requires_raw_public_key *)
Definition requires_raw_public_key (self : ClientTrust) : bool :=
  match self with PinnedRawPublicKeySha256 _ | SshHostKey _ => true | _ => false end.

(** The implementations of [ServerCertVerifier] a client is built with. *)
(* quic/diag/tls.rs:398-402 SshHostKeyVerifier *)
Inductive Verifier : Type :=
| PinnedCertificateVerifier (pin : CertificateSha256)
| PinnedRawPublicKeyVerifier (pin : SpkiSha256)
| SshHostKeyVerifier (trust : SshHostTrust)
| WebPkiServerVerifier (v : WebPki).

(* quic/diag/tls.rs:513-526 scheme_matches_key *)
Definition scheme_matches_key (scheme : TlsScheme) (key_type : KeyType.t) : bool :=
  match key_type, scheme with
  | KeyType.Ed25519, ED25519
  | KeyType.Rsa, (RSA_PSS_SHA256 | RSA_PSS_SHA384 | RSA_PSS_SHA512)
  | KeyType.EcdsaP256, ECDSA_NISTP256_SHA256 => true
  | _, _ => false
  end.

(** What the SSH verifier records, and its answer. *)
(* quic/diag/tls.rs:424-463 SshHostKeyVerifier::verify_server_cert *)
Definition verify_ssh_host_key (t : SshHostTrust) (i : CertInput) : SshIdentityCheck * result unit RustlsError :=
  match host_key_from_spki features (end_entity i) with
  | Err e => (NotConvertible (spki_error e), Err bad_encoding)
  | Ok key =>
      let blob := HostKey.to_blob key in
      let fingerprint := Sha256Fingerprint.of_blob blob in
      let identity := mkIdentity (HostKey.algorithm key) blob fingerprint in
      let decision := decide_trust (ssh_policy t) identity in
      (Judged (KeyType.name (HostKey.key_type key)) blob fingerprint decision,
       match decision with
       | Trusted _ => Ok tt
       | Untrusted reason => Err (other_error (host_not_trusted reason))
       end)
  end.

(* quic/diag/tls.rs:208-221 PinnedCertificateVerifier::verify_server_cert *)
Definition verify_pinned_certificate (pin : CertificateSha256) (i : CertInput) : result unit RustlsError :=
  if Sha256Newtype.eq (Sha256Newtype.of_der (end_entity i)) pin then Ok tt
  else Err (other_error (pin_mismatch_text "certificate")).

(* quic/diag/tls.rs:269-282 PinnedRawPublicKeyVerifier::verify_server_cert *)
Definition verify_pinned_raw_key (pin : SpkiSha256) (i : CertInput) : result unit RustlsError :=
  if Sha256Newtype.eq (Sha256Newtype.of_der (end_entity i)) pin then Ok tt
  else Err (other_error (pin_mismatch_text "raw public key")).

(** [ServerCertVerifier::verify_server_cert] of each: the check it records, if
    any, and its answer. *)
Definition verify_server_cert (self : Verifier) (i : CertInput) : option SshIdentityCheck * result unit RustlsError :=
  match self with
  | PinnedCertificateVerifier pin => (None, verify_pinned_certificate pin i)
  | PinnedRawPublicKeyVerifier pin => (None, verify_pinned_raw_key pin i)
  | SshHostKeyVerifier t => let '(check, r) := verify_ssh_host_key t i in (Some check, r)
  | WebPkiServerVerifier v => (None, webpki_cert v i)
  end.

(* quic/diag/tls.rs:476-497 SshHostKeyVerifier::verify_tls13_signature *)
Definition verify_ssh_signature (message cert : bytes) (dss : Dss) : result unit RustlsError :=
  match host_key_from_spki features cert with
  | Err _ => Err bad_encoding
  | Ok key =>
      if negb (scheme_matches_key (dss_scheme dss) (HostKey.key_type key)) then
        Err (general (bstr "TLS signature scheme " ++ show_scheme (dss_scheme dss) ++ bstr " does not belong to the "
                      ++ KeyType.name (HostKey.key_type key) ++ bstr " host key"))
      else verify_tls13_with_raw_key message cert dss
  end.

(** [ServerCertVerifier::verify_tls13_signature] of each. *)
(* quic/diag/tls.rs:295-303 PinnedRawPublicKeyVerifier::verify_tls13_signature *)
Definition verify_tls13_signature (self : Verifier) (message cert : bytes) (dss : Dss) : result unit RustlsError :=
  match self with
  | PinnedCertificateVerifier _ => verify_tls13 message cert dss
  | PinnedRawPublicKeyVerifier _ => verify_tls13_with_raw_key message cert dss
  | SshHostKeyVerifier _ => verify_ssh_signature message cert dss
  | WebPkiServerVerifier v => webpki_tls13 v message cert dss
  end.

(** Never negotiated over QUIC. *)
(* quic/diag/tls.rs:465-474 SshHostKeyVerifier::verify_tls12_signature *)
Definition verify_tls12_signature (self : Verifier) (message cert : bytes) (dss : Dss) : result unit RustlsError :=
  match self with
  | PinnedCertificateVerifier _ => verify_tls12 message cert dss
  | PinnedRawPublicKeyVerifier _ | SshHostKeyVerifier _ => Err (general (bstr "TLS 1.2 is never negotiated over QUIC"))
  | WebPkiServerVerifier v => webpki_tls12 v message cert dss
  end.

(* quic/diag/tls.rs:309-311 PinnedRawPublicKeyVerifier::requires_raw_public_keys *)
Definition requires_raw_public_keys (self : Verifier) : bool :=
  match self with PinnedRawPublicKeyVerifier _ | SshHostKeyVerifier _ => true | _ => false end.

(** The TLS configuration handed to quinn-proto. *)
Record ClientTls : Type := mkClientTls {
  verifier : Verifier;
  alpn_protocols : list bytes;
  enable_early_data : bool;
  resumption : bool
}.

(* quic/diag/tls.rs:677-692 client_crypto_recording *)
Definition verifier_for (trust : ClientTrust) : result Verifier ConfigError :=
  match trust with
  | SshHostKey t => Ok (SshHostKeyVerifier t)
  | PinnedCertificateSha256 pin => Ok (PinnedCertificateVerifier pin)
  | PinnedRawPublicKeySha256 pin => Ok (PinnedRawPublicKeyVerifier pin)
  | RootCertificate der =>
      let? roots := map_err Tls (roots_add der) in
      let? v := map_err (fun e => Tls (general e)) (webpki_build roots) in
      Ok (WebPkiServerVerifier v)
  end.

(* quic/diag/tls.rs:670-707 client_crypto_recording *)
Definition client_crypto_recording (trust : ClientTrust) (alpn : list bytes) : result ClientTls ConfigError :=
  let? _ := validate_alpn alpn in
  let? v := verifier_for trust in
  let? _ := map_err Tls tls13_versions in
  let tls := mkClientTls v alpn false false in
  let? _ := map_err QuicCrypto quic_initial_suite in
  Ok tls.

(* quic/diag/tls.rs:721-728 ServerNameKind *)
Inductive ServerNameKind : Type := DnsName | IpAddress | OtherName.

(* quic/diag/tls.rs:711-717 check_server_name *)
Definition check_server_name (name : bytes) : result ServerNameKind ConfigError :=
  match server_name_try_from name with
  | None => Err (ServerName name)
  | Some (Some true) => Ok DnsName
  | Some (Some false) => Ok IpAddress
  | Some None => Ok OtherName
  end.

(* quic/diag/tls.rs:733-735 ServerNameKind::sends_sni *)
Definition sends_sni (self : ServerNameKind) : bool := match self with DnsName => true | _ => false end.

End client.
End Quic.
