(* ===== verification/QuicClient.v ===== *)
(** * The QUIC diagnostic client

    Models crates/tatami_ssh_quic/src/diag/client.rs and diag/udp.rs: the client
    core around one quinn-proto connection, and the loop that drives it over a
    UDP socket. quinn-proto is the class [Quinn]: a connection calls the
    certificate verifier it was configured with, so the call that delivers an
    event takes the verifier's answers and returns the calls it made. Times are
    nanoseconds. Loops over what quinn-proto has queued run on fuel. *)

From S2P Require Import Prelude WireError NameList Primitives Messages KexInit KeyAlgorithm HostKey HostKeyProps.
From S2P Require Import Packet Gcm Transcript Trust Spki SpkiProps KnownHosts KnownHostsProps Text FacadeTrust Seam.
From S2P Require Import Display Durations QuicTls.

(** ** quinn-proto *)

(** Why a connection was lost. *)
Inductive ConnectionError : Type :=
| ConnectionClosed (error_code : bytes) (reason : bytes)
| ApplicationClosed (error_code : Z) (reason : bytes)
| ConnectionTimedOut
| OtherLoss (text : bytes).

Inductive Event : Type :=
| HandshakeDataReady
| Connected
| ConnectionLost (reason : ConnectionError)
| StreamEvent
| DatagramReceived
| DatagramsUnblocked.

(** What rustls shows a certificate resolver of a ClientHello; lists of
    numbers by their [Debug] names. *)
Record ClientHello : Type := mkClientHello {
  ch_server_name : option bytes;
  ch_alpn : option (list bytes);
  ch_cipher_suites : list bytes;
  ch_signature_schemes : list bytes;
  ch_named_groups : option (list bytes);
  ch_server_cert_types : option (list bytes)
}.

(** The calls a connection makes back into the code. *)
Inductive Callback `{Rustls} : Type :=
| CalledCert (i : CertInput)
| CalledSignature (message cert : bytes) (dss : Dss)
| CalledResolve (h : ClientHello).

(** The answers of a verifier. *)
Record Answers `{Rustls} : Type := mkAnswers {
  answer_cert : CertInput -> result unit RustlsError;
  answer_signature : bytes -> bytes -> Dss -> result unit RustlsError
}.

Record HandshakeData : Type := mkHandshakeData { protocol : option bytes; hd_server_name : option bytes }.

(** What a client connection is configured with. *)
Record ConnectConfig : Type := mkConnectConfig {
  cc_alpn : list bytes;
  cc_early_data : bool;
  cc_resumption : bool;
  cc_raw_public_keys : bool;
  cc_transport : Quic.TransportConfig;
  cc_version : Z
}.

Inductive ConnectError : Type := InvalidServerName (name : bytes) | OtherConnectError (text : bytes).

Inductive DatagramEvent {A I E : Type} : Type :=
| ConnectionEventFor (ch : Z) (event : E)
| NewConnection (incoming : I)
| Response (t : Quic.Datagram A).
Arguments DatagramEvent : clear implicits.

(** A call that fills a buffer and returns a [Transmit] returns the datagram
    made of the bytes it wrote. *)
Class Quinn `{R : Rustls} (A : Type) : Type := {
  Endpoint : Type;
  Connection : Type;
  ConnectionEvent : Type;
  EndpointEvent : Type;
  Incoming : Type;
  client_endpoint : list Z -> Endpoint;
  endpoint_connect : Z -> ConnectConfig -> A -> bytes -> Endpoint -> Endpoint * result (Z * Connection) ConnectError;
  endpoint_handle : Z -> A -> option A -> bytes -> Endpoint -> Endpoint * option (DatagramEvent A Incoming ConnectionEvent);
  endpoint_event : Z -> EndpointEvent -> Endpoint -> Endpoint * option ConnectionEvent;
  endpoint_ignore : Incoming -> Endpoint -> Endpoint;
  conn_event : Answers -> ConnectionEvent -> Connection -> Connection * list Callback;
  conn_poll_endpoint_events : Connection -> Connection * option EndpointEvent;
  conn_poll : Connection -> Connection * option Event;
  conn_poll_transmit : Z -> Connection -> Connection * option (Quic.Datagram A);
  conn_poll_timeout : Connection -> option Z;
  conn_handle_timeout : Z -> Connection -> Connection;
  conn_close : Z -> Z -> bytes -> Connection -> Connection;
  conn_is_closed : Connection -> bool;
  conn_is_drained : Connection -> bool;
  conn_has_0rtt : Connection -> bool;
  conn_handshake_data : Connection -> option HandshakeData;
  conn_export : Z -> bytes -> bytes -> Connection -> bool;
  timed_out_text : bytes
}.

(** ** The UDP socket

    One socket, bound once. [udp_recv_from] returns the bytes it stored in a
    buffer of the given length and their source. *)
Class Udp (A : Type) : Type := {
  UdpWorld : Type;
  udp_bind : A -> UdpWorld -> UdpWorld * result unit IoError;
  udp_local_addr : UdpWorld -> UdpWorld * result A IoError;
  udp_set_read_timeout : Z -> UdpWorld -> UdpWorld * result unit IoError;
  udp_recv_from : Z -> UdpWorld -> UdpWorld * result (bytes * A) IoError;
  udp_send_to : bytes -> A -> UdpWorld -> UdpWorld * result unit IoError;
  udp_now : UdpWorld -> UdpWorld * Z;
  addr_is_loopback : A -> bool;
  addr_is_ipv4 : A -> bool;
  addr_with_port : A -> Z -> A;
  addr_any_v4 : A;
  addr_any_v6 : A
}.

(** Sequencing calls that may not return. *)
Definition run_bind {A B} (m : run A) (k : A -> run B) : run B :=
  match m with Done a => k a | Panics => Panics | Spins => Spins end.

Notation "'let^' x := m 'in' k" := (run_bind m (fun x => k))
  (at level 10, x pattern, m at level 100, k at level 200,
   format "'[v' 'let^'  x  :=  m  'in' '/' k ']'") : tatami_scope.

Lemma run_bind_done {A B} (m : run A) (k : A -> run B) b : run_bind m k = Done b <-> exists a, m = Done a /\ k a = Done b.
Proof. destruct m; cbn; split; [eauto|by intros (? & [= ->] & ?)|done|by intros (? & ? & ?)|done|by intros (? & ? & ?)]. Qed.

Module QuicClient.
Import Display Quic.

(* quic/diag/server.rs:866-880 connection_error_text *)
Definition connection_error_text `{Quinn A} (e : ConnectionError) : bytes :=
  match e with
  | ConnectionClosed error_code reason =>
      bstr "aborted by peer: " ++ error_code ++ bstr " (reason phrase: " ++ bounded_escaped reason 256 ++ bstr ")"
  | ApplicationClosed error_code reason =>
      bstr "closed by peer: application code " ++ show error_code ++ bstr " (reason phrase: " ++ bounded_escaped reason 256 ++ bstr ")"
  | ConnectionTimedOut => timed_out_text
  | OtherLoss text => text
  end.

(* quic/diag/client.rs:33-33 PROBE_LABEL *)
Definition PROBE_LABEL : bytes := bstr "EXPERIMENTAL-tatami-ssh-binding-v0".

(* quic/diag/client.rs:35-35 PROBE_CONTEXT *)
Definition PROBE_CONTEXT : bytes := bstr "tatami-diag-probe".

(* quic/diag/client.rs:39-46 ExporterProbe *)
Record ExporterProbe : Type := mkProbe { label : bytes; context : bytes; probe_len : Z }.

(* quic/diag/client.rs:48-56 ExporterProbe::default *)
Definition ExporterProbe_default : ExporterProbe := mkProbe PROBE_LABEL PROBE_CONTEXT 32.

(* quic/diag/client.rs:120-131 HandshakeResult *)
Inductive HandshakeResult : Type := Completed | Failed (reason : bytes) | TimedOut.

(* quic/diag/client.rs:136-142 HandshakeResult::code *)
Definition result_code (r : HandshakeResult) : string :=
  match r with Completed => "completed" | Failed _ => "failed" | TimedOut => "timed_out" end.

(* quic/diag/client.rs:146-148 HandshakeResult::is_completed *)
Definition is_completed (r : HandshakeResult) : bool := match r with Completed => true | _ => false end.

(* quic/diag/client.rs:153-158 ExporterResult *)
Record ExporterResult : Type := mkExporterResult { available : bool; ex_len : Z }.

Section client.
Context `{R : Rustls} `{H : Hash, F : Fs, BP : Base64Padded, HM : HmacSha1, DD : Dalek} {A : Type} `{Q : !Quinn A}.
Variable features : Features.

(* quic/diag/client.rs:60-78 DiagClientConfig *)
Record DiagClientConfig : Type := mkConfig {
  remote : A;
  server_name : bytes;
  alpn : list bytes;
  trust : ClientTrust;
  handshake_timeout : Z;
  linger : Z;
  exporter : option ExporterProbe
}.

(* quic/diag/client.rs:83-98 DiagClientConfig::new *)
Definition config_new (remote : A) (server_name : bytes) (alpn : list bytes) (trust : ClientTrust) : DiagClientConfig :=
  mkConfig remote server_name alpn trust DEFAULT_HANDSHAKE_TIMEOUT 1000000000 None.

(* quic/diag/client.rs:101-115 DiagClientConfig::validate *)
Definition validate (self : DiagClientConfig) : result ServerNameKind ConfigError :=
  let? _ := validate_alpn (alpn self) in
  if handshake_timeout self =? 0 then Err (BadDuration "handshake_timeout") else
  let? _ := match exporter self with
            | Some p =>
                if (probe_len p =? 0) || (255 <? probe_len p) then Err (Exporter "len must be 1..=255")
                else if zlen (label p) =? 0 then Err (Exporter "label must not be empty")
                else Ok tt
            | None => Ok tt
            end in
  check_server_name (server_name self).

(* quic/diag/client.rs:162-200 ClientOutcome *)
Record ClientOutcome : Type := mkOutcome {
  o_remote : A;
  o_local : option A;
  handshake : HandshakeResult;
  negotiated_alpn : option bytes;
  offered_alpn : list bytes;
  server_name_sent : bytes;
  sni_sent : bool;
  o_trust : string;
  tls_version_note : bytes;
  quic_version : Z;
  quic_version_note : bytes;
  o_exporter : option ExporterResult;
  close_reason : bytes;
  elapsed : Z;
  zero_rtt_attempted : bool;
  datagrams_sent : Z;
  datagrams_received : Z;
  ssh_identity : option SshIdentityCheck
}.

(** The verifier's cell, which the code shares with the TLS stack, is [slot]. *)
(* quic/diag/client.rs:211-224 ClientCore *)
Record ClientCore : Type := mkCore {
  endpoint : Endpoint;
  ch : Z;
  conn : Connection;
  probe : option ExporterProbe;
  started : Z;
  deadline : Z;
  core_linger : Z;
  linger_until : option Z;
  outcome : ClientOutcome;
  decided : bool;
  slot : option SshIdentityCheck;
  tls : ClientTls
}.

Ltac update etas field v :=
  let e := eval cbv beta in etas in
  lazymatch eval pattern field in e with
  | ?f _ => let r := eval cbv beta in (f v) in exact r
  end.

Ltac update_outcome o field v :=
  update (mkOutcome (o_remote o) (o_local o) (handshake o) (negotiated_alpn o) (offered_alpn o) (server_name_sent o) (sni_sent o)
    (o_trust o) (tls_version_note o) (quic_version o) (quic_version_note o) (o_exporter o) (close_reason o) (elapsed o)
    (zero_rtt_attempted o) (datagrams_sent o) (datagrams_received o) (ssh_identity o)) field v.

Implicit Types (o : ClientOutcome) (self : ClientCore).

Definition set_local v o : ClientOutcome := ltac:(update_outcome o (o_local o) v).
Definition set_handshake v o : ClientOutcome := ltac:(update_outcome o (handshake o) v).
Definition set_negotiated_alpn v o : ClientOutcome := ltac:(update_outcome o (negotiated_alpn o) v).
Definition set_exporter v o : ClientOutcome := ltac:(update_outcome o (o_exporter o) v).
Definition set_close_reason v o : ClientOutcome := ltac:(update_outcome o (close_reason o) v).
Definition set_elapsed v o : ClientOutcome := ltac:(update_outcome o (elapsed o) v).
Definition set_zero_rtt v o : ClientOutcome := ltac:(update_outcome o (zero_rtt_attempted o) v).
Definition set_sent v o : ClientOutcome := ltac:(update_outcome o (datagrams_sent o) v).
Definition set_received v o : ClientOutcome := ltac:(update_outcome o (datagrams_received o) v).
Definition set_ssh_identity v o : ClientOutcome := ltac:(update_outcome o (ssh_identity o) v).

Ltac update_core c field v :=
  update (mkCore (endpoint c) (ch c) (conn c) (probe c) (started c) (deadline c) (core_linger c) (linger_until c) (outcome c)
    (decided c) (slot c) (tls c)) field v.

Definition set_endpoint v self : ClientCore := ltac:(update_core self (endpoint self) v).
Definition set_conn v self : ClientCore := ltac:(update_core self (conn self) v).
Definition set_linger_until v self : ClientCore := ltac:(update_core self (linger_until self) v).
Definition set_outcome v self : ClientCore := ltac:(update_core self (outcome self) v).
Definition set_decided v self : ClientCore := ltac:(update_core self (decided self) v).
Definition set_slot v self : ClientCore := ltac:(update_core self (slot self) v).

Definition on_outcome (f : ClientOutcome -> ClientOutcome) self : ClientCore := set_outcome (f (outcome self)) self.

(** ** The core *)

(** The verifier's part in a call: its answers, and what it records. *)
Definition answers (v : Verifier) : Answers :=
  mkAnswers _ (fun i => snd (verify_server_cert features v i)) (verify_tls13_signature features v).

(* quic/diag/tls.rs:416-420 SshHostKeyVerifier::record *)
Definition record (v : Verifier) (slot : option SshIdentityCheck) (c : Callback) : option SshIdentityCheck :=
  match c with
  | CalledCert i => match fst (verify_server_cert features v i) with Some check => Some check | None => slot end
  | _ => slot
  end.

(** [conn.handle_event(ev)]. *)
Definition deliver (ev : ConnectionEvent) self : ClientCore :=
  let v := verifier (tls self) in
  let '(c, calls) := conn_event (answers v) ev (conn self) in
  set_slot (foldl (record v) (slot self) calls) (set_conn c self).

(* quic/diag/client.rs:376-385 ClientCore::read_handshake_data *)
Definition read_handshake_data self : ClientCore :=
  match conn_handshake_data (conn self) with
  | Some hd => on_outcome (set_negotiated_alpn (protocol hd)) self
  | None => self
  end.

(* quic/diag/client.rs:387-394 ClientCore::decide *)
Definition decide (now : Z) self : ClientCore :=
  let self := set_decided true self in
  let self := set_slot None (on_outcome (set_ssh_identity (slot self)) self) in
  let self := on_outcome (set_elapsed (Z.max 0 (now - started self))) self in
  on_outcome (set_zero_rtt (conn_has_0rtt (conn self))) self.

(* quic/diag/client.rs:397-401 ClientCore::drive *)
Fixpoint endpoint_events (fuel : nat) self : run ClientCore :=
  match fuel with
  | O => Spins
  | S fuel =>
      let '(c, ev) := conn_poll_endpoint_events (conn self) in
      let self := set_conn c self in
      match ev with
      | None => Done self
      | Some ev =>
          let '(e, ce) := endpoint_event (ch self) ev (endpoint self) in
          let self := set_endpoint e self in
          endpoint_events fuel (match ce with Some ce => deliver ce self | None => self end)
      end
  end.

(* quic/diag/client.rs:407-428 ClientCore::drive *)
Definition on_connected (now : Z) self : ClientCore :=
  let self := read_handshake_data self in
  let self :=
    match probe self with
    | Some p =>
        let available := conn_export (probe_len p) (label p) (context p) (conn self) in
        on_outcome (set_exporter (Some (mkExporterResult available (probe_len p)))) self
    | None => self
    end in
  if negb (decided self) then
    let self := on_outcome (set_handshake Completed) self in
    let self := decide now self in
    set_linger_until (Some (now + core_linger self)) self
  else self.

(* quic/diag/client.rs:429-449 ClientCore::drive *)
Definition on_lost (now : Z) (reason : ConnectionError) self : ClientCore :=
  let text := connection_error_text reason in
  let self :=
    if decided self then on_outcome (set_close_reason text) self
    else
      let result := match reason with ConnectionTimedOut => TimedOut | _ => Failed text end in
      let self := on_outcome (set_handshake result) self in
      let self := on_outcome (set_close_reason text) self in
      decide now self in
  set_linger_until None self.

(* quic/diag/client.rs:402-452 ClientCore::drive *)
Fixpoint events (fuel : nat) (now : Z) self : run ClientCore :=
  match fuel with
  | O => Spins
  | S fuel =>
      let '(c, ev) := conn_poll (conn self) in
      let self := set_conn c self in
      match ev with
      | None => Done self
      | Some HandshakeDataReady => events fuel now self
      | Some Connected => events fuel now (on_connected now self)
      | Some (ConnectionLost reason) => events fuel now (on_lost now reason self)
      | Some (StreamEvent | DatagramReceived | DatagramsUnblocked) => events fuel now self
      end
  end.

(* quic/diag/client.rs:453-465 ClientCore::drive *)
Fixpoint transmits (fuel : nat) (now : Z) self (out : list (Datagram A)) : run (ClientCore * list (Datagram A)) :=
  match fuel with
  | O => Spins
  | S fuel =>
      let '(c, t) := conn_poll_transmit now (conn self) in
      let self := set_conn c self in
      match t with
      | Some d => transmits fuel now (on_outcome (set_sent (datagrams_sent (outcome self) + 1)) self) (out ++ [d])
      | None => Done (self, out)
      end
  end.

(* quic/diag/client.rs:396-471 ClientCore::drive *)
Definition drive (fuel : nat) (now : Z) self (out : list (Datagram A)) : run (ClientCore * list (Datagram A)) :=
  let^ self := endpoint_events fuel self in
  let^ self := events fuel now self in
  let^ (self, out) := transmits fuel now self out in
  let^ self := endpoint_events fuel self in
  Done (self, out).

(* quic/diag/client.rs:246-265 ClientCore::new *)
Definition initial_outcome (config : DiagClientConfig) (name_kind : ServerNameKind) : ClientOutcome :=
  mkOutcome (remote config) None TimedOut None (alpn config) (server_name config) (sends_sni name_kind) (trust_code (trust config))
    (bstr "TLS 1.3 by construction: the only version enabled; QUIC requires it (RFC 9001 §4.2)")
    QUIC_VERSION_1
    (bstr "configured; quinn-proto 0.11 does not expose the negotiated version and the endpoint supports only v1")
    None (bstr "pending") 0 false 0 0 None.

(* quic/diag/client.rs:228-282 ClientCore::new *)
Definition core_new (fuel : nat) (config : DiagClientConfig) (now : Z) (out : list (Datagram A))
    : run (result (ClientCore * list (Datagram A)) ConfigError) :=
  match (let? name_kind := validate config in
         let? crypto := client_crypto_recording (trust config) (alpn config) in
         let? transport := transport_config (handshake_timeout config) in
         Ok (name_kind, crypto, transport)) with
  | Err e => Done (Err e)
  | Ok (name_kind, crypto, transport) =>
      let client_config :=
        mkConnectConfig (alpn_protocols crypto) (enable_early_data crypto) (resumption crypto)
          (requires_raw_public_keys (verifier crypto)) transport QUIC_VERSION_1 in
      let '(endpoint, r) := endpoint_connect now client_config (remote config) (server_name config) (client_endpoint endpoint_versions) in
      match r with
      | Err (InvalidServerName n) => Done (Err (ServerName n))
      | Err (OtherConnectError text) => Done (Err (QuicCrypto text))
      | Ok (ch, conn) =>
          let core :=
            mkCore endpoint ch conn (exporter config) now (now + handshake_timeout config) (linger config) None
              (initial_outcome config name_kind) false None crypto in
          let^ r := drive fuel now core out in
          Done (Ok r)
      end
  end.

(* quic/diag/client.rs:287-289 ClientCore::is_finished *)
Definition is_finished self : bool := decided self && conn_is_closed (conn self).

Definition earlier (next : option Z) (t : Z) : option Z := Some (match next with Some n => Z.min n t | None => t end).

(* quic/diag/client.rs:293-302 ClientCore::next_timeout *)
Definition next_timeout self : option Z :=
  let next := conn_poll_timeout (conn self) in
  let next := if negb (decided self) then earlier next (deadline self) else next in
  match linger_until self with Some l => earlier next l | None => next end.

(* quic/diag/client.rs:305-334 ClientCore::handle_datagram *)
Definition handle_datagram (fuel : nat) (now : Z) (from : A) (data : bytes) self (out : list (Datagram A))
    : run (ClientCore * list (Datagram A)) :=
  let self := on_outcome (set_received (datagrams_received (outcome self) + 1)) self in
  let '(e, event) := endpoint_handle now from None data (endpoint self) in
  let self := set_endpoint e self in
  let '(self, out) :=
    match event with
    | Some (ConnectionEventFor ch' ev) => (if ch' =? ch self then deliver ev self else self, out)
    | Some (Response t) => (on_outcome (set_sent (datagrams_sent (outcome self) + 1)) self, out ++ [t])
    | Some (NewConnection incoming) => (set_endpoint (endpoint_ignore incoming (endpoint self)) self, out)
    | None => (self, out)
    end in
  drive fuel now self out.

(* quic/diag/client.rs:341-350 ClientCore::handle_timeouts *)
Definition at_deadline (now : Z) self : ClientCore :=
  let self := on_outcome (set_handshake TimedOut) self in
  let self := on_outcome (set_close_reason (bstr "local_close_handshake_deadline")) self in
  let self := decide now self in
  set_conn (conn_close now 1 (bstr "tatami-diag: handshake deadline") (conn self)) self.

(* quic/diag/client.rs:351-359 ClientCore::handle_timeouts *)
Definition after_linger (now : Z) self : ClientCore :=
  let self := on_outcome (set_close_reason (bstr "local_close_after_handshake")) self in
  let self := set_conn (conn_close now 0 (bstr "tatami-diag: handshake observed; no application data") (conn self)) self in
  set_linger_until None self.

(* quic/diag/client.rs:337-361 ClientCore::handle_timeouts *)
Definition handle_timeouts (fuel : nat) (now : Z) self (out : list (Datagram A)) : run (ClientCore * list (Datagram A)) :=
  let self :=
    match conn_poll_timeout (conn self) with
    | Some t => if t <=? now then set_conn (conn_handle_timeout now (conn self)) self else self
    | None => self
    end in
  let self :=
    if negb (decided self) && (deadline self <=? now) && negb (conn_is_closed (conn self)) then at_deadline now self else self in
  let self :=
    if match linger_until self with Some l => l <=? now | None => false end && negb (conn_is_closed (conn self))
    then after_linger now self else self in
  drive fuel now self out.

(* quic/diag/client.rs:365-374 ClientCore::finish *)
Definition finish (now : Z) (local : option A) self : ClientOutcome :=
  let self :=
    if negb (decided self) then
      let self := on_outcome (set_handshake TimedOut) self in
      let self := on_outcome (set_close_reason (bstr "abandoned")) self in
      decide now self
    else self in
  set_elapsed (Z.max 0 (now - started self)) (set_local local (outcome self)).


(** ** The socket *)

(* quic/diag/udp.rs:18-47 recv_with_timeout *)
Definition recv_with_timeout `{Udp A} (len wait : Z) (w : UdpWorld) : UdpWorld * result (option (bytes * A)) IoError :=
  let '(w, r) := udp_set_read_timeout (Z.max wait 1000000) w in
  match r with
  | Err e => (w, Err e)
  | Ok _ =>
      let '(w, r) := udp_recv_from len w in
      match r with
      | Ok x => (w, Ok (Some x))
      | Err e =>
          match kind e with
          | WouldBlock | Seam.TimedOut | Interrupted | ConnectionRefused | ConnectionReset => (w, Ok None)
          | _ => (w, Err e)
          end
      end
  end.

(** The queue is empty afterwards, also when the call fails. *)
(* quic/diag/udp.rs:52-68 send_all *)
Fixpoint send_all `{Udp A} (out : list (Datagram A)) (w : UdpWorld) : UdpWorld * result unit IoError :=
  match out with
  | [] => (w, Ok tt)
  | d :: rest =>
      let '(w, r) := udp_send_to (payload d) (destination d) w in
      match r with
      | Ok _ => send_all rest w
      | Err e =>
          match kind e with
          | WouldBlock | Interrupted | ConnectionRefused | ConnectionReset | PermissionDenied => send_all rest w
          | _ => (w, Err e)
          end
      end
  end.

(* quic/diag/client.rs:477-482 ClientError *)
Inductive ClientError : Type := Config (e : ConfigError) | Io (e : IoError).

(* quic/diag/client.rs:484-491 ClientError::fmt *)
Definition client_error `{Shows, DebugStr} (e : ClientError) : bytes :=
  match e with
  | Config e => bstr "invalid configuration: " ++ config_error e
  | Io e => bstr "socket error: " ++ show_io e
  end.

(* quic/diag/client.rs:513-529 run *)
Fixpoint run_loop `{Udp A} (fuel : nat) self (out : list (Datagram A)) (w : UdpWorld)
    : run (UdpWorld * result ClientCore ClientError) :=
  match fuel with
  | O => Spins
  | S fuel' =>
      let '(w, r) := send_all out w in
      match r with
      | Err e => Done (w, Err (Io e))
      | Ok _ =>
          if is_finished self then Done (w, Ok self) else
          let '(w, now) := udp_now w in
          let wait := match next_timeout self with Some t => Z.min (Z.max 0 (t - now)) 25000000 | None => 25000000 end in
          let '(w, r) := recv_with_timeout 65535 wait w in
          match r with
          | Err e => Done (w, Err (Io e))
          | Ok received =>
              let '(w, fed) :=
                match received with
                | Some (data, from) => let '(w, now) := udp_now w in (w, handle_datagram fuel' now from data self [])
                | None => (w, Done (self, []))
                end in
              let^ (self, out) := fed in
              let '(w, now) := udp_now w in
              let^ (self, out) := handle_timeouts fuel' now self out in
              run_loop fuel' self out w
          end
      end
  end.

(* quic/diag/client.rs:500-506 run *)
Definition bind_address `{Udp A} (remote : A) : A :=
  if addr_is_loopback remote then addr_with_port remote 0
  else if addr_is_ipv4 remote then addr_any_v4 else addr_any_v6.

(** After the loop the queue is empty: the last [send_all] sends nothing. *)
(* quic/diag/client.rs:497-532 run *)
Definition run_client `{Udp A} (fuel : nat) (config : DiagClientConfig) (w : UdpWorld)
    : run (UdpWorld * result ClientOutcome ClientError) :=
  let '(w, r) := udp_bind (bind_address (remote config)) w in
  match r with
  | Err e => Done (w, Err (Io e))
  | Ok _ =>
      let '(w, local) := udp_local_addr w in
      let local := match local with Ok a => Some a | Err _ => None end in
      let '(w, now) := udp_now w in
      let^ r := core_new fuel config now [] in
      match r with
      | Err e => Done (w, Err (Config e))
      | Ok (core, out) =>
          let^ (w, r) := run_loop fuel core out w in
          match r with
          | Err e => Done (w, Err e)
          | Ok core => let '(w, now) := udp_now w in Done (w, Ok (finish now local core))
          end
      end
  end.
End client.
End QuicClient.
