(* ===== verification/QuicClientProps.v ===== *)
(** * What a completed QUIC handshake means

    [QuinnLaws] states what the client relies on: a connection reports
    [Connected] only after the verifier it was given accepted the server's
    certificate message and the signature made with its key. The theorems follow
    that through the core, its slot and the loop around it. *)

From S2P Require Import Prelude WireError NameList Primitives Messages KexInit KeyAlgorithm HostKey HostKeyProps.
From S2P Require Import Packet Gcm Transcript Trust Spki SpkiProps KnownHosts KnownHostsProps Text FacadeTrust Seam.
From S2P Require Import Display Durations QuicTls QuicClient.

Import Spki Quic QuicClient.

Section laws.
Context `{R : Rustls} {A : Type} `{Q : !Quinn A}.

(** Whether a call was answered with [Ok]. *)
Definition accepted (a : Answers) (c : Callback) : bool :=
  match c with
  | CalledCert i => match answer_cert a i with Ok _ => true | Err _ => false end
  | CalledSignature m cert dss => match answer_signature a m cert dss with Ok _ => true | Err _ => false end
  | CalledResolve _ => true
  end.

(** [made] is the calls a connection has made so far, with their answers;
    [by_client] says that it was opened by [connect]. Only delivering an event
    makes calls. TLS 1.3 authenticates a server by one Certificate message and
    one CertificateVerify message under its key (RFC 8446, 4.4). *)
Class QuinnLaws : Type := {
  made : Connection -> list (Callback * bool);
  by_client : Connection -> bool;
  connect_made : forall now cfg a n e e' ch c,
    endpoint_connect now cfg a n e = (e', Ok (ch, c)) -> made c = [] /\ by_client c = true;
  event_made : forall a ev c c' calls,
    conn_event a ev c = (c', calls) ->
    made c' = made c ++ map (fun k => (k, accepted a k)) calls /\ by_client c' = by_client c;
  poll_endpoint_made : forall c c' ev,
    conn_poll_endpoint_events c = (c', ev) -> made c' = made c /\ by_client c' = by_client c;
  poll_made : forall c c' ev, conn_poll c = (c', ev) -> made c' = made c /\ by_client c' = by_client c;
  transmit_made : forall now c c' t,
    conn_poll_transmit now c = (c', t) -> made c' = made c /\ by_client c' = by_client c;
  timeout_made : forall now c,
    made (conn_handle_timeout now c) = made c /\ by_client (conn_handle_timeout now c) = by_client c;
  close_made : forall now code why c,
    made (conn_close now code why c) = made c /\ by_client (conn_close now code why c) = by_client c;
  connected_authenticated : forall c c',
    conn_poll c = (c', Some Connected) -> by_client c = true ->
    exists i m dss, made c = [(CalledCert i, true); (CalledSignature m (end_entity i) dss, true)]
}.
End laws.

Section client.
Context `{R : Rustls} `{H : Hash, F : Fs, BP : Base64Padded, HM : HmacSha1, DD : Dalek} {A : Type} `{Q : !Quinn A}.
Context (features : Features) (given : Verifier) `{L : !QuinnLaws}.
Implicit Types (self : ClientCore) (v : Verifier).

(** The server's certificate message [i] passed verifier [v], and a signature
    with its key did. *)
Definition authenticated v (i : CertInput) : Prop :=
  snd (verify_server_cert features v i) = Ok tt /\
  exists m dss, verify_tls13_signature features v m (end_entity i) dss = Ok tt.

(** What the outcome says is backed by what was verified. *)
Record inv self : Prop := {
  i_given : verifier (tls self) = given;
  i_client : by_client (conn self) = true;
  i_calls : exists calls, made (conn self) = map (fun k => (k, accepted (answers features (verifier (tls self))) k)) calls /\
    (decided self = false -> slot self = foldl (record features (verifier (tls self))) None calls);
  i_undecided : decided self = false -> handshake (outcome self) = TimedOut;
  i_completed : handshake (outcome self) = Completed ->
    exists i, authenticated (verifier (tls self)) i /\
      ssh_identity (outcome self) = fst (verify_server_cert features (verifier (tls self)) i);
  i_alpn : negotiated_alpn (outcome self) <> None \/ o_exporter (outcome self) <> None ->
    exists i, authenticated (verifier (tls self)) i
}.

(** What [inv] depends on. *)
Definition view self :=
  (by_client (conn self), made (conn self), tls self, decided self, slot self, handshake (outcome self),
   ssh_identity (outcome self), negotiated_alpn (outcome self), o_exporter (outcome self)).

Lemma inv_view self self' : view self' = view self -> inv self -> inv self'.
Proof.
  unfold view. intros Hv [Hg Hc Hk Hu Hd Ha]. injection Hv as E1 E2 E3 E4 E5 E6 E7 E8 E9.
  split; rewrite ?E1, ?E2, ?E3, ?E4, ?E5, ?E6, ?E7, ?E8, ?E9; assumption.
Qed.

Lemma inv_conn self c : made c = made (conn self) -> by_client c = by_client (conn self) -> inv self -> inv (set_conn c self).
Proof. intros E1 E2. apply inv_view. unfold view, set_conn. cbn. by rewrite E1, E2. Qed.

Lemma inv_deliver ev self : inv self -> inv (deliver features ev self).
Proof.
  intros [Hg Hc (calls & Hm & Hs) Hu Hd Ha]. unfold deliver.
  destruct (conn_event _ ev (conn self)) as [c new] eqn:E. apply event_made in E as [Em Eb].
  split; cbn; [done|by rewrite Eb| |done|done|done]. exists (calls ++ new). rewrite Em, Hm, map_app. split; [done|].
  intros Hn. rewrite foldl_app. by rewrite Hs.
Qed.

(** The slot holds the check of the only certificate that was shown. *)
Lemma authenticated_calls v calls i m dss :
  map (fun k => (k, accepted (answers features v) k)) calls = [(CalledCert i, true); (CalledSignature m (end_entity i) dss, true)] ->
  authenticated v i /\ foldl (record features v) None calls = fst (verify_server_cert features v i).
Proof.
  destruct calls as [|k1 [|k2 [|? ?]]]; try done. cbn [map]. intros [= -> E1 -> E2]. cbn in E1, E2. split.
  - split; [by destruct (snd (verify_server_cert features v i)) as [[]|]|]. exists m, dss.
    by destruct (verify_tls13_signature features v m (end_entity i) dss) as [[]|].
  - cbn. by destruct (fst (verify_server_cert features v i)).
Qed.

(** Once the server is authenticated, its application protocol and the exporter
    may be reported. *)
Lemma inv_report (f : ClientOutcome -> ClientOutcome) self i :
  (forall o, handshake (f o) = handshake o /\ ssh_identity (f o) = ssh_identity o) ->
  authenticated (verifier (tls self)) i -> inv self -> inv (on_outcome f self).
Proof.
  intros Hf Hi [Hg Hc Hk Hu Hd Ha]. destruct (Hf (outcome self)) as [E1 E2].
  split; cbn [on_outcome set_outcome conn tls decided slot outcome]; rewrite ?E1, ?E2; try assumption. intros _. by exists i.
Qed.

(** Changes of the outcome that say nothing of the server. *)
Lemma inv_outcome (f : ClientOutcome -> ClientOutcome) self :
  (forall o, handshake (f o) = handshake o /\ ssh_identity (f o) = ssh_identity o /\
             negotiated_alpn (f o) = negotiated_alpn o /\ o_exporter (f o) = o_exporter o) ->
  inv self -> inv (on_outcome f self).
Proof.
  intros Hf. apply inv_view. destruct (Hf (outcome self)) as (E1 & E2 & E3 & E4).
  unfold view. cbn [on_outcome set_outcome conn tls decided slot outcome]. by rewrite E1, E2, E3, E4.
Qed.

Lemma inv_decide now r self :
  inv self ->
  (r = Completed -> exists i, authenticated (verifier (tls self)) i /\ slot self = fst (verify_server_cert features (verifier (tls self)) i)) ->
  inv (decide now (on_outcome (set_handshake r) self)).
Proof.
  intros [Hg Hc (calls & Hm & Hs) Hu Hd Ha] Hr. unfold decide.
  split; cbn [on_outcome set_outcome set_decided set_slot set_zero_rtt set_elapsed set_ssh_identity set_handshake conn tls decided
    slot outcome handshake ssh_identity negotiated_alpn o_exporter]; try assumption; [|done].
  exists calls. by split.
Qed.

Lemma inv_linger_until t self : inv self -> inv (set_linger_until t self).
Proof. by apply inv_view. Qed.

Lemma inv_connected now self c' :
  inv self -> conn_poll (conn self) = (c', Some Connected) -> inv (on_connected now (set_conn c' self)).
Proof.
  intros Hinv Hp. pose proof (connected_authenticated _ _ Hp (i_client _ Hinv)) as (i & m & dss & Hi).
  destruct (poll_made _ _ _ Hp) as [Em Eb]. pose proof (inv_conn self c' Em Eb Hinv) as Hinv'.
  destruct (i_calls _ Hinv) as (calls & Hm & Hs). rewrite Hm in Hi. destruct (authenticated_calls _ _ _ _ _ Hi) as [Hau Hsl].
  assert (decided (set_conn c' self) = false -> slot (set_conn c' self) = fst (verify_server_cert features (verifier (tls self)) i)) as Hslot.
  { intros Hn. rewrite <- Hsl. by apply Hs. }
  assert (tls (set_conn c' self) = tls self) as Ht by done. revert Hinv' Hslot Ht. generalize (set_conn c' self) as s. intros s Hinv' Hslot Ht.
  unfold on_connected.
  assert (exists s', read_handshake_data s = s' /\ inv s' /\ tls s' = tls s /\ decided s' = decided s /\ slot s' = slot s) as (s1 & -> & H1 & T1 & D1 & S1).
  { eexists; split; [done|]. unfold read_handshake_data. destruct (conn_handshake_data (conn s)) as [hd|]; [|done]. split; [|done].
    apply (inv_report _ _ i); [done|by rewrite Ht|done]. }
  assert (exists s', (match probe s1 with
      | Some p => on_outcome (set_exporter (Some (mkExporterResult (conn_export (probe_len p) (label p) (context p) (conn s1)) (probe_len p)))) s1
      | None => s1 end) = s' /\ inv s' /\ tls s' = tls s /\ decided s' = decided s /\ slot s' = slot s) as (s2 & -> & H2 & T2 & D2 & S2).
  { eexists; split; [done|]. destruct (probe s1) as [p|]; [|done]. split; [|done].
    apply (inv_report _ _ i); [done|by rewrite T1, Ht|done]. }
  destruct (decided s2) eqn:Ed; [done|]. apply inv_linger_until, inv_decide; [done|]. intros _. exists i.
  rewrite T2, Ht, S2. split; [done|]. apply Hslot. by rewrite <- D2.
Qed.

Lemma inv_lost now reason self : inv self -> inv (on_lost now reason self).
Proof.
  intros Hi. unfold on_lost. apply inv_linger_until. destruct (decided self) eqn:E; [by apply inv_outcome|].
  set (s := on_outcome (set_handshake _) self).
  apply (inv_view (decide now s)); [done|]. apply inv_decide; [done|]. by destruct reason.
Qed.

Lemma inv_endpoint_events fuel self self' : inv self -> endpoint_events features fuel self = Done self' -> inv self'.
Proof.
  revert self. induction fuel as [|fuel IH]; intros self Hi; [done|]. cbn [endpoint_events].
  destruct (conn_poll_endpoint_events (conn self)) as [c ev] eqn:E. apply poll_endpoint_made in E as [Em Eb].
  pose proof (inv_conn self c Em Eb Hi) as Hi'. destruct ev as [ev|]; [|by intros [= <-]].
  destruct (endpoint_event _ ev _) as [e ce]. apply IH. assert (inv (set_endpoint e (set_conn c self))) by (by apply (inv_view (set_conn c self))).
  destruct ce; [by apply inv_deliver|done].
Qed.

Lemma inv_events fuel now self self' : inv self -> events fuel now self = Done self' -> inv self'.
Proof.
  revert self. induction fuel as [|fuel IH]; intros self Hi; [done|]. cbn [events].
  destruct (conn_poll (conn self)) as [c ev] eqn:E. pose proof (poll_made _ _ _ E) as [Em Eb].
  pose proof (inv_conn self c Em Eb Hi) as Hi'.
  destruct ev as [[| |reason| | |]|]; try (by apply IH); [|by apply IH, inv_lost|by intros [= <-]].
  apply IH. by apply inv_connected.
Qed.

Lemma inv_transmits fuel now self out self' out' : inv self -> transmits fuel now self out = Done (self', out') -> inv self'.
Proof.
  revert self out. induction fuel as [|fuel IH]; intros self out Hi; [done|]. cbn [transmits].
  destruct (conn_poll_transmit now (conn self)) as [c t] eqn:E. apply transmit_made in E as [Em Eb].
  pose proof (inv_conn self c Em Eb Hi) as Hi'. destruct t as [d|]; [|by intros [= <- <-]]. apply IH. by apply inv_outcome.
Qed.

Lemma inv_drive fuel now self out self' out' : inv self -> drive features fuel now self out = Done (self', out') -> inv self'.
Proof.
  intros Hi. unfold drive. intros (s1 & H1 & (s2 & H2 & ([s3 o3] & H3 & (s4 & H4 & [= <- <-])%run_bind_done)%run_bind_done)%run_bind_done)%run_bind_done.
  eapply inv_endpoint_events, H4. eapply inv_transmits, H3. eapply inv_events, H2. by eapply inv_endpoint_events.
Qed.

Lemma inv_handle_datagram fuel now from data self out self' out' :
  inv self -> handle_datagram features fuel now from data self out = Done (self', out') -> inv self'.
Proof.
  intros Hi. unfold handle_datagram. set (s := on_outcome _ self). assert (inv s) as Hs by (by apply inv_outcome).
  destruct (endpoint_handle _ _ _ _ _) as [e event]. assert (inv (set_endpoint e s)) as He by (by apply (inv_view s)).
  destruct event as [[ch' ev|incoming|t]|]; cbn beta iota.
  - intros Hd. eapply inv_drive, Hd. destruct (ch' =? _); [by apply inv_deliver|done].
  - intros Hd. eapply inv_drive, Hd. by apply (inv_view (set_endpoint e s)).
  - intros Hd. eapply inv_drive, Hd. by apply inv_outcome.
  - by apply inv_drive.
Qed.

Lemma inv_at_deadline now self : inv self -> inv (at_deadline now self).
Proof.
  intros Hi. unfold at_deadline. set (s := on_outcome (set_handshake TimedOut) self).
  apply inv_conn; [apply close_made|apply close_made|]. apply (inv_view (decide now s)); [done|]. by apply inv_decide.
Qed.

Lemma inv_after_linger now self : inv self -> inv (after_linger now self).
Proof.
  intros Hi. unfold after_linger. apply inv_linger_until, inv_conn; [apply close_made|apply close_made|]. by apply inv_outcome.
Qed.

Lemma inv_handle_timeouts fuel now self out self' out' :
  inv self -> handle_timeouts features fuel now self out = Done (self', out') -> inv self'.
Proof.
  intros Hi. unfold handle_timeouts.
  assert (inv (match conn_poll_timeout (conn self) with
               | Some t => if t <=? now then set_conn (conn_handle_timeout now (conn self)) self else self
               | None => self end)) as H1.
  { destruct (conn_poll_timeout _) as [t|]; [|done]. case_match; [|done]. apply inv_conn; [apply timeout_made|apply timeout_made|done]. }
  cbv zeta. revert H1. generalize (match conn_poll_timeout (conn self) with
    | Some t => if t <=? now then set_conn (conn_handle_timeout now (conn self)) self else self | None => self end) as s1. intros s1 H1.
  apply inv_drive. repeat case_match; auto using inv_at_deadline, inv_after_linger.
Qed.

Lemma inv_finish now local self :
  inv self -> handshake (finish now local self) = Completed ->
  exists i, authenticated given i /\ ssh_identity (finish now local self) = fst (verify_server_cert features given i).
Proof.
  intros Hi. unfold finish. destruct (decided self) eqn:E; cbn [negb]; [|done]. rewrite <- (i_given _ Hi). apply (i_completed _ Hi).
Qed.

Lemma inv_run_loop `{Udp A} fuel self out w w' self' :
  inv self -> run_loop features fuel self out w = Done (w', Ok self') -> inv self'.
Proof.
  revert self out w. induction fuel as [|fuel IH]; intros self out w Hi; [done|]. cbn [run_loop].
  destruct (send_all out w) as [w1 [?|?]]; [|done]. destruct (is_finished self); [by intros [= <- <-]|].
  destruct (udp_now w1) as [w2 now]. destruct (recv_with_timeout _ _ w2) as [w3 [received|?]]; [|done].
  destruct received as [[data from]|].
  - destruct (udp_now w3) as [w4 now']. intros ([s1 o1] & H1 & Hr)%run_bind_done. destruct (udp_now w4) as [w5 now''].
    apply run_bind_done in Hr as ([s2 o2] & H2 & Hr). eapply IH, Hr. eapply inv_handle_timeouts, H2. by eapply inv_handle_datagram.
  - cbn [run_bind]. destruct (udp_now w3) as [w5 now'']. intros ([s2 o2] & H2 & Hr)%run_bind_done.
    eapply IH, Hr. by eapply inv_handle_timeouts.
Qed.
End client.

Section theorems.
Context `{R : Rustls} `{H : Hash, F : Fs, BP : Base64Padded, HM : HmacSha1, DD : Dalek} {A : Type} `{Q : !Quinn A} `{U : !Udp A}.
Context (features : Features) `{L : !QuinnLaws}.

Lemma core_new_inv fuel config now out core out' :
  core_new features fuel config now out = Done (Ok (core, out')) ->
  exists v, verifier_for (trust config) = Ok v /\ inv features v core.
Proof.
  unfold core_new. destruct (validate config) as [kind|?]; [|done]. cbn [rbind].
  destruct (client_crypto_recording (trust config) (alpn config)) as [crypto|?] eqn:Ec; [|done]. cbn [rbind].
  destruct (transport_config _) as [transport|?]; [|done]. cbn [rbind].
  destruct (endpoint_connect _ _ _ _ _) as [e [[ch c]|[n|t]]] eqn:Ee; [|done|done].
  intros ([s o] & Hd & [= <- <-])%run_bind_done. apply connect_made in Ee as [Em Eb].
  unfold client_crypto_recording in Ec. destruct (validate_alpn _); [|done]. cbn [rbind] in Ec.
  destruct (verifier_for (trust config)) as [v|?]; [|done]. cbn [rbind] in Ec. destruct tls13_versions; [|done].
  cbn [map_err rbind] in Ec. destruct quic_initial_suite; [|done]. injection Ec as <-. exists v. split; [done|].
  eapply inv_drive, Hd. split; cbn; [done|done|by exists []|done|done|]. by intros [?|?].
Qed.

(** What each trust option asks of the server. *)
Definition trusted_server (t : ClientTrust) (o : ClientOutcome (A := A)) : Prop :=
  exists cert m dss,
    match t with
    | PinnedCertificateSha256 pin =>
        Sha256Newtype.eq (Sha256Newtype.of_der cert) pin = true /\ verify_tls13 m cert dss = Ok tt
    | PinnedRawPublicKeySha256 pin =>
        Sha256Newtype.eq (Sha256Newtype.of_der cert) pin = true /\ verify_tls13_with_raw_key m cert dss = Ok tt
    | RootCertificate der =>
        exists roots v i, roots_add der = Ok roots /\ webpki_build roots = Ok v /\ cert = end_entity i /\
          webpki_cert v i = Ok tt /\ webpki_tls13 v m cert dss = Ok tt
    | SshHostKey t =>
        exists key src, host_key_from_spki features cert = Ok key /\
          let blob := HostKey.to_blob key in
          let fingerprint := Sha256Fingerprint.of_blob blob in
          decide_trust (ssh_policy t) (mkIdentity (HostKey.algorithm key) blob fingerprint) = Trusted src /\
          ssh_identity o = Some (Judged (KeyType.name (HostKey.key_type key)) blob fingerprint (Trusted src)) /\
          scheme_matches_key (dss_scheme dss) (HostKey.key_type key) = true /\ verify_tls13_with_raw_key m cert dss = Ok tt
    end.

Lemma run_completed fuel config w w' o :
  run_client features fuel config w = Done (w', Ok o) -> handshake o = Completed ->
  exists v i, verifier_for (trust config) = Ok v /\ authenticated features v i /\
    ssh_identity o = fst (verify_server_cert features v i).
Proof.
  unfold run_client. destruct (udp_bind _ w) as [w1 [?|?]]; [|done]. destruct (udp_local_addr w1) as [w2 local].
  destruct (udp_now w2) as [w3 now]. intros ([[core out]|?] & Hn & Hr)%run_bind_done; [|done].
  apply core_new_inv in Hn as (v & Hv & Hi). apply run_bind_done in Hr as ([w4 [core'|?]] & Hl & Hf); [|done].
  destruct (udp_now w4) as [w5 now']. injection Hf as <- <-. intros Hc.
  apply (inv_finish features v) in Hc as (i & Hau & Hs); [|by eapply inv_run_loop]. by exists v, i.
Qed.

(** A server that passed the verifier of a trust option is one it asks for. *)
Lemma authenticated_trusted t v i (o : ClientOutcome (A := A)) :
  verifier_for t = Ok v -> authenticated features v i -> ssh_identity o = fst (verify_server_cert features v i) ->
  trusted_server t o.
Proof.
  intros Hv (Ha & m & dss & Hm) Hs.
  exists (end_entity i), m, dss. destruct t as [pin|der|pin|t]; cbn [verifier_for] in Hv.
  - injection Hv as <-. cbn in Ha, Hm. unfold verify_pinned_certificate in Ha. by destruct (Sha256Newtype.eq _ pin).
  - destruct (roots_add der) as [roots|?] eqn:Er; [|done]. cbn [map_err rbind] in Hv.
    destruct (webpki_build roots) as [wv|?] eqn:Ew; [|done]. injection Hv as <-. by exists roots, wv, i.
  - injection Hv as <-. cbn in Ha, Hm. unfold verify_pinned_raw_key in Ha. by destruct (Sha256Newtype.eq _ pin).
  - injection Hv as <-. cbn [verify_server_cert verify_tls13_signature] in *. unfold verify_ssh_host_key, verify_ssh_signature in *.
    destruct (host_key_from_spki features (end_entity i)) as [key|?]; [|done]. cbn [fst snd] in *.
    destruct (decide_trust _ _) as [src|reason] eqn:Ed; [|done].
    destruct (scheme_matches_key _ _) eqn:Em; [|done]. by exists key, src.
Qed.
(** A QUIC handshake is reported as completed only if the server
    authenticated itself the way the configured trust asks: the certificate or
    raw public key it presented is the pinned one or chains to the root, or its
    strict conversion to an SSH host key is one the policy trusts, which the
    outcome then names; and in every case a TLS signature made with that key
    verified, for an SSH host key under a scheme of its key type. *)
Theorem quic_client_completed fuel config w w' o :
  run_client features fuel config w = Done (w', Ok o) -> handshake o = Completed -> trusted_server (trust config) o.
Proof.
  intros Hr Hc. destruct (run_completed _ _ _ _ _ Hr Hc) as (v & i & Hv & Ha & Hs). by eapply authenticated_trusted.
Qed.
End theorems.

(** ** An example run *)

Module QuicDemo.

(** A TLS stack that accepts every signature. *)
Definition tls : Rustls := {|
  RustlsError := bytes;
  show_rustls e := e;
  general e := e;
  bad_encoding := bstr "bad encoding";
  other_error e := e;
  Dss := unit;
  dss_scheme _ := ED25519;
  show_scheme _ := [];
  verify_tls12 _ _ _ := Err [];
  verify_tls13 _ _ _ := Ok tt;
  verify_tls13_with_raw_key _ _ _ := Ok tt;
  RootStore := unit;
  WebPki := unit;
  roots_add _ := Ok tt;
  webpki_build _ := Ok tt;
  webpki_cert _ _ := Ok tt;
  webpki_tls12 _ _ _ _ := Err [];
  webpki_tls13 _ _ _ _ := Ok tt;
  tls13_versions := Ok tt;
  quic_initial_suite := Ok tt;
  server_name_try_from _ := Some (Some true)
|}.
#[local] Existing Instance tls.

(** A connection that is shown one certificate, in the only datagram of the
    server, and then reports how that went. *)
Inductive phase : Type :=
| Fresh
| Refused (i : CertInput)
| Shown (i : CertInput) (signed reported : bool).

Record connection : Type := mkConnection { at_phase : phase; is_closed : bool }.

Definition is_ok {X Y} (r : result X Y) : bool := match r with Ok _ => true | Err _ => false end.

Definition event (a : Answers) (i : CertInput) (c : connection) : connection * list Callback :=
  match at_phase c with
  | Fresh =>
      if is_ok (answer_cert a i)
      then (mkConnection (Shown i (is_ok (answer_signature a [] (end_entity i) tt)) false) (is_closed c),
            [CalledCert i; CalledSignature [] (end_entity i) tt])
      else (mkConnection (Refused i) true, [CalledCert i])
  | _ => (c, [])
  end.

Definition poll (c : connection) : connection * option Event :=
  match at_phase c with
  | Shown i true false => (mkConnection (Shown i true true) (is_closed c), Some Connected)
  | _ => (c, None)
  end.

Definition calls_of (c : connection) : list (Callback * bool) :=
  match at_phase c with
  | Fresh => []
  | Refused i => [(CalledCert i, false)]
  | Shown i s _ => [(CalledCert i, true); (CalledSignature [] (end_entity i) tt, s)]
  end.

#[local] Instance quinn : Quinn Z := {|
  Endpoint := unit;
  Connection := connection;
  ConnectionEvent := CertInput;
  EndpointEvent := unit;
  Incoming := unit;
  client_endpoint _ := tt;
  endpoint_connect _ _ _ _ e := (e, Ok (0, mkConnection Fresh false));
  endpoint_handle _ _ _ data e := (e, Some (ConnectionEventFor 0 (mkCertInput data [] [] [] 0)));
  endpoint_event _ _ e := (e, None);
  endpoint_ignore _ e := e;
  conn_event := event;
  conn_poll_endpoint_events c := (c, None);
  conn_poll := poll;
  conn_poll_transmit _ c := (c, None);
  conn_poll_timeout _ := None;
  conn_handle_timeout _ c := c;
  conn_close _ _ _ c := mkConnection (at_phase c) true;
  conn_is_closed := is_closed;
  conn_is_drained := is_closed;
  conn_has_0rtt _ := false;
  conn_handshake_data _ := Some (mkHandshakeData (Some (bstr "x")) None);
  conn_export _ _ _ _ := true;
  timed_out_text := bstr "timed out"
|}.

#[local] Instance quinn_laws : QuinnLaws (A := Z).
Proof.
  refine {| made := calls_of; by_client _ := true |}; try done.
  - by intros ? ? ? ? ? ? ? ? [= <- <- <-].
  - intros a ev [[|i|i s r] cl] c' calls E; cbn in E; unfold event in E; cbn in E;
      [|by injection E as <- <-..].
    destruct (answer_cert a ev) eqn:Ea; cbn in E; injection E as <- <-; cbn; rewrite Ea; [|done].
    split; [|done]. by destruct (answer_signature a [] (end_entity ev) tt).
  - by intros c c' ev [= <- <-].
  - intros [[|i|i [] []] cl] c' ev; cbn; by intros [= <- <-].
  - by intros now c c' t [= <- <-].
  - intros [[|i|i [] []] cl] c'; cbn; try done. intros _ _. by exists i, [], tt.
Defined.

(** A socket that receives one datagram; the clock ticks seconds. *)
#[local] Instance socket : Udp Z := {|
  UdpWorld := list bytes * Z;
  udp_bind _ w := (w, Ok tt);
  udp_local_addr w := (w, Ok 7);
  udp_set_read_timeout _ w := (w, Ok tt);
  udp_recv_from _ w := match fst w with [] => (w, Err (io_error WouldBlock)) | d :: ds => ((ds, snd w), Ok (d, 1)) end;
  udp_send_to _ _ w := (w, Ok tt);
  udp_now w := ((fst w, snd w + 1000000000), snd w);
  addr_is_loopback _ := true;
  addr_is_ipv4 _ := true;
  addr_with_port a _ := a;
  addr_any_v4 := 0;
  addr_any_v6 := 0
|}.

#[local] Instance digest : Hash := {| sha256 m := ztake 32 (zdrop 40 m ++ replicate 32 x07) |}.

#[local] Instance no_files : Fs := {|
  Path := unit; FacadeTrust.IoError := unit; File := unit; fs_open _ := Err tt; fs_metadata _ := Err tt; fs_read _ _ := Err tt
|}.

#[local] Existing Instances one_key letters_codec echo_mac.

Definition features : Features := mkFeatures true true true.

Definition spki : bytes := ED25519_SPKI_PREFIX ++ replicate 32 x09.

Definition key : HostKey.t := HostKey.Ed25519 (Ed25519.mkKey (D := one_key) tt).

Definition pin : Sha256Fingerprint.t := Sha256Fingerprint.of_blob (HostKey.to_blob key).

Definition config : DiagClientConfig (A := Z) :=
  config_new 1 (bstr "h") [bstr "x"] (SshHostKey (mkSshHostTrust (SharedPin (mkPinned pin)) "pinned_fingerprint" None)).

Abbreviation the_run := (run_client features 20 config ([spki], 0)).

(** The server shows the pinned host key; the run completes. *)
Lemma quic_client_completed_witness :
  exists w o, the_run = Done (w, Ok o) /\ handshake o = Completed /\ trusted_server features (trust config) o.
Proof.
  assert (exists w o, the_run = Done (w, Ok o) /\ handshake o = Completed) as (w & o & Hr & Ho)
    by (eexists _, _; split; vm_compute; reflexivity).
  exists w, o. split; [exact Hr|]. split; [exact Ho|]. exact (quic_client_completed features 20 config ([spki], 0) w o Hr Ho).
Defined.

End QuicDemo.
