(* ===== verification/QuicReport.v ===== *)
(** * The QUIC handshake command

    Models [quic_diag::client] of crates/tatami_ssh/src (quic_diag/client.rs),
    with quic_diag/mod.rs and quic_diag/time.rs: one run from the trust
    configuration over name resolution to the report, its text (the list of its
    lines) and its JSON record. *)

From S2P Require Import Prelude WireError NameList Primitives Messages KexInit KeyAlgorithm HostKey HostKeyProps.
From S2P Require Import Packet Gcm Transcript Trust Spki SpkiProps KnownHosts KnownHostsProps Text TextProps FacadeTrust Seam.
From S2P Require Import Calendar Utf8 Display ProbeReport Records Durations QuicTls QuicClient.

(** [str::parse::<IpAddr>] with a port, and [ToSocketAddrs]. *)
Class Resolver (A : Type) (U : Udp A) : Type := {
  ip_literal : bytes -> Z -> option A;
  to_socket_addrs : bytes -> Z -> UdpWorld -> UdpWorld * result (list A) IoError
}.

Module QuicTime.
Import Json.

(* facade/quic_diag/time.rs:38-49 civil_from_days *)
Definition civil_from_days (z : Z) : Z * Z * Z :=
  let z := z + 719468 in
  let era := Z.quot (if 0 <=? z then z else z - 146096) 146097 in
  let doe := z - era * 146097 in
  let yoe := Z.quot (doe - Z.quot doe 1460 + Z.quot doe 36524 - Z.quot doe 146096) 365 in
  let y := yoe + era * 400 in
  let doy := doe - (365 * yoe + Z.quot yoe 4 - Z.quot yoe 100) in
  let mp := Z.quot (5 * doy + 2) 153 in
  let d := doy - Z.quot (153 * mp + 2) 5 + 1 in
  let m := if mp <? 10 then mp + 3 else mp - 9 in
  (if m <=? 2 then y + 1 else y, m, d).

(* facade/quic_diag/time.rs:23-35 rfc3339 *)
Definition rfc3339 (since_epoch : Z) : str :=
  let secs := Calendar.as_secs since_epoch in
  let millis := Calendar.subsec_millis since_epoch in
  let days := secs / 86400 in
  let rem := secs mod 86400 in
  let '(y, m, d) := civil_from_days (if days <=? Calendar.I64_MAX then days else Calendar.I64_MAX) in
  Calendar.padded 4 y ++ chars "-" ++ Calendar.padded 2 m ++ chars "-" ++ Calendar.padded 2 d ++ chars "T"
  ++ Calendar.padded 2 (rem / 3600) ++ chars ":" ++ Calendar.padded 2 (rem mod 3600 / 60) ++ chars ":" ++ Calendar.padded 2 (rem mod 60)
  ++ chars "." ++ Calendar.padded 3 millis ++ chars "Z".

(* facade/quic_diag/time.rs:53-55 millis *)
Definition millis (d : Z) : Z := Z.min (d / 1000000) U64_MAX.

(** The two copies of the date arithmetic agree. *)
Lemma rfc3339_same t : rfc3339 t = Calendar.rfc3339 t.
Proof. reflexivity. Qed.

End QuicTime.

Module QuicReport.
Import Text Json Utf8 Display ReportText Records Quic QuicClient.

(** ** Values *)

(* facade/quic_diag/mod.rs:41-52 bytes_value *)
Definition bytes_value (bs : bytes) (max_hex : Z) : Value :=
  if forallb printable bs then text bs
  else
    let n := Z.min (zlen bs) max_hex in
    let obj := field object (chars "text") (text bs) in
    let obj := field obj (chars "hex") (hex (ztake n bs)) in
    build (field obj (chars "hex_truncated") (Bool (n <? zlen bs))).

(* facade/quic_diag/mod.rs:56-58 bytes_list *)
Definition bytes_list (items : list bytes) (max_hex : Z) : Value := Array (map (fun b => bytes_value b max_hex) items).

(* facade/quic_diag/mod.rs:62-64 string_list *)
Definition string_list (items : list bytes) : Value := strings (map from_utf8_lossy items).

Section command.
Context `{R : Rustls} `{H : Hash, F : Fs, BP : Base64Padded, HM : HmacSha1, DD : Dalek} {A : Type} `{Q : !Quinn A}.
Variable features : Features.
Variable hashed_hosts : bool.

(* facade/quic_diag/client.rs:40-45 Trust *)
Inductive Trust : Type := TrustTls (t : ClientTrust) | TrustSsh (config : TrustConfig).

(* facade/quic_diag/client.rs:62-68 Trust::identity_mode *)
Definition identity_mode (self : Trust) : string :=
  match self with
  | TrustTls (PinnedRawPublicKeySha256 _) => "raw_public_key_spki_pin"
  | TrustTls _ => "x509_certificate"
  | TrustSsh _ => "ssh_host_key_raw_public_key"
  end.

(* facade/quic_diag/client.rs:73-88 Options *)
Record Options : Type := mkOptions {
  host : bytes;
  port : Z;
  server_name : option bytes;
  alpn : list bytes;
  opt_trust : Trust;
  handshake_timeout : Z;
  exporter_probe : bool
}.

(* facade/quic_diag/client.rs:93-108 Options::new *)
Definition options (host : bytes) (port : Z) (alpn : list bytes) (trust : Trust) : Options :=
  mkOptions host port None alpn trust DEFAULT_HANDSHAKE_TIMEOUT false.

(* facade/quic_diag/client.rs:112-114 Options::effective_server_name *)
Definition effective_server_name (self : Options) : bytes := default (host self) (server_name self).

(* facade/quic_diag/client.rs:119-140 Report *)
Record Report : Type := mkReport {
  rp_host : bytes;
  rp_port : Z;
  rp_server_name : bytes;
  rp_resolved : option A;
  rp_identity_mode : string;
  rp_ssh_trust : option TrustConfig;
  rp_lookup_name : option bytes;
  rp_trust_error : option string;
  rp_result : result (ClientOutcome (A := A)) bytes
}.

(* facade/quic_diag/client.rs:145-147 Report::is_complete *)
Definition is_complete (self : Report) : bool :=
  match rp_result self with Ok o => is_completed (handshake o) | Err _ => false end.

Section run.
Context `{U : !Udp A} `{!Resolver A U} `{Sh : Shows, Db : DebugStr, FS : !FsShows F}.

(* facade/quic_diag/client.rs:204-214 resolve *)
Definition resolve (host : bytes) (port : Z) (w : UdpWorld) : UdpWorld * result A bytes :=
  match ip_literal host port with
  | Some a => (w, Ok a)
  | None =>
      let '(w, r) := to_socket_addrs host port w in
      (w, match r with
          | Err e => Err (bstr "could not resolve " ++ debug_str host ++ bstr ": " ++ show_io e)
          | Ok [] => Err (debug_str host ++ bstr " resolved to no addresses")
          | Ok (a :: _) => Ok a
          end)
  end.

(** The trust handed to the TLS stack, with the lookup name; [None] is a panic
    of the pattern matcher. *)
(* facade/quic_diag/client.rs:166-188 run *)
Definition client_trust (o : Options) : option (result (ClientTrust * option bytes) TrustConfigError) :=
  match opt_trust o with
  | TrustTls t => Some (Ok (t, None))
  | TrustSsh config =>
      let* prepared := FacadeTrust.prepare features hashed_hosts config (host o) (port o) in
      Some (map_ok (fun p => (SshHostKey (mkSshHostTrust (policy p) (mode config) (prepared_name p)), prepared_name p)) prepared)
  end.

(* facade/quic_diag/client.rs:153-202 run *)
Definition run_command (fuel : nat) (o : Options) (w : UdpWorld) : run (UdpWorld * Report) :=
  let server_name := effective_server_name o in
  let ssh_trust := match opt_trust o with TrustSsh config => Some config | TrustTls _ => None end in
  match client_trust o with
  | None => Panics
  | Some (Err e) =>
      Done (w, mkReport (host o) (port o) server_name None (identity_mode (opt_trust o)) ssh_trust None (Some (config_error_code e))
                 (Err (bstr "trust configuration unusable: " ++ trust_config_error e)))
  | Some (Ok (trust, lookup_name)) =>
      let report := mkReport (host o) (port o) server_name in
      let '(w, remote) := resolve (host o) (port o) w in
      match remote with
      | Err e => Done (w, report None (identity_mode (opt_trust o)) ssh_trust lookup_name None (Err e))
      | Ok remote =>
          let config :=
            mkConfig remote server_name (alpn o) trust (handshake_timeout o) (linger (config_new remote server_name (alpn o) trust))
              (if exporter_probe o then Some ExporterProbe_default else None) in
          let^ (w, r) := run_client features fuel config w in
          Done (w, report (Some remote) (identity_mode (opt_trust o)) ssh_trust lookup_name None (map_err client_error r))
      end
  end.
End run.

(** ** The text *)

Context `{Sh : Shows, Sa : !ShowAddr A, FS : !FsShows F, B64 : Base64}.

(* facade/quic_diag/client.rs:224-234 alpn_text *)
Definition alpn_text (items : list bytes) : bytes := bstr "[" ++ list_items 0 items ++ bstr "]".

(** [{:08x}]. *)
Definition hex32 (n : Z) : bytes := mjoin (map (fun k => hex_byte (byte_of_Z (Z.shiftr n (8 * k) mod 256))) [3; 2; 1; 0]).

(* facade/quic_diag/client.rs:330-375 Report::write_ssh_identity *)
Definition ssh_identity_lines (r : Report) (o : ClientOutcome (A := A)) : list bytes :=
  match rp_ssh_trust r with
  | None => []
  | Some config =>
      [bstr "Identity mode: SSH host key as RFC 7250 raw public key"] ++
      match config with
      | Pin pin => [bstr "Trust source: SSH fingerprint pin " ++ Sha256Fingerprint.display pin]
      | KnownHostsPath path =>
          [bstr "Trust source: known_hosts file " ++ escape_bytes (show_fs_path path)] ++
          match rp_lookup_name r with Some name => [bstr "Lookup name: " ++ escape_bytes name] | None => [] end
      end ++
      match ssh_identity o with
      | Some (Judged algorithm blob fingerprint decision) =>
          [bstr "SSH host key: " ++ algorithm ++ bstr " " ++ Sha256Fingerprint.display fingerprint] ++
          match Sshfp.sha256_of_blob features blob with
          | Ok fp => [bstr "SSHFP (equivalent value, not DNS-verified): " ++ Sshfp.display fp]
          | Err _ => []
          end ++
          [bstr "Host trust: " ++ trust_text (Some decision)]
      | Some (NotConvertible reason) => [bstr "SSH host key: not a supported raw public key (" ++ escape_bytes reason ++ bstr ")"]
      | None => [bstr "SSH host key: not received"]
      end
  end.

(* facade/quic_diag/client.rs:262-312 Report::write_text *)
Definition outcome_lines (r : Report) (o : ClientOutcome (A := A)) : list bytes :=
  match o_local o with Some l => [bstr "Local address: " ++ show_addr l] | None => [] end ++
  [bstr "SNI sent: " ++ show_bool (sni_sent o);
   bstr "ALPN offered (experimental, unregistered): " ++ alpn_text (offered_alpn o);
   match handshake o with
   | Completed => bstr "Handshake: completed (TLS 1.3 over QUIC v1)"
   | Failed reason => bstr "Handshake: failed; " ++ escape_bytes reason
   | TimedOut => bstr "Handshake: timed out"
   end;
   match negotiated_alpn o with
   | Some a => bstr "ALPN negotiated: " ++ escape_bytes a
   | None => bstr "ALPN negotiated: none"
   end;
   bstr "Server identity check: " ++ bstr (o_trust o)] ++
  ssh_identity_lines r o ++
  [bstr "TLS version: " ++ tls_version_note o;
   bstr "QUIC version: 0x" ++ hex32 (quic_version o) ++ bstr " (" ++ quic_version_note o ++ bstr ")";
   bstr "0-RTT attempted: " ++ show_bool (zero_rtt_attempted o);
   match o_exporter o with
   | Some e =>
       bstr "TLS exporter probe: " ++ bstr (if available e then "available" else "unavailable") ++ bstr " (" ++ show (ex_len e)
       ++ bstr " bytes requested; output discarded, never a session binding)"
   | None => bstr "TLS exporter probe: not requested"
   end;
   bstr "Close: " ++ escape_bytes (close_reason o);
   bstr "Datagrams: " ++ show (datagrams_sent o) ++ bstr " sent, " ++ show (datagrams_received o) ++ bstr " received";
   bstr "Elapsed: " ++ show_secs (elapsed o) ++ bstr "s"].

(* facade/quic_diag/client.rs:238-328 Report::write_text *)
Definition text_lines (r : Report) : list bytes :=
  [bstr "Target: " ++ target (rp_host r) (rp_port r) ++ bstr " (QUIC v1, UDP)";
   match rp_resolved r with
   | Some a => bstr "Remote address: " ++ show_addr a
   | None => bstr "Remote address: (unresolved)"
   end;
   bstr "Server name: " ++ escape_bytes (rp_server_name r)] ++
  match rp_result r with
  | Err e => [bstr "Handshake: not attempted; " ++ escape_bytes e]
  | Ok o => outcome_lines r o
  end ++
  [bstr "Application data: none (no streams, no datagrams)";
   bstr "SSH: nothing sent or expected; this is not an SSH client"] ++
  match rp_ssh_trust r with
  | Some _ => [bstr "SSH session: none (a trusted host key over QUIC/TLS is not an SSH session)"]
  | None => []
  end ++
  [bstr "User authentication: not attempted"].

Definition write_text (r : Report) : bytes := write_lines (text_lines r).

(** ** The record *)

Definition opt_value (v : option Value) : Value := default Null v.

(* facade/quic_diag/client.rs:404-429 Report::ssh_identity_json *)
Definition key_record (check : option SshIdentityCheck) : Value * option TrustDecision :=
  match check with
  | Some (Judged algorithm blob fingerprint decision) =>
      let obj := field object (chars "algorithm") (text algorithm) in
      let obj := field obj (chars "fingerprint_sha256") (text (Sha256Fingerprint.display fingerprint)) in
      let obj := opt obj (chars "sshfp")
        (match Sshfp.sha256_of_blob features blob with Ok f => Some (text (Sshfp.display f)) | Err _ => None end) in
      (build (field obj (chars "blob_len") (UInt (zlen blob))), Some decision)
  | Some (NotConvertible reason) => (build (field object (chars "unsupported") (text reason)), None)
  | None => (Null, None)
  end.

(* facade/quic_diag/client.rs:377-444 Report::ssh_identity_json *)
Definition ssh_identity_json (r : Report) (o : option (ClientOutcome (A := A))) : list (str * Value) :=
  match rp_ssh_trust r with
  | None => []
  | Some config =>
      let '(key, decision) := key_record (mbind ssh_identity o) in
      let '(source, reason, line) :=
        match decision with
        | Some (Trusted source) => (Some (trust_source_code source), None, trust_source_line source)
        | Some (Untrusted reason) => (None, Some (untrusted_reason_code reason), untrusted_reason_line reason)
        | None => (None, rp_trust_error r, None)
        end in
      [(chars "trust_policy", lit (mode config));
       (chars "pinned_fingerprint_sha256", opt_value ((fun p => text (Sha256Fingerprint.display p)) <$> config_pin config));
       (chars "known_hosts_file", opt_value ((fun p => text (show_fs_path p)) <$> known_hosts_file config));
       (chars "known_hosts_lookup", opt_value (text <$> rp_lookup_name r));
       (chars "ssh_host_key", key);
       (chars "host_trusted", opt_value ((fun d => Bool (Trust.is_trusted d)) <$> decision));
       (chars "trust_source", opt_value (lit <$> source));
       (chars "trust_line", opt_value (UInt <$> line));
       (chars "untrusted_reason", opt_value (lit <$> reason))]
  end.

(* facade/quic_diag/client.rs:473-509 Report::to_json *)
Definition outcome_fields (o : ClientOutcome (A := A)) (rec : list (str * Value)) : list (str * Value) :=
  let rec := opt rec (chars "local_addr") ((fun a => text (show_addr a)) <$> o_local o) in
  let rec := field rec (chars "sni_sent") (Bool (sni_sent o)) in
  let rec := field rec (chars "offered_alpn") (bytes_list (offered_alpn o) 512) in
  let rec := field rec (chars "alpn_registered") (Bool false) in
  let rec := field rec (chars "handshake_outcome") (lit (result_code (handshake o))) in
  let rec := opt rec (chars "reason") (match handshake o with Failed reason => Some (text reason) | _ => None end) in
  let rec := opt rec (chars "negotiated_alpn") ((fun a => bytes_value a 512) <$> negotiated_alpn o) in
  let rec := field rec (chars "server_identity_check") (lit (o_trust o)) in
  let rec := field rec (chars "server_identity_verified") (Bool (is_completed (handshake o))) in
  let rec := field rec (chars "tls_version") (lit "1.3") in
  let rec := field rec (chars "tls_version_note") (text (tls_version_note o)) in
  let rec := field rec (chars "quic_version") (UInt (quic_version o)) in
  let rec := field rec (chars "quic_version_note") (text (quic_version_note o)) in
  let rec := field rec (chars "zero_rtt") (Bool (zero_rtt_attempted o)) in
  let rec := opt rec (chars "exporter")
    ((fun e => build (field (field object (chars "available") (Bool (available e))) (chars "len") (UInt (ex_len e)))) <$> o_exporter o) in
  let rec := field rec (chars "close_reason") (text (close_reason o)) in
  let rec := field rec (chars "datagrams_sent") (UInt (datagrams_sent o)) in
  let rec := field rec (chars "datagrams_received") (UInt (datagrams_received o)) in
  field rec (chars "elapsed_ms") (UInt (QuicTime.millis (elapsed o))).

(** [time] is the time stamp the record is made with. *)
(* facade/quic_diag/client.rs:448-516 Report::to_json *)
Definition to_json (r : Report) (time : str) : Value :=
  let rec := field object (chars "schema") (UInt 1) in
  let rec := field rec (chars "event") (lit "quic_client_handshake") in
  let rec := field rec (chars "time") (Str time) in
  let rec := field rec (chars "transport") (lit "quic") in
  let rec := field rec (chars "host") (text (rp_host r)) in
  let rec := field rec (chars "port") (UInt (rp_port r)) in
  let rec := field rec (chars "server_name") (text (rp_server_name r)) in
  let rec := opt rec (chars "remote_addr") ((fun a => text (show_addr a)) <$> rp_resolved r) in
  let rec := field rec (chars "identity_mode") (lit (rp_identity_mode r)) in
  let rec := foldl (fun rec '(k, v) => field rec k v) rec
    (ssh_identity_json r (match rp_result r with Ok o => Some o | Err _ => None end)) in
  let rec := match rp_trust_error r with Some code => field rec (chars "trust_error") (lit code) | None => rec end in
  let rec :=
    match rp_result r with
    | Err e => field (field rec (chars "handshake_outcome") (lit "not_attempted")) (chars "reason") (text e)
    | Ok o => outcome_fields o rec
    end in
  let rec := field rec (chars "user_authenticated") (Bool false) in
  let rec := field rec (chars "ssh_session") (Bool false) in
  let rec := field rec (chars "application_data") (Bool false) in
  build (field rec (chars "experimental") (Bool true)).

End command.
End QuicReport.
