(* ===== verification/QuicReportProps.v ===== *)
(** * What a QUIC report says

    The report of [handshake --transport quic] claims completion only for a
    server that authenticated itself under the configured trust, bound to the
    host and port that were typed. *)

From S2P Require Import Prelude WireError NameList Primitives Messages KexInit KeyAlgorithm HostKey HostKeyProps.
From S2P Require Import Packet Gcm Transcript Trust Spki SpkiProps KnownHosts KnownHostsProps Text TextProps FacadeTrust Seam.
From S2P Require Import Calendar Utf8 Display ProbeReport Records RecordsProps RecordEvidence Durations QuicTls QuicClient QuicClientProps QuicReport.

Import Records Display Spki Json Quic QuicClient QuicReport.

Section report.
Context `{R : Rustls} `{H : Hash, F : Fs, BP : Base64Padded, HM : HmacSha1, DD : Dalek} {A : Type} `{Q : !Quinn A} `{L : !QuinnLaws}.
Context `{U : !Udp A} `{Rs : !Resolver A U} `{Sh : Shows, Db : DebugStr, FS : !FsShows F} `{Sa : !ShowAddr A, B64 : Base64}.
Context (features : Features) (hashed_hosts : bool).
Implicit Types (r : Report (A := A)) (o : Options).

Lemma complete_result r : is_complete r = true -> exists out, rp_result r = Ok out /\ handshake out = Completed.
Proof.
  unfold is_complete. destruct (rp_result r) as [out|]; [|done]. intros Hc. exists out. split; [done|].
  by destruct (handshake out).
Qed.

(** What the record says, by its fields. *)
Lemma quic_record_fields r time out :
  rp_result r = Ok out ->
  let v := to_json features r time in
  get "handshake_outcome" v = Some (lit (result_code (handshake out))) /\
  get "server_identity_verified" v = Some (Bool (is_completed (handshake out))) /\
  get "user_authenticated" v = Some (Bool false) /\ get "ssh_session" v = Some (Bool false) /\
  get "server_name" v = Some (text (rp_server_name r)) /\
  (forall config, rp_ssh_trust r = Some config ->
     get "known_hosts_lookup" v = Some (default Null (text <$> rp_lookup_name r)) /\
     get "host_trusted" v = Some (default Null ((fun d => Bool (Trust.is_trusted d)) <$> snd (key_record features (ssh_identity out))))).
Proof.
  intros Hr v. subst v. unfold to_json. rewrite Hr. unfold outcome_fields, ssh_identity_json. rewrite !opt_field.
  destruct (rp_ssh_trust r) as [config|], (rp_trust_error r) as [code|]; cbn [mbind option_bind].
  all: try destruct (key_record features (ssh_identity out)) as [key [[src|reason]|]]; split_and!; try reflexivity; try done.
Qed.

(** The command's report is that of a client run with the prepared trust. *)
Lemma command_completed fuel o w w' r :
  run_command features hashed_hosts fuel o w = Done (w', r) -> is_complete r = true ->
  exists trust name out, client_trust features hashed_hosts o = Some (Ok (trust, name)) /\ rp_lookup_name r = name /\
    rp_server_name r = effective_server_name o /\
    rp_ssh_trust r = match opt_trust o with TrustSsh config => Some config | TrustTls _ => None end /\
    rp_result r = Ok out /\ handshake out = Completed /\ trusted_server features trust out.
Proof.
  unfold run_command. destruct (client_trust features hashed_hosts o) as [[[trust name]|e]|]; [| |done].
  - destruct (resolve (host o) (port o) w) as [w1 [remote|e]]; [|by intros [= <- <-]].
    intros ([w2 res] & Hr & [= <- <-])%run_bind_done. intros (out & Ho & Hc)%complete_result. cbn [rp_result] in Ho.
    destruct res as [out'|]; [|done]. injection Ho as ->. exists trust, name, out. split_and!; try done.
    destruct (run_completed features _ _ _ _ _ Hr Hc) as (v & i & Hv & Ha & Hs). by eapply authenticated_trusted.
  - by intros [= <- <-].
Qed.

(** C3: a QUIC handshake report is complete only if the server authenticated
    itself as the options ask. With SSH trust that is: the policy prepared for
    the typed host and port, whatever the TLS server name, trusts the SSH host
    key that the server presented as a raw public key and signed the handshake
    with. The JSON record then says so, names the lookup that was made, and
    never claims an SSH session or an authenticated user. *)
Theorem quic_report_complete fuel o w w' r time :
  run_command features hashed_hosts fuel o w = Done (w', r) -> is_complete r = true ->
  let v := to_json features r time in
  get "handshake_outcome" v = Some (lit "completed") /\ get "server_identity_verified" v = Some (Bool true) /\
  get "user_authenticated" v = Some (Bool false) /\ get "ssh_session" v = Some (Bool false) /\
  match opt_trust o with
  | TrustTls t => exists out, rp_result r = Ok out /\ trusted_server features t out
  | TrustSsh config =>
      exists prepared spki key src m dss,
        FacadeTrust.prepare features hashed_hosts config (host o) (port o) = Some (Ok prepared) /\
        host_key_from_spki features spki = Ok key /\
        decide_trust (policy prepared)
          (mkIdentity (HostKey.algorithm key) (HostKey.to_blob key) (Sha256Fingerprint.of_blob (HostKey.to_blob key))) = Trusted src /\
        scheme_matches_key (dss_scheme dss) (HostKey.key_type key) = true /\ verify_tls13_with_raw_key m spki dss = Ok tt /\
        get "host_trusted" v = Some (Bool true) /\
        get "known_hosts_lookup" v = Some (default Null (text <$> prepared_name prepared))
  end.
Proof.
  intros Hr Hc v. destruct (command_completed _ _ _ _ _ Hr Hc) as (trust & name & out & Ht & Hn & _ & Hs & Ho & Hh & Hts).
  destruct (quic_record_fields r time out Ho) as (F1 & F2 & F3 & F4 & _ & F5). rewrite Hh in F1, F2. split_and!; [done..|].
  unfold client_trust in Ht. destruct (opt_trust o) as [t|config].
  - injection Ht as <- <-. by exists out.
  - destruct (FacadeTrust.prepare features hashed_hosts config (host o) (port o)) as [[prepared|?]|]; [|done|done].
    cbn in Ht. injection Ht as <- <-. destruct Hts as (spki & m & dss & key & src & Hk & Hd & Hi & Hm & Hv).
    exists prepared, spki, key, src, m, dss. destruct (F5 _ Hs) as [G1 G2]. rewrite Hn in G1. rewrite Hi in G2. by split_and!.
Qed.
End report.

(** ** An example report *)

Module QuicReportDemo.
Import QuicDemo.

#[local] Existing Instances QuicDemo.tls QuicDemo.quinn QuicDemo.quinn_laws QuicDemo.socket QuicDemo.digest QuicDemo.no_files.
#[local] Existing Instances one_key letters_codec echo_mac.

#[local] Instance demo_resolver : Resolver Z QuicDemo.socket := {|
  ip_literal _ _ := Some 1;
  to_socket_addrs _ _ w := (w, Ok [])
|}.

#[local] Instance shows : Shows := {| show_io _ := bstr "error"; show_secs _ := bstr "0.000" |}.
#[local] Instance debug : DebugStr := fun s => s.
#[local] Instance fs_shows : FsShows QuicDemo.no_files := {| show_fs_path _ := []; show_fs_error _ := [] |}.
#[local] Instance show_demo_addr : ShowAddr Z := fun _ => bstr "127.0.0.1:2222".
#[local] Instance hex64 : Base64 := {| b64_decode _ := None; b64_encode d := mjoin (map Trust.hex_byte d) |}.

Definition demo_options : QuicReport.Options :=
  options (bstr "h") 22 [bstr "x"] (TrustSsh (Pin pin)).

Abbreviation demo_report := (run_command features false 20 demo_options ([spki], 0)).

(** The typed host is pinned to the key the server shows. *)
Lemma quic_report_complete_witness :
  exists w r, demo_report = Done (w, r) /\ is_complete r = true /\
    get "host_trusted" (to_json features r []) = Some (Bool true).
Proof.
  assert (exists w r, demo_report = Done (w, r) /\ is_complete r = true) as (w & r & Hr & Hc)
    by (eexists _, _; split; vm_compute; reflexivity).
  exists w, r. split; [exact Hr|]. split; [exact Hc|].
  destruct (quic_report_complete (U := QuicDemo.socket) features false 20 demo_options ([spki], 0) w r [] Hr Hc)
    as (_ & _ & _ & _ & prepared & sp & k & src & m & dss & _ & _ & _ & _ & _ & Hh & _). exact Hh.
Defined.

End QuicReportDemo.
