(* ===== verification/HostSignature.v ===== *)
(** * The host's signature provider

    Models crates/tatami_ssh/src/host/signature.rs: the provider that hands the
    RSA and ECDSA checks of the handshake to ring, which is the class [Ring]. *)

From S2P Require Import Prelude WireError NameList Primitives Messages KexInit KeyAlgorithm HostKey HostKeyProps.

(** The verification functions of [ring::signature] the code calls, each with
    the key, the message and the signature. *)
Class Ring : Type := {
  ring_rsa_pkcs1_sha256 : bytes -> bytes -> bytes -> bytes -> bool;
  ring_rsa_pkcs1_sha512 : bytes -> bytes -> bytes -> bytes -> bool;
  ring_rsa_pss_sha256 : bytes -> bytes -> bytes -> bytes -> bool;
  ring_ecdsa_p256_fixed : bytes -> bytes -> bytes -> bool;
  ring_ecdsa_p256_asn1 : bytes -> bytes -> bytes -> bool;
  ring_ed25519 : bytes -> bytes -> bytes -> bool
}.

Module HostSignature.
Section provider.
Context `{Rg : Ring} (features : Features).

(* facade/host/signature.rs:35-41 RingSignatureProvider::supports *)
Definition supports (scheme : SignatureScheme.t) : bool :=
  match scheme with
  | SignatureScheme.RsaSha2_256 | SignatureScheme.RsaSha2_512 => feat_rsa features
  | SignatureScheme.EcdsaP256Sha256 => feat_ecdsa_p256 features
  | SignatureScheme.Ed25519 => false
  end.

(* facade/host/signature.rs:43-77 RingSignatureProvider::verify *)
Definition verify (message : bytes) (request : ProviderRequest) : result unit ProviderRejected :=
  let answer :=
    match request with
    | RsaPkcs1v15 hash modulus exponent signature =>
        if feat_rsa features then
          Some (match hash with
                | Sha256 => ring_rsa_pkcs1_sha256 modulus exponent message signature
                | Sha512 => ring_rsa_pkcs1_sha512 modulus exponent message signature
                end)
        else None
    | EcdsaP256Sha256 public_point signature =>
        if feat_ecdsa_p256 features then Some (ring_ecdsa_p256_fixed public_point message signature) else None
    end in
  match answer with
  | Some true => Ok tt
  | _ => Err Rejected
  end.

(** The module exists only in builds with RSA or ECDSA. *)
(* facade/host/signature.rs:83-85 provider *)
Definition provider : option SignatureProvider := Some (mkProvider supports verify).

(** With this provider a build verifies exactly the schemes it enables: Ed25519
    by itself, the others through ring, each with ring's own algorithm for that
    scheme and key. *)
Lemma supported_enabled scheme :
  scheme <> SignatureScheme.Ed25519 -> supports scheme = SignatureScheme.is_enabled features scheme.
Proof. by destruct scheme. Qed.

Lemma verify_rsa_ok hash message n e s :
  verify message (RsaPkcs1v15 hash n e s) = Ok tt <->
  feat_rsa features = true /\
  match hash with Sha256 => ring_rsa_pkcs1_sha256 n e message s | Sha512 => ring_rsa_pkcs1_sha512 n e message s end = true.
Proof. unfold verify. destruct (feat_rsa features); [|naive_solver]. destruct hash; case_match; naive_solver. Qed.

Lemma verify_ecdsa_ok message point s :
  verify message (EcdsaP256Sha256 point s) = Ok tt <-> feat_ecdsa_p256 features = true /\ ring_ecdsa_p256_fixed point message s = true.
Proof. unfold verify. destruct (feat_ecdsa_p256 features); [|naive_solver]. case_match; naive_solver. Qed.
End provider.
End HostSignature.
