(* ===== verification/Cli.v ===== *)
(** * What the two command lines share

    What crates/tatami_ssh/src/bin/tatami-client.rs and tatami-server.rs use of
    the standard library: parsing that ends with a value, a usage error or a
    panic; unsigned integers; and the console. Also the text of two errors that
    only the command line prints, and an implementation of base64 for examples. *)

From S2P Require Import Prelude KexInit KeyAlgorithm HostKey Negotiate Transcript Trust KnownHosts KnownHostsProps.
From S2P Require Import Seam Display Durations.

(** ** Parsing *)

(** [Some (Ok x)] and [Some (Err e)] return; [None] is a panic. *)
Definition parsed (A : Type) : Type := option (result A UsageError).

Definition parsed_bind {A B} (m : parsed A) (f : A -> parsed B) : parsed B :=
  match m with Some (Ok x) => f x | Some (Err e) => Some (Err e) | None => None end.

Notation "'let+' x := m 'in' k" := (parsed_bind m (fun x => k))
  (at level 10, x pattern, m at level 100, k at level 200,
   format "'[v' 'let+'  x  :=  m  'in' '/' k ']'") : tatami_scope.

Definition usage {A} (text : bytes) : parsed A := Some (Err text).

Lemma parsed_bind_ok {A B} (m : parsed A) (f : A -> parsed B) y :
  parsed_bind m f = Some (Ok y) -> exists x, m = Some (Ok x) /\ f x = Some (Ok y).
Proof. destruct m as [[x|e]|]; [by exists x|done|done]. Qed.

Lemma bytes_eqbP a b : reflect (a = b) (bytes_eqb a b).
Proof. rewrite bytes_eqb_spec. apply bool_decide_reflect. Qed.

(** An option's value is the next argument. *)
Definition next_value {A} (it : list bytes) (option : bytes) (k : bytes -> list bytes -> parsed A) : parsed A :=
  match it with
  | [] => usage (option ++ bstr " requires a value")
  | v :: it => k v it
  end.

(** [str::parse] of an unsigned integer with largest value [max]: an optional
    plus sign, then at least one digit, without overflow. *)
Fixpoint parse_max (max acc : Z) (t : bytes) : option Z :=
  match t with
  | [] => Some acc
  | c :: t' =>
      if is_digit c then
        let acc := acc * 10 + (u8 c - 48) in
        if max <? acc then None else parse_max max acc t'
      else None
  end.

Definition parse_unsigned (max : Z) (t : bytes) : option Z :=
  match t with
  | [] => None
  | c :: t' =>
      let digits := if byte_eqb c "+"%byte then t' else t in
      match digits with [] => None | _ => parse_max max 0 digits end
  end.

Lemma parse_max_range max acc t n : 0 <= acc <= max -> parse_max max acc t = Some n -> 0 <= n <= max.
Proof.
  revert acc. induction t as [|c t IH]; intros acc Ha; cbn [parse_max]; [by intros [= <-]|].
  unfold is_digit. destruct ((48 <=? u8 c) && (u8 c <=? 57)) eqn:Ec; [|done].
  destruct (max <? _) eqn:E; [done|]. apply IH. lia.
Qed.

Lemma parse_unsigned_range max t n : 0 <= max -> parse_unsigned max t = Some n -> 0 <= n <= max.
Proof.
  intros Hm. destruct t as [|c t]; [done|]. cbn [parse_unsigned]. cbv zeta.
  destruct (if byte_eqb c "+"%byte then t else c :: t) eqn:E; [done|]. apply parse_max_range. lia.
Qed.

Definition starts_with (c : byte) (s : bytes) : bool := match s with b :: _ => byte_eqb b c | [] => false end.

(** [{:?}] of a [Duration]. *)
Class DebugDuration : Type := debug_duration : Z -> bytes.

(** ** Errors the command line prints *)

(* keys/fingerprint.rs:94-112 FingerprintParseError::fmt *)
Definition fingerprint_parse_error (e : FingerprintParseError) : bytes :=
  match e with
  | MissingPrefix => bstr "fingerprint must start with `SHA256:`"
  | Padding => bstr "fingerprint base64 must not be padded with `=`"
  | FingerprintWrongLength found => bstr "fingerprint base64 must be " ++ Display.show BASE64_LEN ++ bstr " characters, found " ++ Display.show found
  | InvalidBase64 => bstr "fingerprint is not valid standard base64"
  end.

(* tcp/negotiate.rs:85-94 HostKeyAlgorithmsError::fmt *)
Definition host_key_algorithms_error (e : HostKeyAlgorithms.Error) : bytes :=
  match e with
  | HostKeyAlgorithms.Empty => bstr "no host-key algorithm to offer"
  | HostKeyAlgorithms.Duplicate s => bstr "host-key algorithm " ++ SignatureScheme.name s ++ bstr " listed twice"
  end.

(** ** The console *)

(** Standard output as an unbuffered whole write and a flush, and standard
    error. *)
Class Console : Type := {
  Con : Type;
  stdout_write_all : bytes -> Con -> Con * result unit IoError;
  stdout_flush : Con -> Con * result unit IoError;
  stderr_write_all : bytes -> Con -> Con * result unit IoError
}.

Section console.
Context `{Console}.

(** [eprint!] and [print!] panic when the write fails. *)
Definition eprint (text : bytes) (c : Con) : run Con :=
  match stderr_write_all text c with (c, Ok _) => Done c | (_, Err _) => Panics end.

Definition print (text : bytes) (c : Con) : run Con :=
  match stdout_write_all text c with (c, Ok _) => Done c | (_, Err _) => Panics end.

Definition eprintln (text : bytes) (c : Con) : run Con := eprint (text ++ [x0a]) c.

(* facade/bin/tatami-client.rs:578-583 emit *)
Definition emit (text : bytes) (c : Con) : Con * result unit IoError :=
  match stdout_write_all text c with
  | (c, Ok _) => stdout_flush c
  | (c, Err e) => (c, Err e)
  end.
End console.

(** ** Base64 *)

(** The standard alphabet without padding (RFC 4648, section 4, zero trailing
    bits): an instance of the class [Base64] that satisfies the laws the
    fingerprint text relies on. *)

Module Base64Codec.

Definition symbol (d : Z) : byte :=
  byte_of_Z (if d <? 26 then 65 + d else if d <? 52 then 71 + d else if d <? 62 then d - 4 else if d =? 62 then 43 else 47).

Definition digit (c : byte) : option Z :=
  let v := u8 c in
  if (65 <=? v) && (v <=? 90) then Some (v - 65)
  else if (97 <=? v) && (v <=? 122) then Some (v - 71)
  else if (48 <=? v) && (v <=? 57) then Some (v + 4)
  else if v =? 43 then Some 62
  else if v =? 47 then Some 63
  else None.

Fixpoint encode (d : bytes) : bytes :=
  match d with
  | a :: b :: c :: d' =>
      let n := u8 a * 65536 + u8 b * 256 + u8 c in
      symbol (n / 64 / 64 / 64) :: symbol (n / 64 / 64 mod 64) :: symbol (n / 64 mod 64) :: symbol (n mod 64) :: encode d'
  | [a; b] =>
      let n := u8 a * 1024 + u8 b * 4 in [symbol (n / 64 / 64); symbol (n / 64 mod 64); symbol (n mod 64)]
  | [a] => let n := u8 a * 16 in [symbol (n / 64); symbol (n mod 64)]
  | [] => []
  end.

Fixpoint decode (t : bytes) : option bytes :=
  match t with
  | w :: x :: y :: z :: t' =>
      let* w := digit w in let* x := digit x in let* y := digit y in let* z := digit z in
      let n := w * 262144 + x * 4096 + y * 64 + z in
      let* rest := decode t' in
      Some (byte_of_Z (n / 256 / 256) :: byte_of_Z (n / 256 mod 256) :: byte_of_Z (n mod 256) :: rest)
  | [w; x; y] =>
      let* w := digit w in let* x := digit x in let* y := digit y in
      let n := w * 4096 + x * 64 + y in
      if n mod 4 =? 0 then Some [byte_of_Z (n / 4 / 256); byte_of_Z (n / 4 mod 256)] else None
  | [w; x] =>
      let* w := digit w in let* x := digit x in
      let n := w * 64 + x in
      if n mod 16 =? 0 then Some [byte_of_Z (n / 16)] else None
  | [_] => None
  | [] => Some []
  end.

Lemma digit_symbol d : 0 <= d < 64 -> digit (symbol d) = Some d.
Proof.
  intros Hd. assert (forallb (fun d => bool_decide (digit (symbol d) = Some d)) (seqZ 0 64) = true) as Hall by (vm_compute; reflexivity).
  rewrite forallb_forall in Hall. specialize (Hall d). rewrite bool_decide_eq_true in Hall. apply Hall.
  apply list_elem_of_In, elem_of_seqZ. lia.
Qed.

Lemma symbol_digit c d : digit c = Some d -> 0 <= d < 64 /\ symbol d = c.
Proof.
  assert (forallb (fun n => let c := byte_of_Z n in
    match digit c with Some d => (0 <=? d) && (d <? 64) && byte_eqb (symbol d) c | None => true end) (seqZ 0 256) = true) as Hall
    by (vm_compute; reflexivity).
  rewrite forallb_forall in Hall. specialize (Hall (u8 c)). cbv zeta in Hall. rewrite byte_of_Z_u8 in Hall. intros Hd. rewrite Hd in Hall.
  pose proof (u8_range c). rewrite !andb_true_iff, byte_eqb_spec, bool_decide_eq_true in Hall.
  destruct Hall as [[H1 H2] H3]; [|split; [lia|done]]. apply list_elem_of_In, elem_of_seqZ. lia.
Qed.

Lemma symbol_not_equals d : 0 <= d < 64 -> symbol d <> "="%byte.
Proof. intros Hd He. pose proof (digit_symbol d Hd) as H. by rewrite He in H. Qed.

Lemma chunks_ind (P : bytes -> Prop) :
  P [] -> (forall a, P [a]) -> (forall a b, P [a; b]) -> (forall a b c d, P d -> P (a :: b :: c :: d)) -> forall d, P d.
Proof.
  intros H0 H1 H2 H3 d. induction d as [d IH] using (induction_ltof1 _ length). unfold ltof in IH.
  destruct d as [|a [|b [|c d]]]; auto. apply H3, IH. cbn. lia.
Qed.

Ltac ranges := repeat match goal with |- context [u8 ?a] => lazymatch goal with _ : 0 <= u8 a < 256 |- _ => fail | _ => pose proof (u8_range a) end end.

Ltac divs := Z.to_euclidean_division_equations; lia.

Lemma roundtrip d : decode (encode d) = Some d.
Proof.
  induction d as [|a|a b|a b c d IH] using chunks_ind; [done|..]; cbn [encode decode]; cbv zeta.
  - ranges. rewrite !digit_symbol by divs. cbn [mbind option_bind].
    replace (_ * 64 + _) with (u8 a * 16) by divs. rewrite Z.mod_mul by lia. cbn [Z.eqb]. rewrite Z.div_mul by lia. by rewrite byte_of_Z_u8.
  - ranges. rewrite !digit_symbol by divs. cbn [mbind option_bind].
    replace (_ * 4096 + _ + _) with (u8 a * 1024 + u8 b * 4) by divs.
    replace ((u8 a * 1024 + u8 b * 4) mod 4) with 0 by divs. cbn [Z.eqb].
    replace ((u8 a * 1024 + u8 b * 4) / 4 / 256) with (u8 a) by divs.
    replace ((u8 a * 1024 + u8 b * 4) / 4 mod 256) with (u8 b) by divs. by rewrite !byte_of_Z_u8.
  - ranges. rewrite !digit_symbol by divs. cbn [mbind option_bind]. rewrite IH. cbn [mbind option_bind].
    remember (u8 a * 65536 + u8 b * 256 + u8 c) as n eqn:Hn. replace (_ * 262144 + _ + _ + _) with n by divs.
    replace (n / 256 / 256) with (u8 a) by divs. replace (n / 256 mod 256) with (u8 b) by divs. replace (n mod 256) with (u8 c) by divs.
    by rewrite !byte_of_Z_u8.
Qed.

Lemma canonical t d : decode t = Some d -> encode d = t.
Proof.
  revert d. induction t as [t IH] using (induction_ltof1 _ length). unfold ltof in IH. intros d.
  destruct t as [|w [|x [|y [|z t]]]]; cbn [decode]; [by intros [= <-]|done|..].
  - destruct (digit w) as [p|] eqn:Ew, (digit x) as [q|] eqn:Ex; cbn [mbind option_bind]; try done.
    apply symbol_digit in Ew as [Hp <-], Ex as [Hq <-]. destruct (Z.eqb_spec ((p * 64 + q) mod 16) 0) as [Hm|]; [|done]. intros [= <-].
    cbn [encode]. cbv zeta. rewrite u8_byte_of_Z. replace (((p * 64 + q) / 16) mod 256 * 16) with (p * 64 + q) by divs.
    rewrite Z.div_add_l by lia. rewrite (Z.div_small q 64) by lia. replace ((p * 64 + q) mod 64) with q by divs. by rewrite Z.add_0_r.
  - destruct (digit w) as [p|] eqn:Ew, (digit x) as [q|] eqn:Ex, (digit y) as [r|] eqn:Ey; cbn [mbind option_bind]; try done.
    apply symbol_digit in Ew as [Hp <-], Ex as [Hq <-], Ey as [Hr <-].
    remember (p * 4096 + q * 64 + r) as n eqn:Hn. destruct (Z.eqb_spec (n mod 4) 0) as [Hm|]; [|done]. intros [= <-].
    cbn [encode]. cbv zeta. rewrite !u8_byte_of_Z. replace ((n / 4 / 256) mod 256 * 1024 + n / 4 mod 256 mod 256 * 4) with n by divs.
    replace (n / 64 / 64) with p by divs. replace (n / 64 mod 64) with q by divs. by replace (n mod 64) with r by divs.
  - destruct (digit w) as [p|] eqn:Ew, (digit x) as [q|] eqn:Ex, (digit y) as [r|] eqn:Ey, (digit z) as [v|] eqn:Ez;
      cbn [mbind option_bind]; try done.
    destruct (decode t) as [rest|] eqn:Et; cbn [mbind option_bind]; [|done]. intros [= <-].
    apply symbol_digit in Ew as [Hp <-], Ex as [Hq <-], Ey as [Hr <-], Ez as [Hv <-]. apply IH in Et; [|cbn; lia].
    remember (p * 262144 + q * 4096 + r * 64 + v) as n eqn:Hn. cbn [encode]. cbv zeta. rewrite !u8_byte_of_Z, Et.
    replace ((n / 256 / 256) mod 256 * 65536 + n / 256 mod 256 mod 256 * 256 + (n mod 256) mod 256) with n by divs.
    replace (n / 64 / 64 / 64) with p by divs. replace (n / 64 / 64 mod 64) with q by divs. replace (n / 64 mod 64) with r by divs.
    by replace (n mod 64) with v by divs.
Qed.

Lemma encoded_digits d : Forall (fun c => exists n, 0 <= n < 64 /\ c = symbol n) (encode d).
Proof.
  induction d as [|a|a b|a b c d IH] using chunks_ind; cbn [encode]; cbv zeta; ranges; repeat constructor; try done.
  all: eexists; split; [|reflexivity]; divs.
Qed.

(** Three bytes to four characters. *)
Lemma encoded_len d : zlen (encode d) = (zlen d * 4 + 2) / 3.
Proof.
  induction d as [|a|a b|a b c d IH] using chunks_ind; [done..|]. cbn [encode]. cbv zeta. rewrite !zlen_cons, IH. divs.
Qed.

#[export] Instance standard : Base64 := {| b64_decode := decode; b64_encode := encode |}.

#[export] Instance standard_laws : Base64Laws.
Proof.
  split; [exact roundtrip|exact canonical| |].
  - intros d Hd. cbn. by rewrite encoded_len, Hd.
  - intros d. eapply Forall_impl; [apply encoded_digits|]. intros c (n & Hn & ->). by apply symbol_not_equals.
Qed.

(** As [base64] prints it. *)
Example standard_example : encode (bstr "Many hands") = bstr "TWFueSBoYW5kcw".
Proof. reflexivity. Qed.

End Base64Codec.
