(* ===== verification/ClientCli.v ===== *)
(** * The client's command line

    Models crates/tatami_ssh/src/bin/tatami-client.rs: the arguments (UTF-8
    strings, without the program's name), the commands they stand for, and the
    program's exit status. The build's features [kex] and [quic-diag] are
    booleans. *)

From S2P Require Import Prelude WireError NameList Primitives Messages KexInit KeyAlgorithm HostKey HostKeyProps.
From S2P Require Import Initial Probe Negotiate Packet Gcm Transcript Trust Spki SpkiProps KnownHosts KnownHostsProps Text TextProps FacadeTrust.
From S2P Require Import Handshake Seam Drivers Calendar Utf8 Display ProbeReport Records HandshakeReport.
From S2P Require Import Durations QuicTls QuicClient QuicReport Cli.

Module ClientCli.

(* facade/bin/tatami-client.rs:25-25 NAME *)
Definition NAME : bytes := bstr "tatami-client".

(** [CARGO_PKG_VERSION], the version of the workspace. *)
(* facade/bin/tatami-client.rs:26-26 VERSION *)
Definition VERSION : bytes := bstr "0.1.0".

(* facade/bin/tatami-client.rs:28-157 USAGE *)
Definition USAGE : bytes := bstr "Usage:
  tatami-client probe HOST [--port PORT] [--connect-timeout DURATION]
                           [--read-timeout DURATION]
  tatami-client handshake HOST (--host-key-sha256 'SHA256:...' |
                           --known-hosts FILE) [--port PORT]
                           [--connect-timeout DURATION] [--timeout DURATION]
                           [--host-key-algorithms LIST]
                           [--no-ext-info] [--no-strict-kex] [--json]
  tatami-client handshake HOST --transport quic --alpn PROTO
                           (--host-key-sha256 'SHA256:...' | --known-hosts FILE
                            | --cert-sha256 FINGERPRINT | --root-cert FILE)
                           [--port PORT] [--server-name NAME]
                           [--exporter-probe] [--timeout DURATION] [--json]
  tatami-client --help
  tatami-client --version

Commands:
  probe       Connect to HOST:PORT over TCP, send a client identification,
              and report the server identification and its initial KEXINIT
              proposal. No key exchange is performed and no client KEXINIT is
              sent; a server that waits for the client's proposal will time
              out with a partial result. TCP only.
  handshake   With --transport tcp (the default): connect to HOST:PORT and
              perform the key exchange (curve25519-sha256,
              aes128-gcm@openssh.com, strict KEX; host keys ssh-ed25519,
              and with --features rsa / ecdsa-p256 also rsa-sha2-512,
              rsa-sha2-256 and ecdsa-sha2-nistp256; never ssh-rsa/SHA-1):
              verify the host signature, decide trust with the pin
              (--host-key-sha256) or the known_hosts file (--known-hosts),
              exchange NEWKEYS, request the ssh-userauth service and
              disconnect.
              No user is ever authenticated. Requires a build with
              --features std,tcp,kex.

              With --transport quic: EXPERIMENTAL. Open a QUIC v1 connection
              to HOST:PORT over UDP, complete a TLS 1.3 handshake, report the
              outcome, negotiated ALPN and whether the TLS exporter is
              available, then close with an application CONNECTION_CLOSE. No
              stream is opened and no datagram is sent, so nothing SSH (no
              identification, no KEXINIT) can be sent; this is
              not an SSH client and not an SSH-over-QUIC client. 0-RTT and
              session resumption are disabled. With --host-key-sha256 or
              --known-hosts the server must present its SSH host key as an
              RFC 7250 raw public key, judged exactly as on TCP; a trusted
              key is still not an SSH session. Requires a build with
              --features std,tcp,quic-diag.

Options (probe):
  --port PORT                TCP port (default 22)
  --connect-timeout DURATION Deadline for the whole connect phase (default 10s)
  --read-timeout DURATION    Deadline from connect to KEXINIT (default 10s)

Options (handshake, TCP):
  --transport tcp            Select the SSH transport handshake (default)
  --host-key-sha256 'SHA256:...'
                             The only host-key fingerprint that will be
                             trusted: 'SHA256:' followed by 43 unpadded
                             base64 characters, as printed by ssh-keygen.
                             Obtain it independently of this connection, for
                             example on the server itself:
                               ssh-keygen -lf /etc/ssh/ssh_host_ed25519_key.pub
  --known-hosts FILE         Instead of a pin, an OpenSSH known_hosts file,
                             read-only. Looked up as HOST (port 22) or
                             [HOST]:PORT, lowercased; supports patterns,
                             negation and @revoked. Hashed |1| names
                             (ssh-keygen -H) need a build with
                             --features openssh-hashed-hosts; otherwise
                             they are refused as unsupported. Unknown
                             hosts fail; nothing is prompted or written.
                             ~/.ssh/known_hosts is never read implicitly.
                             Exactly one of --host-key-sha256/--known-hosts.
  --port PORT                TCP port (default 22)
  --connect-timeout DURATION Deadline for the whole connect phase (default 10s)
  --timeout DURATION         Overall deadline from connect to the outcome,
                             covering every read and write (default 10s)
  --host-key-algorithms LIST Offer exactly these host-key algorithms, in
                             this order (comma-separated), e.g.
                             rsa-sha2-256 to force one. Default: every one
                             this build verifies, in the order ssh-ed25519,
                             ecdsa-sha2-nistp256, rsa-sha2-512,
                             rsa-sha2-256. ssh-rsa (RSA/SHA-1) is refused.
  --no-ext-info              Do not offer ext-info-c
  --no-strict-kex            Do not offer the strict-KEX markers
  --json                     Print one JSON object instead of the text report

Options (handshake --transport quic):
  --transport quic           Select the experimental QUIC/TLS handshake
  --alpn PROTO               ALPN value to offer (required; repeat for
                             several, in preference order). Experimental,
                             UNREGISTERED; no interoperability with any other
                             implementation is claimed. There is no default.
  Exactly one trust option:
  --host-key-sha256 'SHA256:...'
                             SSH host-key fingerprint (same meaning as on
                             TCP); requires an RFC 7250 raw public key.
  --known-hosts FILE         known_hosts file (same rules as on TCP; the
                             lookup uses HOST and --port, never
                             --server-name); requires a raw public key.
  --cert-sha256 FP           Accept only the server certificate whose DER
                             hashes to FP ('SHA256:' + 43 unpadded base64
                             chars, as printed by
                             `tatami-server observe --transport quic`). FP is
                             a certificate fingerprint,
                             not an SSH host-key fingerprint. The TLS
                             signature is still verified.
  --root-cert FILE           Instead of a pin, trust certificates chaining to
                             the single PEM certificate in FILE and valid for
                             --server-name. No system trust store is used.
  --port PORT                UDP port (default 4433, an experiment default;
                             the intended service convention is TCP and UDP
                             22, which share one known_hosts entry)
  --server-name NAME         TLS server name (default HOST). A DNS name is
                             sent as SNI; an IP literal is not.
  --exporter-probe           After completion, call the TLS exporter with an
                             experimental label and report only whether it
                             succeeded. Output is discarded; it is not a
                             session binding.
  --timeout DURATION         Handshake deadline (default 5s)
  --json                     Print one JSON object instead of the text report

  DURATION                   e.g. 5s, 500ms, 2m; must be > 0

HOST may be a name or a numeric IPv4/IPv6 address. IPv6 addresses are given
bare (no brackets); the port is always a separate option.

Exit status: 0 complete observation or handshake; 1 incomplete, failed or
timed out (including an untrusted host key or a mismatched pin); 2 usage
error.
".

(* facade/bin/tatami-client.rs:160-162 PIN_HELP *)
Definition PIN_HELP : bytes :=
  bstr "expected 'SHA256:' followed by 43 unpadded base64 characters; obtain the "
  ++ bstr "server's host-key fingerprint independently, for example by running "
  ++ bstr "`ssh-keygen -lf /etc/ssh/ssh_host_ed25519_key.pub` on the server".

(* facade/bin/tatami-client.rs:426-426 ONE_SSH_TRUST *)
Definition ONE_SSH_TRUST : bytes := bstr "give exactly one trust option (--host-key-sha256 or --known-hosts)".

(* facade/bin/tatami-client.rs:489-489 ONE_TRUST *)
Definition ONE_TRUST : bytes :=
  bstr "give exactly one trust option (--host-key-sha256, --known-hosts, --cert-sha256 or --root-cert)".

(* facade/bin/tatami-client.rs:184-187 Transport *)
Inductive Transport : Type := Tcp | Quic.

#[export] Instance transport_eq_dec : EqDecision Transport.
Proof. solve_decision. Defined.

(** The files the command line reads itself, and the PEM decoder. *)
Class CertFiles (F : Fs) : Type := {
  path_from : bytes -> Path;
  read_file : bytes -> result bytes FacadeTrust.IoError;
  PemError : Type;
  from_pem_slice : bytes -> result bytes PemError;
  show_pem_error : PemError -> bytes
}.

Section parsing.
Context `{F : Fs, CF : !CertFiles F, FS : !Display.FsShows F} `{B64 : Base64, Db : DebugStr}.
Context (features : Features) (kex quic_diag : bool).

(* facade/bin/tatami-client.rs:164-178 Command *)
Inductive Command : Type :=
| Help
| Version
| Probe (options : ProbeCommand.Options)
| Handshake (options : HandshakeCommand.Options) (json : bool)
| QuicHandshake (options : QuicReport.Options) (json : bool).

(* facade/bin/tatami-client.rs:189-197 parse_transport *)
Definition parse_transport (v : bytes) : parsed Transport :=
  if bytes_eqb v (bstr "tcp") then Some (Ok Tcp)
  else if bytes_eqb v (bstr "quic") then Some (Ok Quic)
  else usage (bstr "invalid --transport " ++ debug_str v ++ bstr "; expected tcp or quic").

(* facade/bin/tatami-client.rs:249-255 value *)
Definition value {A} (it : list bytes) (option : bytes) (k : bytes -> list bytes -> parsed A) : parsed A :=
  next_value it option k.

(* facade/bin/tatami-client.rs:205-213 select_transport *)
Fixpoint select_loop (selected : option Transport) (it : list bytes) : parsed (option Transport) :=
  match it with
  | [] => Some (Ok selected)
  | arg :: it =>
      if bytes_eqb arg (bstr "--transport") then
        value it (bstr "--transport") (fun v it =>
          let+ t := parse_transport v in
          if match selected with Some s => negb (bool_decide (s = t)) | None => false end
          then usage (bstr "conflicting --transport values")
          else select_loop (Some t) it)
      else select_loop selected it
  end.

(* facade/bin/tatami-client.rs:202-215 select_transport *)
Definition select_transport (args : list bytes) : parsed Transport :=
  let+ selected := select_loop None args in Some (Ok (default Tcp selected)).

(* facade/bin/tatami-client.rs:242-247 parse_port *)
Definition parse_port (v : bytes) : parsed Z :=
  match parse_unsigned 65535 v with
  | Some p => if p =? 0 then usage (bstr "invalid port " ++ debug_str v ++ bstr "; expected 1-65535") else Some (Ok p)
  | None => usage (bstr "invalid port " ++ debug_str v ++ bstr "; expected 1-65535")
  end.

(* facade/bin/tatami-client.rs:257-263 check_host *)
Definition check_host (host : option bytes) (command : bytes) : parsed bytes :=
  match host with
  | None => usage (command ++ bstr " requires a HOST")
  | Some [] => usage (bstr "HOST must not be empty")
  | Some host => Some (Ok host)
  end.

(** How a scan of the options ends. *)
Inductive scanned (S : Type) : Type := AskedHelp | Finished (s : S).
#[local] Arguments AskedHelp {S}.
#[local] Arguments Finished {S} s.

(** The arguments no option matches. *)
(* facade/bin/tatami-client.rs:302-308 parse_probe *)
Definition positional {A} (s : bytes) (host : option bytes) (k : option bytes -> parsed A) : parsed A :=
  if starts_with "-" s then usage (bstr "unknown option " ++ debug_str s)
  else match host with
       | Some _ => usage (bstr "unexpected extra argument " ++ debug_str s)
       | None => k (Some s)
       end.

Definition is_help (arg : bytes) : bool := bytes_eqb arg (bstr "--help") || bytes_eqb arg (bstr "-h").

(** *** [probe] *)

Definition set_port (p : Z) (o : ProbeCommand.Options) : ProbeCommand.Options :=
  ProbeCommand.mkOptions (ProbeCommand.host o) p (ProbeCommand.io o) (ProbeCommand.probe o).

Definition set_host (h : bytes) (o : ProbeCommand.Options) : ProbeCommand.Options :=
  ProbeCommand.mkOptions h (ProbeCommand.port o) (ProbeCommand.io o) (ProbeCommand.probe o).

Definition set_connect (d : Z) (o : ProbeCommand.Options) : ProbeCommand.Options :=
  let io := ProbeCommand.io o in
  ProbeCommand.mkOptions (ProbeCommand.host o) (ProbeCommand.port o)
    (mkIoConfig d (read_timeout io) (max_connect_attempts io) (read_chunk io)) (ProbeCommand.probe o).

Definition set_read (d : Z) (o : ProbeCommand.Options) : ProbeCommand.Options :=
  let io := ProbeCommand.io o in
  ProbeCommand.mkOptions (ProbeCommand.host o) (ProbeCommand.port o)
    (mkIoConfig (connect_timeout io) d (max_connect_attempts io) (read_chunk io)) (ProbeCommand.probe o).

(* facade/bin/tatami-client.rs:285-310 parse_probe *)
Fixpoint scan_probe (it : list bytes) (host : option bytes) (options : ProbeCommand.Options)
    : parsed (scanned (option bytes * ProbeCommand.Options)) :=
  match it with
  | [] => Some (Ok (Finished (host, options)))
  | arg :: it =>
      if bytes_eqb arg (bstr "--port") then
        value it (bstr "--port") (fun v it => let+ p := parse_port v in scan_probe it host (set_port p options))
      else if bytes_eqb arg (bstr "--connect-timeout") then
        value it (bstr "--connect-timeout") (fun v it =>
          let+ d := Durations.client_parse_duration v in scan_probe it host (set_connect d options))
      else if bytes_eqb arg (bstr "--read-timeout") then
        value it (bstr "--read-timeout") (fun v it =>
          let+ d := Durations.client_parse_duration v in scan_probe it host (set_read d options))
      else if bytes_eqb arg (bstr "--transport") then
        value it (bstr "--transport") (fun v it =>
          let+ t := parse_transport v in
          match t with
          | Tcp => scan_probe it host options
          | Quic => usage (bstr "probe is TCP-only; for QUIC use `handshake --transport quic`")
          end)
      else if is_help arg then Some (Ok AskedHelp)
      else positional arg host (fun host => scan_probe it host options)
  end.

(* facade/bin/tatami-client.rs:282-313 parse_probe *)
Definition parse_probe (it : list bytes) : parsed Command :=
  let+ r := scan_probe it None (ProbeCommand.options [] 22) in
  match r with
  | AskedHelp => Some (Ok Help)
  | Finished (host, options) =>
      let+ host := check_host host (bstr "probe") in Some (Ok (Probe (set_host host options)))
  end.

(** *** [handshake --transport tcp] *)

(* facade/bin/tatami-client.rs:394-420 parse_host_key_algorithms *)
Fixpoint schemes_of (names : list bytes) : result (list SignatureScheme.t) UsageError :=
  match names with
  | [] => Ok []
  | name :: names =>
      match SignatureScheme.from_name name with
      | None =>
          if bytes_eqb name (bstr "ssh-rsa") then
            Err (bstr "--host-key-algorithms: ssh-rsa (RSA/SHA-1 signatures) is not supported; use rsa-sha2-512 or rsa-sha2-256 (same RSA key)")
          else
            Err (bstr "--host-key-algorithms: unknown algorithm " ++ debug_str name
                 ++ bstr " (supported: ssh-ed25519, ecdsa-sha2-nistp256, rsa-sha2-512, rsa-sha2-256)")
      | Some scheme =>
          if negb (SignatureScheme.is_enabled features scheme) then
            Err (bstr "--host-key-algorithms: " ++ SignatureScheme.name scheme ++ bstr " requires a build with --features "
                 ++ (if bool_decide (SignatureScheme.key_type scheme = KeyType.Rsa) then bstr "rsa" else bstr "ecdsa-p256"))
          else let? schemes := schemes_of names in Ok (scheme :: schemes)
      end
  end.

(* facade/bin/tatami-client.rs:390-423 parse_host_key_algorithms *)
Definition parse_host_key_algorithms (v : bytes) : parsed HostKeyAlgorithms.t :=
  match schemes_of (split_on (fun b => byte_eqb b ",") v) with
  | Err e => Some (Err e)
  | Ok schemes =>
      let* r := HostKeyAlgorithms.new schemes in
      Some (map_err (fun e => bstr "--host-key-algorithms: " ++ host_key_algorithms_error e) r)
  end.

(* facade/bin/tatami-client.rs:431-437 set_once *)
Definition set_once {T} (slot : option T) (value : T) (message : bytes) : parsed (option T) :=
  match slot with Some _ => usage message | None => Some (Ok (Some value)) end.

(* facade/bin/tatami-client.rs:440-447 known_hosts_config *)
Definition known_hosts_config (v : bytes) : parsed TrustConfig :=
  match v with
  | [] => usage (bstr "--known-hosts requires a file")
  | _ => Some (Ok (KnownHostsPath (path_from v)))
  end.

(** The local variables of [parse_tcp_handshake]. *)
(* facade/bin/tatami-client.rs:326-335 parse_tcp_handshake *)
Record TcpArgs : Type := mkTcpArgs {
  t_host : option bytes;
  t_port : Z;
  t_trust : option TrustConfig;
  t_io : HandshakeDriver.HandshakeIo;
  t_config : HandshakeConfig.t;
  t_json : bool
}.

Definition tcp_host h a := mkTcpArgs h (t_port a) (t_trust a) (t_io a) (t_config a) (t_json a).
Definition tcp_port p a := mkTcpArgs (t_host a) p (t_trust a) (t_io a) (t_config a) (t_json a).
Definition tcp_trust t a := mkTcpArgs (t_host a) (t_port a) t (t_io a) (t_config a) (t_json a).
Definition tcp_io io a := mkTcpArgs (t_host a) (t_port a) (t_trust a) io (t_config a) (t_json a).
Definition tcp_config c a := mkTcpArgs (t_host a) (t_port a) (t_trust a) (t_io a) c (t_json a).
Definition tcp_json j a := mkTcpArgs (t_host a) (t_port a) (t_trust a) (t_io a) (t_config a) j.

Definition set_connect_timeout d (io : HandshakeDriver.HandshakeIo) :=
  HandshakeDriver.mkHandshakeIo d (HandshakeDriver.overall_timeout io) (HandshakeDriver.hs_read_chunk io).

Definition set_overall_timeout d (io : HandshakeDriver.HandshakeIo) :=
  HandshakeDriver.mkHandshakeIo (HandshakeDriver.hs_connect_timeout io) d (HandshakeDriver.hs_read_chunk io).

(** The three fields of the configuration that have an option. *)
Definition set_offer (ext_info strict : bool) (algorithms : option HostKeyAlgorithms.t) (c : HandshakeConfig.t) : HandshakeConfig.t :=
  HandshakeConfig.mk (HandshakeConfig.software_version c) ext_info strict (HandshakeConfig.ident c) (HandshakeConfig.packet c)
    (HandshakeConfig.max_pre_kex_packets c) (HandshakeConfig.max_pre_kex_bytes c) (HandshakeConfig.max_protected_packets c)
    (HandshakeConfig.max_ext_info_extensions c) (HandshakeConfig.service c) algorithms.

Definition set_algorithms a (c : HandshakeConfig.t) :=
  set_offer (HandshakeConfig.advertise_ext_info c) (HandshakeConfig.offer_strict_kex c) (Some a) c.

Definition no_ext_info (c : HandshakeConfig.t) :=
  set_offer false (HandshakeConfig.offer_strict_kex c) (HandshakeConfig.host_key_algorithms c) c.

Definition no_strict_kex (c : HandshakeConfig.t) :=
  set_offer (HandshakeConfig.advertise_ext_info c) false (HandshakeConfig.host_key_algorithms c) c.

(* facade/bin/tatami-client.rs:337-375 parse_tcp_handshake *)
Fixpoint scan_tcp (it : list bytes) (a : TcpArgs) : parsed (scanned TcpArgs) :=
  match it with
  | [] => Some (Ok (Finished a))
  | arg :: it =>
      if bytes_eqb arg (bstr "--port") then
        value it (bstr "--port") (fun v it => let+ p := parse_port v in scan_tcp it (tcp_port p a))
      else if bytes_eqb arg (bstr "--host-key-sha256") then
        value it (bstr "--host-key-sha256") (fun v it =>
          match Sha256Fingerprint.parse v with
          | Err e =>
              usage (bstr "invalid --host-key-sha256 " ++ debug_str v ++ bstr ": " ++ fingerprint_parse_error e ++ bstr "; " ++ PIN_HELP)
          | Ok pin => let+ trust := set_once (t_trust a) (Pin pin) ONE_SSH_TRUST in scan_tcp it (tcp_trust trust a)
          end)
      else if bytes_eqb arg (bstr "--known-hosts") then
        value it (bstr "--known-hosts") (fun v it =>
          let+ config := known_hosts_config v in
          let+ trust := set_once (t_trust a) config ONE_SSH_TRUST in scan_tcp it (tcp_trust trust a))
      else if bytes_eqb arg (bstr "--connect-timeout") then
        value it (bstr "--connect-timeout") (fun v it =>
          let+ d := Durations.client_parse_duration v in scan_tcp it (tcp_io (set_connect_timeout d (t_io a)) a))
      else if bytes_eqb arg (bstr "--timeout") then
        value it (bstr "--timeout") (fun v it =>
          let+ d := Durations.client_parse_duration v in scan_tcp it (tcp_io (set_overall_timeout d (t_io a)) a))
      else if bytes_eqb arg (bstr "--host-key-algorithms") then
        value it (bstr "--host-key-algorithms") (fun v it =>
          let+ l := parse_host_key_algorithms v in scan_tcp it (tcp_config (set_algorithms l (t_config a)) a))
      else if bytes_eqb arg (bstr "--no-ext-info") then scan_tcp it (tcp_config (no_ext_info (t_config a)) a)
      else if bytes_eqb arg (bstr "--no-strict-kex") then scan_tcp it (tcp_config (no_strict_kex (t_config a)) a)
      else if bytes_eqb arg (bstr "--json") then scan_tcp it (tcp_json true a)
      else if bytes_eqb arg (bstr "--transport") then value it (bstr "--transport") (fun _ it => scan_tcp it a)
      else if is_help arg then Some (Ok AskedHelp)
      else positional arg (t_host a) (fun host => scan_tcp it (tcp_host host a))
  end.

(** [..Default::default()] leaves the chunk size. *)
Definition tcp_start : TcpArgs :=
  mkTcpArgs None 22 None
    (HandshakeDriver.mkHandshakeIo 10000000000 10000000000 (HandshakeDriver.hs_read_chunk HandshakeDriver.HandshakeIo_default))
    HandshakeConfig.default false.

(* facade/bin/tatami-client.rs:315-386 parse_tcp_handshake *)
Definition parse_tcp_handshake (it : list bytes) : parsed Command :=
  if negb kex then
    usage (bstr "handshake requires a build with --features std,tcp,kex (this build lacks the kex feature)")
  else
    let+ r := scan_tcp it tcp_start in
    match r with
    | AskedHelp => Some (Ok Help)
    | Finished a =>
        let+ host := check_host (t_host a) (bstr "handshake") in
        match t_trust a with
        | None => usage (bstr "handshake requires --host-key-sha256 'SHA256:...' or --known-hosts FILE; " ++ PIN_HELP)
        | Some trust => Some (Ok (Handshake (HandshakeCommand.mkOptions host (t_port a) trust (t_io a) (t_config a)) (t_json a)))
        end
    end.

(** *** [handshake --transport quic] *)

(* facade/bin/tatami-client.rs:457-465 parse_alpn *)
Definition parse_alpn (s : bytes) : parsed bytes :=
  if (zlen s =? 0) || (255 <? zlen s)
  then usage (bstr "--alpn value must be 1-255 bytes, got " ++ Display.show (zlen s) ++ bstr " bytes")
  else Some (Ok s).

(* facade/bin/tatami-client.rs:468-479 read_root_cert *)
Definition read_root_cert (path : bytes) : parsed bytes :=
  match read_file path with
  | Err e => usage (bstr "cannot read --root-cert " ++ debug_str path ++ bstr ": " ++ Display.show_fs_error e)
  | Ok pem =>
      match from_pem_slice pem with
      | Err e =>
          usage (bstr "--root-cert " ++ debug_str path ++ bstr " does not contain one CERTIFICATE PEM block: " ++ show_pem_error e)
      | Ok der => Some (Ok der)
      end
  end.

(** The local variables of [parse_quic_handshake]. *)
(* facade/bin/tatami-client.rs:491-498 parse_quic_handshake *)
Record QuicArgs : Type := mkQuicArgs {
  q_host : option bytes;
  q_port : Z;
  q_server_name : option bytes;
  q_alpn : list bytes;
  q_trust : option QuicReport.Trust;
  q_timeout : Z;
  q_exporter_probe : bool;
  q_json : bool
}.

Definition quic_host h a := mkQuicArgs h (q_port a) (q_server_name a) (q_alpn a) (q_trust a) (q_timeout a) (q_exporter_probe a) (q_json a).
Definition quic_port p a := mkQuicArgs (q_host a) p (q_server_name a) (q_alpn a) (q_trust a) (q_timeout a) (q_exporter_probe a) (q_json a).
Definition quic_server_name n a := mkQuicArgs (q_host a) (q_port a) n (q_alpn a) (q_trust a) (q_timeout a) (q_exporter_probe a) (q_json a).
Definition quic_alpn l a := mkQuicArgs (q_host a) (q_port a) (q_server_name a) l (q_trust a) (q_timeout a) (q_exporter_probe a) (q_json a).
Definition quic_trust t a := mkQuicArgs (q_host a) (q_port a) (q_server_name a) (q_alpn a) t (q_timeout a) (q_exporter_probe a) (q_json a).
Definition quic_timeout d a := mkQuicArgs (q_host a) (q_port a) (q_server_name a) (q_alpn a) (q_trust a) d (q_exporter_probe a) (q_json a).
Definition quic_exporter_probe b a := mkQuicArgs (q_host a) (q_port a) (q_server_name a) (q_alpn a) (q_trust a) (q_timeout a) b (q_json a).
Definition quic_json b a := mkQuicArgs (q_host a) (q_port a) (q_server_name a) (q_alpn a) (q_trust a) (q_timeout a) (q_exporter_probe a) b.

(* facade/bin/tatami-client.rs:500-557 parse_quic_handshake *)
Fixpoint scan_quic (it : list bytes) (a : QuicArgs) : parsed (scanned QuicArgs) :=
  match it with
  | [] => Some (Ok (Finished a))
  | arg :: it =>
      if bytes_eqb arg (bstr "--port") then
        value it (bstr "--port") (fun v it => let+ p := parse_port v in scan_quic it (quic_port p a))
      else if bytes_eqb arg (bstr "--server-name") then
        value it (bstr "--server-name") (fun v it =>
          match v with
          | [] => usage (bstr "--server-name must not be empty")
          | _ => scan_quic it (quic_server_name (Some v) a)
          end)
      else if bytes_eqb arg (bstr "--alpn") then
        value it (bstr "--alpn") (fun v it => let+ p := parse_alpn v in scan_quic it (quic_alpn (q_alpn a ++ [p]) a))
      else if bytes_eqb arg (bstr "--cert-sha256") then
        value it (bstr "--cert-sha256") (fun v it =>
          match Quic.Sha256Newtype.parse v with
          | Err e => usage (bstr "invalid --cert-sha256 " ++ debug_str v ++ bstr ": " ++ Quic.Sha256Newtype.parse_error e)
          | Ok fp =>
              let+ trust := set_once (q_trust a) (QuicReport.TrustTls (Quic.PinnedCertificateSha256 fp)) ONE_TRUST in
              scan_quic it (quic_trust trust a)
          end)
      else if bytes_eqb arg (bstr "--root-cert") then
        value it (bstr "--root-cert") (fun v it =>
          match q_trust a with
          | Some _ => usage ONE_TRUST
          | None => let+ der := read_root_cert v in scan_quic it (quic_trust (Some (QuicReport.TrustTls (Quic.RootCertificate der))) a)
          end)
      else if bytes_eqb arg (bstr "--host-key-sha256") then
        value it (bstr "--host-key-sha256") (fun v it =>
          match Sha256Fingerprint.parse v with
          | Err e =>
              usage (bstr "invalid --host-key-sha256 " ++ debug_str v ++ bstr ": " ++ fingerprint_parse_error e
                     ++ bstr "; expected the SSH host-key fingerprint ('SHA256:' + 43 unpadded base64 characters, as printed by ssh-keygen -lf)")
          | Ok pin =>
              let+ trust := set_once (q_trust a) (QuicReport.TrustSsh (Pin pin)) ONE_TRUST in scan_quic it (quic_trust trust a)
          end)
      else if bytes_eqb arg (bstr "--known-hosts") then
        value it (bstr "--known-hosts") (fun v it =>
          let+ config := known_hosts_config v in
          let+ trust := set_once (q_trust a) (QuicReport.TrustSsh config) ONE_TRUST in scan_quic it (quic_trust trust a))
      else if bytes_eqb arg (bstr "--exporter-probe") then scan_quic it (quic_exporter_probe true a)
      else if bytes_eqb arg (bstr "--timeout") then
        value it (bstr "--timeout") (fun v it =>
          let+ d := Durations.client_parse_duration v in scan_quic it (quic_timeout d a))
      else if bytes_eqb arg (bstr "--json") then scan_quic it (quic_json true a)
      else if bytes_eqb arg (bstr "--transport") then value it (bstr "--transport") (fun _ it => scan_quic it a)
      else if is_help arg then Some (Ok AskedHelp)
      else positional arg (q_host a) (fun host => scan_quic it (quic_host host a))
  end.

Definition quic_start : QuicArgs := mkQuicArgs None 4433 None [] None 5000000000 false false.

(* facade/bin/tatami-client.rs:482-574 parse_quic_handshake *)
Definition parse_quic_handshake (it : list bytes) : parsed Command :=
  if negb quic_diag then
    usage (bstr "handshake --transport quic requires a build with --features std,tcp,quic-diag (this build lacks the quic-diag feature)")
  else
    let+ r := scan_quic it quic_start in
    match r with
    | AskedHelp => Some (Ok Help)
    | Finished a =>
        let+ host := check_host (q_host a) (bstr "handshake") in
        match q_alpn a with
        | [] => usage (bstr "--alpn is required: the value is experimental and must be chosen explicitly")
        | _ =>
            match q_trust a with
            | None =>
                usage (bstr "a trust anchor is required: --host-key-sha256 or --known-hosts (SSH host key), or --cert-sha256 FINGERPRINT (from the server's stderr) or --root-cert FILE (X.509 test identity)")
            | Some trust =>
                Some (Ok (QuicHandshake (QuicReport.mkOptions host (q_port a) (q_server_name a) (q_alpn a) trust (q_timeout a)
                            (q_exporter_probe a)) (q_json a)))
            end
        end
    end.

(* facade/bin/tatami-client.rs:265-280 parse_args *)
Definition parse_args (args : list bytes) : parsed Command :=
  match args with
  | [] => usage (bstr "missing command")
  | first :: it =>
      if existsb (bytes_eqb first) [bstr "--help"; bstr "-h"; bstr "help"] then Some (Ok Help)
      else if existsb (bytes_eqb first) [bstr "--version"; bstr "-V"; bstr "version"] then Some (Ok Version)
      else if bytes_eqb first (bstr "probe") then parse_probe it
      else if bytes_eqb first (bstr "handshake") then
        let+ t := select_transport it in
        match t with Tcp => parse_tcp_handshake it | Quic => parse_quic_handshake it end
      else usage (bstr "unsupported command " ++ debug_str first)
  end.
End parsing.

(** ** The program *)

Section main.
Context `{Cn : Console} `{F : Fs, CF : !CertFiles F, FS : !Display.FsShows F} `{B64 : Base64, Db : DebugStr, Dd : DebugDuration}.
Context `{Sh : Display.Shows} `{N : Net} `{Sm : Seam} `{Sk : !Socket Sm} `{Sa : !Display.ShowAddr Addr} `{Sb : !Display.ShowAddr SocketAddr}.
Context {K : Type} `{AK : Aead K, H : Hash, DH : Dh, DD : Dalek, BP : Base64Padded, HM : HmacSha1}.
Context {R E : Type} `{TR : TryRng R E}.
Context `{Ru : Rustls} {A : Type} `{Q : !Quinn A} `{U : !Udp A} `{Re : !Resolver A U} `{Sc : !Display.ShowAddr A}.
Context (features : Features) (kex quic_diag hashed_hosts : bool).

(** What a run finds outside: the network and the stream on it, the UDP world,
    the wall clock, the random source and the host's signature provider.
    [fuel] bounds the loops of the commands. *)
Context (attach : Stream -> NetWorld -> World) (net : NetWorld) (udp : UdpWorld) (time : Json.str).
Context (provider : option SignatureProvider) (rng : R) (fuel : nat).

Definition report_failed (e : IoError) (c : Con) : run (Con * Z) :=
  let^ c := eprintln (NAME ++ bstr ": failed to write the report to stdout: " ++ Display.show_io e) c in Done (c, 1).

(* facade/bin/tatami-client.rs:586-619 run_handshake *)
Definition run_handshake (o : HandshakeCommand.Options) (json : bool) (c : Con) : run (Con * Z) :=
  let trust :=
    match HandshakeCommand.opt_trust o with
    | Pin pin => bstr "pin " ++ Sha256Fingerprint.display pin
    | KnownHostsPath p => bstr "known_hosts " ++ Display.show_fs_path p
    end in
  let^ c := eprintln (NAME ++ bstr ": handshaking with " ++ HandshakeCommand.host o ++ bstr ":" ++ Display.show (HandshakeCommand.port o)
    ++ bstr " (connect timeout " ++ debug_duration (HandshakeDriver.hs_connect_timeout (HandshakeCommand.io o))
    ++ bstr ", overall timeout " ++ debug_duration (HandshakeDriver.overall_timeout (HandshakeCommand.io o))
    ++ bstr ", " ++ trust ++ bstr ")") c in
  let^ report := HandshakeCommand.run_command (K := K) features hashed_hosts attach fuel o provider rng net in
  let text :=
    if json then Utf8.as_bytes (Json.to_json (HandshakeCommand.to_json report)) ++ [x0a]
    else HandshakeCommand.write_text report in
  match emit text c with
  | (c, Err e) => report_failed e c
  | (c, Ok _) =>
      if HandshakeCommand.is_complete (HandshakeCommand.rp_completion report) then Done (c, 0)
      else
        let^ c := eprintln (NAME ++ bstr ": handshake incomplete ("
          ++ bstr (HandshakeCommand.code (HandshakeCommand.rp_completion report)) ++ bstr ")") c in
        Done (c, 1)
  end.

(* facade/bin/tatami-client.rs:622-658 run_quic_handshake *)
Definition run_quic_handshake (o : QuicReport.Options) (json : bool) (c : Con) : run (Con * Z) :=
  let^ c := eprintln (NAME ++ bstr ": EXPERIMENTAL QUIC v1/TLS 1.3 handshake to " ++ QuicReport.host o ++ bstr ":"
    ++ Display.show (QuicReport.port o) ++ bstr " (server name " ++ QuicReport.effective_server_name o ++ bstr ", ALPN "
    ++ join_commas (map Text.escape_bytes (QuicReport.alpn o)) ++ bstr ", unregistered; timeout "
    ++ debug_duration (QuicReport.handshake_timeout o) ++ bstr "); 0-RTT disabled; no application data; not an SSH client") c in
  let^ ran := QuicReport.run_command features hashed_hosts fuel o udp in
  let report := snd ran in
  let text :=
    if json then Utf8.as_bytes (Json.to_json (QuicReport.to_json features report time)) else QuicReport.write_text features report in
  let text := if match last text with Some b => byte_eqb b x0a | None => false end then text else text ++ [x0a] in
  match emit text c with
  | (c, Err e) => report_failed e c
  | (c, Ok _) =>
      if QuicReport.is_complete report then Done (c, 0)
      else let^ c := eprintln (NAME ++ bstr ": QUIC handshake not completed") c in Done (c, 1)
  end.

(* facade/bin/tatami-client.rs:681-700 main *)
Definition run_probe (o : ProbeCommand.Options) (c : Con) : run (Con * Z) :=
  let^ c := eprintln (NAME ++ bstr ": probing " ++ ProbeCommand.host o ++ bstr ":" ++ Display.show (ProbeCommand.port o)
    ++ bstr " (connect timeout " ++ debug_duration (connect_timeout (ProbeCommand.io o))
    ++ bstr ", read timeout " ++ debug_duration (read_timeout (ProbeCommand.io o)) ++ bstr ")") c in
  let^ report := ProbeCommand.run_command attach fuel o net in
  match emit (ProbeCommand.write_text report) c with
  | (c, Err e) => report_failed e c
  | (c, Ok _) =>
      if ProbeCommand.is_complete (ProbeCommand.rp_completion report) then Done (c, 0)
      else let^ c := eprintln (NAME ++ bstr ": observation incomplete") c in Done (c, 1)
  end.

(** The console at the end and the exit status. *)
(* facade/bin/tatami-client.rs:660-706 main *)
Definition main (args : list bytes) (c : Con) : run (Con * Z) :=
  match parse_args features kex quic_diag args with
  | None => Panics
  | Some (Err msg) =>
      let^ c := eprintln (NAME ++ bstr ": " ++ msg) c in
      let^ c := eprintln [] c in
      let^ c := eprint USAGE c in
      Done (c, 2)
  | Some (Ok Help) => let^ c := print USAGE c in Done (c, 0)
  | Some (Ok Version) => let^ c := print (NAME ++ bstr " " ++ VERSION ++ [x0a]) c in Done (c, 0)
  | Some (Ok (Probe o)) => run_probe o c
  | Some (Ok (Handshake o json)) => run_handshake o json c
  | Some (Ok (QuicHandshake o json)) => run_quic_handshake o json c
  end.
End main.
End ClientCli.
