(* ===== verification/ClientCliProps.v ===== *)
(** * What the client's exit status means

    The arguments as a grammar, option by option; which of them the run obeys;
    and what exit status 0 says about the server. *)

From S2P Require Import Prelude WireError NameList Primitives Messages KexInit KeyAlgorithm HostKey HostKeyProps.
From S2P Require Import Initial Probe Negotiate Packet Gcm Transcript Trust Spki SpkiProps KnownHosts KnownHostsProps Text TextProps FacadeTrust.
From S2P Require Import Handshake HandshakeProofs HandshakeProps Seam Drivers DriversProofs HandshakeRun.
From S2P Require Import Calendar Utf8 Display ProbeReport ProbeReportProps Records HandshakeReport HandshakeReportProps.
From S2P Require Import Durations QuicTls QuicClient QuicClientProps QuicReport QuicReportProps Cli ClientCli.

Import Hs ClientCli.

(** ** The transport *)

Section transport.
Context `{Db : DebugStr}.

Definition transport_name (t : Transport) : bytes := match t with Tcp => bstr "tcp" | Quic => bstr "quic" end.

Lemma parse_transport_ok v t : parse_transport v = Some (Ok t) <-> v = transport_name t.
Proof.
  unfold parse_transport. destruct (bytes_eqbP v (bstr "tcp")) as [->|H1]; [by destruct t|].
  destruct (bytes_eqbP v (bstr "quic")) as [->|H2]; [by destruct t|]. by destruct t.
Qed.

(** Every [--transport] of [args] is followed by the value of [t]. *)
Definition all_say (t : Transport) (args : list bytes) : Prop :=
  forall i, args !! i = Some (bstr "--transport") -> args !! S i = Some (transport_name t).

Lemma all_say_nil t : all_say t [].
Proof. by intros i. Qed.

Lemma all_say_other t arg args : arg <> bstr "--transport" -> all_say t (arg :: args) <-> all_say t args.
Proof.
  intros Hn. split.
  - intros H i Hi. by apply (H (S i)).
  - intros H [|i] Hi; [injection Hi as ->; done|]. by apply H.
Qed.

Lemma all_say_option t v args : all_say t (bstr "--transport" :: v :: args) <-> v = transport_name t /\ all_say t args.
Proof.
  split.
  - intros H. split; [by injection (H 0%nat eq_refl)|]. intros i Hi. by apply (H (S (S i))).
  - intros [-> H] [|[|i]] Hi; [done| |by apply H]. by destruct t.
Qed.

(** What the scan must still find, having found [selected]. *)
Definition said (args : list bytes) (selected : option Transport) (t : Transport) : Prop :=
  match selected with Some s => s = t | None => bstr "--transport" ∈ args \/ t = Tcp end.

Lemma said_other arg args selected t : arg <> bstr "--transport" -> said (arg :: args) selected t <-> said args selected t.
Proof. intros Hn. destruct selected; [done|]. cbn. rewrite elem_of_cons. naive_solver. Qed.

Lemma select_loop_ok args selected t :
  (exists found, select_loop selected args = Some (Ok found) /\ default Tcp found = t) <->
  all_say t args /\ said args selected t.
Proof.
  revert selected. induction args as [args IH] using (induction_ltof1 _ length). unfold ltof in IH. intros selected.
  destruct args as [|arg args]; cbn [select_loop].
  { split.
    - intros (found & [= <-] & <-). split; [apply all_say_nil|]. destruct selected; [done|by right].
    - intros [_ Hs]. exists selected. split; [done|]. destruct selected as [s|]; [done|]. destruct Hs as [Hs%elem_of_nil|]; done. }
  destruct (bytes_eqbP arg (bstr "--transport")) as [->|Hn].
  2:{ rewrite IH by (cbn; lia). by rewrite all_say_other, said_other by done. }
  destruct args as [|v args]; cbn [value next_value].
  { split; [by intros (? & [=] & _)|]. intros [H _]. by specialize (H 0%nat eq_refl). }
  rewrite all_say_option. destruct (parse_transport v) as [[u|e]|] eqn:Ep; cbn [parsed_bind].
  - apply parse_transport_ok in Ep as ->. assert (transport_name u = transport_name t <-> u = t) as Hu by (by destruct u, t).
    rewrite Hu. destruct selected as [s|]; cbn [said].
    + destruct (decide (s = u)) as [->|Hsu].
      * rewrite bool_decide_eq_true_2 by done. cbn [negb]. rewrite IH by (cbn; lia). cbn. naive_solver.
      * rewrite bool_decide_eq_false_2 by done. cbn [negb]. naive_solver.
    + rewrite IH by (cbn; lia). cbn [said]. rewrite elem_of_cons. naive_solver.
  - split; [by intros (? & [=] & _)|]. intros [[-> _] _]. by rewrite (proj2 (parse_transport_ok _ t) eq_refl) in Ep.
  - split; [by intros (? & [=] & _)|]. intros [[-> _] _]. by rewrite (proj2 (parse_transport_ok _ t) eq_refl) in Ep.
Qed.

(** The transport of [handshake] is what every [--transport] on the command
    line says, wherever it stands, and TCP if there is none; a missing, unknown
    or contradictory value is never resolved. So the options' own parsers, which
    skip the option and its value, skip only a value that was checked. *)
Theorem select_transport_exact args t :
  select_transport args = Some (Ok t) <-> all_say t args /\ (bstr "--transport" ∈ args \/ t = Tcp).
Proof.
  rewrite <- (select_loop_ok args None t). unfold select_transport. destruct (select_loop None args) as [[found|e]|]; cbn [parsed_bind].
  all: naive_solver.
Qed.
End transport.

(** ** The options of [handshake] *)

Section options.
Context `{F : Fs, CF : !CertFiles F, FS : !Display.FsShows F} `{B64 : Base64, Db : DebugStr}.
Context (features : Features).
Implicit Types (args : list bytes) (a : TcpArgs) (b : QuicArgs).

(** [name v] names the SSH trust configuration. *)
Inductive ssh_trust : bytes -> bytes -> TrustConfig -> Prop :=
| trust_pin v pin : Sha256Fingerprint.parse v = Ok pin -> ssh_trust (bstr "--host-key-sha256") v (Pin pin)
| trust_file v : v <> [] -> ssh_trust (bstr "--known-hosts") v (KnownHostsPath (path_from v)).

(** What follows [handshake] on a command line for TCP, and what it changes. *)
Inductive tcp_args : list bytes -> TcpArgs -> TcpArgs -> Prop :=
| tcp_done a : tcp_args [] a a
| tcp_takes_port v p args a a' :
    parse_port v = Some (Ok p) -> tcp_args args (tcp_port p a) a' -> tcp_args (bstr "--port" :: v :: args) a a'
| tcp_takes_trust name v config args a a' :
    ssh_trust name v config -> t_trust a = None -> tcp_args args (tcp_trust (Some config) a) a' -> tcp_args (name :: v :: args) a a'
| tcp_takes_connect v d args a a' :
    Durations.client_parse_duration v = Some (Ok d) -> tcp_args args (tcp_io (set_connect_timeout d (t_io a)) a) a' ->
    tcp_args (bstr "--connect-timeout" :: v :: args) a a'
| tcp_takes_timeout v d args a a' :
    Durations.client_parse_duration v = Some (Ok d) -> tcp_args args (tcp_io (set_overall_timeout d (t_io a)) a) a' ->
    tcp_args (bstr "--timeout" :: v :: args) a a'
| tcp_takes_algorithms v l args a a' :
    parse_host_key_algorithms features v = Some (Ok l) -> tcp_args args (tcp_config (set_algorithms l (t_config a)) a) a' ->
    tcp_args (bstr "--host-key-algorithms" :: v :: args) a a'
| tcp_takes_no_ext_info args a a' :
    tcp_args args (tcp_config (no_ext_info (t_config a)) a) a' -> tcp_args (bstr "--no-ext-info" :: args) a a'
| tcp_takes_no_strict args a a' :
    tcp_args args (tcp_config (no_strict_kex (t_config a)) a) a' -> tcp_args (bstr "--no-strict-kex" :: args) a a'
| tcp_takes_json args a a' : tcp_args args (tcp_json true a) a' -> tcp_args (bstr "--json" :: args) a a'
| tcp_takes_transport v args a a' : tcp_args args a a' -> tcp_args (bstr "--transport" :: v :: args) a a'
| tcp_takes_host s args a a' :
    starts_with "-" s = false -> t_host a = None -> tcp_args args (tcp_host (Some s) a) a' -> tcp_args (s :: args) a a'.

Lemma value_ok {A} args name (k : bytes -> list bytes -> parsed A) r :
  value args name k = Some (Ok r) -> exists v rest, args = v :: rest /\ k v rest = Some (Ok r).
Proof. destruct args as [|v rest]; [done|]. by exists v, rest. Qed.

Lemma set_once_ok {T} (slot : option T) x m y : set_once slot x m = Some (Ok y) -> slot = None /\ y = Some x.
Proof. destruct slot; [done|]. by intros [= <-]. Qed.

Lemma known_hosts_config_ok v config : known_hosts_config v = Some (Ok config) -> v <> [] /\ config = KnownHostsPath (path_from v).
Proof. destruct v; [done|]. by intros [= <-]. Qed.

Lemma positional_ok {A} s host (k : option bytes -> parsed A) r :
  positional s host k = Some (Ok r) -> starts_with "-" s = false /\ host = None /\ k (Some s) = Some (Ok r).
Proof. unfold positional. destruct (starts_with "-" s); [done|]. by destruct host. Qed.
End options.

(** The next test of a scan; and the value of the option that passed it. *)
Ltac next_option := match goal with |- context [bytes_eqb ?x ?y] => destruct (bytes_eqbP x y) as [->|?] end.

Ltac take_value :=
  intros (?v & ?rest & -> & ?Hv)%value_ok; cbn beta in *;
  repeat match goal with
  | H : match Sha256Fingerprint.parse ?v with _ => _ end = Some (Ok _) |- _ => destruct (Sha256Fingerprint.parse v) eqn:?; [|done]
  | H : parsed_bind _ _ = Some (Ok _) |- _ => apply parsed_bind_ok in H as (? & ? & H)
  | H : set_once _ _ _ = Some (Ok _) |- _ => apply set_once_ok in H as [? ->]
  | H : known_hosts_config _ = Some (Ok _) |- _ => apply known_hosts_config_ok in H as [? ->]
  end.

Section scan.
Context `{F : Fs, CF : !CertFiles F, FS : !Display.FsShows F} `{B64 : Base64, Db : DebugStr}.
Context (features : Features).
Implicit Types (args : list bytes) (a : TcpArgs) (b : QuicArgs).

Lemma scan_tcp_reads args a a' : scan_tcp features args a = Some (Ok (Finished _ a')) -> tcp_args features args a a'.
Proof.
  revert a. induction args as [args IH] using (induction_ltof1 _ length). unfold ltof in IH. intros a.
  destruct args as [|arg args]; cbn [scan_tcp]; [intros [= <-]; constructor|].
  assert (forall rest x, (length rest < S (length args))%nat -> scan_tcp features rest x = Some (Ok (Finished _ a')) ->
    tcp_args features rest x a') as Hrest by auto. clear IH.
  next_option; [take_value; eapply tcp_takes_port; [done|]; apply Hrest; [cbn; lia|done]|].
  next_option; [take_value; eapply tcp_takes_trust; [by constructor|done|]; apply Hrest; [cbn; lia|done]|].
  next_option; [take_value; eapply tcp_takes_trust; [by constructor|done|]; apply Hrest; [cbn; lia|done]|].
  next_option; [take_value; eapply tcp_takes_connect; [done|]; apply Hrest; [cbn; lia|done]|].
  next_option; [take_value; eapply tcp_takes_timeout; [done|]; apply Hrest; [cbn; lia|done]|].
  next_option; [take_value; eapply tcp_takes_algorithms; [done|]; apply Hrest; [cbn; lia|done]|].
  next_option; [intros Hs; apply tcp_takes_no_ext_info, Hrest; [lia|done]|].
  next_option; [intros Hs; apply tcp_takes_no_strict, Hrest; [lia|done]|].
  next_option; [intros Hs; apply tcp_takes_json, Hrest; [lia|done]|].
  next_option; [take_value; apply tcp_takes_transport, Hrest; [cbn; lia|done]|].
  destruct (is_help arg); [done|]. intros (Hd & Hh & Hs)%positional_ok. apply tcp_takes_host; [done|done|]. apply Hrest; [lia|done].
Qed.

(** An option that takes no other option's value. *)
Lemma no_option s (name : bytes) : starts_with "-" s = false -> starts_with "-" name = true -> bytes_eqb s name = false.
Proof. intros Hs Hn. destruct (bytes_eqbP s name) as [->|]; [congruence|done]. Qed.

Lemma tcp_args_scan args a a' : tcp_args features args a a' -> scan_tcp features args a = Some (Ok (Finished _ a')).
Proof.
  induction 1 as [a|v p args a a' Hp _ IH|name v config args a a' Hc Ht _ IH|v d args a a' Hd _ IH|v d args a a' Hd _ IH
    |v l args a a' Hl _ IH|args a a' _ IH|args a a' _ IH|args a a' _ IH|v args a a' _ IH|s args a a' Hs Hh _ IH].
  - done.
  - cbn -[parse_port]. by rewrite Hp.
  - destruct Hc as [v pin Hp|v Hv]; cbn -[Sha256Fingerprint.parse known_hosts_config].
    + by rewrite Hp, Ht.
    + destruct v; [done|]. cbn. by rewrite Ht.
  - cbn -[Durations.client_parse_duration]. by rewrite Hd.
  - cbn -[Durations.client_parse_duration]. by rewrite Hd.
  - cbn -[parse_host_key_algorithms]. by rewrite Hl.
  - done.
  - done.
  - done.
  - done.
  - cbn [scan_tcp]. unfold is_help, positional. rewrite !no_option by done. cbn [orb]. by rewrite Hs, Hh.
Qed.
End scan.

(** ** What the parsed options say *)

Section parsed_options.
Context `{F : Fs, CF : !CertFiles F, FS : !Display.FsShows F} `{B64 : Base64, Db : DebugStr}.
Context (features : Features) (kex quic_diag : bool).
Implicit Types (args : list bytes) (a : TcpArgs) (b : QuicArgs).

(** [name] and its value [v] stand next to each other in [args]. *)
Definition typed (name v : bytes) args : Prop := exists i, args !! i = Some name /\ args !! S i = Some v.

Lemma typed_here name v args : typed name v (name :: v :: args).
Proof. by exists 0%nat. Qed.

Lemma typed_later name v pre args : typed name v args -> typed name v (pre ++ args).
Proof. intros (i & H1 & H2). exists (length pre + i)%nat. rewrite <- Nat.add_succ_r, !lookup_app_r by lia. rewrite !Nat.add_sub'. done. Qed.

Lemma tcp_args_keeps args a a' t : tcp_args features args a a' -> t_trust a = Some t -> t_trust a' = Some t.
Proof. induction 1; intros Ht; simplify_eq/=; auto. Qed.

(** The trust configuration is the one that was typed. *)
Lemma tcp_args_trust args a a' config :
  tcp_args features args a a' -> t_trust a = None -> t_trust a' = Some config ->
  exists name v, typed name v args /\ ssh_trust name v config.
Proof.
  intros Ha Hn Hc. induction Ha as [a|v p args a a' Hp _ IH|name v config' args a a' Hc' Ht Hr IH|v d args a a' Hd _ IH|v d args a a' Hd _ IH
    |v l args a a' Hl _ IH|args a a' _ IH|args a a' _ IH|args a a' _ IH|v args a a' _ IH|s args a a' Hs Hh _ IH].
  3:{ apply (tcp_args_keeps _ _ _ config') in Hr; [|done]. simplify_eq. exists name, v. split; [apply typed_here|done]. }
  1: congruence.
  all: destruct (IH Hn Hc) as (name & w & Hw & Hs'); exists name, w; (split; [|done]).
  1,2,3,4,8: apply (typed_later _ _ [_; _]); done.
  all: apply (typed_later _ _ [_]); done.
Qed.

Lemma parse_host_key_algorithms_new v l :
  parse_host_key_algorithms features v = Some (Ok l) -> exists schemes, HostKeyAlgorithms.new schemes = Some (Ok l).
Proof.
  unfold parse_host_key_algorithms. destruct (schemes_of _ _) as [schemes|]; [|done].
  destruct (HostKeyAlgorithms.new schemes) as [[l'|e]|] eqn:E; cbn; [|done|done]. intros [= <-]. by exists schemes.
Qed.

(** Every configuration of the command line is one the handshake can run. *)
Lemma tcp_args_config args a a' : tcp_args features args a a' -> hs_config_ok (t_config a) -> hs_config_ok (t_config a').
Proof.
  assert (forall e s c, hs_config_ok c -> hs_config_ok (set_offer e s (HandshakeConfig.host_key_algorithms c) c)) as Hset
    by (intros e s c H; exact H).
  induction 1 as [a|v p args a a' Hp _ IH|name v config' args a a' Hc' Ht Hr IH|v d args a a' Hd _ IH|v d args a a' Hd _ IH
    |v l args a a' Hl _ IH|args a a' _ IH|args a a' _ IH|args a a' _ IH|v args a a' _ IH|s args a a' Hs Hh _ IH]; intros Hc; auto.
  apply IH. cbn. destruct Hc as (H1 & H2 & H3 & H4 & H5 & H6 & H7 & H8 & H9 & H10 & H11 & _).
  do 11 (split; [assumption|]). intros a0 [= <-]. by eapply parse_host_key_algorithms_new.
Qed.

Lemma parse_tcp_ok args o json :
  parse_tcp_handshake features kex args = Some (Ok (Handshake o json)) ->
  exists a, tcp_args features args tcp_start a /\ HandshakeCommand.host o <> [] /\ t_host a = Some (HandshakeCommand.host o) /\
    t_port a = HandshakeCommand.port o /\ t_trust a = Some (HandshakeCommand.opt_trust o) /\ t_config a = HandshakeCommand.config o /\
    t_io a = HandshakeCommand.io o /\ t_json a = json.
Proof.
  unfold parse_tcp_handshake. destruct kex; [|done]. intros ([|a] & Hs & Hr)%parsed_bind_ok; [done|].
  apply parsed_bind_ok in Hr as (host & Hh & Hr). destruct (t_trust a) as [t|] eqn:Et; [|done]. injection Hr as <- <-.
  exists a. split; [by apply scan_tcp_reads|]. destruct (t_host a) as [[|c h]|]; [done| |done]. by injection Hh as <-.
Qed.
End parsed_options.

(** *** QUIC *)

Section quic_options.
Context `{F : Fs, CF : !CertFiles F, FS : !Display.FsShows F} `{B64 : Base64, Db : DebugStr}.
Context (quic_diag : bool).
Implicit Types (args : list bytes) (a : QuicArgs).

(** [name v] names what a QUIC server must show. *)
Inductive any_trust : bytes -> bytes -> QuicReport.Trust -> Prop :=
| trust_ssh name v config : ssh_trust name v config -> any_trust name v (QuicReport.TrustSsh config)
| trust_cert v fp :
    Quic.Sha256Newtype.parse v = Ok fp -> any_trust (bstr "--cert-sha256") v (QuicReport.TrustTls (Quic.PinnedCertificateSha256 fp))
| trust_root v pem der :
    read_file v = Ok pem -> from_pem_slice pem = Ok der ->
    any_trust (bstr "--root-cert") v (QuicReport.TrustTls (Quic.RootCertificate der)).

(** What follows [handshake] on a command line for QUIC. *)
Inductive quic_args : list bytes -> QuicArgs -> QuicArgs -> Prop :=
| quic_done a : quic_args [] a a
| quic_takes_port v p args a a' :
    parse_port v = Some (Ok p) -> quic_args args (quic_port p a) a' -> quic_args (bstr "--port" :: v :: args) a a'
| quic_takes_name v args a a' :
    v <> [] -> quic_args args (quic_server_name (Some v) a) a' -> quic_args (bstr "--server-name" :: v :: args) a a'
| quic_takes_alpn v args a a' :
    0 < zlen v <= 255 -> quic_args args (quic_alpn (q_alpn a ++ [v]) a) a' -> quic_args (bstr "--alpn" :: v :: args) a a'
| quic_takes_trust name v t args a a' :
    any_trust name v t -> q_trust a = None -> quic_args args (quic_trust (Some t) a) a' -> quic_args (name :: v :: args) a a'
| quic_takes_timeout v d args a a' :
    Durations.client_parse_duration v = Some (Ok d) -> quic_args args (quic_timeout d a) a' ->
    quic_args (bstr "--timeout" :: v :: args) a a'
| quic_takes_probe args a a' : quic_args args (quic_exporter_probe true a) a' -> quic_args (bstr "--exporter-probe" :: args) a a'
| quic_takes_json args a a' : quic_args args (quic_json true a) a' -> quic_args (bstr "--json" :: args) a a'
| quic_takes_transport v args a a' : quic_args args a a' -> quic_args (bstr "--transport" :: v :: args) a a'
| quic_takes_host s args a a' :
    starts_with "-" s = false -> q_host a = None -> quic_args args (quic_host (Some s) a) a' -> quic_args (s :: args) a a'.

Lemma parse_alpn_ok v p : parse_alpn v = Some (Ok p) -> p = v /\ 0 < zlen v <= 255.
Proof.
  unfold parse_alpn. pose proof (zlen_nonneg v). destruct (_ || _) eqn:E; [done|]. intros [= <-]. split; [done|].
  apply orb_false_iff in E as [E1 E2]. lia.
Qed.

Lemma read_root_cert_ok v der : read_root_cert v = Some (Ok der) -> exists pem, read_file v = Ok pem /\ from_pem_slice pem = Ok der.
Proof.
  unfold read_root_cert. destruct (read_file v) as [pem|]; [|done]. destruct (from_pem_slice pem) as [d|] eqn:E; [|done].
  intros [= <-]. by exists pem.
Qed.

Lemma scan_quic_reads args a a' : scan_quic args a = Some (Ok (Finished _ a')) -> quic_args args a a'.
Proof.
  revert a. induction args as [args IH] using (induction_ltof1 _ length). unfold ltof in IH. intros a.
  destruct args as [|arg args]; cbn [scan_quic]; [intros [= <-]; constructor|].
  assert (forall rest x, (length rest < S (length args))%nat -> scan_quic rest x = Some (Ok (Finished _ a')) ->
    quic_args rest x a') as Hrest by auto. clear IH.
  next_option; [take_value; eapply quic_takes_port; [done|]; apply Hrest; [cbn; lia|done]|].
  next_option; [take_value; destruct v as [|c v]; [done|]; apply quic_takes_name; [done|]; apply Hrest; [cbn; lia|done]|].
  next_option.
  { take_value. match goal with H : parse_alpn _ = _ |- _ => apply parse_alpn_ok in H as [-> ?] end.
    apply quic_takes_alpn; [done|]. apply Hrest; [cbn; lia|done]. }
  next_option.
  { take_value. destruct (Quic.Sha256Newtype.parse v) as [fp|] eqn:Ep; [|done]. apply parsed_bind_ok in Hv as (? & [? ->]%set_once_ok & Hv).
    eapply quic_takes_trust; [by constructor|done|]. apply Hrest; [cbn; lia|done]. }
  next_option.
  { take_value. destruct (q_trust a) eqn:Et; [done|]. apply parsed_bind_ok in Hv as (der & (pem & Hf & Hp)%read_root_cert_ok & Hv).
    eapply quic_takes_trust; [by econstructor|done|]. apply Hrest; [cbn; lia|done]. }
  next_option; [take_value; eapply quic_takes_trust; [by repeat constructor|done|]; apply Hrest; [cbn; lia|done]|].
  next_option; [take_value; eapply quic_takes_trust; [by repeat constructor|done|]; apply Hrest; [cbn; lia|done]|].
  next_option; [intros Hs; apply quic_takes_probe, Hrest; [lia|done]|].
  next_option; [take_value; eapply quic_takes_timeout; [done|]; apply Hrest; [cbn; lia|done]|].
  next_option; [intros Hs; apply quic_takes_json, Hrest; [lia|done]|].
  next_option; [take_value; apply quic_takes_transport, Hrest; [cbn; lia|done]|].
  destruct (is_help arg); [done|]. intros (Hd & Hh & Hs)%positional_ok. apply quic_takes_host; [done|done|]. apply Hrest; [lia|done].
Qed.

Lemma quic_args_keeps args a a' t : quic_args args a a' -> q_trust a = Some t -> q_trust a' = Some t.
Proof. induction 1; intros Ht; simplify_eq/=; auto. Qed.

Lemma quic_args_trust args a a' t :
  quic_args args a a' -> q_trust a = None -> q_trust a' = Some t -> exists name v, typed name v args /\ any_trust name v t.
Proof.
  intros Ha Hn Hc. induction Ha as [a|v p args a a' Hp _ IH|v args a a' Hv _ IH|v args a a' Hv _ IH|name v t' args a a' Ht' Ht Hr IH
    |v d args a a' Hd _ IH|args a a' _ IH|args a a' _ IH|v args a a' _ IH|s args a a' Hs Hh _ IH].
  5:{ apply (quic_args_keeps _ _ _ t') in Hr; [|done]. simplify_eq. exists name, v. split; [apply typed_here|done]. }
  1: congruence.
  all: destruct (IH Hn Hc) as (name & w & Hw & Hs'); exists name, w; (split; [|done]).
  1,2,3,4,7: apply (typed_later _ _ [_; _]); done.
  all: apply (typed_later _ _ [_]); done.
Qed.

(** Only application protocols that rustls takes are offered. *)
Lemma quic_args_alpn args a a' :
  quic_args args a a' -> Forall (fun p => 0 < zlen p <= 255) (q_alpn a) -> Forall (fun p => 0 < zlen p <= 255) (q_alpn a').
Proof. induction 1; intros Hf; auto. apply IHquic_args. apply Forall_app. auto. Qed.

Lemma parse_quic_ok args o json :
  parse_quic_handshake quic_diag args = Some (Ok (QuicHandshake o json)) ->
  exists a, quic_args args quic_start a /\ q_host a = Some (QuicReport.host o) /\ q_port a = QuicReport.port o /\
    q_trust a = Some (QuicReport.opt_trust o) /\ q_alpn a = QuicReport.alpn o /\ QuicReport.alpn o <> [].
Proof.
  unfold parse_quic_handshake. destruct quic_diag; [|done]. intros ([|a] & Hs & Hr)%parsed_bind_ok; [done|].
  apply parsed_bind_ok in Hr as (host & Hh & Hr). destruct (q_alpn a) as [|p l] eqn:Ea; [done|].
  destruct (q_trust a) as [t|] eqn:Et; [|done]. injection Hr as <- <-.
  exists a. split; [by apply scan_quic_reads|]. destruct (q_host a) as [[|c h]|]; [done| |done]. by injection Hh as <-.
Qed.
End quic_options.

(** ** Exit status 0 *)

Section exit_status.
Context `{Cn : Console} `{F : Fs, CF : !CertFiles F, FS : !Display.FsShows F} `{B64 : Base64, Db : DebugStr, Dd : DebugDuration}.
Context {K : Type} `{AL : AeadLaws K, HL : HashLaws, DL : DhLaws, DD : Dalek, BP : Base64Padded, HM : HmacSha1}.
Context {R E : Type} `{RL : TryRngLaws R E}.
Context `{N : Net} {Sm : Seam} `{SL : !SeamLaws Sm, Sk : !Socket Sm}.
Context `{Sh : Display.Shows} `{Sa : !Display.ShowAddr Addr} `{Sb : !Display.ShowAddr (@SocketAddr _ (traced_socket Sm Sk))}.
Context `{Ru : Rustls} {A : Type} `{Q : !Quinn A, QL : !QuinnLaws} `{U : !Udp A} `{Re : !Resolver A U} `{Sc : !Display.ShowAddr A}.
Context (features : Features) (kex quic_diag hashed_hosts : bool).
Context (attach : Stream -> NetWorld -> @World (traced Sm)) (net : NetWorld) (udp : UdpWorld) (time : Json.str).
Context (provider : option SignatureProvider) (rng : R) (fuel : nat).

#[local] Existing Instance traced_sk.

Definition client_main (args : list bytes) (c : Con) : run (Con * Z) :=
  main (Sm := traced Sm) (K := K) features kex quic_diag hashed_hosts attach net udp time provider rng fuel args c.

(** A report that was not written, or is not complete, is exit status 1. *)
Lemma report_failed_status e c c' status : report_failed e c = Done (c', status) -> status = 1.
Proof. unfold report_failed. by intros (? & _ & [= _ <-])%run_bind_done. Qed.

Lemma run_handshake_success o json c c' :
  run_handshake (Sm := traced Sm) (K := K) features hashed_hosts attach net provider rng fuel o json c = Done (c', 0) ->
  exists r, command (K := K) (E := E) features hashed_hosts attach fuel o provider rng net = Done r /\
    HandshakeCommand.is_complete (HandshakeCommand.rp_completion r) = true.
Proof.
  unfold run_handshake. intros (c1 & _ & (r & Hr & He)%run_bind_done)%run_bind_done. exists r. split; [done|].
  destruct (emit _ c1) as [c2 [?|e]]; [|by apply report_failed_status in He].
  destruct (HandshakeCommand.is_complete _); [done|]. apply run_bind_done in He as (? & _ & He). done.
Qed.

Lemma run_quic_handshake_success o json c c' :
  run_quic_handshake features hashed_hosts udp time fuel o json c = Done (c', 0) ->
  exists w r, QuicReport.run_command features hashed_hosts fuel o udp = Done (w, r) /\ QuicReport.is_complete r = true.
Proof.
  unfold run_quic_handshake. intros (c1 & _ & ([w r] & Hr & He)%run_bind_done)%run_bind_done. exists w, r. split; [done|].
  cbn [snd] in He. revert He. match goal with |- context [emit ?t c1] => destruct (emit t c1) as [c2 [?|e]] end; [|intros He; by apply report_failed_status in He].
  destruct (QuicReport.is_complete r); [done|]. intros (? & _ & He)%run_bind_done. done.
Qed.

Context `{!Base64Laws}.

(** The trust option that was typed: the fingerprint itself, or the file. *)
Definition typed_trust (args : list bytes) (config : TrustConfig) (fp : Sha256Fingerprint.t) : Prop :=
  match config with
  | Pin _ => typed (bstr "--host-key-sha256") (Sha256Fingerprint.display fp) args
  | KnownHostsPath p => exists v, typed (bstr "--known-hosts") v args /\ p = path_from v
  end.

(** The run over TCP: the host key that signed this exchange, trusted by the
    policy prepared for the typed host. *)
Definition tcp_trusted (args : list bytes) (o : HandshakeCommand.Options) : Prop :=
  exists prepared (hs : ClientHandshake.t K) id src ks,
    FacadeTrust.prepare features hashed_hosts (HandshakeCommand.opt_trust o) (HandshakeCommand.host o) (HandshakeCommand.port o)
      = Some (Ok prepared) /\
    verified features hs ks /\ ClientHandshake.identity hs = Some id /\
    ClientHandshake.newkeys_sent hs = true /\ ClientHandshake.newkeys_received hs = true /\
    decide_trust (policy prepared) (as_identity id) = Trusted src /\
    typed_trust args (HandshakeCommand.opt_trust o) (own_sha256 id).

(** The run over QUIC: the TLS server, or its SSH host key. *)
Definition quic_trusted (args : list bytes) (o : QuicReport.Options) : Prop :=
  match QuicReport.opt_trust o with
  | QuicReport.TrustTls t =>
      exists name v (out : QuicClient.ClientOutcome (A := A)), typed name v args /\ any_trust name v (QuicReport.TrustTls t) /\ trusted_server features t out
  | QuicReport.TrustSsh config =>
      exists prepared spki key src m dss,
        FacadeTrust.prepare features hashed_hosts config (QuicReport.host o) (QuicReport.port o) = Some (Ok prepared) /\
        Spki.host_key_from_spki features spki = Ok key /\ verify_tls13_with_raw_key m spki dss = Ok tt /\
        let fp := Sha256Fingerprint.of_blob (HostKey.to_blob key) in
        decide_trust (policy prepared) (mkIdentity (HostKey.algorithm key) (HostKey.to_blob key) fp) = Trusted src /\
        typed_trust args config fp
  end.

(** A pin that trusts [id] was typed as the fingerprint of [id]. *)
Lemma trusted_typed args name v config host port prepared id src :
  typed name v args -> ssh_trust name v config ->
  FacadeTrust.prepare features hashed_hosts config host port = Some (Ok prepared) ->
  decide_trust (policy prepared) id = Trusted src -> zlen (Sha256Fingerprint.digest (id_sha256 id)) = SHA256_LEN ->
  typed_trust args config (id_sha256 id).
Proof.
  intros Ht Hs. revert Ht. destruct Hs as [v' pin Hp|v' Hv]; intros Ht; [|intros _ _ _; by exists v']. unfold FacadeTrust.prepare. intros [= <-].
  unfold decide_trust. cbn [shared_policy shared_decide policy]. unfold pinned_decide. cbn [Trust.pin].
  apply fingerprint_text_exact in Hp as [Hl ->]. destruct (Sha256Fingerprint.eq _ _) eqn:Ee; [|done]. intros _ Hl'.
  apply fingerprint_eq_iff in Ee; [|done|done]. by rewrite <- Ee.
Qed.

Lemma handshake_parsed args command :
  parse_args features kex quic_diag (bstr "handshake" :: args) = Some (Ok command) ->
  (exists o json, command = Handshake o json /\ parse_tcp_handshake features kex args = Some (Ok command)) \/
  (exists o json, command = QuicHandshake o json /\ parse_quic_handshake quic_diag args = Some (Ok command)) \/ command = Help.
Proof.
  cbn -[select_transport parse_tcp_handshake parse_quic_handshake]. intros ([|] & _ & Hp)%parsed_bind_ok.
  - pose proof Hp as Hp'. unfold parse_tcp_handshake in Hp'. destruct kex; [|done]. cbn [negb] in Hp'.
    apply parsed_bind_ok in Hp' as ([|a] & _ & Hr); [injection Hr as <-; by right; right|].
    apply parsed_bind_ok in Hr as (h & _ & Hr). destruct (t_trust a); [|done]. injection Hr as <-. left. by eexists _, _.
  - pose proof Hp as Hp'. unfold parse_quic_handshake in Hp'. destruct quic_diag; [|done]. cbn [negb] in Hp'.
    apply parsed_bind_ok in Hp' as ([|a] & _ & Hr); [injection Hr as <-; by right; right|].
    apply parsed_bind_ok in Hr as (h & _ & Hr). destruct (q_alpn a); [done|]. destruct (q_trust a); [|done]. injection Hr as <-.
    right; left. by eexists _, _.
Qed.

Lemma tcp_success args o json c c' :
  parse_tcp_handshake features kex args = Some (Ok (Handshake o json)) ->
  run_handshake (Sm := traced Sm) (K := K) features hashed_hosts attach net provider rng fuel o json c = Done (c', 0) ->
  tcp_trusted args o.
Proof.
  intros (a & Ha & _ & _ & _ & Ht & Hc & _)%parse_tcp_ok (r & Hr & Hco)%run_handshake_success.
  destruct (tcp_args_trust _ _ _ _ _ Ha eq_refl Ht) as (name & v & Hty & Hs).
  pose proof (tcp_args_config _ _ _ _ Ha default_handshake_ok) as Hok. rewrite Hc in Hok.
  destruct (command_complete _ _ _ _ _ _ _ _ _ Hok Hr Hco)
    as (prepared & hs & id & src & ks & Hp & _ & Hid & Hd & _ & Hv & _ & Hns & Hnr & _).
  exists prepared, hs, id, src, ks. split_and!; try done.
  change (own_sha256 id) with (id_sha256 (as_identity id)). eapply trusted_typed; try done.
  destruct Hv as (vs & p & n & id' & h & _ & _ & _ & Hid' & _ & _ & Hau). rewrite Hid in Hid'. injection Hid' as <-.
  destruct Hau as (eph & q_s & k & scheme & hk & sig & _ & _ & _ & _ & _ & _ & Hsha & _). cbn. rewrite Hsha. apply sha256_len.
Qed.

Lemma quic_success args o json c c' :
  parse_quic_handshake quic_diag args = Some (Ok (QuicHandshake o json)) ->
  run_quic_handshake features hashed_hosts udp time fuel o json c = Done (c', 0) -> quic_trusted args o.
Proof.
  intros (a & Ha & _ & _ & Ht & _)%parse_quic_ok (w & r & Hr & Hco)%run_quic_handshake_success.
  destruct (quic_args_trust _ _ _ _ Ha eq_refl Ht) as (name & v & Hty & Hs).
  destruct (command_completed _ _ _ _ _ _ _ Hr Hco) as (trust & lookup & out & Hct & _ & _ & _ & _ & _ & Hts).
  unfold quic_trusted. unfold QuicReport.client_trust in Hct. destruct (QuicReport.opt_trust o) as [t|config].
  - injection Hct as <- <-. by exists name, v, out.
  - destruct (FacadeTrust.prepare features hashed_hosts config _ _) as [[prepared|?]|] eqn:Ep; [|done|done].
    cbn in Hct. injection Hct as <- <-. destruct Hts as (spki & m & dss & key & src & Hk & Hd & _ & _ & Hv).
    exists prepared, spki, key, src, m, dss. split_and!; try done. inversion Hs; subst.
    apply (trusted_typed args name v config (QuicReport.host o) (QuicReport.port o) prepared (mkIdentity (HostKey.algorithm key) (HostKey.to_blob key)
      (Sha256Fingerprint.of_blob (HostKey.to_blob key))) src); try done. apply sha256_len.
Qed.

(** C4: when [tatami-client handshake] exits with status 0, and the arguments
    did not ask for help, a server proved possession of a key that the trust
    option on the command line names. Over TCP, and over QUIC with SSH trust,
    the key is the SSH host key: with [--host-key-sha256] the text that was typed
    is that key's own fingerprint; with [--known-hosts] the policy prepared from
    the typed file for the host and port that were parsed trusts the key. Over
    QUIC with a certificate, the typed option names what TLS verified. *)
Theorem client_success_trusted args c c' :
  client_main (bstr "handshake" :: args) c = Done (c', 0) ->
  match parse_args features kex quic_diag (bstr "handshake" :: args) with
  | Some (Ok Help) => True
  | Some (Ok (Handshake o _)) => tcp_trusted args o
  | Some (Ok (QuicHandshake o _)) => quic_trusted args o
  | _ => False
  end.
Proof.
  unfold client_main, main. destruct (parse_args _ _ _ _) as [[command|msg]|] eqn:Ep; [| |done].
  - destruct (handshake_parsed _ _ Ep) as [(o & json & -> & Hp)|[(o & json & -> & Hp)| ->]]; [| |done].
    + intros Hr. by eapply tcp_success.
    + intros Hr. by eapply quic_success.
  - intros (? & _ & (? & _ & (? & _ & [=])%run_bind_done)%run_bind_done)%run_bind_done.
Qed.

End exit_status.

(** ** An example run *)

Module ClientDemo.
Import HandshakeProps.Demo Base64Codec.

#[local] Existing Instances Scripted.scripted_laws scripted_socket letters_codec echo_mac traced_sk.
#[local] Existing Instances no_files no_files_shows demo_net QuicDemo.tls QuicDemo.quinn QuicDemo.quinn_laws QuicDemo.socket.

(** A console that keeps what is written. *)
#[local] Instance log : Console := {|
  Con := list bytes;
  stdout_write_all t c := (t :: c, Ok tt);
  stdout_flush c := (c, Ok tt);
  stderr_write_all t c := (t :: c, Ok tt)
|}.

#[local] Instance no_certs : CertFiles no_files := {|
  path_from _ := tt;
  read_file _ := Err tt;
  PemError := unit;
  from_pem_slice _ := Err tt;
  show_pem_error _ := []
|}.

#[local] Instance quoted : DebugStr := fun s => s.
#[local] Instance nanos : DebugDuration := Display.show.
#[local] Instance shows : Display.Shows := {| Display.show_io _ := bstr "error"; Display.show_secs _ := bstr "0.000" |}.
#[local] Instance local_addr : Display.ShowAddr (@SocketAddr (traced Scripted.scripted_seam) (traced_socket _ scripted_socket)) := fun _ => bstr "here".
#[local] Instance remote_addr : Display.ShowAddr (@Addr demo_net) := fun _ => bstr "there".
#[local] Instance udp_addr : Display.ShowAddr Z := fun _ => bstr "there".
#[local] Instance resolver : Resolver Z QuicDemo.socket := {| ip_literal _ _ := Some 1; to_socket_addrs _ _ w := (w, Ok []) |}.

Definition pin_text : bytes := Eval vm_compute in Sha256Fingerprint.display (Sha256Fingerprint.of_blob host_blob).

Definition demo_args : list bytes := [bstr "h"; bstr "--transport"; bstr "tcp"; bstr "--host-key-sha256"; pin_text].

Abbreviation demo_main :=
  (client_main (K := unit) (E := unit) (N := demo_net) (Sm := Scripted.scripted_seam) (U := QuicDemo.socket)
    demo_features true true false (fun _ _ => demo_world) tt ([], 0) [] None tt 40 (bstr "handshake" :: demo_args) []).

(** The example server's fingerprint is typed, and the run succeeds. *)
Lemma client_success_trusted_witness :
  exists c o, demo_main = Done (c, 0) /\ HandshakeCommand.host o = bstr "h" /\
    tcp_trusted (K := unit) demo_features false demo_args o.
Proof.
  assert (exists c, demo_main = Done (c, 0)) as (c & Hr) by (eexists; vm_compute; reflexivity).
  assert (exists o j, parse_args demo_features true true (bstr "handshake" :: demo_args) = Some (Ok (Handshake o j)) /\
    HandshakeCommand.host o = bstr "h") as (o & j & Hp & Ho) by (eexists _, _; split; vm_compute; reflexivity).
  exists c, o. split; [exact Hr|]. split; [exact Ho|].
  pose proof (client_success_trusted (E := unit) (U := QuicDemo.socket) demo_features true true false (fun _ _ => demo_world) tt ([], 0) [] None tt 40
    demo_args [] c Hr) as Ht.
  rewrite Hp in Ht. exact Ht.
Defined.


End ClientDemo.
