(* ===== verification/QuicIdentity.v ===== *)
(** * Identities of the QUIC server

    Models crates/tatami_ssh_quic/src/diag/identity.rs: an SSH host key loaded
    into the TLS stack and checked against its public key, and the X.509 test
    identity kept in a directory. The signing keys of rustls, certificate
    generation (rcgen) and PEM reading are classes; the directory is a state.
    The in-memory issuing certificate, which only tests use, is not modelled. *)

From S2P Require Import Prelude WireError NameList Primitives Messages KexInit KeyAlgorithm HostKey HostKeyProps.
From S2P Require Import Packet Gcm Transcript Trust Spki SpkiProps KnownHosts KnownHostsProps Text FacadeTrust.
From S2P Require Import Seam Display Durations QuicTls HostSignature.

Import Spki.

(* quic/diag/identity.rs:261-268 PrivateKeyEncoding *)
Inductive PrivateKeyEncoding : Type := EncPkcs8 | EncPkcs1 | EncSec1.

(** The signing keys of rustls' ring provider. *)
Class Signing `{R : Rustls} : Type := {
  SigningKey : Type;
  Signer : Type;
  any_supported_type : PrivateKeyEncoding -> bytes -> result SigningKey RustlsError;
  load_private_key : bytes -> result SigningKey RustlsError;
  sk_public_key : SigningKey -> option bytes;
  choose_scheme : SigningKey -> TlsScheme -> option Signer;
  sign : Signer -> bytes -> result bytes RustlsError
}.

(** Certificate generation: a key pair with its PKCS#8 and SPKI encodings, the
    parameters for a list of names, and the self-signed certificate. *)
Class Rcgen : Type := {
  RcError : Type;
  show_rcgen : RcError -> bytes;
  RcKey : Type;
  RcParams : Type;
  generate_key : result RcKey RcError;
  params_new : list bytes -> result RcParams RcError;
  self_signed : RcParams -> bytes -> RcKey -> result bytes RcError;
  key_public_der : RcKey -> bytes;
  key_serialize_der : RcKey -> bytes
}.

(** [from_pem_slice] of certificates and private keys; a private key that is not
    PKCS#8 is [Ok None]. *)
Class Pem : Type := {
  PemReadError : Type;
  show_pem_read : PemReadError -> bytes;
  cert_from_pem : bytes -> result bytes PemReadError;
  key_from_pem : bytes -> result (option bytes) PemReadError
}.

(** Directories: their files by name. [dir_create_new] opens a file that must
    not exist, with a mode. *)
Class IdentityDir (F : Fs) : Type := {
  DirWorld : Type;
  DirFile : Type;
  show_in_dir : Path -> bytes -> bytes;
  dir_exists : Path -> bytes -> DirWorld -> bool;
  dir_read : Path -> bytes -> DirWorld -> result bytes IoError;
  dir_create_all : Path -> DirWorld -> DirWorld * result unit IoError;
  dir_create_new : Path -> bytes -> Z -> DirWorld -> DirWorld * result DirFile IoError;
  dir_write_all : DirFile -> bytes -> DirWorld -> DirWorld * result unit IoError;
  dir_flush : DirFile -> DirWorld -> DirWorld * result unit IoError
}.

Module QuicIdentity.
Import Display Quic.

(* quic/diag/identity.rs:43-43 CERT_FILE *)
Definition CERT_FILE : bytes := bstr "cert.pem".

(* quic/diag/identity.rs:45-45 KEY_FILE *)
Definition KEY_FILE : bytes := bstr "key.pem".

(* quic/diag/identity.rs:51-80 IdentityError *)
Inductive IdentityError `{Rcgen} : Type :=
| Generate (e : RcError)
| IdentityIo (path : bytes) (source : IoError)
| PemFile (path detail : bytes)
| UnsupportedKey
| KeyRejected (why : bytes)
| HostKeyMismatch
| AlreadyExists (path : bytes)
| NotFound (path : bytes).

(* quic/diag/identity.rs:82-113 IdentityError::fmt *)
Definition identity_error `{Rcgen, Shows} (e : IdentityError) : bytes :=
  match e with
  | Generate e => bstr "identity generation failed: " ++ show_rcgen e
  | IdentityIo path source => bstr "identity file " ++ path ++ bstr ": " ++ show_io source
  | PemFile path detail => bstr "identity file " ++ path ++ bstr ": " ++ detail
  | UnsupportedKey => bstr "identity key is not a supported key type or encoding"
  | KeyRejected why => bstr "the TLS provider refused the host key: " ++ why
  | HostKeyMismatch => bstr "the signing key's public key is not the expected SSH host key"
  | AlreadyExists p => bstr "identity already exists in " ++ p ++ bstr "; refusing to overwrite"
  | NotFound p =>
      bstr "no identity in " ++ p ++ bstr " (expected " ++ CERT_FILE ++ bstr " and " ++ KEY_FILE
      ++ bstr "); pass --generate-identity to create one"
  end.

Section identity.
Context `{R : Rustls, Sg : !Signing, Rc : Rcgen, Rg : Ring, H : Hash, DD : Dalek}.
Variable features : Features.

(** ** An SSH host key *)

(* quic/diag/identity.rs:271-271 POSSESSION_PROBE *)
Definition POSSESSION_PROBE : bytes := bstr "tatami host key load-time proof of possession".

(* quic/diag/identity.rs:291-296 HostKeyIdentity *)
Record HostKeyIdentity : Type := mkHostKey {
  signing : SigningKey;
  h_key_type : KeyType.t;
  h_spki : bytes;
  h_ssh_blob : bytes
}.

Definition tls_scheme (t : KeyType.t) : TlsScheme :=
  match t with
  | KeyType.Ed25519 => ED25519
  | KeyType.Rsa => RSA_PSS_SHA256
  | KeyType.EcdsaP256 => ECDSA_NISTP256_SHA256
  end.

(** The check is made with ring, not with the library the SSH side uses. *)
Definition probe_valid (key : HostKey.t) (sig : bytes) : bool :=
  match key with
  | HostKey.Ed25519 k => ring_ed25519 (vk_as_bytes (Ed25519.key k)) POSSESSION_PROBE sig
  | HostKey.Rsa k => feat_rsa features && ring_rsa_pss_sha256 (Rsa.n k) (Rsa.e k) POSSESSION_PROBE sig
  | HostKey.EcdsaP256 k => feat_ecdsa_p256 features && ring_ecdsa_p256_asn1 (Ecdsa.point k) POSSESSION_PROBE sig
  end.

(* quic/diag/identity.rs:470-518 prove_possession *)
Definition prove_possession (signing : SigningKey) (key : HostKey.t) : result unit IdentityError :=
  match choose_scheme signing (tls_scheme (HostKey.key_type key)) with
  | None => Err (KeyRejected (bstr "no TLS 1.3 signature scheme for this key"))
  | Some signer =>
      let? sig := map_err (fun e => KeyRejected (show_rustls e)) (sign signer POSSESSION_PROBE) in
      if probe_valid key sig then Ok tt
      else Err (KeyRejected (bstr "the private key does not produce valid signatures for its public key"))
  end.

(* quic/diag/identity.rs:314-345 HostKeyIdentity::from_private_key_der *)
Definition from_private_key_der (encoding : PrivateKeyEncoding) (der expected_ssh_blob : bytes)
    : result HostKeyIdentity IdentityError :=
  let? signing := map_err (fun e => KeyRejected (show_rustls e)) (any_supported_type encoding der) in
  let? spki_der := ok_or (sk_public_key signing) UnsupportedKey in
  let? key := map_err (fun _ => UnsupportedKey) (host_key_from_spki features spki_der) in
  let ssh_blob := HostKey.to_blob key in
  if negb (bytes_eqb ssh_blob expected_ssh_blob) then Err HostKeyMismatch else
  let spki := host_key_spki key in
  if negb (bytes_eqb spki spki_der) then Err UnsupportedKey else
  let? _ := prove_possession signing key in
  Ok (mkHostKey signing (HostKey.key_type key) spki ssh_blob).

(* quic/diag/identity.rs:308-310 HostKeyIdentity::from_pkcs8 *)
Definition from_pkcs8 (pkcs8 expected_ssh_blob : bytes) : result HostKeyIdentity IdentityError :=
  from_private_key_der EncPkcs8 pkcs8 expected_ssh_blob.

(* quic/diag/identity.rs:373-375 HostKeyIdentity::ssh_fingerprint *)
Definition ssh_fingerprint (self : HostKeyIdentity) : Sha256Fingerprint.t := Sha256Fingerprint.of_blob (h_ssh_blob self).

(** ** The test identity *)

(* quic/diag/identity.rs:245-247 spki_ed25519_to_raw *)
Definition spki_ed25519_to_raw (spki : bytes) : result bytes SpkiError :=
  map_ok (fun k => vk_as_bytes (Ed25519.key k)) (ed25519_public_key_from_spki features spki).

(* quic/diag/identity.rs:252-257 raw_ed25519_to_spki *)
Definition raw_ed25519_to_spki (key : bytes) : bytes := ED25519_SPKI_PREFIX ++ key.

(* quic/diag/identity.rs:523-527 TestIdentity *)
Record TestIdentity : Type := mkTest { certificate : bytes; t_key : bytes; t_spki : bytes }.

(* quic/diag/identity.rs:633-643 TestIdentity::from_rcgen *)
Definition from_rcgen (cert : bytes) (key : RcKey) : result TestIdentity IdentityError :=
  let spki := key_public_der key in
  match spki_ed25519_to_raw spki with
  | Err _ => Err UnsupportedKey
  | Ok _ => Ok (mkTest cert (key_serialize_der key) spki)
  end.

(** The common name; the certificate is no CA, for digital signatures of a
    server. *)
Definition LEAF_NAME : bytes := bstr "tatami-quic diagnostic test identity".

(* quic/diag/identity.rs:595-601 TestIdentity::generate_ed25519 *)
Definition generate_ed25519 (names : list bytes) : result TestIdentity IdentityError :=
  let? key := map_err Generate generate_key in
  let? params := map_err Generate (params_new names) in
  let? cert := map_err Generate (self_signed params LEAF_NAME key) in
  from_rcgen cert key.

(* quic/diag/identity.rs:691-693 TestIdentity::certificate_sha256_fingerprint *)
Definition certificate_sha256_fingerprint (self : TestIdentity) : CertificateSha256 := Sha256Newtype.of_der (certificate self).

(* quic/diag/identity.rs:671-674 TestIdentity::raw_public_key *)
Definition raw_public_key (self : TestIdentity) : bytes :=
  match spki_ed25519_to_raw (t_spki self) with Ok k => k | Err _ => replicate 32 x00 end.

(** [slice::chunks(64)]. *)
Fixpoint chunks (fuel : nat) (t : bytes) : list bytes :=
  match fuel, t with
  | _, [] => []
  | O, _ => []
  | S fuel, t => ztake 64 t :: chunks fuel (zdrop 64 t)
  end.

(* quic/diag/identity.rs:795-804 pem *)
Definition pem `{Base64Padded} (label der : bytes) : bytes :=
  let encoded := bp_encode der in
  bstr "-----BEGIN " ++ label ++ bstr "-----" ++ [x0a]
  ++ mjoin (map (fun chunk => chunk ++ [x0a]) (chunks (length encoded) encoded))
  ++ bstr "-----END " ++ label ++ bstr "-----" ++ [x0a].

Section directory.
Context `{BP : Base64Padded, P : Pem, F : Fs, FS : !FsShows F, D : !IdentityDir F}.
Variable dir : Path.

(* quic/diag/identity.rs:806-827 write_new *)
Definition write_new (file contents : bytes) (private : bool) (w : DirWorld) : DirWorld * result unit IdentityError :=
  let failed e := IdentityIo (show_in_dir dir file) e in
  match dir_create_new dir file (if private then 6 * 64 else 6 * 64 + 4 * 8 + 4) w with
  | (w, Err e) => (w, Err (failed e))
  | (w, Ok f) =>
      match dir_write_all f contents w with
      | (w, Err e) => (w, Err (failed e))
      | (w, Ok _) => let '(w, r) := dir_flush f w in (w, map_err failed r)
      end
  end.

(* quic/diag/identity.rs:703-723 TestIdentity::save_pem *)
Definition save_pem (self : TestIdentity) (w : DirWorld) : DirWorld * result unit IdentityError :=
  if dir_exists dir CERT_FILE w || dir_exists dir KEY_FILE w then (w, Err (AlreadyExists (show_fs_path dir))) else
  match dir_create_all dir w with
  | (w, Err e) => (w, Err (IdentityIo (show_fs_path dir) e))
  | (w, Ok _) =>
      match write_new CERT_FILE (pem (bstr "CERTIFICATE") (certificate self)) false w with
      | (w, Err e) => (w, Err e)
      | (w, Ok _) => write_new KEY_FILE (pem (bstr "PRIVATE KEY") (t_key self)) true w
      end
  end.

(* quic/diag/identity.rs:726-773 TestIdentity::load_pem *)
Definition load_pem (w : DirWorld) : result TestIdentity IdentityError :=
  if negb (dir_exists dir CERT_FILE w) && negb (dir_exists dir KEY_FILE w) then Err (NotFound (show_fs_path dir)) else
  let? cert_pem := map_err (IdentityIo (show_in_dir dir CERT_FILE)) (dir_read dir CERT_FILE w) in
  let? key_pem := map_err (IdentityIo (show_in_dir dir KEY_FILE)) (dir_read dir KEY_FILE w) in
  let? certificate :=
    map_err (fun e => PemFile (show_in_dir dir CERT_FILE) (bstr "expected one CERTIFICATE PEM block: " ++ show_pem_read e))
      (cert_from_pem cert_pem) in
  let? key :=
    match key_from_pem key_pem with
    | Ok (Some k) => Ok k
    | Ok None => Err UnsupportedKey
    | Err e => Err (PemFile (show_in_dir dir KEY_FILE) (bstr "expected one PRIVATE KEY PEM block: " ++ show_pem_read e))
    end in
  let? signing := map_err (fun _ => UnsupportedKey) (load_private_key key) in
  let? spki := ok_or (sk_public_key signing) UnsupportedKey in
  let? _ := map_err (fun _ => UnsupportedKey) (spki_ed25519_to_raw spki) in
  Ok (mkTest certificate key spki).

(* quic/diag/identity.rs:778-792 TestIdentity::load_or_generate *)
Definition load_or_generate (generate : bool) (names : list bytes) (w : DirWorld)
    : DirWorld * result (TestIdentity * bool) IdentityError :=
  match load_pem w with
  | Ok id => (w, Ok (id, false))
  | Err (NotFound _ as e) =>
      if generate then
        match generate_ed25519 names with
        | Err e => (w, Err e)
        | Ok id => let '(w, r) := save_pem id w in (w, map_ok (fun _ => (id, true)) r)
        end
      else (w, Err e)
  | Err e => (w, Err e)
  end.
End directory.

(** ** What a server presents *)

(* quic/diag/identity.rs:380-386 ServerIdentity *)
Inductive ServerIdentity : Type := TestServer (t : TestIdentity) | HostKeyServer (h : HostKeyIdentity).

(* quic/diag/identity.rs:418-428 PresentedIdentity *)
Inductive PresentedIdentity : Type :=
| PresentedCertificate (c : CertificateSha256)
| PresentedHostKey (key_type : KeyType.t) (fingerprint : Sha256Fingerprint.t).

(* quic/diag/identity.rs:403-413 ServerIdentity::presented *)
Definition presented (self : ServerIdentity) : PresentedIdentity :=
  match self with
  | TestServer t => PresentedCertificate (certificate_sha256_fingerprint t)
  | HostKeyServer h => PresentedHostKey (h_key_type h) (ssh_fingerprint h)
  end.

(* quic/diag/identity.rs:433-438 PresentedIdentity::mode *)
Definition presented_mode (self : PresentedIdentity) : string :=
  match self with PresentedCertificate _ => "x509_test_certificate" | PresentedHostKey _ _ => "ssh_host_key_raw_public_key" end.

(* quic/diag/identity.rs:442-447 PresentedIdentity::certificate_sha256 *)
Definition presented_certificate (self : PresentedIdentity) : option CertificateSha256 :=
  match self with PresentedCertificate c => Some c | PresentedHostKey _ _ => None end.

(* quic/diag/identity.rs:451-456 PresentedIdentity::ssh_host_key_sha256 *)
Definition presented_fingerprint (self : PresentedIdentity) : option Sha256Fingerprint.t :=
  match self with PresentedCertificate _ => None | PresentedHostKey _ f => Some f end.

(* quic/diag/identity.rs:460-465 PresentedIdentity::ssh_host_key_type *)
Definition presented_type (self : PresentedIdentity) : option KeyType.t :=
  match self with PresentedCertificate _ => None | PresentedHostKey t _ => Some t end.
End identity.
End QuicIdentity.
