(* ===== verification/QuicServer.v ===== *)
(** * The QUIC diagnostic server

    Models crates/tatami_ssh_quic/src/diag/server.rs and the server side of
    diag/tls.rs: the core around one quinn-proto endpoint and its connections,
    and the loop that runs it. The connections are a map by handle; the order in
    which a hash map lists its keys is the class [HashOrder]. Counters are
    unbounded, times are nanoseconds, and the cell the certificate resolver
    writes to is a field of the core. *)

From stdpp Require Import gmap.
From S2P Require Import Prelude WireError NameList Primitives Messages KexInit KeyAlgorithm HostKey HostKeyProps.
From S2P Require Import Packet Gcm Transcript Trust Spki SpkiProps KnownHosts KnownHostsProps Text FacadeTrust Seam.
From S2P Require Import Display Durations QuicTls QuicClient HostSignature QuicIdentity.

Open Scope Z_scope.

(** What a server endpoint is configured with. *)
Record AcceptConfig : Type := mkAcceptConfig {
  ac_chain : list bytes;
  ac_raw_public_keys : bool;
  ac_alpn : list bytes;
  ac_max_early_data : Z;
  ac_tickets : Z;
  ac_transport : Quic.TransportConfig;
  ac_versions : list Z
}.

(** The server's part of quinn-proto. Accepting an [Incoming] may call the
    certificate resolver; its error has a text and perhaps a datagram to send. *)
Class QuinnServer (A : Type) `{R : Rustls} `{Q : !Quinn A} : Type := {
  server_endpoint : AcceptConfig -> Endpoint;
  endpoint_retry : Incoming -> Endpoint -> Endpoint * result (Quic.Datagram A) Incoming;
  endpoint_refuse : Incoming -> Endpoint -> Endpoint * Quic.Datagram A;
  endpoint_accept : Z -> Incoming -> Endpoint ->
    Endpoint * result (Z * Connection) (bytes * option (Quic.Datagram A)) * list Callback;
  incoming_validated : Incoming -> bool;
  incoming_may_retry : Incoming -> bool;
  incoming_remote : Incoming -> A;
  incoming_orig_dst_cid : Incoming -> bytes;
  addr_is_unspecified : A -> bool
}.

(** [HashMap::keys]: every key once, in an order of the map's own. *)
Class HashOrder : Type := {
  keys_of : forall {V : Type}, gmap Z V -> list Z;
  keys_perm : forall {V : Type} (m : gmap Z V), Permutation (keys_of m) (map_to_list m).*1
}.

Module QuicServer.
Import Display Quic QuicIdentity.

(* quic/diag/server.rs:53-53 CLOSE_CODE_OBSERVED *)
Definition CLOSE_CODE_OBSERVED : Z := 0.

(* quic/diag/server.rs:55-55 CLOSE_CODE_DEADLINE *)
Definition CLOSE_CODE_DEADLINE : Z := 1.

(* quic/diag/server.rs:57-57 CLOSE_CODE_SHUTDOWN *)
Definition CLOSE_CODE_SHUTDOWN : Z := 2.

(** ** The resolver *)

(* quic/diag/tls.rs:53-53 MAX_HELLO_LIST *)
Definition MAX_HELLO_LIST : Z := 32.

(* quic/diag/tls.rs:64-81 ClientHelloRecord *)
Record ClientHelloRecord : Type := mkHello {
  hello_server_name : option bytes;
  hello_alpn : option (list bytes);
  cipher_suites : list bytes;
  signature_schemes : list bytes;
  named_groups : option (list bytes);
  server_cert_types : option (list bytes);
  hellos_seen : Z
}.

Definition with_hellos_seen (n : Z) (h : ClientHelloRecord) : ClientHelloRecord :=
  mkHello (hello_server_name h) (hello_alpn h) (cipher_suites h) (signature_schemes h) (named_groups h) (server_cert_types h) n.

(* quic/diag/tls.rs:121-145 RecordingResolver::resolve *)
Definition resolve (slot : option ClientHelloRecord) (h : ClientHello) : option ClientHelloRecord :=
  let record :=
    mkHello (ch_server_name h) (map (fun p => ztake (Z.min (zlen p) 255) p) <$> (ztake MAX_HELLO_LIST <$> ch_alpn h))
      (ztake MAX_HELLO_LIST (ch_cipher_suites h)) (ztake MAX_HELLO_LIST (ch_signature_schemes h))
      (ztake MAX_HELLO_LIST <$> ch_named_groups h) (ztake MAX_HELLO_LIST <$> ch_server_cert_types h) 1 in
  let seen := match slot with Some r => hellos_seen r | None => 0 end in
  Some (with_hellos_seen (seen + 1) record).

(* quic/diag/tls.rs:530-542 ServerIdentityMode *)
Inductive ServerIdentityMode : Type := CertificateMode | RawPublicKey | RawPublicKeyRecording.

#[export] Instance mode_eq_dec : EqDecision ServerIdentityMode.
Proof. solve_decision. Defined.

(** What the calls of a connection leave in the slot: rustls' own raw-key
    resolver records nothing. *)
Definition hellos (mode : ServerIdentityMode) `{Rustls} (slot : option ClientHelloRecord) (calls : list Callback)
    : option ClientHelloRecord :=
  foldl (fun slot c => match c, mode with
                       | CalledResolve h, (CertificateMode | RawPublicKeyRecording) => resolve slot h
                       | _, _ => slot
                       end) slot calls.

(** ** Outcomes *)

(* quic/diag/server.rs:160-179 HandshakeOutcome *)
Inductive HandshakeOutcome : Type :=
| Completed
| Failed (reason : bytes)
| TimedOut
| AcceptFailed (reason : bytes)
| Shutdown.

(* quic/diag/server.rs:184-192 HandshakeOutcome::code *)
Definition outcome_code (o : HandshakeOutcome) : string :=
  match o with
  | Completed => "completed"
  | Failed _ => "failed"
  | TimedOut => "timed_out"
  | AcceptFailed _ => "accept_failed"
  | Shutdown => "shutdown"
  end.

(* quic/diag/server.rs:196-203 HandshakeOutcome::reason *)
Definition outcome_reason (o : HandshakeOutcome) : option bytes :=
  match o with Failed reason | AcceptFailed reason => Some reason | _ => None end.

(* quic/diag/server.rs:208-219 CloseReason *)
Inductive CloseReason : Type := LocalAfterHandshake | LocalDeadline | LocalShutdown | LostConnection | NotEstablished.

(* quic/diag/server.rs:224-232 CloseReason::code *)
Definition close_code (c : CloseReason) : string :=
  match c with
  | LocalAfterHandshake => "local_close_after_handshake"
  | LocalDeadline => "local_close_handshake_deadline"
  | LocalShutdown => "local_close_shutdown"
  | LostConnection => "connection_lost"
  | NotEstablished => "not_established"
  end.

(* quic/diag/server.rs:237-245 ValidationMethod *)
Inductive ValidationMethod : Type := NoValidation | RetryToken | ValidationToken.

(* quic/diag/server.rs:250-256 ValidationMethod::code *)
Definition validation_code (v : ValidationMethod) : string :=
  match v with NoValidation => "none" | RetryToken => "retry_token" | ValidationToken => "validation_token" end.

(* quic/diag/server.rs:310-321 StopReason *)
Inductive StopReason : Type := RunDurationElapsed | ConnectionLimitReached | StopRequested | SinkFailed | SocketFailed.

(* quic/diag/server.rs:326-334 StopReason::code *)
Definition stop_code (r : StopReason) : string :=
  match r with
  | RunDurationElapsed => "run_duration_elapsed"
  | ConnectionLimitReached => "connection_limit_reached"
  | StopRequested => "stop_requested"
  | SinkFailed => "sink_failed"
  | SocketFailed => "socket_failed"
  end.

(* quic/diag/server.rs:339-367 CoreStats *)
Record CoreStats : Type := mkStats {
  incoming : Z;
  accepted : Z;
  observed : Z;
  completed : Z;
  failed : Z;
  timed_out : Z;
  dropped_at_capacity : Z;
  retries_sent : Z;
  version_negotiations_sent : Z;
  endpoint_responses_sent : Z;
  datagrams_received : Z;
  datagrams_sent : Z
}.

Definition CoreStats_default : CoreStats := mkStats 0 0 0 0 0 0 0 0 0 0 0 0.

Definition count_incoming s := mkStats (incoming s + 1) (accepted s) (observed s) (completed s) (failed s) (timed_out s) (dropped_at_capacity s) (retries_sent s) (version_negotiations_sent s) (endpoint_responses_sent s) (datagrams_received s) (datagrams_sent s).
Definition count_accepted s := mkStats (incoming s) (accepted s + 1) (observed s) (completed s) (failed s) (timed_out s) (dropped_at_capacity s) (retries_sent s) (version_negotiations_sent s) (endpoint_responses_sent s) (datagrams_received s) (datagrams_sent s).
Definition count_observed s := mkStats (incoming s) (accepted s) (observed s + 1) (completed s) (failed s) (timed_out s) (dropped_at_capacity s) (retries_sent s) (version_negotiations_sent s) (endpoint_responses_sent s) (datagrams_received s) (datagrams_sent s).
Definition count_completed s := mkStats (incoming s) (accepted s) (observed s) (completed s + 1) (failed s) (timed_out s) (dropped_at_capacity s) (retries_sent s) (version_negotiations_sent s) (endpoint_responses_sent s) (datagrams_received s) (datagrams_sent s).
Definition count_failed s := mkStats (incoming s) (accepted s) (observed s) (completed s) (failed s + 1) (timed_out s) (dropped_at_capacity s) (retries_sent s) (version_negotiations_sent s) (endpoint_responses_sent s) (datagrams_received s) (datagrams_sent s).
Definition count_timed_out s := mkStats (incoming s) (accepted s) (observed s) (completed s) (failed s) (timed_out s + 1) (dropped_at_capacity s) (retries_sent s) (version_negotiations_sent s) (endpoint_responses_sent s) (datagrams_received s) (datagrams_sent s).
Definition count_dropped s := mkStats (incoming s) (accepted s) (observed s) (completed s) (failed s) (timed_out s) (dropped_at_capacity s + 1) (retries_sent s) (version_negotiations_sent s) (endpoint_responses_sent s) (datagrams_received s) (datagrams_sent s).
Definition count_retry s := mkStats (incoming s) (accepted s) (observed s) (completed s) (failed s) (timed_out s) (dropped_at_capacity s) (retries_sent s + 1) (version_negotiations_sent s) (endpoint_responses_sent s) (datagrams_received s) (datagrams_sent s).
Definition count_negotiation s := mkStats (incoming s) (accepted s) (observed s) (completed s) (failed s) (timed_out s) (dropped_at_capacity s) (retries_sent s) (version_negotiations_sent s + 1) (endpoint_responses_sent s) (datagrams_received s) (datagrams_sent s).
Definition count_response s := mkStats (incoming s) (accepted s) (observed s) (completed s) (failed s) (timed_out s) (dropped_at_capacity s) (retries_sent s) (version_negotiations_sent s) (endpoint_responses_sent s + 1) (datagrams_received s) (datagrams_sent s).
Definition count_received s := mkStats (incoming s) (accepted s) (observed s) (completed s) (failed s) (timed_out s) (dropped_at_capacity s) (retries_sent s) (version_negotiations_sent s) (endpoint_responses_sent s) (datagrams_received s + 1) (datagrams_sent s).
Definition count_sent s := mkStats (incoming s) (accepted s) (observed s) (completed s) (failed s) (timed_out s) (dropped_at_capacity s) (retries_sent s) (version_negotiations_sent s) (endpoint_responses_sent s) (datagrams_received s) (datagrams_sent s + 1).

(* quic/diag/server.rs:261-306 HandshakeObservation *)
Record HandshakeObservation {A : Type} : Type := mkObservation {
  id : Z;
  local : A;
  peer : A;
  accepted_unix : Z;
  elapsed : Z;
  orig_dst_cid : bytes;
  peer_address_validated : bool;
  may_retry : bool;
  retry_sent : bool;
  validation_method : ValidationMethod;
  obs_quic_version : Z;
  offered : option ClientHelloRecord;
  negotiated_alpn : option bytes;
  sni : option bytes;
  outcome : HandshakeOutcome;
  close : CloseReason;
  unexpected_streams : Z;
  unexpected_datagrams : Z;
  zero_rtt_attempted : bool
}.
Arguments HandshakeObservation : clear implicits.

Section updates.
Context {A : Type}.
Implicit Type o : HandshakeObservation A.

Ltac update_obs o field v :=
  let e := constr:(mkObservation A (id o) (local o) (peer o) (accepted_unix o) (elapsed o) (orig_dst_cid o) (peer_address_validated o)
    (may_retry o) (retry_sent o) (validation_method o) (obs_quic_version o) (offered o) (negotiated_alpn o) (sni o) (outcome o) (close o)
    (unexpected_streams o) (unexpected_datagrams o) (zero_rtt_attempted o)) in
  lazymatch eval pattern field in e with
  | ?f _ => let r := eval cbv beta in (f v) in exact r
  end.

Definition set_elapsed v o : HandshakeObservation A := ltac:(update_obs o (elapsed o) v).
Definition set_offered v o : HandshakeObservation A := ltac:(update_obs o (offered o) v).
Definition set_alpn v o : HandshakeObservation A := ltac:(update_obs o (negotiated_alpn o) v).
Definition set_sni v o : HandshakeObservation A := ltac:(update_obs o (sni o) v).
Definition set_outcome v o : HandshakeObservation A := ltac:(update_obs o (outcome o) v).
Definition set_close v o : HandshakeObservation A := ltac:(update_obs o (close o) v).
Definition set_streams v o : HandshakeObservation A := ltac:(update_obs o (unexpected_streams o) v).
Definition set_datagrams v o : HandshakeObservation A := ltac:(update_obs o (unexpected_datagrams o) v).
Definition set_zero_rtt v o : HandshakeObservation A := ltac:(update_obs o (zero_rtt_attempted o) v).
End updates.

Section server.
Context `{R : Rustls, Sg : !Signing, Rc : Rcgen, H : Hash} {A : Type} `{Q : !Quinn A} `{QS : !QuinnServer A} `{HO : HashOrder}.

(** ** Configuration *)

(** [addr_loopback] is 127.0.0.1:4433. *)
(* quic/diag/server.rs:61-96 DiagServerConfig *)
Record DiagServerConfig : Type := mkConfig {
  bind : A;
  alpn : list bytes;
  identity : ServerIdentity;
  identity_mode : ServerIdentityMode;
  handshake_timeout : Z;
  require_validation : bool;
  max_connections : option Z;
  run_for : option Z;
  max_concurrent : Z;
  pending_records : Z;
  poll_interval : Z;
  shutdown_grace : Z;
  overload_report_interval : Z
}.

(* quic/diag/server.rs:103-124 DiagServerConfig::new *)
Definition config_new (addr_loopback : A) (identity : ServerIdentity) (alpn : list bytes) : DiagServerConfig :=
  let identity_mode := match identity with TestServer _ => CertificateMode | HostKeyServer _ => RawPublicKeyRecording end in
  mkConfig addr_loopback alpn identity identity_mode DEFAULT_HANDSHAKE_TIMEOUT false None None 32 128 25000000 5000000000 1000000000.

Definition HOST_KEY_MODE : string :=
  "an SSH host key is presented only as an RFC 7250 raw public key; no certificate is manufactured".

Definition host_key_certificate (identity : ServerIdentity) (mode : ServerIdentityMode) : bool :=
  match identity, mode with HostKeyServer _, CertificateMode => true | _, _ => false end.

(* quic/diag/server.rs:127-155 DiagServerConfig::validate *)
Definition validate (self : DiagServerConfig) : result unit ConfigError :=
  let? _ := validate_alpn (alpn self) in
  if host_key_certificate (identity self) (identity_mode self) then Err (IdentityMode HOST_KEY_MODE)
  else if handshake_timeout self =? 0 then Err (BadDuration "handshake_timeout")
  else if max_concurrent self =? 0 then Err (ZeroLimit "max_concurrent")
  else if pending_records self =? 0 then Err (ZeroLimit "pending_records")
  else if poll_interval self =? 0 then Err (BadDuration "poll_interval")
  else if match run_for self with Some d => d =? 0 | None => false end then Err (BadDuration "run_for")
  else if match max_connections self with Some n => n =? 0 | None => false end then Err (ZeroLimit "max_connections")
  else Ok tt.

(** The TLS configuration: the certified key (the key that signs the handshake
    and the chain presented with it), the certificate type and the protocols; no
    client authentication, no early data, no session tickets. *)
Record ServerTls : Type := mkTls {
  tls_key : SigningKey;
  chain : list bytes;
  tls_raw_public_keys : bool;
  tls_alpn : list bytes
}.

(* quic/diag/tls.rs:591-652 server_crypto *)
Definition server_crypto (identity : ServerIdentity) (alpn : list bytes) (mode : ServerIdentityMode) : result ServerTls ConfigError :=
  let? _ := validate_alpn alpn in
  let? (key, chain) :=
    match identity, mode with
    | HostKeyServer _, CertificateMode => Err (IdentityMode HOST_KEY_MODE)
    | HostKeyServer h, _ => Ok (signing h, [h_spki h])
    | TestServer t, mode =>
        let? key := map_err Key (load_private_key (t_key t)) in
        Ok (key, [match mode with CertificateMode => certificate t | RawPublicKey | RawPublicKeyRecording => t_spki t end])
    end in
  let raw := match mode with CertificateMode => false | RawPublicKey | RawPublicKeyRecording => true end in
  let? _ := map_err Tls tls13_versions in
  let? _ := map_err QuicCrypto quic_initial_suite in
  Ok (mkTls key chain raw alpn).

(** ** The core *)

(* quic/diag/server.rs:440-447 Attempt *)
Record Attempt : Type := mkAttempt {
  ch : Z;
  conn : Connection;
  obs : HandshakeObservation A;
  accepted_at : Z;
  deadline : Z;
  decided : bool
}.

Definition set_conn c (a : Attempt) := mkAttempt (ch a) c (obs a) (accepted_at a) (deadline a) (decided a).
Definition on_obs (f : HandshakeObservation A -> HandshakeObservation A) (a : Attempt) :=
  mkAttempt (ch a) (conn a) (f (obs a)) (accepted_at a) (deadline a) (decided a).
Definition set_decided (a : Attempt) := mkAttempt (ch a) (conn a) (obs a) (accepted_at a) (deadline a) true.

(* quic/diag/server.rs:450-464 ServerCore *)
Record ServerCore : Type := mkCore {
  endpoint : Endpoint;
  bound : A;
  core_timeout : Z;
  core_validation : bool;
  core_concurrent : Z;
  core_mode : ServerIdentityMode;
  slot : option ClientHelloRecord;
  attempts : gmap Z Attempt;
  next_id : Z;
  stats : CoreStats;
  pending : list (HandshakeObservation A);
  accepting : bool;
  core_presented : PresentedIdentity
}.

Implicit Types (self : ServerCore) (att : Attempt) (out : list (Datagram A)).

Ltac update_core c field v :=
  let e := constr:(mkCore (endpoint c) (bound c) (core_timeout c) (core_validation c) (core_concurrent c) (core_mode c) (slot c)
    (attempts c) (next_id c) (stats c) (pending c) (accepting c) (core_presented c)) in
  lazymatch eval pattern field in e with
  | ?f _ => let r := eval cbv beta in (f v) in exact r
  end.

Definition set_endpoint v self : ServerCore := ltac:(update_core self (endpoint self) v).
Definition set_slot v self : ServerCore := ltac:(update_core self (slot self) v).
Definition set_attempts v self : ServerCore := ltac:(update_core self (attempts self) v).
Definition set_next_id v self : ServerCore := ltac:(update_core self (next_id self) v).
Definition set_pending v self : ServerCore := ltac:(update_core self (pending self) v).
Definition set_accepting v self : ServerCore := ltac:(update_core self (accepting self) v).
Definition on_stats (f : CoreStats -> CoreStats) self : ServerCore := ltac:(update_core self (stats self) (f (stats self))).

(* quic/diag/server.rs:469-501 ServerCore::new *)
Definition core_new (config : DiagServerConfig) (bound : A) : result ServerCore ConfigError :=
  let? _ := validate config in
  let? crypto := server_crypto (identity config) (alpn config) (identity_mode config) in
  let? transport := transport_config (handshake_timeout config) in
  let server_config := mkAcceptConfig (chain crypto) (tls_raw_public_keys crypto) (tls_alpn crypto) 0 0 transport endpoint_versions in
  Ok (mkCore (server_endpoint server_config) bound (handshake_timeout config) (require_validation config) (max_concurrent config)
        (identity_mode config) None ∅ 0 CoreStats_default [] true (presented (identity config))).

(* quic/diag/server.rs:517-519 ServerCore::handshaking *)
Definition handshaking self : Z := zlen (List.filter (fun a => negb (decided a)) (map_to_list (attempts self)).*2).

(* quic/diag/server.rs:523-525 ServerCore::connections *)
Definition connections self : Z := Z.of_nat (size (attempts self)).

(* quic/diag/server.rs:529-531 ServerCore::stop_accepting *)
Definition stop_accepting self : ServerCore := set_accepting false self.

(* quic/diag/server.rs:534-536 ServerCore::drain_observations *)
Definition drain_observations self : ServerCore * list (HandshakeObservation A) := (set_pending [] self, pending self).

Definition earlier (next : option Z) (t : Z) : option Z := Some (match next with Some n => Z.min n t | None => t end).

(* quic/diag/server.rs:540-552 ServerCore::next_timeout *)
Definition next_timeout self : option Z :=
  foldl (fun next a =>
    let next := match conn_poll_timeout (conn a) with Some t => earlier next t | None => next end in
    if negb (decided a) then earlier next (deadline a) else next) None (map_to_list (attempts self)).*2.

(* quic/diag/server.rs:854-860 ServerCore::push_out *)
Definition push_out (d : Datagram A) self out : ServerCore * list (Datagram A) := (on_stats count_sent self, out ++ [d]).

(* quic/diag/server.rs:746-748 ServerCore::take_hello *)
Definition take_hello self : ServerCore * option ClientHelloRecord := (set_slot None self, slot self).

(* quic/diag/server.rs:753-763 ServerCore::attach_hello *)
Definition attach_hello (ch : Z) self : ServerCore :=
  let '(self, rec) := take_hello self in
  match rec with
  | None => self
  | Some rec =>
      match attempts self !! ch with
      | None => self
      | Some att =>
          let seen := match offered (obs att) with Some r => hellos_seen r | None => 0 end in
          set_attempts (<[ch := on_obs (set_offered (Some (with_hellos_seen (seen + 1) rec))) att]> (attempts self)) self
      end
  end.

(** [att.conn.handle_event(ev)]. A server connection has no certificate to
    verify: its configuration asks for no client authentication. *)
Definition no_answers : Answers := mkAnswers _ (fun _ => Err bad_encoding) (fun _ _ _ => Err bad_encoding).

Definition deliver (ev : ConnectionEvent) self att : ServerCore * Attempt :=
  let '(c, calls) := conn_event no_answers ev (conn att) in
  (set_slot (hellos (core_mode self) (slot self) calls) self, set_conn c att).

(* quic/diag/server.rs:765-770 ServerCore::decide *)
Definition decide (now : Z) self att : ServerCore * Attempt :=
  let att := set_decided att in
  let att := on_obs (set_elapsed (Z.max 0 (now - accepted_at att))) att in
  let att := on_obs (set_zero_rtt (conn_has_0rtt (conn att))) att in
  (set_pending (pending self ++ [obs att]) self, att).

(* quic/diag/server.rs:842-852 ServerCore::read_handshake_data *)
Definition read_handshake_data att : Attempt :=
  match conn_handshake_data (conn att) with
  | Some hd => on_obs (fun o => set_sni (hd_server_name hd) (set_alpn (protocol hd) o)) att
  | None => att
  end.

(* quic/diag/server.rs:776-780 ServerCore::drive *)
Fixpoint endpoint_events (fuel : nat) self att : run (ServerCore * Attempt) :=
  match fuel with
  | O => Spins
  | S fuel =>
      let '(c, ev) := conn_poll_endpoint_events (conn att) in
      let att := set_conn c att in
      match ev with
      | None => Done (self, att)
      | Some ev =>
          let '(e, ce) := endpoint_event (ch att) ev (endpoint self) in
          let self := set_endpoint e self in
          let '(self, att) := match ce with Some ce => deliver ce self att | None => (self, att) end in
          endpoint_events fuel self att
      end
  end.

(* quic/diag/server.rs:784-797 ServerCore::drive *)
Definition on_connected (now : Z) self att : ServerCore * Attempt :=
  let att := read_handshake_data att in
  let '(self, att) :=
    if negb (decided att) then
      let att := on_obs (fun o => set_close LocalAfterHandshake (set_outcome Completed o)) att in
      decide now (on_stats count_completed self) att
    else (self, att) in
  (self, set_conn (conn_close now CLOSE_CODE_OBSERVED (bstr "tatami-diag: handshake observed; no application data") (conn att)) att).

(* quic/diag/server.rs:798-807 ServerCore::drive *)
Definition on_lost (now : Z) (reason : ConnectionError) self att : ServerCore * Attempt :=
  if negb (decided att) then
    let att := on_obs (fun o => set_close LostConnection (set_outcome (Failed (QuicClient.connection_error_text reason)) o)) att in
    decide now (on_stats count_failed self) att
  else (self, att).

(* quic/diag/server.rs:781-812 ServerCore::drive *)
Fixpoint events (fuel : nat) (now : Z) self att : run (ServerCore * Attempt) :=
  match fuel with
  | O => Spins
  | S fuel =>
      let '(c, ev) := conn_poll (conn att) in
      let att := set_conn c att in
      match ev with
      | None => Done (self, att)
      | Some HandshakeDataReady => events fuel now self (read_handshake_data att)
      | Some Connected => let '(self, att) := on_connected now self att in events fuel now self att
      | Some (ConnectionLost reason) => let '(self, att) := on_lost now reason self att in events fuel now self att
      | Some StreamEvent => events fuel now self (on_obs (fun o => set_streams (unexpected_streams o + 1) o) att)
      | Some DatagramReceived => events fuel now self (on_obs (fun o => set_datagrams (unexpected_datagrams o + 1) o) att)
      | Some DatagramsUnblocked => events fuel now self att
      end
  end.

(* quic/diag/server.rs:813-826 ServerCore::drive *)
Fixpoint transmits (fuel : nat) (now : Z) self att out : run (ServerCore * Attempt * list (Datagram A)) :=
  match fuel with
  | O => Spins
  | S fuel =>
      let '(c, t) := conn_poll_transmit now (conn att) in
      let att := set_conn c att in
      match t with
      | Some d => transmits fuel now (on_stats count_sent self) att (out ++ [d])
      | None => Done (self, att, out)
      end
  end.

(** A drained connection is forgotten. *)
(* quic/diag/server.rs:772-837 ServerCore::drive *)
Definition drive (fuel : nat) (k now : Z) self out : run (ServerCore * list (Datagram A)) :=
  match attempts self !! k with
  | None => Done (self, out)
  | Some att =>
      let^ r := endpoint_events fuel self att in
      let^ r := events fuel now (fst r) (snd r) in
      let^ r := transmits fuel now (fst r) (snd r) out in
      let out := snd r in
      let^ r := endpoint_events fuel (fst (fst r)) (snd (fst r)) in
      let '(self, att) := r in
      Done (set_attempts (if conn_is_drained (conn att) then delete k (attempts self) else <[k := att]> (attempts self)) self, out)
  end.

(** [wall] is the Unix time at acceptance. *)
(* quic/diag/server.rs:679-709 ServerCore::handle_incoming *)
Definition new_observation (wall : Z) (i : Incoming) self : HandshakeObservation A :=
  let validated := incoming_validated i in
  let retry := incoming_may_retry i in
  mkObservation A (next_id self) (bound self) (incoming_remote i) wall 0 (incoming_orig_dst_cid i) validated retry (negb retry)
    (match validated, retry with
     | _, false => RetryToken
     | true, true => ValidationToken
     | false, true => NoValidation
     end)
    QUIC_VERSION_1 None None None TimedOut NotEstablished 0 0 false.

(* quic/diag/server.rs:650-744 ServerCore::handle_incoming *)
Definition handle_incoming (fuel : nat) (wall : Z) (i : Incoming) (now : Z) self out : run (ServerCore * list (Datagram A)) :=
  let self := on_stats count_incoming self in
  if core_validation self && negb (incoming_validated i) then
    let '(e, r) := endpoint_retry i (endpoint self) in
    let self := set_endpoint e self in
    match r with
    | Ok t => Done (push_out t (on_stats count_retry self) out)
    | Err i => Done (set_endpoint (endpoint_ignore i (endpoint self)) self, out)
    end
  else if negb (accepting self) || (core_concurrent self <=? handshaking self) then
    let '(e, t) := endpoint_refuse i (endpoint self) in
    Done (push_out t (on_stats count_dropped (set_endpoint e self)) out)
  else
    let self := set_next_id (next_id self + 1) (on_stats count_accepted self) in
    let obs := new_observation wall i self in
    let '(e, r, calls) := endpoint_accept now i (endpoint self) in
    let self := set_slot (hellos (core_mode self) (slot self) calls) (set_endpoint e self) in
    match r with
    | Ok (ch, conn) =>
        let self := on_stats count_observed self in
        let att := mkAttempt ch conn obs now (now + core_timeout self) false in
        let self := set_attempts (<[ch := att]> (attempts self)) self in
        drive fuel ch now (attach_hello ch self) out
    | Err (cause, response) =>
        let '(self, out) := match response with Some t => push_out t self out | None => (self, out) end in
        let self := on_stats count_failed self in
        let '(self, hello) := take_hello self in
        let obs := set_close NotEstablished (set_outcome (AcceptFailed cause) (set_offered hello obs)) in
        Done (set_pending (pending self ++ [obs]) self, out)
    end.

(* quic/diag/server.rs:556-594 ServerCore::handle_datagram *)
Definition handle_datagram (fuel : nat) (wall now : Z) (remote : A) (data : bytes) self out : run (ServerCore * list (Datagram A)) :=
  let self := on_stats count_received self in
  let local_ip := if addr_is_unspecified (bound self) then None else Some (bound self) in
  let '(e, event) := endpoint_handle now remote local_ip data (endpoint self) in
  let self := set_endpoint e self in
  match event with
  | None => Done (self, out)
  | Some (Response t) =>
      let self := on_stats (match classify (payload t) with VersionNegotiation => count_negotiation | OtherResponse => count_response end) self in
      Done (push_out t self out)
  | Some (ConnectionEventFor ch ev) =>
      match attempts self !! ch with
      | None => Done (self, out)
      | Some att =>
          let '(self, att) := deliver ev self att in
          let self := set_attempts (<[ch := att]> (attempts self)) self in
          drive fuel ch now (attach_hello ch self) out
      end
  | Some (NewConnection i) => handle_incoming fuel wall i now self out
  end.

(* quic/diag/server.rs:601-618 ServerCore::handle_timeouts *)
Definition timeout_one (now : Z) self att : ServerCore * Attempt :=
  let att :=
    if match conn_poll_timeout (conn att) with Some t => t <=? now | None => false end
    then set_conn (conn_handle_timeout now (conn att)) att else att in
  if negb (decided att) && (deadline att <=? now) && negb (conn_is_closed (conn att)) then
    let att := set_conn (conn_close now CLOSE_CODE_DEADLINE (bstr "tatami-diag: handshake deadline") (conn att)) att in
    let att := on_obs (fun o => set_close LocalDeadline (set_outcome TimedOut o)) att in
    decide now (on_stats count_timed_out self) att
  else (self, att).

(* quic/diag/server.rs:599-620 ServerCore::handle_timeouts *)
Fixpoint timeouts (fuel : nat) (now : Z) (keys : list Z) self out : run (ServerCore * list (Datagram A)) :=
  match keys with
  | [] => Done (self, out)
  | key :: keys =>
      match attempts self !! key with
      | None => timeouts fuel now keys self out
      | Some att =>
          let '(self, att) := timeout_one now self att in
          let^ r := drive fuel key now (set_attempts (<[key := att]> (attempts self)) self) out in
          timeouts fuel now keys (fst r) (snd r)
      end
  end.

(* quic/diag/server.rs:597-621 ServerCore::handle_timeouts *)
Definition handle_timeouts (fuel : nat) (now : Z) self out : run (ServerCore * list (Datagram A)) :=
  timeouts fuel now (keys_of (attempts self)) self out.

(* quic/diag/server.rs:632-644 ServerCore::shutdown *)
Definition shutdown_one (now : Z) self att : ServerCore * Attempt * Z :=
  if negb (decided att) then
    let att := set_conn (conn_close now CLOSE_CODE_SHUTDOWN (bstr "tatami-diag: server stopping") (conn att)) att in
    let att := on_obs (fun o => set_close LocalShutdown (set_outcome Shutdown o)) att in
    (decide now self att, 1)
  else (self, att, 0).

(* quic/diag/server.rs:630-646 ServerCore::shutdown *)
Fixpoint shutdowns (fuel : nat) (now : Z) (keys : list Z) (abandoned : Z) self out : run (ServerCore * list (Datagram A) * Z) :=
  match keys with
  | [] => Done (self, out, abandoned)
  | key :: keys =>
      match attempts self !! key with
      | None => shutdowns fuel now keys abandoned self out
      | Some att =>
          let '(self, att, n) := shutdown_one now self att in
          let^ r := drive fuel key now (set_attempts (<[key := att]> (attempts self)) self) out in
          shutdowns fuel now keys (abandoned + n) (fst r) (snd r)
      end
  end.

(* quic/diag/server.rs:626-648 ServerCore::shutdown *)
Definition shutdown (fuel : nat) (now : Z) self out : run (ServerCore * list (Datagram A) * Z) :=
  shutdowns fuel now (keys_of (attempts self)) 0 (set_accepting false self) out.
End server.
End QuicServer.
