(* ===== verification/QuicServerProps.v ===== *)
(** * What the QUIC server records

    Whatever quinn-proto does: each accepted attempt has at most one record,
    under a number of its own; the counters are those of the records; and no more
    handshakes are in progress than configured. *)

From stdpp Require Import gmap.
From S2P Require Import Prelude WireError NameList Primitives Messages KexInit KeyAlgorithm HostKey HostKeyProps.
From S2P Require Import Packet Gcm Transcript Trust Spki SpkiProps KnownHosts KnownHostsProps Text FacadeTrust Seam.
From S2P Require Import Display Durations QuicTls QuicClient HostSignature QuicIdentity QuicServer.

Open Scope Z_scope.
Import Quic QuicIdentity QuicServer.

(** ** The invariant *)

Section server.
Context `{R : Rustls, Sg : !Signing, Rc : Rcgen, H : Hash} {A : Type} `{Q : !Quinn A} `{QS : !QuinnServer A} `{HO : HashOrder}.
Implicit Types (self : ServerCore) (att : Attempt) (out : list (Datagram A)) (seen : list (HandshakeObservation A)).

(** What the records depend on of an attempt. *)
Record Tag : Type := mkTag { t_decided : bool; t_id : Z; t_validated : bool }.

Definition tag att : Tag := mkTag (decided att) (id (obs att)) (peer_address_validated (obs att)).

Definition undecided (ts : list Tag) : list Z := map t_id (List.filter (fun t => negb (t_decided t)) ts).

Definition counted (p : HandshakeOutcome -> bool) (l : list (HandshakeObservation A)) : Z :=
  zlen (List.filter (fun o => p (outcome o)) l).

Definition is_completed (o : HandshakeOutcome) : bool := match o with Completed => true | _ => false end.
Definition is_failed (o : HandshakeOutcome) : bool := match o with Failed _ | AcceptFailed _ => true | _ => false end.
Definition is_timed_out (o : HandshakeOutcome) : bool := match o with TimedOut => true | _ => false end.

(** The two options the core obeys. *)
Context (validation : bool) (concurrent : Z).

(** [seen] has been taken from the core, [ts] are the attempts it holds. *)
Record good seen self (ts : list Tag) : Prop := {
  g_accepted : accepted (stats self) = next_id self /\ 0 <= next_id self;
  g_ids : NoDup (map id (seen ++ pending self) ++ undecided ts);
  g_range : Forall (fun i => 1 <= i <= next_id self) (map id (seen ++ pending self) ++ map t_id ts);
  g_completed : completed (stats self) = counted is_completed (seen ++ pending self);
  g_failed : failed (stats self) = counted is_failed (seen ++ pending self);
  g_timed_out : timed_out (stats self) = counted is_timed_out (seen ++ pending self);
  g_validated : core_validation self = true ->
    Forall (fun o => peer_address_validated o = true) (seen ++ pending self) /\ Forall (fun t => t_validated t = true) ts;
  g_concurrent : 0 <= core_concurrent self /\ zlen (undecided ts) <= core_concurrent self;
  g_config : core_validation self = validation /\ core_concurrent self = concurrent
}.

Definition tags (m : gmap Z Attempt) : list Tag := map tag (map_to_list m).*2.

Definition inv seen self : Prop := good seen self (tags (attempts self)).

Lemma undecided_perm ts ts' : Permutation ts ts' -> Permutation (undecided ts) (undecided ts').
Proof. intros Hp. unfold undecided. apply Permutation_map. induction Hp; cbn; repeat case_match; eauto using Permutation. Qed.

Lemma good_perm seen self ts ts' : Permutation ts ts' -> good seen self ts -> good seen self ts'.
Proof.
  intros Hp [H1 H2 H3 H4 H5 H6 H7 H8 H9]. pose proof (undecided_perm _ _ Hp) as Hu. split; try done.
  - by rewrite <- Hu.
  - by rewrite <- Hp.
  - intros Hv. destruct (H7 Hv). split; [done|]. by rewrite <- Hp.
  - unfold zlen in *. by rewrite <- Hu.
Qed.

(** What the invariant reads of the core. *)
Lemma good_same seen self self' ts :
  next_id self' = next_id self -> pending self' = pending self -> core_validation self' = core_validation self ->
  core_concurrent self' = core_concurrent self ->
  (accepted (stats self'), completed (stats self'), failed (stats self'), timed_out (stats self')) =
  (accepted (stats self), completed (stats self), failed (stats self), timed_out (stats self)) ->
  good seen self ts -> good seen self' ts.
Proof.
  intros E1 E2 E3 E4 E5 [H1 H2 H3 H4 H5 H6 H7 H8 H9]. injection E5 as Ea Ec Ef Et.
  split; rewrite ?E1, ?E2, ?E3, ?E4, ?Ea, ?Ec, ?Ef, ?Et; assumption.
Qed.

Lemma good_drop seen self t ts : good seen self (t :: ts) -> good seen self ts.
Proof.
  intros [H1 H2 H3 H4 H5 H6 H7 H8 H9]. split; try done.
  - unfold undecided in *. cbn in H2. destruct (negb _); [|done]. cbn in H2. eapply sublist_NoDup; [exact H2|].
    apply sublist_app; [done|]. by apply sublist_cons.
  - cbn in H3. apply Forall_app in H3 as [? H3]. apply Forall_app. split; [done|]. by inversion H3.
  - intros Hv. destruct (H7 Hv) as [? Hf]. split; [done|]. by inversion Hf.
  - unfold undecided in *. cbn in H8. destruct (negb _); [|done]. cbn in H8. rewrite zlen_cons in H8. lia.
Qed.

Lemma tags_insert k att (m : gmap Z Attempt) : Permutation (tags (<[k := att]> m)) (tag att :: tags (delete k m)).
Proof. unfold tags. rewrite <- insert_delete_eq, map_to_list_insert by apply lookup_delete_eq. done. Qed.

Lemma tags_lookup k att (m : gmap Z Attempt) : m !! k = Some att -> Permutation (tags m) (tag att :: tags (delete k m)).
Proof. intros Hk. rewrite <- tags_insert. by rewrite insert_id. Qed.

(** The attempt [att] taken out of the map, to be put back at [k]. *)
Definition held seen k self att : Prop := good seen self (tag att :: tags (delete k (attempts self))).

Lemma held_lookup seen k self att : attempts self !! k = Some att -> inv seen self -> held seen k self att.
Proof. intros Hk. apply good_perm. by apply tags_lookup. Qed.

Lemma held_insert seen k self att : held seen k self att -> inv seen (set_attempts (<[k := att]> (attempts self)) self).
Proof.
  intros Hh. unfold inv. cbn. eapply good_perm; [symmetry; apply tags_insert|]. eapply good_same; [..|exact Hh]; done.
Qed.

Lemma held_delete seen k self att : held seen k self att -> inv seen (set_attempts (delete k (attempts self)) self).
Proof. intros Hh%good_drop. unfold inv. cbn. eapply good_same; [..|exact Hh]; done. Qed.

Lemma held_same seen k self self' att att' :
  tag att' = tag att -> attempts self' = attempts self -> next_id self' = next_id self -> pending self' = pending self ->
  core_validation self' = core_validation self -> core_concurrent self' = core_concurrent self ->
  (accepted (stats self'), completed (stats self'), failed (stats self'), timed_out (stats self')) =
  (accepted (stats self), completed (stats self), failed (stats self), timed_out (stats self)) ->
  held seen k self att -> held seen k self' att'.
Proof. unfold held. intros -> -> ? ? ? ? ?. by apply good_same. Qed.

(** A decision moves the attempt's number from those in progress to the
    records, and is counted. *)
Lemma counted_app p l o : counted p (l ++ [o]) = counted p l + (if p (outcome o) then 1 else 0).
Proof. unfold counted. rewrite List.filter_app, zlen_app. cbn. by destruct (p (outcome o)). Qed.

Lemma held_decide seen k now (f : CoreStats -> CoreStats) self att :
  held seen k self att -> decided att = false ->
  let s := stats self in let o := outcome (obs att) in
  (accepted (f s), completed (f s), failed (f s), timed_out (f s)) =
    (accepted s, completed s + (if is_completed o then 1 else 0), failed s + (if is_failed o then 1 else 0),
     timed_out s + (if is_timed_out o then 1 else 0)) ->
  let r := QuicServer.decide now (on_stats f self) att in held seen k (fst r) (snd r).
Proof.
  intros [H1 H2 H3 H4 H5 H6 H7 H8 H9] Hd s o Hs r. subst s. injection Hs as Ea Ec Ef Et.
  unfold held. subst r. cbn [fst snd QuicServer.decide].
  set (rec := obs _). assert (id rec = id (obs att)) as Hi by done. assert (outcome rec = o) as Ho by done.
  assert (peer_address_validated rec = peer_address_validated (obs att)) as Hv by done.
  unfold undecided, tag in H2, H8. cbn [List.filter map t_decided t_id] in H2, H8. rewrite Hd in H2, H8. cbn [negb map] in H2, H8.
  split; cbn [next_id pending core_validation core_concurrent stats set_pending on_stats attempts].
  - by rewrite Ea.
  - rewrite app_assoc, map_app. cbn [map]. rewrite Hi. rewrite <- app_assoc. unfold undecided. cbn. exact H2.
  - rewrite app_assoc, map_app. cbn [map]. rewrite Hi. apply Forall_app in H3 as [H3 H3']. cbn [map] in H3'. apply Forall_cons in H3' as [? ?].
    apply Forall_app. split; [apply Forall_app; split; [done|by constructor]|]. by constructor.
  - rewrite Ec, app_assoc, counted_app, Ho. by rewrite H4.
  - rewrite Ef, app_assoc, counted_app, Ho. by rewrite H5.
  - rewrite Et, app_assoc, counted_app, Ho. by rewrite H6.
  - intros Hval. destruct (H7 Hval) as [F1 F2]. apply Forall_cons in F2 as [? ?]. rewrite app_assoc. split; [|by constructor].
    apply Forall_app. split; [done|]. constructor; [|done]. by rewrite Hv.
  - split; [lia|]. unfold undecided. cbn. rewrite zlen_cons in H8. unfold undecided in *. lia.
  - done.
Qed.

(** ** The operations *)

Lemma held_deliver seen k ev self att : held seen k self att -> held seen k (fst (deliver ev self att)) (snd (deliver ev self att)).
Proof. unfold deliver. destruct (conn_event _ ev (conn att)) as [c calls]. by apply held_same. Qed.

Lemma held_events_endpoint seen k fuel self att self' att' :
  held seen k self att -> endpoint_events fuel self att = Done (self', att') -> held seen k self' att'.
Proof.
  revert self att. induction fuel as [|fuel IH]; intros self att Hh; [done|]. cbn [endpoint_events].
  destruct (conn_poll_endpoint_events (conn att)) as [c [ev|]]; [|intros [= <- <-]; by eapply held_same; [..|exact Hh]].
  destruct (endpoint_event _ ev _) as [e [ce|]].
  - destruct (deliver ce _ _) as [s a] eqn:Ed. apply IH.
    pose proof (held_deliver seen k ce (set_endpoint e self) (QuicServer.set_conn c att)) as Hd. rewrite Ed in Hd. apply Hd.
    by eapply held_same; [..|exact Hh].
  - apply IH. by eapply held_same; [..|exact Hh].
Qed.

Lemma held_connected seen k now self att :
  held seen k self att -> held seen k (fst (on_connected now self att)) (snd (on_connected now self att)).
Proof.
  intros Hh. unfold on_connected.
  assert (exists a, read_handshake_data att = a /\ tag a = tag att) as (a & -> & Ha).
  { eexists. split; [done|]. unfold read_handshake_data. by destruct (conn_handshake_data (conn att)). }
  assert (held seen k self a) as Hh' by (by eapply held_same; [..|exact Hh]). clear Hh Ha.
  destruct (decided a) eqn:Ed; cbn [negb].
  - cbn [fst snd]. by eapply held_same; [..|exact Hh'].
  - set (a' := on_obs _ a). assert (held seen k self a') as Hh by (by eapply held_same; [..|exact Hh']).
    pose proof (held_decide seen k now count_completed self a' Hh Ed) as Hd. destruct (QuicServer.decide now _ a') as [s b].
    cbn [fst snd] in *. eapply held_same; [..|apply Hd]; [done..|]. cbn. by rewrite !Z.add_0_r.
Qed.

Lemma held_lost seen k now reason self att :
  held seen k self att -> held seen k (fst (on_lost now reason self att)) (snd (on_lost now reason self att)).
Proof.
  intros Hh. unfold on_lost. destruct (decided att) eqn:Ed; cbn [negb]; [done|]. set (a := on_obs _ att).
  apply held_decide; [by eapply held_same; [..|exact Hh]|done|]. cbn. by rewrite !Z.add_0_r.
Qed.

Lemma held_events seen k fuel now self att self' att' :
  held seen k self att -> events fuel now self att = Done (self', att') -> held seen k self' att'.
Proof.
  revert self att. induction fuel as [|fuel IH]; intros self att Hh; [done|]. cbn [events].
  destruct (conn_poll (conn att)) as [c ev]. assert (held seen k self (QuicServer.set_conn c att)) as Hc by (by eapply held_same; [..|exact Hh]).
  destruct ev as [[| |reason| | |]|].
  - apply IH. eapply held_same; [..|exact Hc]; try done. unfold read_handshake_data. by destruct (conn_handshake_data _).
  - pose proof (held_connected seen k now self _ Hc) as Hd. destruct (on_connected now self _) as [s a]. by apply IH.
  - pose proof (held_lost seen k now reason self _ Hc) as Hd. destruct (on_lost now reason self _) as [s a]. by apply IH.
  - apply IH. by eapply held_same; [..|exact Hc].
  - apply IH. by eapply held_same; [..|exact Hc].
  - by apply IH.
  - by intros [= <- <-].
Qed.

Lemma held_transmits seen k fuel now self att out self' att' out' :
  held seen k self att -> transmits fuel now self att out = Done (self', att', out') -> held seen k self' att'.
Proof.
  revert self att out. induction fuel as [|fuel IH]; intros self att out Hh; [done|]. cbn [transmits].
  destruct (conn_poll_transmit now (conn att)) as [c [d|]].
  - apply IH. by eapply held_same; [..|exact Hh].
  - intros [= <- <- <-]. by eapply held_same; [..|exact Hh].
Qed.

Lemma server_drive_inv seen k fuel now self out self' out' : inv seen self -> drive fuel k now self out = Done (self', out') -> inv seen self'.
Proof.
  intros Hi. unfold drive. destruct (attempts self !! k) as [att|] eqn:Ek; [|by intros [= <- <-]].
  pose proof (held_lookup seen k self att Ek Hi) as H0.
  intros ([s1 a1] & H1 & ([s2 a2] & H2 & ([[s3 a3] o3] & H3 & ([s4 a4] & H4 & [= <- <-])%run_bind_done)%run_bind_done)%run_bind_done)%run_bind_done.
  cbn [fst snd] in *. apply (held_events_endpoint seen k) in H1; [|done]. apply (held_events seen k) in H2; [|done].
  apply (held_transmits seen k) in H3; [|done]. apply (held_events_endpoint seen k) in H4; [|done].
  destruct (conn_is_drained (conn a4)); [by eapply held_delete|by apply held_insert].
Qed.

Lemma inv_same seen self self' :
  attempts self' = attempts self -> next_id self' = next_id self -> pending self' = pending self ->
  core_validation self' = core_validation self -> core_concurrent self' = core_concurrent self ->
  (accepted (stats self'), completed (stats self'), failed (stats self'), timed_out (stats self')) =
  (accepted (stats self), completed (stats self), failed (stats self), timed_out (stats self)) ->
  inv seen self -> inv seen self'.
Proof. unfold inv. intros ->. apply good_same. Qed.

Lemma inv_attach seen k self : inv seen self -> inv seen (attach_hello k self).
Proof.
  intros Hi. unfold attach_hello, take_hello. destruct (slot self) as [rec|]; [|by eapply inv_same; [..|exact Hi]].
  destruct (attempts (set_slot None self) !! k) as [att|] eqn:Ek; [|by eapply inv_same; [..|exact Hi]].
  apply held_insert. eapply held_same; [..|eapply held_lookup; [exact Ek|by eapply inv_same; [..|exact Hi]]]; done.
Qed.

(** *** A new attempt *)

Lemma handshaking_undecided self : handshaking self = zlen (undecided (tags (attempts self))).
Proof.
  unfold handshaking, undecided, tags. generalize (map_to_list (attempts self)).*2 as l. induction l as [|a l IH]; [done|].
  cbn. destruct (decided a); cbn; [done|]. rewrite !zlen_cons. lia.
Qed.

Lemma inv_delete seen k self : inv seen self -> good seen self (tags (delete k (attempts self))).
Proof.
  intros Hi. destruct (attempts self !! k) as [att|] eqn:Ek; [|by rewrite delete_id].
  eapply good_drop, good_perm, Hi. by apply tags_lookup.
Qed.

Lemma undecided_delete k (m : gmap Z Attempt) : zlen (undecided (tags (delete k m))) <= zlen (undecided (tags m)).
Proof.
  destruct (m !! k) as [att|] eqn:Ek; [|rewrite delete_id by done; lia].
  assert (zlen (undecided (tags m)) = zlen (undecided (tag att :: tags (delete k m)))) as ->.
  { unfold zlen. by rewrite (undecided_perm _ _ (tags_lookup k att m Ek)). }
  unfold undecided. cbn. destruct (decided att); cbn; [lia|]. rewrite zlen_cons. lia.
Qed.

(** The number of a new attempt is its own. *)
Lemma fresh_id seen self ts : good seen self ts ->
  (next_id self + 1) ∉ (map id (seen ++ pending self) ++ undecided ts).
Proof.
  intros Hg Hin. pose proof (g_range _ _ _ Hg) as Hr. rewrite Forall_forall in Hr.
  enough (next_id self + 1 ∈ map id (seen ++ pending self) ++ map t_id ts) as Hx by (specialize (Hr _ Hx); lia).
  apply elem_of_app in Hin as [Hin|Hin]; apply elem_of_app; [by left|right]. unfold undecided in Hin.
  apply list_elem_of_In, in_map_iff in Hin as (t & <- & Ht). apply filter_In in Ht as [Ht _]. apply list_elem_of_In, in_map_iff. by exists t.
Qed.

Definition admitted_core self : ServerCore := set_next_id (next_id self + 1) (on_stats count_accepted self).

Lemma range_wider seen self ts (l : list Z) :
  good seen self ts -> Forall (fun i => 1 <= i <= next_id self) l -> Forall (fun i => 1 <= i <= next_id self + 1) l.
Proof. intros _ Hf. eapply Forall_impl; [exact Hf|]. cbn. lia. Qed.

Lemma good_new seen self ts v :
  good seen self ts -> zlen (undecided ts) < core_concurrent self -> (core_validation self = true -> v = true) ->
  good seen (admitted_core self) (mkTag false (next_id self + 1) v :: ts).
Proof.
  intros Hg Hu Hv. pose proof (fresh_id _ _ _ Hg) as Hf. pose proof (g_range _ _ _ Hg) as Hr.
  apply (range_wider _ _ _ _ Hg) in Hr. destruct Hg as [[H1 Hn] H2 H3 H4 H5 H6 H7 H8 H9].
  split; cbn [admitted_core next_id set_next_id on_stats stats pending core_validation core_concurrent count_accepted accepted completed failed timed_out]; try done.
  - split; [by rewrite H1|lia].
  - unfold undecided in *. cbn. apply NoDup_app. apply NoDup_app in H2 as (N1 & N2 & N3).
    split; [done|]. split.
    + intros x Hx Hc. apply elem_of_cons in Hc as [->|Hc]; [|by apply (N2 x)]. apply Hf. apply elem_of_app. by left.
    + constructor; [|done]. intros Hc. apply Hf. apply elem_of_app. by right.
  - apply Forall_app in Hr as [R1 R2]. apply Forall_app. split; [done|]. cbn. constructor; [lia|done].
  - intros Hc. destruct (H7 Hc). split; [done|]. constructor; [by apply Hv|done].
  - split; [lia|]. unfold undecided in *. cbn. rewrite zlen_cons. lia.
Qed.

Lemma good_refused seen self ts rec :
  good seen self ts -> id rec = next_id self + 1 -> is_failed (outcome rec) = true ->
  (core_validation self = true -> peer_address_validated rec = true) ->
  good seen (set_pending (pending self ++ [rec]) (on_stats count_failed (admitted_core self))) ts.
Proof.
  intros Hg Hi Ho Hv. pose proof (fresh_id _ _ _ Hg) as Hf. pose proof (g_range _ _ _ Hg) as Hr.
  apply (range_wider _ _ _ _ Hg) in Hr. destruct Hg as [[H1 Hn] H2 H3 H4 H5 H6 H7 H8 H9].
  assert (is_completed (outcome rec) = false /\ is_timed_out (outcome rec) = false) as [Hc Ht] by (by destruct (outcome rec)).
  split; cbn [set_pending admitted_core next_id set_next_id on_stats stats pending core_validation core_concurrent count_accepted count_failed
    accepted completed failed timed_out]; rewrite ?(app_assoc seen (pending self) [rec]), ?counted_app, ?Ho, ?Hc, ?Ht, ?Z.add_0_r; try done.
  - split; [by rewrite H1|lia].
  - rewrite map_app, <- app_assoc. cbn [map]. rewrite Hi. apply NoDup_app in H2 as (N1 & N2 & N3). apply NoDup_app. split; [done|]. split.
    + intros x Hx Hc'. apply elem_of_app in Hc' as [->%list_elem_of_singleton|Hc']; [|by apply (N2 x)].
      apply Hf. apply elem_of_app. by left.
    + cbn. constructor; [|done]. intros Hc'. apply Hf. apply elem_of_app. by right.
  - apply Forall_app in Hr as [R1 R2]. apply Forall_app. split; [|done]. rewrite map_app. apply Forall_app. split; [done|].
    cbn. rewrite Hi. constructor; [lia|done].
  - by rewrite H5.
  - intros Hc'. destruct (H7 Hc') as [F1 F2]. split; [|done]. apply Forall_app. split; [done|]. constructor; [by apply Hv|done].
Qed.

Lemma inv_incoming seen fuel wall i now self out self' out' :
  inv seen self -> handle_incoming fuel wall i now self out = Done (self', out') -> inv seen self'.
Proof.
  intros Hi0. unfold handle_incoming. set (s0 := on_stats count_incoming self).
  assert (inv seen s0) as Hi by (by eapply inv_same; [..|exact Hi0]). clearbody s0. clear Hi0 self.
  destruct (core_validation s0 && negb (incoming_validated i)) eqn:Ev.
  { destruct (endpoint_retry i (endpoint s0)) as [e [t|i']]; intros [= <- <-]; by eapply inv_same; [..|exact Hi]. }
  destruct (negb (accepting s0) || (core_concurrent s0 <=? handshaking s0)) eqn:Ea.
  { destruct (endpoint_refuse i (endpoint s0)) as [e t]. intros [= <- <-]. by eapply inv_same; [..|exact Hi]. }
  apply orb_false_iff in Ea as [_ Ea]. rewrite handshaking_undecided in Ea.
  assert (core_validation s0 = true -> incoming_validated i = true) as Hv by (intros E; rewrite E in Ev; by destruct (incoming_validated i)).
  change (set_next_id (next_id s0 + 1) (on_stats count_accepted s0)) with (admitted_core s0).
  destruct (endpoint_accept now i (endpoint (admitted_core s0))) as [[e [[ch conn]|[cause response]]] calls].
  - apply server_drive_inv, inv_attach. unfold inv. cbn [attempts set_attempts]. eapply good_perm; [symmetry; apply tags_insert|].
    eapply good_same; [..|apply (good_new seen s0 _ (incoming_validated i))]; try done.
    + exact (inv_delete seen ch s0 Hi).
    + pose proof (undecided_delete ch (attempts s0)) as Hu. eapply Z.le_lt_trans; [exact Hu|lia].
  - unfold take_hello. set (s1 := set_slot (hellos _ _ _) _).
    assert (forall rec, id rec = next_id s0 + 1 -> is_failed (outcome rec) = true -> peer_address_validated rec = incoming_validated i ->
      inv seen (set_pending (pending s0 ++ [rec]) (on_stats count_failed (admitted_core s0)))) as Hg.
    { intros rec H1 H2 H3. apply good_refused; try done. by rewrite H3. }
    set (rec := set_close NotEstablished (set_outcome (AcceptFailed cause) (set_offered (slot s1) (new_observation wall i (admitted_core s0))))).
    specialize (Hg rec eq_refl eq_refl eq_refl). destruct response as [t|]; intros [= <- <-].
    + refine (inv_same seen _ (set_pending (pending s0 ++ [rec]) _) _ _ _ _ _ _ Hg); reflexivity.
    + refine (inv_same seen _ (set_pending (pending s0 ++ [rec]) _) _ _ _ _ _ _ Hg); reflexivity.
Qed.

Lemma inv_datagram seen fuel wall now remote data self out self' out' :
  inv seen self -> handle_datagram fuel wall now remote data self out = Done (self', out') -> inv seen self'.
Proof.
  intros Hi. unfold handle_datagram. destruct (endpoint_handle _ _ _ _ _) as [e event].
  set (s1 := set_endpoint e _). assert (inv seen s1) as Hi1 by (by eapply inv_same; [..|exact Hi]). clearbody s1. clear Hi.
  destruct event as [[ch ev|i|t]|].
  - destruct (attempts s1 !! ch) as [att|] eqn:Ek; [|by intros [= <- <-]].
    pose proof (held_deliver seen ch ev s1 att (held_lookup _ _ _ _ Ek Hi1)) as Hd. destruct (deliver ev s1 att) as [s2 a2].
    apply server_drive_inv, inv_attach, held_insert, Hd.
  - by apply inv_incoming.
  - intros [= <- <-]. eapply inv_same; [..|exact Hi1]; try done. by destruct (classify _).
  - by intros [= <- <-].
Qed.

Lemma held_timeout seen k now self att :
  held seen k self att -> held seen k (fst (timeout_one now self att)) (snd (timeout_one now self att)).
Proof.
  intros Hh. unfold timeout_one.
  assert (exists a, (if match conn_poll_timeout (conn att) with Some t => t <=? now | None => false end
    then QuicServer.set_conn (conn_handle_timeout now (conn att)) att else att) = a /\ tag a = tag att) as (a & -> & Ht)
    by (eexists; split; [done|]; by case_match).
  assert (held seen k self a) as Ha by (by eapply held_same; [..|exact Hh]). clear Hh Ht att. cbv zeta.
  destruct (negb (decided a) && (deadline a <=? now) && negb (conn_is_closed (conn a))) eqn:E; [|done].
  apply andb_true_iff in E as [E _]. apply andb_true_iff in E as [E _]. apply negb_true_iff in E.
  apply held_decide; [by eapply held_same; [..|exact Ha]|done|]. cbn. by rewrite !Z.add_0_r.
Qed.

Lemma inv_timeouts seen fuel now keys self out self' out' :
  inv seen self -> timeouts fuel now keys self out = Done (self', out') -> inv seen self'.
Proof.
  revert self out. induction keys as [|key keys IH]; intros self out Hi; [by intros [= <- <-]|]. cbn [timeouts].
  destruct (attempts self !! key) as [att|] eqn:Ek; [|by apply IH].
  pose proof (held_timeout seen key now self att (held_lookup _ _ _ _ Ek Hi)) as Hd. destruct (timeout_one now self att) as [s a].
  intros ([s1 o1] & H1 & Hr)%run_bind_done. eapply IH, Hr. eapply server_drive_inv, H1. by apply held_insert.
Qed.

Lemma held_shutdown seen k now self att :
  held seen k self att -> held seen k (fst (fst (shutdown_one now self att))) (snd (fst (shutdown_one now self att))).
Proof.
  intros Hh. unfold shutdown_one. destruct (decided att) eqn:Ed; cbn [negb]; [done|]. set (a := on_obs _ _).
  apply (held_decide seen k now (fun s => s) self a); [by eapply held_same; [..|exact Hh]|done|]. cbn. by rewrite !Z.add_0_r.
Qed.

Lemma inv_shutdowns seen fuel now keys n self out self' out' n' :
  inv seen self -> shutdowns fuel now keys n self out = Done (self', out', n') -> inv seen self'.
Proof.
  revert n self out. induction keys as [|key keys IH]; intros n self out Hi; [by intros [= <- <- <-]|]. cbn [shutdowns].
  destruct (attempts self !! key) as [att|] eqn:Ek; [|by apply IH].
  pose proof (held_shutdown seen key now self att (held_lookup _ _ _ _ Ek Hi)) as Hd. destruct (shutdown_one now self att) as [[s a] m].
  intros ([s1 o1] & H1 & Hr)%run_bind_done. eapply IH, Hr. eapply server_drive_inv, H1. by apply held_insert.
Qed.

(** ** Runs *)

(** What can happen to a core, with the observations taken from it so far. *)
Inductive core_step : ServerCore * list (HandshakeObservation A) -> ServerCore * list (HandshakeObservation A) -> Prop :=
| step_datagram fuel wall now remote data self out self' out' seen :
    handle_datagram fuel wall now remote data self out = Done (self', out') -> core_step (self, seen) (self', seen)
| step_timeouts fuel now self out self' out' seen :
    handle_timeouts fuel now self out = Done (self', out') -> core_step (self, seen) (self', seen)
| step_drain self seen : core_step (self, seen) (fst (drain_observations self), seen ++ snd (drain_observations self))
| step_stop self seen : core_step (self, seen) (stop_accepting self, seen)
| step_shutdown fuel now self out self' out' n seen :
    shutdown fuel now self out = Done (self', out', n) -> core_step (self, seen) (self', seen).

Lemma inv_step self seen self' seen' : core_step (self, seen) (self', seen') -> inv seen self -> inv seen' self'.
Proof.
  intros Hs. remember (self, seen) as x. remember (self', seen') as y. revert self seen self' seen' Heqx Heqy.
  destruct Hs as [fuel wall now remote data s out s' out' l Hs|fuel now s out s' out' l Hs|s l|s l|fuel now s out s' out' n l Hs];
    intros self seen self' seen' [= <- <-] [= <- <-] Hi.
  - by eapply inv_datagram.
  - by eapply inv_timeouts.
  - destruct Hi as [H1 H2 H3 H4 H5 H6 H7 H8 H9]. split; cbn; rewrite ?app_nil_r; done.
  - by eapply inv_same; [..|exact Hi].
  - eapply inv_shutdowns, Hs. by eapply inv_same; [..|exact Hi].
Qed.

End server.

Section records.
Context `{R : Rustls, Sg : !Signing, Rc : Rcgen, H : Hash} {A : Type} `{Q : !Quinn A} `{QS : !QuinnServer A} `{HO : HashOrder}.
Implicit Types (self : ServerCore) (att : Attempt) (out : list (Datagram A)) (seen : list (HandshakeObservation A)).

Definition reachable_core (config : DiagServerConfig) (bound : A) self seen : Prop :=
  exists first, core_new config bound = Ok first /\ rtc core_step (first, []) (self, seen).

Lemma server_new_inv config bound first :
  0 <= max_concurrent config -> core_new config bound = Ok first -> inv (require_validation config) (max_concurrent config) [] first.
Proof.
  intros Hm. unfold core_new. destruct (validate config) as [[]|]; [|done]. cbn [rbind].
  destruct (server_crypto _ _ _) as [c|]; [|done]. cbn [rbind]. destruct (transport_config _) as [t|]; [|done]. intros [= <-].
  unfold inv, tags. cbn. rewrite map_to_list_empty. split; cbn; try done. constructor.
Qed.

Lemma server_reachable_inv config bound self seen :
  0 <= max_concurrent config -> reachable_core config bound self seen -> inv (require_validation config) (max_concurrent config) seen self.
Proof.
  intros Hm (first & Hn & Hr). pose proof (server_new_inv _ _ _ Hm Hn) as Hi.
  enough (forall x y, rtc core_step x y -> inv (require_validation config) (max_concurrent config) (snd x) (fst x) ->
    inv (require_validation config) (max_concurrent config) (snd y) (fst y)) as Hall by (by apply (Hall _ _ Hr)).
  clear. induction 1 as [x|[s l] [s' l'] z Hs _ IH]; [done|]. intros Hi. apply IH. by eapply inv_step.
Qed.

Lemma quic_server_records_inv config bound self seen :
  0 <= max_concurrent config -> reachable_core config bound self seen ->
  let recs := seen ++ pending self in
  NoDup (map id recs) /\ Forall (fun o => 1 <= id o <= accepted (stats self)) recs /\
  completed (stats self) = counted is_completed recs /\ failed (stats self) = counted is_failed recs /\
  timed_out (stats self) = counted is_timed_out recs /\
  (require_validation config = true -> Forall (fun o => peer_address_validated o = true) recs) /\
  handshaking self <= max_concurrent config.
Proof.
  intros Hm Hr recs. destruct (server_reachable_inv _ _ _ _ Hm Hr) as [[H1 Hn] H2 H3 H4 H5 H6 H7 H8 [Hv Hc]].
  apply NoDup_app in H2 as (N1 & N2 & N3). split_and!; try done.
  - rewrite H1. apply Forall_app in H3 as [H3 _]. rewrite Forall_map in H3. exact H3.
  - intros Hrv. rewrite Hv in H7. by apply H7.
  - rewrite handshaking_undecided. lia.
Qed.

(** The records of a QUIC server are sound, whatever the peers and
    quinn-proto do: every record, taken or pending, has a number of its own
    between 1 and the number of accepted attempts; an attempt still in progress
    has none; the counters of completed, failed and timed-out handshakes are the
    numbers of records that say so; with [require_validation] every record is of
    a validated address; and at most [max_concurrent] handshakes are in
    progress. *)
Theorem quic_server_records config bound self seen :
  0 <= max_concurrent config -> reachable_core config bound self seen ->
  let recs := seen ++ pending self in
  NoDup (map id recs) /\ Forall (fun o => 1 <= id o <= accepted (stats self)) recs /\
  (forall k att, attempts self !! k = Some att -> decided att = false -> id (obs att) ∉ map id recs) /\
  completed (stats self) = counted is_completed recs /\ failed (stats self) = counted is_failed recs /\
  timed_out (stats self) = counted is_timed_out recs /\
  (require_validation config = true -> Forall (fun o => peer_address_validated o = true) recs) /\
  handshaking self <= max_concurrent config.
Proof.
  intros Hm Hr recs. destruct (quic_server_records_inv _ _ _ _ Hm Hr) as (R1 & R2 & R3 & R4 & R5 & R6 & R7). split_and!; try done.
  pose proof (g_ids _ _ _ _ _ (server_reachable_inv _ _ _ _ Hm Hr)) as (_ & N2 & _)%NoDup_app.
  intros k att Hk Hd Hin. apply (N2 _ Hin). unfold undecided. apply list_elem_of_In, in_map_iff. exists (tag att). split; [done|].
  apply filter_In. split; [|by cbn; rewrite Hd]. unfold tags. apply in_map_iff. exists att. split; [done|].
  apply list_elem_of_In, list_elem_of_fmap. exists (k, att). split; [done|]. by apply elem_of_map_to_list.
Qed.
End records.

(** ** A shutdown loses no attempt *)

Section shutdown.
Context `{R : Rustls, Sg : !Signing, Rc : Rcgen, H : Hash} {A : Type} `{Q : !Quinn A} `{QS : !QuinnServer A} `{HO : HashOrder}.
Implicit Types (self : ServerCore) (att : Attempt) (out : list (Datagram A)) (x : ServerCore * Attempt).

(** Work on one attempt leaves the others alone, keeps the pending records and
    takes no decision back. *)
Definition grows x x' : Prop :=
  attempts (fst x') = attempts (fst x) /\ (exists l, pending (fst x') = pending (fst x) ++ l) /\
  (decided (snd x) = true -> decided (snd x') = true).

Lemma grows_same x x' :
  attempts (fst x') = attempts (fst x) -> pending (fst x') = pending (fst x) -> decided (snd x') = decided (snd x) -> grows x x'.
Proof. intros E1 E2 E3. split; [done|]. rewrite E2, E3. split; [|done]. exists []. by rewrite app_nil_r. Qed.

#[local] Instance grows_preorder : PreOrder grows.
Proof.
  split; [intros x; by apply grows_same|]. intros x y z (H1 & (l & H2) & H3) (H4 & (m & H5) & H6). split; [congruence|].
  split; [|auto]. exists (l ++ m). by rewrite H5, H2, app_assoc.
Qed.

Lemma grows_decide now (f : CoreStats -> CoreStats) self att : grows (self, att) (QuicServer.decide now (on_stats f self) att).
Proof. split; [done|]. split; [by eexists|done]. Qed.

Lemma grows_deliver ev self att : grows (self, att) (deliver ev self att).
Proof. unfold deliver. destruct (conn_event _ ev (conn att)) as [c calls]. by apply grows_same. Qed.

Lemma grows_endpoint_events fuel self att x : endpoint_events fuel self att = Done x -> grows (self, att) x.
Proof.
  revert self att. induction fuel as [|fuel IH]; intros self att; [done|]. cbn [endpoint_events].
  destruct (conn_poll_endpoint_events (conn att)) as [c [ev|]]; [|by intros [= <-]; apply grows_same].
  destruct (endpoint_event _ ev _) as [e [ce|]].
  - destruct (deliver ce _ _) as [s a] eqn:Ed. intros Hd. transitivity (set_endpoint e self, QuicServer.set_conn c att); [by apply grows_same|].
    transitivity (s, a); [rewrite <- Ed; apply grows_deliver|by apply IH].
  - intros Hd. transitivity (set_endpoint e self, QuicServer.set_conn c att); [by apply grows_same|by apply IH].
Qed.

Lemma grows_connected now self att : grows (self, att) (on_connected now self att).
Proof.
  unfold on_connected. transitivity (self, read_handshake_data att).
  { apply grows_same; try done. unfold read_handshake_data. by destruct (conn_handshake_data _). }
  generalize (read_handshake_data att) as a. intros a. destruct (decided a) eqn:Ed; cbn [negb]; [by apply grows_same|].
  set (a' := on_obs _ a). transitivity (QuicServer.decide now (on_stats count_completed self) a'); [|by apply grows_same].
  transitivity (self, a'); [by apply grows_same|apply grows_decide].
Qed.

Lemma grows_lost now reason self att : grows (self, att) (on_lost now reason self att).
Proof.
  unfold on_lost. destruct (decided att) eqn:Ed; cbn [negb]; [done|]. set (a := on_obs _ att).
  transitivity (self, a); [by apply grows_same|apply grows_decide].
Qed.

Lemma grows_events fuel now self att x : events fuel now self att = Done x -> grows (self, att) x.
Proof.
  revert self att. induction fuel as [|fuel IH]; intros self att; [done|]. cbn [events].
  destruct (conn_poll (conn att)) as [c ev]. intros Hd. transitivity (self, QuicServer.set_conn c att); [by apply grows_same|].
  revert Hd. destruct ev as [[| |reason| | |]|].
  - intros Hd%IH. etransitivity; [|exact Hd]. apply grows_same; try done. unfold read_handshake_data. by destruct (conn_handshake_data _).
  - destruct (on_connected now self _) as [s a] eqn:E. intros Hd%IH. etransitivity; [|exact Hd]. rewrite <- E. apply grows_connected.
  - destruct (on_lost now reason self _) as [s a] eqn:E. intros Hd%IH. etransitivity; [|exact Hd]. rewrite <- E. apply grows_lost.
  - intros Hd%IH. etransitivity; [|exact Hd]. by apply grows_same.
  - intros Hd%IH. etransitivity; [|exact Hd]. by apply grows_same.
  - apply IH.
  - by intros [= <-].
Qed.

Lemma grows_transmits fuel now self att out x out' : transmits fuel now self att out = Done (x, out') -> grows (self, att) x.
Proof.
  revert self att out. induction fuel as [|fuel IH]; intros self att out; [done|]. cbn [transmits].
  destruct (conn_poll_transmit now (conn att)) as [c [d|]].
  - intros Hd%IH. etransitivity; [|exact Hd]. by apply grows_same.
  - intros [= <- <-]. by apply grows_same.
Qed.

Lemma drive_spec fuel k now self out self' out' :
  drive fuel k now self out = Done (self', out') ->
  (forall j, j <> k -> attempts self' !! j = attempts self !! j) /\ (exists l, pending self' = pending self ++ l) /\
  (forall att, attempts self !! k = Some att -> decided att = true ->
     forall att', attempts self' !! k = Some att' -> decided att' = true).
Proof.
  unfold drive. destruct (attempts self !! k) as [att|] eqn:Ek; [|intros [= <- <-]; split_and!; [done|exists []; by rewrite app_nil_r|done]].
  intros ([s1 a1] & H1%grows_endpoint_events & ([s2 a2] & H2%grows_events & ([[s3 a3] o3] & H3%grows_transmits
    & ([s4 a4] & H4%grows_endpoint_events & [= <- <-])%run_bind_done)%run_bind_done)%run_bind_done)%run_bind_done.
  cbn [fst snd] in *. assert (grows (self, att) (s4, a4)) as (Ha & Hp & Hd) by (repeat (etransitivity; [eassumption|]); reflexivity).
  cbn [fst snd] in *. cbn [attempts set_attempts pending]. rewrite Ha. split_and!; [|exact Hp|].
  - intros j Hj. destruct (conn_is_drained _); [by rewrite lookup_delete_ne|by rewrite lookup_insert_ne].
  - intros att0 [= <-] Hd0 att'. destruct (conn_is_drained _); [by rewrite lookup_delete_eq|]. rewrite lookup_insert_eq. intros [= <-]. auto.
Qed.

Lemma shutdowns_spec fuel now keys n self out self' out' n' :
  NoDup keys -> shutdowns fuel now keys n self out = Done (self', out', n') ->
  (forall j, j ∉ keys -> attempts self' !! j = attempts self !! j) /\ (exists l, pending self' = pending self ++ l) /\
  (forall k att', k ∈ keys -> attempts self' !! k = Some att' -> decided att' = true) /\
  (forall k att, k ∈ keys -> attempts self !! k = Some att -> decided att = false -> id (obs att) ∈ map id (pending self')).
Proof.
  revert n self out. induction keys as [|key keys IH]; intros n self out Hnd.
  { intros [= <- <- <-]. split_and!; [done|exists []; by rewrite app_nil_r|by intros ? ? ?%elem_of_nil..]. }
  apply NoDup_cons in Hnd as [Hnk Hnd]. cbn [shutdowns]. destruct (attempts self !! key) as [att|] eqn:Ek.
  2:{ intros (I1 & I2 & I3 & I4)%IH; [|done]. split_and!; [|done| |].
      - intros j [Hj Hj']%not_elem_of_cons. by apply I1.
      - intros k att' [->|Hk]%elem_of_cons; [|by eapply I3]. by rewrite I1, Ek.
      - intros k att [->|Hk]%elem_of_cons; [by rewrite Ek|by apply I4]. }
  assert (exists s a m, shutdown_one now self att = (s, a, m) /\ attempts s = attempts self /\ decided a = true /\ id (obs a) = id (obs att) /\
    (exists l, pending s = pending self ++ l) /\ (decided att = false -> id (obs att) ∈ map id (pending s))) as (s & a & m & -> & Es & Ed & _ & [l Ep] & Hrec).
  { unfold shutdown_one. destruct (decided att) eqn:Ed; cbn [negb].
    - eexists _, _, _. split_and!; try done. exists []. by rewrite app_nil_r.
    - eexists _, _, _. split_and!; try done; [by eexists|]. intros _. cbn. rewrite map_app. apply elem_of_app. right. by apply list_elem_of_singleton. }
  intros ([s1 o1] & (D1 & (l1 & D2) & D3)%drive_spec & Hr)%run_bind_done. cbn [fst snd attempts set_attempts pending] in *.
  apply IH in Hr as (I1 & (l2 & I2) & I3 & I4); [|done]. split_and!.
  - intros j [Hj Hj']%not_elem_of_cons. rewrite I1, D1 by done. rewrite lookup_insert_ne by done. by rewrite Es.
  - exists (l ++ l1 ++ l2). by rewrite I2, D2, Ep, !app_assoc.
  - intros k att' [->|Hk]%elem_of_cons; [|by eapply I3]. rewrite I1 by done. eapply D3; [apply lookup_insert_eq|done].
  - intros k att0 [->|Hk]%elem_of_cons Hk0 Hd0.
    + rewrite Ek in Hk0. injection Hk0 as <-. rewrite I2, D2, !map_app. do 2 (apply elem_of_app; left). by apply Hrec.
    + apply (I4 k att0); [done| |done]. rewrite D1 by (by intros ->). rewrite lookup_insert_ne by (by intros ->). by rewrite Es.
Qed.

Lemma shutdown_spec fuel now self out self' out' n :
  shutdown fuel now self out = Done (self', out', n) ->
  handshaking self' = 0 /\ (exists l, pending self' = pending self ++ l) /\
  (forall k att, attempts self !! k = Some att -> decided att = false -> id (obs att) ∈ map id (pending self')).
Proof.
  unfold shutdown. intros Hs. apply shutdowns_spec in Hs as (S1 & S2 & S3 & S4).
  2:{ rewrite keys_perm. apply NoDup_fst_map_to_list. }
  assert (forall k, k ∈ keys_of (attempts self) <-> is_Some (attempts self !! k)) as Hk.
  { intros k. rewrite keys_perm, list_elem_of_fmap. split.
    - intros ([k' a] & -> & Ha%elem_of_map_to_list). by exists a.
    - intros [a Ha]. exists (k, a). split; [done|]. by apply elem_of_map_to_list. }
  cbn [attempts set_accepting pending] in *. split_and!; try done.
  - rewrite handshaking_undecided. unfold undecided, tags.
    assert (Forall (fun a => decided a = true) (map_to_list (attempts self')).*2) as Hall.
    { apply Forall_forall. intros a Ha. apply list_elem_of_fmap in Ha as ([k a'] & -> & Ha%elem_of_map_to_list).
      destruct (attempts self !! k) as [b|] eqn:Eb.
      - apply (S3 k a'); [by apply Hk; exists b|done].
      - rewrite S1 in Ha; [congruence|]. rewrite Hk, Eb. by intros [? ?]. }
    induction Hall as [|a l Ha _ IH]; [done|]. cbn. by rewrite Ha.
  - intros k att Ha Hd. apply (S4 k att); [by apply Hk; exists att|done|done].
Qed.

Lemma quic_server_shutdown_none fuel now self out self' out' n :
  shutdown fuel now self out = Done (self', out', n) -> handshaking self' = 0.
Proof. by intros [? _]%shutdown_spec. Qed.
End shutdown.
