(* ===== verification/QuicRun.v ===== *)
(** * The QUIC server's loop

    Models [DiagServer] of crates/tatami_ssh_quic/src/diag/server.rs: binding, one
    step of the loop, and the whole run with its stop conditions, its bounded
    channel to the sink thread and its wind-down. What other threads do between
    two reads of the shared flags is the environment [ServerEnv]: every read,
    send and clock reading passes the world on. Counters are unbounded, and
    adding a duration to an instant does not overflow. *)

From stdpp Require Import gmap.
From S2P Require Import Prelude WireError NameList Primitives Messages KexInit KeyAlgorithm HostKey HostKeyProps.
From S2P Require Import Packet Gcm Transcript Trust Spki SpkiProps KnownHosts KnownHostsProps Text FacadeTrust Seam.
From S2P Require Import Display Durations QuicTls QuicClient HostSignature QuicIdentity QuicServer.

Open Scope Z_scope.

Module QuicRun.
Import Display Quic QuicIdentity QuicServer.

(* quic/diag/server.rs:371-388 Summary *)
Record Summary {A : Type} : Type := mkSummary {
  sum_bound : A;
  sum_identity : PresentedIdentity;
  sum_stats : CoreStats;
  records_dropped : Z;
  abandoned : Z;
  reason : StopReason;
  error : option bytes;
  sum_elapsed : Z
}.
Arguments Summary : clear implicits.
Arguments mkSummary {A}.

(* quic/diag/server.rs:392-414 ServerEvent *)
Inductive ServerEvent {A : Type} : Type :=
| Started (bound : A) (identity : PresentedIdentity) (alpn : list bytes)
| ConnectionRecord (o : HandshakeObservation A)
| Overload (dropped_since_last total_dropped : Z)
| Stopped (s : Summary A).
Arguments ServerEvent : clear implicits.

Inductive SendResult : Type := Sent | Full | Disconnected.

(** The flags and the channel shared with the sink thread, and the wall clock. *)
Class ServerEnv (A : Type) (U : Udp A) : Type := {
  load_stop : UdpWorld -> UdpWorld * bool;
  load_sink_failed : UdpWorld -> UdpWorld * bool;
  load_sink_done : UdpWorld -> UdpWorld * bool;
  read_sink_error : UdpWorld -> UdpWorld * option bytes;
  try_send : ServerEvent A -> UdpWorld -> UdpWorld * SendResult;
  sleep : Z -> UdpWorld -> UdpWorld;
  wall_now : UdpWorld -> UdpWorld * Z
}.

Section run.
Context `{R : Rustls, Sg : !Signing, Rc : Rcgen, H : Hash} {A : Type} `{Q : !Quinn A} `{QS : !QuinnServer A} `{HO : HashOrder}.
Context `{U : !Udp A} `{SE : !ServerEnv A U} `{Sh : Shows}.

Abbreviation Config := (DiagServerConfig (A := A)).

Implicit Types (w : UdpWorld) (core : ServerCore) (out : list (Datagram A)).

(* quic/diag/server.rs:884-889 BindError *)
Inductive BindError : Type := BindConfig (e : ConfigError) | BindIo (e : IoError).

(* quic/diag/server.rs:892-897 BindError::fmt *)
Definition bind_error `{DebugStr} (e : BindError) : bytes :=
  match e with
  | BindConfig e => bstr "invalid configuration: " ++ config_error e
  | BindIo e => bstr "bind failed: " ++ show_io e
  end.

(* quic/diag/server.rs:903-909 DiagServer *)
Record DiagServer : Type := mkServer { s_config : Config; s_bound : A; s_core : ServerCore }.

(* quic/diag/server.rs:914-926 DiagServer::bind *)
Definition bind (config : Config) w : UdpWorld * result DiagServer BindError :=
  match validate config with
  | Err e => (w, Err (BindConfig e))
  | Ok _ =>
      match udp_bind (QuicServer.bind config) w with
      | (w, Err e) => (w, Err (BindIo e))
      | (w, Ok _) =>
          match udp_local_addr w with
          | (w, Err e) => (w, Err (BindIo e))
          | (w, Ok bound) => (w, map_ok (mkServer config bound) (map_err BindConfig (core_new config bound)))
          end
      end
  end.

(* quic/diag/server.rs:1110-1131 DiagServer::step *)
Definition step (fuel : nat) (config : Config) (now : Z) (hard_deadline : option Z) core out w
    : run (UdpWorld * ServerCore * list (Datagram A) * result unit IoError) :=
  match QuicClient.send_all out w with
  | (w, Err e) => Done (w, core, [], Err e)
  | (w, Ok _) =>
      let wait := poll_interval config in
      let wait := match next_timeout core with Some t => Z.min wait (Z.max 0 (t - now)) | None => wait end in
      let wait := match hard_deadline with Some d => Z.min wait (Z.max 0 (d - now)) | None => wait end in
      match QuicClient.recv_with_timeout 65535 wait w with
      | (w, Err e) => Done (w, core, [], Err e)
      | (w, Ok received) =>
          let '(w, fed) :=
            match received with
            | Some (data, from) =>
                let '(w, now) := udp_now w in
                let '(w, wall) := wall_now w in
                (w, handle_datagram fuel wall now from data core [])
            | None => (w, Done (core, []))
            end in
          let^ r := fed in
          let '(w, now) := udp_now w in
          let^ r := handle_timeouts fuel now (fst r) (snd r) in
          let '(w, res) := QuicClient.send_all (snd r) w in
          Done (w, fst r, [], res)
      end
  end.

(* quic/diag/server.rs:977-980 DiagServer::run *)
Definition emit (event : ServerEvent A) (dropped : Z) w : UdpWorld * Z :=
  match try_send event w with
  | (w, Sent) => (w, dropped)
  | (w, _) => (w, dropped + 1)
  end.

Fixpoint emit_all (l : list (HandshakeObservation A)) (dropped : Z) w : UdpWorld * Z :=
  match l with
  | [] => (w, dropped)
  | o :: l => let '(w, dropped) := emit (ConnectionRecord o) dropped w in emit_all l dropped w
  end.

(** The local variables of [run] that its loops change. *)
Record RunState : Type := mkRun {
  r_core : ServerCore;
  r_out : list (Datagram A);
  r_dropped : Z;
  dropped_reported : Z;
  last_overload_report : option Z
}.

Definition set_work core out dropped (s : RunState) := mkRun core out dropped (dropped_reported s) (last_overload_report s).

(* quic/diag/server.rs:1015-1028 DiagServer::run *)
Definition report_overload (config : Config) (now : Z) (s : RunState) w : UdpWorld * RunState :=
  let dropped_total := dropped_at_capacity (stats (r_core s)) in
  if dropped_reported s <? dropped_total then
    let '(w, due) :=
      match last_overload_report s with
      | None => (w, true)
      | Some t => let '(w, n) := udp_now w in (w, overload_report_interval config <=? Z.max 0 (n - t))
      end in
    if due then
      let '(w, dropped) := emit (Overload (dropped_total - dropped_reported s) dropped_total) (r_dropped s) w in
      (w, mkRun (r_core s) (r_out s) dropped dropped_total (Some now))
    else (w, s)
  else (w, s).

(* quic/diag/server.rs:996-1037 DiagServer::run *)
Fixpoint main_loop (fuel : nat) (config : Config) (run_deadline : option Z) (s : RunState) w
    : run (UdpWorld * RunState * StopReason * option bytes) :=
  match fuel with
  | O => Spins
  | S fuel' =>
      let '(w, stop) := load_stop w in
      if (stop : bool) then Done (w, s, StopRequested, None) else
      let '(w, sink_failed) := load_sink_failed w in
      if (sink_failed : bool) then Done (w, s, SinkFailed, None) else
      let '(w, now) := udp_now w in
      if match run_deadline with Some d => d <=? now | None => false end then Done (w, s, RunDurationElapsed, None) else
      let st := stats (r_core s) in
      if match max_connections config with Some m => m <=? accepted st + dropped_at_capacity st | None => false end
      then Done (w, s, ConnectionLimitReached, None) else
      let '(w, s) := report_overload config now s w in
      let^ r := step fuel' config now run_deadline (r_core s) (r_out s) w in
      let '(w, core, out, res) := r in
      match res with
      | Err e => Done (w, set_work core out (r_dropped s) s, SocketFailed, Some (show_io e))
      | Ok _ =>
          let '(core, observations) := drain_observations core in
          let '(w, dropped) := emit_all observations (r_dropped s) w in
          main_loop fuel' config run_deadline (set_work core out dropped s) w
      end
  end.

(** After a stop condition handshakes in progress may finish until [grace_end]. *)
(* quic/diag/server.rs:1045-1055 DiagServer::run *)
Fixpoint wind_down (fuel : nat) (config : Config) (grace_end : Z) (s : RunState) w : run (UdpWorld * RunState) :=
  match fuel with
  | O => Spins
  | S fuel' =>
      if handshaking (r_core s) <=? 0 then Done (w, s) else
      let '(w, now) := udp_now w in
      if negb (now <? grace_end) then Done (w, s) else
      let '(w, now) := udp_now w in
      let^ r := step fuel' config now (Some grace_end) (r_core s) (r_out s) w in
      let '(w, core, out, res) := r in
      match res with
      | Err _ => Done (w, set_work core out (r_dropped s) s)
      | Ok _ =>
          let '(core, observations) := drain_observations core in
          let '(w, dropped) := emit_all observations (r_dropped s) w in
          wind_down fuel' config grace_end (set_work core out dropped s) w
      end
  end.

(** The last record waits for room until [until]. *)
(* quic/diag/server.rs:1087-1096 DiagServer::run *)
Fixpoint send_stopped (fuel : nat) (event : ServerEvent A) (until dropped : Z) w : run (UdpWorld * Z) :=
  match fuel with
  | O => Spins
  | S fuel =>
      match try_send event w with
      | (w, Sent) => Done (w, dropped)
      | (w, Full) =>
          let '(w, now) := udp_now w in
          if now <? until then send_stopped fuel event until dropped (sleep 5000000 w) else Done (w, dropped + 1)
      | (w, Disconnected) => Done (w, dropped + 1)
      end
  end.

(* quic/diag/server.rs:1099-1101 DiagServer::run *)
Fixpoint await_sink (fuel : nat) (wait_end : Z) w : run UdpWorld :=
  match fuel with
  | O => Spins
  | S fuel =>
      let '(w, done_) := load_sink_done w in
      if (done_ : bool) then Done w else
      let '(w, now) := udp_now w in
      if now <? wait_end then await_sink fuel wait_end (sleep 5000000 w) else Done w
  end.

Definition is_immediate (r : StopReason) : bool := match r with SinkFailed | SocketFailed => true | _ => false end.

(** Everything after the stop condition, up to the summary. *)
(* quic/diag/server.rs:1042-1083 DiagServer::run *)
Definition finish (fuel : nat) (config : Config) (bound : A) (started : Z) (s : RunState) (why : StopReason) (error : option bytes) w
    : run (UdpWorld * Summary A) :=
  let s := set_work (stop_accepting (r_core s)) (r_out s) (r_dropped s) s in
  let '(w, now) := udp_now w in
  let grace_end := now + shutdown_grace config in
  let^ r := if is_immediate why then Done (w, s) else wind_down fuel config grace_end s w in
  let '(w, s) := r in
  let '(w, now) := udp_now w in
  let^ r := shutdown fuel now (r_core s) (r_out s) in
  let '(core, out, abandoned) := r in
  let '(w, _) := QuicClient.send_all out w in
  let '(core, observations) := drain_observations core in
  let '(w, dropped) := emit_all observations (r_dropped s) w in
  let st := stats core in
  let '(w, dropped) :=
    if dropped_reported s <? dropped_at_capacity st
    then emit (Overload (dropped_at_capacity st - dropped_reported s) (dropped_at_capacity st)) dropped w else (w, dropped) in
  let '(w, error) := match why with SinkFailed => read_sink_error w | _ => (w, error) end in
  let '(w, now) := udp_now w in
  Done (w, mkSummary bound (core_presented core) st dropped abandoned why error (Z.max 0 (now - started))).

Definition with_dropped (n : Z) (s : Summary A) : Summary A :=
  mkSummary (sum_bound s) (sum_identity s) (sum_stats s) n (abandoned s) (reason s) (error s) (sum_elapsed s).

(** The sink thread ends when the channel is closed, before [await_sink]. *)
(* quic/diag/server.rs:949-1106 DiagServer::run *)
Definition run_server (fuel : nat) (self : DiagServer) w : run (UdpWorld * Summary A) :=
  let config := s_config self in
  let '(w, started) := udp_now w in
  let run_deadline := (fun d => started + d) <$> run_for config in
  let '(w, dropped) := emit (Started (s_bound self) (core_presented (s_core self)) (alpn config)) 0 w in
  let^ r := main_loop fuel config run_deadline (mkRun (s_core self) [] dropped 0 None) w in
  let '(w, s, why, error) := r in
  let^ r := finish fuel config (s_bound self) started s why error w in
  let '(w, summary) := r in
  let '(w, now) := udp_now w in
  let^ r := send_stopped fuel (Stopped summary) (now + shutdown_grace config) (records_dropped summary) w in
  let '(w, dropped) := r in
  let '(w, now) := udp_now w in
  let^ w := await_sink fuel (now + shutdown_grace config) w in
  Done (w, with_dropped dropped summary).
End run.
End QuicRun.
