(* ===== verification/QuicRunProps.v ===== *)
(** * What a run of the QUIC server reports

    The events a run hands to its sink, seen as a log: the records in it are
    those of the core, and the summary adds up with them. *)

From stdpp Require Import gmap.
From S2P Require Import Prelude WireError NameList Primitives Messages KexInit KeyAlgorithm HostKey HostKeyProps.
From S2P Require Import Packet Gcm Transcript Trust Spki SpkiProps KnownHosts KnownHostsProps Text FacadeTrust Seam.
From S2P Require Import Display Durations QuicTls QuicClient QuicClientProps HostSignature QuicIdentity QuicServer QuicServerProps QuicRun.

Open Scope Z_scope.
Import Display Quic QuicIdentity QuicServer QuicRun.

(** ** A world that remembers what was sent *)

Section logged.
Context {A : Type} (U : Udp A) (SE : ServerEnv A U).

Definition Log : Type := list (ServerEvent A * bool).

Definition lift {X} (f : @UdpWorld A U -> @UdpWorld A U * X) (w : @UdpWorld A U * Log) : (@UdpWorld A U * Log) * X :=
  let '(w', x) := f (fst w) in ((w', snd w), x).

Definition is_sent (r : SendResult) : bool := match r with Sent => true | _ => false end.

Definition logged_udp : Udp A := {|
  UdpWorld := @UdpWorld A U * Log;
  udp_bind a := lift (udp_bind a);
  udp_local_addr := lift udp_local_addr;
  udp_set_read_timeout t := lift (udp_set_read_timeout t);
  udp_recv_from n := lift (udp_recv_from n);
  udp_send_to d a := lift (udp_send_to d a);
  udp_now := lift udp_now;
  addr_is_loopback := addr_is_loopback;
  addr_is_ipv4 := addr_is_ipv4;
  addr_with_port := addr_with_port;
  addr_any_v4 := addr_any_v4;
  addr_any_v6 := addr_any_v6
|}.

Definition logged_env : ServerEnv A logged_udp := {|
  load_stop := lift load_stop : @UdpWorld A logged_udp -> _;
  load_sink_failed := lift load_sink_failed : @UdpWorld A logged_udp -> _;
  load_sink_done := lift load_sink_done : @UdpWorld A logged_udp -> _;
  read_sink_error := lift read_sink_error : @UdpWorld A logged_udp -> _;
  try_send e := (fun w => let '(w', r) := try_send e (fst w) in ((w', snd w ++ [(e, is_sent r)]), r)) : @UdpWorld A logged_udp -> _;
  sleep d := (fun w => (sleep d (fst w), snd w)) : @UdpWorld A logged_udp -> _;
  wall_now := lift wall_now : @UdpWorld A logged_udp -> _
|}.

(** The records among the events, and the events that were not taken. *)
Definition recs (log : Log) : list (HandshakeObservation A) :=
  omap (fun e => match fst e with ConnectionRecord o => Some o | _ => None end) log.

Definition unsent (log : Log) : Z := zlen (List.filter (fun e => negb (snd e)) log).

Lemma recs_app l l' : recs (l ++ l') = recs l ++ recs l'.
Proof. apply omap_app. Qed.

Lemma unsent_app l l' : unsent (l ++ l') = unsent l + unsent l'.
Proof. unfold unsent. by rewrite List.filter_app, zlen_app. Qed.

Lemma lift_log {X} (f : @UdpWorld A U -> @UdpWorld A U * X) w w' x : lift f w = (w', x) -> snd w' = snd w.
Proof. unfold lift. destruct (f (fst w)). by intros [= <- _]. Qed.
End logged.

Section run.
Context `{R : Rustls, Sg : !Signing, Rc : Rcgen, H : Hash} {A : Type} `{Q : !Quinn A} `{QS : !QuinnServer A} `{HO : HashOrder}.
Context (U : Udp A) (SE : ServerEnv A U) `{Sh : Shows}.

#[local] Instance log_udp : Udp A := logged_udp U.
#[local] Instance log_env : ServerEnv A log_udp := logged_env U SE.

Abbreviation World := (@UdpWorld A log_udp).
Abbreviation Config := (DiagServerConfig (A := A)).
Implicit Types (w : World) (core : ServerCore) (out : list (Datagram A)).

(** *** Steps that send no event *)

Lemma quiet_send_all out w w' r : QuicClient.send_all out w = (w', r) -> snd w' = snd w.
Proof.
  revert w. induction out as [|d out IH]; intros w; cbn [QuicClient.send_all]; [by intros [= <- _]|].
  destruct (udp_send_to (payload d) (destination d) w) as [w1 [?|e]] eqn:E; apply lift_log in E.
  - intros Hs%IH. congruence.
  - destruct (kind e); first [by intros [= <- _]; rewrite E | intros Hs%IH; congruence].
Qed.

Lemma quiet_recv len wait w w' r : QuicClient.recv_with_timeout len wait w = (w', r) -> snd w' = snd w.
Proof.
  unfold QuicClient.recv_with_timeout. destruct (udp_set_read_timeout _ w) as [w1 [?|?]] eqn:E1; apply lift_log in E1; [|by intros [= <- _]].
  destruct (udp_recv_from len w1) as [w2 [x|e]] eqn:E2; apply lift_log in E2.
  - intros [= <- _]. congruence.
  - destruct (kind e); intros [= <- _]; congruence.
Qed.

Context (config : Config) (bound : A).

Abbreviation reaches := (reachable_core config bound).

Lemma reach_step core seen core' seen' : reaches core seen -> core_step (core, seen) (core', seen') -> reaches core' seen'.
Proof. intros (first & Hf & Hr) Hs. exists first. split; [done|]. by eapply rtc_r. Qed.

Lemma now_log w w' t : udp_now w = (w', t) -> snd w' = snd w.
Proof. apply lift_log. Qed.

Lemma step_spec fuel now hd core out seen w w' core' out' res :
  QuicRun.step fuel config now hd core out w = Done (w', core', out', res) -> reaches core seen ->
  snd w' = snd w /\ reaches core' seen.
Proof.
  unfold QuicRun.step. destruct (QuicClient.send_all out w) as [w1 [?|e]] eqn:E1; apply quiet_send_all in E1; [|by intros [= <- <- _ _]].
  match goal with |- context [QuicClient.recv_with_timeout ?l ?t w1] => destruct (QuicClient.recv_with_timeout l t w1) as [w2 [received|e]] eqn:E2 end;
    apply quiet_recv in E2; [|intros [= <- <- _ _]; split; [congruence|done]].
  assert (exists w3 fed, match received with
      | Some (data, from) => let '(w, now) := udp_now w2 in let '(w, wall) := wall_now w in (w, handle_datagram fuel wall now from data core [])
      | None => (w2, Done (core, [])) end = (w3, fed) /\ snd w3 = snd w2 /\
      (forall c o, fed = Done (c, o) -> reaches core seen -> reaches c seen)) as (w3 & fed & -> & E3 & Hfed).
  { destruct received as [[data from]|].
    - destruct (udp_now w2) as [wa t] eqn:Ea. apply now_log in Ea. destruct (wall_now wa) as [wb t'] eqn:Eb. apply lift_log in Eb.
      eexists _, _. split; [done|]. split; [congruence|]. intros c o Hc Hr. eapply reach_step; [done|]. by eapply step_datagram.
    - eexists _, _. split; [done|]. split; [done|]. by intros c o [= <- _]. }
  intros ([c1 o1] & Hf & Hr)%run_bind_done Hre. cbn [fst snd] in Hr. destruct (udp_now w3) as [w4 t] eqn:E4. apply now_log in E4.
  apply run_bind_done in Hr as ([c2 o2] & Ht & Hr). cbn [fst snd] in Hr.
  destruct (QuicClient.send_all o2 w4) as [w5 r] eqn:E5. apply quiet_send_all in E5. injection Hr as <- <- _ _. split; [congruence|].
  eapply reach_step; [by eapply Hfed|]. by eapply step_timeouts.
Qed.

(** *** Events *)

Definition is_stopped (e : ServerEvent A * bool) : bool := match fst e with Stopped _ => true | _ => false end.

Lemma emit_spec e d w w' d' :
  emit e d w = (w', d') -> exists s, snd w' = snd w ++ [(e, s)] /\ d' = d + (if (s : bool) then 0 else 1).
Proof.
  unfold emit. cbn. destruct (try_send e (fst w)) as [w1 r]. destruct r; intros [= <- <-]; eexists; (split; [done|]); cbn; lia.
Qed.

(** The state of a run and its log. *)
Definition faithful (s : RunState) w : Prop :=
  reaches (r_core s) (recs (snd w)) /\ r_dropped s = unsent (snd w) /\ Forall (fun e => is_stopped e = false) (snd w).

Lemma unsent_one e s : unsent [(e : ServerEvent A, s)] = (if (s : bool) then 0 else 1).
Proof. by destruct s. Qed.

Lemma emit_all_spec l d w w' d' :
  emit_all l d w = (w', d') -> d = unsent (snd w) -> Forall (fun e => is_stopped e = false) (snd w) ->
  recs (snd w') = recs (snd w) ++ l /\ d' = unsent (snd w') /\ Forall (fun e => is_stopped e = false) (snd w').
Proof.
  revert d w. induction l as [|o l IH]; intros d w; cbn [emit_all]; [intros [= <- <-]; by rewrite app_nil_r|].
  destruct (emit (ConnectionRecord o) d w) as [w1 d1] eqn:E. apply emit_spec in E as (s & E1 & E2). intros Hr Hd Hf.
  apply IH in Hr as (H1 & H2 & H3).
  - rewrite H1, E1, recs_app, <- app_assoc. done.
  - rewrite E1, unsent_app, unsent_one. lia.
  - rewrite E1. apply Forall_app. split; [done|]. by constructor.
Qed.

(** Taking the observations of the core and sending them. *)
Lemma faithful_drained core out d s w1 w2 d2 :
  reaches core (recs (snd w1)) -> d = unsent (snd w1) -> Forall (fun e => is_stopped e = false) (snd w1) ->
  emit_all (snd (drain_observations core)) d w1 = (w2, d2) ->
  faithful (set_work (fst (drain_observations core)) out d2 s) w2.
Proof.
  intros Hr Hd Hf He. destruct (emit_all_spec _ _ _ _ _ He Hd Hf) as (H1 & H2 & H3). split_and!; try done.
  rewrite H1. eapply reach_step; [done|]. apply step_drain.
Qed.

Lemma faithful_overload now s w w' s' : report_overload config now s w = (w', s') -> faithful s w -> faithful s' w'.
Proof.
  unfold report_overload. destruct (dropped_reported s <? _); [|by intros [= <- <-]].
  assert (exists w1 due, match last_overload_report s with None => (w, true)
      | Some t => let '(w, n) := udp_now w in (w, overload_report_interval config <=? Z.max 0 (n - t)) end = (w1, due) /\ snd w1 = snd w)
    as (w1 & due & -> & E1).
  { destruct (last_overload_report s); [|by eexists _, _]. destruct (udp_now w) as [wa n] eqn:Ea. apply now_log in Ea. by eexists _, _. }
  destruct due.
  - destruct (emit _ (r_dropped s) w1) as [w2 d] eqn:E. apply emit_spec in E as (b & E2 & Ed). intros [= <- <-] (F1 & F2 & F3).
    unfold faithful. cbn [r_core r_dropped]. rewrite E2, E1, recs_app, app_nil_r, unsent_app, unsent_one. split_and!; [done|lia|].
    apply Forall_app. split; [done|]. by constructor.
  - intros [= <- <-]. unfold faithful. by rewrite E1.
Qed.

Lemma faithful_main fuel deadline s w w' s' why err :
  main_loop fuel config deadline s w = Done (w', s', why, err) -> faithful s w -> faithful s' w'.
Proof.
  revert s w. induction fuel as [|fuel IH]; intros s w; [done|]. cbn [main_loop].
  destruct (load_stop w) as [w1 stop] eqn:E1. apply lift_log in E1. intros Hr Hf.
  assert (faithful s w1) as F1 by (unfold faithful in *; by rewrite E1). clear Hf. destruct stop; [by injection Hr as <- <- _ _|].
  destruct (load_sink_failed w1) as [w2 bad] eqn:E2. apply lift_log in E2.
  assert (faithful s w2) as F2 by (unfold faithful in *; by rewrite E2). destruct bad; [by injection Hr as <- <- _ _|].
  destruct (udp_now w2) as [w3 now] eqn:E3. apply now_log in E3.
  assert (faithful s w3) as F3 by (unfold faithful in *; by rewrite E3).
  destruct (match deadline with Some d => d <=? now | None => false end); [by injection Hr as <- <- _ _|].
  destruct (match max_connections config with Some m => _ | None => false end); [by injection Hr as <- <- _ _|].
  destruct (report_overload config now s w3) as [w4 s4] eqn:E4. apply faithful_overload in E4 as (G1 & G2 & G3); [|done].
  apply run_bind_done in Hr as ([[[w5 core] out] res] & Hs & Hr). apply (step_spec _ _ _ _ _ _ _ _ _ _ _ Hs) in G1 as [E5 G1].
  destruct res as [?|e].
  - pose proof (faithful_drained core out (r_dropped s4) s4 w5) as Hd. destruct (drain_observations core) as [core' l]. cbn [fst snd] in *.
    destruct (emit_all l (r_dropped s4) w5) as [w6 d6]. eapply IH; [exact Hr|]. apply Hd; [by rewrite E5|by rewrite E5|by rewrite E5|done].
  - injection Hr as <- <- _ _. unfold faithful. cbn [r_core r_dropped set_work]. by rewrite E5.
Qed.

Lemma faithful_wind fuel grace s w w' s' : wind_down fuel config grace s w = Done (w', s') -> faithful s w -> faithful s' w'.
Proof.
  revert s w. induction fuel as [|fuel IH]; intros s w; [done|]. cbn [wind_down]. intros Hr (G1 & G2 & G3).
  destruct (handshaking (r_core s) <=? 0); [by injection Hr as <- <-|]. destruct (udp_now w) as [w1 t1] eqn:E1. apply now_log in E1.
  destruct (negb (t1 <? grace)); [injection Hr as <- <-; unfold faithful; by rewrite E1|].
  destruct (udp_now w1) as [w2 t2] eqn:E2. apply now_log in E2. rewrite <- E1, <- E2 in G1, G2, G3.
  apply run_bind_done in Hr as ([[[w5 core] out] res] & Hs & Hr). apply (step_spec _ _ _ _ _ _ _ _ _ _ _ Hs) in G1 as [E5 G1].
  destruct res as [?|e].
  - pose proof (faithful_drained core out (r_dropped s) s w5) as Hd. destruct (drain_observations core) as [core' l]. cbn [fst snd] in *.
    destruct (emit_all l (r_dropped s) w5) as [w6 d6]. eapply IH; [exact Hr|]. apply Hd; [by rewrite E5|by rewrite E5|by rewrite E5|done].
  - injection Hr as <- <-. unfold faithful. cbn [r_core r_dropped set_work]. by rewrite E5.
Qed.

(** The summary is that of a core whose records are all in the log. *)
Definition sums_up (sum : Summary A) w : Prop :=
  records_dropped sum = unsent (snd w) /\ Forall (fun e => is_stopped e = false) (snd w) /\
  exists core, sum_stats sum = stats core /\ pending core = [] /\ handshaking core = 0 /\ reaches core (recs (snd w)).

Lemma drained_handshaking (core : ServerCore) : handshaking (fst (drain_observations core)) = handshaking core.
Proof. done. Qed.

Lemma server_finish_spec fuel started s why err w w' sum :
  QuicRun.finish fuel config bound started s why err w = Done (w', sum) -> faithful s w -> sums_up sum w'.
Proof.
  unfold QuicRun.finish. set (s0 := set_work _ _ _ s). intros Hr Hf.
  assert (faithful s0 w) as F0 by (destruct Hf as (G1 & G2 & G3); split_and!; [|done|done]; eapply reach_step; [exact G1|]; apply step_stop).
  clearbody s0. clear Hf. destruct (udp_now w) as [w1 t1] eqn:E1. apply now_log in E1.
  assert (faithful s0 w1) as F1 by (unfold faithful in *; by rewrite E1).
  apply run_bind_done in Hr as ([w2 s2] & H2 & Hr).
  assert (faithful s2 w2) as F2 by (destruct (is_immediate why); [by injection H2 as <- <-|by eapply faithful_wind]). clear H2 F0 F1.
  destruct (udp_now w2) as [w3 t3] eqn:E3. apply now_log in E3.
  apply run_bind_done in Hr as ([[core out] n] & Hs & Hr).
  destruct F2 as (G1 & G2 & G3). apply (reach_step _ _ core (recs (snd w2))) in G1; [|by eapply step_shutdown].
  assert (handshaking core = 0) as Hh by (by apply quic_server_shutdown_none in Hs).
  destruct (QuicClient.send_all out w3) as [w4 ?] eqn:E4. apply quiet_send_all in E4. rewrite <- E3, <- E4 in G1, G2, G3.
  pose proof (faithful_drained core out (r_dropped s2) s2 w4) as Hd. pose proof (drained_handshaking core) as Hdh.
  assert (pending (fst (drain_observations core)) = []) as Hpe by done.
  destruct (drain_observations core) as [core' l]. cbn [fst snd] in *.
  destruct (emit_all l (r_dropped s2) w4) as [w5 d5]. destruct (Hd w5 d5 G1 G2 G3 eq_refl) as (K1 & K2 & K3). cbn [r_core r_dropped set_work] in *.
  assert (exists w6 d6, (if dropped_reported s2 <? dropped_at_capacity (stats core')
      then emit (Overload (dropped_at_capacity (stats core') - dropped_reported s2) (dropped_at_capacity (stats core'))) d5 w5 else (w5, d5)) = (w6, d6) /\
      recs (snd w6) = recs (snd w5) /\ d6 = unsent (snd w6) /\ Forall (fun e => is_stopped e = false) (snd w6)) as (w6 & d6 & E6 & J1 & J2 & J3).
  { destruct (_ <? _); [|by eexists _, _]. destruct (emit _ d5 w5) as [wa da] eqn:Ea. apply emit_spec in Ea as (b & Ea & Eb).
    eexists _, _. split; [done|]. rewrite Ea, recs_app, app_nil_r, unsent_app, unsent_one. split_and!; [done|lia|].
    apply Forall_app. split; [done|]. by constructor. }
  rewrite E6 in Hr.
  destruct (match why with SinkFailed => read_sink_error w6 | _ => (w6, err) end) as [w7 err'] eqn:E7.
  assert (snd w7 = snd w6) as L7 by (destruct why; [by injection E7 as <- _..| |by injection E7 as <- _]; by apply lift_log in E7).
  destruct (udp_now w7) as [w8 t8] eqn:E8. apply now_log in E8. injection Hr as <- <-.
  assert (snd w8 = snd w6) as L8 by congruence. unfold sums_up. rewrite L8. split_and!; [done|done|].
  exists core'. split_and!; [done|done|by rewrite Hdh|]. by rewrite J1.
Qed.

Lemma send_stopped_spec fuel e until d w w' d' :
  send_stopped fuel e until d w = Done (w', d') ->
  exists tries delivered, snd w' = snd w ++ replicate tries (e, false) ++ [(e, delivered)] /\ d' = d + (if (delivered : bool) then 0 else 1).
Proof.
  revert w. induction fuel as [|fuel IH]; intros w; [done|]. cbn [send_stopped].
  destruct (try_send e w) as [w1 r] eqn:E. cbn in E. destruct (try_send e (fst w)) as [w0 r0]. injection E as <- <-. destruct r0.
  - intros [= <- <-]. exists 0%nat, true. split; [done|lia].
  - destruct (udp_now _) as [w2 t] eqn:E2. apply now_log in E2. cbn [snd] in E2. destruct (t <? until).
    + intros (n & b & H1 & H2)%IH. exists (S n), b. split; [|done]. rewrite H1. cbn. rewrite E2. by rewrite <- app_assoc.
    + intros [= <- <-]. exists 0%nat, false. by split.
  - intros [= <- <-]. exists 0%nat, false. by split.
Qed.

Lemma await_quiet fuel until w w' : await_sink fuel until w = Done w' -> snd w' = snd w.
Proof.
  revert w. induction fuel as [|fuel IH]; intros w; [done|]. cbn [await_sink].
  destruct (load_sink_done w) as [w1 b] eqn:E1. apply lift_log in E1. destruct b; [by intros [= <-]|].
  destruct (udp_now w1) as [w2 t] eqn:E2. apply now_log in E2. destruct (t <? until); [|intros [= <-]; congruence].
  intros Hr%IH. rewrite Hr. cbn. congruence.
Qed.
End run.

Section theorem.
Context `{R : Rustls, Sg : !Signing, Rc : Rcgen, H : Hash} {A : Type} `{Q : !Quinn A} `{QS : !QuinnServer A} `{HO : HashOrder}.
Context (U : Udp A) (SE : ServerEnv A U) `{Sh : Shows}.

#[local] Existing Instances log_udp log_env.

(** Binding sends nothing; the core is new. *)
Lemma bind_spec (config : DiagServerConfig (A := A)) (w w' : @UdpWorld A (log_udp U)) server :
  QuicRun.bind config w = (w', Ok server) ->
  snd w' = snd w /\ s_config server = config /\ core_new config (s_bound server) = Ok (s_core server).
Proof.
  unfold QuicRun.bind. destruct (validate config) as [?|?]; [|done].
  destruct (udp_bind _ w) as [w1 [?|?]] eqn:E1; apply lift_log in E1; [|done].
  destruct (udp_local_addr w1) as [w2 [addr|?]] eqn:E2; apply lift_log in E2; [|done].
  destruct (core_new config addr) as [core|?] eqn:Ec; [|done]. intros [= <- <-]. cbn. split_and!; [congruence|done|done].
Qed.

(** What a run has handed over when it returns. *)
Lemma run_server_adds_up fuel config (w w1 w2 : @UdpWorld A (log_udp U)) server summary :
  0 <= max_concurrent config -> snd w = [] -> QuicRun.bind config w = (w1, Ok server) ->
  run_server fuel server w1 = Done (w2, summary) ->
  exists l last tries delivered,
    snd w2 = l ++ replicate tries (Stopped last, false) ++ [(Stopped last, delivered)] /\
    Forall (fun e => is_stopped e = false) l /\
    summary = with_dropped (unsent l + (if (delivered : bool) then 0 else 1)) last /\ records_dropped last = unsent l /\
    let st := sum_stats summary in
    NoDup (map id (recs l)) /\ Forall (fun o => 1 <= id o <= accepted st) (recs l) /\
    completed st = counted is_completed (recs l) /\ failed st = counted is_failed (recs l) /\
    timed_out st = counted is_timed_out (recs l) /\
    (require_validation config = true -> Forall (fun o => peer_address_validated o = true) (recs l)) /\
    exists core, stats core = st /\ handshaking core = 0 /\ reachable_core config (s_bound server) core (recs l).
Proof.
  intros Hm Hw Hb Hr. apply bind_spec in Hb as (E1 & Ec & Hn). unfold run_server in Hr. rewrite Ec in Hr.
  destruct (udp_now w1) as [w3 t3] eqn:E3. apply now_log in E3.
  destruct (emit _ 0 w3) as [w4 d4] eqn:E4. apply emit_spec in E4 as (b & E4 & Ed). rewrite E3, E1, Hw in E4. cbn [app] in E4.
  apply run_bind_done in Hr as ([[[w5 s5] why] err] & Hl & Hr). eapply faithful_main in Hl.
  2:{ split_and!; cbn [r_core r_dropped]; [|by rewrite E4, unsent_one, Ed|rewrite E4; by constructor].
      rewrite E4. exists (s_core server). split; [exact Hn|]. constructor. }
  apply run_bind_done in Hr as ([w6 last] & Hf & Hr). eapply server_finish_spec in Hf as (F1 & F2 & core & F3 & F4 & F5 & F6); [|exact Hl].
  destruct (udp_now w6) as [w7 t7] eqn:E7. apply now_log in E7.
  apply run_bind_done in Hr as ([w8 d8] & Hs & Hr). apply send_stopped_spec in Hs as (tries & delivered & E8 & Ed8).
  destruct (udp_now w8) as [w9 t9] eqn:E9. apply now_log in E9. apply run_bind_done in Hr as (w10 & Ha & [= <- <-]). apply await_quiet in Ha.
  exists (snd w6), last, tries, delivered. rewrite Ha, E9, E8, E7. split_and!; [done|done|by rewrite Ed8, F1|done|].
  cbn [sum_stats with_dropped]. rewrite F3. destruct (quic_server_records_inv _ _ _ _ Hm F6) as (R1 & R2 & R3 & R4 & R5 & R6 & R7).
  rewrite F4, app_nil_r in R1, R2, R3, R4, R5, R6. split_and!; try done. by exists core.
Qed.

(** C7: a run of the QUIC server reports itself truthfully, whatever the peers,
    the sink and the other threads do. The log of the events handed to the sink
    is a list [l] followed by attempts to hand over the final record; [l] holds
    at most one record per accepted attempt; the summary's completed, failed and
    timed-out counts are the numbers of records that say so; they are the counts
    of a core that went through these records and has no attempt in progress;
    with [require_validation] every record is of a validated address; and
    [records_dropped] is exactly the number of events that the sink's queue
    refused. *)
Theorem quic_run_adds_up fuel config (w w1 w2 : @UdpWorld A (log_udp U)) server summary :
  0 <= max_concurrent config -> snd w = [] -> QuicRun.bind config w = (w1, Ok server) ->
  run_server fuel server w1 = Done (w2, summary) ->
  exists l last tries delivered,
    snd w2 = l ++ replicate tries (Stopped last, false) ++ [(Stopped last, delivered)] /\
    Forall (fun e => is_stopped e = false) l /\
    summary = with_dropped (unsent l + (if (delivered : bool) then 0 else 1)) last /\ records_dropped last = unsent l /\
    let st := sum_stats summary in
    NoDup (map id (recs l)) /\ Forall (fun o => 1 <= id o <= accepted st) (recs l) /\
    completed st = counted is_completed (recs l) /\ failed st = counted is_failed (recs l) /\
    timed_out st = counted is_timed_out (recs l) /\
    (require_validation config = true -> Forall (fun o => peer_address_validated o = true) (recs l)) /\
    exists core, stats core = st /\ handshaking core = 0 /\ reachable_core config (s_bound server) core (recs l).
Proof. apply run_server_adds_up. Qed.
End theorem.

(** ** An example run *)

Module QuicServerDemo.

#[local] Existing Instances QuicDemo.tls QuicDemo.digest.

#[local] Instance keys : Signing := {|
  SigningKey := unit;
  Signer := unit;
  any_supported_type _ _ := Ok tt;
  load_private_key _ := Ok tt;
  sk_public_key _ := None;
  choose_scheme _ _ := None;
  sign _ _ := Ok []
|}.

#[local] Instance certs : Rcgen := {|
  RcError := unit;
  show_rcgen _ := [];
  RcKey := unit;
  RcParams := unit;
  generate_key := Ok tt;
  params_new _ := Ok tt;
  self_signed _ _ _ := Ok [];
  key_public_der _ := [];
  key_serialize_der _ := []
|}.

(** Every datagram opens a connection, which completes its handshake at once
    and is drained when it is closed. *)
Record connection : Type := mkConn { reported : bool; closed : bool }.

#[local] Instance quinn : Quinn Z := {|
  Endpoint := unit;
  Connection := connection;
  ConnectionEvent := unit;
  EndpointEvent := unit;
  Incoming := Z;
  client_endpoint _ := tt;
  endpoint_connect _ _ _ _ e := (e, Err (OtherConnectError []));
  endpoint_handle _ from _ _ e := (e, Some (NewConnection from));
  endpoint_event _ _ e := (e, None);
  endpoint_ignore _ e := e;
  conn_event _ _ c := (c, []);
  conn_poll_endpoint_events c := (c, None);
  conn_poll c := if reported c then (c, None) else (mkConn true (closed c), Some Connected);
  conn_poll_transmit _ c := (c, None);
  conn_poll_timeout _ := None;
  conn_handle_timeout _ c := c;
  conn_close _ _ _ c := mkConn (reported c) true;
  conn_is_closed := closed;
  conn_is_drained := closed;
  conn_has_0rtt _ := false;
  conn_handshake_data _ := Some (mkHandshakeData (Some (bstr "x")) None);
  conn_export _ _ _ _ := false;
  timed_out_text := bstr "timed out"
|}.

#[local] Instance server : QuinnServer Z := {|
  server_endpoint _ := tt;
  endpoint_retry i e := (e, Err i);
  endpoint_refuse i e := (e, mkDatagram i []);
  endpoint_accept _ i e := (e, Ok (5, mkConn false false), []);
  incoming_validated _ := true;
  incoming_may_retry _ := false;
  incoming_remote i := i;
  incoming_orig_dst_cid _ := [x01];
  addr_is_unspecified _ := false
|}.

#[local] Instance order : HashOrder.
Proof. refine {| keys_of V m := (map_to_list m).*1 |}. done. Defined.

#[local] Instance shows : Shows := {| show_io _ := bstr "error"; show_secs _ := bstr "0.000" |}.

#[local] Instance env : ServerEnv Z QuicDemo.socket := {|
  load_stop := (fun w => (w, false)) : @UdpWorld Z QuicDemo.socket -> _;
  load_sink_failed := (fun w => (w, false)) : @UdpWorld Z QuicDemo.socket -> _;
  load_sink_done := (fun w => (w, true)) : @UdpWorld Z QuicDemo.socket -> _;
  read_sink_error := (fun w => (w, None)) : @UdpWorld Z QuicDemo.socket -> _;
  try_send _ := (fun w => (w, Sent)) : @UdpWorld Z QuicDemo.socket -> _;
  sleep _ := (fun w => w) : @UdpWorld Z QuicDemo.socket -> _;
  wall_now := (fun w => (w, 0)) : @UdpWorld Z QuicDemo.socket -> _
|}.

(** One connection with a test certificate, from a validated address only. *)
Definition config : DiagServerConfig (A := Z) :=
  mkConfig 1 [bstr "x"] (TestServer (mkTest [x02] [x03] [x04])) CertificateMode 5000000000 true (Some 1) None 32 128 25000000 0 1000000000.

Definition start : @UdpWorld Z (log_udp QuicDemo.socket) := (([[x09]; [x0a]], 0), []).

Abbreviation bound := (QuicRun.bind (U := log_udp QuicDemo.socket) config start).
Abbreviation demo_run s w := (run_server (U := log_udp QuicDemo.socket) (SE := log_env QuicDemo.socket env) 20 s w).

(** The run ends with one completed attempt. *)
Lemma demo_completes :
  match bound with
  | (w1, Ok s) => match demo_run s w1 with Done (_, summary) => completed (sum_stats summary) = 1 | _ => False end
  | _ => False
  end.
Proof. vm_compute. reflexivity. Qed.

Lemma quic_run_adds_up_witness :
  exists w1 s w2 summary, bound = (w1, Ok s) /\ demo_run s w1 = Done (w2, summary) /\ completed (sum_stats summary) = 1 /\
    exists l : list (ServerEvent Z * bool), NoDup (map id (recs l)) /\ completed (sum_stats summary) = counted is_completed (recs l).
Proof.
  pose proof demo_completes as Hc. destruct bound as [w1 [s|e]] eqn:Hb; [|destruct Hc].
  destruct (demo_run s w1) as [[w2 summary]| |] eqn:Hr; [|destruct Hc..].
  exists w1, s, w2, summary. split; [reflexivity|]. split; [exact Hr|]. split; [exact Hc|].
  destruct (quic_run_adds_up QuicDemo.socket env 20 config start w1 w2 s summary ltac:(vm_compute; discriminate) eq_refl Hb Hr)
    as (l & last & tries & delivered & _ & _ & _ & _ & Hn & _ & Hl & _).
  exists l. split; [exact Hn|exact Hl].
Defined.

End QuicServerDemo.
