(* ===== verification/QuicRecordsProps.v ===== *)
(** * The identity a QUIC server presents, and its records

    A host key that the server loads is, to every client of this repository,
    the key of the file: over QUIC the raw public key converts to the SSH blob
    the file holds, and a trust policy judges it as it would over TCP. Records
    are JSON values that read back from a line. *)

From stdpp Require Import gmap.
From S2P Require Import Prelude WireError NameList Primitives Messages KexInit KeyAlgorithm HostKey HostKeyProps.
From S2P Require Import Packet Gcm Transcript Trust Spki SpkiProps PrivateKey PrivateKeyProps KnownHosts KnownHostsProps Text TextProps FacadeTrust Seam.
From S2P Require Import Calendar Utf8 Display ProbeReport Records RecordsProps Durations QuicTls QuicClient QuicClientProps QuicReport.
From S2P Require Import HostSignature QuicIdentity QuicServer QuicRun QuicRunProps QuicRecords.

Open Scope Z_scope.
Import Spki Json Utf8 Quic QuicIdentity QuicServer QuicRun QuicRecords.

(** ** The host key *)

Lemma fingerprint_same f : Sha256Fingerprint.eq f f = true.
Proof.
  unfold Sha256Fingerprint.eq. cbn zeta. apply Z.eqb_eq. induction (Sha256Fingerprint.digest f) as [|b l IH]; [done|].
  cbn [combine foldl]. by rewrite Z.lxor_nilpotent.
Qed.

(** A policy that pins the fingerprint of a blob trusts it. *)
Lemma pin_trusts `{Hash} b fp : fp = Sha256Fingerprint.of_blob (PublicKeyBlob.as_bytes b) ->
  decide_trust (SharedPin (mkPinned fp)) (identity_from_blob b) = Trusted PinnedFingerprint.
Proof. intros ->. cbn. unfold pinned_decide. cbn. by rewrite fingerprint_same. Qed.

Section host_key.
Context `{R : Rustls, Sg : !Signing, Rc : Rcgen, Rg : Ring, H : Hash, DD : Dalek, DL : !DalekLaws DD}.
Context {A : Type} `{Q : !Quinn A} `{QS : !QuinnServer A} `{U : !Udp A}.
Context `{F : Fs, FS : !Display.FsShows F, D : !IdentityDir F} `{BP : Base64Padded, P : Pem}.
Context `{Sk : SshKey, SL : !SshKeyLaws Sk, DS : !DalekSigning DD, U8 : U8192, UL : !U8192Laws U8}.
Variable features : Features.

Lemma possession_proved signing key : prove_possession features signing key = Ok tt ->
  exists signer sig, choose_scheme signing (tls_scheme (HostKey.key_type key)) = Some signer /\
    sign signer POSSESSION_PROBE = Ok sig /\ probe_valid features key sig = true.
Proof.
  unfold prove_possession. destruct (choose_scheme _ _) as [signer|]; [|done]. destruct (sign _ _) as [sig|e] eqn:Es; [|done].
  cbn [map_err rbind]. destruct (probe_valid _ _ _) eqn:E; [|done]. by exists signer, sig.
Qed.

(** What [from_private_key_der] accepts for the blob of a known key. *)
Lemma private_key_der_identity enc der key h :
  HostKey.parse features (HostKey.to_blob key) = Ok key -> from_private_key_der features enc der (HostKey.to_blob key) = Ok h ->
  any_supported_type enc der = Ok (signing h) /\ prove_possession features (signing h) key = Ok tt /\
  h = mkHostKey (signing h) (HostKey.key_type key) (host_key_spki key) (HostKey.to_blob key).
Proof.
  intros Hp. unfold from_private_key_der. destruct (any_supported_type enc der) as [sk|]; [|done]. cbn [map_err rbind].
  destruct (sk_public_key sk) as [spki|]; [|done]. cbn [ok_or rbind].
  destruct (host_key_from_spki features spki) as [k|] eqn:Es; [|done]. cbn [map_err rbind].
  destruct (bytes_eqb (HostKey.to_blob k) (HostKey.to_blob key)) eqn:Eb; [|done]. apply bytes_eqb_eq in Eb. cbn [negb].
  destruct (bytes_eqb (host_key_spki k) spki); [|done]. cbn [negb].
  apply spki_iff in Es as (He & Hok & ->).
  assert (k = key) as ->.
  { assert (HostKey.parse features (HostKey.to_blob key) = Ok k) as Hp'; [|congruence].
    rewrite <- Eb, to_blob_image by done. by apply parse_iff. }
  destruct (prove_possession _ _ _) as [[]|] eqn:Ep; [|done]. cbn [rbind]. by intros [= <-].
Qed.

Lemma load_host_key_spec path :
  feat_ed25519 features = true ->
  match load_host_key features path with
  | None => False
  | Some (Err _) => True
  | Some (Ok h) => exists text key d, FacadeTrust.read_private_key path PrivateKey.MAX_PRIVATE_KEY_BYTES = Ok text /\
      PrivateKey.from_openssh features text = Some (Ok key) /\ PrivateKey.to_private_key_der key = Some d /\
      any_supported_type (encoding_of (PrivateKey.format d)) (PrivateKey.der_bytes d) = Ok (signing h) /\
      prove_possession features (signing h) (public_half key) = Ok tt /\
      HostKey.parse features (PrivateKey.ssh_blob key) = Ok (public_half key) /\
      h = mkHostKey (signing h) (PrivateKey.key_type key) (host_key_spki (public_half key)) (PrivateKey.ssh_blob key)
  end.
Proof.
  intros Hf. unfold load_host_key. destruct (FacadeTrust.read_private_key _ _) as [text|e]; [|done].
  destruct (from_openssh_spec features text Hf) as (r & Hr & _). rewrite Hr. cbn [mbind option_bind]. destruct r as [key|e]; [|done].
  destruct (private_key_der_reads features text key Hf Hr) as ((d & Hd & _) & Hp). rewrite Hd. cbn [mbind option_bind].
  assert (PrivateKey.ssh_blob key = HostKey.to_blob (public_half key)) as Eb by (by destruct key). rewrite Eb in Hp |- *.
  destruct (from_private_key_der _ _ _ _) as [h|e] eqn:Eh; [|done]. cbn [map_err].
  apply private_key_der_identity in Eh as (H1 & H2 & H3); [|done]. exists text, key, d.
  assert (PrivateKey.key_type key = HostKey.key_type (public_half key)) as -> by (by destruct key).
  rewrite Eb. split_and!; done.
Qed.

(** The verifier of [QuicClient] on the raw public key of [key]: it is judged as
    the SSH key it is. *)
Lemma judged_as_ssh key b t i :
  KeyType.is_enabled features (HostKey.key_type key) = true -> host_key_ok key -> end_entity i = host_key_spki key ->
  PublicKeyBlob.decode (HostKey.to_blob key) = Ok b ->
  let decision := decide_trust (ssh_policy t) (identity_from_blob b) in
  verify_ssh_host_key features t i =
    (Judged (KeyType.name (HostKey.key_type key)) (HostKey.to_blob key) (Sha256Fingerprint.of_blob (HostKey.to_blob key)) decision,
     match decision with Trusted _ => Ok tt | Untrusted reason => Err (other_error (host_not_trusted reason)) end).
Proof.
  intros He Hk Hi Hd decision. unfold verify_ssh_host_key. rewrite Hi.
  rewrite (proj2 (spki_iff features (host_key_spki key) key)) by done.
  apply decode_blob_iff in Hd as (name & body & Hl & Eb & ->). subst decision. unfold identity_from_blob.
  cbn [PublicKeyBlob.algorithm PublicKeyBlob.as_bytes].
  rewrite to_blob_image, key_image_body in Eb by done. apply sshstr_inj in Eb as [<- _]; [|apply key_type_name_len|done].
  by destruct key.
Qed.

(** What a prepared server with a host key file presents. *)
Definition serves (options : Options A) (path : Path) (p : Prepared (A := A)) : Prop :=
  exists text key der sk signer sig b,
    FacadeTrust.read_private_key path PrivateKey.MAX_PRIVATE_KEY_BYTES = Ok text /\
    PrivateKey.from_openssh features text = Some (Ok key) /\ PrivateKey.to_private_key_der key = Some der /\
    any_supported_type (encoding_of (PrivateKey.format der)) (PrivateKey.der_bytes der) = Ok sk /\
    choose_scheme sk (tls_scheme (PrivateKey.key_type key)) = Some signer /\ sign signer POSSESSION_PROBE = Ok sig /\
    probe_valid features (public_half key) sig = true /\
    (let config := s_config (server p) in
     server_crypto (QuicServer.identity config) (alpn config) (identity_mode config) =
       Ok (mkTls sk [host_key_spki (public_half key)] true (opt_alpn options))) /\
    presented_identity p = PresentedHostKey (PrivateKey.key_type key) (PrivateKey.fingerprint key) /\
    PublicKeyBlob.decode (PrivateKey.ssh_blob key) = Ok b /\ HostKey.parse features (PrivateKey.ssh_blob key) = Ok (public_half key) /\
    forall t i, end_entity i = host_key_spki (public_half key) ->
      verify_ssh_host_key features t i =
        let decision := decide_trust (ssh_policy t) (identity_from_blob b) in
        (Judged (KeyType.name (PrivateKey.key_type key)) (PrivateKey.ssh_blob key) (PrivateKey.fingerprint key) decision,
         match decision with Trusted _ => Ok tt | Untrusted reason => Err (other_error (host_not_trusted reason)) end).

(** C6: a QUIC server started with [--host-key FILE] never panics and either
    reports an error (with no socket opened, unless binding itself failed) or
    serves the key of that file: it has signed with the private half and checked
    the signature under the public half, and that private half is the key TLS
    signs with; the raw public key it presents is the SPKI of the file's key; the
    fingerprint it prints is that of the key's SSH blob; and any client of this
    repository that is shown this raw key records the same blob and fingerprint
    and takes the trust decision its policy takes for that blob over TCP. *)
Theorem quic_host_key_served options path dw (w : UdpWorld) :
  feat_ed25519 features = true -> host_key options = Some path ->
  match prepare features options dw w with
  | (_, _, None) => False
  | (_, w', Some (Err e)) => w' = w \/ exists why, e = RunBind why
  | (_, _, Some (Ok p)) => generate_identity options = false /\ serves options path p
  end.
Proof.
  intros Hf Hp. unfold prepare, load_identity. rewrite Hp. destruct (generate_identity options); [by left|].
  pose proof (load_host_key_spec path Hf) as Hl. destruct (load_host_key features path) as [[h|e]|]; [|by left|done].
  destruct Hl as (text & key & der & Ht & Hk & Hd & Ha & (signer & sig & S1 & S2 & S3)%possession_proved & Hb & Eh). cbn [fmap option_fmap option_map map_ok].
  destruct (QuicRun.bind _ w) as [w' [s|e]] eqn:Eb; cbn [map_err map_ok]; [|right; by eexists]. split; [done|].
  unfold QuicRun.bind in Eb. destruct (validate _) eqn:Ev; [|done]. destruct (udp_bind _ _) as [w1 [?|?]]; [|done].
  destruct (udp_local_addr _) as [w2 [bound|?]]; [|done]. destruct (core_new _ bound) as [core|] eqn:Ec; [|done].
  injection Eb as <- <-. unfold core_new in Ec. rewrite Ev in Ec. cbn [rbind] in Ec.
  destruct (server_crypto _ _ _) as [crypto|] eqn:Et; [|done]. cbn [rbind] in Ec.
  destruct (transport_config _) as [tr|]; [|done]. cbn [rbind] in Ec. injection Ec as <-.
  pose proof (proj1 (parse_iff features _ _) Hb) as (He & Hok & _).
  assert (PrivateKey.ssh_blob key = HostKey.to_blob (public_half key)) as Ek by (by destruct key).
  assert (PrivateKey.key_type key = HostKey.key_type (public_half key)) as Ety by (by destruct key).
  assert (exists b, PublicKeyBlob.decode (PrivateKey.ssh_blob key) = Ok b) as [b Hdb].
  { rewrite Ek, to_blob_image, key_image_body by done. eexists. apply decode_blob_iff. eexists _, _. split_and!; [apply key_type_name_len|done|done]. }
  exists text, key, der, (signing h), signer, sig, b. rewrite <- Ety in S1. split_and!; try done.
  - cbn [server s_config]. rewrite Et. rewrite Eh in Et. unfold server_crypto in Et.
    cbn in Et. destruct (validate_alpn (opt_alpn options)) as [?|?]; [|done]. destruct (tls13_versions) as [?|?]; [|done]. destruct quic_initial_suite as [?|?]; [|done].
    by injection Et as <-.
  - cbn. unfold ssh_fingerprint, PrivateKey.fingerprint. by rewrite Eh.
  - intros t i Hi. rewrite Ety. unfold PrivateKey.fingerprint. rewrite Ek in Hdb |- *. by apply judged_as_ssh.
Qed.
End host_key.

(** ** An example server *)

Module HostKeyDemo.
Import QuicServerDemo.

(** The file holds an Ed25519 pair whose public key is the one key of the curve
    library. *)
#[local] Existing Instances one_key one_key_laws u8192_ref u8192_ref_laws letters_codec QuicDemo.tls QuicDemo.digest QuicDemo.socket.
#[local] Existing Instances certs quinn server.

#[local] Instance one_ed25519 : SshKey := {|
  SkMpint := bytes;
  as_positive_bytes _ := None;
  SkPrivateKey := unit;
  sk_is_encrypted _ := false;
  sk_algorithm _ := "ssh-ed25519"%string;
  sk_key_data _ := KpEd25519 (replicate 32 x09) (replicate 32 x05);
  sk_from_openssh _ := Ok tt
|}.

#[local] Instance one_ed25519_laws : SshKeyLaws one_ed25519.
Proof. split; [done|]. intros k pub priv E. cbn in E. by injection E as <- <-. Qed.

#[local] Instance one_signer : DalekSigning one_key := {| sk_verifying_key _ := tt |}.

#[local] Instance ring : Ring := {|
  ring_rsa_pkcs1_sha256 _ _ _ _ := false;
  ring_rsa_pkcs1_sha512 _ _ _ _ := false;
  ring_rsa_pss_sha256 _ _ _ _ := false;
  ring_ecdsa_p256_fixed _ _ _ := false;
  ring_ecdsa_p256_asn1 _ _ _ := false;
  ring_ed25519 key _ sig := bytes_eqb key sig
|}.

#[local] Instance signing_keys : Signing := {|
  SigningKey := bytes;
  Signer := bytes;
  any_supported_type _ _ := Ok (replicate 32 x09);
  load_private_key _ := Ok (replicate 32 x09);
  sk_public_key k := Some (ED25519_SPKI_PREFIX ++ k);
  choose_scheme k _ := Some k;
  sign k _ := Ok k
|}.

#[local] Instance key_file : Fs := one_file PrivateKey.MARKER.
#[local] Instance key_file_shows : Display.FsShows key_file := {| Display.show_fs_path _ := bstr "key"; Display.show_fs_error _ := bstr "error" |}.

#[local] Instance no_dir : IdentityDir key_file := {|
  DirWorld := unit;
  DirFile := unit;
  show_in_dir _ f := f;
  dir_exists _ _ _ := false;
  dir_read _ _ _ := Err (io_error WouldBlock);
  dir_create_all _ w := (w, Ok tt);
  dir_create_new _ _ _ w := (w, Ok tt);
  dir_write_all _ _ w := (w, Ok tt);
  dir_flush _ w := (w, Ok tt)
|}.

#[local] Instance no_pem : Pem := {|
  PemReadError := unit;
  show_pem_read _ := [];
  cert_from_pem _ := Err tt;
  key_from_pem _ := Err tt
|}.

Definition features : Features := mkFeatures true true true.

Definition options : Options Z :=
  mkOptions Z key_file 1 [bstr "x"] tt (Some tt) false [] false 5000000000 None None 32 128 512.

Abbreviation started := (prepare (A := Z) (D := no_dir) features options tt (([], 0) : @UdpWorld Z QuicDemo.socket)).

(** The server starts. *)
Lemma demo_starts : match started with (_, _, Some (Ok _)) => true | _ => false end = true.
Proof. vm_compute. reflexivity. Qed.

(** Its key is trusted by a client that pins the fingerprint it prints. *)
Lemma quic_host_key_served_witness :
  match started with
  | (_, _, Some (Ok p)) => exists kt fp spki, presented_identity p = PresentedHostKey kt fp /\
      forall i, end_entity i = spki ->
        snd (verify_ssh_host_key features (mkSshHostTrust (SharedPin (mkPinned fp)) "pin" None) i) = Ok tt
  | _ => False
  end.
Proof.
  pose proof (quic_host_key_served features options tt tt ([], 0) eq_refl eq_refl) as Hs. pose proof demo_starts as Hd.
  destruct started as [[dw w] [[p|e]|]]; [|discriminate Hd..].
  destruct Hs as (_ & text & key & der & sk & signer & sig & b & _ & _ & _ & _ & _ & _ & _ & _ & Hp & Hb & _ & Hv).
  exists (PrivateKey.key_type key), (PrivateKey.fingerprint key), (host_key_spki (public_half key)). split; [exact Hp|].
  intros i Hi. rewrite (Hv _ i Hi). cbn zeta. cbn [snd ssh_policy].
  rewrite (pin_trusts b (PrivateKey.fingerprint key)); [reflexivity|].
  apply decode_blob_iff in Hb as (name & body & Hl & Eb & ->). reflexivity.
Defined.
End HostKeyDemo.
