(* ===== verification/QuicLog.v ===== *)
(** * The log of a QUIC observer run

    [DiagServer::run] with the sink of [Prepared::run_jsonl] in its own thread,
    behind the bounded channel: the threads meet only in the channel and the
    shared flags, so the steps of the sink thread are taken between the main
    thread's operations on these, as often as a schedule says. Whatever the
    schedule, the peers and the writer do, the file read back is a sequence of
    records of the events the run handed over. *)

From stdpp Require Import gmap.
From S2P Require Import Prelude WireError NameList Primitives Messages KexInit KeyAlgorithm HostKey HostKeyProps.
From S2P Require Import Packet Gcm Transcript Trust Spki SpkiProps KnownHosts KnownHostsProps Text TextProps FacadeTrust Seam.
From S2P Require Import Calendar Utf8 Display ProbeReport Records RecordsProps ObserverLog Durations QuicTls QuicClient QuicClientProps QuicReport.
From S2P Require Import HostSignature QuicIdentity QuicServer QuicServerProps QuicRun QuicRunProps QuicRecords.

Open Scope Z_scope.
Import Json Utf8 Quic QuicIdentity QuicServer QuicRun QuicRecords.

(** ** Records are values that read back *)

Abbreviation good := RecordsProps.good.

(** The integers of an event are those its types can hold. *)
Definition typed_hello (h : ClientHelloRecord) : Prop := u64 (hellos_seen h).

Definition typed_stats (s : CoreStats) : Prop :=
  u64 (incoming s) /\ u64 (accepted s) /\ u64 (observed s) /\ u64 (completed s) /\ u64 (failed s) /\ u64 (timed_out s) /\
  u64 (dropped_at_capacity s) /\ u64 (retries_sent s) /\ u64 (version_negotiations_sent s) /\ u64 (endpoint_responses_sent s) /\
  u64 (datagrams_received s) /\ u64 (datagrams_sent s).

Definition typed_event {A} (ev : ServerEvent A) : Prop :=
  match ev with
  | Started _ _ _ => True
  | Overload n m => u64 n /\ u64 m
  | Stopped s => typed_stats (sum_stats s) /\ u64 (records_dropped s) /\ u64 (abandoned s) /\ 0 <= sum_elapsed s
  | ConnectionRecord o => u64 (id o) /\ 0 <= elapsed o /\ u64 (obs_quic_version o) /\ u64 (unexpected_streams o) /\
      u64 (unexpected_datagrams o) /\ from_option typed_hello True (offered o)
  end.

Section good.
Context {A : Type} `{SA : !Display.ShowAddr A, B64 : Base64}.
Context {W : Type} (system_now : W -> W * Z).

Lemma good_bytes_value b n : good (QuicReport.bytes_value b n).
Proof. unfold QuicReport.bytes_value. case_match; auto 10 with good. Qed.

Lemma good_bytes_list l n : good (QuicReport.bytes_list l n).
Proof. apply good_array, Forall_map, Forall_forall. intros. apply good_bytes_value. Qed.

Lemma good_string_list l : good (QuicReport.string_list l).
Proof. apply good_strings, Forall_map, Forall_forall. intros. apply lossy_scalar. Qed.

Lemma good_quic_rfc3339 t : good (Str (QuicTime.rfc3339 t)).
Proof. rewrite QuicTime.rfc3339_same. apply good_rfc3339. Qed.

Lemma good_quic_millis d : 0 <= d -> good (UInt (QuicTime.millis d)).
Proof. apply good_millis. Qed.

#[local] Hint Resolve good_bytes_value good_bytes_list good_string_list good_quic_rfc3339 good_quic_millis good_some : good.

Lemma good_quic_envelope s w : good_fields (snd (envelope system_now s w)).
Proof.
  unfold envelope, now_rfc3339. destruct (system_now w) as [w' t]. cbn [snd].
  apply good_field; [|auto with good]. apply good_field; [|auto with good]. apply good_field; [|auto with good].
  apply good_field; [auto with good|]. cbn. unfold QuicRecords.SCHEMA_VERSION, U64_MAX. lia.
Qed.

Lemma good_offered obj h n : good_fields obj -> from_option typed_hello True h -> good_fields (offered_fields obj h n).
Proof. destruct h as [h|]; cbn [from_option offered_fields]; intros; unfold typed_hello in *; auto 30 with good. Qed.

#[local] Hint Resolve good_offered : good.

Lemma good_quic_observation o n w : typed_event (ConnectionRecord o) -> good (snd (observation_record system_now o n w)).
Proof.
  intros (H1 & H2 & H3 & H4 & H5 & H6). unfold observation_record. pose proof (good_quic_envelope "quic_handshake_observation" w) as He.
  destruct (envelope _ _ _) as [w' obj]. cbn [snd] in *. auto 60 with good.
Qed.

Lemma good_quic_summary s w : typed_event (Stopped s) -> good (snd (summary_record system_now s w)).
Proof.
  intros ((H1 & H2 & H3 & H4 & H5 & H6 & H7 & H8 & H9 & H10 & H11 & H12) & H13 & H14 & H15). unfold summary_record.
  pose proof (good_quic_envelope "quic_listener_stopped" w) as He. destruct (envelope _ _ _) as [w' obj]. cbn [snd] in *. auto 60 with good.
Qed.

Lemma good_quic_encode enc ev w : typed_event ev -> good (snd (encode system_now enc ev w)).
Proof.
  destruct ev as [a i l|o|n m|s]; cbn [encode]; intros Ht.
  - pose proof (good_quic_envelope "quic_listener_started" w) as He. destruct (envelope _ _ _). cbn [snd] in *.
    assert (u64 QUIC_VERSION_1) by done. auto 60 with good.
  - by apply good_quic_observation.
  - destruct Ht. pose proof (good_quic_envelope "overload" w) as He. destruct (envelope _ _ _). cbn [snd] in *. auto with good.
  - by apply good_quic_summary.
Qed.
End good.

(** ** What every call keeps, a run keeps *)

Section keeps.
Context `{R : Rustls, Sg : !Signing, Rc : Rcgen, H : Hash} {A : Type} `{Q : !Quinn A} `{QS : !QuinnServer A} `{HO : HashOrder}.
Context `{U : !Udp A} `{SE : !ServerEnv A U} `{Sh : Display.Shows}.

Definition kept {X} (P : UdpWorld -> Prop) (f : UdpWorld -> UdpWorld * X) : Prop := forall w w' x, P w -> f w = (w', x) -> P w'.

Record keeps (P : UdpWorld -> Prop) : Prop := mkKeeps {
  k_bind : forall a, kept P (udp_bind a);
  k_local : kept P udp_local_addr;
  k_timeout : forall t, kept P (udp_set_read_timeout t);
  k_recv : forall n, kept P (udp_recv_from n);
  k_send : forall d a, kept P (udp_send_to d a);
  k_now : kept P udp_now;
  k_stop : kept P load_stop;
  k_failed : kept P load_sink_failed;
  k_done : kept P load_sink_done;
  k_error : kept P read_sink_error;
  k_try : forall e, kept P (try_send e);
  k_sleep : forall d w, P w -> P (sleep d w);
  k_wall : kept P wall_now
}.

Context (P : UdpWorld -> Prop) (K : keeps P).

(** [E] is a call from a world that satisfies [P]. *)
Ltac kept_by E := first
  [ eapply (k_now P K) in E; [|done] | eapply (k_failed P K) in E; [|done] | eapply (k_stop P K) in E; [|done]
  | eapply (k_wall P K) in E; [|done] | eapply (k_done P K) in E; [|done] | eapply (k_try P K) in E; [|done]
  | eapply (k_error P K) in E; [|done] | eapply (k_send P K) in E; [|done] | eapply (k_timeout P K) in E; [|done]
  | eapply (k_recv P K) in E; [|done] | eapply (k_bind P K) in E; [|done] | eapply (k_local P K) in E; [|done] ].

Lemma send_all_keeps out : kept P (QuicClient.send_all out).
Proof.
  induction out as [|d out IH]; intros w w' r Hw; cbn [QuicClient.send_all]; [by intros [= <- _]|].
  destruct (udp_send_to _ _ w) as [w1 [?|e]] eqn:E; kept_by E; [by apply IH|].
  destruct (kind e); first [by apply IH | by intros [= <- _]].
Qed.

Lemma recv_keeps n t : kept P (QuicClient.recv_with_timeout n t).
Proof.
  intros w w' r Hw. unfold QuicClient.recv_with_timeout. destruct (udp_set_read_timeout _ w) as [w1 [?|e]] eqn:E; kept_by E; [|by intros [= <- _]].
  destruct (udp_recv_from n w1) as [w2 [?|e]] eqn:E2; kept_by E2; [by intros [= <- _]|]. destruct (kind e); by intros [= <- _].
Qed.

Lemma step_keeps fuel (config : DiagServerConfig (A := A)) now hd core out w w' core' out' res :
  P w -> QuicRun.step fuel config now hd core out w = Done (w', core', out', res) -> P w'.
Proof.
  intros Hw. unfold QuicRun.step. destruct (QuicClient.send_all out w) as [w1 [?|e]] eqn:E1; eapply send_all_keeps in E1; try done; [|by intros [= <- _ _ _]].
  match goal with |- context [QuicClient.recv_with_timeout ?l ?t w1] => destruct (QuicClient.recv_with_timeout l t w1) as [w2 [received|e]] eqn:E2 end;
    eapply recv_keeps in E2; try done; [|by intros [= <- _ _ _]].
  destruct received as [[data from]|].
  - destruct (udp_now w2) as [wa t] eqn:Ea. kept_by Ea. destruct (wall_now wa) as [wb t'] eqn:Eb. kept_by Eb.
    intros ([c1 o1] & _ & Hr)%run_bind_done. destruct (udp_now wb) as [w4 t4] eqn:E4. kept_by E4.
    apply run_bind_done in Hr as ([c2 o2] & _ & Hr). destruct (QuicClient.send_all _ w4) as [w5 r] eqn:E5.
    eapply send_all_keeps in E5; [|done]. by injection Hr as <- _ _ _.
  - cbn [run_bind]. destruct (udp_now w2) as [w4 t4] eqn:E4. kept_by E4.
    intros ([c2 o2] & _ & Hr)%run_bind_done. destruct (QuicClient.send_all _ w4) as [w5 r] eqn:E5.
    eapply send_all_keeps in E5; [|done]. by injection Hr as <- _ _ _.
Qed.

Lemma emit_keeps e d w w' d' : P w -> emit e d w = (w', d') -> P w'.
Proof. intros Hw. unfold emit. destruct (try_send e w) as [w1 []] eqn:E; kept_by E; by intros [= <- _]. Qed.

Lemma emit_all_keeps l d w w' d' : P w -> emit_all l d w = (w', d') -> P w'.
Proof.
  revert d w. induction l as [|o l IH]; intros d w Hw; cbn [emit_all]; [by intros [= <- _]|].
  destruct (emit _ d w) as [w1 d1] eqn:E. eapply emit_keeps in E; [|done]. by apply IH.
Qed.

Lemma report_keeps config now s w w' s' : P w -> report_overload config now s w = (w', s') -> P w'.
Proof.
  intros Hw. unfold report_overload. destruct (_ <? _); [|by intros [= <- _]].
  destruct (last_overload_report s) as [t|].
  - destruct (udp_now w) as [w1 n] eqn:E. kept_by E. destruct (_ <=? _); [|by intros [= <- _]].
    destruct (emit _ _ w1) as [w2 d] eqn:E2. eapply emit_keeps in E2; [|done]. by intros [= <- _].
  - destruct (emit _ _ w) as [w2 d] eqn:E2. eapply emit_keeps in E2; [|done]. by intros [= <- _].
Qed.

Lemma main_keeps fuel config dl s w w' s' why err : P w -> main_loop fuel config dl s w = Done (w', s', why, err) -> P w'.
Proof.
  revert s w. induction fuel as [|fuel IH]; intros s w Hw; [done|]. cbn [main_loop].
  destruct (load_stop w) as [w1 []] eqn:E1; kept_by E1; [by intros [= <- _ _ _]|].
  destruct (load_sink_failed w1) as [w2 []] eqn:E2; kept_by E2; [by intros [= <- _ _ _]|].
  destruct (udp_now w2) as [w3 n] eqn:E3. kept_by E3. destruct (match dl with Some d => _ | None => _ end); [by intros [= <- _ _ _]|].
  destruct (match max_connections config with Some m => _ | None => _ end); [by intros [= <- _ _ _]|].
  destruct (report_overload _ _ s w3) as [w4 s4] eqn:E4. eapply report_keeps in E4; [|done].
  intros ([[[w5 core] out] [?|e]] & Hs & Hr)%run_bind_done; (eapply step_keeps in Hs; [|done]).
  - destruct (drain_observations core) as [core' l]. destruct (emit_all l _ w5) as [w6 d] eqn:E6. eapply emit_all_keeps in E6; [|done]. by eapply IH.
  - by injection Hr as <- _ _ _.
Qed.

Lemma wind_keeps fuel config ge s w w' s' : P w -> wind_down fuel config ge s w = Done (w', s') -> P w'.
Proof.
  revert s w. induction fuel as [|fuel IH]; intros s w Hw; [done|]. cbn [wind_down]. destruct (_ <=? _); [by intros [= <- _]|].
  destruct (udp_now w) as [w1 n] eqn:E1. kept_by E1. destruct (negb _); [by intros [= <- _]|].
  destruct (udp_now w1) as [w2 n'] eqn:E2. kept_by E2.
  intros ([[[w5 core] out] [?|e]] & Hs & Hr)%run_bind_done; (eapply step_keeps in Hs; [|done]); [|by injection Hr as <- _].
  destruct (drain_observations core) as [core' l]. destruct (emit_all l _ w5) as [w6 d] eqn:E6. eapply emit_all_keeps in E6; [|done]. by eapply IH.
Qed.

Lemma finish_keeps fuel config bound started s why err w w' sum : P w -> QuicRun.finish fuel config bound started s why err w = Done (w', sum) -> P w'.
Proof.
  intros Hw. unfold QuicRun.finish. destruct (udp_now w) as [w1 n] eqn:E1. kept_by E1.
  intros ([w2 s2] & H2 & Hr)%run_bind_done.
  assert (P w2) by (destruct (is_immediate why); [by injection H2 as <- _|by eapply wind_keeps]).
  destruct (udp_now w2) as [w3 n3] eqn:E3. kept_by E3. apply run_bind_done in Hr as ([[core out] ab] & _ & Hr).
  destruct (QuicClient.send_all out w3) as [w4 r4] eqn:E4. eapply send_all_keeps in E4; [|done].
  destruct (drain_observations core) as [core' l]. destruct (emit_all l _ w4) as [w5 d5] eqn:E5. eapply emit_all_keeps in E5; [|done].
  destruct (if _ <? _ then _ else _) as [w6 d6] eqn:E6.
  assert (P w6) by (revert E6; destruct (_ <? _); [by apply emit_keeps|by intros [= <- _]]).
  destruct (match why with SinkFailed => _ | _ => _ end) as [w7 e7] eqn:E7.
  assert (P w7) by (destruct why; [by injection E7 as <- _..| |by injection E7 as <- _]; by kept_by E7).
  destruct (udp_now w7) as [w8 n8] eqn:E8. kept_by E8. by injection Hr as <- _.
Qed.

Lemma stopped_keeps fuel e until d w w' d' : P w -> send_stopped fuel e until d w = Done (w', d') -> P w'.
Proof.
  revert w. induction fuel as [|fuel IH]; intros w Hw; [done|]. cbn [send_stopped].
  destruct (try_send e w) as [w1 []] eqn:E; kept_by E; [by intros [= <- _]| |by intros [= <- _]].
  destruct (udp_now w1) as [w2 t] eqn:E2. kept_by E2. destruct (t <? until); [|by intros [= <- _]]. apply IH. by apply (k_sleep P K).
Qed.

Lemma await_keeps fuel until w w' : P w -> await_sink fuel until w = Done w' -> P w'.
Proof.
  revert w. induction fuel as [|fuel IH]; intros w Hw; [done|]. cbn [await_sink].
  destruct (load_sink_done w) as [w1 []] eqn:E; kept_by E; [by intros [= <-]|].
  destruct (udp_now w1) as [w2 t] eqn:E2. kept_by E2. destruct (t <? until); [|by intros [= <-]]. apply IH. by apply (k_sleep P K).
Qed.

(** Every property of the world that each call keeps holds after binding and
    after a run. *)
Lemma run_keeps fuel config w w1 w2 server summary :
  P w -> QuicRun.bind config w = (w1, Ok server) -> run_server fuel server w1 = Done (w2, summary) -> P w2.
Proof.
  intros Hw Hb. unfold QuicRun.bind in Hb. destruct (validate _) as [?|?]; [|done]. destruct (udp_bind _ w) as [wa [?|?]] eqn:Ea; [|done]. kept_by Ea.
  destruct (udp_local_addr wa) as [wb [?|?]] eqn:Eb; [|done]. kept_by Eb. injection Hb as <- _.
  unfold run_server. destruct (udp_now wb) as [wc t] eqn:Ec. kept_by Ec. destruct (emit _ _ wc) as [wd d] eqn:Ed. eapply emit_keeps in Ed; [|done].
  intros ([[[we s] why] err] & Hm & Hr)%run_bind_done. eapply main_keeps in Hm; [|done].
  apply run_bind_done in Hr as ([wf sum] & Hf & Hr). eapply finish_keeps in Hf; [|done].
  destruct (udp_now wf) as [wg tg] eqn:Eg. kept_by Eg. apply run_bind_done in Hr as ([wh dh] & Hs & Hr). eapply stopped_keeps in Hs; [|done].
  destruct (udp_now wh) as [wi ti] eqn:Ei. kept_by Ei. apply run_bind_done in Hr as (wj & Ha & [= <- _]). by eapply await_keeps.
Qed.
End keeps.

(** ** The sink thread *)

Section thread.
Context {A W : Type} `{SA : !Display.ShowAddr A, B64 : Base64, Sh : Display.Shows, Ou : LogOut W}.
Context (enc : QuicRecords.Encoder).

(** Between two steps the thread waits for an event, is about to set the flag
    after a failed write, is about to store the error's text, or has ended. *)
Inductive SinkPhase : Type := SinkReady | SinkFailing (e : IoError) | SinkStoring (e : IoError) | SinkEnded.

(** [taken] and [given] are the events received from the channel so far and
    those the sink was called with. *)
Record Thread : Type := mkThread {
  queue : list (ServerEvent A);
  open : bool;
  phase : SinkPhase;
  sink_failed : bool;
  sink_error : option bytes;
  sink_done : bool;
  out : W;
  taken : list (ServerEvent A);
  given : list (ServerEvent A);
  schedule : list nat
}.
Implicit Types (th : Thread) (ev : ServerEvent A).

Definition quic_encode ev (w : W) : W * Value := encode system_now enc ev w.
Definition quic_sink ev (w : W) : W * result unit IoError := jsonl_sink system_now write_all flush enc ev w.

(* quic/diag/server.rs:961-974 DiagServer::run *)
Definition sink_turn th : Thread :=
  match phase th with
  | SinkFailing e => mkThread (queue th) (open th) (SinkStoring e) true (sink_error th) (sink_done th) (out th) (taken th) (given th) (schedule th)
  | SinkStoring e =>
      mkThread (queue th) (open th) SinkReady (sink_failed th) (Some (Display.show_io e)) (sink_done th) (out th) (taken th) (given th) (schedule th)
  | SinkEnded => th
  | SinkReady =>
      match queue th with
      | [] =>
          if open th then th
          else mkThread [] false SinkEnded (sink_failed th) (sink_error th) true (out th) (taken th) (given th) (schedule th)
      | ev :: rest =>
          if sink_failed th
          then mkThread rest (open th) SinkReady true (sink_error th) (sink_done th) (out th) (taken th ++ [ev]) (given th) (schedule th)
          else
            let '(w, r) := quic_sink ev (out th) in
            mkThread rest (open th) (match r with Ok _ => SinkReady | Err e => SinkFailing e end) false (sink_error th) (sink_done th) w
              (taken th ++ [ev]) (given th ++ [ev]) (schedule th)
      end
  end.

Definition turns (n : nat) th : Thread := Nat.iter n sink_turn th.

(** The steps the schedule grants the thread now. *)
Definition yielded th : Thread :=
  match schedule th with
  | [] => th
  | n :: rest =>
      turns n (mkThread (queue th) (open th) (phase th) (sink_failed th) (sink_error th) (sink_done th) (out th) (taken th) (given th) rest)
  end.

Definition enqueue ev th : Thread :=
  mkThread (queue th ++ [ev]) (open th) (phase th) (sink_failed th) (sink_error th) (sink_done th) (out th) (taken th) (given th) (schedule th).

Definition close_channel th : Thread :=
  mkThread (queue th) false (phase th) (sink_failed th) (sink_error th) (sink_done th) (out th) (taken th) (given th) (schedule th).

Definition start_thread (w : W) (sched : list nat) : Thread := mkThread [] true SinkReady false None false w [] [] sched.

(** *** The main thread's side *)

Context (U : Udp A) (SE : ServerEnv A U) (capacity : Z).

Definition beside {X} (f : @UdpWorld A U -> @UdpWorld A U * X) (w : @UdpWorld A U * Thread) : (@UdpWorld A U * Thread) * X :=
  let '(w', x) := f (fst w) in ((w', snd w), x).

Definition threaded_udp : Udp A := {|
  UdpWorld := @UdpWorld A U * Thread;
  udp_bind a := beside (udp_bind a);
  udp_local_addr := beside udp_local_addr;
  udp_set_read_timeout t := beside (udp_set_read_timeout t);
  udp_recv_from n := beside (udp_recv_from n);
  udp_send_to d a := beside (udp_send_to d a);
  udp_now := beside udp_now;
  addr_is_loopback := addr_is_loopback;
  addr_is_ipv4 := addr_is_ipv4;
  addr_with_port := addr_with_port;
  addr_any_v4 := addr_any_v4;
  addr_any_v6 := addr_any_v6
|}.

(** Reading a flag, after the thread has moved on. *)
Definition observe {X} (f : Thread -> X) (w : @UdpWorld A U * Thread) : (@UdpWorld A U * Thread) * X :=
  let th := yielded (snd w) in ((fst w, th), f th).

(** [sync_channel(capacity)]: the receiver lives as long as the sender. The
    sender is dropped before [sink_done] is first read. *)
Definition threaded_env : ServerEnv A threaded_udp := {|
  load_stop := beside load_stop : @UdpWorld A threaded_udp -> _;
  load_sink_failed := observe sink_failed : @UdpWorld A threaded_udp -> _;
  load_sink_done := (fun w => observe sink_done (fst w, close_channel (snd w))) : @UdpWorld A threaded_udp -> _;
  read_sink_error := observe sink_error : @UdpWorld A threaded_udp -> _;
  try_send e := (fun w =>
    let th := yielded (snd w) in
    if negb (open th) then ((fst w, th), Disconnected)
    else if zlen (queue th) <? capacity then ((fst w, enqueue e th), Sent)
    else ((fst w, th), Full)) : @UdpWorld A threaded_udp -> _;
  sleep d := (fun w => (sleep d (fst w), yielded (snd w))) : @UdpWorld A threaded_udp -> _;
  wall_now := beside wall_now : @UdpWorld A threaded_udp -> _
|}.
End thread.

(** ** The log *)

Section log.
Context {A W : Type} `{SA : !Display.ShowAddr A, B64 : Base64, Sh : Display.Shows, Ou : LogOut W} {OL : LogOutLaws W}.
Context (enc : QuicRecords.Encoder).
Abbreviation Thread := (Thread (A := A) (W := W)).
Implicit Types (th : Thread) (ev : ServerEvent A) (w : W).

Definition quic_recorded ev (v : Value) : Prop := exists w, snd (quic_encode enc ev w) = v.

Lemma quic_encode_written ev w : written (fst (quic_encode enc ev w)) = written w.
Proof.
  assert (forall k x, written (fst (envelope system_now k x)) = written x) as He.
  { intros k x. unfold envelope, now_rfc3339. pose proof (now_keeps x) as H. by destruct (system_now x). }
  unfold quic_encode. destruct ev as [a i l|o|n m|s]; cbn [encode]; unfold observation_record, summary_record.
  - pose proof (He "quic_listener_started" w) as H. by destruct (envelope _ _ _).
  - pose proof (He "quic_handshake_observation" w) as H. by destruct (envelope _ _ _).
  - pose proof (He "overload" w) as H. by destruct (envelope _ _ _).
  - pose proof (He "quic_listener_stopped" w) as H. by destruct (envelope _ _ _).
Qed.

(** What one call of the sink does to the file. *)
Lemma quic_sink_spec ev w w' r : quic_sink enc ev w = (w', r) ->
  exists p, written w' = written w ++ p /\ p `prefix_of` line_of (snd (quic_encode enc ev w)) /\
    (r = Ok tt -> p = line_of (snd (quic_encode enc ev w))).
Proof.
  unfold quic_sink, jsonl_sink. fold (quic_encode enc ev w). pose proof (quic_encode_written ev w) as Hw.
  destruct (quic_encode enc ev w) as [w1 v]. cbn [fst snd] in *. fold (line_of v).
  pose proof (write_all_takes (line_of v) w1) as Ht. destruct (write_all (line_of v) w1) as [w2 [u|e]].
  - pose proof (flush_keeps w2) as Hf. destruct (flush w2) as [w3 [u'|e]]; intros [= <- <-]; cbn [fst] in Hf;
      exists (line_of v); (split_and!; [by rewrite Hf, Ht, Hw|done|done]).
  - intros [= <- <-]. destruct Ht as (p & Hp & Ht). exists p. split_and!; [by rewrite Ht, Hw|done|done].
Qed.

(** A write has failed. *)
Definition broken th : bool := sink_failed th || match phase th with SinkFailing _ => true | _ => false end.

Definition file_inv th : Prop :=
  exists evs vs tail, written (out th) = log_of vs ++ tail /\ Forall2 quic_recorded evs vs /\
    ((tail = [] /\ given th = evs) \/
     (broken th = true /\ exists ev v, given th = evs ++ [ev] /\ quic_recorded ev v /\ tail `prefix_of` line_of v)).

Record thread_inv th : Prop := mkThreadInv {
  ti_file : file_inv th;
  ti_prefix : given th `prefix_of` taken th;
  ti_all : broken th = false -> given th = taken th;
  ti_done : sink_done th = true -> queue th = [] /\ open th = false
}.

Lemma file_inv_same th th' : out th' = out th -> given th' = given th -> (broken th = true -> broken th' = true) -> file_inv th -> file_inv th'.
Proof. intros Ho Hg Hb (evs & vs & tail & H1 & H2 & H3). exists evs, vs, tail. rewrite Ho, Hg. naive_solver. Qed.

Lemma sink_turn_inv th : thread_inv th -> thread_inv (sink_turn enc th) /\ taken (sink_turn enc th) ++ queue (sink_turn enc th) = taken th ++ queue th.
Proof.
  intros [Hf Hp Ha Hd]. unfold sink_turn. destruct (phase th) as [|e|e|] eqn:Eph; cycle 1.
  - split; [|done]. split; [|done|done|done]. by apply (file_inv_same th).
  - split; [|done]. split; [|done| |done].
    + apply (file_inv_same th); try done. unfold broken. cbn [sink_failed phase]. by rewrite Eph.
    + intros Hb. apply Ha. unfold broken in *. cbn [sink_failed phase] in Hb. by rewrite Eph.
  - done.
  - destruct (queue th) as [|ev rest] eqn:Eq.
    + destruct (open th) eqn:Eo; [split; [split; [done|done|done|by rewrite Eq, Eo]|by rewrite Eq]|]. split; [|done]. split; cbn; [|done| |done].
      * apply (file_inv_same th); try done. unfold broken. cbn [sink_failed phase]. by rewrite Eph.
      * intros Hb. apply Ha. unfold broken in *. cbn [sink_failed phase] in Hb. by rewrite Eph.
    + assert (sink_done th = false) as Ed by (destruct (sink_done th); [by destruct (Hd eq_refl)|done]).
      destruct (sink_failed th) eqn:Efl.
      * split; [|cbn; by rewrite <- app_assoc]. split; cbn; [|by apply prefix_app_r|done|by rewrite Ed].
        apply (file_inv_same th); try done. 
      * assert (broken th = false) as Hb by (unfold broken; by rewrite Efl, Eph). specialize (Ha Hb).
        destruct Hf as (evs & vs & tail & Hw & Hr & [[-> Hg]|[Hb' _]]); [|congruence]. rewrite app_nil_r in Hw.
        destruct (quic_sink enc ev (out th)) as [w r] eqn:Es. destruct (quic_sink_spec _ _ _ _ Es) as (p & Hw' & Hpp & Hok).
        split; [|cbn; by rewrite <- app_assoc]. split; cbn; [|by rewrite Ha|by rewrite Ha|by rewrite Ed].
        destruct r as [[]|e].
        -- exists (evs ++ [ev]), (vs ++ [snd (quic_encode enc ev (out th))]), []. cbn. rewrite Hw', (Hok eq_refl), log_of_snoc, app_nil_r, Hw, Hg.
           split_and!; [done| |by left]. apply Forall2_app; [done|]. constructor; [by exists (out th)|constructor].
        -- exists evs, vs, p. cbn. rewrite Hw', Hw. split_and!; [done..|]. right. split; [done|].
           exists ev, (snd (quic_encode enc ev (out th))). rewrite Hg. split_and!; [done|by exists (out th)|done].
Qed.

Lemma turns_inv n th : thread_inv th -> thread_inv (turns enc n th) /\ taken (turns enc n th) ++ queue (turns enc n th) = taken th ++ queue th.
Proof.
  intros Hi. induction n as [|n [IH1 IH2]]; [done|]. unfold turns in *. cbn [Nat.iter]. destruct (sink_turn_inv _ IH1) as [H1 H2].
  split; [done|]. by etrans.
Qed.
End log.

(** ** A run and its log *)

Section run_log.
Context `{R : Rustls, Sg : !Signing, Rc : Rcgen, H : Hash} {A : Type} `{Q : !Quinn A} `{QS : !QuinnServer A} `{HO : HashOrder}.
Context {W : Type} `{SA : !Display.ShowAddr A, B64 : Base64, Sh : Display.Shows, Ou : LogOut W} {OL : LogOutLaws W}.
Context (enc : QuicRecords.Encoder) (U : Udp A) (SE : ServerEnv A U).

(** The run with its sink thread, under the log of the events it sends. *)
Definition log_world : Udp A := logged_udp (threaded_udp (W := W) U).
Definition log_sink (capacity : Z) : ServerEnv A log_world := logged_env (threaded_udp U) (threaded_env enc U SE capacity).

Definition sent (l : list (ServerEvent A * bool)) : list (ServerEvent A) := (List.filter snd l).*1.

Lemma events_sent_app l l' : sent (l ++ l') = sent l ++ sent l'.
Proof. unfold sent. by rewrite List.filter_app, fmap_app. Qed.

Definition log_ok (w : @UdpWorld A log_world) : Prop :=
  thread_inv enc (snd (fst w)) /\ sent (snd w) = taken (snd (fst w)) ++ queue (snd (fst w)).

Lemma yielded_inv th : thread_inv enc th ->
  thread_inv enc (yielded enc th) /\ taken (yielded enc th) ++ queue (yielded enc th) = taken th ++ queue th.
Proof.
  intros Hi. unfold yielded. destruct (schedule th) as [|n rest]; [done|].
  apply (turns_inv enc n (mkThread (queue th) (open th) (phase th) (sink_failed th) (sink_error th) (sink_done th) (out th) (taken th) (given th) rest)).
  by destruct Hi.
Qed.

Lemma kept_lift {X} (f : @UdpWorld A U -> @UdpWorld A U * X) : kept (U := log_world) log_ok (lift (threaded_udp (W := W) U) (beside U f)).
Proof.
  intros [[u th] l] w' x Hw. unfold lift, beside. cbn [fst snd]. destruct (f u) as [u' y]. by intros [= <- _].
Qed.

Lemma kept_observe {X} (f : Thread -> X) (g : Thread -> Thread) :
  (forall th, thread_inv enc th -> thread_inv enc (g th) /\ taken (g th) ++ queue (g th) = taken th ++ queue th) ->
  kept (U := log_world) log_ok (lift (threaded_udp (W := W) U) (fun w => observe enc U f (fst w, g (snd w)))).
Proof.
  intros Hg [[u th] l] w' x [Hi Hs]. unfold lift, observe. cbn [fst snd] in *. intros [= <- _]. destruct (Hg th Hi) as [G1 G2].
  destruct (yielded_inv _ G1) as [Y1 Y2]. split; [done|]. cbn [fst snd]. congruence.
Qed.

Lemma log_kept capacity : keeps (SE := log_sink capacity) log_ok.
Proof.
  split; try (intros; apply kept_lift).
  - apply (kept_observe sink_failed (fun th => th)). done.
  - apply (kept_observe sink_done close_channel). intros th Hi. split; [|done]. destruct Hi as [H1 H2 H3 H4].
    split; [by apply (file_inv_same enc th)|done|done|]. intros Hd. by destruct (H4 Hd).
  - apply (kept_observe sink_error (fun th => th)). done.
  - intros e [[u th] l] w' x [Hi Hs]. cbn. destruct (yielded_inv _ Hi) as [Y1 Y2]. cbn [fst snd] in *.
    destruct (open (yielded enc th)) eqn:Eo; cbn [negb]; [destruct (_ <? _)|]; intros [= <- _]; (split; cbn [fst snd]);
      rewrite ?events_sent_app; cbn; rewrite ?app_nil_r; try done; try congruence.
    + destruct Y1 as [K1 K2 K3 K4]. split; [by apply (file_inv_same enc (yielded enc th))|done|done|]. cbn. intros [_ ?]%K4. congruence.
    + rewrite Hs, <- Y2. by rewrite <- app_assoc.
  - intros d [[u th] l] [Hi Hs]. destruct (yielded_inv _ Hi) as [Y1 Y2]. split; [exact Y1|]. cbn in *. by rewrite Y2.
Qed.

Lemma quic_recorded_good ev v : typed_event ev -> quic_recorded enc ev v -> good v.
Proof. intros Ht [w <-]. by apply good_quic_encode. Qed.

Lemma quic_recorded_all evs vs : Forall typed_event evs -> Forall2 (quic_recorded enc) evs vs -> Forall good vs.
Proof.
  intros Ht. induction 1 as [|ev v evs vs Hr _ IH]; [constructor|]. apply Forall_cons in Ht as [Ht Hts].
  constructor; [by eapply quic_recorded_good|auto].
Qed.

(** What the file reads back to. *)
Lemma file_reads (th : Thread (A := A) (W := W)) :
  file_inv enc th -> Forall typed_event (given th) ->
  exists evs vs, read_log (written (out th)) = map Some vs /\ Forall2 (quic_recorded enc) evs vs /\ evs `prefix_of` given th /\
    (broken th = false -> evs = given th).
Proof.
  intros (evs & vs & tail & Hw & Hr & [[-> Hg]|(Hb & ev & v & Hg & Hv & Hp)]) Ht; rewrite Hg in *.
  - exists evs, vs. rewrite Hw, read_log_of by (by eapply quic_recorded_all). cbn. by rewrite app_nil_r.
  - apply Forall_app in Ht as [Ht1 Ht2]. apply Forall_cons in Ht2 as [Ht2 _]. rewrite Hw, read_log_of by (by eapply quic_recorded_all).
    destruct (read_log_partial v tail (quic_recorded_good _ _ Ht2 Hv) Hp) as [->| ->].
    + exists evs, vs. rewrite app_nil_r. split_and!; [done|done|by eexists|by rewrite Hb].
    + exists (evs ++ [ev]), (vs ++ [v]). rewrite map_app. split_and!; [done|apply Forall2_app; [done|by repeat constructor]|done|done].
Qed.

(** The records among events. *)
Definition observations (evs : list (ServerEvent A)) : list (HandshakeObservation A) :=
  omap (fun e => match e with ConnectionRecord o => Some o | _ => None end) evs.

Lemma recs_observations l : recs l = observations l.*1.
Proof. unfold recs, observations. induction l as [|[e b] l IH]; [done|]. cbn. by rewrite IH. Qed.

Lemma sent_all l : unsent l = 0 -> sent l = l.*1.
Proof.
  unfold unsent, sent. induction l as [|[e []] l IH]; cbn; [done| |]; [intros H0; by rewrite IH|]. rewrite zlen_cons. pose proof (zlen_nonneg (List.filter (fun e => negb (snd e)) l)). lia.
Qed.

Lemma sent_retries (e : ServerEvent A) n : sent (replicate n (e, false)) = [].
Proof. induction n as [|n IH]; [done|]. cbn. done. Qed.

(** C5: the log of a QUIC observer run is the truth, whatever the peers do, the
    threads' schedule is and the writer does. At every point after the run
    returned ([n] further steps of the sink thread), the file is JSON Lines that
    read back, each as one whole record, to the records of a prefix of the
    events the run handed over, in order. Once the sink thread has ended and no
    write has failed it is all of them; and if moreover the summary counts no
    dropped record, the log is complete: it ends with that summary, and its
    completed, failed and timed-out counts are the numbers of observations in
    the log that say so. *)
Theorem quic_log fuel config (u : @UdpWorld A U) file sched (w1 w2 : @UdpWorld A log_world) server summary (n : nat) :
  0 <= max_concurrent config -> written file = [] ->
  QuicRun.bind (U := log_world) config ((u, start_thread file sched), []) = (w1, Ok server) ->
  run_server (SE := log_sink (pending_records config)) fuel server w1 = Done (w2, summary) ->
  Forall typed_event (sent (snd w2)) ->
  let th := turns enc n (snd (fst w2)) in
  exists evs vs, read_log (written (out th)) = map Some vs /\ Forall2 (quic_recorded enc) evs vs /\ evs `prefix_of` sent (snd w2) /\
    (sink_done th = true -> broken th = false -> evs = sent (snd w2) /\
      (records_dropped summary = 0 -> exists before, evs = before ++ [Stopped summary] /\
        let st := sum_stats summary in
        completed st = counted is_completed (observations before) /\ failed st = counted is_failed (observations before) /\
        timed_out st = counted is_timed_out (observations before) /\ NoDup (map id (observations before)))).
Proof.
  intros Hm Hw Hb Hr Ht th.
  assert (log_ok ((u, start_thread file sched), [])) as H0.
  { split; [|done]. split; cbn; try done. exists [], [], []. split_and!; [exact Hw|constructor|by left]. }
  destruct (run_keeps _ (log_kept (pending_records config)) _ _ _ _ _ _ _ H0 Hb Hr) as [Hi Hs].
  destruct (turns_inv enc n _ Hi) as [Hi' Hq]. fold th in Hi', Hq. rewrite <- Hq in Hs.
  assert (given th `prefix_of` sent (snd w2)) as Hg by (rewrite Hs; by apply prefix_app_r, (ti_prefix enc)).
  assert (Forall typed_event (given th)) as Htg by (destruct Hg as [k Hk]; rewrite Hk in Ht; by apply Forall_app in Ht as [Ht _]).
  destruct (file_reads th (ti_file _ _ Hi') Htg) as (evs & vs & F1 & F2 & F3 & F4).
  exists evs, vs. split_and!; [done|done|by etrans|]. intros Hd Hnb.
  assert (evs = sent (snd w2)) as Ee.
  { rewrite (F4 Hnb), (ti_all _ _ Hi' Hnb), Hs. destruct (ti_done _ _ Hi' Hd) as [-> _]. by rewrite app_nil_r. }
  split; [done|]. intros Hz.
  destruct (run_server_adds_up (threaded_udp U) (threaded_env enc U SE (pending_records config)) fuel config ((u, start_thread file sched), []) w1 w2 server summary Hm eq_refl Hb Hr)
    as (l & last & tries & delivered & El & _ & Esum & Elast & Hnd & _ & Hc & Hf & Hto & _).
  rewrite Esum in Hz. cbn [with_dropped records_dropped] in Hz. pose proof (zlen_nonneg (List.filter (fun e => negb (snd e)) l)) as Hpos. fold (unsent l) in Hpos.
  assert (delivered = true /\ unsent l = 0) as [-> Hu] by (destruct delivered; lia).
  exists (sent l). rewrite Ee, El, !events_sent_app, sent_retries. cbn. assert (summary = last) as <-.
  { rewrite Esum, Hu. destruct last. cbn in *. by rewrite Elast, Hu. }
  rewrite (sent_all l Hu), <- recs_observations. split_and!; done.
Qed.
End run_log.

(** ** An example run *)

(** The integers of an event are in range. *)
Definition in_u64 (n : Z) : bool := (0 <=? n) && (n <=? U64_MAX).

Definition typed_eventb {A} (ev : ServerEvent A) : bool :=
  match ev with
  | Started _ _ _ => true
  | Overload n m => in_u64 n && in_u64 m
  | Stopped s =>
      let st := sum_stats s in
      forallb in_u64 [incoming st; accepted st; observed st; completed st; failed st; timed_out st; dropped_at_capacity st; retries_sent st;
        version_negotiations_sent st; endpoint_responses_sent st; datagrams_received st; datagrams_sent st]
      && in_u64 (records_dropped s) && in_u64 (abandoned s) && (0 <=? sum_elapsed s)
  | ConnectionRecord o =>
      in_u64 (id o) && (0 <=? elapsed o) && in_u64 (obs_quic_version o) && in_u64 (unexpected_streams o) && in_u64 (unexpected_datagrams o)
      && match offered o with Some h => in_u64 (hellos_seen h) | None => true end
  end.

Lemma in_u64_spec n : in_u64 n = true -> u64 n.
Proof. unfold in_u64, u64. lia. Qed.

Lemma typed_events {A} (evs : list (ServerEvent A)) : forallb typed_eventb evs = true -> Forall typed_event evs.
Proof.
  intros H. apply Forall_forall. intros ev Hev. rewrite forallb_forall in H. specialize (H ev (proj1 (list_elem_of_In _ _) Hev)).
  destruct ev as [a i l|o|n m|s]; cbn [typed_eventb typed_event forallb] in *; [done|..];
    repeat match goal with H : _ && _ = true |- _ => apply andb_prop in H as [? ?] end; unfold typed_stats; split_and!;
    try by apply in_u64_spec. all: try lia. destruct (offered o); [by apply in_u64_spec|done].
Qed.

Module QuicLogDemo.
Import QuicServerDemo.

#[local] Existing Instances QuicDemo.tls QuicDemo.digest keys certs quinn server order shows.
#[local] Instance addr_shows : Display.ShowAddr Z := fun _ => bstr "127.0.0.1:4433".
#[local] Instance no_base64 : Base64 := {| b64_decode _ := None; b64_encode _ := bstr "AAAA" |}.

Definition encoder : QuicRecords.Encoder := QuicRecords.mkEncoder 512 true.
Definition empty_disk : Disk := mkDisk [] 100000 1769990400000000000.

Abbreviation world := (log_world (W := Disk) QuicDemo.socket).
Abbreviation bound := (QuicRun.bind (U := world) config ((([[x09]; [x0a]], 0), start_thread empty_disk (replicate 40 3%nat)), [])).
Abbreviation log_run s w := (run_server (U := world) (SE := log_sink encoder QuicDemo.socket env (pending_records config)) 20 s w).

(** The log is the start, one observation and the summary. *)
Lemma demo_log :
  match bound with
  | (w1, Ok s) => match log_run s w1 with
      | Done (w2, summary) =>
          let th := turns encoder 10 (snd (fst w2)) in
          map event_name (read_log (file (out th))) =
            map (fun k => Some (chars k)) ["quic_listener_started"; "quic_handshake_observation"; "quic_listener_stopped"]%string /\
          sink_done th = true /\ broken th = false /\ records_dropped summary = 0 /\ completed (sum_stats summary) = 1 /\
          forallb typed_eventb (sent (snd w2)) = true
      | _ => False
      end
  | _ => False
  end.
Proof. vm_compute. repeat split. Qed.

Lemma quic_log_witness :
  exists w1 s w2 summary, bound = (w1, Ok s) /\ log_run s w1 = Done (w2, summary) /\
    exists evs before, evs = before ++ [Stopped summary] /\ completed (sum_stats summary) = 1 /\ counted is_completed (observations before) = 1.
Proof.
  pose proof demo_log as Hc. destruct bound as [w1 [s|e]] eqn:Hb; [|destruct Hc].
  destruct (log_run s w1) as [[w2 summary]| |] eqn:Hr; [|destruct Hc..].
  exists w1, s, w2, summary. split; [reflexivity|]. split; [exact Hr|]. destruct Hc as (_ & Hd & Hnb & Hz & Hn & Ht).
  destruct (quic_log encoder QuicDemo.socket env 20 config _ empty_disk (replicate 40 3%nat) w1 w2 s summary 10
    ltac:(vm_compute; discriminate) eq_refl Hb Hr (typed_events _ Ht)) as (evs & vs & _ & _ & _ & Hall).
  destruct (Hall Hd Hnb) as [_ Hfull]. destruct (Hfull Hz) as (before & He & H1 & _).
  exists evs, before. split; [exact He|]. split; [exact Hn|]. rewrite <- H1. exact Hn.
Defined.
End QuicLogDemo.
