(* ===== verification/ServerCli.v ===== *)
(** * The server's command line

    Models crates/tatami_ssh/src/bin/tatami-server.rs: the arguments (UTF-8
    strings, without the program's name), the options they stand for, what the
    program prints, and its exit status. The build's feature [quic-diag] is a
    boolean. How the threads of a run interleave, and what the network does, is
    an argument of [main]: a list of steps for the TCP listener, a schedule of
    the sink thread for the QUIC server. *)

From stdpp Require Import gmap.
From S2P Require Import Prelude WireError NameList Primitives Messages KexInit ExtInfo WireIdent TcpIdent Packet.
From S2P Require Import Initial Probe Observer KeyAlgorithm HostKey HostKeyProps Negotiate Gcm Transcript Trust Spki SpkiProps PrivateKey.
From S2P Require Import KnownHosts KnownHostsProps Text TextProps FacadeTrust Handshake Seam Drivers DriversProofs ObserverRun.
From S2P Require Import Listener ListenerProofs ListenerProps Calendar Utf8 Display ProbeReport Records RecordsProps ObserverLog Durations.
From S2P Require Import QuicTls QuicClient QuicReport HostSignature QuicIdentity QuicServer QuicRun QuicRunProps QuicRecords QuicLog Cli.

Open Scope Z_scope.

(** ** Parameters *)

(** [str::parse::<SocketAddr>]; the loopback address with a port; an empty
    path, and a path from an argument. *)
Class ServerArgs (A : Type) (F : Fs) : Type := {
  parse_socket_addr : bytes -> option A;
  loopback : Z -> A;
  empty_path : Path;
  path_of : bytes -> Path
}.

(** Standard output as the log's writer, with the wall clock; [stdout_text] is
    what has been written to it. *)
Class LogConsole `{Console} : Type := {
  console_now : Con -> Con * Z;
  stdout_text : Con -> bytes
}.

Module ServerCli.

(* facade/bin/tatami-server.rs:28-28 NAME *)
Definition NAME : bytes := bstr "tatami-server".

(** [CARGO_PKG_VERSION], the version of the workspace. *)
(* facade/bin/tatami-server.rs:29-29 VERSION *)
Definition VERSION : bytes := bstr "0.1.0".

(* facade/bin/tatami-server.rs:31-141 USAGE *)
Definition USAGE : bytes := bstr "Usage:
  tatami-server observe [--listen ADDR] [--timeout DURATION]
                        [--max-concurrent N] [--max-connections N]
                        [--run-for DURATION] [--banner-only] [--format jsonl]
  tatami-server observe --transport quic --alpn PROTO
                        (--host-key FILE | --identity-dir DIR
                         [--generate-identity])
                        [--listen ADDR]
                        [--require-validation] [--timeout DURATION]
                        [--max-concurrent N] [--max-connections N]
                        [--run-for DURATION] [--format jsonl]
  tatami-server observe --help
  tatami-server --help
  tatami-server --version

Commands:
  observe   With --transport tcp (the default): listen for TCP connections,
            send an SSH-2 server identification, record each client's
            identification and initial KEXINIT proposal as JSON Lines on
            stdout, then close the connection. No server KEXINIT is sent, no
            key exchange is performed, no host key is loaded or generated,
            and nobody is authenticated. This is a diagnostic observer,
            not an SSH service.

            With --transport quic: EXPERIMENTAL. Listen for QUIC v1
            connections on UDP, complete a TLS 1.3 handshake with the SSH
            host key (--host-key, as an RFC 7250 raw public key) or a
            generated test certificate, record each attempt (source address
            and its validation state, offered vs negotiated ALPN, SNI,
            outcome) as JSON Lines on stdout, then close the connection with
            an application CONNECTION_CLOSE. No stream is accepted, no
            datagram is read, 0-RTT and resumption are disabled, nobody is
            authenticated. This is a handshake observer, not an SSH service
            and not an SSH-over-QUIC endpoint. Requires a build with
            --features std,tcp,quic-diag.

Options for observe (both transports):
  --transport tcp|quic   Transport to observe (default tcp).
  --listen ADDR          Socket address to bind (default 127.0.0.1:2222 for
                         TCP, 127.0.0.1:4433 for QUIC).
                         Use a numeric IPv4 address or a bracketed IPv6
                         address, e.g. '[::1]:2222'. Port 0 picks an
                         ephemeral port; the bound address is reported.
  --timeout DURATION     TCP: total time allowed per connection from
                         acceptance, including sending the banner. QUIC:
                         per-connection handshake deadline, also the QUIC
                         idle timeout. Default 5s.
  --max-concurrent N     Simultaneous observations (default 32). Excess TCP
                         connections are accepted and closed at once, with
                         no banner; excess QUIC Initials are refused
                         (CONNECTION_REFUSED). Both are counted as
                         dropped_at_capacity.
  --max-connections N    Stop after N accepted-or-dropped connections
                         (default: unlimited). QUIC Retries are not counted.
  --run-for DURATION     Stop after this long (default: until stopped).
  --format jsonl         Output format; only jsonl is supported.
  DURATION               e.g. 5s, 500ms, 10m; must be > 0.

Options for observe (TCP only):
  --banner-only          End each observation after a valid client
                         identification instead of waiting for KEXINIT.

Options for observe (QUIC only):
  --alpn PROTO           ALPN value to accept (required; repeat for several,
                         in preference order). The value is experimental and
                         UNREGISTERED; no interoperability with any other
                         implementation is claimed. There is no default.
  --host-key FILE        One OpenSSH host private key (unencrypted
                         openssh-key-v1, e.g. /etc/ssh/ssh_host_ed25519_key;
                         must not be group/other-accessible): Ed25519, and
                         with --features rsa / ecdsa-p256 also RSA (2048,
                         3072 or 4096 bits) or ECDSA P-256. Presented as an
                         RFC 7250 raw public key: clients verify it with
                         the same known_hosts entry or SSH fingerprint as
                         the TCP server using that key (TLS signs with
                         RSA-PSS / ECDSA, not the SSH signature format).
                         No certificate is made; encrypted keys are
                         refused.
  --identity-dir DIR     Instead: directory holding a TEST cert.pem and
                         key.pem (X.509 diagnostic identity).
  --generate-identity    Generate a self-signed Ed25519 test identity into
                         DIR if none exists. Without this flag a missing
                         identity is an error; nothing is generated silently.
                         Exactly one of --host-key and --identity-dir.
  --require-validation   Answer each unvalidated Initial with a Retry and
                         accept only Initials carrying the token. Validation
                         proves reachability of the source address, nothing
                         about identity.

Output:
  JSON Lines on stdout. TCP (schema 1): listener_started,
  connection_observation, overload, listener_stopped. QUIC (schema 1,
  transport " ++ ["034"%byte] ++ bstr "quic" ++ ["034"%byte] ++ bstr "): quic_listener_started, quic_handshake_observation,
  overload, quic_listener_stopped. Diagnostics go to stderr. Redirect stdout
  to a file and rotate it externally for long runs.

  For QUIC with --identity-dir, the certificate SHA-256 fingerprint is
  printed to stderr at start so a client can pin it with --cert-sha256; it
  is a certificate fingerprint, not an SSH host-key fingerprint. With
  --host-key the SSH host-key fingerprint (as ssh-keygen -lf prints it) is
  printed instead. Offered ClientHello values in records are untrusted
  metadata supplied by the peer. UDP 4433 is an experiment default; the
  intended service convention is TCP and UDP 22.

Binding port 22 requires OS privileges and must not displace an existing
SSH service; this program will not change firewall or service settings.
One address per process: run separate instances for IPv4 and IPv6.

Exit status: 0 clean stop; 1 listener/output/runtime failure; 2 usage error.
".

(* facade/bin/tatami-server.rs:155-158 Transport *)
Inductive Transport : Type := Tcp | Quic.

#[export] Instance transport_eq_dec : EqDecision Transport.
Proof. solve_decision. Defined.

(** ** Errors *)

(* tcp/ident.rs:226-236 InvalidLocalIdentification::fmt *)
Definition invalid_local_identification (e : InvalidLocalIdentification) : bytes :=
  match e with
  | LocalBadSoftwareVersion => bstr "software version must be printable ASCII without whitespace or '-'"
  | LocalTooLong len =>
      bstr "identification line would be " ++ Display.show len ++ bstr " bytes; RFC 4253 allows at most "
      ++ Display.show MAX_IDENTIFICATION_LINE ++ bstr " including CR LF"
  end.

(* tcp/io/listener.rs:135-141 ConfigError::fmt *)
Definition config_error (e : Run.ConfigError) : bytes :=
  match e with
  | Run.BadDuration name => bstr name ++ bstr " must be positive and finite"
  | Run.ZeroLimit name => bstr name ++ bstr " must be at least 1"
  | Run.Identification e => bstr "server identification: " ++ invalid_local_identification e
  end.

(* tcp/io/listener.rs:597-602 BindError::fmt *)
Definition bind_error `{Display.Shows} (e : Run.BindError) : bytes :=
  match e with
  | Run.BindConfig e => bstr "invalid configuration: " ++ config_error e
  | Run.BindIo e => bstr "bind failed: " ++ Display.show_io e
  end.

(** ** Arguments *)

Section parsing.
Context {A : Type} `{F : Fs, SA : !ServerArgs A F} `{Db : DebugStr}.
Variable quic_diag : bool.

(* facade/bin/tatami-server.rs:146-152 Command *)
Inductive Command : Type :=
| Help
| Version
| Observe (options : Records.Options A)
| QuicObserve (options : QuicRecords.Options A).

(* facade/bin/tatami-server.rs:160-168 parse_transport *)
Definition parse_transport (v : bytes) : parsed Transport :=
  if bytes_eqb v (bstr "tcp") then Some (Ok Tcp)
  else if bytes_eqb v (bstr "quic") then Some (Ok Quic)
  else usage (bstr "invalid --transport " ++ debug_str v ++ bstr "; expected tcp or quic").

(* facade/bin/tatami-server.rs:176-187 select_transport *)
Fixpoint select_loop (selected : option Transport) (it : list bytes) : parsed (option Transport) :=
  match it with
  | [] => Some (Ok selected)
  | arg :: it =>
      if bytes_eqb arg (bstr "--transport") then
        next_value it (bstr "--transport") (fun v it =>
          let+ t := parse_transport v in
          if match selected with Some s => negb (bool_decide (s = t)) | None => false end
          then usage (bstr "conflicting --transport values")
          else select_loop (Some t) it)
      else select_loop selected it
  end.

(* facade/bin/tatami-server.rs:173-189 select_transport *)
Definition select_transport (args : list bytes) : parsed Transport :=
  let+ selected := select_loop None args in Some (Ok (default Tcp selected)).

(* facade/bin/tatami-server.rs:220-225 parse_count *)
Definition parse_count (name s : bytes) : parsed Z :=
  match parse_unsigned U64_MAX s with
  | Some n =>
      if 0 <? n then Some (Ok n) else usage (name ++ bstr " must be a positive integer, got " ++ debug_str s)
  | None => usage (name ++ bstr " must be a positive integer, got " ++ debug_str s)
  end.

(* facade/bin/tatami-server.rs:251-257 parse_listen *)
Definition parse_listen (v : bytes) : parsed A :=
  match parse_socket_addr v with
  | Some a => Some (Ok a)
  | None => usage (bstr "invalid listen address " ++ debug_str v ++ bstr "; use IP:PORT or [IPv6]:PORT")
  end.

(* facade/bin/tatami-server.rs:259-267 parse_format *)
Definition parse_format (v : bytes) : parsed unit :=
  if bytes_eqb v (bstr "jsonl") then Some (Ok tt)
  else usage (bstr "unsupported format " ++ debug_str v ++ bstr "; only jsonl is available").

(* facade/bin/tatami-server.rs:315-323 parse_alpn *)
Definition parse_alpn (s : bytes) : parsed bytes :=
  if (zlen s =? 0) || (255 <? zlen s)
  then usage (bstr "--alpn value must be 1-255 bytes, got " ++ Display.show (zlen s) ++ bstr " bytes")
  else Some (Ok s).

Definition is_help (arg : bytes) : bool := bytes_eqb arg (bstr "--help") || bytes_eqb arg (bstr "-h").

(** The arguments no option matches. *)
(* facade/bin/tatami-server.rs:300-301 parse_tcp_observe *)
Definition unmatched {T} (s : bytes) : parsed T :=
  if starts_with "-" s then usage (bstr "unknown option " ++ debug_str s) else usage (bstr "unexpected argument " ++ debug_str s).

(* facade/bin/tatami-server.rs:283-285 parse_tcp_observe *)
Definition parse_concurrent (v : bytes) : parsed Z :=
  let+ n := parse_count (bstr "--max-concurrent") v in
  if n <=? USIZE_MAX then Some (Ok n) else usage (bstr "--max-concurrent too large").

(** How a scan of the options ends. *)
Inductive scanned (S : Type) : Type := AskedHelp | Finished (s : S).
#[global] Arguments AskedHelp {S}.
#[global] Arguments Finished {S} s.

(** *** TCP *)

Definition on_listener (f : ObserverDriver.ListenerConfig A -> ObserverDriver.ListenerConfig A) (o : Records.Options A) : Records.Options A :=
  Records.mkOptions (f (Records.opt_listener o)) (Records.opt_max_record_bytes o) (Records.opt_max_field_bytes o).

Import ObserverDriver.

Definition set_bind v (l : ListenerConfig A) := mkListenerConfig A v (max_concurrent l) (connection_timeout l) (max_connections l) (run_for l) (cfg_observer l) (cfg_read_chunk l) (pending_records l) (shutdown_grace l) (poll_interval l) (overload_report_interval l).
Definition set_concurrent v (l : ListenerConfig A) := mkListenerConfig A (bind_addr l) v (connection_timeout l) (max_connections l) (run_for l) (cfg_observer l) (cfg_read_chunk l) (pending_records l) (shutdown_grace l) (poll_interval l) (overload_report_interval l).
Definition set_timeout v (l : ListenerConfig A) := mkListenerConfig A (bind_addr l) (max_concurrent l) v (max_connections l) (run_for l) (cfg_observer l) (cfg_read_chunk l) (pending_records l) (shutdown_grace l) (poll_interval l) (overload_report_interval l).
Definition set_connections v (l : ListenerConfig A) := mkListenerConfig A (bind_addr l) (max_concurrent l) (connection_timeout l) v (run_for l) (cfg_observer l) (cfg_read_chunk l) (pending_records l) (shutdown_grace l) (poll_interval l) (overload_report_interval l).
Definition set_run_for v (l : ListenerConfig A) := mkListenerConfig A (bind_addr l) (max_concurrent l) (connection_timeout l) (max_connections l) v (cfg_observer l) (cfg_read_chunk l) (pending_records l) (shutdown_grace l) (poll_interval l) (overload_report_interval l).

(* facade/bin/tatami-server.rs:271-303 parse_tcp_observe *)
Fixpoint scan_tcp (it : list bytes) (o : Records.Options A) : parsed (scanned (Records.Options A)) :=
  match it with
  | [] => Some (Ok (Finished o))
  | arg :: it =>
      if is_help arg then Some (Ok AskedHelp)
      else if bytes_eqb arg (bstr "--listen") then
        next_value it (bstr "--listen") (fun v it => let+ a := parse_listen v in scan_tcp it (on_listener (set_bind a) o))
      else if bytes_eqb arg (bstr "--timeout") then
        next_value it (bstr "--timeout") (fun v it =>
          let+ d := Durations.server_parse_duration v in scan_tcp it (on_listener (set_timeout d) o))
      else if bytes_eqb arg (bstr "--max-concurrent") then
        next_value it (bstr "--max-concurrent") (fun v it =>
          let+ n := parse_concurrent v in scan_tcp it (on_listener (set_concurrent n) o))
      else if bytes_eqb arg (bstr "--max-connections") then
        next_value it (bstr "--max-connections") (fun v it =>
          let+ n := parse_count (bstr "--max-connections") v in scan_tcp it (on_listener (set_connections (Some n)) o))
      else if bytes_eqb arg (bstr "--run-for") then
        next_value it (bstr "--run-for") (fun v it =>
          let+ d := Durations.server_parse_duration v in scan_tcp it (on_listener (set_run_for (Some d)) o))
      else if bytes_eqb arg (bstr "--banner-only") then scan_tcp it (Records.banner_only o true)
      else if bytes_eqb arg (bstr "--format") then
        next_value it (bstr "--format") (fun v it => let+ _ := parse_format v in scan_tcp it o)
      else if bytes_eqb arg (bstr "--transport") then next_value it (bstr "--transport") (fun _ it => scan_tcp it o)
      else unmatched arg
  end.

(* facade/bin/tatami-server.rs:269-305 parse_tcp_observe *)
Definition parse_tcp_observe (it : list bytes) : parsed Command :=
  let+ r := scan_tcp it (Records.Options_default (loopback 2222)) in
  Some (Ok (match r with AskedHelp => Help | Finished o => Observe o end)).

(** *** QUIC *)

(** The local variables of the loop. *)
Record QuicArgs : Type := mkArgs {
  a_alpn : list bytes;
  a_dir : option Path;
  a_key : option Path;
  a_options : QuicRecords.Options A
}.

Definition add_alpn v a := mkArgs (a_alpn a ++ [v]) (a_dir a) (a_key a) (a_options a).
Definition set_dir v a := mkArgs (a_alpn a) (Some v) (a_key a) (a_options a).
Definition set_key v a := mkArgs (a_alpn a) (a_dir a) (Some v) (a_options a).
Definition on_options f a := mkArgs (a_alpn a) (a_dir a) (a_key a) (f (a_options a)).

Import QuicRecords.

Ltac update_options o fld v :=
  let e := constr:(mkOptions A F (opt_bind o) (opt_alpn o) (identity_dir o) (host_key o) (generate_identity o) (identity_names o)
    (opt_require_validation o) (opt_handshake_timeout o) (opt_max_connections o) (opt_run_for o) (opt_max_concurrent o)
    (opt_pending_records o) (opt_max_field_bytes o)) in
  lazymatch eval pattern fld in e with
  | ?f _ => let r := eval cbv beta in (f v) in exact r
  end.

Definition q_bind v (o : Options A) : Options A := ltac:(update_options o (opt_bind o) v).
Definition q_alpn v (o : Options A) : Options A := ltac:(update_options o (opt_alpn o) v).
Definition q_dir v (o : Options A) : Options A := ltac:(update_options o (identity_dir o) v).
Definition q_key v (o : Options A) : Options A := ltac:(update_options o (host_key o) v).
Definition q_generate (o : Options A) : Options A := ltac:(update_options o (generate_identity o) true).
Definition q_validation (o : Options A) : Options A := ltac:(update_options o (opt_require_validation o) true).
Definition q_timeout v (o : Options A) : Options A := ltac:(update_options o (opt_handshake_timeout o) v).
Definition q_connections v (o : Options A) : Options A := ltac:(update_options o (opt_max_connections o) v).
Definition q_run_for v (o : Options A) : Options A := ltac:(update_options o (opt_run_for o) v).
Definition q_concurrent v (o : Options A) : Options A := ltac:(update_options o (opt_max_concurrent o) v).

(* facade/bin/tatami-server.rs:333-375 parse_quic_observe *)
Fixpoint scan_quic (it : list bytes) (a : QuicArgs) : parsed (scanned QuicArgs) :=
  match it with
  | [] => Some (Ok (Finished a))
  | arg :: it =>
      if is_help arg then Some (Ok AskedHelp)
      else if bytes_eqb arg (bstr "--alpn") then
        next_value it (bstr "--alpn") (fun v it => let+ p := parse_alpn v in scan_quic it (add_alpn p a))
      else if bytes_eqb arg (bstr "--identity-dir") then
        next_value it (bstr "--identity-dir") (fun v it => scan_quic it (set_dir (path_of v) a))
      else if bytes_eqb arg (bstr "--host-key") then
        next_value it (bstr "--host-key") (fun v it =>
          if (zlen v =? 0) || match a_key a with Some _ => true | None => false end
          then usage (bstr "--host-key takes one non-empty file")
          else scan_quic it (set_key (path_of v) a))
      else if bytes_eqb arg (bstr "--generate-identity") then scan_quic it (on_options q_generate a)
      else if bytes_eqb arg (bstr "--listen") then
        next_value it (bstr "--listen") (fun v it => let+ l := parse_listen v in scan_quic it (on_options (q_bind l) a))
      else if bytes_eqb arg (bstr "--require-validation") then scan_quic it (on_options q_validation a)
      else if bytes_eqb arg (bstr "--timeout") then
        next_value it (bstr "--timeout") (fun v it =>
          let+ d := Durations.server_parse_duration v in scan_quic it (on_options (q_timeout d) a))
      else if bytes_eqb arg (bstr "--max-concurrent") then
        next_value it (bstr "--max-concurrent") (fun v it =>
          let+ n := parse_concurrent v in scan_quic it (on_options (q_concurrent n) a))
      else if bytes_eqb arg (bstr "--max-connections") then
        next_value it (bstr "--max-connections") (fun v it =>
          let+ n := parse_count (bstr "--max-connections") v in scan_quic it (on_options (q_connections (Some n)) a))
      else if bytes_eqb arg (bstr "--run-for") then
        next_value it (bstr "--run-for") (fun v it =>
          let+ d := Durations.server_parse_duration v in scan_quic it (on_options (q_run_for (Some d)) a))
      else if bytes_eqb arg (bstr "--format") then
        next_value it (bstr "--format") (fun v it => let+ _ := parse_format v in scan_quic it a)
      else if bytes_eqb arg (bstr "--transport") then next_value it (bstr "--transport") (fun _ it => scan_quic it a)
      else unmatched arg
  end.

(* facade/bin/tatami-server.rs:376-401 parse_quic_observe *)
Definition quic_command (a : QuicArgs) : parsed Command :=
  match a_alpn a with
  | [] => usage (bstr "--alpn is required: the value is experimental and must be chosen explicitly")
  | _ =>
      let options := q_alpn (a_alpn a) (a_options a) in
      match a_key a, a_dir a with
      | Some _, Some _ => usage (bstr "give exactly one of --host-key and --identity-dir")
      | Some key, None =>
          if generate_identity options
          then usage (bstr "--generate-identity cannot be combined with --host-key (a host key is never replaced by a generated identity)")
          else Some (Ok (QuicObserve (q_key (Some key) options)))
      | None, Some dir => Some (Ok (QuicObserve (q_dir dir options)))
      | None, None =>
          usage (bstr "an identity is required: --host-key FILE (SSH host key) or --identity-dir DIR (add --generate-identity to create a test identity there)")
      end
  end.

(* facade/bin/tatami-server.rs:326-402 parse_quic_observe *)
Definition parse_quic_observe (it : list bytes) : parsed Command :=
  let+ r := scan_quic it (mkArgs [] None None (options_new (loopback 4433) [] empty_path)) in
  match r with AskedHelp => Some (Ok Help) | Finished a => quic_command a end.

(* facade/bin/tatami-server.rs:308-312 parse_quic_observe *)
Definition quic_not_built : parsed Command :=
  usage (bstr "observe --transport quic requires a build with --features std,tcp,quic-diag (this build lacks the quic-diag feature)").

(* facade/bin/tatami-server.rs:227-249 parse_args *)
Definition parse_args (args : list bytes) : parsed Command :=
  match args with
  | [] => usage (bstr "missing command; this build only offers `observe` (no SSH service is implemented)")
  | first :: it =>
      if bytes_eqb first (bstr "--help") || bytes_eqb first (bstr "-h") || bytes_eqb first (bstr "help") then Some (Ok Help)
      else if bytes_eqb first (bstr "--version") || bytes_eqb first (bstr "-V") || bytes_eqb first (bstr "version") then Some (Ok Version)
      else if bytes_eqb first (bstr "observe") then
        let+ t := select_transport it in
        match t with
        | Tcp => parse_tcp_observe it
        | Quic => if quic_diag then parse_quic_observe it else quic_not_built
        end
      else if starts_with "-" first then usage (bstr "unknown option " ++ debug_str first)
      else usage (bstr "unsupported command " ++ debug_str first ++ bstr "; only `observe` exists (no SSH service is implemented)")
  end.
End parsing.

(** ** Running *)

(* facade/bin/tatami-server.rs:597-609 LineWriter *)
Definition console_log `{C : Console, !LogConsole} : LogOut Con := {|
  system_now := console_now;
  write_all := stdout_write_all;
  flush := stdout_flush;
  written := stdout_text
|}.

Section running.
Context {A : Type} `{F : Fs, SA : !ServerArgs A F, FS : !Display.FsShows F} `{Db : DebugStr, DbD : DebugDuration}.
Context `{Sh : Display.Shows, ShA : !Display.ShowAddr A, B64 : Base64} `{C : Console, LC : !LogConsole}.
Context `{BO : !Run.BindOs A} (addable : Z -> bool).

#[local] Existing Instance console_log.

(** [{}] of an optional limit and of an optional duration. *)
Definition limit_text (n : option Z) : bytes := match n with Some n => bstr ", max connections " ++ Display.show n | None => [] end.
Definition duration_text (d : option Z) : bytes := match d with Some d => bstr ", run for " ++ debug_duration d | None => [] end.

Definition until_interrupted (run_for max_connections : option Z) (c : Con) : run Con :=
  match run_for, max_connections with
  | None, None => eprintln (NAME ++ bstr ": no --run-for or --max-connections given; running until interrupted") c
  | _, _ => Done c
  end.

(** *** TCP *)

Section tcp.
Import ObserverDriver Run.

(* facade/bin/tatami-server.rs:440-460 observe *)
Definition observing (bound : A) (l : ListenerConfig A) : bytes :=
  NAME ++ bstr ": observing on " ++ Display.show_addr bound ++ bstr " (per-connection timeout " ++ debug_duration (connection_timeout l)
  ++ bstr ", max concurrent " ++ Display.show (max_concurrent l) ++ limit_text (max_connections l) ++ duration_text (run_for l)
  ++ (if cfg_banner_only (cfg_observer l) then bstr ", banner-only" else [])
  ++ bstr "); this is a diagnostic observer, not an SSH service".

Definition clean (r : StopReason) : bool := match r with RunDurationElapsed | ConnectionLimitReached | StopRequested => true | _ => false end.

(* facade/bin/tatami-server.rs:468-496 observe *)
Definition observe_end (s : Summary A IoError) (c : Con) : run (Con * Z) :=
  if clean (sm_reason s) then
    let^ c := eprintln (NAME ++ bstr ": stopped (" ++ bstr (stop_code (sm_reason s)) ++ bstr "); accepted " ++ Display.show (sm_accepted s)
      ++ bstr ", observed " ++ Display.show (sm_observed s) ++ bstr ", dropped at capacity " ++ Display.show (sm_dropped_at_capacity s)
      ++ bstr ", records dropped " ++ Display.show (sm_records_dropped s)) c in
    let^ c :=
      if (0 <? sm_records_dropped s) || (0 <? sm_workers_abandoned s)
      then eprintln (NAME ++ bstr ": warning: logging incomplete (records dropped " ++ Display.show (sm_records_dropped s)
        ++ bstr ", workers abandoned " ++ Display.show (sm_workers_abandoned s) ++ bstr ")") c
      else Done c in
    Done (c, 0)
  else
    let^ c := eprintln (NAME ++ bstr ": failed (" ++ bstr (stop_code (sm_reason s)) ++ bstr "): "
      ++ match sm_error s with Some e => Records.run_error Display.show_io e | None => bstr "unknown error" end) c in
    Done (c, 1).

(** The steps of the run, with the time it starts; the log goes to the console. *)
(* facade/bin/tatami-server.rs:431-497 observe *)
Definition observe (options : Records.Options A) (started : Z) (steps : list (@Label A IoError)) (c : Con) : run (Con * Z) :=
  match Records.prepare addable options with
  | Err e => let^ c := eprintln (NAME ++ bstr ": " ++ bind_error e) c in Done (c, 1)
  | Ok (listener, prepared) =>
      let l := Records.opt_listener options in
      let^ c := eprintln (observing (lst_bound listener) l) c in
      let^ c := until_interrupted (run_for l) (max_connections l) c in
      match log_execs (lst_config listener) (lst_bound listener) (Records.encoder_of prepared) steps (initial started (lst_stop listener), c) with
      | Some (s, c) => match pc (main s) with Returned summary => observe_end summary c | _ => Spins end
      | None => Spins
      end
  end.
End tcp.

(** *** QUIC *)

Section quic.
Import QuicTls.Quic QuicIdentity QuicServer QuicRun QuicRecords.
Context `{R : Rustls, Sg : !Signing, Rc : Rcgen, Rg : Ring, H : Hash, DD : Dalek} `{Q : !Quinn A} `{QS : !QuinnServer A} `{HO : HashOrder}.
Context `{U : !Udp A} `{SE : !ServerEnv A U} `{D : !IdentityDir F} `{BP : Base64Padded, P : Pem}.
Context `{Sk : SshKey, DS : !DalekSigning DD, U8 : U8192}.
Context (features : Features) (fuel : nat).

(* facade/bin/tatami-server.rs:515-528 observe_quic *)
Definition identity_lines (presented : PresentedIdentity) (c : Con) : run Con :=
  let^ c :=
    match presented_certificate presented with
    | Some cert =>
        eprintln (NAME ++ bstr ": certificate SHA-256 (pin this with --cert-sha256; certificate DER hash, not an SSH host-key fingerprint): "
          ++ Sha256Newtype.display cert) c
    | None => Done c
    end in
  match presented_type presented, presented_fingerprint presented with
  | Some key_type, Some fp =>
      eprintln (NAME ++ bstr ": SSH host key " ++ KeyType.name key_type ++ bstr " " ++ Sha256Fingerprint.display fp
        ++ bstr " presented as an RFC 7250 raw public key (verify with --known-hosts or --host-key-sha256, as for the TCP server using this key)") c
  | _, _ => Done c
  end.

(* facade/bin/tatami-server.rs:529-552 observe_quic *)
Definition quic_observing (bound : A) (o : Options A) : bytes :=
  NAME ++ bstr ": EXPERIMENTAL QUIC v1/TLS 1.3 handshake observer on " ++ Display.show_addr bound ++ bstr " (ALPN "
  ++ join_commas (map Text.escape_bytes (opt_alpn o)) ++ bstr ", unregistered; handshake timeout " ++ debug_duration (opt_handshake_timeout o)
  ++ bstr "; max concurrent " ++ Display.show (opt_max_concurrent o) ++ limit_text (opt_max_connections o) ++ duration_text (opt_run_for o)
  ++ (if opt_require_validation o then bstr ", Retry required" else [])
  ++ bstr "); 0-RTT disabled; not an SSH service".

Definition quic_clean (r : StopReason) : bool := match r with RunDurationElapsed | ConnectionLimitReached | StopRequested => true | _ => false end.

(* facade/bin/tatami-server.rs:560-592 observe_quic *)
Definition observe_quic_end (s : Summary A) (c : Con) : run (Con * Z) :=
  let st := sum_stats s in
  if quic_clean (reason s) then
    let^ c := eprintln (NAME ++ bstr ": stopped (" ++ bstr (stop_code (reason s)) ++ bstr "); incoming " ++ Display.show (incoming st)
      ++ bstr ", accepted " ++ Display.show (accepted st) ++ bstr ", completed " ++ Display.show (completed st)
      ++ bstr ", failed " ++ Display.show (failed st) ++ bstr ", timed out " ++ Display.show (timed_out st)
      ++ bstr ", retries " ++ Display.show (retries_sent st) ++ bstr ", dropped at capacity " ++ Display.show (dropped_at_capacity st)
      ++ bstr ", records dropped " ++ Display.show (records_dropped s)) c in
    let^ c :=
      if (0 <? records_dropped s) || (0 <? abandoned s)
      then eprintln (NAME ++ bstr ": warning: logging incomplete (records dropped " ++ Display.show (records_dropped s)
        ++ bstr ", handshakes abandoned " ++ Display.show (abandoned s) ++ bstr ")") c
      else Done c in
    Done (c, 0)
  else
    let^ c := eprintln (NAME ++ bstr ": failed (" ++ bstr (stop_code (reason s)) ++ bstr "): "
      ++ default (bstr "unknown error") (error s)) c in
    Done (c, 1).

(** The schedule of the sink thread; what it has written when [run] returns is
    on the console. *)
(* facade/bin/tatami-server.rs:500-593 observe_quic *)
Definition observe_quic (options : Options A) (schedule : list nat) (dw : DirWorld) (w : UdpWorld) (c : Con)
    : run (DirWorld * UdpWorld * Con * Z) :=
  match prepare features options dw w with
  | (_, _, None) => Panics
  | (dw, w, Some (Err e)) =>
      let^ c := eprintln (NAME ++ bstr ": " ++ run_error features e) c in Done (dw, w, c, 1)
  | (dw, w, Some (Ok prepared)) =>
      let^ c :=
        if identity_generated prepared
        then eprintln (NAME ++ bstr ": generated a self-signed Ed25519 TEST identity in " ++ Display.show_fs_path (identity_dir options)) c
        else Done c in
      let^ c := identity_lines (presented_identity prepared) c in
      let^ c := eprintln (quic_observing (s_bound (server prepared)) options) c in
      let^ c := until_interrupted (opt_run_for options) (opt_max_connections options) c in
      let^ r := run_server (U := threaded_udp U)
        (SE := threaded_env (encoder_of (p_options prepared)) U SE (pending_records (s_config (server prepared))))
        fuel (server prepared) (w, start_thread c schedule) in
      let '((w, th), summary) := r in
      let^ r := observe_quic_end summary (out th) in
      Done (dw, w, fst r, snd r)
  end.

(** *** The program *)

Variable quic_diag : bool.

(** The directories, the socket and the console at the end, and the exit
    status. *)
(* facade/bin/tatami-server.rs:404-429 main *)
Definition main (args : list bytes) (started : Z) (steps : list (@Run.Label A IoError)) (schedule : list nat)
    (dw : DirWorld) (w : UdpWorld) (c : Con) : run (DirWorld * UdpWorld * Con * Z) :=
  let exit (r : run (Con * Z)) := let^ r := r in Done (dw, w, fst r, snd r) in
  match parse_args quic_diag args with
  | None => Panics
  | Some (Err msg) =>
      let^ c := eprintln (NAME ++ bstr ": " ++ msg) c in
      let^ c := eprintln [] c in
      let^ c := eprint USAGE c in
      Done (dw, w, c, 2)
  | Some (Ok Help) => exit (let^ c := print USAGE c in Done (c, 0))
  | Some (Ok Version) => exit (let^ c := print (NAME ++ bstr " " ++ VERSION ++ [x0a]) c in Done (c, 0))
  | Some (Ok (Observe options)) => exit (observe options started steps c)
  | Some (Ok (QuicObserve options)) => observe_quic options schedule dw w c
  end.
End quic.
End running.
End ServerCli.
