(* ===== verification/ServerCliProps.v ===== *)
(** * What the server's command line accepts

    The arguments of [tatami-server] never crash the parser, and options it
    accepts are options the observers accept: counts and durations are in
    range, a QUIC observer has one identity and usable protocol names. The one
    exception, a positive duration that rounds to zero, has its own theorem. *)

From stdpp Require Import gmap.
From S2P Require Import Prelude WireError NameList Primitives Messages KexInit ExtInfo WireIdent TcpIdent Packet.
From S2P Require Import Initial Probe Observer KeyAlgorithm HostKey HostKeyProps Negotiate Gcm Transcript Trust Spki SpkiProps PrivateKey.
From S2P Require Import KnownHosts KnownHostsProps Text TextProps FacadeTrust Handshake Seam Drivers DriversProofs ObserverRun.
From S2P Require Import Listener ListenerProofs ListenerProps Calendar Utf8 Display ProbeReport Records RecordsProps ObserverLog Durations.
From S2P Require Import QuicTls QuicClient QuicReport HostSignature QuicIdentity QuicServer QuicRun QuicRunProps QuicRecords QuicLog Cli ServerCli.

Open Scope Z_scope.
Import ServerCli.

(** ** Parsing without a crash *)

(** No panic, and a value that satisfies [Q], or a usage error. *)
Definition post {T} (Q : T -> Prop) (m : parsed T) : Prop :=
  match m with Some (Ok x) => Q x | Some (Err _) => True | None => False end.

Lemma post_bind {T V} (m : parsed T) (f : T -> parsed V) (P : T -> Prop) (Q : V -> Prop) :
  post P m -> (forall x, P x -> post Q (f x)) -> post Q (parsed_bind m f).
Proof. destruct m as [[x|e]|]; cbn; naive_solver. Qed.

Lemma post_value {T} (Q : T -> Prop) it o k :
  (forall v it', it = v :: it' -> post Q (k v it')) -> post Q (next_value it o k).
Proof. destruct it as [|v it]; [done|]. eauto. Qed.

Lemma post_mono {T} (P Q : T -> Prop) m : (forall x, P x -> Q x) -> post P m -> post Q m.
Proof. destruct m as [[x|e]|]; cbn; naive_solver. Qed.

Section options.
Context {A : Type} `{F : Fs, SA : !ServerArgs A F} `{Db : DebugStr}.
Variable quic_diag : bool.

(** A duration the parser returns, in nanoseconds; a count; a limit on both. *)
Definition year_at_most (d : Z) : Prop := 0 <= d <= Durations.YEAR * 1000000000.
Definition count (n : Z) : Prop := 1 <= n <= U64_MAX.

Lemma post_duration s : post year_at_most (Durations.server_parse_duration s).
Proof. destruct (Durations.server_duration_within s) as (r & -> & Hr). destruct r as [d|e]; [|done]. by apply Hr. Qed.

Lemma post_count name s : post count (parse_count name s).
Proof.
  unfold parse_count. destruct (parse_unsigned U64_MAX s) as [n|] eqn:E; [|done]. apply parse_unsigned_range in E; [|done].
  destruct (Z.ltb_spec 0 n); [|done]. unfold post, count. lia.
Qed.

Lemma post_concurrent s : post count (parse_concurrent s).
Proof. unfold parse_concurrent. eapply post_bind; [apply post_count|]. intros n Hn. destruct (_ <=? _); done. Qed.

Lemma post_listen v : post (fun _ => True) (parse_listen v).
Proof. unfold parse_listen. by destruct (parse_socket_addr v). Qed.

Lemma post_format v : post (fun _ => True) (parse_format v).
Proof. unfold parse_format. by destruct (bytes_eqb v _). Qed.

Lemma post_alpn v : post (fun p => 1 <= zlen p <= 255) (parse_alpn v).
Proof.
  unfold parse_alpn. pose proof (zlen_nonneg v). destruct (Z.eqb_spec (zlen v) 0), (Z.ltb_spec 255 (zlen v)); cbn; try done. lia.
Qed.

Lemma post_unmatched {T} (Q : T -> Prop) s : post Q (unmatched s).
Proof. unfold unmatched. by destruct (starts_with _ s). Qed.

Lemma post_transport args : post (fun _ => True) (select_transport args).
Proof.
  assert (forall n it sel, (length it <= n)%nat -> post (fun _ => True) (select_loop sel it)) as Hl.
  { induction n as [|n IH]; intros it sel Hn; (destruct it as [|a it]; [done|]); cbn in Hn; [lia|]. cbn [select_loop].
    destruct (bytes_eqb a _); [|apply IH; lia]. apply post_value. intros v it' ->. cbn in Hn.
    apply (post_bind _ _ (fun _ => True)); [unfold parse_transport; by repeat case_match|].
    intros t _. case_match; [done|]. apply IH. lia. }
  unfold select_transport. eapply post_bind; [by apply (Hl (length args))|done].
Qed.

(** ** TCP *)

Import ObserverDriver.

(** The listener's configuration differs from the default in these fields only. *)
Definition tcp_ok (o : Records.Options A) : Prop :=
  let l := Records.opt_listener o in
  year_at_most (connection_timeout l) /\ from_option year_at_most True (run_for l) /\ count (max_concurrent l) /\
  from_option count True (max_connections l) /\
  cfg_read_chunk l = 4096 /\ pending_records l = 128 /\ shutdown_grace l = 5000000000 /\ poll_interval l = 25000000 /\
  overload_report_interval l = 1000000000 /\
  exists banner, cfg_observer l = mkObserverConfig (obs_software_version ObserverConfig_default) (obs_initial ObserverConfig_default) banner
    (cfg_unexpected_sample ObserverConfig_default) (obs_max_identification_line ObserverConfig_default).

Definition finished {T} (Q : T -> Prop) (r : scanned T) : Prop := match r with AskedHelp => True | Finished x => Q x end.

(** The tests of the parser, one option after the other. *)
Ltac scanning IH :=
  repeat match goal with
  | |- post _ (if ?b then _ else _) => destruct b; [|]
  | |- post _ (next_value _ _ _) => apply post_value; intros ? ? ->; cbn [length] in *
  | |- post _ (unmatched _) => apply post_unmatched
  | |- post _ (parsed_bind (Durations.server_parse_duration _) _) => eapply post_bind; [apply post_duration|]; intros ? ?
  | |- post _ (parsed_bind (parse_count _ _) _) => eapply post_bind; [apply post_count|]; intros ? ?
  | |- post _ (parsed_bind (parse_concurrent _) _) => eapply post_bind; [apply post_concurrent|]; intros ? ?
  | |- post _ (parsed_bind (parse_listen _) _) => eapply post_bind; [apply post_listen|]; intros ? ?
  | |- post _ (parsed_bind (parse_format _) _) => eapply post_bind; [apply post_format|]; intros ? ?
  | |- post _ (parsed_bind (parse_alpn _) _) => eapply post_bind; [apply post_alpn|]; intros ? ?
  | |- post _ (scan_tcp _ _) => apply IH; [lia|]
  | |- post _ (scan_quic _ _) => apply IH; [lia|]
  | |- post _ (Some (Ok AskedHelp)) => done
  end.

Lemma scan_tcp_post n : forall it o, (length it <= n)%nat -> tcp_ok o -> post (finished tcp_ok) (scan_tcp it o).
Proof.
  induction n as [|n IH]; intros it o Hn Ho; (destruct it as [|a it]; [done|]); cbn [length] in Hn; [lia|]. cbn [scan_tcp].
  destruct Ho as (H1 & H2 & H3 & H4 & H5 & H6 & H7 & H8 & H9 & banner & H10).
  scanning IH; unfold tcp_ok; cbn; split_and!; try done; first [by exists banner | exists true; by rewrite H10].
Qed.

Lemma tcp_default_ok a : tcp_ok (Records.Options_default a).
Proof. unfold tcp_ok, year_at_most, count. cbn. split_and!; try done. by exists false. Qed.

(** The configuration such options stand for is valid, unless a duration is zero. *)
Lemma tcp_ok_valid addable o : tcp_ok o -> (forall d, year_at_most d -> addable d = true) ->
  connection_timeout (Records.opt_listener o) <> 0 -> run_for (Records.opt_listener o) <> Some 0 ->
  Run.validate addable (Records.opt_listener o) = Ok tt.
Proof.
  intros (H1 & H2 & H3 & H4 & H5 & H6 & H7 & H8 & H9 & banner & H10) Ha Hc Hr. unfold Run.validate, Run.usable.
  rewrite H5, H6, H7, H8, H9, H10. apply Z.eqb_neq in Hc as ->. rewrite !(Ha _) by (done || by vm_compute). cbn [negb andb Z.eqb].
  destruct (run_for (Records.opt_listener o)) as [d|]; cbn [from_option] in H2.
  - destruct (Z.eqb_spec d 0) as [->|]; [done|]. rewrite Ha by done. cbn [negb andb]. unfold count in H3.
    destruct (Z.eqb_spec (max_concurrent (Records.opt_listener o)) 0); [lia|]. by destruct banner.
  - unfold count in H3. destruct (Z.eqb_spec (max_concurrent (Records.opt_listener o)) 0); [lia|]. by destruct banner.
Qed.

(** ** QUIC *)

Import QuicRecords.

Definition quic_ok (o : Options A) : Prop :=
  year_at_most (opt_handshake_timeout o) /\ from_option year_at_most True (opt_run_for o) /\ count (opt_max_concurrent o) /\
  from_option count True (opt_max_connections o) /\ opt_pending_records o = 128.

Definition args_ok (a : QuicArgs) : Prop :=
  quic_ok (a_options a) /\ host_key (a_options a) = None /\ Forall (fun p => 1 <= zlen p <= 255) (a_alpn a).

Lemma scan_quic_post n : forall it a, (length it <= n)%nat -> args_ok a -> post (finished args_ok) (scan_quic it a).
Proof.
  induction n as [|n IH]; intros it a Hn Ho; (destruct it as [|x it]; [done|]); cbn [length] in Hn; [lia|]. cbn [scan_quic].
  destruct Ho as ((H1 & H2 & H3 & H4 & H5) & H6 & H7).
  scanning IH; try done; unfold args_ok, quic_ok; cbn; split_and!; try done. apply Forall_app. by split; [|constructor].
Qed.

(** Exactly one identity: a host key, or a directory. *)
Definition one_identity (o : Options A) : Prop := host_key o <> None -> generate_identity o = false.

Lemma quic_command_post a : args_ok a ->
  post (fun c => exists o, c = QuicObserve o /\ quic_ok o /\ one_identity o /\ opt_alpn o <> [] /\ Forall (fun p => 1 <= zlen p <= 255) (opt_alpn o)) (quic_command a).
Proof.
  intros ((H1 & H2 & H3 & H4 & H5) & H6 & H7). unfold quic_command. destruct (a_alpn a) as [|p l] eqn:Ea; [done|].
  destruct (a_key a) as [key|], (a_dir a) as [dir|]; [done| | |done].
  - destruct (generate_identity _) eqn:Eg; [done|]. eexists. split; [done|]. split_and!; [done|by intros _|done|done].
  - eexists. split; [done|]. split_and!; [done| |done|done]. unfold one_identity. cbn. by rewrite H6.
Qed.

Lemma alpn_entries_ok `{Rustls} l : Forall (fun p => 1 <= zlen p <= 255) l -> Quic.alpn_entries l = Ok tt.
Proof.
  induction 1 as [|p l Hp _ IH]; [done|]. cbn [Quic.alpn_entries].
  destruct (Z.eqb_spec (zlen p) 0); [lia|]. destruct (Z.ltb_spec 255 (zlen p)); [lia|done].
Qed.

Lemma quic_ok_valid `{R : Rustls, Sg : !Signing} o id :
  quic_ok o -> opt_alpn o <> [] -> Forall (fun p => 1 <= zlen p <= 255) (opt_alpn o) -> opt_handshake_timeout o <> 0 -> opt_run_for o <> Some 0 ->
  QuicServer.validate (server_config o id) = Ok tt.
Proof.
  intros (H1 & H2 & H3 & H4 & H5) Hne Hl Ht Hr. unfold QuicServer.validate, server_config, QuicServer.config_new. cbn.
  assert (Quic.validate_alpn (opt_alpn o) = Ok tt) as ->.
  { unfold Quic.validate_alpn. destruct (opt_alpn o); [done|]. by apply alpn_entries_ok. }
  cbn [rbind]. apply Z.eqb_neq in Ht. rewrite Ht, H5. unfold count in *. destruct (Z.eqb_spec (opt_max_concurrent o) 0); [lia|].
  assert (match opt_run_for o with Some d => d =? 0 | None => false end = false) as ->.
  { destruct (opt_run_for o) as [d|]; [|done]. apply Z.eqb_neq. congruence. }
  destruct (opt_max_connections o) as [m|]; cbn in *; [destruct (Z.eqb_spec m 0); [lia|]|]; by destruct id.
Qed.

(** C37: no arguments crash the server's parser, and what it accepts, the
    observers accept: counts are at least one and fit their types, durations are
    at most 366 days, and unless one of them is zero, [validate] succeeds on the
    options of either transport (for TCP, with a clock that such durations can
    be added to). A QUIC observer is only accepted in a build that has it, with
    at least one protocol name of 1 to 255 bytes, and never with both a host key
    and a generated identity. *)
Theorem server_options_valid args :
  match parse_args quic_diag args with
  | None => False
  | Some (Err _) | Some (Ok Help) | Some (Ok Version) => True
  | Some (Ok (Observe o)) =>
      let l := Records.opt_listener o in
      year_at_most (connection_timeout l) /\ from_option year_at_most True (run_for l) /\
      count (max_concurrent l) /\ from_option count True (max_connections l) /\
      forall addable, (forall d, year_at_most d -> addable d = true) -> connection_timeout l <> 0 -> run_for l <> Some 0 ->
        Run.validate addable l = Ok tt
  | Some (Ok (QuicObserve o)) =>
      quic_diag = true /\ quic_ok o /\ one_identity o /\
      opt_alpn o <> [] /\ Forall (fun p => 1 <= zlen p <= 255) (opt_alpn o) /\
      forall (R : Rustls) (Sg : Signing) (id : QuicIdentity.ServerIdentity), opt_handshake_timeout o <> 0 -> opt_run_for o <> Some 0 ->
        QuicServer.validate (server_config o id) = Ok tt
  end.
Proof.
  destruct args as [|first it]; [done|]. cbn [parse_args]. do 2 (destruct (_ || _); [done|]).
  destruct (bytes_eqb first _); [|by destruct (starts_with _ _)].
  pose proof (post_transport it) as Ht. destruct (select_transport it) as [[[]|e]|]; cbn [parsed_bind]; [| |done|done].
  - unfold parse_tcp_observe. pose proof (scan_tcp_post (length it) it (Records.Options_default (loopback 2222)) ltac:(lia)) as Hs.
    destruct (scan_tcp it _) as [[[|o]|e]|]; cbn [parsed_bind]; [done| |done|].
    + pose proof (Hs (tcp_default_ok _)) as Ho. cbn in Ho. destruct Ho as (H1 & H2 & H3 & H4 & H5).
      split_and!; try done. intros. by apply tcp_ok_valid.
    + apply Hs, tcp_default_ok.
  - destruct quic_diag; [|done]. unfold parse_quic_observe.
    pose proof (scan_quic_post (length it) it (mkArgs [] None None (options_new (loopback 4433) [] empty_path)) ltac:(lia)) as Hs.
    destruct (scan_quic it _) as [[[|a]|e]|]; cbn [parsed_bind]; [done| |done|by apply Hs].
    assert (args_ok a) as Ha by (by apply Hs). pose proof (quic_command_post a Ha) as Hc.
    destruct (quic_command a) as [[c|e]|]; [|done|done]. destruct Hc as (o & -> & Hq & H1 & H2 & H3).
    split_and!; try done. intros. by apply quic_ok_valid.
Qed.
End options.

(** ** A duration that rounds to zero *)

Section tiny.
Context {A : Type} `{F : Fs, SA : !ServerArgs A F, FS : !Display.FsShows F} `{Db : DebugStr, DbD : DebugDuration}.
Context `{Sh : Display.Shows, ShA : !Display.ShowAddr A, B64 : Base64} `{C : Console, LC : !LogConsole}.
Context `{BO : !Run.BindOs A} (addable : Z -> bool).
Context `{R : Rustls, Sg : !Signing, Rc : Rcgen, Rg : Ring, H : Hash, DD : Dalek} `{Q : !Quinn A} `{QS : !QuinnServer A} `{HO : HashOrder}.
Context `{U : !Udp A} `{SE : !QuicRun.ServerEnv A U} `{D : !IdentityDir F} `{BP : Base64Padded, P : Pem}.
Context `{Sk : SshKey, DS : !DalekSigning DD, U8 : U8192}.
Context (features : Features) (fuel : nat) (quic_diag : bool).

(** A timeout of a tenth of a nanosecond, which the help text allows (it
    says that a duration must be greater than zero), is not a usage error: the
    parser accepts it, rounds it to zero, and the program fails with status 1
    when the listener refuses its configuration. *)
Theorem server_tiny_timeout_refused started steps schedule (dw : DirWorld) (w : UdpWorld) (c : Con) :
  ServerCli.main addable features fuel quic_diag [bstr "observe"; bstr "--timeout"; bstr "0.0000000001s"] started steps schedule dw w c =
  let^ c := eprintln (bstr "tatami-server: invalid configuration: connection_timeout must be positive and finite") c in
  Done (dw, w, c, 1).
Proof.
  unfold ServerCli.main.
  replace (parse_args quic_diag _) with
    (Some (Ok (Observe (on_listener (set_timeout 0) (Records.Options_default (loopback 2222)))) : result Command UsageError))
    by (vm_compute; reflexivity).
  unfold observe, Records.prepare, Run.bind, Run.validate. cbn. by destruct (eprintln _ c).
Qed.
End tiny.
