(* ===== verification/QuicPair.v ===== *)
(** * The two QUIC cores in memory

    Models [Pair] and [run_client_into_blackhole] of
    crates/tatami_ssh_quic/src/diag/inmem.rs: a server core and a client core
    whose datagrams move through queues under a virtual clock, as the
    repository's tests drive them. Instants are integers; [wall k] is the time
    of day when the datagram number [k] is delivered. *)

From stdpp Require Import gmap.
From S2P Require Import Prelude WireError NameList Primitives Messages KexInit KeyAlgorithm HostKey HostKeyProps.
From S2P Require Import Packet Gcm Transcript Trust Spki SpkiProps KnownHosts KnownHostsProps Text FacadeTrust Seam.
From S2P Require Import Display Durations QuicTls QuicClient QuicClientProps HostSignature QuicIdentity QuicServer QuicServerProps.

Open Scope Z_scope.

Module QuicPair.
Import Quic.

(* quic/diag/inmem.rs:24-29 Direction *)
Inductive Direction : Type := ToServer | ToClient.

#[export] Instance direction_eq_dec : EqDecision Direction.
Proof. solve_decision. Defined.

(* quic/diag/inmem.rs:33-40 Captured *)
Record Captured : Type := mkCaptured { direction : Direction; at_time : Z; captured_payload : bytes }.

Section pair.
Context `{R : Rustls, Sg : !Signing, Rc : Rcgen} `{H : Hash, F : Fs, BP : Base64Padded, HM : HmacSha1, DD : Dalek}.
Context {A : Type} `{Q : !Quinn A} `{QS : !QuinnServer A} `{HO : HashOrder} `{U : !Udp A}.
Context (features : Features) (wall : Z -> Z).

Abbreviation Server := (QuicServer.ServerCore (A := A)).
Abbreviation Client := (QuicClient.ClientCore (A := A)).
Abbreviation Observation := (QuicServer.HandshakeObservation A).

(* quic/diag/inmem.rs:43-61 Pair *)
Record Pair : Type := mkPair {
  server : Server;
  client : Client;
  now : Z;
  server_addr : A;
  client_addr : A;
  to_server : list (Datagram A);
  to_client : list (Datagram A);
  observations : list Observation;
  wire : list Captured;
  dropping : option Direction
}.
Implicit Type p : Pair.

(** Moving the parts that a delivery changes. *)
Definition with_server s out p := mkPair s (client p) (now p) (server_addr p) (client_addr p) (to_server p) out (observations p) (wire p) (dropping p).
Definition with_client c out p := mkPair (server p) c (now p) (server_addr p) (client_addr p) out (to_client p) (observations p) (wire p) (dropping p).
Definition set_now t p := mkPair (server p) (client p) t (server_addr p) (client_addr p) (to_server p) (to_client p) (observations p) (wire p) (dropping p).
Definition take_to_server p := mkPair (server p) (client p) (now p) (server_addr p) (client_addr p) [] (to_client p) (observations p) (wire p) (dropping p).
Definition take_to_client p := mkPair (server p) (client p) (now p) (server_addr p) (client_addr p) (to_server p) [] (observations p) (wire p) (dropping p).
Definition set_drop d p := mkPair (server p) (client p) (now p) (server_addr p) (client_addr p) (to_server p) (to_client p) (observations p) (wire p) d.

Definition capture (d : Direction) (b : bytes) p :=
  mkPair (server p) (client p) (now p) (server_addr p) (client_addr p) (to_server p) (to_client p) (observations p)
    (wire p ++ [mkCaptured d (now p) b]) (dropping p).

(** [self.observations.extend(self.server.drain_observations())]. *)
Definition collect p :=
  let '(s, l) := QuicServer.drain_observations (server p) in
  mkPair s (client p) (now p) (server_addr p) (client_addr p) (to_server p) (to_client p) (observations p ++ l) (wire p) (dropping p).

(* quic/diag/inmem.rs:66-87 Pair::new *)
Definition pair_new (fuel : nat) (start : Z) (server_config : QuicServer.DiagServerConfig (A := A))
    (client_config : QuicClient.DiagClientConfig (A := A)) (client_addr : A) : run (result Pair ConfigError) :=
  match QuicServer.core_new server_config (QuicServer.bind server_config) with
  | Err e => Done (Err e)
  | Ok server =>
      let^ r := QuicClient.core_new features fuel client_config start [] in
      Done (match r with
            | Err e => Err e
            | Ok (client, to_server) =>
                Ok (mkPair server client start (QuicServer.bind server_config) client_addr to_server [] [] [] None)
            end)
  end.

(* quic/diag/inmem.rs:99-115 Pair::step *)
Fixpoint deliver_to_server (fuel : nat) (l : list (Datagram A)) p : run Pair :=
  match l with
  | [] => Done p
  | d :: l =>
      let p := capture ToServer (payload d) p in
      if bool_decide (dropping p = Some ToServer) then deliver_to_server fuel l p
      else
        let^ r := QuicServer.handle_datagram fuel (wall (zlen (wire p))) (now p) (client_addr p) (payload d) (server p) (to_client p) in
        deliver_to_server fuel l (collect (with_server (fst r) (snd r) p))
  end.

(* quic/diag/inmem.rs:116-131 Pair::step *)
Fixpoint deliver_to_client (fuel : nat) (l : list (Datagram A)) p : run Pair :=
  match l with
  | [] => Done p
  | d :: l =>
      let p := capture ToClient (payload d) p in
      if bool_decide (dropping p = Some ToClient) then deliver_to_client fuel l p
      else
        let^ r := QuicClient.handle_datagram features fuel (now p) (server_addr p) (payload d) (client p) (to_server p) in
        deliver_to_client fuel l (with_client (fst r) (snd r) p)
  end.

(** Until both queues are empty. *)
(* quic/diag/inmem.rs:97-132 Pair::step *)
Fixpoint exchange (fuel : nat) p : run Pair :=
  match to_server p, to_client p with
  | [], [] => Done p
  | _, _ =>
      match fuel with
      | O => Spins
      | S fuel' =>
          let^ p := deliver_to_server fuel (to_server p) (take_to_server p) in
          let^ p := deliver_to_client fuel (to_client p) (take_to_client p) in
          exchange fuel' p
      end
  end.

(** The timers of both sides at the virtual time. *)
Definition fire (fuel : nat) p : run Pair :=
  let^ r := QuicServer.handle_timeouts fuel (now p) (server p) (to_client p) in
  let p := collect (with_server (fst r) (snd r) p) in
  let^ r := QuicClient.handle_timeouts features fuel (now p) (client p) (to_server p) in
  Done (with_client (fst r) (snd r) p).

(** Durations are in nanoseconds. *)
Definition next_instant p : Z :=
  let next :=
    match QuicServer.next_timeout (server p), QuicClient.next_timeout (client p) with
    | Some a, Some b => Some (Z.min a b)
    | Some a, None | None, Some a => Some a
    | None, None => None
    end in
  match next with Some t => if now p <? t then t else now p + 1000000 | None => now p + 1000000 end.

(* quic/diag/inmem.rs:92-147 Pair::step *)
Definition step (fuel : nat) p : run (Pair * bool) :=
  if QuicClient.is_finished (client p) then Done (p, false)
  else
    match to_server p, to_client p with
    | [], [] => let^ p := fire fuel (set_now (next_instant p) p) in Done (p, true)
    | _, _ => let^ p := exchange fuel p in Done (p, true)
    end.

(* quic/diag/inmem.rs:151-158 Pair::run *)
Fixpoint run_pair (fuel : nat) (max_steps : nat) p : run (Pair * bool) :=
  match max_steps with
  | O => Done (p, QuicClient.is_finished (client p))
  | S n =>
      let^ r := step fuel p in
      if snd r then run_pair fuel n (fst r) else Done (fst r, true)
  end.

(* quic/diag/inmem.rs:161-166 Pair::advance *)
Definition advance (fuel : nat) (d : Z) p : run Pair := fire fuel (set_now (now p + d) p).

(* quic/diag/inmem.rs:170-180 Pair::finish_client *)
Definition finish_client p : QuicClient.ClientOutcome (A := A) * list Observation * list Captured :=
  (QuicClient.finish (now p) (Some (client_addr p)) (client p), observations p, wire p).

(* quic/diag/inmem.rs:413-423 run_client_into_blackhole *)
Fixpoint blackhole_loop (fuel : nat) (max_steps : nat) (now : Z) (client : Client) : run (Z * Client) :=
  match max_steps with
  | O => Done (now, client)
  | S n =>
      if QuicClient.is_finished client then Done (now, client)
      else
        let now := match QuicClient.next_timeout client with
                   | Some t => if now <? t then t else now + 1000000
                   | None => now + 1000000
                   end in
        let^ r := QuicClient.handle_timeouts features fuel now client [] in
        blackhole_loop fuel n now (fst r)
  end.

(* quic/diag/inmem.rs:405-428 run_client_into_blackhole *)
Definition run_client_into_blackhole (fuel : nat) (start : Z) (config : QuicClient.DiagClientConfig (A := A)) (max_steps : nat)
    : run (result (QuicClient.ClientOutcome (A := A) * Z) ConfigError) :=
  let^ r := QuicClient.core_new features fuel config start [] in
  match r with
  | Err e => Done (Err e)
  | Ok (client, _) =>
      let^ r := blackhole_loop fuel max_steps start client in
      let '(now, client) := r in
      Done (Ok (QuicClient.finish now None client, Z.max 0 (now - start)))
  end.
End pair.
End QuicPair.

(** ** What holds in memory as over the network *)

Section sound.
Context `{R : Rustls, Sg : !Signing, Rc : Rcgen} `{H : Hash, F : Fs, BP : Base64Padded, HM : HmacSha1, DD : Dalek}.
Context {A : Type} `{Q : !Quinn A} `{QS : !QuinnServer A} `{HO : HashOrder} `{U : !Udp A}.
Context (features : Features) `{L : !QuinnLaws} (wall : Z -> Z).
Context (sc : QuicServer.DiagServerConfig (A := A)) (cc : QuicClient.DiagClientConfig (A := A)).
Import Quic QuicPair.

(** A test drives a pair by steps and by moving its clock, and may cut off a
    direction. *)
Inductive pair_step : Pair -> Pair -> Prop :=
| pair_stepped fuel p p' b : step features wall fuel p = Done (p', b) -> pair_step p p'
| pair_advanced fuel d p p' : advance features fuel d p = Done p' -> pair_step p p'
| pair_dropped d p : pair_step p (set_drop d p).

Definition driven (p : Pair) : Prop :=
  exists fuel start addr first, pair_new features fuel start sc cc addr = Done (Ok first) /\ rtc pair_step first p.

Record pair_inv (v : Verifier) (p : Pair) : Prop := mkPairInv {
  pi_server : reachable_core sc (QuicServer.bind sc) (server p) (observations p);
  pi_client : QuicClientProps.inv features v (client p);
  pi_empty : QuicServer.pending (server p) = []
}.

Lemma collect_inv v (p : Pair) s out :
  pair_inv v p -> (forall seen, core_step (server p, seen) (s, seen)) -> pair_inv v (collect (with_server s out p)).
Proof.
  intros [(first & Hn & Hr) Hc _] Hs. split; [|exact Hc|done]. exists first. split; [exact Hn|]. cbn.
  eapply rtc_r; [eapply rtc_r; [exact Hr|apply Hs]|]. apply step_drain.
Qed.

Lemma deliver_server_inv v fuel l (p p' : Pair) : pair_inv v p -> deliver_to_server wall fuel l p = Done p' -> pair_inv v p'.
Proof.
  revert p. induction l as [|d l IH]; intros p Hp; cbn [deliver_to_server]; [by intros [= <-]|].
  assert (pair_inv v (capture ToServer (payload d) p)) as Hp' by (by destruct Hp). case_bool_decide; [by apply IH|].
  intros ([s o] & Hs & Hr)%run_bind_done. eapply IH, Hr. apply collect_inv; [done|]. intros seen. by eapply step_datagram.
Qed.

Lemma deliver_client_inv v fuel l (p p' : Pair) : pair_inv v p -> deliver_to_client features fuel l p = Done p' -> pair_inv v p'.
Proof.
  revert p. induction l as [|d l IH]; intros p Hp; cbn [deliver_to_client]; [by intros [= <-]|].
  assert (pair_inv v (capture ToClient (payload d) p)) as Hp' by (by destruct Hp). case_bool_decide; [by apply IH|].
  intros ([c o] & Hs & Hr)%run_bind_done. eapply IH, Hr. destruct Hp' as [H1 H2 H3]. split; [exact H1| |exact H3]. by eapply inv_handle_datagram.
Qed.

Lemma exchange_inv v fuel (p p' : Pair) : pair_inv v p -> exchange features wall fuel p = Done p' -> pair_inv v p'.
Proof.
  assert (forall k (q q' : Pair) (e : Pair -> run Pair), (forall x x', pair_inv v x -> e x = Done x' -> pair_inv v x') -> pair_inv v q ->
    (let^ p := deliver_to_server wall k (to_server q) (take_to_server q) in
     let^ p := deliver_to_client features k (to_client p) (take_to_client p) in e p) = Done q' -> pair_inv v q') as Hround.
  { intros k q q' e He Hq (p1 & H1 & (p2 & H2 & H3)%run_bind_done)%run_bind_done. eapply He, H3.
    eapply deliver_client_inv, H2. assert (pair_inv v p1) as [? ? ?] by (eapply deliver_server_inv, H1; by destruct Hq). done. }
  revert p p'. induction fuel as [|fuel IH]; intros p p' Hp.
  - cbn [exchange]. destruct (to_server p), (to_client p); try done. by intros [= <-].
  - assert (exchange features wall (S fuel) p = Done p \/ exchange features wall (S fuel) p =
      (let^ p := deliver_to_server wall (S fuel) (to_server p) (take_to_server p) in
       let^ p := deliver_to_client features (S fuel) (to_client p) (take_to_client p) in exchange features wall fuel p)) as [E|E]
      by (cbn [exchange]; destruct (to_server p), (to_client p); auto).
    + rewrite E. by intros [= <-].
    + rewrite E. apply (Hround (S fuel) p p' (exchange features wall fuel)); [|done]. apply IH.
Qed.

Lemma fire_inv v fuel (p p' : Pair) : pair_inv v p -> fire features fuel p = Done p' -> pair_inv v p'.
Proof.
  intros Hp ([s o] & Hs & ([c o'] & Hc & [= <-])%run_bind_done)%run_bind_done.
  assert (pair_inv v (collect (with_server s o p))) as [H1 H2 H3] by (apply collect_inv; [done|]; intros seen; by eapply step_timeouts).
  split; [exact H1| |exact H3]. by eapply inv_handle_timeouts.
Qed.

Lemma pair_step_inv v (p p' : Pair) : pair_step p p' -> pair_inv v p -> pair_inv v p'.
Proof.
  destruct 1 as [fuel p p' b Hs|fuel d p p' Hs|d p]; intros Hp; [| |by destruct Hp].
  - unfold step in Hs. destruct (QuicClient.is_finished _); [by injection Hs as <- _|].
    destruct (to_server p) eqn:E1, (to_client p) eqn:E2; apply run_bind_done in Hs as (q & Hq & [= <- _]); try by eapply exchange_inv.
    eapply fire_inv, Hq. by destruct Hp.
  - eapply fire_inv, Hs. by destruct Hp.
Qed.

Lemma pair_reaches (p : Pair) : driven p -> exists v, verifier_for (QuicClient.trust cc) = Ok v /\ pair_inv v p.
Proof.
  intros (fuel & start & addr & first & Hn & Hr). unfold pair_new in Hn.
  destruct (QuicServer.core_new sc _) as [s|] eqn:Es; [|done]. apply run_bind_done in Hn as ([[c o]|?] & Hc & [= <-]).
  apply (core_new_inv features (L := L)) in Hc as (v & Hv & Hi). exists v. split; [done|].
  assert (pair_inv v (mkPair s c start (QuicServer.bind sc) addr o [] [] [] None)) as H0.
  { split; [|exact Hi|]; cbn; [by exists s|]. unfold QuicServer.core_new in Es.
    destruct (QuicServer.validate sc); [|done]. destruct (QuicServer.server_crypto _ _ _); [|done].
    cbn [rbind] in Es. destruct (transport_config _); [|done]. by injection Es as <-. }
  revert H0. induction Hr as [q|x y z Hxy _ IH]; [done|]. intros Hx. apply IH. by eapply pair_step_inv.
Qed.

(** The pair of cores that the tests drive behaves as the two programs do:
    however it is driven and whatever is dropped, the observations collected
    are sound records of the server (one per attempt, as many completed, failed
    and timed out as it counts), and an outcome of the client is only completed
    if the server authenticated itself as the client's trust option asks. *)
Theorem quic_pair_sound (p : Pair) outcome obs sent :
  0 <= QuicServer.max_concurrent sc -> driven p -> finish_client p = (outcome, obs, sent) ->
  let st := QuicServer.stats (server p) in
  NoDup (map QuicServer.id obs) /\ QuicServer.completed st = counted is_completed obs /\ QuicServer.failed st = counted is_failed obs /\
  QuicServer.timed_out st = counted is_timed_out obs /\
  (QuicClient.handshake outcome = QuicClient.Completed -> trusted_server features (QuicClient.trust cc) outcome).
Proof.
  intros Hm Hd [= <- <- <-]. destruct (pair_reaches p Hd) as (v & Hv & [H1 H2 H3]).
  destruct (quic_server_records_inv _ _ _ _ Hm H1) as (N & _ & C1 & C2 & C3 & _). rewrite H3, app_nil_r in *.
  split_and!; try done. intros Hc. apply (inv_finish features v) in Hc as (i & Ha & Hs); [|done]. by eapply authenticated_trusted.
Qed.
End sound.
